(* ===== verification/_CoqProject ===== *)
-Q . S2P
Prelude.v
PyValue.v
Requirements.v
TaskModel.v
Graph.v
Criteria.v
Base64.v
Members.v
Coordination.v
Workers.v
GitCoordination.v
Rollout.v
Effects.v
Shared.v
Hosts.v
HostLeases.v
HostLocks.v
Scale.v
ScaleSafety.v
Fleet.v
StateStore.v
StateHistory.v
RunRecords.v
RunIndex.v
RunIndexFresh.v
WorkerLease.v
LeaseSafety.v
WorkerClaim.v
DispatchQueue.v
Dispatch.v
DispatchSafety.v
DispatchFairness.v
Resources.v
ResourceSafety.v
ReclaimSafety.v
LaunchSafety.v
CiStatus.v
Approval.v
MergeQueue.v
MergeSafety.v
Reap.v
ReapSafety.v
ReapCost.v
