(* ===== verification/Prelude.v ===== *)
(** * Context Garden: a verification development

    Context Garden ([src/src/garden/]) keeps the tasks of a software project as Markdown documents with YAML front-matter, dispatches ready tasks to coding
    agents on a fleet of worker hosts, lets several installations share one garden, and merges what the agents deliver.  This library models the parts that
    decide: what a task document means, which task is ready, which run starts where, who holds the authority over a scope, which host may exist and who uses
    it, what a worker's result may change, what is merged, and how the durable files stay consistent under crashes and concurrent writers.

    ** The parts, and the files that model them

    Foundations
    - Prelude: results (Python functions that may raise), ordered dictionaries ([dict]) with the semantics of Python's, ASCII strings, stable sorting, and the tactics [run], [guards].
    - PyValue: the dynamic values that the YAML and JSON loaders return, with truthiness, [str], [int], [dict.get], and the equality of JSON values ([py_eq]).
    - Effects: programs over commands ([prog]), their finished and interrupted executions ([exec]), a logic for every prefix of a trace ([safe]), one for answered executions
      ([given]), and runs against a handler ([run], [trace]).  Services, files, clocks and other processes are commands; an execution may stop after any of them.
    - Shared: sections under one exclusive lock beside processes that do not take it, a logic for their invariants ([guards]), and its adequacy ([sections_keep]).

    Tasks
    - Requirements ([model.py] 25-200): execution requirements; parser, writer, and the policy merge.
    - TaskModel ([model.py] 203-706): statuses, front-matter, the [Task] record, its parser and renderer, dispatch order, slugs, log lines, phases.
    - Graph ([graph.py]): edge rules, blockers, readiness, topological order, critical path, layers, validation, mermaid export.
    - Criteria ([criteria.py], [scheduler/reap.py] 65-103): the checklist of acceptance criteria, a worker's amendments, evidence and its gaps, the Verification section.

    Installations that share a garden
    - Base64, Members ([members.py]): principals, the membership registry, credentials, assignments.
    - Coordination ([coordination.py]): the SQLite coordinator: fenced leases, journal, outbox, provider effects, reservations, hand-offs.
    - GitCoordination ([git_coordination.py]): the same promises without a service, on a compare-and-swap Git ref.

    Hosts
    - Workers ([hosts/models.py], [hosts/matching.py]): admission of a worker for an activity and the choice among workers.
    - Rollout ([worker_rollout.py]): the durable, fail-closed rollout of a release.
    - Hosts, HostLeases, HostLocks ([hosts/core.py], [hosts/provider.py]): the life of hosts in a pool, their leases, and the abstract lock that leases refine.
    - Scale, ScaleSafety ([hosts/scale.py]): admitted capacity with budgets, convergence, clean-up and emergency stop, driving the modelled host lifecycle.
    - Fleet ([fleet.py]): the controller that converges pools, with backoff and a circuit breaker; refines an abstract breaker.

    The scheduler's durable state
    - StateStore, StateHistory ([scheduler/state.py]): the side-store with change tracking over a heap of shared objects, merging saves, and the history archive with crashes.
    - RunRecords, RunIndex, RunIndexFresh ([runs.py]): run records and their three-way merge; the incremental index over live and archived runs.

    Workers that poll
    - WorkerLease, LeaseSafety, WorkerClaim ([web/pages/api.py], [runs.py]): claim, heartbeat and finish of remote runs, interleaved with the scheduler.

    A tick
    - DispatchQueue, Dispatch ([scheduler/dispatch.py], [selection.py], [budget.py], [quota.py], [resources.py], [__init__.py]): the queue, phases, budgets, slots, weights and pools, and
      the pass that starts tasks.  DispatchSafety and DispatchFairness hold its theorems.
    - Resources ([scheduler/resources.py], [storage.py]): admission of local runs by weights, memory, disk and pressure, under the admission lock, and the helper that
      reclaims memory.  ResourceSafety, ReclaimSafety and LaunchSafety hold its theorems.
    - Reap ([scheduler/reap.py]): what a tick does with a run that is over: collection, fences, retries, questions, disputes, publication, and resuming a pass that was killed.
      ReapSafety and ReapCost hold its theorems.
    - CiStatus ([ci_status.py], [validation.py]): what CI says about one commit.
    - Approval ([scheduler/rebase.py]): which head an approving review covers after rebases.
    - MergeQueue, MergeSafety ([scheduler/queue.py], [rebase.py], [poll.py]): the automerge gate and the queue.

    State and operations keep the names of the source; a class with attributes is a Record, a method is a function from the state it reads to a [result] (the
    exception, or the value and the new state) or a [prog].  Each file's own header says how its state corresponds to the code's.  Components call each
    other as in the code: Fleet runs Scale, Scale runs Hosts, WorkerClaim matches with Workers, DispatchQueue reads Graph, RunIndex and RunRecords, reaping
    amends Criteria, and the merge queue reads Approval, CiStatus and DispatchQueue's budgets.

    ** What the theorems show

    - Documents and requirements: rendering and parsing are inverse ([task_document_roundtrip]); parsed requirements satisfy the schema; the policy merge is the least upper bound of an
      order "every constraint is enforced" ([merge_is_least_upper_bound]).
    - Graph: [topological_order] returns an order of all tasks or a genuine cycle ([topological_order_spec]); readiness, layers and the critical path have lemmas of their own.
    - Criteria: amendments replace exactly the criteria they name ([amend_replaces_criteria]); an attestation closes the gaps exactly under the
      conditions of [attestation_closes_gaps], which leave out evidence matched by position.
    - Sharing: the coordinator's tables refine one abstract fenced lock per scope ([coordinator_refines_lock]), with at most one valid claim, exactly-once commands and bounded
      reservations; under a transport that may lose, delay or reject anything a Git transaction is at most one step of the shared history ([transact_linearizes]), generations fence and
      accepted operations replay; revocations persist.
    - Hosts: leases refine a compare-and-set lock per host, which excludes claims, though not the runs attached later ([leases_refine_lock]); a provider is only asked for what the pool
      permits; a host is handed out only when verified ready; admitted capacity and budgets are never exceeded, whatever crashes; a fleet pass refines a breaker; a rollout touches a host
      only when its journal permits it, contains the failures whose recovery its journal still has, ends, and completes an honest fleet whose activation keys are fresh.
    - Durable state: saves of different processes merge, up to values changed through references that the rows do not track ([save_merges], [run_saves_merge]), disjoint ones commute;
      archiving loses nothing, but archiving again loses what was archived before ([archive_lossless]); the incremental index equals the one rebuilt from the files, as long as no archive
      transaction is interrupted and every record can be read ([incremental_index_is_rebuilt]).
    - Workers: a lease fences all earlier workers of a run, an accepted result is final, and a poll gets the first run of the queue that fits ([claim_first_fit]).
    - The dispatch pass: a task is started only as the queue orders and after every check ([dispatch_guarded]); the pass respects the worker slots at every moment, beside the runs that
      others begin ([worker_slots_respected]); a task that was found to lack room is overtaken at most [max_bypasses] times, over any number of passes ([overtaking_bounded]).
    - Local admission: the weights of active local runs stay within the capacity at every moment, with any number of launchers that may die anywhere, apart from the runs that are begun
      without the admission lock ([capacity_respected]); a run is published only after measurements that left room for it ([launch_measured]); there is one reclaim helper ([single_reclaim_helper], a lemma).
    - Reaping: the work of a run is published only behind the fences and on proof of its commits ([publication_guarded]); a pass sends the task somewhere exactly once
      ([finalize_routes_once]); killed and resumed ticks count the cost of a run at most once ([cost_counted_once]).
    - The merge queue: what is merged was in review, read afresh, and passed every gate at exactly the merged head ([merge_guarded]); the queue keeps one head, unless a person restarts a
      stopped check ([one_head]); where exact heads are approved, the approval follows chains of unchanged patches only ([rebase_keeps_proven_approval]), which [mechanically_derived_iff] finds; a green CI answer is about the commit
      that was asked for ([green_bound_to_head]).
    - Lemmas that earlier plans stated as properties and that the files still prove: credentials and the registry's invariants (Members), effect life cycles and hand-offs (Coordination,
      GitCoordination), durability of admissions and revocation after retirement (ScaleSafety), release after rest and admission of hosts (HostLocks), readiness, layers, validation and
      critical path (Graph), round trips of requirements and front-matter, restored history (StateHistory), justified heads (Approval).

    ** Modelling conventions

    Text is a byte string ([string]); case, white space and the regular expressions are those of ASCII.  Keys of YAML and JSON mappings are strings; scalars of other
    YAML classes (floats, dates) are [PScalar]s carried by what the code observes of them; fields that hold identities are text.  Integers are Python's, unbounded ([Z]); prices, costs
    and times in seconds are exact rationals ([Q]), so rounding of floats is not shown except where the code rounds to four decimals.  Clocks and random bytes are arguments or commands;
    timestamps nothing reads back are left out.  Records that the scheduler writes as maps are read as maps.

    Parameters, with what a theorem needs of them as a named hypothesis and a concrete instance in its witness: the YAML and JSON libraries, [shlex], [fnmatch], PBKDF2, SHA-256,
    [repr] and [float] of loaded values, ISO dates, path resolution, the catalog of project phases, the rollout and host providers (arbitrary replies), the forge and git (arbitrary
    answers), which runner a task gets, and process state.

    Concurrency: a file lock or an SQLite [BEGIN IMMEDIATE] transaction makes an operation a function; what happens between such sections is a step relation or an arbitrary
    answer of a command.  Crashes are executions that stop ([exec] with outcome [None]) or steps of the relation.

    Loops: [topological_order] has the number of tasks as fuel, the search of Approval one more than the runs, [available_slots] the number of names, and running out is proved impossible;
    [transact]'s loop has the code's own bound on attempts; the other loops are structural.  Settings are fields of [Config] and [MergeConfig]; [max_bypasses] is the value after the code's [max(0, ...)].

    ** Not modelled, and why

    Processes and services: launching a run (checkout, brief, worker process), the mechanical rebase itself, the reclaim helper and the reading of memory and disk figures, host-provider adapters, SSH, browser checks,
    GitHub and git calls, and the command line, TUI and web pages.  Of the scheduler: the fences, investigations, opening pull requests and orphaned runs ([reap.py]), dispatching reviews, human decisions, retrospectives, trials, the feedback and triage part of
    polling, and live configuration.  Of the files above: the SVG renderer ([graph.py]); the evidence a task requires ([criteria.py] 30-92); the migration of legacy claims and the SQLite driver ([coordination.py] 134-152);
    checkpoint files, Git subprocesses and the facade [GitCoordinator] ([git_coordination.py] 1307-1623); [RolloutStore] and the command backend ([worker_rollout.py]); assumption texts of
    plans, the parsing of interruption notices and the acquisition lock ([hosts/core.py]); operation files, [DirectoryEnrollmentResolver] and [durable_worker_readiness] ([hosts/scale.py]); status
    texts and settings of the fleet; claim payloads, host facts and validation receipts of the worker protocol; archive moves and process state ([runs.py]); [redact_secrets] and plugin
    check providers ([ci_status.py]).  Log lines, events and notifications are left out throughout. *)

From Stdlib Require Export ZArith Lia Ascii String Sorted Permutation.
From stdpp Require Export base tactics option list gmap sets strings sorting pretty.

Set Default Proof Using "Type".

Declare Scope garden_scope.
Delimit Scope garden_scope with garden.
Open Scope garden_scope.
Open Scope Z_scope.

(** ** Results: Python functions that may raise *)

Inductive result (E A : Type) : Type :=
| Ok (a : A)
| Err (e : E).

Arguments Ok {E A} a.
Arguments Err {E A} e.

#[export] Instance result_ret {E} : MRet (result E) := fun A a => Ok a.
#[export] Instance result_bind {E} : MBind (result E) :=
  fun A B f m => match m with Ok a => f a | Err e => Err e end.
#[export] Instance result_fmap {E} : FMap (result E) :=
  fun A B f m => match m with Ok a => Ok (f a) | Err e => Err e end.

#[export] Instance result_eq_dec {E A} `{EqDecision E, EqDecision A} : EqDecision (result E A).
Proof. solve_decision. Defined.

(** [if b: raise e] followed by the rest of the function. *)
Notation "'raise' e 'when' b ;; k" := (if b then Err e else k)
  (at level 100, e at level 0, b at level 99, k at level 200, right associativity) : garden_scope.

Definition is_Ok {E A} (r : result E A) : bool := match r with Ok _ => true | Err _ => false end.

(** [mapM] over a list, stopping at the first error, as a Python [for] loop that raises does. *)
Fixpoint mapR {E A B} (f : A -> result E B) (l : list A) : result E (list B) :=
  match l with
  | [] => Ok []
  | x :: l' => y ← f x; ys ← mapR f l'; Ok (y :: ys)
  end.

(** A [for] loop threading a state, stopping at the first error. *)
Fixpoint foldR {E A S} (f : S -> A -> result E S) (l : list A) (s : S) : result E S :=
  match l with
  | [] => Ok s
  | x :: l' => s' ← f s x; foldR f l' s'
  end.

Lemma bind_Ok {E A B} (m : result E A) (f : A -> result E B) (b : B) :
  (m ≫= f) = Ok b <-> exists a, m = Ok a /\ f a = Ok b.
Proof. destruct m as [a|e]; cbn; split; [eauto|by intros (? & [= ->] & ?)|done|by intros (? & ? & ?)]. Qed.

Lemma raise_when_Ok {E A} (c : bool) (e : E) (k : result E A) (a : A) :
  (raise e when c ;; k) = Ok a <-> c = false /\ k = Ok a.
Proof. destruct c; split; [done|by intros [? ?]|done|by intros [_ ?]]. Qed.

Lemma foldR_app {E A S} (f : S -> A -> result E S) l1 l2 s :
  foldR f (l1 ++ l2) s = (s' ← foldR f l1 s; foldR f l2 s').
Proof.
  revert s. induction l1 as [|x l1 IH]; intros s; cbn; [done|].
  destruct (f s x); cbn; [apply IH|done].
Qed.

(** The invariant rule for a raising loop. *)
Lemma foldR_invariant {E A S} (P : S -> Prop) (f : S -> A -> result E S) l s s' :
  (forall a s1 s2, a ∈ l -> P s1 -> f s1 a = Ok s2 -> P s2) ->
  P s -> foldR f l s = Ok s' -> P s'.
Proof.
  revert s. induction l as [|x l IH]; intros s Hstep Hs; cbn; [congruence|].
  intros (s1 & Hf & Hr)%bind_Ok. apply (IH s1); [|by eapply Hstep; [left| |]|done].
  intros a t1 t2 Ha. apply Hstep. by right.
Qed.

Create Rewrite HintDb garden_ok.
#[export] Hint Rewrite @bind_Ok @raise_when_Ok : garden_ok.

(** Break a hypothesis saying that a straight-line raising computation returned. *)
Ltac inv_ok H :=
  repeat first
    [ apply bind_Ok in H as (? & ? & H)
    | apply raise_when_Ok in H as [? H] ].

Lemma fmap_Ok {E A B} (f : A -> B) (m : result E A) (b : B) :
  (f <$> m) = Ok b <-> exists a, m = Ok a /\ b = f a.
Proof. destruct m as [a|e]; cbn; split; [intros [= <-]; eauto|by intros (? & [= ->] & ->)|done|by intros (? & ? & ?)]. Qed.

(** Follow a hypothesis saying that a computation returned through its bindings, guards and case
    analyses, keeping the equation of each. *)
Ltac run H :=
  repeat match type of H with
    | (_ <$> _) = Ok _ => let E := fresh "E" in apply fmap_Ok in H as (? & E & ->); rename E into H
    | (_ ≫= _) = Ok _ => apply bind_Ok in H as (? & ? & H)
    | (raise _ when _ ;; _) = Ok _ => apply raise_when_Ok in H as [? H]
    | (match ?x with _ => _ end) = Ok _ => destruct x eqn:?; try discriminate H
    | Ok _ = Ok _ => injection H as H
    end.

(** Turn the boolean guards in the context into propositions. *)
Ltac guards :=
  repeat match goal with
    | H : negb _ = false |- _ => apply negb_false_iff in H
    | H : negb _ = true |- _ => apply negb_true_iff in H
    | H : bool_decide _ = true |- _ => apply bool_decide_eq_true in H
    | H : bool_decide _ = false |- _ => apply bool_decide_eq_false in H
    | H : (_ && _)%bool = true |- _ => apply andb_true_iff in H as [? ?]
    | H : (_ || _)%bool = false |- _ => apply orb_false_iff in H as [? ?]
    end.

(** ** Sorting: Python's [sorted] with a key

    [sorted] is stable; the stable sort of a list by a total preorder is unique, and insertion
    before the first element that is not smaller computes it. *)
Section sorting.
Context {A : Type} (leb : A -> A -> bool).

Fixpoint insert_by (x : A) (l : list A) : list A :=
  match l with
  | [] => [x]
  | y :: l' => if leb x y then x :: l else y :: insert_by x l'
  end.

Definition sort_by (l : list A) : list A := foldr insert_by [] l.

Lemma insert_by_Permutation x l : insert_by x l ≡ₚ x :: l.
Proof.
  induction l as [|y l IH]; cbn; [done|].
  destruct (leb x y); [done|]. rewrite IH. by constructor.
Qed.

Lemma sort_by_Permutation l : sort_by l ≡ₚ l.
Proof. induction l as [|x l IH]; cbn; [done|]. by rewrite insert_by_Permutation, IH. Qed.

Lemma elem_of_sort_by x l : x ∈ sort_by l <-> x ∈ l.
Proof. by rewrite sort_by_Permutation. Qed.

Hypothesis leb_total : forall x y, leb x y = true \/ leb y x = true.
Hypothesis leb_trans : forall x y z, leb x y = true -> leb y z = true -> leb x z = true.

#[local] Abbreviation R := (fun x y => leb x y = true).

Lemma insert_by_sorted x l : StronglySorted R l -> StronglySorted R (insert_by x l).
Proof using Type*.
  induction 1 as [|y l Hl IH Hy]; cbn; [by repeat constructor|].
  destruct (leb x y) eqn:Hxy.
  - constructor; [by constructor|]. constructor; [done|].
    eapply Forall_impl; [done|]. cbn. eauto.
  - constructor; [done|]. rewrite insert_by_Permutation. constructor; [|done].
    destruct (leb_total x y); congruence.
Qed.

Lemma sort_by_sorted l : StronglySorted R (sort_by l).
Proof using Type*. induction l; cbn; [constructor|by apply insert_by_sorted]. Qed.

(** A sorted list is left alone. *)
Lemma sort_by_id l : StronglySorted R l -> sort_by l = l.
Proof.
  induction 1 as [|x l Hl IH Hx]; [done|]. change (insert_by x (sort_by l) = x :: l). rewrite IH. destruct Hx as [|y l Hxy _]; cbn; [done|]. by rewrite Hxy.
Qed.

Lemma sort_by_idemp l : sort_by (sort_by l) = sort_by l.
Proof using Type*. apply sort_by_id, sort_by_sorted. Qed.
End sorting.

(** Sorting commutes with a map that keeps the keys. *)
Lemma sort_by_map {A B} (f : A -> B) leA leB l : (forall x y, leB (f x) (f y) = leA x y) -> sort_by leB (map f l) = map f (sort_by leA l).
Proof.
  intros Hf. induction l as [|x l IH]; [done|]. change (insert_by leB (f x) (sort_by leB (map f l)) = map f (insert_by leA x (sort_by leA l))).
  rewrite IH. clear IH. induction (sort_by leA l) as [|y l' IH]; cbn; [done|].
  rewrite Hf. destruct (leA x y); cbn; [done|by rewrite IH].
Qed.

(** *** Strings: [str] values compare by code point, which for UTF-8 bytes is byte order. *)
Definition str_leb (s t : string) : bool := String.leb s t.

Lemma str_leb_total s t : str_leb s t = true \/ str_leb t s = true.
Proof. apply String.leb_total. Qed.

Lemma str_leb_trans s t u : str_leb s t = true -> str_leb t u = true -> str_leb s u = true.
Proof.
  unfold str_leb. intros H1 H2. apply Is_true_eq_true.
  assert (H : String.le s u) by (etrans; [apply Is_true_eq_left, H1|apply Is_true_eq_left, H2]).
  exact H.
Qed.

Lemma str_leb_antisym s t : str_leb s t = true -> str_leb t s = true -> s = t.
Proof. apply String.leb_antisym. Qed.

Lemma str_leb_refl s : str_leb s s = true.
Proof. by destruct (str_leb_total s s). Qed.

(** [sorted(...)] over strings. *)
Definition sorted_str : list string -> list string := sort_by str_leb.

Abbreviation str_sorted := (StronglySorted (fun s t => str_leb s t = true)).

Lemma sorted_str_Permutation l : sorted_str l ≡ₚ l.
Proof. apply sort_by_Permutation. Qed.

Lemma elem_of_sorted_str s l : s ∈ sorted_str l <-> s ∈ l.
Proof. apply elem_of_sort_by. Qed.

Lemma sorted_str_sorted l : str_sorted (sorted_str l).
Proof. apply sort_by_sorted; [apply str_leb_total|apply str_leb_trans]. Qed.

(** Sorting forgets the order its input came in. *)
Lemma sorted_str_proper l1 l2 : l1 ≡ₚ l2 -> sorted_str l1 = sorted_str l2.
Proof.
  intros Hp. eapply StronglySorted_unique_strong;
    [|apply sorted_str_sorted|apply sorted_str_sorted|by rewrite !sorted_str_Permutation].
  intros x y _ _. apply str_leb_antisym.
Qed.

#[export] Instance sorted_str_Proper : Proper (Permutation ==> eq) sorted_str.
Proof. intros l1 l2. apply sorted_str_proper. Qed.

(** [tuple(sorted({...}))]: the elements without duplicates, sorted. *)
Definition sorted_set (l : list string) : list string := sorted_str (remove_dups l).

Lemma elem_of_sorted_set s l : s ∈ sorted_set l <-> s ∈ l.
Proof. unfold sorted_set. by rewrite elem_of_sorted_str, elem_of_remove_dups. Qed.

Lemma NoDup_sorted_set l : NoDup (sorted_set l).
Proof. unfold sorted_set. rewrite sorted_str_Permutation. apply NoDup_remove_dups. Qed.

(** Two lists with the same elements give the same [sorted_set]. *)
Lemma sorted_set_ext l1 l2 : (forall s, s ∈ l1 <-> s ∈ l2) -> sorted_set l1 = sorted_set l2.
Proof.
  intros H. apply sorted_str_proper, NoDup_Permutation; try apply NoDup_remove_dups.
  intros s. by rewrite !elem_of_remove_dups.
Qed.

(** ** Dictionaries: Python's [dict], which keeps insertion order

    An association list without repeated keys; assigning to a present key keeps its place,
    assigning to an absent one appends. *)
Definition dict (V : Type) : Type := list (string * V).

Section dicts.
Context {V : Type}.
Implicit Types (d : dict V) (k : string) (v : V).

Fixpoint dget k d : option V :=
  match d with
  | [] => None
  | (k', v) :: d' => if decide (k = k') then Some v else dget k d'
  end.

Fixpoint dset k v d : dict V :=
  match d with
  | [] => [(k, v)]
  | (k', v') :: d' => if decide (k = k') then (k', v) :: d' else (k', v') :: dset k v d'
  end.

Fixpoint ddel k d : dict V :=
  match d with
  | [] => []
  | (k', v') :: d' => if decide (k = k') then d' else (k', v') :: ddel k d'
  end.

Definition dkeys d : list string := d.*1.
Definition dvals d : list V := d.*2.
Definition dmem k d : bool := match dget k d with Some _ => true | None => false end.

(** [dict(pairs)]: later pairs overwrite earlier ones. *)
Definition dict_of (l : list (string * V)) : dict V :=
  foldl (fun d kv => dset kv.1 kv.2 d) [] l.

Lemma dget_dset_eq k v d : dget k (dset k v d) = Some v.
Proof.
  induction d as [|[k' v'] d IH]; cbn; [by rewrite decide_True|].
  destruct (decide (k = k')); cbn; [by rewrite decide_True|by rewrite decide_False].
Qed.

Lemma dget_dset_ne k k' v d : k <> k' -> dget k (dset k' v d) = dget k d.
Proof.
  intros Hne. induction d as [|[k2 v2] d IH]; cbn; [by rewrite decide_False|].
  destruct (decide (k' = k2)) as [->|]; cbn; repeat case_decide; congruence.
Qed.

Lemma dget_Some_elem k v d : dget k d = Some v -> (k, v) ∈ d.
Proof.
  induction d as [|[k' v'] d IH]; cbn; [done|].
  case_decide; [intros [= ->]; subst; by left|right; auto].
Qed.

Lemma dget_is_Some k d : is_Some (dget k d) <-> k ∈ dkeys d.
Proof.
  unfold dkeys. induction d as [|[k' v'] d IH]; cbn.
  - split; [by intros []|by intros ?%elem_of_nil].
  - rewrite elem_of_cons. case_decide; [split; eauto|]. rewrite IH. tauto.
Qed.

Lemma dget_None k d : dget k d = None <-> k ∉ dkeys d.
Proof. rewrite <- dget_is_Some, <- eq_None_not_Some. done. Qed.

Lemma elem_dget_Some k v d : NoDup (dkeys d) -> (k, v) ∈ d -> dget k d = Some v.
Proof.
  unfold dkeys. induction d as [|[k' v'] d IH]; cbn; [by intros _ ?%elem_of_nil|].
  rewrite NoDup_cons. intros [Hni Hnd] [[= -> ->]|Hin]%elem_of_cons; [by rewrite decide_True|].
  case_decide as Hk; [|auto].
  destruct Hni. rewrite <- Hk. apply list_elem_of_fmap. by exists (k, v).
Qed.

Lemma dmem_spec k d : dmem k d = true <-> k ∈ dkeys d.
Proof.
  rewrite <- dget_is_Some. unfold dmem. destruct (dget k d) as [v|]; [by eauto|]. split; [done|by intros []].
Qed.

Lemma dkeys_dset_present k v d : k ∈ dkeys d -> dkeys (dset k v d) = dkeys d.
Proof.
  unfold dkeys. induction d as [|[k' v'] d IH]; cbn; [by intros ?%elem_of_nil|].
  intros [->|Hin]%elem_of_cons; [by rewrite decide_True|].
  case_decide; cbn; [done|]. f_equal. auto.
Qed.

Lemma dkeys_dset_absent k v d : k ∉ dkeys d -> dkeys (dset k v d) = dkeys d ++ [k].
Proof.
  unfold dkeys. induction d as [|[k' v'] d IH]; cbn; [done|].
  intros Hni. apply not_elem_of_cons in Hni as [? ?].
  rewrite decide_False by done. cbn. f_equal. auto.
Qed.

Lemma elem_of_dkeys_dset k k' v d : k ∈ dkeys (dset k' v d) <-> k = k' \/ k ∈ dkeys d.
Proof.
  destruct (decide (k' ∈ dkeys d)).
  - rewrite dkeys_dset_present by done. set_solver.
  - rewrite dkeys_dset_absent by done. set_solver.
Qed.

Lemma NoDup_dkeys_dset k v d : NoDup (dkeys d) -> NoDup (dkeys (dset k v d)).
Proof.
  intros Hnd. destruct (decide (k ∈ dkeys d)).
  - by rewrite dkeys_dset_present.
  - rewrite dkeys_dset_absent by done. apply NoDup_app; split_and!; [done|set_solver|apply NoDup_singleton].
Qed.

Lemma dget_ddel_eq k d : NoDup (dkeys d) -> dget k (ddel k d) = None.
Proof.
  unfold dkeys. induction d as [|[k' v'] d IH]; cbn; [done|].
  rewrite NoDup_cons. intros [Hni Hnd]. case_decide as Hk; [rewrite Hk; by apply dget_None|].
  cbn. rewrite decide_False by done. auto.
Qed.

Lemma dget_ddel_ne k k' d : k <> k' -> dget k (ddel k' d) = dget k d.
Proof.
  intros Hne. induction d as [|[k2 v2] d IH]; cbn; [done|].
  destruct (decide (k' = k2)) as [->|]; cbn; [by rewrite decide_False|].
  case_decide; auto.
Qed.
End dicts.

#[export] Hint Rewrite @dget_dset_eq : garden_ok.

(** ** Strings: the [str] operations the program uses, on ASCII/UTF-8 bytes *)
Open Scope string_scope.
Open Scope Z_scope.

Definition is_upper (c : ascii) : bool := let n := N_of_ascii c in (65 <=? n)%N && (n <=? 90)%N.
Definition is_lower (c : ascii) : bool := let n := N_of_ascii c in (97 <=? n)%N && (n <=? 122)%N.
Definition is_digit (c : ascii) : bool := let n := N_of_ascii c in (48 <=? n)%N && (n <=? 57)%N.
Definition is_alnum (c : ascii) : bool := is_upper c || is_lower c || is_digit c.

(** [str.isspace] and the [\s] of [re], on one ASCII character. *)
Definition is_space (c : ascii) : bool :=
  let n := N_of_ascii c in ((9 <=? n)%N && (n <=? 13)%N) || ((28 <=? n)%N && (n <=? 32)%N).

Definition lower_ascii (c : ascii) : ascii :=
  if is_upper c then ascii_of_N (N_of_ascii c + 32)%N else c.

Fixpoint str_map (f : ascii -> ascii) (s : string) : string :=
  match s with EmptyString => EmptyString | String c s' => String (f c) (str_map f s') end.

(** [s.lower()] *)
Definition lower : string -> string := str_map lower_ascii.

Fixpoint str_all (p : ascii -> bool) (s : string) : bool :=
  match s with EmptyString => true | String c s' => p c && str_all p s' end.

(** [bool(s)] *)
Definition nonempty (s : string) : bool := match s with EmptyString => false | _ => true end.

(** [s.startswith(p)] *)
Definition startswith (p s : string) : bool := String.prefix p s.

(** [p in s] *)
Fixpoint contains (p s : string) : bool :=
  startswith p s || match s with String _ s' => contains p s' | EmptyString => false end.

(** [re.fullmatch(r"[0-9a-f]{n}", s)] *)
Definition is_hex (c : ascii) : bool := is_digit c || (let n := N_of_ascii c in (97 <=? n)%N && (n <=? 102)%N).
Definition is_hex_digest (n : nat) (s : string) : bool := (String.length s =? n)%nat && str_all is_hex s.

Fixpoint drop_str (n : nat) (s : string) : string :=
  match n, s with
  | O, _ => s
  | S n', String _ s' => drop_str n' s'
  | _, EmptyString => EmptyString
  end.

Fixpoint take_str (n : nat) (s : string) : string :=
  match n, s with
  | S n', String c s' => String c (take_str n' s')
  | _, _ => EmptyString
  end.

(** [s.removeprefix(p)] *)
Definition removeprefix (p s : string) : string :=
  if startswith p s then drop_str (String.length p) s else s.

Fixpoint lstrip_by (p : ascii -> bool) (s : string) : string :=
  match s with
  | String c s' => if p c then lstrip_by p s' else s
  | EmptyString => EmptyString
  end.

Fixpoint rstrip_by (p : ascii -> bool) (s : string) : string :=
  match s with
  | EmptyString => EmptyString
  | String c s' =>
      match rstrip_by p s' with
      | EmptyString => if p c then EmptyString else String c EmptyString
      | s'' => String c s''
      end
  end.

(** [s.lstrip()], [s.rstrip()], [s.strip()] *)
Definition lstrip : string -> string := lstrip_by is_space.
Definition rstrip : string -> string := rstrip_by is_space.
Definition strip (s : string) : string := rstrip (lstrip s).

(** [p in s] for strings *)
Fixpoint str_in (p s : string) : bool :=
  startswith p s || match s with EmptyString => false | String _ s' => str_in p s' end.

(** [sep.join(l)] *)
Fixpoint join (sep : string) (l : list string) : string :=
  match l with
  | [] => ""
  | [s] => s
  | s :: l' => s ++ sep ++ join sep l'
  end.

(** [str(n)] for an integer *)
Definition show (n : Z) : string := pretty n.

(** [s in l] for a list of strings *)
Definition mem (s : string) (l : list string) : bool := bool_decide (s ∈ l).

Lemma mem_spec s l : mem s l = true <-> s ∈ l.
Proof. apply bool_decide_eq_true. Qed.

Lemma mem_false s l : mem s l = false <-> s ∉ l.
Proof. apply bool_decide_eq_false. Qed.

(** [list(dict.fromkeys(l))]: drop repetitions, keeping first occurrences. *)
Fixpoint fromkeys_aux (seen l : list string) : list string :=
  match l with
  | [] => []
  | s :: l' => if mem s seen then fromkeys_aux seen l' else s :: fromkeys_aux (s :: seen) l'
  end.
Definition fromkeys : list string -> list string := fromkeys_aux [].

Lemma elem_of_fromkeys_aux s seen l : s ∈ fromkeys_aux seen l <-> s ∈ l /\ s ∉ seen.
Proof.
  revert seen. induction l as [|x l IH]; intros seen; cbn; [set_solver|].
  destruct (mem x seen) eqn:Hx.
  - apply mem_spec in Hx. rewrite IH. set_solver.
  - apply mem_false in Hx. rewrite elem_of_cons, IH.
    destruct (decide (s = x)) as [->|]; set_solver.
Qed.

Lemma elem_of_fromkeys s l : s ∈ fromkeys l <-> s ∈ l.
Proof. unfold fromkeys. rewrite elem_of_fromkeys_aux. set_solver. Qed.

Lemma NoDup_fromkeys l : NoDup (fromkeys l).
Proof.
  unfold fromkeys. generalize (@nil string). induction l as [|x l IH]; intros seen; cbn; [constructor|].
  destruct (mem x seen) eqn:Hx; [done|]. constructor; [|done].
  rewrite elem_of_fromkeys_aux. set_solver.
Qed.

(** A list without repetitions is left alone. *)
Lemma fromkeys_id l : NoDup l -> fromkeys l = l.
Proof.
  unfold fromkeys. intros Hnd. assert (H : forall s, s ∈ l -> s ∉ @nil string) by set_solver.
  revert H. generalize (@nil string). induction Hnd as [|x l Hx Hnd IH]; intros seen H; cbn; [done|].
  rewrite (proj2 (mem_false _ _)) by (apply H; left). f_equal. apply IH. set_solver.
Qed.

(** *** Stripping: what is removed and what is left *)

Lemma str_app_cons c (a b : string) : String c a ++ b = String c (a ++ b).
Proof. done. Qed.

Lemma str_app_nil_l (a : string) : "" ++ a = a.
Proof. done. Qed.

Create Rewrite HintDb str.
#[export] Hint Rewrite str_app_cons str_app_nil_l : str.

(** Compute through [++] and the string functions. *)
Ltac str_simpl := repeat (autorewrite with str in *; cbn in *).

Lemma str_app_assoc (a b c : string) : (a ++ b) ++ c = a ++ (b ++ c).
Proof. induction a as [|x a IH]; str_simpl; [done|]. by rewrite IH. Qed.

Lemma str_app_nil_r (a : string) : a ++ "" = a.
Proof. induction a as [|x a IH]; str_simpl; [done|]. by rewrite IH. Qed.

Lemma str_all_app p a b : str_all p (a ++ b) = str_all p a && str_all p b.
Proof. induction a as [|x a IH]; str_simpl; [done|]. by rewrite IH, andb_assoc. Qed.

Lemma str_all_impl (p q : ascii -> bool) s :
  (forall c, p c = true -> q c = true) -> str_all p s = true -> str_all q s = true.
Proof.
  intros H. induction s as [|c s IH]; cbn; [done|].
  rewrite !andb_true_iff. intros [? ?]. auto.
Qed.

Lemma length_app_str a b : String.length (a ++ b) = (String.length a + String.length b)%nat.
Proof. induction a as [|x a IH]; str_simpl; [done|]. by rewrite IH. Qed.

Lemma startswith_app p s : startswith p (p ++ s) = true.
Proof. unfold startswith. induction p as [|c p IH]; str_simpl; [by destruct s|]. destruct (ascii_dec c c); done. Qed.

Lemma drop_str_app p s : drop_str (String.length p) (p ++ s) = s.
Proof. by induction p as [|c p IH]; str_simpl. Qed.

Lemma take_drop_str n s : take_str n s ++ drop_str n s = s.
Proof. revert s. induction n as [|n IH]; intros [|c s]; str_simpl; try done. by rewrite IH. Qed.

Lemma length_take_str n s : (String.length (take_str n s) <= n)%nat.
Proof. revert s. induction n as [|n IH]; intros [|c s]; cbn; try lia. specialize (IH s). lia. Qed.

Section strip.
Context (p : ascii -> bool).

(** The first and the last character, when there is one, are not stripped ones. *)
Definition first_ok (s : string) : bool := match s with String c _ => negb (p c) | "" => true end.
Fixpoint last_ok (s : string) : bool :=
  match s with
  | "" => true
  | String c "" => negb (p c)
  | String _ s' => last_ok s'
  end.

Lemma lstrip_by_suffix s : exists t, s = t ++ lstrip_by p s /\ str_all p t = true.
Proof.
  induction s as [|c s IH]; str_simpl; [by exists ""|].
  destruct (p c) eqn:Hc; [|by exists ""].
  destruct IH as (t & Ht & Hp). exists (String c t). str_simpl. by rewrite Hc, Hp, <- Ht.
Qed.

Lemma rstrip_by_prefix s : exists t, s = rstrip_by p s ++ t /\ str_all p t = true.
Proof.
  induction s as [|c s (t & Ht & Hp)]; [by exists ""|]. cbn [rstrip_by].
  destruct (rstrip_by p s) as [|d r].
  - rewrite str_app_nil_l in Ht. subst t. destruct (p c) eqn:Hc; [exists (String c s)|exists s].
    + split; [done|]. cbn. by rewrite Hc.
    + by rewrite str_app_cons, str_app_nil_l.
  - exists t. rewrite str_app_cons. by rewrite <- Ht.
Qed.

Lemma first_ok_lstrip s : first_ok (lstrip_by p s) = true.
Proof. induction s as [|c s IH]; str_simpl; [done|]. destruct (p c) eqn:Hc; str_simpl; [done|by rewrite Hc]. Qed.

Lemma last_ok_rstrip s : last_ok (rstrip_by p s) = true.
Proof.
  induction s as [|c s IH]; str_simpl; [done|].
  destruct (rstrip_by p s) as [|d r]; [|done]. by destruct (p c) eqn:Hc; str_simpl; rewrite ?Hc.
Qed.

(** Text that neither starts nor ends with a stripped character is left alone. *)
Lemma lstrip_by_id s : first_ok s = true -> lstrip_by p s = s.
Proof. destruct s as [|c s]; str_simpl; [done|]. by destruct (p c). Qed.

Lemma rstrip_by_id s : last_ok s = true -> rstrip_by p s = s.
Proof.
  induction s as [|c s IH]; str_simpl; [done|]. destruct s as [|d s]; str_simpl.
  - by destruct (p c).
  - intros H. by rewrite (IH H).
Qed.

Lemma first_ok_app a b : first_ok (a ++ b) = true -> nonempty a = true -> first_ok a = true.
Proof. by destruct a. Qed.

Lemma first_ok_rstrip s : first_ok s = true -> first_ok (rstrip_by p s) = true.
Proof.
  destruct (rstrip_by_prefix s) as (t & Ht & _). intros H.
  destruct (rstrip_by p s) as [|c r] eqn:Hr; [done|]. rewrite Ht in H. done.
Qed.

Lemma str_all_lstrip q s : str_all q s = true -> str_all q (lstrip_by p s) = true.
Proof.
  destruct (lstrip_by_suffix s) as (t & Ht & _). rewrite Ht at 1.
  rewrite str_all_app, andb_true_iff. by intros [_ ?].
Qed.

Lemma str_all_rstrip q s : str_all q s = true -> str_all q (rstrip_by p s) = true.
Proof.
  destruct (rstrip_by_prefix s) as (t & Ht & _). rewrite Ht at 1.
  rewrite str_all_app, andb_true_iff. by intros [? _].
Qed.

(** Stripping what was appended. *)
Lemma rstrip_by_app s t : str_all p t = true -> rstrip_by p (s ++ t) = rstrip_by p s.
Proof.
  intros Ht. induction s as [|c s IH]; str_simpl; [|by rewrite IH].
  induction t as [|d t IHt]; str_simpl; [done|]. apply andb_true_iff in Ht as [Hd Ht].
  by rewrite (IHt Ht), Hd.
Qed.

Lemma lstrip_by_app t s : str_all p t = true -> lstrip_by p (t ++ s) = lstrip_by p s.
Proof.
  intros Ht. induction t as [|d t IHt]; str_simpl; [done|]. apply andb_true_iff in Ht as [Hd Ht].
  by rewrite Hd, IHt.
Qed.

Lemma rstrip_lstrip_comm s : rstrip_by p (lstrip_by p s) = lstrip_by p (rstrip_by p s).
Proof.
  induction s as [|c s IH]; str_simpl; [done|]. destruct (p c) eqn:Hc.
  - rewrite IH. destruct (rstrip_by p s) as [|d r]; str_simpl; [done|by rewrite Hc].
  - str_simpl. destruct (rstrip_by p s) as [|d r]; str_simpl; by rewrite ?Hc.
Qed.
End strip.

(** The invariant rule for a [for] loop whose invariant speaks of the elements already seen. *)
Lemma foldl_prefix_invariant {A S} (P : list A -> S -> Prop) (f : S -> A -> S) (l : list A) (s : S) :
  P [] s ->
  (forall l1 x l2 s, l = (l1 ++ x :: l2)%list -> P l1 s -> P (l1 ++ [x])%list (f s x)) ->
  P l (foldl f s l).
Proof.
  intros H0 Hstep.
  enough (Hgen : forall l2 l1 s, l = (l1 ++ l2)%list -> P l1 s -> P l (foldl f s l2)) by by apply (Hgen l []).
  induction l2 as [|x l2 IH]; intros l1 s' Hl HP; cbn.
  - by rewrite app_nil_r in Hl; subst.
  - apply (IH (l1 ++ [x])%list); [by rewrite <- app_assoc|]. by eapply Hstep.
Qed.
