(* ===== verification/PyValue.v ===== *)
(** * Dynamic values: what the YAML and JSON loaders hand to the program

    The program reads task documents and stored JSON as dynamically typed values and inspects
    them with [isinstance], truthiness, [str], [int] and [dict.get].  This file models those
    values, the built-ins the code applies to them, and the exceptions it raises. *)

From S2P Require Import Prelude.

(** Exceptions of the modelled modules; messages are kept where the code builds them. *)
Inductive exn : Type :=
| ValueError (msg : string)
| TypeError
| KeyError (key : string)
| RuntimeError (msg : string)
| PermissionError (msg : string).

#[export] Instance exn_eq_dec : EqDecision exn.
Proof. solve_decision. Defined.

(** A loaded value.  [PScalar] is a YAML scalar of another class (float, date, datetime),
    carried by what the code can observe of it: its [str], its [repr], its truthiness and the
    result of [int] on it.  Mapping keys are strings. *)
Inductive pyval : Type :=
| PNone
| PBool (b : bool)
| PInt (n : Z)
| PStr (s : string)
| PList (l : list pyval)
| PDict (d : list (string * pyval))
| PScalar (str_ repr_ : string) (truthy_ : bool) (int_ : option Z).

Section pyval_ind.
Variable P : pyval -> Prop.
Hypothesis HNone : P PNone.
Hypothesis HBool : forall b, P (PBool b).
Hypothesis HInt : forall n, P (PInt n).
Hypothesis HStr : forall s, P (PStr s).
Hypothesis HList : forall l, Forall P l -> P (PList l).
Hypothesis HDict : forall d, Forall (fun kv => P kv.2) d -> P (PDict d).
Hypothesis HScalar : forall a b c d, P (PScalar a b c d).

(** The induction principle that sees through the nested lists. *)
Fixpoint pyval_ind' (v : pyval) : P v :=
  match v with
  | PNone => HNone
  | PBool b => HBool b
  | PInt n => HInt n
  | PStr s => HStr s
  | PList l => HList l
      ((fix go (l : list pyval) : Forall P l :=
          match l with [] => Forall_nil_2 _ | x :: l' => Forall_cons_2 _ _ _ (pyval_ind' x) (go l') end) l)
  | PDict d => HDict d
      ((fix go (d : list (string * pyval)) : Forall (fun kv => P kv.2) d :=
          match d with [] => Forall_nil_2 _ | kv :: d' => Forall_cons_2 _ _ _ (pyval_ind' kv.2) (go d') end) d)
  | PScalar a b c d => HScalar a b c d
  end.
End pyval_ind.

#[export] Instance pyval_eq_dec : EqDecision pyval.
Proof.
  assert (H : forall v w : pyval, {v = w} + {v <> w}); [|exact H].
  fix go 1. intros v w.
  destruct v as [|b|n|s|l|d|a1 b1 c1 d1], w as [|b'|n'|s'|l'|d'|a2 b2 c2 d2]; try (right; discriminate).
  - by left.
  - destruct (decide (b = b')); [left|right]; congruence.
  - destruct (decide (n = n')); [left|right]; congruence.
  - destruct (decide (s = s')); [left|right]; congruence.
  - assert (Hl : {l = l'} + {l <> l'}).
    { revert l'. induction l as [|x l IH]; intros [|y l'']; try (right; discriminate); [by left|].
      destruct (go x y); [|right; congruence]. destruct (IH l''); [left|right]; congruence. }
    destruct Hl; [left|right]; congruence.
  - assert (Hd : {d = d'} + {d <> d'}).
    { revert d'. induction d as [|[k x] d IH]; intros [|[k' y] d'']; try (right; discriminate); [by left|].
      destruct (decide (k = k')); [|right; congruence].
      destruct (go x y); [|right; congruence]. destruct (IH d''); [left|right]; congruence. }
    destruct Hd; [left|right]; congruence.
  - destruct (decide ((a1, b1, c1, d1) = (a2, b2, c2, d2))); [left|right]; congruence.
Defined.

(** ** Built-ins *)

(** [bool(v)] *)
Definition truthy (v : pyval) : bool :=
  match v with
  | PNone => false
  | PBool b => b
  | PInt n => negb (n =? 0)
  | PStr s => nonempty s
  | PList l => match l with [] => false | _ => true end
  | PDict d => match d with [] => false | _ => true end
  | PScalar _ _ t _ => t
  end.

(** [data.get(k)] (absent is [None]) and [data.get(k, default)] *)
Definition pget (k : string) (d : dict pyval) : pyval := default PNone (dget k d).
Definition pget_or (k : string) (dflt : pyval) (d : dict pyval) : pyval := default dflt (dget k d).

(** [a or b] *)
Definition por (a b : pyval) : pyval := if truthy a then a else b.

Definition is_none (v : pyval) : bool := match v with PNone => true | _ => false end.

(** [set(d) <= names] and [set(d) - names] (truthy when some key is outside) *)
Definition keys_within (names : list string) (d : dict pyval) : bool :=
  forallb (fun k => mem k names) (dkeys d).

(** [repr(s)]: single quotes unless the text has one and no double quote. *)
Definition hex_digit (n : N) : ascii := ascii_of_N (if (n <? 10)%N then n + 48 else n + 87)%N.

Definition repr_char (quote : ascii) (c : ascii) : string :=
  let n := N_of_ascii c in
  if bool_decide (c = quote) || (n =? 92)%N then String "\" (String c "")
  else if (n =? 10)%N then "\n" else if (n =? 13)%N then "\r" else if (n =? 9)%N then "\t"
  else if (n <? 32)%N || (n =? 127)%N
       then "\x" ++ String (hex_digit (n / 16)) (String (hex_digit (n mod 16)) "")
  else String c "".

Definition squote : ascii := "'"%char.
Definition dquote : ascii := ascii_of_N 34.

Fixpoint str_flat (f : ascii -> string) (s : string) : string :=
  match s with EmptyString => "" | String c s' => f c ++ str_flat f s' end.

Definition has_char (c : ascii) (s : string) : bool := negb (str_all (fun x => negb (bool_decide (x = c))) s).

Definition repr_str (s : string) : string :=
  let q := if has_char squote s && negb (has_char dquote s) then dquote else squote in
  String q (str_flat (repr_char q) s ++ String q "").

(** [repr(v)] *)
Fixpoint py_repr (v : pyval) : string :=
  match v with
  | PNone => "None"
  | PBool b => if b then "True" else "False"
  | PInt n => show n
  | PStr s => repr_str s
  | PList l => "[" ++ join ", " (map py_repr l) ++ "]"
  | PDict d => "{" ++ join ", " (map (fun kv => repr_str kv.1 ++ ": " ++ py_repr kv.2) d) ++ "}"
  | PScalar _ r _ _ => r
  end.

(** [str(v)] *)
Definition py_str (v : pyval) : string :=
  match v with
  | PStr s => s
  | PScalar t _ _ _ => t
  | _ => py_repr v
  end.

(** The digits of [int(s)]: at least one digit, single underscores between digits. *)
Fixpoint digits_value (acc : Z) (after_digit : bool) (s : string) : option Z :=
  match s with
  | EmptyString => if after_digit then Some acc else None
  | String c s' =>
      if is_digit c then digits_value (acc * 10 + (Z.of_N (N_of_ascii c) - 48)) true s'
      else if bool_decide (c = "_"%char) && after_digit then digits_value acc false s'
      else None
  end.

(** [int(s)] on a string *)
Definition int_of_str (s : string) : result exn Z :=
  let o := match strip s with
           | String "-" s' => Z.opp <$> digits_value 0 false s'
           | String "+" s' => digits_value 0 false s'
           | s' => digits_value 0 false s'
           end in
  match o with Some n => Ok n | None => Err (ValueError "invalid literal for int()") end.

(** [int(v)] *)
Definition py_int (v : pyval) : result exn Z :=
  match v with
  | PInt n => Ok n
  | PBool b => Ok (if b then 1 else 0)
  | PStr s => int_of_str s
  | PScalar _ _ _ (Some n) => Ok n
  | _ => Err TypeError
  end.

(** [json.dumps(value, sort_keys=True)], as the value it denotes. *)
Fixpoint canonical (v : pyval) : pyval :=
  match v with
  | PList l => PList (map canonical l)
  | PDict d => PDict (sort_by (fun a b => str_leb a.1 b.1) (map (fun '(k, x) => (k, canonical x)) d))
  | _ => v
  end.

(** [isinstance(v, str)] over a list, keeping the strings *)
Fixpoint all_strs (l : list pyval) : option (list string) :=
  match l with
  | [] => Some []
  | PStr s :: l' => (fun r => s :: r) <$> all_strs l'
  | _ => None
  end.

Lemma all_strs_map l : all_strs (map PStr l) = Some l.
Proof. induction l as [|s l IH]; cbn; [done|]. by rewrite IH. Qed.

Lemma pget_dget k d v : dget k d = Some v -> pget k d = v.
Proof. unfold pget. by intros ->. Qed.

Lemma pget_or_dget k dflt d v : dget k d = Some v -> pget_or k dflt d = v.
Proof. unfold pget_or. by intros ->. Qed.

Lemma por_truthy a b : truthy a = true -> por a b = a.
Proof. unfold por. by intros ->. Qed.

Example repr_quotes : py_repr (PList [PStr "it's"; PStr "a"; PInt (-3); PNone]) =
  "[" ++ String dquote ("it's" ++ String dquote ", 'a', -3, None]").
Proof. reflexivity. Qed.

Example int_literals :
  map (fun s => int_of_str s) ["42"; " -7 "; "1_000"; "1__0"; "x"; ""]
  = [Ok 42; Ok (-7); Ok 1000; Err (ValueError "invalid literal for int()");
     Err (ValueError "invalid literal for int()"); Err (ValueError "invalid literal for int()")].
Proof. reflexivity. Qed.

(** ** JSON objects as rows, and [==] between JSON values *)

Abbreviation row := (dict pyval).

Fixpoint norm (v : pyval) : pyval :=
  match v with
  | PBool b => PInt (if b then 1 else 0)
  | PList l => PList (map norm l)
  | PDict d => PDict (sort_by (fun a b => str_leb a.1 b.1) (map (fun '(k, x) => (k, norm x)) d))
  | _ => v
  end.
Definition py_eq (a b : pyval) : bool := bool_decide (norm a = norm b).

Definition is_str (v : pyval) (s : string) : bool := bool_decide (v = PStr s).
Definition in_strs (v : pyval) (l : list string) : bool := match v with PStr s => mem s l | _ => false end.
(** [{**a, **b}] and [a.update(b)] *)
Definition merge_row (a b : row) : row := foldl (fun d kv => dset kv.1 kv.2 d) a b.
(** [r.setdefault(k, v)] *)
Definition setdefault (k : string) (v : pyval) (r : row) : row := if dmem k r then r else dset k v r.
(** A row that is present and not empty: what [if row:] tests. *)
Definition real (o : option row) : option row := match o with Some [] => None | _ => o end.

(** ** JSON equality *)

Lemma py_eq_refl v : py_eq v v = true.
Proof. by apply bool_decide_eq_true. Qed.

Lemma py_eq_trans u v w : py_eq u v = true -> py_eq v w = true -> py_eq u w = true.
Proof. unfold py_eq. rewrite !bool_decide_eq_true. congruence. Qed.

Lemma py_eq_sym u v : py_eq u v = true -> py_eq v u = true.
Proof. unfold py_eq. rewrite !bool_decide_eq_true. congruence. Qed.

(** [int] and [bool] do not distinguish values that [==] identifies. *)
Lemma py_int_py_eq u v : py_eq u v = true -> py_int u = py_int v.
Proof.
  unfold py_eq. rewrite bool_decide_eq_true.
  destruct u, v; cbn; intros H; simplify_eq; repeat case_match; simplify_eq; done.
Qed.

Lemma truthy_norm v : truthy (norm v) = truthy v.
Proof.
  destruct v as [|[]| | |[]|[|kv d]|]; try done. cbn [norm map truthy].
  match goal with |- context [sort_by ?le ?l] => pose proof (Permutation_length (sort_by_Permutation le l)) as Hl;
    destruct (sort_by le l); [discriminate Hl|done] end.
Qed.

Lemma truthy_py_eq u v : py_eq u v = true -> truthy u = truthy v.
Proof. unfold py_eq. rewrite bool_decide_eq_true. intros H. by rewrite <- truthy_norm, H, truthy_norm. Qed.

(** The text of a JSON value denotes an equal value. *)
Lemma norm_canonical v : norm (canonical v) = norm v.
Proof.
  induction v as [| | | |l IH|d IH|] using pyval_ind'; cbn [norm canonical]; try done.
  - f_equal. rewrite map_map. by apply map_ext_Forall.
  - f_equal. set (le := fun a b : string * pyval => str_leb a.1 b.1).
    rewrite <- (sort_by_map (fun '(k, x) => (k, norm x)) le le) by (by intros [? ?] [? ?]).
    unfold le. rewrite sort_by_idemp; [|intros ? ?; apply str_leb_total|intros ? ? ?; apply str_leb_trans].
    f_equal. rewrite map_map. apply map_ext_Forall. eapply Forall_impl; [exact IH|]. intros [k x] Hx. cbn in *. by rewrite Hx.
Qed.
Lemma py_eq_canonical v : py_eq (canonical v) v = true.
Proof. apply bool_decide_eq_true, norm_canonical. Qed.

(** ** Rows *)

Lemma dget_foldl_dset {V} k (b a : dict V) :
  NoDup (dkeys b) ->
  dget k (foldl (fun d kv => dset kv.1 kv.2 d) a b) = match dget k b with Some v => Some v | None => dget k a end.
Proof.
  unfold dkeys. revert a. induction b as [|[k' v] b IH]; intros a; cbn; [done|].
  rewrite NoDup_cons. intros [Hni Hnd]. rewrite IH by done. case_decide as Hk.
  - subst k'. apply (proj2 (dget_None k b)) in Hni. by rewrite Hni, dget_dset_eq.
  - by rewrite dget_dset_ne.
Qed.

Lemma dget_merge_row k a b :
  NoDup (dkeys b) -> dget k (merge_row a b) = match dget k b with Some v => Some v | None => dget k a end.
Proof. apply dget_foldl_dset. Qed.

Lemma real_Some o r : real o = Some r -> o = Some r.
Proof. by destruct o as [[|]|]. Qed.
