(* ===== verification/Requirements.v ===== *)
(** * Execution requirements ([src/src/garden/model.py], lines 25-200)

    The hard requirements a task puts on a worker: categorical capabilities, a resource
    reservation and soft worker preferences.  [parse_execution_requirements] reads the authored
    schema strictly, [er_to_dict] writes it, and [merge_execution_requirements] is the policy
    merge.  The abstract specification is the order [covers] ("every constraint of the small
    one is enforced by the big one"): the merge computes its least upper bound, and fails
    exactly when there is none. *)

From S2P Require Import Prelude PyValue.

(** ** Data *)

Record GpuReservation := {
  gpu_count : Z;
  gpu_vendor : string;
  gpu_min_device_memory_mib : Z;
  gpu_features : list string;
}.

Record ResourceReservation := {
  rr_memory_mib : Z;
  rr_vcpu : Z;
  rr_gpu : option GpuReservation;
}.

Record ExecutionRequirements := {
  er_capabilities : list string;
  er_resources : ResourceReservation;
  er_preferred_worker_configurations : list string;
  er_provenance : list string;
}.

Definition no_resources : ResourceReservation :=
  {| rr_memory_mib := 0; rr_vcpu := 0; rr_gpu := None |}.

(** [ExecutionRequirements()] *)
Definition no_requirements : ExecutionRequirements :=
  {| er_capabilities := []; er_resources := no_resources;
     er_preferred_worker_configurations := []; er_provenance := [] |}.

#[export] Instance GpuReservation_eq_dec : EqDecision GpuReservation.
Proof. solve_decision. Defined.
#[export] Instance ResourceReservation_eq_dec : EqDecision ResourceReservation.
Proof. solve_decision. Defined.
#[export] Instance ExecutionRequirements_eq_dec : EqDecision ExecutionRequirements.
Proof. solve_decision. Defined.

(** ** Operations *)

Definition nonempty_list {A} (l : list A) : bool := match l with [] => false | _ => true end.
Definition is_some {A} (o : option A) : bool := match o with Some _ => true | None => false end.

(** [ExecutionRequirements.empty] *)
Definition er_empty (r : ExecutionRequirements) : bool :=
  negb (nonempty_list (er_capabilities r) || nonempty_list (er_preferred_worker_configurations r)
        || negb (rr_memory_mib (er_resources r) =? 0) || negb (rr_vcpu (er_resources r) =? 0)
        || is_some (rr_gpu (er_resources r))).

Definition strs (l : list string) : pyval := PList (map PStr l).

(** An entry written only when its condition holds. *)
Definition entry_if (b : bool) (k : string) (v : pyval) : list (string * pyval) :=
  if b then [(k, v)] else [].

Definition gpu_to_dict (g : GpuReservation) : dict pyval :=
  ([("count", PInt (gpu_count g))]
   ++ entry_if (nonempty (gpu_vendor g)) "vendor" (PStr (gpu_vendor g))
   ++ entry_if (negb (gpu_min_device_memory_mib g =? 0)) "min_device_memory_mib"
        (PInt (gpu_min_device_memory_mib g))
   ++ entry_if (nonempty_list (gpu_features g)) "features" (strs (gpu_features g)))%list.

Definition resources_to_dict (rr : ResourceReservation) : dict pyval :=
  (entry_if (negb (rr_memory_mib rr =? 0)) "memory_mib" (PInt (rr_memory_mib rr))
   ++ entry_if (negb (rr_vcpu rr =? 0)) "vcpu" (PInt (rr_vcpu rr))
   ++ match rr_gpu rr with Some g => [("gpu", PDict (gpu_to_dict g))] | None => [] end)%list.

(** [ExecutionRequirements.to_dict] *)
Definition er_to_dict (r : ExecutionRequirements) : dict pyval :=
  let resources := resources_to_dict (er_resources r) in
  (entry_if (nonempty_list (er_capabilities r)) "capabilities"
     (PDict [("all_of", strs (er_capabilities r))])
   ++ entry_if (nonempty_list resources) "resources" (PDict resources)
   ++ entry_if (nonempty_list (er_preferred_worker_configurations r)) "preferences"
        (PDict [("worker_configurations", strs (er_preferred_worker_configurations r))]))%list.

(** [_positive_whole]: booleans are not whole numbers here. *)
Definition positive_whole (v : pyval) (name : string) (allow_zero : bool) : result exn Z :=
  match v with
  | PInt n =>
      raise (ValueError (name ++ " must be a " ++ (if allow_zero then "non-negative" else "positive")
                         ++ " whole number")) when (n <? (if allow_zero then 0 else 1)) ;;
      Ok n
  | _ => Err (ValueError (name ++ " must be a " ++ (if allow_zero then "non-negative" else "positive")
                          ++ " whole number"))
  end.

(** [re.fullmatch(r"[a-z][a-z0-9-]*", s)] *)
Definition logical_tail (c : ascii) : bool := is_lower c || is_digit c || bool_decide (c = "-"%char).
Definition logical_name (s : string) : bool :=
  match s with String c s' => is_lower c && str_all logical_tail s' | EmptyString => false end.

(** [CAPABILITY_NAME_RE.fullmatch(s)]: dot-separated logical names.  [fresh] is true at the
    start of a segment. *)
Fixpoint capability_segments (fresh : bool) (s : string) : bool :=
  match s with
  | EmptyString => negb fresh
  | String c s' =>
      if fresh then is_lower c && capability_segments false s'
      else if bool_decide (c = "."%char) then capability_segments true s'
      else logical_tail c && capability_segments false s'
  end.
Definition capability_name : string -> bool := capability_segments true.

(** [value.get(k)] with [None] read as the empty mapping, then the strict shape check. *)
Definition sub_mapping (v : pyval) (allowed : list string) (err : string) : result exn (dict pyval) :=
  match (match v with PNone => PDict [] | _ => v end) with
  | PDict d => raise (ValueError err) when (negb (keys_within allowed d)) ;; Ok d
  | _ => Err (ValueError err)
  end.

(** A list of strings all satisfying [ok]. *)
Definition name_list (v : pyval) (ok : string -> bool) (err : string) : result exn (list string) :=
  match v with
  | PList l =>
      match all_strs l with
      | Some names => raise (ValueError err) when (negb (forallb ok names)) ;; Ok names
      | None => Err (ValueError err)
      end
  | _ => Err (ValueError err)
  end.

(** The [vendor] entry: empty, or a logical name. *)
Definition parse_vendor (v : pyval) : result exn string :=
  match v with
  | PStr s => raise (ValueError "gpu.vendor must be a lowercase logical name")
                when (nonempty s && negb (logical_name s)) ;; Ok s
  | _ => Err (ValueError "gpu.vendor must be a lowercase logical name")
  end.

(** The [gpu] mapping of [parse_execution_requirements]. *)
Definition parse_gpu (source : string) (v : pyval) : result exn (option GpuReservation) :=
  match v with
  | PNone => Ok None
  | PDict g =>
      raise (ValueError (source ++ ".execution_requirements.resources.gpu has unknown fields"))
        when (negb (keys_within ["count"; "vendor"; "min_device_memory_mib"; "features"] g)) ;;
      count ← positive_whole (pget "count" g) "gpu.count" false;
      device_memory ← positive_whole (pget_or "min_device_memory_mib" (PInt 0) g)
                        "gpu.min_device_memory_mib" true;
      vendor ← parse_vendor (pget_or "vendor" (PStr "") g);
      features ← name_list (pget_or "features" (PList []) g) logical_name
                   "gpu.features must be lowercase logical names";
      Ok (Some {| gpu_count := count; gpu_vendor := vendor;
                  gpu_min_device_memory_mib := device_memory; gpu_features := fromkeys features |})
  | _ => Err (ValueError (source ++ ".execution_requirements.resources.gpu has unknown fields"))
  end.

(** The body of [parse_execution_requirements] on a non-empty mapping. *)
Definition parse_requirements_mapping (source : string) (value : dict pyval)
    : result exn ExecutionRequirements :=
  let where_ := source ++ ".execution_requirements" in
  raise (ValueError (where_ ++ " has unknown fields or is not a mapping"))
    when (negb (keys_within ["capabilities"; "resources"; "preferences"] value)) ;;
  caps ← sub_mapping (pget "capabilities" value) ["all_of"]
           (where_ ++ ".capabilities must contain only all_of");
  all_of ← name_list (pget_or "all_of" (PList []) caps) capability_name
             (where_ ++ ".capabilities.all_of has an invalid name");
  resources ← sub_mapping (pget "resources" value) ["memory_mib"; "vcpu"; "gpu"]
                (where_ ++ ".resources has unknown fields");
  memory ← positive_whole (pget_or "memory_mib" (PInt 0) resources) "memory_mib" true;
  vcpu ← positive_whole (pget_or "vcpu" (PInt 0) resources) "vcpu" true;
  gpu ← parse_gpu source (pget "gpu" resources);
  preferences ← sub_mapping (pget "preferences" value) ["worker_configurations"]
                  (where_ ++ ".preferences has unknown fields");
  workers ← name_list (pget_or "worker_configurations" (PList []) preferences)
              (fun s => nonempty (strip s))
              "preferences.worker_configurations must be non-empty names";
  Ok {| er_capabilities := fromkeys all_of;
        er_resources := {| rr_memory_mib := memory; rr_vcpu := vcpu; rr_gpu := gpu |};
        er_preferred_worker_configurations := fromkeys workers;
        er_provenance := [source] |}.

(** [parse_execution_requirements] *)
Definition parse_execution_requirements (value : pyval) (source : string)
    : result exn ExecutionRequirements :=
  match value with
  | PNone | PDict [] => Ok no_requirements
  | PDict d => parse_requirements_mapping source d
  | _ => Err (ValueError (source ++ ".execution_requirements has unknown fields or is not a mapping"))
  end.

(** [max(...)] of the values an expression takes over a non-empty list. *)
Fixpoint max_of {A} (f : A -> Z) (x : A) (l : list A) : Z :=
  match l with [] => f x | y :: l' => Z.max (f x) (max_of f y l') end.

(** The merged GPU reservation, when some item reserves a GPU. *)
Definition merge_gpus (vendor : string) (gpus : list GpuReservation) : option GpuReservation :=
  match gpus with
  | [] => None
  | g :: gs =>
      Some {| gpu_count := max_of gpu_count g gs;
              gpu_vendor := vendor;
              gpu_min_device_memory_mib := max_of gpu_min_device_memory_mib g gs;
              gpu_features := sorted_set (mjoin (map gpu_features gpus)) |}
  end.

(** [merge_execution_requirements] *)
Definition merge_execution_requirements (requirements : list ExecutionRequirements)
    : result exn ExecutionRequirements :=
  let present := List.filter (fun r => negb (er_empty r)) requirements in
  match present with
  | [] => Ok no_requirements
  | r :: rs =>
      let gpus := omap (fun i => rr_gpu (er_resources i)) present in
      let vendors := remove_dups (List.filter nonempty (map gpu_vendor gpus)) in
      raise (ValueError ("incompatible GPU vendor requirements: " ++ join ", " (sorted_str vendors)))
        when (1 <? Z.of_nat (List.length vendors)) ;;
      Ok {| er_capabilities := sorted_set (mjoin (map er_capabilities present));
            er_resources :=
              {| rr_memory_mib := max_of (fun i => rr_memory_mib (er_resources i)) r rs;
                 rr_vcpu := max_of (fun i => rr_vcpu (er_resources i)) r rs;
                 rr_gpu := merge_gpus (default "" (head vendors)) gpus |};
            er_preferred_worker_configurations :=
              fromkeys (mjoin (map er_preferred_worker_configurations present));
            er_provenance := mjoin (map er_provenance present) |}
  end.

(** ** Specification: the constraint order *)

Definition gpu_covers (big small : option GpuReservation) : Prop :=
  match small, big with
  | None, _ => True
  | Some _, None => False
  | Some g, Some h =>
      gpu_count g <= gpu_count h /\
      gpu_min_device_memory_mib g <= gpu_min_device_memory_mib h /\
      gpu_features g ⊆ gpu_features h /\
      (gpu_vendor g <> "" -> gpu_vendor h = gpu_vendor g)
  end.

(** [covers big small]: a worker meeting [big] meets every hard constraint of [small]. *)
Definition covers (big small : ExecutionRequirements) : Prop :=
  er_capabilities small ⊆ er_capabilities big /\
  rr_memory_mib (er_resources small) <= rr_memory_mib (er_resources big) /\
  rr_vcpu (er_resources small) <= rr_vcpu (er_resources big) /\
  gpu_covers (rr_gpu (er_resources big)) (rr_gpu (er_resources small)).

Definition valid_gpu (g : GpuReservation) : Prop :=
  1 <= gpu_count g /\ 0 <= gpu_min_device_memory_mib g /\
  (gpu_vendor g = "" \/ logical_name (gpu_vendor g) = true) /\
  Forall (fun f => logical_name f = true) (gpu_features g) /\ NoDup (gpu_features g).

(** What the strict parser guarantees of the requirements it returns. *)
Record valid_requirements (r : ExecutionRequirements) : Prop := {
  valid_capabilities : Forall (fun c => capability_name c = true) (er_capabilities r);
  valid_capabilities_nodup : NoDup (er_capabilities r);
  valid_memory : 0 <= rr_memory_mib (er_resources r);
  valid_vcpu : 0 <= rr_vcpu (er_resources r);
  valid_rr_gpu : forall g, rr_gpu (er_resources r) = Some g -> valid_gpu g;
  valid_workers : Forall (fun w => nonempty (strip w) = true) (er_preferred_worker_configurations r);
  valid_workers_nodup : NoDup (er_preferred_worker_configurations r);
}.

Definition nonnegative (r : ExecutionRequirements) : Prop :=
  0 <= rr_memory_mib (er_resources r) /\ 0 <= rr_vcpu (er_resources r).

#[export] Instance covers_preorder : PreOrder covers.
Proof.
  split.
  - intros r. repeat split; try done. unfold gpu_covers. by destruct (rr_gpu _).
  - intros a b c (? & ? & ? & Hab) (? & ? & ? & Hbc). repeat split; [set_solver|lia|lia|].
    unfold gpu_covers in *.
    destruct (rr_gpu (er_resources c)) as [gc|]; [|done].
    destruct (rr_gpu (er_resources b)) as [gb|]; [|done].
    destruct (rr_gpu (er_resources a)) as [ga|]; [|done].
    destruct Hab as (? & ? & ? & Hv1), Hbc as (? & ? & ? & Hv2).
    repeat split; [lia|lia|set_solver|]. intros Hc. rewrite <- (Hv2 Hc). apply Hv1. by rewrite Hv2.
Qed.

(** ** Lemmas *)

Lemma max_of_upper {A} (f : A -> Z) x l y : y ∈ x :: l -> f y <= max_of f x l.
Proof.
  revert x. induction l as [|z l IH]; intros x; cbn.
  - intros ->%list_elem_of_singleton. lia.
  - intros [->|Hy]%elem_of_cons; [lia|]. specialize (IH z Hy). lia.
Qed.

Lemma max_of_attained {A} (f : A -> Z) x l : exists y, y ∈ x :: l /\ max_of f x l = f y.
Proof.
  revert x. induction l as [|z l IH]; intros x; cbn.
  - exists x. split; [by left|done].
  - destruct (IH z) as (y & Hy & ->). destruct (Z.max_spec (f x) (f y)) as [[_ ->]|[_ ->]].
    + exists y. split; [by right|done].
    + exists x. split; [by left|done].
Qed.

Lemma elem_of_mjoin_map {A} (f : A -> list string) (l : list A) s :
  s ∈ mjoin (map f l) <-> exists x, x ∈ l /\ s ∈ f x.
Proof.
  rewrite list_elem_of_join. split.
  - intros (ys & Hs & Hys). apply list_elem_of_In, in_map_iff in Hys as (x & <- & Hx%list_elem_of_In).
    eauto.
  - intros (x & Hx & Hs). exists (f x). split; [done|].
    apply list_elem_of_In, in_map. by apply list_elem_of_In.
Qed.

Lemma er_empty_true r : er_empty r = true ->
  er_capabilities r = [] /\ er_preferred_worker_configurations r = [] /\
  er_resources r = no_resources.
Proof.
  unfold er_empty. rewrite negb_true_iff, !orb_false_iff, !negb_false_iff, !Z.eqb_eq.
  destruct r as [[|? ?] [m v [g|]] [|? ?] ?]; cbn; intros H; destruct_and!; try done.
  by subst.
Qed.

(** An item without requirements is covered by anything non-negative. *)
Lemma covers_empty u r : nonnegative u -> er_empty r = true -> covers u r.
Proof.
  intros [? ?] (Hc & _ & Hr)%er_empty_true. unfold covers. rewrite Hc, Hr. cbn.
  repeat split; try done. set_solver.
Qed.

Lemma elem_of_filter_nonempty r rs :
  r ∈ List.filter (fun r => negb (er_empty r)) rs <-> r ∈ rs /\ er_empty r = false.
Proof. by rewrite list_elem_of_In, filter_In, negb_true_iff, <- list_elem_of_In. Qed.

(** The GPU reservations among [l]. *)
Abbreviation gpus_of l := (omap (fun i => rr_gpu (er_resources i)) l).

Lemma elem_of_gpus_of g (l : list ExecutionRequirements) :
  g ∈ gpus_of l <-> exists i, i ∈ l /\ rr_gpu (er_resources i) = Some g.
Proof. apply list_elem_of_omap. Qed.

(** The distinct vendors named by a list of reservations. *)
Abbreviation vendors_of gs := (remove_dups (List.filter nonempty (map gpu_vendor gs))).

Lemma nonempty_true s : nonempty s = true <-> s <> "".
Proof. by destruct s. Qed.

Lemma elem_of_vendors v gs : v ∈ vendors_of gs <-> v <> "" /\ exists g, g ∈ gs /\ gpu_vendor g = v.
Proof.
  rewrite elem_of_remove_dups, list_elem_of_In, filter_In, in_map_iff, nonempty_true.
  setoid_rewrite list_elem_of_In. naive_solver.
Qed.

(** One vendor at most: every named vendor is the one [next(iter(vendors), "")] takes. *)
Lemma single_vendor gs g :
  (1 <? Z.of_nat (List.length (vendors_of gs))) = false ->
  g ∈ gs -> gpu_vendor g <> "" -> default "" (head (vendors_of gs)) = gpu_vendor g.
Proof.
  intros Hlen%Z.ltb_ge Hg Hv.
  assert (Hin : gpu_vendor g ∈ vendors_of gs) by (apply elem_of_vendors; eauto).
  destruct (vendors_of gs) as [|v [|w l]]; cbn in *; [by apply elem_of_nil in Hin| |lia].
  by apply list_elem_of_singleton in Hin.
Qed.

Lemma head_vendor gs v : default "" (head (vendors_of gs)) = v -> v <> "" ->
  exists g, g ∈ gs /\ gpu_vendor g = v.
Proof.
  intros Hh Hv. assert (Hin : v ∈ vendors_of gs).
  { destruct (vendors_of gs) as [|w l]; cbn in Hh; [done|]. subst. by left. }
  apply elem_of_vendors in Hin. naive_solver.
Qed.

(** Several vendors: two reservations disagree. *)
Lemma vendors_disagree gs :
  (1 <? Z.of_nat (List.length (vendors_of gs))) = true ->
  exists g h, g ∈ gs /\ h ∈ gs /\ gpu_vendor g <> "" /\ gpu_vendor h <> "" /\ gpu_vendor g <> gpu_vendor h.
Proof.
  intros Hlen%Z.ltb_lt. pose proof (NoDup_remove_dups (List.filter nonempty (map gpu_vendor gs))) as Hnd.
  destruct (vendors_of gs) as [|v [|w l]] eqn:Hvs; cbn in Hlen; [lia|lia|].
  assert (Hv : v ∈ vendors_of gs) by (rewrite Hvs; left).
  assert (Hw : w ∈ vendors_of gs) by (rewrite Hvs; right; left).
  apply elem_of_vendors in Hv as (? & g & ? & <-), Hw as (? & h & ? & <-).
  exists g, h. split_and!; try done. apply NoDup_cons in Hnd as [Hnd _]. set_solver.
Qed.

Lemma merge_gpus_covers vendor gs g :
  g ∈ gs -> (gpu_vendor g <> "" -> vendor = gpu_vendor g) -> gpu_covers (merge_gpus vendor gs) (Some g).
Proof.
  intros Hg Hv. destruct gs as [|h gs]; [by apply elem_of_nil in Hg|]. cbn -[max_of].
  repeat split; [by apply max_of_upper|by apply max_of_upper| |done].
  intros f Hf. apply elem_of_sorted_set. apply (elem_of_mjoin_map gpu_features (h :: gs)). eauto.
Qed.

Lemma merge_gpus_least vendor gs h :
  (vendor <> "" -> exists g, g ∈ gs /\ gpu_vendor g = vendor) ->
  (forall g, g ∈ gs -> gpu_covers h (Some g)) -> gpu_covers h (merge_gpus vendor gs).
Proof.
  intros Hv Hall. destruct gs as [|g gs]; [done|]. cbn -[max_of].
  destruct h as [h|]; [|by apply (Hall g); left].
  destruct (max_of_attained gpu_count g gs) as (g1 & Hg1 & ->).
  destruct (max_of_attained gpu_min_device_memory_mib g gs) as (g2 & Hg2 & ->).
  repeat split; [by apply (Hall g1)|by apply (Hall g2)| |].
  - intros f (g3 & Hg3 & Hf)%elem_of_sorted_set%(elem_of_mjoin_map gpu_features (g :: gs)).
    by apply (Hall g3).
  - cbn. intros Hne. destruct (Hv Hne) as (g4 & Hg4 & <-). by apply (Hall g4).
Qed.

(** What a successful merge of at least one non-empty item looks like. *)
Lemma merge_Ok_inv rs r :
  merge_execution_requirements rs = Ok r ->
  let present := List.filter (fun r => negb (er_empty r)) rs in
  (present = [] /\ r = no_requirements) \/
  exists x xs, present = x :: xs /\
    (1 <? Z.of_nat (List.length (vendors_of (gpus_of present)))) = false /\
    er_capabilities r = sorted_set (mjoin (map er_capabilities present)) /\
    rr_memory_mib (er_resources r) = max_of (fun i => rr_memory_mib (er_resources i)) x xs /\
    rr_vcpu (er_resources r) = max_of (fun i => rr_vcpu (er_resources i)) x xs /\
    rr_gpu (er_resources r) =
      merge_gpus (default "" (head (vendors_of (gpus_of present)))) (gpus_of present) /\
    er_preferred_worker_configurations r = fromkeys (mjoin (map er_preferred_worker_configurations present)).
Proof.
  unfold merge_execution_requirements. cbv zeta.
  destruct (List.filter _ rs) as [|x xs]; [intros [= <-]; by left|].
  intros [Hv [= <-]]%raise_when_Ok. right. exists x, xs. by split_and!.
Qed.

Lemma merge_covers rs r i :
  Forall nonnegative rs -> merge_execution_requirements rs = Ok r -> i ∈ rs -> covers r i.
Proof.
  intros Hnn [[Hp ->]|(x & xs & Hp & Hv & Hc & Hm & Hu & Hg & _)]%merge_Ok_inv Hi;
    (destruct (er_empty i) eqn:He; [|assert (Hin : i ∈ List.filter (fun r => negb (er_empty r)) rs)
       by (by apply elem_of_filter_nonempty)]).
  - by apply covers_empty.
  - rewrite Hp in Hin. by apply elem_of_nil in Hin.
  - apply covers_empty; [|done]. unfold nonnegative. rewrite Hm, Hu.
    assert (Hx : nonnegative x).
    { rewrite Forall_forall in Hnn. apply Hnn.
      assert (Hx : x ∈ x :: xs) by left. rewrite <- Hp in Hx. by apply elem_of_filter_nonempty in Hx as [? _]. }
    destruct Hx as [Hxm Hxu]. split.
    + etrans; [exact Hxm|]. apply (max_of_upper (fun i => rr_memory_mib (er_resources i))). left.
    + etrans; [exact Hxu|]. apply (max_of_upper (fun i => rr_vcpu (er_resources i))). left.
  - unfold covers. rewrite Hc, Hm, Hu, Hg. split_and!.
    + intros c Hci. apply elem_of_sorted_set, elem_of_mjoin_map. eauto.
    + rewrite Hp in Hin. by apply (max_of_upper (fun i => rr_memory_mib (er_resources i))).
    + rewrite Hp in Hin. by apply (max_of_upper (fun i => rr_vcpu (er_resources i))).
    + destruct (rr_gpu (er_resources i)) as [g|] eqn:Hgi; [|done].
      assert (Hgs : g ∈ gpus_of (List.filter (fun r => negb (er_empty r)) rs))
        by (apply elem_of_gpus_of; eauto).
      apply merge_gpus_covers; [done|]. intros Hne. by apply single_vendor.
Qed.

Lemma merge_least rs r u :
  nonnegative u -> merge_execution_requirements rs = Ok r -> (forall i, i ∈ rs -> covers u i) -> covers u r.
Proof.
  intros Hnn [[Hp ->]|(x & xs & Hp & Hv & Hc & Hm & Hu & Hg & _)]%merge_Ok_inv Hall;
    [by apply covers_empty|].
  assert (Hpres : forall i, i ∈ x :: xs -> covers u i).
  { intros i Hi. rewrite <- Hp in Hi. by apply elem_of_filter_nonempty in Hi as [? _]; auto. }
  unfold covers. rewrite Hc, Hm, Hu, Hg, Hp. split_and!.
  - intros c (i & Hi & Hci)%elem_of_sorted_set%elem_of_mjoin_map. by apply (Hpres i).
  - destruct (max_of_attained (fun i => rr_memory_mib (er_resources i)) x xs) as (y & Hy & ->).
    by apply (Hpres y).
  - destruct (max_of_attained (fun i => rr_vcpu (er_resources i)) x xs) as (y & Hy & ->).
    by apply (Hpres y).
  - apply merge_gpus_least; [intros Hne; by apply head_vendor|].
    intros g (i & Hi & Hgi)%elem_of_gpus_of. destruct (Hpres i Hi) as (_ & _ & _ & H). by rewrite Hgi in H.
Qed.

Lemma merge_unsatisfiable rs e u :
  merge_execution_requirements rs = Err e -> ~ (forall i, i ∈ rs -> covers u i).
Proof.
  unfold merge_execution_requirements. destruct (List.filter _ rs) as [|x xs] eqn:Hp; [done|].
  destruct (1 <? _) eqn:Hv; [|done]. intros _ Hall.
  apply vendors_disagree in Hv as (g & h & Hg & Hh & Hgv & Hhv & Hne).
  apply elem_of_gpus_of in Hg as (i & Hi & Hig), Hh as (j & Hj & Hjh).
  assert (Hci : covers u i) by (apply Hall; rewrite <- Hp in Hi; by apply elem_of_filter_nonempty in Hi as [? _]).
  assert (Hcj : covers u j) by (apply Hall; rewrite <- Hp in Hj; by apply elem_of_filter_nonempty in Hj as [? _]).
  destruct Hci as (_ & _ & _ & Hgi), Hcj as (_ & _ & _ & Hgj). rewrite Hig in Hgi. rewrite Hjh in Hgj.
  unfold gpu_covers in *. destruct (rr_gpu (er_resources u)) as [k|]; [|done].
  destruct Hgi as (_ & _ & _ & Hk1), Hgj as (_ & _ & _ & Hk2). rewrite Hk1 in Hk2 by done. auto.
Qed.

(** *** The parser *)

Lemma keys_within_dkeys names (d : dict pyval) :
  keys_within names d = true <-> forall k, k ∈ dkeys d -> k ∈ names.
Proof.
  unfold keys_within. rewrite forallb_forall. setoid_rewrite mem_spec. setoid_rewrite list_elem_of_In at 2.
  setoid_rewrite <- list_elem_of_In. done.
Qed.

Lemma positive_whole_Ok v name z n :
  positive_whole v name z = Ok n -> v = PInt n /\ (if z then 0 else 1) <= n.
Proof.
  destruct v; cbn; try done. intros [Hlt [= ->]]%raise_when_Ok. split; [done|lia].
Qed.

Lemma positive_whole_PInt n name (z : bool) :
  (if z then 0 else 1) <= n -> positive_whole (PInt n) name z = Ok n.
Proof. intros H. cbn. destruct z; rewrite (proj2 (Z.ltb_ge _ _)); done. Qed.

Lemma name_list_Ok v ok err l :
  name_list v ok err = Ok l -> Forall (fun s => ok s = true) l.
Proof.
  destruct v; cbn; try done. destruct (all_strs _) as [names|]; [|done].
  intros [Hf [= ->]]%raise_when_Ok. apply negb_false_iff in Hf.
  rewrite forallb_forall in Hf. apply Forall_forall. intros s Hs%list_elem_of_In. auto.
Qed.

Lemma name_list_strs l ok err :
  Forall (fun s => ok s = true) l -> name_list (strs l) ok err = Ok l.
Proof.
  intros H. cbn. rewrite all_strs_map.
  assert (forallb ok l = true) as ->; [|done].
  apply forallb_forall. intros s Hs%list_elem_of_In. rewrite Forall_forall in H. auto.
Qed.

Lemma Forall_fromkeys (P : string -> Prop) l : Forall P l -> Forall P (fromkeys l).
Proof. rewrite !Forall_forall. intros H s Hs. rewrite elem_of_fromkeys in Hs. auto. Qed.

Lemma parse_vendor_Ok v s : parse_vendor v = Ok s -> s = "" \/ logical_name s = true.
Proof.
  destruct v as [| | |t| | |]; try done. intros [Hv [= <-]]%raise_when_Ok.
  destruct t; [by left|right]. by apply negb_false_iff in Hv.
Qed.

Lemma parse_vendor_PStr s : s = "" \/ logical_name s = true -> parse_vendor (PStr s) = Ok s.
Proof. intros [->|H]; [done|]. unfold parse_vendor. by rewrite H, andb_false_r. Qed.

Lemma parse_gpu_valid source v g : parse_gpu source v = Ok (Some g) -> valid_gpu g.
Proof.
  destruct v; cbn; try done. intros [_ H]%raise_when_Ok.
  apply bind_Ok in H as (count & Hc%positive_whole_Ok & H).
  apply bind_Ok in H as (dev & Hd%positive_whole_Ok & H).
  apply bind_Ok in H as (vendor & Hv & H). apply bind_Ok in H as (features & Hf%name_list_Ok & H).
  injection H as <-. unfold valid_gpu; cbn. split_and!; [apply Hc|apply Hd| |by apply Forall_fromkeys|apply NoDup_fromkeys].
  by apply parse_vendor_Ok in Hv.
Qed.

Lemma no_requirements_valid : valid_requirements no_requirements.
Proof. split; cbn; try lia; try constructor; done. Qed.

Lemma parse_requirements_mapping_valid source d r :
  parse_requirements_mapping source d = Ok r -> valid_requirements r.
Proof.
  unfold parse_requirements_mapping. cbv zeta. intros [_ H]%raise_when_Ok.
  apply bind_Ok in H as (caps & _ & H). apply bind_Ok in H as (all_of & Hall%name_list_Ok & H).
  apply bind_Ok in H as (res & _ & H). apply bind_Ok in H as (mem_ & Hm%positive_whole_Ok & H).
  apply bind_Ok in H as (vcpu & Hv%positive_whole_Ok & H). apply bind_Ok in H as (gpu & Hg & H).
  apply bind_Ok in H as (prefs & _ & H). apply bind_Ok in H as (workers & Hw%name_list_Ok & H).
  injection H as <-. split; cbn; try apply NoDup_fromkeys; try by apply Forall_fromkeys.
  - apply Hm.
  - apply Hv.
  - intros g ->. by eapply parse_gpu_valid.
Qed.

(** Reading back the entries of a GPU mapping that was written. *)
Section gpu_entries.
Context (g : GpuReservation).

#[local] Ltac crush_entries :=
  unfold gpu_to_dict, pget_or, keys_within; destruct g as [c v m f]; cbn;
  destruct v, (Z.eqb_spec m 0), f; subst; reflexivity.

Lemma gpu_to_dict_keys :
  keys_within ["count"; "vendor"; "min_device_memory_mib"; "features"] (gpu_to_dict g) = true.
Proof. crush_entries. Qed.
Lemma gpu_to_dict_count : pget "count" (gpu_to_dict g) = PInt (gpu_count g).
Proof. done. Qed.
Lemma gpu_to_dict_memory :
  pget_or "min_device_memory_mib" (PInt 0) (gpu_to_dict g) = PInt (gpu_min_device_memory_mib g).
Proof. crush_entries. Qed.
Lemma gpu_to_dict_vendor : pget_or "vendor" (PStr "") (gpu_to_dict g) = PStr (gpu_vendor g).
Proof. crush_entries. Qed.
Lemma gpu_to_dict_features : pget_or "features" (PList []) (gpu_to_dict g) = strs (gpu_features g).
Proof. crush_entries. Qed.
End gpu_entries.

Lemma parse_gpu_to_dict source g :
  valid_gpu g -> parse_gpu source (PDict (gpu_to_dict g)) = Ok (Some g).
Proof.
  intros (Hc & Hm & Hv & Hf & Hnd). unfold parse_gpu. cbv iota.
  rewrite gpu_to_dict_keys, gpu_to_dict_count, gpu_to_dict_memory, gpu_to_dict_vendor, gpu_to_dict_features.
  rewrite (positive_whole_PInt _ _ false Hc), (positive_whole_PInt _ _ true Hm), parse_vendor_PStr by done.
  rewrite name_list_strs by done. cbn. rewrite fromkeys_id by done. by destruct g.
Qed.

(** Reading back the three sections of a requirements mapping. *)
Section requirement_entries.
Context (r : ExecutionRequirements).

#[local] Ltac crush_entries :=
  unfold er_to_dict, resources_to_dict, pget, pget_or, keys_within;
  destruct r as [caps [m v gpu] ws ps]; cbn -[gpu_to_dict strs];
  destruct caps, (Z.eqb_spec m 0), (Z.eqb_spec v 0), gpu, ws; subst; reflexivity.

Lemma er_to_dict_keys :
  keys_within ["capabilities"; "resources"; "preferences"] (er_to_dict r) = true.
Proof. crush_entries. Qed.
Lemma er_to_dict_capabilities err :
  (caps ← sub_mapping (pget "capabilities" (er_to_dict r)) ["all_of"] err;
   Ok (pget_or "all_of" (PList []) caps)) = Ok (strs (er_capabilities r)).
Proof. crush_entries. Qed.
Lemma er_to_dict_resources err :
  sub_mapping (pget "resources" (er_to_dict r)) ["memory_mib"; "vcpu"; "gpu"] err
  = Ok (resources_to_dict (er_resources r)).
Proof. crush_entries. Qed.
Lemma er_to_dict_preferences err :
  (prefs ← sub_mapping (pget "preferences" (er_to_dict r)) ["worker_configurations"] err;
   Ok (pget_or "worker_configurations" (PList []) prefs))
  = Ok (strs (er_preferred_worker_configurations r)).
Proof. crush_entries. Qed.
Lemma resources_to_dict_memory :
  pget_or "memory_mib" (PInt 0) (resources_to_dict (er_resources r)) = PInt (rr_memory_mib (er_resources r)).
Proof. crush_entries. Qed.
Lemma resources_to_dict_vcpu :
  pget_or "vcpu" (PInt 0) (resources_to_dict (er_resources r)) = PInt (rr_vcpu (er_resources r)).
Proof. crush_entries. Qed.
Lemma resources_to_dict_gpu :
  pget "gpu" (resources_to_dict (er_resources r)) =
  match rr_gpu (er_resources r) with Some g => PDict (gpu_to_dict g) | None => PNone end.
Proof. crush_entries. Qed.
End requirement_entries.

Lemma er_to_dict_nil r : er_to_dict r = [] <-> er_empty r = true.
Proof.
  destruct r as [caps [m v gpu] ws ps]. unfold er_to_dict, resources_to_dict, er_empty; cbn -[gpu_to_dict strs].
  by destruct caps, (m =? 0), (v =? 0), gpu, ws.
Qed.

Lemma parse_er_to_dict source r :
  valid_requirements r ->
  parse_requirements_mapping source (er_to_dict r)
  = Ok {| er_capabilities := er_capabilities r; er_resources := er_resources r;
          er_preferred_worker_configurations := er_preferred_worker_configurations r;
          er_provenance := [source] |}.
Proof.
  intros Hv. unfold parse_requirements_mapping. cbv zeta. rewrite er_to_dict_keys. cbv [negb].
  set (err := _ ++ ".capabilities must contain only all_of").
  destruct (proj1 (bind_Ok _ _ _) (er_to_dict_capabilities r err)) as (caps & -> & [= Hc]).
  cbn [mbind result_bind]. rewrite Hc, name_list_strs by apply Hv. cbn [mbind result_bind].
  rewrite er_to_dict_resources. cbn [mbind result_bind].
  rewrite resources_to_dict_memory, (positive_whole_PInt _ _ true (valid_memory _ Hv)).
  cbn [mbind result_bind].
  rewrite resources_to_dict_vcpu, (positive_whole_PInt _ _ true (valid_vcpu _ Hv)).
  cbn [mbind result_bind]. rewrite resources_to_dict_gpu.
  assert (parse_gpu source (match rr_gpu (er_resources r) with
            Some g => PDict (gpu_to_dict g) | None => PNone end) = Ok (rr_gpu (er_resources r))) as ->.
  { destruct (rr_gpu _) as [g|] eqn:Hg; [|done]. by apply parse_gpu_to_dict, (valid_rr_gpu _ Hv). }
  cbn [mbind result_bind].
  set (err' := _ ++ ".preferences has unknown fields").
  destruct (proj1 (bind_Ok _ _ _) (er_to_dict_preferences r err')) as (prefs & -> & [= Hp]).
  cbn [mbind result_bind]. rewrite Hp, name_list_strs by apply Hv. cbn [mbind result_bind].
  rewrite !fromkeys_id by apply Hv. by destruct r as [? [] ? ?].
Qed.

Lemma parse_written_requirements source r :
  valid_requirements r ->
  parse_execution_requirements (PDict (er_to_dict r)) source =
  Ok (if er_empty r then no_requirements
      else {| er_capabilities := er_capabilities r; er_resources := er_resources r;
              er_preferred_worker_configurations := er_preferred_worker_configurations r;
              er_provenance := [source] |}).
Proof.
  intros Hv. destruct (er_empty r) eqn:He;
    [by apply er_to_dict_nil in He; unfold parse_execution_requirements; rewrite He|].
  unfold parse_execution_requirements. destruct (er_to_dict r) as [|kv d] eqn:Hd.
  - apply er_to_dict_nil in Hd. congruence.
  - rewrite <- Hd. by apply parse_er_to_dict.
Qed.

(** ** Properties *)

(** C38.  The policy merge is the least upper bound of its inputs in the constraint order: when
    it returns, its result enforces every constraint of every item and is weaker than anything
    else that does; when it raises, nothing enforces them all. *)
Theorem merge_is_least_upper_bound (rs : list ExecutionRequirements) (Hnn : Forall nonnegative rs) :
  match merge_execution_requirements rs with
  | Ok r => (forall i, i ∈ rs -> covers r i) /\
            forall u, nonnegative u -> (forall i, i ∈ rs -> covers u i) -> covers u r
  | Err _ => forall u, ~ (forall i, i ∈ rs -> covers u i)
  end.
Proof.
  destruct (merge_execution_requirements rs) as [r|e] eqn:Hm.
  - split; [intros i; by apply merge_covers|intros u Hu; by eapply merge_least].
  - intros u. by eapply merge_unsatisfiable.
Qed.

Definition gpu_item (vendor : string) (count : Z) : ExecutionRequirements :=
  {| er_capabilities := ["net.private"]; er_resources :=
       {| rr_memory_mib := 2048; rr_vcpu := 2;
          rr_gpu := Some {| gpu_count := count; gpu_vendor := vendor; gpu_min_device_memory_mib := 0;
                            gpu_features := ["fp16"] |} |};
     er_preferred_worker_configurations := []; er_provenance := ["task"] |}.

Lemma merge_is_least_upper_bound_witness :
  (exists r, merge_execution_requirements [gpu_item "nvidia" 1; gpu_item "" 2] = Ok r /\
     covers r (gpu_item "" 2)) /\
  (forall u, ~ (forall i, i ∈ [gpu_item "nvidia" 1; gpu_item "amd" 2] -> covers u i)).
Proof.
  assert (Hnn : forall v n, nonnegative (gpu_item v n)) by (intros; split; cbn; lia).
  split.
  - pose proof (merge_is_least_upper_bound [gpu_item "nvidia" 1; gpu_item "" 2]
      (Forall_cons_2 _ _ _ (Hnn _ _) (Forall_cons_2 _ _ _ (Hnn _ _) (Forall_nil_2 _)))) as H.
    destruct (merge_execution_requirements _) as [r|e] eqn:Hm; [|discriminate Hm].
    exists r. split; [done|]. apply H. right. left.
  - exact (merge_is_least_upper_bound [gpu_item "nvidia" 1; gpu_item "amd" 2]
      (Forall_cons_2 _ _ _ (Hnn _ _) (Forall_cons_2 _ _ _ (Hnn _ _) (Forall_nil_2 _)))).
Defined.

(** C40.  The strict parser establishes the validity invariant: every accepted document has
    well-formed, repetition-free names and non-negative (GPU count: positive) amounts. *)
Theorem parse_execution_requirements_valid (v : pyval) (source : string) (r : ExecutionRequirements)
    (H : parse_execution_requirements v source = Ok r) : valid_requirements r.
Proof.
  destruct v as [| | | | |[|kv d]|]; try discriminate H;
    try (injection H as <-; apply no_requirements_valid).
  by eapply parse_requirements_mapping_valid.
Qed.

Lemma parse_execution_requirements_valid_witness :
  exists r, valid_requirements r /\ er_capabilities r = ["net.private"; "gpu-lab"].
Proof.
  eexists. split.
  - apply (parse_execution_requirements_valid
      (PDict [("capabilities", PDict [("all_of",
                PList [PStr "net.private"; PStr "gpu-lab"; PStr "net.private"])]);
              ("resources", PDict [("memory_mib", PInt 512)])]) "task").
    reflexivity.
  - reflexivity.
Defined.

(** Writing valid requirements and parsing them back loses nothing but the provenance,
    which the parser sets to the source it was given; an empty requirement is written as the
    empty mapping and reads back as [ExecutionRequirements()]. *)
Theorem requirements_roundtrip (source : string) (r : ExecutionRequirements) (Hv : valid_requirements r) :
  parse_execution_requirements (PDict (er_to_dict r)) source =
  Ok (if er_empty r then no_requirements
      else {| er_capabilities := er_capabilities r; er_resources := er_resources r;
              er_preferred_worker_configurations := er_preferred_worker_configurations r;
              er_provenance := [source] |}).
Proof.
  by apply parse_written_requirements.
Qed.

Lemma requirements_roundtrip_witness :
  parse_execution_requirements (PDict (er_to_dict (gpu_item "nvidia" 2))) "policy" =
  Ok {| er_capabilities := ["net.private"]; er_resources := er_resources (gpu_item "nvidia" 2);
        er_preferred_worker_configurations := []; er_provenance := ["policy"] |}.
Proof.
  apply (requirements_roundtrip "policy" (gpu_item "nvidia" 2)).
  split; cbn; try lia; try (repeat constructor; set_solver).
  intros g [= <-]. unfold valid_gpu; cbn. split_and!; try lia; [by right|by repeat constructor|].
  repeat constructor; set_solver.
Defined.
