(* ===== verification/TaskModel.v ===== *)
(** * The task document model ([src/src/garden/model.py], lines 203-706)

    Statuses, the priority scale, front-matter, the [Task] record with its parser and its
    serialiser, the dispatch order, phases, owners and the refusals that guard state changes.

    The YAML library is a parameter of the front-matter functions ([safe_load], [safe_dump]).
    Text is modelled as UTF-8 bytes with the ASCII behaviour of [lower], [strip] and the regular
    expressions; clocks are arguments. *)

From S2P Require Import Prelude PyValue Requirements.

(** ** Status *)

Inductive Status : Type :=
| DRAFT | READY | RUNNING | AWAITING_TRIAGE | IN_REVIEW | CHANGES_REQUESTED | WAITING_HUMAN
| MERGED_INTO_PARENT | DONE | FAILED | WONT_DO | CANCELLED.

#[export] Instance Status_eq_dec : EqDecision Status.
Proof. solve_decision. Defined.

Definition status_value (s : Status) : string :=
  match s with
  | DRAFT => "draft"
  | READY => "ready"
  | RUNNING => "running"
  | AWAITING_TRIAGE => "awaiting_triage"
  | IN_REVIEW => "in_review"
  | CHANGES_REQUESTED => "changes_requested"
  | WAITING_HUMAN => "waiting_human"
  | MERGED_INTO_PARENT => "merged_into_parent"
  | DONE => "done"
  | FAILED => "failed"
  | WONT_DO => "wont_do"
  | CANCELLED => "cancelled"
  end.

(** The enumeration, in declaration order, and [STATUS_ORDER]. *)
Definition all_status : list Status :=
  [DRAFT; READY; RUNNING; AWAITING_TRIAGE; IN_REVIEW; CHANGES_REQUESTED; WAITING_HUMAN;
   MERGED_INTO_PARENT; DONE; FAILED; WONT_DO; CANCELLED].
Definition STATUS_ORDER : list string := map status_value all_status.

(** [Status(value)]: the member with that value. *)
Definition status_of_value (v : string) : option Status :=
  List.find (fun s => bool_decide (status_value s = v)) all_status.

Definition status_in (s : Status) (l : list Status) : bool := bool_decide (s ∈ l).

Definition terminal (s : Status) : bool := status_in s [DONE; CANCELLED; WONT_DO].
Definition active (s : Status) : bool :=
  status_in s [RUNNING; AWAITING_TRIAGE; IN_REVIEW; CHANGES_REQUESTED; WAITING_HUMAN].
Definition has_branch (s : Status) : bool := status_in s [AWAITING_TRIAGE; IN_REVIEW; CHANGES_REQUESTED].
Definition pr_open (s : Status) : bool := status_in s [AWAITING_TRIAGE; IN_REVIEW; CHANGES_REQUESTED].
Definition pr_pending (s : Status) : bool := pr_open s || status_in s [FAILED; WAITING_HUMAN; READY].

(** ** The priority scale *)

Definition PRIORITY_SCALE : list (string * Z) :=
  [("first", 0); ("next", 1); ("normal", 2); ("later", 3); ("someday", 4)].

Definition priority_word (priority : Z) : option string :=
  fst <$> List.find (fun wn => wn.2 =? priority) PRIORITY_SCALE.

Definition priority_label (priority : Z) : string :=
  match priority_word priority with
  | Some word => word ++ " · " ++ show priority
  | None => show priority
  end.

(** ** Slugs *)

Definition hyphen : ascii := "-"%char.
Definition is_hyphen (c : ascii) : bool := bool_decide (c = hyphen).
Definition slug_char (c : ascii) : bool := is_lower c || is_digit c.

(** [re.sub(r"[^a-z0-9]+", "-", s)]; [run] says that the previous character was replaced. *)
Fixpoint hyphenate (run : bool) (s : string) : string :=
  match s with
  | EmptyString => EmptyString
  | String c s' =>
      if slug_char c then String c (hyphenate false s')
      else if run then hyphenate true s' else String hyphen (hyphenate true s')
  end.

Definition strip_by (p : ascii -> bool) (s : string) : string := rstrip_by p (lstrip_by p s).

Definition slugify (text : string) (max_len : nat) : string :=
  let s := strip_by is_hyphen (hyphenate false (lower text)) in
  let t := rstrip_by is_hyphen (take_str max_len s) in
  if nonempty t then t else "task".

(** ** Front-matter *)

Definition newline : ascii := ascii_of_N 10.
Definition is_newline (c : ascii) : bool := bool_decide (c = newline).
Definition NL : string := String newline "".

(** The lazy group and what follows the closing fence: the first [\n---]. *)
Fixpoint find_close (s : string) : option (string * string) :=
  if startswith (NL ++ "---") s then Some ("", drop_str 4 s)
  else match s with
       | EmptyString => None
       | String c s' => (fun ga => (String c ga.1, ga.2)) <$> find_close s'
       end.

(** [\s*\n] after the opening fence, longest first: the last newline of the run of white
    space after which a closing fence exists. *)
Fixpoint fm_open (s : string) : option (string * string) :=
  match s with
  | EmptyString => None
  | String c s' =>
      if is_space c then
        match fm_open s' with
        | Some r => Some r
        | None => if is_newline c then find_close s' else None
        end
      else None
  end.

(** [FRONTMATTER_RE.match(text)]: the group, and the text after the match; the trailing
    [\s*\n?] takes all the white space after the fence. *)
Definition frontmatter_match (text : string) : option (string * string) :=
  if startswith "---" text then
    (fun ga => (ga.1, lstrip ga.2)) <$> fm_open (drop_str 3 text)
  else None.

Section frontmatter.
Context (safe_load : string -> result exn pyval) (safe_dump : dict pyval -> string).

Definition split_frontmatter (text : string) : result exn (dict pyval * string) :=
  match frontmatter_match text with
  | None => Ok ([], text)
  | Some (group, rest) =>
      data ← safe_load group;
      match por data (PDict []) with
      | PDict d => Ok (d, rest)
      | _ => Err (ValueError "frontmatter must be a mapping")
      end
  end.

Definition join_frontmatter (data : dict pyval) (body : string) : string :=
  let fm := rstrip_by is_newline (safe_dump data) in
  let body := lstrip_by is_newline body in
  "---" ++ NL ++ fm ++ NL ++ "---" ++ NL ++ NL ++ rstrip body ++ NL.

(** [goals_text]: [contents] is the file's text, [None] when it is missing or unreadable. *)
Definition goals_text (contents : option string) : string :=
  match contents with
  | None => ""
  | Some text => match split_frontmatter text with Ok (_, body) => strip body | Err _ => "" end
  end.
End frontmatter.

(** ** Tasks *)

Record Task := {
  path : string;
  id : string;
  title : string;
  status : Status;
  product : string;
  phase : string;
  depends_on : list string;
  dependency_after : dict string;
  kind : string;
  priority : Z;
  order : option Z;
  estimate : string;
  reading : list string;
  repo : string;
  branch : string;
  pr : string;
  runner : string;
  harness : string;
  difficulty : string;
  model : string;
  execution_requirements : ExecutionRequirements;
  owner : string;
  owner_unassigned : bool;
  discovered_from : string;
  freeze_exception : bool;
  freeze_exception_reason : string;
  retro_blocking : bool;
  attempts : Z;
  last_dispatched_at : string;
  created : string;
  updated : string;
  extra : dict pyval;
  body : string;
  loaded : option (dict pyval * string * string);  (* _loaded_fm, _loaded_body, _loaded_path *)
}.

(** One entry of [depends_on]: its id and its [after] rule. *)
Definition after_rules : list string := [""; "stack"; "merge"].

Definition parse_dependency (p : string) (item : pyval) : result exn (string * string) :=
  match item with
  | PStr s => Ok (s, "")
  | PDict d =>
      raise (ValueError (p ++ ": malformed depends_on entry " ++ py_repr item))
        when (negb (keys_within ["id"; "after"] d)) ;;
      match pget "id" d with
      | PStr dep_id =>
          match pget_or "after" (PStr "") d with
          | PStr after =>
              raise (ValueError (p ++ ": depends_on entry " ++ repr_str dep_id ++ " has invalid after "
                                 ++ repr_str after)) when (negb (mem after after_rules)) ;;
              Ok (dep_id, after)
          | after => Err (ValueError (p ++ ": depends_on entry " ++ repr_str dep_id ++ " has invalid after "
                                      ++ py_repr after))
          end
      | _ => Err (ValueError (p ++ ": malformed depends_on entry " ++ py_repr item))
      end
  | _ => Err (ValueError (p ++ ": malformed depends_on entry " ++ py_repr item))
  end.

(** The loop over [raw_deps], accumulating [deps] and [dependency_after]. *)
Definition add_dependency (p : string) (acc : list string * dict string) (item : pyval)
    : result exn (list string * dict string) :=
  da ← parse_dependency p item;
  Ok ((acc.1 ++ [da.1])%list, if nonempty da.2 then dset da.1 da.2 acc.2 else acc.2).

Definition parse_dependencies (p : string) (raw : list pyval) : result exn (list string * dict string) :=
  foldR (add_dependency p) raw ([], []).

(** [Task.__post_init__] on the [depends_on] list a task was built with. *)
Definition post_init_item (acc : list string * dict string) (item : pyval)
    : result exn (list string * dict string) :=
  match item with
  | PStr s => Ok ((acc.1 ++ [s])%list, acc.2)
  | PDict d =>
      raise (ValueError ("malformed depends_on entry " ++ py_repr item))
        when (negb (keys_within ["id"; "after"] d)) ;;
      match pget "id" d with
      | PStr dep_id =>
          match pget_or "after" (PStr "") d with
          | PStr after =>
              raise (ValueError ("invalid dependency rule " ++ repr_str after))
                when (negb (mem after after_rules)) ;;
              Ok ((acc.1 ++ [dep_id])%list, if nonempty after then dset dep_id after acc.2 else acc.2)
          | after => Err (ValueError ("invalid dependency rule " ++ py_repr after))
          end
      | _ => Err (ValueError ("malformed depends_on entry " ++ py_repr item))
      end
  | _ => Err (ValueError ("malformed depends_on entry " ++ py_repr item))
  end.

Definition post_init (raw : list pyval) (after : dict string) : result exn (list string * dict string) :=
  foldR post_init_item raw ([], after).

Definition KNOWN : list string :=
  ["id"; "title"; "status"; "product"; "phase"; "depends_on"; "kind"; "priority"; "order"; "estimate";
   "reading"; "repo"; "branch"; "pr"; "runner"; "harness"; "difficulty"; "model";
   "execution_requirements"; "owner"; "discovered_from"; "freeze_exception"; "freeze_exception_reason";
   "retro_blocking"; "attempts"; "last_dispatched_at"; "created"; "updated"].

Definition UNASSIGNED_OWNER : string := "unassigned".

(** [_OWNER_ID_RE.fullmatch(s)] *)
Definition owner_tail (c : ascii) : bool :=
  is_alnum c || bool_decide (c = "."%char) || bool_decide (c = "_"%char) || is_hyphen c.
Definition owner_id_ok (s : string) : bool :=
  match s with String c s' => is_alnum c && str_all owner_tail s' | EmptyString => false end.

(** [_owner_id] *)
Definition owner_id (value : pyval) (p : string) : result exn string :=
  match value with
  | PNone | PStr "" => Ok ""
  | PStr s =>
      raise (ValueError (p ++ ": owner must be a stable logical identifier"))
        when (negb (owner_id_ok s) || bool_decide (s = UNASSIGNED_OWNER)) ;; Ok s
  | _ => Err (ValueError (p ++ ": owner must be a stable logical identifier"))
  end.

(** Iterating a value, as [for r in v] does. *)
Fixpoint str_chars (s : string) : list pyval :=
  match s with EmptyString => [] | String c s' => PStr (String c "") :: str_chars s' end.
Definition py_iter (v : pyval) : result exn (list pyval) :=
  match v with
  | PList l => Ok l
  | PStr s => Ok (str_chars s)
  | PDict d => Ok (map PStr (dkeys d))
  | _ => Err TypeError
  end.

(** [str(data.get(k) or default)] *)
Definition str_or (data : dict pyval) (k dflt : string) : string := py_str (por (pget k data) (PStr dflt)).
(** [bool(data.get(k) or False)] *)
Definition flag (data : dict pyval) (k : string) : bool := truthy (por (pget k data) (PBool false)).

(** [owner] and [owner_unassigned] from the [owner] entry. *)
Definition is_unassigned (v : pyval) : bool := bool_decide (v = PStr UNASSIGNED_OWNER).
Definition parse_owner (data : dict pyval) (p : string) : result exn string :=
  if is_unassigned (pget "owner" data) then Ok "" else owner_id (pget "owner" data) p.

Definition parse_order (v : pyval) : result exn (option Z) :=
  match v with PNone => Ok None | _ => n ← py_int v; Ok (Some n) end.

(** [depends_on] must be a list once falsy values are read as the empty one. *)
Definition raw_dependencies (data : dict pyval) (p : string) : result exn (list pyval) :=
  match por (pget "depends_on" data) (PList []) with
  | PList l => Ok l
  | _ => Err (ValueError (p ++ ": depends_on must be a list of ids or mappings"))
  end.

(** The task built from the front-matter [data] and [body], before the snapshot. *)
Definition task_of_frontmatter (p : string) (data : dict pyval) (text_body product_ phase_ : string)
    : result exn Task :=
  match dget "id" data with
  | None => Err (ValueError (p ++ ": task has no id"))
  | Some id_ =>
      let status_raw := py_str (pget_or "status" (PStr "draft") data) in
      match status_of_value status_raw with
      | None => Err (ValueError (p ++ ": unknown status " ++ repr_str status_raw))
      | Some st =>
          raw_deps ← raw_dependencies data p;
          da ← parse_dependencies p raw_deps;
          priority_ ← py_int (pget_or "priority" (PInt 3) data);
          order_ ← parse_order (pget "order" data);
          reading_ ← py_iter (por (pget "reading" data) (PList []));
          requirements ← parse_execution_requirements (pget "execution_requirements" data) "task";
          owner_ ← parse_owner data p;
          attempts_ ← py_int (por (pget_or "attempts" (PInt 0) data) (PInt 0));
          Ok {| path := p;
                id := py_str id_;
                title := py_str (pget_or "title" (PStr "") data);
                status := st;
                product := str_or data "product" product_;
                phase := str_or data "phase" phase_;
                depends_on := da.1;
                dependency_after := da.2;
                kind := str_or data "kind" "";
                priority := priority_;
                order := order_;
                estimate := str_or data "estimate" "";
                reading := map py_str reading_;
                repo := str_or data "repo" "";
                branch := str_or data "branch" "";
                pr := str_or data "pr" "";
                runner := str_or data "runner" "";
                harness := str_or data "harness" "";
                difficulty := str_or data "difficulty" "medium";
                model := str_or data "model" "";
                execution_requirements := requirements;
                owner := owner_;
                owner_unassigned := is_unassigned (pget "owner" data);
                discovered_from := str_or data "discovered_from" "";
                freeze_exception := flag data "freeze_exception";
                freeze_exception_reason := str_or data "freeze_exception_reason" "";
                retro_blocking := flag data "retro_blocking";
                attempts := attempts_;
                last_dispatched_at := str_or data "last_dispatched_at" "";
                created := str_or data "created" "";
                updated := str_or data "updated" "";
                extra := List.filter (fun kv => negb (mem kv.1 KNOWN)) data;
                body := text_body;
                loaded := None |}
      end
  end.

(** [data[k] = v] when the condition holds. *)
Definition set_if (b : bool) (k : string) (v : pyval) (d : dict pyval) : dict pyval :=
  if b then dset k v d else d.

(** [data.update(other)] *)
Definition dupdate (other d : dict pyval) : dict pyval := foldl (fun d kv => dset kv.1 kv.2 d) d other.

Definition dependency_entry (after : dict string) (dep : string) : pyval :=
  match dget dep after with
  | Some rule => PDict [("id", PStr dep); ("after", PStr rule)]
  | None => PStr dep
  end.

(** [for k in (...): v = getattr(self, k); if v: data[k] = v] *)
Definition routing_fields (t : Task) : list (string * string) :=
  [("repo", repo t); ("branch", branch t); ("pr", pr t); ("runner", runner t); ("harness", harness t);
   ("model", model t); ("owner", owner t); ("discovered_from", discovered_from t)].
Definition set_fields (l : list (string * string)) (d : dict pyval) : dict pyval :=
  foldl (fun d kv => set_if (nonempty kv.2) kv.1 (PStr kv.2) d) d l.

(** The keys [to_frontmatter] writes itself, before [extra]. *)
Definition base_frontmatter (t : Task) : dict pyval :=
  let data := [("id", PStr (id t)); ("title", PStr (title t)); ("status", PStr (status_value (status t)));
               ("product", PStr (product t)); ("phase", PStr (phase t));
               ("depends_on", PList (map (dependency_entry (dependency_after t)) (depends_on t)))] in
  let data := set_if (nonempty (kind t)) "kind" (PStr (kind t)) data in
  let data := dset "priority" (PInt (priority t)) data in
  let data := set_if (is_some (order t)) "order" (PInt (default 0 (order t))) data in
  let data := set_if (nonempty (estimate t)) "estimate" (PStr (estimate t)) data in
  let data := dset "difficulty" (PStr (difficulty t)) data in
  let data := dset "reading" (strs (reading t)) data in
  let data := set_fields (routing_fields t) data in
  let data := set_if (owner_unassigned t) "owner" (PStr UNASSIGNED_OWNER) data in
  let data := set_if (negb (er_empty (execution_requirements t))) "execution_requirements"
                (PDict (er_to_dict (execution_requirements t))) data in
  let data := set_if (freeze_exception t) "freeze_exception" (PBool true) data in
  let data := set_if (freeze_exception t && nonempty (freeze_exception_reason t))
                "freeze_exception_reason" (PStr (freeze_exception_reason t)) data in
  let data := set_if (retro_blocking t) "retro_blocking" (PBool true) data in
  let data := set_if (negb (attempts t =? 0)) "attempts" (PInt (attempts t)) data in
  let data := set_if (nonempty (last_dispatched_at t)) "last_dispatched_at"
                (PStr (last_dispatched_at t)) data in
  let data := dset "created" (PStr (created t)) data in
  dset "updated" (PStr (updated t)) data.

Definition to_frontmatter (t : Task) : dict pyval := dupdate (extra t) (base_frontmatter t).

(** The three fields other code of the module assigns. *)
Definition with_text (t : Task) (body_ updated_ : string) (loaded_ : option (dict pyval * string * string))
    : Task :=
  {| path := path t; id := id t; title := title t; status := status t; product := product t;
     phase := phase t; depends_on := depends_on t; dependency_after := dependency_after t;
     kind := kind t; priority := priority t; order := order t; estimate := estimate t;
     reading := reading t; repo := repo t; branch := branch t; pr := pr t; runner := runner t;
     harness := harness t; difficulty := difficulty t; model := model t;
     execution_requirements := execution_requirements t; owner := owner t;
     owner_unassigned := owner_unassigned t; discovered_from := discovered_from t;
     freeze_exception := freeze_exception t; freeze_exception_reason := freeze_exception_reason t;
     retro_blocking := retro_blocking t; attempts := attempts t;
     last_dispatched_at := last_dispatched_at t; created := created t; updated := updated_;
     extra := extra t; body := body_; loaded := loaded_ |}.

(** [Task.snapshot] *)
Definition snapshot (t : Task) : Task :=
  with_text t (body t) (updated t) (Some (to_frontmatter t, body t, path t)).

(** [Task.touch] *)
Definition touch (now : string) (t : Task) : Task := with_text t (body t) now (loaded t).

(** [re.search(r"^## Log\s*$", body, re.MULTILINE)]: a line that starts with [## Log] and is
    blank after it; the white space may run over following lines. *)
Fixpoint blank_to_eol (s : string) : bool :=
  match s with
  | EmptyString => true
  | String c s' => is_newline c || (is_space c && blank_to_eol s')
  end.
Fixpoint has_log_section_from (bol : bool) (s : string) : bool :=
  (bol && startswith "## Log" s && blank_to_eol (drop_str 6 s))
  || match s with EmptyString => false | String c s' => has_log_section_from (is_newline c) s' end.
Definition has_log_section : string -> bool := has_log_section_from true.

(** [Task.log] at the time [stamp]. *)
Definition log (stamp message : string) (t : Task) : Task :=
  let line := "- " ++ stamp ++ " " ++ message in
  let text := rstrip_by is_newline (body t) in
  let body' := if has_log_section (body t)
               then text ++ NL ++ line ++ NL
               else text ++ NL ++ NL ++ "## Log" ++ NL ++ NL ++ line ++ NL in
  with_text t body' stamp (loaded t).

(** [Task.key], [Task.slug], [Task.has_freeze_exception], [Task.default_branch] *)
Definition key (t : Task) : string := product t ++ "/" ++ phase t.
Definition slug (t : Task) : string := slugify (title t) 48.
Definition has_freeze_exception (t : Task) : bool :=
  freeze_exception t && nonempty (strip (freeze_exception_reason t)).
Definition default_branch (t : Task) : string := "garden/" ++ lower (id t) ++ "-" ++ slug t.

Section documents.
Context (safe_load : string -> result exn pyval) (safe_dump : dict pyval -> string).

(** [Task.parse] *)
Definition parse (p text product_ phase_ : string) : result exn Task :=
  db ← split_frontmatter safe_load text;
  t ← task_of_frontmatter p db.1 db.2 product_ phase_;
  Ok (snapshot t).

(** [Task.render] *)
Definition render (t : Task) : string := join_frontmatter safe_dump (to_frontmatter t) (body t).
End documents.

(** ** The dispatch order *)

Definition dispatch_sort_key (t : Task) : Z * Z * Z * string :=
  (priority t, match order t with Some _ => 0 | None => 1 end, default 0 (order t), id t).

(** Lexicographic comparison of two keys. *)
Definition key_leb (k1 k2 : Z * Z * Z * string) : bool :=
  let '(p1, b1, o1, i1) := k1 in
  let '(p2, b2, o2, i2) := k2 in
  if p1 =? p2 then if b1 =? b2 then if o1 =? o2 then str_leb i1 i2 else o1 <? o2
                   else b1 <? b2
  else p1 <? p2.

Definition dispatch_leb (t1 t2 : Task) : bool := key_leb (dispatch_sort_key t1) (dispatch_sort_key t2).

(** ** Terminal tasks *)

(** [str.splitlines()]; [\r\n] ends one line. *)
Definition is_line_end (c : ascii) : bool :=
  let n := N_of_ascii c in ((10 <=? n)%N && (n <=? 13)%N) || ((28 <=? n)%N && (n <=? 30)%N).
Fixpoint splitlines_from (line : string) (s : string) : list string :=
  match s with
  | EmptyString => if nonempty line then [line] else []
  | String c s' =>
      if is_line_end c then
        match s' with
        | String c' s'' => if (N_of_ascii c =? 13)%N && is_newline c'
                           then line :: splitlines_from "" s'' else line :: splitlines_from "" s'
        | EmptyString => [line]
        end
      else splitlines_from (line ++ String c "") s'
  end.
Definition splitlines : string -> list string := splitlines_from "".

(** [s.partition(c)] without the separator: the text before and after the first [c]. *)
Fixpoint partition (c : ascii) (s : string) : string * string :=
  match s with
  | EmptyString => ("", "")
  | String x s' => if decide (x = c) then ("", s') else let '(a, b) := partition c s' in (String x a, b)
  end.

(** The time in an ISO stamp: between the first [T] and the first [+] after it. *)
Definition stamp_time (stamp : string) : string :=
  if has_char "T"%char stamp
  then rstrip_by (fun c => bool_decide (c = "Z"%char)) (partition "+" (partition "T" stamp).2).1
  else "".

(** The message and time of the last log line: the last line that starts with [- ]. *)
Definition last_log (text : string) : string * string :=
  match List.find (startswith "- ") (rev (splitlines text)) with
  | Some ln => let '(stamp, rest) := partition " " (drop_str 2 ln) in (strip rest, stamp_time stamp)
  | None => ("", "")
  end.

(** [re.search(r"/pull/(\d+)", s)]: the digits after the first [/pull/] that has some. *)
Fixpoint leading_digits (s : string) : string :=
  match s with
  | String c s' => if is_digit c then String c (leading_digits s') else ""
  | EmptyString => ""
  end.
Fixpoint pull_number (s : string) : option string :=
  let here := if startswith "/pull/" s then leading_digits (drop_str 6 s) else "" in
  if nonempty here then Some here
  else match s with EmptyString => None | String _ s' => pull_number s' end.

Definition terminal_reason (t : Task) : string :=
  let '(message, time) := last_log (body t) in
  if bool_decide (status t = DONE) && str_in "merged" (lower message) then
    let pr_ref := match pull_number (pr t) with
                  | Some n => "#" ++ n
                  | None => if nonempty (pr t) then pr t else "the PR"
                  end in
    pr_ref ++ " was merged" ++ (if nonempty time then " at " ++ time else "")
  else if negb (nonempty message) then "no reason recorded"
  else if nonempty time then message ++ " at " ++ time else message.

Definition ensure_open (t : Task) : result exn unit :=
  raise (RuntimeError (id t ++ " is " ++ status_value (status t) ++ ": " ++ terminal_reason t))
    when (status_in (status t) [DONE; CANCELLED]) ;;
  Ok tt.

(** ** Phases, products and owners *)

Record Phase := {
  ph_product : string;
  ph_name : string;
  ph_path : string;
  ph_meta : dict pyval;
}.

Definition phase_key (p : Phase) : string := ph_product p ++ "/" ++ ph_name p.
Definition meta_text (p : Phase) (k : string) : string :=
  let v := pget k (ph_meta p) in if truthy v then py_str v else "".
Definition closed (p : Phase) : string := meta_text p "closed".
Definition frozen (p : Phase) : string := meta_text p "frozen".
Definition default_owner (p : Phase) : result exn string :=
  owner_id (por (pget "default_owner" (ph_meta p)) (pget "owner" (ph_meta p))) (ph_path p).

(** [effective_owner]: (owner, source). *)
Definition effective_owner (t : Task) (p : option Phase) : result exn (string * string) :=
  if owner_unassigned t then Ok ("", "unassigned")
  else if nonempty (owner t) then Ok (owner t, "task")
  else match p with
       | None => Ok ("", "unassigned")
       | Some p => o ← default_owner p;
                   Ok (if nonempty o then (o, "phase") else ("", "unassigned"))
       end.

Definition phase_refusal (p : Phase) (t : Task) : string :=
  if nonempty (closed p) then
    phase_key p ++ " is closed (" ++ closed p ++ "); reopen it first (`garden reopen-phase "
      ++ phase_key p ++ "`)"
  else if nonempty (frozen p) && negb (has_freeze_exception t) then
    phase_key p ++ " is frozen (" ++ frozen p ++ "); needs `freeze_exception: true` and a "
      ++ "`freeze_exception_reason` on the task, or `garden unfreeze " ++ phase_key p ++ "`"
  else "".

(** [len(text)] in characters of UTF-8 text, and [estimate_tokens]. *)
Definition is_continuation (c : ascii) : bool := let n := N_of_ascii c in (128 <=? n)%N && (n <=? 191)%N.
Fixpoint char_length (s : string) : Z :=
  match s with
  | EmptyString => 0
  | String c s' => (if is_continuation c then 0 else 1) + char_length s'
  end.
Definition estimate_tokens (text : string) : Z := Z.max 1 (char_length text / 4).

(** ** Lemmas: slugs *)

(** No two adjacent characters both satisfy [p]. *)
Fixpoint no_run (p : ascii -> bool) (s : string) : bool :=
  match s with
  | String a s' => match s' with
                   | String b _ => negb (p a && p b) && no_run p s'
                   | EmptyString => true
                   end
  | EmptyString => true
  end.

Definition slug_or_hyphen (c : ascii) : bool := slug_char c || is_hyphen c.

(** The shape of a slug: lower-case words of letters and digits joined by single hyphens. *)
Definition slug_shape (s : string) : bool :=
  nonempty s && str_all slug_or_hyphen s && first_ok is_hyphen s && last_ok is_hyphen s
  && no_run is_hyphen s.

Lemma no_run_cons p a b s :
  no_run p (String a (String b s)) = negb (p a && p b) && no_run p (String b s).
Proof. done. Qed.

Lemma no_run_app p a b : no_run p (a ++ b) = true -> no_run p a = true /\ no_run p b = true.
Proof.
  induction a as [|x a IH]; [done|]. rewrite str_app_cons. destruct a as [|y a].
  - rewrite str_app_nil_l. cbn. destruct b; [done|]. by intros [_ ?]%andb_true_iff.
  - intros H. rewrite str_app_cons in H. cbn in H. apply andb_true_iff in H as [Hxy H].
    rewrite str_app_cons in IH. specialize (IH H) as [? ?]. split; [|done].
    cbn. by apply andb_true_iff.
Qed.

Lemma slug_not_hyphen c : slug_char c = true -> is_hyphen c = false.
Proof. destruct c as [[] [] [] [] [] [] [] []]; vm_compute; congruence. Qed.

Lemma hyphenate_shape run s :
  str_all slug_or_hyphen (hyphenate run s) = true /\ no_run is_hyphen (hyphenate run s) = true /\
  (run = true -> first_ok is_hyphen (hyphenate run s) = true).
Proof.
  revert run. induction s as [|c s IH]; intros run; cbn; [done|].
  destruct (slug_char c) eqn:Hc.
  - destruct (IH false) as (Ha & Hn & _). cbn. unfold slug_or_hyphen at 1.
    rewrite Hc, Ha, (slug_not_hyphen c Hc). cbn. split_and!; try done. by destruct (hyphenate false s).
  - destruct (IH true) as (Ha & Hn & Hf). destruct run; [done|].
    split_and!; [cbn; by rewrite Ha| |done].
    specialize (Hf eq_refl). destruct (hyphenate true s) as [|d t]; [done|].
    cbn [first_ok] in Hf. apply negb_true_iff in Hf. by rewrite no_run_cons, Hf, andb_false_r.
Qed.

Lemma slugify_shape_gen text n :
  let s := strip_by is_hyphen (hyphenate false (lower text)) in
  let t := rstrip_by is_hyphen (take_str n s) in
  str_all slug_or_hyphen t = true /\ first_ok is_hyphen t = true /\ last_ok is_hyphen t = true /\
  no_run is_hyphen t = true /\ (String.length t <= n)%nat.
Proof.
  intros s t. destruct (hyphenate_shape false (lower text)) as (Ha & Hn & _).
  set (h := hyphenate false (lower text)) in *.
  assert (Hs : str_all slug_or_hyphen s = true /\ first_ok is_hyphen s = true /\ no_run is_hyphen s = true).
  { unfold s, strip_by. split_and!.
    - by apply str_all_rstrip, str_all_lstrip.
    - apply first_ok_rstrip, first_ok_lstrip.
    - destruct (lstrip_by_suffix is_hyphen h) as (u & Hu & _). rewrite Hu in Hn.
      apply no_run_app in Hn as [_ Hn].
      destruct (rstrip_by_prefix is_hyphen (lstrip_by is_hyphen h)) as (v & Hv & _).
      rewrite Hv in Hn. by apply no_run_app in Hn as [? _]. }
  destruct Hs as (Hsa & Hsf & Hsn). clearbody s. clear h Ha Hn.
  pose proof (take_drop_str n s) as Htd.
  assert (Hpre : exists u, s = t ++ u).
  { destruct (rstrip_by_prefix is_hyphen (take_str n s)) as (v & Hv & _).
    exists (v ++ drop_str n s). unfold t. by rewrite <- str_app_assoc, <- Hv. }
  destruct Hpre as (u & Hu). rewrite Hu in Hsa, Hsf, Hsn. split_and!.
  - rewrite str_all_app in Hsa. by apply andb_true_iff in Hsa as [? _].
  - destruct t as [|c t'] eqn:Ht; [done|exact Hsf].
  - apply last_ok_rstrip.
  - by apply no_run_app in Hsn as [? _].
  - destruct (rstrip_by_prefix is_hyphen (take_str n s)) as (v & Hv & _).
    pose proof (length_take_str n s) as Hl. rewrite Hv, length_app_str in Hl. unfold t. lia.
Qed.

(** ** Lemmas: front-matter *)

(** Text before which no closing fence can be found early. *)
Fixpoint fence_free (s : string) : bool :=
  negb (startswith (NL ++ "---") s) && match s with EmptyString => true | String _ s' => fence_free s' end.

Lemma startswith_prefix_app p s t :
  (String.length p <= String.length s)%nat -> startswith p (s ++ t) = startswith p s.
Proof.
  unfold startswith. revert s. induction p as [|c p IH]; intros [|d s] Hl.
  - rewrite str_app_nil_l. by destruct t.
  - done.
  - cbn in Hl. lia.
  - rewrite str_app_cons. cbn in Hl |- *. destruct (ascii_dec c d); [|done]. apply IH. lia.
Qed.

(** The lazy group stops at the first fence: here, the one that was written. *)
Lemma find_close_app fm rest :
  fence_free (fm ++ NL ++ "--") = true -> find_close (fm ++ NL ++ "---" ++ rest) = Some (fm, rest).
Proof.
  induction fm as [|c fm IH]; intros H.
  - by destruct rest.
  - rewrite str_app_cons in H |- *. cbn [fence_free] in H. apply andb_true_iff in H as [Hns H].
    apply negb_true_iff in Hns. cbn [find_close].
    assert (startswith (NL ++ "---") (String c (fm ++ NL ++ "---" ++ rest)) = false) as ->.
    { etrans; [|exact Hns].
      assert (fm ++ NL ++ "---" ++ rest = (fm ++ NL ++ "--") ++ ("-" ++ rest)) as ->
        by (rewrite !str_app_assoc; done).
      rewrite <- str_app_cons. apply startswith_prefix_app. cbn. rewrite !length_app_str. cbn. lia. }
    by rewrite (IH H).
Qed.

Lemma fm_open_app fm rest :
  first_ok is_space fm = true -> nonempty fm = true -> fence_free (fm ++ NL ++ "--") = true ->
  fm_open (NL ++ fm ++ NL ++ "---" ++ rest) = Some (fm, rest).
Proof.
  intros Hf Hne Hff. destruct fm as [|c fm]; [done|].
  change (NL ++ String c fm ++ NL ++ "---" ++ rest)
    with (String newline (String c fm ++ NL ++ "---" ++ rest)).
  cbn [fm_open]. change (is_space newline) with true. cbv iota.
  assert (fm_open (String c fm ++ NL ++ "---" ++ rest) = None) as ->.
  { rewrite str_app_cons. cbn in Hf |- *. apply negb_true_iff in Hf. by rewrite Hf. }
  change (is_newline newline) with true. cbv iota. by apply find_close_app.
Qed.

(** What a document's body becomes when it is written and read back. *)
Definition normal_body (b : string) : string := let s := strip b in if nonempty s then s ++ NL else "".

Lemma is_newline_space c : is_newline c = true -> is_space c = true.
Proof. unfold is_newline. by intros ->%bool_decide_eq_true. Qed.

Lemma lstrip_newlines b : lstrip (lstrip_by is_newline b) = lstrip b.
Proof.
  unfold lstrip. induction b as [|c b IH]; cbn; [done|].
  destruct (is_newline c) eqn:Hc; [by rewrite IH, (is_newline_space c Hc)|done].
Qed.

Lemma lstrip_app_nl s : lstrip (s ++ NL) = if nonempty (lstrip s) then lstrip s ++ NL else "".
Proof.
  unfold lstrip. induction s as [|c s IH]; [done|]. rewrite str_app_cons. cbn [lstrip_by].
  destruct (is_space c); [done|]. done.
Qed.

(** The text that [join_frontmatter] writes after the closing fence reads back normalised. *)
Lemma normal_body_written b :
  lstrip (NL ++ NL ++ rstrip (lstrip_by is_newline b) ++ NL) = normal_body b.
Proof.
  change (NL ++ NL ++ rstrip (lstrip_by is_newline b) ++ NL)
    with ((NL ++ NL) ++ (rstrip (lstrip_by is_newline b) ++ NL)).
  unfold lstrip at 1. rewrite lstrip_by_app by done. fold lstrip.
  change (lstrip_by is_space (rstrip (lstrip_by is_newline b) ++ NL))
    with (lstrip (rstrip (lstrip_by is_newline b) ++ NL)).
  rewrite lstrip_app_nl. unfold lstrip at 1 2, rstrip.
  rewrite <- rstrip_lstrip_comm. change (lstrip_by is_space (lstrip_by is_newline b)) with
    (lstrip (lstrip_by is_newline b)). by rewrite lstrip_newlines.
Qed.

(** ** Lemmas: reading back a serialised task *)

Lemma dget_set_if_eq b k v (d : dict pyval) : dget k (set_if b k v d) = if b then Some v else dget k d.
Proof. destruct b; cbn; [apply dget_dset_eq|done]. Qed.

Lemma dget_set_if_ne b k k' v (d : dict pyval) : k <> k' -> dget k (set_if b k' v d) = dget k d.
Proof. destruct b; cbn; [apply dget_dset_ne|done]. Qed.

Lemma known_dset k v (d : dict pyval) :
  k ∈ KNOWN -> (forall k', k' ∈ dkeys d -> k' ∈ KNOWN) -> forall k', k' ∈ dkeys (dset k v d) -> k' ∈ KNOWN.
Proof. intros Hk H k' [->|Hin]%elem_of_dkeys_dset; auto. Qed.

Lemma known_set_if b k v (d : dict pyval) :
  k ∈ KNOWN -> (forall k', k' ∈ dkeys d -> k' ∈ KNOWN) ->
  forall k', k' ∈ dkeys (set_if b k v d) -> k' ∈ KNOWN.
Proof. destruct b; cbn; [apply known_dset|done]. Qed.

Ltac decide_known := apply (bool_decide_unpack _); vm_compute; exact I.

Lemma base_frontmatter_known t k : k ∈ dkeys (base_frontmatter t) -> k ∈ KNOWN.
Proof.
  revert k. unfold base_frontmatter, set_fields, routing_fields. cbv zeta. cbn [foldl fst snd].
  repeat first [apply known_dset; [decide_known|] | apply known_set_if; [decide_known|]].
  cbn. intros k Hk. assert (k ∈ ["id"; "title"; "status"; "product"; "phase"; "depends_on"]) as Hk' by exact Hk.
  revert Hk'. clear Hk. rewrite !elem_of_cons, elem_of_nil.
  intros [->|[->|[->|[->|[->|[->|[]]]]]]]; decide_known.
Qed.

(** Assigning fresh keys appends them. *)
Lemma dupdate_fresh (other d : dict pyval) :
  NoDup (dkeys other) -> (forall k, k ∈ dkeys other -> k ∉ dkeys d) -> dupdate other d = (d ++ other)%list.
Proof.
  unfold dupdate. revert d. induction other as [|[k v] other IH]; intros d Hnd Hdis; cbn.
  - by rewrite app_nil_r.
  - unfold dkeys in Hnd. cbn in Hnd. apply NoDup_cons in Hnd as [Hk Hnd].
    assert (Hkd : k ∉ dkeys d) by (apply Hdis; left).
    assert (Hset : dset k v d = (d ++ [(k, v)])%list).
    { clear -Hkd. unfold dkeys in Hkd. induction d as [|[k' v'] d IH]; cbn in *; [done|].
      apply not_elem_of_cons in Hkd as [? ?]. rewrite decide_False by done. by rewrite IH. }
    rewrite IH; [by rewrite Hset, <- app_assoc|done|].
    intros k' Hk'. rewrite dkeys_dset_absent by done.
    rewrite not_elem_of_app. split; [apply Hdis; by right|].
    intros ->%list_elem_of_singleton. done.
Qed.

Lemma dget_dupdate_ne k (other d : dict pyval) : k ∉ dkeys other -> dget k (dupdate other d) = dget k d.
Proof.
  unfold dupdate. revert d. induction other as [|[k' v] other IH]; intros d Hk; cbn; [done|].
  unfold dkeys in *. cbn in Hk. apply not_elem_of_cons in Hk as [? ?].
  rewrite IH by done. by apply dget_dset_ne.
Qed.

(** The [after] rules as the parser rebuilds them: in the order of the dependencies. *)
Definition rules_in_order (after : dict string) (deps : list string) : dict string :=
  foldl (fun acc d => match dget d after with Some r => dset d r acc | None => acc end) [] deps.

(** The tasks that the loop reads and writes. *)
Record task_wf (t : Task) : Prop := {
  wf_difficulty : difficulty t <> "";
  wf_rules : forall d r, dget d (dependency_after t) = Some r -> r = "stack" \/ r = "merge";
  wf_rules_order : dependency_after t = rules_in_order (dependency_after t) (depends_on t);
  wf_requirements : valid_requirements (execution_requirements t);
  wf_provenance : er_provenance (execution_requirements t) =
                  if er_empty (execution_requirements t) then [] else ["task"];
  wf_owner : owner t = "" \/ (owner_id_ok (owner t) = true /\ owner t <> UNASSIGNED_OWNER);
  wf_owner_unassigned : owner_unassigned t = true -> owner t = "";
  wf_freeze : freeze_exception t = false -> freeze_exception_reason t = "";
  wf_extra_nodup : NoDup (dkeys (extra t));
  wf_extra_fresh : forall k, k ∈ dkeys (extra t) -> k ∉ KNOWN;
}.

Lemma parse_dependency_entry p after d :
  (forall r, dget d after = Some r -> r = "stack" \/ r = "merge") ->
  parse_dependency p (dependency_entry after d) = Ok (d, default "" (dget d after)).
Proof.
  intros Hr. unfold dependency_entry. destruct (dget d after) as [r|]; [|done].
  by destruct (Hr r eq_refl) as [-> | ->].
Qed.

Lemma parse_dependencies_written p after deps :
  (forall d r, dget d after = Some r -> r = "stack" \/ r = "merge") ->
  parse_dependencies p (map (dependency_entry after) deps) = Ok (deps, rules_in_order after deps).
Proof.
  intros Hr. unfold parse_dependencies, rules_in_order.
  change (deps, foldl _ [] deps) with (([] ++ deps)%list,
    foldl (fun acc d => match dget d after with Some r => dset d r acc | None => acc end) [] deps).
  generalize (@nil string) as ds. generalize (@nil (string * string)) as acc.
  induction deps as [|d deps IH]; intros acc ds; cbn [map foldR foldl]; [by rewrite app_nil_r|].
  assert (add_dependency p (ds, acc) (dependency_entry after d) =
          Ok ((ds ++ [d])%list, match dget d after with Some r => dset d r acc | None => acc end)) as ->.
  { unfold add_dependency. rewrite parse_dependency_entry by apply Hr. cbn.
    destruct (dget d after) as [r|] eqn:Hd; cbn; [|done]. by destruct (Hr d r Hd) as [-> | ->]. }
  cbn [mbind result_bind]. rewrite IH. by rewrite <- app_assoc.
Qed.

Lemma status_of_value_status_value s : status_of_value (status_value s) = Some s.
Proof. by destruct s. Qed.

(** The lookups that [task_of_frontmatter] makes in a serialised task. *)
Section lookups.
Context (t : Task) (Hwf : task_wf t).

#[local] Ltac lookup_base :=
  unfold to_frontmatter;
  rewrite dget_dupdate_ne by (intros Hin; apply (wf_extra_fresh t Hwf) in Hin; apply Hin; decide_known);
  unfold base_frontmatter, set_fields, routing_fields; cbv zeta; cbn [foldl fst snd];
  repeat first [ rewrite dget_set_if_eq | rewrite dget_dset_eq
               | rewrite dget_set_if_ne by discriminate | rewrite dget_dset_ne by discriminate ];
  try reflexivity.

Lemma fm_id : dget "id" (to_frontmatter t) = Some (PStr (id t)).
Proof using Hwf. lookup_base. Qed.
Lemma fm_title : dget "title" (to_frontmatter t) = Some (PStr (title t)).
Proof using Hwf. lookup_base. Qed.
Lemma fm_status : dget "status" (to_frontmatter t) = Some (PStr (status_value (status t))).
Proof using Hwf. lookup_base. Qed.
Lemma fm_product : dget "product" (to_frontmatter t) = Some (PStr (product t)).
Proof using Hwf. lookup_base. Qed.
Lemma fm_phase : dget "phase" (to_frontmatter t) = Some (PStr (phase t)).
Proof using Hwf. lookup_base. Qed.
Lemma fm_depends_on : dget "depends_on" (to_frontmatter t) =
  Some (PList (map (dependency_entry (dependency_after t)) (depends_on t))).
Proof using Hwf. lookup_base. Qed.
Lemma fm_priority : dget "priority" (to_frontmatter t) = Some (PInt (priority t)).
Proof using Hwf. lookup_base. Qed.
Lemma fm_order : dget "order" (to_frontmatter t) =
  if is_some (order t) then Some (PInt (default 0 (order t))) else None.
Proof using Hwf. lookup_base. Qed.
Lemma fm_reading : dget "reading" (to_frontmatter t) = Some (strs (reading t)).
Proof using Hwf. lookup_base. Qed.
Lemma fm_difficulty : dget "difficulty" (to_frontmatter t) = Some (PStr (difficulty t)).
Proof using Hwf. lookup_base. Qed.
Lemma fm_requirements : dget "execution_requirements" (to_frontmatter t) =
  if negb (er_empty (execution_requirements t))
  then Some (PDict (er_to_dict (execution_requirements t))) else None.
Proof using Hwf. lookup_base. Qed.
Lemma fm_owner : dget "owner" (to_frontmatter t) =
  if owner_unassigned t then Some (PStr UNASSIGNED_OWNER)
  else if nonempty (owner t) then Some (PStr (owner t)) else None.
Proof using Hwf. lookup_base. Qed.
Lemma fm_freeze : dget "freeze_exception" (to_frontmatter t) =
  if freeze_exception t then Some (PBool true) else None.
Proof using Hwf. lookup_base. Qed.
Lemma fm_reason : dget "freeze_exception_reason" (to_frontmatter t) =
  if freeze_exception t && nonempty (freeze_exception_reason t)
  then Some (PStr (freeze_exception_reason t)) else None.
Proof using Hwf. lookup_base. Qed.
Lemma fm_retro : dget "retro_blocking" (to_frontmatter t) =
  if retro_blocking t then Some (PBool true) else None.
Proof using Hwf. lookup_base. Qed.
Lemma fm_attempts : dget "attempts" (to_frontmatter t) =
  if negb (attempts t =? 0) then Some (PInt (attempts t)) else None.
Proof using Hwf. lookup_base. Qed.
Lemma fm_created : dget "created" (to_frontmatter t) = Some (PStr (created t)).
Proof using Hwf. lookup_base. Qed.
Lemma fm_updated : dget "updated" (to_frontmatter t) = Some (PStr (updated t)).
Proof using Hwf. lookup_base. Qed.

(** A text field written only when it is not empty. *)
Lemma fm_text k v :
  (k, v) ∈ [("kind", kind t); ("estimate", estimate t); ("repo", repo t); ("branch", branch t);
            ("pr", pr t); ("runner", runner t); ("harness", harness t); ("model", model t);
            ("discovered_from", discovered_from t); ("last_dispatched_at", last_dispatched_at t)] ->
  dget k (to_frontmatter t) = if nonempty v then Some (PStr v) else None.
Proof using Hwf.
  rewrite !elem_of_cons, elem_of_nil.
  intros Hin. repeat (destruct Hin as [[= -> ->]|Hin]); [lookup_base..|done].
Qed.

Lemma str_or_text k v :
  (k, v) ∈ [("kind", kind t); ("estimate", estimate t); ("repo", repo t); ("branch", branch t);
            ("pr", pr t); ("runner", runner t); ("harness", harness t); ("model", model t);
            ("discovered_from", discovered_from t); ("last_dispatched_at", last_dispatched_at t)] ->
  str_or (to_frontmatter t) k "" = v.
Proof using Hwf. intros Hin. unfold str_or, pget. rewrite (fm_text k v Hin). by destruct v. Qed.

Lemma fm_extra :
  List.filter (fun kv : string * pyval => negb (mem kv.1 KNOWN)) (to_frontmatter t) = extra t.
Proof using Hwf.
  unfold to_frontmatter. rewrite dupdate_fresh;
    [|by apply wf_extra_nodup|
     intros k Hk Hb; by apply (wf_extra_fresh t Hwf k Hk), (base_frontmatter_known t)].
  rewrite List.filter_app.
  assert (Hb : forall kv, kv ∈ base_frontmatter t -> mem kv.1 KNOWN = true).
  { intros kv Hkv. apply mem_spec, (base_frontmatter_known t), list_elem_of_fmap. eauto. }
  assert (He : forall kv, kv ∈ extra t -> mem kv.1 KNOWN = false).
  { intros kv Hkv. apply mem_false, (wf_extra_fresh t Hwf), list_elem_of_fmap. eauto. }
  assert (List.filter (fun kv : string * pyval => negb (mem kv.1 KNOWN)) (base_frontmatter t) = []) as ->.
  { revert Hb. induction (base_frontmatter t) as [|kv d IH]; intros Hb; cbn; [done|].
    rewrite (Hb kv) by left. cbn. apply IH. intros ? ?. apply Hb. by right. }
  cbn. revert He. induction (extra t) as [|kv d IH]; intros He; cbn; [done|].
  rewrite (He kv) by left. cbn. f_equal. apply IH. intros ? ?. apply He. by right.
Qed.
End lookups.

Lemma map_py_str_PStr l : map py_str (map PStr l) = l.
Proof. induction l as [|s l IH]; cbn; [done|]. by rewrite IH. Qed.

Lemma parse_requirements_written t :
  task_wf t ->
  parse_execution_requirements (pget "execution_requirements" (to_frontmatter t)) "task"
  = Ok (execution_requirements t).
Proof.
  intros Hwf. unfold pget. rewrite fm_requirements by done.
  pose proof (wf_provenance t Hwf) as Hp. destruct (er_empty _) eqn:He; cbn -[parse_execution_requirements].
  - cbn. f_equal. destruct (er_empty_true _ He) as (Hc & Hw & Hr).
    destruct (execution_requirements t); cbn in *; by subst.
  - rewrite parse_written_requirements, He by apply Hwf. f_equal.
    destruct (execution_requirements t); cbn in *; by subst.
Qed.

Lemma parse_owner_written t :
  task_wf t ->
  is_unassigned (pget "owner" (to_frontmatter t)) = owner_unassigned t /\
  parse_owner (to_frontmatter t) (path t) = Ok (owner t).
Proof.
  intros Hwf. unfold parse_owner, pget. rewrite fm_owner by done.
  destruct (owner_unassigned t) eqn:Hu; cbn [default]; [by rewrite (wf_owner_unassigned t Hwf Hu)|].
  destruct (wf_owner t Hwf) as [->|[Hok Hne]]; [done|].
  destruct (owner t) as [|c s] eqn:Ho; [done|].
  change (default PNone (if nonempty (String c s) then Some (PStr (String c s)) else None))
    with (PStr (String c s)).
  assert (is_unassigned (PStr (String c s)) = false) as -> by (apply bool_decide_eq_false; congruence).
  split; [done|]. unfold owner_id. rewrite Hok. by rewrite bool_decide_eq_false_2.
Qed.

(** The values [task_of_frontmatter] computes from those lookups. *)
Section values.
Context (t : Task) (Hwf : task_wf t).

Lemma read_status : pget_or "status" (PStr "draft") (to_frontmatter t) = PStr (status_value (status t)).
Proof using Hwf. by apply pget_or_dget, fm_status. Qed.
Lemma read_title : pget_or "title" (PStr "") (to_frontmatter t) = PStr (title t).
Proof using Hwf. by apply pget_or_dget, fm_title. Qed.
Lemma read_product : str_or (to_frontmatter t) "product" (product t) = product t.
Proof using Hwf. unfold str_or, pget. rewrite fm_product by done. by destruct (product t). Qed.
Lemma read_phase : str_or (to_frontmatter t) "phase" (phase t) = phase t.
Proof using Hwf. unfold str_or, pget. rewrite fm_phase by done. by destruct (phase t). Qed.
Lemma read_dependencies p :
  raw_dependencies (to_frontmatter t) p
  = Ok (map (dependency_entry (dependency_after t)) (depends_on t)).
Proof using Hwf. unfold raw_dependencies, pget. rewrite fm_depends_on by done. by destruct (depends_on t). Qed.
Lemma read_priority : py_int (pget_or "priority" (PInt 3) (to_frontmatter t)) = Ok (priority t).
Proof using Hwf. by rewrite (pget_or_dget _ _ _ _ (fm_priority t Hwf)). Qed.
Lemma read_order : parse_order (pget "order" (to_frontmatter t)) = Ok (order t).
Proof using Hwf. unfold pget. rewrite fm_order by done. by destruct (order t). Qed.
Lemma read_reading : py_iter (por (pget "reading" (to_frontmatter t)) (PList [])) = Ok (map PStr (reading t)).
Proof using Hwf. unfold pget. rewrite fm_reading by done. by destruct (reading t). Qed.
Lemma read_attempts :
  py_int (por (pget_or "attempts" (PInt 0) (to_frontmatter t)) (PInt 0)) = Ok (attempts t).
Proof using Hwf.
  unfold pget_or. rewrite fm_attempts by done.
  destruct (Z.eqb_spec (attempts t) 0) as [->|Hne]; cbn; [done|].
  unfold por, truthy. by rewrite (proj2 (Z.eqb_neq _ _) Hne).
Qed.
Lemma read_difficulty : str_or (to_frontmatter t) "difficulty" "medium" = difficulty t.
Proof using Hwf.
  unfold str_or, pget. rewrite fm_difficulty by done.
  pose proof (wf_difficulty t Hwf). by destruct (difficulty t).
Qed.
Lemma read_reason : str_or (to_frontmatter t) "freeze_exception_reason" "" = freeze_exception_reason t.
Proof using Hwf.
  unfold str_or, pget. rewrite fm_reason by done. pose proof (wf_freeze t Hwf) as Hf.
  destruct (freeze_exception t); cbn; [by destruct (freeze_exception_reason t)|by rewrite Hf].
Qed.
Lemma read_freeze : flag (to_frontmatter t) "freeze_exception" = freeze_exception t.
Proof using Hwf. unfold flag, pget. rewrite fm_freeze by done. by destruct (freeze_exception t). Qed.
Lemma read_retro : flag (to_frontmatter t) "retro_blocking" = retro_blocking t.
Proof using Hwf. unfold flag, pget. rewrite fm_retro by done. by destruct (retro_blocking t). Qed.
Lemma read_created : str_or (to_frontmatter t) "created" "" = created t.
Proof using Hwf. unfold str_or, pget. rewrite fm_created by done. by destruct (created t). Qed.
Lemma read_updated : str_or (to_frontmatter t) "updated" "" = updated t.
Proof using Hwf. unfold str_or, pget. rewrite fm_updated by done. by destruct (updated t). Qed.
End values.

(** A serialised task reads back as itself, without its snapshot. *)
Lemma task_of_to_frontmatter t :
  task_wf t ->
  task_of_frontmatter (path t) (to_frontmatter t) (body t) (product t) (phase t)
  = Ok (with_text t (body t) (updated t) None).
Proof.
  intros Hwf. unfold task_of_frontmatter.
  rewrite fm_id, read_status by done. cbn [py_str]. rewrite status_of_value_status_value.
  rewrite read_dependencies by done. cbn [mbind result_bind].
  rewrite parse_dependencies_written by apply (wf_rules t Hwf).
  rewrite <- (wf_rules_order t Hwf). cbn [mbind result_bind fst snd].
  rewrite read_priority by done. cbn [mbind result_bind].
  rewrite read_order by done. cbn [mbind result_bind].
  rewrite read_reading by done. cbn [mbind result_bind].
  rewrite parse_requirements_written by done. cbn [mbind result_bind].
  destruct (parse_owner_written t Hwf) as [Hu ->]. cbn [mbind result_bind].
  rewrite read_attempts by done. cbn [mbind result_bind].
  unfold with_text.
  rewrite map_py_str_PStr, Hu, fm_extra, read_title, read_product, read_phase, read_difficulty,
    read_reason, read_freeze, read_retro, read_created, read_updated by done.
  by rewrite (str_or_text t Hwf "kind" (kind t)), (str_or_text t Hwf "estimate" (estimate t)),
    (str_or_text t Hwf "repo" (repo t)), (str_or_text t Hwf "branch" (branch t)),
    (str_or_text t Hwf "pr" (pr t)), (str_or_text t Hwf "runner" (runner t)),
    (str_or_text t Hwf "harness" (harness t)), (str_or_text t Hwf "model" (model t)),
    (str_or_text t Hwf "discovered_from" (discovered_from t)),
    (str_or_text t Hwf "last_dispatched_at" (last_dispatched_at t)) by set_solver.
Qed.

(** ** Lemmas: the log *)

Definition no_line_end (s : string) : bool := str_all (fun c => negb (is_line_end c)) s.

Lemma splitlines_one cur line :
  no_line_end line = true -> splitlines_from cur (line ++ NL) = [cur ++ line].
Proof.
  revert cur. induction line as [|c line IH]; intros cur H.
  - by rewrite str_app_nil_l, str_app_nil_r.
  - cbn in H. apply andb_true_iff in H as [Hc H]. apply negb_true_iff in Hc.
    rewrite str_app_cons. cbn [splitlines_from]. rewrite Hc, (IH _ H). by rewrite str_app_assoc.
Qed.

(** The last line written is the last line read, whatever precedes it. *)
Lemma splitlines_last line a cur :
  no_line_end line = true -> exists l, splitlines_from cur (a ++ NL ++ line ++ NL) = (l ++ [line])%list.
Proof.
  intros Hl. revert cur.
  assert (Hbase : forall cur, exists l, splitlines_from cur (NL ++ line ++ NL) = (l ++ [line])%list).
  { intros cur. exists [cur]. change (NL ++ line ++ NL) with (String newline (line ++ NL)).
    cbn [splitlines_from]. change (is_line_end newline) with true. cbv iota.
    destruct (line ++ NL) as [|c s] eqn:E; [by destruct line|].
    change (N_of_ascii newline =? 13)%N with false. cbn [andb]. rewrite <- E.
    by rewrite (splitlines_one "" line Hl). }
  remember (String.length a) as n eqn:Hn. revert a Hn.
  induction (lt_wf n) as [n _ IH]; intros a Hn cur.
  destruct a as [|c a]; [by rewrite str_app_nil_l|]. rewrite str_app_cons. cbn [splitlines_from].
  destruct (is_line_end c).
  - assert (Hrec : exists l, cur :: splitlines_from "" (a ++ NL ++ line ++ NL) = (l ++ [line])%list).
    { destruct (IH (String.length a) ltac:(subst; cbn; lia) a eq_refl "") as [l ->].
      by exists (cur :: l). }
    destruct a as [|d a].
    + rewrite str_app_nil_l in *. change (NL ++ line ++ NL) with (String newline (line ++ NL)) in *.
      cbv iota. destruct ((N_of_ascii c =? 13)%N && is_newline newline); [|exact Hrec].
      exists [cur]. by rewrite (splitlines_one "" line Hl).
    + rewrite str_app_cons in *. cbv iota. destruct ((N_of_ascii c =? 13)%N && is_newline d); [|exact Hrec].
      destruct (IH (String.length a) ltac:(subst; cbn; lia) a eq_refl "") as [l ->].
      by exists (cur :: l).
  - apply (IH (String.length a)); [subst; cbn; lia|done].
Qed.

Lemma partition_app c a b : has_char c a = false -> partition c (a ++ String c b) = (a, b).
Proof.
  unfold has_char. intros H%negb_false_iff. induction a as [|x a IH].
  - rewrite str_app_nil_l. cbn [partition]. by rewrite decide_True.
  - cbn in H. apply andb_true_iff in H as [Hx H]. rewrite str_app_cons. cbn [partition].
    apply negb_true_iff, bool_decide_eq_false in Hx. rewrite decide_False by done. by rewrite (IH H).
Qed.

Lemma last_log_written text stamp message :
  has_char " "%char stamp = false -> no_line_end stamp = true -> no_line_end message = true ->
  last_log (text ++ NL ++ ("- " ++ stamp ++ " " ++ message) ++ NL) = (strip message, stamp_time stamp).
Proof.
  intros Hsp Hs Hm. unfold last_log, splitlines.
  assert (Hl : no_line_end ("- " ++ stamp ++ " " ++ message) = true).
  { unfold no_line_end in *. by rewrite !str_all_app, Hs, Hm. }
  destruct (splitlines_last _ text "" Hl) as [l ->]. rewrite rev_app_distr.
  change (rev [?x] ++ ?r)%list with (x :: r). cbn [List.find]. rewrite (startswith_app "- ").
  rewrite (drop_str_app "- "). change (" " ++ message) with (String " " message).
  by rewrite partition_app.
Qed.

Lemma blank_to_eol_extend text nls x :
  str_all is_newline nls = true ->
  blank_to_eol (text ++ nls) = true -> blank_to_eol (text ++ NL ++ x) = true.
Proof.
  intros Hn. induction text as [|c text IH]; [done|]. rewrite !str_app_cons. cbn.
  destruct (is_newline c); [done|]. destruct (is_space c); [|done]. exact IH.
Qed.

(** A prefix without newlines is not completed by trailing newlines. *)
Lemma startswith_before_newlines p text nls :
  str_all (fun c => negb (is_newline c)) p = true -> str_all is_newline nls = true ->
  startswith p (text ++ nls) = true -> exists rest, text = p ++ rest.
Proof.
  intros Hp Hn. unfold startswith. revert text. induction p as [|c p IH]; intros text H; [by exists text|].
  cbn in Hp. apply andb_true_iff in Hp as [Hc Hp]. destruct text as [|d text].
  - rewrite str_app_nil_l in H. destruct nls as [|d nls]; [done|]. cbn in H, Hn.
    apply andb_true_iff in Hn as [Hd _]. destruct (ascii_dec c d); [subst|done].
    by rewrite Hd in Hc.
  - rewrite str_app_cons in H. cbn in H. destruct (ascii_dec c d); [subst|done].
    destruct (IH Hp text H) as [rest ->]. exists rest. by rewrite str_app_cons.
Qed.

Lemma has_log_section_extend bol text nls x :
  str_all is_newline nls = true ->
  has_log_section_from bol (text ++ nls) = true -> has_log_section_from bol (text ++ NL ++ x) = true.
Proof.
  intros Hn. revert bol. induction text as [|c text IH]; intros bol.
  - rewrite !str_app_nil_l. intros H. exfalso. revert bol H.
    induction nls as [|c nls IHn]; intros bol H; [by destruct bol|].
    cbn in Hn. apply andb_true_iff in Hn as [Hc Hn]. cbn [has_log_section_from] in H.
    apply orb_true_iff in H as [H|H]; [|by eapply IHn].
    apply andb_true_iff in H as [H _]. apply andb_true_iff in H as [_ H].
    unfold is_newline in Hc. apply bool_decide_eq_true in Hc as ->. discriminate H.
  - rewrite !str_app_cons. cbn [has_log_section_from]. rewrite !orb_true_iff.
    intros [H|H]; [left|right; by apply IH].
    apply andb_true_iff in H as [H Hb]. apply andb_true_iff in H as [-> Hs].
    rewrite <- str_app_cons in Hs, Hb.
    destruct (startswith_before_newlines "## Log" (String c text) nls eq_refl Hn Hs) as [rest Hr].
    rewrite <- str_app_cons, Hr, str_app_assoc in *. rewrite startswith_app.
    change 6%nat with (String.length "## Log") in *. rewrite drop_str_app in *. cbn [andb].
    by apply (blank_to_eol_extend rest nls).
Qed.

Lemma has_log_section_new text x : has_log_section (text ++ NL ++ "## Log" ++ NL ++ x) = true.
Proof.
  unfold has_log_section. enough (H : forall bol,
    has_log_section_from bol (text ++ NL ++ "## Log" ++ NL ++ x) = true) by apply H.
  induction text as [|c text IH]; intros bol.
  - change ("" ++ NL ++ "## Log" ++ NL ++ x) with (String newline ("## Log" ++ NL ++ x)).
    cbn [has_log_section_from]. apply orb_true_iff. right. destruct x; reflexivity.
  - rewrite str_app_cons. cbn [has_log_section_from]. apply orb_true_iff. right. apply IH.
Qed.

Lemma log_body_shape stamp message t :
  exists text, body (log stamp message t) = text ++ NL ++ ("- " ++ stamp ++ " " ++ message) ++ NL.
Proof.
  unfold log. cbv zeta. cbn [body with_text]. destruct (has_log_section (body t)); [by eexists|].
  exists (rstrip_by is_newline (body t) ++ NL ++ NL ++ "## Log" ++ NL). by rewrite !str_app_assoc.
Qed.

Lemma log_has_section stamp message t : has_log_section (body (log stamp message t)) = true.
Proof.
  unfold log. cbv zeta. cbn [body with_text]. destruct (has_log_section (body t)) eqn:H.
  - destruct (rstrip_by_prefix is_newline (body t)) as (nls & Hb & Hn). unfold has_log_section in *.
    rewrite Hb in H. by apply (has_log_section_extend _ _ nls).
  - change (rstrip_by is_newline (body t) ++ NL ++ NL ++ "## Log" ++ NL ++ NL ++ ?x)
      with (rstrip_by is_newline (body t) ++ NL ++ (NL ++ "## Log" ++ NL ++ NL ++ x)).
    rewrite <- (str_app_assoc _ NL). apply has_log_section_new.
Qed.

(** ** Lemmas: the dispatch order *)

Lemma key_leb_total k1 k2 : key_leb k1 k2 = true \/ key_leb k2 k1 = true.
Proof.
  destruct k1 as [[[p1 b1] o1] i1], k2 as [[[p2 b2] o2] i2]. unfold key_leb.
  rewrite (Z.eqb_sym p2), (Z.eqb_sym b2), (Z.eqb_sym o2).
  destruct (Z.eqb_spec p1 p2); [|lia]. destruct (Z.eqb_spec b1 b2); [|lia].
  destruct (Z.eqb_spec o1 o2); [|lia]. apply str_leb_total.
Qed.

Lemma key_leb_trans k1 k2 k3 : key_leb k1 k2 = true -> key_leb k2 k3 = true -> key_leb k1 k3 = true.
Proof.
  destruct k1 as [[[p1 b1] o1] i1], k2 as [[[p2 b2] o2] i2], k3 as [[[p3 b3] o3] i3]. unfold key_leb.
  destruct (Z.eqb_spec p1 p2), (Z.eqb_spec p2 p3), (Z.eqb_spec p1 p3); subst; try done; try lia.
  destruct (Z.eqb_spec b1 b2), (Z.eqb_spec b2 b3), (Z.eqb_spec b1 b3); subst; try done; try lia.
  destruct (Z.eqb_spec o1 o2), (Z.eqb_spec o2 o3), (Z.eqb_spec o1 o3); subst; try done; try lia.
  apply str_leb_trans.
Qed.

Lemma key_leb_antisym k1 k2 : key_leb k1 k2 = true -> key_leb k2 k1 = true -> k1 = k2.
Proof.
  destruct k1 as [[[p1 b1] o1] i1], k2 as [[[p2 b2] o2] i2]. unfold key_leb.
  rewrite (Z.eqb_sym p2), (Z.eqb_sym b2), (Z.eqb_sym o2).
  destruct (Z.eqb_spec p1 p2), (Z.eqb_spec b1 b2), (Z.eqb_spec o1 o2); subst; try lia.
  intros H1 H2. by rewrite (str_leb_antisym _ _ H1 H2).
Qed.

Lemma dispatch_leb_total t1 t2 : dispatch_leb t1 t2 = true \/ dispatch_leb t2 t1 = true.
Proof. apply key_leb_total. Qed.
Lemma dispatch_leb_trans t1 t2 t3 :
  dispatch_leb t1 t2 = true -> dispatch_leb t2 t3 = true -> dispatch_leb t1 t3 = true.
Proof. apply key_leb_trans. Qed.
Lemma dispatch_leb_antisym t1 t2 : dispatch_leb t1 t2 = true -> dispatch_leb t2 t1 = true -> id t1 = id t2.
Proof. intros H1 H2. pose proof (key_leb_antisym _ _ H1 H2) as H. by injection H. Qed.

Lemma strip_idem b : strip (strip b) = strip b.
Proof.
  unfold strip, lstrip, rstrip.
  rewrite (lstrip_by_id is_space (rstrip_by is_space (lstrip_by is_space b)))
    by (apply first_ok_rstrip, first_ok_lstrip).
  apply rstrip_by_id, last_ok_rstrip.
Qed.

Lemma normal_body_idem b : normal_body (normal_body b) = normal_body b.
Proof.
  unfold normal_body at 2 3. destruct (nonempty (strip b)) eqn:Hn; [|done].
  unfold normal_body. enough (strip (strip b ++ NL) = strip b) as -> by by rewrite Hn.
  unfold strip at 1. rewrite lstrip_app_nl.
  assert (lstrip (strip b) = strip b) as ->.
  { apply lstrip_by_id. apply first_ok_rstrip, first_ok_lstrip. }
  rewrite Hn. unfold rstrip. rewrite rstrip_by_app by done.
  apply rstrip_by_id, last_ok_rstrip.
Qed.

(** Text a YAML dump of a non-empty mapping has: it starts with a key and no line of it is a
    fence. *)
Definition yaml_text_ok (fm : string) : bool :=
  first_ok is_space fm && nonempty fm && fence_free (fm ++ NL ++ "--").

Lemma split_join_frontmatter safe_load safe_dump d b :
  let fm := rstrip_by is_newline (safe_dump d) in
  yaml_text_ok fm = true -> safe_load fm = Ok (PDict d) ->
  split_frontmatter safe_load (join_frontmatter safe_dump d b) = Ok (d, normal_body b).
Proof.
  intros fm Hfm Hload. unfold yaml_text_ok in Hfm.
  apply andb_true_iff in Hfm as [Hfm Hff]. apply andb_true_iff in Hfm as [Hf Hne].
  unfold split_frontmatter, join_frontmatter, frontmatter_match. fold fm. cbv zeta.
  rewrite (startswith_app "---"). change 3%nat with (String.length "---"). rewrite drop_str_app.
  rewrite (fm_open_app fm) by done. cbn [fmap option_fmap option_map fst snd].
  rewrite normal_body_written, Hload. cbn [mbind result_bind]. by destruct d.
Qed.

(** ** Properties *)

(** C37.  A task document survives a save and a load: parsing what [render] writes gives back the
    task, with its body normalised (surrounding blank space dropped, one final newline) and its
    snapshot recording exactly what is on disk.  The YAML library is assumed to read back the
    mapping it dumped, as block text without a document fence. *)
Theorem task_document_roundtrip (safe_load : string -> result exn pyval) (safe_dump : dict pyval -> string)
    (t : Task) (Hwf : task_wf t)
    (Hdump : yaml_text_ok (rstrip_by is_newline (safe_dump (to_frontmatter t))) = true)
    (Hload : safe_load (rstrip_by is_newline (safe_dump (to_frontmatter t))) = Ok (PDict (to_frontmatter t))) :
  parse safe_load (path t) (render safe_dump t) (product t) (phase t)
  = Ok (with_text t (normal_body (body t)) (updated t)
          (Some (to_frontmatter t, normal_body (body t), path t))).
Proof.
  unfold parse, render. rewrite split_join_frontmatter by done. cbn [mbind result_bind fst snd].
  pose proof (task_of_to_frontmatter (with_text t (normal_body (body t)) (updated t) None)) as H.
  change (to_frontmatter (with_text t ?b (updated t) None)) with (to_frontmatter t) in H.
  cbn [path product phase body with_text] in H. rewrite H by (destruct Hwf; by split). done.
Qed.

(** A task as the onboarding writes one, with a stacked and a merge dependency. *)
Definition sample_task : Task :=
  {| path := "widget/p1/tasks/T-2.md"; id := "T-2"; title := "Ship it"; status := READY;
     product := "widget"; phase := "p1"; depends_on := ["T-0"; "T-1"]; dependency_after := [("T-1", "merge")];
     kind := ""; priority := 2; order := Some 4; estimate := "S"; reading := ["widget/product.md"];
     repo := ""; branch := ""; pr := ""; runner := ""; harness := "codex"; difficulty := "easy"; model := "";
     execution_requirements := gpu_item "nvidia" 1; owner := "ana"; owner_unassigned := false;
     discovered_from := ""; freeze_exception := false; freeze_exception_reason := "";
     retro_blocking := true; attempts := 2; last_dispatched_at := ""; created := "2026-01-01"; updated := "";
     extra := [("x-note", PList [PInt 1; PNone])]; body := NL ++ "  ## Goal" ++ NL; loaded := None |}.

Lemma gpu_item_valid : valid_requirements (gpu_item "nvidia" 1).
Proof.
  split; cbn; try lia; try (repeat constructor; set_solver).
  intros g [= <-]. unfold valid_gpu; cbn. split_and!; try lia; [by right|by repeat constructor|].
  repeat constructor; set_solver.
Qed.

Lemma sample_task_wf : task_wf sample_task.
Proof.
  split; try done.
  - intros d r. cbn. destruct (decide (d = "T-1")); [|done]. intros [= <-]. by right.
  - apply gpu_item_valid.
  - right. split; [done|]. discriminate.
  - repeat constructor; set_solver.
  - intros k. cbn. intros ->%list_elem_of_singleton. apply (bool_decide_unpack _). vm_compute. exact I.
Qed.

Lemma task_document_roundtrip_witness :
  let dump := fun _ : dict pyval => "id: T-2" ++ NL in
  let load := fun _ : string => Ok (PDict (to_frontmatter sample_task)) in
  exists t, parse load "widget/p1/tasks/T-2.md" (render dump sample_task) "widget" "p1" = Ok t /\
    body t = "## Goal" ++ NL /\ dependency_after t = [("T-1", "merge")].
Proof.
  intros dump load. eexists. split; [|split].
  - apply (task_document_roundtrip load dump sample_task sample_task_wf); reflexivity.
  - reflexivity.
  - reflexivity.
Defined.

(** Front-matter and body survive [join_frontmatter] then [split_frontmatter], the body
    normalised, and normalising is stable: a second save changes nothing. *)
Theorem frontmatter_roundtrip (safe_load : string -> result exn pyval) (safe_dump : dict pyval -> string)
    (d : dict pyval) (b : string)
    (Hdump : yaml_text_ok (rstrip_by is_newline (safe_dump d)) = true)
    (Hload : safe_load (rstrip_by is_newline (safe_dump d)) = Ok (PDict d)) :
  split_frontmatter safe_load (join_frontmatter safe_dump d b) = Ok (d, normal_body b) /\
  normal_body (normal_body b) = normal_body b.
Proof. split; [by apply split_join_frontmatter|apply normal_body_idem]. Qed.

Lemma frontmatter_roundtrip_witness :
  let dump := fun _ : dict pyval => "id: CG-1" ++ NL in
  let load := fun _ : string => Ok (PDict [("id", PStr "CG-1")]) in
  split_frontmatter load (join_frontmatter dump [("id", PStr "CG-1")] (NL ++ "## Goal" ++ NL ++ NL))
  = Ok ([("id", PStr "CG-1")], "## Goal" ++ NL).
Proof.
  intros dump load.
  apply (frontmatter_roundtrip load dump [("id", PStr "CG-1")] (NL ++ "## Goal" ++ NL ++ NL)); reflexivity.
Defined.

(** What [Task.log] records is what the refusal of a closed task reports: the last log line
    read back is the stripped message and the stamp's time, whatever the body held before; and the
    log section exists afterwards, so that the next entry joins it instead of opening another. *)
Theorem log_recorded (stamp message : string) (t : Task)
    (Hspace : has_char " "%char stamp = false)
    (Hstamp : no_line_end stamp = true) (Hmessage : no_line_end message = true) :
  last_log (body (log stamp message t)) = (strip message, stamp_time stamp) /\
  has_log_section (body (log stamp message t)) = true /\
  updated (log stamp message t) = stamp.
Proof.
  split_and!; [|apply log_has_section|done].
  destruct (log_body_shape stamp message t) as [text ->]. by apply last_log_written.
Qed.

Lemma log_recorded_witness :
  last_log (body (log "2026-03-04T02:17:55+00:00" "merged " sample_task)) = ("merged", "02:17:55").
Proof.
  apply (log_recorded "2026-03-04T02:17:55+00:00" "merged " sample_task); reflexivity.
Defined.

(** Slugs are safe branch-name parts: never empty, lower-case letters, digits and single
    hyphens only, no hyphen at either end, and at most [max_len] characters long. *)
Theorem slugify_safe (text : string) (max_len : nat) (Hlen : (4 <= max_len)%nat) :
  slug_shape (slugify text max_len) = true /\ (String.length (slugify text max_len) <= max_len)%nat.
Proof.
  destruct (slugify_shape_gen text max_len) as (Ha & Hf & Hl & Hn & Hlen').
  unfold slugify. cbv zeta. destruct (nonempty _) eqn:Hne; [|split; [done|cbn; lia]].
  split; [|done]. unfold slug_shape. by rewrite Hne, Ha, Hf, Hl, Hn.
Qed.

Lemma slugify_safe_witness :
  slugify "Fix: the ++ (weird) Title!" 12 = "fix-the-weir" /\ slug_shape (slugify "Fix: the ++ (weird) Title!" 12) = true.
Proof. split; [reflexivity|]. apply (slugify_safe "Fix: the ++ (weird) Title!" 12). lia. Defined.
