(* ===== verification/Graph.v ===== *)
(** * The dependency graph ([src/src/garden/graph.py])

    Edge rules, blockers, readiness, Kahn's topological order, the critical path, layering, the
    hidden-work filter and the mermaid export.  The graph is the dictionary of tasks itself: an
    edge from [d] to [c] when task [c] depends on the known task [d].

    [topological_order] runs its [while] loop on fuel, the number of tasks; [OutOfFuel] is shown
    to be unreachable. *)

From Stdlib Require ListDec.
From S2P Require Import Prelude PyValue Requirements TaskModel.

Abbreviation tasks_t := (dict Task).

(** ** Edge rules *)

(** The word boundaries of [re] on ASCII text. *)
Definition is_word (c : ascii) : bool := is_alnum c || bool_decide (c = "_"%char).
Definition at_boundary (s : string) : bool := match s with String c _ => negb (is_word c) | "" => true end.

(** [s] starts with the word [w], in any case, and the word ends there. *)
Definition starts_word (w s : string) : bool :=
  startswith w (lower s) && at_boundary (drop_str (String.length w) s).

Definition document_words : list string := ["design"; "spec"; "document"].

(** [re.search(r"\b(design|spec|document)(?:ation)?\b", title, re.I)]; [prev] says that the
    previous character is a word character. *)
Fixpoint title_is_document (prev : bool) (s : string) : bool :=
  (negb prev && existsb (fun w => starts_word w s || starts_word (w ++ "ation") s) document_words)
  || match s with "" => false | String c s' => title_is_document (is_word c) s' end.

(** [re.search(r"^##\s+(?:design|spec|documentation?)\b", body, re.I | re.M)]; [bol] says that
    this is the start of a line. *)
Definition heading_words : list string := ["design"; "spec"; "documentation"; "documentatio"].
Definition heading_here (s : string) : bool :=
  startswith "##" s &&
  match drop_str 2 s with
  | String c s' => is_space c && existsb (fun w => starts_word w (lstrip s')) heading_words
  | "" => false
  end.
Fixpoint body_is_document (bol : bool) (s : string) : bool :=
  (bol && heading_here s) || match s with "" => false | String c s' => body_is_document (is_newline c) s' end.

(** The dependency is document work, by its kind, its title or a heading of its body. *)
Definition is_document_work (dep : Task) : bool :=
  mem (lower (kind dep)) document_words || title_is_document false (title dep)
  || body_is_document true (body dep).

(** [dependency_after(task, dep_id, tasks)] *)
Definition edge_rule (t : Task) (dep_id : string) (tasks : tasks_t) : string :=
  let explicit := default "" (dget dep_id (dependency_after t)) in
  if nonempty explicit then explicit
  else match dget dep_id tasks with
       | Some dep => if is_document_work dep then "merge" else "stack"
       | None => "stack"
       end.

(** ** Topological order *)

Inductive graph_error : Type :=
| CycleAmong (stuck : list string)  (* GraphError *)
| MissingKey (key : string)         (* KeyError *)
| OutOfFuel.

(** [str(e)] for the [GraphError] of a cycle *)
Definition cycle_message (stuck : list string) : string := "dependency cycle among: " ++ join ", " stuck.

Definition known (tasks : tasks_t) (d : string) : bool := dmem d tasks.

(** [indeg[c] += 1; children[d].append(c)] *)
Definition add_edge (st : dict Z * dict (list string)) (d c : string)
    : result graph_error (dict Z * dict (list string)) :=
  match dget c st.1 with
  | Some n => Ok (dset c (n + 1) st.1, dset d (default [] (dget d st.2) ++ [c])%list st.2)
  | None => Err (MissingKey c)
  end.

(** [indeg] and [children] before any edge is counted. *)
Definition no_counts (tasks : tasks_t) : dict Z * dict (list string) :=
  (map (fun tid => (tid, 0)) (dkeys tasks), map (fun tid => (tid, [])) (dkeys tasks)).

(** The loops over tasks and their dependencies. *)
Definition count_edges (tasks : tasks_t) : result graph_error (dict Z * dict (list string)) :=
  foldR (fun st t => foldR (fun st d => if known tasks d then add_edge st d (id t) else Ok st) (depends_on t) st)
    (dvals tasks) (no_counts tasks).

(** One child of the popped task: its count drops, and at zero it is queued. *)
Definition relax (st : dict Z * list string) (c : string) : dict Z * list string :=
  let n := default 0 (dget c st.1) - 1 in
  (dset c n st.1, if n =? 0 then (st.2 ++ [c])%list else st.2).

(** The [while q] loop: the final counts and the order. *)
Fixpoint kahn (fuel : nat) (children : dict (list string)) (indeg : dict Z) (q order : list string)
    : option (dict Z * list string) :=
  match q with
  | [] => Some (indeg, order)
  | tid :: q' =>
      match fuel with
      | O => None
      | S fuel' =>
          let '(indeg', q'') := foldl relax (indeg, q') (sorted_str (default [] (dget tid children))) in
          kahn fuel' children indeg' q'' (order ++ [tid])%list
      end
  end.

(** [topological_order] *)
Definition topological_order (tasks : tasks_t) : result graph_error (list string) :=
  ic ← count_edges tasks;
  let q := sorted_str (dkeys (List.filter (fun kv => kv.2 =? 0) ic.1)) in
  match kahn (List.length tasks) ic.2 ic.1 q [] with
  | None => Err OutOfFuel
  | Some (indeg, order) =>
      if (Nat.eqb (List.length order) (List.length tasks)) then Ok order
      else Err (CycleAmong (sorted_str (dkeys (List.filter (fun kv => 0 <? kv.2) indeg))))
  end.

(** [validate]: unknown dependencies in document order, then the cycle. *)
Definition unknown_problems (tasks : tasks_t) : list string :=
  mjoin (map (fun t => map (fun d => id t ++ " depends on unknown task " ++ d)
                         (List.filter (fun d => negb (known tasks d)) (depends_on t)))
             (dvals tasks)).

Definition validate (tasks : tasks_t) : result graph_error (list string) :=
  match topological_order tasks with
  | Ok _ => Ok (unknown_problems tasks)
  | Err (CycleAmong stuck) => Ok (unknown_problems tasks ++ [cycle_message stuck])%list
  | Err e => Err e
  end.

(** ** Blockers and readiness *)

Definition stackable (dep : Task) : bool :=
  has_branch (status dep) && nonempty (branch dep) && nonempty (pr dep).

(** The dependency [d] of [t] still blocks it. *)
Definition blocks (t : Task) (tasks : tasks_t) (stack : bool) (d : string) : bool :=
  match dget d tasks with
  | None => true
  | Some dep =>
      if bool_decide (status dep = DONE) then false
      else negb (stack && bool_decide (edge_rule t d tasks = "stack") && stackable dep)
  end.

Definition blockers (t : Task) (tasks : tasks_t) (stack : bool) : list string :=
  List.filter (blocks t tasks stack) (depends_on t).

Definition stack_parents (t : Task) (tasks : tasks_t) : list Task :=
  omap (fun d => match dget d tasks with
                 | Some dep => if negb (bool_decide (status dep = DONE))
                                  && bool_decide (edge_rule t d tasks = "stack") && stackable dep
                               then Some dep else None
                 | None => None
                 end) (depends_on t).

Definition is_blocked (t : Task) (tasks : tasks_t) (stack : bool) : bool :=
  nonempty_list (blockers t tasks stack).

Definition ready (tasks : tasks_t) (stack : bool) : list Task :=
  sort_by dispatch_leb
    (List.filter (fun t => bool_decide (status t = READY) && negb (is_blocked t tasks stack)) (dvals tasks)).

Definition effective_status (t : Task) (tasks : tasks_t) (stack : bool) : string :=
  if status_in (status t) [READY; DRAFT] && is_blocked t tasks stack then "blocked"
  else status_value (status t).

(** ** Display filters *)

Definition HIDDEN_STATUSES : list string := ["done"; "cancelled"].

Definition visible_ids (tasks : tasks_t) (stack hide_done : bool) : list string :=
  if negb hide_done then dkeys tasks
  else dkeys (List.filter (fun kv => negb (mem (effective_status kv.2 tasks stack) HIDDEN_STATUSES)) tasks).

Definition dependents (task_id : string) (tasks : tasks_t) : list string :=
  sorted_str (map id (List.filter (fun t => mem task_id (depends_on t)) (dvals tasks))).

Definition deps_in_later_phase (t : Task) (tasks : tasks_t) (phase_index : dict Z) : list string :=
  match dget (key t) phase_index with
  | None => []
  | Some ti =>
      List.filter (fun d => match dget d tasks with
                            | None => false
                            | Some dep =>
                                bool_decide (product dep = product t) &&
                                match dget (key dep) phase_index with Some di => ti <? di | None => false end
                            end) (depends_on t)
  end.

(** ** The critical path *)

Definition chain : Type := Z * list string.

(** One dependency of [tid] offers a longer chain. *)
Definition extend_chain (best : dict chain) (tid : string) (c : chain) (d : string) : chain :=
  match dget d best with
  | Some (n, l) => if c.1 <? n + 1 then (n + 1, l ++ [tid])%list else c
  | None => c
  end.

Definition best_chain (t : Task) (best : dict chain) (tid : string) : chain :=
  if terminal (status t) then (0, [])
  else foldl (extend_chain best tid) (1, [tid]) (depends_on t).

Definition best_step (tasks : tasks_t) (best : dict chain) (tid : string) : dict chain :=
  match dget tid tasks with
  | Some t => dset tid (best_chain t best tid) best
  | None => best
  end.

(** [max(best.values(), key=lambda c: c[0])]: the first of the longest. *)
Definition longest (c : chain) (l : list chain) : chain := foldl (fun m c => if m.1 <? c.1 then c else m) c l.

Definition critical_path (tasks : tasks_t) : result graph_error (list string) :=
  order ← topological_order tasks;
  let best := foldl (best_step tasks) [] order in
  match dvals best with
  | [] => Ok []
  | c :: cs => Ok (longest c cs).2
  end.

(** ** Layers *)

Definition layer_of (t : Task) (out : dict Z) : Z :=
  let deps := List.filter (fun d => dmem d out) (depends_on t) in
  let deps := if dmem (discovered_from t) out then (deps ++ [discovered_from t])%list else deps in
  1 + match map (fun d => default 0 (dget d out)) deps with
      | [] => -1
      | x :: l => foldl Z.max x l
      end.

Definition layer_step (tasks : tasks_t) (vis : list string) (out : dict Z) (tid : string) : dict Z :=
  if mem tid vis then
    match dget tid tasks with Some t => dset tid (layer_of t out) out | None => out end
  else out.

Definition layers (tasks : tasks_t) (visible : option (list string)) : result graph_error (dict Z) :=
  let vis := default (dkeys tasks) visible in
  order ← topological_order tasks;
  Ok (foldl (layer_step tasks vis) [] order).

(** ** Mermaid *)

Definition MERMAID_CLASS : dict string :=
  [("draft", "fill:#eee,stroke:#999,color:#333");
   ("blocked", "fill:#fff3cd,stroke:#c9a300,color:#333");
   ("ready", "fill:#d1ecf1,stroke:#0c5460,color:#333");
   ("running", "fill:#cce5ff,stroke:#004085,color:#333");
   ("in_review", "fill:#e2d9f3,stroke:#4b2e83,color:#333");
   ("merged_into_parent", "fill:#d9d2f3,stroke:#3f2e83,color:#333");
   ("changes_requested", "fill:#ffe5d0,stroke:#b35c00,color:#333");
   ("waiting_human", "fill:#fde2f3,stroke:#8a1c5c,color:#333");
   ("awaiting_triage", "fill:#e8dff8,stroke:#5b3fa8,color:#333");
   ("done", "fill:#d4edda,stroke:#155724,color:#333");
   ("failed", "fill:#f8d7da,stroke:#721c24,color:#333");
   ("wont_do", "fill:#efe7dd,stroke:#8a6d3b,color:#333");
   ("cancelled", "fill:#e9ecef,stroke:#6c757d,color:#999")].

Definition replace_char (a b : ascii) (s : string) : string := str_map (fun c => if decide (c = a) then b else c) s.
Definition mid (tid : string) : string := replace_char hyphen "_" tid.

Definition DQ : string := String dquote "".

Definition mermaid_label (text : string) : string :=
  let label := replace_char dquote squote text in
  if 40 <? Z.of_nat (String.length label) then take_str 37 label ++ "..." else label.

Definition mermaid_node (tasks : tasks_t) (tid : string) : result graph_error (list string) :=
  match dget tid tasks with
  | None => Err (MissingKey tid)
  | Some t =>
      Ok ["  " ++ mid tid ++ "[" ++ DQ ++ tid ++ "<br/>" ++ mermaid_label (title t) ++ DQ ++ "]";
          "  style " ++ mid tid ++ " "
            ++ default (default "" (dget "draft" MERMAID_CLASS))
                 (dget (effective_status t tasks false) MERMAID_CLASS)]
  end.

Definition mermaid_edges (tasks : tasks_t) (vis : list string) (t : Task) : list string :=
  if negb (mem (id t) vis) then []
  else
    let edge := fun d =>
      "  " ++ mid d ++ " -->" ++ (if bool_decide (edge_rule t d tasks = "merge") then "|after merge|" else "")
        ++ " " ++ mid (id t) in
    let tendril := "  " ++ mid (discovered_from t) ++ " -.->|discovered| " ++ mid (id t) in
    (map edge (List.filter (fun d => known tasks d && mem d vis) (depends_on t))
     ++ (if known tasks (discovered_from t) && mem (discovered_from t) vis then [tendril] else []))%list.

Definition mermaid (tasks : tasks_t) (direction : string) (visible : option (list string))
    : result graph_error string :=
  let vis := default (dkeys tasks) visible in
  nodes ← mapR (mermaid_node tasks) (sorted_set vis);
  Ok (join NL (("graph " ++ direction) :: (mjoin nodes ++ mjoin (map (mermaid_edges tasks vis) (dvals tasks)))%list)).

(** ** Lemmas: Kahn's algorithm on a list of edges *)

#[local] Open Scope list_scope.

(** How often [c] occurs in [l]. *)
Fixpoint cnt (c : string) (l : list string) : Z :=
  match l with [] => 0 | x :: l' => (if decide (x = c) then 1 else 0) + cnt c l' end.

Lemma cnt_nonneg c l : 0 <= cnt c l.
Proof. induction l; cbn; [lia|]. case_decide; lia. Qed.

Lemma cnt_pos c l : 0 < cnt c l <-> c ∈ l.
Proof.
  induction l as [|x l IH]; cbn [cnt]; [rewrite elem_of_nil; split; [lia|done]|].
  pose proof (cnt_nonneg c l). rewrite elem_of_cons. case_decide as Hx.
  - split; [by left|lia].
  - rewrite Z.add_0_l, IH. split; [by right|]. intros [->|?]; [done|done].
Qed.

Lemma cnt_0 c l : c ∉ l -> cnt c l = 0.
Proof. rewrite <- cnt_pos. pose proof (cnt_nonneg c l). lia. Qed.

Lemma cnt_Permutation c l1 l2 : l1 ≡ₚ l2 -> cnt c l1 = cnt c l2.
Proof. induction 1; cbn; lia. Qed.

Lemma cnt_app c l1 l2 : cnt c (l1 ++ l2) = cnt c l1 + cnt c l2.
Proof. induction l1; cbn; lia. Qed.

(** What relaxing a list of children does: every count drops by the number of occurrences, and
    exactly the children whose count reaches zero are queued, once each. *)
Lemma relax_all cs indeg q :
  (forall c, c ∈ cs -> exists n, dget c indeg = Some n /\ cnt c cs <= n) ->
  let '(indeg', q') := foldl relax (indeg, q) cs in
  (forall c, dget c indeg' = (fun n => n - cnt c cs) <$> dget c indeg) /\
  dkeys indeg' = dkeys indeg /\
  exists news, q' = (q ++ news)%list /\ NoDup news /\
    forall c, c ∈ news <-> c ∈ cs /\ dget c indeg = Some (cnt c cs).
Proof.
  revert indeg q. induction cs as [|x cs IH]; intros indeg q Hle.
  - cbn. split_and!; [intros c; destruct (dget c indeg) as [n|]; cbn; [|done]; f_equal; lia|done|].
    exists []. rewrite app_nil_r. split_and!; [done|constructor|]. intros c.
    rewrite elem_of_nil. split; [done|by intros [? _]].
  - destruct (Hle x (list_elem_of_here _ _)) as (n & Hn & Hxn). cbn in Hxn. rewrite decide_True in Hxn by done.
    assert (relax (indeg, q) x = (dset x (n - 1) indeg, if n - 1 =? 0 then (q ++ [x])%list else q)) as Hrel
      by (unfold relax; cbn; by rewrite Hn).
    cbn [foldl]. rewrite Hrel. clear Hrel.
    set (indeg1 := dset x (n - 1) indeg). set (q1 := if n - 1 =? 0 then (q ++ [x])%list else q).
    assert (H1 : forall c, dget c indeg1 = (fun m => m - if decide (x = c) then 1 else 0) <$> dget c indeg).
    { intros c. unfold indeg1. destruct (decide (x = c)) as [<-|Hc].
      - by rewrite dget_dset_eq, Hn.
      - rewrite dget_dset_ne by done. destruct (dget c indeg); cbn; [|done]. f_equal. lia. }
    specialize (IH indeg1 q1). destruct (foldl relax (indeg1, q1) cs) as [indeg' q'].
    destruct IH as (Hi & Hk & news & -> & Hnd & Hnews).
    { intros c Hc. destruct (Hle c (list_elem_of_further _ _ _ Hc)) as (m & Hm & Hcm).
      rewrite H1, Hm. cbn in *. eexists. split; [done|]. lia. }
    split_and!.
    + intros c. rewrite Hi, H1. destruct (dget c indeg); cbn; [|done]. f_equal. lia.
    + rewrite Hk. apply dkeys_dset_present, dget_is_Some. eauto.
    + exists (if n - 1 =? 0 then x :: news else news).
      assert (Hx0 : n - 1 = 0 -> x ∉ cs) by (rewrite <- cnt_pos; lia).
      split_and!.
      * unfold q1. destruct (n - 1 =? 0); [by rewrite <- app_assoc|done].
      * destruct (Z.eqb_spec (n - 1) 0); [|done]. constructor; [|done].
        rewrite Hnews. intros [? _]. by apply Hx0.
      * intros c. specialize (Hnews c). rewrite H1 in Hnews. cbn. rewrite elem_of_cons.
        assert (Hc : c ∈ (if n - 1 =? 0 then x :: news else news) <->
                     (c = x /\ n - 1 = 0) \/ c ∈ news).
        { destruct (Z.eqb_spec (n - 1) 0); [rewrite elem_of_cons|]; naive_solver. }
        rewrite Hc, Hnews. destruct (decide (x = c)) as [<-|Hxc].
        -- rewrite Hn. cbn. pose proof (cnt_pos x cs). pose proof (cnt_nonneg x cs). split.
           ++ intros [[_ ?]|[? [= ?]]]; (split; [by left|]; f_equal).
              ** rewrite cnt_0 by auto. lia.
              ** lia.
           ++ intros [_ [= ?]]. destruct (decide (n - 1 = 0)); [by left|right].
              split; [apply cnt_pos; lia|f_equal; lia].
        -- destruct (dget c indeg) as [m|]; cbn; [|naive_solver]. rewrite Z.sub_0_r. naive_solver.
Qed.

Section kahn.
Context (N : list string) (E : list (string * string)).
Hypothesis HN : NoDup N.
Hypothesis HE : forall d c, (d, c) ∈ E -> d ∈ N /\ c ∈ N.

(** The children of [d] and the parents of [c], with multiplicity. *)
Definition kids (d : string) : list string := map snd (List.filter (fun e => bool_decide (e.1 = d)) E).
Definition remaining (popped : list string) (c : string) : Z :=
  cnt c (map snd (List.filter (fun e => negb (mem e.1 popped)) E)).

Lemma elem_of_kids d c : c ∈ kids d <-> (d, c) ∈ E.
Proof.
  unfold kids. rewrite list_elem_of_In, in_map_iff. setoid_rewrite filter_In.
  setoid_rewrite <- list_elem_of_In. split.
  - intros ([d' c'] & Hc & ? & Hd%bool_decide_eq_true). cbn in Hc, Hd. by subst.
  - intros H. exists (d, c). split_and!; [done|done|by apply bool_decide_eq_true].
Qed.

Lemma remaining_pos popped c : 0 < remaining popped c <-> exists d, (d, c) ∈ E /\ d ∉ popped.
Proof.
  unfold remaining. rewrite cnt_pos, list_elem_of_In, in_map_iff. setoid_rewrite filter_In.
  setoid_rewrite <- list_elem_of_In. setoid_rewrite negb_true_iff. setoid_rewrite mem_false. split.
  - intros ([d c'] & <- & ? & ?). eauto.
  - intros (d & ? & ?). by exists (d, c).
Qed.

Lemma remaining_nonneg popped c : 0 <= remaining popped c.
Proof. apply cnt_nonneg. Qed.

(** Popping [d] removes its edges. *)
Lemma remaining_pop popped d c :
  d ∉ popped -> remaining (popped ++ [d]) c = remaining popped c - cnt c (kids d).
Proof.
  intros Hd. unfold remaining, kids. clear HE. induction E as [|[d' c'] E' IH]; [done|].
  cbn [List.filter]. cbn [fst].
  destruct (decide (d' = d)) as [->|Hne].
  - rewrite (proj2 (mem_spec d (popped ++ [d]))) by set_solver.
    rewrite (proj2 (mem_false d popped)) by done. rewrite bool_decide_eq_true_2 by done.
    cbn [map negb snd cnt]. rewrite IH. lia.
  - rewrite bool_decide_eq_false_2 by done.
    assert (mem d' (popped ++ [d]) = mem d' popped) as ->.
    { destruct (mem d' popped) eqn:Hm; [apply mem_spec in Hm; apply mem_spec; set_solver|].
      apply mem_false in Hm. apply mem_false. set_solver. }
    destruct (mem d' popped); cbn [map negb snd cnt]; rewrite ?IH; lia.
Qed.

(** The invariant of the [while] loop. *)
Record kahn_inv (indeg : dict Z) (q order : list string) : Prop := {
  ki_nodup : NoDup (order ++ q);
  ki_keys : dkeys indeg = N;
  ki_indeg : forall c, c ∈ N -> dget c indeg = Some (remaining order c);
  ki_zero : forall c, c ∈ N -> c ∈ order ++ q <-> remaining order c = 0;
  ki_nodes : forall c, c ∈ order ++ q -> c ∈ N;
  ki_sorted : forall l1 c l2, order = (l1 ++ c :: l2)%list -> forall d, (d, c) ∈ E -> d ∈ l1;
}.

Lemma kahn_inv_pop indeg tid q order :
  kahn_inv indeg (tid :: q) order ->
  let '(indeg', q') := foldl relax (indeg, q) (sorted_str (kids tid)) in
  kahn_inv indeg' q' (order ++ [tid]).
Proof using HE HN.
  intros [Hnd Hk Hi Hz Hn Hs].
  assert (Htid : tid ∉ order) by (apply NoDup_app in Hnd as (_ & H & _); intros Ho; eapply H; [done|left]).
  assert (Hperm : forall c, cnt c (sorted_str (kids tid)) = cnt c (kids tid)).
  { intros c. apply cnt_Permutation, sorted_str_Permutation. }
  assert (Hpop : forall c, remaining (order ++ [tid]) c = remaining order c - cnt c (kids tid)).
  { intros c. by apply remaining_pop. }
  pose proof (relax_all (sorted_str (kids tid)) indeg q) as Hr.
  destruct (foldl relax (indeg, q) (sorted_str (kids tid))) as [indeg' q'].
  destruct Hr as (Hi' & Hk' & news & -> & Hnnd & Hnews).
  { intros c Hc%elem_of_sorted_str%elem_of_kids. exists (remaining order c). split; [by apply Hi, (HE tid)|].
    rewrite Hperm. specialize (Hpop c). pose proof (remaining_nonneg (order ++ [tid]) c). lia. }
  assert (Hnews' : forall c, c ∈ news <-> (tid, c) ∈ E /\ remaining order c = cnt c (kids tid)).
  { intros c. rewrite Hnews, elem_of_sorted_str, elem_of_kids, Hperm. split; intros [H1 H2]; (split; [done|]).
    - rewrite (Hi c) in H2 by (by apply (HE tid)). congruence.
    - rewrite (Hi c) by (by apply (HE tid)). congruence. }
  assert (Hfresh : forall c, c ∈ news -> c ∉ order ++ tid :: q).
  { intros c Hc Hin. apply Hnews' in Hc as [He Hc]. apply Hz in Hin; [|by apply (HE tid)].
    apply elem_of_kids, cnt_pos in He. lia. }
  split.
  - rewrite <- app_assoc. cbn. rewrite app_comm_cons, app_assoc. apply NoDup_app. split_and!; [done| |done].
    intros c Hc Hc'. by apply (Hfresh c).
  - by rewrite Hk'.
  - intros c Hc. rewrite Hi', Hi by done. cbn. by rewrite Hpop, Hperm.
  - intros c Hc. specialize (Hz c Hc). specialize (Hnews' c). rewrite Hpop.
    pose proof (cnt_nonneg c (kids tid)). pose proof (remaining_nonneg (order ++ [tid]) c) as Hnn.
    rewrite Hpop in Hnn. rewrite <- elem_of_kids, <- (cnt_pos c (kids tid)) in Hnews'.
    assert (c ∈ (order ++ [tid]) ++ q ++ news <-> c ∈ order ++ tid :: q \/ c ∈ news) as -> by set_solver.
    rewrite Hz, Hnews'. lia.
  - intros c Hc. assert (c ∈ order ++ tid :: q \/ c ∈ news) as [?|Hcn] by set_solver; [by apply Hn|].
    apply Hnews' in Hcn as [? _]. by apply (HE tid).
  - intros l1 c l2 Heq d Hd.
    assert (Hcases : (l2 = [] /\ c = tid /\ l1 = order) \/ exists l2', order = l1 ++ c :: l2').
    { destruct l2 as [|x l2 _] using rev_ind.
      - left. apply app_inj_tail in Heq as [<- <-]. done.
      - right. exists l2. rewrite app_comm_cons, app_assoc in Heq. by apply app_inj_tail in Heq as [-> _]. }
    destruct Hcases as [(-> & -> & ->)|(l2' & Ho)]; [|by eapply Hs].
    destruct (decide (d ∈ order)) as [|Hdo]; [done|exfalso].
    assert (0 < remaining order tid) by (apply remaining_pos; eauto).
    enough (remaining order tid = 0) by lia. apply Hz; [by apply (HE d)|set_solver].
Qed.

(** The final state: the loop stops with every ready task popped. *)
Lemma kahn_inv_final children fuel indeg q order indeg' order' :
  (forall d, d ∈ N -> default [] (dget d children) = kids d) ->
  kahn_inv indeg q order ->
  kahn fuel children indeg q order = Some (indeg', order') -> kahn_inv indeg' [] order'.
Proof using HE HN.
  intros Hch. revert indeg q order. induction fuel as [|fuel IH]; intros indeg [|tid q] order Hinv H;
    cbn [kahn] in H; try done; try (injection H as <- <-; done).
  rewrite Hch in H by (apply (ki_nodes _ _ _ Hinv); set_solver).
  pose proof (kahn_inv_pop indeg tid q order Hinv) as Hpop.
  destruct (foldl relax (indeg, q) (sorted_str (kids tid))) as [i' q']. by eapply IH.
Qed.

(** Every pop takes a new task: the number of tasks is enough fuel. *)
Lemma kahn_terminates children fuel indeg q order :
  (forall d, d ∈ N -> default [] (dget d children) = kids d) ->
  kahn_inv indeg q order -> (List.length N <= fuel + List.length order)%nat ->
  exists r, kahn fuel children indeg q order = Some r.
Proof using HE HN.
  intros Hch. revert indeg q order. induction fuel as [|fuel IH]; intros indeg [|tid q] order Hinv Hlen;
    cbn [kahn]; try (by eexists).
  - exfalso. pose proof (ki_nodup _ _ _ Hinv) as Hnd.
    assert (Hsub : (List.length (order ++ tid :: q) <= List.length N)%nat).
    { apply submseteq_length, NoDup_submseteq; [done|]. intros c. apply (ki_nodes _ _ _ Hinv). }
    rewrite length_app in Hsub. cbn in Hsub. lia.
  - rewrite Hch by (apply (ki_nodes _ _ _ Hinv); set_solver).
    pose proof (kahn_inv_pop indeg tid q order Hinv) as Hpop.
    destruct (foldl relax (indeg, q) (sorted_str (kids tid))) as [i' q'].
    apply IH; [done|]. rewrite length_app. cbn. lia.
Qed.
End kahn.

(** ** Lemmas: cycles *)

Section cycles.
Context (R : string -> string -> Prop).

(** A path along [R]. *)
Fixpoint path_of (l : list string) : Prop :=
  match l with
  | x :: (y :: _) as l' => R x y /\ path_of l'
  | _ => True
  end.

Lemma path_of_tail x l : path_of (x :: l) -> path_of l.
Proof. by destruct l as [|y l]; [|intros [_ ?]]. Qed.

Lemma path_of_tc x l y : path_of (x :: l ++ [y]) -> tc R x y.
Proof.
  revert x. induction l as [|z l IH]; intros x; cbn [app].
  - intros [? _]. by apply tc_once.
  - intros [Hxz H]. eapply tc_l; [done|]. by apply IH.
Qed.

Lemma path_of_app_r l1 l2 : path_of (l1 ++ l2) -> path_of l2.
Proof. induction l1 as [|x l1 IH]; [done|]. cbn [app]. intros H%path_of_tail. auto. Qed.

Lemma path_of_app_l l1 l2 : path_of (l1 ++ l2) -> path_of l1.
Proof.
  induction l1 as [|x l1 IH]; [done|]. destruct l1 as [|y l1]; [done|].
  cbn [app] in *. intros [? ?%IH]. by split.
Qed.

(** A finite, non-empty set in which everyone has a predecessor contains a cycle. *)
Lemma predecessors_cycle (S : list string) x0 :
  x0 ∈ S -> (forall x, x ∈ S -> exists y, y ∈ S /\ R y x) -> exists x, x ∈ S /\ tc R x x.
Proof.
  intros Hx0 Hpred.
  assert (Hpath : forall n, exists x l, List.length l = n /\ Forall (fun y => y ∈ S) (x :: l) /\ path_of (x :: l)).
  { induction n as [|n (x & l & Hl & Hin & Hp)]; [exists x0, []; by repeat constructor|].
    destruct (Hpred x) as (y & Hy & Hyx); [by inversion Hin|].
    exists y, (x :: l). split_and!; [cbn; by f_equal|by constructor|by split]. }
  destruct (Hpath (List.length S)) as (x & l & Hl & Hin & Hp).
  assert (Hdup : ~ NoDup (x :: l)).
  { intros Hnd. assert (Hsub : (List.length (x :: l) <= List.length S)%nat).
    { apply submseteq_length, NoDup_submseteq; [done|]. intros y Hy. rewrite Forall_forall in Hin. auto. }
    cbn in Hsub. lia. }
  rewrite NoDup_ListNoDup in Hdup.
  assert (Hdec : ListDec.decidable_eq string) by (intros a b; destruct (decide (a = b)); [by left|by right]).
  apply (ListDec.not_NoDup Hdec) in Hdup as (y & l1 & l2 & l3 & Heq).
  exists y. split.
  - rewrite Forall_forall in Hin. apply Hin. rewrite Heq. set_solver.
  - rewrite Heq in Hp. apply path_of_app_r in Hp.
    apply (path_of_tc y l2 y), (path_of_app_l _ l3). by rewrite <- app_comm_cons, <- app_assoc.
Qed.

(** A list in which every predecessor of an element comes before it has no cycle. *)
Lemma sorted_tc_before (order : list string) :
  (forall l1 c l2, order = l1 ++ c :: l2 -> forall d, R d c -> d ∈ l1) ->
  forall l1 c l2, order = l1 ++ c :: l2 -> forall d, tc R d c -> d ∈ l1.
Proof.
  intros Hs l1 c l2 Ho d Htc. revert l1 l2 Ho.
  induction Htc as [d c Hdc|d e c Hde Htc IH]; intros l1 l2 Ho; [by eapply Hs|].
  destruct (list_elem_of_split l1 e (IH _ _ Ho)) as (a & b & ->).
  enough (d ∈ a) by set_solver. eapply (Hs a e (b ++ c :: l2)); [|done].
  by rewrite Ho, <- app_assoc.
Qed.
End cycles.

(** ** Lemmas: the graph of a dictionary of tasks *)

(** [Store.tasks] files every task under its own id. *)
Definition tasks_wf (tasks : tasks_t) : Prop :=
  NoDup (dkeys tasks) /\ forall k t, (k, t) ∈ tasks -> k = id t.

(** Task [c] depends on the known task [d]. *)
Definition dep_edge (tasks : tasks_t) (d c : string) : Prop :=
  exists t, dget c tasks = Some t /\ d ∈ depends_on t /\ d ∈ dkeys tasks.

(** The edges in the order the loops meet them. *)
Definition task_edges (tasks : tasks_t) (t : Task) : list (string * string) :=
  map (fun d => (d, id t)) (List.filter (known tasks) (depends_on t)).
Definition edges_of (tasks : tasks_t) : list (string * string) := mjoin (map (task_edges tasks) (dvals tasks)).

Lemma elem_of_dvals t (tasks : tasks_t) : t ∈ dvals tasks <-> exists k, (k, t) ∈ tasks.
Proof.
  unfold dvals. rewrite list_elem_of_fmap. split.
  - intros ([k t'] & -> & ?). eauto.
  - intros [k ?]. by exists (k, t).
Qed.

Lemma dget_id (tasks : tasks_t) t : tasks_wf tasks -> t ∈ dvals tasks -> dget (id t) tasks = Some t.
Proof. intros [Hnd Hid] [k Hk]%elem_of_dvals. rewrite <- (Hid k t Hk). by apply elem_dget_Some. Qed.

Lemma dget_dvals (tasks : tasks_t) k t : dget k tasks = Some t -> t ∈ dvals tasks.
Proof. intros H%dget_Some_elem. apply elem_of_dvals. eauto. Qed.

Lemma id_of_dget (tasks : tasks_t) k t : tasks_wf tasks -> dget k tasks = Some t -> id t = k.
Proof. intros [_ Hid] H%dget_Some_elem. symmetry. by apply Hid. Qed.

Lemma elem_of_edges_of (tasks : tasks_t) d c : tasks_wf tasks -> (d, c) ∈ edges_of tasks <-> dep_edge tasks d c.
Proof.
  intros Hwf. unfold edges_of, dep_edge. rewrite list_elem_of_join. split.
  - intros (es & Hes & Hin). apply list_elem_of_In, in_map_iff in Hin as (t & <- & Ht%list_elem_of_In).
    unfold task_edges in Hes.
    apply list_elem_of_In, in_map_iff in Hes as (d' & [= -> <-] & [Hd Hk]%filter_In).
    exists t. split_and!; [by apply dget_id|by apply list_elem_of_In|by apply dmem_spec].
  - intros (t & Ht & Hd & Hk). exists (task_edges tasks t). rewrite <- (id_of_dget tasks c t Hwf Ht). split.
    + unfold task_edges. apply list_elem_of_In, in_map_iff. exists d. split; [done|].
      apply filter_In. split; [by apply list_elem_of_In|by apply dmem_spec].
    + apply list_elem_of_In, in_map, list_elem_of_In. by eapply dget_dvals.
Qed.

(** Counting a list of edges; the nested loops run over [edges_of]. *)
Definition add_edges (E : list (string * string)) (st : dict Z * dict (list string)) :=
  foldR (fun (st : dict Z * dict (list string)) e => add_edge st e.1 e.2) E st.

Lemma count_edges_flat (tasks : tasks_t) :
  count_edges tasks = add_edges (edges_of tasks) (no_counts tasks).
Proof.
  unfold count_edges, edges_of, add_edges. cbv zeta.
  generalize (no_counts tasks).
  induction (dvals tasks) as [|t ts IH]; intros st; [done|].
  change (mjoin (map (task_edges tasks) (t :: ts))) with (task_edges tasks t ++ mjoin (map (task_edges tasks) ts)).
  rewrite foldR_app. cbn [foldR].
  assert (Hin : forall ds s, foldR (fun st d => if known tasks d then add_edge st d (id t) else Ok st) ds s =
            foldR (fun st e => add_edge st e.1 e.2) (map (fun d => (d, id t)) (List.filter (known tasks) ds)) s).
  { induction ds as [|d ds IHd]; intros s; cbn [foldR List.filter]; [done|].
    destruct (known tasks d); cbn [map foldR fst snd]; [|apply IHd].
    destruct (add_edge s d (id t)); cbn; [apply IHd|done]. }
  rewrite Hin. fold (task_edges tasks t).
  destruct (foldR (fun st e => add_edge st e.1 e.2) (task_edges tasks t) st); cbn; [apply IH|done].
Qed.

(** What the counting loop leaves in the two dictionaries. *)
Lemma add_edges_spec E indeg children :
  (forall d c, (d, c) ∈ E -> c ∈ dkeys indeg) ->
  exists indeg' children', add_edges E (indeg, children) = Ok (indeg', children') /\
    dkeys indeg' = dkeys indeg /\
    (forall c, dget c indeg' = (fun n => n + cnt c (map snd E)) <$> dget c indeg) /\
    (forall d, default [] (dget d children') = default [] (dget d children) ++ kids E d).
Proof.
  revert indeg children. induction E as [|[d c] E IH]; intros indeg children Hin.
  - exists indeg, children. split_and!; [done|done| |].
    + intros c. destruct (dget c indeg); cbn; [|done]; f_equal; lia.
    + intros d. unfold kids. cbn. by rewrite app_nil_r.
  - destruct (proj2 (dget_is_Some c indeg) (Hin d c (list_elem_of_here _ _))) as [n Hn].
    assert (add_edge (indeg, children) d c =
            Ok (dset c (n + 1) indeg, dset d (default [] (dget d children) ++ [c]) children)) as Hadd
      by (unfold add_edge; cbn; by rewrite Hn).
    unfold add_edges in *. cbn [foldR fst snd]. rewrite Hadd. cbn [mbind result_bind]. clear Hadd.
    assert (Hkeys : dkeys (dset c (n + 1) indeg) = dkeys indeg) by (apply dkeys_dset_present, dget_is_Some; eauto).
    destruct (IH (dset c (n + 1) indeg) (dset d (default [] (dget d children) ++ [c]) children))
      as (i' & c' & -> & Hk & Hi & Hc); [intros d' c0 H'; rewrite Hkeys; eapply Hin; by right|].
    exists i', c'. split_and!; [done|by rewrite Hk| |].
    + intros x. rewrite Hi. cbn [map snd cnt]. destruct (decide (c = x)) as [<-|Hx].
      * rewrite dget_dset_eq, Hn. cbn. f_equal. lia.
      * rewrite dget_dset_ne by done. destruct (dget x indeg); cbn; [|done]; f_equal; lia.
    + intros x. rewrite Hc. unfold kids. cbn [List.filter fst]. destruct (decide (d = x)) as [<-|Hx].
      * rewrite dget_dset_eq, bool_decide_eq_true_2 by done. cbn. by rewrite <- app_assoc.
      * by rewrite dget_dset_ne, bool_decide_eq_false_2 by done.
Qed.

Lemma dkeys_const {A} (a : A) (l : list string) : dkeys (map (fun k => (k, a)) l) = l.
Proof. unfold dkeys. induction l as [|k l IH]; cbn; [done|]. by f_equal. Qed.

Lemma dget_const {A} (a : A) l k : k ∈ l -> dget k (map (fun k => (k, a)) l) = Some a.
Proof.
  induction l as [|x l IH]; [by intros ?%elem_of_nil|].
  intros [->|Hk]%elem_of_cons; cbn [map dget]; [by rewrite decide_True|]. case_decide; auto.
Qed.

Lemma default_dget_const (l : list string) k : default [] (dget k (map (fun k => (k, @nil string)) l)) = [].
Proof. induction l as [|x l IH]; cbn [map dget]; [done|]. by case_decide. Qed.

(** The keys whose value satisfies [p]. *)
Lemma elem_of_dkeys_filter {A} (p : A -> bool) (d : dict A) k :
  NoDup (dkeys d) ->
  k ∈ dkeys (List.filter (fun kv => p kv.2) d) <-> exists v, dget k d = Some v /\ p v = true.
Proof.
  intros Hnd. unfold dkeys at 1. rewrite list_elem_of_fmap. setoid_rewrite list_elem_of_In.
  setoid_rewrite filter_In. setoid_rewrite <- list_elem_of_In. split.
  - intros ([k' v] & -> & Hin & Hp). exists v. split; [by apply elem_dget_Some|done].
  - intros (v & Hv%dget_Some_elem & Hp). by exists (k, v).
Qed.

Lemma NoDup_dkeys_filter {A} (p : string * A -> bool) (d : dict A) :
  NoDup (dkeys d) -> NoDup (dkeys (List.filter p d)).
Proof.
  unfold dkeys. induction d as [|kv d IH]; cbn; [done|]. rewrite NoDup_cons. intros [Hk Hnd].
  destruct (p kv); cbn; [|auto]. constructor; [|auto]. rewrite list_elem_of_fmap in Hk |- *.
  intros (kv' & Heq & Hin). apply Hk. exists kv'. split; [done|].
  apply list_elem_of_In, filter_In in Hin as [? _]. by apply list_elem_of_In.
Qed.

Lemma remaining_nil E c : remaining E [] c = cnt c (map snd E).
Proof.
  unfold remaining. f_equal. f_equal. induction E as [|e E IH]; [done|]. cbn [List.filter].
  rewrite (proj2 (mem_false e.1 [])) by apply not_elem_of_nil. cbn. by rewrite IH.
Qed.

Lemma edges_known tasks d c : tasks_wf tasks -> (d, c) ∈ edges_of tasks -> d ∈ dkeys tasks /\ c ∈ dkeys tasks.
Proof.
  intros Hwf H%elem_of_edges_of; [|done]. destruct H as (t & Ht & _ & Hd).
  split; [done|]. apply dget_is_Some. eauto.
Qed.

(** The whole function: it counts, runs the loop to its end and compares the lengths. *)
Lemma topological_order_run tasks :
  tasks_wf tasks ->
  exists indeg order,
    kahn_inv (dkeys tasks) (edges_of tasks) indeg [] order /\
    topological_order tasks =
      if Nat.eqb (List.length order) (List.length tasks) then Ok order
      else Err (CycleAmong (sorted_str (dkeys (List.filter (fun kv => 0 <? kv.2) indeg)))).
Proof.
  intros Hwf. destruct Hwf as [Hnd Hid] eqn:Heq. clear Heq.
  assert (HE : forall d c, (d, c) ∈ edges_of tasks -> d ∈ dkeys tasks /\ c ∈ dkeys tasks)
    by (intros d c; by apply edges_known).
  destruct (add_edges_spec (edges_of tasks) (no_counts tasks).1 (no_counts tasks).2)
    as (indeg & children & Hrun & Hk & Hi & Hc).
  { intros d c He. unfold no_counts. cbn [fst]. rewrite dkeys_const. by apply (HE d c). }
  unfold no_counts in Hk, Hi, Hc. cbn [fst snd] in Hk, Hi, Hc. rewrite dkeys_const in Hk.
  unfold topological_order. rewrite count_edges_flat.
  change (no_counts tasks) with ((no_counts tasks).1, (no_counts tasks).2). rewrite Hrun.
  cbn [mbind result_bind fst snd].
  set (q := sorted_str (dkeys (List.filter (fun kv => kv.2 =? 0) indeg))).
  assert (Hch : forall d, d ∈ dkeys tasks -> default [] (dget d children) = kids (edges_of tasks) d).
  { intros d _. by rewrite Hc, default_dget_const. }
  assert (Hrem : forall c, c ∈ dkeys tasks -> dget c indeg = Some (remaining (edges_of tasks) [] c)).
  { intros c Hcin. by rewrite Hi, dget_const, remaining_nil. }
  assert (Hq : forall c, c ∈ q <-> c ∈ dkeys tasks /\ remaining (edges_of tasks) [] c = 0).
  { intros c. unfold q. rewrite elem_of_sorted_str, (elem_of_dkeys_filter (fun n => n =? 0)) by by rewrite Hk.
    split.
    - intros (n & Hn & ->%Z.eqb_eq). assert (Hcin : c ∈ dkeys tasks) by (rewrite <- Hk; apply dget_is_Some; eauto).
      split; [done|]. rewrite Hrem in Hn by done. congruence.
    - intros [Hcin Hz]. exists 0. rewrite Hrem by done. by rewrite Hz. }
  assert (Hinv : kahn_inv (dkeys tasks) (edges_of tasks) indeg q []).
  { split.
    - cbn. unfold q. rewrite sorted_str_Permutation. apply NoDup_dkeys_filter. by rewrite Hk.
    - done.
    - done.
    - intros c Hcin. cbn. rewrite Hq. tauto.
    - intros c. cbn. rewrite Hq. tauto.
    - intros [|? ?] c l2 H; done. }
  destruct (kahn_terminates (dkeys tasks) (edges_of tasks) Hnd HE children (List.length tasks) indeg q [] Hch Hinv)
    as [[indeg' order] Hrun'].
  { unfold dkeys. rewrite length_fmap. lia. }
  exists indeg', order. rewrite Hrun'. split; [|done]. by eapply kahn_inv_final.
Qed.

(** Being [order], an arrangement of all the tasks with dependencies first. *)
Definition is_topological (tasks : tasks_t) (order : list string) : Prop :=
  order ≡ₚ dkeys tasks /\
  forall l1 c l2, order = l1 ++ c :: l2 -> forall d, dep_edge tasks d c -> d ∈ l1.

Definition cyclic (tasks : tasks_t) : Prop := exists c, tc (dep_edge tasks) c c.

Lemma dep_edge_keys tasks d c : dep_edge tasks d c -> d ∈ dkeys tasks /\ c ∈ dkeys tasks.
Proof. intros (t & Ht & _ & Hd). split; [done|]. apply dget_is_Some. eauto. Qed.

Lemma is_topological_acyclic tasks order :
  tasks_wf tasks -> is_topological tasks order -> ~ cyclic tasks.
Proof.
  intros [Hnd _] [Hp Hs] [c Hc]. assert (Hin : c ∈ order).
  { rewrite Hp. assert (exists e, dep_edge tasks c e) as [e He] by (inversion Hc; eauto).
    by apply dep_edge_keys in He as [? _]. }
  apply list_elem_of_split in Hin as (l1 & l2 & Ho).
  pose proof (sorted_tc_before _ order Hs l1 c l2 Ho c Hc) as Hin.
  rewrite <- Hp, Ho in Hnd. apply NoDup_app in Hnd as (_ & Hdis & _). apply (Hdis c Hin). left.
Qed.

(** What the two outcomes of the function mean. *)
Lemma topological_order_correct tasks :
  tasks_wf tasks ->
  match topological_order tasks with
  | Ok order => is_topological tasks order
  | Err (CycleAmong stuck) =>
      stuck <> [] /\ (forall c, c ∈ stuck -> c ∈ dkeys tasks /\ exists d, d ∈ stuck /\ dep_edge tasks d c)
  | Err _ => False
  end.
Proof.
  intros Hwf. destruct (topological_order_run tasks Hwf) as (indeg & order & Hinv & ->).
  pose proof (proj1 Hwf) as Hnd. destruct Hinv as [Hond Hk Hi Hz Hn Hs]. rewrite app_nil_r in *.
  assert (Hsub : order ⊆+ dkeys tasks) by (by apply NoDup_submseteq).
  destruct (Nat.eqb_spec (List.length order) (List.length tasks)) as [Hlen|Hlen].
  - split.
    + apply submseteq_length_Permutation; [done|]. unfold dkeys. rewrite length_fmap. lia.
    + intros l1 c l2 Ho d He%elem_of_edges_of; [|done]. by eapply Hs.
  - set (stuck := sorted_str _).
    assert (Hstuck : forall c, c ∈ stuck <-> c ∈ dkeys tasks /\ c ∉ order).
    { intros c. unfold stuck.
      rewrite elem_of_sorted_str, (elem_of_dkeys_filter (fun n => 0 <? n)) by by rewrite Hk.
      pose proof (remaining_nonneg (edges_of tasks) order c). split.
      - intros (n & Hn' & Hpos). assert (Hc : c ∈ dkeys tasks) by (rewrite <- Hk; apply dget_is_Some; eauto).
        split; [done|]. rewrite (Hi c Hc) in Hn'. injection Hn' as <-. rewrite (Hz c Hc). lia.
      - intros [Hc Hno]. rewrite (Hz c Hc) in Hno. exists (remaining (edges_of tasks) order c).
        split; [by apply Hi|lia]. }
    split.
    + intros Hnil. apply Hlen. rewrite <- (length_fmap fst tasks). change (tasks.*1) with (dkeys tasks).
      apply Permutation_length, NoDup_Permutation; [done|done|]. intros c. split; [by apply Hn|].
      intros Hc. destruct (decide (c ∈ order)) as [|Hno]; [done|]. specialize (Hstuck c).
      rewrite Hnil in Hstuck. exfalso. by eapply not_elem_of_nil, Hstuck.
    + intros c [Hc Hno]%Hstuck. split; [done|].
      assert (Hpos : 0 < remaining (edges_of tasks) order c).
      { pose proof (remaining_nonneg (edges_of tasks) order c). rewrite (Hz c Hc) in Hno. lia. }
      apply remaining_pos in Hpos as (d & He & Hd). exists d. apply elem_of_edges_of in He; [|done].
      split; [apply Hstuck; split; [by apply dep_edge_keys in He as [? _]|done]|done].
Qed.

Lemma topological_order_cyclic tasks :
  tasks_wf tasks -> (exists stuck, topological_order tasks = Err (CycleAmong stuck)) <-> cyclic tasks.
Proof.
  intros Hwf. pose proof (topological_order_correct tasks Hwf) as Hc. split.
  - intros [stuck Hs]. rewrite Hs in Hc. destruct Hc as [Hne Hpred].
    destruct stuck as [|x l] eqn:Hst; [done|]. rewrite <- Hst in Hpred.
    destruct (predecessors_cycle (dep_edge tasks) stuck x) as (c & _ & ?); [rewrite Hst; left| |by exists c].
    intros c Hcin. apply Hpred in Hcin as [_ ?]. done.
  - intros Hcyc. destruct (topological_order tasks) as [order|[stuck| |]]; try done; [|eauto].
    by apply is_topological_acyclic in Hc.
Qed.

Lemma topological_order_total tasks :
  tasks_wf tasks -> ~ cyclic tasks -> exists order, topological_order tasks = Ok order /\ is_topological tasks order.
Proof.
  intros Hwf Hac. pose proof (topological_order_correct tasks Hwf) as Hc.
  pose proof (topological_order_cyclic tasks Hwf) as Hcy.
  destruct (topological_order tasks) as [order|[stuck| |]]; try done; [eauto|].
  exfalso. apply Hac, Hcy. eauto.
Qed.

(** ** Lemmas: the critical path *)

(** A chain of unfinished tasks, each depending on the one before it. *)
Definition live_chain (tasks : tasks_t) (l : list string) : Prop :=
  path_of (dep_edge tasks) l /\
  forall x, x ∈ l -> exists t, dget x tasks = Some t /\ terminal (status t) = false.

(** [c] is a longest live chain that ends in [x]. *)
Definition longest_to (tasks : tasks_t) (x : string) (c : chain) : Prop :=
  c.1 = Z.of_nat (List.length c.2) /\ live_chain tasks c.2 /\
  (c.2 = [] \/ exists l, c.2 = l ++ [x]) /\
  forall l, live_chain tasks (l ++ [x]) -> Z.of_nat (List.length (l ++ [x])) <= c.1.

Lemma path_of_snoc R l d x : path_of R (l ++ [d]) -> R d x -> path_of R (l ++ [d; x]).
Proof.
  induction l as [|y l IH]; [by cbn|]. destruct l as [|z l]; cbn in *; [tauto|].
  intros [? ?] ?. split; [done|]. by apply IH.
Qed.

Lemma path_of_last R l d x : path_of R (l ++ [d; x]) -> R d x.
Proof. intros H%path_of_app_r. by destruct H. Qed.

Section critical.
Context (tasks : tasks_t) (Hwf : tasks_wf tasks).

(** The chain an unfinished task gets from its dependencies' chains. *)
Lemma best_chain_spec t best tid (seen : list string) :
  dget tid tasks = Some t ->
  (forall d, d ∈ seen <-> d ∈ dkeys best) ->
  (forall d c, dget d best = Some c -> longest_to tasks d c) ->
  (forall d, dep_edge tasks d tid -> d ∈ seen) ->
  longest_to tasks tid (best_chain t best tid).
Proof using Hwf.
  intros Ht Hseen Hbest Hdeps. unfold best_chain. destruct (terminal (status t)) eqn:Hterm.
  { unfold longest_to. cbn. split_and!; [done|split; [done|by intros x ?%elem_of_nil]|by left|].
    intros l [_ H]. destruct (H tid) as (t' & Ht' & ?); [set_solver|]. congruence. }
  set (P := fun c : chain => c.1 = Z.of_nat (List.length c.2) /\ live_chain tasks c.2 /\
              1 <= c.1 /\ exists l, c.2 = l ++ [tid]).
  assert (Hself : forall x, x ∈ [tid] -> exists t, dget x tasks = Some t /\ terminal (status t) = false).
  { intros x ->%list_elem_of_singleton. eauto. }
  (* every dependency seen so far is beaten *)
  pose (Q := fun (ds : list string) (c : chain) => P c /\ forall d m, d ∈ ds -> dget d best = Some m -> m.1 + 1 <= c.1).
  assert (HQ : Q (depends_on t) (foldl (extend_chain best tid) (1, [tid]) (depends_on t))).
  { apply foldl_prefix_invariant.
    - split; [|by intros d m ?%elem_of_nil]. unfold P; cbn. split_and!; [done|by split|lia|by exists []].
    - intros ds d ds' c Hds [(Hn & Hlive & Hpos & l & Hl) Hall]. unfold extend_chain.
      destruct (dget d best) as [[m ch]|] eqn:Hd.
      2:{ split; [by unfold P; eauto|]. intros d' m' [?| ->%list_elem_of_singleton]%elem_of_app; [eauto|congruence]. }
      destruct (Z.ltb_spec c.1 (m + 1)) as [Hlt|Hge].
      2:{ split; [by unfold P; eauto|]. intros d' m' [?| ->%list_elem_of_singleton]%elem_of_app; [eauto|].
          rewrite Hd. by intros [= <-]. }
      destruct (Hbest d (m, ch) Hd) as (Hm & [Hpath Hnt] & Hend & _). cbn in Hm, Hpath, Hnt, Hend.
      destruct Hend as [->|[l' ->]]; [cbn in Hm; lia|].
      assert (Hedge : dep_edge tasks d tid).
      { exists t. split_and!; [done|rewrite Hds; set_solver|].
        destruct (Hnt d) as (td & ? & _); [set_solver|]. apply dget_is_Some. eauto. }
      split.
      + unfold P. cbn. split_and!; [rewrite length_app; cbn; lia| |lia|by eexists].
        split; [rewrite <- app_assoc; by apply path_of_snoc|].
        intros x [Hx|Hx]%elem_of_app; auto.
      + intros d' m' [Hd'| ->%list_elem_of_singleton]%elem_of_app; cbn.
        * intros Hm'. specialize (Hall d' m' Hd' Hm'). lia.
        * rewrite Hd. intros [= <-]. done. }
  destruct HQ as [(Hn & Hlive & Hpos & Hend) Hall]. set (c := foldl _ _ _) in *.
  split_and!; [done|done|by right|]. intros l Hl.
  destruct l as [|d l _] using rev_ind; [cbn; lia|].
  rewrite <- app_assoc in Hl |- *. cbn [app] in *. destruct Hl as [Hpath Hnt].
  pose proof (path_of_last _ _ _ _ Hpath) as Hedge.
  assert (Hd : d ∈ dkeys best) by (apply Hseen, Hdeps, Hedge).
  apply dget_is_Some in Hd as [m Hm]. destruct Hedge as (t' & Ht' & Hin & _).
  assert (t' = t) as -> by congruence. specialize (Hall d m Hin Hm).
  destruct (Hbest d m Hm) as (_ & _ & _ & Hlong).
  specialize (Hlong l). rewrite !length_app in *. cbn in *.
  assert (live_chain tasks (l ++ [d])).
  { split; [|intros x Hx; apply Hnt; set_solver].
    apply (path_of_app_l _ (l ++ [d]) [tid]). by rewrite <- app_assoc. }
  specialize (Hlong ltac:(done)). lia.
Qed.

(** All the chains once the order is exhausted. *)
Lemma best_chains order :
  is_topological tasks order ->
  let best := foldl (best_step tasks) [] order in
  NoDup (dkeys best) /\ (forall d, d ∈ order <-> d ∈ dkeys best) /\
  forall d c, dget d best = Some c -> longest_to tasks d c.
Proof using Hwf.
  intros [Hp Hs]. apply (foldl_prefix_invariant (fun seen best =>
    NoDup (dkeys best) /\ (forall d, d ∈ seen <-> d ∈ dkeys best) /\
    forall d c, dget d best = Some c -> longest_to tasks d c)).
  - split_and!; [constructor|done|done].
  - intros l1 x l2 best Ho (Hnd & Hseen & Hbest).
    assert (Hx : x ∈ dkeys tasks) by (rewrite <- Hp, Ho; set_solver).
    apply dget_is_Some in Hx as [t Ht]. unfold best_step. rewrite Ht. split_and!.
    + by apply NoDup_dkeys_dset.
    + intros d. rewrite elem_of_dkeys_dset, <- Hseen. set_solver.
    + intros d c. destruct (decide (d = x)) as [->|Hdx].
      * rewrite dget_dset_eq. intros [= <-]. apply (best_chain_spec t best x l1); try done. by eapply Hs.
      * rewrite dget_dset_ne by done. apply Hbest.
Qed.
End critical.

Lemma longest_spec c l : longest c l ∈ c :: l /\ forall x, x ∈ c :: l -> x.1 <= (longest c l).1.
Proof.
  unfold longest. revert c. induction l as [|y l IH]; intros c; cbn [foldl].
  - split; [left|]. by intros x ->%list_elem_of_singleton.
  - destruct (IH (if c.1 <? y.1 then y else c)) as [Hin Hmax]. split.
    + destruct (c.1 <? y.1); set_solver.
    + intros x [->|[->|Hx]%elem_of_cons]%elem_of_cons.
      * specialize (Hmax _ (list_elem_of_here _ _)). destruct (Z.ltb_spec c.1 y.1); lia.
      * specialize (Hmax _ (list_elem_of_here _ _)). destruct (Z.ltb_spec c.1 y.1); lia.
      * apply Hmax. by right.
Qed.

Lemma critical_path_correct tasks :
  tasks_wf tasks -> ~ cyclic tasks ->
  exists l, critical_path tasks = Ok l /\ live_chain tasks l /\
    forall l', live_chain tasks l' -> (List.length l' <= List.length l)%nat.
Proof.
  intros Hwf Hac. destruct (topological_order_total tasks Hwf Hac) as (order & Ho & Htop).
  destruct (best_chains tasks Hwf order Htop) as (Hnd & Hkeys & Hbest).
  unfold critical_path. rewrite Ho. cbn [mbind result_bind].
  set (best := foldl (best_step tasks) [] order) in *.
  assert (Hall : forall c, c ∈ dvals best -> exists d, longest_to tasks d c).
  { intros c Hc. unfold dvals in Hc. apply list_elem_of_fmap in Hc as ([d c'] & -> & Hin).
    exists d. apply Hbest. by apply elem_dget_Some. }
  assert (Hcov : forall l x, live_chain tasks (l ++ [x]) ->
            exists c, c ∈ dvals best /\ Z.of_nat (List.length (l ++ [x])) <= c.1).
  { intros l x [Hp Hnt]. destruct (Hnt x) as (t & Ht & _); [set_solver|].
    assert (Hx : x ∈ dkeys best) by (apply Hkeys; rewrite (proj1 Htop); apply dget_is_Some; eauto).
    apply dget_is_Some in Hx as [c Hc]. exists c. split; [|by apply (Hbest x c Hc)].
    apply list_elem_of_fmap. exists (x, c). split; [done|by apply dget_Some_elem]. }
  destruct (dvals best) as [|c cs] eqn:Hv.
  - exists []. split_and!; [done|split; [done|by intros x ?%elem_of_nil]|].
    intros l' Hl'. destruct l' as [|x l' _] using rev_ind; [done|].
    destruct (Hcov l' x Hl') as (c & Hc & _). by apply elem_of_nil in Hc.
  - destruct (longest_spec c cs) as [Hin Hmax]. destruct (Hall _ Hin) as (d & Hlen & Hlive & _ & _).
    exists (longest c cs).2. split_and!; [done|done|].
    intros l' Hl'. destruct l' as [|x l' _] using rev_ind; [cbn; lia|].
    destruct (Hcov l' x Hl') as (c' & Hc' & Hle). specialize (Hmax c' Hc'). lia.
Qed.

(** ** Lemmas: layers *)

Lemma foldl_max_ge l x y : y ∈ x :: l -> y <= foldl Z.max x l.
Proof.
  revert x y. induction l as [|z l IH]; intros x y; cbn [foldl].
  - intros ->%list_elem_of_singleton. lia.
  - pose proof (IH (Z.max x z) _ (list_elem_of_here _ _)).
    intros [->|[->|Hy]%elem_of_cons]%elem_of_cons; [lia|lia|]. apply IH. by right.
Qed.

(** A task lies strictly right of its placed dependencies, and no layer is negative. *)
Lemma layer_of_gt t out d n :
  d ∈ depends_on t -> dget d out = Some n -> n < layer_of t out.
Proof.
  intros Hd Hn. unfold layer_of. cbv zeta.
  set (deps := if dmem (discovered_from t) out then _ else _).
  assert (Hin : n ∈ map (fun d => default 0 (dget d out)) deps).
  { apply list_elem_of_In, in_map_iff. exists d. split; [by rewrite Hn|].
    assert (H : In d (List.filter (fun d => dmem d out) (depends_on t))).
    { apply filter_In. split; [by apply list_elem_of_In|apply dmem_spec, dget_is_Some; eauto]. }
    unfold deps. destruct (dmem _ out); [apply in_app_iff; by left|done]. }
  destruct (map _ deps) as [|x l]; [by apply elem_of_nil in Hin|].
  pose proof (foldl_max_ge l x n Hin). lia.
Qed.

Lemma layer_of_nonneg t out : (forall d n, dget d out = Some n -> 0 <= n) -> 0 <= layer_of t out.
Proof.
  intros H. unfold layer_of. cbv zeta. set (deps := if dmem (discovered_from t) out then _ else _).
  destruct (map _ deps) as [|x l] eqn:Hm; [lia|].
  assert (Hx : 0 <= x).
  { destruct deps as [|d ds]; cbn in Hm; [done|]. injection Hm as <- _.
    destruct (dget d out) as [n|] eqn:Hd; cbn; [by eapply H|lia]. }
  pose proof (foldl_max_ge l x x (list_elem_of_here _ _)). lia.
Qed.

Lemma layers_correct tasks vis order :
  tasks_wf tasks -> is_topological tasks order ->
  let out := foldl (layer_step tasks vis) [] order in
  (forall c, c ∈ dkeys out <-> c ∈ dkeys tasks /\ c ∈ vis) /\
  (forall c n, dget c out = Some n -> 0 <= n) /\
  (forall d c n m, dep_edge tasks d c -> dget d out = Some n -> dget c out = Some m -> n < m).
Proof.
  intros Hwf [Hp Hs].
  pose (P := fun (seen : list string) (out : dict Z) =>
    (forall c, c ∈ dkeys out <-> c ∈ seen /\ c ∈ vis) /\
    (forall c n, dget c out = Some n -> 0 <= n) /\
    (forall d c n m, dep_edge tasks d c -> dget d out = Some n -> dget c out = Some m -> n < m)).
  assert (HP : P order (foldl (layer_step tasks vis) [] order)).
  { apply foldl_prefix_invariant; [split_and!; [|done|done]; intros c; cbn; set_solver|].
    intros l1 x l2 out Ho (Hk & Hnn & Hlt). unfold layer_step.
    assert (Hx : x ∈ dkeys tasks) by (rewrite <- Hp, Ho; set_solver).
    apply dget_is_Some in Hx as [t Ht]. rewrite Ht. destruct (mem x vis) eqn:Hvis.
    2:{ apply mem_false in Hvis. split_and!; [|done|done]. intros c. rewrite Hk. set_solver. }
    apply mem_spec in Hvis.
    assert (Hfresh : forall c, dep_edge tasks x c -> c ∉ dkeys out).
    { intros c Hxc Hc. apply Hk in Hc as [Hc _]. apply list_elem_of_split in Hc as (a & b & ->).
      assert (Hxa : x ∈ a) by (eapply (Hs a c (b ++ x :: l2)); [by rewrite Ho, <- app_assoc|done]).
      pose proof (proj1 Hwf) as Hnd. rewrite <- Hp, Ho in Hnd.
      apply NoDup_app in Hnd as (_ & Hdis & _). apply (Hdis x); [set_solver|left]. }
    split_and!.
    - intros c. rewrite elem_of_dkeys_dset, Hk. set_solver.
    - intros c n. destruct (decide (c = x)) as [->|Hcx].
      + rewrite dget_dset_eq. intros [= <-]. by apply layer_of_nonneg.
      + rewrite dget_dset_ne by done. apply Hnn.
    - intros d c n m He. destruct (decide (d = x)) as [->|Hdx], (decide (c = x)) as [->|Hcx].
      + exfalso. eapply (is_topological_acyclic tasks order); [done|by split|]. exists x. by apply tc_once.
      + rewrite (dget_dset_ne c x) by done. intros _ Hm. exfalso. eapply Hfresh; [done|]. apply dget_is_Some. eauto.
      + rewrite dget_dset_ne, dget_dset_eq by done. intros Hn [= <-]. destruct He as (t' & Ht' & Hd & _).
        assert (t' = t) as -> by congruence. by eapply layer_of_gt.
      + rewrite !dget_dset_ne by done. by apply Hlt. }
  destruct HP as (Hk & Hnn & Hlt). cbv zeta. split_and!; [|done|done].
  intros c. by rewrite Hk, Hp.
Qed.

(** ** Lemmas: blockers *)

(** The dependency [d] of [t] is satisfied. *)
Definition satisfied (tasks : tasks_t) (stack : bool) (t : Task) (d : string) : Prop :=
  exists dep, dget d tasks = Some dep /\
    (status dep = DONE \/ (stack = true /\ edge_rule t d tasks = "stack" /\ stackable dep = true)).

Lemma blocks_false t tasks stack d : blocks t tasks stack d = false <-> satisfied tasks stack t d.
Proof.
  unfold blocks, satisfied. destruct (dget d tasks) as [dep|]; [|split; [done|by intros (? & ? & _)]].
  destruct (bool_decide_reflect (status dep = DONE)) as [Hd|Hd]; [split; [eauto|done]|].
  rewrite negb_false_iff, !andb_true_iff, bool_decide_eq_true. split.
  - intros [[? ?] ?]. exists dep. split; [done|by right].
  - intros (dep' & [= <-] & [?|(? & ? & ?)]); [done|]. by split_and!.
Qed.

Lemma is_blocked_false t tasks stack :
  is_blocked t tasks stack = false <-> forall d, d ∈ depends_on t -> satisfied tasks stack t d.
Proof.
  unfold is_blocked, blockers. split.
  - intros H d Hd. apply blocks_false. destruct (blocks t tasks stack d) eqn:Hb; [|done].
    assert (Hin : In d (List.filter (blocks t tasks stack) (depends_on t)))
      by (apply filter_In; split; [by apply list_elem_of_In|done]).
    by destruct (List.filter _ _).
  - intros H. destruct (List.filter _ _) as [|d l] eqn:Hf; [done|].
    assert (Hin : In d (List.filter (blocks t tasks stack) (depends_on t))) by (rewrite Hf; by left).
    apply filter_In in Hin as [Hd%list_elem_of_In Hb]. apply H, blocks_false in Hd. congruence.
Qed.

Lemma elem_of_unknown_problems_nil tasks :
  unknown_problems tasks = [] <-> forall t, t ∈ dvals tasks -> forall d, d ∈ depends_on t -> d ∈ dkeys tasks.
Proof.
  unfold unknown_problems. induction (dvals tasks) as [|t ts IH]; [split; [by intros _ t ?%elem_of_nil|done]|].
  change (mjoin (map ?f (t :: ts))) with (f t ++ mjoin (map f ts)). cbv beta.
  rewrite app_nil, IH. setoid_rewrite elem_of_cons.
  assert (Hf : map (fun d => (id t ++ " depends on unknown task " ++ d)%string)
                 (List.filter (fun d => negb (known tasks d)) (depends_on t)) = [] <->
               forall d, d ∈ depends_on t -> d ∈ dkeys tasks).
  { setoid_rewrite <- dmem_spec. change (dmem ?d tasks) with (known tasks d).
    induction (depends_on t) as [|d ds IHd]; [split; [by intros _ d ?%elem_of_nil|done]|].
    cbn [List.filter]. destruct (known tasks d) eqn:Hk; cbn [negb map].
    - rewrite IHd. split; [intros H d' [->|?]%elem_of_cons; auto|intros H d' ?; apply H; by right].
    - split; [done|]. intros H. specialize (H d (list_elem_of_here _ _)). congruence. }
  rewrite Hf. split.
  - intros [H1 H2] t' [->|Ht']; [exact H1|by apply H2].
  - intros H. split; [apply H; by left|]. intros t' Ht'. apply H. by right.
Qed.

(** ** Properties *)

(** C39.  [topological_order] always answers, and both answers are right: an order is an arrangement
    of all the tasks in which every known dependency of a task comes before it (so there is no
    cycle), and a reported cycle means that one exists, the stuck tasks being non-empty and each
    waiting on another stuck one.  In particular the loop needs at most one round per task. *)
Theorem topological_order_spec (tasks : tasks_t) (Hwf : tasks_wf tasks) :
  match topological_order tasks with
  | Ok order => is_topological tasks order /\ ~ cyclic tasks
  | Err (CycleAmong stuck) =>
      cyclic tasks /\ stuck <> [] /\
      forall c, c ∈ stuck -> c ∈ dkeys tasks /\ exists d, d ∈ stuck /\ dep_edge tasks d c
  | Err _ => False
  end.
Proof.
  pose proof (topological_order_correct tasks Hwf) as Hc. pose proof (topological_order_cyclic tasks Hwf) as Hcy.
  destruct (topological_order tasks) as [order|[stuck| |]]; try done.
  - split; [done|by eapply is_topological_acyclic].
  - split; [apply Hcy; eauto|done].
Qed.

(** A task that only its id, status, title and dependencies distinguish. *)
Definition plain_task (i : string) (st : Status) (deps : list string) : Task :=
  {| path := ""; id := i; title := i; status := st; product := "w"; phase := "p1"; depends_on := deps;
     dependency_after := []; kind := ""; priority := 3; order := None; estimate := ""; reading := [];
     repo := ""; branch := ""; pr := ""; runner := ""; harness := ""; difficulty := "medium"; model := "";
     execution_requirements := no_requirements; owner := ""; owner_unassigned := false; discovered_from := "";
     freeze_exception := false; freeze_exception_reason := ""; retro_blocking := false; attempts := 0;
     last_dispatched_at := ""; created := ""; updated := ""; extra := []; body := ""; loaded := None |}.

Definition filed (l : list Task) : tasks_t := map (fun t => (id t, t)) l.

(** A diamond with a tail, and a cycle. *)
Definition diamond : tasks_t :=
  filed [plain_task "D" READY ["B"; "C"]; plain_task "A" DONE []; plain_task "B" READY ["A"; "X"];
         plain_task "C" DRAFT ["A"]; plain_task "E" READY ["D"]].
Definition looped : tasks_t :=
  filed [plain_task "A" READY ["C"]; plain_task "B" READY ["A"]; plain_task "C" READY ["B"]; plain_task "D" READY ["C"]].
Definition pair : tasks_t := filed [plain_task "A" READY []; plain_task "B" READY ["A"]].

Lemma filed_wf l : bool_decide (NoDup (map id l)) = true -> tasks_wf (filed l).
Proof.
  intros H%bool_decide_eq_true. unfold tasks_wf, filed, dkeys. split.
  - enough ((map (fun t => (id t, t)) l).*1 = map id l) as -> by done.
    induction l as [|t l IH]; cbn; [done|]. f_equal. apply IH. by apply NoDup_cons in H as [_ ?].
  - intros k t Hin. apply list_elem_of_In, in_map_iff in Hin as (t' & [= <- <-] & _). done.
Qed.

Lemma diamond_wf : tasks_wf diamond.
Proof. apply filed_wf. vm_compute. reflexivity. Qed.
Lemma looped_wf : tasks_wf looped.
Proof. apply filed_wf. vm_compute. reflexivity. Qed.
Lemma pair_wf : tasks_wf pair.
Proof. apply filed_wf. vm_compute. reflexivity. Qed.

Lemma topological_order_spec_witness :
  (exists order, topological_order diamond = Ok order /\ is_topological diamond order) /\ cyclic looped.
Proof.
  split.
  - pose proof (topological_order_spec diamond diamond_wf) as H.
    exists ["A"; "B"; "C"; "D"; "E"]. split; [vm_compute; reflexivity|].
    replace (topological_order diamond) with (@Ok graph_error _ ["A"; "B"; "C"; "D"; "E"]) in H by (vm_compute; reflexivity).
    apply H.
  - pose proof (topological_order_spec looped looped_wf) as H.
    replace (topological_order looped) with (@Err _ (list string) (CycleAmong ["A"; "B"; "C"; "D"])) in H
      by (vm_compute; reflexivity).
    apply H.
Defined.

(** The ready list is exactly the approved tasks whose every dependency is satisfied (done, or
    with [stack] open for review and stackable under a [stack] rule), in dispatch order. *)
Theorem ready_spec (tasks : tasks_t) (stack : bool) :
  StronglySorted (fun t1 t2 => dispatch_leb t1 t2 = true) (ready tasks stack) /\
  forall t, t ∈ ready tasks stack <->
    t ∈ dvals tasks /\ status t = READY /\ forall d, d ∈ depends_on t -> satisfied tasks stack t d.
Proof.
  split; [apply sort_by_sorted; [apply dispatch_leb_total|apply dispatch_leb_trans]|].
  intros t. unfold ready.
  rewrite elem_of_sort_by, list_elem_of_In, filter_In, andb_true_iff, bool_decide_eq_true, negb_true_iff.
  by rewrite is_blocked_false, <- list_elem_of_In.
Qed.

(** [validate] reports no problem exactly when every dependency is a known task and the graph
    has no cycle. *)
Theorem validate_healthy (tasks : tasks_t) (Hwf : tasks_wf tasks) :
  validate tasks = Ok [] <->
  (forall t, t ∈ dvals tasks -> forall d, d ∈ depends_on t -> d ∈ dkeys tasks) /\ ~ cyclic tasks.
Proof.
  rewrite <- elem_of_unknown_problems_nil. unfold validate.
  pose proof (topological_order_correct tasks Hwf) as Hc. pose proof (topological_order_cyclic tasks Hwf) as Hcy.
  destruct (topological_order tasks) as [order|[stuck| |]]; try done.
  - split; [intros [= H]; split; [done|by eapply is_topological_acyclic]|by intros [-> _]].
  - split; [intros [= [_ H]%app_nil]; done|]. intros [_ Hac]. destruct Hac. apply Hcy. eauto.
Qed.

Lemma validate_healthy_witness : validate pair = Ok [] /\
  forall t, t ∈ dvals pair ->
  forall d, d ∈ depends_on t -> d ∈ dkeys pair.
Proof.
  split; [vm_compute; reflexivity|].
  apply (validate_healthy pair pair_wf).
  vm_compute. reflexivity.
Defined.

(** The critical path of an acyclic graph is a chain of unfinished tasks, each depending on the
    one before it, and no such chain is longer. *)
Theorem critical_path_longest (tasks : tasks_t) (Hwf : tasks_wf tasks) (Hac : ~ cyclic tasks) :
  exists l, critical_path tasks = Ok l /\ live_chain tasks l /\
    forall l', live_chain tasks l' -> (List.length l' <= List.length l)%nat.
Proof. by apply critical_path_correct. Qed.

Lemma diamond_acyclic : ~ cyclic diamond.
Proof.
  pose proof (topological_order_correct diamond diamond_wf) as H.
  replace (topological_order diamond) with (@Ok graph_error _ ["A"; "B"; "C"; "D"; "E"]) in H by (vm_compute; reflexivity).
  apply (is_topological_acyclic _ ["A"; "B"; "C"; "D"; "E"]); [apply diamond_wf|done].
Qed.

Lemma critical_path_longest_witness :
  critical_path diamond = Ok ["B"; "D"; "E"] /\
  exists l, critical_path diamond = Ok l /\ forall l', live_chain diamond l' -> (List.length l' <= List.length l)%nat.
Proof.
  split; [vm_compute; reflexivity|].
  destruct (critical_path_longest diamond diamond_wf diamond_acyclic) as (l & Hl & _ & Hmax).
  by exists l.
Defined.

(** Layering an acyclic graph places exactly the visible tasks, in non-negative columns, every
    task strictly to the right of each visible dependency. *)
Theorem layers_respect_dependencies (tasks : tasks_t) (visible : option (list string))
    (Hwf : tasks_wf tasks) (Hac : ~ cyclic tasks) :
  exists out, layers tasks visible = Ok out /\
    (forall c, c ∈ dkeys out <-> c ∈ dkeys tasks /\ c ∈ default (dkeys tasks) visible) /\
    (forall c n, dget c out = Some n -> 0 <= n) /\
    forall d c n m, dep_edge tasks d c -> dget d out = Some n -> dget c out = Some m -> n < m.
Proof.
  destruct (topological_order_total tasks Hwf Hac) as (order & Ho & Htop).
  unfold layers. cbv zeta. rewrite Ho. cbn [mbind result_bind]. eexists. split; [done|].
  by apply (layers_correct tasks _ order).
Qed.

Lemma layers_respect_dependencies_witness :
  layers diamond (Some ["A"; "B"; "D"]) = Ok [("A", 0); ("B", 1); ("D", 2)] /\
  exists out, layers diamond None = Ok out /\ forall c n, dget c out = Some n -> 0 <= n.
Proof.
  split; [vm_compute; reflexivity|].
  destruct (layers_respect_dependencies diamond None diamond_wf diamond_acyclic) as (out & ? & _ & ? & _).
  by exists out.
Defined.

(** Which headings make a dependency document work: [## Documentation] does, but
    [## Document] does not (the pattern's [documentation?] only makes its last letter optional),
    although the same word in the title or the kind does; such a dependency is stacked on. *)
Theorem document_heading_rule (t dep : Task) (Hkind : mem (lower (kind dep)) document_words = false)
    (Htitle : title_is_document false (title dep) = false) (Hexplicit : dget (id dep) (dependency_after t) = None) :
  edge_rule t (id dep) [(id dep, dep)] = (if body_is_document true (body dep) then "merge" else "stack") /\
  body_is_document true ("## Documentation" ++ NL) = true /\
  body_is_document true ("## Document" ++ NL) = false /\
  title_is_document false "Document" = true.
Proof.
  split_and!; try reflexivity. unfold edge_rule, is_document_work. rewrite Hexplicit. cbn [nonempty default dget].
  rewrite decide_True by done. by rewrite Hkind, Htitle.
Qed.

Lemma document_heading_rule_witness :
  edge_rule (plain_task "B" READY ["A"]) "A" [("A", plain_task "A" READY [])] = "stack".
Proof.
  apply (document_heading_rule (plain_task "B" READY ["A"]) (plain_task "A" READY [])); reflexivity.
Defined.
