(* ===== verification/Criteria.v ===== *)
(** * Acceptance criteria ([src/src/garden/criteria.py], [src/src/garden/scheduler/reap.py])

    The checklist of a task's acceptance criteria: finding the items in the text, applying a
    worker's amendments to them, matching the worker's evidence and the reviewer's verdict
    against them, expanding an overall attestation into the missing rows, and the Verification
    section of a pull request.

    Text is UTF-8 bytes with the ASCII behaviour of [lower], [strip] and the regular
    expressions, as in TaskModel.  Rows are JSON objects ([dict pyval]). *)

From S2P Require Import Prelude PyValue Requirements TaskModel.

(** ** Lines *)

(** The longest prefix of characters that satisfy [p], and the rest. *)
Fixpoint span (p : ascii -> bool) (s : string) : string * string :=
  match s with
  | "" => ("", "")
  | String c s' => if p c then let '(a, b) := span p s' in (String c a, b) else ("", s)
  end.

Definition is_hash (c : ascii) : bool := bool_decide (c = "#"%char).
Definition is_bullet (c : ascii) : bool := bool_decide (c ∈ ["-"%char; "*"%char]).
Definition is_mark (c : ascii) : bool := bool_decide (c ∈ [" "%char; "x"%char; "X"%char]).

(** [_HEADING_RE.match(line).group(1)]: one to six [#], white space, and the text without the
    closing [#]s. *)
Definition heading (line : string) : option string :=
  let '(hashes, rest) := span is_hash line in
  let n := String.length hashes in
  match rest with
  | String c _ =>
      if (1 <=? n)%nat && (n <=? 6)%nat && is_space c
      then Some (rstrip (rstrip_by is_hash (lstrip rest))) else None
  | "" => None
  end.

(** [re.match(r"^(\s*[-*]\s+\[[ xX]\]\s+)", line)]: the matched prefix and the rest. *)
Definition check_prefix (line : string) : option (string * string) :=
  let '(indent, l1) := span is_space line in
  match l1 with
  | String b l2 =>
      let '(gap, l3) := span is_space l2 in
      match l3 with
      | String o (String m (String c l4)) =>
          let '(gap', text) := span is_space l4 in
          if is_bullet b && nonempty gap && bool_decide (o = "["%char) && is_mark m
             && bool_decide (c = "]"%char) && nonempty gap'
          then Some (indent ++ String b gap ++ String o (String m (String c gap')), text) else None
      | _ => None
      end
  | "" => None
  end.

(** [_CHECK_RE.match(line).group(1)]: the text of a checklist line, when it has one. *)
Definition check (line : string) : option string :=
  match check_prefix line with
  | Some (_, text) => if nonempty text then Some (rstrip text) else None
  | None => None
  end.

(** [_CONTINUATION_RE.match(line)] *)
Definition continuation (line : string) : bool :=
  match line with String c _ => is_space c && nonempty (lstrip line) | "" => false end.

(** [heading.group(1).strip().lower().startswith("acceptance criteria")] *)
Definition opens_section (h : string) : bool := startswith "acceptance criteria" (lower (strip h)).

(** ** Finding the items *)

(** The locals of the loop of [_criterion_ranges]. *)
Record scan := Scan { sc_ranges : list (nat * nat); in_section : bool; sc_start : option nat }.

Definition closed_at (n : nat) (sc : scan) : list (nat * nat) :=
  match sc_start sc with Some s => sc_ranges sc ++ [(s, (n - 1)%nat)] | None => sc_ranges sc end.

Definition scan_line (sc : scan) (numbered : nat * string) : scan :=
  let '(n, line) := numbered in
  match heading line with
  | Some h => Scan (closed_at n sc) (opens_section h) None
  | None =>
      if negb (in_section sc) then sc
      else if is_some (check line) then Scan (closed_at n sc) true (Some n)
      else if is_some (sc_start sc) && continuation line then sc
      else Scan (closed_at n sc) true None
  end.

Definition criterion_ranges (lines : list string) : list (nat * nat) :=
  closed_at (length lines) (foldl scan_line (Scan [] false None) (imap pair lines)).

Definition line_at (lines : list string) (i : nat) : string := default "" (lines !! i).

Definition item_text (item : list string) : string :=
  match item with
  | first :: rest => join " " (strip (default "" (check first)) :: map strip rest)
  | [] => ""
  end.

Definition parse_criteria (body : string) : list string :=
  let lines := splitlines body in
  map (fun '(s, e) => item_text (map (line_at lines) (seq s (S e - s)))) (criterion_ranges lines).

(** ** Amendments *)

(** An applied amendment; the index as it was given ([True] is [1]). *)
Record amendment := Amendment { am_index : pyval; am_text : string; am_reason : string }.

Definition int_value (v : pyval) : option Z :=
  match v with PInt n => Some n | PBool b => Some (Z.b2z b) | _ => None end.

Definition amendment_row (a : amendment) : dict pyval :=
  [("index", am_index a); ("text", PStr (am_text a)); ("reason", PStr (am_reason a))].

(** [str(row.get(k) or "").strip()] *)
Definition text_field (k : string) (row : dict pyval) : string := strip (py_str (por (pget k row) (PStr ""))).

(** The locals of the loop of [amend_criteria]. *)
Record edit := Edit { ed_lines : list string; ed_applied : list amendment; ed_drop : list nat }.

Definition amend_one (ranges : list (nat * nat)) (st : edit) (item : pyval) : edit :=
  match item with
  | PDict row =>
      match int_value (pget "index" row) with
      | Some index =>
          let text := text_field "text" row in
          let reason := text_field "reason" row in
          if (0 <=? index) && (index <? Z.of_nat (length ranges)) && nonempty text && nonempty reason then
            match ranges !! Z.to_nat index with
            | Some (s, e) =>
                match check_prefix (line_at (ed_lines st) s) with
                | Some (prefix, _) =>
                    Edit (<[s := prefix ++ text]> (ed_lines st))
                         (ed_applied st ++ [Amendment (pget "index" row) text reason])
                         (ed_drop st ++ seq (S s) (e - s))
                | None => st
                end
            | None => st
            end
          else st
      | None => st
      end
  | _ => st
  end.

Definition undropped (st : edit) : list string :=
  mjoin (imap (fun n line => if bool_decide (n ∈ ed_drop st) then [] else [line]) (ed_lines st)).

(** [body.endswith("\n")] *)
Definition ends_with_newline (s : string) : bool := negb (last_ok is_newline s).

Definition amend_criteria (body : string) (amendments : pyval) : string * list amendment :=
  match amendments with
  | PList items =>
      let lines := splitlines body in
      let st := foldl (amend_one (criterion_ranges lines)) (Edit lines [] []) items in
      (join NL (undropped st) ++ (if ends_with_newline body then NL else ""), ed_applied st)
  | _ => (body, [])
  end.

(** ** Evidence *)

(** [_norm]: the words of lower case letters and digits, separated by one space. *)
Definition word_char (c : ascii) : bool := is_lower c || is_digit c.
Fixpoint words (gap : bool) (s : string) : string :=
  match s with
  | "" => ""
  | String c s' =>
      if word_char c then (if gap then String " " (String c (words false s')) else String c (words false s'))
      else words true s'
  end.
Definition norm_text (s : string) : string := strip (words false (lower s)).

(** [_norm(e.get("criterion", ""))] *)
Definition quoted (e : dict pyval) : string := norm_text (py_str (pget_or "criterion" (PStr "") e)).
Definition quotes (e : dict pyval) : bool := nonempty (quoted e).

Definition match_entry (entries : list (dict pyval)) (criterion : string) (i : nat) : dict pyval :=
  if existsb quotes entries then
    let n := norm_text criterion in
    if nonempty n then default [] (List.find (fun e => bool_decide (quoted e = n)) entries) else []
  else default [] (entries !! i).

Definition dicts (value : pyval) : list (dict pyval) :=
  match value with PList l => omap (fun v => match v with PDict d => Some d | _ => None end) l | _ => [] end.

(** A row of [reconcile]. *)
Record criterion_row := Row {
  criterion : string;
  evidence : string;
  not_done : bool;
  worker_reason : string;
  has_worker : bool;
  met : option bool;
  review_reason : string;
  has_review : bool;
}.

Definition verdict (r : dict pyval) : option bool :=
  match pget "met" r with PBool b => Some b | _ => None end.

Definition reconcile_row (ws rs : list (dict pyval)) (i : nat) (crit : string) : criterion_row :=
  let w := match_entry ws crit i in
  let r := match_entry rs crit i in
  {| criterion := crit;
     evidence := text_field "evidence" w;
     not_done := truthy (pget "not_done" w);
     worker_reason := text_field "reason" w;
     has_worker := truthy (PDict w);
     met := verdict r;
     review_reason := text_field "reason" r;
     has_review := truthy (PDict r) |}.

Definition reconcile (criteria : list string) (verified review_criteria : pyval) : list criterion_row :=
  imap (reconcile_row (dicts verified) (dicts review_criteria)) criteria.

Definition unmatched_worker_entries (criteria : list string) (verified : pyval) : list (dict pyval) :=
  let ws := dicts verified in
  if existsb quotes ws
  then List.filter (fun e => quotes e && negb (mem (quoted e) (map norm_text criteria))) ws
  else [].

Definition is_gap (row : criterion_row) : bool := negb (not_done row) && negb (nonempty (evidence row)).

Definition evidence_gaps (criteria : list string) (verified : pyval) : list string :=
  map criterion (List.filter is_gap (reconcile criteria verified PNone)).

Definition evidence_gap_diagnosis (criteria : list string) (verified : pyval) (run_id : string) : string :=
  let gaps := evidence_gaps criteria verified in
  match gaps with
  | [] => ""
  | _ =>
      let scope := if nonempty run_id then "Run " ++ run_id else "The worker result" in
      let first := scope ++ " left these frozen criteria without reconciled evidence or an explicit reason: "
                   ++ join "; " gaps ++ "." in
      let line entry :=
        let detail := strip (py_str (por (por (pget "evidence" entry) (pget "reason" entry))
                                         (PStr "no further detail given"))) in
        "It also supplied unmatched evidence for " ++ String dquote (text_field "criterion" entry)
        ++ String dquote ": " ++ detail ++ ". Re-submit it using "
        ++ "the exact frozen criterion text, or mark that criterion not_done with a reason." in
      join NL (first :: map line (unmatched_worker_entries criteria verified))
  end.

Definition ATTESTATION_MAX_CHARS : nat := 1000.

(** [s[:n]] in characters of UTF-8 text. *)
Fixpoint take_chars (n : nat) (s : string) : string :=
  match s with
  | "" => ""
  | String c s' =>
      if is_continuation c then String c (take_chars n s')
      else match n with O => "" | S n' => String c (take_chars n' s') end
  end.

(** The summary and the notes that say something. *)
Definition attested (result : dict pyval) : list (string * string) :=
  omap (fun name => match pget name result with
                    | PStr s => if nonempty (strip s) then Some (name, strip s) else None
                    | _ => None
                    end) ["summary"; "notes"].

Definition attestation (fields : list (string * string)) : string :=
  take_chars ATTESTATION_MAX_CHARS (join NL (map (fun f => f.1 ++ ": " ++ f.2) fields)).

Definition normalized_row (fields : list (string * string)) (crit : string) : dict pyval :=
  [("criterion", PStr crit); ("evidence", PStr (attestation fields));
   ("provenance", PStr ("normalized from worker " ++ join ", " (map fst fields) ++ " attestation"))].

Definition normalize_verified (criteria : list string) (result : dict pyval) : option pyval :=
  if negb (bool_decide (lower (py_str (por (pget "status" result) (PStr ""))) = "done")) then None
  else
    match attested result with
    | [] => None
    | fields =>
        let original := pget "verified" result in
        let verified := match original with PList l => l | _ => [] end in
        match evidence_gaps criteria (PList verified) with
        | [] => match original with PList l => Some (PList l) | _ => None end
        | gaps => Some (PList (verified ++ map (fun c => PDict (normalized_row fields c)) gaps))
        end
    end.

(** ** The Verification section *)

Definition row_line (missing_detail : string) (row : criterion_row) : string :=
  if not_done row then
    "- 🚧 **" ++ criterion row ++ "** — not done: "
    ++ (if nonempty (worker_reason row) then worker_reason row else "no reason given")
  else if nonempty (evidence row) then "- ✅ **" ++ criterion row ++ "** — " ++ evidence row
  else "- ⚠️ **" ++ criterion row ++ "** — " ++ missing_detail.

Definition or_text (k dflt : string) (row : dict pyval) : string := strip (py_str (por (pget k row) (PStr dflt))).

Definition entry_line (entry : dict pyval) : string :=
  let detail := if truthy (pget "not_done" entry)
                then "not done: " ++ or_text "reason" "no reason given" entry
                else or_text "evidence" "no evidence given" entry in
  "- **" ++ or_text "criterion" "unlabelled criterion" entry ++ "** — " ++ detail.

Definition unmapped_heading : list string :=
  [""; "### Reported evidence not mapped to an acceptance row"; "";
   "This evidence is retained as reported; it does not verify a criterion until its "
   ++ "relationship is explicit."; ""].

Definition verification_markdown (rows : list criterion_row) (entries : list (dict pyval)) : string :=
  match rows with
  | [] => ""
  | _ =>
      let missing_detail := match entries with [] => "no evidence given" | _ => "no mapped evidence given" end in
      let lines := ("## Verification" :: "" :: map (row_line missing_detail) rows) in
      let lines := match entries with [] => lines | _ => (lines ++ unmapped_heading ++ map entry_line entries)%list end in
      join NL lines ++ NL
  end.

(** [\b] before the rest of the text, after a letter. *)
Definition word_ends (s : string) : bool :=
  match s with String c _ => negb (is_alnum c || bool_decide (c = "_"%char)) | "" => true end.

(** [#{1,6}\s+], and the text after it. *)
Definition hashes_then (s : string) : option string :=
  let '(hashes, rest) := span is_hash s in
  let n := String.length hashes in
  let '(gap, text) := span is_space rest in
  if (1 <=? n)%nat && (n <=? 6)%nat && nonempty gap then Some text else None.

(** The text from the end of the line on. *)
Definition from_line_end (s : string) : string := (span (fun c => negb (is_newline c)) s).2.

(** [_VERIFICATION_HEADING_RE.search(body)]: the text before the match and after it.  [bol] says
    whether the position is the first of a line. *)
Fixpoint find_verification (bol : bool) (s : string) : option (string * string) :=
  match
    (if bol then
       match hashes_then s with
       | Some text =>
           if startswith "verification" (lower text) && word_ends (drop_str 12 text)
           then Some (from_line_end (drop_str 12 text)) else None
       | None => None
       end
     else None)
  with
  | Some tail => Some ("", tail)
  | None =>
      match s with
      | "" => None
      | String c s' => match find_verification (is_newline c) s' with
                       | Some (before, tail) => Some (String c before, tail)
                       | None => None
                       end
      end
  end.

(** [re.search(r"(?m)^#{1,6}\s+\S", tail)]: the text from the match on. *)
Fixpoint find_heading (bol : bool) (s : string) : string :=
  if bol && match hashes_then s with Some text => nonempty text | None => false end then s
  else match s with "" => "" | String c s' => find_heading (is_newline c) s' end.

Definition strip_verification (body : string) : string :=
  match find_verification true body with
  | None => body
  | Some (before, tail) =>
      let rest := find_heading true tail in
      rstrip (rstrip before ++ (if nonempty rest then NL ++ NL ++ rest else NL)) ++ NL
  end.

Definition apply_verification (body : string) (criteria : list string) (verified : pyval) : string :=
  match dicts verified with
  | [] => body
  | _ =>
      let section := verification_markdown (reconcile criteria verified PNone)
                                           (unmatched_worker_entries criteria verified) in
      if nonempty section then
        let stripped := rstrip (strip_verification body) in
        if nonempty stripped then stripped ++ NL ++ NL ++ section else section
      else body
  end.

(** A run as [worker_verified] sees it: its mode and its result. *)
Definition worker_verified (runs : list (string * dict pyval)) : list (dict pyval) :=
  default [] (List.find (fun v => match v with [] => false | _ => true end)
    (map (fun r => dicts (pget "verified" r.2))
       (List.filter (fun r => mem r.1 ["work"; "revise"; "resume"]) (rev runs)))).

Definition criteria_counts (review_criteria : pyval) : nat * nat :=
  let rs := dicts review_criteria in
  (length (List.filter (fun e => bool_decide (pget "met" e = PBool true)) rs), length rs).

(** ** Amendments of a finished run (reap.py) *)

Definition with_extra (k : string) (v : pyval) (t : Task) : Task :=
  {| path := path t; id := id t; title := title t; status := status t; product := product t;
     phase := phase t; depends_on := depends_on t; dependency_after := dependency_after t;
     kind := kind t; priority := priority t; order := order t; estimate := estimate t;
     reading := reading t; repo := repo t; branch := branch t; pr := pr t; runner := runner t;
     harness := harness t; difficulty := difficulty t; model := model t;
     execution_requirements := execution_requirements t; owner := owner t;
     owner_unassigned := owner_unassigned t; discovered_from := discovered_from t;
     freeze_exception := freeze_exception t; freeze_exception_reason := freeze_exception_reason t;
     retro_blocking := retro_blocking t; attempts := attempts t;
     last_dispatched_at := last_dispatched_at t; created := created t; updated := updated t;
     extra := dset k v (extra t); body := body t; loaded := loaded t |}.

(** [recorded] holds this amendment of this run. *)
Definition recorded_for (run_id : string) (a : amendment) (existing : pyval) : bool :=
  match existing with
  | PDict row =>
      py_eq (pget "run" row) (PStr run_id)
      && forallb (fun f => py_eq (pget f row) (pget f (amendment_row a))) ["index"; "text"; "reason"]
  | _ => false
  end.

Definition amendment_message (a : amendment) : string :=
  "acceptance criterion " ++ show (default 0 (int_value (am_index a)) + 1) ++ " amended: " ++ am_reason a.

(** The task, the events emitted, and whether the task was saved.  [stamp k] is the clock at the
    [k]-th log line. *)
Definition apply_criteria_amendments (stamp : nat -> string) (run_id : string) (result : dict pyval) (t : Task)
    : Prelude.result exn (Task * list (dict pyval) * bool) :=
  let '(body', applied) := amend_criteria (body t) (pget "criteria_amended" result) in
  match applied with
  | [] => Ok (t, [], false)
  | _ =>
      recorded ← py_iter (por (pget "criteria_amended" (extra t)) (PList []));
      let fresh := List.filter (fun a => negb (existsb (recorded_for run_id a) recorded)) applied in
      match fresh with
      | [] => Ok (t, [], false)
      | _ =>
          let logged := foldl (fun t ka => log (stamp ka.1) (amendment_message ka.2) t)
                              (with_text t body' (updated t) (loaded t)) (imap pair fresh) in
          let rows := map (fun a => dset "run" (PStr run_id) (amendment_row a)) fresh in
          Ok (with_extra "criteria_amended" (PList (recorded ++ map PDict rows)) logged, rows, true)
      end
  end.

(** [_no_change_changes_outcome] *)
Definition no_change_changes_outcome (result : dict pyval) : Prelude.result exn bool :=
  if truthy (pget "improvements_declined" result) then Ok true
  else rows ← py_iter (por (pget "verified" result) (PList []));
       Ok (existsb (fun v => match v with PDict row => truthy (pget "not_done" row) | _ => false end) rows).

(** ** Reference view of the checklist

    A line is outside of the items, the first line of an item or a continuation of the open item.
    [place] is where the scan stands before a line; items are numbered from 0. *)

Inductive place := Outside | Between | Within (item : nat).
Inductive label := Other | First | More (item : nat).

(** The place after a line and what the line is; [k] items began before it. *)
Definition classify (p : place) (k : nat) (line : string) : place * label :=
  match heading line with
  | Some h => (if opens_section h then Between else Outside, Other)
  | None =>
      match p with
      | Outside => (Outside, Other)
      | _ =>
          if is_some (check line) then (Within k, First)
          else match p with
               | Within j => if continuation line then (Within j, More j) else (Between, Other)
               | _ => (Between, Other)
               end
      end
  end.

Definition after_label (k : nat) (l : label) : nat := match l with First => S k | _ => k end.

(** The continuation lines before the next item, and the items from there on. *)
Fixpoint items (p : place) (k : nat) (lines : list string) : list string * list (list string) :=
  match lines with
  | [] => ([], [])
  | line :: lines' =>
      let '(p', l) := classify p k line in
      let '(more, its) := items p' (after_label k l) lines' in
      match l with
      | Other => ([], its)
      | First => ([], (line :: more) :: its)
      | More _ => (line :: more, its)
      end
  end.

(** The lines outside of the items. *)
Fixpoint others (p : place) (k : nat) (lines : list string) : list string :=
  match lines with
  | [] => []
  | line :: lines' =>
      let '(p', l) := classify p k line in
      let ls := others p' (after_label k l) lines' in
      match l with Other => line :: ls | _ => ls end
  end.

Definition other_lines (body : string) : list string := others Outside 0 (splitlines body).

(** The labels of the lines; a first line carries the number of its item. *)
Fixpoint owners (p : place) (k : nat) (lines : list string) : list (option (nat * bool)) :=
  match lines with
  | [] => []
  | line :: lines' =>
      let '(p', l) := classify p k line in
      match l with Other => None | First => Some (k, true) | More j => Some (j, false) end
        :: owners p' (after_label k l) lines'
  end.

(** The ranges, read from the right: the number of continuation lines before the next item, and
    the ranges of the items from line [n] on. *)
Fixpoint ranges_from (n : nat) (p : place) (k : nat) (lines : list string) : nat * list (nat * nat) :=
  match lines with
  | [] => (0%nat, [])
  | line :: lines' =>
      let '(p', l) := classify p k line in
      let '(c, rs) := ranges_from (S n) p' (after_label k l) lines' in
      match l with
      | Other => (0%nat, rs)
      | First => (0%nat, (n, (n + c)%nat) :: rs)
      | More _ => (S c, rs)
      end
  end.

(** The place of a scan, which has not counted the open item among its ranges. *)
Definition scan_place (sc : scan) : place :=
  if in_section sc then match sc_start sc with Some _ => Within (length (sc_ranges sc)) | None => Between end
  else Outside.
Definition begun (sc : scan) : nat :=
  (length (sc_ranges sc) + match sc_start sc with Some _ => 1 | None => 0 end)%nat.

(** An open item lies in the section, and began before line [n]. *)
Definition scan_ok (n : nat) (sc : scan) : Prop :=
  match sc_start sc with Some s => in_section sc = true /\ (s < n)%nat | None => True end.

Definition finished (n : nat) (sc : scan) (rest : nat * list (nat * nat)) : list (nat * nat) :=
  match sc_start sc with
  | Some s => sc_ranges sc ++ (s, (n - 1 + rest.1)%nat) :: rest.2
  | None => sc_ranges sc ++ rest.2
  end.

Lemma scan_line_spec n sc line rest :
  scan_ok n sc ->
  let '(p', l) := classify (scan_place sc) (begun sc) line in
  let sc' := scan_line sc (n, line) in
  scan_ok (S n) sc' /\ scan_place sc' = p' /\ begun sc' = after_label (begun sc) l /\
  finished (S n) sc' rest
  = finished n sc match l with
                  | Other => (0%nat, rest.2)
                  | First => (0%nat, (n, (n + rest.1)%nat) :: rest.2)
                  | More _ => (S rest.1, rest.2)
                  end.
Proof.
  destruct sc as [rs [] [s|]]; intros Hok; unfold scan_line, classify, scan_place, begun, finished, scan_ok, closed_at in *; cbn in *;
    destruct (heading line) as [h|]; cbn; try (destruct (opens_section h)); cbn;
    try (destruct (check line)); cbn; try (destruct (continuation line)); cbn;
    repeat split; rewrite ?length_app, <- ?app_assoc; cbn; try lia; try done.
  all: try (destruct Hok; done).
  all: repeat (f_equal; try lia).
Qed.

Lemma scan_all_spec lines n sc :
  scan_ok n sc ->
  closed_at (n + length lines) (foldl scan_line sc (imap (fun i line => ((n + i)%nat, line)) lines))
  = finished n sc (ranges_from n (scan_place sc) (begun sc) lines).
Proof.
  revert n sc. induction lines as [|line lines IH]; intros n sc Hok.
  - unfold closed_at, finished. cbn. rewrite Nat.add_0_r.
    destruct (sc_start sc); [by rewrite Nat.add_0_r|by rewrite app_nil_r].
  - cbn [imap foldl length ranges_from]. rewrite Nat.add_0_r.
    rewrite (imap_ext _ (fun i line => ((S n + i)%nat, line))) by (intros; cbn; f_equal; lia).
    pose proof (scan_line_spec n sc line) as Hstep.
    destruct (classify _ _ line) as [p' l]. 
    specialize (Hstep (ranges_from (S n) p' (after_label (begun sc) l) lines) Hok) as (Hok' & Hp & Hb & Hf).
    rewrite <- Nat.add_succ_comm, (IH (S n)) by done.
    rewrite Hp, Hb, Hf. by destruct (ranges_from _ _ _ _), l.
Qed.

Lemma criterion_ranges_spec lines : criterion_ranges lines = (ranges_from 0 Outside 0 lines).2.
Proof. exact (scan_all_spec lines 0 (Scan [] false None) I). Qed.

(** The ranges cut the items out of the lines. *)
Definition cut (lines : list string) (r : nat * nat) : list string := map (line_at lines) (seq r.1 (S r.2 - r.1)).

Lemma cut_app l1 l2 s e :
  map (line_at (l1 ++ l2)) (seq (length l1 + s) e) = map (line_at l2) (seq s e).
Proof.
  revert s. induction e as [|e IH]; intros s; [done|]. cbn. rewrite <- Nat.add_succ_r, IH. f_equal.
  unfold line_at. by rewrite lookup_app_r, Nat.add_comm, Nat.add_sub by lia.
Qed.

Lemma items_spec lines pre p k :
  let '(c, rs) := ranges_from (length pre) p k lines in
  let '(more, its) := items p k lines in
  map (line_at (pre ++ lines)) (seq (length pre) c) = more
  /\ map (cut (pre ++ lines)) rs = its
  /\ Forall (fun r => length pre <= r.1 <= r.2)%nat rs.
Proof.
  revert pre p k. induction lines as [|line lines IH]; intros pre p k; cbn [ranges_from items]; [done|].
  destruct (classify p k line) as [p' l]. specialize (IH (pre ++ [line])%list p' (after_label k l)).
  rewrite length_app, Nat.add_comm, <- app_assoc in IH. cbn [length app Nat.add] in IH.
  destruct (ranges_from _ _ _ lines) as [c rs], (items _ _ lines) as [more its].
  destruct IH as (Hmore & Hits & Hle).
  assert (Hl : line_at (pre ++ line :: lines)%list (length pre) = line).
  { unfold line_at. by rewrite list_lookup_middle. }
  assert (Hw : Forall (fun r => length pre <= r.1 <= r.2)%nat rs)
    by (eapply Forall_impl; [exact Hle|]; cbn; lia).
  destruct l; [done| |].
  - repeat split; [|constructor; [cbn; lia|done]].
    cbn [map]. rewrite Hits. f_equal. unfold cut. cbn [fst snd].
    replace (S (length pre + c) - length pre)%nat with (S c) by lia. cbn. by rewrite Hl, Hmore.
  - repeat split; [|done|done]. cbn. by rewrite Hl, Hmore.
Qed.

Lemma parse_criteria_items body :
  parse_criteria body = map item_text (items Outside 0 (splitlines body)).2.
Proof.
  unfold parse_criteria. rewrite criterion_ranges_spec.
  pose proof (items_spec (splitlines body) [] Outside 0) as H. cbn [app length] in H.
  destruct (ranges_from _ _ _ _) as [c rs], (items _ _ _) as [more its]. destruct H as (_ & <- & _).
  cbn [snd]. rewrite map_map. apply map_ext. by intros [s e].
Qed.

(** ** Lemmas: the owner of a line *)

Definition owner_from (k : nat) (p : place) (o : option (nat * bool)) : Prop :=
  match o with
  | None => True
  | Some (j, true) => (k <= j)%nat
  | Some (j, false) => (k <= j)%nat \/ p = Within j
  end.

Lemma classify_spec p k line :
  let '(p', l) := classify p k line in
  match l with
  | Other => forall j, p' <> Within j
  | First => p' = Within k
  | More j => p = Within j /\ p' = Within j
  end.
Proof.
  unfold classify. destruct (heading line); [by destruct (opens_section _)|].
  destruct p; [done| |]; destruct (is_some _); try done. by destruct (continuation line).
Qed.

Lemma owners_from lines p k o : o ∈ owners p k lines -> owner_from k p o.
Proof.
  revert p k. induction lines as [|line lines IH]; intros p k; cbn [owners]; [by rewrite elem_of_nil|].
  pose proof (classify_spec p k line) as Hc. destruct (classify p k line) as [p' l].
  rewrite elem_of_cons. intros [->|Ho].
  - destruct l; cbn; [done|lia|right; apply Hc].
  - apply IH in Ho. destruct o as [[j []]|]; cbn in *; [|destruct Ho as [Ho|Ho]|done];
      destruct l; cbn in *; try (left; lia); try lia.
    + by apply Hc in Ho.
    + left. rewrite Hc in Ho. injection Ho as ->. lia.
    + right. destruct Hc as [-> Hc]. congruence.
Qed.

Lemma owners_fresh lines p k i j b :
  owners p k lines !! i = Some (Some (j, b)) -> (j < k)%nat -> b = false /\ p = Within j.
Proof.
  intros H Hj. apply list_elem_of_lookup_2, owners_from in H. destruct b; cbn in H; [lia|].
  destruct H; [lia|done].
Qed.

(** An item's first line and its continuation lines, by their positions. *)
Lemma ranges_owners lines n p k :
  (forall j, p = Within j -> (j < k)%nat) ->
  let '(c, rs) := ranges_from n p k lines in
  let os := owners p k lines in
  (forall j i, p = Within j -> os !! i = Some (Some (j, false)) <-> (i < c)%nat) /\
  (forall m s e, rs !! m = Some (s, e) -> forall i,
     (os !! i = Some (Some ((k + m)%nat, true)) <-> (n + i)%nat = s) /\
     (os !! i = Some (Some ((k + m)%nat, false)) <-> (s < n + i <= e)%nat)).
Proof.
  revert n p k. induction lines as [|line lines IH]; intros n p k Hp; cbn [ranges_from owners].
  { split; [|done]. intros j i _. split; [done|lia]. }
  pose proof (classify_spec p k line) as Hc. destruct (classify p k line) as [p' l].
  assert (Hp' : forall j, p' = Within j -> (j < after_label k l)%nat).
  { intros j ->. destruct l; cbn in *; [by destruct (Hc j)| |].
    - injection Hc as ->. lia.
    - destruct Hc as [-> [= ->]]. auto. }
  pose proof (items_spec lines (replicate (S n) "") p' (after_label k l)) as Hle.
  rewrite length_replicate in Hle.
  specialize (IH (S n) p' (after_label k l) Hp').
  destruct (ranges_from _ _ _ lines) as [c rs], (items _ _ lines) as [more its].
  destruct Hle as (_ & _ & Hle). destruct IH as [IHc IHr].
  assert (Hfresh : forall i j b, (j < k)%nat -> p' <> Within j ->
    owners p' (after_label k l) lines !! i <> Some (Some (j, b))).
  { intros i j b Hj Hne H. apply owners_fresh in H; [by destruct H|]. destruct l; cbn; lia. }
  destruct l; cbn [after_label] in *.
  - split.
    + intros j [|i] Hj; cbn; [split; [done|lia]|]. split; [|lia]. intros H. by apply Hfresh in H; auto.
    + intros m s e Hm. pose proof (IHr m s e Hm) as Hm'. apply list_elem_of_lookup_2 in Hm.
      rewrite Forall_forall in Hle. apply Hle in Hm. cbn in Hm.
      intros [|i]; cbn; [split; (split; [done|lia])|]. rewrite Nat.add_succ_r. apply (Hm' i).
  - subst p'. split.
    + intros j [|i] Hj; cbn; [split; [done|lia]|]. split; [|lia]. intros H. apply Hfresh in H; [done|auto|].
      intros [= ->]. apply Hp in Hj. lia.
    + intros [|m] s e Hm; cbn in Hm.
      * injection Hm as <- <-. rewrite Nat.add_0_r. intros [|i]; cbn.
        { split; (split; [intros; lia || done|intros; try done; lia]). }
        split.
        { split; [|lia]. intros H. apply owners_fresh in H; [by destruct H|lia]. }
        rewrite (IHc k i eq_refl). lia.
      * pose proof (IHr m s e Hm) as Hm'. apply list_elem_of_lookup_2 in Hm.
        rewrite Forall_forall in Hle. apply Hle in Hm. cbn in Hm. rewrite Nat.add_succ_r.
        intros [|i]; cbn; [split; (split; [intros [=]; lia|lia])|]. rewrite Nat.add_succ_r. apply (Hm' i).
  - destruct Hc as [-> ->]. split.
    + intros j i [= ->]. destruct i as [|i]; cbn; [split; [lia|done]|]. rewrite (IHc j i eq_refl). lia.
    + specialize (Hp item eq_refl). intros m s e Hm. pose proof (IHr m s e Hm) as Hm'.
      apply list_elem_of_lookup_2 in Hm. rewrite Forall_forall in Hle. apply Hle in Hm. cbn in Hm.
      intros [|i]; cbn; [split; (split; [intros [=]; lia|lia])|]. rewrite Nat.add_succ_r. apply (Hm' i).
Qed.

(** ** Lemmas: checklist lines *)

Lemma span_app p a b : str_all p a = true -> first_ok p b = true -> span p (a ++ b) = (a, b).
Proof.
  intros Ha Hb. induction a as [|c a IH].
  - rewrite str_app_nil_l. destruct b as [|c b]; [done|]. cbn in Hb |- *. by destruct (p c).
  - cbn in Ha. apply andb_true_iff in Ha as [Hc Ha]. rewrite str_app_cons. cbn. by rewrite Hc, IH.
Qed.

Lemma span_spec p s a b : span p s = (a, b) -> s = a ++ b /\ str_all p a = true /\ first_ok p b = true.
Proof.
  revert a b. induction s as [|c s IH]; cbn; intros a b H; [by injection H as <- <-|].
  destruct (p c) eqn:Hc.
  - destruct (span p s) as [a' b'] eqn:Hs. injection H as <- <-. destruct (IH _ _ eq_refl) as (-> & Ha & Hb).
    by rewrite str_app_cons; cbn; rewrite Hc, Ha, Hb.
  - injection H as <- <-. cbn. by rewrite Hc.
Qed.

(** A checklist line keeps its prefix under any text that does not start with white space. *)
Lemma check_prefix_text line prefix rest text :
  check_prefix line = Some (prefix, rest) -> first_ok is_space text = true ->
  check_prefix (prefix ++ text) = Some (prefix, text).
Proof.
  unfold check_prefix. intros H Ht.
  destruct (span is_space line) as [indent l1] eqn:H1. destruct l1 as [|b l2]; [done|].
  destruct (span is_space l2) as [gap l3] eqn:H2. destruct l3 as [|o [|m [|c l4]]]; try done.
  destruct (span is_space l4) as [gap' rest'] eqn:H3.
  apply span_spec in H1 as (_ & Hi & Hb), H2 as (_ & Hg & Ho), H3 as (_ & Hg' & _).
  destruct (_ && _) eqn:Hok; [|done]. injection H as <- <-.
  rewrite ?str_app_assoc, ?str_app_cons.
  rewrite (span_app is_space indent) by done. rewrite (span_app is_space gap) by done.
  rewrite (span_app is_space gap') by done. by rewrite Hok.
Qed.

Lemma check_prefix_line line prefix text : check_prefix line = Some (prefix, text) -> line = prefix ++ text.
Proof.
  unfold check_prefix.
  destruct (span is_space line) as [indent l1] eqn:H1. destruct l1 as [|b l2]; [done|].
  destruct (span is_space l2) as [gap l3] eqn:H2. destruct l3 as [|o [|m [|c l4]]]; try done.
  destruct (span is_space l4) as [gap' rest'] eqn:H3.
  apply span_spec in H1 as (-> & _ & _), H2 as (-> & _ & _), H3 as (-> & _ & _).
  destruct (_ && _); [|done]. intros [= <- <-].
  by rewrite ?str_app_assoc, ?str_app_cons.
Qed.

(** No checklist line is a heading. *)
Lemma check_not_heading line : is_some (check_prefix line) = true -> heading line = None.
Proof.
  unfold check_prefix, heading. destruct line as [|c line]; [done|]. cbn [span].
  destruct (decide (c = "#"%char)) as [->|Hc].
  - change (is_space "#") with false. cbn. destruct (span is_space line) as [gap l3].
    destruct l3 as [|o [|m [|d l4]]]; try done. by destruct (span is_space l4).
  - unfold is_hash at 1. rewrite bool_decide_false by done. done.
Qed.

Lemma check_prefix_of_check line : is_some (check line) = true -> exists prefix text,
  check_prefix line = Some (prefix, text).
Proof. unfold check. destruct (check_prefix line) as [[]|]; [eauto|done]. Qed.

Definition trimmed (text : string) : Prop :=
  nonempty text = true /\ first_ok is_space text = true /\ last_ok is_space text = true.

Lemma strip_trimmed s : nonempty (strip s) = true -> trimmed (strip s).
Proof.
  intros H. split; [done|]. split; [apply first_ok_rstrip, first_ok_lstrip|apply last_ok_rstrip].
Qed.

Lemma strip_id text : trimmed text -> strip text = text.
Proof. intros (_ & Hf & Hl). unfold strip, lstrip, rstrip. by rewrite lstrip_by_id, rstrip_by_id. Qed.

(** A rewritten first line is a first line whose item is exactly the new text. *)
Lemma classify_rewritten p k line prefix rest text :
  check_prefix line = Some (prefix, rest) -> classify p k line = (Within k, First) -> trimmed text ->
  classify p k (prefix ++ text) = (Within k, First) /\ item_text [prefix ++ text] = text.
Proof.
  intros Hl Hp (Hn & Hf & Hlast).
  assert (Hc : check_prefix (prefix ++ text) = Some (prefix, text)) by (by eapply check_prefix_text).
  assert (Ht : check (prefix ++ text) = Some text).
  { unfold check. rewrite Hc, Hn. unfold rstrip. by rewrite rstrip_by_id. }
  split.
  - unfold classify in *. rewrite check_not_heading by (by rewrite Hc).
    destruct (heading line); [by destruct (opens_section _)|]. destruct p; [done| |]; by rewrite Ht.
  - cbn. rewrite Ht. cbn. by apply strip_id.
Qed.

Lemma first_check p k line : (classify p k line).2 = First -> is_some (check line) = true.
Proof.
  unfold classify. destruct (heading line); [done|]. destruct p; [done| |];
    destruct (is_some (check line)); try done; by destruct (continuation line).
Qed.

(** ** Amended lines *)

Section amended.
Context (am : nat -> option string).

Definition rewritten (k : nat) (line : string) : string :=
  match am k, check_prefix line with Some text, Some (prefix, _) => prefix ++ text | _, _ => line end.

(** What becomes of a line: the first line of an amended item is rewritten, the lines that
    continue it go, everything else stays. *)
Fixpoint amended (p : place) (k : nat) (lines : list string) : list string :=
  match lines with
  | [] => []
  | line :: lines' =>
      let '(p', l) := classify p k line in
      let ls := amended p' (after_label k l) lines' in
      match l with
      | Other => line :: ls
      | First => rewritten k line :: ls
      | More j => match am j with Some _ => ls | None => line :: ls end
      end
  end.

Hypothesis am_trimmed : forall k text, am k = Some text -> trimmed text.

Lemma classify_kept p k line :
  (classify p k line).2 = First -> classify p k (rewritten k line) = classify p k line.
Proof.
  intros H. destruct (check_prefix_of_check line (first_check _ _ _ H)) as (prefix & text & Hp).
  unfold rewritten. rewrite Hp. destruct (am k) as [t|] eqn:Ht; [|done].
  pose proof (classify_spec p k line) as Hc. destruct (classify p k line) as [p' l] eqn:E. cbn in H. subst l p'.
  by eapply classify_rewritten; eauto.
Qed.

Lemma others_amended lines p k : others p k (amended p k lines) = others p k lines.
Proof.
  revert p k. induction lines as [|line lines IH]; intros p k; [done|]. cbn [amended others].
  pose proof (classify_kept p k line) as Hk. pose proof (classify_spec p k line) as Hc.
  destruct (classify p k line) as [p' l] eqn:E. destruct l; cbn [others after_label].
  - rewrite E. cbn. by rewrite IH.
  - rewrite (Hk eq_refl). cbn. apply IH.
  - destruct Hc as [-> ->]. destruct (am item); [apply IH|]. cbn [others]. rewrite E. cbn. apply IH.
Qed.

Lemma items_amended lines p k :
  let '(more, its) := items p k lines in
  let '(more', its') := items p k (amended p k lines) in
  map item_text its' = imap (fun i c => default c (am (k + i)%nat)) (map item_text its)
  /\ match p with Within j => more' = match am j with Some _ => [] | None => more end | _ => True end.
Proof.
  revert p k. induction lines as [|line lines IH]; intros p k; cbn [amended items].
  { split; [done|]. destruct p; try done. by destruct (am item). }
  pose proof (classify_kept p k line) as Hk. pose proof (classify_spec p k line) as Hc.
  destruct (classify p k line) as [p' l] eqn:E. specialize (IH p' (after_label k l)).
  destruct l; cbn [after_label items] in *.
  - rewrite E. cbn. destruct (items p' k lines) as [more its], (items p' k _) as [more' its'].
    destruct IH as [IH _]. split; [exact IH|]. destruct p; try done. by destruct (am item).
  - rewrite (Hk eq_refl). cbn. subst p'. 
    destruct (items _ _ lines) as [more its], (items _ _ (amended _ _ lines)) as [more' its'].
    destruct IH as [IH IHm]. cbn [map imap]. split; [|destruct p; try done; by destruct (am item)].
    rewrite Nat.add_0_r, IH. f_equal; [|apply imap_ext; intros i c _; cbn; do 2 f_equal; lia].
    destruct (check_prefix_of_check line) as (prefix & text & Hp); [apply (first_check p k); by rewrite E|].
    unfold rewritten. rewrite Hp. subst more'. destruct (am k) as [t|] eqn:Ht; [|done].
    by eapply classify_rewritten; eauto.
  - destruct Hc as [-> ->]. destruct (am item) as [t|] eqn:Ht.
    + destruct (items _ _ lines) as [more its], (items _ _ (amended _ _ lines)) as [more' its'].
      done.
    + cbn [items]. rewrite E. cbn.
      destruct (items _ _ lines) as [more its], (items _ _ (amended _ _ lines)) as [more' its'].
      by destruct IH as [-> ->].
Qed.

(** The same, read from the owners of the lines. *)
Definition edited (o : option (nat * bool)) (line : string) : string :=
  match o with Some (k, true) => rewritten k line | _ => line end.
Definition dropped (o : option (nat * bool)) : bool :=
  match o with Some (k, false) => is_some (am k) | _ => false end.

Lemma amended_owners lines p k :
  amended p k lines
  = mjoin (zip_with (fun o line => if dropped o then [] else [edited o line]) (owners p k lines) lines).
Proof.
  revert p k. induction lines as [|line lines IH]; intros p k; [done|]. cbn [amended owners].
  destruct (classify p k line) as [p' l]. rewrite IH. destruct l; cbn; [done..|]. by destruct (am item).
Qed.
End amended.

Lemma length_owners lines p k : length (owners p k lines) = length lines.
Proof.
  revert p k. induction lines as [|line lines IH]; intros p k; [done|]. cbn [owners].
  destruct (classify p k line). cbn. by rewrite IH.
Qed.

(** ** Lemmas: the loop over the amendments *)

(** The amendment that an entry asks for, when it is one for a task with [n] criteria. *)
Definition valid_amendment (n : nat) (item : pyval) : option amendment :=
  match item with
  | PDict row =>
      index ← int_value (pget "index" row);
      let text := text_field "text" row in
      let reason := text_field "reason" row in
      if (0 <=? index) && (index <? Z.of_nat n) && nonempty text && nonempty reason
      then Some (Amendment (pget "index" row) text reason) else None
  | _ => None
  end.

(** The last text given to a criterion. *)
Definition about (k : nat) (a : amendment) : bool := bool_decide (int_value (am_index a) = Some (Z.of_nat k)).
Definition latest (applied : list amendment) (k : nat) : option string :=
  foldl (fun o a => if about k a then Some (am_text a) else o) None applied.

Lemma latest_snoc applied a k :
  latest (applied ++ [a]) k = if about k a then Some (am_text a) else latest applied k.
Proof. unfold latest. by rewrite foldl_app. Qed.

Lemma latest_given (P : string -> Prop) applied k text :
  Forall (fun a => P (am_text a)) applied -> latest applied k = Some text -> P text.
Proof.
  induction applied as [|a applied IH] using rev_ind; [done|]. rewrite Forall_app, Forall_singleton.
  intros [Ha Hl]. rewrite latest_snoc. destruct (about k a); [by intros [= <-]|auto].
Qed.

Lemma valid_amendment_spec n item a :
  valid_amendment n item = Some a ->
  exists k, int_value (am_index a) = Some (Z.of_nat k) /\ (k < n)%nat /\ trimmed (am_text a)
            /\ nonempty (am_reason a) = true.
Proof.
  destruct item; try done. cbn. destruct (int_value _) as [i|] eqn:Hi; [|done]. cbn.
  destruct (_ && _) eqn:Hc; [|done]. intros [= <-]. cbn. rewrite Hi.
  rewrite !andb_true_iff, Z.leb_le, Z.ltb_lt in Hc. destruct Hc as [[[H0 Hn] Ht] Hr].
  exists (Z.to_nat i). rewrite Z2Nat.id by done. repeat split; [lia|..|done]; by apply strip_trimmed.
Qed.

Lemma owners_first lines p k i j :
  owners p k lines !! i = Some (Some (j, true)) ->
  exists line, lines !! i = Some line /\ is_some (check line) = true.
Proof.
  revert p k i. induction lines as [|line lines IH]; intros p k i; [done|]. cbn [owners].
  pose proof (first_check p k line) as Hf. destruct (classify p k line) as [p' l].
  destruct i as [|i]; cbn; [|by apply IH]. intros H. exists line. split; [done|]. by destruct l; auto.
Qed.

(** The invariant of the loop: which lines are rewritten, and which are to be dropped. *)
Definition edit_ok (lines : list string) (st : edit) : Prop :=
  let os := owners Outside 0 lines in
  Forall (fun a => trimmed (am_text a)) (ed_applied st) /\
  ed_lines st = zip_with (edited (latest (ed_applied st))) os lines /\
  forall n, n ∈ ed_drop st <-> exists o, os !! n = Some o /\ dropped (latest (ed_applied st)) o = true.

Lemma rewritten_prefix am k line text :
  is_some (check line) = true -> (forall t, am k = Some t -> trimmed t) ->
  exists prefix rest rest', check_prefix line = Some (prefix, rest)
    /\ check_prefix (rewritten am k line) = Some (prefix, rest') /\
    (am k = Some text -> rewritten am k line = prefix ++ text).
Proof.
  intros Hc Ht. destruct (check_prefix_of_check line Hc) as (prefix & rest & Hp).
  exists prefix, rest. unfold rewritten. rewrite Hp. destruct (am k) as [t|] eqn:Ham; [|by exists rest].
  exists t. split; [done|]. split; [|by intros [= ->]].
  eapply check_prefix_text; [exact Hp|]. by destruct (Ht _ eq_refl) as (_ & ? & _).
Qed.

(** The [k]-th range, in terms of the owners of the lines. *)
Lemma range_owners (lines : list string) (k s e : nat) :
  criterion_ranges lines !! k = Some (s, e) ->
  let os := owners Outside 0 lines in
  (forall i, os !! i = Some (Some (k, true)) <-> i = s) /\
  (forall i, os !! i = Some (Some (k, false)) <-> (s < i <= e)%nat) /\
  exists line, lines !! s = Some line /\ is_some (check line) = true.
Proof.
  intros HR. rewrite criterion_ranges_spec in HR.
  pose proof (ranges_owners lines 0 Outside 0 ltac:(done)) as Hro.
  destruct (ranges_from _ _ _ _) as [c rs]. destruct Hro as [_ Hro]. specialize (Hro k s e HR).
  cbn [Nat.add] in Hro. split; [apply Hro|]. split; [apply Hro|].
  exact (owners_first _ _ _ _ _ (proj2 (proj1 (Hro s)) eq_refl)).
Qed.

(** What one more amendment, of criterion [k], does to the edit. *)
Section one_amendment.
Context (lines : list string) (st : edit) (k s e : nat) (a : amendment).
Hypothesis st_ok : edit_ok lines st.
Hypothesis range : criterion_ranges lines !! k = Some (s, e).
Hypothesis a_about : int_value (am_index a) = Some (Z.of_nat k).
Hypothesis a_text : trimmed (am_text a).

Let applied' := (ed_applied st ++ [a])%list.

Lemma latest_after j : latest applied' j = if decide (j = k) then Some (am_text a) else latest (ed_applied st) j.
Proof.
  unfold applied'. rewrite latest_snoc. unfold about. rewrite a_about. destruct (decide (j = k)) as [->|Hne].
  - by rewrite bool_decide_true.
  - rewrite bool_decide_false; [done|]. intros [=]. lia.
Qed.

Lemma amended_prefix : exists prefix rest line,
  lines !! s = Some line /\ check_prefix line = Some (prefix, rest) /\
  is_some (check_prefix (line_at (ed_lines st) s)) = true /\
  fst <$> check_prefix (line_at (ed_lines st) s) = Some prefix.
Proof.
  destruct (range_owners _ _ _ _ range) as (Hs & _ & line & Hline & Hc). destruct st_ok as (Happ & -> & _).
  destruct (rewritten_prefix (latest (ed_applied st)) k line "" Hc) as (prefix & rest & rest' & Hp & Hp' & _).
  { intros t. by apply latest_given. }
  exists prefix, rest, line. unfold line_at.
  rewrite lookup_zip_with, (proj2 (Hs s) eq_refl), Hline.
  cbn [mbind option_bind edited default from_option]. unfold Datatypes.id. by rewrite Hp'.
Qed.

Lemma edit_ok_after prefix rest line :
  lines !! s = Some line -> check_prefix line = Some (prefix, rest) ->
  edit_ok lines (Edit (<[s := prefix ++ am_text a]> (ed_lines st)) applied' (ed_drop st ++ seq (S s) (e - s))).
Proof.
  destruct (range_owners _ _ _ _ range) as (Hs & He & _). destruct st_ok as (Happ & Hlines & Hdrop).
  intros Hline Hp. unfold edit_ok. cbn [ed_lines ed_applied ed_drop]. split; [|split].
  - unfold applied'. by rewrite Forall_app, Forall_singleton.
  - rewrite Hlines. apply list_eq. intros i. rewrite lookup_zip_with. destruct (decide (i = s)) as [->|Hne].
    + rewrite list_lookup_insert_eq by (rewrite length_zip_with, length_owners; apply lookup_lt_Some in Hline; lia).
      rewrite (proj2 (Hs s) eq_refl), Hline. cbn. f_equal. unfold rewritten. by rewrite latest_after, decide_True, Hp.
    + rewrite list_lookup_insert_ne, lookup_zip_with by done.
      destruct (owners _ _ _ !! i) as [o|] eqn:Ho; [|done]. cbn. destruct (lines !! i); [|done]. cbn. f_equal.
      destruct o as [[j []]|]; try done. cbn. unfold rewritten. rewrite latest_after.
      rewrite decide_False; [done|]. intros ->. by apply Hs in Ho.
  - intros n. rewrite elem_of_app, elem_of_seq, Hdrop. split.
    + intros [(o & Ho & Hd)|Hr].
      * exists o. split; [done|]. destruct o as [[j []]|]; try done. cbn in *. rewrite latest_after.
        by destruct (decide (j = k)).
      * exists (Some (k, false)). split; [apply He; lia|]. cbn. by rewrite latest_after, decide_True.
    + intros (o & Ho & Hd). destruct o as [[j []]|]; try done. cbn in Hd. rewrite latest_after in Hd.
      destruct (decide (j = k)) as [->|_]; [right; apply He in Ho; lia|left; by exists (Some (j, false))].
Qed.
End one_amendment.

Lemma amend_one_spec lines st item :
  edit_ok lines st ->
  let st' := amend_one (criterion_ranges lines) st item in
  edit_ok lines st' /\
  ed_applied st' = (ed_applied st ++ option_list (valid_amendment (length (criterion_ranges lines)) item))%list.
Proof.
  intros Hok. destruct item as [| | | | |row|]; try (cbn; rewrite app_nil_r; done).
  destruct (valid_amendment _ (PDict row)) as [a|] eqn:Hv; cbn [amend_one].
  - pose proof (valid_amendment_spec _ _ _ Hv) as (k & Hk & Hlt & Ht & _). cbn in Hv.
    destruct (int_value _) as [index|] eqn:Hi; [|done]. cbn in Hv. destruct (_ && _); [|done].
    injection Hv as <-. cbn in Hk, Ht |- *. rewrite Hi in Hk. injection Hk as ->. rewrite Nat2Z.id.
    destruct (criterion_ranges lines !! k) as [[s e]|] eqn:HR; [|apply lookup_ge_None in HR; lia].
    destruct (amended_prefix lines st k s e Hok HR) as (prefix & rest & line & Hline & Hp & Hs & Hf).
    destruct (check_prefix (line_at (ed_lines st) s)) as [[prefix' rest']|]; [|done].
    injection Hf as ->. split; [|done].
    by eapply (edit_ok_after lines st k s e (Amendment _ _ _)).
  - cbn in Hv. cbn [option_list]. rewrite app_nil_r.
    destruct (int_value _) as [index|]; [|done]. cbn in Hv. by destruct (_ && _).
Qed.

Lemma amend_all_spec lines items :
  let R := criterion_ranges lines in
  let st := foldl (amend_one R) (Edit lines [] []) items in
  edit_ok lines st /\ ed_applied st = omap (valid_amendment (length R)) items.
Proof.
  induction items as [|item items [IH IHa]] using rev_ind; cbn zeta in *.
  - split; [|done]. split; [done|]. cbn. split.
    + apply list_eq. intros i. rewrite lookup_zip_with.
      destruct (lines !! i) as [line|] eqn:Hl.
      * destruct (lookup_lt_is_Some_2 (owners Outside 0 lines) i) as [o ->];
          [rewrite length_owners; by apply lookup_lt_Some in Hl|]. by destruct o as [[? []]|].
      * by destruct (owners _ _ _ !! i).
    + intros n. split; [by intros ?%elem_of_nil|]. intros (o & _ & Ho). by destruct o as [[? []]|].
  - rewrite foldl_app. cbn [foldl]. destruct (amend_one_spec lines _ item IH) as [Hok Ha].
    split; [done|]. rewrite Ha, IHa, omap_app. cbn. by destruct (valid_amendment _ item).
Qed.

(** The lines that are left are the amended ones. *)
Lemma undropped_spec lines st :
  edit_ok lines st -> undropped st = amended (latest (ed_applied st)) Outside 0 lines.
Proof.
  intros (_ & Hl & Hd). rewrite amended_owners. unfold undropped. f_equal. apply list_eq. intros i.
  rewrite list_lookup_imap, Hl, !lookup_zip_with. specialize (Hd i).
  destruct (owners _ _ _ !! i) as [o|] eqn:Ho; [|done]. cbn. destruct (lines !! i) as [line|]; [|done]. cbn.
  f_equal. destruct (dropped _ o) eqn:Ho'.
  - rewrite bool_decide_true; [done|]. apply Hd. eauto.
  - rewrite bool_decide_false; [done|]. intros (o' & Ho'' & ?)%Hd. congruence.
Qed.

(** ** Lemmas: splitting the joined lines again *)

Lemma splitlines_cons line cur rest :
  no_line_end line = true -> splitlines_from cur (line ++ NL ++ rest) = (cur ++ line) :: splitlines_from "" rest.
Proof.
  revert cur. induction line as [|c line IH]; intros cur H.
  - rewrite str_app_nil_l, str_app_nil_r. change (NL ++ rest) with (String newline rest). cbn. by destruct rest.
  - cbn in H. apply andb_true_iff in H as [Hc H]. apply negb_true_iff in Hc.
    rewrite str_app_cons. cbn [splitlines_from]. rewrite Hc, (IH _ H). by rewrite str_app_assoc.
Qed.

Lemma splitlines_last_line line cur :
  no_line_end line = true -> splitlines_from cur line = if nonempty (cur ++ line) then [cur ++ line] else [].
Proof.
  revert cur. induction line as [|c line IH]; intros cur H.
  - by rewrite str_app_nil_r.
  - cbn in H. apply andb_true_iff in H as [Hc H]. apply negb_true_iff in Hc. cbn [splitlines_from].
    rewrite Hc, (IH _ H). by rewrite str_app_assoc.
Qed.

Definition blanks (ls : list string) : Prop := Forall (fun l => l = "") ls.

(** Joining and splitting loses at most a last empty line. *)
Lemma splitlines_join ls (final : bool) :
  Forall (fun l => no_line_end l = true) ls -> (final = true -> ls <> []) ->
  exists blank, blanks blank /\ ls = (splitlines (join NL ls ++ (if final then NL else "")) ++ blank)%list.
Proof.
  unfold splitlines. intros H. induction H as [|line ls Hl Hls IH]; intros Hf.
  - exists []. split; [constructor|]. destruct final; [by destruct (Hf eq_refl)|done].
  - destruct ls as [|line' ls].
    + cbn [join]. destruct final.
      * exists []. split; [constructor|]. by rewrite splitlines_one.
      * rewrite str_app_nil_r, splitlines_last_line, str_app_nil_l by done. destruct (nonempty line) eqn:Hn.
        -- exists []. split; [constructor|done].
        -- exists [line]. destruct line; [|done]. split; [by repeat constructor|done].
    + destruct IH as (blank & Hb & IH); [done|]. exists blank. split; [done|].
      change (join NL (line :: line' :: ls)) with (line ++ NL ++ join NL (line' :: ls)).
      rewrite !str_app_assoc, splitlines_cons, str_app_nil_l by done. cbn [app]. by rewrite <- IH.
Qed.

Lemma no_line_end_app a b : no_line_end (a ++ b) = no_line_end a && no_line_end b.
Proof. apply str_all_app. Qed.

Lemma splitlines_lines s cur :
  no_line_end cur = true -> Forall (fun l => no_line_end l = true) (splitlines_from cur s).
Proof.
  remember (String.length s) as n eqn:Hn. revert s cur Hn. induction (lt_wf n) as [n _ IH]; intros s cur Hn Hc.
  destruct s as [|c s]; cbn [splitlines_from]; [destruct (nonempty cur); by repeat constructor|].
  destruct (is_line_end c) eqn:He.
  - destruct s as [|c' s]; [by repeat constructor|]. destruct (_ && _); constructor; try done.
    + eapply IH; [|done|done]. subst; cbn; lia.
    + eapply IH; [|done|done]. subst; cbn; lia.
  - eapply IH; [|done|]; [subst; cbn; lia|]. rewrite no_line_end_app, Hc. cbn. by rewrite He.
Qed.

Lemma amended_lines am lines p k :
  Forall (fun l => no_line_end l = true) lines -> (forall j text, am j = Some text -> no_line_end text = true) ->
  Forall (fun l => no_line_end l = true) (amended am p k lines).
Proof.
  intros Hl Ham. revert p k. induction Hl as [|line lines Hline _ IH]; intros p k; [constructor|].
  cbn [amended]. destruct (classify p k line) as [p' []]; [by constructor| |].
  - constructor; [|done]. unfold rewritten. destruct (am k) as [t|] eqn:Ht; [|done].
    destruct (check_prefix line) as [[prefix rest]|] eqn:Hp; [|done]. apply check_prefix_line in Hp. subst line.
    rewrite no_line_end_app in *. apply andb_true_iff in Hline as [-> _]. by apply Ham in Ht.
  - destruct (am item); [done|by constructor].
Qed.

Lemma splitlines_nonempty c s : splitlines (String c s) <> [].
Proof.
  assert (H : forall s cur, nonempty cur = true -> splitlines_from cur s <> []).
  { intros s'. induction s' as [|d s' IH]; intros cur Hc; cbn; [by rewrite Hc|].
    destruct (is_line_end d); [by destruct s'; [|destruct (_ && _)]|]. apply IH. by destruct cur. }
  unfold splitlines. cbn. destruct (is_line_end c); [by destruct s; [|destruct (_ && _)]|]. by apply H.
Qed.

Lemma amended_nonempty am lines : lines <> [] -> amended am Outside 0 lines <> [].
Proof.
  destruct lines as [|line lines]; [done|]. intros _. cbn [amended].
  pose proof (classify_spec Outside 0 line) as Hc. destruct (classify _ _ line) as [p' []]; [done..|].
  by destruct Hc.
Qed.

Lemma items_blanks lines blank p k : blanks blank -> items p k (lines ++ blank) = items p k lines.
Proof.
  intros Hb. revert p k. induction lines as [|line lines IH]; intros p k.
  - cbn [app]. revert p k. induction Hb as [|l blank -> _ IHb]; intros p k; [done|]. cbn.
    destruct p; cbn; by rewrite IHb.
  - cbn [app items]. destruct (classify p k line) as [p' l]. by rewrite IH.
Qed.

Lemma others_blanks lines blank p k : blanks blank -> others p k (lines ++ blank) = (others p k lines ++ blank)%list.
Proof.
  intros Hb. revert p k. induction lines as [|line lines IH]; intros p k.
  - cbn [app]. revert p k. induction Hb as [|l blank -> _ IHb]; intros p k; [done|]. cbn.
    destruct p; cbn; by rewrite IHb.
  - cbn [app others]. destruct (classify p k line) as [p' []]; by rewrite IH.
Qed.

Lemma length_ranges lines p k n : length (ranges_from n p k lines).2 = length (items p k lines).2.
Proof.
  revert n p k. induction lines as [|line lines IH]; intros n p k; [done|]. cbn [ranges_from items].
  destruct (classify p k line) as [p' l]. specialize (IH (S n) p' (after_label k l)).
  destruct (ranges_from _ _ _ _), (items _ _ _), l; cbn in *; by rewrite ?IH.
Qed.

(** ** Lemmas: matching evidence *)

(** A row that carries neither evidence nor [not_done]. *)
Definition lacking (w : dict pyval) : bool :=
  negb (truthy (pget "not_done" w)) && negb (nonempty (text_field "evidence" w)).

Lemma elem_of_gaps criteria verified c :
  c ∈ evidence_gaps criteria verified <->
  exists i, criteria !! i = Some c /\ lacking (match_entry (dicts verified) c i) = true.
Proof.
  unfold evidence_gaps, reconcile. rewrite list_elem_of_fmap. split.
  - intros (row & -> & Hrow). apply list_elem_of_In, List.filter_In in Hrow as [Hin Hg].
    apply list_elem_of_In, elem_of_lookup_imap in Hin as (i & c & -> & Hi). by exists i.
  - intros (i & Hi & Hg). exists (reconcile_row (dicts verified) (dicts PNone) i c). split; [done|].
    apply list_elem_of_In, List.filter_In. split; [|done]. apply list_elem_of_In, elem_of_lookup_imap. by exists i, c.
Qed.

Lemma no_gaps criteria verified :
  evidence_gaps criteria verified = [] <->
  forall i c, criteria !! i = Some c -> lacking (match_entry (dicts verified) c i) = false.
Proof.
  split.
  - intros H i c Hi. apply not_true_is_false. intros Hl.
    assert (Hc : c ∈ evidence_gaps criteria verified) by (apply elem_of_gaps; by exists i).
    rewrite H in Hc. by apply elem_of_nil in Hc.
  - intros H. apply elem_of_nil_inv. intros c (i & Hi & Hl)%elem_of_gaps. by rewrite (H i c Hi) in Hl.
Qed.
(** Where some row quotes a criterion, a criterion gets the first row that quotes it. *)
Definition quoting (n : string) (e : dict pyval) : bool := bool_decide (quoted e = n).

Lemma match_quoted es c i :
  existsb quotes es = true -> nonempty (norm_text c) = true ->
  match_entry es c i = default [] (List.find (quoting (norm_text c)) es).
Proof. intros He Hc. unfold match_entry. by rewrite He, Hc. Qed.

Lemma find_app {A} (f : A -> bool) l1 l2 :
  List.find f (l1 ++ l2) = match List.find f l1 with Some x => Some x | None => List.find f l2 end.
Proof. induction l1 as [|x l1 IH]; [done|]. cbn. by destruct (f x). Qed.

Lemma find_quoting es n :
  match List.find (quoting n) es with
  | Some e => e ∈ es /\ quoted e = n
  | None => forall e, e ∈ es -> quoted e <> n
  end.
Proof.
  destruct (List.find _ es) as [e|] eqn:Hf.
  - apply find_some in Hf as [He Hq]. split; [by apply list_elem_of_In|]. by apply bool_decide_eq_true in Hq.
  - intros e He. apply list_elem_of_In in He. eapply find_none in Hf; [|exact He].
    by apply bool_decide_eq_false in Hf.
Qed.

Lemma quotes_exists es n e : e ∈ es -> quoted e = n -> nonempty n = true -> existsb quotes es = true.
Proof. intros He Hq Hn. apply existsb_exists. exists e. unfold quotes. rewrite Hq. by split; [apply list_elem_of_In|]. Qed.

(** ** Lemmas: the rows of an attestation *)

Lemma rstrip_first c s : is_space c = false -> nonempty (rstrip (String c s)) = true.
Proof. intros Hc. unfold rstrip. cbn. rewrite Hc. by destruct (rstrip_by is_space s). Qed.

Lemma attested_first result :
  attested result <> [] -> exists c s, attestation (attested result) = String c s /\ is_space c = false.
Proof.
  unfold attested. cbn [omap list_omap].
  destruct (pget "summary" result) as [| | |s| | |], (pget "notes" result) as [| | |s'| | |];
    try (by intros []); try (destruct (nonempty (strip s))); try (destruct (nonempty (strip s')));
    try (by intros []); intros _; cbn; eauto.
Qed.

Lemma normalized_row_closes result c :
  attested result <> [] -> lacking (normalized_row (attested result) c) = false.
Proof.
  intros (a & s & Ha & Hs)%attested_first. generalize dependent (attested result). intros fields Ha.
  assert (Hf : first_ok is_space (String a s) = true) by (cbn; by rewrite Hs).
  unfold lacking, normalized_row. rewrite Ha.
  change (negb (nonempty (strip (String a s))) = false). unfold strip, lstrip.
  by rewrite lstrip_by_id, rstrip_first.
Qed.

Lemma quoted_normalized fields c : quoted (normalized_row fields c) = norm_text c.
Proof. done. Qed.

Lemma dicts_app l1 l2 : dicts (PList (l1 ++ l2)) = (dicts (PList l1) ++ dicts (PList l2))%list.
Proof. cbn. by rewrite omap_app. Qed.

Lemma dicts_rows {A} (f : A -> dict pyval) l : dicts (PList (map (fun x => PDict (f x)) l)) = map f l.
Proof. cbn. induction l as [|x l IH]; [done|]. cbn. by rewrite IH. Qed.

(** What [normalize_verified] returns, when it returns something. *)
Lemma normalize_spec criteria result v :
  normalize_verified criteria result = Some v ->
  let ws := dicts (pget "verified" result) in
  let gaps := evidence_gaps criteria (pget "verified" result) in
  attested result <> [] /\ dicts v = (ws ++ map (normalized_row (attested result)) gaps)%list.
Proof.
  unfold normalize_verified. destruct (negb _); [done|]. destruct (attested result) as [|f fs] eqn:Hf; [done|].
  set (original := pget "verified" result). cbv zeta.
  assert (Hw : dicts (PList match original with PList l => l | _ => [] end) = dicts original) by (by destruct original).
  assert (Hg : evidence_gaps criteria (PList match original with PList l => l | _ => [] end)
               = evidence_gaps criteria original).
  { unfold evidence_gaps, reconcile. by rewrite Hw. }
  rewrite Hg. destruct (evidence_gaps criteria original) as [|g gs].
  - destruct original; try done. intros [= <-]. split; [done|]. by rewrite app_nil_r.
  - remember (g :: gs) as gaps. intros [= <-]. split; [done|].
    by rewrite dicts_app, (dicts_rows (normalized_row (f :: fs)) gaps), Hw.
Qed.
(** Without a gap the list is returned as it is. *)
Lemma normalize_stable criteria result v :
  normalize_verified criteria result = Some v -> evidence_gaps criteria v = [] ->
  normalize_verified criteria (dset "verified" v result) = Some v.
Proof.
  intros Hv Hgaps.
  assert (Hl : exists l, v = PList l).
  { unfold normalize_verified in Hv. destruct (negb _); [done|]. destruct (attested result); [done|].
    destruct (evidence_gaps _ _); [destruct (pget "verified" result)|]; try done; injection Hv as <-; eauto. }
  destruct Hl as [l ->]. revert Hv. unfold normalize_verified.
  assert (Hp : forall k, k <> "verified" -> pget k (dset "verified" (PList l) result) = pget k result).
  { intros k Hk. unfold pget. by rewrite dget_dset_ne. }
  assert (Ha : attested (dset "verified" (PList l) result) = attested result).
  { unfold attested. cbn [omap list_omap]. by rewrite !Hp. }
  rewrite Ha, Hp by done. destruct (negb _); [done|]. destruct (attested result); [done|]. intros _.
  unfold pget at 1 2. rewrite dget_dset_eq. cbn. by rewrite Hgaps.
Qed.

(** ** Normalization closes the gaps *)

(** The rows the worker gave, the criteria they leave open, and the rows with the attestation. *)
Section normalized.
Context (criteria : list string) (ws : list (dict pyval)) (gaps : list string) (result : dict pyval).
Hypothesis attests : attested result <> [].
Hypothesis gaps_spec : forall c,
  c ∈ gaps <-> exists i, criteria !! i = Some c /\ lacking (match_entry ws c i) = true.
Hypothesis named : forall c, c ∈ criteria -> nonempty (norm_text c) = true.

Let after := (ws ++ map (normalized_row (attested result)) gaps)%list.
Let closed := forall i c, criteria !! i = Some c -> lacking (match_entry after c i) = false.

Lemma gap_criterion c : c ∈ gaps -> c ∈ criteria.
Proof. intros (i & Hi & _)%gaps_spec. by eapply list_elem_of_lookup_2. Qed.

Lemma appended_row e : e ∈ map (normalized_row (attested result)) gaps -> exists c,
  c ∈ gaps /\ quoted e = norm_text c /\ lacking e = false.
Proof.
  intros (c & -> & Hc)%list_elem_of_fmap. exists c. split; [done|].
  split; [apply quoted_normalized|by apply normalized_row_closes].
Qed.

Lemma after_quotes c : c ∈ gaps -> existsb quotes after = true.
Proof.
  intros Hc. apply (quotes_exists _ (norm_text c) (normalized_row (attested result) c));
    [|done|by apply named, gap_criterion].
  unfold after. apply elem_of_app. right. by apply list_elem_of_fmap_2.
Qed.

(** The first row that quotes [n], after the rows of the attestation were appended. *)
Lemma find_after n :
  match List.find (quoting n) ws with
  | Some e => List.find (quoting n) after = Some e
  | None => match List.find (quoting n) after with
            | Some e => lacking e = false /\ exists c, c ∈ gaps /\ norm_text c = n
            | None => forall c, c ∈ gaps -> norm_text c <> n
            end
  end.
Proof.
  unfold after. rewrite find_app. destruct (List.find _ ws); [done|].
  pose proof (find_quoting (map (normalized_row (attested result)) gaps) n) as H.
  destruct (List.find _ _) as [e|].
  - destruct H as [(c & Hc & Hq & Hl)%appended_row <-]. split; [done|]. by exists c.
  - intros c Hc. rewrite <- (quoted_normalized (attested result) c). apply H. by apply list_elem_of_fmap_2.
Qed.
(** Rows that count by position lose their place once a row quotes a criterion. *)
Lemma closed_all_gaps g :
  closed -> NoDup (map norm_text criteria) -> existsb quotes ws = false -> g ∈ gaps ->
  forall c, c ∈ criteria -> c ∈ gaps.
Proof.
  intros Hclosed Hdup Hws Hg c Hc. pose proof (list_elem_of_lookup_1 _ _ Hc) as [i Hi].
  specialize (Hclosed i c Hi). rewrite match_quoted in Hclosed by (eauto using after_quotes).
  pose proof (find_after (norm_text c)) as Hf. pose proof (find_quoting ws (norm_text c)) as Hw.
  destruct (List.find _ ws) as [e|].
  { destruct Hw as [He Hq]. by rewrite (quotes_exists _ _ _ He Hq) in Hws by auto. }
  fold after in Hf. destruct (List.find _ after) as [e|]; [|done].
  destruct Hf as (_ & c' & Hc' & Hn). replace c with c'; [done|].
  apply gap_criterion, list_elem_of_lookup_1 in Hc' as Hi'. destruct Hi' as [i' Hi'].
  assert (i' = i) as -> by (eapply NoDup_lookup; [exact Hdup|..]; rewrite list_lookup_fmap, ?Hi, ?Hi'; cbn; by rewrite ?Hn).
  congruence.
Qed.

(** A row that quotes a gap keeps it open. *)
Lemma closed_unquoted : closed -> forall c e, c ∈ gaps -> e ∈ ws -> quoted e <> norm_text c.
Proof.
  intros Hclosed c e Hc He Hq. pose proof (named c (gap_criterion c Hc)) as Hn.
  pose proof (after_quotes c Hc) as Ha. apply gaps_spec in Hc as (i & Hi & Hl).
  specialize (Hclosed i c Hi). rewrite match_quoted in Hclosed, Hl by (eauto using quotes_exists).
  pose proof (find_after (norm_text c)) as Hf. pose proof (find_quoting ws (norm_text c)) as Hw.
  destruct (List.find _ ws) as [e'|]; [|by apply (Hw e)]. fold after in Hf. rewrite Hf in Hclosed. congruence.
Qed.

Lemma rows_close :
  existsb quotes ws = true \/ (forall c, c ∈ criteria -> c ∈ gaps) \/ gaps = [] ->
  (forall c e, c ∈ gaps -> e ∈ ws -> quoted e <> norm_text c) -> closed.
Proof.
  intros Hcase Hno i c Hi. pose proof (list_elem_of_lookup_2 _ _ _ Hi) as Hc. pose proof (named c Hc) as Hn.
  destruct (decide (gaps = [])) as [Hnil|Hsome].
  { unfold after. rewrite Hnil, app_nil_r. apply not_true_is_false. intros Hl.
    assert (c ∈ gaps) as Hc' by (apply gaps_spec; by exists i). rewrite Hnil in Hc'. by apply elem_of_nil in Hc'. }
  assert (exists g, g ∈ gaps) as [g Hg'] by (clear -Hsome; destruct gaps as [|g gs]; [done|exists g; left]).
  pose proof (after_quotes g Hg') as Ha.
  rewrite match_quoted by done.
  pose proof (find_after (norm_text c)) as Hf. pose proof (find_quoting ws (norm_text c)) as Hw. fold after in Hf.
  destruct (decide (c ∈ gaps)) as [Hg|Hg].
  - destruct (List.find _ ws) as [e|]; [by destruct Hw as [He Hq]; apply (Hno c e) in Hq|].
    destruct (List.find _ after) as [e|]; [by destruct Hf|by destruct (Hf c)].
  - destruct Hcase as [Hq|[Hall|?]]; [|by apply Hall in Hc|done].
    apply not_true_is_false. intros Hl. apply Hg, gaps_spec. exists i. split; [done|].
    rewrite match_quoted by done. destruct (List.find _ ws) as [e|]; [by rewrite Hf in Hl|done].
Qed.
End normalized.

(** An overall attestation of a completed worker closes every evidence gap exactly when the
    rows the worker gave quote criteria, or none of them counted by its position, and none of
    them quotes a criterion that it leaves without evidence; the list is then stable on replay. *)
Theorem attestation_closes_gaps criteria result v :
  normalize_verified criteria result = Some v ->
  NoDup (map norm_text criteria) -> Forall (fun c => nonempty (norm_text c) = true) criteria ->
  let original := pget "verified" result in
  let gaps := evidence_gaps criteria original in
  (evidence_gaps criteria v = [] <->
     (existsb quotes (dicts original) = true \/ (forall c, c ∈ criteria -> c ∈ gaps) \/ gaps = [])
     /\ forall c e, c ∈ gaps -> e ∈ dicts original -> quoted e <> norm_text c)
  /\ (evidence_gaps criteria v = [] -> normalize_verified criteria (dset "verified" v result) = Some v).
Proof.
  intros Hv Hdup Hn. split; [|by eapply normalize_stable]. apply normalize_spec in Hv as [Hatt Hv]. cbv zeta.
  assert (Hnn : forall c, c ∈ criteria -> nonempty (norm_text c) = true) by (by apply Forall_forall).
  pose proof (elem_of_gaps criteria (pget "verified" result)) as Hgap.
  rewrite no_gaps, Hv. split.
  - intros Hclosed. split; [|by eapply closed_unquoted].
    destruct (existsb quotes _) eqn:Hq; [by left|right].
    destruct (evidence_gaps _ _) as [|g gs] eqn:Hgs; [by right|left].
    eapply closed_all_gaps; try done. left.
  - intros [Hcase Hno]. by eapply rows_close.
Qed.

(** ** Amendments replace exactly the criteria they name *)

(** C36.  Amendments given as text of one line replace exactly the criteria they name: the
    amendments applied are the well-formed ones among those the worker gave (an index of an
    existing criterion, a text and a reason), in their order; reading the new body gives the old
    criteria with the last text given for each of them in its place; and the lines outside of the
    checklist items are the old ones, apart from empty lines at the end of the body. *)
Theorem amend_replaces_criteria body given body' applied :
  amend_criteria body (PList given) = (body', applied) ->
  Forall (fun a => no_line_end (am_text a) = true) applied ->
  applied = omap (valid_amendment (length (parse_criteria body))) given /\
  parse_criteria body' = imap (fun k old => default old (latest applied k)) (parse_criteria body) /\
  exists blank, blanks blank /\ other_lines body = (other_lines body' ++ blank)%list.
Proof.
  cbn [amend_criteria]. destruct (amend_all_spec (splitlines body) given) as [Hok Happ].
  rewrite (undropped_spec _ _ Hok). rewrite criterion_ranges_spec, length_ranges, <- criterion_ranges_spec in Happ.
  set (st := foldl _ _ _) in *. set (am := latest (ed_applied st)).
  intros [= <- <-] Htext. rewrite !parse_criteria_items, length_map. split; [done|].
  assert (Ham : forall k text, am k = Some text -> trimmed text) by (intros k text; apply latest_given, Hok).
  assert (Hlines : Forall (fun l => no_line_end l = true) (amended am Outside 0 (splitlines body))).
  { apply amended_lines; [by apply splitlines_lines|].
    intros k text. by apply (latest_given (fun t => no_line_end t = true)). }
  destruct (splitlines_join _ (ends_with_newline body) Hlines) as (blank & Hb & Hsplit).
  { intros Hn. apply amended_nonempty. by destruct body; [|apply splitlines_nonempty]. }
  pose proof (items_amended am Ham (splitlines body) Outside 0) as Hitems.
  pose proof (others_amended am Ham (splitlines body) Outside 0) as Hothers.
  rewrite Hsplit, items_blanks in Hitems by done. rewrite Hsplit, others_blanks in Hothers by done.
  split; [|exists blank; by split].
  destruct (items _ _ (splitlines body)) as [more its], (items _ _ (splitlines (_ ++ _))) as [more' its'].
  apply Hitems.
Qed.

(** ** Amendments are recorded once *)

(** Which amendments apply depends on the number of criteria only. *)
Lemma applied_spec body given :
  (amend_criteria body (PList given)).2 = omap (valid_amendment (length (parse_criteria body))) given.
Proof.
  cbn. destruct (amend_all_spec (splitlines body) given) as [_ ->].
  by rewrite criterion_ranges_spec, length_ranges, parse_criteria_items, length_map.
Qed.

Lemma recorded_row run a : recorded_for run a (PDict (dset "run" (PStr run) (amendment_row a))) = true.
Proof. cbn. by rewrite !py_eq_refl. Qed.

Lemma filter_none {A} (f : A -> bool) l : (forall x, x ∈ l -> f x = false) -> List.filter f l = [].
Proof.
  induction l as [|x l IH]; [done|]. intros H. cbn. rewrite (H x) by left. apply IH. intros y Hy. apply H. by right.
Qed.

(** The amendments that were not on record, once they are written. *)
Lemma fresh_recorded run recorded all new :
  List.filter (fun a => negb (existsb (recorded_for run a) recorded)) all = new ->
  forall a, a ∈ all ->
    negb (existsb (recorded_for run a)
            (recorded ++ map PDict (map (fun a => dset "run" (PStr run) (amendment_row a)) new))) = false.
Proof.
  intros Hnew a Ha. apply negb_false_iff. rewrite existsb_app, orb_true_iff.
  destruct (existsb (recorded_for run a) recorded) eqn:He; [by left|right].
  apply existsb_exists. exists (PDict (dset "run" (PStr run) (amendment_row a))). split; [|apply recorded_row].
  apply in_map, in_map_iff. exists a. split; [done|]. subst new. apply List.filter_In. rewrite He.
  by split; [apply list_elem_of_In|].
Qed.

Lemma iter_list l : py_iter (por (PList l) (PList [])) = Ok l.
Proof. by destruct l. Qed.

Lemma pget_dset k v d : pget k (dset k v d) = v.
Proof. unfold pget. by rewrite dget_dset_eq. Qed.

(** A replay of the same result on the task it left, with the criteria it left, changes nothing:
    every amendment is in the record. *)
Lemma amendments_recorded_once stamp run result t t' rows saved :
  apply_criteria_amendments stamp run result t = Ok (t', rows, saved) ->
  length (parse_criteria (body t')) = length (parse_criteria (body t)) ->
  apply_criteria_amendments stamp run result t' = Ok (t', [], false).
Proof.
  intros H Hlen.
  assert (Happ : (amend_criteria (body t') (pget "criteria_amended" result)).2
                 = (amend_criteria (body t) (pget "criteria_amended" result)).2).
  { destruct (pget "criteria_amended" result); try done. by rewrite !applied_spec, Hlen. }
  revert H. unfold apply_criteria_amendments at 1 2.
  destruct (amend_criteria (body t) _) as [b applied] eqn:E, (amend_criteria (body t') _) as [b' applied'].
  cbn in Happ. subst applied'. destruct applied as [|a applied]; [by intros [= <- _ _]|].
  remember (a :: applied) as all.
  destruct (py_iter (por (pget "criteria_amended" (extra t)) (PList []))) as [recorded|] eqn:Hr; [|done].
  cbn [mbind result_bind]. destruct (List.filter _ all) as [|f fresh] eqn:Hf.
  { intros [= <- _ _]. rewrite Hr. cbn. by rewrite Hf. }
  remember (f :: fresh) as new eqn:Hnew. clear Hnew. intros [= <- _ _].
  cbn [with_extra extra]. rewrite pget_dset, iter_list. cbn [mbind result_bind].
  rewrite (filter_none _ all); [done|]. exact (fresh_recorded run recorded all new Hf).
Qed.

(** ** Examples *)

Module Sample.

Definition lines (l : list string) : string := join NL l ++ NL.
Definition checklist : string :=
  lines ["## Goal"; "- [ ] not a criterion"; "## Acceptance criteria ##"; "- [ ] one"; "   goes on";
         "- [x] two"; "  "; "tail"].
Definition amend_entry (i : Z) (text reason : string) : pyval :=
  PDict [("index", PInt i); ("text", PStr text); ("reason", PStr reason)].
Definition given : list pyval :=
  [amend_entry 0 " uno " "clearer"; amend_entry 7 "out of range" "r"; amend_entry 1 "dos" "clearer";
   amend_entry 1 "no reason" " "].
Definition done_with (verified : list pyval) : dict pyval :=
  [("status", PStr "done"); ("summary", PStr "all of it works"); ("verified", PList verified)].
Definition quoted_evidence : list pyval := [PDict [("criterion", PStr "One."); ("evidence", PStr "ran it")]].
Definition positional_evidence : list pyval := [PDict [("evidence", PStr "ran it")]].

(** What the amendments make of it. *)
Definition amended_checklist : string :=
  lines ["## Goal"; "- [ ] not a criterion"; "## Acceptance criteria ##"; "- [ ] uno"; "- [x] dos"; "  "; "tail"].
Definition applied : list amendment :=
  [Amendment (PInt 0) "uno" "clearer"; Amendment (PInt 1) "dos" "clearer"].

Lemma checklist_criteria : parse_criteria checklist = ["one goes on"; "two"].
Proof. vm_compute. reflexivity. Qed.

(** The text of an amendment may hold line ends, which [strip] does not remove from its inside: a
    worker adds criteria and prose to the task that no amendment names. *)
Lemma amendment_adds_lines :
  let '(body', applied) := amend_criteria checklist
    (PList [amend_entry 1 ("dos" ++ NL ++ "- [ ] three" ++ NL ++ "## Goal" ++ NL ++ "another") "r"]) in
  length applied = 1%nat /\ parse_criteria body' = ["one goes on"; "dos"; "three"]
  /\ mem "## Goal" (drop 4 (splitlines body')) = true.
Proof. vm_compute. repeat split. Qed.

(** A row of the attestation turns a list that is matched by position into one that is matched by
    text: the criterion with evidence becomes the gap, and the next replay changes the list. *)
Lemma attestation_loses_positional_evidence :
  let criteria := ["one"; "two"] in
  evidence_gaps criteria (PList positional_evidence) = ["two"] /\
  match normalize_verified criteria (done_with positional_evidence) with
  | Some v => evidence_gaps criteria v = ["one"]
              /\ bool_decide (normalize_verified criteria (dset "verified" v (done_with positional_evidence)) = Some v)
                 = false
  | None => False
  end.
Proof. vm_compute. repeat split. Qed.

(** [not_done] closes a gap without a reason. *)
Lemma not_done_needs_no_reason :
  evidence_gaps ["one"] (PList [PDict [("not_done", PBool true)]]) = [].
Proof. vm_compute. reflexivity. Qed.

(** Only the first Verification section of the worker is replaced. *)
Lemma second_verification_stays :
  let body' := apply_verification (lines ["## Verification"; "old"; "## Notes"; "### Verification"; "older"])
                                  ["one"] (PList quoted_evidence) in
  mem "old" (splitlines body') = false /\ mem "older" (splitlines body') = true
  /\ mem "- ✅ **one** — ran it" (splitlines body') = true.
Proof. vm_compute. repeat split. Qed.
End Sample.

Lemma amend_replaces_criteria_witness :
  amend_criteria Sample.checklist (PList Sample.given) = (Sample.amended_checklist, Sample.applied)
  /\ parse_criteria Sample.amended_checklist = ["uno"; "dos"].
Proof.
  assert (E : amend_criteria Sample.checklist (PList Sample.given) = (Sample.amended_checklist, Sample.applied))
    by (vm_compute; reflexivity).
  split; [exact E|].
  destruct (amend_replaces_criteria _ _ _ _ E) as (_ & -> & _); [repeat constructor|].
  vm_compute. reflexivity.
Defined.

Lemma attestation_closes_gaps_witness :
  exists v, normalize_verified ["one"; "two"] (Sample.done_with Sample.quoted_evidence) = Some v
            /\ evidence_gaps ["one"; "two"] v = [].
Proof.
  eexists. split; [vm_compute; reflexivity|].
  eapply (attestation_closes_gaps ["one"; "two"] (Sample.done_with Sample.quoted_evidence));
    [vm_compute; reflexivity|apply (bool_decide_unpack _); vm_compute; exact I|repeat constructor|].
  split; [left; vm_compute; reflexivity|]. intros c e Hc He Hq.
  assert (c = "two") as -> by (vm_compute in Hc; by apply list_elem_of_singleton in Hc).
  assert (e = [("criterion", PStr "One."); ("evidence", PStr "ran it")]) as ->
    by (vm_compute in He; by apply list_elem_of_singleton in He).
  vm_compute in Hq. discriminate.
Defined.
