(* ===== verification/Base64.v ===== *)
(** * URL-safe base64, as [base64.urlsafe_b64encode] and [urlsafe_b64decode] use it

    Credential tokens carry their garden and installation ids in URL-safe base64 with the padding
    removed ([garden/members.py]).  Byte strings are [string]s; the decoder is the lenient one of
    the standard library, which skips characters outside the alphabet and stops at the padding. *)

From Stdlib Require Import ZifyN ZifyNat.
From S2P Require Import Prelude.

Definition pad_char : ascii := "="%char.
Definition is_pad (c : ascii) : bool := bool_decide (c = pad_char).

(** The URL-safe alphabet. *)
Definition b64_char (v : N) : ascii :=
  (if v <? 26 then ascii_of_N (v + 65)
   else if v <? 52 then ascii_of_N (v + 71)
   else if v <? 62 then ascii_of_N (v - 4)
   else if v =? 62 then ascii_of_N 45 else ascii_of_N 95)%N.

(** The value of a character after [-_] have been translated to [+/]. *)
Definition b64_val (c : ascii) : option N :=
  let n := N_of_ascii c in
  (if is_upper c then Some (n - 65)
   else if is_lower c then Some (n - 71)
   else if is_digit c then Some (n + 4)
   else if (n =? 45) || (n =? 43) then Some 62
   else if (n =? 95) || (n =? 47) then Some 63 else None)%N.

(** [base64.urlsafe_b64encode] *)
Fixpoint b64encode (s : string) : string :=
  match s with
  | EmptyString => EmptyString
  | String a EmptyString =>
      let n := N_of_ascii a in
      String (b64_char (n / 4)) (String (b64_char ((n mod 4) * 16)) "==")
  | String a (String b EmptyString) =>
      let n := N_of_ascii a in let m := N_of_ascii b in
      String (b64_char (n / 4)) (String (b64_char ((n mod 4) * 16 + m / 16))
        (String (b64_char ((m mod 16) * 4)) "="))
  | String a (String b (String c s')) =>
      let n := N_of_ascii a in let m := N_of_ascii b in let k := N_of_ascii c in
      String (b64_char (n / 4)) (String (b64_char ((n mod 4) * 16 + m / 16))
        (String (b64_char ((m mod 16) * 4 + k / 64)) (String (b64_char (k mod 64)) (b64encode s'))))
  end%N.

(** The decoder's loop: the position in the group of four, the bits left over and the pads seen. *)
Fixpoint b64_loop (quad_pos : nat) (leftchar : N) (pads : nat) (s : string) : option string :=
  match s with
  | EmptyString => if decide (quad_pos = 0%nat) then Some EmptyString else None
  | String c s' =>
      if is_pad c then
        if (2 <=? quad_pos)%nat then
          if (4 <=? quad_pos + S pads)%nat then Some EmptyString else b64_loop quad_pos leftchar (S pads) s'
        else b64_loop quad_pos leftchar pads s'
      else match b64_val c with
      | None => b64_loop quad_pos leftchar pads s'
      | Some v =>
          match quad_pos with
          | 0%nat => b64_loop 1 v 0 s'
          | 1%nat => String (ascii_of_N (leftchar * 4 + v / 16)) <$> b64_loop 2 (v mod 16) 0 s'
          | 2%nat => String (ascii_of_N (leftchar * 16 + v / 4)) <$> b64_loop 3 (v mod 4) 0 s'
          | _ => String (ascii_of_N (leftchar * 64 + v)) <$> b64_loop 0 0 0 s'
          end
      end
  end%N.

(** [base64.urlsafe_b64decode], [None] where it raises [binascii.Error]. *)
Definition b64decode (s : string) : option string := b64_loop 0 0 0 s.

(** [.rstrip("=")] *)
Definition unpadded (s : string) : string := rstrip_by is_pad s.

Fixpoint pads (n : nat) : string := match n with O => EmptyString | S n => String pad_char (pads n) end.

(** ["=" * (-len(value) % 4)] *)
Definition padding (value : string) : string := pads (Z.to_nat ((- Z.of_nat (String.length value)) mod 4)).

(** Strict UTF-8, as [bytes.decode()] checks it. *)
Definition in_range (lo hi : N) (c : ascii) : bool := let n := N_of_ascii c in (lo <=? n)%N && (n <=? hi)%N.
Definition utf8_tail : ascii -> bool := in_range 128 191.

Fixpoint utf8_valid (s : string) : bool :=
  match s with
  | EmptyString => true
  | String c s1 =>
      if in_range 0 127 c then utf8_valid s1
      else match s1 with
      | EmptyString => false
      | String d s2 =>
          if in_range 194 223 c then utf8_tail d && utf8_valid s2
          else match s2 with
          | EmptyString => false
          | String e s3 =>
              if in_range 224 239 c then
                in_range (if bool_decide (N_of_ascii c = 224%N) then 160 else 128)
                         (if bool_decide (N_of_ascii c = 237%N) then 159 else 191) d
                && utf8_tail e && utf8_valid s3
              else match s3 with
              | EmptyString => false
              | String f s4 =>
                  in_range 240 244 c
                  && in_range (if bool_decide (N_of_ascii c = 240%N) then 144 else 128)
                              (if bool_decide (N_of_ascii c = 244%N) then 143 else 191) d
                  && utf8_tail e && utf8_tail f && utf8_valid s4
              end
          end
      end
  end.

(** ** Round trip *)

Lemma b64_val_char v : (v < 64)%N -> b64_val (b64_char v) = Some v.
Proof.
  intros Hv. assert (H : forallb (fun i => bool_decide (b64_val (b64_char (N.of_nat i)) = Some (N.of_nat i))) (seq 0 64) = true)
    by (vm_compute; reflexivity).
  rewrite forallb_forall in H. specialize (H (N.to_nat v)). rewrite bool_decide_eq_true, N2Nat.id in H.
  apply H, in_seq. lia.
Qed.

Lemma is_pad_char v : (v < 64)%N -> is_pad (b64_char v) = false.
Proof.
  intros Hv. unfold is_pad. apply bool_decide_eq_false. intros He.
  pose proof (b64_val_char v Hv) as H. rewrite He in H. by vm_compute in H.
Qed.

(** Induction three bytes at a time. *)
Lemma string_ind3 (P : string -> Prop) :
  P EmptyString -> (forall a, P (String a EmptyString)) -> (forall a b, P (String a (String b EmptyString))) ->
  (forall a b c s, P s -> P (String a (String b (String c s)))) -> forall s, P s.
Proof.
  intros H0 H1 H2 H3. enough (H : forall n s, (String.length s <= n)%nat -> P s) by (intros s; by eapply H).
  induction n as [|n IH]; intros s Hs; [by destruct s; [|cbn in Hs; lia]|].
  destruct s as [|a [|b [|c s]]]; auto. apply H3, IH. cbn in Hs. lia.
Qed.

(** The encoding without its padding. *)
Fixpoint b64core (s : string) : string :=
  match s with
  | EmptyString => EmptyString
  | String a EmptyString =>
      let n := N_of_ascii a in String (b64_char (n / 4)) (String (b64_char ((n mod 4) * 16)) EmptyString)
  | String a (String b EmptyString) =>
      let n := N_of_ascii a in let m := N_of_ascii b in
      String (b64_char (n / 4)) (String (b64_char ((n mod 4) * 16 + m / 16))
        (String (b64_char ((m mod 16) * 4)) EmptyString))
  | String a (String b (String c s')) =>
      let n := N_of_ascii a in let m := N_of_ascii b in let k := N_of_ascii c in
      String (b64_char (n / 4)) (String (b64_char ((n mod 4) * 16 + m / 16))
        (String (b64_char ((m mod 16) * 4 + k / 64)) (String (b64_char (k mod 64)) (b64core s'))))
  end%N.

Lemma byte_bound c : (N_of_ascii c < 256)%N.
Proof. apply N_ascii_bounded. Qed.

(** The four values of a group are in range. *)
Ltac sextet := intros; zify; Z.div_mod_to_equations; lia.
Lemma sextet1 n : (n < 256 -> n / 4 < 64)%N.
Proof. sextet. Qed.
Lemma sextet2 n m : (m < 256 -> (n mod 4) * 16 + m / 16 < 64)%N.
Proof. sextet. Qed.
Lemma sextet2' n : ((n mod 4) * 16 < 64)%N.
Proof. sextet. Qed.
Lemma sextet3 m k : (k < 256 -> (m mod 16) * 4 + k / 64 < 64)%N.
Proof. sextet. Qed.
Lemma sextet3' m : ((m mod 16) * 4 < 64)%N.
Proof. sextet. Qed.
Lemma sextet4 k : (k mod 64 < 64)%N.
Proof. sextet. Qed.
Create HintDb sextets.
#[local] Hint Resolve byte_bound sextet1 sextet2 sextet2' sextet3 sextet3' sextet4 : sextets.

Lemma rstrip_pad_cons c s : is_pad c = false -> rstrip_by is_pad (String c s) = String c (rstrip_by is_pad s).
Proof. intros H. cbn. destruct (rstrip_by is_pad s); [by rewrite H|done]. Qed.

Lemma unpadded_b64encode s : unpadded (b64encode s) = b64core s.
Proof.
  unfold unpadded. induction s as [|a|a b|a b c s IH] using string_ind3; cbn [b64encode b64core]; cbv zeta;
    rewrite ?rstrip_pad_cons by auto using is_pad_char with sextets; [done..|by rewrite IH].
Qed.

Lemma b64_loop_char q l p v s : (v < 64)%N ->
  b64_loop q l p (String (b64_char v) s) =
  match q with
  | 0%nat => b64_loop 1 v 0 s
  | 1%nat => String (ascii_of_N (l * 4 + v / 16)) <$> b64_loop 2 (v mod 16) 0 s
  | 2%nat => String (ascii_of_N (l * 16 + v / 4)) <$> b64_loop 3 (v mod 4) 0 s
  | _ => String (ascii_of_N (l * 64 + v)) <$> b64_loop 0 0 0 s
  end%N.
Proof. intros Hv. cbn [b64_loop]. by rewrite is_pad_char, b64_val_char. Qed.

Lemma byte1 a m : (m < 256)%N -> ascii_of_N (N_of_ascii a / 4 * 4 + ((N_of_ascii a mod 4) * 16 + m / 16) / 16) = a.
Proof. intros H. rewrite <- (ascii_N_embedding a) at 3. f_equal. pose proof (byte_bound a). sextet. Qed.
Lemma byte1' a : ascii_of_N (N_of_ascii a / 4 * 4 + ((N_of_ascii a mod 4) * 16) / 16) = a.
Proof. rewrite <- (ascii_N_embedding a) at 3. f_equal. sextet. Qed.
Lemma byte2 n b k : (k < 256)%N ->
  ascii_of_N (((n mod 4) * 16 + N_of_ascii b / 16) mod 16 * 16 + ((N_of_ascii b mod 16) * 4 + k / 64) / 4) = b.
Proof. intros H. rewrite <- (ascii_N_embedding b) at 3. f_equal. pose proof (byte_bound b). sextet. Qed.
Lemma byte2' n b : ascii_of_N (((n mod 4) * 16 + N_of_ascii b / 16) mod 16 * 16 + ((N_of_ascii b mod 16) * 4) / 4) = b.
Proof. rewrite <- (ascii_N_embedding b) at 3. f_equal. pose proof (byte_bound b). sextet. Qed.
Lemma byte3 m c : ascii_of_N (((m mod 16) * 4 + N_of_ascii c / 64) mod 4 * 64 + N_of_ascii c mod 64) = c.
Proof. rewrite <- (ascii_N_embedding c) at 3. f_equal. pose proof (byte_bound c). sextet. Qed.

(** Decoding what was encoded, whatever completes the last group. *)
Lemma b64_loop_core s t :
  (forall l, b64_loop 2 l 0 t = Some EmptyString \/ (String.length s mod 3 <> 1)%nat) ->
  (forall l, b64_loop 3 l 0 t = Some EmptyString \/ (String.length s mod 3 <> 2)%nat) ->
  (b64_loop 0 0 0 t = Some EmptyString \/ (String.length s mod 3 <> 0)%nat) ->
  b64_loop 0 0 0 (b64core s ++ t) = Some s.
Proof.
  induction s as [|a|a b|a b c s IH] using string_ind3; intros H2 H3 H0; cbn [b64core]; cbv zeta;
    rewrite ?str_app_cons, ?str_app_nil_l.
  - by destruct H0.
  - rewrite !b64_loop_char by auto with sextets. destruct (H2 ((N_of_ascii a mod 4 * 16) mod 16)%N) as [->|]; [|done].
    cbn. by rewrite byte1'.
  - rewrite !b64_loop_char by auto with sextets.
    destruct (H3 ((N_of_ascii b mod 16 * 4) mod 4)%N) as [->|]; [|done]. cbn. by rewrite byte1, byte2' by auto with sextets.
  - rewrite !b64_loop_char by auto with sextets. rewrite IH.
    + cbn. by rewrite byte1, byte2, byte3 by auto with sextets.
    + intros l. destruct (H2 l) as [|Hn]; [by left|right]. cbn [String.length] in Hn.
      intros He. apply Hn. replace (S (S (S (String.length s)))) with (String.length s + 1 * 3)%nat by lia. by rewrite Nat.Div0.mod_add.
    + intros l. destruct (H3 l) as [|Hn]; [by left|right]. cbn [String.length] in Hn.
      intros He. apply Hn. replace (S (S (S (String.length s)))) with (String.length s + 1 * 3)%nat by lia. by rewrite Nat.Div0.mod_add.
    + destruct H0 as [|Hn]; [by left|right]. cbn [String.length] in Hn.
      intros He. apply Hn. replace (S (S (S (String.length s)))) with (String.length s + 1 * 3)%nat by lia. by rewrite Nat.Div0.mod_add.
Qed.

(** Two pads complete any unpadded encoding. *)
Lemma b64decode_two_pads s : b64decode (unpadded (b64encode s) ++ "==") = Some s.
Proof. rewrite unpadded_b64encode. apply b64_loop_core; intros; by left. Qed.

Lemma length_b64core s :
  (Z.of_nat (String.length (b64core s)) mod 4 =
   match (Z.of_nat (String.length s) mod 3) with 0 => 0 | 1 => 2 | _ => 3 end).
Proof.
  induction s as [|a|a b|a b c s IH] using string_ind3; [done..|].
  cbn [b64core String.length]; cbv zeta. cbn [String.length].
  set (n := String.length (b64core s)) in *. set (k := String.length s) in *.
  replace (Z.of_nat (S (S (S (S n))))) with (Z.of_nat n + 1 * 4) by lia.
  replace (Z.of_nat (S (S (S k)))) with (Z.of_nat k + 1 * 3) by lia.
  by rewrite !Z.mod_add.
Qed.

(** [_decode_id] reads back what [_set_secret] wrote. *)
Lemma b64decode_padding s : let v := unpadded (b64encode s) in b64decode (v ++ padding v) = Some s.
Proof.
  cbv zeta. rewrite unpadded_b64encode. unfold padding.
  assert (Hm : forall n m, n mod 4 = m -> 0 <= m < 4 -> (- n) mod 4 = (4 - m) mod 4).
  { intros n m <- Hm. Z.div_mod_to_equations. lia. }
  pose proof (length_b64core s) as Hl. set (L := Z.of_nat (String.length (b64core s))) in *.
  assert (Hs : Z.of_nat (String.length s mod 3) = Z.of_nat (String.length s) mod 3) by (by rewrite Nat2Z.inj_mod).
  pose proof (Z.mod_pos_bound (Z.of_nat (String.length s)) 3 ltac:(lia)) as Hb.
  assert (Hc : Z.of_nat (String.length s) mod 3 = 0 \/ Z.of_nat (String.length s) mod 3 = 1
               \/ Z.of_nat (String.length s) mod 3 = 2) by lia.
  destruct Hc as [Hc|[Hc|Hc]]; rewrite Hc in Hl, Hs; cbn in Hl; rewrite (Hm _ _ Hl) by lia;
    apply b64_loop_core; intros; (by left) || (right; intros He; rewrite He in Hs; done).
Qed.

(** No encoded id contains the separator of the token's parts. *)
Definition not_dot (c : ascii) : bool := negb (bool_decide (c = "."%char)).

Lemma b64_char_not_dot v : (v < 64)%N -> not_dot (b64_char v) = true.
Proof.
  intros Hv. unfold not_dot. apply negb_true_iff, bool_decide_eq_false. intros He.
  pose proof (b64_val_char v Hv) as H. rewrite He in H. by vm_compute in H.
Qed.

Lemma b64core_no_dot s : str_all not_dot (b64core s) = true.
Proof.
  induction s as [|a|a b|a b c s IH] using string_ind3; cbn [b64core]; cbv zeta; cbn [str_all];
    rewrite ?b64_char_not_dot by auto with sextets; done.
Qed.

Lemma b64encode_no_dot s : str_all not_dot (unpadded (b64encode s)) = true.
Proof. rewrite unpadded_b64encode. apply b64core_no_dot. Qed.
