(* ===== verification/Members.v ===== *)
(** * The membership registry ([garden/members.py])

    Principals and the one role vocabulary ([authorize]); the registry of members, installations,
    execution cursors ([assignments]) and phase owners, with every operation that changes it; token
    issue and authentication.

    The registry is the JSON document [members.json]; the class is its only writer, so it is
    modelled by the record of what it writes (objects as finite maps, since [json.dump] sorts their
    keys).  Each mutation runs under an exclusive file lock and ends in one atomic replace: it is a
    function from the registry it read to the one it writes.  The PBKDF2 verifier and the catalog of
    project phases are parameters, and the random secret and salt are arguments. *)

From S2P Require Import Prelude PyValue Requirements TaskModel Graph Base64.

#[local] Open Scope list_scope.

(** ** Principals and roles *)

Record Principal := {
  p_garden : string; p_member : string; p_installation : string;
  p_role : string; p_visibility : string; p_projects : gset string;
}.
#[export] Instance principal_eq_dec : EqDecision Principal.
Proof. solve_decision. Defined.

Definition ROLES : list string := ["administrator"; "member"; "viewer"].
Definition VISIBILITIES : list string := ["all"; "assigned"].

(** [authorize(principal, "read", project=project)] *)
Definition authorize_read (p : Principal) (project : string) : bool :=
  bool_decide (p_visibility p = "all") || (nonempty project && bool_decide (project ∈ p_projects p)).

Definition authorize (p : Principal) (operation owner_id project : string) : bool :=
  if decide (operation = "read") then authorize_read p project
  else if decide (operation = "administer") then bool_decide (p_role p = "administrator")
  else if decide (operation = "mutate_work") then
    mem (p_role p) ["administrator"; "member"]
    && nonempty owner_id && bool_decide (owner_id = p_member p) && authorize_read p project
  else false.

Definition administers (p : Principal) : bool := authorize p "administer" "" "".

(** ** The registry *)

Record Member := { role : string; m_active : bool; visibility : string; projects : list string }.
Record Installation := {
  i_member : string; revoked : bool; authentication : string; secret_row : option (string * string);
}.
Record AssignmentRow := {
  a_project : string; a_phase : string; a_generation : Z; a_enabled : bool; a_advance : bool; a_changed_by : string;
}.
Record OwnerRow := { o_owner : string; o_generation : Z; o_changed_by : string }.

Record Registry := {
  garden_id : string;
  members : gmap string Member;
  installations : gmap string Installation;
  assignments : gmap string AssignmentRow;
  assignment_generations : gmap string Z;
  phase_owners : gmap string OwnerRow;
}.

Definition empty_registry : Registry :=
  {| garden_id := ""; members := ∅; installations := ∅; assignments := ∅;
     assignment_generations := ∅; phase_owners := ∅ |}.

(** The document on disk, and [_read]. *)
Inductive document := Missing | Unsupported | Stored (r : Registry).
Definition read (d : document) : result exn Registry :=
  match d with
  | Missing => Ok empty_registry
  | Unsupported => Err (ValueError "unsupported multiplayer member registry")
  | Stored r => Ok r
  end.

Definition set_members (m : gmap string Member) (r : Registry) : Registry :=
  {| garden_id := garden_id r; members := m; installations := installations r; assignments := assignments r;
     assignment_generations := assignment_generations r; phase_owners := phase_owners r |}.
Definition set_installations (i : gmap string Installation) (r : Registry) : Registry :=
  {| garden_id := garden_id r; members := members r; installations := i; assignments := assignments r;
     assignment_generations := assignment_generations r; phase_owners := phase_owners r |}.
Definition set_cursors (a : gmap string AssignmentRow) (g : gmap string Z) (r : Registry) : Registry :=
  {| garden_id := garden_id r; members := members r; installations := installations r; assignments := a;
     assignment_generations := g; phase_owners := phase_owners r |}.
Definition set_owners (o : gmap string OwnerRow) (r : Registry) : Registry :=
  {| garden_id := garden_id r; members := members r; installations := installations r; assignments := assignments r;
     assignment_generations := assignment_generations r; phase_owners := o |}.
Definition set_garden (g : string) (r : Registry) : Registry :=
  {| garden_id := g; members := members r; installations := installations r; assignments := assignments r;
     assignment_generations := assignment_generations r; phase_owners := phase_owners r |}.

(** [_valid_id] *)
Definition valid_id (s : string) : bool := owner_id_ok s && (String.length s <=? 128)%nat.
Definition check_id (value label : string) : result exn string :=
  raise (ValueError (label ++ " must be a stable 1-128 character identifier")) when (negb (valid_id value)) ;; Ok value.

(** ** Who is active *)

(** The visibility test of [active_member_ids] and [active_execution_member_ids]. *)
Definition sees (m : Member) (project : string) : bool :=
  negb (nonempty project) || bool_decide (visibility m = "all") || mem project (projects m).

Definition members_where (f : Member -> bool) (r : Registry) : gset string :=
  dom (filter (fun km => f km.2 = true) (members r)).

Definition active_member_ids (r : Registry) (project : string) : gset string :=
  members_where (fun m => m_active m && sees m project) r.
Definition active_administrator_ids (r : Registry) : gset string :=
  members_where (fun m => m_active m && bool_decide (role m = "administrator")) r.
Definition executes (project : string) (m : Member) : bool :=
  m_active m && negb (bool_decide (role m = "viewer")) && sees m project.
Definition active_execution_member_ids (r : Registry) (project : string) : gset string :=
  members_where (executes project) r.

(** ** Cursors and phase owners *)

Record WorkAssignment := {
  w_member : string; w_project : string; w_phase : string; w_generation : Z; w_enabled : bool; w_advance : bool;
}.
Record PhaseOwner := {
  po_project : string; po_phase : string; po_owner : string; po_generation : Z; po_changed_by : string;
}.
Record OwnerChangePreview := { change : string; before : string; after : string; affected_issues : list string }.

Definition assignment (r : Registry) (member_id : string) : option WorkAssignment :=
  match assignments r !! member_id with
  | None => None
  | Some a => Some {| w_member := member_id; w_project := a_project a; w_phase := a_phase a;
                      w_generation := a_generation a; w_enabled := a_enabled a; w_advance := a_advance a |}
  end.

Definition phase_owner (r : Registry) (project phase : string) : option PhaseOwner :=
  match phase_owners r !! (project ++ "/" ++ phase)%string with
  | None => None
  | Some o => Some {| po_project := project; po_phase := phase; po_owner := o_owner o;
                      po_generation := o_generation o; po_changed_by := o_changed_by o |}
  end.

Definition effective_task_owner (r : Registry) (t : Task) : string * string :=
  if owner_unassigned t then ("", "unassigned")
  else
    let '(owner_id, source) :=
      if nonempty (owner t) then (owner t, "task")
      else (match phase_owner r (product t) (phase t) with Some o => po_owner o | None => "" end, "phase") in
    if negb (nonempty owner_id) then ("", "unassigned")
    else if decide (owner_id ∈ active_execution_member_ids r (product t)) then (owner_id, source)
    else ("", "invalid").

Definition preview_default_owner_change (r : Registry) (p : Phase) (tasks : list Task) (owner_id : option string)
    : result exn OwnerChangePreview :=
  let after_ := default "" owner_id in
  raise (ValueError "default owner must be an active project member")
    when (nonempty after_ && negb (bool_decide (after_ ∈ active_execution_member_ids r (ph_product p)))) ;;
  before_ ← default_owner p;
  let affected := sorted_str (map id (List.filter (fun t =>
    bool_decide (product t = ph_product p) && bool_decide (phase t = ph_name p)
    && negb (nonempty (owner t)) && negb (owner_unassigned t) && negb (bool_decide (before_ = after_))) tasks)) in
  Ok {| change := "default_owner"; before := before_; after := after_; affected_issues := affected |}.

Definition preview_task_owner_change (r : Registry) (t : Task) (owner_id : option string)
    : result exn OwnerChangePreview :=
  let after_ := default "" owner_id in
  raise (ValueError "task owner must be an active project member")
    when (nonempty after_ && negb (bool_decide (after_ ∈ active_execution_member_ids r (product t)))) ;;
  let before_ := (effective_task_owner r t).1 in
  Ok {| change := "task_owner"; before := before_; after := after_;
        affected_issues := if decide (before_ = after_) then [] else [id t] |}.

(** [dependency_information]: the visible blockers and the number of hidden ones. *)
Definition dependency_information (t : Task) (tasks : tasks_t) (permitted : gset string) : list string * Z :=
  let seen (d : string) := match dget d tasks with Some dep => bool_decide (product dep ∈ permitted) | None => false end in
  let bs := blockers t tasks true in
  (sorted_str (List.filter seen bs), Z.of_nat (List.length (List.filter (fun d => negb (seen d)) bs))).

(** ** Current authority of a caller *)

(** [_authorized_state]: the caller's principal must match the registry exactly. *)
Definition authorized (r : Registry) (actor : Principal) : bool :=
  match members r !! p_member actor, installations r !! p_installation actor with
  | Some m, Some i =>
      bool_decide (p_garden actor = garden_id r) && m_active m && negb (revoked i)
      && bool_decide (i_member i = p_member actor) && bool_decide (p_role actor = role m)
      && bool_decide (p_visibility actor = visibility m)
      && bool_decide (p_projects actor = list_to_set (projects m))
  | _, _ => false
  end.

Definition authorized_state (r : Registry) (actor : Principal) : result exn Registry :=
  raise (PermissionError "caller is no longer an active garden member") when (negb (authorized r actor)) ;; Ok r.

Definition administer_state (r : Registry) (actor : Principal) : result exn Registry :=
  r ← authorized_state r actor;
  raise (PermissionError "administrator role required") when (negb (administers actor)) ;; Ok r.

Definition authorize_phase_operation (r : Registry) (p : Principal) (project phase : string) : bool :=
  authorized r p
  && match phase_owner r project phase with
     | None => false
     | Some o =>
         bool_decide (po_owner o = p_member p)
         && bool_decide (p_member p ∈ active_execution_member_ids r project)
         && authorize p "read" "" project
     end.

Definition generation_mismatch (expected : option Z) (g : Z) : bool :=
  match expected with Some e => negb (bool_decide (g = e)) | None => false end.

Definition require_phase_operation (r : Registry) (p : Principal) (project phase : string) (expected : option Z)
    : result exn PhaseOwner :=
  match phase_owner r project phase with
  | None => Err (PermissionError "phase operations require an explicit active phase owner")
  | Some o =>
      raise (PermissionError "phase operations require an explicit active phase owner")
        when (negb (nonempty (po_owner o))) ;;
      raise (RuntimeError "stale phase owner generation") when (generation_mismatch expected (po_generation o)) ;;
      raise (PermissionError "current phase owner authorization required")
        when (negb (authorize_phase_operation r p project phase)) ;;
      Ok o
  end.

(** ** Executable work *)

(** The comprehension's conditions, in order: [phases[task.key]] raises when the phase is missing. *)
Definition executable (r : Registry) (tasks : tasks_t) (phases : dict Phase) (member_id : string)
    (cursor : WorkAssignment) (t : Task) : result exn bool :=
  if bool_decide (product t = w_project cursor) && bool_decide (phase t = w_phase cursor)
     && bool_decide (status t = READY) && negb (is_blocked t tasks true)
  then match dget (TaskModel.key t) phases with
       | None => Err (KeyError (TaskModel.key t))
       | Some p => Ok (negb (nonempty (phase_refusal p t)) && bool_decide ((effective_task_owner r t).1 = member_id))
       end
  else Ok false.

Fixpoint filterR {E A} (f : A -> result E bool) (l : list A) : result E (list A) :=
  match l with
  | [] => Ok []
  | x :: l' => b ← f x; rest ← filterR f l'; Ok (if (b : bool) then x :: rest else rest)
  end.

Definition executable_tasks (r : Registry) (member_id : string) (tasks : tasks_t) (phases : dict Phase)
    : result exn (list Task) :=
  match assignment r member_id with
  | None => Ok []
  | Some cursor =>
      if negb (w_enabled cursor) || negb (bool_decide (member_id ∈ active_execution_member_ids r (w_project cursor)))
      then Ok []
      else filterR (executable r tasks phases member_id cursor) (dvals tasks)
  end.

Definition authorize_task_execution (r : Registry) (p : Principal) (t : Task) (expected : option Z)
    : result exn WorkAssignment :=
  _ ← authorized_state r p;
  match assignment r (p_member p) with
  | None => Err (PermissionError "member has no execution assignment")
  | Some cursor =>
      raise (RuntimeError "stale assignment generation") when (generation_mismatch expected (w_generation cursor)) ;;
      raise (PermissionError "member execution assignment is paused") when (negb (w_enabled cursor)) ;;
      raise (PermissionError "task is outside the member's execution assignment")
        when (negb (bool_decide ((w_project cursor, w_phase cursor) = (product t, phase t)))) ;;
      raise (PermissionError "member is not the effective active owner of this task")
        when (negb (bool_decide ((effective_task_owner r t).1 = p_member p))) ;;
      Ok cursor
  end.

Definition unfinished_in (project phase_ : string) (t : Task) : bool :=
  bool_decide (product t = project) && bool_decide (phase t = phase_) && negb (terminal (status t)).

Definition can_advance_assignment (r : Registry) (member_id : string) (tasks : tasks_t) : bool :=
  match assignment r member_id with
  | None => false
  | Some c => w_enabled c && w_advance c && negb (existsb (unfinished_in (w_project c) (w_phase c)) (dvals tasks))
  end.

(** ** Mutations *)

Section operations.
(** The garden's catalog of phases ([Store.phase]) and [hashlib.pbkdf2_hmac]. *)
Variable catalog : string -> string -> bool.
Variable verifier : string -> string -> string.

Definition require_catalog_phase (project phase_ : string) : result exn unit :=
  _ ← check_id project "project"; _ ← check_id phase_ "phase";
  raise (ValueError ("unknown project/phase target: " ++ project ++ "/" ++ phase_)) when (negb (catalog project phase_)) ;;
  Ok tt.

Definition cursor_of (member_id : string) (a : AssignmentRow) : WorkAssignment :=
  {| w_member := member_id; w_project := a_project a; w_phase := a_phase a;
     w_generation := a_generation a; w_enabled := a_enabled a; w_advance := a_advance a |}.

Definition current_generation (r : Registry) (member_id : string) : Z :=
  match assignments r !! member_id with
  | Some a => a_generation a
  | None => default 0 (assignment_generations r !! member_id)
  end.

(** The two rows that every cursor change writes. *)
Definition write_cursor (member_id : string) (a : AssignmentRow) (r : Registry) : Registry :=
  set_cursors (<[member_id := a]> (assignments r))
    (<[member_id := a_generation a]> (assignment_generations r)) r.

Definition set_assignment (r : Registry) (actor : Principal) (member_id project phase_ : string)
    (enabled advance : bool) (expected_generation : Z) : result exn (WorkAssignment * Registry) :=
  r ← administer_state r actor;
  _ ← require_catalog_phase project phase_;
  raise (ValueError "assignment owner must be an active garden member")
    when (negb (bool_decide (member_id ∈ active_execution_member_ids r project))) ;;
  let generation := current_generation r member_id in
  raise (RuntimeError "stale assignment generation") when (negb (bool_decide (generation = expected_generation))) ;;
  let row := {| a_project := project; a_phase := phase_; a_generation := generation + 1; a_enabled := enabled;
                a_advance := advance; a_changed_by := p_member actor |} in
  Ok (cursor_of member_id row, write_cursor member_id row r).

Definition clear_assignment (r : Registry) (actor : Principal) (member_id : string) (expected_generation : Z)
    : result exn Registry :=
  r ← administer_state r actor;
  match assignments r !! member_id with
  | None => Err (RuntimeError "stale assignment generation")
  | Some current =>
      raise (RuntimeError "stale assignment generation")
        when (negb (bool_decide (a_generation current = expected_generation))) ;;
      Ok (set_cursors (delete member_id (assignments r))
            (<[member_id := a_generation current + 1]> (assignment_generations r)) r)
  end.

Definition advance_assignment (r : Registry) (actor : Principal) (member_id next_phase : string) (tasks : tasks_t)
    (expected_generation : Z) : result exn (WorkAssignment * Registry) :=
  r ← administer_state r actor;
  match assignments r !! member_id with
  | None => Err (RuntimeError "stale assignment generation")
  | Some current =>
      raise (RuntimeError "stale assignment generation")
        when (negb (bool_decide (a_generation current = expected_generation))) ;;
      raise (RuntimeError "assignment is not configured for phase advancement")
        when (negb (a_enabled current) || negb (a_advance current)) ;;
      raise (RuntimeError "unfinished member work prevents phase advancement")
        when (existsb (unfinished_in (a_project current) (a_phase current)) (dvals tasks)) ;;
      _ ← require_catalog_phase (a_project current) next_phase;
      _ ← check_id next_phase "phase";
      let row := {| a_project := a_project current; a_phase := next_phase; a_generation := expected_generation + 1;
                    a_enabled := true; a_advance := true; a_changed_by := p_member actor |} in
      Ok (cursor_of member_id row, write_cursor member_id row r)
  end.

Definition set_phase_owner (r : Registry) (actor : Principal) (project phase_ : string) (owner_id : option string)
    (expected_generation : Z) : result exn (PhaseOwner * Registry) :=
  r ← administer_state r actor;
  _ ← require_catalog_phase project phase_;
  raise (ValueError "phase owner must be an active garden member")
    when (match owner_id with
          | Some o => negb (bool_decide (o ∈ active_execution_member_ids r project))
          | None => false
          end) ;;
  let key := (project ++ "/" ++ phase_)%string in
  let generation := match phase_owners r !! key with Some o => o_generation o | None => 0 end in
  raise (RuntimeError "stale phase owner generation") when (negb (bool_decide (generation = expected_generation))) ;;
  let row := {| o_owner := default "" owner_id; o_generation := generation + 1; o_changed_by := p_member actor |} in
  Ok ({| po_project := project; po_phase := phase_; po_owner := o_owner row; po_generation := generation + 1;
         po_changed_by := p_member actor |},
      set_owners (<[key := row]> (phase_owners r)) r).

(** [_add_member] *)
Definition add_member_row (r : Registry) (member_id role_ visibility_ : string) (projects_ : list string)
    : result exn Registry :=
  _ ← check_id member_id "member_id";
  raise (ValueError "role must be administrator, member, or viewer") when (negb (mem role_ ROLES)) ;;
  raise (ValueError "project_visibility must be all or assigned") when (negb (mem visibility_ VISIBILITIES)) ;;
  ids ← mapR (fun value => check_id value "project") projects_;
  let normalized := sorted_set ids in
  raise (ValueError "projects may only be supplied with assigned visibility")
    when (bool_decide (visibility_ = "all") && nonempty_list normalized) ;;
  raise (ValueError "member already exists") when (bool_decide (is_Some (members r !! member_id))) ;;
  Ok (set_members (<[member_id := {| role := role_; m_active := true; visibility := visibility_;
                                     projects := normalized |}]> (members r)) r).

Definition token_of (garden installation secret : string) : string :=
  ("v1." ++ unpadded (b64encode garden) ++ "." ++ unpadded (b64encode installation) ++ "." ++ secret)%string.

(** [_set_secret], given the fresh secret and salt; [row] is the installation it updates. *)
Definition set_secret (r : Registry) (installation_id : string) (row : Installation) (secret salt : string)
    : string * Registry :=
  (token_of (garden_id r) installation_id secret,
   set_installations (<[installation_id := {| i_member := i_member row; revoked := false;
     authentication := authentication row;
     secret_row := Some (unpadded (b64encode salt), verifier secret salt) |}]> (installations r)) r).

(** [_add_installation] *)
Definition add_installation (r : Registry) (member_id installation_id secret salt : string)
    : result exn (string * Registry) :=
  _ ← check_id installation_id "installation_id";
  raise (KeyError member_id) when (negb (bool_decide (is_Some (members r !! member_id)))) ;;
  raise (ValueError "installation already exists") when (bool_decide (is_Some (installations r !! installation_id))) ;;
  Ok (set_secret r installation_id
        {| i_member := member_id; revoked := false; authentication := ""; secret_row := None |} secret salt).

Definition enroll_administrator (r : Registry) (garden member_id installation_id secret salt : string)
    : result exn (string * Registry) :=
  raise (PermissionError "administrator enrollment is only allowed for an empty registry")
    when (negb (bool_decide (members r = ∅)) || negb (bool_decide (dom (installations r) = ∅))) ;;
  _ ← check_id garden "garden_id";
  r ← add_member_row (set_garden garden r) member_id "administrator" "all" [];
  add_installation r member_id installation_id secret salt.

Definition add_member (r : Registry) (actor : Principal) (member_id role_ visibility_ : string) (projects_ : list string)
    : result exn Registry :=
  r ← administer_state r actor; add_member_row r member_id role_ visibility_ projects_.

Definition issue_installation (r : Registry) (actor : Principal) (member_id installation_id secret salt : string)
    : result exn (string * Registry) :=
  r ← authorized_state r actor;
  raise (PermissionError "cannot issue another member's installation")
    when (negb (bool_decide (p_member actor = member_id)) && negb (administers actor)) ;;
  add_installation r member_id installation_id secret salt.

Definition principal_of (r : Registry) (member_id installation_id : string) (m : Member) : Principal :=
  {| p_garden := garden_id r; p_member := member_id; p_installation := installation_id; p_role := role m;
     p_visibility := visibility m; p_projects := list_to_set (projects m) |}.

Definition enroll_username_installation (r : Registry) (username installation_id : string)
    : result exn (Principal * Registry) :=
  _ ← check_id username "operating-system username";
  _ ← check_id installation_id "installation_id";
  match members r !! username with
  | None => Err (PermissionError "operating-system username is not an active garden member")
  | Some m =>
      raise (PermissionError "operating-system username is not an active garden member") when (negb (m_active m)) ;;
      let fresh := {| i_member := username; revoked := false; authentication := "temporary-username"; secret_row := None |} in
      let '(i, r') := match installations r !! installation_id with
                      | Some i => (i, r)
                      | None => (fresh, set_installations (<[installation_id := fresh]> (installations r)) r)
                      end in
      raise (PermissionError "installation is unavailable for this operating-system user")
        when (negb (bool_decide (i_member i = username)) || negb (bool_decide (authentication i = "temporary-username"))
              || revoked i) ;;
      Ok (principal_of r' username installation_id m, r')
  end.

(** The common guard of rotation and revocation. *)
Definition own_installation (r : Registry) (actor : Principal) (installation_id verb : string)
    : result exn Installation :=
  r ← authorized_state r actor;
  match installations r !! installation_id with
  | None => Err (KeyError installation_id)
  | Some row =>
      raise (PermissionError ("cannot " ++ verb ++ " another member's installation"))
        when (negb (bool_decide (i_member row = p_member actor)) && negb (administers actor)) ;;
      Ok row
  end.

Definition rotate_installation (r : Registry) (actor : Principal) (installation_id secret salt : string)
    : result exn (string * Registry) :=
  row ← own_installation r actor installation_id "rotate"; Ok (set_secret r installation_id row secret salt).

Definition revoke_installation (r : Registry) (actor : Principal) (installation_id : string) : result exn Registry :=
  row ← own_installation r actor installation_id "revoke";
  Ok (set_installations (<[installation_id := {| i_member := i_member row; revoked := true;
        authentication := authentication row; secret_row := secret_row row |}]> (installations r)) r).

Definition set_member_active (r : Registry) (actor : Principal) (member_id : string) (active_ : bool)
    : result exn Registry :=
  r ← administer_state r actor;
  match members r !! member_id with
  | None => Err (KeyError member_id)
  | Some m => Ok (set_members (<[member_id := {| role := role m; m_active := active_; visibility := visibility m;
                                                 projects := projects m |}]> (members r)) r)
  end.

(** ** Authentication *)

(** [s.split(".", n)] *)
Fixpoint split_dots (n : nat) (cur s : string) : list string :=
  match s with
  | EmptyString => [cur]
  | String c s' =>
      match n with
      | S n' => if not_dot c then split_dots n (cur ++ String c "") s' else cur :: split_dots n' "" s'
      | O => [cur ++ s]%string
      end
  end.

Definition decode_id (value : string) : option string :=
  s ← b64decode (value ++ padding value)%string; if utf8_valid s then Some s else None.

Definition authenticate (r : Registry) (token : string) : option Principal :=
  match split_dots 3 "" token with
  | [version; encoded_garden; encoded_installation; secret] =>
      if negb (bool_decide (version = "v1")) then None else
      garden ← decode_id encoded_garden;
      installation_id ← decode_id encoded_installation;
      i ← installations r !! installation_id;
      m ← members r !! i_member i;
      sv ← secret_row i;
      salt ← b64decode (sv.1 ++ "==")%string;
      let actual := verifier secret salt in
      if negb (bool_decide (garden = garden_id r)) || revoked i || negb (m_active m) then None
      else if negb (bool_decide (actual = sv.2)) then None
      else Some {| p_garden := garden; p_member := i_member i; p_installation := installation_id;
                   p_role := role m; p_visibility := visibility m; p_projects := list_to_set (projects m) |}
  | _ => None
  end.

Definition authenticate_username (r : Registry) (username installation_id : string) : option Principal :=
  i ← installations r !! installation_id;
  m ← members r !! i_member i;
  if negb (bool_decide (i_member i = username)) || negb (bool_decide (authentication i = "temporary-username"))
     || revoked i || negb (m_active m)
  then None else Some (principal_of r (i_member i) installation_id m).
End operations.

(** ** Accepted Git ownership ([synchronize_authority]) *)

Record SyncAssignment := {
  sa_project : string; sa_phase : string; sa_generation : option Z; sa_enabled : option bool; sa_advance : option bool;
}.
Record SyncEntity := { e_kind : string; e_scope : string; e_owner : option string; e_generation : option Z }.

Definition sync_member (r : Registry) (kv : string * option SyncAssignment) : Registry :=
  match kv.2 with
  | Some a =>
      write_cursor kv.1 {| a_project := sa_project a; a_phase := sa_phase a;
        a_generation := default 0 (sa_generation a); a_enabled := default true (sa_enabled a);
        a_advance := default false (sa_advance a); a_changed_by := "git-coordination" |} r
  | None => set_cursors (delete kv.1 (assignments r)) (assignment_generations r) r
  end.

Definition sync_entity (r : Registry) (e : SyncEntity) : Registry :=
  if decide (e_kind e = "phase") then
    set_owners (<[e_scope e := {| o_owner := default "" (e_owner e); o_generation := default 0 (e_generation e);
      o_changed_by := "git-coordination" |}]> (phase_owners r)) r
  else r.

Definition synchronize_authority (r : Registry) (members_ : list (string * option SyncAssignment))
    (authority : list SyncEntity) : Registry :=
  foldl sync_entity (foldl sync_member r members_) authority.

(** ** The registry as a transition system *)

Inductive operation :=
| EnrollAdministrator (garden member_id installation_id secret salt : string)
| AddMember (actor : Principal) (member_id role_ visibility_ : string) (projects_ : list string)
| IssueInstallation (actor : Principal) (member_id installation_id secret salt : string)
| EnrollUsername (username installation_id : string)
| RotateInstallation (actor : Principal) (installation_id secret salt : string)
| RevokeInstallation (actor : Principal) (installation_id : string)
| SetMemberActive (actor : Principal) (member_id : string) (active_ : bool)
| SetAssignment (actor : Principal) (member_id project phase_ : string) (enabled advance : bool) (expected : Z)
| ClearAssignment (actor : Principal) (member_id : string) (expected : Z)
| AdvanceAssignment (actor : Principal) (member_id next_phase : string) (tasks : tasks_t) (expected : Z)
| SetPhaseOwner (actor : Principal) (project phase_ : string) (owner_id : option string) (expected : Z)
| Synchronize (members_ : list (string * option SyncAssignment)) (authority : list SyncEntity).

Section transitions.
Variable catalog : string -> string -> bool.
Variable verifier : string -> string -> string.

(** What an operation writes; a refused one writes nothing. *)
Definition perform (r : Registry) (o : operation) : result exn Registry :=
  match o with
  | EnrollAdministrator g m i secret salt => snd <$> enroll_administrator verifier r g m i secret salt
  | AddMember a m ro vi ps => add_member r a m ro vi ps
  | IssueInstallation a m i secret salt => snd <$> issue_installation verifier r a m i secret salt
  | EnrollUsername u i => snd <$> enroll_username_installation r u i
  | RotateInstallation a i secret salt => snd <$> rotate_installation verifier r a i secret salt
  | RevokeInstallation a i => revoke_installation r a i
  | SetMemberActive a m b => set_member_active r a m b
  | SetAssignment a m pr ph en ad ex => snd <$> set_assignment catalog r a m pr ph en ad ex
  | ClearAssignment a m ex => clear_assignment r a m ex
  | AdvanceAssignment a m ph ts ex => snd <$> advance_assignment catalog r a m ph ts ex
  | SetPhaseOwner a pr ph o ex => snd <$> set_phase_owner catalog r a pr ph o ex
  | Synchronize ms es => Ok (synchronize_authority r ms es)
  end.

Inductive reachable : Registry -> Prop :=
| reach_empty : reachable empty_registry
| reach_step r o r' : reachable r -> perform r o = Ok r' -> reachable r'.
End transitions.

(** ** Lemmas: guards *)

Lemma check_id_Ok v l x : check_id v l = Ok x -> x = v /\ valid_id v = true.
Proof. unfold check_id. intros H. run H. by guards. Qed.

Lemma authorized_state_Ok r a r' : authorized_state r a = Ok r' -> r' = r /\ authorized r a = true.
Proof. unfold authorized_state. intros H. run H. by guards. Qed.

Lemma administer_state_Ok r a r' : administer_state r a = Ok r' -> r' = r /\ authorized r a = true /\ administers a = true.
Proof. unfold administer_state. intros H. run H. guards.
  by match goal with E : authorized_state _ _ = Ok _ |- _ => apply authorized_state_Ok in E as [-> ?] end. Qed.

(** [run], dropping the registry that the authority guards return unchanged. *)
Ltac act H :=
  run H;
  repeat match goal with
    | E : authorized_state _ _ = Ok _ |- _ => apply authorized_state_Ok in E as [-> E]
    | E : administer_state _ _ = Ok _ |- _ => apply administer_state_Ok in E as (-> & E & ?)
    | E : check_id _ _ = Ok _ |- _ => apply check_id_Ok in E as [-> E]
    end; guards; simplify_eq.

Lemma authorized_inv r a : authorized r a = true ->
  exists m i, members r !! p_member a = Some m /\ installations r !! p_installation a = Some i /\
    p_garden a = garden_id r /\ m_active m = true /\ revoked i = false /\ i_member i = p_member a /\
    p_role a = role m /\ p_visibility a = visibility m /\ p_projects a = list_to_set (projects m).
Proof.
  unfold authorized. destruct (members r !! _) as [m|], (installations r !! _) as [i|]; try done.
  intros H. guards. exists m, i. by split_and!.
Qed.

Lemma own_installation_Ok r a i v row : own_installation r a i v = Ok row ->
  authorized r a = true /\ installations r !! i = Some row.
Proof. unfold own_installation. intros H. by act H. Qed.

Lemma elem_of_members_where f r k : k ∈ members_where f r <-> exists m, members r !! k = Some m /\ f m = true.
Proof.
  unfold members_where. rewrite elem_of_dom. unfold is_Some. setoid_rewrite map_lookup_filter_Some. cbn. done.
Qed.

(** ** The invariant *)

Record member_wf (k : string) (m : Member) : Prop := {
  mw_id : valid_id k = true;
  mw_role : role m ∈ ROLES;
  mw_visibility : visibility m ∈ VISIBILITIES;
  mw_projects : Forall (fun p => valid_id p = true) (projects m);
  mw_nodup : NoDup (projects m);
  mw_all : visibility m = "all" -> projects m = [];
}.

Record registry_wf (r : Registry) : Prop := {
  wf_members : forall k m, members r !! k = Some m -> member_wf k m;
  wf_garden : members r <> ∅ -> valid_id (garden_id r) = true;
  wf_installations : forall k i, installations r !! k = Some i ->
    valid_id k = true /\ is_Some (members r !! i_member i);
  wf_cursors : forall k a, assignments r !! k = Some a -> assignment_generations r !! k = Some (a_generation a);
}.

Lemma empty_registry_wf : registry_wf empty_registry.
Proof. split; cbn; intros; try done; by rewrite lookup_empty in *. Qed.

Lemma set_cursors_wf a g r : registry_wf r ->
  (forall k x, a !! k = Some x -> g !! k = Some (a_generation x)) -> registry_wf (set_cursors a g r).
Proof. intros []. by split. Qed.

Lemma write_cursor_wf k a r : registry_wf r -> registry_wf (write_cursor k a r).
Proof.
  intros Hw. apply set_cursors_wf; [done|]. intros k' x. destruct (decide (k' = k)) as [->|Hne].
  - rewrite !lookup_insert_eq. congruence.
  - rewrite !lookup_insert_ne by done. apply Hw.
Qed.

Lemma set_owners_wf o r : registry_wf r -> registry_wf (set_owners o r).
Proof. intros []. by split. Qed.

Lemma insert_installation_wf k i r : registry_wf r -> valid_id k = true -> is_Some (members r !! i_member i) ->
  registry_wf (set_installations (<[k := i]> (installations r)) r).
Proof.
  intros [] Hk Hi. split; cbn; [done..| |done]. intros k' i'.
  destruct (decide (k' = k)) as [->|Hne]; [rewrite lookup_insert_eq; by intros [= <-]|].
  rewrite lookup_insert_ne by done. auto.
Qed.

Lemma insert_member_wf k m r : registry_wf r -> member_wf k m -> valid_id (garden_id r) = true ->
  registry_wf (set_members (<[k := m]> (members r)) r).
Proof.
  intros [] Hm Hg. split; cbn; [|done| |done].
  - intros k' m'. destruct (decide (k' = k)) as [->|Hne]; [rewrite lookup_insert_eq; by intros [= <-]|].
    rewrite lookup_insert_ne by done. auto.
  - intros k' i Hi. destruct (wf_installations0 k' i Hi) as [? Hs]. split; [done|].
    rewrite lookup_insert_is_Some. destruct (decide (k = i_member i)); [by left|by right].
Qed.

Lemma mapR_check_id l label ids : mapR (fun v => check_id v label) l = Ok ids ->
  ids = l /\ Forall (fun p => valid_id p = true) l.
Proof.
  revert ids. induction l as [|x l IH]; intros ids H; cbn in H; [by injection H as <-|].
  act H. match goal with E : mapR _ l = Ok _ |- _ => apply IH in E as [-> ?] end. split; [done|]. by constructor.
Qed.

Lemma add_member_row_wf r k ro vi ps r' : add_member_row r k ro vi ps = Ok r' ->
  registry_wf r -> valid_id (garden_id r) = true -> registry_wf r' /\ is_Some (members r' !! k) /\ garden_id r' = garden_id r.
Proof.
  unfold add_member_row. intros H Hw Hg. act H.
  match goal with E : mapR _ _ = Ok _ |- _ => apply mapR_check_id in E as [-> Hps] end.
  split; [|by cbn; rewrite lookup_insert_eq]. apply insert_member_wf; [done| |done].
  split; cbn; [done|by apply mem_spec..| |apply NoDup_sorted_set|].
  - apply Forall_forall. intros p Hp. rewrite elem_of_sorted_set in Hp. rewrite Forall_forall in Hps. by apply Hps.
  - intros ->. match goal with E : _ && _ = false |- _ => apply andb_false_iff in E as [E|E] end; [done|].
    by destruct (sorted_set ps).
Qed.

Lemma add_installation_wf v r m k secret salt tr : add_installation v r m k secret salt = Ok tr ->
  registry_wf r -> registry_wf tr.2.
Proof. unfold add_installation, set_secret. intros H Hw. act H. by apply insert_installation_wf. Qed.

Lemma sync_member_wf r kv : registry_wf r -> registry_wf (sync_member r kv).
Proof.
  intros Hw. unfold sync_member. destruct (kv.2); [by apply write_cursor_wf|]. apply set_cursors_wf; [done|].
  intros k x [_ Hx]%lookup_delete_Some. by apply Hw.
Qed.

Lemma synchronize_wf r ms es : registry_wf r -> registry_wf (synchronize_authority r ms es).
Proof.
  intros Hw. unfold synchronize_authority. assert (Hm : registry_wf (foldl sync_member r ms)).
  { revert r Hw. induction ms as [|kv ms IH]; intros r Hw; cbn; [done|]. by apply IH, sync_member_wf. }
  revert Hm. generalize (foldl sync_member r ms). clear r Hw. induction es as [|e es IH]; intros r Hw; cbn; [done|].
  apply IH. unfold sync_entity. case_decide; [by apply set_owners_wf|done].
Qed.

Lemma authorized_garden r a : registry_wf r -> authorized r a = true -> valid_id (garden_id r) = true.
Proof.
  intros Hw (m & i & Hm & _)%authorized_inv. apply Hw. intros He. by rewrite He, lookup_empty in Hm.
Qed.

Section transition_lemmas.
Context (catalog : string -> string -> bool) (verifier : string -> string -> string).

Lemma perform_wf r o r' : perform catalog verifier r o = Ok r' -> registry_wf r -> registry_wf r'.
Proof.
  intros H Hw. destruct o; cbn [perform] in H.
  - unfold enroll_administrator in H. act H.
        match goal with E : add_member_row _ _ _ _ _ = Ok _ |- _ => apply add_member_row_wf in E as (Hw' & _ & _) end.
    + by eapply add_installation_wf.
    + destruct Hw. by split.
    + done.
  - unfold add_member in H. act H. eapply add_member_row_wf; eauto using authorized_garden.
  - unfold issue_installation in H. act H. by eapply add_installation_wf.
  - unfold enroll_username_installation in H. act H. cbn.
    match goal with E : match _ with _ => _ end = _ |- _ => destruct (installations r !! _); simplify_eq end; [done|].
    by apply insert_installation_wf.
  - unfold rotate_installation in H. act H.
    match goal with E : own_installation _ _ _ _ = Ok _ |- _ => apply own_installation_Ok in E as [? Hi] end.
    destruct (wf_installations _ Hw _ _ Hi). by apply insert_installation_wf.
  - unfold revoke_installation in H. act H.
    match goal with E : own_installation _ _ _ _ = Ok _ |- _ => apply own_installation_Ok in E as [? Hi] end.
    destruct (wf_installations _ Hw _ _ Hi). by apply insert_installation_wf.
  - unfold set_member_active in H. act H. apply insert_member_wf; [done| |by eapply authorized_garden].
    by destruct (wf_members _ Hw _ _ ltac:(eassumption)).
  - unfold set_assignment in H. act H. by apply write_cursor_wf.
  - unfold clear_assignment in H. act H. apply set_cursors_wf; [done|].
    intros k x [Hk Hx]%lookup_delete_Some. rewrite lookup_insert_ne by done. by apply Hw.
  - unfold advance_assignment in H. act H. by apply write_cursor_wf.
  - unfold set_phase_owner in H. act H; by apply set_owners_wf.
  - injection H as <-. by apply synchronize_wf.
Qed.

Lemma reachable_wf r : reachable catalog verifier r -> registry_wf r.
Proof. induction 1; [apply empty_registry_wf|by eapply perform_wf]. Qed.
End transition_lemmas.

(** ** Lemmas: tokens *)

Lemma split_dots_skip n cur s t : str_all not_dot s = true ->
  split_dots (S n) cur (s ++ t)%string = split_dots (S n) (cur ++ s)%string t.
Proof.
  revert cur. induction s as [|c s IH]; intros cur H; [by rewrite str_app_nil_l, str_app_nil_r|].
  cbn [str_all] in H. guards. rewrite str_app_cons. cbn [split_dots].
  rewrite H, IH, str_app_assoc by done. by rewrite str_app_cons.
Qed.

Lemma split_dots_cut n cur t : split_dots (S n) cur ("." ++ t)%string = cur :: split_dots n "" t.
Proof. done. Qed.

Lemma split_dots_0 cur t : split_dots 0 cur t = [cur ++ t]%string.
Proof. destruct t; cbn; [by rewrite str_app_nil_r|done]. Qed.

Lemma split_token g i s :
  split_dots 3 "" (token_of g i s) = ["v1"; unpadded (b64encode g); unpadded (b64encode i); s].
Proof.
  unfold token_of. change ("v1." ++ ?x)%string with ("v1" ++ "." ++ x)%string.
  rewrite split_dots_skip by done. rewrite split_dots_cut, split_dots_skip, split_dots_cut by apply b64encode_no_dot.
  rewrite split_dots_skip, split_dots_cut, split_dots_0 by apply b64encode_no_dot. by rewrite !str_app_nil_l.
Qed.

Lemma ascii_utf8 s : str_all (in_range 0 127) s = true -> utf8_valid s = true.
Proof. induction s as [|c s IH]; cbn [str_all utf8_valid]; [done|]. intros H. guards. rewrite H. auto. Qed.

Lemma owner_tail_ascii c : owner_tail c = true -> in_range 0 127 c = true.
Proof. destruct c as [[] [] [] [] [] [] [] []]; vm_compute; done. Qed.
Lemma alnum_ascii c : is_alnum c = true -> in_range 0 127 c = true.
Proof. intros H. apply owner_tail_ascii. unfold owner_tail. by rewrite H. Qed.

Lemma valid_id_utf8 s : valid_id s = true -> utf8_valid s = true.
Proof.
  unfold valid_id, owner_id_ok. destruct s as [|c s]; [done|]. intros H. guards. apply ascii_utf8.
  cbn [str_all]. rewrite alnum_ascii by done. eapply str_all_impl; [|done]. apply owner_tail_ascii.
Qed.

Lemma decode_id_encode s : valid_id s = true -> decode_id (unpadded (b64encode s)) = Some s.
Proof. intros H. unfold decode_id. rewrite b64decode_padding. cbn. by rewrite valid_id_utf8. Qed.

(** The one credential check: the presented secret against the stored row. *)
Lemma authenticate_token v r i row m salt secret_v s :
  valid_id (garden_id r) = true -> valid_id i = true ->
  installations r !! i = Some row -> members r !! i_member row = Some m ->
  secret_row row = Some (unpadded (b64encode salt), secret_v) ->
  authenticate v r (token_of (garden_id r) i s) =
  if negb (revoked row) && m_active m && bool_decide (v s salt = secret_v)
  then Some (principal_of r (i_member row) i m) else None.
Proof.
  intros Hg Hi Hrow Hm Hs. unfold authenticate. rewrite split_token. cbn [bool_decide decide negb].
  rewrite bool_decide_eq_true_2 by done. cbn [negb]. rewrite !decode_id_encode by done. cbn [mbind option_bind].
  rewrite Hrow. cbn. rewrite Hm. cbn. rewrite Hs. cbn [mbind option_bind fst snd]. rewrite b64decode_two_pads. cbn.
  rewrite bool_decide_eq_true_2 by done. cbn. destruct (revoked row), (m_active m); cbn; try done.
  by destruct (bool_decide (v s salt = secret_v)).
Qed.

Lemma authenticate_inv v r token p : authenticate v r token = Some p ->
  exists row m, installations r !! p_installation p = Some row /\ members r !! i_member row = Some m /\
    revoked row = false /\ m_active m = true /\ p = principal_of r (i_member row) (p_installation p) m.
Proof.
  unfold authenticate. destruct (split_dots 3 "" token) as [|ver [|eg [|ei [|s [|]]]]]; try done.
  case_match; [done|]. intros Hr.
  apply bind_Some in Hr as (g & _ & Hr). apply bind_Some in Hr as (i & _ & Hr).
  apply bind_Some in Hr as (row & Hrow & Hr). apply bind_Some in Hr as (m & Hm & Hr).
  apply bind_Some in Hr as (sv & _ & Hr). apply bind_Some in Hr as (salt & _ & Hr).
  cbv zeta in Hr. case_match; [done|]. case_match; [done|]. injection Hr as <-. guards. subst g. exists row, m. by split_and!.
Qed.

Lemma principal_authorized r i row m : installations r !! i = Some row -> members r !! i_member row = Some m ->
  revoked row = false -> m_active m = true -> authorized r (principal_of r (i_member row) i m) = true.
Proof.
  intros Hi Hm Hr Ha. unfold authorized. cbn. rewrite Hm, Hi, Hr, Ha. by rewrite !bool_decide_eq_true_2.
Qed.

Lemma authenticate_authorized v r token p : authenticate v r token = Some p -> authorized r p = true.
Proof. intros (row & m & Hi & Hm & Hr & Ha & ->)%authenticate_inv. by apply principal_authorized. Qed.

(** ** Lemmas: versioned targets *)

(** What an operation replaces under a generation check, and the generation it expects. *)
Inductive target := Cursor (member_id : string) | PhaseScope (key : string).
#[export] Instance target_eq_dec : EqDecision target.
Proof. solve_decision. Defined.

Definition versioned (o : operation) : option (target * Z) :=
  match o with
  | SetAssignment _ m _ _ _ _ ex | ClearAssignment _ m ex | AdvanceAssignment _ m _ _ ex => Some (Cursor m, ex)
  | SetPhaseOwner _ pr ph _ ex => Some (PhaseScope (pr ++ "/" ++ ph)%string, ex)
  | _ => None
  end.

Definition generation_of (r : Registry) (t : target) : Z :=
  match t with
  | Cursor m => current_generation r m
  | PhaseScope k => match phase_owners r !! k with Some o => o_generation o | None => 0 end
  end.

Definition is_sync (o : operation) : bool := match o with Synchronize _ _ => true | _ => false end.

Lemma current_generation_write k a r m :
  current_generation (write_cursor k a r) m = if decide (m = k) then a_generation a else current_generation r m.
Proof.
  unfold current_generation, write_cursor. cbn. case_decide as Hmk; [subst; by rewrite lookup_insert_eq|].
  by rewrite !lookup_insert_ne.
Qed.

Lemma add_member_row_frame r k ro vi ps r' t : add_member_row r k ro vi ps = Ok r' -> generation_of r' t = generation_of r t.
Proof. unfold add_member_row. intros H. act H. by destruct t. Qed.
Lemma add_installation_frame v r m k secret salt tr t :
  add_installation v r m k secret salt = Ok tr -> generation_of tr.2 t = generation_of r t.
Proof. unfold add_installation, set_secret. intros H. act H. by destruct t. Qed.

Section versioned_lemmas.
Context (catalog : string -> string -> bool) (verifier : string -> string -> string).
Local Abbreviation perform := (perform catalog verifier).

(** An accepted operation advances exactly the generation it names, from the one it expected. *)
Lemma perform_generation r o r' t : perform r o = Ok r' -> is_sync o = false ->
  match versioned o with
  | Some (t', g) => generation_of r t' = g /\
      generation_of r' t = if decide (t = t') then g + 1 else generation_of r t
  | None => generation_of r' t = generation_of r t
  end.
Proof.
  intros H Hs. destruct o; cbn [Members.perform versioned] in *; try done.
  - unfold enroll_administrator in H. act H.
    match goal with E : add_member_row _ _ _ _ _ = Ok _, E' : add_installation _ _ _ _ _ _ = Ok _ |- _ =>
      rewrite (add_installation_frame _ _ _ _ _ _ _ _ E'), (add_member_row_frame _ _ _ _ _ _ _ E) end. by destruct t.
  - unfold add_member in H. act H. by eapply add_member_row_frame.
  - unfold issue_installation in H. act H. by eapply add_installation_frame.
  - unfold enroll_username_installation in H. act H. cbn.
    match goal with E : match _ with _ => _ end = _ |- _ => destruct (installations r !! _); simplify_eq end; [done|].
    by destruct t.
  - unfold rotate_installation in H. act H. by destruct t.
  - unfold revoke_installation in H. act H. by destruct t.
  - unfold set_member_active in H. act H. by destruct t.
  - unfold set_assignment in H. act H. split; [done|]. cbn [snd]. destruct t as [m|k]; cbn [generation_of].
    + rewrite current_generation_write. cbn. repeat case_decide; simplify_eq; done.
    + by rewrite decide_False.
  - unfold clear_assignment in H. act H. split; [cbn; unfold current_generation; by simplify_option_eq|].
    destruct t as [m|k]; cbn [generation_of]; [|by rewrite decide_False].
    unfold current_generation. cbn. destruct (decide (m = member_id)) as [->|Hne].
    + by rewrite lookup_delete_eq, lookup_insert_eq, decide_True.
    + rewrite lookup_delete_ne, lookup_insert_ne, decide_False by congruence. done.
  - unfold advance_assignment in H. act H. split; [cbn; unfold current_generation; by simplify_option_eq|].
    destruct t as [m|k]; cbn [generation_of snd]; [|by rewrite decide_False].
    rewrite current_generation_write. cbn. repeat case_decide; simplify_eq; done.
  - unfold set_phase_owner in H. cbv zeta in H. act H; (split; [cbn; by simplify_option_eq|]);
      destruct t as [m|k]; cbn [generation_of snd]; try (by rewrite decide_False); cbn;
      (destruct (decide (k = (project ++ "/" ++ phase_)%string)) as [->|Hne];
       [rewrite lookup_insert_eq, decide_True by done; done|rewrite lookup_insert_ne, decide_False by congruence; done]).
Qed.
End versioned_lemmas.

(** A sequence of accepted operations, each satisfying [ok]. *)
Inductive runs (catalog : string -> string -> bool) (verifier : string -> string -> string) (ok : operation -> bool) :
    Registry -> Registry -> Prop :=
| runs_refl r : runs catalog verifier ok r r
| runs_step r o r' r'' : ok o = true -> perform catalog verifier r o = Ok r' ->
    runs catalog verifier ok r' r'' -> runs catalog verifier ok r r''.

(** ** Lemmas: revocation *)

Definition rotates (i : string) (o : operation) : bool :=
  match o with RotateInstallation _ j _ _ => bool_decide (j = i) | _ => false end.

Definition is_revoked (i : string) (r : Registry) : Prop := exists row, installations r !! i = Some row /\ revoked row = true.

Lemma is_revoked_insert i k row r : is_revoked i r -> (k = i -> revoked row = true) ->
  is_revoked i (set_installations (<[k := row]> (installations r)) r).
Proof.
  intros (x & Hx & Hr) Hk. unfold is_revoked. cbn. destruct (decide (i = k)) as [->|Hne].
  - exists row. rewrite lookup_insert_eq. auto.
  - exists x. by rewrite lookup_insert_ne.
Qed.

Lemma add_installation_revoked v r m k secret salt tr i :
  add_installation v r m k secret salt = Ok tr -> is_revoked i r -> is_revoked i tr.2.
Proof.
  unfold add_installation, set_secret. intros H (row & Hi & Hr). act H. apply is_revoked_insert; [by exists row|].
  intros ->. exfalso. match goal with E : ~ is_Some (installations r !! i) |- _ => apply E end. by exists row.
Qed.

Lemma sync_installations r ms es : installations (synchronize_authority r ms es) = installations r.
Proof.
  unfold synchronize_authority. assert (Hm : installations (foldl sync_member r ms) = installations r).
  { revert r. induction ms as [|[k [a|]] ms IH]; intros r; cbn [foldl]; [done|by rewrite IH..]. }
  rewrite <- Hm. generalize (foldl sync_member r ms). clear r Hm. induction es as [|e es IH]; intros r; cbn [foldl]; [done|].
  rewrite IH. unfold sync_entity. by case_decide.
Qed.

Section revocation.
Context (catalog : string -> string -> bool) (verifier : string -> string -> string).

Lemma perform_revoked r o r' i : perform catalog verifier r o = Ok r' -> rotates i o = false ->
  is_revoked i r -> is_revoked i r'.
Proof.
  intros H Hn Hi. destruct o; cbn [perform rotates] in H, Hn.
  - unfold enroll_administrator in H. act H. destruct Hi as (row & Hi & _).
    exfalso. assert (i ∈ dom (installations r)) by (apply elem_of_dom; eauto). set_solver.
  - unfold add_member, add_member_row in H. by act H.
  - unfold issue_installation in H. act H. by eapply add_installation_revoked.
  - unfold enroll_username_installation in H. act H. cbn.
    destruct (installations r !! installation_id) eqn:Hj; simplify_eq; [done|]. apply is_revoked_insert; [done|].
    intros ->. destruct Hi as (? & ? & _). congruence.
  - unfold rotate_installation in H. act H. apply is_revoked_insert; [done|]. by intros ->.
  - unfold revoke_installation in H. act H. by apply is_revoked_insert.
  - unfold set_member_active in H. by act H.
  - unfold set_assignment in H. by act H.
  - unfold clear_assignment in H. by act H.
  - unfold advance_assignment in H. by act H.
  - unfold set_phase_owner in H. by act H.
  - injection H as <-. unfold is_revoked. by rewrite sync_installations.
Qed.

Lemma runs_revoked r r' i : runs catalog verifier (fun o => negb (rotates i o)) r r' -> is_revoked i r -> is_revoked i r'.
Proof. induction 1 as [|r o r' r'' Ho Hp _ IH]; [done|]. guards. eauto using perform_revoked. Qed.

Lemma runs_generation r r' t : runs catalog verifier (fun o => negb (is_sync o)) r r' ->
  generation_of r t <= generation_of r' t.
Proof.
  induction 1 as [|r o r' r'' Ho Hp _ IH]; [done|]. guards. pose proof (perform_generation _ _ _ _ _ t Hp Ho) as Hg.
  destruct (versioned o) as [[t' g]|]; [|lia]. destruct Hg as [Hg Hg']. case_decide; subst; lia.
Qed.
End revocation.

Lemma revoked_unauthorized i r p : is_revoked i r -> p_installation p = i -> authorized r p = false.
Proof.
  intros (row & Hi & Hr) <-. destruct (authorized r p) eqn:Ha; [|done].
  apply authorized_inv in Ha as (? & ? & _ & Hi' & _ & _ & Hr' & _). congruence.
Qed.

(** ** Lemmas: executable work *)

Lemma elem_of_filterR {E A} (f : A -> result E bool) l l' : filterR f l = Ok l' ->
  forall x, x ∈ l' <-> x ∈ l /\ f x = Ok true.
Proof.
  revert l'. induction l as [|y l IH]; intros l' H x; cbn in H; run H; subst; [set_solver|].
  match goal with E : filterR f l = Ok _ |- _ => specialize (IH _ E x) end.
  match goal with |- context [if ?b then _ else _] => destruct b end; rewrite ?elem_of_cons, IH; naive_solver congruence.
Qed.

Lemma effective_owner_executes r t m : (effective_task_owner r t).1 = m -> m <> "" ->
  m ∈ active_execution_member_ids r (product t).
Proof.
  unfold effective_task_owner. destruct (owner_unassigned t); [by intros <-|].
  match goal with |- context [let '(_, _) := ?x in _] => destruct x as [o src] end.
  destruct (nonempty o); cbn; [|by intros <-]. case_decide; cbn; [by intros <-|by intros <-].
Qed.

(** ** A sample registry *)

Module Sample.
Definition any_phase (_ _ : string) : bool := true.
Definition plain_verifier (secret salt : string) : string := (secret ++ ":" ++ salt)%string.

Definition admin : Principal :=
  {| p_garden := "g"; p_member := "ann"; p_installation := "laptop"; p_role := "administrator";
     p_visibility := "all"; p_projects := ∅ |}.

Definition script : list operation :=
  [EnrollAdministrator "g" "ann" "laptop" "s1" "x"; AddMember admin "bob" "member" "assigned" ["w"; "v"; "w"];
   SetPhaseOwner admin "w" "p1" (Some "bob") 0; SetAssignment admin "bob" "w" "p1" true false 0].

Definition played : result exn Registry := foldR (perform any_phase plain_verifier) script empty_registry.
Definition after_script : Registry := match played with Ok r => r | Err _ => empty_registry end.
Definition issued : string * Registry :=
  match issue_installation plain_verifier after_script admin "bob" "desk" "s2" "y" with
  | Ok tr => tr
  | Err _ => ("", empty_registry)
  end.
End Sample.

Lemma foldR_runs catalog verifier l r r' :
  foldR (perform catalog verifier) l r = Ok r' -> reachable catalog verifier r -> reachable catalog verifier r'.
Proof. intros H Hr. eapply (foldR_invariant (reachable catalog verifier)); [|done|done]. intros. by econstructor. Qed.

Lemma sample_reachable : reachable Sample.any_phase Sample.plain_verifier Sample.after_script.
Proof. eapply (foldR_runs _ _ Sample.script empty_registry); [vm_compute; reflexivity|constructor]. Qed.

(** ** Properties *)

(** The registry stays well formed under every sequence of operations: every member has a valid
    id, a known role and visibility, valid distinct projects and none when it sees all; every
    installation belongs to a member; the garden id is valid once there is a member; and the
    recorded generation of every cursor is the cursor's own. *)
Theorem registry_invariant (catalog : string -> string -> bool) (verifier : string -> string -> string) (r : Registry)
    (Hr : reachable catalog verifier r) : registry_wf r.
Proof. by eapply reachable_wf. Qed.

Lemma registry_invariant_witness : registry_wf Sample.after_script.
Proof. exact (registry_invariant _ _ _ sample_reachable). Defined.

(** A freshly issued credential is exactly as strong as its secret: with the returned token, or
    any other secret for the same installation, authentication succeeds precisely when the member is
    active and the secret's verifier is the stored one; it then yields the member's current
    principal, which every guarded operation accepts. *)
Theorem issued_credential (catalog : string -> string -> bool) (verifier : string -> string -> string)
    (r r' : Registry) (actor : Principal) (m i secret salt token : string)
    (Hr : reachable catalog verifier r)
    (Hissue : issue_installation verifier r actor m i secret salt = Ok (token, r')) :
  token = token_of (garden_id r') i secret /\
  exists row, members r' !! m = Some row /\
    forall s, authenticate verifier r' (token_of (garden_id r') i s) =
      if m_active row && bool_decide (verifier s salt = verifier secret salt)
      then Some (principal_of r' m i row) else None.
Proof.
  apply reachable_wf in Hr. unfold issue_installation, add_installation, set_secret in Hissue. act Hissue.
  split; [done|]. match goal with E : is_Some _ |- _ => destruct E as [row Hrow] end.
  exists row. split; [done|]. intros s. cbn [garden_id set_installations].
  assert (Hg : valid_id (garden_id r) = true) by eauto using authorized_garden.
  eapply eq_trans; [eapply (authenticate_token verifier (set_installations _ r)); cbn; [done|done|apply lookup_insert_eq|done|done]|].
  done.
Qed.

Lemma issued_credential_witness :
  exists row, members Sample.issued.2 !! "bob" = Some row /\
    forall s, authenticate Sample.plain_verifier Sample.issued.2 (token_of (garden_id Sample.issued.2) "desk" s) =
      if m_active row && bool_decide (Sample.plain_verifier s "y" = Sample.plain_verifier "s2" "y")
      then Some (principal_of Sample.issued.2 "bob" "desk" row) else None.
Proof.
  eapply (issued_credential Sample.any_phase Sample.plain_verifier Sample.after_script Sample.issued.2
    Sample.admin "bob" "desk" "s2" "y" Sample.issued.1 sample_reachable). vm_compute. reflexivity.
Defined.

(** Whoever authenticates, by token or by operating-system username, is a current member: the
    principal carries the registry's own role, visibility and projects, its installation is not
    revoked and its member is active, so [_authorized_state] admits it. *)
Theorem authenticated_is_authorized (verifier : string -> string -> string) (r : Registry) (token username i : string) :
  (forall p, authenticate verifier r token = Some p -> authorized_state r p = Ok r) /\
  (forall p, authenticate_username r username i = Some p -> authorized_state r p = Ok r /\ p_member p = username).
Proof.
  unfold authorized_state. split; intros p H.
  - by rewrite (authenticate_authorized _ _ _ _ H).
  - unfold authenticate_username in H. apply bind_Some in H as (row & Hi & H). apply bind_Some in H as (m & Hm & H).
    case_match eqn:Hc; [done|]. injection H as <-. guards. by rewrite principal_authorized.
Qed.

(** C16.  A revoked installation stays locked out through every later operation that is not a
    rotation of that installation: no token authenticates as it, and no principal bound to it passes
    the authority check of any operation. *)
Theorem revocation_persists (catalog : string -> string -> bool) (verifier : string -> string -> string)
    (r r1 r2 : Registry) (actor : Principal) (i : string)
    (Hrevoke : revoke_installation r actor i = Ok r1)
    (Hruns : runs catalog verifier (fun o => negb (rotates i o)) r1 r2) :
  (forall token p, authenticate verifier r2 token = Some p -> p_installation p <> i) /\
  (forall p, p_installation p = i -> authorized r2 p = false).
Proof.
  assert (Hi : is_revoked i r2).
  { eapply runs_revoked; [done|]. unfold revoke_installation in Hrevoke. act Hrevoke.
    eexists. cbn. by rewrite lookup_insert_eq. }
  split; [|by intros; eapply revoked_unauthorized]. intros token p Hp He.
  apply authenticate_authorized in Hp. by rewrite (revoked_unauthorized _ _ _ Hi He) in Hp.
Qed.

Lemma revocation_persists_witness :
  exists r1, revoke_installation Sample.after_script Sample.admin "laptop" = Ok r1 /\
    authorized r1 Sample.admin = false.
Proof.
  destruct (revoke_installation Sample.after_script Sample.admin "laptop") as [r1|] eqn:He; [|vm_compute in He; discriminate].
  exists r1. split; [done|].
  apply (revocation_persists Sample.any_phase Sample.plain_verifier _ r1 r1 _ "laptop" He); [constructor|reflexivity].
Defined.

(** Optimistic concurrency of cursors and phase owners: once an operation that expects
    generation [g] of a cursor (or a phase's ownership) has been accepted, no later operation on the
    same target that expects the same generation is accepted, whatever administrator operations run
    in between, clearing and recreating the cursor included. *)
Theorem optimistic_concurrency (catalog : string -> string -> bool) (verifier : string -> string -> string)
    (r r1 r2 : Registry) (o o' : operation) (t : target) (g : Z)
    (Ho : versioned o = Some (t, g)) (Ho' : versioned o' = Some (t, g))
    (Hp : perform catalog verifier r o = Ok r1)
    (Hruns : runs catalog verifier (fun o => negb (is_sync o)) r1 r2) :
  is_Ok (perform catalog verifier r2 o') = false.
Proof.
  assert (Hs : is_sync o = false /\ is_sync o' = false) by (by destruct o, o').
  pose proof (perform_generation _ _ _ _ _ t Hp (proj1 Hs)) as H1. rewrite Ho, decide_True in H1 by done.
  pose proof (runs_generation _ _ _ _ t Hruns) as H2.
  destruct (perform catalog verifier r2 o') as [r3|] eqn:Hp'; [|done].
  pose proof (perform_generation _ _ _ _ _ t Hp' (proj2 Hs)) as H3. rewrite Ho' in H3. lia.
Qed.

Lemma optimistic_concurrency_witness :
  is_Ok (perform Sample.any_phase Sample.plain_verifier Sample.after_script (ClearAssignment Sample.admin "bob" 0)) = false.
Proof.
  destruct (foldR (perform Sample.any_phase Sample.plain_verifier) (take 3 Sample.script) empty_registry) as [r|] eqn:Hr;
    [|vm_compute in Hr; discriminate].
  apply (optimistic_concurrency Sample.any_phase Sample.plain_verifier r Sample.after_script Sample.after_script
           (SetAssignment Sample.admin "bob" "w" "p1" true false 0) _ (Cursor "bob") 0); [reflexivity..| |constructor].
  vm_compute in Hr. injection Hr as <-. vm_compute. reflexivity.
Defined.

(** The executable tasks of a member are exactly the ready, unblocked tasks of the cursor's
    phase that the phase does not refuse and that the member effectively owns; and each of them is
    authorized for execution by any current principal of that member. *)
Theorem executable_tasks_authorized (r : Registry) (m : string) (tasks : tasks_t) (phases : dict Phase) (l : list Task)
    (c : WorkAssignment) (Hl : executable_tasks r m tasks phases = Ok l) (Hc : assignment r m = Some c)
    (Hen : w_enabled c = true) (Hm : m ∈ active_execution_member_ids r (w_project c)) :
  (forall t, t ∈ l <->
     t ∈ dvals tasks /\ product t = w_project c /\ phase t = w_phase c /\ status t = READY /\
     is_blocked t tasks true = false /\ (effective_task_owner r t).1 = m /\
     exists p, dget (TaskModel.key t) phases = Some p /\ phase_refusal p t = "") /\
  (forall t p, t ∈ l -> p_member p = m -> authorized r p = true -> authorize_task_execution r p t None = Ok c).
Proof.
  unfold executable_tasks in Hl. rewrite Hc, Hen, bool_decide_eq_true_2 in Hl by done. cbn [negb orb] in Hl.
  assert (Hspec : forall t, t ∈ l <->
     t ∈ dvals tasks /\ product t = w_project c /\ phase t = w_phase c /\ status t = READY /\
     is_blocked t tasks true = false /\ (effective_task_owner r t).1 = m /\
     exists p, dget (TaskModel.key t) phases = Some p /\ phase_refusal p t = "").
  { intros t. rewrite (elem_of_filterR _ _ _ Hl t). apply and_iff_compat_l. unfold executable. split.
    - intros H. case_match eqn:Hg; [|done]. case_match; [|done]. injection H as H. guards. split_and!; try done.
      eexists. split; [done|]. by destruct (phase_refusal _ t).
    - intros (-> & -> & -> & -> & -> & p & -> & ->). by rewrite !bool_decide_eq_true_2. }
  split; [done|]. intros t p (_ & Hpr & Hph & _ & _ & How & _)%Hspec Hp Ha.
  unfold authorize_task_execution, authorized_state. rewrite Ha, Hp, Hc. cbn [negb mbind result_bind generation_mismatch].
  rewrite Hen, Hpr, Hph, How. by rewrite !bool_decide_eq_true_2.
Qed.

(** A ready task of the sample phase and its phase. *)
Definition sample_phase : Phase := {| ph_product := "w"; ph_name := "p1"; ph_path := ""; ph_meta := [] |}.

Lemma executable_tasks_authorized_witness :
  executable_tasks Sample.after_script "bob" pair [("w/p1", sample_phase)] = Ok [plain_task "A" READY []] /\
  (effective_task_owner Sample.after_script (plain_task "A" READY [])).1 = "bob".
Proof.
  split; [vm_compute; reflexivity|].
  destruct (assignment Sample.after_script "bob") as [c|] eqn:Hc; [|vm_compute in Hc; discriminate].
  destruct (executable_tasks_authorized Sample.after_script "bob" pair [("w/p1", sample_phase)]
    [plain_task "A" READY []] c) as [H _].
  - vm_compute. reflexivity.
  - done.
  - vm_compute in Hc. by injection Hc as <-.
  - vm_compute in Hc. injection Hc as <-. apply elem_of_members_where. eexists. split; vm_compute; reflexivity.
  - apply H. by left.
Defined.
