(* ===== verification/Coordination.v ===== *)
(** * The coordinator ([garden/coordination.py])

    One transactional authority for independently running schedulers: versioned owner projections
    ([authority]), fenced leases ([claims]), an idempotency journal ([operations]), the projection
    [outbox], provider [effects], shared reservations, and hand-off reconciliation.

    The SQLite database is a record of finite maps, one per table, keyed by the table's primary key
    (the outbox is the list of its rows in id order).  Every public method runs in one
    [BEGIN IMMEDIATE] transaction that is rolled back on any exception, so a method is a function
    from the database to an error or to a response and the committed database.  UNIQUE and PRIMARY
    KEY violations are the error [IntegrityError].  Times are microseconds ([Z]); a stored ISO
    timestamp stands for its instant, and one call reads the clock once.  Stored JSON stands for the
    value it encodes with object keys sorted ([canonical]). *)

From S2P Require Import Prelude PyValue Members.

#[local] Open Scope list_scope.

Definition PROTOCOL_VERSION : Z := 1.

Inductive cerror :=
| Conflict (m : string)
| ProtocolMismatch (m : string)
| IntegrityError (m : string)
| Refused (e : exn).

#[export] Instance cerror_eq_dec : EqDecision cerror.
Proof. solve_decision. Defined.

(** ** Tables *)

(** Garden, kind and scope. *)
Abbreviation skey := (string * string * string)%type.

Record Claim := {
  c_garden : string; c_kind : string; c_scope : string; c_owner : string; c_generation : Z;
  c_installation : string; c_operation : string; c_fence : Z; c_expires : Z;
}.
#[export] Instance claim_eq_dec : EqDecision Claim.
Proof. solve_decision. Defined.

Definition claim_key (c : Claim) : skey := (c_garden c, c_kind c, c_scope c).

Record AuthorityRow := { version : Z; a_owner : string; generation : Z; next_fence : Z }.
Definition with_version (v : Z) (a : AuthorityRow) : AuthorityRow :=
  {| version := v; a_owner := a_owner a; generation := generation a; next_fence := next_fence a |}.
Definition with_next_fence (f : Z) (a : AuthorityRow) : AuthorityRow :=
  {| version := version a; a_owner := a_owner a; generation := generation a; next_fence := f |}.

Inductive request :=
| ReqSetAuthority (kind scope owner : string) (generation expected : Z)
| ReqInitialize (rows : list skey)
| ReqClaim (kind scope : string) (expected : Z) (accepted_owner : string) (generation lease : Z)
| ReqTransition (claim_operation : string) (expected : Z) (new_state markdown : string) (evidence : pyval)
    (path revision : string)
| ReqEffect (provider effect_key credential_scope precondition : string) (payload : pyval).
#[export] Instance request_eq_dec : EqDecision request.
Proof. solve_decision. Defined.

Inductive response :=
| RespAuthority (version : Z) (owner : string) (generation : Z) (handoff_status : string)
| RespInitialized (rows : Z)
| RespClaim (c : Claim)
| RespTransition (version : Z)
| RespEffect (operation_id : string)
| RespReservation (status : string) (units spend_micros : Z)
| RespPool (pool : string) (unit_limit spend_limit : Z).

Record OperationRow := {
  op_kind : string; op_actor : string; op_installation : string; op_request : request; op_response : response; op_created : Z;
}.
Record OutboxRow := {
  ob_id : Z; ob_garden : string; ob_operation : string; ob_effect : string; ob_scope : string; ob_version : Z; ob_fence : Z;
  ob_payload : pyval; ob_status : string; ob_attempts : Z; ob_error : string; ob_created : Z; ob_completed : option Z;
}.
Record EffectRow := {
  ef_operation : string; ef_actor : string; ef_installation : string; ef_kind : string; ef_scope : string;
  ef_generation : Z; ef_fence : Z; ef_credential : string; ef_precondition : string; ef_request : pyval;
  ef_status : string; ef_result : pyval; ef_updated : Z;
}.
Record ReservationRow := {
  rs_actor : string; rs_installation : string; rs_units : Z; rs_spend : Z; rs_status : string; rs_created : Z;
}.
Record PoolRow := { pl_units : Z; pl_spend : Z; pl_updated : Z }.
Record EvidenceRow := { ev_operation : string; ev_payload : pyval; ev_created : Z }.
Record HandoffRow := {
  ho_from : string; ho_to : string; ho_from_generation : Z; ho_version : Z; ho_status : string;
  ho_created : Z; ho_completed : option Z;
}.
Record CancelRow := { ca_status : string; ca_requested : Z; ca_acknowledged : option Z }.
Record ProjectionRow := { pr_version : Z; pr_path : string; pr_markdown : string; pr_revision : string; pr_updated : Z }.

Record DB := {
  authority : gmap skey AuthorityRow;
  claims : gmap skey Claim;
  operations : gmap (string * string) OperationRow;
  outbox : list OutboxRow;
  effects : gmap (string * string * string) EffectRow;
  reservations : gmap (string * string * string) ReservationRow;
  reservation_pools : gmap (string * string) PoolRow;
  evidence_rows : gmap (string * string) EvidenceRow;
  handoffs : gmap (skey * Z) HandoffRow;
  cancellations : gmap (skey * string * Z) CancelRow;
  projections : gmap skey ProjectionRow;
}.

Definition empty_db : DB :=
  {| authority := ∅; claims := ∅; operations := ∅; outbox := []; effects := ∅; reservations := ∅;
     reservation_pools := ∅; evidence_rows := ∅; handoffs := ∅; cancellations := ∅; projections := ∅ |}.

Definition with_authority x d := {| authority := x; claims := claims d; operations := operations d; outbox := outbox d;
  effects := effects d; reservations := reservations d; reservation_pools := reservation_pools d;
  evidence_rows := evidence_rows d; handoffs := handoffs d; cancellations := cancellations d; projections := projections d |}.
Definition with_claims x d := {| authority := authority d; claims := x; operations := operations d; outbox := outbox d;
  effects := effects d; reservations := reservations d; reservation_pools := reservation_pools d;
  evidence_rows := evidence_rows d; handoffs := handoffs d; cancellations := cancellations d; projections := projections d |}.
Definition with_operations x d := {| authority := authority d; claims := claims d; operations := x; outbox := outbox d;
  effects := effects d; reservations := reservations d; reservation_pools := reservation_pools d;
  evidence_rows := evidence_rows d; handoffs := handoffs d; cancellations := cancellations d; projections := projections d |}.
Definition with_outbox x d := {| authority := authority d; claims := claims d; operations := operations d; outbox := x;
  effects := effects d; reservations := reservations d; reservation_pools := reservation_pools d;
  evidence_rows := evidence_rows d; handoffs := handoffs d; cancellations := cancellations d; projections := projections d |}.
Definition with_effects x d := {| authority := authority d; claims := claims d; operations := operations d; outbox := outbox d;
  effects := x; reservations := reservations d; reservation_pools := reservation_pools d;
  evidence_rows := evidence_rows d; handoffs := handoffs d; cancellations := cancellations d; projections := projections d |}.
Definition with_reservations x d := {| authority := authority d; claims := claims d; operations := operations d;
  outbox := outbox d; effects := effects d; reservations := x; reservation_pools := reservation_pools d;
  evidence_rows := evidence_rows d; handoffs := handoffs d; cancellations := cancellations d; projections := projections d |}.
Definition with_pools x d := {| authority := authority d; claims := claims d; operations := operations d;
  outbox := outbox d; effects := effects d; reservations := reservations d; reservation_pools := x;
  evidence_rows := evidence_rows d; handoffs := handoffs d; cancellations := cancellations d; projections := projections d |}.
Definition with_evidence x d := {| authority := authority d; claims := claims d; operations := operations d;
  outbox := outbox d; effects := effects d; reservations := reservations d; reservation_pools := reservation_pools d;
  evidence_rows := x; handoffs := handoffs d; cancellations := cancellations d; projections := projections d |}.
Definition with_handoffs x d := {| authority := authority d; claims := claims d; operations := operations d;
  outbox := outbox d; effects := effects d; reservations := reservations d; reservation_pools := reservation_pools d;
  evidence_rows := evidence_rows d; handoffs := x; cancellations := cancellations d; projections := projections d |}.
Definition with_cancellations x d := {| authority := authority d; claims := claims d; operations := operations d;
  outbox := outbox d; effects := effects d; reservations := reservations d; reservation_pools := reservation_pools d;
  evidence_rows := evidence_rows d; handoffs := handoffs d; cancellations := x; projections := projections d |}.
Definition with_projections x d := {| authority := authority d; claims := claims d; operations := operations d;
  outbox := outbox d; effects := effects d; reservations := reservations d; reservation_pools := reservation_pools d;
  evidence_rows := evidence_rows d; handoffs := handoffs d; cancellations := cancellations d; projections := x |}.

(** ** Guards *)

(** [_protocol] *)
Definition check_protocol (v : Z) : result cerror unit :=
  raise (ProtocolMismatch ("unsupported coordination protocol " ++ show v ++ "; server requires " ++ show PROTOCOL_VERSION))
    when (negb (v =? PROTOCOL_VERSION)) ;; Ok tt.

(** [_garden] *)
Definition check_garden (p : Principal) (garden : string) : result cerror unit :=
  raise (Refused (PermissionError "credential does not belong to this garden"))
    when (negb (bool_decide (p_garden p = garden))) ;; Ok tt.

Definition check_admin (p : Principal) (message : string) : result cerror unit :=
  raise (Refused (PermissionError message)) when (negb (administers p)) ;; Ok tt.

Definition valid_kind (kind : string) : bool := mem kind ["task"; "phase"].

(** [_repeat]: the stored response of a repeated request. *)
Definition repeated (db : DB) (p : Principal) (garden operation_id kind : string) (req : request)
    : result cerror (option response) :=
  match operations db !! (garden, operation_id) with
  | None => Ok None
  | Some row =>
      raise (Conflict "operation id was reused with a different identity or request")
        when (negb (bool_decide (op_kind row = kind)) || negb (bool_decide (op_actor row = p_member p))
              || negb (bool_decide (op_installation row = p_installation p)) || negb (bool_decide (op_request row = req))) ;;
      Ok (Some (op_response row))
  end.

(** [_record] *)
Definition record (now : Z) (db : DB) (p : Principal) (garden operation_id kind : string) (req : request) (resp : response)
    : result cerror DB :=
  raise (IntegrityError "operations") when (bool_decide (is_Some (operations db !! (garden, operation_id)))) ;;
  Ok (with_operations (<[(garden, operation_id) := {| op_kind := kind; op_actor := p_member p;
        op_installation := p_installation p; op_request := req; op_response := resp; op_created := now |}]> (operations db)) db).

(** The frame of the five journaled methods: answer a repeat from the journal, else do the work and
    journal its response. *)
Definition journaled (now : Z) (db : DB) (p : Principal) (garden operation_id kind : string) (req : request)
    (work : result cerror (response * DB)) : result cerror (response * DB) :=
  rep ← repeated db p garden operation_id kind req;
  match rep with
  | Some resp => Ok (resp, db)
  | None =>
      rd ← work;
      db' ← record now rd.2 p garden operation_id kind req rd.1;
      Ok (rd.1, db')
  end.

(** ** Effects that are not settled *)

Definition unsettled (e : EffectRow) : bool := mem (ef_status e) ["pending"; "unknown"].

Definition effect_on (garden kind scope : string) (ke : (string * string * string) * EffectRow) : bool :=
  bool_decide (ke.1.1.1 = garden)
  && ((bool_decide (ef_kind ke.2 = kind) && bool_decide (ef_scope ke.2 = scope))
      || bool_decide (ef_kind ke.2 = "") || bool_decide (ef_scope ke.2 = ""))
  && unsettled ke.2.

(** [_reject_unresolved_effects] *)
Definition reject_unresolved_effects (db : DB) (garden kind scope : string) : result cerror unit :=
  match List.filter (effect_on garden kind scope) (map_to_list (effects db)) with
  | [] => Ok tt
  | ke :: _ => Err (Conflict ("scope has a " ++ ef_status ke.2 ++ " provider effect; reconciliation required"))
  end.

(** ** Claim validation ([_validate_claim]) *)

(** The caller's claim must be the stored row, field by field, and not expired. *)
Definition validate_claim (now : Z) (db : DB) (p : Principal) (c : Claim) (expected : option Z)
    : result cerror AuthorityRow :=
  _ ← check_garden p (c_garden c);
  match claims db !! claim_key c with
  | None => Err (Conflict "stale or expired fencing lease")
  | Some row =>
      raise (Conflict "stale or expired fencing lease")
        when (negb (bool_decide (c_owner row = c_owner c)) || negb (c_generation row =? c_generation c)
              || negb (bool_decide (c_installation row = c_installation c))
              || negb (bool_decide (c_operation row = c_operation c)) || negb (c_fence row =? c_fence c)
              || negb (c_expires row =? c_expires c)
              || negb (bool_decide (c_installation row = p_installation p)) || (c_expires row <=? now)) ;;
      match authority db !! claim_key c with
      | None => Err (Conflict "claim was invalidated by reassignment")
      | Some a =>
          raise (Conflict "claim was invalidated by reassignment")
            when (negb (bool_decide (a_owner a = p_member p)) || negb (generation a =? c_generation c)) ;;
          raise (Conflict "stale authority version")
            when (match expected with Some v => negb (version a =? v) | None => false end) ;;
          Ok a
      end
  end.

(** ** Authority *)

Definition reconcile_handoff (now : Z) (k : skey) (old : AuthorityRow) (owner_id : string) (gen new_version : Z) (db : DB) : DB :=
  let db := match handoffs db !! (k, gen) with
            | Some _ => db
            | None => with_handoffs (<[(k, gen) := {| ho_from := a_owner old; ho_to := owner_id;
                ho_from_generation := generation old; ho_version := new_version; ho_status := "reconciling";
                ho_created := now; ho_completed := None |}]> (handoffs db)) db
            end in
  match claims db !! k with
  | Some active => with_cancellations (<[(k, c_installation active, c_fence active) :=
      {| ca_status := "requested"; ca_requested := now; ca_acknowledged := None |}]> (cancellations db)) db
  | None => db
  end.

Definition set_authority (now : Z) (db : DB) (p : Principal) (garden kind scope owner_id : string) (gen expected : Z)
    (operation_id : string) (protocol : Z) : result cerror (response * DB) :=
  _ ← check_protocol protocol; _ ← check_garden p garden;
  _ ← check_admin p "administrator role required";
  raise (Refused (ValueError "authority requires a valid kind and scope"))
    when (negb (valid_kind kind) || negb (nonempty scope)) ;;
  journaled now db p garden operation_id "set_authority" (ReqSetAuthority kind scope owner_id gen expected)
    (let k := (garden, kind, scope) in
     let row := authority db !! k in
     let v := match row with Some a => version a | None => 0 end in
     raise (Conflict ("stale " ++ kind ++ " version: expected " ++ show expected ++ ", current " ++ show v))
       when (negb (v =? expected)) ;;
     raise (Conflict "stale authority generation")
       when (match row with Some a => gen <=? generation a | None => false end) ;;
     _ ← reject_unresolved_effects db garden kind scope;
     let db1 := with_authority (<[k := {| version := v + 1; a_owner := owner_id; generation := gen;
                  next_fence := match row with Some a => next_fence a | None => 0 end |}]> (authority db)) db in
     let db2 := match row with Some old => reconcile_handoff now k old owner_id gen (v + 1) db1 | None => db1 end in
     let db3 := with_claims (delete k (claims db2)) db2 in
     Ok (RespAuthority (v + 1) owner_id gen (match row with Some _ => "reconciling" | None => "ready" end), db3)).

(** One row of [initialize_authority]. *)
Definition initialize_row (garden : string) (db : DB) (row : skey) : result cerror DB :=
  let '(kind, scope, owner_id) := row in
  raise (Refused (ValueError "authority requires a valid kind and scope"))
    when (negb (valid_kind kind) || negb (nonempty scope)) ;;
  raise (Conflict ("authority already exists for " ++ kind ++ " " ++ scope))
    when (bool_decide (is_Some (authority db !! (garden, kind, scope)))) ;;
  Ok (with_authority (<[(garden, kind, scope) := {| version := 1; a_owner := owner_id; generation := 1; next_fence := 0 |}]>
        (authority db)) db).

Definition quiescent (db : DB) (garden : string) : bool :=
  negb (existsb (fun kc => bool_decide (kc.1.1.1 = garden)) (map_to_list (claims db)))
  && negb (existsb (fun o => bool_decide (ob_garden o = garden) && negb (bool_decide (ob_status o = "done"))) (outbox db))
  && negb (existsb (fun ke => bool_decide (ke.1.1.1 = garden) && unsettled ke.2) (map_to_list (effects db))).

Definition initialize_authority (now : Z) (db : DB) (p : Principal) (garden : string) (rows : list skey)
    (operation_id : string) (protocol : Z) : result cerror (response * DB) :=
  _ ← check_protocol protocol; _ ← check_garden p garden;
  _ ← check_admin p "administrator role required";
  journaled now db p garden operation_id "initialize_authority" (ReqInitialize rows)
    (raise (Conflict "claims and effects must be quiescent during migration") when (negb (quiescent db garden)) ;;
     db' ← foldR (initialize_row garden) rows db;
     Ok (RespInitialized (Z.of_nat (List.length rows)), db')).

(** ** Hand-off reconciliation and claims *)

Definition count_if {A} (f : A -> bool) (l : list A) : Z := Z.of_nat (List.length (List.filter f l)).

(** [_handoff_blockers] *)
Definition handoff_blockers (db : DB) (k : skey) (h : HandoffRow) : list string :=
  let requested := count_if (fun (kc : (skey * string * Z) * CancelRow) =>
    bool_decide (kc.1.1.1 = k) && bool_decide (ca_status kc.2 = "requested")) (map_to_list (cancellations db)) in
  let unknown := count_if (fun (ke : (string * string * string) * EffectRow) =>
    bool_decide (ke.1.1.1 = k.1.1) && bool_decide (ef_kind ke.2 = k.1.2) && bool_decide (ef_scope ke.2 = k.2)
    && (ef_generation ke.2 <=? ho_from_generation h) && unsettled ke.2) (map_to_list (effects db)) in
  let projections := count_if (fun o =>
    bool_decide (ob_garden o = k.1.1) && bool_decide (ob_scope o = k.2) && (ob_version o <? ho_version h)
    && bool_decide (ob_status o = "pending")) (outbox db) in
  (if requested =? 0 then [] else ["old workers have not acknowledged cancellation"])
  ++ (if unknown =? 0 then [] else ["old provider outcomes are unknown"])
  ++ (if projections =? 0 then [] else ["old projections are pending"]).

Definition is_nil {A} (l : list A) : bool := match l with [] => true | _ => false end.

(** One hand-off of the loop in [claim]: blocked, or marked ready. *)
Definition complete_handoff (now : Z) (k : skey) (db : DB) (gh : Z * HandoffRow) : result cerror DB :=
  let blockers := handoff_blockers db k gh.2 in
  raise (Conflict ("scope is in handoff reconciliation: " ++ join ", " blockers)) when (negb (is_nil blockers)) ;;
  Ok (with_handoffs (alter (fun h => {| ho_from := ho_from h; ho_to := ho_to h; ho_from_generation := ho_from_generation h;
        ho_version := ho_version h; ho_status := "ready"; ho_created := ho_created h; ho_completed := Some now |})
        (k, gh.1) (handoffs db)) db).

(** The hand-offs of a scope that are not ready, by generation. *)
Definition open_handoffs (db : DB) (k : skey) : list (Z * HandoffRow) :=
  sort_by (fun a b => a.1 <=? b.1)
    (map (fun kh => (kh.1.2, kh.2))
       (List.filter (fun (kh : (skey * Z) * HandoffRow) =>
          bool_decide (kh.1.1 = k) && negb (bool_decide (ho_status kh.2 = "ready"))) (map_to_list (handoffs db)))).

(** Another row already holds this operation id. *)
Definition claim_op_used (db : DB) (k : skey) (operation_id : string) : bool :=
  existsb (fun (kc : skey * Claim) => negb (bool_decide (kc.1 = k)) && bool_decide (kc.1.1.1 = k.1.1)
             && bool_decide (c_operation kc.2 = operation_id)) (map_to_list (claims db)).

Definition second : Z := 1000000.

Definition claim (now : Z) (db : DB) (p : Principal) (garden kind scope : string) (expected : Z) (accepted_owner : string)
    (gen : Z) (operation_id : string) (lease_seconds protocol : Z) : result cerror (response * DB) :=
  _ ← check_protocol protocol; _ ← check_garden p garden;
  raise (Refused (PermissionError "claim owner must be the authenticated executing member"))
    when (negb (bool_decide (p_member p = accepted_owner)) || bool_decide (p_role p = "viewer")) ;;
  raise (Refused (ValueError "claim requires a valid kind, scope and operation id"))
    when (negb (valid_kind kind) || negb (nonempty scope) || negb (nonempty operation_id)) ;;
  raise (Refused (ValueError "lease_seconds must be positive")) when (lease_seconds <? 1) ;;
  journaled now db p garden operation_id "claim" (ReqClaim kind scope expected accepted_owner gen lease_seconds)
    (let k := (garden, kind, scope) in
     match authority db !! k with
     | None => Err (Conflict "authority has not been established")
     | Some a =>
         raise (Conflict "stale authority snapshot")
           when (negb (version a =? expected) || negb (bool_decide (a_owner a = accepted_owner)) || negb (generation a =? gen)) ;;
         raise (Conflict "scope is unassigned") when (negb (nonempty accepted_owner)) ;;
         db1 ← foldR (complete_handoff now k) (open_handoffs db k) db;
         _ ← reject_unresolved_effects db1 garden kind scope;
         raise (Conflict "scope is waiting on another fenced operation")
           when (match claims db1 !! k with Some active => now <? c_expires active | None => false end) ;;
         let fence := next_fence a + 1 in
         let c := {| c_garden := garden; c_kind := kind; c_scope := scope; c_owner := accepted_owner; c_generation := gen;
                     c_installation := p_installation p; c_operation := operation_id; c_fence := fence;
                     c_expires := now + lease_seconds * second |} in
         let db2 := with_authority (<[k := with_next_fence fence a]> (authority db1)) db1 in
         raise (IntegrityError "claims") when (claim_op_used db2 k operation_id) ;;
         Ok (RespClaim c, with_claims (<[k := c]> (claims db2)) db2)
     end).

(** ** Transitions and the outbox *)

Definition next_outbox_id (db : DB) : Z := 1 + foldl (fun m o => Z.max m (ob_id o)) 0 (outbox db).

Definition outbox_row (now : Z) (c : Claim) (operation_id : string) (v : Z) (payload : pyval) (effect_kind : string) (i : Z)
    : OutboxRow :=
  {| ob_id := i; ob_garden := c_garden c; ob_operation := operation_id; ob_effect := effect_kind; ob_scope := c_scope c;
     ob_version := v; ob_fence := c_fence c; ob_payload := payload; ob_status := "pending"; ob_attempts := 0; ob_error := "";
     ob_created := now; ob_completed := None |}.

Definition insert_outbox (now : Z) (c : Claim) (operation_id : string) (v : Z) (payload : pyval) (db : DB) (effect_kind : string)
    : result cerror DB :=
  raise (IntegrityError "outbox")
    when (existsb (fun o => bool_decide (ob_garden o = c_garden c) && bool_decide (ob_operation o = operation_id)
            && bool_decide (ob_effect o = effect_kind)) (outbox db)) ;;
  Ok (with_outbox (outbox db ++ [outbox_row now c operation_id v payload effect_kind (next_outbox_id db)]) db).

Definition insert_evidence (now : Z) (garden evidence_id operation_id : string) (payload : pyval) (db : DB) : result cerror DB :=
  raise (IntegrityError "evidence") when (bool_decide (is_Some (evidence_rows db !! (garden, evidence_id)))) ;;
  Ok (with_evidence (<[(garden, evidence_id) := {| ev_operation := operation_id; ev_payload := canonical payload;
        ev_created := now |}]> (evidence_rows db)) db).

Definition transition (now : Z) (db : DB) (p : Principal) (c : Claim) (expected : Z) (new_state markdown operation_id : string)
    (evidence : dict pyval) (path revision : string) : result cerror (response * DB) :=
  raise (Refused (ValueError "a projected transition requires its canonical revision"))
    when (nonempty path && negb (nonempty revision)) ;;
  journaled now db p (c_garden c) operation_id "transition"
    (ReqTransition (c_operation c) expected new_state markdown (canonical (PDict evidence)) path revision)
    (a ← validate_claim now db p c (Some expected);
     let k := claim_key c in
     let v := version a + 1 in
     let db1 := with_authority (<[k := with_version v a]> (authority db)) db in
     let payload := PDict [("authority_generation", PInt (c_generation c)); ("markdown", PStr markdown);
                           ("owner", PStr (c_owner c)); ("state", PStr new_state)] in
     let db2 := if nonempty path
                then with_projections (<[k := {| pr_version := v; pr_path := path; pr_markdown := markdown;
                       pr_revision := revision; pr_updated := now |}]> (projections db1)) db1
                else db1 in
     db3 ← foldR (insert_outbox now c operation_id v payload) ["task_transition"; "git_projection"] db2;
     db4 ← (match evidence with
            | [] => Ok db3
            | _ => insert_evidence now (c_garden c) (py_str (por (pget "id" evidence) (PStr operation_id))) operation_id
                     (PDict evidence) db3
            end);
     Ok (RespTransition v, db4)).

Definition find_outbox (db : DB) (garden : string) (outbox_id : Z) : option OutboxRow :=
  List.find (fun o => (ob_id o =? outbox_id) && bool_decide (ob_garden o = garden)) (outbox db).

Definition settle_outbox (outbox_id : Z) (status error : string) (completed : option Z) (o : OutboxRow) : OutboxRow :=
  if ob_id o =? outbox_id then
    {| ob_id := ob_id o; ob_garden := ob_garden o; ob_operation := ob_operation o; ob_effect := ob_effect o;
       ob_scope := ob_scope o; ob_version := ob_version o; ob_fence := ob_fence o; ob_payload := ob_payload o;
       ob_status := status; ob_attempts := ob_attempts o + 1; ob_error := error; ob_created := ob_created o;
       ob_completed := completed |}
  else o.

Definition finish_outbox (now : Z) (db : DB) (p : Principal) (garden : string) (outbox_id v : Z) (success : bool) (error : string)
    : result cerror DB :=
  _ ← check_garden p garden;
  _ ← check_admin p "projection gateway authority required";
  match find_outbox db garden outbox_id with
  | None => Err (Refused (KeyError (show outbox_id)))
  | Some row =>
      raise (Conflict "stale projection completion") when (negb (ob_version row =? v)) ;;
      raise (Conflict "stale Markdown cannot overwrite newer authority")
        when (bool_decide (ob_effect row = "git_projection")
              && match authority db !! (garden, "task", ob_scope row) with Some a => negb (version a =? v) | None => false end) ;;
      Ok (with_outbox (map (settle_outbox outbox_id (if success then "done" else "pending") error
                              (if success then Some now else None)) (outbox db)) db)
  end.

Definition supersede_outbox (now : Z) (db : DB) (p : Principal) (garden : string) (outbox_id v : Z) : result cerror DB :=
  _ ← check_garden p garden;
  _ ← check_admin p "projection recovery authority required";
  match find_outbox db garden outbox_id with
  | None => Err (Refused (KeyError (show outbox_id)))
  | Some row =>
      raise (Conflict "stale projection reconciliation request") when (negb (ob_version row =? v)) ;;
      Ok (with_outbox (map (fun o => settle_outbox outbox_id "superseded" (ob_error o) (Some now) o) (outbox db)) db)
  end.

Definition pending_outbox (db : DB) (garden : string) : list OutboxRow :=
  List.filter (fun o => bool_decide (ob_garden o = garden) && bool_decide (ob_status o = "pending")) (outbox db).

(** ** Provider effects *)

Definition effect_op_used (db : DB) (k : string * string * string) (operation_id : string) : bool :=
  existsb (fun (ke : (string * string * string) * EffectRow) => negb (bool_decide (ke.1 = k))
             && bool_decide (ke.1.1.1 = k.1.1) && bool_decide (ef_operation ke.2 = operation_id)) (map_to_list (effects db)).

Definition begin_effect (now : Z) (db : DB) (p : Principal) (c : Claim) (provider effect_key operation_id credential_scope
    precondition : string) (payload : dict pyval) (expected : option Z) : result cerror (response * DB) :=
  journaled now db p (c_garden c) operation_id "effect"
    (ReqEffect provider effect_key credential_scope precondition (canonical (PDict payload)))
    (_ ← validate_claim now db p c expected;
     let k := (c_garden c, provider, effect_key) in
     _ ← (match effects db !! k with
          | Some e => raise (Conflict ("provider effect is " ++ ef_status e ++ "; reconciliation required"))
                        when (unsettled e) ;; Ok tt
          | None => Ok tt
          end);
     raise (IntegrityError "effects") when (effect_op_used db k operation_id) ;;
     Ok (RespEffect operation_id,
         with_effects (<[k := {| ef_operation := operation_id; ef_actor := p_member p; ef_installation := p_installation p;
           ef_kind := c_kind c; ef_scope := c_scope c; ef_generation := c_generation c; ef_fence := c_fence c;
           ef_credential := credential_scope; ef_precondition := precondition; ef_request := canonical (PDict payload);
           ef_status := "pending"; ef_result := PDict []; ef_updated := now |}]> (effects db)) db)).

Definition has_operation (garden operation_id : string) (ke : (string * string * string) * EffectRow) : bool :=
  bool_decide (ke.1.1.1 = garden) && bool_decide (ef_operation ke.2 = operation_id).

Definition settle_effect (now : Z) (garden operation_id outcome : string) (encoded : pyval)
    (k : string * string * string) (e : EffectRow) : EffectRow :=
  if has_operation garden operation_id (k, e) then
    {| ef_operation := ef_operation e; ef_actor := ef_actor e; ef_installation := ef_installation e; ef_kind := ef_kind e;
       ef_scope := ef_scope e; ef_generation := ef_generation e; ef_fence := ef_fence e; ef_credential := ef_credential e;
       ef_precondition := ef_precondition e; ef_request := ef_request e; ef_status := outcome; ef_result := encoded;
       ef_updated := now |}
  else e.

Definition finish_effect (now : Z) (db : DB) (p : Principal) (garden operation_id outcome : string) (res : dict pyval)
    : result cerror DB :=
  _ ← check_garden p garden;
  raise (Refused (ValueError "invalid provider outcome")) when (negb (mem outcome ["succeeded"; "failed"; "unknown"])) ;;
  match List.filter (has_operation garden operation_id) (map_to_list (effects db)) with
  | [] => Err (Refused (PermissionError "provider operation does not belong to actor"))
  | ke :: _ =>
      let row := ke.2 in
      raise (Refused (PermissionError "provider operation does not belong to actor"))
        when ((negb (bool_decide (ef_actor row = p_member p)) && negb (administers p))
              || (negb (administers p) && negb (bool_decide (ef_installation row = p_installation p)))) ;;
      let encoded := canonical (PDict res) in
      if mem (ef_status row) ["succeeded"; "failed"] then
        if bool_decide (ef_status row = outcome) && bool_decide (ef_result row = encoded) then Ok db
        else Err (Conflict "provider effect already has a different terminal outcome")
      else if bool_decide (ef_status row = "unknown") && bool_decide (outcome = "unknown") then
        if bool_decide (ef_result row = encoded) then Ok db
        else Err (Conflict "provider effect already has a different unknown outcome")
      else Ok (with_effects (map_imap (fun k e => Some (settle_effect now garden operation_id outcome encoded k e)) (effects db)) db)
  end.

(** ** Cancellation and late evidence *)

Definition acknowledge_cancellation (now : Z) (db : DB) (p : Principal) (garden kind scope : string) (fence : Z)
    : result cerror DB :=
  _ ← check_garden p garden;
  let k := (garden, kind, scope) in
  let requested := List.filter (fun (kc : (skey * string * Z) * CancelRow) =>
    bool_decide (kc.1.1.1 = k) && (kc.1.2 =? fence) && bool_decide (ca_status kc.2 = "requested")) (map_to_list (cancellations db)) in
  let installation := if administers p then match requested with kc :: _ => kc.1.1.2 | [] => p_installation p end
                      else p_installation p in
  match cancellations db !! (k, installation, fence) with
  | Some row =>
      raise (Conflict "cancellation request is stale or belongs to another installation")
        when (negb (bool_decide (ca_status row = "requested"))) ;;
      Ok (with_cancellations (<[(k, installation, fence) := {| ca_status := "acknowledged";
            ca_requested := ca_requested row; ca_acknowledged := Some now |}]> (cancellations db)) db)
  | None => Err (Conflict "cancellation request is stale or belongs to another installation")
  end.

Definition retain_stale_evidence (now : Z) (db : DB) (p : Principal) (garden kind scope evidence_id operation_id : string)
    (payload : dict pyval) : result cerror DB :=
  _ ← check_garden p garden;
  let record := PDict [("kind", PStr kind); ("scope", PStr scope); ("stale", PBool true); ("actor", PStr (p_member p));
                       ("installation", PStr (p_installation p)); ("payload", PDict payload)] in
  match evidence_rows db !! (garden, evidence_id) with
  | Some existing =>
      raise (Conflict "evidence id was reused with different content")
        when (negb (bool_decide (ev_payload existing = canonical record))) ;;
      Ok db
  | None => insert_evidence now garden evidence_id operation_id record db
  end.

(** ** Shared reservations *)

Definition reservation_in (garden pool : string) (k : string * string * string) (r : ReservationRow) : bool :=
  bool_decide (k.1 = (garden, pool)) && bool_decide (rs_status r = "active").

(** [SELECT COALESCE(SUM(...), 0)] over the active reservations of a pool. *)
Definition active_total (f : ReservationRow -> Z) (garden pool : string)
    (m : gmap (string * string * string) ReservationRow) : Z :=
  map_fold (fun k r total => if reservation_in garden pool k r then f r + total else total) 0 m.

Definition set_reservation_pool (now : Z) (db : DB) (p : Principal) (garden pool : string) (unit_limit spend_limit : Z)
    : result cerror (response * DB) :=
  _ ← check_garden p garden;
  _ ← check_admin p "administrator role required";
  raise (Refused (ValueError "reservation pool limits must be non-negative"))
    when (negb (nonempty pool) || (Z.min unit_limit spend_limit <? 0)) ;;
  raise (Conflict "new pool limit is below active reservations")
    when ((unit_limit <? active_total rs_units garden pool (reservations db))
          || (spend_limit <? active_total rs_spend garden pool (reservations db))) ;;
  Ok (RespPool pool unit_limit spend_limit,
      with_pools (<[(garden, pool) := {| pl_units := unit_limit; pl_spend := spend_limit; pl_updated := now |}]>
        (reservation_pools db)) db).

Definition differs (o : option Z) (z : Z) : bool := match o with Some x => negb (x =? z) | None => false end.

(** [_reserve] *)
Definition reserve_in (now : Z) (db : DB) (p : Principal) (garden pool operation_id : string) (units spend : Z)
    (unit_limit spend_limit : option Z) : result cerror (response * DB) :=
  match reservations db !! (garden, pool, operation_id) with
  | Some old =>
      raise (Conflict "operation id was reused with a different reservation")
        when (negb (bool_decide (rs_actor old = p_member p)) || negb (bool_decide (rs_installation old = p_installation p))
              || negb (rs_units old =? units) || negb (rs_spend old =? spend)) ;;
      Ok (RespReservation (rs_status old) units spend, db)
  | None =>
      match reservation_pools db !! (garden, pool) with
      | None => Err (Conflict "shared reservation pool is not configured")
      | Some limits =>
          raise (Conflict "requested limits do not match coordinator pool policy")
            when (differs unit_limit (pl_units limits) || differs spend_limit (pl_spend limits)) ;;
          raise (Conflict "shared capacity or spending limit reached; waiting")
            when ((pl_units limits <? active_total rs_units garden pool (reservations db) + units)
                  || (pl_spend limits <? active_total rs_spend garden pool (reservations db) + spend)) ;;
          Ok (RespReservation "active" units spend,
              with_reservations (<[(garden, pool, operation_id) := {| rs_actor := p_member p;
                rs_installation := p_installation p; rs_units := units; rs_spend := spend; rs_status := "active";
                rs_created := now |}]> (reservations db)) db)
      end
  end.

Definition check_reserver (p : Principal) (units spend : Z) : result cerror unit :=
  raise (Refused (PermissionError "reservation is not authorized"))
    when (bool_decide (p_role p = "viewer") || (Z.min units spend <? 0)) ;; Ok tt.

Definition reserve (now : Z) (db : DB) (p : Principal) (garden pool operation_id : string) (units spend : Z)
    (unit_limit spend_limit : option Z) : result cerror (response * DB) :=
  _ ← check_garden p garden;
  _ ← check_reserver p units spend;
  raise (Refused (PermissionError "phase reservation requires a phase-operation claim")) when (startswith "phase:" pool) ;;
  raise (Refused (PermissionError "global reservation requires administrator authority"))
    when (startswith "global:" pool && negb (administers p)) ;;
  reserve_in now db p garden pool operation_id units spend unit_limit spend_limit.

Definition reserve_phase (now : Z) (db : DB) (p : Principal) (c : Claim) (pool operation_id : string) (units spend : Z)
    (unit_limit spend_limit : option Z) : result cerror (response * DB) :=
  raise (Refused (PermissionError "phase reservation requires a phase-operation claim"))
    when (negb (bool_decide (c_kind c = "phase"))) ;;
  _ ← check_garden p (c_garden c);
  _ ← check_reserver p units spend;
  _ ← validate_claim now db p c None;
  reserve_in now db p (c_garden c) ("phase:" ++ c_scope c ++ ":" ++ pool) operation_id units spend unit_limit spend_limit.

Definition release_reservation (db : DB) (p : Principal) (garden pool operation_id : string) : result cerror DB :=
  _ ← check_garden p garden;
  match reservations db !! (garden, pool, operation_id) with
  | None => Err (Conflict "reservation does not exist")
  | Some row =>
      raise (Refused (PermissionError "reservation belongs to another principal"))
        when (negb (administers p) && (negb (bool_decide (rs_actor row = p_member p))
                                       || negb (bool_decide (rs_installation row = p_installation p)))) ;;
      Ok (with_reservations (<[(garden, pool, operation_id) := {| rs_actor := rs_actor row;
            rs_installation := rs_installation row; rs_units := rs_units row; rs_spend := rs_spend row;
            rs_status := "released"; rs_created := rs_created row |}]> (reservations db)) db)
  end.

(** ** Snapshots *)

Definition by_kind_scope {A} (x y : skey * A) : bool :=
  if decide (x.1.1.2 = y.1.1.2) then str_leb x.1.2 y.1.2 else str_leb x.1.1.2 y.1.1.2.

(** The rows of one garden, ordered by kind and scope. *)
Definition garden_rows {A} (garden : string) (m : gmap skey A) : list (skey * A) :=
  sort_by by_kind_scope (List.filter (fun ka => bool_decide (ka.1.1.1 = garden)) (map_to_list m)).

Record Snapshot := {
  sn_member : string; sn_installation : string; sn_role : string; sn_visibility : string; sn_projects : list string;
  sn_authority : list (skey * AuthorityRow);
  sn_claims : list Claim;
  sn_projections : list (skey * ProjectionRow);
  sn_outbox : list OutboxRow;
  sn_effects : list ((string * string * string) * EffectRow);
  sn_handoffs : list ((skey * Z) * HandoffRow);
  sn_cancellations : list ((skey * string * Z) * CancelRow);
  sn_evidence : list ((string * string) * EvidenceRow);
}.

Definition scope_leb (a b : skey) : bool := by_kind_scope (a, tt) (b, tt).

Definition evidence_leb (x y : (string * string) * EvidenceRow) : bool :=
  if ev_created x.2 =? ev_created y.2 then str_leb x.1.2 y.1.2 else ev_created x.2 <=? ev_created y.2.

Definition snapshot (now : Z) (db : DB) (p : Principal) (garden : string) (protocol : Z) : result cerror Snapshot :=
  _ ← check_protocol protocol; _ ← check_garden p garden;
  Ok {| sn_member := p_member p; sn_installation := p_installation p; sn_role := p_role p;
        sn_visibility := p_visibility p; sn_projects := sorted_str (elements (p_projects p));
        sn_authority := garden_rows garden (authority db);
        sn_claims := map snd (List.filter (fun kc => now <? c_expires kc.2) (garden_rows garden (claims db)));
        sn_projections := garden_rows garden (projections db);
        sn_outbox := List.filter (fun o => bool_decide (ob_garden o = garden) && negb (bool_decide (ob_status o = "done")))
                       (outbox db);
        sn_effects := List.filter (fun ke => bool_decide (ke.1.1.1 = garden) && unsettled ke.2) (map_to_list (effects db));
        sn_handoffs := sort_by (fun x y => scope_leb x.1.1 y.1.1)
          (List.filter (fun kh => bool_decide (kh.1.1.1.1 = garden)) (map_to_list (handoffs db)));
        sn_cancellations := sort_by (fun x y => scope_leb x.1.1.1 y.1.1.1)
          (List.filter (fun kc => bool_decide (kc.1.1.1.1.1 = garden) && bool_decide (ca_status kc.2 = "requested"))
             (map_to_list (cancellations db)));
        sn_evidence := sort_by evidence_leb (List.filter (fun ke => bool_decide (ke.1.1 = garden)) (map_to_list (evidence_rows db)));
     |}.

(** ** The coordinator as a transition system *)

Inductive command :=
| SetAuthority (p : Principal) (garden kind scope owner_id : string) (gen expected : Z) (operation_id : string) (protocol : Z)
| InitializeAuthority (p : Principal) (garden : string) (rows : list skey) (operation_id : string) (protocol : Z)
| AcquireClaim (p : Principal) (garden kind scope : string) (expected : Z) (accepted_owner : string) (gen : Z)
    (operation_id : string) (lease_seconds protocol : Z)
| Transition (p : Principal) (c : Claim) (expected : Z) (new_state markdown operation_id : string) (evidence : dict pyval)
    (path revision : string)
| FinishOutbox (p : Principal) (garden : string) (outbox_id v : Z) (success : bool) (error : string)
| SupersedeOutbox (p : Principal) (garden : string) (outbox_id v : Z)
| BeginEffect (p : Principal) (c : Claim) (provider effect_key operation_id credential_scope precondition : string)
    (payload : dict pyval) (expected : option Z)
| FinishEffect (p : Principal) (garden operation_id outcome : string) (res : dict pyval)
| AcknowledgeCancellation (p : Principal) (garden kind scope : string) (fence : Z)
| RetainStaleEvidence (p : Principal) (garden kind scope evidence_id operation_id : string) (payload : dict pyval)
| SetReservationPool (p : Principal) (garden pool : string) (unit_limit spend_limit : Z)
| Reserve (p : Principal) (garden pool operation_id : string) (units spend : Z) (unit_limit spend_limit : option Z)
| ReservePhase (p : Principal) (c : Claim) (pool operation_id : string) (units spend : Z) (unit_limit spend_limit : option Z)
| ReleaseReservation (p : Principal) (garden pool operation_id : string).

Definition no_response (r : result cerror DB) : result cerror (option response * DB) := (fun d => (None, d)) <$> r.
Definition responding (r : result cerror (response * DB)) : result cerror (option response * DB) :=
  (fun rd => (Some rd.1, rd.2)) <$> r.

Definition execute (now : Z) (db : DB) (cmd : command) : result cerror (option response * DB) :=
  match cmd with
  | SetAuthority p g k s o gen ex op pv => responding (set_authority now db p g k s o gen ex op pv)
  | InitializeAuthority p g rows op pv => responding (initialize_authority now db p g rows op pv)
  | AcquireClaim p g k s ex o gen op le pv => responding (claim now db p g k s ex o gen op le pv)
  | Transition p c ex st md op ev pa re => responding (transition now db p c ex st md op ev pa re)
  | FinishOutbox p g i v su er => no_response (finish_outbox now db p g i v su er)
  | SupersedeOutbox p g i v => no_response (supersede_outbox now db p g i v)
  | BeginEffect p c pr ek op cs pc pl ex => responding (begin_effect now db p c pr ek op cs pc pl ex)
  | FinishEffect p g op oc re => no_response (finish_effect now db p g op oc re)
  | AcknowledgeCancellation p g k s f => no_response (acknowledge_cancellation now db p g k s f)
  | RetainStaleEvidence p g k s ei op pl => no_response (retain_stale_evidence now db p g k s ei op pl)
  | SetReservationPool p g po ul sl => responding (set_reservation_pool now db p g po ul sl)
  | Reserve p g po op u sp ul sl => responding (reserve now db p g po op u sp ul sl)
  | ReservePhase p c po op u sp ul sl => responding (reserve_phase now db p c po op u sp ul sl)
  | ReleaseReservation p g po op => no_response (release_reservation db p g po op)
  end.

(** One accepted command, and the committed databases. *)
Definition step (db db' : DB) : Prop := exists now cmd resp, execute now db cmd = Ok (resp, db').
Definition steps : relation DB := rtc step.
Definition committed (db : DB) : Prop := steps empty_db db.

(** ** Lemmas: what each part of a method changes *)

Lemma check_protocol_Ok v u : check_protocol v = Ok u -> v = PROTOCOL_VERSION.
Proof. unfold check_protocol. intros H. run H. guards. by apply Z.eqb_eq. Qed.
Lemma check_garden_Ok p g u : check_garden p g = Ok u -> p_garden p = g.
Proof. unfold check_garden. intros H. run H. by guards. Qed.
Lemma check_admin_Ok p m u : check_admin p m = Ok u -> administers p = true.
Proof. unfold check_admin. intros H. run H. by guards. Qed.
Lemma check_reserver_Ok p a b u : check_reserver p a b = Ok u -> 0 <= a /\ 0 <= b.
Proof. unfold check_reserver. intros H. run H. guards. lia. Qed.

Lemma repeated_Ok db p g op kind req o : repeated db p g op kind req = Ok o ->
  match operations db !! (g, op) with
  | None => o = None
  | Some row => o = Some (op_response row) /\ op_kind row = kind /\ op_actor row = p_member p /\
                op_installation row = p_installation p /\ op_request row = req
  end.
Proof. unfold repeated. intros H. destruct (operations db !! (g, op)); run H; by guards. Qed.

Lemma record_Ok now db p g op kind req resp db' : record now db p g op kind req resp = Ok db' ->
  operations db !! (g, op) = None /\
  db' = with_operations (<[(g, op) := {| op_kind := kind; op_actor := p_member p; op_installation := p_installation p;
          op_request := req; op_response := resp; op_created := now |}]> (operations db)) db.
Proof. unfold record. intros H. run H. guards. split; [by apply eq_None_not_Some|done]. Qed.

(** The journaled frame: a repeat changes nothing; a first call journals its response. *)
Lemma journaled_Ok now db p g op kind req work resp db' :
  journaled now db p g op kind req work = Ok (resp, db') ->
  (exists row, operations db !! (g, op) = Some row /\ op_response row = resp /\ db' = db) \/
  (operations db !! (g, op) = None /\ exists db1, work = Ok (resp, db1) /\
   operations db1 !! (g, op) = None /\
   db' = with_operations (<[(g, op) := {| op_kind := kind; op_actor := p_member p; op_installation := p_installation p;
           op_request := req; op_response := resp; op_created := now |}]> (operations db1)) db1).
Proof.
  unfold journaled. intros H. run H; match goal with E : repeated _ _ _ _ _ _ = Ok _ |- _ => apply repeated_Ok in E end.
  - destruct (operations db !! (g, op)) as [row|] eqn:Hr; [|done]. left. exists row. by simplify_eq/=; destruct_and!; simplify_eq.
  - destruct (operations db !! (g, op)) as [row|] eqn:Hr; [by destruct_and!|]. right. split; [done|].
    match goal with E : record _ _ _ _ _ _ _ _ = Ok _ |- _ => apply record_Ok in E as [? ->] end.
    match goal with E : work = Ok ?x |- _ => exists x.2; rewrite E; destruct x end. by subst.
Qed.

Lemma complete_handoffs_frame now k l db db' : foldR (complete_handoff now k) l db = Ok db' ->
  exists h, db' = with_handoffs h db.
Proof.
  intros H. eapply (foldR_invariant (fun d => exists h, d = with_handoffs h db) _ _ db); [|by exists (handoffs db); destruct db|done].
  intros a s1 s2 _ [h ->] Hf. unfold complete_handoff in Hf. run Hf. subst. by eexists.
Qed.

Lemma insert_outbox_pair now c op v pl db db' :
  foldR (insert_outbox now c op v pl) ["task_transition"; "git_projection"] db = Ok db' ->
  exists i1 i2, next_outbox_id db <= i1 < i2 /\
  db' = with_outbox (outbox db ++ [outbox_row now c op v pl "task_transition" i1; outbox_row now c op v pl "git_projection" i2]) db.
Proof.
  cbn [foldR]. unfold insert_outbox. intros H. inv_ok H. injection H as H.
  repeat match goal with
    | E : (raise _ when _ ;; _) = Ok _ |- _ => apply raise_when_Ok in E as [_ E]
    | E : Ok _ = Ok _ |- _ => injection E as E
    end. subst. cbn [outbox with_outbox] in *.
  eexists _, _. split; [|unfold with_outbox; cbn; by rewrite <- app_assoc]. unfold next_outbox_id. cbn [outbox with_outbox].
  rewrite foldl_app. cbn. lia.
Qed.

Lemma insert_evidence_frame now g i op pl db db' : insert_evidence now g i op pl db = Ok db' -> exists e, db' = with_evidence e db.
Proof. unfold insert_evidence. intros H. run H. subst. by eexists. Qed.

Lemma reconcile_handoff_frame now k old o gen v db : exists h c, reconcile_handoff now k old o gen v db = with_cancellations c (with_handoffs h db).
Proof.
  unfold reconcile_handoff. destruct db. cbn. unfold with_cancellations, with_handoffs. cbn.
  repeat case_match; cbn in *; eexists _, _; done.
Qed.

(** A row installed by the migration. *)
Definition initial_row (o : string) : AuthorityRow := {| version := 1; a_owner := o; generation := 1; next_fence := 0 |}.

Lemma initialize_rows_frame g rows db db' : foldR (initialize_row g) rows db = Ok db' ->
  exists a, db' = with_authority a db /\
    forall k, a !! k = authority db !! k \/ (authority db !! k = None /\ exists o, a !! k = Some (initial_row o)).
Proof.
  intros H. eapply (foldR_invariant (fun d => exists a, d = with_authority a db /\
    forall k, a !! k = authority db !! k \/ (authority db !! k = None /\ exists o, a !! k = Some (initial_row o))) _ _ db);
    [|exists (authority db); split; [by destruct db|by left]|done].
  intros [[kind scope] o] s1 s2 _ (a & -> & Ha) Hf. unfold initialize_row in Hf. run Hf. guards. subst. cbn in *.
  eexists. split; [done|]. intros k. destruct (decide (k = (g, kind, scope))) as [->|Hne].
  - right. rewrite lookup_insert_eq. split; [|by eexists].
    match goal with E : ~ is_Some _ |- _ => apply eq_None_not_Some in E end. destruct (Ha (g, kind, scope)) as [He|[? _]]; congruence.
  - by rewrite lookup_insert_ne.
Qed.

Lemma validate_claim_Ok now db p c ex a : validate_claim now db p c ex = Ok a ->
  p_garden p = c_garden c /\ authority db !! claim_key c = Some a /\ a_owner a = p_member p /\
  generation a = c_generation c /\ c_installation c = p_installation p /\ now < c_expires c /\
  (forall v, ex = Some v -> version a = v) /\
  exists row, claims db !! claim_key c = Some row /\ c_owner row = c_owner c /\ c_generation row = c_generation c /\
    c_installation row = c_installation c /\ c_operation row = c_operation c /\ c_fence row = c_fence c /\
    c_expires row = c_expires c.
Proof.
  unfold validate_claim. intros H. run H. guards. subst.
  match goal with E : check_garden _ _ = Ok _ |- _ => apply check_garden_Ok in E end.
  repeat match goal with E : (_ =? _) = true |- _ => apply Z.eqb_eq in E | E : (_ <=? _) = false |- _ => apply Z.leb_gt in E end.
  split_and!; try done; [congruence|lia| |by eexists].
  intros v ->. by guards; apply Z.eqb_eq.
Qed.

(** ** The fenced lock of one scope *)

(** Abstractly, a scope is unowned, or has a version, an owner, a generation, a fence counter and
    possibly a holder. *)
Record lock := { l_version : Z; l_owner : string; l_generation : Z; l_fence : Z; l_holder : option Claim }.

Definition abs (db : DB) (k : skey) : option lock :=
  match authority db !! k with
  | None => None
  | Some a => Some {| l_version := version a; l_owner := a_owner a; l_generation := generation a;
                      l_fence := next_fence a; l_holder := claims db !! k |}
  end.

Definition lapsed (now : Z) (h : option Claim) : Prop := forall c, h = Some c -> c_expires c <= now.

(** What may happen to a lock.  An assignment drops the holder under a larger generation; an
    acquisition takes the next fence once the previous lease has lapsed; only the holder bumps the
    version. *)
Inductive lock_step : option lock -> option lock -> Prop :=
| lock_stay l : lock_step l l
| lock_create o g : lock_step None (Some {| l_version := 1; l_owner := o; l_generation := g; l_fence := 0; l_holder := None |})
| lock_assign v o g f h o' g' : g < g' ->
    lock_step (Some {| l_version := v; l_owner := o; l_generation := g; l_fence := f; l_holder := h |})
      (Some {| l_version := v + 1; l_owner := o'; l_generation := g'; l_fence := f; l_holder := None |})
| lock_acquire v o g f h now c : lapsed now h -> now < c_expires c -> c_fence c = f + 1 -> c_owner c = o -> c_generation c = g ->
    lock_step (Some {| l_version := v; l_owner := o; l_generation := g; l_fence := f; l_holder := h |})
      (Some {| l_version := v; l_owner := o; l_generation := g; l_fence := f + 1; l_holder := Some c |})
| lock_commit v o g f c :
    lock_step (Some {| l_version := v; l_owner := o; l_generation := g; l_fence := f; l_holder := Some c |})
      (Some {| l_version := v + 1; l_owner := o; l_generation := g; l_fence := f; l_holder := Some c |}).

(** The holder's claim names the lock and carries its current owner, generation and fence. *)
Definition lock_ok (k : skey) (l : option lock) : Prop :=
  forall x, l = Some x -> 0 <= l_fence x /\
    forall c, l_holder x = Some c -> c_owner c = l_owner x /\ c_generation c = l_generation x /\ c_fence c = l_fence x.

Lemma lock_step_ok k l l' : lock_step l l' -> lock_ok k l -> lock_ok k l'.
Proof.
  destruct 1; intros Hl x Hx; [by apply Hl|simplify_eq/=; try (specialize (Hl _ eq_refl); cbn in Hl)..].
  - done.
  - naive_solver.
  - split; [lia|]. naive_solver.
  - destruct Hl as [? Hl]. split; [done|]. apply Hl.
Qed.

Definition journal_row (now : Z) (p : Principal) (kind : string) (req : request) (resp : response) : OperationRow :=
  {| op_kind := kind; op_actor := p_member p; op_installation := p_installation p; op_request := req;
     op_response := resp; op_created := now |}.

Definition row_version (o : option AuthorityRow) : Z := match o with Some a => version a | None => 0 end.
Definition row_fence (o : option AuthorityRow) : Z := match o with Some a => next_fence a | None => 0 end.

(** The first execution of [set_authority]. *)
Lemma set_authority_Ok now db p g kd s o gen ex op pv resp db' :
  set_authority now db p g kd s o gen ex op pv = Ok (resp, db') ->
  db' = db \/
  exists h cc, let k := (g, kd, s) in
    operations db !! (g, op) = None /\ (forall a, authority db !! k = Some a -> generation a < gen) /\
    reject_unresolved_effects db g kd s = Ok tt /\
    db' = with_operations (<[(g, op) := journal_row now p "set_authority" (ReqSetAuthority kd s o gen ex) resp]> (operations db))
           (with_claims (delete k (claims db)) (with_cancellations cc (with_handoffs h
             (with_authority (<[k := {| version := row_version (authority db !! k) + 1; a_owner := o; generation := gen;
                next_fence := row_fence (authority db !! k) |}]> (authority db)) db)))).
Proof.
  unfold set_authority. intros H. run H. apply journaled_Ok in H as [(row & _ & _ & ->)|(Hop & db1 & Hw & _ & ->)]; [by left|].
  right. run Hw. guards.
  match goal with E : reject_unresolved_effects _ _ _ _ = Ok ?u |- _ => destruct u; rename E into Hrej end.
  destruct (authority db !! (g, kd, s)) as [a|] eqn:Ha; subst.
  - match goal with |- context [reconcile_handoff ?n ?k ?a ?o ?ge ?v ?d] =>
      destruct (reconcile_handoff_frame n k a o ge v d) as (h & cc & ->) end.
    exists h, cc. split_and!; try done. intros a' [= <-]. lia.
  - exists (handoffs db), (cancellations db). split_and!; try done.
Qed.

Lemma initialize_authority_Ok now db p g rows op pv resp db' :
  initialize_authority now db p g rows op pv = Ok (resp, db') ->
  db' = db \/
  exists a, operations db !! (g, op) = None /\
    (forall k, a !! k = authority db !! k \/ (authority db !! k = None /\ exists o, a !! k = Some (initial_row o))) /\
    db' = with_operations (<[(g, op) := journal_row now p "initialize_authority" (ReqInitialize rows) resp]> (operations db))
            (with_authority a db).
Proof.
  unfold initialize_authority. intros H. run H. apply journaled_Ok in H as [(row & _ & _ & ->)|(Hop & db1 & Hw & _ & ->)]; [by left|].
  right. run Hw. match goal with E : foldR _ _ _ = Ok _ |- _ => apply initialize_rows_frame in E as (a & -> & Ha) end. subst.
  by exists a.
Qed.

Lemma claim_Ok now db p g kd s ex o gen op le pv resp db' :
  claim now db p g kd s ex o gen op le pv = Ok (resp, db') ->
  (exists row, operations db !! (g, op) = Some row /\ op_response row = resp /\ db' = db) \/
  exists h a c, let k := (g, kd, s) in
    operations db !! (g, op) = None /\ authority db !! k = Some a /\ generation a = gen /\ a_owner a = o /\ o = p_member p /\ o <> "" /\
    foldR (complete_handoff now k) (open_handoffs db k) db = Ok (with_handoffs h db) /\
    reject_unresolved_effects db g kd s = Ok tt /\
    lapsed now (claims db !! k) /\ claim_op_used db k op = false /\
    c = {| c_garden := g; c_kind := kd; c_scope := s; c_owner := o; c_generation := gen; c_installation := p_installation p;
           c_operation := op; c_fence := next_fence a + 1; c_expires := now + le * second |} /\
    resp = RespClaim c /\ now < c_expires c /\
    db' = with_operations (<[(g, op) := journal_row now p "claim" (ReqClaim kd s ex o gen le) resp]> (operations db))
           (with_claims (<[k := c]> (claims db))
             (with_authority (<[k := with_next_fence (next_fence a + 1) a]> (authority db)) (with_handoffs h db))).
Proof.
  unfold claim. intros H. run H. guards.
  apply journaled_Ok in H as [(row & Hr & Hresp & ->)|(Hop & db1 & Hw & _ & ->)]; [left; eauto|right].
  run Hw. guards. subst. match goal with E : foldR _ _ _ = Ok _ |- _ => pose proof (complete_handoffs_frame _ _ _ _ _ E) as [h ->] end.
  match goal with E : reject_unresolved_effects _ _ _ _ = Ok ?u |- _ => destruct u end.
  match goal with E : authority db !! _ = Some ?x |- _ => exists h, x end. eexists. cbn in *.
  repeat match goal with E : (_ =? _) = true |- _ => apply Z.eqb_eq in E end. subst.
  assert (Hl : 0 < le) by lia. unfold second.
  split_and!; try done; [by intros He; rewrite He in *|idtac|cbn; lia].
  intros c Hc. rewrite Hc in *. lia.
Qed.

Lemma transition_Ok now db p c ex st md op ev pa re resp db' :
  transition now db p c ex st md op ev pa re = Ok (resp, db') ->
  db' = db \/
  exists a pl i1 i2 pj evs, let k := claim_key c in
    operations db !! (c_garden c, op) = None /\ validate_claim now db p c (Some ex) = Ok a /\
    next_outbox_id db <= i1 < i2 /\
    db' = with_operations (<[(c_garden c, op) := journal_row now p "transition"
              (ReqTransition (c_operation c) ex st md (canonical (PDict ev)) pa re) resp]> (operations db))
           (with_evidence evs
             (with_outbox (outbox db ++ [outbox_row now c op (version a + 1) pl "task_transition" i1;
                                         outbox_row now c op (version a + 1) pl "git_projection" i2])
               (with_projections pj (with_authority (<[k := with_version (version a + 1) a]> (authority db)) db)))).
Proof.
  unfold transition. intros H. run H. apply journaled_Ok in H as [(row & _ & _ & ->)|(Hop & db1 & Hw & _ & ->)]; [by left|].
  right. apply bind_Ok in Hw as (a & Hv & Hw). cbv zeta in Hw.
  apply bind_Ok in Hw as (db3 & Ho & Hw). apply bind_Ok in Hw as (db4 & He & Hw). injection Hw as <- <-.
  assert (Hev : exists evs, db4 = with_evidence evs db3).
  { destruct ev; [injection He as <-; exists (evidence_rows db3); by destruct db3|by eapply insert_evidence_frame]. }
  destruct Hev as [evs ->]. apply insert_outbox_pair in Ho as (i1 & i2 & Hi & ->).
  exists a. eexists _, i1, i2. destruct (nonempty pa); eexists _, evs; cbn; [done|].
  split_and!; [done|done|apply Hi|apply Hi|]. instantiate (1 := projections db). by destruct db.
Qed.

Lemma begin_effect_Ok now db p c pr ek op cs pc pl ex resp db' :
  begin_effect now db p c pr ek op cs pc pl ex = Ok (resp, db') ->
  db' = db \/
  exists a e, let k := (c_garden c, pr, ek) in
    operations db !! (c_garden c, op) = None /\ validate_claim now db p c ex = Ok a /\
    (forall e', effects db !! k = Some e' -> unsettled e' = false) /\
    ef_operation e = op /\ ef_kind e = c_kind c /\ ef_scope e = c_scope c /\ ef_generation e = c_generation c /\
    ef_fence e = c_fence c /\ ef_status e = "pending" /\
    db' = with_operations (<[(c_garden c, op) := journal_row now p "effect"
              (ReqEffect pr ek cs pc (canonical (PDict pl))) resp]> (operations db))
           (with_effects (<[k := e]> (effects db)) db).
Proof.
  unfold begin_effect. intros H. apply journaled_Ok in H as [(row & _ & _ & ->)|(Hop & db1 & Hw & _ & ->)]; [by left|].
  right. run Hw. subst. eexists _, _. split_and!; try done.
  1: { intros e' He'. rewrite He' in *. by destruct (unsettled e'). }
  all: done.
Qed.

(** ** The invariant and the refinement *)

Record db_ok (db : DB) : Prop := {
  ok_claims : forall k c, claims db !! k = Some c ->
    claim_key c = k /\ is_Some (authority db !! k) /\
    exists row, operations db !! (c_garden c, c_operation c) = Some row /\ op_response row = RespClaim c;
  ok_locks : forall k, lock_ok k (abs db k);
  ok_effects : forall g pr ek e, effects db !! (g, pr, ek) = Some e ->
    exists row cs pc pl, operations db !! (g, ef_operation e) = Some row /\ op_request row = ReqEffect pr ek cs pc pl;
  ok_outbox : forall o, o ∈ outbox db -> is_Some (operations db !! (ob_garden o, ob_operation o));
  ok_outbox_ids : NoDup (map ob_id (outbox db));
}.

Lemma empty_db_ok : db_ok empty_db.
Proof.
  split.
  - intros k c. cbn. by rewrite lookup_empty.
  - intros k x. unfold abs. cbn. by rewrite lookup_empty.
  - intros g pr ek e. cbn. by rewrite lookup_empty.
  - intros o. cbn. set_solver.
  - constructor.
Qed.

(** The tables that no method but those of authority and claims changes. *)
Definition same_core (db db' : DB) : Prop :=
  authority db' = authority db /\ claims db' = claims db /\ operations db' = operations db.

Lemma same_core_refl db : same_core db db.
Proof. done. Qed.

Lemma reserve_in_frame now db p g po op u sp ul sl rd : reserve_in now db p g po op u sp ul sl = Ok rd ->
  exists r, rd.2 = with_reservations r db.
Proof.
  unfold reserve_in. intros H. run H; subst; [exists (reservations db); by destruct db|by eexists].
Qed.

(** The commands outside the lock: what is left of the effects and the outbox, row by row. *)
Definition settled_rows (db db' : DB) : Prop :=
  same_core db db' /\
  (forall g pr ek e', effects db' !! (g, pr, ek) = Some e' -> exists e, effects db !! (g, pr, ek) = Some e /\ ef_operation e = ef_operation e') /\
  Forall2 (fun o o' => ob_id o = ob_id o' /\ ob_garden o = ob_garden o' /\ ob_operation o = ob_operation o') (outbox db) (outbox db').

Lemma settled_rows_frame db db' : same_core db db' -> effects db' = effects db -> outbox db' = outbox db -> settled_rows db db'.
Proof.
  intros Hc He Ho. split; [done|]. rewrite He, Ho. split; [by eauto|]. apply Forall_Forall2_diag. by apply Forall_forall.
Qed.

Lemma settle_outbox_rows f l : (forall o, ob_id (f o) = ob_id o /\ ob_garden (f o) = ob_garden o /\ ob_operation (f o) = ob_operation o) ->
  Forall2 (fun o o' => ob_id o = ob_id o' /\ ob_garden o = ob_garden o' /\ ob_operation o = ob_operation o') l (map f l).
Proof. intros Hf. induction l as [|o l IH]; cbn; constructor; [|done]. by destruct (Hf o) as (-> & -> & ->). Qed.

Lemma settle_outbox_same i st er cp o : let o' := settle_outbox i st er cp o in
  ob_id o' = ob_id o /\ ob_garden o' = ob_garden o /\ ob_operation o' = ob_operation o.
Proof. cbv zeta. unfold settle_outbox. by case_match. Qed.

Lemma finish_effect_rows now db p g op oc re db' : finish_effect now db p g op oc re = Ok db' ->
  db' = db \/ db' = with_effects (map_imap (fun k e => Some (settle_effect now g op oc (canonical (PDict re)) k e)) (effects db)) db.
Proof. unfold finish_effect. intros H. run H; subst; auto. Qed.

Definition touches_lock (cmd : command) : bool :=
  match cmd with
  | SetAuthority _ _ _ _ _ _ _ _ _ | InitializeAuthority _ _ _ _ _ | AcquireClaim _ _ _ _ _ _ _ _ _ _
  | Transition _ _ _ _ _ _ _ _ _ | BeginEffect _ _ _ _ _ _ _ _ _ => true
  | _ => false
  end.

Lemma execute_settled now db cmd resp db' : touches_lock cmd = false -> execute now db cmd = Ok (resp, db') -> settled_rows db db'.
Proof.
  intros Ht H. destruct cmd; try done; cbn [execute] in H; unfold responding, no_response in H;
    apply fmap_Ok in H as (x & H & [= -> ->]).
  - unfold finish_outbox in H. run H. subst. split_and!; [done|by eauto|].
    apply settle_outbox_rows. intros. apply settle_outbox_same.
  - unfold supersede_outbox in H. run H. subst. split_and!; [done|by eauto|].
    apply settle_outbox_rows. intros. apply settle_outbox_same.
  - apply finish_effect_rows in H as [->| ->]; [by apply settled_rows_frame|]. split_and!; [done| |].
    + intros g pr ek e'. cbn. rewrite map_lookup_imap. intros (e & He & [= <-])%bind_Some. exists e. split; [done|].
      unfold settle_effect. by case_match.
    + apply Forall_Forall2_diag. by apply Forall_forall.
  - unfold acknowledge_cancellation in H. run H. subst. by apply settled_rows_frame.
  - unfold retain_stale_evidence in H. run H; subst; [by apply settled_rows_frame|].
    apply insert_evidence_frame in H as [ev ->]. by apply settled_rows_frame.
  - unfold set_reservation_pool in H. run H. subst. by apply settled_rows_frame.
  - unfold reserve in H. run H. apply reserve_in_frame in H as [r ->]. by apply settled_rows_frame.
  - unfold reserve_phase in H. run H. apply reserve_in_frame in H as [r ->]. by apply settled_rows_frame.
  - unfold release_reservation in H. run H. subst. by apply settled_rows_frame.
Qed.

Lemma abs_same_core db db' k : same_core db db' -> abs db' k = abs db k.
Proof. intros (Ha & Hc & _). unfold abs. by rewrite Ha, Hc. Qed.

(** [abs] after writing one scope's authority and claim. *)
Lemma abs_write db db' k' : authority db' !! k' = authority db !! k' -> claims db' !! k' = claims db !! k' -> abs db' k' = abs db k'.
Proof. intros Ha Hc. unfold abs. by rewrite Ha, Hc. Qed.

(** Every accepted command is a step of every scope's lock. *)
Lemma execute_refines now db cmd resp db' k : db_ok db -> execute now db cmd = Ok (resp, db') -> lock_step (abs db k) (abs db' k).
Proof.
  intros Hok H. destruct (touches_lock cmd) eqn:Ht;
    [|apply execute_settled in H as [Hc _]; [|done]; rewrite (abs_same_core _ _ _ Hc); constructor].
  destruct cmd; try done; cbn [execute] in H; unfold responding in H; apply fmap_Ok in H as ([r d] & H & [= -> ->]).
  - apply set_authority_Ok in H as [->|(h & cc & Hop & Hgen & _ & ->)]; [constructor|].
    destruct (decide (k = (garden, kind, scope))) as [->|Hne].
    2:{ rewrite (abs_write db (with_operations _ _)) by (cbn; by rewrite ?lookup_insert_ne, ?lookup_delete_ne). constructor. }
    unfold abs at 2. cbn. rewrite lookup_insert_eq, lookup_delete_eq. unfold abs.
    destruct (authority db !! (garden, kind, scope)) as [a|]; cbn; constructor. by apply Hgen.
  - apply initialize_authority_Ok in H as [->|(a & Hop & Ha & ->)]; [constructor|].
    destruct (Ha k) as [He|(Hn & o & He)]; [rewrite (abs_write db (with_operations _ _)) by done; constructor|].
    unfold abs. cbn. rewrite Hn, He. cbn. destruct (claims db !! k) as [c|] eqn:Hc; [|constructor].
    destruct (ok_claims _ Hok _ _ Hc) as (_ & [? Hs] & _). congruence.
  - apply claim_Ok in H as [(row & _ & _ & ->)|(h & a & c & Hop & Ha & Hg & Ho & _ & _ & _ & _ & Hl & _ & -> & -> & Hexp & ->)]; [constructor|].
    destruct (decide (k = (garden, kind, scope))) as [->|Hne].
    2:{ rewrite (abs_write db (with_operations _ _)) by (cbn; by rewrite ?lookup_insert_ne). constructor. }
    unfold abs. cbn. rewrite Ha, !lookup_insert_eq. cbn. by eapply lock_acquire.
  - apply transition_Ok in H as [->|(a & pl & i1 & i2 & pj & evs & Hop & Hv & _ & ->)]; [constructor|].
    apply validate_claim_Ok in Hv as (_ & Ha & _ & _ & _ & _ & _ & row & Hc & _).
    destruct (decide (k = claim_key c)) as [->|Hne].
    2:{ rewrite (abs_write db (with_operations _ _)) by (cbn; by rewrite ?lookup_insert_ne). constructor. }
    unfold abs. cbn. rewrite Ha, !lookup_insert_eq, Hc. constructor.
  - apply begin_effect_Ok in H as [->|(a & e & _ & _ & _ & _ & _ & _ & _ & _ & _ & ->)]; constructor.
Qed.

Lemma Forall2_elem_r {A B} (P : A -> B -> Prop) l l' (H : Forall2 P l l') y : y ∈ l' -> exists x, x ∈ l /\ P x y.
Proof.
  induction H as [|a b l l' Hp _ IH]; [set_solver|]. intros [->|Hy]%elem_of_cons; [exists a; set_solver|].
  destruct (IH Hy) as (x & ? & ?). exists x. set_solver.
Qed.

Lemma lookup_insert_keep {A} (m : gmap (string * string) A) i j x y : m !! i = None -> m !! j = Some x -> <[i := y]> m !! j = Some x.
Proof. intros Hi Hj. rewrite lookup_insert_ne; [done|]. congruence. Qed.

(** The journal only grows. *)
Lemma execute_journal now db cmd resp db' k row : execute now db cmd = Ok (resp, db') ->
  operations db !! k = Some row -> operations db' !! k = Some row.
Proof.
  intros H Hk. destruct (touches_lock cmd) eqn:Ht; [|apply execute_settled in H as [(_ & _ & ->) _]; done].
  destruct cmd; try done; cbn [execute] in H; unfold responding in H; apply fmap_Ok in H as ([r d] & H & [= -> ->]).
  - apply set_authority_Ok in H as [->|(h & cc & Hop & _ & _ & ->)]; [done|]. by apply lookup_insert_keep.
  - apply initialize_authority_Ok in H as [->|(a & Hop & Ha & ->)]; [done|]. by apply lookup_insert_keep.
  - apply claim_Ok in H as [(? & _ & _ & ->)|(h & a & c & Hop & H)]; [done|]. destruct_and!; subst. by apply lookup_insert_keep.
  - apply transition_Ok in H as [->|(a & pl & i1 & i2 & pj & evs & Hop & Hv & _ & ->)]; [done|]. by apply lookup_insert_keep.
  - apply begin_effect_Ok in H as [->|(a & e & Hop & H)]; [done|]. destruct_and!; subst. by apply lookup_insert_keep.
Qed.

Lemma steps_journal db db' k row : steps db db' -> operations db !! k = Some row -> operations db' !! k = Some row.
Proof.
  induction 1 as [|x y z (now & cmd & resp & H) _ IH]; [done|]. intros Hk. eapply IH, execute_journal; eauto.
Qed.

Lemma next_outbox_id_fresh db o : o ∈ outbox db -> ob_id o < next_outbox_id db.
Proof.
  unfold next_outbox_id. generalize 0. induction (outbox db) as [|x l IH]; intros m; cbn [foldl]; [set_solver|].
  assert (Hle : forall l m, m <= foldl (fun m o => Z.max m (ob_id o)) m l).
  { clear. induction l as [|y l IH]; intros m; cbn [foldl]; [lia|]. specialize (IH (Z.max m (ob_id y))). lia. }
  intros [->|Ho]%elem_of_cons; [|by apply IH]. specialize (Hle l (Z.max m (ob_id x))). lia.
Qed.

Lemma settled_ok db db' : settled_rows db db' -> db_ok db -> db_ok db'.
Proof.
  intros [Hc [He Ho]] Hok. pose proof Hc as (Ha & Hcl & Hop). split.
  - rewrite Hcl, Ha, Hop. apply Hok.
  - intros k. rewrite (abs_same_core db) by done. apply Hok.
  - intros g pr ek e' H'. apply He in H' as (e & H' & <-). rewrite Hop. by apply Hok.
  - rewrite Hop. intros o' Ho'. destruct (Forall2_elem_r _ _ _ Ho o' Ho') as (o & Hin & _ & <- & <-). by apply Hok.
  - replace (map ob_id (outbox db')) with (map ob_id (outbox db)); [apply Hok|].
    induction Ho as [|o o' l l' (? & _ & _) _ IH]; cbn; congruence.
Qed.

Lemma abs_ok_step db db' : (forall k, lock_ok k (abs db k)) -> (forall k, lock_step (abs db k) (abs db' k)) ->
  forall k, lock_ok k (abs db' k).
Proof. intros Hl Hs k. eapply lock_step_ok; eauto. Qed.

Lemma execute_ok now db cmd resp db' : execute now db cmd = Ok (resp, db') -> db_ok db -> db_ok db'.
Proof.
  intros H Hok. destruct (touches_lock cmd) eqn:Ht; [|by eapply settled_ok; [eapply execute_settled|]].
  pose proof (fun k => execute_refines _ _ _ _ _ k Hok H) as Hr.
  pose proof (abs_ok_step _ _ (ok_locks _ Hok) Hr) as Hl.
  pose proof (fun k row => execute_journal _ _ _ _ _ k row H) as Hj. destruct Hok as [Hc _ He Ho Hn].
  assert (Heff : forall g pr ek e, effects db !! (g, pr, ek) = Some e ->
    exists row cs pc pl, operations db' !! (g, ef_operation e) = Some row /\ op_request row = ReqEffect pr ek cs pc pl).
  { intros g pr ek e (row & cs & pc & pl & Hrow & Hreq)%He. exists row, cs, pc, pl. eauto. }
  assert (Hout : forall o, o ∈ outbox db -> is_Some (operations db' !! (ob_garden o, ob_operation o))).
  { intros o [row Hrow]%Ho. exists row. auto. }
  assert (Hcl : forall k c, claims db !! k = Some c -> claim_key c = k /\ is_Some (authority db !! k) /\
    exists row, operations db' !! (c_garden c, c_operation c) = Some row /\ op_response row = RespClaim c).
  { intros k c (? & ? & row & Hrow & ?)%Hc. split_and!; [done|done|]. exists row. auto. }
  destruct cmd; try done; cbn [execute] in H; unfold responding in H; apply fmap_Ok in H as ([r d] & H & [= -> ->]).
  - apply set_authority_Ok in H as [->|(h & cc & Hop & _ & _ & ->)]; split; try done; cbn.
    intros k c [Hk Hkc]%lookup_delete_Some. rewrite lookup_insert_ne by done. by apply Hcl.
  - apply initialize_authority_Ok in H as [->|(a & Hop & Ha & ->)]; split; try done; cbn.
    intros k c Hkc. destruct (Hcl _ _ Hkc) as (? & Hs & ?). split_and!; [done| |done].
    destruct (Ha k) as [->|(Hk & _)]; [done|]. rewrite Hk in Hs. by destruct Hs.
  - apply claim_Ok in H as [(? & _ & _ & ->)|(h & a & c & Hop & H)]; [by split|]. destruct_and!; subst. split; try done; cbn.
    intros k c. destruct (decide (k = (garden, kind, scope))) as [->|Hne].
    + rewrite !lookup_insert_eq. intros [= <-]. cbn. split_and!; [done|by eexists|]. eexists. by rewrite lookup_insert_eq.
    + rewrite !(lookup_insert_ne (M := gmap skey)) by done. apply Hcl.
  - apply transition_Ok in H as [->|(a & pl & i1 & i2 & pj & evs & Hop & Hv & Hi & ->)]; [by split|]. split; try done; cbn.
    + intros k c' Hkc. destruct (Hcl _ _ Hkc) as (? & Hs & ?). split_and!; [done| |done].
      rewrite lookup_insert_is_Some. destruct (decide (claim_key c = k)); [by left|by right].
    + intros o [Hin|Hin]%elem_of_app; [by apply Hout|].
      rewrite !elem_of_cons in Hin. destruct Hin as [->|[->|?]]; [| |set_solver]; cbn; eexists; by rewrite lookup_insert_eq.
    + rewrite map_app. apply NoDup_app. split_and!; [done| |].
      * intros i (o & <- & Hin%list_elem_of_In%next_outbox_id_fresh)%list_elem_of_In%in_map_iff. cbn.
        rewrite !elem_of_cons. intros [?|[?|?%elem_of_nil]]; [lia|lia|done].
      * cbn. constructor; [|constructor; [set_solver|constructor]]. rewrite elem_of_cons. intros [?|?%elem_of_nil]; [lia|done].
  - apply begin_effect_Ok in H as [->|(a & e & Hop & H)]; [by split|]. destruct_and!; subst. split; try done; cbn.
    intros g pr ek e'. destruct (decide ((g, pr, ek) = (c_garden c, provider, effect_key))) as [[= -> -> ->]|Hne].
    + rewrite lookup_insert_eq. intros [= <-]. eexists _, _, _, _. by rewrite lookup_insert_eq.
    + rewrite (lookup_insert_ne (effects db)) by done. apply Heff.
Qed.

Lemma steps_ok db db' : steps db db' -> db_ok db -> db_ok db'.
Proof. induction 1 as [|x y z (now & cmd & resp & H) _ IH]; [done|]. intros. eapply IH, execute_ok; eauto. Qed.

Lemma committed_ok db : committed db -> db_ok db.
Proof. intros H. eapply steps_ok; [exact H|apply empty_db_ok]. Qed.

(** ** Lemmas: locks over time *)

Lemma steps_locks db db' k : steps db db' -> db_ok db -> rtc lock_step (abs db k) (abs db' k).
Proof.
  induction 1 as [|x y z (now & cmd & resp & H) _ IH]; [done|]. intros Hok.
  eapply rtc_l; [by eapply execute_refines|]. eapply IH, execute_ok; eauto.
Qed.

(** The claim [c] has been superseded in the lock: a later fence or a later generation. *)
Definition superseded (c : Claim) (l : option lock) : Prop :=
  exists x, l = Some x /\ (c_fence c < l_fence x \/ c_generation c < l_generation x).

Definition holds (c : Claim) (l : option lock) : Prop :=
  exists x, l = Some x /\ l_holder x = Some c /\ c_fence c = l_fence x /\ c_generation c = l_generation x.

Lemma superseded_step c l l' : lock_step l l' -> superseded c l -> superseded c l'.
Proof. destruct 1; intros (x & Hx & Hs); simplify_eq/=; eexists; (split; [done|]); cbn; lia. Qed.

Lemma holds_step c l l' : lock_step l l' -> holds c l -> holds c l' \/ superseded c l'.
Proof.
  destruct 1; intros Hh; try (by left); destruct Hh as (x & Hx & Hc & Hf & Hg); simplify_eq/=.
  - right. eexists. split; [done|]. cbn. lia.
  - right. eexists. split; [done|]. cbn. lia.
  - left. by eexists.
Qed.

Lemma superseded_steps c l l' : rtc lock_step l l' -> superseded c l -> superseded c l'.
Proof. induction 1; eauto using superseded_step. Qed.

Lemma holds_steps c l l' : rtc lock_step l l' -> holds c l -> holds c l' \/ superseded c l'.
Proof.
  induction 1 as [|x y z Hs Hr IH]; [by left|]. intros Hh.
  destruct (holds_step _ _ _ Hs Hh) as [?|?]; [by apply IH|right; by eapply superseded_steps].
Qed.

Lemma superseded_not_holds c k l : lock_ok k l -> superseded c l -> ~ holds c l.
Proof. intros _ (x & Hx & Hs) (y & Hy & _ & Hf & Hg). simplify_eq. lia. Qed.

Lemma holds_claim c db : holds c (abs db (claim_key c)) -> claims db !! claim_key c = Some c.
Proof. unfold abs. intros (x & Hx & Hh & _). by case_match; simplify_eq/=. Qed.

(** A claim that validates is the scope's stored claim. *)
Lemma validate_claim_holds now db p c ex a : db_ok db -> validate_claim now db p c ex = Ok a ->
  claims db !! claim_key c = Some c /\ holds c (abs db (claim_key c)).
Proof.
  intros Hok H. apply validate_claim_Ok in H as (_ & Ha & _ & Hg & _ & _ & _ & row & Hrow & ? & ? & ? & ? & ? & ?).
  destruct (ok_claims _ Hok _ _ Hrow) as (Hk & _).
  assert (row = c) as ->. { destruct row, c; unfold claim_key in Hk; cbn in *. by simplify_eq. }
  split; [done|]. pose proof (ok_locks _ Hok (claim_key c)) as Hl. unfold abs in *. rewrite Ha, Hrow in *.
  eexists. split; [done|]. cbn. destruct (Hl _ eq_refl) as [_ Hl']. cbn in Hl'. by destruct (Hl' c eq_refl) as (_ & ? & ?).
Qed.

(** ** Lemmas: repeats *)

Definition answers (row : OperationRow) (p : Principal) (kind : string) (req : request) (resp : response) : Prop :=
  op_kind row = kind /\ op_actor row = p_member p /\ op_installation row = p_installation p /\ op_request row = req /\
  op_response row = resp.

Lemma journaled_answers now db p g op kind req work resp db' :
  journaled now db p g op kind req work = Ok (resp, db') ->
  exists row, operations db' !! (g, op) = Some row /\ answers row p kind req resp.
Proof.
  unfold journaled. intros H. run H.
  - match goal with E : repeated _ _ _ _ _ _ = Ok _ |- _ => apply repeated_Ok in E; rename E into Hr end. subst.
    destruct (operations db' !! (g, op)) as [row|]; [|done]. exists row. split; [done|]. unfold answers. naive_solver.
  - match goal with E : record _ _ _ _ _ _ _ _ = Ok _ |- _ => apply record_Ok in E as [_ ->] end. subst.
    eexists. split; [apply lookup_insert_eq|done].
Qed.

Lemma journaled_repeats now db p g op kind req work resp row :
  operations db !! (g, op) = Some row -> answers row p kind req resp ->
  journaled now db p g op kind req work = Ok (resp, db).
Proof.
  intros Hrow (Hk & Ha & Hi & Hq & <-). unfold journaled, repeated. rewrite Hrow, Hk, Ha, Hi, Hq.
  by rewrite !bool_decide_eq_true_2.
Qed.

(** The commands that the journal answers. *)
Definition is_journaled : command -> bool := touches_lock.

Lemma execute_repeats now now' db cmd resp db' db2 : is_journaled cmd = true -> execute now db cmd = Ok (resp, db') ->
  (forall k row, operations db' !! k = Some row -> operations db2 !! k = Some row) ->
  execute now' db2 cmd = Ok (resp, db2).
Proof.
  intros Hj H Hkeep. destruct cmd; try done; cbn [execute] in *; unfold responding in *; apply fmap_Ok in H as ([r d] & H & [= -> ->]).
  - unfold set_authority in *. run H. apply journaled_answers in H as (row & Hrow & Hans).
    repeat match goal with E : _ = Ok _ |- _ => rewrite E; clear E | E : _ = false |- _ => rewrite E; clear E end.
    cbn [mbind result_bind]. by rewrite (journaled_repeats _ _ _ _ _ _ _ _ _ _ (Hkeep _ _ Hrow) Hans).
  - unfold initialize_authority in *. run H. apply journaled_answers in H as (row & Hrow & Hans).
    repeat match goal with E : _ = Ok _ |- _ => rewrite E; clear E end.
    cbn [mbind result_bind]. by rewrite (journaled_repeats _ _ _ _ _ _ _ _ _ _ (Hkeep _ _ Hrow) Hans).
  - unfold claim in *. run H. apply journaled_answers in H as (row & Hrow & Hans).
    repeat match goal with E : _ = Ok _ |- _ => rewrite E; clear E | E : _ = false |- _ => rewrite E; clear E end.
    cbn [mbind result_bind]. by rewrite (journaled_repeats _ _ _ _ _ _ _ _ _ _ (Hkeep _ _ Hrow) Hans).
  - unfold transition in *. run H. apply journaled_answers in H as (row & Hrow & Hans).
    repeat match goal with E : _ = false |- _ => rewrite E; clear E end.
    by rewrite (journaled_repeats _ _ _ _ _ _ _ _ _ _ (Hkeep _ _ Hrow) Hans).
  - unfold begin_effect in *. apply journaled_answers in H as (row & Hrow & Hans).
    by rewrite (journaled_repeats _ _ _ _ _ _ _ _ _ _ (Hkeep _ _ Hrow) Hans).
Qed.

(** ** Lemmas: reservations *)

Definition contribution (f : ReservationRow -> Z) (g po : string) (k : string * string * string) (r : ReservationRow) : Z :=
  if reservation_in g po k r then f r else 0.

Lemma active_total_insert f g po m k r : m !! k = None ->
  active_total f g po (<[k := r]> m) = contribution f g po k r + active_total f g po m.
Proof.
  intros Hk. unfold active_total, contribution. rewrite map_fold_insert_L; [case_match; lia| |done].
  intros j1 j2 z1 z2 y _ _ _. repeat case_match; lia.
Qed.

Lemma active_total_update f g po m k old r : m !! k = Some old ->
  active_total f g po (<[k := r]> m) = active_total f g po m - contribution f g po k old + contribution f g po k r.
Proof.
  intros Hk. rewrite <- insert_delete_eq, active_total_insert by apply lookup_delete_eq.
  rewrite <- (insert_delete_id m k old Hk) at 2. rewrite active_total_insert by apply lookup_delete_eq. lia.
Qed.

Record reservations_ok (db : DB) : Prop := {
  ok_units : forall k r, reservations db !! k = Some r -> 0 <= rs_units r /\ 0 <= rs_spend r;
  ok_pool : forall g po op r, reservations db !! (g, po, op) = Some r -> is_Some (reservation_pools db !! (g, po));
  ok_limits : forall g po lim, reservation_pools db !! (g, po) = Some lim ->
    active_total rs_units g po (reservations db) <= pl_units lim /\
    active_total rs_spend g po (reservations db) <= pl_spend lim;
}.

Lemma empty_reservations_ok : reservations_ok empty_db.
Proof. split; cbn; intros *; by rewrite lookup_empty. Qed.

Lemma reservations_ok_frame db db' : reservations db' = reservations db -> reservation_pools db' = reservation_pools db ->
  reservations_ok db -> reservations_ok db'.
Proof. intros Hr Hp []. split; rewrite ?Hr, ?Hp; done. Qed.

Lemma reserve_in_ok now db p g po op u sp ul sl rd : reserve_in now db p g po op u sp ul sl = Ok rd ->
  0 <= u -> 0 <= sp -> reservations_ok db -> reservations_ok rd.2.
Proof.
  unfold reserve_in. intros H Hu Hsp [Hun Hpo Hli]. run H; subst; [done|]. guards.
  match goal with E : reservation_pools db !! _ = Some ?x |- _ => rename x into lim, E into Hlim end. split; cbn.
  - intros k r. destruct (decide (k = (g, po, op))) as [->|Hne]; [|rewrite lookup_insert_ne by done; apply Hun].
    rewrite lookup_insert_eq. by intros [= <-].
  - intros g' po' op' r. destruct (decide ((g', po', op') = (g, po, op))) as [[= -> -> ->]|Hne]; [by rewrite Hlim|].
    rewrite lookup_insert_ne by done. apply Hpo.
  - intros g' po' lim' Hlim'. rewrite !active_total_insert by done. unfold contribution, reservation_in. cbn.
    destruct (Hli _ _ _ Hlim') as [? ?]. destruct (bool_decide_reflect ((g, po) = (g', po'))) as [[= -> ->]|]; cbn; [|lia].
    rewrite bool_decide_eq_true_2 by done. simplify_eq. lia.
Qed.

Lemma execute_reservations now db cmd resp db' : execute now db cmd = Ok (resp, db') -> reservations_ok db -> reservations_ok db'.
Proof.
  intros H Hok. destruct cmd; cbn [execute] in H; unfold responding, no_response in H; apply fmap_Ok in H as (x & H & [= -> ->]).
  - destruct x as [r d]. apply set_authority_Ok in H as [->|(h & cc & _ & _ & _ & ->)]; [done|by apply (reservations_ok_frame db)].
  - destruct x as [r d]. apply initialize_authority_Ok in H as [->|(a & _ & _ & ->)]; [done|by apply (reservations_ok_frame db)].
  - destruct x as [r d]. apply claim_Ok in H as [(? & _ & _ & ->)|(h & a & c & _ & H)]; [done|].
    destruct_and!; subst. by apply (reservations_ok_frame db).
  - destruct x as [r d]. apply transition_Ok in H as [->|(a & pl & i1 & i2 & pj & evs & _ & _ & _ & ->)]; [done|by apply (reservations_ok_frame db)].
  - unfold finish_outbox in H. run H. subst. by apply (reservations_ok_frame db).
  - unfold supersede_outbox in H. run H. subst. by apply (reservations_ok_frame db).
  - destruct x as [r d]. apply begin_effect_Ok in H as [->|(a & e & _ & H)]; [done|]. destruct_and!; subst. by apply (reservations_ok_frame db).
  - apply finish_effect_rows in H as [->| ->]; [done|by apply (reservations_ok_frame db)].
  - unfold acknowledge_cancellation in H. run H. subst. by apply (reservations_ok_frame db).
  - unfold retain_stale_evidence in H. run H; subst; [done|]. apply insert_evidence_frame in H as [ev ->]. by apply (reservations_ok_frame db).
  - unfold set_reservation_pool in H. run H. subst. guards. destruct Hok as [Hun Hpo Hli]. split; cbn; [done| |].
    + intros g po op r Hr. rewrite lookup_insert_is_Some. destruct (decide ((garden, pool) = (g, po))); [by left|right; eauto].
    + intros g po lim. destruct (decide ((g, po) = (garden, pool))) as [[= -> ->]|Hne].
      * rewrite lookup_insert_eq. intros [= <-]. cbn. lia.
      * rewrite lookup_insert_ne by done. apply Hli.
  - unfold reserve in H. run H. match goal with E : check_reserver _ _ _ = Ok _ |- _ => apply check_reserver_Ok in E as [? ?] end.
    by eapply reserve_in_ok.
  - unfold reserve_phase in H. run H. match goal with E : check_reserver _ _ _ = Ok _ |- _ => apply check_reserver_Ok in E as [? ?] end.
    by eapply reserve_in_ok.
  - unfold release_reservation in H. run H. subst. destruct Hok as [Hun Hpo Hli].
    match goal with E : reservations db !! _ = Some ?x |- _ => rename x into row, E into Hrow end. split; cbn.
    + intros k r. destruct (decide (k = (garden, pool, operation_id))) as [->|Hne]; [|rewrite lookup_insert_ne by done; apply Hun].
      rewrite lookup_insert_eq. intros [= <-]. by apply (Hun _ _ Hrow).
    + intros g po op r. destruct (decide ((g, po, op) = (garden, pool, operation_id))) as [[= -> -> ->]|Hne]; [by eauto|].
      rewrite lookup_insert_ne by done. apply Hpo.
    + intros g po lim Hlim. rewrite !(active_total_update _ _ _ _ _ _ _ Hrow). unfold contribution, reservation_in. cbn.
      destruct (Hli _ _ _ Hlim). destruct (Hun _ _ Hrow). rewrite andb_false_r by done. repeat case_match; lia.
Qed.

Lemma committed_reservations db : committed db -> reservations_ok db.
Proof.
  intros H. unfold committed, steps in H. remember empty_db as e eqn:He. assert (Hr : reservations_ok e) by (subst; apply empty_reservations_ok).
  clear He. induction H as [|x y z (now & cmd & resp & Hx) _ IH]; [done|]. eapply IH, execute_reservations; eauto.
Qed.

(** ** Lemmas: constraints *)

Lemma claim_op_unused db k op : db_ok db -> operations db !! (k.1.1, op) = None -> claim_op_used db k op = false.
Proof.
  intros Hok Hop. unfold claim_op_used. apply not_true_iff_false. rewrite existsb_exists.
  intros ([k' c] & Hin & Hc). guards. cbn in *. apply list_elem_of_In, elem_of_map_to_list in Hin.
  destruct (ok_claims _ Hok _ _ Hin) as (<- & _ & row & Hrow & _). cbn in *. congruence.
Qed.

Lemma effect_op_unused db k op : db_ok db -> operations db !! (k.1.1, op) = None -> effect_op_used db k op = false.
Proof.
  intros Hok Hop. unfold effect_op_used. apply not_true_iff_false. rewrite existsb_exists.
  intros ([[[g pr] ek] e] & Hin & Hc). guards. cbn in *. apply list_elem_of_In, elem_of_map_to_list in Hin.
  destruct (ok_effects _ Hok _ _ _ _ Hin) as (row & _ & _ & _ & Hrow & _). congruence.
Qed.

Lemma outbox_unused db g op ek : db_ok db -> operations db !! (g, op) = None ->
  existsb (fun o => bool_decide (ob_garden o = g) && bool_decide (ob_operation o = op) && bool_decide (ob_effect o = ek)) (outbox db) = false.
Proof.
  intros Hok Hop. apply not_true_iff_false. rewrite existsb_exists. intros (o & Hin & Hc). guards.
  apply list_elem_of_In in Hin. destruct (ok_outbox _ Hok _ Hin) as [row Hrow]. congruence.
Qed.

(** ** Lemmas: the life of an effect *)

(** One step of an effect row: untouched, settled (a terminal outcome is final, [unknown] is not), or
    replaced by a new operation once settled. *)
Inductive effect_step : EffectRow -> EffectRow -> Prop :=
| effect_stay e : effect_step e e
| effect_settle e e' : unsettled e = true -> ef_operation e' = ef_operation e -> ef_request e' = ef_request e ->
    ef_fence e' = ef_fence e -> ef_status e' ∈ ["succeeded"; "failed"; "unknown"] -> effect_step e e'
| effect_replace e e' : unsettled e = false -> ef_operation e' <> ef_operation e -> ef_status e' = "pending" -> effect_step e e'.

Definition status_ok (e : EffectRow) : Prop := ef_status e ∈ ["pending"; "unknown"; "succeeded"; "failed"].

Lemma effect_unique db g pr ek pr' ek' e e' : db_ok db -> effects db !! (g, pr, ek) = Some e ->
  effects db !! (g, pr', ek') = Some e' -> ef_operation e = ef_operation e' -> (pr, ek) = (pr', ek').
Proof.
  intros Hok He He' Hop. destruct (ok_effects _ Hok _ _ _ _ He) as (row & ? & ? & ? & Hr & Hq).
  destruct (ok_effects _ Hok _ _ _ _ He') as (row' & ? & ? & ? & Hr' & Hq'). rewrite Hop in Hr.
  assert (row = row') as <- by congruence. congruence.
Qed.

Lemma finish_effect_step now db p g op oc re db' k e : db_ok db -> status_ok e ->
  finish_effect now db p g op oc re = Ok db' -> effects db !! k = Some e ->
  exists e', effects db' !! k = Some e' /\ effect_step e e'.
Proof.
  unfold finish_effect. intros Hok Hst H Hk. run H; subst; try (exists e; split; [done|constructor]).
  cbn. rewrite map_lookup_imap, Hk. cbn. eexists. split; [done|]. unfold settle_effect.
  destruct (has_operation g op (k, e)) eqn:Hop; [|constructor].
  match goal with E : List.filter _ _ = ?x :: _ |- _ => destruct x as [[[g' pr] ek] row]; rename E into Hf end.
  assert (Hin : In (g', pr, ek, row) (List.filter (has_operation g op) (map_to_list (effects db)))) by (rewrite Hf; by left).
  apply filter_In in Hin as [Hin Hrow]. apply list_elem_of_In, elem_of_map_to_list in Hin.
  destruct k as [[g0 pr0] ek0]. unfold has_operation in Hop, Hrow. cbn in Hop, Hrow. guards. subst.
  assert ((pr, ek) = (pr0, ek0)) as [= -> ->] by (eapply effect_unique; eauto; congruence).
  assert (row = e) as -> by congruence. cbn in *.
  apply effect_settle; try done; [|cbn; by apply mem_spec].
  unfold unsettled. apply mem_spec. match goal with E : mem (ef_status e) _ = false |- _ => apply mem_false in E end.
  unfold status_ok in Hst. set_solver.
Qed.

Definition statuses_ok (db : DB) : Prop := forall k e, effects db !! k = Some e -> status_ok e.

Lemma statuses_ok_frame db db' : effects db' = effects db -> statuses_ok db -> statuses_ok db'.
Proof. intros He H k e. rewrite He. apply H. Qed.

Lemma execute_statuses now db cmd resp db' : execute now db cmd = Ok (resp, db') -> statuses_ok db -> statuses_ok db'.
Proof.
  intros H Hok. destruct cmd; cbn [execute] in H; unfold responding, no_response in H; apply fmap_Ok in H as (x & H & [= -> ->]).
  - destruct x as [r d]. apply set_authority_Ok in H as [->|(h & cc & _ & _ & _ & ->)]; [done|by apply (statuses_ok_frame db)].
  - destruct x as [r d]. apply initialize_authority_Ok in H as [->|(a & _ & _ & ->)]; [done|by apply (statuses_ok_frame db)].
  - destruct x as [r d]. apply claim_Ok in H as [(? & _ & _ & ->)|(h & a & c & _ & H)]; [done|].
    destruct_and!; subst. by apply (statuses_ok_frame db).
  - destruct x as [r d]. apply transition_Ok in H as [->|(a & pl & i1 & i2 & pj & evs & _ & _ & _ & ->)]; [done|by apply (statuses_ok_frame db)].
  - unfold finish_outbox in H. run H. subst. by apply (statuses_ok_frame db).
  - unfold supersede_outbox in H. run H. subst. by apply (statuses_ok_frame db).
  - destruct x as [r d]. apply begin_effect_Ok in H as [->|(a & e & _ & H)]; [done|]. destruct_and!; subst. intros k e'. cbn.
    destruct (decide (k = (c_garden c, provider, effect_key))) as [->|Hne]; [|rewrite lookup_insert_ne by done; apply Hok].
    rewrite lookup_insert_eq. intros [= <-]. unfold status_ok.
    match goal with E : ef_status e = _ |- _ => rewrite E end. set_solver.
  - unfold finish_effect in H. run H; subst; try done. intros k e'. cbn. rewrite map_lookup_imap.
    intros (e & He & [= <-])%bind_Some. unfold settle_effect. case_match; [|by eapply Hok].
    unfold status_ok. cbn. guards. match goal with E : mem outcome _ = true |- _ => apply mem_spec in E end. set_solver.
  - unfold acknowledge_cancellation in H. run H. subst. by apply (statuses_ok_frame db).
  - unfold retain_stale_evidence in H. run H; subst; [done|]. apply insert_evidence_frame in H as [ev ->]. by apply (statuses_ok_frame db).
  - unfold set_reservation_pool in H. run H. subst. by apply (statuses_ok_frame db).
  - unfold reserve in H. run H. apply reserve_in_frame in H as [r ->]. by apply (statuses_ok_frame db).
  - unfold reserve_phase in H. run H. apply reserve_in_frame in H as [r ->]. by apply (statuses_ok_frame db).
  - unfold release_reservation in H. run H. subst. by apply (statuses_ok_frame db).
Qed.

Lemma committed_statuses db : committed db -> statuses_ok db.
Proof.
  intros H. unfold committed, steps in H. remember empty_db as e eqn:He.
  assert (Hr : statuses_ok e) by (subst; intros k e; cbn; by rewrite lookup_empty).
  clear He. induction H as [|x y z (now & cmd & resp & Hx) _ IH]; [done|]. eapply IH, execute_statuses; eauto.
Qed.

Lemma execute_effect_step now db cmd resp db' k e : db_ok db -> statuses_ok db -> execute now db cmd = Ok (resp, db') ->
  effects db !! k = Some e -> exists e', effects db' !! k = Some e' /\ effect_step e e'.
Proof.
  intros Hok Hst H Hk. destruct cmd; cbn [execute] in H; unfold responding, no_response in H; apply fmap_Ok in H as (x & H & [= -> ->]).
  - exists e; split; [|constructor]. destruct x as [r d]. by apply set_authority_Ok in H as [->|(h & cc & _ & _ & _ & ->)].
  - exists e; split; [|constructor]. destruct x as [r d]. by apply initialize_authority_Ok in H as [->|(a & _ & _ & ->)].
  - exists e; split; [|constructor]. destruct x as [r d]. apply claim_Ok in H as [(? & _ & _ & ->)|(h & a & c & _ & H)]; [done|]. by destruct_and!; subst.
  - exists e; split; [|constructor]. destruct x as [r d]. by apply transition_Ok in H as [->|(a & pl & i1 & i2 & pj & evs & _ & _ & _ & ->)].
  - exists e; split; [|constructor]. unfold finish_outbox in H. run H. by subst.
  - exists e; split; [|constructor]. unfold supersede_outbox in H. run H. by subst.
  - destruct x as [r d]. apply begin_effect_Ok in H as [->|(a & e1 & Hop & _ & Hun & He1 & _ & _ & _ & _ & Hp & ->)].
    + exists e. split; [done|constructor].
    + cbn. destruct (decide (k = (c_garden c, provider, effect_key))) as [->|Hne].
      * rewrite lookup_insert_eq. eexists. split; [done|]. apply effect_replace; [by apply Hun| |done].
        intros Heq. destruct (ok_effects _ Hok _ _ _ _ Hk) as (row & _ & _ & _ & Hr & _). congruence.
      * rewrite lookup_insert_ne by done. exists e. split; [done|constructor].
  - eapply finish_effect_step; eauto.
  - exists e; split; [|constructor]. unfold acknowledge_cancellation in H. run H. by subst.
  - exists e; split; [|constructor]. unfold retain_stale_evidence in H. run H; subst; [done|]. by apply insert_evidence_frame in H as [ev ->].
  - exists e; split; [|constructor]. unfold set_reservation_pool in H. run H. by subst.
  - exists e; split; [|constructor]. unfold reserve in H. run H. by apply reserve_in_frame in H as [r ->].
  - exists e; split; [|constructor]. unfold reserve_phase in H. run H. by apply reserve_in_frame in H as [r ->].
  - exists e; split; [|constructor]. unfold release_reservation in H. run H. by subst.
Qed.

(** ** Lemmas: hand-offs *)

Lemma count_if_0 {A} (f : A -> bool) l : count_if f l = 0 <-> forall x, x ∈ l -> f x = false.
Proof.
  unfold count_if. induction l as [|y l IH]; [split; [set_solver|done]|]. cbn [List.filter].
  destruct (f y) eqn:Hy; cbn.
  - split; [lia|]. intros H. specialize (H y (list_elem_of_here _ _)). congruence.
  - rewrite IH. split; [|intros H x Hx; apply H; by right]. intros H x [->|Hx]%elem_of_cons; auto.
Qed.

(** A hand-off without blockers: nothing of the previous owner is outstanding. *)
Lemma handoff_blockers_nil db k h : handoff_blockers db k h = [] ->
  (forall i f row, cancellations db !! (k, i, f) = Some row -> ca_status row <> "requested") /\
  (forall o, o ∈ outbox db -> ob_garden o = k.1.1 -> ob_scope o = k.2 -> ob_version o < ho_version h -> ob_status o <> "pending").
Proof.
  unfold handoff_blockers. cbv zeta. rewrite !app_nil. intros (Hc & _ & Ho).
  split.
  - intros i f row Hrow Hst. match type of Hc with (if ?b then _ else _) = _ => destruct b eqn:He; [|done] end. apply Z.eqb_eq in He. rewrite count_if_0 in He.
    specialize (He (k, i, f, row)). cbn in He. rewrite !bool_decide_eq_true_2 in He by done.
    discriminate He. by apply elem_of_map_to_list.
  - intros o Hin Hg Hs Hv Hst. clear Hc. match type of Ho with (if ?b then _ else _) = _ => destruct b eqn:He; [|done] end.
    apply Z.eqb_eq in He. rewrite count_if_0 in He. specialize (He o Hin). cbn in He.
    rewrite !bool_decide_eq_true_2 in He by done. cbn in He. apply andb_false_iff in He as [He|?]; [|done]. lia.
Qed.

Lemma complete_handoffs_Ok now k l db db' : foldR (complete_handoff now k) l db = Ok db' ->
  (forall gh, gh ∈ l -> handoff_blockers db k gh.2 = []) /\
  (forall g row, handoffs db' !! (k, g) = Some row -> ho_status row = "ready" \/ ((g ∉ map fst l) /\ handoffs db !! (k, g) = Some row)).
Proof.
  revert db. induction l as [|gh l IH]; intros db H; cbn [foldR] in H.
  { injection H as <-. split; [set_solver|]. intros g row Hr. right. split; [set_solver|done]. }
  apply bind_Ok in H as (db1 & Hc & H). apply IH in H as [Hb Hr]. unfold complete_handoff in Hc. run Hc. guards. subst. split.
  - intros x [->|Hx]%elem_of_cons; [|by apply Hb]. by destruct (handoff_blockers db k gh.2).
  - intros g row [?|[Hg Hrow]]%Hr; [by left|]. cbn in Hrow. destruct (decide (g = gh.1)) as [->|Hne].
    + rewrite lookup_alter_eq in Hrow. apply fmap_Some in Hrow as (h & _ & ->). by left.
    + rewrite lookup_alter_ne in Hrow by congruence. right. split; [|done]. cbn. set_solver.
Qed.

Lemma elem_of_open_handoffs db k g h : (g, h) ∈ open_handoffs db k <-> handoffs db !! (k, g) = Some h /\ ho_status h <> "ready".
Proof.
  unfold open_handoffs. rewrite elem_of_sort_by, list_elem_of_In, in_map_iff. split.
  - intros ([[k' g'] h'] & [= <- <-] & Hin). apply filter_In in Hin as [Hin Hc]. guards. cbn in *. subst.
    by apply list_elem_of_In, elem_of_map_to_list in Hin.
  - intros [Hl Hs]. exists (k, g, h). split; [done|]. apply filter_In. cbn. rewrite bool_decide_eq_true_2, bool_decide_eq_false_2 by done.
    split; [|done]. by apply list_elem_of_In, elem_of_map_to_list.
Qed.

Lemma reject_unresolved_effects_Ok db g kd s : reject_unresolved_effects db g kd s = Ok tt ->
  forall pr ek e, effects db !! (g, pr, ek) = Some e -> ef_kind e = kd -> ef_scope e = s -> unsettled e = false.
Proof.
  unfold reject_unresolved_effects. intros H pr ek e He Hk Hs. destruct (unsettled e) eqn:Hu; [|done].
  assert (Hin : In (g, pr, ek, e) (List.filter (effect_on g kd s) (map_to_list (effects db)))).
  { apply filter_In. split; [by apply list_elem_of_In, elem_of_map_to_list|]. unfold effect_on. cbn.
    rewrite Hu, (bool_decide_eq_true_2 (g = g)), (bool_decide_eq_true_2 (ef_kind e = kd)), (bool_decide_eq_true_2 (ef_scope e = s)) by done. done. }
  by destruct (List.filter _ _).
Qed.

(** ** Lemmas: where a constraint can fail *)

Definition constraint (e : cerror) : option string := match e with IntegrityError m => Some m | _ => None end.
Definition fails_only {A} (l : list string) (r : result cerror A) : Prop :=
  forall e m, r = Err e -> constraint e = Some m -> m ∈ l.

Lemma fails_Ok {A} l (a : A) : fails_only l (Ok a).
Proof. by intros e m. Qed.
Lemma fails_bind {A B} l (r : result cerror A) (f : A -> result cerror B) :
  fails_only l r -> (forall a, r = Ok a -> fails_only l (f a)) -> fails_only l (r ≫= f).
Proof. intros Hr Hf e m. destruct r as [a|e']; cbn; [by apply Hf|intros [= ->]; by apply Hr]. Qed.
Lemma fails_raise {A} l e b (k : result cerror A) :
  (b = true -> constraint e = None) -> (b = false -> fails_only l k) -> fails_only l (raise e when b ;; k).
Proof. intros He Hk e' m. destruct b; [|by apply Hk]. intros [= ->]. by rewrite He. Qed.
Lemma fails_Err {A} l e : constraint e = None -> fails_only l (Err e : result cerror A).
Proof. intros He e' m [= ->]. by rewrite He. Qed.
Lemma fails_fmap {A B} l (f : A -> B) (r : result cerror A) : fails_only l r -> fails_only l (f <$> r).
Proof. intros Hr e m. destruct r as [a|e']; cbn; [done|intros [= ->]; by apply Hr]. Qed.
Lemma fails_foldR {A S} l (f : S -> A -> result cerror S) xs s : (forall s a, fails_only l (f s a)) -> fails_only l (foldR f xs s).
Proof. intros Hf. revert s. induction xs as [|x xs IH]; intros s; cbn; [apply fails_Ok|]. apply fails_bind; auto. Qed.

Create HintDb constraints.
#[local] Hint Resolve fails_Ok fails_bind fails_raise fails_Err fails_fmap fails_foldR : constraints.

(** Walk through a computation whose errors are all refusals. *)
Ltac no_constraint :=
  repeat match goal with
    | |- fails_only _ (Ok _) => apply fails_Ok
    | |- fails_only _ (Err _) => apply fails_Err; reflexivity
    | |- fails_only _ (_ <$> _) => apply fails_fmap
    | |- fails_only _ (raise (IntegrityError _) when _ ;; _) => fail 1
    | |- fails_only _ (raise _ when _ ;; _) => apply fails_raise; [intros; reflexivity|intros ?]
    | |- fails_only _ (match ?x with _ => _ end) => destruct x
    | |- fails_only _ (_ ≫= _) => apply fails_bind; [|intros ? ?]
    end.

Lemma check_protocol_fails l v : fails_only l (check_protocol v).
Proof. unfold check_protocol. no_constraint. Qed.
Lemma check_garden_fails l p g : fails_only l (check_garden p g).
Proof. unfold check_garden. no_constraint. Qed.
Lemma check_admin_fails l p m : fails_only l (check_admin p m).
Proof. unfold check_admin. no_constraint. Qed.
Lemma check_reserver_fails l p a b : fails_only l (check_reserver p a b).
Proof. unfold check_reserver. no_constraint. Qed.
Lemma reject_fails l db g kd s : fails_only l (reject_unresolved_effects db g kd s).
Proof. unfold reject_unresolved_effects. no_constraint. Qed.
Lemma validate_fails l now db p c ex : fails_only l (validate_claim now db p c ex).
Proof. unfold validate_claim. apply fails_bind; [apply check_garden_fails|intros ? _]. no_constraint. Qed.
Lemma complete_handoffs_fails l now k hs db : fails_only l (foldR (complete_handoff now k) hs db).
Proof. apply fails_foldR. intros. unfold complete_handoff. no_constraint. Qed.
Lemma initialize_rows_fails l g rows db : fails_only l (foldR (initialize_row g) rows db).
Proof. apply fails_foldR. intros s [[kd sc] o]. unfold initialize_row. no_constraint. Qed.
Lemma repeated_fails l db p g op kind req : fails_only l (repeated db p g op kind req).
Proof. unfold repeated. no_constraint. Qed.
Lemma reserve_in_fails l now db p g po op u sp ul sl : fails_only l (reserve_in now db p g po op u sp ul sl).
Proof. unfold reserve_in. no_constraint. Qed.
#[local] Hint Resolve check_protocol_fails check_garden_fails check_admin_fails check_reserver_fails reject_fails validate_fails
  complete_handoffs_fails initialize_rows_fails repeated_fails reserve_in_fails : constraints.

Lemma journaled_fails l now db p g op kind req work :
  (operations db !! (g, op) = None -> fails_only l work) ->
  (forall rd, work = Ok rd -> operations rd.2 = operations db) ->
  fails_only l (journaled now db p g op kind req work).
Proof.
  intros Hw Hops. unfold journaled. apply fails_bind; [apply repeated_fails|]. intros o Ho. destruct o as [resp|]; [apply fails_Ok|].
  apply repeated_Ok in Ho. destruct (operations db !! (g, op)) as [row|] eqn:Hr; [by destruct Ho|].
  apply fails_bind; [by apply Hw|]. intros rd Hrd. apply fails_bind; [|intros; apply fails_Ok].
  unfold record. rewrite (Hops rd Hrd), Hr. apply fails_Ok.
Qed.

(** [no_constraint], using what the guards do. *)
Ltac walk := repeat first [ solve [auto with constraints] | progress no_constraint ].

Lemma insert_evidence_fails now g i op pl db : fails_only ["evidence"] (insert_evidence now g i op pl db).
Proof. unfold insert_evidence. intros e m. case_match; [intros [= <-] [= <-]; set_solver|done]. Qed.

Lemma insert_outbox_fails l now c op v pl db d : db_ok db -> operations db !! (c_garden c, op) = None -> outbox d = outbox db ->
  fails_only l (foldR (insert_outbox now c op v pl) ["task_transition"; "git_projection"] d).
Proof.
  intros Hok Hop Hd. cbn [foldR]. unfold insert_outbox. rewrite Hd, (outbox_unused _ _ _ "task_transition" Hok Hop).
  cbn [mbind result_bind outbox with_outbox]. rewrite existsb_app, (outbox_unused _ _ _ "git_projection" Hok Hop). cbn.
  rewrite !andb_false_r. apply fails_Ok.
Qed.

Lemma claim_work_fails l now db p g kd s ex o gen op le pv : db_ok db -> fails_only l (claim now db p g kd s ex o gen op le pv).
Proof.
  intros Hok. unfold claim. walk. apply journaled_fails; cbv zeta.
  - intros Hop. walk. apply fails_raise; [|walk]. intros Hu. exfalso.
    match goal with E : foldR _ _ _ = Ok _ |- _ => apply complete_handoffs_frame in E as [h ->] end.
    revert Hu. change (claim_op_used _ (g, kd, s) op) with (claim_op_used db (g, kd, s) op).
    by rewrite (claim_op_unused db (g, kd, s) op Hok Hop).
  - intros rd Hw. run Hw. subst. cbn.
    match goal with E : foldR _ _ _ = Ok _ |- _ => by apply complete_handoffs_frame in E as [h ->] end.
Qed.

Lemma transition_fails now db p c ex st md op ev pa re : db_ok db -> fails_only ["evidence"] (transition now db p c ex st md op ev pa re).
Proof.
  intros Hok. unfold transition. walk. apply journaled_fails; cbv zeta.
  - intros Hop. apply fails_bind; [walk|intros a _]. apply fails_bind.
    + eapply insert_outbox_fails; [done|done|]. by destruct (nonempty pa).
    + intros db3 _. apply fails_bind; [|intros; apply fails_Ok]. destruct ev; [apply fails_Ok|apply insert_evidence_fails].
  - intros rd Hw. apply bind_Ok in Hw as (a & _ & Hw). apply bind_Ok in Hw as (db3 & Ho & Hw).
    apply bind_Ok in Hw as (db4 & He & Hw). injection Hw as <-. cbn.
    assert (Hev : operations db4 = operations db3).
    { destruct ev; [by injection He as <-|by apply insert_evidence_frame in He as [? ->]]. }
    rewrite Hev. apply insert_outbox_pair in Ho as (i1 & i2 & _ & ->). cbn. by destruct (nonempty pa).
Qed.

Lemma begin_effect_fails l now db p c pr ek op cs pc pl ex : db_ok db -> fails_only l (begin_effect now db p c pr ek op cs pc pl ex).
Proof.
  intros Hok. unfold begin_effect. apply journaled_fails; cbv zeta.
  - intros Hop. walk. apply fails_raise; [|walk]. by rewrite (effect_op_unused db (c_garden c, pr, ek) op Hok Hop).
  - intros rd Hw. run Hw. by subst.
Qed.

Lemma set_authority_fails l now db p g kd s o gen ex op pv : fails_only l (set_authority now db p g kd s o gen ex op pv).
Proof.
  unfold set_authority. walk. apply journaled_fails; cbv zeta; [intros _; walk|]. intros rd Hw. run Hw. subst. cbn.
  destruct (authority db !! (g, kd, s)) as [old|]; [|done].
  match goal with |- context [reconcile_handoff ?n ?k ?a ?o ?ge ?v ?d] => by destruct (reconcile_handoff_frame n k a o ge v d) as (h & cc & ->) end.
Qed.

Lemma initialize_authority_fails l now db p g rows op pv : fails_only l (initialize_authority now db p g rows op pv).
Proof.
  unfold initialize_authority. walk. apply journaled_fails; cbv zeta; [intros _; walk|]. intros rd Hw. run Hw. subst. cbn.
  match goal with E : foldR _ _ _ = Ok _ |- _ => by apply initialize_rows_frame in E as (rows' & -> & _) end.
Qed.

Lemma execute_fails now db cmd : db_ok db -> fails_only ["evidence"] (execute now db cmd).
Proof.
  intros Hok. destruct cmd; cbn [execute]; unfold responding, no_response; apply fails_fmap;
    eauto using set_authority_fails, initialize_authority_fails, claim_work_fails, transition_fails, begin_effect_fails.
  - unfold finish_outbox. walk.
  - unfold supersede_outbox. walk.
  - unfold finish_effect. walk.
  - unfold acknowledge_cancellation. walk.
  - unfold retain_stale_evidence. walk. apply insert_evidence_fails.
  - unfold set_reservation_pool. walk.
  - unfold reserve. walk.
  - unfold reserve_phase. walk.
  - unfold release_reservation. walk.
Qed.

(** ** A sample run *)

Module Scenario.
Definition who (m i r : string) : Principal :=
  {| p_garden := "g"; p_member := m; p_installation := i; p_role := r; p_visibility := "all"; p_projects := ∅ |}.
Definition root : Principal := who "ann" "hub" "administrator".
Definition bob : Principal := who "bob" "desk" "member".

(** An authority, a lease, a committed transition, a provider effect and a reservation. *)
Definition acquire : command := AcquireClaim bob "g" "task" "T1" 1 "bob" 1 "op2" 60 1.
Definition held : Claim :=
  {| c_garden := "g"; c_kind := "task"; c_scope := "T1"; c_owner := "bob"; c_generation := 1; c_installation := "desk";
     c_operation := "op2"; c_fence := 1; c_expires := 60000010 |}.
Definition script : list (Z * command) :=
  [(0, SetAuthority root "g" "task" "T1" "bob" 1 0 "op1" 1); (10, acquire);
   (20, Transition bob held 1 "running" "text" "op3" [("id", PStr "e1")] "" "");
   (30, BeginEffect bob held "github" "merge" "op4" "repo" "sha" [] None);
   (40, SetReservationPool root "g" "slots" 2 100);
   (50, Reserve bob "g" "slots" "op5" 1 40 None (Some 100))].

Definition run_script (l : list (Z * command)) : result cerror DB :=
  foldR (fun db nc => snd <$> execute nc.1 db nc.2) l empty_db.
Definition after (n : nat) : DB := match run_script (take n script) with Ok d => d | Err _ => empty_db end.

Definition committed_or_empty (r : result cerror (option response * DB)) : DB := match r with Ok rd => rd.2 | Err _ => empty_db end.
(** The scope reassigned while the lease is held; the effect confirmed. *)
Definition reassigned : DB := committed_or_empty (execute 20 (after 2) (SetAuthority root "g" "task" "T1" "eve" 2 1 "op6" 1)).
Definition eve : Principal := who "eve" "tower" "member".
Definition acked : DB := committed_or_empty (execute 60 reassigned (AcknowledgeCancellation root "g" "task" "T1" 1)).
Definition taken : Claim :=
  {| c_garden := "g"; c_kind := "task"; c_scope := "T1"; c_owner := "eve"; c_generation := 2; c_installation := "tower";
     c_operation := "op8"; c_fence := 2; c_expires := 60000070 |}.
Definition retaken : DB := committed_or_empty (execute 70 acked (AcquireClaim eve "g" "task" "T1" 2 "eve" 2 "op8" 60 1)).
Definition merged : DB := committed_or_empty (execute 60 (after 4) (FinishEffect bob "g" "op4" "succeeded" [("sha", PStr "1")])).
End Scenario.

Lemma script_committed l db : Scenario.run_script l = Ok db -> committed db.
Proof.
  unfold Scenario.run_script, committed. intros H.
  eapply (foldR_invariant (fun d => steps empty_db d) _ _ empty_db); [|constructor|exact H].
  intros [now cmd] s1 s2 _ Hs H2. run H2. cbn in *. eapply rtc_r; [done|].
  match goal with E : execute _ _ _ = Ok ?x |- _ => destruct x as [resp d]; by exists now, cmd, resp end.
Qed.

Lemma scenario_committed n : match Scenario.run_script (take n Scenario.script) with Ok _ => true | Err _ => false end = true ->
  committed (Scenario.after n).
Proof.
  intros H. apply (script_committed (take n Scenario.script)). unfold Scenario.after.
  by destruct (Scenario.run_script (take n Scenario.script)).
Qed.

Lemma scenario2 : committed (Scenario.after 2).
Proof. apply scenario_committed. vm_compute. reflexivity. Qed.
Lemma scenario1 : committed (Scenario.after 1).
Proof. apply scenario_committed. vm_compute. reflexivity. Qed.
Lemma scenario_acquires : execute 10 (Scenario.after 1) Scenario.acquire = Ok (Some (RespClaim Scenario.held), Scenario.after 2).
Proof. vm_compute. reflexivity. Qed.
Lemma scenario_valid : is_Ok (validate_claim 20 (Scenario.after 2) Scenario.bob Scenario.held None) = true.
Proof. vm_compute. reflexivity. Qed.

(** ** Properties *)

(** C1.  Every command the coordinator accepts, in any database it can reach, acts on every scope as
    one step of the abstract fenced lock: nothing, the creation of the scope, an assignment under a
    strictly larger generation that drops the holder, the acquisition of the next fence by the current
    owner once the previous lease has lapsed, or a version bump by the holder. *)
Theorem coordinator_refines_lock (now : Z) (db db' : DB) (cmd : command) (resp : option response) (k : skey)
    (Hdb : committed db) (Hcmd : execute now db cmd = Ok (resp, db')) :
  lock_step (abs db k) (abs db' k).
Proof. eapply execute_refines; [by apply committed_ok|done]. Qed.

Lemma coordinator_refines_lock_witness :
  lock_step (abs (Scenario.after 1) ("g", "task", "T1")) (abs (Scenario.after 2) ("g", "task", "T1")) /\
  l_fence <$> abs (Scenario.after 2) ("g", "task", "T1") = Some 1.
Proof.
  split; [|vm_compute; reflexivity].
  exact (coordinator_refines_lock 10 _ _ Scenario.acquire _ ("g", "task", "T1") scenario1 scenario_acquires).
Defined.

(** Mutual exclusion: in any reachable database at most one claim per scope passes the fencing
    check, and only for the member and installation that hold it. *)
Theorem mutual_exclusion (db : DB) (now1 now2 : Z) (p1 p2 : Principal) (c1 c2 : Claim) (v1 v2 : option Z) (a1 a2 : AuthorityRow)
    (Hdb : committed db) (Hscope : claim_key c1 = claim_key c2)
    (H1 : validate_claim now1 db p1 c1 v1 = Ok a1) (H2 : validate_claim now2 db p2 c2 v2 = Ok a2) :
  c1 = c2 /\ p_installation p1 = p_installation p2 /\ p_member p1 = p_member p2 /\ c_owner c1 = p_member p1.
Proof.
  apply committed_ok in Hdb.
  destruct (validate_claim_holds _ _ _ _ _ _ Hdb H1) as [Hc1 _], (validate_claim_holds _ _ _ _ _ _ Hdb H2) as [Hc2 _].
  apply validate_claim_Ok in H1 as (_ & Ha1 & Ho1 & _ & Hi1 & _), H2 as (_ & Ha2 & Ho2 & _ & Hi2 & _).
  rewrite Hscope in *. assert (c1 = c2) as -> by congruence. assert (a1 = a2) as -> by congruence.
  pose proof (ok_locks _ Hdb (claim_key c2)) as Hl. unfold abs in Hl. rewrite Ha2, Hc2 in Hl.
  destruct (Hl _ eq_refl) as [_ Hl']. cbn in Hl'. destruct (Hl' c2 eq_refl) as (Hown & _). split_and!; congruence.
Qed.

Lemma mutual_exclusion_witness : c_owner Scenario.held = p_member Scenario.bob.
Proof.
  pose proof scenario_valid as Hv.
  destruct (validate_claim 20 (Scenario.after 2) Scenario.bob Scenario.held None) as [a|] eqn:He; [|discriminate Hv].
  apply (mutual_exclusion (Scenario.after 2) 20 20 Scenario.bob Scenario.bob Scenario.held Scenario.held None None a a
           scenario2 eq_refl He He).
Defined.

(** C2.  Fencing: once a claim that was valid is no longer its scope's stored claim (because the scope
    was reassigned or the lease was taken over), it never passes the check again, at any time, for
    any caller, in any later database. *)
Theorem fencing (db db1 db2 : DB) (now now' : Z) (p p' : Principal) (c : Claim) (v v' : option Z) (a : AuthorityRow)
    (Hdb : committed db) (Hvalid : validate_claim now db p c v = Ok a)
    (Hsteps : steps db db1) (Hlost : claims db1 !! claim_key c <> Some c) (Hlater : steps db1 db2) :
  is_Ok (validate_claim now' db2 p' c v') = false.
Proof.
  apply committed_ok in Hdb. destruct (validate_claim_holds _ _ _ _ _ _ Hdb Hvalid) as [_ Hh].
  assert (Hok1 : db_ok db1) by (by eapply steps_ok). assert (Hok2 : db_ok db2) by (by eapply steps_ok).
  destruct (holds_steps _ _ _ (steps_locks _ _ (claim_key c) Hsteps Hdb) Hh) as [Hh1|Hs1]; [by destruct Hlost; apply holds_claim|].
  pose proof (superseded_steps _ _ _ (steps_locks _ _ (claim_key c) Hlater Hok1) Hs1) as Hs2.
  destruct (validate_claim now' db2 p' c v') eqn:He; [|done]. apply validate_claim_holds in He as [_ Hh2]; [|done].
  by destruct (superseded_not_holds c (claim_key c) _ (ok_locks _ Hok2 _) Hs2).
Qed.

Lemma fencing_witness :
  exists db1, steps (Scenario.after 2) db1 /\ is_Ok (validate_claim 20 db1 Scenario.bob Scenario.held None) = false.
Proof.
  pose proof scenario_valid as Hv.
  destruct (validate_claim 20 (Scenario.after 2) Scenario.bob Scenario.held None) as [a|] eqn:He; [|discriminate Hv].
  assert (Hx : steps (Scenario.after 2) Scenario.reassigned).
  { apply rtc_once. exists 20, (SetAuthority Scenario.root "g" "task" "T1" "eve" 2 1 "op6" 1). eexists. vm_compute. reflexivity. }
  exists Scenario.reassigned. split; [exact Hx|].
  apply (fencing (Scenario.after 2) Scenario.reassigned Scenario.reassigned 20 20 Scenario.bob Scenario.bob Scenario.held None None a
           scenario2 He Hx); [|apply rtc_refl]. vm_compute. discriminate.
Defined.

(** C3.  Exactly once: a journaled command that was accepted is answered with the same response, and
    changes nothing, whenever it is repeated, at any later time and after any other accepted
    commands. *)
Theorem exactly_once (now now' : Z) (db db' later : DB) (cmd : command) (resp : option response)
    (Hj : is_journaled cmd = true) (Hcmd : execute now db cmd = Ok (resp, db')) (Hlater : steps db' later) :
  execute now' later cmd = Ok (resp, later).
Proof. eapply execute_repeats; [done|done|]. intros k row. by apply steps_journal. Qed.

Lemma exactly_once_witness :
  execute 99 (Scenario.after 2) Scenario.acquire = Ok (Some (RespClaim Scenario.held), Scenario.after 2).
Proof.
  exact (exactly_once 10 99 _ _ (Scenario.after 2) Scenario.acquire _ eq_refl scenario_acquires (rtc_refl _ _)).
Defined.

(** Shared capacity is never oversubscribed: in every reachable database the active reservations
    of each configured pool fit its unit and spending limits, every reservation is non-negative and
    belongs to a configured pool. *)
Theorem reservations_bounded (db : DB) (Hdb : committed db) : reservations_ok db.
Proof. by apply committed_reservations. Qed.

Lemma reservations_bounded_witness :
  active_total rs_spend "g" "slots" (reservations (Scenario.after 6)) = 40 /\ reservations_ok (Scenario.after 6).
Proof.
  split; [vm_compute; reflexivity|]. apply (reservations_bounded (Scenario.after 6)).
  apply scenario_committed. vm_compute. reflexivity.
Defined.

(** A lease is granted only when the previous owner is out of the way: after a first-time grant
    every hand-off of the scope is ready and no provider effect of the scope is unsettled; and if any
    hand-off was still open, no cancellation of the scope is unacknowledged and no projection older
    than that hand-off is pending. *)
Theorem handoff_gate (now : Z) (db db' : DB) (p : Principal) (g kd s : string) (ex : Z) (o : string) (gen : Z) (op : string)
    (le pv : Z) (resp : response) (Hfresh : operations db !! (g, op) = None)
    (Hclaim : claim now db p g kd s ex o gen op le pv = Ok (resp, db')) :
  (forall to row, handoffs db' !! (g, kd, s, to) = Some row -> ho_status row = "ready") /\
  (forall pr ek e, effects db !! (g, pr, ek) = Some e -> ef_kind e = kd -> ef_scope e = s -> unsettled e = false) /\
  (forall to h, handoffs db !! (g, kd, s, to) = Some h -> ho_status h <> "ready" ->
     (forall i f row, cancellations db !! (g, kd, s, i, f) = Some row -> ca_status row <> "requested") /\
     (forall x, x ∈ outbox db -> ob_garden x = g -> ob_scope x = s -> ob_version x < ho_version h -> ob_status x <> "pending")).
Proof.
  apply claim_Ok in Hclaim as [(row & Hr & _)|(h & a & c & _ & _ & _ & _ & _ & _ & Hf & Hrej & _ & _ & _ & _ & _ & ->)]; [congruence|].
  apply complete_handoffs_Ok in Hf as [Hb Hr]. split_and!.
  - intros to row Hrow. destruct (decide (ho_status row = "ready")) as [|Hn]; [done|].
    destruct (Hr to row Hrow) as [?|[Hni Hold]]; [done|]. destruct Hni.
    apply list_elem_of_In, in_map_iff. exists (to, row). split; [done|]. apply list_elem_of_In. by apply elem_of_open_handoffs.
  - by apply reject_unresolved_effects_Ok.
  - intros to ho Hho Hn. apply (handoff_blockers_nil db (g, kd, s) ho), (Hb (to, ho)). by apply elem_of_open_handoffs.
Qed.

Lemma handoff_gate_witness :
  exists h row, handoffs Scenario.acked !! ("g", "task", "T1", 2) = Some h /\ ho_status h = "reconciling" /\
    handoffs Scenario.retaken !! ("g", "task", "T1", 2) = Some row /\ ho_status row = "ready".
Proof.
  destruct (handoffs Scenario.acked !! ("g", "task", "T1", 2)) as [h|] eqn:Hh; [|vm_compute in Hh; discriminate].
  destruct (handoffs Scenario.retaken !! ("g", "task", "T1", 2)) as [row|] eqn:Hr; [|vm_compute in Hr; discriminate].
  exists h, row. split_and!; [done|vm_compute in Hh; by injection Hh as <-|done|].
  refine (proj1 (handoff_gate 70 Scenario.acked Scenario.retaken Scenario.eve "g" "task" "T1" 2 "eve" 2 "op8" 60 1
           (RespClaim Scenario.taken) _ _) 2 row Hr); vm_compute; reflexivity.
Defined.

(** A provider effect moves only forward: an accepted command leaves it alone, settles it while it
    is pending or unknown (keeping its operation, request and fence), or, once it has a terminal
    outcome, replaces it by a new operation; a terminal outcome is never rewritten. *)
Theorem effect_lifecycle (now : Z) (db db' : DB) (cmd : command) (resp : option response) (k : string * string * string) (e : EffectRow)
    (Hdb : committed db) (Hcmd : execute now db cmd = Ok (resp, db')) (He : effects db !! k = Some e) :
  exists e', effects db' !! k = Some e' /\ effect_step e e'.
Proof. eapply execute_effect_step; [by apply committed_ok|by apply committed_statuses|done|done]. Qed.

Lemma effect_lifecycle_witness :
  exists e e', effects (Scenario.after 4) !! ("g", "github", "merge") = Some e /\
    effects Scenario.merged !! ("g", "github", "merge") = Some e' /\ effect_step e e' /\ ef_status e' = "succeeded".
Proof.
  destruct (effects (Scenario.after 4) !! ("g", "github", "merge")) as [e|] eqn:He; [|vm_compute in He; discriminate].
  destruct (effect_lifecycle 60 (Scenario.after 4) Scenario.merged
              (FinishEffect Scenario.bob "g" "op4" "succeeded" [("sha", PStr "1")]) None ("g", "github", "merge") e) as (e' & He' & Hs).
  - apply scenario_committed. vm_compute. reflexivity.
  - vm_compute. reflexivity.
  - exact He.
  - exists e, e'. split_and!; [done|done|done|]. vm_compute in He'. by injection He' as <-.
Defined.

(** The database's own constraints never reject a command, with one exception: reusing an
    evidence id in a transition.  Every other collision of ids is caught by the journal and answered
    as a conflict or as a repeat. *)
Theorem constraints_hold (now : Z) (db : DB) (cmd : command) (m : string) (Hdb : committed db)
    (Hfail : execute now db cmd = Err (IntegrityError m)) : m = "evidence".
Proof.
  pose proof (execute_fails now db cmd (committed_ok _ Hdb) _ m Hfail eq_refl) as H. set_solver.
Qed.

Lemma constraints_hold_witness :
  execute 30 (Scenario.after 3) (Transition Scenario.bob Scenario.held 2 "running" "text" "op7" [("id", PStr "e1")] "" "")
    = Err (IntegrityError "evidence") /\ "evidence" = "evidence".
Proof.
  assert (H : execute 30 (Scenario.after 3) (Transition Scenario.bob Scenario.held 2 "running" "text" "op7" [("id", PStr "e1")] "" "")
    = Err (IntegrityError "evidence")) by (vm_compute; reflexivity).
  split; [exact H|]. refine (constraints_hold 30 (Scenario.after 3) _ "evidence" _ H).
  apply scenario_committed. vm_compute. reflexivity.
Defined.

(** A superseded projection can be reopened: [finish_outbox] does not look at the row's current
    status, so a late failure report makes a superseded row pending, and publishable, again. *)
Lemma superseded_row_reopens :
  (d1 ← supersede_outbox 70 (Scenario.after 3) Scenario.root "g" 1 2;
   d2 ← finish_outbox 80 d1 Scenario.root "g" 1 2 false "late";
   Ok (ob_status <$> find_outbox d1 "g" 1, map ob_id (pending_outbox d2 "g"))) = Ok (Some "superseded", [1; 2]).
Proof. vm_compute. reflexivity. Qed.
