(* ===== verification/Workers.v ===== *)
(** * Worker configurations, admission and matching ([garden/hosts/models.py], [garden/hosts/matching.py])

    A worker configuration is a reusable template with operator grants and resource ceilings; a worker
    instance is one user's authenticated installation of it.  [verify_worker_configuration] decides
    whether an instance may run an activity; [match_worker] picks the instance.  Instants are integers
    (the code compares floating-point times, and only compares them); zero stands for "never" as in
    the code. *)

From S2P Require Import Prelude PyValue Requirements.

#[local] Open Scope list_scope.

(** ** Data *)

Record ResourceCeilings := {
  memory_mib : Z; vcpu : Z; ceil_gpu_count : Z; gpu_device_memory_mib : Z; ceil_gpu_vendor : string; ceil_gpu_features : list string;
}.

Record CapabilityGrant := {
  g_capability : string; approved_by : string; approved_at : Z; g_generation : Z; g_revoked_at : Z;
}.

(** [CapabilityGrant.active] *)
Definition grant_active (g : CapabilityGrant) (generation now : Z) : bool :=
  nonempty (approved_by g) && (approved_at g <=? now) && (g_generation g =? generation)
  && ((g_revoked_at g =? 0) || (now <? g_revoked_at g)).

Record WorkerObservation := { w_capability : string; observed_at : Z; expires_at : Z }.
Definition fresh (o : WorkerObservation) (now : Z) : bool := (observed_at o <=? now) && (now <? expires_at o).

Record WorkerIdentityBinding := {
  identity_reference : string; credential_reference : string; b_operating_user : string; b_installation_id : string;
  enrolled_at : Z; b_revoked_at : Z;
}.
(** [WorkerIdentityBinding.active] *)
Definition binding_active (b : WorkerIdentityBinding) (now : Z) : bool :=
  (enrolled_at b <=? now) && ((b_revoked_at b =? 0) || (now <? b_revoked_at b)).

Definition WORKER_CONFIGURATION_CONTRACT_VERSION : string := "garden.worker-configuration/v1".

Record WorkerConfiguration := {
  wc_name : string; wc_version : string; wc_generation : Z; activities : list string; wc_projects : list string;
  resource_ceilings : ResourceCeilings; identity_references : list string; grants : list CapabilityGrant;
  contract_version : string;
}.

Definition granted_capabilities (c : WorkerConfiguration) (now : Z) : list string :=
  sorted_set (map g_capability (List.filter (fun g => grant_active g (wc_generation c) now) (grants c))).

(** What [public_dict] shares: the identity references are redacted. *)
Definition public_identity_references (c : WorkerConfiguration) : list string :=
  map (fun _ => "<redacted>") (identity_references c).

Record WorkerInstance := {
  instance_id : string; wi_configuration : string; configuration_version : string; profile_generation : Z;
  operating_user : string; installation_id : string; authenticated_at : Z; readiness_checked_at : Z;
  readiness_expires_at : Z; observations : list WorkerObservation; identity_bindings : list WorkerIdentityBinding;
  protocol_version : Z; revoked_at : Z;
}.

Record Admission := {
  eligible : bool; authoritative_capabilities : list string; observed_capabilities : list string; adm_detail : string;
}.
Definition denied (detail : string) : Admission :=
  {| eligible := false; authoritative_capabilities := []; observed_capabilities := []; adm_detail := detail |}.

(** [sorted(set(a) - set(b))] *)
Definition missing_from (a b : list string) : list string := sorted_set (List.filter (fun x => negb (mem x b)) a).

(** ** Admission *)

(** The hard requirements of one activity. *)
Record Demand := {
  d_capabilities : list string; d_memory : Z; d_vcpu : Z; d_gpu : Z; d_gpu_memory : Z; d_vendor : string; d_features : list string;
  d_protocol : Z;
}.

Definition constrained (d : Demand) (c : WorkerConfiguration) : bool :=
  nonempty_list (d_capabilities d) || negb (d_memory d =? 0) || negb (d_vcpu d =? 0) || negb (d_gpu d =? 0)
  || negb (d_gpu_memory d =? 0) || nonempty (d_vendor d) || nonempty_list (d_features d)
  || nonempty_list (activities c) || nonempty_list (wc_projects c).

Definition active_bindings (i : WorkerInstance) (now : Z) : list string :=
  map identity_reference (List.filter (fun b => bool_decide (b_operating_user b = operating_user i)
    && bool_decide (b_installation_id b = installation_id i) && nonempty (credential_reference b) && binding_active b now)
    (identity_bindings i)).

Definition over_ceiling (d : Demand) (r : ResourceCeilings) : bool :=
  (memory_mib r <? d_memory d) || (vcpu r <? d_vcpu d) || (ceil_gpu_count r <? d_gpu d)
  || (gpu_device_memory_mib r <? d_gpu_memory d).

Definition verify_worker_configuration (c : WorkerConfiguration) (i : WorkerInstance) (activity project : string)
    (d : Demand) (now : Z) : Admission :=
  let r := resource_ceilings c in
  let granted := granted_capabilities c now in
  let missing := missing_from (d_capabilities d) granted in
  let missing_features := missing_from (d_features d) (ceil_gpu_features r) in
  if negb (bool_decide (contract_version c = WORKER_CONFIGURATION_CONTRACT_VERSION))
  then denied "unsupported configuration contract"
  else if protocol_version i <? d_protocol d then denied "worker protocol does not support required constraints"
  else if (protocol_version i =? 0) && constrained d c then denied "legacy worker cannot verify required constraints"
  else if negb (revoked_at i =? 0) && (revoked_at i <=? now) then denied "worker instance is revoked"
  else if negb (nonempty (operating_user i)) || negb (nonempty (installation_id i))
  then denied "worker instance is not authenticated to a user and installation"
  else if now <? authenticated_at i then denied "worker authentication is not yet valid"
  else if negb (bool_decide (wi_configuration i = wc_name c)) || negb (bool_decide (configuration_version i = wc_version c))
          || negb (profile_generation i =? wc_generation c)
  then denied "worker profile generation does not match"
  else if negb ((readiness_checked_at i <=? now) && (now <? readiness_expires_at i)) then denied "worker readiness is stale"
  else if nonempty_list (missing_from (identity_references c) (active_bindings i now))
  then denied "worker identity binding is missing, revoked, or owned by another installation"
  else if nonempty_list (activities c) && negb (mem activity (activities c)) then denied "activity is outside worker scope"
  else if nonempty_list (wc_projects c) && negb (mem project (wc_projects c)) then denied "project is outside worker scope"
  else if over_ceiling d r then denied "resource requirement exceeds worker ceiling"
  else if nonempty (d_vendor d) && negb (bool_decide (d_vendor d = ceil_gpu_vendor r))
  then denied "GPU vendor does not match worker shape"
  else if nonempty_list missing_features
  then denied ("GPU features are unavailable: " ++ join ", " missing_features)
  else if nonempty_list missing
  then {| eligible := false; authoritative_capabilities := granted; observed_capabilities := [];
          adm_detail := "capabilities lack active operator grants: " ++ join ", " missing |}
  else {| eligible := true; authoritative_capabilities := granted;
          observed_capabilities := sorted_set (map w_capability (List.filter (fun o => fresh o now) (observations i)));
          adm_detail := "" |}.

(** ** Matching *)

Inductive MatchReason :=
  MATCHED | BUSY | NO_COMPATIBLE_PROFILE | OFFLINE_OR_STALE | DENIED_ACCESS | INVALID_REQUIREMENTS | BUDGET_OR_DEADLINE_HOLD.
#[export] Instance match_reason_eq_dec : EqDecision MatchReason.
Proof. solve_decision. Defined.

Record WorkerMatch := { wm_instance : option WorkerInstance; wm_reason : MatchReason; wm_detail : string }.
Definition no_match (r : MatchReason) (detail : string) : WorkerMatch :=
  {| wm_instance := None; wm_reason := r; wm_detail := detail |}.

(** The requirements as [match_worker] passes them on. *)
Definition demand_of (r : ExecutionRequirements) : Demand :=
  let gpu := rr_gpu (er_resources r) in
  {| d_capabilities := er_capabilities r;
     d_memory := rr_memory_mib (er_resources r); d_vcpu := rr_vcpu (er_resources r);
     d_gpu := match gpu with Some g => gpu_count g | None => 0 end;
     d_gpu_memory := match gpu with Some g => gpu_min_device_memory_mib g | None => 0 end;
     d_vendor := match gpu with Some g => gpu_vendor g | None => "" end;
     d_features := match gpu with Some g => gpu_features g | None => [] end;
     d_protocol := 0 |}.

(** [{name: index for index, name in enumerate(l)}] *)
Fixpoint enumerate_from (n : Z) (l : list string) : list (string * Z) :=
  match l with [] => [] | x :: l' => (x, n) :: enumerate_from (n + 1) l' end.
Definition preference (l : list string) : dict Z := foldl (fun d kv => dset kv.1 kv.2 d) [] (enumerate_from 0 l).

(** The sort key of the candidates. *)
Definition match_key (pref counts : dict Z) (i : WorkerInstance) : Z * Z * string :=
  (default (Z.of_nat (List.length pref)) (dget (wi_configuration i) pref), default 0 (dget (instance_id i) counts), instance_id i).
Definition key3_leb (a b : Z * Z * string) : bool :=
  if a.1.1 =? b.1.1 then if a.1.2 =? b.1.2 then str_leb a.2 b.2 else a.1.2 <=? b.1.2 else a.1.1 <=? b.1.1.

Definition sum_of {A} (f : A -> Z) (l : list A) : Z := foldr (fun x n => f x + n) 0 l.
Definition reserved_gpus (r : ResourceReservation) : Z := match rr_gpu r with Some g => gpu_count g | None => 0 end.

(** The committed allocations and the request exceed the ceilings. *)
Definition insufficient_capacity (r : ExecutionRequirements) (reserved : list ResourceReservation) (c : ResourceCeilings) : bool :=
  (memory_mib c <? sum_of rr_memory_mib reserved + rr_memory_mib (er_resources r))
  || (vcpu c <? sum_of rr_vcpu reserved + rr_vcpu (er_resources r))
  || (ceil_gpu_count c <? sum_of reserved_gpus reserved + reserved_gpus (er_resources r)).

Section matching.
Context (r : ExecutionRequirements) (activity project owner : string) (configurations : dict WorkerConfiguration)
        (busy : list string) (allocations : dict (list ResourceReservation)) (now : Z).

Definition admission (i : WorkerInstance) (c : WorkerConfiguration) : Admission :=
  verify_worker_configuration c i activity project (demand_of r) now.

Definition reserved_by (i : WorkerInstance) : list ResourceReservation := default [] (dget (instance_id i) allocations).

(** The loop over the candidates, with what it has seen so far. *)
Fixpoint scan (other stale full : bool) (l : list WorkerInstance) : WorkerMatch :=
  match l with
  | [] =>
      if full then no_match BUSY "all compatible same-user workers are busy"
      else if stale then no_match OFFLINE_OR_STALE "compatible same-user worker readiness is stale"
      else if other then no_match DENIED_ACCESS "compatible capacity belongs to another user"
      else no_match NO_COMPATIBLE_PROFILE "no trusted same-user worker profile satisfies the activity"
  | i :: l' =>
      match dget (wi_configuration i) configurations with
      | None => scan other stale full l'
      | Some c =>
          let a := admission i c in
          if negb (bool_decide (operating_user i = owner)) then scan (other || eligible a) stale full l'
          else if negb (eligible a) then scan other (stale || str_in "stale" (adm_detail a)) full l'
          else if mem (instance_id i) busy || insufficient_capacity r (reserved_by i) (resource_ceilings c)
          then scan other stale true l'
          else {| wm_instance := Some i; wm_reason := MATCHED; wm_detail := "" |}
      end
  end.

Definition match_worker (instances : list WorkerInstance) (counts : dict Z) (pinned : string) (held : bool) : WorkerMatch :=
  if held then no_match BUDGET_OR_DEADLINE_HOLD "activity is held"
  else if negb (nonempty activity) || negb (nonempty project) || negb (nonempty owner)
  then no_match INVALID_REQUIREMENTS "activity, project, and authenticated task owner are required"
  else
    let candidates := if nonempty pinned then List.filter (fun i => bool_decide (instance_id i = pinned)) instances else instances in
    if nonempty pinned && negb (nonempty_list candidates)
    then no_match NO_COMPATIBLE_PROFILE "pinned worker instance is not configured"
    else
      let key := match_key (preference (er_preferred_worker_configurations r)) counts in
      scan false false false (sort_by (fun i j => key3_leb (key i) (key j)) candidates).
End matching.

(** ** Host requirements *)

Record HostRequirements := {
  hr_activity : string; hr_host_class : string; hr_environment : string; hr_capabilities : list string;
  hr_memory_mib : Z; hr_vcpu : Z; hr_gpu_count : Z; hr_gpu_vendor : string; hr_gpu_device_memory_mib : Z;
  hr_gpu_features : list string; hr_disk_gib : Z; hr_heavy : bool;
  hr_requirement_digest : string; hr_profile_revision : string; hr_worker_id : string; hr_run_id : string;
  hr_operating_user : string; hr_installation_id : string; hr_lease_generation : Z;
  hr_probe_max_age_seconds : Z; hr_lease_seconds : Z;
}.
#[export] Instance host_requirements_eq_dec : EqDecision HostRequirements.
Proof. solve_decision. Defined.

Definition from_host_requirements (h : HostRequirements) : ExecutionRequirements :=
  {| er_capabilities := hr_capabilities h;
     er_resources := {| rr_memory_mib := hr_memory_mib h; rr_vcpu := 0; rr_gpu := None |};
     er_preferred_worker_configurations := []; er_provenance := ["legacy HostRequirements"] |}.

Definition to_host_requirements (r : ExecutionRequirements) (activity host_class environment : string) (disk_gib : Z) (heavy : bool)
    : HostRequirements :=
  let gpu := rr_gpu (er_resources r) in
  {| hr_activity := activity; hr_host_class := host_class; hr_environment := environment;
     hr_capabilities := er_capabilities r; hr_memory_mib := rr_memory_mib (er_resources r);
     hr_vcpu := rr_vcpu (er_resources r);
     hr_gpu_count := match gpu with Some g => gpu_count g | None => 0 end;
     hr_gpu_vendor := match gpu with Some g => gpu_vendor g | None => "" end;
     hr_gpu_device_memory_mib := match gpu with Some g => gpu_min_device_memory_mib g | None => 0 end;
     hr_gpu_features := match gpu with Some g => gpu_features g | None => [] end;
     hr_disk_gib := disk_gib; hr_heavy := heavy;
     hr_requirement_digest := ""; hr_profile_revision := ""; hr_worker_id := ""; hr_run_id := "";
     hr_operating_user := ""; hr_installation_id := ""; hr_lease_generation := 0;
     hr_probe_max_age_seconds := 60; hr_lease_seconds := 120 |}.

(** ** Specification of admission *)

Definition backed (c : WorkerConfiguration) (now : Z) (cap : string) : Prop :=
  exists g, g ∈ grants c /\ g_capability g = cap /\ grant_active g (wc_generation c) now = true.

Definition bound (i : WorkerInstance) (now : Z) (ref : string) : Prop :=
  exists b, b ∈ identity_bindings i /\ identity_reference b = ref /\ b_operating_user b = operating_user i /\
    b_installation_id b = installation_id i /\ credential_reference b <> "" /\ binding_active b now = true.

Definition within (d : Demand) (r : ResourceCeilings) : Prop :=
  d_memory d <= memory_mib r /\ d_vcpu d <= vcpu r /\ d_gpu d <= ceil_gpu_count r /\ d_gpu_memory d <= gpu_device_memory_mib r.

Record admissible (c : WorkerConfiguration) (i : WorkerInstance) (activity project : string) (d : Demand) (now : Z) : Prop := {
  ad_contract : contract_version c = WORKER_CONFIGURATION_CONTRACT_VERSION;
  ad_protocol : d_protocol d <= protocol_version i;
  ad_legacy : protocol_version i = 0 -> constrained d c = false;
  ad_live : revoked_at i = 0 \/ now < revoked_at i;
  ad_user : operating_user i <> "" /\ installation_id i <> "";
  ad_authenticated : authenticated_at i <= now;
  ad_profile : wi_configuration i = wc_name c /\ configuration_version i = wc_version c /\ profile_generation i = wc_generation c;
  ad_ready : readiness_checked_at i <= now < readiness_expires_at i;
  ad_bound : forall ref, ref ∈ identity_references c -> bound i now ref;
  ad_activity : activities c = [] \/ activity ∈ activities c;
  ad_project : wc_projects c = [] \/ project ∈ wc_projects c;
  ad_within : within d (resource_ceilings c);
  ad_vendor : d_vendor d = "" \/ d_vendor d = ceil_gpu_vendor (resource_ceilings c);
  ad_features : d_features d ⊆ ceil_gpu_features (resource_ceilings c);
  ad_granted : forall cap, cap ∈ d_capabilities d -> backed c now cap;
}.

(** ** Lemmas *)

Lemma nonempty_list_missing a b : nonempty_list (missing_from a b) = false <-> a ⊆ b.
Proof.
  unfold missing_from. split.
  - intros H x Hx. destruct (mem x b) eqn:Hm; [by apply mem_spec|].
    assert (Hin : x ∈ sorted_set (List.filter (fun x => negb (mem x b)) a)).
    { apply elem_of_sorted_set, list_elem_of_In, filter_In. split; [by apply list_elem_of_In|by rewrite Hm]. }
    destruct (sorted_set _); [by apply elem_of_nil in Hin|done].
  - intros H. destruct (sorted_set _) as [|x l] eqn:Hs; [done|].
    assert (Hin : x ∈ sorted_set (List.filter (fun x => negb (mem x b)) a)) by (rewrite Hs; by left).
    rewrite elem_of_sorted_set, list_elem_of_In, filter_In in Hin. destruct Hin as [Hin Hn]. guards.
    apply mem_false in Hn. destruct Hn. by apply H, list_elem_of_In.
Qed.

Lemma elem_of_granted c now cap : cap ∈ granted_capabilities c now <-> backed c now cap.
Proof.
  unfold granted_capabilities, backed. rewrite elem_of_sorted_set, list_elem_of_In, in_map_iff.
  split; intros (g & H1 & H2).
  - apply filter_In in H2 as [? ?]. exists g. by rewrite list_elem_of_In.
  - destruct H2 as [<- H2]. exists g. split; [done|]. apply filter_In. by rewrite list_elem_of_In in H1.
Qed.

Lemma elem_of_active_bindings i now ref : ref ∈ active_bindings i now <-> bound i now ref.
Proof.
  unfold active_bindings, bound. rewrite list_elem_of_In, in_map_iff. split.
  - intros (b & <- & [Hb Hc]%filter_In). guards. exists b. rewrite list_elem_of_In. split_and!; try done.
    intros He. by rewrite He in *.
  - intros (b & Hb & <- & Hu & Hi & Hr & Ha). exists b. split; [done|]. apply filter_In. rewrite <- list_elem_of_In.
    split; [done|]. rewrite Hu, Hi, Ha, !bool_decide_eq_true_2 by done. by destruct (credential_reference b).
Qed.

Lemma over_ceiling_false d r : over_ceiling d r = false <-> within d r.
Proof. unfold over_ceiling, within. rewrite !orb_false_iff. lia. Qed.

Lemma scope_ok (l : list string) x : nonempty_list l && negb (mem x l) = false <-> l = [] \/ x ∈ l.
Proof.
  rewrite andb_false_iff, negb_false_iff, mem_spec. destruct l; cbn; [naive_solver|].
  split; [intros [?|?]; [done|by right]|intros [?|?]; [done|by right]].
Qed.

Lemma vendor_ok v w : nonempty v && negb (bool_decide (v = w)) = false <-> v = "" \/ v = w.
Proof.
  rewrite andb_false_iff, negb_false_iff, bool_decide_eq_true. destruct v; cbn; [naive_solver|].
  split; [intros [?|?]; [done|by right]|intros [?|?]; [done|by right]].
Qed.

(** [verify_worker_configuration] decides [admissible]. *)
Lemma verify_eligible c i activity project d now :
  eligible (verify_worker_configuration c i activity project d now) = true <-> admissible c i activity project d now.
Proof.
  unfold verify_worker_configuration. cbv zeta. split.
  - repeat match goal with |- context [if ?b then _ else _] => destruct b eqn:?; [done|] end. intros _. guards.
    rewrite nonempty_list_missing in *. rewrite scope_ok in *. rewrite over_ceiling_false in *. rewrite vendor_ok in *.
    split; try done; try lia.
    + intros Hp. match goal with E : (_ =? 0) && _ = false |- _ => rewrite Hp in E end. done.
    + split; intros He; rewrite He in *; done.
    + split_and!; [done|done|lia].
    + intros ref Href. apply elem_of_active_bindings. set_solver.
    + intros cap Hcap. apply elem_of_granted. set_solver.
  - intros [H1 H2 H3 H4 [H5 H5'] H6 (H7 & H7' & H7'') H8 H9 H10 H11 H12 H13 H14 H15].
    rewrite H1, bool_decide_eq_true_2 by done. cbn [negb].
    replace (protocol_version i <? d_protocol d) with false by lia.
    replace ((protocol_version i =? 0) && constrained d c) with false
      by (symmetry; apply andb_false_iff; destruct (protocol_version i =? 0) eqn:?; [right; apply H3; lia|by left]).
    replace (negb (revoked_at i =? 0) && (revoked_at i <=? now)) with false
      by (symmetry; apply andb_false_iff; destruct H4 as [->|]; [by left|right; lia]).
    replace (nonempty (operating_user i)) with true by (by destruct (operating_user i)).
    replace (nonempty (installation_id i)) with true by (by destruct (installation_id i)). cbn [negb orb].
    replace (now <? authenticated_at i) with false by lia.
    rewrite H7, H7', H7'', !bool_decide_eq_true_2, Z.eqb_refl by done. cbn [negb orb].
    replace ((readiness_checked_at i <=? now) && (now <? readiness_expires_at i)) with true by lia. cbn [negb].
    rewrite (proj2 (nonempty_list_missing (identity_references c) (active_bindings i now)))
      by (intros x Hx; by apply elem_of_active_bindings, H9).
    rewrite (proj2 (scope_ok _ _) H10), (proj2 (scope_ok _ _) H11), (proj2 (over_ceiling_false _ _) H12).
    rewrite (proj2 (vendor_ok _ _) H13), (proj2 (nonempty_list_missing _ _) H14).
    rewrite (proj2 (nonempty_list_missing (d_capabilities d) (granted_capabilities c now)))
      by (intros x Hx; by apply elem_of_granted, H15). done.
Qed.

(** ** Lemmas: matching *)

Section scan_lemmas.
Context (r : ExecutionRequirements) (activity project owner : string) (configurations : dict WorkerConfiguration)
        (busy : list string) (allocations : dict (list ResourceReservation)) (now : Z).

(** A worker the caller may use now. *)
Definition selectable (i : WorkerInstance) : Prop :=
  operating_user i = owner /\ (instance_id i ∉ busy) /\
  exists c, dget (wi_configuration i) configurations = Some c /\ admissible c i activity project (demand_of r) now /\
    sum_of rr_memory_mib (reserved_by allocations i) + rr_memory_mib (er_resources r) <= memory_mib (resource_ceilings c) /\
    sum_of rr_vcpu (reserved_by allocations i) + rr_vcpu (er_resources r) <= vcpu (resource_ceilings c) /\
    sum_of reserved_gpus (reserved_by allocations i) + reserved_gpus (er_resources r) <= ceil_gpu_count (resource_ceilings c).

Local Abbreviation scan := (scan r activity project owner configurations busy allocations now).

Lemma insufficient_false reserved c : insufficient_capacity r reserved c = false <->
  sum_of rr_memory_mib reserved + rr_memory_mib (er_resources r) <= memory_mib c /\
  sum_of rr_vcpu reserved + rr_vcpu (er_resources r) <= vcpu c /\
  sum_of reserved_gpus reserved + reserved_gpus (er_resources r) <= ceil_gpu_count c.
Proof. unfold insufficient_capacity. rewrite !orb_false_iff. lia. Qed.

(** The loop returns the first selectable candidate, or reports that there is none. *)
Lemma scan_spec other stale full l :
  (exists l1 i l2, l = l1 ++ i :: l2 /\ (forall j, j ∈ l1 -> ~ selectable j) /\ selectable i /\
     scan other stale full l = {| wm_instance := Some i; wm_reason := MATCHED; wm_detail := "" |}) \/
  ((forall j, j ∈ l -> ~ selectable j) /\ wm_instance (scan other stale full l) = None /\
   wm_reason (scan other stale full l) <> MATCHED).
Proof.
  revert other stale full. induction l as [|i l IH]; intros other stale full.
  { right. split; [set_solver|]. cbn. by destruct full, stale, other. }
  assert (Hskip : forall o s f, scan other stale full (i :: l) = scan o s f l -> ~ selectable i ->
    (exists l1 i' l2, i :: l = l1 ++ i' :: l2 /\ (forall j, j ∈ l1 -> ~ selectable j) /\ selectable i' /\
       scan other stale full (i :: l) = {| wm_instance := Some i'; wm_reason := MATCHED; wm_detail := "" |}) \/
    ((forall j, j ∈ i :: l -> ~ selectable j) /\ wm_instance (scan other stale full (i :: l)) = None /\
     wm_reason (scan other stale full (i :: l)) <> MATCHED)).
  { intros o s f -> Hn. destruct (IH o s f) as [(l1 & i' & l2 & -> & Hl & Hi & ->)|(Hl & H1 & H2)].
    - left. exists (i :: l1), i', l2. split_and!; try done. intros j [->|Hj]%elem_of_cons; auto.
    - right. split; [|done]. intros j [->|Hj]%elem_of_cons; auto. }
  cbn [Workers.scan] in *. destruct (dget (wi_configuration i) configurations) as [c|] eqn:Hc.
  2:{ eapply Hskip; [done|]. intros (_ & _ & c & Hc' & _). congruence. }
  cbv zeta in *. unfold admission in *.
  destruct (bool_decide_reflect (operating_user i = owner)) as [Ho|Ho]; cbn [negb] in *.
  2:{ eapply Hskip; [done|]. by intros [? _]. }
  destruct (eligible (verify_worker_configuration c i activity project (demand_of r) now)) eqn:He; cbn [negb] in *.
  2:{ eapply Hskip; [done|]. intros (_ & _ & c' & Hc' & Ha%verify_eligible & _). congruence. }
  destruct (mem (instance_id i) busy || insufficient_capacity r (reserved_by allocations i) (resource_ceilings c)) eqn:Hb.
  - eapply Hskip; [done|]. intros (_ & Hnb & c' & Hc' & _ & Hcap). assert (c' = c) as -> by congruence.
    apply orb_true_iff in Hb as [Hb%mem_spec|Hb]; [done|]. apply insufficient_false in Hcap. congruence.
  - left. exists [], i, l. split_and!; try done; [set_solver|]. guards. split_and!; [done|by apply mem_false|].
    exists c. apply verify_eligible in He. by rewrite insufficient_false in *.
Qed.
End scan_lemmas.

Lemma key3_leb_total a b : key3_leb a b = true \/ key3_leb b a = true.
Proof.
  destruct a as [[a1 a2] a3], b as [[b1 b2] b3]. unfold key3_leb. cbn.
  destruct (Z.eqb_spec a1 b1), (Z.eqb_spec b1 a1); try lia. destruct (Z.eqb_spec a2 b2), (Z.eqb_spec b2 a2); try lia.
  apply str_leb_total.
Qed.

Lemma key3_leb_trans a b c : key3_leb a b = true -> key3_leb b c = true -> key3_leb a c = true.
Proof.
  destruct a as [[a1 a2] a3], b as [[b1 b2] b3], c as [[c1 c2] c3]. unfold key3_leb. cbn.
  destruct (Z.eqb_spec a1 b1), (Z.eqb_spec b1 c1), (Z.eqb_spec a1 c1); try lia.
  destruct (Z.eqb_spec a2 b2), (Z.eqb_spec b2 c2), (Z.eqb_spec a2 c2); try lia. apply str_leb_trans.
Qed.

Lemma StronglySorted_split {A} (R : A -> A -> Prop) l1 x l2 : StronglySorted R (l1 ++ x :: l2) -> forall y, y ∈ l2 -> R x y.
Proof.
  induction l1 as [|z l1 IH]; cbn; intros H y Hy; apply StronglySorted_inv in H as [H Hf]; [|auto].
  rewrite Forall_forall in Hf. by apply Hf.
Qed.

(** Ceilings that are quantities. *)
Definition nonnegative_ceilings (r : ResourceCeilings) : Prop :=
  0 <= memory_mib r /\ 0 <= vcpu r /\ 0 <= ceil_gpu_count r /\ 0 <= gpu_device_memory_mib r.

Lemma demand_within r big small : covers big small -> nonnegative_ceilings r ->
  within (demand_of big) r -> within (demand_of small) r.
Proof.
  intros (_ & ? & ? & Hg) (? & ? & ? & ?). unfold within, demand_of. cbn. unfold gpu_covers in Hg.
  destruct (rr_gpu (er_resources small)) as [g|]; [|lia].
  destruct (rr_gpu (er_resources big)) as [h|]; [|done]. lia.
Qed.

Lemma demand_constrained c big small : covers big small -> valid_requirements small ->
  constrained (demand_of big) c = false -> constrained (demand_of small) c = false.
Proof.
  intros (Hc & ? & ? & Hg) Hv. unfold constrained, demand_of. cbn. rewrite !orb_false_iff, !negb_false_iff, !Z.eqb_eq.
  intros ((((((((H1 & H2) & H3) & H4) & H5) & H6) & H7) & H8) & H9).
  pose proof (valid_memory _ Hv). pose proof (valid_vcpu _ Hv). pose proof (valid_rr_gpu _ Hv) as Hvg. unfold gpu_covers in Hg.
  assert (Hcaps : er_capabilities small = []).
  { destruct (er_capabilities big); [|done]. destruct (er_capabilities small) as [|x l]; [done|]. exfalso.
    specialize (Hc x (list_elem_of_here _ _)). by apply elem_of_nil in Hc. }
  rewrite Hcaps. destruct (rr_gpu (er_resources small)) as [g|]; [|split_and!; try done; lia].
  destruct (rr_gpu (er_resources big)) as [h|]; [|done]. specialize (Hvg g eq_refl). destruct Hvg. lia.
Qed.

Lemma admissible_covers c i activity project big small now : covers big small -> valid_requirements small ->
  nonnegative_ceilings (resource_ceilings c) ->
  admissible c i activity project (demand_of big) now -> admissible c i activity project (demand_of small) now.
Proof.
  intros Hcov Hv Hn [H1 H2 H3 H4 H5 H6 H7 H8 H9 H10 H11 H12 H13 H14 H15].
  split; try done.
  - intros Hp. eapply demand_constrained; eauto.
  - by eapply demand_within.
  - destruct Hcov as (_ & _ & _ & Hg). unfold gpu_covers in Hg. cbn in *.
    destruct (rr_gpu (er_resources small)) as [g|]; [|by left].
    destruct (rr_gpu (er_resources big)) as [h|]; [|done]. destruct Hg as (_ & _ & _ & Hven).
    destruct (decide (gpu_vendor g = "")) as [|Hne]; [by left|]. rewrite (Hven Hne) in H13. naive_solver.
  - destruct Hcov as (_ & _ & _ & Hg). unfold gpu_covers in Hg. cbn in *.
    destruct (rr_gpu (er_resources small)) as [g|]; [|by intros ? ?%elem_of_nil].
    destruct (rr_gpu (er_resources big)) as [h|]; [|done]. destruct Hg as (_ & _ & Hf & _).
    intros x Hx. by apply H14, Hf.
  - intros cap Hcap. apply H15. destruct Hcov as (Hc & _). by apply Hc.
Qed.

(** ** Properties *)

(** Admission is exactly the conjunction of its conditions: supported contract and protocol, a
    live authenticated instance of the configuration's current generation with fresh readiness, every
    referenced identity bound by this user and installation, the activity and project in scope, the
    demand within the ceilings, and every required capability backed by an active operator grant of
    the current generation. *)
Theorem admission_exact (c : WorkerConfiguration) (i : WorkerInstance) (activity project : string) (d : Demand) (now : Z) :
  eligible (verify_worker_configuration c i activity project d now) = true <-> admissible c i activity project d now.
Proof. apply verify_eligible. Qed.

Definition with_observations (l : list WorkerObservation) (i : WorkerInstance) : WorkerInstance :=
  {| instance_id := instance_id i; wi_configuration := wi_configuration i; configuration_version := configuration_version i;
     profile_generation := profile_generation i; operating_user := operating_user i; installation_id := installation_id i;
     authenticated_at := authenticated_at i; readiness_checked_at := readiness_checked_at i;
     readiness_expires_at := readiness_expires_at i; observations := l; identity_bindings := identity_bindings i;
     protocol_version := protocol_version i; revoked_at := revoked_at i |}.

(** What a worker reports about itself confers no authority: whatever observations it presents,
    the verdict, the authoritative capabilities and the reason stay the same. *)
Theorem observations_confer_no_authority (c : WorkerConfiguration) (i : WorkerInstance) (l : list WorkerObservation)
    (activity project : string) (d : Demand) (now : Z) :
  let a := verify_worker_configuration c i activity project d now in
  let b := verify_worker_configuration c (with_observations l i) activity project d now in
  eligible b = eligible a /\ authoritative_capabilities b = authoritative_capabilities a /\ adm_detail b = adm_detail a.
Proof.
  cbv zeta. unfold verify_worker_configuration. cbv zeta.
  change (active_bindings (with_observations l i) now) with (active_bindings i now).
  cbn [protocol_version revoked_at operating_user installation_id authenticated_at wi_configuration configuration_version
       profile_generation readiness_checked_at readiness_expires_at observations with_observations].
  repeat match goal with |- context [if ?b then denied _ else _] => destruct b; [done|] end.
  by destruct (nonempty_list (missing_from (d_capabilities d) (granted_capabilities c now))).
Qed.

(** The match is sound, complete and best: unless the activity is held or the request is
    malformed, the chosen instance is a selectable candidate (same user, admissible, idle, with room
    left under its ceilings, and the pinned one if one is pinned) that no selectable candidate
    precedes in preference order, then selection count, then id; and no instance is chosen only when
    no candidate is selectable. *)
Theorem match_worker_best (r : ExecutionRequirements) (activity project owner : string) (configurations : dict WorkerConfiguration)
    (busy : list string) (allocations : dict (list ResourceReservation)) (now : Z)
    (instances : list WorkerInstance) (counts : dict Z) (pinned : string)
    (Ha : activity <> "") (Hp : project <> "") (Ho : owner <> "") :
  let m := match_worker r activity project owner configurations busy allocations now instances counts pinned false in
  let candidate i := i ∈ instances /\ (pinned <> "" -> instance_id i = pinned) /\
                     selectable r activity project owner configurations busy allocations now i in
  let key := match_key (preference (er_preferred_worker_configurations r)) counts in
  match wm_instance m with
  | Some i => candidate i /\ (forall j, candidate j -> key3_leb (key i) (key j) = true) /\ wm_reason m = MATCHED
  | None => (forall j, ~ candidate j) /\ wm_reason m <> MATCHED
  end.
Proof.
  cbv zeta. unfold match_worker.
  replace (nonempty activity) with true by (by destruct activity). replace (nonempty project) with true by (by destruct project).
  replace (nonempty owner) with true by (by destruct owner). cbn [negb orb].
  set (cands := if nonempty pinned then _ else _). set (leb := fun i j => key3_leb _ _).
  assert (Hin : forall j, j ∈ cands <-> j ∈ instances /\ (pinned <> "" -> instance_id j = pinned)).
  { intros j. subst cands. destruct pinned as [|ch s]; cbn [nonempty]; [naive_solver|].
    rewrite list_elem_of_In, filter_In, bool_decide_eq_true, <- list_elem_of_In. naive_solver. }
  assert (Hsel : forall j, j ∈ sort_by leb cands /\ selectable r activity project owner configurations busy allocations now j <->
    j ∈ instances /\ (pinned <> "" -> instance_id j = pinned) /\ selectable r activity project owner configurations busy allocations now j)
    by (intros j; rewrite elem_of_sort_by, Hin; tauto).
  destruct (nonempty pinned && negb (nonempty_list cands)) eqn:Hpin.
  { guards. cbn. split; [|done]. intros j Hj. apply Hsel in Hj as [Hj _]. rewrite elem_of_sort_by in Hj.
    destruct cands; [by apply elem_of_nil in Hj|done]. }
  destruct (scan_spec r activity project owner configurations busy allocations now false false false (sort_by leb cands))
    as [(l1 & i & l2 & Hs & Hl & Hi & ->)|(Hl & -> & Hr)].
  - cbn. split; [|split; [|done]].
    + apply Hsel. split; [rewrite Hs; set_solver|done].
    + intros j Hj. apply Hsel in Hj as [Hj Hjs]. rewrite Hs in Hj.
      assert (Hso : StronglySorted (fun i j => leb i j = true) (sort_by leb cands)).
      { apply sort_by_sorted; subst leb; cbn; [intros; apply key3_leb_total|intros *; apply key3_leb_trans]. }
      rewrite Hs in Hso. apply elem_of_app in Hj as [Hj|[->|Hj]%elem_of_cons]; [by destruct (Hl j Hj)| |].
      * destruct (key3_leb_total (match_key (preference (er_preferred_worker_configurations r)) counts i)
          (match_key (preference (er_preferred_worker_configurations r)) counts i)); done.
      * by apply (StronglySorted_split _ _ _ _ Hso).
  - split; [|done]. intros j Hj. apply Hsel in Hj as [Hj Hjs]. by destruct (Hl j Hj).
Qed.

(** Merging requirements is safe for admission: a worker admitted for the merge of several valid
    requirements is admitted for each of them. *)
Theorem merged_requirements_admit (rs : list ExecutionRequirements) (m r : ExecutionRequirements) (c : WorkerConfiguration)
    (i : WorkerInstance) (activity project : string) (now : Z)
    (Hvalid : Forall valid_requirements rs) (Hceil : nonnegative_ceilings (resource_ceilings c))
    (Hmerge : merge_execution_requirements rs = Ok m) (Hr : r ∈ rs)
    (Hok : eligible (verify_worker_configuration c i activity project (demand_of m) now) = true) :
  eligible (verify_worker_configuration c i activity project (demand_of r) now) = true.
Proof.
  rewrite verify_eligible in *. apply (admissible_covers c i activity project m); try done.
  - apply (merge_covers rs); [|done|done]. eapply Forall_impl; [done|]. intros x Hx. split; [by apply valid_memory|by apply valid_vcpu].
  - rewrite Forall_forall in Hvalid. by apply Hvalid.
Qed.

(** ** A sample fleet *)

Module Fleet.
Definition ceilings : ResourceCeilings :=
  {| memory_mib := 4096; vcpu := 4; ceil_gpu_count := 1; gpu_device_memory_mib := 8192; ceil_gpu_vendor := "nv"; ceil_gpu_features := ["fp16"] |}.
Definition config : WorkerConfiguration :=
  {| wc_name := "std"; wc_version := "1"; wc_generation := 3; activities := ["build"]; wc_projects := [];
     resource_ceilings := ceilings; identity_references := [];
     grants := [{| g_capability := "net.read"; approved_by := "ann"; approved_at := 5; g_generation := 3; g_revoked_at := 0 |}];
     contract_version := WORKER_CONFIGURATION_CONTRACT_VERSION |}.
Definition instance (i : string) : WorkerInstance :=
  {| instance_id := i; wi_configuration := "std"; configuration_version := "1"; profile_generation := 3; operating_user := "bob";
     installation_id := "desk"; authenticated_at := 1; readiness_checked_at := 8; readiness_expires_at := 20; observations := [];
     identity_bindings := []; protocol_version := 1; revoked_at := 0 |}.
Definition needs (caps : list string) (mem_ : Z) : ExecutionRequirements :=
  {| er_capabilities := caps; er_resources := {| rr_memory_mib := mem_; rr_vcpu := 1; rr_gpu := None |};
     er_preferred_worker_configurations := ["std"]; er_provenance := ["task"] |}.

(** [w1] is full and [w2] has run less than [w3]. *)
Definition chosen : WorkerMatch :=
  match_worker (needs ["net.read"] 1024) "build" "w" "bob" [("std", config)] []
    [("w1", [{| rr_memory_mib := 4000; rr_vcpu := 1; rr_gpu := None |}])] 10
    [instance "w3"; instance "w1"; instance "w2"] [("w3", 2)] "" false.
End Fleet.

Lemma match_worker_best_witness :
  instance_id <$> wm_instance Fleet.chosen = Some "w2" /\
  match wm_instance Fleet.chosen with Some i => operating_user i = "bob" | None => False end.
Proof.
  split; [vm_compute; reflexivity|].
  pose proof (match_worker_best (Fleet.needs ["net.read"] 1024) "build" "w" "bob" [("std", Fleet.config)] []
    [("w1", [{| rr_memory_mib := 4000; rr_vcpu := 1; rr_gpu := None |}])] 10
    [Fleet.instance "w3"; Fleet.instance "w1"; Fleet.instance "w2"] [("w3", 2)] "" ltac:(done) ltac:(done) ltac:(done)) as H.
  cbv zeta in H. fold Fleet.chosen in H.
  destruct (wm_instance Fleet.chosen) as [i|] eqn:Hi; [|vm_compute in Hi; discriminate].
  destruct H as ((_ & _ & Hu & _) & _). exact Hu.
Defined.

Lemma needs_valid caps m : Forall (fun c => capability_name c = true) caps -> NoDup caps -> 0 <= m -> valid_requirements (Fleet.needs caps m).
Proof. intros. split; cbn; try done; [repeat constructor|apply NoDup_singleton]. Qed.

Lemma pair_needs_valid : Forall valid_requirements [Fleet.needs ["net.read"] 1024; Fleet.needs [] 512].
Proof.
  apply Forall_cons. split; [|apply Forall_cons; split; [|by apply Forall_nil]].
  - apply needs_valid; [|apply NoDup_singleton|lia]. apply Forall_cons. split; [reflexivity|by apply Forall_nil].
  - apply needs_valid; [by apply Forall_nil|apply NoDup_nil_2|lia].
Qed.

Lemma merged_requirements_admit_witness :
  eligible (verify_worker_configuration Fleet.config (Fleet.instance "w1") "build" "w" (demand_of (Fleet.needs [] 512)) 10) = true.
Proof.
  destruct (merge_execution_requirements [Fleet.needs ["net.read"] 1024; Fleet.needs [] 512]) as [m|] eqn:Hm;
    [|vm_compute in Hm; discriminate].
  apply (merged_requirements_admit [Fleet.needs ["net.read"] 1024; Fleet.needs [] 512] m (Fleet.needs [] 512)).
  - exact pair_needs_valid.
  - vm_compute. split_and!; discriminate.
  - exact Hm.
  - right. left.
  - vm_compute in Hm. injection Hm as <-. vm_compute. reflexivity.
Defined.

(** A refusal is classified by searching its text: a required capability whose name contains "stale"
    and lacks a grant is reported as a stale worker, although its readiness is fresh. *)
Lemma stale_name_misreported :
  capability_name "data.stale-reads" = true /\
  wm_reason (match_worker (Fleet.needs ["data.stale-reads"] 0) "build" "w" "bob" [("std", Fleet.config)] [] [] 10
    [Fleet.instance "w1"] [] "" false) = OFFLINE_OR_STALE /\
  wm_reason (match_worker (Fleet.needs ["data.other-reads"] 0) "build" "w" "bob" [("std", Fleet.config)] [] [] 10
    [Fleet.instance "w1"] [] "" false) = NO_COMPATIBLE_PROFILE.
Proof. split_and!; vm_compute; reflexivity. Qed.
