(* ===== verification/GitCoordination.v ===== *)
(** * Coordination over a Git ref ([garden/git_coordination.py])

    The service-free coordinator: one JSON state per commit of a linear ref, advanced by
    compare-and-swap pushes.  This file models the state and every mutation that [GitStateStore]
    commits, and the retry loop [transact] against a remote that other installations advance and a
    transport that may lose acknowledgements.

    Tables are dictionaries in insertion order and their rows are JSON objects ([dict pyval]), because
    the code reads rows with [.get] and defaults.  [validate_state] has checked the shape of the state
    before a mutation sees it, which the types say here.  [==] between JSON values identifies
    booleans with 0 and 1 and ignores the order of object keys (PyValue's [py_eq]). *)

From S2P Require Import Prelude PyValue.

#[local] Open Scope list_scope.

Inductive gerror :=
| GitCoordinationError (m : string)
| GitContention (m : string)
| Raised (e : exn).
#[export] Instance gerror_eq_dec : EqDecision gerror.
Proof. solve_decision. Defined.

(** ** JSON rows *)

Definition lift {A} (r : result exn A) : result gerror A := match r with Ok a => Ok a | Err e => Err (Raised e) end.
(** [int(r.get(k, dflt))] *)
Definition row_int (k : string) (dflt : Z) (r : row) : result gerror Z := lift (py_int (pget_or k (PInt dflt) r)).
(** ** The shared state *)

Record OpRecord := { fingerprint : string; op_inputs : pyval; op_result : pyval }.

Record GState := {
  sequence : Z;
  members : dict row;
  installations : dict pyval;
  revoked_installations : dict pyval;
  entities : dict row;
  claims : dict row;
  operations : dict OpRecord;
  permits : dict row;
  effects : dict row;
  handoffs : dict row;
  authority_changes : dict row;
  reservations : dict row;
  pools : dict (Z * Z);
  recovery : list pyval;
  projections : list pyval;
}.

Definition empty_state : GState :=
  {| sequence := 0; members := []; installations := []; revoked_installations := []; entities := []; claims := [];
     operations := []; permits := []; effects := []; handoffs := []; authority_changes := []; reservations := [];
     pools := []; recovery := []; projections := [] |}.

(** The tables a mutation changes together; the rest of the state is kept. *)
Definition set_tables (en cl pe ef ha ac re : dict row) (s : GState) : GState :=
  {| sequence := sequence s; members := members s; installations := installations s;
     revoked_installations := revoked_installations s; entities := en; claims := cl; operations := operations s;
     permits := pe; effects := ef; handoffs := ha; authority_changes := ac; reservations := re;
     pools := pools s; recovery := recovery s; projections := projections s |}.
Definition set_entities x s := set_tables x (claims s) (permits s) (effects s) (handoffs s) (authority_changes s) (reservations s) s.
Definition set_claims x s := set_tables (entities s) x (permits s) (effects s) (handoffs s) (authority_changes s) (reservations s) s.
Definition set_permits x s := set_tables (entities s) (claims s) x (effects s) (handoffs s) (authority_changes s) (reservations s) s.
Definition set_effects x s := set_tables (entities s) (claims s) (permits s) x (handoffs s) (authority_changes s) (reservations s) s.
Definition set_handoffs x s := set_tables (entities s) (claims s) (permits s) (effects s) x (authority_changes s) (reservations s) s.
Definition set_changes x s := set_tables (entities s) (claims s) (permits s) (effects s) (handoffs s) x (reservations s) s.
Definition set_reservations x s := set_tables (entities s) (claims s) (permits s) (effects s) (handoffs s) (authority_changes s) x s.
Definition set_people (m : dict row) (i r : dict pyval) (s : GState) : GState :=
  {| sequence := sequence s; members := m; installations := i; revoked_installations := r; entities := entities s;
     claims := claims s; operations := operations s; permits := permits s; effects := effects s; handoffs := handoffs s;
     authority_changes := authority_changes s; reservations := reservations s; pools := pools s;
     recovery := recovery s; projections := projections s |}.
Definition set_logs (rc pj : list pyval) (s : GState) : GState :=
  {| sequence := sequence s; members := members s; installations := installations s;
     revoked_installations := revoked_installations s; entities := entities s; claims := claims s;
     operations := operations s; permits := permits s; effects := effects s; handoffs := handoffs s;
     authority_changes := authority_changes s; reservations := reservations s; pools := pools s;
     recovery := rc; projections := pj |}.
Definition remember (r : row) (s : GState) : GState := set_logs (recovery s ++ [PDict r]) (projections s) s.

Definition unresolved (r : row) : bool := in_strs (pget_or "outcome" (PStr "pending") r) ["pending"; "unknown"].

(** ** [initialize_authority] *)

Definition bootstrap (members_ entities_ : dict row) (installations_ revoked_ : dict pyval) (s : GState)
    : result gerror (pyval * GState) :=
  raise (GitCoordinationError "coordination authority already contains different state")
    when (negb (sequence s =? 0) || match members s, installations s, entities s, claims s, permits s, effects s with
                                    | [], [], [], [], [], [] => false | _, _, _, _, _, _ => true end) ;;
  Ok (PDict [("authority", PList (map PStr (sorted_str (dkeys entities_))))],
      set_entities (foldl (fun d kv => dset kv.1 kv.2 d) (entities s) entities_)
        (set_people (foldl (fun d kv => dset kv.1 kv.2 d) (members s) members_)
           (merge_row (installations s) installations_) (merge_row (revoked_installations s) revoked_) s)).

(** ** [apply]: validated entity, claim, permit, effect and reservation changes *)

Record Changes := {
  ch_entities : dict row;
  ch_claims : dict (option row); ch_permits : dict (option row);
  ch_effects : dict (option row); ch_reservations : dict (option row);
}.

Definition HANDOFF_ENTITY_FIELDS : list string := ["owner"; "authority_generation"; "kind"; "scope"; "draining"; "pending_owner"].
Definition CLAIM_IDENTITY_FIELDS : list string :=
  ["operation_id"; "kind"; "scope"; "owner_id"; "authority_generation"; "actor"; "installation"].
Definition EFFECT_OUTCOMES : list string := ["pending"; "unknown"; "succeeded"; "failed"].

(** The member an installation is bound to. *)
Definition binding_owner (s : GState) (installation : string) : pyval :=
  match dget installation (installations s) with
  | Some (PDict d) => if truthy (pget "revoked" d) then PDict d else pget "member_id" d
  | Some v => v
  | None => PNone
  end.

Definition draining_authority (s : GState) (actor installation : string) : bool :=
  existsb (fun c => is_str (pget "status" c) "draining"
                    && (is_str (pget "member_id" c) actor || is_str (pget "installation_id" c) installation))
    (dvals (authority_changes s)).

Definition check_actor (s : GState) (actor installation : string) : result gerror unit :=
  raise (Raised (PermissionError "member or installation authority is draining")) when (draining_authority s actor installation) ;;
  raise (Raised (PermissionError "installation is not bound to an active member"))
    when (negb (is_str (binding_owner s installation) actor) || negb (dmem actor (members s))) ;;
  raise (Raised (PermissionError "member is disabled"))
    when (negb (truthy (pget_or "active" (PBool false) (default [] (dget actor (members s)))))) ;;
  Ok tt.

Fixpoint check_versions (s : GState) (l : list (string * Z)) : result gerror unit :=
  match l with
  | [] => Ok tt
  | (entity, v) :: l' =>
      n ← row_int "version" 0 (default [] (dget entity (entities s)));
      raise (GitContention ("stale entity version for " ++ entity)) when (negb (n =? v)) ;;
      check_versions s l'
  end.

(** Releasing a permit needs a terminal effect; its claim cannot change. *)
Definition check_permit_change (s : GState) (effect_changes : dict (option row)) (kv : string * option row) : result gerror unit :=
  match real (dget kv.1 (permits s)) with
  | None => Ok tt
  | Some current =>
      match kv.2 with
      | Some value =>
          raise (GitCoordinationError "permit claim is immutable after admission")
            when (negb (py_eq (pget_or "claim" (pget "claim" current) value) (pget "claim" current))) ;; Ok tt
      | None =>
          let effect := match dget kv.1 effect_changes with Some o => o | None => dget kv.1 (effects s) end in
          raise (GitCoordinationError ("unresolved permit cannot be released without terminal evidence: " ++ kv.1))
            when (match real effect with Some e => unresolved e | None => true end) ;; Ok tt
      end
  end.

Definition check_effect_kept (s : GState) (kv : string * option row) : result gerror unit :=
  raise (GitCoordinationError ("effect recovery evidence cannot be deleted: " ++ kv.1))
    when (match kv.2 with None => dmem kv.1 (effects s) | Some _ => false end) ;; Ok tt.

(** The authority fields a patch would change. *)
Definition changed_authority (patch current : row) : list string :=
  sorted_str (List.filter (fun f => match dget f patch with Some v => negb (py_eq v (pget f current)) | None => false end)
    HANDOFF_ENTITY_FIELDS).

Definition bump_version (r : row) : result gerror row :=
  match dget "version" r with
  | Some (PInt n) => Ok (dset "version" (PInt (n + 1)) r)
  | Some (PBool b) => Ok (dset "version" (PInt ((if b then 1 else 0) + 1)) r)
  | Some _ => Err (Raised TypeError)
  | None => Err (Raised (KeyError "version"))
  end.

Definition patch_entity (s : GState) (kv : string * row) : result gerror GState :=
  match dget kv.1 (entities s) with
  | None => r ← bump_version (merge_row [("version", PInt 0)] kv.2); Ok (set_entities (dset kv.1 r (entities s)) s)
  | Some current =>
      raise (GitCoordinationError ("authority changes require an acknowledged handoff: " ++ join ", " (changed_authority kv.2 current)))
        when (match changed_authority kv.2 current with [] => false | _ => true end) ;;
      r ← bump_version (merge_row current kv.2); Ok (set_entities (dset kv.1 r (entities s)) s)
  end.

(** Who holds a row. *)
Definition holder_is (r : row) (actor installation : string) : bool :=
  is_str (pget "actor" r) actor && is_str (pget "installation" r) installation.

Definition claim_mismatch (r current : row) : option string :=
  List.find (fun f => negb (py_eq (pget f r) (pget f current))) CLAIM_IDENTITY_FIELDS.

Definition check_claim (s : GState) (actor installation key : string) (r : row) : result gerror unit :=
  raise (Raised (PermissionError "claim identity must match the authenticated installation"))
    when (negb (holder_is r actor installation)) ;;
  raise (GitCoordinationError "claim operation_id must be non-empty") when (negb (truthy (pget "operation_id" r))) ;;
  _ ← (match real (dget key (claims s)) with
       | Some current => match claim_mismatch r current with
                         | Some f => Err (GitContention ("claim " ++ f ++ " is immutable after admission"))
                         | None => Ok tt
                         end
       | None => Ok tt
       end);
  match real (dget key (entities s)) with
  | None => Err (GitCoordinationError ("claim has no authoritative entity: " ++ key))
  | Some entity =>
      raise (GitCoordinationError "claim scope does not match authority")
        when (negb (py_eq (pget "kind" r) (pget "kind" entity)) || negb (py_eq (pget "scope" r) (pget "scope" entity))) ;;
      raise (Raised (PermissionError "claim owner does not match authority"))
        when (negb (py_eq (pget "owner_id" r) (pget "owner" entity))) ;;
      raise (Raised (PermissionError "only the authoritative owner may claim")) when (negb (is_str (pget "owner_id" r) actor)) ;;
      g ← row_int "authority_generation" (-1) r;
      g' ← row_int "authority_generation" (-1) entity;
      raise (GitContention "claim generation does not match authority") when (negb (g =? g')) ;;
      raise (GitCoordinationError "authority is draining; new claims are blocked") when (truthy (pget "draining" entity)) ;;
      Ok tt
  end.

(** The entity of the claim a permit or effect names: the last claim with that operation id. *)
Definition claim_entity (s : GState) (claim : pyval) : option string :=
  foldl (fun acc kc => if py_eq (pget "operation_id" kc.2) claim then Some kc.1 else acc) None (claims s).

Definition check_reference (s : GState) (what : string) (current : option row) (r : row) : result gerror unit :=
  match claim_entity s (pget "claim" r) with
  | None => Err (GitCoordinationError (what ++ " does not reference an active claim"))
  | Some entity_key =>
      raise (GitCoordinationError "authority is draining; new permits and effects are blocked")
        when (truthy (pget "draining" (default [] (dget entity_key (entities s)))) && match current with None => true | Some _ => false end) ;;
      Ok tt
  end.

Definition check_permit (current : option row) (r : row) : result gerror unit :=
  raise (GitCoordinationError "new execution permits must start pending")
    when (match current with None => negb (is_str (pget_or "status" (PStr "pending") r) "pending") | Some _ => false end) ;;
  match real current with
  | Some c =>
      let st := pget_or "status" (PStr "pending") c in
      raise (GitCoordinationError "permit status requires validated terminal or fencing evidence")
        when (negb (py_eq (pget_or "status" st r) st)) ;; Ok tt
  | None => Ok tt
  end.

Definition effect_mismatch (r current : row) : option string :=
  List.find (fun f => negb (py_eq (pget_or f (pget f current) r) (pget f current))) ["claim"; "provider"; "scope"; "effect_key"].

(** The row an effect change writes. *)
Definition check_effect (current : option row) (r : row) : result gerror row :=
  r' ← (match real current with
        | Some c =>
            raise (GitCoordinationError "terminal effect outcome is immutable")
              when (negb (unresolved c) && negb (py_eq (pget_or "outcome" (PStr "pending") r) (pget_or "outcome" (PStr "pending") c))) ;;
            match effect_mismatch r c with
            | Some f => Err (GitCoordinationError ("effect " ++ f ++ " is immutable after admission"))
            | None => Ok (merge_row c r)
            end
        | None => Ok r
        end);
  raise (GitCoordinationError "unrecognized effect outcome")
    when (negb (in_strs (pget_or "outcome" (PStr "pending") r') EFFECT_OUTCOMES)) ;;
  Ok r'.

Inductive table := TClaims | TPermits | TEffects | TReservations.
Definition table_of (t : table) (s : GState) : dict row :=
  match t with TClaims => claims s | TPermits => permits s | TEffects => effects s | TReservations => reservations s end.
Definition set_table (t : table) (d : dict row) (s : GState) : GState :=
  match t with TClaims => set_claims d s | TPermits => set_permits d s | TEffects => set_effects d s | TReservations => set_reservations d s end.
Definition singular (t : table) : string :=
  match t with TClaims => "claim" | TPermits => "permit" | TEffects => "effect" | TReservations => "reservation" end.

(** One row of one table. *)
Definition change_row (actor installation : string) (t : table) (s : GState) (kv : string * option row) : result gerror GState :=
  let current := dget kv.1 (table_of t s) in
  match kv.2 with
  | None =>
      raise (Raised (PermissionError ("cannot release another member's " ++ singular t)))
        when (match real current with Some c => negb (holder_is c actor installation) | None => false end) ;;
      raise (GitCoordinationError (singular t ++ " release requires a validated lifecycle transition"))
        when (match real current, t with Some _, TClaims => true | Some _, TPermits => true | _, _ => false end) ;;
      Ok (set_table t (ddel kv.1 (table_of t s)) s)
  | Some value =>
      let r := setdefault "installation" (PStr installation) (setdefault "actor" (PStr actor) value) in
      r' ← (match t with
            | TClaims => _ ← check_claim s actor installation kv.1 r; Ok r
            | TPermits => _ ← check_reference s "permit" current r; _ ← check_permit current r; Ok r
            | TEffects => _ ← check_reference s "effect" current r; check_effect current r
            | TReservations => Ok r
            end);
      raise (GitContention ("conflicting " ++ singular t ++ " " ++ kv.1))
        when (match real current with Some c => negb (holder_is c actor installation) | None => false end) ;;
      Ok (set_table t (dset kv.1 r' (table_of t s)) s)
  end.

Definition change_table (actor installation : string) (t : table) (l : dict (option row)) (s : GState) : result gerror GState :=
  foldR (change_row actor installation t) l s.

(** The reservations of a pool. *)
Fixpoint sum_ints (k : string) (l : list row) : result gerror Z :=
  match l with [] => Ok 0 | r :: l' => n ← row_int k 0 r; m ← sum_ints k l'; Ok (n + m) end.
Definition pool_rows (s : GState) (pool : string) : list row :=
  List.filter (fun r => is_str (pget "pool" r) pool) (dvals (reservations s)).

Fixpoint check_pools (s : GState) (l : list (string * (Z * Z))) : result gerror unit :=
  match l with
  | [] => Ok tt
  | (pool, (units, spend)) :: l' =>
      u ← sum_ints "units" (pool_rows s pool);
      raise (GitContention ("shared concurrency limit reached for " ++ pool)) when (units <? u) ;;
      m ← sum_ints "spend_micros" (pool_rows s pool);
      raise (GitContention ("shared budget limit reached for " ++ pool)) when (spend <? m) ;;
      check_pools s l'
  end.

(** What blocks a patch of an entity's owner. *)
Definition owner_blocked (s : GState) (entity : string) : list string :=
  let ops := map (pget "operation_id") (List.filter (fun c =>
    bool_decide ((py_str (pget "kind" c) ++ ":" ++ py_str (pget "scope" c))%string = entity)) (dvals (claims s))) in
  dkeys (List.filter (fun ke => is_str (pget "scope" ke.2) entity && unresolved ke.2) (effects s))
  ++ dkeys (List.filter (fun kp => existsb (py_eq (pget "claim" kp.2)) ops
                                   && unresolved (default [] (dget kp.1 (effects s)))) (permits s)).

Definition check_owner_patch (s : GState) (kv : string * row) : result gerror unit :=
  raise (GitCoordinationError ("ownership handoff blocked by unresolved permits or effects: "
                               ++ join ", " (sorted_set (owner_blocked s kv.1))))
    when (dmem "owner" kv.2 && match owner_blocked s kv.1 with [] => false | _ => true end) ;; Ok tt.

Definition each {A} (f : A -> result gerror unit) (l : list A) : result gerror unit := foldR (fun _ x => f x) l tt.

Definition apply_changes (actor installation : string) (expected_versions : list (string * Z)) (ch : Changes) (s : GState)
    : result gerror (pyval * GState) :=
  _ ← check_actor s actor installation;
  _ ← check_versions s expected_versions;
  _ ← each (check_permit_change s (ch_effects ch)) (ch_permits ch);
  _ ← each (check_effect_kept s) (ch_effects ch);
  s1 ← foldR patch_entity (ch_entities ch) s;
  s2 ← change_table actor installation TClaims (ch_claims ch) s1;
  s3 ← change_table actor installation TPermits (ch_permits ch) s2;
  s4 ← change_table actor installation TEffects (ch_effects ch) s3;
  s5 ← change_table actor installation TReservations (ch_reservations ch) s4;
  _ ← check_pools s5 (pools s5);
  _ ← each (check_owner_patch s5) (ch_entities ch);
  Ok (PDict [("sequence", PInt (sequence s5 + 1));
             ("unresolved_effects", PList (map PStr (sorted_str (dkeys (List.filter (fun ke => unresolved ke.2) (effects s5))))))], s5).

(** ** Hand-offs *)

Definition claim_operations (s : GState) (entity_key : string) : list pyval :=
  match dget entity_key (claims s) with Some c => [pget "operation_id" c] | None => [] end.

(** [_handoff_blockers] *)
Definition handoff_blockers (s : GState) (entity_key : string) : list string :=
  sorted_set
    (dkeys (List.filter (fun kp => existsb (py_eq (pget "claim" kp.2)) (claim_operations s entity_key)
        && negb (in_strs (pget_or "status" (PStr "pending") kp.2) ["terminal"; "fenced"])
        && unresolved (default [] (dget kp.1 (effects s)))) (permits s))
     ++ dkeys (List.filter (fun ke => is_str (pget "scope" ke.2) entity_key && unresolved ke.2) (effects s))).

(** [_require_active_installation] *)
Definition require_active_installation (s : GState) (actor installation : string) : result gerror row :=
  let member := default [] (dget actor (members s)) in
  raise (Raised (PermissionError "handoff installation is not bound to an active member"))
    when (negb (is_str (binding_owner s installation) actor) || negb (truthy (pget "active" member))) ;;
  Ok member.

Definition ADMINISTRATORS : list string := ["owner"; "admin"; "administrator"].
Definition administrator (member : row) : bool := in_strs (pget "role" member) ADMINISTRATORS.

Definition require_administrator (s : GState) (actor installation message : string) : result gerror unit :=
  member ← require_active_installation s actor installation;
  raise (Raised (PermissionError message)) when (negb (administrator member)) ;; Ok tt.

(** [s.split("/", 1)[0]] *)
Fixpoint before_slash (s : string) : string :=
  match s with
  | EmptyString => EmptyString
  | String c s' => if bool_decide (c = "/"%char) then EmptyString else String c (before_slash s')
  end.

(** [value in (projects or ())] for a JSON list of names *)
Definition in_projects (project : string) (v : pyval) : bool :=
  match v with PList l => existsb (fun x => is_str x project) l | PStr s => str_in project s | _ => false end.

(** [_require_authorized_owner] *)
Definition require_authorized_owner (s : GState) (entity : row) (owner : string) : result gerror unit :=
  if negb (nonempty owner) then Ok tt
  else
    let member := default [] (dget owner (members s)) in
    raise (Raised (PermissionError "handoff target is not an active execution member"))
      when (negb (truthy (pget "active" member))
            || negb (in_strs (pget_or "role" (PStr "member") member) ["owner"; "admin"; "administrator"; "member"])) ;;
    let project := py_str (pget_or "project" (PStr "") entity) in
    let project := if negb (nonempty project) && is_str (pget "kind" entity) "phase"
                   then before_slash (py_str (pget_or "scope" (PStr "") entity)) else project in
    let visibility := pget_or "project_visibility" (pget_or "visibility" (PStr "assigned") member) member in
    raise (Raised (PermissionError "handoff target is not authorized for the entity project"))
      when (negb (nonempty project) || (negb (is_str visibility "all") && negb (in_projects project (pget "projects" member)))) ;;
    Ok tt.

Definition handoff_row (from_owner : string) (from_generation : Z) (from_installation pending_owner : string) (ready : bool) (rest : row) : row :=
  [("from_owner", PStr from_owner); ("from_generation", PInt from_generation); ("from_installation", PStr from_installation);
   ("pending_owner", PStr pending_owner); ("status", PStr (if ready then "ready" else "blocked"));
   ("stop_acknowledged", PBool ready); ("external_fence", PNone)] ++ rest.

Definition begin_handoff (actor installation entity_key : string) (expected_version : Z) (pending_owner : string)
    (projection assignment : pyval) (s : GState) : result gerror (pyval * GState) :=
  match real (dget entity_key (entities s)) with
  | None => Err (GitContention ("stale entity version for " ++ entity_key))
  | Some entity =>
      n ← row_int "version" 0 entity;
      raise (GitContention ("stale entity version for " ++ entity_key)) when (negb (n =? expected_version)) ;;
      member ← require_active_installation s actor installation;
      let effective_owner := py_str (pget_or "owner" (PStr "") entity) in
      raise (Raised (PermissionError "only the effective owner or an administrator may begin handoff"))
        when (negb (bool_decide (actor = effective_owner)) && negb (administrator member)) ;;
      raise (GitCoordinationError "authority already has a pending handoff") when (dmem entity_key (handoffs s)) ;;
      _ ← require_authorized_owner s entity pending_owner;
      let entity' := dset "version" (PInt (expected_version + 1))
                       (dset "pending_owner" (PStr pending_owner) (dset "draining" (PBool true) entity)) in
      let prior_claim := default [] (dget entity_key (claims s)) in
      let blockers := handoff_blockers s entity_key in
      g ← row_int "authority_generation" 0 entity;
      let ready := match prior_claim, blockers with [], [] => true | _, _ => false end in
      let h := handoff_row effective_owner g (py_str (pget_or "installation" (PStr "") prior_claim)) pending_owner ready
                 [("projection", projection); ("assignment", assignment)] in
      Ok (PDict [("status", PStr (if ready then "ready" else "blocked")); ("effective_owner", PStr effective_owner);
                 ("pending_owner", PStr pending_owner); ("blockers", PList (map PStr blockers))],
          set_handoffs (dset entity_key h (handoffs s)) (set_entities (dset entity_key entity' (entities s)) s))
  end.

(** [_stage_lifecycle_handoff] *)
Definition stage_lifecycle_handoff (entity_key pending_owner : string) (s : GState) : result gerror GState :=
  match dget entity_key (entities s) with
  | None => Err (Raised (KeyError entity_key))
  | Some entity =>
      raise (GitCoordinationError ("authority already has a pending handoff: " ++ entity_key)) when (dmem entity_key (handoffs s)) ;;
      n ← row_int "version" 0 entity;
      let entity' := dset "version" (PInt (n + 1)) (dset "pending_owner" (PStr pending_owner) (dset "draining" (PBool true) entity)) in
      let claim := default [] (dget entity_key (claims s)) in
      let claim_installation := py_str (pget_or "installation" (PStr "") claim) in
      g ← row_int "authority_generation" 0 entity;
      let h := handoff_row (py_str (pget_or "owner" (PStr "") entity)) g claim_installation pending_owner
                 (negb (nonempty claim_installation)) [] in
      Ok (set_handoffs (dset entity_key h (handoffs s)) (set_entities (dset entity_key entity' (entities s)) s))
  end.

(** The authority an entity has once its hand-off [h] is finished with [owner]. *)
Definition handed_over (entity h : row) (owner : string) : result gerror row :=
  g ← row_int "from_generation" 0 h;
  n ← row_int "version" 0 entity;
  Ok (merge_row entity [("owner", PStr owner); ("authority_generation", PInt (g + 1)); ("draining", PBool false);
                        ("pending_owner", PStr ""); ("version", PInt (n + 1))]).

Definition handoff_log (entity_key : string) (h : row) : row :=
  merge_row [("kind", PStr "handoff"); ("entity", PStr entity_key)] h.

(** Finish a staged hand-off: new authority, no claim, no hand-off, and a recovery entry. *)
Definition finish_handoff (entity_key owner : string) (entity h : row) (s : GState) : result gerror GState :=
  entity' ← handed_over entity h owner;
  Ok (remember (handoff_log entity_key h)
        (set_handoffs (ddel entity_key (handoffs s))
           (set_claims (ddel entity_key (claims s)) (set_entities (dset entity_key entity' (entities s)) s)))).

(** One task of [reconcile_inherited_task_owners]: the state, the affected and the pending tasks. *)
Definition inherit_owner (project owner : string) (acc : GState * (list string * list string)) (task_id : string)
    : result gerror (GState * (list string * list string)) :=
  let '(s, (affected, pending)) := acc in
  let key := ("task:" ++ task_id)%string in
  match dget key (entities s) with
  | None =>
      let entity := [("kind", PStr "task"); ("scope", PStr task_id); ("project", PStr project); ("owner", PStr owner);
                     ("authority_generation", PInt 1); ("version", PInt 0)] in
      Ok (set_entities (dset key entity (entities s)) s, (affected ++ [task_id], pending))
  | Some entity =>
      if bool_decide (py_str (pget_or "owner" (PStr "") entity) = owner) then Ok acc
      else match dget key (handoffs s) with
      | Some h =>
          raise (GitCoordinationError ("authority already has a pending handoff: " ++ key))
            when (negb (is_str (pget "pending_owner" h) owner)) ;;
          Ok (s, (affected, pending ++ [task_id]))
      | None =>
          _ ← require_authorized_owner s entity owner;
          s1 ← stage_lifecycle_handoff key owner s;
          let h := default [] (dget key (handoffs s1)) in
          if is_str (pget "status" h) "ready" then
            s2 ← finish_handoff key owner (default [] (dget key (entities s1))) h s1;
            Ok (s2, (affected ++ [task_id], pending))
          else Ok (s1, (affected ++ [task_id], pending ++ [task_id]))
      end
  end.

Definition reconcile_inherited_task_owners (actor installation project owner : string) (tasks : list string) (s : GState)
    : result gerror (pyval * GState) :=
  _ ← require_administrator s actor installation "phase ownership changes require an administrator";
  r ← foldR (inherit_owner project owner) (sorted_set tasks) (s, ([], []));
  Ok (PDict [("affected", PList (map PStr r.2.1)); ("pending", PList (map PStr r.2.2))], r.1).

(** ** Membership changes *)

Fixpoint stage_all (l : list string) (s : GState) : result gerror GState :=
  match l with [] => Ok s | k :: l' => s' ← stage_lifecycle_handoff k "" s; stage_all l' s' end.

Definition opt_bool (o : option bool) : pyval := match o with Some b => PBool b | None => PNone end.
Definition opt_names (o : option (list string)) : pyval := match o with Some l => PList (map PStr l) | None => PNone end.

Definition begin_member_authority_change (actor installation member_id : string) (active : option bool) (projects : option (list string))
    (s : GState) : result gerror (pyval * GState) :=
  _ ← require_administrator s actor installation "member authority changes require an administrator";
  raise (Raised (KeyError member_id)) when (negb (dmem member_id (members s))) ;;
  raise (GitCoordinationError "authority change must disable or change project scope")
    when (negb (bool_decide (active = Some false)) && match projects with None => true | Some _ => false end) ;;
  let change_key := ("member:" ++ member_id)%string in
  raise (GitCoordinationError "member already has a pending authority change") when (dmem change_key (authority_changes s)) ;;
  let retained := sorted_set <$> projects in
  let affected := dkeys (List.filter (fun ke => is_str (pget "owner" ke.2) member_id
      && (bool_decide (active = Some false)
          || match retained with Some l => negb (mem (py_str (pget_or "project" (PStr "") ke.2)) l) | None => false end)) (entities s)) in
  s1 ← stage_all affected s;
  let names := PList (map PStr (sorted_str affected)) in
  Ok (PDict [("status", PStr "draining"); ("entities", names)],
      set_changes (dset change_key [("status", PStr "draining"); ("kind", PStr "member"); ("member_id", PStr member_id);
        ("active", opt_bool active); ("projects", opt_names retained); ("entities", names); ("requested_by", PStr actor)]
        (authority_changes s1)) s1).

Definition begin_installation_revocation (actor installation installation_id : string) (s : GState) : result gerror (pyval * GState) :=
  _ ← require_administrator s actor installation "installation revocation requires an administrator";
  match dget installation_id (installations s) with
  | None | Some PNone => Err (Raised (KeyError installation_id))
  | Some member_id =>
      let change_key := ("installation:" ++ installation_id)%string in
      raise (GitCoordinationError "installation already has a pending revocation") when (dmem change_key (authority_changes s)) ;;
      let affected := dkeys (List.filter (fun kc => is_str (pget "installation" kc.2) installation_id) (claims s)) in
      s1 ← stage_all affected s;
      let names := PList (map PStr (sorted_str affected)) in
      Ok (PDict [("status", PStr "draining"); ("entities", names)],
          set_changes (dset change_key [("status", PStr "draining"); ("kind", PStr "installation"); ("member_id", member_id);
            ("installation_id", PStr installation_id); ("entities", names); ("requested_by", PStr actor)]
            (authority_changes s1)) s1)
  end.

Definition enroll_installation (actor installation installation_id member_id : string) (s : GState) : result gerror (pyval * GState) :=
  _ ← require_administrator s actor installation "installation enrollment requires an administrator";
  raise (Raised (PermissionError "installation owner must be an active member"))
    when (negb (truthy (pget "active" (default [] (dget member_id (members s)))))) ;;
  raise (GitCoordinationError "live installation ownership is immutable; revoke before re-enrollment")
    when (dmem installation_id (installations s)) ;;
  raise (GitCoordinationError "installation revocation is not complete")
    when (dmem ("installation:" ++ installation_id) (authority_changes s)) ;;
  Ok (PDict [("installation_id", PStr installation_id); ("member_id", PStr member_id)],
      set_people (members s) (dset installation_id (PStr member_id) (installations s))
        (ddel installation_id (revoked_installations s)) s).

(** A hand-off that may be finished: stopped or fenced, with nothing outstanding. *)
Definition released (h : row) : bool := truthy (pget "stop_acknowledged" h) || truthy (pget "external_fence" h).

Definition check_released (s : GState) (entity_key : string) : result gerror unit :=
  let blockers := handoff_blockers s entity_key in
  raise (GitCoordinationError ("authority change remains blocked by: " ++ join ", " blockers))
    when (match blockers with [] => false | _ => true end) ;;
  raise (GitCoordinationError ("authority change requires acknowledgement or external fence: " ++ entity_key))
    when (match real (dget entity_key (handoffs s)) with Some h => negb (released h) | None => true end) ;;
  Ok tt.

Definition vacate (s : GState) (entity_key : string) : result gerror GState :=
  match dget entity_key (handoffs s), dget entity_key (entities s) with
  | Some h, Some entity => finish_handoff entity_key "" entity h s
  | _, _ => Err (Raised (KeyError entity_key))
  end.

Definition names_of (v : pyval) : list string := match v with PList l => default [] (all_strs l) | _ => [] end.

Definition complete_authority_change (actor installation change_key : string) (s : GState) : result gerror (pyval * GState) :=
  _ ← require_administrator s actor installation "authority change completion requires an administrator";
  match real (dget change_key (authority_changes s)) with
  | None => Err (GitCoordinationError "no pending authority change")
  | Some change =>
      let keys := names_of (pget "entities" change) in
      _ ← each (check_released s) keys;
      s1 ← foldR vacate keys s;
      s2 ← (if is_str (pget "kind" change) "member" then
              let member_id := py_str (pget "member_id" change) in
              match dget member_id (members s1) with
              | None => Err (Raised (KeyError member_id))
              | Some member =>
                  let m1 := if is_none (pget "active" change) then member
                            else dset "active" (PBool (truthy (pget "active" change))) member in
                  let m2 := if is_none (pget "projects" change) then m1
                            else dset "project_visibility" (PStr "assigned") (dset "projects" (pget "projects" change) m1) in
                  Ok (set_people (dset member_id m2 (members s1)) (installations s1) (revoked_installations s1) s1)
              end
            else
              let revoked_id := py_str (pget "installation_id" change) in
              Ok (set_people (members s1) (ddel revoked_id (installations s1))
                    (dset revoked_id (default PNone (dget revoked_id (installations s1))) (revoked_installations s1)) s1));
      Ok (PDict [("status", PStr "complete"); ("change", PStr change_key)],
          remember (merge_row [("kind", PStr "authority-change")] change)
            (set_changes (ddel change_key (authority_changes s2)) s2))
  end.

Definition acknowledge_stop (actor installation entity_key : string) (s : GState) : result gerror (pyval * GState) :=
  match real (dget entity_key (handoffs s)) with
  | None => Err (Raised (PermissionError "stop acknowledgement is not bound to the prior installation"))
  | Some h =>
      raise (Raised (PermissionError "stop acknowledgement is not bound to the prior installation"))
        when (negb (is_str (pget "from_owner" h) actor) || negb (is_str (pget "from_installation" h) installation)) ;;
      let blockers := handoff_blockers s entity_key in
      raise (GitCoordinationError ("stop acknowledgement blocked by: " ++ join ", " blockers))
        when (match blockers with [] => false | _ => true end) ;;
      Ok (PDict [("status", PStr "ready")],
          set_handoffs (dset entity_key (dset "status" (PStr "ready") (dset "stop_acknowledged" (PBool true) h)) (handoffs s)) s)
  end.

Definition record_external_fence (actor installation entity_key : string) (proof : row) (s : GState) : result gerror (pyval * GState) :=
  raise (Raised (PermissionError "external fencing requires an enrolled administrator"))
    when (negb (match dget installation (installations s) with Some v => is_str v actor | None => false end)
          || negb (administrator (default [] (dget actor (members s))))) ;;
  raise (GitCoordinationError "external fence must cover execution and publication")
    when (negb (truthy (pget "execution" proof)) || negb (truthy (pget "publication" proof))) ;;
  match real (dget entity_key (handoffs s)) with
  | None => Err (GitCoordinationError "no pending handoff")
  | Some h =>
      let outstanding := dkeys (List.filter (fun ke => is_str (pget "scope" ke.2) entity_key && unresolved ke.2) (effects s)) in
      raise (GitCoordinationError ("external fence blocked by unresolved effects: " ++ join ", " outstanding))
        when (match outstanding with [] => false | _ => true end) ;;
      let fence (p : row) := if existsb (py_eq (pget "claim" p)) (claim_operations s entity_key)
                                && negb (in_strs (pget_or "status" (PStr "pending") p) ["terminal"; "fenced"])
                             then dset "status" (PStr "fenced") p else p in
      let h' := dset "status" (PStr "ready") (dset "external_fence"
                  (PDict (merge_row [("actor", PStr actor); ("installation", PStr installation)] proof)) h) in
      Ok (PDict [("status", PStr "ready")],
          set_handoffs (dset entity_key h' (handoffs s)) (set_permits (map (fun kp => (kp.1, fence kp.2)) (permits s)) s))
  end.

Definition retain_late_evidence (actor installation entity_key : string) (prior_generation : Z) (evidence_id : string) (payload : row)
    (s : GState) : result gerror (pyval * GState) :=
  let at_ (d : dict pyval) := match dget installation d with Some v => is_str v actor | None => false end in
  raise (Raised (PermissionError "evidence installation is not enrolled"))
    when (negb (at_ (installations s)) && negb (at_ (revoked_installations s))) ;;
  match real (dget entity_key (entities s)) with
  | None => Err (GitCoordinationError "evidence is not from a fenced prior generation")
  | Some entity =>
      g ← row_int "authority_generation" 0 entity;
      raise (GitCoordinationError "evidence is not from a fenced prior generation") when (g <=? prior_generation) ;;
      Ok (PDict [("retained", PStr evidence_id); ("applied", PBool false)],
          remember [("kind", PStr "late-evidence"); ("entity", PStr entity_key); ("generation", PInt prior_generation);
                    ("evidence_id", PStr evidence_id); ("actor", PStr actor); ("installation", PStr installation);
                    ("payload", PDict payload)] s)
  end.

Definition reconcile_effect (actor installation effect_operation_id outcome : string) (evidence : row) (s : GState)
    : result gerror (pyval * GState) :=
  raise (Raised (ValueError "reconciled outcome must be terminal")) when (negb (mem outcome ["succeeded"; "failed"; "fenced"])) ;;
  raise (Raised (PermissionError "recovery installation is not enrolled"))
    when (negb (match dget installation (installations s) with Some v => is_str v actor | None => false end)) ;;
  match real (dget effect_operation_id (effects s)) with
  | None => Err (GitCoordinationError "original provider effect was not found")
  | Some effect =>
      raise (GitCoordinationError "provider effect already has a different terminal outcome")
        when (negb (in_strs (pget_or "outcome" (PStr "pending") effect) ["pending"; "unknown"; outcome])) ;;
      let effect' := merge_row effect [("outcome", PStr outcome); ("reconciled_by", PStr actor); ("evidence", PDict evidence)] in
      let permits' := match dget effect_operation_id (permits s) with
                      | Some p => dset effect_operation_id (dset "status" (PStr (if bool_decide (outcome = "fenced") then "fenced" else "terminal")) p) (permits s)
                      | None => permits s
                      end in
      Ok (PDict [("effect", PStr effect_operation_id); ("outcome", PStr outcome)],
          set_permits permits' (set_effects (dset effect_operation_id effect' (effects s)) s))
  end.

Definition complete_handoff (actor installation entity_key : string) (s : GState) : result gerror (pyval * GState) :=
  member ← require_active_installation s actor installation;
  match real (dget entity_key (handoffs s)) with
  | None => Err (GitCoordinationError "no pending handoff")
  | Some h =>
      raise (Raised (PermissionError "handoff completion requires a participating owner or administrator"))
        when (negb (is_str (pget "from_owner" h) actor || is_str (pget "pending_owner" h) actor) && negb (administrator member)) ;;
      let blockers := handoff_blockers s entity_key in
      raise (GitCoordinationError ("handoff remains blocked by: " ++ join ", " blockers))
        when (match blockers with [] => false | _ => true end) ;;
      raise (GitCoordinationError "handoff requires bound stop acknowledgement or external fence") when (negb (released h)) ;;
      match dget entity_key (entities s) with
      | None => Err (Raised (KeyError entity_key))
      | Some entity =>
          let owner := py_str (pget "pending_owner" h) in
          _ ← require_authorized_owner s entity owner;
          s1 ← finish_handoff entity_key owner entity h s;
          let pj := if truthy (pget "projection" h) then [pget "projection" h] else [] in
          members' ← (match pget "assignment" h with
                      | PDict ((_ :: _) as a) =>
                          if nonempty owner then
                            match dget owner (members s) with
                            | None => Err (Raised (KeyError owner))
                            | Some m =>
                                g ← (match pget "assignment" m with PDict old => row_int "generation" 0 old | _ => Ok 0 end);
                                Ok (dset owner (dset "assignment" (PDict (merge_row (merge_row [("member_id", PStr owner)] a)
                                      [("generation", PInt (g + 1)); ("enabled", PBool true)])) m) (members s))
                            end
                          else Ok (members s)
                      | _ => Ok (members s)
                      end);
          entity' ← handed_over entity h owner;
          Ok (PDict [("status", PStr "complete"); ("owner", PStr owner); ("authority_generation", pget "authority_generation" entity')],
              set_people members' (installations s1) (revoked_installations s1) (set_logs (recovery s1) (projections s1 ++ pj) s1))
      end
  end.

(** ** Transactions *)

Inductive mutation :=
| Bootstrap (members_ entities_ : dict row) (installations_ revoked_ : dict pyval)
| Apply (actor installation : string) (expected_versions : list (string * Z)) (ch : Changes)
| BeginHandoff (actor installation entity_key : string) (expected_version : Z) (pending_owner : string) (projection assignment : pyval)
| ReconcileOwners (actor installation project phase owner : string) (tasks : list string)
| BeginMemberChange (actor installation member_id : string) (active : option bool) (projects : option (list string))
| BeginRevocation (actor installation installation_id : string)
| Enroll (actor installation installation_id member_id : string)
| CompleteChange (actor installation change_key : string)
| AcknowledgeStop (actor installation entity_key : string)
| ExternalFence (actor installation entity_key : string) (proof : row)
| LateEvidence (actor installation entity_key : string) (prior_generation : Z) (evidence_id : string) (payload : row)
| ReconcileEffect (actor installation effect_operation_id outcome : string) (evidence : row)
| CompleteHandoff (actor installation entity_key : string).

Definition mutate (m : mutation) (s : GState) : result gerror (pyval * GState) :=
  match m with
  | Bootstrap me en inst rv => bootstrap me en inst rv s
  | Apply a i ev ch => apply_changes a i ev ch s
  | BeginHandoff a i k v o pj asg => begin_handoff a i k v o pj asg s
  | ReconcileOwners a i pr _ o ts => reconcile_inherited_task_owners a i pr o ts s
  | BeginMemberChange a i m ac ps => begin_member_authority_change a i m ac ps s
  | BeginRevocation a i x => begin_installation_revocation a i x s
  | Enroll a i x m => enroll_installation a i x m s
  | CompleteChange a i k => complete_authority_change a i k s
  | AcknowledgeStop a i k => acknowledge_stop a i k s
  | ExternalFence a i k p => record_external_fence a i k p s
  | LateEvidence a i k g e p => retain_late_evidence a i k g e p s
  | ReconcileEffect a i x oc ev => reconcile_effect a i x oc ev s
  | CompleteHandoff a i k => complete_handoff a i k s
  end.

Definition who (actor installation : string) : row := [("actor", PStr actor); ("installation", PStr installation)].
Definition rows (d : dict row) : pyval := PDict (map (fun kr => (kr.1, PDict kr.2)) d).
Definition opt_rows (d : dict (option row)) : pyval :=
  PDict (map (fun kr => (kr.1, match kr.2 with Some r => PDict r | None => PNone end)) d).

(** The inputs each method fingerprints. *)
Definition inputs (m : mutation) : pyval :=
  PDict (match m with
  | Bootstrap me en inst rv => [("members", rows me); ("installations", PDict inst); ("revoked_installations", PDict rv); ("entities", rows en)]
  | Apply a i ev ch => who a i ++ [("expected_versions", PDict (map (fun kv => (kv.1, PInt kv.2)) ev));
      ("changes", PDict [("entities", rows (ch_entities ch)); ("claims", opt_rows (ch_claims ch)); ("permits", opt_rows (ch_permits ch));
                         ("effects", opt_rows (ch_effects ch)); ("reservations", opt_rows (ch_reservations ch))])]
  | BeginHandoff a i k v o pj asg => who a i ++ [("entity", PStr k); ("expected_version", PInt v); ("pending_owner", PStr o);
      ("projection", pj); ("assignment", asg)]
  | ReconcileOwners a i pr ph o ts => who a i ++ [("project", PStr pr); ("phase", PStr ph); ("owner", PStr o);
      ("tasks", PList (map PStr (sorted_str ts)))]
  | BeginMemberChange a i m ac ps => who a i ++ [("member_id", PStr m); ("active", opt_bool ac); ("projects", opt_names ps)]
  | BeginRevocation a i x => who a i ++ [("installation_id", PStr x)]
  | Enroll a i x m => who a i ++ [("installation_id", PStr x); ("member_id", PStr m)]
  | CompleteChange a i k => who a i ++ [("change_key", PStr k)]
  | AcknowledgeStop a i k => who a i ++ [("entity", PStr k)]
  | ExternalFence a i k p => who a i ++ [("entity", PStr k); ("proof", PDict p)]
  | LateEvidence a i k g e p => who a i ++ [("entity", PStr k); ("prior_generation", PInt g); ("evidence_id", PStr e); ("payload", PDict p)]
  | ReconcileEffect a i x oc ev => who a i ++ [("effect", PStr x); ("outcome", PStr oc); ("evidence", PDict ev)]
  | CompleteHandoff a i k => who a i ++ [("entity", PStr k)]
  end).

Section store.
(** [hashlib.sha256] of the canonical text. *)
Variable digest : pyval -> string.

Definition fingerprint_of (m : mutation) : string := digest (canonical (inputs m)).

(** A named transaction. *)
Abbreviation tx := (string * mutation)%type.

(** The state a transaction commits: the mutation, the next sequence number and its record.  [validate_state], which the code applies to it, asks for the protocol, the garden and
    the shape of each part: the first two no mutation changes, and the others are the types of [GState]. *)
Definition next_state (t : tx) (s : GState) : result gerror (pyval * GState) :=
  rs ← mutate t.2 s;
  Ok (rs.1, {| sequence := sequence rs.2 + 1; members := members rs.2; installations := installations rs.2;
               revoked_installations := revoked_installations rs.2; entities := entities rs.2; claims := claims rs.2;
               operations := dset t.1 {| fingerprint := fingerprint_of t.2; op_inputs := inputs t.2; op_result := rs.1 |} (operations rs.2);
               permits := permits rs.2; effects := effects rs.2; handoffs := handoffs rs.2;
               authority_changes := authority_changes rs.2; reservations := reservations rs.2; pools := pools rs.2;
               recovery := recovery rs.2; projections := projections rs.2 |}).

(** The remote ref: its commits, newest first. *)
Abbreviation history := (list GState).

(** What an uncontended transaction does to the ref. *)
Definition accept (h : history) (t : tx) : history :=
  match h with
  | [] => []
  | s :: _ => if dmem t.1 (operations s) then h
              else match next_state t s with Ok (_, s') => s' :: h | Err _ => h end
  end.

(** A push that reaches the server only after the resolving read, and a rejection without a competing commit, are not modelled.

    The transport of one attempt: whether the read succeeds, what other installations commit between
    the read and the push, the fate of the push, what they commit before the resolving read, and
    whether that read succeeds. *)
Inductive delivery := Delivered | AckLost | NotDelivered.
Record attempt := { readable : bool; others : list tx; push : delivery; later : list tx; rereadable : bool }.

Record accepted := { acc_result : pyval; acc_replayed : bool }.

(** The server's compare-and-swap: the push lands only if nothing was committed since the read. *)
Definition cas (h h1 : history) (s' : GState) : history :=
  if (List.length h1 =? List.length h)%nat then s' :: h1 else h1.
Definition cas_wins (h h1 : history) : bool := (List.length h1 =? List.length h)%nat.

Definition read_error : gerror := GitCoordinationError "git operation timed out".
Definition push_error : gerror := GitCoordinationError "coordination push failed".

(** A pending push of this operation id with other inputs. *)
Definition stale_obligation (obligation : option string) (fp : string) : option gerror :=
  match obligation with
  | Some f => if bool_decide (f = fp) then None
              else Some (GitCoordinationError "operation ID has an unresolved push with different inputs")
  | None => None
  end.

(** [transact]: one list element per retry; the pending-push obligation is the fingerprint on disk. *)
Fixpoint transact_loop (retries : list attempt) (obligation : option string) (h : history) (t : tx)
    : history * option string * result gerror accepted :=
  let fp := fingerprint_of t.2 in
  match retries, h with
  | [], _ => (h, obligation, Err (GitContention "coordination contention retry limit reached"))
  | _, [] => (h, obligation, Err (GitCoordinationError "coordination history is empty"))
  | a :: rest, s :: _ =>
      if negb (readable a) then (h, obligation, Err read_error)
      else match dget t.1 (operations s) with
      | Some old =>
          if bool_decide (fingerprint old = fp)
          then (h, None, Ok {| acc_result := op_result old; acc_replayed := true |})
          else (h, obligation, Err (GitCoordinationError "operation ID was already used with different inputs"))
      | None =>
          match stale_obligation obligation fp with
          | Some e => (h, obligation, Err e)
          | None =>
              match next_state t s with
              | Err e => (h, None, Err e)
              | Ok (r, s') =>
                  let h1 := foldl accept h (others a) in
                  match push a with
                  | Delivered =>
                      if cas_wins h h1 then (cas h h1 s', None, Ok {| acc_result := r; acc_replayed := false |})
                      else match rest with
                           | [] => (h1, None, Err (GitContention "coordination transaction lost remote compare-and-swap"))
                           | _ => transact_loop rest None h1 t
                           end
                  | fate =>
                      let h2 := match fate with AckLost => cas h h1 s' | _ => h1 end in
                      let h3 := foldl accept h2 (later a) in
                      if negb (rereadable a) then (h3, Some fp, Err read_error)
                      else match (match h3 with s3 :: _ => dget t.1 (operations s3) | [] => None end) with
                      | Some acc =>
                          if bool_decide (fingerprint acc = fp)
                          then (h3, None, Ok {| acc_result := op_result acc; acc_replayed := true |})
                          else (h3, None, Err push_error)
                      | None => (h3, None, Err push_error)
                      end
                  end
              end
          end
      end
  end.

Definition transact (retries : list attempt) (obligation : option string) (h : history) (t : tx)
    : history * option string * result gerror accepted :=
  if negb (nonempty t.1) || (200 <? Z.of_nat (String.length t.1))
  then (h, obligation, Err (Raised (ValueError "operation_id must be non-empty and bounded")))
  else transact_loop retries obligation h t.
End store.

(** ** Rows *)

Lemma bump_version_other r r' k : bump_version r = Ok r' -> k <> "version" -> dget k r' = dget k r.
Proof. unfold bump_version. intros H Hk. run H; subst; by rewrite dget_dset_ne. Qed.

Lemma NoDup_dkeys_ddel {V} k (d : dict V) : NoDup (dkeys d) -> NoDup (dkeys (ddel k d)).
Proof.
  unfold dkeys. induction d as [|[k' v] d IH]; cbn; [done|]. rewrite NoDup_cons. intros [Hni Hnd].
  case_decide; [done|]. cbn. apply NoDup_cons. split; [|auto].
  intros (y & Hy & Hin)%list_elem_of_fmap. apply Hni, list_elem_of_fmap. exists y. split; [done|].
  revert Hin. clear. induction d as [|[k2 v2] d IH]; cbn; [done|]. case_decide; [by right|].
  rewrite !elem_of_cons. intros [?|?]; eauto.
Qed.

Lemma dget_ddel_Some {V} k k' v (d : dict V) : NoDup (dkeys d) -> dget k (ddel k' d) = Some v -> k <> k' /\ dget k d = Some v.
Proof.
  intros Hnd H. destruct (decide (k = k')) as [->|Hne]; [by rewrite dget_ddel_eq in H|].
  by rewrite dget_ddel_ne in H.
Qed.

Lemma dget_dset_Some {V} k k' v w (d : dict V) : dget k (dset k' w d) = Some v -> (k = k' /\ v = w) \/ (k <> k' /\ dget k d = Some v).
Proof.
  destruct (decide (k = k')) as [->|Hne]; [rewrite dget_dset_eq; intros [= ->]; by left|].
  rewrite dget_dset_ne by done. by right.
Qed.

(** ** The elementary steps of authority

    Every mutation is a sequence of these, so an invariant of the steps is an invariant of the
    coordinator.  A step keeps what its construction needs to be judged: who patched what, which
    hand-off is finished, which effect is settled. *)
Inductive authority_step (s : GState) : GState -> Prop :=
| a_bootstrap r s' me en inst rv : bootstrap me en inst rv s = Ok (r, s') -> authority_step s s'
| a_patch kv s' : NoDup (dkeys kv.2) -> patch_entity s kv = Ok s' -> authority_step s s'
| a_row a i t kv s' : t <> TEffects -> change_row a i t s kv = Ok s' -> authority_step s s'
| a_effects a i l s' : Forall (fun kv => forall r, kv.2 = Some r -> NoDup (dkeys r)) l ->
    each (check_effect_kept s) l = Ok tt -> change_table a i TEffects l s = Ok s' -> authority_step s s'
| a_new k e : dget k (entities s) = None -> authority_step s (set_entities (dset k e (entities s)) s)
| a_stage k e g n o po inst ready rest : dget k (entities s) = Some e -> dget k (handoffs s) = None ->
    row_int "authority_generation" 0 e = Ok g ->
    authority_step s (set_handoffs (dset k (handoff_row o g inst po ready rest) (handoffs s))
      (set_entities (dset k (dset "version" n (dset "pending_owner" (PStr po) (dset "draining" (PBool true) e))) (entities s)) s))
| a_finish k owner e h s' : dget k (entities s) = Some e -> dget k (handoffs s) = Some h ->
    finish_handoff k owner e h s = Ok s' -> authority_step s s'
| a_handoff k h h' : dget k (handoffs s) = Some h -> dget "from_generation" h' = dget "from_generation" h ->
    authority_step s (set_handoffs (dset k h' (handoffs s)) s)
| a_permits p : authority_step s (set_permits p s)
| a_settle k e outcome rest : dget k (effects s) = Some e ->
    in_strs (pget_or "outcome" (PStr "pending") e) ["pending"; "unknown"; outcome] = true ->
    dget "outcome" rest = None -> NoDup (dkeys rest) ->
    authority_step s (set_effects (dset k (merge_row e (("outcome", PStr outcome) :: rest)) (effects s)) s)
| a_people m i r : authority_step s (set_people m i r s)
| a_changes c : authority_step s (set_changes c s)
| a_logs l pj : authority_step s (set_logs (recovery s ++ l) pj s).

Create HintDb git.
#[export] Hint Constructors authority_step : git.
#[export] Hint Resolve rtc_once rtc_refl : git.

(** JSON objects have distinct keys; this is what a mutation's rows are assumed to be. *)
Definition json_mutation (m : mutation) : Prop :=
  match m with
  | Apply _ _ _ ch => Forall (fun kv => NoDup (dkeys kv.2)) (ch_entities ch)
      /\ Forall (fun kv => forall r, kv.2 = Some r -> NoDup (dkeys r)) (ch_effects ch)
  | _ => True
  end.

(** A loop of authority steps. *)
Lemma foldR_steps {A} (f : GState -> A -> result gerror GState) l s s' :
  (forall x s1 s2, x ∈ l -> f s1 x = Ok s2 -> rtc authority_step s1 s2) ->
  foldR f l s = Ok s' -> rtc authority_step s s'.
Proof.
  intros Hf. apply (foldR_invariant (fun s1 => rtc authority_step s s1)); [|done].
  intros x s1 s2 Hx H1 H2. etrans; [done|by eapply Hf].
Qed.

Lemma stage_steps k po s s' : stage_lifecycle_handoff k po s = Ok s' -> authority_step s s'.
Proof.
  unfold stage_lifecycle_handoff. intros H. run H. subst. apply a_stage; try done.
  unfold dmem in *. by destruct (dget k (handoffs s)).
Qed.

Lemma vacate_steps k s s' : vacate s k = Ok s' -> authority_step s s'.
Proof. unfold vacate. intros H. run H. by eapply a_finish. Qed.

Lemma begin_handoff_steps a i k v po pj asg s r s' :
  begin_handoff a i k v po pj asg s = Ok (r, s') -> authority_step s s'.
Proof.
  unfold begin_handoff. intros H. run H. subst. apply a_stage; [by apply real_Some| |done].
  unfold dmem in *. by destruct (dget k (handoffs s)).
Qed.

(** The effects are only written by the effect changes. *)
Lemma patch_entity_effects s kv s' : patch_entity s kv = Ok s' -> effects s' = effects s.
Proof. unfold patch_entity. intros H. by run H; subst. Qed.

Lemma change_row_effects a i t s kv s' : t <> TEffects -> change_row a i t s kv = Ok s' -> effects s' = effects s.
Proof. unfold change_row. intros Ht H. by destruct t; [..|done|]; run H; subst. Qed.

Lemma patches_steps l s s' :
  Forall (fun kv => NoDup (dkeys kv.2)) l -> foldR patch_entity l s = Ok s' ->
  rtc authority_step s s' /\ effects s' = effects s.
Proof.
  intros Hl H. split.
  - revert H. apply foldR_steps. intros kv t1 t2 Hin Hr. apply rtc_once, (a_patch _ kv); [|done].
    rewrite Forall_forall in Hl. auto.
  - apply (foldR_invariant (fun s1 => effects s1 = effects s) _ _ _ _) in H; [done| |done].
    intros kv s1 s2 _ <-. apply patch_entity_effects.
Qed.

Lemma rows_steps a i t l s s' :
  t <> TEffects -> change_table a i t l s = Ok s' -> rtc authority_step s s' /\ effects s' = effects s.
Proof.
  intros Ht H. unfold change_table in H. split.
  - revert H. apply foldR_steps. intros kv t1 t2 _ Hr. by eapply rtc_once, a_row.
  - apply (foldR_invariant (fun s1 => effects s1 = effects s) _ _ _ _) in H; [done| |done].
    intros kv s1 s2 _ <-. by apply change_row_effects.
Qed.

Lemma each_kept_effects s s1 l :
  effects s1 = effects s -> each (check_effect_kept s) l = Ok tt -> each (check_effect_kept s1) l = Ok tt.
Proof. unfold each, check_effect_kept. by intros ->. Qed.

Lemma apply_steps a i ev ch s r s' :
  json_mutation (Apply a i ev ch) -> apply_changes a i ev ch s = Ok (r, s') -> rtc authority_step s s'.
Proof.
  intros [Hen Hef]. unfold apply_changes. intros H. run H. subst.
  match goal with H : each (check_effect_kept s) _ = Ok ?u |- _ => destruct u; rename H into Hk end.
  repeat match goal with
    | H : foldR patch_entity _ _ = Ok _ |- _ => apply patches_steps in H as [? ?]; [|done]
    | H : change_table _ _ TEffects _ _ = Ok _ |- _ => apply a_effects in H; [|done|eapply each_kept_effects; [|exact Hk]; congruence]
    | H : change_table _ _ _ _ _ = Ok _ |- _ => apply rows_steps in H as [? ?]; [|done]
    end.
  repeat (etrans; [eassumption|]). etrans; [by apply rtc_once|done].
Qed.

(** What staging leaves behind. *)
Lemma stage_present k po s s' : stage_lifecycle_handoff k po s = Ok s' ->
  is_Some (dget k (entities s')) /\ is_Some (dget k (handoffs s')).
Proof. unfold stage_lifecycle_handoff. intros H. run H. subst. cbn. rewrite !dget_dset_eq. eauto. Qed.

Lemma inherit_steps pr o acc x acc' :
  inherit_owner pr o acc x = Ok acc' -> rtc authority_step acc.1 acc'.1.
Proof.
  destruct acc as [s1 [af pe]]. unfold inherit_owner. cbn [fst]. intros H. run H; subst; cbn [fst]; eauto with git.
  - match goal with H : stage_lifecycle_handoff _ _ _ = Ok ?t |- _ =>
      pose proof (stage_present _ _ _ _ H) as [[e He] [h Hh]]; apply stage_steps in H end.
    etrans; [by apply rtc_once|]. apply rtc_once. rewrite He, Hh in *. cbn in *. by eapply a_finish.
  - by eapply rtc_once, stage_steps.
Qed.

Lemma reconcile_steps a i pr o tasks s r s' :
  reconcile_inherited_task_owners a i pr o tasks s = Ok (r, s') -> rtc authority_step s s'.
Proof.
  unfold reconcile_inherited_task_owners. intros H. run H. subst.
  match goal with H : foldR _ _ _ = Ok ?y |- _ =>
    apply (foldR_invariant (fun acc => rtc authority_step s acc.1) _ _ _ _) in H; [done| |done] end.
  intros tid acc acc' _ Hs Hi. etrans; [done|by eapply inherit_steps].
Qed.

Lemma stage_all_steps l s s' : stage_all l s = Ok s' -> rtc authority_step s s'.
Proof.
  revert s. induction l as [|k l IH]; intros s H; cbn in H; run H; subst; [done|].
  eapply rtc_l; [by eapply stage_steps|eauto].
Qed.

Lemma begin_member_steps a i m ac ps s r s' :
  begin_member_authority_change a i m ac ps s = Ok (r, s') -> rtc authority_step s s'.
Proof.
  unfold begin_member_authority_change. intros H. run H. subst.
  eapply rtc_r; [by eapply stage_all_steps|apply a_changes].
Qed.

Lemma begin_revocation_steps a i x s r s' :
  begin_installation_revocation a i x s = Ok (r, s') -> rtc authority_step s s'.
Proof.
  unfold begin_installation_revocation. intros H.
  run H; subst; (eapply rtc_r; [by eapply stage_all_steps|apply a_changes]).
Qed.

Lemma vacate_all_steps l s s' : foldR vacate l s = Ok s' -> rtc authority_step s s'.
Proof. apply foldR_steps. intros x s1 s2 _ H. by eapply rtc_once, vacate_steps. Qed.

Lemma complete_change_steps a i k s r s' :
  complete_authority_change a i k s = Ok (r, s') -> rtc authority_step s s'.
Proof.
  unfold complete_authority_change. intros H. run H. subst.
  etrans; [by eapply vacate_all_steps|].
  match goal with H : context [is_str _ "member"] |- _ => rename H into Hp end.
  eapply rtc_l; [|eapply rtc_l; [apply a_changes|eapply rtc_once, (a_logs _ [_])]].
  destruct (is_str _ "member"); [|run Hp; subst; apply a_people].
  run Hp; subst; apply a_people.
Qed.

Lemma logs_step pj s : authority_step s (set_logs (recovery s) pj s).
Proof. pose proof (a_logs s [] pj) as H. by rewrite app_nil_r in H. Qed.

Lemma complete_handoff_steps a i k s r s' :
  complete_handoff a i k s = Ok (r, s') -> rtc authority_step s s'.
Proof.
  unfold complete_handoff. intros H. run H. subst.
  eapply rtc_l; [eapply a_finish; [eassumption|by apply real_Some|eassumption]|].
  eapply rtc_l; [apply logs_step|]. apply rtc_once, a_people.
Qed.

Lemma acknowledge_steps a i k s r s' : acknowledge_stop a i k s = Ok (r, s') -> rtc authority_step s s'.
Proof.
  unfold acknowledge_stop. intros H. run H. subst. apply rtc_once. eapply a_handoff; [by apply real_Some|].
  by rewrite !dget_dset_ne.
Qed.

Lemma fence_steps a i k p s r s' : record_external_fence a i k p s = Ok (r, s') -> rtc authority_step s s'.
Proof.
  unfold record_external_fence. intros H. run H. subst.
  eapply rtc_l; [apply a_permits|]. apply rtc_once. eapply (a_handoff (set_permits _ s)); [by apply real_Some|].
  by rewrite !dget_dset_ne.
Qed.

Lemma late_steps a i k g e p s r s' : retain_late_evidence a i k g e p s = Ok (r, s') -> rtc authority_step s s'.
Proof. unfold retain_late_evidence. intros H. run H. subst. apply rtc_once, (a_logs _ [_]). Qed.

Lemma reconcile_effect_steps a i x oc ev s r s' : reconcile_effect a i x oc ev s = Ok (r, s') -> rtc authority_step s s'.
Proof.
  unfold reconcile_effect. intros H. run H. subst. guards.
  eapply rtc_l; [|apply rtc_once, a_permits].
  apply (a_settle s x d oc [("reconciled_by", PStr a); ("evidence", PDict ev)]); [by apply real_Some|done|done|].
  cbn. repeat constructor; set_solver.
Qed.

Lemma enroll_steps a i x m s r s' : enroll_installation a i x m s = Ok (r, s') -> rtc authority_step s s'.
Proof. unfold enroll_installation. intros H. run H. subst. apply rtc_once, a_people. Qed.

(** Every mutation is a sequence of elementary steps. *)
Lemma mutate_steps m s r s' : json_mutation m -> mutate m s = Ok (r, s') -> rtc authority_step s s'.
Proof.
  destruct m; cbn [mutate]; intros Hj H.
  - by eapply rtc_once, a_bootstrap.
  - by eapply apply_steps.
  - by eapply rtc_once, begin_handoff_steps.
  - by eapply reconcile_steps.
  - by eapply begin_member_steps.
  - by eapply begin_revocation_steps.
  - by eapply enroll_steps.
  - by eapply complete_change_steps.
  - by eapply acknowledge_steps.
  - by eapply fence_steps.
  - by eapply late_steps.
  - by eapply reconcile_effect_steps.
  - by eapply complete_handoff_steps.
Qed.

(** ** The authority invariant *)

Abbreviation generation := (row_int "authority_generation" 0).

(** A claim is held by the member its entity names as owner, at the entity's generation; a pending
    hand-off keeps its entity draining and remembers the entity's generation. *)
Definition claim_ok (c e : row) : Prop :=
  py_eq (pget "owner_id" c) (pget "owner" e) = true /\ pget "actor" c = pget "owner_id" c
  /\ (forall g g', row_int "authority_generation" (-1) c = Ok g -> row_int "authority_generation" (-1) e = Ok g' -> g = g').
Definition handoff_ok (h e : row) : Prop :=
  truthy (pget "draining" e) = true
  /\ exists g, pget "from_generation" h = PInt g /\ forall g', generation e = Ok g' -> g' = g.

Record authority_ok (s : GState) : Prop := {
  ok_entities : NoDup (dkeys (entities s));
  ok_claims : NoDup (dkeys (claims s));
  ok_handoffs : NoDup (dkeys (handoffs s));
  ok_claim : forall k c, dget k (claims s) = Some c -> exists e, dget k (entities s) = Some e /\ claim_ok c e;
  ok_handoff : forall k h, dget k (handoffs s) = Some h -> exists e, dget k (entities s) = Some e /\ handoff_ok h e;
}.

(** Steps that touch none of the three tables. *)
Lemma authority_ok_frame s s' :
  entities s' = entities s -> claims s' = claims s -> handoffs s' = handoffs s -> authority_ok s -> authority_ok s'.
Proof. intros He Hc Hh [? ? ? ? ?]. constructor; rewrite ?He, ?Hc, ?Hh; done. Qed.

(** An entity row may change as long as its claims and hand-offs stay good. *)
Lemma authority_ok_entity s k e e' :
  dget k (entities s) = Some e -> authority_ok s ->
  (forall c, claim_ok c e -> claim_ok c e') -> (forall h, handoff_ok h e -> handoff_ok h e') ->
  authority_ok (set_entities (dset k e' (entities s)) s).
Proof.
  intros He [Hen Hcl Hha Hc Hh] Hcc Hhh. constructor; cbn; [by apply NoDup_dkeys_dset|done|done| |].
  - intros k' c Hk. destruct (Hc k' c Hk) as (e0 & He0 & Hok). destruct (decide (k' = k)) as [->|Hne].
    + rewrite dget_dset_eq. exists e'. split; [done|]. apply Hcc. congruence.
    + rewrite dget_dset_ne by done. eauto.
  - intros k' h Hk. destruct (Hh k' h Hk) as (e0 & He0 & Hok). destruct (decide (k' = k)) as [->|Hne].
    + rewrite dget_dset_eq. exists e'. split; [done|]. apply Hhh. congruence.
    + rewrite dget_dset_ne by done. eauto.
Qed.

(** A new entity has no claim and no hand-off. *)
Lemma authority_ok_new s k e :
  dget k (entities s) = None -> authority_ok s -> authority_ok (set_entities (dset k e (entities s)) s).
Proof.
  intros He [Hen Hcl Hha Hc Hh]. constructor; cbn; [by apply NoDup_dkeys_dset|done|done| |].
  - intros k' c Hk. destruct (Hc k' c Hk) as (e0 & He0 & Hok). rewrite dget_dset_ne by congruence. eauto.
  - intros k' h Hk. destruct (Hh k' h Hk) as (e0 & He0 & Hok). rewrite dget_dset_ne by congruence. eauto.
Qed.

(** *** Patches *)

(** A patch that passed the authority check leaves the authority fields equal. *)
Lemma changed_authority_nil patch current f v :
  changed_authority patch current = [] -> f ∈ HANDOFF_ENTITY_FIELDS -> dget f patch = Some v ->
  py_eq v (pget f current) = true.
Proof.
  unfold changed_authority. intros Hn Hf Hv. apply not_false_is_true. intros Heq.
  assert (Hin : f ∈ sorted_str (List.filter (fun f => match dget f patch with Some v => negb (py_eq v (pget f current)) | None => false end)
    HANDOFF_ENTITY_FIELDS)); [|by rewrite Hn in Hin; apply elem_of_nil in Hin].
  rewrite elem_of_sorted_str, list_elem_of_In, filter_In, <- list_elem_of_In. split; [done|]. by rewrite Hv, Heq.
Qed.

(** [patch_entity]'s new row, field by field. *)
Lemma patched_field patch current r f :
  NoDup (dkeys patch) -> changed_authority patch current = [] -> bump_version (merge_row current patch) = Ok r ->
  f ∈ HANDOFF_ENTITY_FIELDS ->
  dget f r = dget f current \/ exists v, dget f r = Some v /\ py_eq v (pget f current) = true.
Proof.
  intros Hnd Hch Hb Hf.
  rewrite (bump_version_other _ _ f Hb) by (intros ->; revert Hf; unfold HANDOFF_ENTITY_FIELDS; rewrite !elem_of_cons, elem_of_nil; intuition discriminate).
  rewrite dget_merge_row by done. destruct (dget f patch) as [v|] eqn:Hv; [right|by left].
  exists v. split; [done|]. by eapply changed_authority_nil.
Qed.

Lemma kept_field f (r e : row) :
  (dget f r = dget f e \/ exists v, dget f r = Some v /\ py_eq v (pget f e) = true) ->
  py_eq (pget f r) (pget f e) = true
  /\ forall d n, row_int f d r = Ok n -> row_int f d e = Ok n.
Proof.
  unfold row_int, pget_or, pget. intros [->|(v & -> & Hv)]; [split; [apply py_eq_refl|done]|].
  cbn. split; [done|]. intros d n. rewrite (py_int_py_eq _ _ Hv).
  by destruct (dget f e).
Qed.

Lemma authority_ok_patch s kv s' :
  NoDup (dkeys kv.2) -> patch_entity s kv = Ok s' -> authority_ok s -> authority_ok s'.
Proof.
  destruct kv as [k patch]. unfold patch_entity. cbn [fst snd]. intros Hnd H Hok.
  destruct (dget k (entities s)) as [e|] eqn:He; run H; subst; [|by apply authority_ok_new].
  assert (Hf : forall f, f ∈ HANDOFF_ENTITY_FIELDS -> py_eq (pget f x) (pget f e) = true
      /\ forall d n, row_int f d x = Ok n -> row_int f d e = Ok n).
  { intros f Hf. apply kept_field. eapply (patched_field patch); [done| |done|done].
    by destruct (changed_authority patch e). }
  eapply authority_ok_entity; [done|done| |].
  - intros c (Ho & Ha & Hg). destruct (Hf "owner") as [Hfo _]; [set_solver|].
    destruct (Hf "authority_generation") as [_ Hfg]; [set_solver|].
    split_and!; [|done|eauto]. eapply py_eq_trans; [done|by apply py_eq_sym].
  - intros h (Hd & g & Hh & Hg). destruct (Hf "draining") as [Hfd _]; [set_solver|].
    destruct (Hf "authority_generation") as [_ Hfg]; [set_solver|].
    split; [by rewrite (truthy_py_eq _ _ Hfd)|]. exists g. split; [done|]. eauto.
Qed.

(** *** The other steps *)

(** An admitted claim is good, and its entity is not draining. *)
Lemma check_claim_ok s a i k r u : check_claim s a i k r = Ok u ->
  exists e, dget k (entities s) = Some e /\ claim_ok r e /\ truthy (pget "draining" e) = false /\ holder_is r a i = true.
Proof.
  unfold check_claim. intros H. run H. guards. eexists. split; [by apply real_Some|].
  unfold holder_is, is_str in *. guards.
  split; [split; [done|split; [congruence|]]|split; [done|by apply andb_true_iff; split; apply bool_decide_eq_true]].
  intros g g' Hg Hg'. rewrite Z.eqb_eq in *. congruence.
Qed.

Lemma authority_ok_claim s k c e :
  dget k (entities s) = Some e -> claim_ok c e -> authority_ok s ->
  authority_ok (set_claims (dset k c (claims s)) s).
Proof.
  intros He Hce [Hen Hcl Hha Hc Hh]. constructor; cbn; [done|by apply NoDup_dkeys_dset|done| |done].
  intros k' c' [[-> ->]|[Hne Hk]]%dget_dset_Some; eauto.
Qed.

Lemma authority_ok_unclaim s k : authority_ok s -> authority_ok (set_claims (ddel k (claims s)) s).
Proof.
  intros [Hen Hcl Hha Hc Hh]. constructor; cbn; [done|by apply NoDup_dkeys_ddel|done| |done].
  intros k' c' [Hne Hk]%dget_ddel_Some; eauto.
Qed.

Lemma authority_ok_row s a i t kv s' :
  t <> TEffects -> change_row a i t s kv = Ok s' -> authority_ok s -> authority_ok s'.
Proof.
  intros Ht H Hok. unfold change_row in H.
  destruct t; cbn [table_of set_table singular] in H; try (run H; subst; by apply (authority_ok_frame s)); [].
  destruct kv as [k [value|]]; cbn [fst snd] in H.
  - run H. subst. match goal with H : (check_claim _ _ _ _ _ ≫= _) = _ |- _ => apply bind_Ok in H as (? & Hcc & [= <-]) end.
    apply check_claim_ok in Hcc as (e & He & Hce & _). by eapply authority_ok_claim.
  - run H. subst. by apply authority_ok_unclaim.
Qed.

Lemma authority_ok_rows a i t l s s' : change_table a i t l s = Ok s' -> authority_ok s -> authority_ok s'.
Proof.
  intros H Hok. unfold change_table in H. revert H. apply (foldR_invariant authority_ok); [|done].
  intros kv s1 s2 _ H1 H2. assert (t = TEffects \/ t <> TEffects) as [->|] by (destruct t; (by left) || by right); [|by eapply authority_ok_row].
  unfold change_row in H2. cbn [table_of set_table singular] in H2. run H2; subst; by apply (authority_ok_frame s1).
Qed.

Lemma authority_ok_hand s k h e :
  dget k (entities s) = Some e -> handoff_ok h e -> authority_ok s ->
  authority_ok (set_handoffs (dset k h (handoffs s)) s).
Proof.
  intros He Hhe [Hen Hcl Hha Hc Hh]. constructor; cbn; [done|done|by apply NoDup_dkeys_dset|done|].
  intros k' c' [[-> ->]|[Hne Hk]]%dget_dset_Some; eauto.
Qed.

(** Draining an entity changes neither its owner nor its generation. *)
Lemma authority_ok_stage s k e g n o po inst ready rest :
  dget k (entities s) = Some e -> dget k (handoffs s) = None -> generation e = Ok g -> authority_ok s ->
  authority_ok (set_handoffs (dset k (handoff_row o g inst po ready rest) (handoffs s))
    (set_entities (dset k (dset "version" n (dset "pending_owner" (PStr po) (dset "draining" (PBool true) e))) (entities s)) s)).
Proof.
  intros He Hn Hg Hok. set (e' := dset "version" _ _).
  assert (Hf : forall f, f <> "version" -> f <> "pending_owner" -> f <> "draining" -> dget f e' = dget f e).
  { intros f H1 H2 H3. unfold e'. by rewrite !dget_dset_ne. }
  apply (authority_ok_hand (set_entities (dset k e' (entities s)) s) k _ e').
  - cbn. by rewrite dget_dset_eq.
  - split; [unfold e', pget; by rewrite 2!dget_dset_ne, dget_dset_eq|].
    exists g. split; [done|]. unfold row_int, pget_or in *. rewrite Hf by done. congruence.
  - eapply authority_ok_entity; [done|done| |].
    + intros c (Ho & Ha & Hgc). unfold claim_ok, row_int, pget_or, pget in *. by rewrite !(Hf "owner"), !(Hf "authority_generation").
    + intros h (Hd & g' & Hh & Hgh). split; [unfold e', pget; by rewrite 2!dget_dset_ne, dget_dset_eq|].
      exists g'. split; [done|]. unfold row_int, pget_or in *. by rewrite Hf.
Qed.

(** Finishing a hand-off installs the new authority and drops what the old one held. *)
Lemma authority_ok_finish s k owner e h s' :
  dget k (entities s) = Some e -> dget k (handoffs s) = Some h -> finish_handoff k owner e h s = Ok s' ->
  authority_ok s -> authority_ok s'.
Proof.
  unfold finish_handoff. intros He Hh H [Hen Hcl Hha Hc Hhok]. run H. subst.
  constructor; cbn; [by apply NoDup_dkeys_dset|by apply NoDup_dkeys_ddel|by apply NoDup_dkeys_ddel| |].
  - intros k' c [Hne Hk]%dget_ddel_Some; [|done]. rewrite dget_dset_ne by done. eauto.
  - intros k' c [Hne Hk]%dget_ddel_Some; [|done]. rewrite dget_dset_ne by done. eauto.
Qed.

Lemma NoDup_dkeys_foldl {V} (b a : dict V) : NoDup (dkeys a) -> NoDup (dkeys (foldl (fun d kv => dset kv.1 kv.2 d) a b)).
Proof. revert a. induction b as [|[k v] b IH]; intros a Ha; cbn; [done|]. apply IH. by apply NoDup_dkeys_dset. Qed.

Lemma authority_ok_bootstrap s me en inst rv r s' :
  bootstrap me en inst rv s = Ok (r, s') -> authority_ok s -> authority_ok s'.
Proof.
  unfold bootstrap. intros H [Hen Hcl Hha Hc Hh]. run H. subst.
  assert (Hem : entities s = [] /\ claims s = []).
  { destruct (sequence s =? 0), (members s), (installations s), (entities s), (claims s); done. }
  destruct Hem as [Hem Hcm]. rewrite Hem, Hcm in *. constructor; cbn; rewrite ?Hcm.
  - apply NoDup_dkeys_foldl. constructor.
  - constructor.
  - done.
  - done.
  - intros k h Hk. by destruct (Hh k h Hk) as (e & He & _).
Qed.

(** Rule induction: the steps, hence the mutations, keep the invariant. *)
Lemma authority_ok_step s s' : authority_step s s' -> authority_ok s -> authority_ok s'.
Proof.
  intros [] Hok; try by apply (authority_ok_frame s).
  - by eapply authority_ok_bootstrap.
  - by eapply authority_ok_patch.
  - by eapply authority_ok_row.
  - by eapply authority_ok_rows.
  - by apply authority_ok_new.
  - by eapply authority_ok_stage.
  - by eapply authority_ok_finish.
  - destruct (ok_handoff _ Hok k h) as (e & He & Hd & g & Hg & Hgg); [done|].
    eapply authority_ok_hand; [done| |done]. split; [done|]. exists g. unfold pget in *. split; [congruence|done].
Qed.

Lemma authority_ok_mutate m s r s' : json_mutation m -> mutate m s = Ok (r, s') -> authority_ok s -> authority_ok s'.
Proof. intros Hj H. apply mutate_steps in H; [|done]. induction H; eauto using authority_ok_step. Qed.

(** ** Fencing: authority changes hands only with a larger generation *)

(** The generation in force: the one a pending hand-off remembers, else the entity's. *)
Definition effective_generation (s : GState) (k : string) : option Z :=
  match dget k (handoffs s) with
  | Some h => match pget "from_generation" h with PInt g => Some g | _ => None end
  | None => match dget k (entities s) with
            | Some e => match generation e with Ok g => Some g | Err _ => None end
            | None => None
            end
  end.
Definition owner_of (s : GState) (k : string) : pyval := pget "owner" (default [] (dget k (entities s))).

(** An entity never disappears, its generation never falls, and its owner changes only with it. *)
Definition fenced_le (s s' : GState) (k : string) : Prop :=
  is_Some (dget k (entities s)) ->
  is_Some (dget k (entities s')) /\
  match effective_generation s k, effective_generation s' k with
  | Some g, Some g' => g < g' \/ (g = g' /\ py_eq (owner_of s' k) (owner_of s k) = true)
  | None, Some _ => False
  | _, None => True
  end.

Lemma fenced_le_same s s' k :
  dget k (entities s') = dget k (entities s) -> dget k (handoffs s') = dget k (handoffs s) -> fenced_le s s' k.
Proof.
  intros He Hh Hs. split; [by rewrite He|].
  assert (effective_generation s' k = effective_generation s k) as -> by (unfold effective_generation; by rewrite He, Hh).
  destruct (effective_generation s k); [right|done]. split; [done|].
  unfold owner_of. rewrite He. apply py_eq_refl.
Qed.

Lemma fenced_le_trans s1 s2 s3 k : fenced_le s1 s2 k -> fenced_le s2 s3 k -> fenced_le s1 s3 k.
Proof.
  unfold fenced_le. intros H12 H23 H1. destruct (H12 H1) as [H2 G12]. destruct (H23 H2) as [H3 G23]. split; [done|].
  destruct (effective_generation s1 k), (effective_generation s2 k), (effective_generation s3 k); try done.
  destruct G12 as [?|[-> ?]], G23 as [?|[-> ?]]; try (left; lia). right. split; [done|by eapply py_eq_trans].
Qed.

Lemma fenced_patch s kv s' k : NoDup (dkeys kv.2) -> patch_entity s kv = Ok s' -> fenced_le s s' k.
Proof.
  destruct kv as [k0 patch]. unfold patch_entity. cbn [fst snd]. intros Hnd H [e1 He1].
  destruct (dget k0 (entities s)) as [e|] eqn:He; run H; subst; (destruct (decide (k = k0)) as [->|Hne];
    [|apply fenced_le_same; cbn; [by rewrite dget_dset_ne|done|by eexists]]); [|congruence].
  destruct (kept_field "authority_generation" x e) as [_ Hg];
    [eapply (patched_field patch); [done|by destruct (changed_authority patch e)|done|set_solver]|].
  destruct (kept_field "owner" x e) as [Ho _];
    [eapply (patched_field patch); [done|by destruct (changed_authority patch e)|done|set_solver]|].
  unfold effective_generation, owner_of. cbn. rewrite dget_dset_eq, He. split; [done|]. cbn.
  destruct (dget k0 (handoffs s)) as [h|]; [destruct (pget "from_generation" h); auto|].
  destruct (generation x) as [n|] eqn:Hx.
  - rewrite (Hg 0 n Hx). auto.
  - by destruct (generation e).
Qed.

Lemma fenced_finish s k0 owner e h s' k :
  dget k0 (entities s) = Some e -> dget k0 (handoffs s) = Some h -> finish_handoff k0 owner e h s = Ok s' ->
  authority_ok s -> fenced_le s s' k.
Proof.
  unfold finish_handoff. intros He Hh H Hok. run H. subst.
  match goal with H : handed_over _ _ _ = _ |- _ => unfold handed_over in H; run H; subst end.
  destruct (decide (k = k0)) as [->|Hne];
    [|apply fenced_le_same; cbn; [by rewrite dget_dset_ne|by rewrite dget_ddel_ne]].
  destruct (ok_handoff _ Hok _ _ Hh) as (e0 & _ & _ & g & Hg & _). pose proof (ok_handoffs _ Hok) as Hnd.
  intros _. unfold effective_generation, owner_of. cbn. rewrite dget_dset_eq, dget_ddel_eq, Hh, Hg by done.
  split; [done|]. match goal with H : row_int "from_generation" 0 h = Ok _ |- _ => rename H into Hr end.
  unfold row_int, pget_or in Hr. unfold pget in Hg. destruct (dget "from_generation" h); cbn in *; simplify_eq.
  cbn in Hr. injection Hr as <-. unfold row_int, pget_or. rewrite !dget_dset_ne, dget_dset_eq by done. cbn. left. lia.
Qed.

Lemma fenced_step s s' k : authority_step s s' -> authority_ok s -> fenced_le s s' k.
Proof.
  intros [r s1 me en inst rv H|kv s1 Hnd H|a i t kv s1 Ht H|a i l s1 Hl _ H|k0 e H|k0 e g n o po inst ready rest He Hh Hg|k0 owner e h s1 He Hh H|k0 h h' H Hf|p|k0 e oc rest He Ho|m i r|c|l pj] Hok;
    try by apply fenced_le_same.
  - unfold bootstrap in H. run H. intros [e He]. exfalso.
    destruct (sequence s =? 0), (members s), (installations s), (entities s); done.
  - by eapply fenced_patch.
  - unfold change_row in H. by destruct t; [..|done|]; run H; subst; apply fenced_le_same.
  - unfold change_table in H.
    apply (foldR_invariant (fun s2 => entities s2 = entities s /\ handoffs s2 = handoffs s) _ _ _ _) in H;
      [destruct H; apply fenced_le_same; congruence| |done].
    intros kv s2 s3 _ [<- <-] Hc. unfold change_row in Hc. cbn [table_of set_table singular] in Hc. by run Hc; subst.
  - destruct (decide (k = k0)) as [->|Hne]; [intros []; congruence|].
    apply fenced_le_same; cbn; [by rewrite dget_dset_ne|done].
  - destruct (decide (k = k0)) as [->|Hne];
      [|apply fenced_le_same; cbn; [by rewrite dget_dset_ne|by rewrite dget_dset_ne]].
    intros _. unfold effective_generation, owner_of. cbn. rewrite !dget_dset_eq, Hh, He, Hg. split; [done|].
    cbn. right. split; [done|]. unfold pget. rewrite !dget_dset_ne by done. apply py_eq_refl.
  - by eapply fenced_finish.
  - destruct (decide (k = k0)) as [->|Hne]; [|apply fenced_le_same; cbn; [done|by rewrite dget_dset_ne]].
    intros Hs. split; [done|]. unfold effective_generation, owner_of, pget. cbn. rewrite dget_dset_eq, H, Hf.
    destruct (default PNone (dget "from_generation" h)); auto using py_eq_refl.
Qed.

Lemma fenced_mutate m s r s' k : json_mutation m -> mutate m s = Ok (r, s') -> authority_ok s -> fenced_le s s' k.
Proof.
  intros Hj H. apply mutate_steps in H; [|done].
  induction H as [|s1 s2 s3 H12 H23 IH]; intros Hok; [by apply fenced_le_same|].
  eapply fenced_le_trans; [by eapply fenced_step|]. apply IH. by eapply authority_ok_step.
Qed.

(** ** Effect evidence is permanent *)

Lemma each_Forall {A} (f : A -> result gerror unit) l : each f l = Ok tt -> Forall (fun x => f x = Ok tt) l.
Proof.
  unfold each. induction l as [|x l IH]; cbn; [by constructor|].
  intros ([] & Hx & Hr)%bind_Ok. constructor; auto.
Qed.

Lemma in_strs_py_eq u v l : py_eq u v = true -> in_strs u l = in_strs v l.
Proof. unfold py_eq. rewrite bool_decide_eq_true. destruct u, v; cbn; intros; simplify_eq; done. Qed.

Lemma NoDup_setdefault k v r : NoDup (dkeys r) -> NoDup (dkeys (setdefault k v r)).
Proof. unfold setdefault. destruct (dmem k r); [done|]. apply NoDup_dkeys_dset. Qed.

(** A settled effect with the same outcome as [e]. *)
Definition settled_as (e : row) (o : option row) : Prop :=
  exists e', o = Some e' /\ unresolved e' = false /\ py_eq (pget_or "outcome" (PStr "pending") e') (pget_or "outcome" (PStr "pending") e) = true.
Definition effects_le (s s' : GState) : Prop :=
  forall x e, dget x (effects s) = Some e -> unresolved e = false -> settled_as e (dget x (effects s')).

Lemma effects_le_refl s s' : effects s' = effects s -> effects_le s s'.
Proof. intros H x e He Hu. rewrite H. exists e. split_and!; [done|done|apply py_eq_refl]. Qed.

Lemma effects_le_trans s1 s2 s3 : effects_le s1 s2 -> effects_le s2 s3 -> effects_le s1 s3.
Proof.
  intros H12 H23 x e He Hu. destruct (H12 x e He Hu) as (e2 & He2 & Hu2 & Ho2).
  destruct (H23 x e2 He2 Hu2) as (e3 & He3 & Hu3 & Ho3). exists e3. split_and!; [done|done|]. by eapply py_eq_trans.
Qed.

(** Overwriting a settled effect keeps its outcome. *)
Lemma check_effect_settled c r r' :
  NoDup (dkeys r) -> unresolved c = false -> check_effect (Some c) r = Ok r' -> settled_as c (Some r').
Proof.
  intros Hnd Hu H. unfold check_effect in H. destruct c as [|kv c0]; [discriminate Hu|]. cbn [real] in H. set (c := kv :: c0) in *.
  apply bind_Ok in H as (r1 & H1 & H2). run H2. subst r1. rewrite Hu in H1. cbn [negb andb] in H1. run H1. guards.
  subst r'. exists (merge_row c r). unfold unresolved in *.
  assert (Heq : py_eq (pget_or "outcome" (PStr "pending") (merge_row c r)) (pget_or "outcome" (PStr "pending") c) = true).
  { unfold pget_or in *. rewrite dget_merge_row by done. destruct (dget "outcome" r) as [v|]; [done|]. apply py_eq_refl. }
  split_and!; [done| |done]. by rewrite (in_strs_py_eq _ _ _ Heq).
Qed.

Lemma effects_le_step s s' : authority_step s s' -> effects_le s s'.
Proof.
  intros [r s1 me en inst rv H|kv s1 Hnd H|a i t kv s1 Ht H|a i l s1 Hl Hk H|k0 e H|k0 e g n o po inst ready rest He Hh Hg|k0 owner e h s1 He Hh H|k0 h h' H Hf|p|k0 e oc rest He Ho Hr Hnd|m i r|c|l pj];
    try by apply effects_le_refl.
  - unfold bootstrap in H. run H. subst. by apply effects_le_refl.
  - eapply effects_le_refl, patch_entity_effects, H.
  - eapply effects_le_refl, change_row_effects, H; done.
  - intros x e He Hu. apply each_Forall in Hk. rewrite Forall_forall in Hk, Hl. unfold change_table in H.
    apply (foldR_invariant (fun s2 => settled_as e (dget x (effects s2))) _ _ _ _) in H; [done| |].
    + intros [k [value|]] s2 s3 Hin (e2 & He2 & Hu2 & Ho2) Hc; unfold change_row in Hc; cbn [fst snd table_of set_table singular] in Hc.
      * apply bind_Ok in Hc as (r' & Hr' & Hc). run Hc. subst s3. apply bind_Ok in Hr' as (_ & _ & Hr').
        cbn. destruct (decide (x = k)) as [->|Hne]; [|rewrite dget_dset_ne by done; by exists e2].
        rewrite He2 in Hr'. apply check_effect_settled in Hr' as (e3 & He3 & Hu3 & Ho3); [|by do 2 apply NoDup_setdefault; apply (Hl (k, Some value) Hin)|done].
        rewrite dget_dset_eq. exists e3. split_and!; [done|done|]. by eapply py_eq_trans.
      * run Hc. subst s3. cbn. specialize (Hk _ Hin). unfold check_effect_kept in Hk. cbn [fst snd] in Hk. run Hk.
        destruct (decide (x = k)) as [->|Hne]; [unfold dmem in *; by rewrite He in *|].
        rewrite dget_ddel_ne by done. by exists e2.
    + exists e. split_and!; [done|done|apply py_eq_refl].
  - unfold finish_handoff in H. run H. subst. by apply effects_le_refl.
  - intros x e0 He0 Hu. cbn. destruct (decide (x = k0)) as [->|Hne];
      [|rewrite dget_dset_ne by done; exists e0; split_and!; [done|done|apply py_eq_refl]].
    rewrite dget_dset_eq. replace e0 with e in * by congruence. unfold unresolved in Hu.
    assert (Hoc : pget_or "outcome" (PStr "pending") e = PStr oc).
    { destruct (pget_or "outcome" (PStr "pending") e) as [| | |o| | |]; try discriminate Ho. cbn in Hu, Ho.
      apply mem_false in Hu. apply mem_spec in Ho. f_equal. set_solver. }
    unfold settled_as. rewrite Hoc. exists (merge_row e (("outcome", PStr oc) :: rest)). split; [done|].
    assert (Hnew : pget_or "outcome" (PStr "pending") (merge_row e (("outcome", PStr oc) :: rest)) = PStr oc).
    { unfold pget_or. rewrite dget_merge_row; [done|]. unfold dkeys in *. cbn. constructor; [|done]. by apply dget_None. }
    unfold unresolved. rewrite Hnew. split; [|apply py_eq_refl]. by rewrite <- Hoc.
Qed.

(** ** What a mutation leaves alone *)

Lemma step_frame s s' : authority_step s s' ->
  operations s' = operations s /\ sequence s' = sequence s /\ pools s' = pools s /\ exists l, recovery s' = recovery s ++ l.
Proof.
  assert (Hnil : exists l, recovery s = recovery s ++ l) by (exists []; by rewrite app_nil_r).
  intros [r s1 me en inst rv H|kv s1 Hnd H|a i t kv s1 Ht H|a i l s1 Hl Hk H|k0 e H|k0 e g n o po inst ready rest He Hh Hg|k0 owner e h s1 He Hh H|k0 h h' H Hf|p|k0 e oc rest He Ho Hr Hnd|m i r|c|l pj];
    try done.
  - unfold bootstrap in H. by run H; subst.
  - unfold patch_entity in H. by run H; subst.
  - unfold change_row in H. by destruct t; run H; subst.
  - unfold change_table in H.
    apply (foldR_invariant (fun s2 => operations s2 = operations s /\ sequence s2 = sequence s /\ pools s2 = pools s
      /\ exists l, recovery s2 = recovery s ++ l) _ _ _ _) in H; [done| |done].
    intros kv s2 s3 _ (<- & <- & <- & Hr) Hc. unfold change_row in Hc. cbn [table_of set_table singular] in Hc. by run Hc; subst.
  - unfold finish_handoff in H. run H. subst. split_and!; [done|done|done|by eexists].
  - split_and!; [done|done|done|by eexists].
Qed.

Lemma mutate_frame m s r s' : json_mutation m -> mutate m s = Ok (r, s') ->
  operations s' = operations s /\ sequence s' = sequence s /\ pools s' = pools s /\ exists l, recovery s' = recovery s ++ l.
Proof.
  intros Hj H. apply mutate_steps in H; [|done].
  induction H as [s|s1 s2 s3 H12 H23 (-> & -> & -> & l & ->)]; [split_and!; [done..|exists []; by rewrite app_nil_r]|].
  apply step_frame in H12 as (-> & -> & -> & l' & ->). split_and!; [done..|]. exists (l' ++ l). by rewrite app_assoc.
Qed.

(** ** Pools *)

Definition within (s : GState) (pl : string * (Z * Z)) : Prop :=
  exists u m, sum_ints "units" (pool_rows s pl.1) = Ok u /\ u <= pl.2.1 /\ sum_ints "spend_micros" (pool_rows s pl.1) = Ok m /\ m <= pl.2.2.

Lemma check_pools_within s l u : check_pools s l = Ok u -> Forall (within s) l.
Proof.
  induction l as [|[pool [units spend]] l IH]; cbn; [constructor|]. intros H. run H. constructor; [|eauto].
  eexists _, _. split_and!; [done|by apply Z.ltb_ge|done|by apply Z.ltb_ge].
Qed.

(** Only [apply] writes reservations. *)
Lemma reservations_kept {A} (f : GState -> A -> result gerror GState) l s s' :
  (forall x s1 s2, f s1 x = Ok s2 -> reservations s2 = reservations s1) ->
  foldR f l s = Ok s' -> reservations s' = reservations s.
Proof.
  intros Hf H. apply (foldR_invariant (fun s1 => reservations s1 = reservations s) _ _ _ _) in H; [done| |done].
  intros x s1 s2 _ <-. apply Hf.
Qed.

Lemma stage_reservations k po s s' : stage_lifecycle_handoff k po s = Ok s' -> reservations s' = reservations s.
Proof. unfold stage_lifecycle_handoff. intros H. by run H; subst. Qed.

Lemma finish_reservations k o e h s s' : finish_handoff k o e h s = Ok s' -> reservations s' = reservations s.
Proof. unfold finish_handoff. intros H. by run H; subst. Qed.

Lemma vacate_reservations k s s' : vacate s k = Ok s' -> reservations s' = reservations s.
Proof. unfold vacate. intros H. run H. by eapply finish_reservations. Qed.

Lemma stage_all_reservations l s s' : stage_all l s = Ok s' -> reservations s' = reservations s.
Proof.
  revert s. induction l as [|k l IH]; intros s H; cbn in H; run H; subst; [done|].
  etrans; [by eapply IH|by eapply stage_reservations].
Qed.

Lemma inherit_reservations pr o acc x acc' : inherit_owner pr o acc x = Ok acc' -> reservations acc'.1 = reservations acc.1.
Proof.
  destruct acc as [s1 [af pe]]. unfold inherit_owner. cbn [fst]. intros H. run H; subst; cbn [fst]; try done.
  - etrans; [by eapply finish_reservations|by eapply stage_reservations].
  - by eapply stage_reservations.
Qed.

Lemma pools_mutate m s r s' :
  json_mutation m -> mutate m s = Ok (r, s') -> Forall (within s) (pools s) -> Forall (within s') (pools s').
Proof.
  intros Hj H. destruct (mutate_frame _ _ _ _ Hj H) as (_ & _ & Hp & _). rewrite Hp.
  assert (Hkeep : reservations s' = reservations s -> Forall (within s) (pools s) -> Forall (within s') (pools s)).
  { unfold within, pool_rows. by intros ->. }
  destruct m; cbn [mutate] in H.
  - apply Hkeep. unfold bootstrap in H. by run H; subst.
  - unfold apply_changes in H. run H. subst. intros _. rewrite <- Hp. by eapply check_pools_within.
  - apply Hkeep. unfold begin_handoff in H. by run H; subst.
  - apply Hkeep. unfold reconcile_inherited_task_owners in H. run H. subst.
    match goal with H : foldR _ _ _ = Ok _ |- _ =>
      apply (foldR_invariant (fun acc => reservations acc.1 = reservations s) _ _ _ _) in H; [done| |done] end.
    intros tid acc acc' _ <-. apply inherit_reservations.
  - apply Hkeep. unfold begin_member_authority_change in H. run H. subst. cbn. by eapply stage_all_reservations.
  - apply Hkeep. unfold begin_installation_revocation in H. run H; subst; cbn; by eapply stage_all_reservations.
  - apply Hkeep. unfold enroll_installation in H. by run H; subst.
  - apply Hkeep. unfold complete_authority_change in H. run H. subst. cbn.
    etrans; [|eapply reservations_kept; [|eassumption]; intros; by eapply vacate_reservations].
    match goal with H : context [is_str _ "member"] |- _ => destruct (is_str _ "member"); by run H; subst end.
  - apply Hkeep. unfold acknowledge_stop in H. by run H; subst.
  - apply Hkeep. unfold record_external_fence in H. by run H; subst.
  - apply Hkeep. unfold retain_late_evidence in H. by run H; subst.
  - apply Hkeep. unfold reconcile_effect in H. by run H; subst.
  - apply Hkeep. unfold complete_handoff in H. run H. subst. cbn. by eapply finish_reservations.
Qed.

(** ** Histories of accepted transactions *)

(** [_validate_history] over the commits listed after a checkpoint: each has the previous one as its
    only parent and the next sequence number.  A log row is a commit, its parents and its state. *)
Record log_row := { commit : string; parents : list string; contents : GState }.

Definition validate_row (acc : string * Z * option GState) (r : log_row) : result gerror (string * Z * option GState) :=
  let '(previous, seq, _) := acc in
  raise (GitCoordinationError "coordination history is not a single-parent chain")
    when (nonempty previous && negb (bool_decide (parents r = [previous]))) ;;
  raise (GitCoordinationError "coordination history has an unexpected root")
    when (negb (nonempty previous) && match parents r with [] => false | _ => true end) ;;
  raise (GitCoordinationError "coordination history sequence is corrupt") when (negb (sequence (contents r) =? seq + 1)) ;;
  Ok (commit r, sequence (contents r), Some (contents r)).

Definition validate_history (checkpoint : option (string * GState)) (rows : list log_row) : result gerror GState :=
  let start := match checkpoint with
               | Some (c, s) => (c, sequence s, Some s)
               | None => ("", -1, None)
               end in
  acc ← foldR validate_row rows start;
  match acc.2 with
  | Some s => Ok s
  | None => Err (GitCoordinationError "coordination history is empty")
  end.

(** The log of a linear ref, oldest first, where [oid] names the commit of each depth. *)
Section log.
Variable oid : nat -> string.

Fixpoint log (h : list GState) : list log_row :=
  match h with
  | [] => []
  | s :: h' => log h' ++ [{| commit := oid (List.length h'); contents := s;
                             parents := match List.length h' with O => [] | S n => [oid n] end |}]
  end.
End log.

Section histories.
Context (digest : pyval -> string).
Abbreviation tx := (string * mutation)%type.
Abbreviation history := (list GState).
Abbreviation next := (next_state digest).
Abbreviation accept := (accept digest).

(** What the ref holds after [initialize] and the transactions [evs]. *)
Definition after (evs : list tx) : history := foldl accept [empty_state] evs.
Definition json_txs (evs : list tx) : Prop := Forall (fun t => json_mutation t.2) evs.

Lemma next_mutate t s r s' : next t s = Ok (r, s') ->
  exists s1, mutate t.2 s = Ok (r, s1) /\ entities s' = entities s1 /\ claims s' = claims s1 /\ handoffs s' = handoffs s1
    /\ effects s' = effects s1 /\ reservations s' = reservations s1 /\ pools s' = pools s1 /\ sequence s' = sequence s1 + 1
    /\ operations s' = dset t.1 {| fingerprint := fingerprint_of digest t.2; op_inputs := inputs t.2; op_result := r |} (operations s1).
Proof.
  unfold next_state. intros H. apply bind_Ok in H as ([r1 s1] & Hm & [= <- <-]). exists s1. done.
Qed.

(** An invariant and a preorder of the mutations hold along every history, newest first. *)
Lemma history_rule (P : GState -> Prop) (R : GState -> GState -> Prop) h evs :
  (forall t s r s', json_mutation t.2 -> P s -> next t s = Ok (r, s') -> P s' /\ R s s') ->
  (forall s1 s2 s3, R s1 s2 -> R s2 s3 -> R s1 s3) ->
  Forall P h -> StronglySorted (fun a b => R b a) h -> json_txs evs ->
  Forall P (foldl accept h evs) /\ StronglySorted (fun a b => R b a) (foldl accept h evs).
Proof.
  intros Hstep Htr. revert h. induction evs as [|t evs IH]; intros h HP HR Hj; cbn; [done|].
  apply Forall_cons in Hj as [Ht Hj]. destruct h as [|s h]; cbn; [by apply IH|].
  destruct (dmem t.1 (operations s)); [by apply IH|].
  destruct (next t s) as [[r s']|] eqn:Hn; [|by apply IH].
  pose proof (Forall_inv HP) as Hs. destruct (Hstep _ _ _ _ Ht Hs Hn) as [Hs' Hss'].
  apply IH; [by constructor| |done]. constructor; [done|]. constructor; [done|].
  apply StronglySorted_inv in HR as [_ HR]. rewrite Forall_forall in HR |- *. intros x Hx. by eapply Htr; [apply HR|].
Qed.

Lemma authority_ok_empty : authority_ok empty_state.
Proof. by constructor; cbn; try apply NoDup_nil. Qed.

Lemma authority_ok_next t s r s' : json_mutation t.2 -> next t s = Ok (r, s') -> authority_ok s -> authority_ok s'.
Proof.
  intros Hj (s1 & Hm & He & Hc & Hh & _)%next_mutate Hok.
  eapply (authority_ok_frame s1); [done..|]. by eapply authority_ok_mutate.
Qed.

(** Along a history every commit is good and each entity is fenced. *)
Lemma history_fenced evs k : json_txs evs ->
  Forall authority_ok (after evs) /\ StronglySorted (fun a b => fenced_le b a k) (after evs).
Proof.
  apply history_rule.
  - intros t s r s' Hj Hs Hn. split; [by eapply authority_ok_next|].
    destruct (next_mutate _ _ _ _ Hn) as (s1 & Hm & He & _ & Hh & _).
    eapply fenced_le_trans; [by eapply fenced_mutate|]. by apply fenced_le_same; rewrite ?He, ?Hh.
  - intros s1 s2 s3. apply fenced_le_trans.
  - constructor; [apply authority_ok_empty|constructor].
  - repeat constructor.
Qed.

(** The operation records only grow, and an accepted operation is recorded once. *)
Definition recorded_le (s s' : GState) : Prop :=
  forall id o, dget id (operations s) = Some o -> dget id (operations s') = Some o.

Lemma recorded_next t s r s' : json_mutation t.2 -> dmem t.1 (operations s) = false -> next t s = Ok (r, s') -> recorded_le s s'.
Proof.
  intros Hj Hn (s1 & Hm & _ & _ & _ & _ & _ & _ & _ & Ho)%next_mutate id o Hid.
  destruct (mutate_frame _ _ _ _ Hj Hm) as (Hs1 & _). rewrite Ho, Hs1, dget_dset_ne; [done|].
  intros ->. unfold dmem in Hn. by rewrite Hid in Hn.
Qed.

Lemma accept_nonempty h t : h <> [] -> accept h t <> [].
Proof. destruct h; cbn; [done|]. intros _. by repeat case_match. Qed.

(** Accepting keeps what the head has recorded. *)
Lemma accept_records s h evs id o : json_txs evs -> dget id (operations s) = Some o ->
  exists s' h', foldl accept (s :: h) evs = s' :: h' /\ dget id (operations s') = Some o.
Proof.
  revert s h. induction evs as [|t evs IH]; intros s h Hj Ho; cbn; [eauto|].
  apply Forall_cons in Hj as [Ht Hj]. destruct (dmem t.1 (operations s)) eqn:Hm; [by apply IH|].
  destruct (next t s) as [[r s']|] eqn:Hn; [|by apply IH]. apply IH; [done|]. by eapply recorded_next.
Qed.

(** A ref that has not grown has not changed. *)
Lemma accept_length h t : accept h t = h \/ List.length (accept h t) = S (List.length h).
Proof. destruct h as [|s h]; cbn; [by left|]. destruct (dmem _ _); [by left|]. destruct (next t s) as [[r s']|]; [by right|by left]. Qed.

Lemma accepts_length h evs : foldl accept h evs = h \/ (List.length h < List.length (foldl accept h evs))%nat.
Proof.
  revert h. induction evs as [|t evs IH]; intros h; cbn; [by left|].
  destruct (accept_length h t) as [->|Hl]; [done|]. destruct (IH (accept h t)) as [->|Hl']; right; lia.
Qed.

Lemma cas_wins_same h evs : cas_wins h (foldl accept h evs) = true -> foldl accept h evs = h.
Proof. unfold cas_wins. intros H%Nat.eqb_eq. destruct (accepts_length h evs); [done|lia]. Qed.

(** Pushing a candidate computed at the head is accepting its transaction. *)
Lemma cas_accept s h evs t r s' :
  dmem t.1 (operations s) = false -> next t s = Ok (r, s') ->
  let h1 := foldl accept (s :: h) evs in
  cas (s :: h) h1 s' = (if cas_wins (s :: h) h1 then accept h1 t else h1).
Proof.
  intros Hm Hn. cbn zeta. unfold cas, cas_wins.
  destruct (_ =? _)%nat eqn:Hw; [|done]. rewrite (cas_wins_same _ _ Hw). cbn. by rewrite Hm, Hn.
Qed.

(** *** Shared facts of [transact] *)

(** The reply to an operation that [s] records. *)
Definition recorded (s : GState) (t : tx) (result : pyval) : Prop :=
  exists o, dget t.1 (operations s) = Some o /\ fingerprint o = fingerprint_of digest t.2 /\ op_result o = result.

(** How one call changed the ref: what other installations committed before and after its own
    commit, if it landed. *)
Definition outcome_of (h : history) (t : tx) (retries : list attempt) (h' : history) (own : bool) : Prop :=
  exists pre post,
    h' = foldl accept (if own then accept (foldl accept h pre) t else foldl accept h pre) post
    /\ (own = true -> List.length (accept (foldl accept h pre) t) = S (List.length (foldl accept h pre)))
    /\ Forall (fun e => exists a, a ∈ retries /\ (e ∈ others a \/ e ∈ later a)) (pre ++ post).

Lemma outcome_none h t retries : outcome_of h t retries h false.
Proof. exists [], []. by split_and!. Qed.

Lemma outcome_mono h t a retries h' own : outcome_of (foldl accept h (others a)) t retries h' own -> outcome_of h t (a :: retries) h' own.
Proof.
  intros (pre & post & -> & Hl & Hf). exists (others a ++ pre), post. rewrite foldl_app. split_and!; [done|done|].
  rewrite <- app_assoc. apply Forall_app. split; [apply Forall_forall|eapply Forall_impl; [done|]].
  - intros e He. exists a. split; [by left|by left].
  - intros e (a' & Ha & He). exists a'. split; [by right|done].
Qed.

Lemma outcome_push h t a retries s s' r lt own :
  head h = Some s -> dmem t.1 (operations s) = false -> next t s = Ok (r, s') ->
  own = cas_wins h (foldl accept h (others a)) -> (lt = [] \/ lt = later a) ->
  outcome_of h t (a :: retries) (foldl accept (cas h (foldl accept h (others a)) s') lt) own.
Proof.
  intros Hs Hm Hn -> Hlt. destruct h as [|s0 h0]; [done|]. injection Hs as ->.
  exists (others a), lt. rewrite (cas_accept _ _ _ _ _ _ Hm Hn). split_and!; [by destruct (cas_wins _ _)| |].
  - intros Hw. rewrite (cas_wins_same _ _ Hw). cbn. by rewrite Hm, Hn.
  - apply Forall_forall. intros e He. exists a. split; [by left|]. apply elem_of_app in He as [He|He]; [by left|].
    destruct Hlt as [-> | ->]; [by apply elem_of_nil in He|by right].
Qed.

Lemma outcome_lost h t a retries lt : (lt = [] \/ lt = later a) -> outcome_of h t (a :: retries) (foldl accept (foldl accept h (others a)) lt) false.
Proof.
  intros Hlt. exists (others a), lt. split_and!; [done|done|].
  apply Forall_forall. intros e He. exists a. split; [by left|]. apply elem_of_app in He as [He|He]; [by left|].
  destruct Hlt as [-> | ->]; [by apply elem_of_nil in He|by right].
Qed.

(** The transactions of other installations are JSON. *)
Definition json_attempts (retries : list attempt) : Prop := Forall (fun a => json_txs (later a)) retries.

(** What a reply says of the ref it was given for. *)
Definition reply_ok (h' : history) (t : tx) (own : bool) (obligation : option string) (res : result gerror accepted) : Prop :=
  match res with
  | Ok a => (exists s, head h' = Some s /\ recorded s t (acc_result a)) /\ (acc_replayed a = false -> own = true) /\ obligation = None
  | Err _ => own = true -> obligation = Some (fingerprint_of digest t.2)
  end.

(** Resolving an operation after an unanswered push: [h3] is what the second read sees. *)
Lemma resolve_ok (h3 : history) t own :
  (own = true -> exists s r, head h3 = Some s /\ recorded s t r) ->
  let res := match (match h3 with s3 :: _ => dget t.1 (operations s3) | [] => None end) with
             | Some acc => if bool_decide (fingerprint acc = fingerprint_of digest t.2)
                           then (h3, None, Ok {| acc_result := op_result acc; acc_replayed := true |})
                           else (h3, None, Err push_error)
             | None => (h3, None, Err push_error)
             end in
  res.1.1 = h3 /\ reply_ok h3 t own res.1.2 res.2.
Proof.
  intros Hown. cbn zeta. destruct h3 as [|s3 h3]; [split; [done|]; intros Ho; by destruct (Hown Ho) as (? & ? & ? & _)|].
  destruct (dget t.1 (operations s3)) as [o|] eqn:Hd; [case_bool_decide as Hf|]; (split; [done|]).
  - split_and!; [|done|done]. exists s3. split; [done|]. by exists o.
  - intros Ho. destruct (Hown Ho) as (? & ? & [= <-] & o' & Ho' & Hf' & _). congruence.
  - intros Ho. destruct (Hown Ho) as (? & ? & [= <-] & o' & Ho' & _). congruence.
Qed.

Lemma transact_loop_ok retries obl h t :
  json_attempts retries ->
  exists own, let '(h', obl', res) := transact_loop digest retries obl h t in
    outcome_of h t retries h' own /\ reply_ok h' t own obl' res.
Proof.
  revert obl h. induction retries as [|a rest IH]; intros obl h Hj; cbn [transact_loop].
  { exists false. split; [apply outcome_none|done]. }
  destruct h as [|s h0]; [exists false; split; [apply outcome_none|done]|]. set (h := s :: h0).
  destruct (readable a); cbn [negb]; [|exists false; split; [apply outcome_none|done]].
  destruct (dget t.1 (operations s)) as [old|] eqn:Hold.
  { case_bool_decide as Hfp; (exists false; split; [apply outcome_none|]); [|done].
    split_and!; [|done|done]. exists s. split; [done|]. by exists old. }
  destruct (stale_obligation obl _); [exists false; split; [apply outcome_none|done]|].
  destruct (next t s) as [[r s']|e] eqn:Hn; [|exists false; split; [apply outcome_none|done]].
  assert (Hm : dmem t.1 (operations s) = false) by (unfold dmem; by rewrite Hold).
  assert (Hrec : recorded s' t r).
  { destruct (next_mutate _ _ _ _ Hn) as (s1 & _ & _ & _ & _ & _ & _ & _ & _ & Ho).
    unfold recorded. rewrite Ho. eexists. by rewrite dget_dset_eq. }
  apply Forall_cons in Hj as [Hja Hj]. destruct (push a).
  - destruct (cas_wins h _) eqn:Hw.
    + exists true. split; [by apply (outcome_push h t a rest s s' r []); [..|left]|].
      split_and!; [|done|done]. exists s'. split; [|done]. unfold cas. unfold cas_wins in Hw. by rewrite Hw.
    + destruct rest as [|a' rest']; [exists false; split; [|done]; apply outcome_mono, outcome_none|].
      destruct (IH None (foldl accept h (others a)) Hj) as [own Hown]. exists own.
      destruct (transact_loop digest (a' :: rest') None (foldl accept h (others a)) t) as [[h' obl'] res].
      destruct Hown as [Ho Hr]. split; [by apply outcome_mono|done].
  - set (h1 := foldl accept h (others a)). set (h3 := foldl accept (cas h h1 s') (later a)).
    exists (cas_wins h h1).
    assert (Ho : outcome_of h t (a :: rest) h3 (cas_wins h h1)) by (apply (outcome_push h t a rest s s' r); [done..|by right]).
    destruct (rereadable a); cbn [negb]; [|split; [done|by intros _]].
    destruct (resolve_ok h3 t (cas_wins h h1)) as [Hh3 Hr].
    { intros Hw. unfold h3, cas. unfold cas_wins in Hw. rewrite Hw. destruct Hrec as (o & Hro & Hf & Hres).
      destruct (accept_records s' h1 (later a) t.1 o Hja Hro) as (s3 & h3' & -> & Hd). exists s3, r. split; [done|]. by exists o. }
    destruct (match _ with Some _ => _ | None => _ end) as [[h4 o4] r4]. cbn in Hh3, Hr. by subst h4.
  - set (h1 := foldl accept h (others a)). set (h3 := foldl accept h1 (later a)).
    exists false.
    assert (Ho : outcome_of h t (a :: rest) h3 false) by (apply outcome_lost; by right).
    destruct (rereadable a); cbn [negb]; [|split; [done|by intros ?]].
    destruct (resolve_ok h3 t false) as [Hh3 Hr]; [done|].
    destruct (match _ with Some _ => _ | None => _ end) as [[h4 o4] r4]. cbn in Hh3, Hr. by subst h4.
Qed.

Lemma transact_ok retries obl h t :
  json_attempts retries ->
  exists own, let '(h', obl', res) := transact digest retries obl h t in
    outcome_of h t retries h' own /\ reply_ok h' t own obl' res.
Proof.
  intros Hj. unfold transact. destruct (_ || _); [exists false; split; [apply outcome_none|done]|].
  by apply transact_loop_ok.
Qed.

(** Once recorded, an operation is answered from the record. *)
Lemma transact_replays retries a obl s h t res :
  recorded s t res -> readable a = true -> nonempty t.1 = true -> (Z.of_nat (String.length t.1) <= 200) ->
  transact digest (a :: retries) obl (s :: h) t = (s :: h, None, Ok {| acc_result := res; acc_replayed := true |}).
Proof.
  intros (o & Ho & Hf & Hr) Ha Hn Hl. unfold transact. rewrite Hn. cbn [negb orb].
  destruct (200 <? _) eqn:Hlt; [lia|]. cbn. rewrite Ha, Ho, bool_decide_eq_true_2 by done. cbn. by rewrite Hr.
Qed.

Lemma recorded_accepts s h evs t res : json_txs evs -> recorded s t res ->
  exists s' h', foldl accept (s :: h) evs = s' :: h' /\ recorded s' t res.
Proof.
  intros Hj (o & Ho & Hf). destruct (accept_records s h evs t.1 o Hj Ho) as (s' & h' & -> & Ho').
  exists s', h'. split; [done|]. by exists o.
Qed.

(** *** Sequence numbers *)

Definition sequenced (h : history) : Prop := forall newer s older, h = newer ++ s :: older -> sequence s = Z.of_nat (List.length older).

Lemma sequenced_cons s h : sequence s = Z.of_nat (List.length h) -> sequenced h -> sequenced (s :: h).
Proof. intros Hs Hh [|x newer] s' older Heq; cbn in Heq; simplify_eq; [done|by eapply Hh]. Qed.

Lemma sequenced_after evs : json_txs evs -> sequenced (after evs).
Proof.
  unfold after. assert (H0 : sequenced [empty_state]) by (apply sequenced_cons; [done|by intros [|]]).
  revert H0. generalize [empty_state]. induction evs as [|t evs IH]; intros h Hh Hj; cbn; [done|].
  apply Forall_cons in Hj as [Ht Hj]. apply IH; [|done]. destruct h as [|s h]; cbn; [done|].
  destruct (dmem t.1 (operations s)); [done|]. destruct (next t s) as [[r s']|] eqn:Hn; [|done].
  apply sequenced_cons; [|done]. destruct (next_mutate _ _ _ _ Hn) as (s1 & Hm & _ & _ & _ & _ & _ & _ & Hsq & _).
  destruct (mutate_frame _ _ _ _ Ht Hm) as (_ & Hs1 & _). rewrite Hsq, Hs1, (Hh [] s h) by done. cbn [List.length]. lia.
Qed.

Lemma after_nonempty evs : after evs <> [].
Proof.
  unfold after. assert (H : [empty_state] <> []) by done. revert H. generalize [empty_state].
  induction evs as [|t evs IH]; intros h Hh; cbn; [done|]. apply IH. by apply accept_nonempty.
Qed.

Lemma length_log oid (h : history) : List.length (log oid h) = List.length h.
Proof. induction h as [|s h IH]; cbn; [done|]. rewrite length_app, IH. cbn. lia. Qed.

Lemma log_app oid (newer older : history) : exists rows, log oid (newer ++ older) = log oid older ++ rows.
Proof.
  induction newer as [|s newer [rows IH]]; cbn; [exists []; by rewrite app_nil_r|].
  rewrite IH. rewrite <- app_assoc. by eexists.
Qed.

(** Validating the log of a sequenced history ends at its head. *)
Lemma validate_log oid s (h : history) :
  (forall n, nonempty (oid n) = true) -> sequenced (s :: h) ->
  foldR validate_row (log oid (s :: h)) ("", -1, None) = Ok (oid (List.length h), sequence s, Some s).
Proof.
  intros Hoid. revert s. induction h as [|s0 h IH]; intros s Hs.
  - cbn. pose proof (Hs [] s [] eq_refl) as H0. cbn in H0. by rewrite H0.
  - assert (Hs0 : sequenced (s0 :: h)) by (intros newer x older Heq; apply (Hs (s :: newer)); cbn; by rewrite Heq).
    cbn [log]. change (log oid h ++ _) with (log oid (s0 :: h)). rewrite foldR_app, (IH s0 Hs0).
    pose proof (Hs [] s (s0 :: h) eq_refl) as H1. pose proof (Hs0 [] s0 h eq_refl) as H2. cbn [List.length] in H1.
    cbn. rewrite Hoid. cbn. rewrite bool_decide_eq_true_2 by done. cbn.
    destruct (sequence s =? sequence s0 + 1) eqn:Hq; [done|]. apply Z.eqb_neq in Hq. lia.
Qed.

(** The generation in force is the entity's. *)
Lemma effective_of_entity s k e g : authority_ok s -> dget k (entities s) = Some e -> generation e = Ok g -> effective_generation s k = Some g.
Proof.
  intros Hok He Hg. unfold effective_generation. destruct (dget k (handoffs s)) as [h|] eqn:Hh; [|by rewrite He, Hg].
  destruct (ok_handoff _ Hok k h Hh) as (e0 & He0 & _ & g0 & -> & Hg0). f_equal. symmetry. apply Hg0. congruence.
Qed.

(** Two commits of a history, the later one nearer its head. *)
Lemma sorted_app_pair (R : GState -> GState -> Prop) newer s' mid s (older : history) :
  StronglySorted (fun a b => R b a) (newer ++ s' :: mid ++ s :: older) -> R s s'.
Proof.
  induction newer as [|x newer IH]; cbn; intros [Hs Hf]%StronglySorted_inv; [|auto].
  rewrite Forall_forall in Hf. apply Hf. set_solver.
Qed.

(** *** Theorems *)

(** C15.  A transaction takes effect at most once, as one indivisible step of the shared history,
    whatever the other installations commit around it and however the transport fails: the ref
    becomes what accepting the others' transactions, this one at most once, and the others' again
    gives.  A successful reply carries the result recorded at the head of the ref; a failed one means
    that nothing of this call was committed, or else the pending-push obligation is on disk. *)
Theorem transact_linearizes retries obl h t :
  json_attempts retries ->
  exists (own : bool) (pre post : list tx), let '(h', obl', res) := transact digest retries obl h t in
    h' = foldl accept (if own then accept (foldl accept h pre) t else foldl accept h pre) post
    /\ Forall (fun e => exists a, a ∈ retries /\ (e ∈ others a \/ e ∈ later a)) (pre ++ post)
    /\ (own = true -> List.length (accept (foldl accept h pre) t) = S (List.length (foldl accept h pre)))
    /\ match res with
       | Ok a => (exists s, head h' = Some s /\ recorded s t (acc_result a)) /\ (acc_replayed a = false -> own = true) /\ obl' = None
       | Err _ => own = true -> obl' = Some (fingerprint_of digest t.2)
       end.
Proof.
  intros Hj. destruct (transact_ok retries obl h t Hj) as [own Hown]. exists own.
  destruct (transact digest retries obl h t) as [[h' obl'] res]. destruct Hown as [(pre & post & Hh & Hl & Hf) Hr].
  by exists pre, post.
Qed.

(** Retrying an accepted operation is safe for ever: whatever is committed afterwards, a later
    call with the same operation id and inputs whose read succeeds returns the result of the first
    call, marked as a replay, and commits nothing. *)
Theorem accepted_operation_replays retries obl h t h' obl' a evs again rest obl'' :
  json_attempts retries -> json_txs evs -> readable again = true ->
  nonempty t.1 = true -> Z.of_nat (String.length t.1) <= 200 ->
  transact digest retries obl h t = (h', obl', Ok a) ->
  transact digest (again :: rest) obl'' (foldl accept h' evs) t
  = (foldl accept h' evs, None, Ok {| acc_result := acc_result a; acc_replayed := true |}).
Proof.
  intros Hj Hje Hag Hn Hl Ht. destruct (transact_ok retries obl h t Hj) as [own Hown]. rewrite Ht in Hown.
  destruct Hown as [_ ((s & Hs & Hr) & _)]. destruct h' as [|s0 h0]; [done|]. injection Hs as ->.
  destruct (recorded_accepts s h0 evs t _ Hje Hr) as (s' & h1 & -> & Hr'). by apply transact_replays.
Qed.

(** The history check accepts every history this coordinator can produce, from the root and from
    any checkpoint in it, and returns the state at the head: validating only what follows an accepted
    checkpoint loses nothing. *)
Theorem history_validates (oid : nat -> string) evs newer s older :
  (forall n, nonempty (oid n) = true) -> json_txs evs -> after evs = newer ++ s :: older ->
  let rows := log oid (after evs) in
  validate_history None rows = Ok (hd empty_state (after evs))
  /\ validate_history (Some (oid (List.length older), s)) (drop (S (List.length older)) rows) = Ok (hd empty_state (after evs)).
Proof.
  intros Hoid Hj Hsplit. cbn zeta. pose proof (sequenced_after evs Hj) as Hseq.
  destruct (after evs) as [|s1 h1] eqn:Ha; [by destruct (after_nonempty evs)|]. unfold validate_history. cbn [hd].
  pose proof (validate_log oid s1 h1 Hoid Hseq) as Hfull. split; [by rewrite Hfull|].
  destruct (log_app oid newer (s :: older)) as [rows Hrows]. rewrite Hsplit in Hfull |- *. rewrite Hrows in Hfull |- *.
  rewrite foldR_app, (validate_log oid s older Hoid) in Hfull
    by (intros newer' x older' Heq; apply (Hseq (newer ++ newer')); rewrite Hsplit, Heq; by rewrite <- app_assoc).
  replace (S (List.length older)) with (List.length (log oid (s :: older))) by apply length_log.
  rewrite drop_app_length. cbn [mbind result_bind] in Hfull. by rewrite Hfull.
Qed.

(** In every commit of every history, a claim is held by the member that its entity names as
    owner, at the entity's generation, and an entity with a pending hand-off is draining and keeps
    the generation the hand-off started from: two installations never hold authority over the same
    entity, and no claim outlives the authority it was admitted under. *)
Theorem claims_follow_authority evs :
  json_txs evs ->
  Forall (fun s =>
    NoDup (dkeys (claims s))
    /\ (forall k c, dget k (claims s) = Some c -> exists e, dget k (entities s) = Some e
         /\ pget "actor" c = pget "owner_id" c /\ py_eq (pget "owner_id" c) (pget "owner" e) = true
         /\ (forall g g', row_int "authority_generation" (-1) c = Ok g -> row_int "authority_generation" (-1) e = Ok g' -> g = g'))
    /\ (forall k h, dget k (handoffs s) = Some h -> exists e g, dget k (entities s) = Some e
         /\ truthy (pget "draining" e) = true /\ pget "from_generation" h = PInt g
         /\ (forall g', generation e = Ok g' -> g' = g))) (after evs).
Proof.
  intros Hj. destruct (history_fenced evs "" Hj) as [Hok _]. eapply Forall_impl; [exact Hok|]. cbn.
  intros s [_ Hcl _ Hc Hh]. split_and!; [done| |].
  - intros k c Hk. destruct (Hc k c Hk) as (e & He & Ho & Ha & Hg). by exists e.
  - intros k h Hk. destruct (Hh k h Hk) as (e & He & Hd & g & Hg & Hgg). by exists e, g.
Qed.

(** Fencing across the whole history: an entity never disappears, its authority generation
    never decreases, and its owner never changes without a larger generation. *)
Theorem generations_fence evs newer s' mid s older k e g :
  json_txs evs -> after evs = newer ++ s' :: mid ++ s :: older ->
  dget k (entities s) = Some e -> generation e = Ok g ->
  exists e', dget k (entities s') = Some e'
    /\ forall g', generation e' = Ok g' -> g < g' \/ (g = g' /\ py_eq (pget "owner" e') (pget "owner" e) = true).
Proof.
  intros Hj Hsplit He Hg. destruct (history_fenced evs k Hj) as [Hok Hs]. rewrite Hsplit in Hok, Hs.
  assert (Hss : fenced_le s s' k /\ authority_ok s /\ authority_ok s').
  { split; [by eapply (sorted_app_pair (fun a b => fenced_le a b k))|rewrite Forall_forall in Hok; split; apply Hok; set_solver]. }
  destruct Hss as (Hle & Hoks & Hoks'). destruct (Hle (ex_intro _ e He)) as [[e' He'] Hgen]. exists e'. split; [done|].
  intros g' Hg'. rewrite (effective_of_entity s k e g), (effective_of_entity s' k e' g') in Hgen by done.
  unfold owner_of in Hgen. by rewrite He, He' in Hgen.
Qed.

(** Evidence of a provider effect is permanent: once an effect has a settled outcome, no later
    transaction of any history removes it or changes that outcome. *)
Theorem effects_permanent evs newer s' mid s older x e :
  json_txs evs -> after evs = newer ++ s' :: mid ++ s :: older ->
  dget x (effects s) = Some e -> unresolved e = false ->
  exists e', dget x (effects s') = Some e' /\ unresolved e' = false
    /\ py_eq (pget_or "outcome" (PStr "pending") e') (pget_or "outcome" (PStr "pending") e) = true.
Proof.
  intros Hj Hsplit He Hu.
  assert (Hs : StronglySorted (fun a b => effects_le b a) (after evs)).
  { eapply (history_rule (fun _ => True)); [|apply effects_le_trans|by repeat constructor|by repeat constructor|done].
    intros t s0 r s1 Ht _ Hn. split; [done|]. destruct (next_mutate _ _ _ _ Hn) as (s2 & Hm & _ & _ & _ & Hef & _).
    apply mutate_steps in Hm; [|done]. eapply effects_le_trans; [|by apply effects_le_refl].
    clear Hn Hef. induction Hm as [s0|s0 s3 s4 H12 _ IH]; [by apply effects_le_refl|].
    eapply effects_le_trans; [by eapply effects_le_step|done]. }
  rewrite Hsplit in Hs. by apply (sorted_app_pair _ _ _ _ _ _ Hs x e).
Qed.

(** Shared concurrency and budget limits hold in every state the ref reaches from one that
    respects them: no interleaving of transactions reserves more than a pool's limits. *)
Theorem pools_bounded s evs :
  json_txs evs -> Forall (within s) (pools s) ->
  Forall (fun s' => pools s' = pools s /\ Forall (fun pl => exists u m,
      sum_ints "units" (pool_rows s' pl.1) = Ok u /\ u <= pl.2.1
      /\ sum_ints "spend_micros" (pool_rows s' pl.1) = Ok m /\ m <= pl.2.2) (pools s')) (foldl accept [s] evs).
Proof.
  intros Hj Hs.
  eapply (history_rule (fun s' => pools s' = pools s /\ Forall (within s') (pools s')) (fun _ _ => True));
    [|done|by repeat constructor|by repeat constructor|done].
  intros t s0 r s1 Ht [Hp Hw] Hn. split; [|done].
  destruct (next_mutate _ _ _ _ Hn) as (s2 & Hm & _ & _ & _ & _ & Hre & Hp2 & _).
  destruct (mutate_frame _ _ _ _ Ht Hm) as (_ & _ & Hp3 & _). split; [congruence|].
  assert (Hs2 : Forall (within s2) (pools s2)) by by eapply pools_mutate. rewrite Hp2.
  eapply Forall_impl; [exact Hs2|]. intros pl. unfold within, pool_rows. by rewrite Hre.
Qed.
End histories.

(** ** Completing a hand-off *)

Lemma blockers_nil s k : handoff_blockers s k = [] ->
  (forall x r, (x, r) ∈ effects s -> is_str (pget "scope" r) k = true -> unresolved r = false)
  /\ (forall c x p, dget k (claims s) = Some c -> (x, p) ∈ permits s -> py_eq (pget "claim" p) (pget "operation_id" c) = true ->
        in_strs (pget_or "status" (PStr "pending") p) ["terminal"; "fenced"] = true \/ unresolved (default [] (dget x (effects s))) = false).
Proof.
  unfold handoff_blockers. intros Hn.
  assert (Hno : forall y l, y ∈ l -> sorted_set l <> []) by (intros y l Hy Hl; apply elem_of_sorted_set in Hy; rewrite Hl in Hy; by apply elem_of_nil in Hy).
  split.
  - intros x r Hin Hsc. apply not_true_is_false. intros Hu. revert Hn. apply (Hno x). apply elem_of_app. right.
    apply list_elem_of_fmap. exists (x, r). split; [done|]. apply list_elem_of_In, filter_In. rewrite <- list_elem_of_In. cbn [snd]. by rewrite Hsc, Hu.
  - intros c x p Hc Hin Hcl. destruct (in_strs _ _) eqn:Hst; [by left|right]. apply not_true_is_false. intros Hu.
    revert Hn. apply (Hno x). apply elem_of_app. left.
    apply list_elem_of_fmap. exists (x, p). split; [done|]. apply list_elem_of_In, filter_In. rewrite <- list_elem_of_In.
    cbn [fst snd]. unfold claim_operations. rewrite Hc. cbn [existsb]. by rewrite Hcl, Hst, Hu.
Qed.

(** A hand-off is completed only when the prior side has stopped or been fenced, no effect on the
    entity is unresolved and no permit of its claim can still act; the new owner then holds the next
    generation, the old claim and the hand-off are gone, and the hand-off is kept as evidence. *)
Theorem handoff_completion actor installation k s r s' :
  authority_ok s -> complete_handoff actor installation k s = Ok (r, s') ->
  exists h e e', dget k (handoffs s) = Some h /\ dget k (entities s) = Some e /\ dget k (entities s') = Some e'
    /\ (truthy (pget "stop_acknowledged" h) = true \/ truthy (pget "external_fence" h) = true)
    /\ (forall x f, (x, f) ∈ effects s -> is_str (pget "scope" f) k = true -> unresolved f = false)
    /\ (forall c x p, dget k (claims s) = Some c -> (x, p) ∈ permits s -> py_eq (pget "claim" p) (pget "operation_id" c) = true ->
          in_strs (pget_or "status" (PStr "pending") p) ["terminal"; "fenced"] = true \/ unresolved (default [] (dget x (effects s))) = false)
    /\ pget "owner" e' = PStr (py_str (pget "pending_owner" h)) /\ pget "draining" e' = PBool false
    /\ (exists g, pget "from_generation" h = PInt g /\ pget "authority_generation" e' = PInt (g + 1))
    /\ dget k (claims s') = None /\ dget k (handoffs s') = None
    /\ recovery s' = recovery s ++ [PDict (handoff_log k h)]
    /\ (forall k', k' <> k -> dget k' (entities s') = dget k' (entities s) /\ dget k' (claims s') = dget k' (claims s)
                            /\ dget k' (handoffs s') = dget k' (handoffs s)).
Proof.
  intros Hok H. unfold complete_handoff in H. run H. subst. guards.
  match goal with H : real _ = Some _ |- _ => apply real_Some in H; rename H into Hh end.
  match goal with H : dget k (entities s) = Some ?e |- _ => rename H into He end.
  match goal with H : finish_handoff _ _ _ _ _ = _ |- _ => unfold finish_handoff in H; run H; subst end.
  match goal with H1 : handed_over ?e ?h ?o = Ok ?a, H2 : handed_over ?e ?h ?o = Ok ?b |- _ =>
    assert (a = b) by congruence; subst b; clear H2; rename H1 into Ho end.
  destruct (blockers_nil s k) as [Hbe Hbp]; [by destruct (handoff_blockers s k)|].
  destruct (ok_handoff _ Hok _ _ Hh) as (e0 & _ & _ & g & Hg & _).
  unfold handed_over in Ho. run Ho. subst.
  eexists _, _, _. split_and!; [exact Hh|reflexivity|cbn; apply dget_dset_eq|..]; cbn.
  - unfold released in *. by apply orb_true_iff.
  - done.
  - done.
  - unfold pget. by rewrite 4!dget_dset_ne, dget_dset_eq.
  - unfold pget. by rewrite 2!dget_dset_ne, dget_dset_eq.
  - exists g. split; [done|]. unfold pget. rewrite 3!dget_dset_ne, dget_dset_eq by done. cbn. repeat f_equal.
    match goal with H : row_int "from_generation" 0 _ = Ok _ |- _ => rename H into Hr end.
    unfold row_int, pget_or in Hr. unfold pget in Hg. by destruct (dget "from_generation" _); cbn in *; simplify_eq; cbn in Hr; injection Hr.
  - apply dget_ddel_eq, Hok.
  - apply dget_ddel_eq, Hok.
  - done.
  - intros k' Hne. by rewrite dget_dset_ne, !dget_ddel_ne.
Qed.

(** ** Witnesses *)

Module Garden.
(** A garden with an administrator and an executor, one task, and its life up to a hand-off. *)
Definition member (role : string) : row :=
  [("active", PBool true); ("role", PStr role); ("project_visibility", PStr "all")].
Definition key : string := "task:garden/t1".
Definition task : row :=
  [("kind", PStr "task"); ("scope", PStr "garden/t1"); ("project", PStr "garden"); ("owner", PStr "alice");
   ("authority_generation", PInt 1); ("version", PInt 1)].
Definition changes0 : Changes := {| ch_entities := []; ch_claims := []; ch_permits := []; ch_effects := []; ch_reservations := [] |}.
Definition boot : string * mutation :=
  ("boot", Bootstrap [("alice", member "admin"); ("bob", member "member")] [(key, task)]
             [("laptop", PStr "alice"); ("desk", PStr "bob")] []).
Definition claim : string * mutation :=
  ("claim", Apply "alice" "laptop" [(key, 1)]
    {| ch_entities := [(key, [("title", PStr "renamed")])];
       ch_claims := [(key, Some [("operation_id", PStr "run-1"); ("kind", PStr "task"); ("scope", PStr "garden/t1");
                                 ("owner_id", PStr "alice"); ("authority_generation", PInt 1)])];
       ch_permits := [("run-1", Some [("claim", PStr "run-1")])];
       ch_effects := [("run-1", Some [("claim", PStr "run-1"); ("scope", PStr key)])];
       ch_reservations := [("run-1", Some [("pool", PStr "shared"); ("units", PInt 1)])] |}).
Definition settle : string * mutation := ("settle", ReconcileEffect "alice" "laptop" "run-1" "succeeded" []).
Definition begin : string * mutation := ("begin", BeginHandoff "alice" "laptop" key 2 "bob" PNone PNone).
Definition stop : string * mutation := ("stop", AcknowledgeStop "alice" "laptop" key).
Definition finish : string * mutation := ("finish", CompleteHandoff "bob" "desk" key).
Definition life : list (string * mutation) := [boot; claim; settle; begin; stop; finish].
Definition quiet : attempt := {| readable := true; others := []; push := Delivered; later := []; rereadable := true |}.
(** The acknowledgement of the push is lost while [settle] is committed by another installation. *)
Definition lost : attempt := {| readable := true; others := []; push := AckLost; later := [settle]; rereadable := true |}.
Definition raced : attempt := {| readable := true; others := [claim]; push := Delivered; later := []; rereadable := true |}.

Lemma life_json : json_txs life.
Proof.
  unfold json_txs, life. repeat (apply Forall_cons; split); try apply Forall_nil; try exact I. cbn.
  repeat (apply Forall_cons || split); try apply Forall_nil; try exact I; cbn; try intros r [= <-]; by apply (bool_decide_unpack _).
Defined.
End Garden.

Example garden_life :
  map sequence (after py_repr Garden.life) = [6; 5; 4; 3; 2; 1; 0]
  /\ match after py_repr Garden.life with
     | s :: _ => (pget "owner" <$> dget Garden.key (entities s), pget "authority_generation" <$> dget Garden.key (entities s), claims s, handoffs s)
                 = (Some (PStr "bob"), Some (PInt 2), [], [])
     | [] => False
     end.
Proof. vm_compute. done. Qed.

Definition states : list GState := after py_repr Garden.life.
Definition state (n : nat) : GState := default empty_state (states !! n).
(** [claim]'s commit, then the commits after it. *)
Lemma states_split : after py_repr Garden.life = [] ++ state 0 :: take 3 (drop 1 states) ++ state 4 :: drop 5 states.
Proof. vm_compute. reflexivity. Defined.

Lemma transact_linearizes_witness :
  json_attempts [Garden.raced; Garden.lost]
  /\ exists (own : bool) (pre post : list (string * mutation)),
    let '(h', obl', res) := transact py_repr [Garden.raced; Garden.lost] None (after py_repr [Garden.boot]) ("note", LateEvidence "alice" "laptop" Garden.key 0 "e" []) in
    h' = foldl (accept py_repr) (if own then accept py_repr (foldl (accept py_repr) (after py_repr [Garden.boot]) pre) ("note", LateEvidence "alice" "laptop" Garden.key 0 "e" [])
                                 else foldl (accept py_repr) (after py_repr [Garden.boot]) pre) post.
Proof.
  assert (Hj : json_attempts [Garden.raced; Garden.lost]).
  { pose proof Garden.life_json as H. unfold json_txs, Garden.life in H. rewrite !Forall_cons in H. destruct H as (_ & _ & H & _).
    constructor; [constructor|]. constructor; [|constructor]. cbn. constructor; [exact H|constructor]. }
  split; [exact Hj|].
  pose proof (transact_linearizes py_repr [Garden.raced; Garden.lost] None (after py_repr [Garden.boot]) ("note", LateEvidence "alice" "laptop" Garden.key 0 "e" []) Hj)
    as (own & pre & post & H).
  exists own, pre, post. destruct (transact _ _ _ _ _) as [[h' obl'] res]. exact (proj1 H).
Defined.

(** The scenario's push is lost to a race, retried, accepted and its acknowledgement lost. *)
Example transact_scenario :
  (transact py_repr [Garden.raced; Garden.lost] None (after py_repr [Garden.boot]) ("note", LateEvidence "alice" "laptop" Garden.key 0 "e" [])).2
  = Ok {| acc_result := PDict [("retained", PStr "e"); ("applied", PBool false)]; acc_replayed := true |}.
Proof. vm_compute. reflexivity. Qed.

Lemma accepted_operation_replays_witness :
  transact py_repr [Garden.quiet] None
    (foldl (accept py_repr) (transact py_repr [Garden.quiet] None (after py_repr [Garden.boot]) Garden.claim).1.1 [Garden.settle]) Garden.claim
  = (foldl (accept py_repr) (transact py_repr [Garden.quiet] None (after py_repr [Garden.boot]) Garden.claim).1.1 [Garden.settle], None,
     Ok {| acc_result := PDict [("sequence", PInt 2); ("unresolved_effects", PList [PStr "run-1"])]; acc_replayed := true |}).
Proof.
  apply (accepted_operation_replays py_repr [Garden.quiet] None (after py_repr [Garden.boot]) Garden.claim _ None
           {| acc_result := PDict [("sequence", PInt 2); ("unresolved_effects", PList [PStr "run-1"])]; acc_replayed := false |}
           [Garden.settle] Garden.quiet [] None).
  - constructor; constructor.
  - constructor; [exact I|constructor].
  - reflexivity.
  - reflexivity.
  - vm_compute. discriminate.
  - vm_compute. reflexivity.
Defined.

Definition oid (n : nat) : string := String "c" (show (Z.of_nat n)).

Lemma states_split_checkpoint : after py_repr Garden.life = (state 0 :: take 3 (drop 1 states)) ++ state 4 :: drop 5 states.
Proof. vm_compute. reflexivity. Defined.

Lemma history_validates_witness :
  let rows := log oid (after py_repr Garden.life) in
  validate_history None rows = Ok (hd empty_state (after py_repr Garden.life))
  /\ validate_history (Some (oid (List.length (drop 5 states)), state 4)) (drop (S (List.length (drop 5 states))) rows)
     = Ok (hd empty_state (after py_repr Garden.life)).
Proof.
  apply (history_validates py_repr oid Garden.life (state 0 :: take 3 (drop 1 states)) (state 4) (drop 5 states)).
  - intros n. reflexivity.
  - exact Garden.life_json.
  - exact states_split_checkpoint.
Defined.

Lemma claims_follow_authority_witness :
  json_txs Garden.life /\ Forall (fun s => NoDup (dkeys (claims s))) (after py_repr Garden.life).
Proof.
  split; [exact Garden.life_json|].
  eapply Forall_impl; [exact (claims_follow_authority py_repr Garden.life Garden.life_json)|]. intros s H. exact (proj1 H).
Defined.

(** The entity as [claim] leaves it. *)
Definition claimed_task : row := default [] (dget Garden.key (entities (state 4))).

Lemma generations_fence_witness :
  exists e', dget Garden.key (entities (state 0)) = Some e'
    /\ forall g', row_int "authority_generation" 0 e' = Ok g' -> 1 < g' \/ (1 = g' /\ py_eq (pget "owner" e') (pget "owner" claimed_task) = true).
Proof.
  apply (generations_fence py_repr Garden.life [] (state 0) (take 3 (drop 1 states)) (state 4) (drop 5 states) Garden.key claimed_task 1
           Garden.life_json states_split); vm_compute; reflexivity.
Defined.

(** The commits from [settle] on. *)
Lemma states_split_settled : after py_repr Garden.life = [] ++ state 0 :: take 2 (drop 1 states) ++ state 3 :: drop 4 states.
Proof. vm_compute. reflexivity. Defined.

Definition settled_effect : row := default [] (dget "run-1" (effects (state 3))).

Lemma effects_permanent_witness :
  exists e', dget "run-1" (effects (state 0)) = Some e' /\ unresolved e' = false
    /\ py_eq (pget_or "outcome" (PStr "pending") e') (pget_or "outcome" (PStr "pending") settled_effect) = true.
Proof.
  apply (effects_permanent py_repr Garden.life [] (state 0) (take 2 (drop 1 states)) (state 3) (drop 4 states) "run-1" settled_effect
           Garden.life_json states_split_settled); vm_compute; reflexivity.
Defined.

(** A garden whose shared pool admits two units. *)
Definition pooled : GState :=
  {| sequence := 1; members := members (state 5); installations := installations (state 5); revoked_installations := [];
     entities := entities (state 5); claims := []; operations := []; permits := []; effects := []; handoffs := [];
     authority_changes := []; reservations := [("run-0", [("pool", PStr "shared"); ("units", PInt 1)])];
     pools := [("shared", (2, 100))]; recovery := []; projections := [] |}.

Lemma pools_bounded_witness :
  Forall (fun s' => pools s' = pools pooled) (foldl (accept py_repr) [pooled] [Garden.claim])
  /\ map (fun s => sum_ints "units" (pool_rows s "shared")) (foldl (accept py_repr) [pooled] [Garden.claim]) = [Ok 2; Ok 1].
Proof.
  split; [|vm_compute; reflexivity].
  assert (Hj : json_txs [Garden.claim]).
  { pose proof Garden.life_json as H. unfold json_txs, Garden.life in H. rewrite !Forall_cons in H. destruct H as (_ & H & _).
    constructor; [exact H|constructor]. }
  eapply Forall_impl; [apply (pools_bounded py_repr pooled [Garden.claim] Hj)|intros s H; exact (proj1 H)].
  constructor; [|constructor]. exists 1, 0. by split_and!.
Defined.

Definition completed : pyval * GState :=
  match complete_handoff "bob" "desk" Garden.key (state 1) with Ok p => p | Err _ => (PNone, empty_state) end.

Lemma handoff_completion_witness :
  exists e', dget Garden.key (entities completed.2) = Some e' /\ dget Garden.key (claims completed.2) = None.
Proof.
  assert (Hok : authority_ok (state 1)).
  { destruct (history_fenced py_repr Garden.life "" Garden.life_json) as [H _]. rewrite Forall_forall in H. apply H.
    apply list_elem_of_lookup. exists 1%nat. vm_compute. reflexivity. }
  assert (Hm : complete_handoff "bob" "desk" Garden.key (state 1) = Ok (completed.1, completed.2)) by (vm_compute; reflexivity).
  destruct (handoff_completion "bob" "desk" Garden.key (state 1) completed.1 completed.2 Hok Hm)
    as (h & e & e' & _ & _ & He & _ & _ & _ & _ & _ & _ & Hc & _).
  exists e'. exact (conj He Hc).
Defined.

(** ** What the fingerprint does not cover *)

(** Two operations of [git_coordination.py] fingerprint the same inputs: an operation id used to
    acknowledge a stop answers a later completion of the hand-off with the acknowledgement, and the
    hand-off is not completed. *)
Lemma fingerprint_ignores_operation digest a i k h s res attempts obl :
  recorded digest s ("op", AcknowledgeStop a i k) res ->
  transact digest (Garden.quiet :: attempts) obl (s :: h) ("op", CompleteHandoff a i k)
  = (s :: h, None, Ok {| acc_result := res; acc_replayed := true |}).
Proof. intros H. by apply transact_replays. Qed.

(** An entity patch may carry [version], so a version that a client saw can come back: the
    optimistic check of [expected_versions] then admits a stale writer. *)
Example version_can_go_back :
  match patch_entity (state 5) (Garden.key, [("version", PInt 0); ("title", PStr "old")]) with
  | Ok s => pget "version" <$> dget Garden.key (entities s)
  | Err _ => None
  end = Some (PInt 1).
Proof. vm_compute. reflexivity. Qed.
