(* ===== verification/Rollout.v ===== *)
(** * The worker rollout ([garden/worker_rollout.py])

    A durable, fail-closed rollout of one immutable release to a list of workers.  Each step mutates
    the worker's host through a backend and is recorded in a journal that is rewritten atomically;
    a rollout may be interrupted at any point (a raised exception or a crash) and resumed from the
    journal.

    A method is a [prog]: a tree of backend calls, journal writes and fresh identifiers.  [exec]
    gives its executions: any reply may come back from a call, a call may raise, and the execution
    may stop anywhere; what survives is the last journal written.  Timestamps are left out (nothing
    reads them back), and so are the waits between health samples.  The backend is the other side
    of the calls ([CommandWorkerRolloutBackend] only serialises them over a subprocess). *)

From S2P Require Import Prelude PyValue.

#[local] Open Scope list_scope.

(** ** Published versions *)

Record PublishedVersion := { version : string; source_commit : string; manifest : dict string; verified : bool }.

Definition suffix_char (c : ascii) : bool := is_alnum c || bool_decide (c = "."%char) || bool_decide (c = "-"%char).

(** A run of digits and what follows it. *)
Fixpoint digits (some : bool) (s : string) : option string :=
  match s with
  | String c s' => if is_digit c then digits true s' else if some then Some s else None
  | EmptyString => if some then Some EmptyString else None
  end.
Definition dot (s : string) : option string :=
  match s with String c s' => if bool_decide (c = "."%char) then Some s' else None | EmptyString => None end.

(** [re.fullmatch(r"[0-9]+\.[0-9]+\.[0-9]+(?:[a-zA-Z0-9.-]+)?", s)] *)
Definition is_version (s : string) : bool :=
  let rest : option string := (a ← digits false s; b ← dot a; c ← digits false b; d ← dot c; digits false d) in
  match rest with Some r => str_all suffix_char r | None => false end.

(** [PublishedVersion.validate] *)
Definition validate (c : PublishedVersion) : result exn unit :=
  raise (ValueError "published version must be an immutable version number") when (negb (is_version (version c))) ;;
  raise (ValueError "source commit must be a full lowercase commit object ID")
    when (negb (is_hex_digest 40 (source_commit c))) ;;
  raise (ValueError "a verified, non-empty source manifest is required")
    when (negb (verified c) || match manifest c with [] => true | _ => false end) ;;
  raise (ValueError "source manifest requires paths with full sha256 digests")
    when (existsb (fun kv => negb (nonempty kv.1) || negb (is_hex_digest 64 kv.2)) (manifest c)) ;;
  Ok tt.

Definition manifest_value (c : PublishedVersion) : pyval := PDict (map (fun kv => (kv.1, PStr kv.2)) (manifest c)).

(** ** Workers and the journal *)

Record WorkerTarget := {
  worker_id : string; host_id : string; w_owner : string; w_group : string; config_path : string; unit_source : string;
  unit_mode : string; resource_caps : row; deadline : string; enrollment_boundary : string; secret_boundary : string;
}.

Inductive Phase :=
| Planned | WaitingForIdle | Draining | Deferred | Staged | Verified | Activated | HealthChecking | Complete | Failed | RolledBack.
#[export] Instance phase_eq_dec : EqDecision Phase.
Proof. solve_decision. Defined.

(** [pending_recovery] *)
Inductive Pending :=
| PendRollback (action_id reason prior_runtime idle_generation : string)
| PendFence (action_id reason guidance : string).

Record WorkerRecord := {
  target : WorkerTarget; phase : Phase; prior_runtime : string; transitions : list (Phase * row);
  actions : dict string; pending_recovery : option Pending; recovery : string; recovery_receipt : option string;
}.

Inductive Status := SPlanned | SAborted | SComplete | SFailed.
#[export] Instance status_eq_dec : EqDecision Status.
Proof. solve_decision. Defined.

Record RState := {
  operation_id : string; identity : string; status : Status; candidate : PublishedVersion; controller_runtime : string;
  workers : list WorkerRecord; events : list (string * (Phase * row));
}.

Definition set_workers (l : list WorkerRecord) (ev : list (string * (Phase * row))) (s : RState) : RState :=
  {| operation_id := operation_id s; identity := identity s; status := status s; candidate := candidate s;
     controller_runtime := controller_runtime s; workers := l; events := ev |}.
Definition set_status (st : Status) (s : RState) : RState :=
  {| operation_id := operation_id s; identity := identity s; status := st; candidate := candidate s;
     controller_runtime := controller_runtime s; workers := workers s; events := events s |}.
(** [record] is the [i]th worker of the state: changing it changes the state. *)
Definition update (i : nat) (f : WorkerRecord -> WorkerRecord) (s : RState) : RState := set_workers (alter f i (workers s)) (events s) s.

Definition with_phase (p : Phase) (ev : row) (r : WorkerRecord) : WorkerRecord :=
  {| target := target r; phase := p; prior_runtime := prior_runtime r; transitions := transitions r ++ [(p, ev)];
     actions := actions r; pending_recovery := pending_recovery r; recovery := recovery r; recovery_receipt := recovery_receipt r |}.
Definition with_action (a id : string) (r : WorkerRecord) : WorkerRecord :=
  {| target := target r; phase := phase r; prior_runtime := prior_runtime r; transitions := transitions r;
     actions := dset a id (actions r); pending_recovery := pending_recovery r; recovery := recovery r; recovery_receipt := recovery_receipt r |}.
Definition with_pending (p : option Pending) (r : WorkerRecord) : WorkerRecord :=
  {| target := target r; phase := phase r; prior_runtime := prior_runtime r; transitions := transitions r;
     actions := actions r; pending_recovery := p; recovery := recovery r; recovery_receipt := recovery_receipt r |}.
Definition with_recovery (text : string) (receipt : option string) (r : WorkerRecord) : WorkerRecord :=
  {| target := target r; phase := phase r; prior_runtime := prior_runtime r; transitions := transitions r;
     actions := actions r; pending_recovery := pending_recovery r; recovery := text; recovery_receipt := receipt |}.

(** ** Programs *)

Inductive cmd :=
| CObserve (w : WorkerTarget)
| CStage (w : WorkerTarget) (c : PublishedVersion) (id : string)
| CActivate (w : WorkerTarget) (c : PublishedVersion) (generation id : string)
| CHealth (w : WorkerTarget) (c : PublishedVersion)
| CRollback (w : WorkerTarget) (prior generation id : string)
| CFence (w : WorkerTarget) (reason id : string).

Definition cmd_target (c : cmd) : WorkerTarget :=
  match c with
  | CObserve w | CStage w _ _ | CActivate w _ _ _ | CHealth w _ | CRollback w _ _ _ | CFence w _ _ => w
  end.

Inductive prog (A : Type) :=
| Ret (a : A)
| Raise (e : exn)
| Call (c : cmd) (k : row -> prog A)
| Fresh (k : string -> prog A)
| Write (s : RState) (k : prog A).
Arguments Ret {A} a.
Arguments Raise {A} e.
Arguments Call {A} c k.
Arguments Fresh {A} k.
Arguments Write {A} s k.

Fixpoint pbind {A B} (f : A -> prog B) (p : prog A) : prog B :=
  match p with
  | Ret a => f a
  | Raise e => Raise e
  | Call c k => Call c (fun r => pbind f (k r))
  | Fresh k => Fresh (fun id => pbind f (k id))
  | Write s k => Write s (pbind f k)
  end.
#[export] Instance prog_ret : MRet prog := fun A a => Ret a.
#[export] Instance prog_bind : MBind prog := @pbind.

Definition call (c : cmd) : prog row := Call c Ret.
Definition write (s : RState) : prog unit := Write s (Ret tt).

(** ** The rollout *)

(** [str(r.get(k) or "")] *)
Definition str_or_empty (k : string) (r : row) : string := py_str (por (pget k r) (PStr "")).

(** [_transition] *)
Definition transition (i : nat) (p : Phase) (ev : row) (s : RState) : prog RState :=
  let wid := match workers s !! i with Some r => worker_id (target r) | None => "" end in
  let s' := set_workers (alter (with_phase p ev) i (workers s)) (events s ++ [(wid, (p, ev))]) s in
  _ ← write s'; mret s'.

(** [_action_id]: the intent is durable before the host is touched, and its key is reused. *)
Definition action_id (i : nat) (a : string) (s : RState) : prog (RState * string) :=
  match workers s !! i with
  | None => Raise (KeyError "worker")
  | Some r =>
      match dget a (actions r) with
      | Some id => mret (s, id)
      | None => Fresh (fun id => let s' := update i (with_action a id) s in _ ← write s'; mret (s', id))
      end
  end.

(** [_evidence]: the latest transition to [p] that carries [key]. *)
Definition evidence (r : WorkerRecord) (p : Phase) (key : string) : option pyval :=
  match List.find (fun t => bool_decide (t.1 = p) && dmem key t.2) (rev (transitions r)) with
  | Some t => dget key t.2
  | None => None
  end.

(** [_verify_staged]: the refusal, empty when the attestation is good. *)
Definition verify_staged (facts : row) (c : PublishedVersion) : string :=
  if existsb (fun k => negb (truthy (pget k facts))) ["runtime"; "version"; "direct_url_commit"; "manifest"; "executable"; "tools_ok"]
  then "staged runtime attestation is incomplete"
  else if negb (py_eq (pget "version" facts) (PStr (version c))) || negb (py_eq (pget "direct_url_commit" facts) (PStr (source_commit c)))
          || negb (py_eq (pget "manifest" facts) (manifest_value c))
  then "staged package or source identity does not match candidate"
  else "".

(** [_verify_active] *)
Definition expected_facts (w : WorkerTarget) (c : PublishedVersion) : row :=
  [("version", PStr (version c)); ("source_commit", PStr (source_commit c)); ("direct_url_commit", PStr (source_commit c));
   ("manifest", manifest_value c); ("config_path", PStr (config_path w)); ("owner", PStr (w_owner w)); ("group", PStr (w_group w));
   ("unit_mode", PStr (unit_mode w)); ("unit_source", PStr (unit_source w))].

Definition verify_active (facts staged : row) (w : WorkerTarget) (c : PublishedVersion) : string :=
  if existsb (fun kv => negb (py_eq (pget kv.1 facts) kv.2)) (expected_facts w c)
  then "active service identity or configuration does not match plan"
  else if negb (py_eq (pget "runtime" facts) (pget "runtime" staged)) || negb (py_eq (pget "executable" facts) (pget "executable" staged))
  then "active runtime or executable does not match staged attestation"
  else if negb (truthy (pget "runtime" facts)) || negb (truthy (pget "pid" facts))
          || py_eq (pget "pid" facts) (pget "prior_pid" facts) || truthy (pget "frozen" facts) || negb (truthy (pget "ready" facts))
          || negb (py_eq (pget "executable" facts) (pget "runtime_executable" facts))
  then "active service PID, executable, freeze state, or readiness is invalid"
  else "".

(** [_healthy] *)
Definition healthy (sample : row) (c : PublishedVersion) : bool :=
  truthy (pget "authenticated" sample) && truthy (pget "claim_probe" sample) && truthy (pget "heartbeat_probe" sample)
  && truthy (pget "finish_probe" sample) && truthy (pget "ready" sample) && negb (truthy (pget "restarted" sample))
  && negb (truthy (pget "resource_failure" sample)) && py_eq (pget "version" sample) (PStr (version c))
  && py_eq (pget "source_commit" sample) (PStr (source_commit c)).

Definition busy (observation : row) : bool := truthy (pget "busy" observation) || truthy (pget "pending_collection" observation).

(** [_prepare_recovery] with its two kinds of details *)
Definition prepare (i : nat) (a : string) (mk : string -> Pending) (s : RState) : prog RState :=
  x ← action_id i a s;
  let s' := update i (with_pending (Some (mk x.2))) x.1 in
  _ ← write s'; mret s'.
Definition prepare_fence (i : nat) (reason guidance : string) : RState -> prog RState :=
  prepare i "fence" (fun id => PendFence id reason guidance).
Definition prepare_rollback (i : nat) (reason prior generation : string) : RState -> prog RState :=
  prepare i "rollback" (fun id => PendRollback id reason prior generation).

(** The fence at the end of [_recover]. *)
Definition fence (i : nat) (w : WorkerTarget) (id reason guidance : string) (s : RState) : prog RState :=
  _ ← call (CFence w reason id);
  let s' := update i (fun r => with_pending None (with_recovery guidance (Some id) r)) s in
  _ ← write s'; mret s'.

Definition rollback_ok (result : row) (prior : string) : bool :=
  truthy (pget "ok" result) && py_eq (pget "runtime" result) (PStr prior) && truthy (pget "ready" result).

(** [_recover] *)
Definition recover (i : nat) (s : RState) : prog RState :=
  match workers s !! i with
  | None => Raise (KeyError "worker")
  | Some r =>
      match pending_recovery r with
      | None => Raise (KeyError "pending_recovery")
      | Some (PendFence id reason guidance) => fence i (target r) id reason guidance s
      | Some (PendRollback id reason prior generation) =>
          result ← call (CRollback (target r) prior generation id);
          if rollback_ok result prior then
            s1 ← transition i RolledBack [("rollback", PDict result); ("action_id", PStr id)] s;
            let s2 := update i (with_pending None) s1 in
            _ ← write s2; mret s2
          else
            let guidance := ("rollback failed; repair retained runtime " ++ prior ++ " and verify before thaw")%string in
            s1 ← prepare_fence i reason guidance s;
            match workers s1 !! i with
            | Some r1 => match pending_recovery r1 with
                         | Some (PendFence id' reason' guidance') => fence i (target r1) id' reason' guidance' s1
                         | _ => Raise (KeyError "pending_recovery")
                         end
            | None => Raise (KeyError "worker")
            end
      end
  end.

(** [_fail] *)
Definition fail_worker (i : nat) (reason : string) (ev : row) (s : RState) : prog (RState * bool) :=
  s1 ← transition i Failed (("reason", PStr reason) :: ev) s;
  match workers s1 !! i with
  | None => Raise (KeyError "worker")
  | Some r =>
      if negb (existsb (fun t => bool_decide (t.1 = Activated)) (transitions r)) then
        let s2 := set_status SFailed (update i (with_recovery "activation did not occur; retained prior runtime remains active" (recovery_receipt r)) s1) in
        _ ← write s2; mret (s2, false)
      else
        fresh ← call (CObserve (target r));
        let generation := str_or_empty "claim_generation" fresh in
        s2 ← (if busy fresh then prepare_fence i reason "worker became busy; leave fenced and collect work before recovery" s1
              else if nonempty (prior_runtime r) && nonempty generation then prepare_rollback i reason (prior_runtime r) generation s1
              else prepare_fence i reason "no verified prior runtime or idle generation; repair while fenced" s1);
        s3 ← recover i s2;
        mret (set_status SFailed s3, false)
  end.

(** [list(self._evidence(record, "health-checking", "health", default=[]))] *)
Definition samples_of (r : WorkerRecord) : result exn (list pyval) :=
  match evidence r HealthChecking "health" with
  | None => Ok []
  | Some (PList l) => Ok l
  | Some _ => Err TypeError
  end.

Section rollout.
Context (health_samples : nat).

(** The health loop: [n] samples are still to be taken. *)
Fixpoint check_health (n : nat) (i : nat) (w : WorkerTarget) (c : PublishedVersion) (samples : list pyval) (s : RState)
    : prog (RState * bool) :=
  match n with
  | O =>
      s1 ← transition i Complete [("health", PList samples); ("version", PStr (version c)); ("source_commit", PStr (source_commit c))] s;
      mret (s1, true)
  | S n' =>
      sample ← call (CHealth w c);
      let samples' := samples ++ [PDict sample] in
      s1 ← transition i HealthChecking [("health", PList samples')] s;
      if negb (healthy sample c) then fail_worker i "live health stability check failed" [("health", PList samples')] s1
      else check_health n' i w c samples' s1
  end.

Definition dict_evidence (r : WorkerRecord) (p : Phase) (key : string) : result exn row :=
  match evidence r p key with Some (PDict d) => Ok d | _ => Err TypeError end.

Definition lift {A} (r : result exn A) : prog A := match r with Ok a => Ret a | Err e => Raise e end.
Definition record_of (i : nat) (s : RState) : prog WorkerRecord :=
  match workers s !! i with Some r => Ret r | None => Raise (KeyError "worker") end.

(** The last part of [_advance]: from the active attestation on. *)
Definition finish (i : nat) (w : WorkerTarget) (c : PublishedVersion) (staged activated : row) (s : RState) : prog (RState * bool) :=
  let error := verify_active activated staged w c in
  if nonempty error then fail_worker i error [] s
  else
    r ← record_of i s;
    s1 ← (if bool_decide (phase r = Activated) then transition i HealthChecking [("health", PList [])] s else mret s);
    r1 ← record_of i s1;
    samples ← lift (samples_of r1);
    check_health (health_samples - List.length samples) i w c samples s1.

(** The middle part: from the staged attestation on. *)
Definition activate (i : nat) (w : WorkerTarget) (c : PublishedVersion) (staged : row) (s : RState) : prog (RState * bool) :=
  let error := verify_staged staged c in
  if nonempty error then fail_worker i error [] s
  else
    r ← record_of i s;
    s1 ← (if bool_decide (phase r = Staged) then transition i Verified [("verification", PDict staged)] s else mret s);
    r1 ← record_of i s1;
    if bool_decide (phase r1 = Verified) then
      fresh ← call (CObserve w);
      let generation := match evidence r1 Draining "idle_generation" with Some v => py_str v | None => "None" end in
      if busy fresh || negb (py_eq (pget "claim_generation" fresh) (PStr generation)) then
        s2 ← transition i Deferred [("reason", PStr "claim changed at activation boundary"); ("observation", PDict fresh)] s1;
        mret (s2, false)
      else
        x ← action_id i "activate" s1;
        activated ← call (CActivate w c generation x.2);
        if truthy (pget "busy" activated) then
          s2 ← transition i Deferred [("reason", PStr "claim won activation race")] x.1;
          mret (s2, false)
        else
          s2 ← transition i Activated [("activation", PDict activated); ("action_id", PStr x.2)] x.1;
          finish i w c staged activated s2
    else
      activated ← lift (dict_evidence r1 Activated "activation");
      finish i w c staged activated s1.

(** [_advance] *)
Definition advance (i : nat) (c : PublishedVersion) (s : RState) : prog (RState * bool) :=
  r ← record_of i s;
  let w := target r in
  if bool_decide (phase r ∈ [Planned; WaitingForIdle; Draining; Deferred]) then
    observation ← call (CObserve w);
    s1 ← transition i WaitingForIdle [("observation", PDict observation)] s;
    if busy observation then
      s2 ← transition i Deferred [("reason", PStr "worker is busy or has pending collection")] s1;
      mret (s2, false)
    else
      let generation := str_or_empty "claim_generation" observation in
      if negb (nonempty generation) then fail_worker i "idle observation lacks claim generation" [] s1
      else
        s2 ← transition i Draining [("idle_generation", PStr generation)] s1;
        x ← action_id i "stage" s2;
        staged ← call (CStage w c x.2);
        s3 ← transition i Staged [("staging", PDict staged); ("action_id", PStr x.2)] x.1;
        activate i w c staged s3
  else
    staged ← lift (dict_evidence r Staged "staging");
    activate i w c staged s.

(** The [for] loop of [resume] over the workers from index [i] on, [n] of them. *)
Fixpoint resume_from (n i : nat) (s : RState) : prog RState :=
  match n with
  | O => mret (set_status SComplete s)
  | S n' =>
      r ← record_of i s;
      if bool_decide (phase r = Complete) then resume_from n' (S i) s
      else
        s1 ← (match pending_recovery r with
              | Some _ => if bool_decide (phase r = Failed) then recover i s else mret s
              | None => mret s
              end);
        r1 ← record_of i s1;
        if bool_decide (phase r1 ∈ [Failed; RolledBack]) then mret (set_status SFailed s1)
        else
          x ← advance i (candidate s1) s1;
          match x with (s2, true) => resume_from n' (S i) s2 | (s2, false) => mret s2 end
  end.

(** [resume], from the journal; [start] is the same. *)
Definition resume (s : RState) : prog RState :=
  if bool_decide (status s = SAborted) then mret s
  else
    s' ← resume_from (List.length (workers s)) 0 s;
    _ ← write s'; mret s'.

(** [abort] *)
Definition abort (s : RState) : prog RState :=
  if bool_decide (status s = SComplete) then Raise (ValueError "a completed rollout cannot be aborted")
  else let s' := set_status SAborted s in _ ← write s'; mret s'.

(** [plan]: the prior runtimes are observed, and the journal is created once. *)
Definition planned (w : WorkerTarget) (runtime : string) : WorkerRecord :=
  {| target := w; phase := Planned; prior_runtime := runtime; transitions := [(Planned, [])]; actions := [];
     pending_recovery := None; recovery := ""; recovery_receipt := None |}.
Fixpoint observe_all (ws : list WorkerTarget) : prog (list WorkerRecord) :=
  match ws with
  | [] => mret []
  | w :: ws' => o ← call (CObserve w); l ← observe_all ws'; mret (planned w (str_or_empty "runtime" o) :: l)
  end.

Variable digest : pyval -> string.
(** [PublishedVersion.identity] *)
Definition identity_of (c : PublishedVersion) : string :=
  digest (canonical (PDict [("version", PStr (version c)); ("source_commit", PStr (source_commit c)); ("manifest", manifest_value c)])).

Definition plan (c : PublishedVersion) (ws : list WorkerTarget) (op controller : string) (existing : option RState) : prog RState :=
  _ ← lift (validate c);
  if (match ws with [] => true | _ => false end) || negb (bool_decide (NoDup (map worker_id ws)))
  then Raise (ValueError "configured worker inventory must be non-empty and unique")
  else match existing with
  | Some s =>
      if bool_decide (identity s = identity_of c) then mret s else Raise (ValueError "conflicting rollout identity already exists")
  | None =>
      Fresh (fun id =>
        l ← observe_all ws;
        let s := {| operation_id := if nonempty op then op else id; identity := identity_of c; status := SPlanned; candidate := c;
                    controller_runtime := controller; workers := l; events := [] |} in
        _ ← write s; mret s)
  end.
End rollout.

(** ** Executions *)

(** What an observer of the host and of the disk sees. *)
Inductive event :=
| ECall (c : cmd) (reply : option row)
| EWrite (s : RState).

(** The executions of a program: its trace and, when it was neither interrupted nor raised, its
    result.  A call that raises has no reply. *)
Inductive exec {A} : prog A -> list event -> option A -> Prop :=
| exec_ret a : exec (Ret a) [] (Some a)
| exec_stop p : exec p [] None
| exec_call c k r tr o : exec (k r) tr o -> exec (Call c k) (ECall c (Some r) :: tr) o
| exec_raise c k : exec (Call c k) [ECall c None] None
| exec_fresh k id tr o : exec (k id) tr o -> exec (Fresh k) tr o
| exec_write s k tr o : exec k tr o -> exec (Write s k) (EWrite s :: tr) o.

(** The journal that survives a trace, and the last call with a reply. *)
Definition journal (j : RState) (tr : list event) : RState :=
  foldl (fun j e => match e with EWrite s => s | ECall _ _ => j end) j tr.
Definition last_call (tr : list event) : option (cmd * row) :=
  foldl (fun a e => match e with ECall c (Some r) => Some (c, r) | _ => a end) None tr.

Lemma journal_app j tr1 tr2 : journal j (tr1 ++ tr2) = journal (journal j tr1) tr2.
Proof. apply foldl_app. Qed.
Lemma last_call_snoc tr e : last_call (tr ++ [e]) = match e with ECall c (Some r) => Some (c, r) | _ => last_call tr end.
Proof. unfold last_call. by rewrite foldl_app. Qed.

(** The life of a rollout: sessions of [resume] and [abort], each from the journal the previous one
    left, each run to its end or cut short anywhere. *)
Inductive sessions (health_samples : nat) (j0 : RState) : list event -> Prop :=
| sessions_nil : sessions health_samples j0 []
| sessions_step tr p tr' o :
    sessions health_samples j0 tr ->
    (p = resume health_samples (journal j0 tr) \/ p = abort (journal j0 tr)) -> exec p tr' o ->
    sessions health_samples j0 (tr ++ tr').

(** *** A program logic for traces

    [safe ok p tr Q]: started after the trace [tr], every event of [p] is allowed by [ok], and a
    returned value satisfies [Q]. *)
Section logic.
Context (ok : list event -> event -> Prop).

Fixpoint safe {A} (p : prog A) (tr : list event) (Q : A -> list event -> Prop) : Prop :=
  match p with
  | Ret a => Q a tr
  | Raise _ => True
  | Call c k => ok tr (ECall c None) /\ forall r, ok tr (ECall c (Some r)) /\ safe (k r) (tr ++ [ECall c (Some r)]) Q
  | Fresh k => forall id, safe (k id) tr Q
  | Write s k => ok tr (EWrite s) /\ safe k (tr ++ [EWrite s]) Q
  end.

(** Every event of the trace was allowed when it happened. *)
Inductive allowed : list event -> Prop :=
| allowed_nil : allowed []
| allowed_snoc tr e : allowed tr -> ok tr e -> allowed (tr ++ [e]).

Lemma session_safe_bind {A B} (f : A -> prog B) (p : prog A) tr Q :
  safe p tr (fun a tr' => safe (f a) tr' Q) -> safe (p ≫= f) tr Q.
Proof.
  unfold mbind, prog_bind. revert tr. induction p as [a|e|c k IH|k IH|s k IH]; intros tr; cbn; [done|done| | |].
  - intros [H0 H]. split; [done|]. intros r. destruct (H r) as [H1 H2]. auto.
  - auto.
  - intros [H0 H]. auto.
Qed.

Lemma session_safe_mono {A} (p : prog A) tr (Q R : A -> list event -> Prop) :
  (forall a tr', Q a tr' -> R a tr') -> safe p tr Q -> safe p tr R.
Proof.
  intros HQ. revert tr. induction p as [a|e|c k IH|k IH|s k IH]; intros tr; cbn; [auto|done| | |].
  - intros [H0 H]. split; [done|]. intros r. destruct (H r). auto.
  - auto.
  - intros [H0 H]. auto.
Qed.

Lemma session_safe_exec {A} (p : prog A) tr tr' o (Q : A -> list event -> Prop) :
  exec p tr' o -> safe p tr Q -> allowed tr ->
  allowed (tr ++ tr') /\ match o with Some a => Q a (tr ++ tr') | None => True end.
Proof.
  intros He. revert tr. induction He as [a|p|c k r tr1 o He IH|c k|k id tr1 o He IH|s k tr1 o He IH]; intros tr; cbn.
  - rewrite app_nil_r. done.
  - rewrite app_nil_r. done.
  - intros [_ H] Ha. destruct (H r) as [H1 H2]. change (ECall c (Some r) :: tr1) with ([ECall c (Some r)] ++ tr1).
    rewrite app_assoc. apply IH; [done|]. by constructor.
  - intros [H _] Ha. split; [by constructor|done].
  - intros H. apply IH. auto.
  - intros [H1 H2] Ha. change (EWrite s :: tr1) with ([EWrite s] ++ tr1). rewrite app_assoc. apply IH; [done|]. by constructor.
Qed.

Lemma session_allowed_snoc_inv tr e : allowed (tr ++ [e]) -> allowed tr /\ ok tr e.
Proof.
  inversion 1 as [Hn|tr' x Ha Hx Heq]; [by destruct tr|]. by apply app_inj_tail in Heq as [<- <-].
Qed.
Lemma session_allowed_prefix tr1 tr2 : allowed (tr1 ++ tr2) -> allowed tr1.
Proof.
  induction tr2 as [|e tr2 IH] using rev_ind; [by rewrite app_nil_r|].
  rewrite app_assoc. intros [Ha _]%session_allowed_snoc_inv. auto.
Qed.

Lemma session_allowed_split tr1 e tr2 : allowed (tr1 ++ e :: tr2) -> ok tr1 e.
Proof.
  change (e :: tr2) with ([e] ++ tr2). rewrite app_assoc. intros [_ H]%session_allowed_prefix%session_allowed_snoc_inv. done.
Qed.
End logic.

(** ** The discipline of a rollout *)

Lemma evidence_with_phase r p ev q key :
  evidence (with_phase p ev r) q key = if bool_decide (p = q) && dmem key ev then dget key ev else evidence r q key.
Proof.
  unfold evidence. cbn [with_phase transitions]. rewrite rev_app_distr. cbn [rev app List.find fst snd].
  by destruct (bool_decide (p = q) && dmem key ev).
Qed.

Definition pristine (r : WorkerRecord) : Prop :=
  phase r = Planned /\ transitions r = [(Planned, [])] /\ actions r = [] /\ pending_recovery r = None.

(** The workers before [i] are complete and those after it have not been touched. *)
Definition front (i : nat) (s : RState) : Prop :=
  (forall k r, (k < i)%nat -> workers s !! k = Some r -> phase r = Complete)
  /\ (forall k r, (i < k)%nat -> workers s !! k = Some r -> pristine r).

Definition staged_ok (c : PublishedVersion) (r : WorkerRecord) (f : row) : Prop :=
  evidence r Staged "staging" = Some (PDict f) /\ verify_staged f c = "".
Definition active_ok (c : PublishedVersion) (r : WorkerRecord) (f a : row) : Prop :=
  staged_ok c r f /\ evidence r Activated "activation" = Some (PDict a) /\ verify_active a f (target r) c = "".

Section discipline.
Context (health_samples : nat) (j0 : RState).

(** What a worker's record says at each phase. *)
Record record_ok (c : PublishedVersion) (r : WorkerRecord) : Prop := {
  ok_staged : phase r ∈ [Verified; Activated; HealthChecking; Complete] -> exists f, staged_ok c r f;
  ok_active : phase r ∈ [HealthChecking; Complete] -> exists f a, active_ok c r f a;
  ok_health : phase r ∈ [HealthChecking; Complete] ->
    exists l, evidence r HealthChecking "health" = Some (PList l) /\ (phase r = Complete -> (health_samples <= List.length l)%nat);
  ok_pending : match pending_recovery r with
               | Some (PendRollback id _ _ _) => dget "rollback" (actions r) = Some id
               | Some (PendFence id _ _) => dget "fence" (actions r) = Some id
               | None => True
               end;
}.
Definition records_ok (s : RState) : Prop := Forall (record_ok (candidate s)) (workers s).
Definition journal_ok (s : RState) : Prop := (exists i, front i s) /\ records_ok s.

(** Targets never change and a recorded intent is never replaced. *)
Definition extends (j s : RState) : Prop :=
  candidate s = candidate j /\ List.length (workers s) = List.length (workers j)
  /\ forall k r, workers j !! k = Some r -> exists r', workers s !! k = Some r' /\ target r' = target r
       /\ forall a id, dget a (actions r) = Some id -> dget a (actions r') = Some id.

(** What must hold before each backend command about the worker with record [r]. *)
Definition permitted (c : cmd) (r : WorkerRecord) (cand : PublishedVersion) (tr : list event) : Prop :=
  match c with
  | CObserve _ => True
  | CStage _ c' id => c' = cand /\ dget "stage" (actions r) = Some id
  | CActivate _ c' g id =>
      c' = cand /\ dget "activate" (actions r) = Some id /\ (exists f, staged_ok cand r f)
      /\ exists o, last_call tr = Some (CObserve (target r), o) /\ busy o = false /\ py_eq (pget "claim_generation" o) (PStr g) = true
  | CHealth _ c' => c' = cand /\ exists f a, active_ok cand r f a
  | CRollback _ prior g id => dget "rollback" (actions r) = Some id /\ exists reason, pending_recovery r = Some (PendRollback id reason prior g)
  | CFence _ reason id => dget "fence" (actions r) = Some id /\ exists guidance, pending_recovery r = Some (PendFence id reason guidance)
  end.

Definition event_ok (tr : list event) (e : event) : Prop :=
  let j := journal j0 tr in
  match e with
  | EWrite s => journal_ok s /\ extends j s
  | ECall c _ => status j <> SAborted
      /\ exists i r, front i j /\ workers j !! i = Some r /\ target r = cmd_target c /\ phase r <> Complete /\ permitted c r (candidate j) tr
  end.

(** A program is working on worker [i], whose record is [r], and the journal is up to date. *)
Record working (i : nat) (r : WorkerRecord) (s : RState) (tr : list event) : Prop := {
  w_journal : journal j0 tr = s;
  w_status : status s <> SAborted;
  w_front : front i s;
  w_record : workers s !! i = Some r;
  w_phase : phase r <> Complete;
  w_records : records_ok s;
}.

Lemma extends_refl s : extends s s.
Proof. split_and!; [done|done|]. intros k r Hk. by exists r. Qed.

Lemma working_ok i r s tr : working i r s tr -> record_ok (candidate s) r.
Proof.
  intros [_ _ _ Hr _ Hrs]. unfold records_ok in Hrs. rewrite Forall_forall in Hrs. apply Hrs.
  apply list_elem_of_lookup. by exists i.
Qed.

(** A call leaves the journal alone. *)
Lemma working_call i r s tr c o : working i r s tr -> working i r s (tr ++ [ECall c o]).
Proof. intros [Hj ? ? ? ? ?]. constructor; [|done..]. by rewrite journal_app, Hj. Qed.

Lemma safe_call i r s tr c Q :
  working i r s tr -> cmd_target c = target r -> permitted c r (candidate s) tr ->
  (forall o, working i r s (tr ++ [ECall c (Some o)]) -> Q o (tr ++ [ECall c (Some o)])) ->
  safe event_ok (call c) tr Q.
Proof.
  intros Hw Ht Hp HQ. assert (Hc : forall o, event_ok tr (ECall c o)).
  { intros o. cbn. destruct Hw as [-> ? ? ? ? ?]. split; [done|]. by exists i, r. }
  split; [done|]. intros o. split; [done|]. cbn. apply HQ. by apply working_call.
Qed.

(** Replacing the record of worker [i]. *)
Lemma records_alter (f : WorkerRecord -> WorkerRecord) i r c l :
  l !! i = Some r -> Forall (record_ok c) l -> record_ok c (f r) -> Forall (record_ok c) (alter f i l).
Proof.
  intros Hi Hl Hf. apply Forall_forall. intros x (k & Hk)%list_elem_of_lookup.
  destruct (decide (k = i)) as [->|Hne].
  - rewrite list_lookup_alter_eq, Hi in Hk. by injection Hk as <-.
  - rewrite list_lookup_alter_ne in Hk by done. rewrite Forall_forall in Hl. apply Hl, list_elem_of_lookup. eauto.
Qed.

Lemma front_alter (f : WorkerRecord -> WorkerRecord) i l s s' :
  workers s = l -> workers s' = alter f i l -> front i s -> front i s'.
Proof.
  intros Hs Hs' [H1 H2]. split; intros k r Hk; rewrite Hs', list_lookup_alter_ne by lia; rewrite <- Hs; eauto.
Qed.

Lemma extends_alter (f : WorkerRecord -> WorkerRecord) i r s s' :
  workers s !! i = Some r -> candidate s' = candidate s -> workers s' = alter f i (workers s) -> target (f r) = target r ->
  (forall a id, dget a (actions r) = Some id -> dget a (actions (f r)) = Some id) -> extends s s'.
Proof.
  intros Hi Hc Hw Ht Ha. split_and!; [done|by rewrite Hw, length_alter|].
  intros k x Hk. rewrite Hw. destruct (decide (k = i)) as [->|Hne].
  - assert (x = r) as -> by congruence. rewrite list_lookup_alter_eq, Hk. exists (f r). split_and!; [done|done|exact Ha].
  - rewrite list_lookup_alter_ne by done. by exists x.
Qed.

(** Writing a state in which only the record of worker [i] has changed. *)
Lemma safe_write (f : WorkerRecord -> WorkerRecord) i r s s' tr (Q : unit -> list event -> Prop) :
  working i r s tr -> candidate s' = candidate s -> status s' <> SAborted -> workers s' = alter f i (workers s) ->
  target (f r) = target r -> (forall a id, dget a (actions r) = Some id -> dget a (actions (f r)) = Some id) ->
  record_ok (candidate s) (f r) ->
  (records_ok s' -> front i s' -> workers s' !! i = Some (f r) ->
     (phase (f r) <> Complete -> working i (f r) s' (tr ++ [EWrite s'])) -> Q tt (tr ++ [EWrite s'])) ->
  safe event_ok (write s') tr Q.
Proof.
  intros Hw Hc Hst Hal Ht Ha Hf HQ. pose proof (w_record _ _ _ _ Hw) as Hi.
  assert (Hfr : front i s') by (apply (front_alter f i (workers s) s); [done|done|apply Hw]).
  assert (Hrs : records_ok s').
  { unfold records_ok. rewrite Hc, Hal. eapply records_alter; [done|apply Hw|done]. }
  assert (Hlk : workers s' !! i = Some (f r)) by (rewrite Hal, list_lookup_alter_eq, Hi; done).
  split; cbn.
  - rewrite (w_journal _ _ _ _ Hw). split; [split; [by exists i|done]|]. by eapply extends_alter.
  - apply HQ; [done..|]. intros Hp. constructor; [by rewrite journal_app|done..].
Qed.

(** *** The steps *)

Lemma record_ok_phase c r p ev : record_ok c r -> p ∉ [Verified; Activated; HealthChecking; Complete] -> record_ok c (with_phase p ev r).
Proof.
  intros [_ _ _ Hp] Hn. constructor; cbn; [done| | |done]; intros Hin; exfalso; apply Hn; set_solver.
Qed.

Lemma staged_ok_phase c r p ev f : staged_ok c r f -> p <> Staged -> staged_ok c (with_phase p ev r) f.
Proof. intros [He Hv] Hn. split; [|done]. rewrite evidence_with_phase, bool_decide_eq_false_2 by done. done. Qed.

Lemma active_ok_phase c r p ev f a : active_ok c r f a -> p <> Staged -> p <> Activated -> active_ok c (with_phase p ev r) f a.
Proof.
  intros (Hs & He & Hv) Hn1 Hn2. split_and!; [by apply staged_ok_phase| |done].
  rewrite evidence_with_phase, bool_decide_eq_false_2 by done. done.
Qed.

Lemma safe_transition i p ev r s tr Q :
  working i r s tr -> p <> Complete -> record_ok (candidate s) (with_phase p ev r) ->
  (forall s' tr', working i (with_phase p ev r) s' tr' -> candidate s' = candidate s -> last_call tr' = last_call tr -> Q s' tr') ->
  safe event_ok (transition i p ev s) tr Q.
Proof.
  intros Hw Hp Hr HQ. unfold transition. apply session_safe_bind. rewrite (w_record _ _ _ _ Hw).
  eapply (safe_write (with_phase p ev) i r s); [done|done|apply Hw|done|done|done|done|].
  intros _ _ _ Hw'. apply HQ; [by apply Hw'|done|by rewrite last_call_snoc].
Qed.

Lemma record_ok_action c r a id : record_ok c r -> dget a (actions r) = None -> record_ok c (with_action a id r).
Proof.
  intros [H1 H2 H3 H4] Hn. constructor; cbn; [done|done|done|].
  destruct (pending_recovery r) as [[]|]; [| |done]; rewrite dget_dset_ne; congruence.
Qed.

Lemma safe_action_id i a r s tr Q :
  working i r s tr ->
  (forall id r' s' tr', working i r' s' tr' -> candidate s' = candidate s -> last_call tr' = last_call tr ->
     dget a (actions r') = Some id -> phase r' = phase r -> target r' = target r -> prior_runtime r' = prior_runtime r ->
     transitions r' = transitions r -> Q (s', id) tr') ->
  safe event_ok (action_id i a s) tr Q.
Proof.
  intros Hw HQ. unfold action_id. rewrite (w_record _ _ _ _ Hw). destruct (dget a (actions r)) as [id|] eqn:Ha; [by eapply HQ|].
  intros id. apply session_safe_bind.
  eapply (safe_write (with_action a id) i r s); [done|done|apply Hw|done|done| | |].
  - cbn. intros b x Hb. rewrite dget_dset_ne; [done|congruence].
  - apply record_ok_action; [by eapply working_ok|done].
  - intros _ _ _ Hw'. eapply (HQ id (with_action a id r)); [by apply Hw'; destruct Hw|done|by rewrite last_call_snoc|cbn; apply dget_dset_eq|done..].
Qed.

Lemma safe_prepare i a mk r s tr Q :
  working i r s tr ->
  (forall id, match mk id with PendRollback x _ _ _ => a = "rollback" /\ x = id | PendFence x _ _ => a = "fence" /\ x = id end) ->
  (forall id r' s' tr', working i r' s' tr' -> candidate s' = candidate s -> pending_recovery r' = Some (mk id) ->
     phase r' = phase r -> target r' = target r -> transitions r' = transitions r -> Q s' tr') ->
  safe event_ok (prepare i a mk s) tr Q.
Proof.
  intros Hw Hmk HQ. unfold prepare. apply session_safe_bind. eapply safe_action_id; [done|].
  intros id r' s' tr' Hw' Hc _ Hid Hp Ht _ Htr. cbn [fst snd]. apply session_safe_bind.
  eapply (safe_write (with_pending (Some (mk id))) i r' s'); [done|done|apply Hw'|done|done|done| |].
  - destruct (working_ok _ _ _ _ Hw') as [H1 H2 H3 _]. constructor; [done|done|done|]. cbn. specialize (Hmk id).
    destruct (mk id); destruct Hmk as [-> ->]; done.
  - intros _ _ _ Hw2. eapply (HQ id (with_pending (Some (mk id)) r')); [apply Hw2; cbn; destruct Hw'; congruence|done..].
Qed.

(** After a step that ended the session's work on this worker. *)
Record settled (s : RState) (tr : list event) : Prop := {
  st_workers : workers s = workers (journal j0 tr);
  st_candidate : candidate s = candidate (journal j0 tr);
  st_status : status s <> SAborted;
  st_journal : journal_ok (journal j0 tr);
}.

Lemma working_settled i r s tr st : working i r s tr -> st <> SAborted -> settled (set_status st s) tr.
Proof. intros [Hj ? ? ? ? ?] Hst. constructor; rewrite ?Hj; [done|done|done|]. split; [by exists i|done]. Qed.

Lemma safe_fence i r s tr id reason guidance Q :
  working i r s tr -> pending_recovery r = Some (PendFence id reason guidance) ->
  (forall r' s' tr', working i r' s' tr' -> candidate s' = candidate s -> phase r' = phase r -> Q s' tr') ->
  safe event_ok (fence i (target r) id reason guidance s) tr Q.
Proof.
  intros Hw Hp HQ. unfold fence. apply session_safe_bind. pose proof (working_ok _ _ _ _ Hw) as Hok.
  eapply safe_call; [done|done| |].
  - cbn. split; [pose proof (ok_pending _ _ Hok) as H; by rewrite Hp in H|by exists guidance].
  - intros o Hw'. apply session_safe_bind.
    eapply (safe_write (fun r => with_pending None (with_recovery guidance (Some id) r)) i r s); [done|done|apply Hw|done|done|done| |].
    + destruct Hok. by constructor.
    + intros _ _ _ Hw2. eapply HQ; [by apply Hw2; destruct Hw|done|done].
Qed.

Lemma safe_recover i r s tr Q :
  working i r s tr ->
  (forall r' s' tr', working i r' s' tr' -> candidate s' = candidate s -> phase r' = phase r \/ phase r' = RolledBack -> Q s' tr') ->
  safe event_ok (recover i s) tr Q.
Proof.
  intros Hw HQ. unfold recover. rewrite (w_record _ _ _ _ Hw). pose proof (working_ok _ _ _ _ Hw) as Hok.
  destruct (pending_recovery r) as [[id reason prior generation|id reason guidance]|] eqn:Hp; [| |done].
  - apply session_safe_bind. eapply safe_call; [done|done| |].
    { cbn. split; [pose proof (ok_pending _ _ Hok) as H; by rewrite Hp in H|by exists reason]. }
    intros result Hw1. destruct (rollback_ok result prior).
    + apply session_safe_bind. eapply safe_transition; [done|done|by apply record_ok_phase; [done|set_solver]|].
      intros s2 tr2 Hw2 Hc2 _. apply session_safe_bind.
      eapply (safe_write (with_pending None) i _ s2); [done|done|apply Hw2|done|done|done| |].
      * destruct (working_ok _ _ _ _ Hw2). by constructor.
      * intros _ _ _ Hw3. eapply HQ; [by apply Hw3|done|by right].
    + apply session_safe_bind. eapply safe_prepare; [done|done|].
      intros id' r2 s2 tr2 Hw2 Hc2 Hp2 Hph _ _. rewrite (w_record _ _ _ _ Hw2), Hp2.
      eapply safe_fence; [done|done|]. intros r3 s3 tr3 Hw3 Hc3 Hph3. eapply HQ; [done|congruence|left; congruence].
  - eapply safe_fence; [done|done|]. intros r3 s3 tr3 Hw3 Hc3 Hph3. eapply HQ; [done|done|by left].
Qed.

Lemma safe_fail i reason ev r s tr (Q : RState * bool -> list event -> Prop) :
  working i r s tr -> (forall s' tr', settled s' tr' -> Q (s', false) tr') ->
  safe event_ok (fail_worker i reason ev s) tr Q.
Proof.
  intros Hw HQ. unfold fail_worker. apply session_safe_bind.
  eapply safe_transition; [done|done|apply record_ok_phase; [by eapply working_ok|set_solver]|].
  intros s1 tr1 Hw1 Hc1 _. rewrite (w_record _ _ _ _ Hw1). pose proof (working_ok _ _ _ _ Hw1) as Hok.
  match goal with |- context [if ?b then _ else _] => destruct b end.
  - apply session_safe_bind.
    eapply (safe_write (with_recovery _ _) i _ s1); [done|done|done|done|done|done| |].
    + destruct Hok. by constructor.
    + intros _ _ _ Hw2. apply HQ. by eapply (working_settled i _ _ _ SFailed) in Hw2.
  - apply session_safe_bind. eapply safe_call; [done|done|done|]. intros fresh Hw2. apply session_safe_bind.
    assert (Hrest : forall r' s' tr', working i r' s' tr' -> safe event_ok (s3 ← recover i s'; mret (set_status SFailed s3, false)) tr' Q).
    { intros r' s' tr' Hw'. apply session_safe_bind. eapply safe_recover; [done|]. intros r3 s3 tr3 Hw3 _ _. apply HQ. by eapply working_settled. }
    destruct (busy fresh); [|destruct (_ && _)].
    all: eapply safe_prepare; [done|done|]; intros; by eapply Hrest.
Qed.

(** Between two workers: those before [i] are complete and the journal is up to date. *)
Record between (i : nat) (s : RState) (tr : list event) : Prop := {
  b_journal : journal j0 tr = s;
  b_status : status s <> SAborted;
  b_front : exists k, (i <= k)%nat /\ front k s;
  b_records : records_ok s;
}.

(** What [_advance] returns: the worker is complete, or the session is over. *)
Definition advanced (i : nat) (x : RState * bool) (tr : list event) : Prop :=
  if x.2 then between (S i) x.1 tr else settled x.1 tr.

Lemma between_end i s tr : between i s tr -> settled (set_status SComplete s) tr.
Proof. intros [Hj Hs (k & _ & Hf) Hr]. constructor; rewrite ?Hj; [done|done|done|]. split; [by exists k|done]. Qed.

Lemma working_stop i r s tr : working i r s tr -> settled s tr.
Proof. intros [Hj ? ? ? ? ?]. constructor; rewrite ?Hj; [done|done|done|]. split; [by exists i|done]. Qed.

Lemma safe_record i s r tr Q : workers s !! i = Some r -> Q r tr -> safe event_ok (record_of i s) tr Q.
Proof. unfold record_of. by intros ->. Qed.

Lemma record_ok_sampling c r l : record_ok c r -> (exists f a, active_ok c r f a) -> record_ok c (with_phase HealthChecking [("health", PList l)] r).
Proof.
  intros [_ _ _ Hp] (f & a & Hact). constructor; cbn; [| | |done]; intros _.
  - exists f. apply staged_ok_phase; [apply Hact|done].
  - exists f, a. by apply active_ok_phase.
  - exists l. by rewrite evidence_with_phase.
Qed.

Lemma safe_check_health n i w c samples r s tr :
  working i r s tr -> c = candidate s -> w = target r -> (exists f a, active_ok c r f a) ->
  evidence r HealthChecking "health" = Some (PList samples) -> (health_samples <= n + List.length samples)%nat ->
  safe event_ok (check_health n i w c samples s) tr (advanced i).
Proof.
  revert samples r s tr. induction n as [|n IH]; intros samples r s tr Hw -> -> (f & a & Hact) Hev Hn; cbn [check_health].
  - apply session_safe_bind. unfold transition. apply session_safe_bind. rewrite (w_record _ _ _ _ Hw).
    eapply (safe_write (with_phase Complete _) i r s); [done|done|apply Hw|done|done|done| |].
    + destruct (working_ok _ _ _ _ Hw) as [_ _ _ H4]. constructor; cbn; [| | |done].
      * intros _. exists f. apply staged_ok_phase; [apply Hact|done].
      * intros _. exists f, a. by apply active_ok_phase.
      * intros _. exists samples. rewrite evidence_with_phase, bool_decide_eq_false_2 by done. split; [done|]. intros _. lia.
    + intros Hrs Hfr Hlk _. cbn. constructor; [by rewrite journal_app|apply Hw| |done]. exists (S i). split; [lia|].
      destruct Hfr as [H1 H2]. split; intros k x Hk Hx; [|apply (H2 k); [lia|done]].
      destruct (decide (k = i)) as [->|]; [|apply (H1 k); [lia|done]]. rewrite Hlk in Hx. by injection Hx as <-.
  - apply session_safe_bind. eapply safe_call; [done|done|cbn; eauto|]. intros sample Hw1. apply session_safe_bind.
    eapply safe_transition; [done|done| |].
    + apply record_ok_sampling; [by eapply working_ok|by exists f, a].
    + intros s1 tr1 Hw2 Hc2 _. destruct (healthy sample (candidate s)); cbn [negb].
      * eapply IH; [done|done|done| | |].
        -- exists f, a. rewrite <- Hc2 in Hact |- *. by apply active_ok_phase.
        -- by rewrite evidence_with_phase.
        -- rewrite length_app. cbn. lia.
      * by eapply safe_fail.
Qed.

Lemma safe_finish i r s tr w c f a :
  working i r s tr -> c = candidate s -> w = target r -> staged_ok c r f -> evidence r Activated "activation" = Some (PDict a) ->
  phase r ∈ [Activated; HealthChecking] ->
  safe event_ok (finish health_samples i w c f a s) tr (advanced i).
Proof.
  intros Hw -> -> Hst Hev Hph. unfold finish. destruct (nonempty (verify_active a f (target r) (candidate s))) eqn:Hv; [by eapply safe_fail|].
  assert (Hact : active_ok (candidate s) r f a).
  { split_and!; [done|done|]. by destruct (verify_active a f (target r) (candidate s)). }
  apply session_safe_bind. eapply safe_record; [apply Hw|]. apply session_safe_bind.
  assert (Hgo : forall r' s' tr', working i r' s' tr' -> candidate s' = candidate s -> target r' = target r ->
      active_ok (candidate s) r' f a -> phase r' = HealthChecking ->
      safe event_ok (r1 ← record_of i s'; samples ← lift (samples_of r1); check_health (health_samples - List.length samples) i (target r) (candidate s) samples s')
        tr' (advanced i)).
  { intros r' s' tr' Hw' Hc' Ht' Ha' Hp'. apply session_safe_bind. eapply safe_record; [apply Hw'|]. apply session_safe_bind.
    destruct (ok_health _ _ (working_ok _ _ _ _ Hw')) as (l & He & _); [rewrite Hp'; set_solver|].
    unfold samples_of. rewrite He. cbn. eapply safe_check_health; [done|by rewrite Hc'|by rewrite Ht'|by exists f, a|done|lia]. }
  case_bool_decide as Hp.
  - eapply safe_transition; [done|done|apply record_ok_sampling; [by eapply working_ok|by exists f, a]|].
    intros s1 tr1 Hw1 Hc1 _. eapply Hgo; [done|done|done|by apply active_ok_phase|done].
  - cbn. eapply Hgo; [done|done|done|done|set_solver].
Qed.

Lemma staged_ok_transitions c r r' f : transitions r' = transitions r -> staged_ok c r f -> staged_ok c r' f.
Proof. unfold staged_ok, evidence. by intros ->. Qed.

Lemma safe_defer i ev r s tr :
  working i r s tr -> safe event_ok (s2 ← transition i Deferred ev s; mret (s2, false)) tr (advanced i).
Proof.
  intros Hw. apply session_safe_bind. eapply safe_transition; [done|done|apply record_ok_phase; [by eapply working_ok|set_solver]|].
  intros s2 tr2 Hw2 _ _. by eapply working_stop.
Qed.

(** The activation boundary, for a verified worker. *)
Lemma safe_boundary i r s tr f generation :
  working i r s tr -> staged_ok (candidate s) r f ->
  safe event_ok
    (fresh ← call (CObserve (target r));
     if busy fresh || negb (py_eq (pget "claim_generation" fresh) (PStr generation)) then
       s2 ← transition i Deferred [("reason", PStr "claim changed at activation boundary"); ("observation", PDict fresh)] s;
       mret (s2, false)
     else
       x ← action_id i "activate" s;
       activated ← call (CActivate (target r) (candidate s) generation x.2);
       if truthy (pget "busy" activated) then
         s2 ← transition i Deferred [("reason", PStr "claim won activation race")] x.1; mret (s2, false)
       else
         s2 ← transition i Activated [("activation", PDict activated); ("action_id", PStr x.2)] x.1;
         finish health_samples i (target r) (candidate s) f activated s2) tr (advanced i).
Proof.
  intros Hw Hst. apply session_safe_bind. eapply safe_call; [done|done|done|]. intros fresh Hw1.
  destruct (busy fresh) eqn:Hb; cbn [orb]; [by eapply safe_defer|].
  destruct (py_eq _ _) eqn:Hg; cbn [negb]; [|by eapply safe_defer].
  apply session_safe_bind. eapply safe_action_id; [done|].
  intros id r2 s2 tr2 Hw2 Hc2 Hl2 Hid Hp2 Ht2 _ Htr2. cbn [fst snd]. apply session_safe_bind. rewrite <- Ht2, <- Hc2.
  eapply safe_call; [done|done| |].
  { cbn. split_and!; [done|done|exists f; rewrite Hc2; by eapply staged_ok_transitions|].
    exists fresh. rewrite Hl2, last_call_snoc, Ht2. done. }
  intros activated Hw3. destruct (truthy (pget "busy" activated)); [by eapply safe_defer|].
  apply session_safe_bind. eapply safe_transition; [done|done| |].
  - destruct (working_ok _ _ _ _ Hw3) as [_ _ _ H4]. constructor; cbn; [| | |done].
    + intros _. exists f. apply staged_ok_phase; [|done]. rewrite Hc2. by eapply staged_ok_transitions.
    + intros Hin. exfalso. set_solver.
    + intros Hin. exfalso. set_solver.
  - intros s3 tr3 Hw4 Hc4 _. eapply safe_finish; [done|congruence|done| | |cbn; set_solver].
    + apply staged_ok_phase; [|done]. rewrite Hc2. by eapply staged_ok_transitions.
    + by rewrite evidence_with_phase.
Qed.

Lemma safe_activate i r s tr f :
  working i r s tr -> evidence r Staged "staging" = Some (PDict f) -> phase r ∈ [Staged; Verified; Activated; HealthChecking] ->
  safe event_ok (activate health_samples i (target r) (candidate s) f s) tr (advanced i).
Proof.
  intros Hw He Hph. unfold activate. destruct (nonempty (verify_staged f (candidate s))) eqn:Hv; [by eapply safe_fail|].
  assert (Hst : staged_ok (candidate s) r f) by (split; [done|by destruct (verify_staged f (candidate s))]).
  apply session_safe_bind. eapply safe_record; [apply Hw|]. apply session_safe_bind.
  case_bool_decide as Hp.
  - eapply safe_transition; [done|done| |].
    + destruct (working_ok _ _ _ _ Hw) as [_ _ _ H4]. constructor; cbn; [| | |done].
      * intros _. exists f. by apply staged_ok_phase.
      * intros Hin. exfalso. set_solver.
      * intros Hin. exfalso. set_solver.
    + intros s1 tr1 Hw1 Hc1 _. apply session_safe_bind. eapply safe_record; [apply Hw1|]. cbn [with_phase phase].
      rewrite bool_decide_eq_true_2 by done. rewrite <- Hc1. eapply (safe_boundary i (with_phase Verified _ r) s1 tr1 f); [done|].
      rewrite Hc1. by apply staged_ok_phase.
  - cbn. apply session_safe_bind. eapply safe_record; [apply Hw|]. case_bool_decide as Hp2; [by eapply safe_boundary|].
    unfold dict_evidence. destruct (evidence r Activated "activation") as [[]|] eqn:Ha; try done. cbn.
    eapply safe_finish; [done|done|done|done|done|set_solver].
Qed.

Lemma safe_advance i r s tr :
  working i r s tr -> phase r ∉ [Failed; RolledBack] ->
  safe event_ok (advance health_samples i (candidate s) s) tr (advanced i).
Proof.
  intros Hw Hph. unfold advance. apply session_safe_bind. eapply safe_record; [apply Hw|]. case_bool_decide as Hp.
  - apply session_safe_bind. eapply safe_call; [done|done|done|]. intros obs Hw1. apply session_safe_bind.
    eapply safe_transition; [done|done|apply record_ok_phase; [by eapply working_ok|set_solver]|].
    intros s1 tr1 Hw2 Hc2 _. destruct (busy obs); [by eapply safe_defer|].
    destruct (nonempty _); cbn [negb]; [|by eapply safe_fail].
    apply session_safe_bind. eapply safe_transition; [done|done|apply record_ok_phase; [by eapply working_ok|set_solver]|].
    intros s2 tr2 Hw3 Hc3 _. apply session_safe_bind. eapply safe_action_id; [done|].
    intros id r4 s4 tr4 Hw4 Hc4 _ Hid Hp4 Ht4 _ Htr4. cbn [fst snd]. apply session_safe_bind.
    cbn [with_phase target] in Ht4. rewrite <- Ht4.
    eapply safe_call; [done|done|cbn; split; [congruence|done]|]. intros st Hw5. apply session_safe_bind.
    eapply safe_transition; [done|done|apply record_ok_phase; [by eapply working_ok|set_solver]|].
    intros s6 tr6 Hw6 Hc6 _. replace (candidate s) with (candidate s6) by congruence.
    eapply (safe_activate i (with_phase Staged _ r4) s6); [done|by rewrite evidence_with_phase|cbn; set_solver].
  - apply session_safe_bind. unfold dict_evidence. destruct (evidence r Staged "staging") as [[]|] eqn:He; try done. cbn.
    eapply safe_activate; [done|done|]. pose proof (w_phase _ _ _ _ Hw). destruct (phase r); set_solver.
Qed.

Lemma safe_resume_from n i s tr :
  between i s tr -> safe event_ok (resume_from health_samples n i s) tr settled.
Proof.
  revert i s tr. induction n as [|n IH]; intros i s tr Hb; cbn [resume_from]; [by eapply between_end|].
  apply session_safe_bind. destruct (workers s !! i) as [r|] eqn:Hr; [|unfold record_of; by rewrite Hr].
  eapply safe_record; [done|]. case_bool_decide as Hp.
  - apply IH. destruct Hb as [Hj Hs (k & Hk & Hf) Hrs]. constructor; [done|done| |done].
    destruct (decide (i = k)) as [->|Hne]; [|exists k; split; [lia|done]]. exists (S k). split; [lia|].
    destruct Hf as [H1 H2]. split; intros m x Hm Hx; [|apply (H2 m); [lia|done]].
    destruct (decide (m = k)) as [->|]; [congruence|apply (H1 m); [lia|done]].
  - assert (Hw : working i r s tr).
    { destruct Hb as [Hj Hs (k & Hk & Hf) Hrs]. assert (k = i) as ->; [|by constructor].
      destruct (decide (i = k)); [done|]. destruct Hp. apply (proj1 Hf i); [lia|done]. }
    assert (Hgo : forall r' s' tr', working i r' s' tr' -> safe event_ok
        (r1 ← record_of i s';
         if bool_decide (phase r1 ∈ [Failed; RolledBack]) then mret (set_status SFailed s')
         else x ← advance health_samples i (candidate s') s';
              match x with (s2, true) => resume_from health_samples n (S i) s2 | (s2, false) => mret s2 end) tr' settled).
    { intros r' s' tr' Hw'. apply session_safe_bind. eapply safe_record; [apply Hw'|]. case_bool_decide as Hf; [by eapply working_settled|].
      apply session_safe_bind. eapply session_safe_mono; [|by eapply safe_advance]. intros [s2 []] tr2 Ha; [by apply IH|done]. }
    apply session_safe_bind. destruct (pending_recovery r) as [p|]; [|by eapply Hgo].
    case_bool_decide; [|by eapply Hgo]. eapply safe_recover; [done|]. intros r' s' tr' Hw' _ _. by eapply Hgo.
Qed.

(** A session keeps the discipline. *)
Lemma safe_session p tr :
  journal_ok (journal j0 tr) -> p = resume health_samples (journal j0 tr) \/ p = abort (journal j0 tr) ->
  safe event_ok p tr (fun _ _ => True).
Proof.
  intros [(k & Hf) Hr] [-> | ->].
  - unfold resume. case_bool_decide as Hs; [done|]. apply session_safe_bind. eapply session_safe_mono; [|apply safe_resume_from].
    + intros s' tr' [Hw Hc Hst [[i Hfi] Hrs]]. cbn. split; [|done]. split; [split|].
      * exists i. by destruct Hfi as [H1 H2]; split; rewrite Hw.
      * unfold records_ok. by rewrite Hw, Hc.
      * split_and!; [done|by rewrite Hw|]. intros m x Hx. exists x. by rewrite Hw.
    + constructor; [done|done| |done]. exists k. split; [lia|done].
  - unfold abort. case_bool_decide; [done|]. cbn. split; [|done]. split; [split; [by exists k|done]|]. split_and!; [done|done|]. intros m x Hx. by exists x.
Qed.

(** The journal of an allowed trace is good. *)
Lemma allowed_journal tr : journal_ok j0 -> allowed event_ok tr -> journal_ok (journal j0 tr).
Proof.
  intros H0 Ha. induction Ha as [|tr e Ha IH He]; [done|]. rewrite journal_app. destruct e as [c o|s]; [done|apply He].
Qed.

Lemma sessions_allowed tr : journal_ok j0 -> sessions health_samples j0 tr -> allowed event_ok tr.
Proof.
  intros H0 Hs. induction Hs as [|tr p tr' o Hs IH Hp He]; [constructor|].
  eapply session_safe_exec; [done|by apply safe_session; [apply allowed_journal|]|done].
Qed.
End discipline.

(** The journal [plan] creates is good. *)
Lemma pristine_ok hs s : Forall pristine (workers s) -> journal_ok hs s.
Proof.
  intros H. rewrite Forall_lookup in H. split.
  - exists 0%nat. split; [lia|]. intros k r _ Hk. by eapply H.
  - apply Forall_lookup. intros k r Hk. destruct (H k r Hk) as (Hp & _ & _ & Hn).
    constructor; rewrite ?Hp, ?Hn; [set_solver..|done].
Qed.

(** ** Playing a session: at most [n] events, with the backend's replies in order *)

Fixpoint play {A} (n : nat) (replies : list (option row)) (p : prog A) : list event * option A :=
  match p with
  | Ret a => ([], Some a)
  | Raise _ => ([], None)
  | Fresh k => play n replies (k "id")
  | Write s k =>
      match n with
      | O => ([], None)
      | S n' => let '(tr, o) := play n' replies k in (EWrite s :: tr, o)
      end
  | Call c k =>
      match n, replies with
      | S n', Some r :: replies' => let '(tr, o) := play n' replies' (k r) in (ECall c (Some r) :: tr, o)
      | S n', None :: _ => ([ECall c None], None)
      | _, _ => ([], None)
      end
  end.

Lemma play_exec {A} (p : prog A) n replies : exec p (play n replies p).1 (play n replies p).2.
Proof.
  revert n replies. induction p as [a|e|c k IH|k IH|s k IH]; intros n replies; cbn.
  - constructor.
  - constructor.
  - destruct n as [|n], replies as [|[r|] replies]; try constructor.
    specialize (IH r n replies). destruct (play n replies (k r)) as [tr o]. by constructor.
  - apply (exec_fresh k "id"), IH.
  - destruct n as [|n]; [constructor|]. specialize (IH n replies). destruct (play n replies k) as [tr o]. by constructor.
Qed.

(** ** Every session ends: the number of backend calls is bounded, whatever the backend answers *)

Fixpoint calls_le {A} (n : nat) (p : prog A) : Prop :=
  match p with
  | Ret _ | Raise _ => True
  | Call c k => match n with O => False | S n' => forall r, calls_le n' (k r) end
  | Fresh k => forall id, calls_le n (k id)
  | Write s k => calls_le n k
  end.

Definition calls (tr : list event) : nat := List.length (List.filter (fun e => match e with ECall _ _ => true | EWrite _ => false end) tr).

Lemma calls_le_exec {A} n (p : prog A) tr o : calls_le n p -> exec p tr o -> (calls tr <= n)%nat.
Proof.
  intros Hn He. revert n Hn. unfold calls. induction He as [a|p|c k r tr o He IH|c k|k id tr o He IH|s k tr o He IH]; intros n Hn; cbn in *; try lia.
  - destruct n as [|n]; [done|]. specialize (IH n (Hn r)). lia.
  - destruct n; [done|lia].
  - by apply IH.
  - by apply IH.
Qed.

Lemma calls_le_mono {A} n m (p : prog A) : (n <= m)%nat -> calls_le n p -> calls_le m p.
Proof.
  revert n m. induction p as [a|e|c k IH|k IH|s k IH]; intros n m Hnm; cbn; [done|done| |eauto|eauto].
  destruct n as [|n]; [done|]. destruct m as [|m]; [lia|]. intros H r. eapply IH; [|done]. lia.
Qed.

Lemma calls_le_bind {A B} n m (p : prog A) (f : A -> prog B) :
  calls_le n p -> (forall a, calls_le m (f a)) -> calls_le (n + m) (p ≫= f).
Proof.
  unfold mbind, prog_bind. intros Hp Hf. revert n Hp. induction p as [a|e|c k IH|k IH|s k IH]; intros n; cbn.
  - intros _. eapply calls_le_mono; [|apply Hf]. lia.
  - done.
  - destruct n as [|n]; [done|]. intros H r. cbn. by apply IH.
  - intros H id. by apply IH.
  - intros H. by apply IH.
Qed.

(** A call-free first part. *)
Lemma calls_le_bind0 {A B} m (p : prog A) (f : A -> prog B) : calls_le 0 p -> (forall a, calls_le m (f a)) -> calls_le m (p ≫= f).
Proof. apply (calls_le_bind 0). Qed.
Lemma calls_le_call {B} m c (f : row -> prog B) : (forall r, calls_le m (f r)) -> calls_le (S m) (call c ≫= f).
Proof. intros H r. apply H. Qed.

Lemma calls_transition i p ev s : calls_le 0 (transition i p ev s).
Proof. done. Qed.
Lemma calls_record i s : calls_le 0 (record_of i s).
Proof. unfold record_of. by destruct (workers s !! i). Qed.
Lemma calls_action i a s : calls_le 0 (action_id i a s).
Proof. unfold action_id. destruct (workers s !! i) as [r|]; [|done]. by destruct (dget a (actions r)). Qed.
Lemma calls_prepare i a mk s : calls_le 0 (prepare i a mk s).
Proof. apply calls_le_bind0; [apply calls_action|done]. Qed.
Lemma calls_lift {A} (r : result exn A) : calls_le 0 (lift r).
Proof. by destruct r. Qed.
Create HintDb calls.
#[export] Hint Resolve calls_transition calls_record calls_action calls_prepare calls_lift : calls.

(** Peel a program: call-free parts and single calls. *)
Ltac calls_step :=
  match goal with
  | |- calls_le _ (mret _) => exact I
  | |- calls_le _ (Ret _) => exact I
  | |- calls_le _ (Raise _) => exact I
  | |- calls_le (S _) (call _ ≫= _) => apply calls_le_call; intros ?
  | |- calls_le _ ((if ?b then _ else _) ≫= _) => destruct b
  | |- calls_le _ (if ?b then _ else _) => destruct b
  | |- calls_le _ (_ ≫= _) => apply calls_le_bind0; [by auto with calls|intros ?]
  end.

Lemma calls_fence i w id reason guidance s : calls_le 1 (fence i w id reason guidance s).
Proof. unfold fence. by repeat calls_step. Qed.

Lemma calls_recover i s : calls_le 2 (recover i s).
Proof.
  unfold recover. destruct (workers s !! i) as [r|]; [|done]. destruct (pending_recovery r) as [[]|]; [| |done].
  - calls_step. calls_step; [by repeat calls_step|].
    apply calls_le_bind0; [apply calls_prepare|]. intros s1. destruct (workers s1 !! i) as [r1|]; [|done].
    by destruct (pending_recovery r1) as [[]|].
  - eapply calls_le_mono; [|apply calls_fence]. lia.
Qed.

Lemma calls_fail i reason ev s : calls_le 3 (fail_worker i reason ev s).
Proof.
  unfold fail_worker. apply calls_le_bind0; [done|]. intros s1. destruct (workers s1 !! i) as [r|]; [|done].
  calls_step; [by repeat calls_step|]. calls_step.
  apply calls_le_bind0; [repeat case_match; apply calls_prepare|]. intros s2.
  eapply (calls_le_bind 2 0); [apply calls_recover|done].
Qed.

Section bounds.
Context (health_samples : nat).

Lemma calls_check_health n i w c samples s : calls_le (n + 3) (check_health n i w c samples s).
Proof.
  revert samples s. induction n as [|n IH]; intros samples s; cbn [check_health plus].
  - apply (calls_le_mono 0); [lia|exact I].
  - calls_step. apply calls_le_bind0; [done|]. intros s1. calls_step; [|apply IH].
    eapply calls_le_mono; [|apply calls_fail]. lia.
Qed.

Lemma calls_finish i w c f a s : calls_le (health_samples + 3) (finish health_samples i w c f a s).
Proof.
  unfold finish. calls_step; [eapply calls_le_mono; [|apply calls_fail]; lia|].
  apply calls_le_bind0; [apply calls_record|intros r]. apply calls_le_bind0; [by destruct (bool_decide _)|intros s1].
  apply calls_le_bind0; [apply calls_record|intros r1]. apply calls_le_bind0; [apply calls_lift|intros l].
  eapply calls_le_mono; [|apply calls_check_health]. lia.
Qed.

Lemma calls_activate i w c f s : calls_le (health_samples + 5) (activate health_samples i w c f s).
Proof.
  unfold activate. calls_step; [eapply calls_le_mono; [|apply calls_fail]; lia|].
  apply calls_le_bind0; [apply calls_record|intros r]. apply calls_le_bind0; [by destruct (bool_decide _)|intros s1].
  apply calls_le_bind0; [apply calls_record|intros r1]. replace (health_samples + 5)%nat with (S (S (health_samples + 3))) by lia.
  calls_step.
  - calls_step. calls_step; [by repeat calls_step|]. apply calls_le_bind0; [apply calls_action|intros x]. calls_step.
    calls_step; [by repeat calls_step|]. apply calls_le_bind0; [done|intros s2]. apply calls_finish.
  - apply calls_le_bind0; [apply calls_lift|intros a]. eapply calls_le_mono; [|apply calls_finish]. lia.
Qed.

Lemma calls_advance i c s : calls_le (health_samples + 7) (advance health_samples i c s).
Proof.
  unfold advance. apply calls_le_bind0; [apply calls_record|intros r].
  replace (health_samples + 7)%nat with (S (S (health_samples + 5))) by lia. calls_step.
  - calls_step. apply calls_le_bind0; [done|intros s1]. calls_step; [by repeat calls_step|].
    calls_step; [eapply calls_le_mono; [|apply calls_fail]; lia|]. apply calls_le_bind0; [done|intros s2].
    apply calls_le_bind0; [apply calls_action|intros x]. calls_step. apply calls_le_bind0; [done|intros s3]. apply calls_activate.
  - apply calls_le_bind0; [apply calls_lift|intros f]. eapply calls_le_mono; [|apply calls_activate]. lia.
Qed.

Lemma calls_resume_from n i s : calls_le (n * (health_samples + 9)) (resume_from health_samples n i s).
Proof.
  revert i s. induction n as [|n IH]; intros i s; cbn [resume_from]; [done|].
  apply calls_le_bind0; [apply calls_record|intros r]. replace (S n * (health_samples + 9))%nat with (2 + ((health_samples + 7) + n * (health_samples + 9)))%nat by lia.
  calls_step; [eapply calls_le_mono; [|apply IH]; lia|].
  apply calls_le_bind.
  - destruct (pending_recovery r); [|done]. destruct (bool_decide _); [apply calls_recover|done].
  - intros s1. apply calls_le_bind0; [apply calls_record|intros r1]. calls_step; [done|].
    apply calls_le_bind; [apply calls_advance|]. intros [s2 []]; [apply IH|done].
Qed.
End bounds.

(** ** A failed worker is contained before the session ends *)

(** An activated worker that failed has been fenced: the fence was answered and its receipt kept. *)
Definition contained (r : WorkerRecord) (tr : list event) : Prop :=
  phase r = Failed -> (exists ev, (Activated, ev) ∈ transitions r) ->
  exists id reason o, recovery_receipt r = Some id /\ pending_recovery r = None /\ ECall (CFence (target r) reason id) (Some o) ∈ tr.

Abbreviation returns := (safe (fun _ _ => True)).




















Section contained.
Context (health_samples : nat).







Definition all_contained (s : RState) (tr : list event) : Prop := forall k r, workers s !! k = Some r -> contained r tr.




Lemma contained_ret s tr st : all_contained s tr -> returns (mret (set_status st s)) tr all_contained.
Proof. done. Qed.


End contained.

(** ** An honest backend and an idle fleet *)

(** The run against a backend that answers every call, with the [n]th fresh identifier [ids n]. *)
Fixpoint run {A} (b : cmd -> row) (ids : nat -> string) (n : nat) (p : prog A) : option A :=
  match p with
  | Ret a => Some a
  | Raise _ => None
  | Call c k => run b ids n (k (b c))
  | Fresh k => run b ids (S n) (k (ids n))
  | Write _ k => run b ids n k
  end.

(** [lost] are the activation keys that lost a race: the backend deduplicates a key and returns the
    original attestation when it is replayed (docs/worker-rollouts.md), so they stay busy, and nothing
    is promised about them. *)
Record honest (b : cmd -> row) (lost : string -> Prop) (c : PublishedVersion) : Prop := {
  honest_observe : forall w, busy (b (CObserve w)) = false /\ exists g, nonempty g = true /\ pget "claim_generation" (b (CObserve w)) = PStr g;
  honest_stage : forall w id, verify_staged (b (CStage w c id)) c = "";
  honest_activate : forall w g id id', ~ lost id -> truthy (pget "busy" (b (CActivate w c g id))) = false
    /\ verify_active (b (CActivate w c g id)) (b (CStage w c id')) w c = "";
  honest_health : forall w, healthy (b (CHealth w c)) c = true;
}.

Section honest.
Context (health_samples : nat) (b : cmd -> row) (lost : string -> Prop) (c : PublishedVersion) (Hb : honest b lost c).

Fixpoint will {A} (p : prog A) (Q : A -> Prop) : Prop :=
  match p with
  | Ret a => Q a
  | Raise _ => False
  | Call x k => will (k (b x)) Q
  | Fresh k => forall id, ~ lost id -> will (k id) Q
  | Write _ k => will k Q
  end.

Lemma will_run {A} ids n (p : prog A) Q : (forall m, ~ lost (ids m)) -> will p Q -> exists a, run b ids n p = Some a /\ Q a.
Proof. intros Hids. revert n. induction p as [a|e|x k IH|k IH|s k IH]; intros n; cbn; eauto. done. Qed.

(** The worker has no activation key that lost a race. *)
Definition key_good (r : WorkerRecord) : Prop := forall id, dget "activate" (actions r) = Some id -> ~ lost id.
Lemma will_bind {A B} (p : prog A) (f : A -> prog B) Q : will p (fun a => will (f a) Q) -> will (p ≫= f) Q.
Proof. unfold mbind, prog_bind. induction p as [a|e|x k IH|k IH|s k IH]; cbn; eauto. Qed.
Lemma will_mono {A} (p : prog A) (Q R : A -> Prop) : (forall a, Q a -> R a) -> will p Q -> will p R.
Proof. intros HQ. induction p as [a|e|x k IH|k IH|s k IH]; cbn; eauto. Qed.

(** [s] is [s0] with [r] as the record of worker [i]. *)
Definition upto (i : nat) (r : WorkerRecord) (s0 s : RState) : Prop :=
  workers s = <[i := r]> (workers s0) /\ candidate s = candidate s0 /\ (i < List.length (workers s0))%nat.

Lemma upto_lookup i r s0 s : upto i r s0 s -> workers s !! i = Some r.
Proof. intros (-> & _ & Hi). by apply list_lookup_insert_eq. Qed.

Lemma upto_alter i r s0 s s' f : upto i r s0 s -> workers s' = alter f i (workers s) -> candidate s' = candidate s -> upto i (f r) s0 s'.
Proof.
  intros Hu Hw Hc. pose proof (upto_lookup _ _ _ _ Hu) as Hl. destruct Hu as (Hs & Hcs & Hi).
  split_and!; [|congruence|done]. rewrite Hw. apply list_eq. intros k. rewrite Hs. destruct (decide (k = i)) as [->|Hne].
  - rewrite list_lookup_alter_eq, !list_lookup_insert_eq by done. done.
  - by rewrite list_lookup_alter_ne, !list_lookup_insert_ne.
Qed.

Lemma will_step {B} i p ev r s0 s (f : RState -> prog B) Q :
  upto i r s0 s -> (forall s1, upto i (with_phase p ev r) s0 s1 -> will (f s1) Q) -> will (transition i p ev s ≫= f) Q.
Proof. intros Hu H. apply H. by eapply upto_alter. Qed.

Lemma will_action {B} i a r s0 s (f : RState * string -> prog B) Q :
  upto i r s0 s ->
  (forall x r1, upto i r1 s0 x.1 -> (r1 = r /\ dget a (actions r) = Some x.2 \/ r1 = with_action a x.2 r /\ ~ lost x.2) -> will (f x) Q) ->
  will (action_id i a s ≫= f) Q.
Proof.
  intros Hu H. unfold action_id. rewrite (upto_lookup _ _ _ _ Hu). destruct (dget a (actions r)) as [id|] eqn:Hd.
  - apply (H (s, id) r); [done|by left].
  - intros id Hid. cbn. eapply (H (_, id)); [by eapply upto_alter|by right].
Qed.

Lemma will_record {B} i r s0 s (f : WorkerRecord -> prog B) Q : upto i r s0 s -> will (f r) Q -> will (record_of i s ≫= f) Q.
Proof. intros Hu H. unfold record_of. by rewrite (upto_lookup _ _ _ _ Hu). Qed.

(** What [advance] comes to: worker [i] is complete and nothing else has changed. *)
Definition done_with (i : nat) (s0 : RState) (x : RState * bool) : Prop := x.2 = true /\ exists r, upto i r s0 x.1 /\ phase r = Complete.

Lemma will_health n i w l r s0 s : upto i r s0 s -> will (check_health n i w c l s) (done_with i s0).
Proof.
  revert l r s. induction n as [|n IH]; intros l r s Hu; cbn [check_health].
  - eapply will_step; [done|]. intros s1 Hu1. split; [done|]. by eexists.
  - cbn. rewrite (honest_health _ _ _ Hb). cbn. eapply IH, upto_alter; [done|done|done].
Qed.

Lemma will_finish i w f a r s0 s :
  upto i r s0 s -> phase r = Activated -> verify_active a f w c = "" -> will (finish health_samples i w c f a s) (done_with i s0).
Proof.
  intros Hu Hp Hv. unfold finish. rewrite Hv. cbn [nonempty]. eapply will_record; [done|]. rewrite bool_decide_eq_true_2 by done.
  eapply will_step; [done|]. intros s1 Hu1. eapply will_record; [done|].
  unfold samples_of. rewrite evidence_with_phase. cbn [bool_decide]. rewrite bool_decide_eq_true_2 by done. cbn -[check_health].
  by eapply will_health.
Qed.

Lemma will_activate i w id g r s0 s :
  upto i r s0 s -> phase r = Staged -> key_good r -> evidence r Draining "idle_generation" = Some (PStr g) ->
  pget "claim_generation" (b (CObserve w)) = PStr g ->
  will (activate health_samples i w c (b (CStage w c id)) s) (done_with i s0).
Proof.
  intros Hu Hp Hk Hg Ho. unfold activate. rewrite (honest_stage _ _ _ Hb). cbn [nonempty]. eapply will_record; [done|].
  rewrite bool_decide_eq_true_2 by done. eapply will_step; [done|]. intros s1 Hu1. eapply will_record; [done|].
  rewrite bool_decide_eq_true_2 by done. rewrite evidence_with_phase, bool_decide_eq_false_2 by done. cbn [andb]. rewrite Hg.
  apply will_bind. cbn [call will]. rewrite Ho, (proj1 (honest_observe _ _ _ Hb w)). cbn zeta. change (py_str (PStr g)) with g. rewrite py_eq_refl. cbn [orb negb].
  eapply will_action; [done|]. intros x r1 Hu2 Hr1. apply will_bind. cbn [call will].
  assert (Hx : ~ lost x.2) by (destruct Hr1 as [[_ Hd]|[_ Hn]]; [by apply Hk|done]).
  destruct (honest_activate _ _ _ Hb w g x.2 id Hx) as [-> Hv]. eapply will_step; [done|]. intros s2 Hu3. by eapply will_finish.
Qed.

(** The phases before anything has been staged. *)
Definition idle (r : WorkerRecord) : Prop := phase r ∈ [Planned; WaitingForIdle; Draining; Deferred].

Lemma idle_spec r : idle r -> phase r <> Complete /\ phase r <> Failed /\ phase r <> RolledBack.
Proof. unfold idle. rewrite !elem_of_cons, elem_of_nil. intros [->|[->|[->|[->|Hin]]]]; by try inversion Hin. Qed.

(** An idle worker that can be activated. *)
Definition activatable (r : WorkerRecord) : Prop := idle r /\ key_good r.

Lemma will_advance i r s : workers s !! i = Some r -> activatable r -> will (advance health_samples i c s) (done_with i s).
Proof.
  intros Hr [Hi Hk]. assert (Hu : upto i r s s).
  { split_and!; [by rewrite list_insert_id|done|by eapply lookup_lt_Some]. }
  unfold advance. eapply will_record; [done|]. cbn zeta. rewrite bool_decide_eq_true_2 by done. apply will_bind. cbn [call will].
  destruct (honest_observe _ _ _ Hb (target r)) as [Hbusy (g & Hg & Ho)].
  eapply will_step; [done|]. intros s1 Hu1. rewrite Hbusy.
  assert (Hgen : str_or_empty "claim_generation" (b (CObserve (target r))) = g).
  { unfold str_or_empty. rewrite Ho. by destruct g. }
  rewrite Hgen, Hg. cbn [negb]. eapply will_step; [done|]. intros s2 Hu2. eapply will_action; [done|]. intros x r1 Hu3 Hr1.
  apply will_bind. cbn [call will]. eapply will_step; [done|]. intros s3 Hu4. eapply will_activate; [done|done| | |done].
  { intros d Hd. apply (Hk d). destruct Hr1 as [[-> _]|[-> _]]; [exact Hd|].
    cbn in Hd. rewrite dget_dset_ne in Hd; [exact Hd|done]. }
  rewrite evidence_with_phase, bool_decide_eq_false_2 by done. cbn [andb].
  assert (evidence r1 Draining "idle_generation" = evidence (with_phase Draining [("idle_generation", PStr g)] (with_phase WaitingForIdle [("observation", PDict (b (CObserve (target r))))] r)) Draining "idle_generation") as -> by (by destruct Hr1 as [[-> _]|[-> _]]).
  by rewrite evidence_with_phase, bool_decide_eq_true_2.
Qed.

Lemma will_resume n i s :
  candidate s = c -> (i + n = List.length (workers s))%nat ->
  (forall k r, workers s !! k = Some r -> phase r = Complete \/ (i <= k)%nat /\ activatable r) ->
  will (resume_from health_samples n i s) (fun s' => status s' = SComplete /\ Forall (fun r => phase r = Complete) (workers s')
    /\ List.length (workers s') = List.length (workers s)).
Proof.
  revert i s. induction n as [|n IH]; intros i s Hc Hn Hall; cbn [resume_from].
  - split_and!; [done| |done]. apply Forall_lookup. intros k r Hk. change (workers s !! k = Some r) in Hk. destruct (Hall k r Hk) as [|[Hik _]]; [done|].
    apply lookup_lt_Some in Hk. lia.
  - destruct (lookup_lt_is_Some_2 (workers s) i) as [r Hr]; [lia|]. apply will_bind. unfold record_of at 1. rewrite Hr. cbn [will].
    destruct (Hall i r Hr) as [Hp|[_ Hi]].
    + rewrite bool_decide_eq_true_2 by done. apply IH; [done|lia|]. intros k x Hk. destruct (Hall k x Hk) as [?|[? Hx]]; [by left|].
      destruct (decide (k = i)) as [->|]; [left; congruence|right; split; [lia|done]].
    + destruct (idle_spec r (proj1 Hi)) as (Hp1 & Hp2 & Hp3). rewrite bool_decide_eq_false_2 by done. apply will_bind.
      assert (will (match pending_recovery r with Some _ => if bool_decide (phase r = Failed) then recover i s else mret s | None => mret s end)
          (fun s1 => s1 = s)) as Hs.
      { destruct (pending_recovery r); [|done]. by rewrite bool_decide_eq_false_2. }
      eapply will_mono; [|exact Hs]. intros s1 ->. apply will_bind. unfold record_of. rewrite Hr. cbn [will].
      rewrite bool_decide_eq_false_2 by (rewrite !elem_of_cons, elem_of_nil; by intros [?|[?|?]]). apply will_bind. rewrite Hc.
      eapply will_mono; [|by eapply will_advance]. intros [s2 ok] [Hok (r2 & (Hw & Hc2 & Hlt) & Hpc)]. cbn [fst snd] in *. subst ok.
      assert (Hlen : List.length (workers s2) = List.length (workers s)) by (rewrite Hw; apply length_insert).
      rewrite <- Hlen. apply IH; [congruence|lia|]. intros k x Hk. rewrite Hw in Hk. destruct (decide (k = i)) as [->|Hne].
      * rewrite list_lookup_insert_eq in Hk by done. left. congruence.
      * rewrite list_lookup_insert_ne in Hk by done. destruct (Hall k x Hk) as [|[]]; [by left|right; split; [lia|done]].
Qed.
End honest.

(** ** The properties of a rollout *)

Section properties.
Context (hs : nat) (j0 : RState).

Lemma extends_trans s1 s2 s3 : extends s1 s2 -> extends s2 s3 -> extends s1 s3.
Proof.
  intros (H1 & H2 & H3) (G1 & G2 & G3). split_and!; [congruence..|]. intros k r Hk.
  destruct (H3 k r Hk) as (r' & Hk' & Ht & Ha). destruct (G3 k r' Hk') as (r2 & Hk2 & Ht2 & Ha2).
  exists r2. split_and!; [done|congruence|eauto].
Qed.

Lemma allowed_extends tr1 tr2 : allowed (event_ok hs j0) (tr1 ++ tr2) -> extends (journal j0 tr1) (journal j0 (tr1 ++ tr2)).
Proof.
  induction tr2 as [|e tr2 IH] using rev_ind; intros Ha; [rewrite app_nil_r; apply extends_refl|].
  rewrite app_assoc in Ha |- *. apply session_allowed_snoc_inv in Ha as [Ha He].
  eapply extends_trans; [by apply IH|]. rewrite (journal_app _ (tr1 ++ tr2)). destruct e as [x o|s]; [apply extends_refl|apply He].
Qed.

Lemma pristine_journal tr : Forall pristine (workers j0) -> sessions hs j0 tr -> allowed (event_ok hs j0) tr /\ journal_ok hs (journal j0 tr).
Proof.
  intros Hp Hs. assert (Ha : allowed (event_ok hs j0) tr) by (apply sessions_allowed; [by apply pristine_ok|done]).
  split; [done|]. apply allowed_journal; [by apply pristine_ok|done].
Qed.
End properties.

(** C4.  Whatever the backend answers and wherever sessions are cut short, a rollout touches one
    worker at a time and in order: when a backend command is sent, the rollout has not been aborted,
    the workers before the one it names are complete in the durable journal, those after it are
    untouched, and the command is permitted there: stage, activate, rollback and fence carry an
    identifier already durable in the journal; activation comes directly after an observation of that
    worker, idle and with the very claim generation sent, and after a staged attestation that matches
    the candidate; health checks come after a verified active attestation; rollback and fence replay
    the durable pending recovery. *)
Theorem rollout_discipline hs j0 tr1 c o tr2 :
  Forall pristine (workers j0) -> sessions hs j0 (tr1 ++ ECall c o :: tr2) ->
  let j := journal j0 tr1 in
  status j <> SAborted
  /\ exists i r, workers j !! i = Some r /\ target r = cmd_target c /\ phase r <> Complete
       /\ (forall k x, (k < i)%nat -> workers j !! k = Some x -> phase x = Complete)
       /\ (forall k x, (i < k)%nat -> workers j !! k = Some x -> pristine x)
       /\ permitted c r (candidate j0) tr1.
Proof.
  intros Hp Hs. destruct (pristine_journal hs j0 _ Hp Hs) as [Ha _].
  pose proof (session_allowed_split _ _ _ _ Ha) as (Hst & i & r & [Hf1 Hf2] & Hr & Ht & Hc & Hperm).
  split; [done|]. exists i, r. split_and!; [done..|].
  assert (Hcand : candidate (journal j0 tr1) = candidate j0) by apply (allowed_extends hs j0 [] tr1), (session_allowed_prefix _ _ _ Ha).
  by rewrite <- Hcand.
Qed.

(** A worker the journal calls complete has a durable staged attestation that matches the
    candidate, an active attestation that matches the plan and the staged one, and at least the
    configured number of health samples. *)
Theorem rollout_complete_attested hs j0 tr k r :
  Forall pristine (workers j0) -> sessions hs j0 tr -> workers (journal j0 tr) !! k = Some r -> phase r = Complete ->
  exists staged active samples,
    evidence r Staged "staging" = Some (PDict staged) /\ verify_staged staged (candidate j0) = ""
    /\ evidence r Activated "activation" = Some (PDict active) /\ verify_active active staged (target r) (candidate j0) = ""
    /\ evidence r HealthChecking "health" = Some (PList samples) /\ (hs <= List.length samples)%nat.
Proof.
  intros Hp Hs Hk Hc. destruct (pristine_journal hs j0 tr Hp Hs) as [Ha [_ Hrs]].
  assert (Hcand : candidate (journal j0 tr) = candidate j0) by apply (allowed_extends hs j0 [] tr Ha).
  unfold records_ok in Hrs. rewrite Forall_lookup in Hrs. specialize (Hrs k r Hk). rewrite Hcand in Hrs.
  destruct (ok_active _ _ _ Hrs) as (f & a & [Hf1 Hf2] & Ha1 & Ha2); [rewrite Hc; set_solver|].
  destruct (ok_health _ _ _ Hrs) as (l & Hl & Hlen); [rewrite Hc; set_solver|].
  exists f, a, l. split_and!; [done..|by apply Hlen].
Qed.

(** The plan and the intents are durable: along any life of a rollout the candidate, the workers
    and their targets never change, and an action identifier once in the journal is never replaced, so
    every retry of an action carries the same key. *)
Theorem rollout_intents_durable hs j0 tr1 tr2 k r :
  Forall pristine (workers j0) -> sessions hs j0 (tr1 ++ tr2) -> workers (journal j0 tr1) !! k = Some r ->
  candidate (journal j0 (tr1 ++ tr2)) = candidate (journal j0 tr1)
  /\ List.length (workers (journal j0 (tr1 ++ tr2))) = List.length (workers (journal j0 tr1))
  /\ exists r', workers (journal j0 (tr1 ++ tr2)) !! k = Some r' /\ target r' = target r
       /\ forall a id, dget a (actions r) = Some id -> dget a (actions r') = Some id.
Proof.
  intros Hp Hs Hk. destruct (pristine_journal hs j0 _ Hp Hs) as [Ha _].
  destruct (allowed_extends hs j0 tr1 tr2 Ha) as (H1 & H2 & H3). split_and!; [done..|by apply H3].
Qed.

(** C7.  Every session of a rollout ends: whatever the backend answers, [resume] sends at most
    [health_samples + 9] commands for each worker. *)
Theorem resume_bounded hs s tr o : exec (resume hs s) tr o -> (calls tr <= List.length (workers s) * (hs + 9))%nat.
Proof.
  apply calls_le_exec. unfold resume. case_bool_decide; [by destruct (List.length (workers s) * (hs + 9))%nat|].
  apply (calls_le_mono (List.length (workers s) * (hs + 9) + 0)); [lia|]. by apply calls_le_bind; [apply calls_resume_from|].
Qed.


(** C5.  Liveness: a rollout that has not been aborted, whose workers are each complete or in a phase
    before staging (planned, waiting for idle, draining, deferred), is completed by one resume against
    an honest backend: one that reports every host idle with one non-empty claim generation, and whose
    stage, activation and health answers pass the rollout's own checks. Activation keys that lost a
    race earlier ([lost]) are exempt: by docs/worker-rollouts.md a replayed key gets its original
    answer, so the backend may answer them busy for ever; the theorem asks that no worker's recorded
    activation key, and no identifier generated now, is one of them (Lemma [lost_key_defers] shows what
    happens otherwise). Then the status is complete and so is every worker. *)
Theorem rollout_completes hs b lost ids s :
  honest b lost (candidate s) -> (forall n, ~ lost (ids n)) -> status s <> SAborted ->
  Forall (fun r => phase r = Complete \/ activatable lost r) (workers s) ->
  exists s', run b ids 0 (resume hs s) = Some s' /\ status s' = SComplete
    /\ List.length (workers s') = List.length (workers s) /\ Forall (fun r => phase r = Complete) (workers s').
Proof.
  intros Hb Hids Hst Hall. rewrite Forall_lookup in Hall.
  destruct (will_run b lost ids 0 (resume hs s) (fun s' => status s' = SComplete /\ Forall (fun r => phase r = Complete) (workers s')
    /\ List.length (workers s') = List.length (workers s))) as (s' & Hr & H1 & H2 & H3); [done| |by exists s'].
  unfold resume. rewrite bool_decide_eq_false_2 by done. apply will_bind.
  eapply will_mono; [|eapply (will_resume hs b lost (candidate s) Hb _ 0); [done|done|]]; [done|].
  intros k r Hk. destruct (Hall k r Hk); [by left|right; split; [lia|done]].
Qed.

(** ** A rollout of one worker, played *)

Module Demo.

Definition v : PublishedVersion :=
  {| version := "1.2.3"; source_commit := "0123456789abcdef0123456789abcdef01234567";
     manifest := [("garden/a.py", "0123456789abcdef0123456789abcdef0123456789abcdef0123456789abcdef")]; verified := true |}.
Definition w (id : string) : WorkerTarget :=
  {| worker_id := id; host_id := "h1"; w_owner := "garden"; w_group := "garden"; config_path := "/etc/garden.toml";
     unit_source := "package"; unit_mode := "system"; resource_caps := []; deadline := "2026-08-01T00:00:00Z";
     enrollment_boundary := "a"; secret_boundary := "b" |}.

Definition observed : row := [("busy", PBool false); ("claim_generation", PStr "g1"); ("runtime", PStr "/opt/old")].
Definition staged : row :=
  [("runtime", PStr "/opt/new"); ("version", PStr (version v)); ("direct_url_commit", PStr (source_commit v));
   ("manifest", manifest_value v); ("executable", PStr "/opt/new/bin/garden"); ("tools_ok", PBool true)].
Definition active (w : WorkerTarget) : row :=
  expected_facts w v ++
  [("runtime", PStr "/opt/new"); ("executable", PStr "/opt/new/bin/garden"); ("runtime_executable", PStr "/opt/new/bin/garden");
   ("pid", PInt 20); ("prior_pid", PInt 10); ("ready", PBool true)].
Definition well : row :=
  [("authenticated", PBool true); ("claim_probe", PBool true); ("heartbeat_probe", PBool true); ("finish_probe", PBool true);
   ("ready", PBool true); ("version", PStr (version v)); ("source_commit", PStr (source_commit v))].
Definition ill : row := [("ready", PBool false)].

Definition backend (c : cmd) : row :=
  match c with
  | CObserve _ => observed | CStage _ _ _ => staged | CActivate w _ _ _ => active w | CHealth _ _ => well
  | CRollback _ prior _ _ => [("ok", PBool true); ("runtime", PStr prior); ("ready", PBool true)]
  | CFence _ _ _ => []
  end.

Definition j0 : RState :=
  {| operation_id := "op"; identity := "identity"; status := SPlanned; candidate := v; controller_runtime := "/opt/old";
     workers := [planned (w "w1") "/opt/old"; planned (w "w2") ""]; events := [] |}.

Lemma j0_pristine : Forall pristine (workers j0).
Proof. repeat constructor. Qed.

(** One session from the journal a trace leaves, cut after [n] events. *)
Definition session (n : nat) (replies : list (option row)) (tr : list event) : list event :=
  tr ++ (play n replies (resume 2 (journal j0 tr))).1.
Lemma session_ok n replies tr : sessions 2 j0 tr -> sessions 2 j0 (session n replies tr).
Proof. intros H. eapply sessions_step; [done|by left|apply play_exec]. Qed.

Definition r1 : list (option row) := [Some observed; Some staged; Some observed; Some (active (w "w1")); Some well; Some well].
Definition r2 : list (option row) := [Some observed; Some staged; Some observed; Some (active (w "w2")); Some well; Some well].
Definition good : list event := session 100 (r1 ++ r2) [].

(** The new runtime is ill, and the rollback fails too. *)
Definition bad_replies : list (option row) :=
  [Some observed; Some staged; Some observed; Some (active (w "w1")); Some ill; Some observed; Some []; Some []].
(** The same, cut right after the ill sample is durable, and right after the failure is. *)
Definition cut_after_sample : list event := session 14 bad_replies [].
Definition cut_after_failure : list event := session 15 bad_replies [].

Definition first_worker (tr : list event) : WorkerRecord :=
  match workers (journal j0 tr) with r :: _ => r | [] => planned (w "") "" end.
End Demo.

Lemma rollout_discipline_witness :
  let tr1 := take 9 Demo.good in let c := CActivate (Demo.w "w1") Demo.v "g1" "id" in
  Demo.good = tr1 ++ ECall c (Some (Demo.active (Demo.w "w1"))) :: drop 10 Demo.good
  /\ let j := journal Demo.j0 tr1 in
     status j <> SAborted
     /\ exists i r, workers j !! i = Some r /\ target r = cmd_target c /\ phase r <> Complete
       /\ (forall k x, (k < i)%nat -> workers j !! k = Some x -> phase x = Complete)
       /\ (forall k x, (i < k)%nat -> workers j !! k = Some x -> pristine x)
       /\ permitted c r (candidate Demo.j0) tr1.
Proof.
  intros tr1 c. assert (H : Demo.good = tr1 ++ ECall c (Some (Demo.active (Demo.w "w1"))) :: drop 10 Demo.good) by (vm_compute; reflexivity).
  split; [exact H|]. apply (rollout_discipline 2 Demo.j0 tr1 c (Some (Demo.active (Demo.w "w1"))) (drop 10 Demo.good)).
  - apply Demo.j0_pristine.
  - rewrite <- H. apply Demo.session_ok. constructor.
Defined.

Lemma rollout_complete_attested_witness :
  exists staged active samples,
    evidence (Demo.first_worker Demo.good) Staged "staging" = Some (PDict staged) /\ verify_staged staged Demo.v = ""
    /\ evidence (Demo.first_worker Demo.good) Activated "activation" = Some (PDict active)
    /\ verify_active active staged (target (Demo.first_worker Demo.good)) Demo.v = ""
    /\ evidence (Demo.first_worker Demo.good) HealthChecking "health" = Some (PList samples) /\ (2 <= List.length samples)%nat.
Proof.
  apply (rollout_complete_attested 2 Demo.j0 Demo.good 0 (Demo.first_worker Demo.good)).
  - apply Demo.j0_pristine.
  - apply Demo.session_ok. constructor.
  - vm_compute. reflexivity.
  - vm_compute. reflexivity.
Defined.

Lemma rollout_intents_durable_witness :
  let tr1 := take 9 Demo.good in let r := Demo.first_worker tr1 in
  dget "activate" (actions r) = Some "id"
  /\ candidate (journal Demo.j0 (tr1 ++ drop 9 Demo.good)) = candidate (journal Demo.j0 tr1)
  /\ List.length (workers (journal Demo.j0 (tr1 ++ drop 9 Demo.good))) = List.length (workers (journal Demo.j0 tr1))
  /\ exists r', workers (journal Demo.j0 (tr1 ++ drop 9 Demo.good)) !! 0%nat = Some r' /\ target r' = target r
       /\ forall a id, dget a (actions r) = Some id -> dget a (actions r') = Some id.
Proof.
  intros tr1 r. split; [vm_compute; reflexivity|].
  apply (rollout_intents_durable 2 Demo.j0 tr1 (drop 9 Demo.good) 0 r).
  - apply Demo.j0_pristine.
  - unfold tr1. rewrite take_drop. apply Demo.session_ok. constructor.
  - vm_compute. reflexivity.
Defined.

Lemma resume_bounded_witness :
  (calls (play 100 (Demo.r1 ++ Demo.r2) (resume 2 Demo.j0)).1 <= 22)%nat
  /\ calls (play 100 (Demo.r1 ++ Demo.r2) (resume 2 Demo.j0)).1 = 12%nat.
Proof. split; [apply (resume_bounded 2 Demo.j0 _ _ (play_exec _ 100 (Demo.r1 ++ Demo.r2)))|vm_compute; reflexivity]. Defined.


(** A backend that answers the key "lost" busy, and every other activation well. *)
Lemma rollout_completes_witness :
  let lost := fun id => id = "lost" in
  let b := fun c => match c with CActivate _ _ _ "lost" => [("busy", PBool true)] | _ => Demo.backend c end in
  honest b lost Demo.v
  /\ exists s', run b (fun _ => "id") 0 (resume 3 Demo.j0) = Some s' /\ status s' = SComplete
     /\ List.length (workers s') = List.length (workers Demo.j0) /\ Forall (fun r => phase r = Complete) (workers s').
Proof.
  intros lost b. assert (Hh : honest b lost Demo.v).
  { constructor.
    - intros w. split; [reflexivity|]. exists "g1". split; reflexivity.
    - intros w id. vm_compute. reflexivity.
    - intros w g id id' Hid.
      assert (b (CActivate w Demo.v g id) = Demo.active w) as ->.
      { unfold b, lost in *. repeat (destruct id as [|[[] [] [] [] [] [] [] []] id]; try reflexivity). by destruct Hid. }
      split; [reflexivity|]. unfold verify_active.
      replace (existsb _ (expected_facts w Demo.v)) with false; [vm_compute; reflexivity|].
      symmetry. cbn. rewrite !py_eq_refl. reflexivity.
    - intros w. vm_compute. reflexivity. }
  split; [exact Hh|]. apply (rollout_completes 3 b lost (fun _ => "id") Demo.j0 Hh).
  - intros n. discriminate.
  - discriminate.
  - assert (Ha : forall w prior, activatable lost (planned w prior)).
    { intros w prior. split; [unfold idle; cbn; set_solver|intros id Hid; discriminate]. }
    repeat (apply List.Forall_cons; [right; apply Ha|]). apply List.Forall_nil.
Defined.

(** *** The key of an activation

    Every activation of a worker carries the same key, also when an earlier one was answered busy
    and the idle generation has changed since. *)
Lemma activation_key_unique hs j0 tr1 w c g id o tr2 c' g' id' o' tr3 :
  Forall pristine (workers j0) -> NoDup (map target (workers j0)) ->
  sessions hs j0 (tr1 ++ ECall (CActivate w c g id) o :: tr2 ++ ECall (CActivate w c' g' id') o' :: tr3) -> id' = id.
Proof.
  intros Hp Hnd Hs. destruct (pristine_journal hs j0 _ Hp Hs) as [Ha _].
  set (x := ECall (CActivate w c g id) o) in *. set (y := ECall (CActivate w c' g' id') o') in *.
  pose proof (session_allowed_split _ tr1 x _ Ha) as (_ & i & r & _ & Hr & Ht & _ & Hperm).
  assert (Heq : tr1 ++ x :: tr2 ++ y :: tr3 = (tr1 ++ x :: tr2) ++ y :: tr3) by (rewrite <- app_assoc; reflexivity).
  rewrite Heq in Ha. pose proof (session_allowed_split _ (tr1 ++ x :: tr2) y _ Ha) as (_ & i' & r' & _ & Hr' & Ht' & _ & Hperm').
  apply session_allowed_prefix in Ha. cbn in Ht, Ht', Hperm, Hperm'.
  destruct (allowed_extends hs j0 [] _ (session_allowed_prefix _ _ _ Ha)) as (_ & Hl1 & He1).
  destruct (allowed_extends hs j0 [] _ Ha) as (_ & Hl2 & He2). destruct (allowed_extends hs j0 tr1 _ Ha) as (_ & _ & He).
  change (journal j0 []) with j0 in *. cbn [app] in *.
  destruct (lookup_lt_is_Some_2 (workers j0) i) as [a Hai]; [rewrite <- Hl1; by eapply lookup_lt_Some|].
  destruct (lookup_lt_is_Some_2 (workers j0) i') as [a' Hai']; [rewrite <- Hl2; by eapply lookup_lt_Some|].
  destruct (He1 i a Hai) as (b & Hb & Hbt & _). destruct (He2 i' a' Hai') as (b' & Hb' & Hbt' & _).
  assert (i = i') as <-.
  { eapply (NoDup_lookup _ i i' w Hnd); rewrite list_lookup_fmap; [rewrite Hai|rewrite Hai']; cbn; congruence. }
  destruct (He i r Hr) as (r2 & Hr2 & _ & Hact). destruct Hperm as (_ & H1 & _), Hperm' as (_ & H2 & _).
  apply Hact in H1. assert (r2 = r') as -> by congruence. congruence.
Qed.

(** A worker whose activation lost the race once is deferred again by a backend that keeps its word
    and returns the original answer to the replayed key, although it is idle and every other answer is good. *)
Lemma lost_key_defers :
  let b := fun c => match c with CActivate _ _ _ _ => [("busy", PBool true)] | _ => Demo.backend c end in
  let tr := Demo.session 100 [Some Demo.observed; Some Demo.staged; Some Demo.observed; Some [("busy", PBool true)]] [] in
  dget "activate" (actions (Demo.first_worker tr)) = Some "id" /\ phase (Demo.first_worker tr) = Deferred
  /\ exists s, run b (fun _ => "new") 0 (resume 2 (journal Demo.j0 tr)) = Some s /\ status s <> SComplete
       /\ map phase (workers s) = [Deferred; Planned].
Proof.
  intros b tr. split; [vm_compute; reflexivity|]. split; [vm_compute; reflexivity|].
  eexists. split; [vm_compute; reflexivity|]. split; [discriminate|reflexivity].
Qed.

(** *** Two windows the journal leaves open *)

(** An interruption between the durable [failed] transition of an activated worker and the durable
    intent of its recovery: later sessions neither fence it nor roll it back. *)
Lemma recovery_lost_by_interruption :
  let tr := Demo.session 100 [] Demo.cut_after_failure in let r := Demo.first_worker tr in
  sessions 2 Demo.j0 tr /\ phase r = Failed /\ (exists ev, (Activated, ev) ∈ transitions r)
  /\ pending_recovery r = None /\ recovery_receipt r = None
  /\ Forall (fun e => match e with ECall (CFence _ _ _) _ | ECall (CRollback _ _ _ _) _ => False | _ => True end) tr
  /\ resume 2 (journal Demo.j0 tr) = (let s := journal Demo.j0 tr in _ ← write s; mret s).
Proof.
  intros tr r. split_and!.
  - do 2 apply Demo.session_ok. constructor.
  - vm_compute. reflexivity.
  - exists [("activation", PDict (Demo.active (Demo.w "w1"))); ("action_id", PStr "id")]. apply list_elem_of_In. vm_compute. tauto.
  - vm_compute. reflexivity.
  - vm_compute. reflexivity.
  - vm_compute. repeat constructor.
  - vm_compute. reflexivity.
Qed.

(** An interruption right after an ill health sample is durable: the next session counts the sample
    among the two it needs, and completes the worker. *)
Lemma ill_sample_counted :
  let tr := Demo.session 3 [Some Demo.well] Demo.cut_after_sample in let r := Demo.first_worker tr in
  sessions 2 Demo.j0 tr /\ phase r = Complete
  /\ evidence r HealthChecking "health" = Some (PList [PDict Demo.ill; PDict Demo.well]) /\ healthy Demo.ill Demo.v = false.
Proof.
  intros tr r. split_and!; [do 2 apply Demo.session_ok; constructor|vm_compute; reflexivity..].
Qed.
