(* ===== verification/Effects.v ===== *)
(** * Programs with effects

    Code that calls services and updates shared files is a [prog E X]: a tree of commands [c : E R],
    each with a continuation over its replies [R], that returns a value or raises an exception [X].

    Three readings of a program: [exec], its executions under arbitrary replies, each of which may stop
    anywhere (a crash); [safe], a program logic over those executions; and [run], the execution against
    a handler that computes the replies from a state. *)

From S2P Require Import Prelude.

#[local] Open Scope list_scope.

Inductive prog (E : Type -> Type) (X A : Type) : Type :=
| Ret (a : A)
| Throw (e : X)
| Do {R : Type} (c : E R) (k : R -> prog E X A).
Arguments Ret {E X A} a.
Arguments Throw {E X A} e.
Arguments Do {E X A R} c k.

Section effects.
Context {E : Type -> Type} {X : Type}.

Fixpoint pbind {A B} (f : A -> prog E X B) (p : prog E X A) : prog E X B :=
  match p with
  | Ret a => f a
  | Throw e => Throw e
  | Do c k => Do c (fun r => pbind f (k r))
  end.
#[export] Instance prog_ret : MRet (prog E X) := fun A a => Ret a.
#[export] Instance prog_bind : MBind (prog E X) := @pbind.

Definition do_ {R} (c : E R) : prog E X R := Do c Ret.

(** [try: ... except]: the exception becomes a value. *)
Fixpoint try_ {A} (p : prog E X A) : prog E X (result X A) :=
  match p with
  | Ret a => Ret (Ok a)
  | Throw e => Ret (Err e)
  | Do c k => Do c (fun r => try_ (k r))
  end.

(** A reply that may be an exception. *)
Definition lift {A} (r : result X A) : prog E X A := match r with Ok a => Ret a | Err e => Throw e end.
Definition invoke {A} (c : E (result X A)) : prog E X A := r ← do_ c; lift r.

(** A [for] loop threading a state. *)
Fixpoint foldP {S A} (f : S -> A -> prog E X S) (l : list A) (s : S) : prog E X S :=
  match l with
  | [] => Ret s
  | x :: l' => s' ← f s x; foldP f l' s'
  end.

(** ** Executions *)

Inductive event : Type :=
| Ev {R : Type} (c : E R) (r : R).

Inductive exec {A} : prog E X A -> list event -> option (result X A) -> Prop :=
| exec_ret a : exec (Ret a) [] (Some (Ok a))
| exec_throw e : exec (Throw e) [] (Some (Err e))
| exec_stop p : exec p [] None
| exec_do {R} (c : E R) k r tr o : exec (k r) tr o -> exec (Do c k) (Ev c r :: tr) o.

(** ** A program logic

    [safe ok p tr Q]: started after the trace [tr], every command of [p] with its reply is allowed by
    [ok] when it happens, and [Q] holds of the outcome. *)
Section logic.
Context (ok : list event -> event -> Prop).

Fixpoint safe {A} (p : prog E X A) (tr : list event) (Q : result X A -> list event -> Prop) : Prop :=
  match p with
  | Ret a => Q (Ok a) tr
  | Throw e => Q (Err e) tr
  | Do c k => forall r, ok tr (Ev c r) /\ safe (k r) (tr ++ [Ev c r]) Q
  end.

Inductive allowed : list event -> Prop :=
| allowed_nil : allowed []
| allowed_snoc tr e : allowed tr -> ok tr e -> allowed (tr ++ [e]).

Lemma safe_mono {A} (p : prog E X A) tr (Q Q' : result X A -> list event -> Prop) :
  (forall r tr', Q r tr' -> Q' r tr') -> safe p tr Q -> safe p tr Q'.
Proof.
  intros HQ. revert tr. induction p as [a|e|R c k IH]; intros tr; cbn; [auto|auto|].
  intros H r. destruct (H r). auto.
Qed.

Lemma safe_and {A} (p : prog E X A) tr (Q Q' : result X A -> list event -> Prop) :
  safe p tr Q -> safe p tr Q' -> safe p tr (fun r tr' => Q r tr' /\ Q' r tr').
Proof.
  revert tr. induction p as [a|e|R c k IH]; intros tr; cbn; [done|done|].
  intros H H' r. destruct (H r), (H' r). auto.
Qed.

(** The rule of sequence. *)
Definition then_ {A B} (f : A -> prog E X B) (Q : result X B -> list event -> Prop) (r : result X A) (tr : list event) : Prop :=
  match r with Ok a => safe (f a) tr Q | Err e => Q (Err e) tr end.

Lemma safe_bind {A B} (f : A -> prog E X B) (p : prog E X A) tr Q : safe p tr (then_ f Q) -> safe (p ≫= f) tr Q.
Proof.
  unfold mbind, prog_bind. revert tr. induction p as [a|e|R c k IH]; intros tr; cbn; [done|done|].
  intros H r. destruct (H r). auto.
Qed.

Lemma safe_try {A} (p : prog E X A) tr Q : safe p tr (fun r tr' => Q (Ok r) tr') -> safe (try_ p) tr Q.
Proof.
  revert tr. induction p as [a|e|R c k IH]; intros tr; cbn; [done|done|].
  intros H r. destruct (H r). auto.
Qed.

Lemma safe_do {R} (c : E R) tr (Q : result X R -> list event -> Prop) :
  (forall r, ok tr (Ev c r) /\ Q (Ok r) (tr ++ [Ev c r])) -> safe (do_ c) tr Q.
Proof. done. Qed.

Lemma safe_lift {A} (r : result X A) tr Q : Q r tr -> safe (lift r) tr Q.
Proof. by destruct r. Qed.

Lemma safe_invoke {A} (c : E (result X A)) tr (Q : result X A -> list event -> Prop) :
  (forall r, ok tr (Ev c r) /\ Q r (tr ++ [Ev c r])) -> safe (invoke c) tr Q.
Proof. intros H r. destruct (H r). split; [done|]. by apply safe_lift. Qed.

(** The invariant rule of loops: [I] holds between iterations, [Q] of a raised exception. *)
Lemma safe_fold {S A} (I : S -> list event -> Prop) (QE : X -> list event -> Prop) (f : S -> A -> prog E X S) l s tr :
  I s tr ->
  (forall s x tr, x ∈ l -> I s tr -> safe (f s x) tr (fun r tr' => match r with Ok s' => I s' tr' | Err e => QE e tr' end)) ->
  safe (foldP f l s) tr (fun r tr' => match r with Ok s' => I s' tr' | Err e => QE e tr' end).
Proof.
  revert s tr. induction l as [|x l IH]; intros s tr Hs Hf; [done|]. cbn [foldP]. apply safe_bind.
  eapply safe_mono; [|apply Hf; [by left|exact Hs]]. intros [s'|e] tr' H'; [|done].
  apply IH; [done|]. intros s1 y tr1 Hy. apply Hf. by right.
Qed.

Lemma safe_exec {A} (p : prog E X A) tr tr' o (Q : result X A -> list event -> Prop) :
  exec p tr' o -> safe p tr Q -> allowed tr ->
  allowed (tr ++ tr') /\ match o with Some r => Q r (tr ++ tr') | None => True end.
Proof.
  intros He. revert tr. induction He as [a|e|p|R c k r tr1 o He IH]; intros tr; cbn; rewrite ?app_nil_r; [done|done|done|].
  intros H Ha. destruct (H r) as [H1 H2]. change (Ev c r :: tr1) with ([Ev c r] ++ tr1).
  rewrite app_assoc. apply IH; [done|]. by constructor.
Qed.

Lemma allowed_snoc_inv tr e : allowed (tr ++ [e]) -> allowed tr /\ ok tr e.
Proof.
  inversion 1 as [Hn|tr' x Ha Hx Heq]; [by destruct tr|]. by apply app_inj_tail in Heq as [<- <-].
Qed.
Lemma allowed_prefix tr1 tr2 : allowed (tr1 ++ tr2) -> allowed tr1.
Proof.
  induction tr2 as [|e tr2 IH] using rev_ind; [by rewrite app_nil_r|].
  rewrite app_assoc. intros [Ha _]%allowed_snoc_inv. auto.
Qed.
Lemma allowed_split tr1 e tr2 : allowed (tr1 ++ e :: tr2) -> ok tr1 e.
Proof. change (e :: tr2) with ([e] ++ tr2). rewrite app_assoc. intros [_ H]%allowed_prefix%allowed_snoc_inv. done. Qed.
End logic.

(** The trace only grows. *)
Lemma safe_extends {A} ok (p : prog E X A) tr Q : safe ok p tr Q -> safe ok p tr (fun r tr' => Q r tr' /\ exists t, tr' = tr ++ t).
Proof.
  intros H. assert (Hgo : forall tr0, (exists t, tr = tr0 ++ t) -> safe ok p tr (fun r tr' => Q r tr' /\ exists t, tr' = tr0 ++ t)).
  { revert tr H. induction p as [a|e|R c k IH]; intros tr; cbn; [done|done|].
    intros H tr0 [t ->] r. destruct (H r) as [H1 H2]. split; [done|].
    apply IH; [done|]. exists (t ++ [Ev c r]). by rewrite <- app_assoc. }
  apply Hgo. exists []. by rewrite app_nil_r.
Qed.

(** A weaker permission allows more. *)
Lemma safe_weaken {A} (ok1 ok2 : list event -> event -> Prop) (p : prog E X A) tr Q :
  (forall tr e, ok1 tr e -> ok2 tr e) -> safe ok1 p tr Q -> safe ok2 p tr Q.
Proof.
  intros Hok. revert tr. induction p as [a|e|R c k IH]; intros tr; cbn; [done|done|].
  intros H r. destruct (H r). auto.
Qed.

(** Two permissions at once. *)
Lemma safe_both {A} (ok1 ok2 : list event -> event -> Prop) (p : prog E X A) tr (Q1 Q2 : result X A -> list event -> Prop) :
  safe ok1 p tr Q1 -> safe ok2 p tr Q2 -> safe (fun tr e => ok1 tr e /\ ok2 tr e) p tr (fun r tr' => Q1 r tr' /\ Q2 r tr').
Proof.
  revert tr. induction p as [a|e|R c k IH]; intros tr; cbn; [done|done|].
  intros H1 H2 r. destruct (H1 r), (H2 r). auto.
Qed.

(** The invariant rule of loops, over what has been done and what is still to come. *)
Lemma safe_fold_split {S A} ok (I : list A -> S -> list event -> Prop) (QE : X -> list event -> Prop) (f : S -> A -> prog E X S) l s tr :
  I [] s tr ->
  (forall done x rest s tr, l = done ++ x :: rest -> I done s tr ->
     safe ok (f s x) tr (fun r tr' => match r with Ok s' => I (done ++ [x]) s' tr' | Err e => QE e tr' end)) ->
  safe ok (foldP f l s) tr (fun r tr' => match r with Ok s' => I l s' tr' | Err e => QE e tr' end).
Proof.
  intros H0 Hf. assert (Hgo : forall rest done s tr, l = done ++ rest -> I done s tr ->
      safe ok (foldP f rest s) tr (fun r tr' => match r with Ok s' => I l s' tr' | Err e => QE e tr' end)); [|by apply (Hgo l [])].
  intros rest. induction rest as [|x rest IH]; intros done s1 tr1 Hl Hs; cbn [foldP].
  - rewrite app_nil_r in Hl. by subst.
  - apply safe_bind. eapply safe_mono; [|by apply (Hf done x rest)]. intros [s2|e] tr2 H2; [|exact H2].
    apply (IH (done ++ [x])); [|exact H2]. by rewrite <- app_assoc.
Qed.

(** Every program is safe when everything is allowed. *)
Lemma safe_true {A} (p : prog E X A) tr : safe (fun _ _ => True) p tr (fun _ _ => True).
Proof. revert tr. induction p as [a|e|R c k IH]; intros tr; cbn; auto. Qed.

(** ** Programs whose commands all satisfy a predicate *)

Section only.
Context (P : forall R, E R -> Prop).

Fixpoint only {A} (p : prog E X A) : Prop :=
  match p with
  | Ret _ | Throw _ => True
  | Do c k => P _ c /\ forall r, only (k r)
  end.

Lemma only_ret {A} (a : A) : only (Ret a).
Proof. done. Qed.
Lemma only_throw {A} e : only (@Throw E X A e).
Proof. done. Qed.
Lemma only_bind {A B} (p : prog E X A) (f : A -> prog E X B) : only p -> (forall a, only (f a)) -> only (p ≫= f).
Proof.
  unfold mbind, prog_bind. intros Hp Hf. induction p as [a|e|R c k IH]; cbn in *; [apply Hf|done|].
  destruct Hp as [Hc Hk]. split; [done|]. intros r. by apply IH.
Qed.
Lemma only_do {R} (c : E R) : P _ c -> only (do_ c).
Proof. done. Qed.
Lemma only_lift {A} (r : result X A) : only (lift r).
Proof. by destruct r. Qed.
Lemma only_invoke {A} (c : E (result X A)) : P _ c -> only (invoke c).
Proof. intros Hc. split; [done|]. intros r. apply only_lift. Qed.
Lemma only_try {A} (p : prog E X A) : only p -> only (try_ p).
Proof. induction p as [a|e|R c k IH]; cbn; [done|done|]. intros [Hc Hk]. auto. Qed.
Lemma only_fold {S A} (f : S -> A -> prog E X S) l s : (forall s x, only (f s x)) -> only (foldP f l s).
Proof.
  intros Hf. revert s. induction l as [|x l IH]; intros s; cbn [foldP]; [done|]. apply only_bind; auto.
Qed.

Lemma only_safe {A} (ok : list event -> event -> Prop) (p : prog E X A) tr :
  (forall tr R (c : E R) r, P _ c -> ok tr (Ev c r)) -> only p -> safe ok p tr (fun _ tr' => exists t, tr' = tr ++ t).
Proof.
  intros Hok Hp. eapply safe_mono; [|apply safe_extends with (Q := fun _ _ => True)]; [by intros r tr' [_ ?]|].
  revert tr. induction p as [a|e|R c k IH]; intros tr; cbn in *; [done|done|].
  destruct Hp as [Hc Hk]. intros r. split; [by apply Hok|]. by apply IH.
Qed.
End only.

(** ** A program logic for finished executions

    [given A p Q]: in every execution of [p] in which each command is answered as [A] expects, [Q] holds of the outcome and the events. *)

Section given.
Context (A : event -> Prop).

Fixpoint given {T} (p : prog E X T) (Q : result X T -> list event -> Prop) : Prop :=
  match p with
  | Ret a => Q (Ok a) []
  | Throw e => Q (Err e) []
  | Do c k => forall r, A (Ev c r) -> given (k r) (fun x tr => Q x (Ev c r :: tr))
  end.

Lemma given_mono {T} (p : prog E X T) (Q Q' : result X T -> list event -> Prop) : (forall x tr, Q x tr -> Q' x tr) -> given p Q -> given p Q'.
Proof.
  revert Q Q'. induction p as [a|e|R c k IH]; intros Q Q' HQ; cbn; [auto|auto|]. intros H r Hr. eapply IH; [|by apply H]. cbn. auto.
Qed.
Lemma given_bind {T U} (p : prog E X T) (f : T -> prog E X U) (Q : result X U -> list event -> Prop) :
  given p (fun x tr => match x with Ok a => given (f a) (fun y tr' => Q y (tr ++ tr')) | Err e => Q (Err e) tr end) -> given (p ≫= f) Q.
Proof.
  unfold mbind, prog_bind. revert Q. induction p as [a|e|R c k IH]; intros Q; cbn; [done|done|]. intros H r Hr. apply IH. by apply H.
Qed.
Lemma given_do {R T} (c : E R) (k : R -> prog E X T) (Q : result X T -> list event -> Prop) :
  (forall r, A (Ev c r) -> given (k r) (fun x tr => Q x (Ev c r :: tr))) -> given (r ← do_ c; k r) Q.
Proof. done. Qed.
Lemma given_lift {T} (x : result X T) Q : Q x [] -> given (lift x) Q.
Proof. by destruct x. Qed.
Lemma given_exec {T} (p : prog E X T) tr x Q : exec p tr (Some x) -> Forall A tr -> given p Q -> Q x tr.
Proof.
  intros He. remember (Some x) as o eqn:Ho. revert Q. induction He as [a|e|p|R c k r tr o He IH]; intros Q; cbn; [by simplify_eq|by simplify_eq|done|].
  intros [Hr Hf]%Forall_cons H. by apply (IH Ho (fun x tr => Q x (Ev c r :: tr)) Hf), H.
Qed.
End given.

(** ** Execution against a handler *)

Section run.
Context {W : Type} (h : forall R, E R -> W -> R * W).

Fixpoint run {A} (p : prog E X A) (w : W) : result X A * W :=
  match p with
  | Ret a => (Ok a, w)
  | Throw e => (Err e, w)
  | Do c k => let x := h _ c w in run (k x.1) x.2
  end.

Fixpoint trace {A} (p : prog E X A) (w : W) : list event :=
  match p with
  | Ret _ | Throw _ => []
  | Do c k => let x := h _ c w in Ev c x.1 :: trace (k x.1) x.2
  end.

Lemma run_exec {A} (p : prog E X A) w : exec p (trace p w) (Some (run p w).1).
Proof. revert w. induction p as [a|e|R c k IH]; intros w; cbn; constructor. apply IH. Qed.

Lemma run_bind {A B} (p : prog E X A) (f : A -> prog E X B) w :
  run (p ≫= f) w = match run p w with (Ok a, w') => run (f a) w' | (Err e, w') => (Err e, w') end.
Proof. unfold mbind, prog_bind. revert w. induction p as [a|e|R c k IH]; intros w; cbn; [done|done|apply IH]. Qed.

Lemma run_do {R} (c : E R) w : run (do_ c) w = (Ok (h _ c w).1, (h _ c w).2).
Proof. done. Qed.
Lemma run_lift {A} (r : result X A) w : run (lift r) w = (r, w).
Proof. by destruct r. Qed.
Lemma run_invoke {A} (c : E (result X A)) w : run (invoke c) w = h _ c w.
Proof. unfold invoke. rewrite run_bind, run_do, run_lift. by destruct (h _ c w). Qed.
Lemma run_try {A} (p : prog E X A) w : run (try_ p) w = (Ok (run p w).1, (run p w).2).
Proof. revert w. induction p as [a|e|R c k IH]; intros w; cbn; [done|done|apply IH]. Qed.
Lemma run_safe {A} ok (p : prog E X A) w (Q : result X A -> list event -> Prop) :
  safe ok p [] Q -> allowed ok (trace p w) /\ Q (run p w).1 (trace p w).
Proof. intros H. destruct (safe_exec ok p [] _ _ Q (run_exec p w) H (allowed_nil _)) as [H1 H2]. done. Qed.

(** The run returns, with a result and a state such that [Q]. *)
Definition returns {A} (p : prog E X A) (w : W) (Q : A -> W -> Prop) : Prop := exists a w', run p w = (Ok a, w') /\ Q a w'.

Lemma returns_ret {A} (a : A) w (Q : A -> W -> Prop) : Q a w -> returns (Ret a) w Q.
Proof. intros H. by exists a, w. Qed.
Lemma returns_bind {A B} (p : prog E X A) (f : A -> prog E X B) w Q :
  returns p w (fun a w' => returns (f a) w' Q) -> returns (p ≫= f) w Q.
Proof. intros (a & w1 & H1 & b & w2 & H2 & HQ). exists b, w2. by rewrite run_bind, H1. Qed.
Lemma returns_mono {A} (p : prog E X A) w (Q Q' : A -> W -> Prop) : (forall a w', Q a w' -> Q' a w') -> returns p w Q -> returns p w Q'.
Proof. intros HQ (a & w1 & H1 & H2). exists a, w1. auto. Qed.
Lemma returns_do {R} (c : E R) w (Q : R -> W -> Prop) : Q (h _ c w).1 (h _ c w).2 -> returns (do_ c) w Q.
Proof. intros H. by exists (h _ c w).1, (h _ c w).2. Qed.
Lemma returns_invoke {A} (c : E (result X A)) w a (Q : A -> W -> Prop) : (h _ c w).1 = Ok a -> Q a (h _ c w).2 -> returns (invoke c) w Q.
Proof. intros Ha HQ. exists a, (h _ c w).2. rewrite run_invoke, <- Ha. split; [by destruct (h _ c w)|done]. Qed.
Lemma returns_try {A} (p : prog E X A) w (Q : result X A -> W -> Prop) : returns p w (fun a => Q (Ok a)) -> returns (try_ p) w Q.
Proof. intros (a & w1 & H1 & H2). exists (Ok a), w1. by rewrite run_try, H1. Qed.

(** The invariant rule of loops, over the part of the list that is still to come. *)
Lemma returns_fold {S A} (I : list A -> S -> W -> Prop) (f : S -> A -> prog E X S) l s w :
  I l s w -> (forall x l s w, I (x :: l) s w -> returns (f s x) w (fun s' w' => I l s' w')) -> returns (foldP f l s) w (I []).
Proof.
  intros H0 Hf. revert s w H0. induction l as [|x l IH]; intros s w H0; cbn [foldP]; [by apply returns_ret|].
  apply returns_bind. eapply returns_mono; [|by apply Hf]. intros s' w' H'. by apply IH.
Qed.
End run.
End effects.
Arguments event E : clear implicits.
Arguments Ev {E R} c r.

(** ** Programs inside programs

    A component that drives another runs its programs with the commands injected into its own. *)
Section hoist.
Context {E E' : Type -> Type} {X : Type} (inj : forall R, E R -> E' R).

Fixpoint hoist {A} (p : prog E X A) : prog E' X A :=
  match p with
  | Ret a => Ret a
  | Throw e => Throw e
  | Do c k => Do (inj _ c) (fun r => hoist (k r))
  end.

(** What the inner component has seen of a trace. *)
Context (inner : list (event E') -> list (event E)) (Hinner : forall tr R (c : E R) r, inner (tr ++ [Ev (inj R c) r]) = inner tr ++ [Ev c r]).

(** The safety of the inner program, while an invariant [I] of the outer one lasts. *)
Lemma safe_hoist {A} (I : list (event E') -> Prop) (ok' : list (event E') -> event E' -> Prop) (ok : list (event E) -> event E -> Prop)
    (p : prog E X A) tr (Q : result X A -> list (event E) -> Prop) :
  (forall tr R (c : E R) r, I tr -> ok (inner tr) (Ev c r) -> ok' tr (Ev (inj R c) r)) ->
  (forall tr R (c : E R) r, I tr -> I (tr ++ [Ev (inj R c) r])) ->
  I tr -> safe ok p (inner tr) Q -> safe ok' (hoist p) tr (fun r tr' => I tr' /\ Q r (inner tr')).
Proof.
  intros Hok HI. revert tr. induction p as [a|e|R c k IH]; intros tr Htr; cbn; [done|done|].
  intros H r. destruct (H r) as [H1 H2]. split; [by apply Hok|]. apply IH; [by apply HI|]. by rewrite Hinner.
Qed.
End hoist.
