(* ===== verification/Shared.v ===== *)
(** * Sections under a lock, beside processes that do not take it

    Several processes run programs over one shared state.  Some of the programs run as a whole under one exclusive lock: at most one of them is
    under way, and it holds the lock until it returns, raises or is killed.  Everybody else changes the state between any two of its commands, in the ways that
    a relation [rely] allows.

    [guards I p Q s]: from [s] on, whatever the others do, [I] holds at every moment of [p], and [Q] of its outcome.  *)

From S2P Require Import Prelude Effects.

#[local] Open Scope list_scope.

Section shared.
Context {E : Type -> Type} {X S : Type}.
(** What a command replies and what it makes of the state; what the others may do *)
Context (handle : forall R, E R -> S -> R -> S -> Prop) (rely : S -> S -> Prop) `{!PreOrder rely}.

Fixpoint guards {A} (I : S -> Prop) (p : prog E X A) (Q : result X A -> S -> Prop) (s : S) : Prop :=
  forall s1, rely s s1 -> I s1 /\
    match p with
    | Ret a => Q (Ok a) s1
    | Throw e => Q (Err e) s1
    | Do c k => forall r s2, handle _ c s1 r s2 -> guards I (k r) Q s2
    end.

(** An assertion that the others keep *)
Definition stable (P : S -> Prop) : Prop := forall s s1, P s -> rely s s1 -> P s1.

Lemma guards_rely {A} I (p : prog E X A) Q s s1 : guards I p Q s -> rely s s1 -> guards I p Q s1.
Proof. intros H Hr. destruct p; cbn in *; intros s2 Hr2; apply H; by etrans. Qed.
Lemma guards_now {A} I (p : prog E X A) Q s : guards I p Q s -> I s.
Proof. intros H. destruct p; cbn in H; by apply H. Qed.
Lemma guards_mono {A} I (p : prog E X A) (Q Q' : result X A -> S -> Prop) s : (forall r s, Q r s -> Q' r s) -> guards I p Q s -> guards I p Q' s.
Proof.
  intros HQ. revert s. induction p as [a|e|R c k IH]; intros s H s1 Hr; destruct (H s1 Hr) as [Hi Hn]; (split; [done|]); [auto|auto|].
  intros r s2 Hh. by apply IH, Hn.
Qed.
Lemma guards_bind {A B} I (f : A -> prog E X B) (p : prog E X A) Q s :
  guards I p (fun r s => match r with Ok a => guards I (f a) Q s | Err e => Q (Err e) s end) s -> guards I (p ≫= f) Q s.
Proof.
  unfold mbind, prog_bind. revert s. induction p as [a|e|R c k IH]; intros s H.
  - cbn. apply (guards_now (fun s => guards I (f a) Q s) (Ret a) (fun _ _ => True)). intros s1 Hr. split; [|done]. by destruct (H s1 Hr).
  - exact H.
  - intros s1 Hr. destruct (H s1 Hr) as [Hi Hn]. split; [done|]. intros r s2 Hh. by apply IH, Hn.
Qed.
Lemma guards_ret {A} I (a : A) (Q : result X A -> S -> Prop) s : (forall s1, rely s s1 -> I s1 /\ Q (Ok a) s1) -> guards I (Ret a) Q s.
Proof. done. Qed.

(** A command, from an assertion that lasts *)
Lemma guards_do {A R} I (P : S -> Prop) (c : E R) (k : R -> prog E X A) Q s :
  stable P -> (forall s, P s -> I s) -> P s -> (forall r s1 s2, P s1 -> handle _ c s1 r s2 -> guards I (k r) Q s2) -> guards I (r ← do_ c; k r) Q s.
Proof. intros HP HI Hs Hk s1 Hr. assert (P s1) by (by eapply HP). split; [by apply HI|]. intros r s2 Hh. by eapply Hk. Qed.
Lemma guards_lift {A} I (x : result X A) (Q : result X A -> S -> Prop) s : (forall s1, rely s s1 -> I s1 /\ Q x s1) -> guards I (lift x) Q s.
Proof. by destruct x. Qed.

(** A program whose commands keep an assertion *)
Lemma guards_frame {A} I (P : S -> Prop) (p : prog E X A) s :
  stable P -> (forall s, P s -> I s) -> only (fun R c => forall s r s', P s -> handle R c s r s' -> P s') p -> P s -> guards I p (fun _ s => P s) s.
Proof.
  intros HP HI. revert s. induction p as [a|e|R c k IH]; intros s Hp Hs s1 Hr; assert (P s1) by (by eapply HP); (split; [by apply HI|]); [done|done|].
  destruct Hp as [Hc Hk]. intros r s2 Hh. by eapply IH, Hc.
Qed.

(** ** The sections of all processes *)

Context (entry : prog E X () -> Prop) (may_crash : S -> Prop).

Record Shared := { contents : S; under_way : option (prog E X ()) }.

Inductive shared_step (x : Shared) : Shared -> Prop :=
| step_enter p : under_way x = None -> entry p -> shared_step x {| contents := contents x; under_way := Some p |}
| step_command R (c : E R) k r s' : under_way x = Some (Do c k) -> handle _ c (contents x) r s' -> shared_step x {| contents := s'; under_way := Some (k r) |}
| step_return a : under_way x = Some (Ret a) -> shared_step x {| contents := contents x; under_way := None |}
| step_raise e : under_way x = Some (Throw e) -> shared_step x {| contents := contents x; under_way := None |}
| step_crash p : under_way x = Some p -> may_crash (contents x) -> shared_step x {| contents := contents x; under_way := None |}
| step_others s' : rely (contents x) s' -> shared_step x {| contents := s'; under_way := under_way x |}.

(** When every section keeps [I] and hands on [J], then whatever is under way, [I] or [J] holds. *)
Lemma sections_keep (I J : S -> Prop) x y :
  stable J -> (forall s, I s -> may_crash s -> J s) -> (forall p s, entry p -> J s -> guards I p (fun _ => J) s) ->
  rtc shared_step x y -> under_way x = None -> J (contents x) -> match under_way y with None => J (contents y) | Some _ => I (contents y) end.
Proof.
  intros HJ Hcrash Hentry Hxy Hx Hm.
  assert (H0 : match under_way x with None => J (contents x) | Some p => guards I p (fun _ => J) (contents x) end) by (by rewrite Hx). clear Hx Hm.
  assert (H : match under_way y with None => J (contents y) | Some p => guards I p (fun _ => J) (contents y) end).
  { induction Hxy as [x|x x1 y Hs _ IH]; [done|]. apply IH. clear IH.
    destruct Hs as [p He Hp|R c k r s' He Hh|a He|e He|p He Hc|s' Hr]; cbn [under_way contents]; rewrite ?He in H0.
    - by apply Hentry.
    - destruct (H0 (contents x)) as [_ Hn]; [done|]. by apply Hn.
    - by destruct (H0 (contents x)).
    - by destruct (H0 (contents x)).
    - apply Hcrash; [|done]. by eapply guards_now.
    - destruct (under_way x); [by eapply guards_rely|by eapply HJ]. }
  destruct (under_way y); [by eapply guards_now|done].
Qed.

(** One section, alone, against an answer to each command *)
Lemma run_shared (h : forall R, E R -> S -> R * S) (p : prog E X ()) s :
  (forall R (c : E R) s, handle R c s (h R c s).1 (h R c s).2) -> rtc shared_step {| contents := s; under_way := Some p |} {| contents := (run h p s).2; under_way := None |}.
Proof.
  intros Hh. revert s. induction p as [a|e|R c k IH]; intros s.
  - apply rtc_once. by apply (step_return {| contents := s; under_way := Some (Ret a) |} a).
  - apply rtc_once. by apply (step_raise {| contents := s; under_way := Some (Throw e) |} e).
  - eapply rtc_l; [by apply (step_command {| contents := s; under_way := Some (Do c k) |} R c k)|]. apply IH.
Qed.
Lemma run_section (h : forall R, E R -> S -> R * S) (p : prog E X ()) s :
  (forall R (c : E R) s, handle R c s (h R c s).1 (h R c s).2) -> entry p -> rtc shared_step {| contents := s; under_way := None |} {| contents := (run h p s).2; under_way := None |}.
Proof.
  intros Hh Hp. eapply rtc_l; [by apply (step_enter {| contents := s; under_way := None |} p)|]. by apply run_shared.
Qed.
End shared.

(** ** Programs whose results satisfy a predicate, whatever the replies *)
Section yields.
Context {E : Type -> Type} {X : Type}.

Fixpoint yields {A} (V : A -> Prop) (p : prog E X A) : Prop :=
  match p with Ret a => V a | Throw _ => True | Do c k => forall r, yields V (k r) end.
Lemma yields_bind {A B} (V : B -> Prop) (p : prog E X A) (f : A -> prog E X B) : (forall a, yields V (f a)) -> yields V (p ≫= f).
Proof. unfold mbind, prog_bind. intros Hf. induction p as [a|e|R c k IH]; cbn; auto. Qed.
Lemma yields_true {A} (p : prog E X A) : yields (fun _ => True) p.
Proof. induction p as [a|e|R c k IH]; cbn; auto. Qed.

Context {S : Type} (handle : forall R, E R -> S -> R -> S -> Prop) (rely : S -> S -> Prop) `{!PreOrder rely}.
Lemma guards_frame_yields {A} I (P : S -> Prop) (V : A -> Prop) (p : prog E X A) s :
  stable rely P -> (forall s, P s -> I s) -> only (fun R c => forall s r s', P s -> handle R c s r s' -> P s') p -> yields V p -> P s ->
  guards handle rely I p (fun r s => P s /\ match r with Ok a => V a | Err _ => True end) s.
Proof.
  intros HP HI. revert s. induction p as [a|e|R c k IH]; intros s Hp Hv Hs s1 Hr; assert (P s1) by (by eapply HP); (split; [by apply HI|]); [done|done|].
  destruct Hp as [Hc Hk]. intros r s2 Hh. by eapply IH, Hc.
Qed.
End yields.

Lemma stable_rtc {S : Type} (rely : S -> S -> Prop) (P : S -> Prop) : stable rely P -> stable (rtc rely) P.
Proof. intros H s s1 Hs Hr. induction Hr as [|x y z Hxy _ IH]; [done|]. by eapply IH, H. Qed.

Lemma only_impl {E : Type -> Type} {X A : Type} (P P' : forall R, E R -> Prop) (p : prog E X A) : (forall R c, P R c -> P' R c) -> only P p -> only P' p.
Proof. intros H. induction p as [a|e|R c k IH]; cbn; [done|done|]. intros [Hc Hk]. auto. Qed.

(** Programs of commands that plainly satisfy a predicate *)
Ltac only_auto :=
  repeat first
    [ apply only_ret | apply only_throw | apply only_lift | apply only_do; exact I | apply only_invoke; exact I
    | apply only_bind; [|let a := fresh "a" in intros a] | progress cbn zeta beta iota | case_match ].
