(* ===== verification/Hosts.v ===== *)
(** * The host lifecycle ([garden/hosts/core.py], [garden/hosts/models.py])

    Idempotent reconciliation of a declared pool of hosts with what a cloud provider runs: planning,
    provisioning into stable slots, retirement, draining, replacement of interrupted hosts, and the
    durable record of it all.

    A method of [HostLifecycle] is a program ([Effects.prog]) over the commands below: calls of the
    provider, the policy and the hooks, whose replies are arbitrary, and [Locked], one read-modify-write
    of the state file under its lock (an unlocked read is one that changes nothing).  Other controllers
    share the state file, so nothing is assumed of what a [Locked] section finds there beyond what the
    code checks.

    The state file is the record of what the class writes to it.  Times are integers of seconds, prices
    are rationals, and neither is ever infinite or NaN except in an admission, where a non-finite number
    is [None].  SHA-256, Python's [repr] of a string, and the deadline read out of an interruption notice
    are parameters.  The assumption texts of a plan are left out. *)

From Stdlib Require Export QArith.
From S2P Require Import Prelude PyValue Requirements Workers Effects.

#[local] Open Scope list_scope.
#[local] Open Scope Z_scope.

Definition CONTRACT_VERSION : string := "garden.hosts/v1".

(** ** Data *)

Inductive HostState :=
| PROVISIONING | BOOTSTRAPPING | READY | BUSY | DRAINING | INTERRUPTED | FAILED | STOPPED | TERMINATED.
#[export] Instance host_state_eq_dec : EqDecision HostState.
Proof. solve_decision. Defined.
Definition state_value (s : HostState) : string :=
  match s with
  | PROVISIONING => "provisioning" | BOOTSTRAPPING => "bootstrapping" | READY => "ready" | BUSY => "busy" | DRAINING => "draining"
  | INTERRUPTED => "interrupted" | FAILED => "failed" | STOPPED => "stopped" | TERMINATED => "terminated"
  end.

Record EnvironmentProfile := {
  prof_name : string; prof_version : string; prof_image : string; prof_bootstrap_version : string;
  prof_cpu : Z; prof_memory_mib : Z; prof_disk_gib : Z; endpoint : string; enrollment_secret_ref : string;
  persistent_workspace : bool; health_path : string; prof_provider_options : row; source_head : string;
}.

Record PoolDeclaration := {
  pool_name : string; pool_owner : string; purpose : string; pool_provider : string; profile : EnvironmentProfile;
  enabled : bool; minimum : Z; maximum : Z; desired : Z; idle_timeout_minutes : Z; maximum_age_minutes : Z;
  estimated_runtime_hours : Q; spend_limit_usd : Q; purchase_policy : string; on_demand_fallback : bool;
  recoverable_workspace : bool; pool_provider_options : row;
}.

Record HostDeclaration := { decl_host_id : string; decl_operation_id : string; decl_pool : PoolDeclaration; deadline_utc : string }.

Record HostFacts := {
  host_id : string; provider_id : string; operation_id : string; state : HostState; image : string; bootstrap_version : string;
  retained_resources : list string; detail : string;
}.
#[export] Instance host_facts_eq_dec : EqDecision HostFacts.
Proof. solve_decision. Defined.

(** [replace(host, state=..., detail=...)] *)
Definition with_state (st : HostState) (d : string) (h : HostFacts) : HostFacts :=
  {| host_id := host_id h; provider_id := provider_id h; operation_id := operation_id h; state := st; image := image h;
     bootstrap_version := bootstrap_version h; retained_resources := retained_resources h; detail := d |}.

Record HostReadiness := { hw_workspace : bool; hw_revision : bool; provisioned : bool; harness_login : bool; smoke_probe : bool; ready_detail : string }.
(** [HostReadiness.ready] *)
Definition host_ready (r : HostReadiness) : bool := hw_workspace r && hw_revision r && provisioned r && harness_login r && smoke_probe r.

Record HostAdmission := {
  eligible : bool; measured_at : option Z; ad_host_class : string; ad_environment : string; ad_capabilities : list string;
  memory_available_mib : Z; disk_free_gib : Z; ad_requirement_digest : string; ad_profile_revision : string; ad_worker_id : string;
  ad_run_id : string; ad_activity : string; ad_operating_user : string; ad_installation_id : string; ad_lease_generation : Z;
  memory_limit_mib : Z; vcpu_limit : Z; gpu_devices : list string; ad_gpu_device_memory_mib : list Z; gpu_device_vendors : list string;
  gpu_device_features : list (list string); resources_enforced : bool; lease_id : string; lease_expires_at : option Z; ad_detail : string;
}.
#[export] Instance host_admission_eq_dec : EqDecision HostAdmission.
Proof. solve_decision. Defined.

Record HostPlan := {
  plan_pool : string; plan_enabled : bool; current : Z; plan_desired : Z; create : Z; retire : list string;
  estimated_hourly_usd : Q; estimated_accrued_usd : Q;
}.

Record HostEvent := { ev_kind : string; ev_host : string; ev_state : HostState; ev_detail : string }.

(** [host_operation_id]: a slot of a pool, bound to its generation. *)
Definition nul : string := String (ascii_of_nat 0) "".
Definition raw_operation (owner name : string) (slot : Z) (seed : string) : string :=
  (CONTRACT_VERSION ++ nul ++ owner ++ nul ++ name ++ nul ++ show slot ++ (if nonempty seed then nul ++ seed else ""))%string.

(** ** The state file *)

Record Lease := {
  acquired_at : Z; last_used_at : Z; reserved_until : Z; workspace : string; revision : string; harness : string;
  run_id : string; released : bool; admission : option HostAdmission; requirements : option HostRequirements; activated_at : option Z;
}.
#[export] Instance lease_eq_dec : EqDecision Lease.
Proof. solve_decision. Defined.

Record Store := {
  pools : gmap string (HostPlan * list HostFacts);
  events : list HostEvent;
  generations : gmap (string * Z) Z;
  leases : gmap string Lease;
  stops : gmap string (string * Z);
}.
Definition empty_store : Store := {| pools := ∅; events := []; generations := ∅; leases := ∅; stops := ∅ |}.

Definition set_pools x (s : Store) : Store := {| pools := x; events := events s; generations := generations s; leases := leases s; stops := stops s |}.
Definition set_events x (s : Store) : Store := {| pools := pools s; events := x; generations := generations s; leases := leases s; stops := stops s |}.
Definition set_generations x (s : Store) : Store := {| pools := pools s; events := events s; generations := x; leases := leases s; stops := stops s |}.
Definition set_leases x (s : Store) : Store := {| pools := pools s; events := events s; generations := generations s; leases := x; stops := stops s |}.
Definition set_stops x (s : Store) : Store := {| pools := pools s; events := events s; generations := generations s; leases := leases s; stops := x |}.

(** ** Errors and commands *)

Inductive herr :=
| ProviderError (m : string)
| ProvisioningUncertain (m : string)
| TransientProviderError (m : string)
| EnvironmentStop (m : string)
| Raised (e : exn)
| AssertionError (m : string)
| OutOfFuel.
#[export] Instance herr_eq_dec : EqDecision herr.
Proof. solve_decision. Defined.
(** [ProviderError] and its subclasses, with their text. *)
Definition provider_error (e : herr) : option string :=
  match e with ProviderError m | ProvisioningUncertain m | TransientProviderError m => Some m | _ => None end.

(** What the lifecycle reads of a provider object; the flags are its optional methods. *)
Record ProviderInfo := {
  prov_name : string; contract_version : string; cap_stop_start : bool; cap_spot : bool;
  has_bind : bool; has_acknowledge : bool; has_orphans : bool; has_readiness : bool; has_admit : bool;
}.

(** What a locked section can consult: [time.time()] and whether a run's process has ended. *)
Record Env := { clock : Z; terminal : string -> bool }.

Inductive hcmd : Type -> Type :=
| Locked {A} (f : Env -> Store -> A * Store) : hcmd A
| Now : hcmd Z
| Terminal (run : string) : hcmd bool
| Sleep (seconds : Z) : hcmd unit
| Uuid : hcmd string
| ValidateOptions (options : row) : hcmd (result herr unit)
| Bind (d : HostDeclaration) : hcmd (result herr ProviderInfo)
| Estimate (d : HostDeclaration) : hcmd (result herr Q)
| Discover (owner pool : string) : hcmd (result herr (list HostFacts))
| Provision (d : HostDeclaration) : hcmd (result herr HostFacts)
| StopHost (id : string) : hcmd (result herr HostFacts)
| StartHost (id : string) : hcmd (result herr HostFacts)
| Destroy (id : string) (delete_storage : bool) : hcmd (result herr HostFacts)
| Acknowledge (id : string) : hcmd (result herr unit)
| Orphans (owner pool : string) : hcmd (result herr (list string))
| Readiness (id workspace revision harness : string) : hcmd (result herr HostReadiness)
| Admit (id : string) (r : HostRequirements) (acquisition : string) : hcmd (result herr HostAdmission)
| Renew (id lease : string) : hcmd (result herr HostAdmission)
| Activate (id lease : string) (r : HostRequirements) : hcmd (result herr HostAdmission)
| ReleaseAdmission (id lease : string) : hcmd (result herr unit)
| Authorize (action : string) (d : HostDeclaration) : hcmd (result herr unit)
| HealthCheck (h : HostFacts) (p : PoolDeclaration) : hcmd (option bool * string)
| DrainHook (h : HostFacts) (deadline detail : string) : hcmd bool
| ClearHook (operation : string) : hcmd unit.

Abbreviation M := (prog hcmd herr).

Definition value_error {A} (m : string) : M A := Throw (Raised (ValueError m)).
(** [if b: raise e] followed by the rest of the method. *)
Definition guard_ (b : bool) (e : herr) : M unit := if b then Throw e else Ret tt.

Definition read_state : M Store := do_ (Locked (fun _ s => (s, s))).
Definition locked_write (f : Env -> Store -> Store) : M unit := do_ (Locked (fun e s => (tt, f e s))).

(** [HostLifecycle.__init__] *)
Record Lifecycle := {
  providers : string -> option ProviderInfo;
  health_check : bool; interruption_drain : bool; drain_clear : bool;
  retry_attempts : nat; reservation_seconds : Z; absolute_deadline : string; operation_seed : string;
}.

(** ** Validation of a pool *)

Definition safe_char (c : ascii) : bool :=
  is_alnum c || bool_decide (c = "_"%char) || bool_decide (c = "."%char) || bool_decide (c = "-"%char).
(** [re.fullmatch(r"[A-Za-z0-9][A-Za-z0-9_.-]{0,63}", s)] *)
Definition safe_identifier (s : string) : bool :=
  match s with String c s' => is_alnum c && str_all safe_char s' && (String.length s' <=? 63)%nat | EmptyString => false end.

Definition validate (p : PoolDeclaration) : result exn unit :=
  let f := profile p in
  raise (ValueError "pool name, owner and purpose are required")
    when (negb (nonempty (pool_name p)) || negb (nonempty (pool_owner p)) || negb (nonempty (purpose p))) ;;
  raise (ValueError "pool name must be a safe identifier of at most 64 characters") when (negb (safe_identifier (pool_name p))) ;;
  raise (ValueError "pool.minimum must be a nonnegative integer") when (minimum p <? 0) ;;
  raise (ValueError "pool.maximum must be a nonnegative integer") when (maximum p <? 0) ;;
  raise (ValueError "pool.desired must be a nonnegative integer") when (desired p <? 0) ;;
  raise (ValueError "capacity must satisfy 0 <= minimum <= desired <= maximum")
    when (negb ((minimum p <=? desired p) && (desired p <=? maximum p))) ;;
  raise (ValueError "spend_limit_usd must be positive") when (Qle_bool (spend_limit_usd p) 0) ;;
  raise (ValueError "estimated_runtime_hours must be positive") when (Qle_bool (estimated_runtime_hours p) 0) ;;
  raise (ValueError "purchase_policy must be on_demand or spot") when (negb (mem (purchase_policy p) ["on_demand"; "spot"])) ;;
  raise (ValueError "on_demand_fallback is only valid for a Spot pool")
    when (on_demand_fallback p && negb (bool_decide (purchase_policy p = "spot"))) ;;
  raise (ValueError "profile.cpu must be a positive integer") when (prof_cpu f <=? 0) ;;
  raise (ValueError "profile.memory_mib must be a positive integer") when (prof_memory_mib f <=? 0) ;;
  raise (ValueError "profile.disk_gib must be a positive integer") when (prof_disk_gib f <=? 0) ;;
  raise (ValueError "profile image, version and bootstrap_version must be pinned")
    when (negb (nonempty (prof_image f)) || negb (nonempty (prof_version f)) || negb (nonempty (prof_bootstrap_version f))) ;;
  raise (ValueError "profile endpoint must use reachable HTTPS") when (nonempty (endpoint f) && negb (startswith "https://" (endpoint f))) ;;
  raise (ValueError "an HTTPS enrollment endpoint requires a scoped secret reference")
    when (nonempty (endpoint f) && negb (nonempty (enrollment_secret_ref f))) ;;
  raise (ValueError "Spot development hosts require recoverable_workspace=true")
    when (persistent_workspace f && bool_decide (purchase_policy p = "spot") && negb (recoverable_workspace p)) ;;
  Ok tt.

Definition validated (p : PoolDeclaration) : M unit :=
  match validate p with Ok _ => Ret tt | Err e => Throw (Raised e) end.

(** ** Slots and operation identities *)

(** [int] of a run of decimal digits *)
Fixpoint digits_value (acc : Z) (s : string) : Z :=
  match s with String c s' => digits_value (10 * acc + Z.of_N (N_of_ascii c - 48)) s' | EmptyString => acc end.
(** [s.isdigit()] *)
Definition is_digits (s : string) : bool := nonempty s && str_all is_digit s.
Definition stable_host_id (p : PoolDeclaration) (slot : Z) : string := (pool_name p ++ "-" ++ show slot)%string.
(** The slot in a host id of the pool. *)
Definition slot_of (p : PoolDeclaration) (id : string) : option Z :=
  let prefix := (pool_name p ++ "-")%string in
  let s := removeprefix prefix id in
  if startswith prefix id && is_digits s then Some (digits_value 0 s) else None.

(** [str.replace] *)
Fixpoint replace_str (fuel : nat) (old new s : string) : string :=
  match fuel with
  | O => s
  | S n =>
      match s with
      | EmptyString => s
      | String c s' =>
          if startswith old s then (new ++ replace_str n old new (drop_str (String.length old) s))%string
          else String c (replace_str n old new s')
      end
  end.

Section lifecycle.
Context (digest repr : string -> string) (notice_deadline : HostFacts -> Z -> string) (L : Lifecycle).

(** [_replacement_generation] and [_operation_id], in a state that has been read *)
Definition generation_in (s : Store) (p : PoolDeclaration) (slot : Z) : Z := default 0 (generations s !! (pool_name p, slot)).
Definition host_operation_id (p : PoolDeclaration) (slot : Z) (seed : string) : string :=
  digest (raw_operation (pool_owner p) (pool_name p) slot seed).
Definition operation_id_in (s : Store) (p : PoolDeclaration) (slot : Z) : string :=
  let g := generation_in s p slot in
  if g =? 0 then host_operation_id p slot (operation_seed L)
  else host_operation_id p slot (if nonempty (operation_seed L) then (operation_seed L ++ nul ++ show g)%string else show g).
Definition operation_id_of (p : PoolDeclaration) (slot : Z) : M string := s ← read_state; Ret (operation_id_in s p slot).

(** [_host_slot] *)
Definition host_slot (p : PoolDeclaration) (h : HostFacts) : M Z :=
  match slot_of p (host_id h) with
  | Some slot => Ret slot
  | None => Throw (ProviderError ("provider returned invalid stable host id " ++ repr (host_id h)))
  end.

(** [_advance_replacement] *)
Definition bump_generation (p : PoolDeclaration) (slot : Z) (s : Store) : Store :=
  set_generations (<[(pool_name p, slot) := generation_in s p slot + 1]> (generations s)) s.
Definition advance_replacement (p : PoolDeclaration) (h : HostFacts) : M unit :=
  slot ← host_slot p h; locked_write (fun _ => bump_generation p slot).

(** [_is_current_generation] *)
Definition is_current_generation (p : PoolDeclaration) (h : HostFacts) : M bool :=
  slot ← host_slot p h; id ← operation_id_of p slot; Ret (bool_decide (operation_id h = id)).

(** [_declaration] *)
Definition declaration (p : PoolDeclaration) (slot : Z) : M HostDeclaration :=
  id ← operation_id_of p slot;
  let host := stable_host_id p slot in
  let f := profile p in
  let secret := replace_str (S (String.length (enrollment_secret_ref f))) "{host_id}" host (enrollment_secret_ref f) in
  Ret {| decl_host_id := host; decl_operation_id := id; deadline_utc := absolute_deadline L;
         decl_pool := {| pool_name := pool_name p; pool_owner := pool_owner p; purpose := purpose p; pool_provider := pool_provider p;
           profile := {| prof_name := prof_name f; prof_version := prof_version f; prof_image := prof_image f;
             prof_bootstrap_version := prof_bootstrap_version f; prof_cpu := prof_cpu f; prof_memory_mib := prof_memory_mib f;
             prof_disk_gib := prof_disk_gib f; endpoint := endpoint f; enrollment_secret_ref := secret;
             persistent_workspace := persistent_workspace f; health_path := health_path f;
             prof_provider_options := prof_provider_options f; source_head := source_head f |};
           enabled := enabled p; minimum := minimum p; maximum := maximum p; desired := desired p;
           idle_timeout_minutes := idle_timeout_minutes p; maximum_age_minutes := maximum_age_minutes p;
           estimated_runtime_hours := estimated_runtime_hours p; spend_limit_usd := spend_limit_usd p;
           purchase_policy := purchase_policy p; on_demand_fallback := on_demand_fallback p;
           recoverable_workspace := recoverable_workspace p; pool_provider_options := pool_provider_options p |} |}.

(** [_provider] *)
Definition provider_of (p : PoolDeclaration) : M ProviderInfo :=
  match providers L (pool_provider p) with
  | None => value_error ("unknown host provider " ++ repr (pool_provider p))
  | Some i =>
      _ ← guard_ (negb (bool_decide (contract_version i = CONTRACT_VERSION)))
            (Raised (ValueError ("provider " ++ repr (pool_provider p) ++ " uses " ++ contract_version i ++ "; expected " ++ CONTRACT_VERSION)));
      _ ← invoke (ValidateOptions (pool_provider_options p));
      _ ← invoke (ValidateOptions (prof_provider_options (profile p)));
      if has_bind i then d ← declaration p 0; invoke (Bind d) else Ret i
  end.

Definition discover (p : PoolDeclaration) : M (list HostFacts) := invoke (Discover (pool_owner p) (pool_name p)).
(** [sorted(..., key=lambda h: h.host_id)] *)
Definition by_host_id : list HostFacts -> list HostFacts := sort_by (fun a b => str_leb (host_id a) (host_id b)).
Definition discover_sorted (p : PoolDeclaration) : M (list HostFacts) := l ← discover p; Ret (by_host_id l).

Definition live (h : HostFacts) : bool := negb (bool_decide (state h = TERMINATED)).

(** [_advance_missing_replacements] *)
Definition lost_event (h : HostFacts) : HostEvent :=
  {| ev_kind := "host_lost"; ev_host := host_id h; ev_state := INTERRUPTED; ev_detail := "previously recorded provider host is no longer discoverable" |}.
Definition advance_missing (p : PoolDeclaration) (discovered : list HostFacts) : M (list HostEvent) :=
  data ← read_state;
  let prior := match pools data !! pool_name p with Some (_, hosts) => hosts | None => [] end in
  foldP (fun evs h =>
      if negb (live h) then Ret evs
      else if mem (operation_id h) (map operation_id discovered) then Ret evs
      else match slot_of p (host_id h) with
           | None => Ret evs
           | Some slot =>
               id ← operation_id_of p slot;
               if negb (bool_decide (id = operation_id h)) then Ret evs
               else _ ← advance_replacement p h; Ret (evs ++ [lost_event h])
           end) prior [].

(** [_available_slots]: the [while] loop from [slot] on, [need] slots still wanted *)
Fixpoint available_from (fuel : nat) (p : PoolDeclaration) (hosts : list HostFacts) (need : nat) (slot : Z) : M (list Z) :=
  match need with
  | O => Ret []
  | S need' =>
      match fuel with
      | O => Throw OutOfFuel
      | S fuel' =>
          id ← operation_id_of p slot;
          if mem id (map operation_id hosts) || mem (stable_host_id p slot) (map host_id hosts)
          then available_from fuel' p hosts need (slot + 1)
          else l ← available_from fuel' p hosts need' (slot + 1); Ret (slot :: l)
      end
  end.
Definition available_slots (p : PoolDeclaration) (hosts : list HostFacts) : M (list Z) :=
  available_from (Z.to_nat (desired p) + 2 * List.length hosts) p hosts (Z.to_nat (desired p)) 0.

(** ** Planning and recording *)

(** [plan] *)
Definition plan (p : PoolDeclaration) : M HostPlan :=
  _ ← validated p;
  i ← provider_of p;
  _ ← guard_ (bool_decide (purchase_policy p = "spot") && negb (cap_spot i))
        (Raised (ValueError ("provider " ++ repr (prov_name i) ++ " does not support Spot")));
  hosts ← discover_sorted p;
  let active := List.filter live hosts in
  sample ← declaration p (Z.of_nat (List.length active));
  hourly ← invoke (Estimate sample);
  let estimate := (hourly * inject_Z (desired p))%Q in
  Ret {| plan_pool := pool_name p; plan_enabled := enabled p; current := Z.of_nat (List.length active); plan_desired := desired p;
         create := Z.max 0 (desired p - Z.of_nat (List.length active)); retire := map host_id (drop (Z.to_nat (desired p)) active);
         estimated_hourly_usd := estimate; estimated_accrued_usd := (estimate * estimated_runtime_hours p)%Q |}.

(** [_record] *)
Definition record_in (p : PoolDeclaration) (hosts : list HostFacts) (evs : list HostEvent) (pl : HostPlan) (s : Store) : Store :=
  set_events (events s ++ evs) (set_pools (<[pool_name p := (pl, hosts)]> (pools s)) s).
Definition record (p : PoolDeclaration) (hosts : list HostFacts) (evs : list HostEvent) (pl : HostPlan) : M unit :=
  locked_write (fun _ => record_in p hosts evs pl).

Definition disabled : herr := Raised (ValueError "pool is disabled; set enabled=true only after reviewing the plan").

(** The live host of the pool that carries an operation id. *)
Definition find_operation (id : string) (hosts : list HostFacts) : option HostFacts :=
  List.find (fun h => bool_decide (operation_id h = id) && live h) hosts.

(** The retry loop of [provision]: [n] attempts are left, [attempt] have been made. *)
Fixpoint provision_attempts (n attempt : nat) (d : HostDeclaration) : M HostFacts :=
  match n with
  | O => Throw (AssertionError "unreachable")
  | S n' =>
      r ← do_ (Provision d);
      match r with
      | Ok h => Ret h
      | Err (TransientProviderError m) =>
          match n' with
          | O => Throw (TransientProviderError m)
          | S _ => _ ← do_ (Sleep (2 ^ Z.of_nat attempt)); provision_attempts n' (S attempt) d
          end
      | Err e => Throw e
      end
  end.

(** [provision] *)
Definition provision (p : PoolDeclaration) (slot : Z) : M HostFacts :=
  _ ← validated p;
  _ ← guard_ (negb (enabled p)) disabled;
  d ← declaration p slot;
  _ ← invoke (Authorize "provision" d);
  _ ← provider_of p;
  hosts ← discover p;
  match find_operation (decl_operation_id d) hosts with
  | Some h => Ret h
  | None => provision_attempts (retry_attempts L) 0 d
  end.

(** ** Reconciliation *)

(** What the loops of [reconcile] accumulate. *)
Record Progress := {
  active : list HostFacts; evs : list HostEvent; failures : list HostFacts; retirements : list HostFacts; draining : dict HostFacts;
}.
Definition add_active h (x : Progress) := {| active := active x ++ [h]; evs := evs x; failures := failures x; retirements := retirements x; draining := draining x |}.
Definition add_event e (x : Progress) := {| active := active x; evs := evs x ++ [e]; failures := failures x; retirements := retirements x; draining := draining x |}.
Definition add_failure h (x : Progress) := {| active := active x; evs := evs x; failures := failures x ++ [h]; retirements := retirements x; draining := draining x |}.
Definition add_retired h (x : Progress) := {| active := active x; evs := evs x; failures := failures x; retirements := retirements x ++ [h]; draining := draining x |}.
Definition add_draining h (x : Progress) := {| active := active x; evs := evs x; failures := failures x; retirements := retirements x; draining := dset (operation_id h) h (draining x) |}.

Definition event_of (kind : string) (h : HostFacts) (st : HostState) (d : string) : HostEvent :=
  {| ev_kind := kind; ev_host := host_id h; ev_state := st; ev_detail := d |}.
Definition delete_storage (p : PoolDeclaration) : bool := negb (persistent_workspace (profile p)).

(** Authorize the destruction of slot [slot] and destroy the host. *)
Definition retire_host (p : PoolDeclaration) (slot : Z) (h : HostFacts) : M HostFacts :=
  d ← declaration p slot;
  _ ← invoke (Authorize "destroy" d);
  invoke (Destroy (provider_id h) (delete_storage p)).

Definition clear_drain (op : string) : M unit := if interruption_drain L && drain_clear L then do_ (ClearHook op) else Ret tt.

Definition retire_stale (p : PoolDeclaration) (x : Progress) (h : HostFacts) : M Progress :=
  slot ← host_slot p h;
  retired ← retire_host p slot h;
  Ret (add_event (event_of "stale_host_retired" h (state retired) "host operation generation was superseded") (add_retired retired x)).

(** An interrupted host drains, or is destroyed and its slot gets a new generation. *)
Definition handle_interrupted (p : PoolDeclaration) (i : ProviderInfo) (x : Progress) (h : HostFacts) : M Progress :=
  let x := add_event (event_of "interruption" h (state h) (detail h)) x in
  now ← do_ Now;
  let deadline := notice_deadline h now in
  drained ← (if interruption_drain L then do_ (DrainHook h deadline (detail h)) else Ret true);
  if negb drained then
    let d := with_state DRAINING ("interruption drain pending until " ++ deadline)%string h in
    Ret (add_event (event_of "interruption_draining" h DRAINING (detail d)) (add_draining d (add_active d x)))
  else
    slot ← host_slot p h;
    retired ← retire_host p slot h;
    _ ← (if has_acknowledge i then invoke (Acknowledge (provider_id h)) else Ret tt);
    _ ← advance_replacement p h;
    _ ← clear_drain (operation_id h);
    Ret (add_event (event_of "replacement_pending" h PROVISIONING "") (add_retired retired x)).

Definition host_of_declaration (p : PoolDeclaration) (d : HostDeclaration) (st : HostState) (text : string) : HostFacts :=
  {| host_id := decl_host_id d; provider_id := ""; operation_id := decl_operation_id d; state := st; image := prof_image (profile p);
     bootstrap_version := prof_bootstrap_version (profile p); retained_resources := []; detail := text |}.

(** One slot of the provisioning loop. *)
Definition fill_slot (p : PoolDeclaration) (x : Progress) (slot : Z) : M Progress :=
  d ← declaration p slot;
  _ ← invoke (Authorize "provision" d);
  hosts ← discover p;
  match find_operation (decl_operation_id d) hosts with
  | Some h => Ret (add_active h x)
  | None =>
      r ← try_ (provision p slot);
      match r with
      | Ok h => Ret (add_event (event_of "provisioned" h (state h) "") (add_active h x))
      | Err (ProvisioningUncertain m) =>
          let f := host_of_declaration p d PROVISIONING m in
          Ret (add_failure f (add_event (event_of "provisioning_uncertain" f PROVISIONING m) x))
      | Err (TransientProviderError m) =>
          let f := host_of_declaration p d FAILED ("provider retries exhausted: " ++ m)%string in
          Ret (add_failure f (add_event (event_of "provision_failed" f FAILED (detail f)) x))
      | Err e => Throw e
      end
  end.

Definition retire_excess (p : PoolDeclaration) (x : Progress) (h : HostFacts) : M Progress :=
  retired ← retire_host p 0 h;
  Ret (add_event (event_of "retired" retired (state retired) (join ", " (retained_resources retired))) (add_retired retired x)).

(** The health check of a host that is coming up, threading the checked hosts and the events. *)
Definition check_host (p : PoolDeclaration) (x : list HostFacts * list HostEvent) (h : HostFacts) : M (list HostFacts * list HostEvent) :=
  if health_check L && mem (state_value (state h)) ["bootstrapping"; "ready"] then
    r ← do_ (HealthCheck h p);
    let '(healthy, text) := r in
    match healthy with
    | None => Ret (x.1 ++ [with_state (state h) text h], x.2)
    | Some false =>
        let ev := event_of "bootstrap_failed" h FAILED text in
        destroyed ← retire_host p 0 h;
        Ret (x.1 ++ [destroyed], x.2 ++ [ev])
    | Some true =>
        if bool_decide (state h = BOOTSTRAPPING)
        then Ret (x.1 ++ [with_state READY text h], x.2 ++ [event_of "registered" h READY text])
        else Ret (x.1 ++ [h], x.2)
    end
  else Ret (x.1 ++ [h], x.2).

(** The hosts of the current generation, in order. *)
Fixpoint current_hosts (p : PoolDeclaration) (hosts : list HostFacts) : M (list HostFacts) :=
  match hosts with
  | [] => Ret []
  | h :: l => c ← is_current_generation p h; l' ← current_hosts p l; Ret (if (c : bool) then h :: l' else l')
  end.

Definition slots_to_fill (eligible : option (list Z)) (slots : list Z) : list Z :=
  match eligible with Some e => List.filter (fun s => bool_decide (s ∈ e)) slots | None => slots end.

(** The hosts [reconcile] health-checks after a fresh discovery, after the failures and retirements. *)
Definition to_check (x : Progress) (refreshed : list HostFacts) : list HostFacts * list HostFacts :=
  let refreshed := map (fun h => default h (dget (operation_id h) (draining x))) refreshed in
  let ops := map operation_id refreshed in
  let retired_ids := map provider_id (retirements x) in
  (List.filter (fun h => negb (mem (operation_id h) ops)) (failures x) ++ retirements x,
   List.filter (fun h => negb (mem (provider_id h) retired_ids)) refreshed).

(** [reconcile] *)
Definition reconcile (p : PoolDeclaration) (eligible : option (list Z)) : M (list HostFacts) :=
  pl ← plan p;
  _ ← guard_ (negb (enabled p)) disabled;
  _ ← guard_ (negb (Qle_bool (estimated_accrued_usd pl) (spend_limit_usd p))) (Raised (ValueError "estimated cost exceeds pool spend limit"));
  i ← provider_of p;
  hosts ← discover_sorted p;
  lost ← advance_missing p hosts;
  cur ← current_hosts p hosts;
  let stale := List.filter (fun h => negb (bool_decide (h ∈ cur)) && live h) hosts in
  let interrupted := List.filter (fun h => bool_decide (state h = INTERRUPTED)) cur in
  let act := List.filter (fun h => negb (bool_decide (state h = INTERRUPTED)) && live h) cur in
  x ← foldP (retire_stale p) stale {| active := act; evs := lost; failures := []; retirements := []; draining := [] |};
  x ← foldP (handle_interrupted p i) interrupted x;
  slots ← available_slots p (active x);
  let slots := take (Z.to_nat (desired p - Z.of_nat (List.length (active x)))) slots in
  x ← foldP (fill_slot p) (slots_to_fill eligible slots) x;
  x ← foldP (retire_excess p) (drop (Z.to_nat (desired p)) (active x)) x;
  refreshed ← discover_sorted p;
  let '(first, rest) := to_check x refreshed in
  y ← foldP (check_host p) rest (first, evs x);
  _ ← record p y.1 y.2 pl;
  Ret y.1.

(** ** The other operations on hosts *)

(** [inspect] *)
Definition inspect (p : PoolDeclaration) : M (list HostFacts) :=
  _ ← validated p;
  _ ← provider_of p;
  hosts ← discover p;
  data ← read_state;
  let rows := match pools data !! pool_name p with Some (_, l) => l | None => [] end in
  let marked := map operation_id (List.filter (fun h => bool_decide (state h = DRAINING)) rows) in
  Ret (map (fun h => if mem (operation_id h) marked && live h
                     then with_state DRAINING (if nonempty (detail h) then detail h else "operator-requested pool drain") h else h) hosts).

Definition drain_one (p : PoolDeclaration) (deadline text : string) (slots : option (list Z)) (x : list HostFacts * list HostEvent) (h : HostFacts)
    : M (list HostFacts * list HostEvent) :=
  if negb (live h) then Ret (x.1 ++ [h], x.2)
  else
    inside ← (match slots with Some l => slot ← host_slot p h; Ret (bool_decide (slot ∈ l)) | None => Ret true end);
    if negb inside then Ret (x.1 ++ [h], x.2)
    else
      ready ← (if interruption_drain L then do_ (DrainHook h deadline text) else Ret true);
      if negb ready then Ret (x.1 ++ [with_state DRAINING text h], x.2 ++ [event_of "draining" h DRAINING text])
      else
        slot ← host_slot p h;
        retired ← retire_host p slot h;
        _ ← clear_drain (operation_id h);
        Ret (x.1 ++ [retired], x.2 ++ [event_of "retired" retired (state retired) text]).

(** [drain] *)
Definition drain (p : PoolDeclaration) (deadline text : string) (slots : option (list Z)) : M (list HostFacts) :=
  _ ← validated p;
  _ ← provider_of p;
  hosts ← discover_sorted p;
  x ← foldP (drain_one p deadline text slots) hosts ([], []);
  pl ← plan p;
  _ ← record p x.1 x.2 pl;
  Ret x.1.

Definition force_one (p : PoolDeclaration) (text : string) (x : list HostFacts * list HostEvent) (h : HostFacts) : M (list HostFacts * list HostEvent) :=
  if negb (live h) then Ret (x.1 ++ [h], x.2)
  else
    slot ← host_slot p h;
    retired ← retire_host p slot h;
    _ ← clear_drain (operation_id h);
    Ret (x.1 ++ [retired], x.2 ++ [event_of "force_retired" retired (state retired) text]).

(** [force_retire] *)
Definition force_retire (p : PoolDeclaration) (text : string) : M (list HostFacts) :=
  _ ← validated p;
  _ ← provider_of p;
  hosts ← discover_sorted p;
  x ← foldP (force_one p text) hosts ([], []);
  pl ← plan p;
  _ ← record p x.1 x.2 pl;
  Ret x.1.

(** [orphaned_resources] *)
Definition orphaned_resources (p : PoolDeclaration) : M (list string) :=
  i ← provider_of p;
  if has_orphans i then l ← invoke (Orphans (pool_owner p) (pool_name p)); Ret (sorted_set l) else Ret [].

(** [_owned], [stop], [start], [destroy] *)
Definition owned (p : PoolDeclaration) (id : string) : M HostFacts :=
  hosts ← inspect p;
  match List.find (fun h => bool_decide (provider_id h = id)) hosts with
  | Some h => Ret h
  | None => value_error ("host " ++ repr id ++ " is not owned by pool " ++ repr (pool_name p))
  end.
Definition no_stop_start (i : ProviderInfo) : herr := Raised (ValueError ("provider " ++ repr (prov_name i) ++ " does not support stop/start")).
Definition stop (p : PoolDeclaration) (id : string) : M HostFacts :=
  i ← provider_of p; _ ← guard_ (negb (cap_stop_start i)) (no_stop_start i); _ ← owned p id; invoke (StopHost id).
Definition start (p : PoolDeclaration) (id : string) : M HostFacts :=
  i ← provider_of p; _ ← guard_ (negb (cap_stop_start i)) (no_stop_start i); _ ← owned p id; invoke (StartHost id).
Definition destroy (p : PoolDeclaration) (id : string) (del : bool) : M HostFacts :=
  _ ← guard_ (persistent_workspace (profile p) && del)
        (Raised (ValueError "persistent workspace deletion requires the consumer's explicit release flow"));
  _ ← owned p id; _ ← provider_of p; invoke (Destroy id del).
End lifecycle.

(** ** Identities *)

Lemma show_inj m n : show m = show n -> m = n.
Proof. apply (inj pretty). Qed.

(** A text without NUL characters, followed by nothing or by a NUL, can be read back. *)
Definition no_nul (s : string) : bool := str_all (fun c => negb (bool_decide (c = ascii_of_nat 0))) s.
Definition ends_here (s : string) : Prop := s = "" \/ exists r, s = (nul ++ r)%string.

Lemma cut_at_nul a b x y : no_nul a = true -> no_nul b = true -> ends_here x -> ends_here y -> (a ++ x = b ++ y)%string -> a = b.
Proof.
  revert b. induction a as [|c a IH]; intros [|d b] Ha Hb Hx Hy Heq; cbn in *; [done| | |].
  - exfalso. apply andb_true_iff in Hb as [Hd _]. destruct Hx as [->|[r ->]]; [done|]. injection Heq as <- _. by vm_compute in Hd.
  - exfalso. apply andb_true_iff in Ha as [Hc _]. destruct Hy as [->|[r ->]]; [done|]. injection Heq as -> _. by vm_compute in Hc.
  - injection Heq as -> Heq. apply andb_true_iff in Ha as [_ Ha], Hb as [_ Hb]. f_equal. by apply (IH b).
Qed.

(** The digits of a number. *)
Lemma digit_char_ok x : is_digit (pretty_N_char (x `mod` 10)) = true /\ Z.of_N (N_of_ascii (pretty_N_char (x `mod` 10)) - 48) = Z.of_N (x `mod` 10)
  /\ negb (bool_decide (pretty_N_char (x `mod` 10) = ascii_of_nat 0)) = true.
Proof.
  assert (H : (x `mod` 10 < 10)%N) by (by apply N.mod_lt). revert H. generalize (x `mod` 10)%N as d. intros d Hd.
  destruct d as [|p]; [done|]. destruct p as [p|p|]; [| |done]. all: destruct p as [p|p|]; try done; try lia.
  all: destruct p as [p|p|]; try done; try lia. all: destruct p as [p|p|]; try done; try lia.
Qed.

Lemma pretty_go_digits x s :
  str_all is_digit s = true -> str_all is_digit (pretty_N_go x s) = true
  /\ digits_value 0 (pretty_N_go x s) = digits_value (Z.of_N x) s
  /\ (no_nul s = true -> no_nul (pretty_N_go x s) = true).
Proof.
  revert s. induction (N.lt_wf_0 x) as [x _ IH]; intros s Hs.
  destruct (decide (x = 0%N)) as [->|Hx]; [rewrite pretty_N_go_0; by split_and!|].
  rewrite pretty_N_go_step by lia. destruct (digit_char_ok x) as (H1 & H2 & H3).
  destruct (IH (x `div` 10)%N ltac:(apply N.div_lt; lia) (String (pretty_N_char (x `mod` 10)) s)) as (E1 & E2 & E3).
  { cbn. by rewrite H1. }
  split_and!; [done| |].
  - rewrite E2. cbn [digits_value]. rewrite H2. f_equal. pose proof (N.div_mod x 10). lia.
  - intros Hn. apply E3. cbn. by rewrite H3.
Qed.

Lemma pretty_N_digits (n : N) : str_all is_digit (pretty n) = true /\ digits_value 0 (pretty n) = Z.of_N n /\ no_nul (pretty n) = true.
Proof.
  unfold pretty, pretty_N. destruct (decide (n = 0%N)) as [->|Hn]; [done|].
  destruct (pretty_go_digits n "") as (H1 & H2 & H3); [done|]. by split_and!; [|rewrite H2|apply H3].
Qed.

Lemma pretty_N_nonempty (n : N) : nonempty (pretty n) = true.
Proof. destruct (pretty n) eqn:E; [|done]. exfalso. pose proof (inj pretty n 0%N) as Hi. pose proof (pretty_N_digits n) as (_ & H & _). rewrite E in H. cbn in H. replace n with 0%N in E by lia. done. Qed.

Lemma show_digits n : 0 <= n -> is_digits (show n) = true /\ digits_value 0 (show n) = n.
Proof.
  intros Hn. unfold show, is_digits. assert (Hp : pretty n = pretty (Z.to_N n)).
  { destruct n as [|p|p]; [done|done|lia]. }
  rewrite Hp, pretty_N_nonempty. destruct (pretty_N_digits (Z.to_N n)) as (-> & -> & _). split; [done|lia].
Qed.

Lemma show_no_nul n : no_nul (show n) = true.
Proof. unfold show. destruct n as [|p|p]; [done|apply (pretty_N_digits (N.pos p))|]. apply (pretty_N_digits (N.pos p)). Qed.

Lemma str_app_inj_l p a b : (p ++ a = p ++ b)%string -> a = b.
Proof. induction p as [|c p IH]; cbn; [done|]. intros [= H]. auto. Qed.

Lemma raw_operation_inj owner name s1 s2 seed1 seed2 :
  raw_operation owner name s1 seed1 = raw_operation owner name s2 seed2 -> s1 = s2.
Proof.
  unfold raw_operation. intros H. repeat apply str_app_inj_l in H. apply show_inj. eapply cut_at_nul; [apply show_no_nul|apply show_no_nul| | |exact H].
  - clear. unfold ends_here. destruct (nonempty seed1); first [by left|right; by eexists].
  - clear. unfold ends_here. destruct (nonempty seed2); first [by left|right; by eexists].
Qed.

Lemma stable_host_id_inj p s1 s2 : stable_host_id p s1 = stable_host_id p s2 -> s1 = s2.
Proof. unfold stable_host_id. intros H. do 2 apply str_app_inj_l in H. by apply show_inj. Qed.

Lemma slot_of_stable p s : 0 <= s -> slot_of p (stable_host_id p s) = Some s.
Proof.
  intros Hs. unfold slot_of, stable_host_id, removeprefix. rewrite <- str_app_assoc, startswith_app, drop_str_app.
  destruct (show_digits s Hs) as [-> ->]. done.
Qed.

Section lifecycle_facts.
Context (digest repr : string -> string) (notice_deadline : HostFacts -> Z -> string) (L : Lifecycle).
#[local] Abbreviation operation_id_of := (operation_id_of digest L).
#[local] Abbreviation available_from := (available_from digest L).

Lemma operation_id_seed st p s : exists seed, operation_id_in digest L st p s = host_operation_id digest p s seed.
Proof. unfold operation_id_in. destruct (_ =? 0); eauto. Qed.

Lemma filter_ne_lt (x : string) l : x ∈ l -> (List.length (filter (fun y => y <> x) l) < List.length l)%nat.
Proof. intros Hx. apply (length_filter_lt _ _ x); [done|]. by intros H. Qed.

(** [l] is [need] slots from [slot] on, in increasing order, free when they were looked at. *)
Definition free_slots (p : PoolDeclaration) (hosts : list HostFacts) (need : nat) (slot : Z) (l : list Z) : Prop :=
  List.length l = need /\ StronglySorted Z.lt l
  /\ Forall (fun s => slot <= s /\ (stable_host_id p s ∉ map host_id hosts)
                      /\ exists st, operation_id_in digest L st p s ∉ map operation_id hosts) l.

Lemma free_slots_later p hosts need slot l : free_slots p hosts need (slot + 1) l -> free_slots p hosts need slot l.
Proof.
  intros (H1 & H2 & H3). split_and!; [done|done|]. eapply Forall_impl; [exact H3|]. cbn. intros s (H & ? & ?). split_and!; [lia|done|done].
Qed.
Lemma free_slots_cons p hosts need slot l :
  (stable_host_id p slot ∉ map host_id hosts) -> (exists st, operation_id_in digest L st p slot ∉ map operation_id hosts) ->
  free_slots p hosts need (slot + 1) l -> free_slots p hosts (S need) slot (slot :: l).
Proof.
  intros Hid Hop Hl. pose proof (free_slots_later _ _ _ _ _ Hl) as (_ & _ & Hall). destruct Hl as (H1 & H2 & H3). split_and!.
  - cbn. lia.
  - constructor; [done|]. eapply Forall_impl; [exact H3|]. cbn. intros s (H & _). lia.
  - by constructor.
Qed.

(** Whatever other controllers do to the state file meanwhile, the search for slots ends, and finds
    the number of free slots asked for. *)
Lemma available_ok `{!Inj (=) (=) digest} fuel p hosts need slot ops ids tr :
  (forall s seed, slot <= s -> host_operation_id digest p s seed ∈ map operation_id hosts -> host_operation_id digest p s seed ∈ ops) ->
  (forall s, slot <= s -> stable_host_id p s ∈ map host_id hosts -> stable_host_id p s ∈ ids) ->
  (need + List.length ops + List.length ids <= fuel)%nat ->
  safe (fun _ _ => True) (available_from fuel p hosts need slot) tr (fun r _ => exists l, r = Ok l /\ free_slots p hosts need slot l).
Proof.
  revert need slot ops ids tr. induction fuel as [|fuel IH]; intros need slot ops ids tr Hops Hids Hfuel.
  { destruct need as [|need]; [|lia]. exists []. split; [done|]. repeat constructor. }
  destruct need as [|need]; [exists []; split; [done|]; repeat constructor|]. cbn [Hosts.available_from].
  apply safe_bind. unfold Hosts.operation_id_of. apply safe_bind. intros st. split; [done|]. cbn [then_ safe].
  assert (Hlater : forall n tr1, safe (fun _ _ => True) (available_from fuel p hosts n (slot + 1)) tr1
      (fun r _ => exists l, r = Ok l /\ free_slots p hosts n (slot + 1) l) ->
      safe (fun _ _ => True) (available_from fuel p hosts n (slot + 1)) tr1 (fun r _ => exists l, r = Ok l /\ free_slots p hosts n slot l)).
  { intros n tr1. apply safe_mono. intros r _ (l & -> & Hl). exists l. split; [done|]. by apply free_slots_later. }
  destruct (operation_id_seed st p slot) as [seed Hseed].
  destruct (mem _ (map operation_id hosts) || _) eqn:Hocc.
  - apply Hlater. apply orb_true_iff in Hocc as [Hm|Hm]; apply bool_decide_eq_true in Hm.
    + apply (IH (S need) _ (filter (fun y => y <> host_operation_id digest p slot seed) ops) ids).
      * intros s seed' Hs Hin. apply list_elem_of_filter. split; [|apply Hops; [lia|done]].
        intros Heq%(inj digest)%raw_operation_inj. lia.
      * intros s Hs. apply Hids. lia.
      * rewrite Hseed in Hm. pose proof (filter_ne_lt _ ops (Hops slot seed ltac:(lia) Hm)). lia.
    + apply (IH (S need) _ ops (filter (fun y => y <> stable_host_id p slot) ids)).
      * intros s seed' Hs. apply Hops. lia.
      * intros s Hs Hin. apply list_elem_of_filter. split; [|apply Hids; [lia|done]]. intros ?%stable_host_id_inj. lia.
      * pose proof (filter_ne_lt _ ids (Hids slot ltac:(lia) Hm)). lia.
  - apply orb_false_iff in Hocc as [Hm1 Hm2]. apply bool_decide_eq_false in Hm1, Hm2. apply safe_bind.
    eapply safe_mono; [|apply (IH need (slot + 1) ops ids)].
    + intros r tr' (l & -> & Hl). exists (slot :: l). split; [done|]. apply free_slots_cons; [done|by exists st|done].
    + intros s seed' Hs. apply Hops. lia.
    + intros s Hs. apply Hids. lia.
    + lia.
Qed.

(** ** The discipline of mutations *)

(** A host the provider has reported for the pool. *)
Definition reported (p : PoolDeclaration) (tr : list (event hcmd)) (id : string) : Prop :=
  (exists hosts h, Ev (Discover (pool_owner p) (pool_name p)) (Ok hosts) ∈ tr /\ h ∈ hosts /\ provider_id h = id)
  \/ exists d h, Ev (Provision d) (Ok h) ∈ tr /\ provider_id h = id.

(** Nothing has been sent since a discovery but attempts for [d] that failed transiently. *)
Definition retrying (d : HostDeclaration) (e : event hcmd) : Prop :=
  (exists m, e = Ev (Provision d) (Err (TransientProviderError m))) \/ exists n, e = Ev (Sleep n) tt.

(** What must hold before a command is sent to the provider. *)
Definition permitted (p : PoolDeclaration) (F : list (event hcmd) -> Prop) (tr : list (event hcmd)) {R} (c : hcmd R) : Prop :=
  match c with
  | Provision d =>
      F tr /\ Ev (Authorize "provision" d) (Ok tt) ∈ tr
      /\ exists tr0 hosts tr1, tr = tr0 ++ Ev (Discover (pool_owner p) (pool_name p)) (Ok hosts) :: tr1
           /\ find_operation (decl_operation_id d) hosts = None /\ Forall (retrying d) tr1
  | Destroy id del =>
      F tr /\ del = delete_storage p /\ (exists d, Ev (Authorize "destroy" d) (Ok tt) ∈ tr) /\ reported p tr id
  | StopHost _ | StartHost _ | Admit _ _ _ | Renew _ _ | Activate _ _ _ | ReleaseAdmission _ _ => False
  | _ => True
  end.

(** The commands that act on the provider. *)
Definition mutates {R} (c : hcmd R) : bool :=
  match c with
  | Provision _ | Destroy _ _ | StopHost _ | StartHost _ | Admit _ _ _ | Renew _ _ | Activate _ _ _ | ReleaseAdmission _ _ => true
  | _ => false
  end.
Definition silent {A} : M A -> Prop := only (fun R c => mutates c = false).

Lemma silent_bind_ {A B} (m : M A) (f : A -> M B) : silent m -> (forall a, silent (f a)) -> silent (m ≫= f).
Proof. apply only_bind. Qed.

Lemma silent_fold {S A} (f : S -> A -> M S) l s : (forall s x, silent (f s x)) -> silent (foldP f l s).
Proof. apply only_fold. Qed.

(** Peel a silent method. *)
Create HintDb silent.
#[local] Hint Resolve only_ret only_throw only_lift : silent.
Ltac silent :=
  repeat match goal with
    | |- silent (Ret _) => exact I
    | |- silent (Throw _) => exact I
    | |- silent (let _ := _ in _) => cbv zeta
    | |- silent (value_error _) => exact I
    | |- silent (do_ _) => apply only_do; reflexivity
    | |- silent (invoke _) => apply only_invoke; reflexivity
    | |- silent (guard_ ?b _) => destruct b; exact I
    | |- silent (foldP _ _ _) => apply silent_fold; intros ? ?
    | |- silent (_ ≫= _) => apply silent_bind_; [|intros ?]
    | |- silent (if ?b then _ else _) => destruct b
    | |- silent (match ?x with _ => _ end) => destruct x
    | |- _ => solve [auto with silent]
    end.

Lemma silent_read : silent read_state.
Proof. by apply only_do. Qed.
Lemma silent_locked f : silent (locked_write f).
Proof. by apply only_do. Qed.
#[local] Hint Resolve silent_read silent_locked : silent.
Lemma silent_validated p : silent (validated p).
Proof. unfold validated. silent. Qed.
Lemma silent_operation p s : silent (operation_id_of p s).
Proof. unfold Hosts.operation_id_of. silent. Qed.
Lemma silent_slot p h : silent (host_slot repr p h).
Proof. unfold host_slot. silent. Qed.
Lemma silent_discover p : silent (discover p).
Proof. unfold discover. silent. Qed.
#[local] Hint Resolve silent_validated silent_operation silent_slot silent_discover : silent.
Lemma silent_declaration p s : silent (declaration digest L p s).
Proof. unfold declaration. silent. Qed.
Lemma silent_advance p h : silent (advance_replacement repr p h).
Proof. unfold advance_replacement. silent. Qed.
Lemma silent_current p h : silent (is_current_generation digest repr L p h).
Proof. unfold is_current_generation. silent. Qed.
#[local] Hint Resolve silent_declaration silent_advance silent_current : silent.
Lemma silent_provider p : silent (provider_of digest repr L p).
Proof. unfold provider_of. silent. Qed.
Lemma silent_sorted p : silent (discover_sorted p).
Proof. unfold discover_sorted. silent. Qed.
#[local] Hint Resolve silent_provider silent_sorted : silent.
Lemma silent_missing p l : silent (advance_missing digest repr L p l).
Proof. unfold advance_missing. silent. Qed.
Lemma silent_current_hosts p l : silent (current_hosts digest repr L p l).
Proof. induction l as [|h l IH]; cbn [current_hosts]; silent. Qed.
Lemma silent_available fuel p hosts need slot : silent (available_from fuel p hosts need slot).
Proof.
  revert need slot. induction fuel as [|fuel IH]; intros need slot; destruct need as [|need]; cbn [Hosts.available_from]; silent.
Qed.
Lemma silent_plan p : silent (plan digest repr L p).
Proof. unfold plan. silent. Qed.
Lemma silent_record p hosts evs pl : silent (record p hosts evs pl).
Proof. unfold record. silent. Qed.
Lemma silent_clear op : silent (clear_drain L op).
Proof. unfold clear_drain. silent. Qed.
#[local] Hint Resolve silent_missing silent_current_hosts silent_available silent_plan silent_record silent_clear : silent.

Section discipline.
Context (p : PoolDeclaration) (F : list (event hcmd) -> Prop) (HF : forall tr e, F tr -> F (tr ++ [e])).

Definition disciplined (tr : list (event hcmd)) (e : event hcmd) : Prop := match e with Ev c _ => permitted p F tr c end.

(** What is kept along a trace: the funding, and the hosts whose identities came from the provider. *)
Definition kept (hosts : list HostFacts) (tr : list (event hcmd)) : Prop := F tr /\ Forall (fun h => reported p tr (provider_id h)) hosts.

Lemma reported_snoc tr e id : reported p tr id -> reported p (tr ++ [e]) id.
Proof.
  intros [(hosts & h & H & Hh)|(d & h & H & Hh)]; [left; exists hosts, h|right; exists d, h].
  all: split; [apply elem_of_app; by left|done].
Qed.
Lemma kept_snoc hosts tr e : kept hosts tr -> kept hosts (tr ++ [e]).
Proof. intros [H1 H2]. split; [auto|]. eapply Forall_impl; [exact H2|]. intros h. apply reported_snoc. Qed.

Lemma kept_app hosts tr t : kept hosts tr -> kept hosts (tr ++ t).
Proof.
  induction t as [|e t IH] using rev_ind; [by rewrite app_nil_r|]. intros H. rewrite app_assoc. by apply kept_snoc, IH.
Qed.

Lemma kept_incl hosts hosts' tr : hosts' ⊆ hosts -> kept hosts tr -> kept hosts' tr.
Proof. intros Hi [H1 H2]. split; [done|]. rewrite Forall_forall in H2 |- *. auto. Qed.

(** Facts about a trace that later events do not undo. *)
Definition stable (K : list (event hcmd) -> Prop) : Prop := forall tr e, K tr -> K (tr ++ [e]).
Lemma stable_app K tr t : stable K -> K tr -> K (tr ++ t).
Proof. intros HK. induction t as [|e t IH] using rev_ind; [by rewrite app_nil_r|]. intros H. rewrite app_assoc. by apply HK, IH. Qed.
Lemma stable_kept hosts : stable (kept hosts).
Proof. intros tr e. apply kept_snoc. Qed.
Lemma stable_in e : stable (fun tr => e ∈ tr).
Proof. intros tr x H. apply elem_of_app. by left. Qed.
Lemma stable_and K1 K2 : stable K1 -> stable K2 -> stable (fun tr => K1 tr /\ K2 tr).
Proof. intros H1 H2 tr e [? ?]. split; auto. Qed.
Lemma stable_reported id : stable (fun tr => reported p tr id).
Proof. intros tr e. apply reported_snoc. Qed.

(** A silent method keeps what is stable. *)
Lemma silent_safe {A} (m : M A) K tr : stable K -> silent m -> K tr -> safe disciplined m tr (fun _ tr' => K tr').
Proof.
  intros HK Hm Hk. eapply safe_mono; [|apply (only_safe (fun R c => mutates c = false)); [|exact Hm]].
  - intros r tr' [t ->]. by apply stable_app.
  - intros tr1 R c r Hc. by destruct c.
Qed.

(** A silent first part, and a first command. *)
Lemma silent_bind {A B} (m : M A) (f : A -> M B) K tr Q :
  stable K -> silent m -> K tr -> (forall e tr', K tr' -> Q (Err e) tr') ->
  (forall a tr', K tr' -> safe disciplined (f a) tr' Q) -> safe disciplined (m ≫= f) tr Q.
Proof.
  intros HK Hm Hk He Hf. apply safe_bind. eapply safe_mono; [|by apply (silent_safe m K)].
  intros [a|e] tr' H'; cbn; auto.
Qed.
Lemma invoke_bind {A B} (c : hcmd (result herr A)) (f : A -> M B) tr Q :
  (forall r, disciplined tr (Ev c r)) -> (forall e, Q (Err e) (tr ++ [Ev c (Err e)])) ->
  (forall a, safe disciplined (f a) (tr ++ [Ev c (Ok a)]) Q) -> safe disciplined (invoke c ≫= f) tr Q.
Proof. intros Hc He Hf. apply safe_bind, safe_invoke. intros [a|e]; (split; [apply Hc|]); [apply Hf|apply He]. Qed.
Lemma do_bind {A B} (c : hcmd A) (f : A -> M B) tr Q :
  (forall r, disciplined tr (Ev c r)) -> (forall a, safe disciplined (f a) (tr ++ [Ev c a]) Q) -> safe disciplined (do_ c ≫= f) tr Q.
Proof. intros Hc Hf. apply safe_bind, safe_do. intros r. split; [apply Hc|]. apply Hf. Qed.

(** ** The steps that act on the provider *)

(** What a step that may provision leaves: the facts kept, and a reported host. *)
Definition provisioned_ok (hosts : list HostFacts) (r : result herr HostFacts) (tr : list (event hcmd)) : Prop :=
  kept hosts tr /\ match r with Ok h => reported p tr (provider_id h) | Err _ => True end.

Lemma attempts_ok n k d hosts tr0 found tr1 :
  kept hosts (tr0 ++ Ev (Discover (pool_owner p) (pool_name p)) (Ok found) :: tr1) ->
  Ev (Authorize "provision" d) (Ok tt) ∈ tr0 -> find_operation (decl_operation_id d) found = None -> Forall (retrying d) tr1 ->
  safe disciplined (provision_attempts n k d) (tr0 ++ Ev (Discover (pool_owner p) (pool_name p)) (Ok found) :: tr1) (provisioned_ok hosts).
Proof.
  set (disc := Ev (Discover (pool_owner p) (pool_name p)) (Ok found)).
  revert k tr1. induction n as [|n IH]; intros k tr1 Hk Ha Hf Hr; cbn [provision_attempts]; [by split|].
  apply do_bind.
  - intros r. cbn. split; [apply Hk|]. split; [apply elem_of_app; by left|]. by exists tr0, found, tr1.
  - intros [h|e].
    + split; [by apply kept_snoc|]. right. exists d, h. split; [apply elem_of_app; right; by left|done].
    + assert (Herr : safe disciplined (Throw e) ((tr0 ++ disc :: tr1) ++ [Ev (Provision d) (Err e)]) (provisioned_ok hosts)) by (split; [by apply kept_snoc|done]).
      destruct e as [m|m|m|m|x|m|]; try exact Herr. destruct n as [|n']; [exact Herr|].
      apply do_bind; [done|]. intros []. rewrite <- !app_assoc. cbn [app].
      change (disc :: tr1 ++ ?x :: [?y]) with (disc :: (tr1 ++ [x; y])). apply IH; [|done|done|].
      * replace (tr0 ++ disc :: tr1 ++ [Ev (Provision d) (Err (TransientProviderError m)); Ev (Sleep (2 ^ Z.of_nat k)) tt])
          with ((tr0 ++ disc :: tr1) ++ [Ev (Provision d) (Err (TransientProviderError m)); Ev (Sleep (2 ^ Z.of_nat k)) tt]) by (by rewrite <- app_assoc).
        by apply kept_app.
      * apply Forall_app. split; [done|]. rewrite !Forall_cons, Forall_nil. split_and!; [left; by exists m|right; by eexists|done].
Qed.

Lemma provision_ok hosts slot tr : kept hosts tr -> safe disciplined (provision digest repr L p slot) tr (provisioned_ok hosts).
Proof.
  intros Hk. unfold provision.
  eapply silent_bind; [apply (stable_kept hosts)|silent|done|by split|]. intros _ tr1 H1.
  eapply silent_bind; [apply (stable_kept hosts)|silent|done|by split|]. intros _ tr2 H2.
  eapply silent_bind; [apply (stable_kept hosts)|silent|done|by split|]. intros d tr3 H3.
  apply invoke_bind; [done|split; [by apply kept_snoc|done]|]. intros [].
  eapply (silent_bind _ _ (fun tr => kept hosts tr /\ Ev (Authorize "provision" d) (Ok tt) ∈ tr)).
  - apply stable_and; [apply stable_kept|apply stable_in].
  - silent.
  - split; [by apply kept_snoc|]. apply elem_of_app. right. by left.
  - intros e tr' [H _]. by split.
  - intros i tr4 [H4 Ha]. unfold discover. apply invoke_bind; [done|split; [by apply kept_snoc|done]|]. intros found.
    destruct (find_operation (decl_operation_id d) found) as [h|] eqn:Hf.
    + split; [by apply kept_snoc|]. left. apply List.find_some in Hf as [Hin _].
      exists found, h. split_and!; [apply elem_of_app; right; by left|by apply list_elem_of_In|done].
    + apply (attempts_ok _ _ d hosts tr4 found []); [by apply kept_snoc|done|done|constructor].
Qed.

Lemma retire_ok hosts slot h tr : h ∈ hosts -> kept hosts tr -> safe disciplined (retire_host digest L p slot h) tr (fun _ tr' => kept hosts tr').
Proof.
  intros Hh Hk. unfold retire_host. eapply silent_bind; [apply (stable_kept hosts)|silent|done|done|]. intros d tr1 H1.
  apply invoke_bind; [done|intros e; by apply kept_snoc|]. intros []. apply safe_invoke. intros r.
  assert (H2 : kept hosts (tr1 ++ [Ev (Authorize "destroy" d) (Ok tt)])) by (by apply kept_snoc).
  split; [|by apply kept_snoc]. destruct H2 as [HF2 Hr]. rewrite Forall_forall in Hr. cbn. split_and!; [done|done| |by apply Hr].
  exists d. apply elem_of_app. right. by left.
Qed.
Lemma retire_bind {B} hosts slot h (f : HostFacts -> M B) tr Q :
  h ∈ hosts -> kept hosts tr -> (forall e tr', kept hosts tr' -> Q (Err e) tr') ->
  (forall r tr', kept hosts tr' -> safe disciplined (f r) tr' Q) -> safe disciplined (retire_host digest L p slot h ≫= f) tr Q.
Proof.
  intros Hh Hk He Hf. apply safe_bind. eapply safe_mono; [|by apply (retire_ok hosts)]. intros [a|e] tr' H'; cbn; auto.
Qed.

(** The loops of [reconcile] keep the hosts they work on, which are [base], the active ones and those
    that drain. *)
Definition held (x : Progress) : list HostFacts := active x ++ dvals (draining x).

Lemma dvals_dset {V} k (v : V) (d : dict V) : dvals (dset k v d) ⊆ v :: dvals d.
Proof.
  induction d as [|[k' v'] d IH]; cbn [dset]; [done|]. case_decide; intros w; unfold dvals in *; cbn; rewrite !elem_of_cons.
  - intuition.
  - intros [->|Hw]; [auto|]. apply IH, elem_of_cons in Hw. intuition.
Qed.
Definition progress_ok (base : list HostFacts) (r : result herr Progress) (tr : list (event hcmd)) : Prop :=
  match r with Ok x => kept (base ++ held x) tr | Err _ => kept base tr end.

Lemma kept_left a b tr : kept (a ++ b) tr -> kept a tr.
Proof. apply kept_incl. set_solver. Qed.
(** A silent step of a loop, and one that retires a host. *)
Lemma progress_silent {A} base act (m : M A) (f : A -> M Progress) tr :
  silent m -> kept (base ++ act) tr -> (forall a tr', kept (base ++ act) tr' -> safe disciplined (f a) tr' (progress_ok base)) ->
  safe disciplined (m ≫= f) tr (progress_ok base).
Proof.
  intros Hm Hk Hf. eapply silent_bind; [apply (stable_kept (base ++ act))|done|done|intros e tr'; apply kept_left|exact Hf].
Qed.
Lemma progress_retire base act slot h (f : HostFacts -> M Progress) tr :
  h ∈ base ++ act -> kept (base ++ act) tr -> (forall a tr', kept (base ++ act) tr' -> safe disciplined (f a) tr' (progress_ok base)) ->
  safe disciplined (retire_host digest L p slot h ≫= f) tr (progress_ok base).
Proof. intros Hh Hk Hf. eapply retire_bind; [done|done|intros e tr'; apply kept_left|exact Hf]. Qed.

Lemma retire_stale_ok base x h tr :
  h ∈ base -> kept (base ++ held x) tr -> safe disciplined (retire_stale digest repr L p x h) tr (progress_ok base).
Proof.
  intros Hh Hk. unfold retire_stale. eapply progress_silent; [silent|done|]. intros slot tr1 H1.
  eapply progress_retire; [apply elem_of_app; by left|done|]. intros retired tr2 H2. exact H2.
Qed.

Lemma handle_interrupted_ok base i x h tr :
  h ∈ base -> kept (base ++ held x) tr -> safe disciplined (handle_interrupted digest repr notice_deadline L p i x h) tr (progress_ok base).
Proof.
  intros Hh Hk. unfold handle_interrupted. cbv zeta. eapply progress_silent; [silent|done|]. intros now tr1 H1.
  eapply progress_silent; [silent|done|]. intros drained tr2 H2. destruct (negb drained).
  - destruct H2 as [HF2 Hr]. split; [done|]. rewrite Forall_forall in Hr. apply Forall_forall. intros y Hy.
    assert (Hd : provider_id y = provider_id h \/ y ∈ base ++ held x).
    { unfold held in Hy |- *. cbn in Hy. rewrite !elem_of_app in Hy. rewrite !elem_of_app.
      destruct Hy as [Hy|[[Hy|Hy]|Hy]]; [auto..| |].
      - apply list_elem_of_singleton in Hy as ->. by left.
      - apply dvals_dset, elem_of_cons in Hy as [->|Hy]; [by left|auto]. }
    destruct Hd as [-> | Hd]; apply Hr; [apply elem_of_app; by left|done].
  - eapply progress_silent; [silent|done|]. intros slot tr3 H3.
    eapply progress_retire; [apply elem_of_app; by left|done|]. intros retired tr4 H4.
    do 3 (eapply progress_silent; [silent|eassumption|]; intros ? ? ?). eassumption.
Qed.

Lemma fill_slot_ok base x slot tr : kept (base ++ held x) tr -> safe disciplined (fill_slot digest repr L p x slot) tr (progress_ok base).
Proof.
  intros Hk. unfold fill_slot. eapply progress_silent; [silent|done|]. intros d tr1 H1.
  eapply progress_silent; [silent|done|]. intros _ tr2 H2.
  unfold discover. apply invoke_bind; [done|intros e; apply kept_snoc; by eapply kept_left|]. intros found.
  assert (Hadd : forall h tr', kept (base ++ held x) tr' -> reported p tr' (provider_id h) -> kept (base ++ held (add_active h x)) tr').
  { intros h tr' [HF' Hr] Hh. split; [done|]. rewrite Forall_forall in Hr. apply Forall_forall. intros y Hy.
    unfold held in Hy. cbn in Hy. rewrite !elem_of_app in Hy. destruct Hy as [Hy|[[Hy|Hy]|Hy]].
    - apply Hr. apply elem_of_app. by left.
    - apply Hr. unfold held. rewrite !elem_of_app. auto.
    - apply list_elem_of_singleton in Hy as ->. done.
    - apply Hr. unfold held. rewrite !elem_of_app. auto. }
  destruct (find_operation _ found) as [h|] eqn:Hf.
  - apply Hadd; [by apply kept_snoc|]. left. apply List.find_some in Hf as [Hin _].
    exists found, h. split_and!; [apply elem_of_app; right; by left|by apply list_elem_of_In|done].
  - apply safe_bind, safe_try. eapply safe_mono; [|by apply provision_ok, kept_snoc].
    intros [h|e] tr' [H' Hr]; cbn [then_].
    + cbn. by apply Hadd.
    + destruct e; cbn; try (by eapply kept_left); done.
Qed.

Lemma retire_excess_ok base x h tr : h ∈ base -> kept (base ++ held x) tr -> safe disciplined (retire_excess digest L p x h) tr (progress_ok base).
Proof.
  intros Hh Hk. unfold retire_excess. eapply progress_retire; [apply elem_of_app; by left|done|]. intros retired tr2 H2. exact H2.
Qed.

Lemma check_host_ok base x h tr : h ∈ base -> kept base tr -> safe disciplined (check_host digest L p x h) tr (fun _ tr' => kept base tr').
Proof.
  intros Hh Hk. unfold check_host. destruct (_ && _); [|done]. apply do_bind; [done|]. intros [[[]|] text]; cbn [fst snd].
  - case_bool_decide; by apply kept_snoc.
  - eapply retire_bind; [exact Hh|by apply kept_snoc|done|]. intros r tr' H'. exact H'.
  - by apply kept_snoc.
Qed.

(** Loops over hosts that are held. *)
Lemma progress_fold {A} base (f : Progress -> A -> M Progress) l x tr :
  (forall x h tr, h ∈ l -> kept (base ++ held x) tr -> safe disciplined (f x h) tr (progress_ok base)) ->
  kept (base ++ held x) tr -> safe disciplined (foldP f l x) tr (progress_ok base).
Proof.
  intros Hf Hk. apply (safe_fold _ (fun x tr => kept (base ++ held x) tr) (fun _ tr => kept base tr)); [done|].
  intros y h tr' Hh Hy. by apply Hf.
Qed.

Lemma elem_of_drop_in {A} (x : A) n l : x ∈ drop n l -> x ∈ l.
Proof. intros H. rewrite <- (take_drop n l). apply elem_of_app. by right. Qed.

Lemma by_host_id_in h l : h ∈ by_host_id l <-> h ∈ l.
Proof. unfold by_host_id. by rewrite (sort_by_Permutation _ l). Qed.

(** A discovery reports its hosts. *)
Lemma discover_sorted_ok hosts tr :
  kept hosts tr -> safe disciplined (discover_sorted p) tr (fun r tr' => match r with Ok l => kept (hosts ++ l) tr' | Err _ => kept hosts tr' end).
Proof.
  intros Hk. unfold discover_sorted, discover. apply invoke_bind; [done|intros e; by apply kept_snoc|]. intros l.
  destruct (kept_snoc _ _ (Ev (Discover (pool_owner p) (pool_name p)) (Ok l)) Hk) as [HF' Hr]. split; [done|].
  apply Forall_app. split; [done|]. apply Forall_forall. intros h Hh. left. exists l, h.
  split_and!; [apply elem_of_app; right; by left|by apply (proj1 (by_host_id_in h l))|done].
Qed.

Lemma current_hosts_sub hosts tr : safe disciplined (current_hosts digest repr L p hosts) tr (fun r _ => match r with Ok l => l ⊆ hosts | Err _ => True end).
Proof.
  revert tr. induction hosts as [|h hosts IH]; intros tr; cbn [current_hosts]; [cbn; by intros ? ?|].
  eapply (silent_bind _ _ (fun _ => True)); [done|silent|exact I|intros ? ? _; exact I|]. intros c tr1 _.
  apply safe_bind. eapply safe_mono; [|apply IH]. intros [l|e] tr2 Hl; [|done]. cbn [then_ safe]. destruct c; set_solver.
Qed.

(** What [plan] promises of its estimate. *)
Definition quoted (pl : HostPlan) (tr : list (event hcmd)) : Prop :=
  exists d q, Ev (Estimate d) (Ok q) ∈ tr /\ estimated_accrued_usd pl = (q * inject_Z (desired p) * estimated_runtime_hours p)%Q.
Lemma plan_quoted tr : safe disciplined (plan digest repr L p) tr (fun r tr' => match r with Ok pl => quoted pl tr' | Err _ => True end).
Proof.
  unfold plan. assert (HT : stable (fun _ => True)) by done.
  eapply (silent_bind _ _ _ _ _ HT); [silent|exact I|intros ? ? _; exact I|]. intros _ tr1 _.
  eapply (silent_bind _ _ _ _ _ HT); [silent|exact I|intros ? ? _; exact I|]. intros i tr2 _.
  eapply (silent_bind _ _ _ _ _ HT); [silent|exact I|intros ? ? _; exact I|]. intros _ tr3 _.
  eapply (silent_bind _ _ _ _ _ HT); [silent|exact I|intros ? ? _; exact I|]. intros hosts tr4 _. cbv zeta.
  eapply (silent_bind _ _ _ _ _ HT); [silent|exact I|intros ? ? _; exact I|]. intros d tr5 _.
  apply invoke_bind; [done|done|]. intros q. exists d, q. split; [apply elem_of_app; right; by left|done].
Qed.

(** The part of [reconcile] after the checks. *)
Lemma reconcile_body_ok pl i eligible tr :
  kept [] tr ->
  safe disciplined (
    hosts ← discover_sorted p;
    lost ← advance_missing digest repr L p hosts;
    cur ← current_hosts digest repr L p hosts;
    let stale := List.filter (fun h => negb (bool_decide (h ∈ cur)) && live h) hosts in
    let interrupted := List.filter (fun h => bool_decide (state h = INTERRUPTED)) cur in
    let act := List.filter (fun h => negb (bool_decide (state h = INTERRUPTED)) && live h) cur in
    x ← foldP (retire_stale digest repr L p) stale {| active := act; evs := lost; failures := []; retirements := []; draining := [] |};
    x ← foldP (handle_interrupted digest repr notice_deadline L p i) interrupted x;
    slots ← available_slots digest L p (active x);
    let slots := take (Z.to_nat (desired p - Z.of_nat (List.length (active x)))) slots in
    x ← foldP (fill_slot digest repr L p) (slots_to_fill eligible slots) x;
    x ← foldP (retire_excess digest L p) (drop (Z.to_nat (desired p)) (active x)) x;
    refreshed ← discover_sorted p;
    let '(first, rest) := to_check x refreshed in
    y ← foldP (check_host digest L p) rest (first, evs x);
    _ ← record p y.1 y.2 pl;
    Ret y.1) tr (fun _ _ => True).
Proof.
  intros Hk. apply safe_bind. eapply safe_mono; [|by apply discover_sorted_ok]. intros [hosts|e] tr1 H1; [|done]. cbn [then_].
  eapply silent_bind; [apply (stable_kept hosts)|silent|exact H1|done|]. intros lost tr2 H2.
  apply safe_bind. eapply safe_mono; [|apply safe_and; [apply current_hosts_sub|apply (silent_safe _ (kept hosts)); [apply stable_kept|silent|exact H2]]].
  intros [cur|e] tr3 [Hcur H3]; [|done]. cbn [then_]. cbv zeta.
  assert (Hsub : forall (f : HostFacts -> bool) h l, h ∈ List.filter f l -> l ⊆ hosts -> h ∈ hosts).
  { intros f h l Hh%list_elem_of_In%filter_In Hl. apply Hl, list_elem_of_In, Hh. }
  apply safe_bind. eapply safe_mono; [|apply (progress_fold hosts)].
  2: { intros x h tr' Hh. apply retire_stale_ok. by eapply Hsub. }
  2: { eapply kept_incl; [|exact H3]. unfold held, dvals. cbn. rewrite app_nil_r. intros h [?|?]%elem_of_app; [done|by eapply Hsub]. }
  intros [x|e] tr4 H4; [|done]. cbn [then_].
  apply safe_bind. eapply safe_mono; [|apply (progress_fold hosts); [|exact H4]].
  2: { intros y h tr' Hh. apply handle_interrupted_ok. by eapply Hsub. }
  intros [x2|e] tr5 H5; [|done]. cbn [then_].
  eapply silent_bind; [apply (stable_kept (hosts ++ held x2))|apply silent_available|exact H5|done|]. intros slots tr6 H6.
  apply safe_bind. eapply safe_mono; [|apply (progress_fold hosts); [|exact H6]].
  2: { intros y slot tr' _. apply fill_slot_ok. }
  intros [x3|e] tr7 H7; [|done]. cbn [then_].
  apply safe_bind. eapply safe_mono; [|apply (progress_fold (hosts ++ held x3))].
  2: { intros y h tr' Hh. apply retire_excess_ok. unfold held. rewrite !elem_of_app. right. left. by eapply elem_of_drop_in. }
  2: { eapply kept_incl; [|exact H7]. set_solver. }
  intros [x4|e] tr8 H8; [|done]. cbn [then_].
  apply safe_bind. eapply safe_mono; [|by apply discover_sorted_ok]. intros [refreshed|e] tr9 H9; [|done]. cbn [then_].
  destruct (to_check x4 refreshed) as [first rest] eqn:Hck.
  apply safe_bind. eapply safe_mono; [|apply (safe_fold _ (fun _ tr => kept rest tr) (fun _ _ => True))].
  2: { eapply kept_incl; [|exact H9]. injection Hck as _ <-. intros h [Hh _]%list_elem_of_In%filter_In.
       apply list_elem_of_In, list_elem_of_fmap in Hh as (y & -> & Hy). destruct (dget (operation_id y) (draining x4)) as [z|] eqn:Hz; cbn.
       - unfold held. rewrite !elem_of_app. left. right. right. unfold dvals. apply list_elem_of_fmap. exists (operation_id y, z). split; [done|]. by apply dget_Some_elem.
       - rewrite !elem_of_app. by right. }
  2: { intros y h tr' Hh Hy. eapply safe_mono; [|by apply (check_host_ok rest)]. by intros [?|?] tr0 H. }
  intros [y|e] tr10 H10; [|done]. cbn [then_].
  eapply (silent_bind _ _ (fun _ => True)); [done|silent|exact I|intros ? ? _; exact I|]. done.
Qed.

Lemma drain_one_ok deadline text slots base x h tr :
  h ∈ base -> kept base tr -> safe disciplined (drain_one digest repr L p deadline text slots x h) tr (fun _ tr' => kept base tr').
Proof.
  intros Hh Hk. unfold drain_one. destruct (negb (live h)); [done|].
  eapply silent_bind; [apply (stable_kept base)|silent|done|done|]. intros inside tr1 H1. destruct (negb inside); [done|].
  eapply silent_bind; [apply (stable_kept base)|silent|done|done|]. intros ready tr2 H2. destruct (negb ready); [done|].
  eapply silent_bind; [apply (stable_kept base)|silent|done|done|]. intros slot tr3 H3.
  eapply retire_bind; [exact Hh|done|done|]. intros r tr4 H4.
  eapply silent_bind; [apply (stable_kept base)|silent|done|done|]. by intros _ tr5 H5.
Qed.

Lemma force_one_ok text base x h tr :
  h ∈ base -> kept base tr -> safe disciplined (force_one digest repr L p text x h) tr (fun _ tr' => kept base tr').
Proof.
  intros Hh Hk. unfold force_one. destruct (negb (live h)); [done|].
  eapply silent_bind; [apply (stable_kept base)|silent|done|done|]. intros slot tr3 H3.
  eapply retire_bind; [exact Hh|done|done|]. intros r tr4 H4.
  eapply silent_bind; [apply (stable_kept base)|silent|done|done|]. by intros _ tr5 H5.
Qed.

(** The common shape of [drain] and [force_retire]. *)
Lemma retire_all_ok (f : list HostFacts * list HostEvent -> HostFacts -> M (list HostFacts * list HostEvent)) tr :
  (forall base x h tr, h ∈ base -> kept base tr -> safe disciplined (f x h) tr (fun _ tr' => kept base tr')) -> kept [] tr ->
  safe disciplined (
    _ ← validated p;
    _ ← provider_of digest repr L p;
    hosts ← discover_sorted p;
    x ← foldP f hosts ([], []);
    pl ← plan digest repr L p;
    _ ← record p x.1 x.2 pl;
    Ret x.1) tr (fun _ _ => True).
Proof.
  intros Hf Hk.
  eapply silent_bind; [apply (stable_kept [])|silent|done|done|]. intros _ tr1 H1.
  eapply silent_bind; [apply (stable_kept [])|silent|done|done|]. intros i tr2 H2.
  apply safe_bind. eapply safe_mono; [|by apply discover_sorted_ok]. intros [hosts|e] tr3 H3; [|done]. cbn [then_].
  apply safe_bind. eapply safe_mono; [|apply (safe_fold _ (fun _ tr => kept hosts tr) (fun _ _ => True)); [exact H3|]].
  2: { intros y h tr' Hh Hy. eapply safe_mono; [|by apply (Hf hosts)]. by intros [?|?] tr0 H. }
  intros [x|e] tr4 H4; [|done]. cbn [then_].
  eapply silent_bind; [apply (stable_kept hosts)|silent|exact H4|done|]. intros pl tr5 H5.
  eapply silent_bind; [apply (stable_kept hosts)|silent|exact H5|done|]. done.
Qed.
End discipline.

(** The pool is enabled and a quote of the provider, for the whole pool and its estimated running
    time, is within its spend limit. *)
Definition funded (p : PoolDeclaration) (tr : list (event hcmd)) : Prop :=
  enabled p = true
  /\ exists d q, Ev (Estimate d) (Ok q) ∈ tr /\ (q * inject_Z (desired p) * estimated_runtime_hours p <= spend_limit_usd p)%Q.

Lemma stable_funded p : stable (funded p).
Proof. intros tr e (H & d & q & Hin & Hle). split; [done|]. exists d, q. split; [apply elem_of_app; by left|done]. Qed.
Lemma stable_true : stable (fun _ => True).
Proof. done. Qed.

Lemma reconcile_ok p eligible tr : safe (disciplined p (funded p)) (reconcile digest repr notice_deadline L p eligible) tr (fun _ _ => True).
Proof.
  unfold reconcile. pose proof (stable_funded p) as HF. apply safe_bind.
  eapply safe_mono; [|by apply (plan_quoted p (funded p))]. intros [pl|e] tr1 Hq; [|done]. cbn [then_].
  assert (Hst : stable (quoted p pl)).
  { intros t e (d & q & Hin & He). exists d, q. split; [apply elem_of_app; by left|done]. }
  apply safe_bind. unfold guard_ at 1. destruct (negb (enabled p)) eqn:Hen; [done|]. apply negb_false_iff in Hen. cbn [safe then_].
  apply safe_bind. unfold guard_ at 1. destruct (negb (Qle_bool _ _)) eqn:Hle; [done|]. apply negb_false_iff, Qle_bool_iff in Hle. cbn [safe then_].
  assert (Hfund : forall t, quoted p pl t -> kept p (funded p) [] t).
  { intros t (d & q & Hin & He). split; [|constructor]. split; [done|]. exists d, q. split; [done|]. by rewrite <- He. }
  eapply (silent_bind p (funded p) _ _ (quoted p pl)); [exact Hst|silent|exact Hq|done|]. intros i tr2 H2.
  apply (reconcile_body_ok p (funded p) HF). by apply Hfund.
Qed.

Lemma drain_ok p deadline text slots tr : safe (disciplined p (fun _ => True)) (drain digest repr L p deadline text slots) tr (fun _ _ => True).
Proof.
  apply retire_all_ok; [done| |by split]. intros base x h tr1. apply drain_one_ok. done.
Qed.
Lemma force_retire_ok p text tr : safe (disciplined p (fun _ => True)) (force_retire digest repr L p text) tr (fun _ _ => True).
Proof.
  apply retire_all_ok; [done| |by split]. intros base x h tr1. apply force_one_ok. done.
Qed.
End lifecycle_facts.

(** ** A cloud that works *)

Record Cloud := { store : Store; hosts : list HostFacts; serial : nat }.
Definition set_store s (w : Cloud) : Cloud := {| store := s; hosts := hosts w; serial := serial w |}.
Definition set_hosts l (w : Cloud) : Cloud := {| store := store w; hosts := l; serial := serial w |}.

Definition instance_id (n : nat) : string := ("i-" ++ pretty n)%string.
Definition new_host (d : HostDeclaration) (n : nat) : HostFacts :=
  {| host_id := decl_host_id d; provider_id := instance_id n; operation_id := decl_operation_id d; state := READY;
     image := prof_image (profile (decl_pool d)); bootstrap_version := prof_bootstrap_version (profile (decl_pool d));
     retained_resources := []; detail := "" |}.
Definition add_host (d : HostDeclaration) (w : Cloud) : Cloud :=
  {| store := store w; hosts := hosts w ++ [new_host d (serial w)]; serial := S (serial w) |}.
Definition remove_host (id : string) (w : Cloud) : Cloud := set_hosts (filter (fun h => provider_id h <> id) (hosts w)) w.
Definition missing {A} : result herr A := Err (ProviderError "no such host").

(** Every command succeeds: instances start at once, are healthy, and disappear when destroyed. *)
Definition cloud (info : ProviderInfo) (price : Q) (R : Type) (c : hcmd R) : Cloud -> R * Cloud :=
  match c in hcmd R return Cloud -> R * Cloud with
  | Locked f => fun w => let x := f {| clock := 0; terminal := fun _ => true |} (store w) in (x.1, set_store x.2 w)
  | Now => fun w => (0, w)
  | Terminal _ => fun w => (true, w)
  | Sleep _ => fun w => (tt, w)
  | Uuid => fun w => ("uuid", w)
  | ValidateOptions _ => fun w => (Ok tt, w)
  | Bind _ => fun w => (Ok info, w)
  | Estimate _ => fun w => (Ok price, w)
  | Discover _ _ => fun w => (Ok (hosts w), w)
  | Provision d => fun w => (Ok (new_host d (serial w)), add_host d w)
  | StopHost _ | StartHost _ => fun w => (missing, w)
  | Destroy id _ => fun w =>
      (match List.find (fun h => bool_decide (provider_id h = id)) (hosts w) with Some h => Ok (with_state TERMINATED "" h) | None => missing end,
       remove_host id w)
  | Acknowledge _ => fun w => (Ok tt, w)
  | Orphans _ _ => fun w => (Ok [], w)
  | Readiness _ _ _ _ => fun w => (Ok {| hw_workspace := true; hw_revision := true; provisioned := true; harness_login := true; smoke_probe := true; ready_detail := "" |}, w)
  | Admit _ _ _ | Renew _ _ | Activate _ _ _ => fun w => (missing, w)
  | ReleaseAdmission _ _ => fun w => (Ok tt, w)
  | Authorize _ _ => fun w => (Ok tt, w)
  | HealthCheck _ _ => fun w => ((Some true, ""), w)
  | DrainHook _ _ _ => fun w => (true, w)
  | ClearHook _ => fun w => (tt, w)
  end.

Section convergence.
Context (digest repr : string -> string) (notice_deadline : HostFacts -> Z -> string) (L : Lifecycle) (info : ProviderInfo) (price : Q).
Context (p : PoolDeclaration).
#[local] Abbreviation returns := (returns (cloud info price)).

(** The host of a slot in the current generation, up and running. *)
Definition stable_host (s : Store) (h : HostFacts) : Prop :=
  state h = READY /\ exists slot, 0 <= slot /\ host_id h = stable_host_id p slot /\ operation_id h = operation_id_in digest L s p slot.

(** A cloud that holds hosts of the pool only, each in its slot. *)
Record sound (w : Cloud) : Prop := {
  ok_hosts : Forall (stable_host (store w)) (hosts w);
  ok_ids : NoDup (map host_id (hosts w));
  ok_instances : NoDup (map provider_id (hosts w));
  ok_serial : forall n, (serial w <= n)%nat -> instance_id n ∉ map provider_id (hosts w);
}.
(** The state file records no host of the pool that has been lost. *)
Definition recorded (w : Cloud) : Prop :=
  forall pl rows h, pools (store w) !! pool_name p = Some (pl, rows) -> h ∈ rows -> live h = true -> operation_id h ∈ map operation_id (hosts w).

(** The pool is one the lifecycle accepts. *)
Record acceptable : Prop := {
  ok_valid : validate p = Ok tt;
  ok_enabled : enabled p = true;
  ok_provider : providers L (pool_provider p) = Some info;
  ok_contract : contract_version info = CONTRACT_VERSION;
  ok_bind : has_bind info = false;
  ok_spot : purchase_policy p = "spot" -> cap_spot info = true;
  ok_price : (price * inject_Z (desired p) * estimated_runtime_hours p <= spend_limit_usd p)%Q;
  ok_attempts : retry_attempts L <> O;
}.
Context (Hok : acceptable).

Lemma returns_validated w Q : Q tt w -> returns (validated p) w Q.
Proof. intros H. unfold validated. rewrite (ok_valid Hok). by apply returns_ret. Qed.
Lemma returns_read w (Q : Store -> Cloud -> Prop) : Q (store w) w -> returns read_state w Q.
Proof. intros H. apply returns_do. cbn. unfold set_store. by destruct w. Qed.
Lemma returns_operation slot w (Q : string -> Cloud -> Prop) : Q (operation_id_in digest L (store w) p slot) w -> returns (operation_id_of digest L p slot) w Q.
Proof. intros H. apply returns_bind, returns_read, returns_ret, H. Qed.
Lemma returns_declaration slot w (Q : HostDeclaration -> Cloud -> Prop) :
  (forall d, decl_host_id d = stable_host_id p slot -> decl_operation_id d = operation_id_in digest L (store w) p slot -> Q d w) ->
  returns (declaration digest L p slot) w Q.
Proof. intros H. apply returns_bind, returns_operation, returns_ret. by apply H. Qed.
Lemma returns_guard b e w (Q : unit -> Cloud -> Prop) : b = false -> Q tt w -> returns (guard_ b e) w Q.
Proof. intros -> H. by apply returns_ret. Qed.
Lemma returns_provider w (Q : ProviderInfo -> Cloud -> Prop) : Q info w -> returns (provider_of digest repr L p) w Q.
Proof.
  intros H. unfold provider_of. rewrite (ok_provider Hok). apply returns_bind, returns_guard; [by rewrite (ok_contract Hok), bool_decide_eq_true_2|].
  apply returns_bind. eapply returns_invoke; [done|]. apply returns_bind. eapply returns_invoke; [done|].
  rewrite (ok_bind Hok). by apply returns_ret.
Qed.
Lemma returns_discover w (Q : list HostFacts -> Cloud -> Prop) : Q (hosts w) w -> returns (discover p) w Q.
Proof. intros H. by eapply returns_invoke. Qed.
Lemma returns_sorted w (Q : list HostFacts -> Cloud -> Prop) : Q (by_host_id (hosts w)) w -> returns (discover_sorted p) w Q.
Proof. intros H. apply returns_bind, returns_discover, returns_ret, H. Qed.

Lemma returns_plan w (Q : HostPlan -> Cloud -> Prop) :
  (forall pl, estimated_accrued_usd pl = (price * inject_Z (desired p) * estimated_runtime_hours p)%Q -> Q pl w) -> returns (plan digest repr L p) w Q.
Proof.
  intros H. apply returns_bind, returns_validated, returns_bind, returns_provider, returns_bind, returns_guard.
  - destruct (bool_decide_reflect (purchase_policy p = "spot")) as [Hs|]; [|done]. by rewrite (ok_spot Hok Hs).
  - apply returns_bind, returns_sorted. cbv zeta. apply returns_bind, returns_declaration. intros d _ _.
    apply returns_bind. eapply returns_invoke; [done|]. apply returns_ret, H. done.
Qed.

(** The reads of a healthy cloud. *)
Lemma returns_missing w l (Q : list HostEvent -> Cloud -> Prop) :
  recorded w -> l ≡ₚ hosts w -> Q [] w -> returns (advance_missing digest repr L p l) w Q.
Proof.
  intros Hw Hl HQ. unfold advance_missing. apply returns_bind, returns_read. cbv zeta.
  eapply returns_mono; [|apply (returns_fold _ (fun rest evs w' => evs = [] /\ w' = w
      /\ forall h, h ∈ rest -> live h = true -> operation_id h ∈ map operation_id l))].
  - by intros a w' (-> & -> & _).
  - split_and!; [done|done|]. intros h Hh Hlive. rewrite Hl. destruct (pools (store w) !! pool_name p) as [[pl rows]|] eqn:Hrows; [|by inversion Hh].
    by eapply Hw.
  - intros h rest evs w' (-> & -> & Hrest). destruct (live h) eqn:Hlive; cbn [negb].
    + unfold mem. rewrite bool_decide_eq_true_2 by (apply Hrest; [by left|done]). apply returns_ret.
      split_and!; [done|done|]. intros y Hy. apply Hrest. by right.
    + apply returns_ret. split_and!; [done|done|]. intros y Hy. apply Hrest. by right.
Qed.

Lemma returns_current w l (Q : list HostFacts -> Cloud -> Prop) :
  Forall (stable_host (store w)) l -> Q l w -> returns (current_hosts digest repr L p l) w Q.
Proof.
  revert Q. induction l as [|h l IH]; intros Q Hl HQ; cbn [current_hosts]; [by apply returns_ret|].
  inversion Hl as [|? ? (Hr & slot & Hs & Hid & Hop) Hl']; subst.
  apply returns_bind. unfold is_current_generation, host_slot. rewrite Hid, slot_of_stable by done.
  apply returns_bind, returns_ret, returns_bind, returns_operation, returns_ret. rewrite bool_decide_eq_true_2 by done.
  apply returns_bind, IH; [done|]. by apply returns_ret.
Qed.

Lemma available_state fuel l need slot w : (run (cloud info price) (available_from digest L fuel p l need slot) w).2 = w.
Proof.
  revert need slot. induction fuel as [|fuel IH]; intros need slot; destruct need as [|need]; cbn [available_from]; [done..|].
  assert (Hrd : forall s, run (cloud info price) (operation_id_of digest L p s) w = (Ok (operation_id_in digest L (store w) p s), w)).
  { intros s. unfold operation_id_of. rewrite run_bind. unfold read_state. rewrite run_do. cbn. unfold set_store. by destruct w. }
  rewrite run_bind, Hrd. destruct (_ || _); [apply IH|]. rewrite run_bind. specialize (IH need (slot + 1)).
  destruct (run _ _ w) as [[l'|e] w']; cbn in *; by subst.
Qed.

Lemma returns_available `{!Inj (=) (=) digest} w l (Q : list Z -> Cloud -> Prop) :
  (forall slots, List.length slots = Z.to_nat (desired p) -> NoDup slots ->
     Forall (fun s => 0 <= s /\ stable_host_id p s ∉ map host_id l) slots -> Q slots w) ->
  returns (available_slots digest L p l) w Q.
Proof.
  intros HQ. unfold available_slots.
  assert (Hfuel : (Z.to_nat (desired p) + List.length (map operation_id l) + List.length (map host_id l) <= Z.to_nat (desired p) + 2 * List.length l)%nat).
  { rewrite !length_map. lia. }
  pose proof (available_ok digest L _ p l (Z.to_nat (desired p)) 0 (map operation_id l) (map host_id l) [] ltac:(done) ltac:(done) Hfuel) as Hsafe.
  destruct (run_safe (cloud info price) _ _ w _ Hsafe) as [_ (slots & Hs & Hlen & Hsort & Hall)].
  exists slots, w. split.
  - pose proof (available_state (Z.to_nat (desired p) + 2 * List.length l) l (Z.to_nat (desired p)) 0 w) as Hst.
    destruct (run _ _ w) as [r w']. cbn in *. by subst.
  - apply HQ; [done| |].
    + clear -Hsort. induction Hsort as [|s slots Hss IH Hf]; constructor; [|done]. intros Hin. rewrite Forall_forall in Hf. specialize (Hf s Hin). lia.
    + eapply Forall_impl; [exact Hall|]. cbn. by intros s (? & ? & _).
Qed.

(** *** Filling the free slots *)

Lemma instance_id_inj m n : instance_id m = instance_id n -> m = n.
Proof. unfold instance_id. intros H%str_app_inj_l. by apply (inj pretty). Qed.

Lemma operation_id_in_inj `{!Inj (=) (=) digest} s s' a b : operation_id_in digest L s p a = operation_id_in digest L s' p b -> a = b.
Proof.
  destruct (operation_id_seed digest L s p a) as [x ->], (operation_id_seed digest L s' p b) as [y ->].
  unfold host_operation_id. by intros H%(inj digest)%raw_operation_inj.
Qed.

Lemma find_free `{!Inj (=) (=) digest} w slot :
  sound w -> stable_host_id p slot ∉ map host_id (hosts w) -> find_operation (operation_id_in digest L (store w) p slot) (hosts w) = None.
Proof.
  intros Hw Hfree. destruct (find_operation _ (hosts w)) as [h|] eqn:Hf; [|done]. exfalso. apply Hfree.
  apply List.find_some in Hf as [Hin [Hop _]%andb_true_iff]. apply bool_decide_eq_true in Hop. apply list_elem_of_In in Hin.
  pose proof (ok_hosts _ Hw) as Hall. rewrite Forall_forall in Hall. destruct (Hall h Hin) as (_ & slot' & _ & Hid & Hop').
  rewrite Hop in Hop'. apply operation_id_in_inj in Hop' as ->. rewrite <- Hid. by apply list_elem_of_fmap_2.
Qed.

Lemma sound_add `{!Inj (=) (=) digest} w d slot :
  sound w -> 0 <= slot -> decl_host_id d = stable_host_id p slot -> decl_operation_id d = operation_id_in digest L (store w) p slot ->
  stable_host_id p slot ∉ map host_id (hosts w) -> sound (add_host d w).
Proof.
  intros [H1 H2 H3 H4] Hs Hid Hop Hfree. constructor; cbn [store hosts serial add_host].
  - apply Forall_app. split; [done|]. apply Forall_singleton. split; [done|]. by exists slot.
  - rewrite map_app. apply NoDup_app. split_and!; [done| |apply NoDup_singleton]. intros y Hy Hin%list_elem_of_singleton. cbn in Hin. congruence.
  - rewrite map_app. apply NoDup_app. split_and!; [done| |apply NoDup_singleton]. intros y Hy Hin%list_elem_of_singleton. cbn in Hin. subst. by apply (H4 (serial w)).
  - intros n Hn. rewrite map_app, elem_of_app. intros [Hin|Hin%list_elem_of_singleton]; [by apply (H4 n); [lia|]|].
    cbn in Hin. apply instance_id_inj in Hin. lia.
Qed.

Lemma returns_provision `{!Inj (=) (=) digest} slot w (Q : HostFacts -> Cloud -> Prop) :
  sound w -> 0 <= slot -> stable_host_id p slot ∉ map host_id (hosts w) ->
  (forall d, sound (add_host d w) -> decl_host_id d = stable_host_id p slot -> Q (new_host d (serial w)) (add_host d w)) ->
  returns (provision digest repr L p slot) w Q.
Proof.
  intros Hw Hs Hfree HQ. apply returns_bind, returns_validated, returns_bind, returns_guard; [by rewrite (ok_enabled Hok)|].
  apply returns_bind, returns_declaration. intros d Hid Hop. apply returns_bind. eapply returns_invoke; [done|].
  apply returns_bind, returns_provider, returns_bind, returns_discover. cbn [snd cloud]. rewrite Hop, find_free by done.
  pose proof (ok_attempts Hok) as Hn. destruct (retry_attempts L) as [|n]; [done|]. cbn [provision_attempts].
  apply returns_bind, returns_do. cbn [fst snd cloud]. apply returns_ret, HQ; [|done]. by eapply sound_add.
Qed.

(** Between two slots: nothing has failed, been retired or drains, and the slots to come are free. *)
Record filling (w0 : Cloud) (target : nat) (rest : list Z) (x : Progress) (w : Cloud) : Prop := {
  fi_sound : sound w;
  fi_store : store w = store w0;
  fi_grows : hosts w0 `sublist_of` hosts w;
  fi_active : active x ≡ₚ hosts w;
  fi_failures : failures x = [];
  fi_retirements : retirements x = [];
  fi_draining : draining x = [];
  fi_nodup : NoDup rest;
  fi_free : Forall (fun s => 0 <= s /\ stable_host_id p s ∉ map host_id (hosts w)) rest;
  fi_target : (List.length (hosts w) + List.length rest = target)%nat;
}.

Lemma returns_fill `{!Inj (=) (=) digest} w0 target slot rest x w :
  filling w0 target (slot :: rest) x w -> returns (fill_slot digest repr L p x slot) w (filling w0 target rest).
Proof.
  intros [Hw Hst Hgrow Hact Hf Hr Hd Hnd Hfree Ht]. inversion Hfree as [|? ? [Hs Hid] Hfree']; subst. inversion Hnd; subst.
  apply returns_bind, returns_declaration. intros d Hdid Hdop. apply returns_bind. eapply returns_invoke; [done|].
  apply returns_bind, returns_discover. cbn [snd cloud]. rewrite Hdop, find_free by done.
  apply returns_bind, returns_try. eapply returns_provision; [done..|]. intros d' Hw' Hd'. apply returns_ret.
  constructor; cbn [active failures retirements draining add_event add_active store hosts add_host]; [done|done| | |done|done|done|done| |].
  - by apply sublist_inserts_r.
  - by rewrite Hact.
  - rewrite Forall_forall in Hfree' |- *. intros s Hin. destruct (Hfree' s Hin) as [? Hn]. split; [done|].
    rewrite map_app, elem_of_app. intros [?|Heq%list_elem_of_singleton]; [done|]. cbn in Heq. rewrite Hd' in Heq.
    apply stable_host_id_inj in Heq as ->. done.
  - rewrite length_app. cbn in *. lia.
Qed.

(** *** Retiring the excess *)

Lemma NoDup_map_inj {A B} (f : A -> B) l x y : NoDup (map f l) -> x ∈ l -> y ∈ l -> f x = f y -> x = y.
Proof.
  induction l as [|z l IH]; [by inversion 2|]. cbn. rewrite NoDup_cons, !elem_of_cons. intros [Hz Hl] [->|Hx] [->|Hy] Heq; [done| | |auto].
  - exfalso. apply Hz. rewrite Heq. by apply list_elem_of_fmap_2.
  - exfalso. apply Hz. rewrite <- Heq. by apply list_elem_of_fmap_2.
Qed.

Lemma filter_keep {A} (P : A -> Prop) `{!forall x, Decision (P x)} l : Forall P l -> filter P l = l.
Proof. induction 1; [done|]. rewrite filter_cons_True by done. by f_equal. Qed.

Lemma filter_one {A} (f : A -> string) l x : NoDup (map f l) -> x ∈ l -> S (List.length (filter (fun y => f y <> f x) l)) = List.length l.
Proof.
  intros Hnd Hx. induction l as [|z l IH]; [by inversion Hx|]. cbn in Hnd. apply NoDup_cons in Hnd as [Hz Hl]. cbn [List.length].
  destruct (decide (f z = f x)) as [Heq|Hne].
  - rewrite filter_cons_False by (intros H; by apply H). f_equal. f_equal. apply filter_keep, Forall_forall. intros y Hy Hyx.
    apply Hz. rewrite Heq, <- Hyx. by apply list_elem_of_fmap_2.
  - rewrite filter_cons_True by done. cbn [List.length]. f_equal. apply IH; [done|]. apply elem_of_cons in Hx as [->|Hx]; [done|done].
Qed.

Lemma sound_remove w id : sound w -> sound (remove_host id w).
Proof.
  intros [H1 H2 H3 H4].
  assert (Hsub : filter (fun h => provider_id h <> id) (hosts w) `sublist_of` hosts w) by apply sublist_filter.
  constructor; cbn [store hosts serial remove_host set_hosts].
  - rewrite Forall_forall in H1 |- *. intros h [_ Hh]%list_elem_of_filter. auto.
  - eapply sublist_NoDup; [exact H2|by apply (fmap_sublist host_id)].
  - eapply sublist_NoDup; [exact H3|by apply (fmap_sublist provider_id)].
  - intros n Hn (h & Heq & [_ Hh]%list_elem_of_filter)%list_elem_of_fmap. apply (H4 n Hn). rewrite Heq. by apply list_elem_of_fmap_2.
Qed.

(** Between two retirements. *)
Record trimming (w0 : Cloud) (keep : nat) (rest : list HostFacts) (x : Progress) (w : Cloud) : Prop := {
  tr_sound : sound w;
  tr_store : store w = store w0;
  tr_shrinks : hosts w `sublist_of` hosts w0;
  tr_rest : rest ⊆ hosts w;
  tr_nodup : NoDup (map provider_id rest);
  tr_failures : failures x = [];
  tr_draining : draining x = [];
  tr_retired : Forall (fun h => live h = false /\ provider_id h ∉ map provider_id (hosts w)) (retirements x);
  tr_keep : List.length (hosts w) = (keep + List.length rest)%nat;
}.

Lemma returns_excess w0 keep h rest x w :
  trimming w0 keep (h :: rest) x w -> returns (retire_excess digest L p x h) w (trimming w0 keep rest).
Proof.
  intros [Hw Hst Hsub Hrest Hnd Hf Hd Hret Hk]. assert (Hin : h ∈ hosts w) by (apply Hrest; by left). apply NoDup_cons in Hnd as [Hnh Hnd].
  unfold retire_excess, retire_host. apply returns_bind, returns_bind, returns_declaration. intros d _ _.
  apply returns_bind. eapply returns_invoke; [done|]. cbn [snd cloud].
  assert (Hfind : List.find (fun y => bool_decide (provider_id y = provider_id h)) (hosts w) = Some h).
  { destruct (List.find _ (hosts w)) as [y|] eqn:E.
    - apply List.find_some in E as [Hy Heq]. apply bool_decide_eq_true in Heq. f_equal.
      by apply (NoDup_map_inj provider_id (hosts w)); [apply Hw|apply list_elem_of_In|..].
    - pose proof (List.find_none _ _ E h ltac:(by apply list_elem_of_In)) as Hn. cbn in Hn. by rewrite bool_decide_eq_true_2 in Hn. }
  eapply returns_invoke; [cbn [fst cloud]; by rewrite Hfind|]. cbn [snd cloud]. apply returns_ret.
  assert (Hgone : forall y, provider_id y ∉ map provider_id (hosts w) \/ provider_id y = provider_id h ->
    provider_id y ∉ map provider_id (hosts (remove_host (provider_id h) w))).
  { intros y Hy (z & Heq & [Hne Hz]%list_elem_of_filter)%list_elem_of_fmap. destruct Hy as [Hy|Hy]; [|congruence].
    apply Hy. rewrite Heq. by apply list_elem_of_fmap_2. }
  constructor; cbn [active failures retirements draining add_event add_retired]; [by apply sound_remove|done| | |done|done|done| |].
  - etrans; [|exact Hsub]. apply sublist_filter.
  - intros y Hy. apply list_elem_of_filter. split; [|apply Hrest; by right]. intros Heq. apply Hnh. rewrite <- Heq. by apply list_elem_of_fmap_2.
  - apply Forall_app. split; [|apply Forall_singleton; split; [done|by apply Hgone; right]].
    eapply Forall_impl; [exact Hret|]. cbn. intros y [Hl Hy]. split; [done|]. apply Hgone. by left.
  - pose proof (filter_one provider_id (hosts w) h ltac:(apply Hw) Hin) as Hlen. cbn [hosts remove_host set_hosts]. cbn in Hk. lia.
Qed.

(** *** The whole pass *)

Lemma filter_true {A} (f : A -> bool) l : (forall x, x ∈ l -> f x = true) -> List.filter f l = l.
Proof.
  induction l as [|x l IH]; intros H; cbn; [done|]. rewrite (H x) by left. f_equal. apply IH. intros y Hy. apply H. by right.
Qed.
Lemma filter_false {A} (f : A -> bool) l : (forall x, x ∈ l -> f x = false) -> List.filter f l = [].
Proof.
  induction l as [|x l IH]; intros H; cbn; [done|]. rewrite (H x) by left. apply IH. intros y Hy. apply H. by right.
Qed.

Lemma returns_checks w first rest (e : list HostEvent) (Q : list HostFacts * list HostEvent -> Cloud -> Prop) :
  Forall (fun h => state h = READY) rest -> (forall e', Q (first ++ rest, e') w) -> returns (foldP (check_host digest L p) rest (first, e)) w Q.
Proof.
  intros Hall HQ. eapply returns_mono; [|apply (returns_fold _ (fun l y w' => w' = w /\ y.1 ++ l = first ++ rest /\ Forall (fun h => state h = READY) l))].
  - intros [l e'] w' (-> & Hl & _). cbn in Hl. rewrite app_nil_r in Hl. subst. apply HQ.
  - by split_and!.
  - intros h l [y e'] w' (-> & Hy & Hl). cbn in Hy. inversion Hl as [|? ? Hr Hl']; subst. unfold check_host.
    assert (Hkeep : (y ++ [h]) ++ l = first ++ rest) by (by rewrite <- app_assoc).
    destruct (_ && _); [|by apply returns_ret]. apply returns_bind, returns_do. cbn [fst snd cloud].
    rewrite bool_decide_eq_false_2 by congruence. by apply returns_ret.
Qed.

(** The hosts that are there when the slots are filled, and when the excess is gone. *)
Definition converged (w0 : Cloud) (w : Cloud) : Prop :=
  sound w /\ recorded w /\ Z.of_nat (List.length (hosts w)) = desired p
  /\ (exists l, hosts w0 `sublist_of` l /\ hosts w `sublist_of` l /\ List.length l = Nat.max (List.length (hosts w0)) (Z.to_nat (desired p))).

Lemma desired_nonneg : 0 <= desired p.
Proof. pose proof (ok_valid Hok) as H. unfold validate in H. run H. guards. lia. Qed.

Lemma record_converged w0 w2 w x pl evs l :
  trimming w2 (Z.to_nat (desired p)) [] x w -> l ≡ₚ hosts w -> hosts w0 `sublist_of` hosts w2 ->
  List.length (hosts w2) = Nat.max (List.length (hosts w0)) (Z.to_nat (desired p)) ->
  converged w0 (set_store (record_in p (retirements x ++ l) evs pl (store w)) w).
Proof.
  intros Ht Hl Hgrow Hlen. pose proof (tr_sound _ _ _ _ _ Ht) as [H1 H2 H3 H4]. split; [|split; [|split]].
  - constructor; cbn [store hosts serial set_store]; [|done..]. eapply Forall_impl; [exact H1|]. intros h Hh. exact Hh.
  - intros pl' rows h Hp Hh Hlive. cbn in Hp |- *. rewrite lookup_insert_eq in Hp. injection Hp as <- <-.
    apply elem_of_app in Hh as [Hh|Hh].
    + pose proof (tr_retired _ _ _ _ _ Ht) as Hr. rewrite Forall_forall in Hr. destruct (Hr h Hh). congruence.
    + rewrite Hl in Hh. by apply list_elem_of_fmap_2.
  - cbn. rewrite (tr_keep _ _ _ _ _ Ht). pose proof desired_nonneg. cbn. lia.
  - exists (hosts w2). split_and!; [done|apply (tr_shrinks _ _ _ _ _ Ht)|done].
Qed.

Lemma returns_reconcile `{!Inj (=) (=) digest} w0 :
  sound w0 -> recorded w0 -> returns (reconcile digest repr notice_deadline L p None) w0 (fun _ w => converged w0 w).
Proof.
  intros Hw Hrec. unfold reconcile. apply returns_bind, returns_plan. intros pl Hpl.
  apply returns_bind, returns_guard; [by rewrite (ok_enabled Hok)|].
  apply returns_bind, returns_guard; [apply negb_false_iff, Qle_bool_iff; rewrite Hpl; apply (ok_price Hok)|].
  apply returns_bind, returns_provider, returns_bind, returns_sorted. set (l := by_host_id (hosts w0)).
  assert (Hl : l ≡ₚ hosts w0) by apply sort_by_Permutation.
  assert (Hall : Forall (stable_host (store w0)) l) by (rewrite Hl; apply Hw).
  assert (Hready : forall h, h ∈ l -> state h = READY) by (rewrite Forall_forall in Hall; intros h Hh; by destruct (Hall h Hh)).
  apply returns_bind, returns_missing; [done|done|]. apply returns_bind, returns_current; [done|]. cbv zeta.
  rewrite (filter_false (fun h => negb (bool_decide (h ∈ l)) && live h) l) by (intros h Hh; rewrite bool_decide_eq_true_2 by done; done).
  rewrite (filter_false _ l) by (intros h Hh; by rewrite (Hready h Hh)).
  rewrite (filter_true _ l) by (intros h Hh; unfold live; by rewrite (Hready h Hh)).
  cbn [foldP]. apply returns_bind, returns_ret, returns_bind, returns_ret. cbn [active].
  apply returns_bind, returns_available. intros slots Hlen Hnd Hfree. cbv zeta. cbn [slots_to_fill].
  set (todo := take _ slots).
  assert (Htodo : (List.length (hosts w0) + List.length todo = Nat.max (List.length (hosts w0)) (Z.to_nat (desired p)))%nat).
  { unfold todo. rewrite length_take, Hlen, Hl. lia. }
  apply returns_bind. eapply returns_mono; [|apply (returns_fold _ (filling w0 (Nat.max (List.length (hosts w0)) (Z.to_nat (desired p)))))].
  2: { constructor; cbn [active failures retirements draining]; try done.
       - by eapply sublist_NoDup; [exact Hnd|apply sublist_take].
       - apply Forall_take. eapply Forall_impl; [exact Hfree|]. cbn. intros s [? Hs]. split; [done|]. by rewrite <- Hl. }
  2: { intros slot rest x w Hx. by apply returns_fill. }
  intros x2 w2 [Hw2 Hst2 Hgrow Hact2 Hf2 Hr2 Hd2 _ _ Ht2]. cbn [List.length] in Ht2.
  apply returns_bind. eapply returns_mono; [|apply (returns_fold _ (trimming w2 (Z.to_nat (desired p))))].
  2: { constructor; try done.
       - intros h Hh. rewrite <- Hact2. by eapply elem_of_drop_in.
       - eapply sublist_NoDup; [|by apply (fmap_sublist provider_id), sublist_drop]. rewrite Hact2. apply Hw2.
       - by rewrite Hr2.
       - rewrite length_drop, Hact2. lia. }
  2: { intros h rest x w Hx. by apply returns_excess. }
  intros x3 w3 Ht. apply returns_bind, returns_sorted.
  assert (Hl3 : by_host_id (hosts w3) ≡ₚ hosts w3) by apply sort_by_Permutation.
  assert (Hck : to_check x3 (by_host_id (hosts w3)) = (retirements x3, by_host_id (hosts w3))).
  { unfold to_check. rewrite (tr_draining _ _ _ _ _ Ht), (tr_failures _ _ _ _ _ Ht). cbn [dget default].
    rewrite map_id. f_equal. apply filter_true. intros h Hh. apply negb_true_iff, bool_decide_eq_false. intros (y & Heq & Hy)%list_elem_of_fmap.
    pose proof (tr_retired _ _ _ _ _ Ht) as Hr. rewrite Forall_forall in Hr. destruct (Hr y Hy) as [_ Hn]. apply Hn. rewrite <- Heq.
    apply list_elem_of_fmap_2. by rewrite <- Hl3. }
  rewrite Hck. apply returns_bind, returns_checks.
  { rewrite Hl3. eapply Forall_impl; [apply (tr_sound _ _ _ _ _ Ht)|]. by intros h [? _]. }
  intros e. apply returns_bind. unfold record, locked_write. apply returns_do. cbn [fst snd cloud]. apply returns_ret.
  by eapply record_converged; [exact Ht|exact Hl3|exact Hgrow|lia].
Qed.
End convergence.

(** ** Properties *)

(** C9.  No host is created or destroyed out of turn.  In every execution of [reconcile], [drain] and
    [force_retire], whatever the provider and the policy answer, whatever other controllers write to the
    state file meanwhile and wherever the execution stops: a provisioning request is sent only when the
    policy has authorized that declaration, the pool is enabled, a quote for the whole pool is within its
    spend limit, and the latest discovery shows no live host with that operation id and has been followed
    by nothing but attempts for the same declaration that failed transiently, so a request whose outcome
    is uncertain is never repeated without looking again; a host is destroyed only when the policy has
    authorized a destruction, when the provider itself reported the host for this pool, and with its
    storage kept if the workspace is persistent. *)
Theorem pool_mutations_permitted digest repr notice_deadline L p m F tr1 R (c : hcmd R) r tr2 o :
  (exists eligible, m = reconcile digest repr notice_deadline L p eligible) /\ F = funded p
  \/ (exists deadline text slots, m = drain digest repr L p deadline text slots) /\ F = (fun _ => True)
  \/ (exists text, m = force_retire digest repr L p text) /\ F = (fun _ => True) ->
  exec m (tr1 ++ Ev c r :: tr2) o -> permitted p F tr1 c.
Proof.
  intros Hm He.
  assert (Hs : safe (disciplined p F) m [] (fun _ _ => True)).
  { destruct Hm as [[[? ->] ->]|[[(? & ? & ? & ->) ->]|[[? ->] ->]]]; [apply reconcile_ok|apply drain_ok|apply force_retire_ok]. }
  destruct (safe_exec _ _ [] _ o _ He Hs (allowed_nil _)) as [Ha _]. by apply (allowed_split _ tr1 (Ev c r)) in Ha.
Qed.

(** The search for slots always ends, whatever other controllers write to the state file while it
    runs (operation ids do not collide): it returns exactly as many slots as the pool wants, from 0 up,
    each with a host id no discovered host carries and an operation id none carried when it was read. *)
Theorem available_slots_found digest L p hosts tr o :
  Inj (=) (=) digest -> exec (available_slots digest L p hosts) tr (Some o) ->
  exists slots, o = Ok slots /\ free_slots digest L p hosts (Z.to_nat (desired p)) 0 slots.
Proof.
  intros Hinj He. assert (Hfuel : (Z.to_nat (desired p) + List.length (map operation_id hosts) + List.length (map host_id hosts)
      <= Z.to_nat (desired p) + 2 * List.length hosts)%nat) by (rewrite !length_map; lia).
  pose proof (available_ok digest L _ p hosts (Z.to_nat (desired p)) 0 (map operation_id hosts) (map host_id hosts) [] ltac:(done) ltac:(done) Hfuel) as Hs.
  by destruct (safe_exec _ _ [] _ _ _ He Hs (allowed_nil _)) as [_ H].
Qed.

Lemma sublist_full {A} (l k : list A) : l `sublist_of` k -> List.length l = List.length k -> l = k.
Proof.
  intros Hs. induction Hs as [|x l k Hs IH|x l k Hs IH]; cbn; [done| |].
  - intros [= H]. f_equal. auto.
  - intros H. apply sublist_length in Hs. lia.
Qed.

(** C10.  Convergence and idempotence: against a provider whose instances start, and for a pool that
    passes validation and whose quote is within its limit, one [reconcile] of any number of running hosts
    returns with exactly the desired number; no running host is touched when more are wanted, none is
    created when fewer are wanted; and a second [reconcile] changes nothing. *)
Theorem reconcile_converges digest repr notice_deadline L info price p w :
  Inj (=) (=) digest -> acceptable L info price p -> sound digest L p w -> recorded p w ->
  exists checked w', run (cloud info price) (reconcile digest repr notice_deadline L p None) w = (Ok checked, w')
    /\ sound digest L p w' /\ Z.of_nat (List.length (hosts w')) = desired p
    /\ (Z.of_nat (List.length (hosts w)) <= desired p -> hosts w `sublist_of` hosts w')
    /\ (desired p <= Z.of_nat (List.length (hosts w)) -> hosts w' `sublist_of` hosts w)
    /\ exists again w'', run (cloud info price) (reconcile digest repr notice_deadline L p None) w' = (Ok again, w'') /\ hosts w'' = hosts w'.
Proof.
  intros Hinj Hok Hw Hrec.
  assert (Hbetween : forall a b, converged digest L p a b ->
      (Z.of_nat (List.length (hosts a)) <= desired p -> hosts a `sublist_of` hosts b)
      /\ (desired p <= Z.of_nat (List.length (hosts a)) -> hosts b `sublist_of` hosts a)).
  { intros a b (_ & _ & Hlen & l & Hal & Hbl & Hl). split; intros Hle.
    - by rewrite (sublist_full _ _ Hbl) by lia.
    - by rewrite (sublist_full _ _ Hal) by lia. }
  destruct (returns_reconcile digest repr notice_deadline L info price p Hok w Hw Hrec) as (checked & w1 & Hr1 & H1).
  pose proof H1 as (Hw1 & Hrec1 & Hlen1 & _). destruct (Hbetween _ _ H1) as [Hup Hdown].
  destruct (returns_reconcile digest repr notice_deadline L info price p Hok w1 Hw1 Hrec1) as (again & w2 & Hr2 & H2).
  destruct (Hbetween _ _ H2) as [Hup2 _]. pose proof H2 as (_ & _ & Hlen2 & _).
  exists checked, w1. split_and!; [done..|]. exists again, w2. split; [done|].
  symmetry. apply sublist_full; [apply Hup2; lia|lia].
Qed.

(** ** A pool of two *)

Module Demo.
Definition plain (s : string) : string := s.
Definition no_deadline (h : HostFacts) (now : Z) : string := "".
#[export] Instance plain_inj : Inj (=) (=) plain.
Proof. by intros s t H. Qed.

Definition info : ProviderInfo :=
  {| prov_name := "ec2"; contract_version := CONTRACT_VERSION; cap_stop_start := true; cap_spot := true; has_bind := false;
     has_acknowledge := false; has_orphans := false; has_readiness := true; has_admit := true |}.
Definition L : Lifecycle :=
  {| providers := fun n => if bool_decide (n = "ec2") then Some info else None; health_check := true; interruption_drain := false; drain_clear := false;
     retry_attempts := 3; reservation_seconds := 300; absolute_deadline := ""; operation_seed := "" |}.
Definition pool (want : Z) : PoolDeclaration :=
  {| pool_name := "build"; pool_owner := "garden"; purpose := "workers"; pool_provider := "ec2";
     profile := {| prof_name := "p"; prof_version := "1"; prof_image := "ami-1"; prof_bootstrap_version := "1"; prof_cpu := 2; prof_memory_mib := 4096;
       prof_disk_gib := 20; endpoint := ""; enrollment_secret_ref := ""; persistent_workspace := false; health_path := "/health";
       prof_provider_options := []; source_head := "" |};
     enabled := true; minimum := 0; maximum := 4; desired := want; idle_timeout_minutes := 10; maximum_age_minutes := 60;
     estimated_runtime_hours := 1; spend_limit_usd := 10; purchase_policy := "on_demand"; on_demand_fallback := false;
     recoverable_workspace := false; pool_provider_options := [] |}.

Definition nothing : Cloud := {| store := empty_store; hosts := []; serial := 0 |}.
Definition two : Cloud := (run (cloud info 1) (reconcile plain plain no_deadline L (pool 2) None) nothing).2.
Definition shrink : list (event hcmd) := trace (cloud info 1) (reconcile plain plain no_deadline L (pool 1) None) two.

Lemma pool_ok want : want = 1 \/ want = 2 -> acceptable L info 1 (pool want).
Proof. intros [-> | ->]; (constructor; [reflexivity|reflexivity|reflexivity|reflexivity|reflexivity|discriminate|vm_compute; discriminate|discriminate]). Qed.
Lemma nothing_sound : sound plain L (pool 2) nothing.
Proof. constructor; [constructor|constructor|constructor|]. intros n _ H. inversion H. Qed.
Lemma nothing_recorded : recorded (pool 2) nothing.
Proof. by intros pl rows h H. Qed.
(** The declaration of slot 0, and the passes of the examples. *)
Definition decl0 (want : Z) : HostDeclaration :=
  match (run (cloud info 1) (declaration plain L (pool want) 0) nothing).1 with
  | Ok d => d
  | Err _ => {| decl_host_id := ""; decl_operation_id := ""; decl_pool := pool 0; deadline_utc := "" |}
  end.
Definition grow : list (event hcmd) := trace (cloud info 1) (reconcile plain plain no_deadline L (pool 2) None) nothing.
End Demo.

Lemma pool_mutations_permitted_witness :
  Demo.grow = take 19 Demo.grow ++ Ev (Provision (Demo.decl0 2)) (Ok (new_host (Demo.decl0 2) 0)) :: drop 20 Demo.grow
  /\ permitted (Demo.pool 2) (funded (Demo.pool 2)) (take 19 Demo.grow) (Provision (Demo.decl0 2)).
Proof.
  assert (H : Demo.grow = take 19 Demo.grow ++ Ev (Provision (Demo.decl0 2)) (Ok (new_host (Demo.decl0 2) 0)) :: drop 20 Demo.grow) by (vm_compute; reflexivity).
  split; [exact H|].
  apply (pool_mutations_permitted Demo.plain Demo.plain Demo.no_deadline Demo.L (Demo.pool 2)
    (reconcile Demo.plain Demo.plain Demo.no_deadline Demo.L (Demo.pool 2) None) (funded (Demo.pool 2)) (take 19 Demo.grow) _
    (Provision (Demo.decl0 2)) (Ok (new_host (Demo.decl0 2) 0)) (drop 20 Demo.grow)
    (Some (run (cloud Demo.info 1) (reconcile Demo.plain Demo.plain Demo.no_deadline Demo.L (Demo.pool 2) None) Demo.nothing).1)).
  - left. split; [exists None; reflexivity|reflexivity].
  - rewrite <- H. exact (run_exec (cloud Demo.info 1) (reconcile Demo.plain Demo.plain Demo.no_deadline Demo.L (Demo.pool 2) None) Demo.nothing).
Defined.

Lemma available_slots_found_witness :
  let m := available_slots Demo.plain Demo.L (Demo.pool 2) (hosts Demo.two) in
  (run (cloud Demo.info 1) m Demo.two).1 = Ok [2; 3]
  /\ exists slots, (run (cloud Demo.info 1) m Demo.two).1 = Ok slots /\ free_slots Demo.plain Demo.L (Demo.pool 2) (hosts Demo.two) 2 0 slots.
Proof.
  intros m. split; [vm_compute; reflexivity|].
  exact (available_slots_found Demo.plain Demo.L (Demo.pool 2) (hosts Demo.two) (trace (cloud Demo.info 1) m Demo.two)
    (run (cloud Demo.info 1) m Demo.two).1 Demo.plain_inj (run_exec (cloud Demo.info 1) m Demo.two)).
Defined.

Lemma reconcile_converges_witness :
  let m := reconcile Demo.plain Demo.plain Demo.no_deadline Demo.L (Demo.pool 2) None in
  exists checked w', run (cloud Demo.info 1) m Demo.nothing = (Ok checked, w')
    /\ sound Demo.plain Demo.L (Demo.pool 2) w' /\ Z.of_nat (List.length (hosts w')) = 2
    /\ (Z.of_nat (List.length (hosts Demo.nothing)) <= 2 -> hosts Demo.nothing `sublist_of` hosts w')
    /\ (2 <= Z.of_nat (List.length (hosts Demo.nothing)) -> hosts w' `sublist_of` hosts Demo.nothing)
    /\ exists again w'', run (cloud Demo.info 1) m w' = (Ok again, w'') /\ hosts w'' = hosts w'.
Proof.
  exact (reconcile_converges Demo.plain Demo.plain Demo.no_deadline Demo.L Demo.info 1 (Demo.pool 2) Demo.nothing
    Demo.plain_inj (Demo.pool_ok 2 (or_intror eq_refl)) Demo.nothing_sound Demo.nothing_recorded).
Defined.

(** Retiring the excess asks the policy about slot 0, whichever host is destroyed: shrinking the pool
    of two to one destroys the instance of [build-1] on an authorization for [build-0]. *)
Lemma excess_authorized_as_slot_zero :
  (exists d, decl_host_id d = "build-0" /\ Ev (Authorize "destroy" d) (Ok tt) ∈ Demo.shrink)
  /\ (exists r, Ev (Destroy "i-1" true) r ∈ Demo.shrink)
  /\ map (fun h => (host_id h, provider_id h)) (hosts Demo.two) = [("build-0", "i-0"); ("build-1", "i-1")]
  /\ forall d, Ev (Authorize "destroy" d) (Ok tt) ∈ Demo.shrink -> decl_host_id d = "build-0".
Proof.
  assert (H : Demo.shrink = take 15 Demo.shrink ++ [Ev (Authorize "destroy" (Demo.decl0 1)) (Ok tt);
      Ev (Destroy "i-1" true) (Ok (with_state TERMINATED "" (new_host {| decl_host_id := "build-1"; decl_operation_id := operation_id_in Demo.plain Demo.L empty_store (Demo.pool 2) 1;
        decl_pool := Demo.pool 2; deadline_utc := "" |} 1)))] ++ drop 17 Demo.shrink) by (vm_compute; reflexivity).
  split_and!.
  - exists (Demo.decl0 1). split; [vm_compute; reflexivity|]. rewrite H. rewrite !elem_of_app. right. left. by left.
  - eexists. rewrite H. rewrite !elem_of_app. right. left. right. by left.
  - vm_compute. reflexivity.
  - intros d Hd.
    assert (Hall : Forall (fun e => match e with Ev c _ => match c with Authorize a x => a = "destroy" -> decl_host_id x = "build-0" | _ => True end end) Demo.shrink)
      by (vm_compute; repeat constructor).
    rewrite Forall_forall in Hall. by apply (Hall _ Hd).
Qed.
