(* ===== verification/HostLeases.v ===== *)
(** * Leases on warm hosts ([garden/hosts/core.py], from [acquire_ready] on)

    A controller acquires a ready host by writing a lease into the shared state file, after the host has
    proved its readiness and, when the work has requirements, has admitted it; it attaches the run it
    dispatches, and cancels or releases the lease in the end.  Several controllers run these methods at
    once on the same file: each [Locked] section is atomic, and anything may happen between two of them.
    ([acquire_ready] as a whole runs under a second lock, which nothing here relies on.)

    [leases_refine_lock] shows that whatever the interleaving, the lease of every host changes only as a
    lock with expiring reservations and compare-and-set commands allows; [attach_run] alone compares nothing. *)

From S2P Require Import Prelude PyValue Requirements Workers Effects Hosts.

#[local] Open Scope list_scope.
#[local] Open Scope Z_scope.

(** ** Admission *)

(** The identity a constrained workload is fenced by. *)
Definition workload_identity (r : HostRequirements) : list string :=
  [hr_requirement_digest r; hr_profile_revision r; hr_worker_id r; hr_run_id r; hr_operating_user r; hr_installation_id r].
Definition constrained_host (r : HostRequirements) : bool :=
  negb (hr_memory_mib r =? 0) || negb (hr_vcpu r =? 0) || negb (hr_gpu_count r =? 0) || negb (hr_gpu_device_memory_mib r =? 0).

(** [_validate_requirements] *)
Definition validate_requirements (r : HostRequirements) : result exn unit :=
  let identity := workload_identity r in
  raise (ValueError "activity, host_class and environment are required for host admission")
    when (negb (nonempty (hr_activity r)) || negb (nonempty (hr_host_class r)) || negb (nonempty (hr_environment r))) ;;
  raise (ValueError "host resource requirements cannot be negative")
    when (existsb (fun v => v <? 0) [hr_memory_mib r; hr_vcpu r; hr_gpu_count r; hr_gpu_device_memory_mib r; hr_disk_gib r; hr_lease_generation r]) ;;
  raise (ValueError "host admission identity must be complete") when (existsb nonempty identity && negb (forallb nonempty identity)) ;;
  raise (ValueError "host admission lease generation must be positive") when (existsb nonempty identity && (hr_lease_generation r <=? 0)) ;;
  raise (ValueError "constrained host admission requires a fenced workload identity") when (constrained_host r && negb (forallb nonempty identity)) ;;
  raise (ValueError "GPU shape requires a positive GPU count")
    when ((hr_gpu_count r =? 0) && (nonempty (hr_gpu_vendor r) || negb (hr_gpu_device_memory_mib r =? 0) || match hr_gpu_features r with [] => false | _ => true end)) ;;
  raise (ValueError "probe and lease durations must be positive") when ((hr_probe_max_age_seconds r <=? 0) || (hr_lease_seconds r <=? 0)) ;;
  Ok tt.

(** [set(a) - set(b)], sorted *)
Definition missing_names (a b : list string) : list string := sorted_set (List.filter (fun x => negb (mem x b)) a).

(** The identities an admission must repeat: what the host says, and what was required. *)
Definition bindings (a : HostAdmission) (r : HostRequirements) : list (string * string * string) :=
  [("effective requirement digest", ad_requirement_digest a, hr_requirement_digest r);
   ("profile revision", ad_profile_revision a, hr_profile_revision r);
   ("worker identity", ad_worker_id a, hr_worker_id r);
   ("run identity", ad_run_id a, hr_run_id r);
   ("activity identity", ad_activity a, hr_activity r);
   ("operating user", ad_operating_user a, hr_operating_user r);
   ("installation identity", ad_installation_id a, hr_installation_id r)].
Definition unbound (b : string * string * string) : bool := nonempty b.2 && negb (bool_decide (b.1.2 = b.2)).

Notation "'reject' m 'when' b ;; k" := (if b then m else k)
  (at level 100, m at level 0, b at level 99, k at level 200, right associativity) : garden_scope.

(** The checks of the GPU assignment; [""] when there is nothing to object. *)
Definition gpu_rejection (a : HostAdmission) (r : HostRequirements) : string :=
  let n := hr_gpu_count r in
  reject "host GPU assignment does not match the reservation" when (negb (Z.of_nat (List.length (gpu_devices a)) =? n)) ;;
  reject "host GPU device identity evidence is incomplete" when (existsb (fun d => negb (nonempty (strip d))) (gpu_devices a)) ;;
  reject "host GPU assignment is not exclusive" when (negb (bool_decide (NoDup (gpu_devices a)))) ;;
  reject "host GPU device-memory evidence is incomplete" when (negb (Z.of_nat (List.length (ad_gpu_device_memory_mib a)) =? n)) ;;
  reject "host GPU device memory is below the reservation" when (existsb (fun m => m <? hr_gpu_device_memory_mib r) (ad_gpu_device_memory_mib a)) ;;
  reject "host GPU vendor evidence is incomplete" when (negb (Z.of_nat (List.length (gpu_device_vendors a)) =? n)) ;;
  reject "host GPU vendor evidence is incomplete" when (existsb (fun v => negb (nonempty (strip v))) (gpu_device_vendors a)) ;;
  reject "host GPU vendor does not match the reservation"
    when (nonempty (hr_gpu_vendor r) && existsb (fun v => negb (bool_decide (lower v = lower (hr_gpu_vendor r)))) (gpu_device_vendors a)) ;;
  reject "host GPU feature evidence is incomplete" when (negb (Z.of_nat (List.length (gpu_device_features a)) =? n)) ;;
  reject "host GPU features do not match the reservation"
    when (existsb (fun fs => negb (forallb (fun f => mem f fs) (hr_gpu_features r))) (gpu_device_features a)) ;;
  "".

Section admission.
Context (repr : string -> string).

(** [_admission_rejection] *)
Definition admission_rejection (a : HostAdmission) (r : HostRequirements) (now : Z) : string :=
  reject (if nonempty (ad_detail a) then ad_detail a else "host-local admission rejected") when (negb (eligible a)) ;;
  match measured_at a with
  | None => "resource probe timestamp is invalid"
  | Some measured =>
  reject "resource probe timestamp is in the future" when (now + 5 <? measured) ;;
  reject (("resource probe is stale (" ++ show (now - measured) ++ "s old)")%string) when (hr_probe_max_age_seconds r <? now - measured) ;;
  reject (("host class " ++ repr (ad_host_class a) ++ " does not match " ++ repr (hr_host_class r))%string)
    when (negb (bool_decide (ad_host_class a = hr_host_class r))) ;;
  reject (("environment " ++ repr (ad_environment a) ++ " does not match " ++ repr (hr_environment r))%string)
    when (negb (bool_decide (ad_environment a = hr_environment r))) ;;
  match missing_names (hr_capabilities r) (ad_capabilities a) with
  | (_ :: _) as missing => ("missing capabilities: " ++ join ", " missing)%string
  | [] =>
  reject (("host memory " ++ show (memory_available_mib a) ++ " MiB is below " ++ show (hr_memory_mib r) ++ " MiB")%string)
    when (memory_available_mib a <? hr_memory_mib r) ;;
  reject (("host disk " ++ show (disk_free_gib a) ++ " GiB is below " ++ show (hr_disk_gib r) ++ " GiB")%string)
    when (disk_free_gib a <? hr_disk_gib r) ;;
  match List.find unbound (bindings a r) with
  | Some b => ("host admission " ++ b.1.1 ++ " does not match")%string
  | None =>
  reject "host admission lease generation does not match"
    when (negb (hr_lease_generation r =? 0) && negb (ad_lease_generation a =? hr_lease_generation r)) ;;
  reject "host cannot enforce constrained resource reservations" when (constrained_host r && negb (resources_enforced a)) ;;
  reject "host memory ceiling does not match the reservation"
    when (negb (hr_memory_mib r =? 0) && negb (memory_limit_mib a =? hr_memory_mib r)) ;;
  reject "host vCPU ceiling does not match the reservation" when (negb (hr_vcpu r =? 0) && negb (vcpu_limit a =? hr_vcpu r)) ;;
  reject (gpu_rejection a r) when (negb (hr_gpu_count r =? 0) && nonempty (gpu_rejection a r)) ;;
  reject "host-local admission lease is missing or expired"
    when (negb (nonempty (lease_id a)) || match lease_expires_at a with Some t => t <=? now | None => true end) ;;
  ""
  end end end.
End admission.

(** ** Leases *)

(** [actively_reserved]: dispatch is still expected under this lease. *)
Definition reserved (now : Z) (l : Lease) : bool := negb (released l) && negb (nonempty (run_id l)) && (now <? reserved_until l).
(** [active_run]: the lease's run has not ended. *)
Definition running (env : Env) (l : Lease) : bool := nonempty (run_id l) && negb (terminal env (run_id l)).

Definition with_admission (a : HostAdmission) (at_ : option Z) (l : Lease) : Lease :=
  {| acquired_at := acquired_at l; last_used_at := last_used_at l; reserved_until := reserved_until l; workspace := workspace l;
     revision := revision l; harness := harness l; run_id := run_id l; released := released l; admission := Some a;
     requirements := requirements l; activated_at := at_ |}.
Definition with_run (run : string) (l : Lease) : Lease :=
  {| acquired_at := acquired_at l; last_used_at := last_used_at l; reserved_until := reserved_until l; workspace := workspace l;
     revision := revision l; harness := harness l; run_id := run; released := released l; admission := admission l;
     requirements := requirements l; activated_at := activated_at l |}.
Definition with_release (now : Z) (l : Lease) : Lease :=
  {| acquired_at := acquired_at l; last_used_at := now; reserved_until := reserved_until l; workspace := workspace l;
     revision := revision l; harness := harness l; run_id := run_id l; released := true; admission := None;
     requirements := None; activated_at := activated_at l |}.

(** The lease id of the recorded admission, [""] when there is none. *)
Definition admitted_id (l : option Lease) : string := match l with Some x => match admission x with Some a => lease_id a | None => "" end | None => "" end.

(** What a caller asks a host for. *)
Record Work := { wk_workspace : string; wk_revision : string; wk_harness : string; wk_requirements : option HostRequirements }.

Section leases.
Context (digest repr : string -> string) (notice_deadline : HostFacts -> Z -> string) (L : Lifecycle).
#[local] Abbreviation provider_of := (provider_of digest repr L).
#[local] Abbreviation owned := (owned digest repr L).
#[local] Abbreviation stop := (stop digest repr L).
#[local] Abbreviation destroy := (destroy digest repr L).
#[local] Abbreviation reconcile := (reconcile digest repr notice_deadline L).

(** [_record_environment_stop] *)
Definition record_stop_in (p : PoolDeclaration) (detail : string) (e : Env) (s : Store) : Store :=
  set_stops (<[pool_name p := (detail, clock e)]> (stops s)) s.
Definition record_stop (p : PoolDeclaration) (detail : string) : M unit := locked_write (record_stop_in p detail).
(** Record the stop and raise it. *)
Definition environment_stop {A} (p : PoolDeclaration) (detail : string) : M A := _ ← record_stop p detail; Throw (EnvironmentStop detail).
(** [try: m except ProviderError as exc: ...] *)
Definition on_provider_error {A} (p : PoolDeclaration) (text : string -> string) (m : M A) : M A :=
  r ← try_ m;
  match r with
  | Ok a => Ret a
  | Err e => match provider_error e with Some t => environment_stop p (text t) | None => Throw e end
  end.

Definition lookup_lease (id : string) : M (option Lease) := s ← read_state; Ret (leases s !! id).

(** [attach_run] *)
Definition attach_in (id run : string) (e : Env) (s : Store) : result herr unit * Store :=
  match leases s !! id with
  | Some l => (Ok tt, set_leases (<[id := with_run run l]> (leases s)) s)
  | None => (Err (Raised (ValueError ("host " ++ repr id ++ " is not acquired"))), s)
  end.
Definition attach_run (id run : string) : M unit := invoke (Locked (attach_in id run)).

(** [release] *)
Definition release_in (id : string) (original : option Lease) (e : Env) (s : Store) : bool * Store :=
  match leases s !! id, original with
  | None, None => (true, s)
  | Some l, Some o => if bool_decide (l = o) then (true, set_leases (<[id := with_release (clock e) l]> (leases s)) s) else (false, s)
  | _, _ => (false, s)
  end.
Definition at_rest (h : HostFacts) : bool := mem (state_value (state h)) ["stopped"; "terminated"].
Definition release (p : PoolDeclaration) (id : string) : M HostFacts :=
  original ← lookup_lease id;
  h ← owned p id;
  h ← (if at_rest h then Ret h
       else on_provider_error p (fun t => "host stop failed before admission lease release: " ++ t)%string (stop p id));
  _ ← (if at_rest h then Ret tt
       else environment_stop p ("host stop did not prove termination before admission lease release: " ++ state_value (state h))%string);
  _ ← (if nonempty (admitted_id original)
       then on_provider_error p (fun t => "host admission lease release failed: " ++ t)%string
              (_ ← provider_of p; invoke (ReleaseAdmission id (admitted_id original)))
       else Ret tt);
  ok ← do_ (Locked (release_in id original));
  if ok : bool then Ret h else environment_stop p "host admission lease lost: recorded lease identity changed during release".

(** [cancel_acquisition]; the pool may be missing *)
Definition cancel_in (id : string) (original : option Lease) (e : Env) (s : Store) : bool * Store :=
  if bool_decide (leases s !! id = original) then (true, set_leases (delete id (leases s)) s) else (false, s).
Definition activated (l : Lease) : bool := match activated_at l with Some t => negb (t =? 0) | None => false end.
Definition cancel_acquisition (id : string) (p : option PoolDeclaration) : M unit :=
  original ← lookup_lease id;
  let admitted := admitted_id original in
  if nonempty admitted && match original with Some l => activated l || nonempty (run_id l) | None => false end then
    match p with
    | None => value_error "pool is required to cancel an active host-local admission lease"
    | Some p => _ ← release p id; Ret tt
    end
  else
    _ ← (if nonempty admitted then
           match p with
           | None => value_error "pool is required to cancel a host-local admission lease"
           | Some p => on_provider_error p (fun t => "host admission lease release failed: " ++ t)%string
                         (_ ← provider_of p; invoke (ReleaseAdmission id admitted))
           end
         else Ret tt);
    ok ← do_ (Locked (cancel_in id original));
    if ok : bool then Ret tt
    else
      let detail := "host admission lease lost: recorded lease identity changed during cancellation" in
      match p with Some p => environment_stop p detail | None => Throw (EnvironmentStop detail) end.

(** ** Acquisition *)

(** The scan for candidates threads the leases it has read and the candidates found. *)
Definition scan_host (p : PoolDeclaration) (scan_time : Z) (x : gmap string Lease * list HostFacts) (h : HostFacts)
    : M (gmap string Lease * list HostFacts) :=
  let '(ls, candidates) := x in
  if negb (mem (state_value (state h)) ["ready"; "stopped"]) then Ret x
  else if negb (bool_decide (image h = prof_image (profile p) /\ bootstrap_version h = prof_bootstrap_version (profile p))) then Ret x
  else
    let lease := ls !! provider_id h in
    let acquired := match lease with Some l => acquired_at l | None => scan_time end in
    if maximum_age_minutes p * 60 <=? scan_time - acquired then
      _ ← destroy p (provider_id h) (delete_storage p);
      _ ← cancel_acquisition (provider_id h) None;
      Ret (delete (provider_id h) ls, candidates)
    else
      let previous := match lease with Some l => run_id l | None => "" end in
      let until := match lease with Some l => reserved_until l | None => 0 end in
      let free := match lease with Some l => released l | None => false end in
      if negb free && negb (nonempty previous) && (scan_time <? until) then Ret x
      else
        let ls := if negb free && negb (nonempty previous) then delete (provider_id h) ls else ls in
        ended ← (if nonempty previous then do_ (Terminal previous) else Ret true);
        Ret (ls, if ended : bool then candidates ++ [h] else candidates).

(** The claim: under the lock, unless another controller got there first. *)
Definition new_lease (w : Work) (a : option HostAdmission) (acquired now : Z) : Lease :=
  {| acquired_at := acquired; last_used_at := now; reserved_until := now + reservation_seconds L; workspace := wk_workspace w;
     revision := wk_revision w; harness := wk_harness w; run_id := ""; released := false; admission := a;
     requirements := match a with Some _ => wk_requirements w | None => None end; activated_at := None |}.
Definition claim_in (p : PoolDeclaration) (id : string) (w : Work) (a : option HostAdmission) (acquired now : Z) (e : Env) (s : Store) : bool * Store :=
  let existing := leases s !! id in
  if match existing with Some l => reserved now l || running e l | None => false end then (false, s)
  else
    let acquired := match existing with Some l => acquired_at l | None => acquired end in
    (true, set_stops (delete (pool_name p) (stops s)) (set_leases (<[id := new_lease w a acquired now]> (leases s)) s)).

Definition on_admission_reply (p : PoolDeclaration) (h : HostFacts) : M HostAdmission -> M HostAdmission :=
  on_provider_error p (fun t => host_id h ++ ": admission unavailable: " ++ t)%string.

(** Start a stopped host and ask for its readiness; the failure if it cannot be used. *)
Definition make_ready (p : PoolDeclaration) (i : ProviderInfo) (w : Work) (h : HostFacts) : M (HostFacts + string) :=
  on_provider_error p (fun t => host_id h ++ ": " ++ t)%string (
    if bool_decide (state h = STOPPED) && negb (cap_stop_start i) then Ret (inr (host_id h ++ ": stopped host cannot be restarted")%string)
    else
      h' ← (if bool_decide (state h = STOPPED) then invoke (StartHost (provider_id h)) else Ret h);
      if bool_decide (state h = STOPPED) && negb (bool_decide (state h' = READY))
      then Ret (inr (host_id h' ++ ": start completed in state " ++ state_value (state h'))%string)
      else
        evidence ← invoke (Readiness (provider_id h') (wk_workspace w) (wk_revision w) (wk_harness w));
        if host_ready evidence then Ret (inl h')
        else Ret (inr (host_id h' ++ ": " ++ (if nonempty (ready_detail evidence) then ready_detail evidence else "readiness checks failed"))%string)).

(** Ask the host for admission and judge its answer at the time of the claim. *)
Definition admit_host (p : PoolDeclaration) (i : ProviderInfo) (w : Work) (h : HostFacts) : M ((option HostAdmission * Z) + string) :=
  match wk_requirements w with
  | None => now ← do_ Now; Ret (inl (None, now))
  | Some r =>
      if negb (has_admit i) then Ret (inr (host_id h ++ ": provider does not support host-local admission")%string)
      else
        acquisition ← do_ Uuid;
        a ← on_admission_reply p h (invoke (Admit (provider_id h) r acquisition));
        now ← do_ Now;
        let reason := admission_rejection repr a r now in
        if nonempty reason then
          reason ← (if eligible a && nonempty (lease_id a) then
                      x ← try_ (invoke (ReleaseAdmission (provider_id h) (lease_id a)));
                      match x with
                      | Ok _ => Ret reason
                      | Err e => match provider_error e with
                                 | Some t => Ret (reason ++ "; admission lease release failed: " ++ t)%string
                                 | None => Throw e
                                 end
                      end
                    else Ret reason);
          Ret (inr (host_id h ++ ": " ++ reason)%string)
        else Ret (inl (Some a, now))
  end.

(** The loop over the candidates. *)
Fixpoint try_candidates (p : PoolDeclaration) (i : ProviderInfo) (w : Work) (scan_time : Z) (ls : gmap string Lease)
    (candidates : list HostFacts) (failures : list string) : M HostFacts :=
  match candidates with
  | [] => environment_stop p (match failures with [] => "no ready host is available" | _ => join "; " failures end)
  | h :: rest =>
      let acquired := match ls !! provider_id h with Some l => acquired_at l | None => scan_time end in
      r ← make_ready p i w h;
      match r with
      | inr why => try_candidates p i w scan_time ls rest (failures ++ [why])
      | inl h =>
          m ← admit_host p i w h;
          match m with
          | inr why => try_candidates p i w scan_time ls rest (failures ++ [why])
          | inl (a, now) =>
              won ← do_ (Locked (claim_in p (provider_id h) w a acquired now));
              if won : bool then Ret h
              else
                _ ← match a with
                    | Some x => if nonempty (lease_id x)
                                then on_provider_error p (fun t => host_id h ++ ": admission lease release failed: " ++ t)%string
                                       (invoke (ReleaseAdmission (provider_id h) (lease_id x)))
                                else Ret tt
                    | None => Ret tt
                    end;
                try_candidates p i w scan_time ls rest failures
          end
      end
  end.

(** [acquire_ready] *)
Definition acquire_ready (p : PoolDeclaration) (w : Work) : M HostFacts :=
  _ ← match wk_requirements w with
      | Some r => match validate_requirements r with Ok _ => Ret tt | Err e => Throw (Raised e) end
      | None => Ret tt
      end;
  checked ← on_provider_error p (fun t => t) (reconcile p None);
  data ← read_state;
  i ← provider_of p;
  _ ← guard_ (negb (has_readiness i)) (EnvironmentStop ("provider " ++ repr (prov_name i) ++ " does not support readiness"));
  scan_time ← do_ Now;
  x ← foldP (scan_host p scan_time) checked (leases data, []);
  try_candidates p i w scan_time x.1 x.2 [].

(** ** A lease in use *)

(** The text of an exception the methods below catch with the provider's: [ValueError] and [TypeError]. *)
Definition value_or_type_error (e : herr) : option string :=
  match e with Raised (ValueError m) => Some m | Raised TypeError => Some "" | _ => None end.
Definition not_recorded {A} : M A := Throw (EnvironmentStop "host admission lease is not recorded").

(** The host's answer is good for lease [id]; [""] when there is nothing to object. *)
Definition lease_rejection (a : HostAdmission) (r : HostRequirements) (id : string) (now : Z) : string :=
  if negb (bool_decide (lease_id a = id)) then "host admission lease identity changed" else admission_rejection repr a r now.

(** Record the host's answer, if the lease is still the one it is about. *)
Definition refresh_in (id lease : string) (r : HostRequirements) (a : HostAdmission) (activate : bool) (e : Env) (s : Store) : bool * Store :=
  match leases s !! id with
  | Some l =>
      if bool_decide (admitted_id (Some l) = lease) && bool_decide (requirements l = Some r)
      then (true, set_leases (<[id := with_admission a (if activate then Some (clock e) else activated_at l) l]> (leases s)) s)
      else (false, s)
  | None => (false, s)
  end.

(** [renew_admission] *)
Definition renew_admission (p : PoolDeclaration) (id : string) : M HostAdmission :=
  l ← lookup_lease id;
  match l with
  | Some l =>
      let lease := admitted_id (Some l) in
      match requirements l with
      | Some r =>
          if negb (nonempty lease) then not_recorded
          else
            _ ← match validate_requirements r with
                | Ok _ => Ret tt
                | Err e => Throw (EnvironmentStop ("host admission requirements are invalid: " ++ default "" (value_or_type_error (Raised e))))
                end;
            _ ← provider_of p;
            a ← on_provider_error p (fun t => "host admission lease lost: " ++ t)%string (invoke (Renew id lease));
            now ← do_ Now;
            let rejection := lease_rejection a r lease now in
            if nonempty rejection then environment_stop p ("host admission lease lost: " ++ rejection)%string
            else
              kept ← do_ (Locked (refresh_in id lease r a false));
              if kept : bool then Ret a else environment_stop p "host admission lease lost: recorded lease or requirements changed"
      | None => not_recorded
      end
  | None => not_recorded
  end.

(** [activate_admission] *)
Definition activate_admission (p : PoolDeclaration) (id : string) : M HostAdmission :=
  l ← lookup_lease id;
  match l with
  | Some l =>
      match admission l, requirements l with
      | Some _, Some r =>
          let lease := admitted_id (Some l) in
          x ← try_ (_ ← match validate_requirements r with Ok _ => Ret tt | Err e => Throw (Raised e) end;
                    _ ← provider_of p;
                    invoke (Activate id lease r));
          match x with
          | Err e =>
              match provider_error e, value_or_type_error e with
              | Some t, _ | None, Some t => environment_stop p ("host admission activation failed: " ++ t)%string
              | None, None => Throw e
              end
          | Ok a =>
              now ← do_ Now;
              let rejection := lease_rejection a r lease now in
              if nonempty rejection then environment_stop p ("host admission activation failed: " ++ rejection)%string
              else
                kept ← do_ (Locked (refresh_in id lease r a true));
                if kept : bool then Ret a else environment_stop p "host admission activation failed: recorded lease or requirements changed"
          end
      | _, _ => not_recorded
      end
  | None => not_recorded
  end.

(** [launch_admitted] *)
Definition launch_admitted {A} (p : PoolDeclaration) (id : string) (launch : HostAdmission -> M A) : M A :=
  a ← activate_admission p id; launch a.

(** [orphaned] *)
Definition orphaned : M (list string) :=
  do_ (Locked (fun e s =>
    (sorted_str (map fst (List.filter (fun kl => negb (released kl.2) && nonempty (run_id kl.2) && terminal e (run_id kl.2)) (map_to_list (leases s)))), s))).
End leases.
