(* ===== verification/HostLocks.v ===== *)
(** * The lease of a host is a lock ([garden/hosts/core.py])

    What the methods of [HostLeases] guarantee together.  Controllers are threads that run the methods
    of the lifecycle one command at a time: each [Locked] section is atomic, anything may happen between
    two commands, a reply of a provider is arbitrary, and a thread may stop for ever anywhere.
    [leases_refine_lock]: however they interleave, the recorded lease of every host changes only as a lock
    with expiring reservations and compare-and-set commands allows (except that [attach_run] compares
    nothing).  The other theorems are about a method on its own: what
    [acquire_ready] has verified of the host it returns, when [release] lets go of an admission, and
    exactly which admissions are accepted. *)

From S2P Require Import Prelude PyValue Requirements Workers Effects Hosts HostLeases.

#[local] Open Scope list_scope.
#[local] Open Scope Z_scope.

(** ** The lock *)

Inductive LockState := Free | Reserved (until : Z) | Owned (run : string).
Definition lock_state (l : option Lease) : LockState :=
  match l with
  | None => Free
  | Some l => if nonempty (run_id l) then Owned (run_id l) else if released l then Free else Reserved (reserved_until l)
  end.

Inductive Action := Keep | Claim (w : Work) | Attach (run : string) | Cancel | Release | Refresh.

(** A lock can be claimed once its reservation has expired or its run has ended. *)
Definition claimable (e : Env) (a : LockState) : Prop :=
  match a with Free => True | Reserved u => u <= clock e | Owned run => terminal e run = true end.

(** The call has read [o] as the lease of the host, in a locked section of its own. *)
Definition was_read (tr : list (event hcmd)) (id : string) (o : option Lease) : Prop :=
  exists s, Ev (Locked (fun _ s => (s, s))) s ∈ tr /\ leases s !! id = o.
(** The host has answered [a] when asked to renew, or to activate, the admission [lease]. *)
Definition confirmed (tr : list (event hcmd)) (id lease : string) (r : HostRequirements) (a : HostAdmission) (activate : bool) : Prop :=
  lease_id a = lease /\ Ev (if activate then Activate id lease r else Renew id lease) (Ok a) ∈ tr.
(** No admission that is in use: one that has been activated, or whose lease has a run. *)
Definition unused (o : option Lease) : Prop :=
  match o with Some l => admitted_id o <> "" -> activated l = false /\ run_id l = "" | None => True end.

(** What a step of a call that has seen [tr] may do to the recorded lease of host [id].  A claim needs a
    claimable lock and replaces the whole lease; a cancellation and a release act on the very lease that the
    call read before, and a refresh on the lease whose admission and requirements the host confirmed;
    only [Attach] takes the lease that it finds, whichever it is. *)
Inductive lock_step (L : Lifecycle) (tr : list (event hcmd)) (id : string) (e : Env) : Action -> option Lease -> option Lease -> Prop :=
| step_keep l : lock_step L tr id e Keep l l
| step_claim w l a acquired now : claimable e (lock_state l) -> now <= clock e -> (forall x, l = Some x -> acquired = acquired_at x) ->
    lock_step L tr id e (Claim w) l (Some (new_lease L w a acquired now))
| step_attach run l : run <> "" -> lock_step L tr id e (Attach run) (Some l) (Some (with_run run l))
| step_cancel o : was_read tr id o -> unused o -> lock_step L tr id e Cancel o None
| step_release l : was_read tr id (Some l) -> lock_step L tr id e Release (Some l) (Some (with_release (clock e) l))
| step_refresh l r a activate : requirements l = Some r -> confirmed tr id (admitted_id (Some l)) r a activate ->
    lock_step L tr id e Refresh (Some l) (Some (with_admission a (if activate then Some (clock e) else activated_at l) l)).

(** ** Controllers *)

Inductive Call :=
| Acquire (p : PoolDeclaration) (w : Work)
| AttachRun (id run : string)
| ReleaseHost (p : PoolDeclaration) (id : string)
| CancelAcquisition (id : string) (p : option PoolDeclaration)
| RenewAdmission (p : PoolDeclaration) (id : string)
| ActivateAdmission (p : PoolDeclaration) (id : string)
| Reconcile (p : PoolDeclaration) (eligible : option (list Z))
| Drain (p : PoolDeclaration) (deadline text : string) (slots : option (list Z))
| ForceRetire (p : PoolDeclaration) (text : string)
| DestroyHost (p : PoolDeclaration) (id : string) (delete : bool)
| Orphaned.

(** What a call may do to the lease of a host. *)
Definition permits (c : Call) (id : string) (a : Action) : Prop :=
  match a with
  | Keep => True
  | Claim w => match c with Acquire _ w' => w' = w | _ => False end
  | Attach run => match c with AttachRun id' run' => id' = id /\ run' = run | _ => False end
  | Cancel => match c with Acquire _ _ => True | CancelAcquisition id' _ => id' = id | _ => False end
  | Release => match c with ReleaseHost _ id' | CancelAcquisition id' _ => id' = id | _ => False end
  | Refresh => match c with RenewAdmission _ id' | ActivateAdmission _ id' => id' = id | _ => False end
  end.
(** Runs have names. *)
Definition well_named (c : Call) : Prop := match c with AttachRun _ run => run <> "" | _ => True end.

Section locks.
Context (digest repr : string -> string) (notice_deadline : HostFacts -> Z -> string) (L : Lifecycle).

Definition done {A} (m : M A) : M unit := _ ← m; Ret tt.
Definition body (c : Call) : M unit :=
  match c with
  | Acquire p w => done (acquire_ready digest repr notice_deadline L p w)
  | AttachRun id run => attach_run repr id run
  | ReleaseHost p id => done (release digest repr L p id)
  | CancelAcquisition id p => cancel_acquisition digest repr L id p
  | RenewAdmission p id => done (renew_admission digest repr L p id)
  | ActivateAdmission p id => done (activate_admission digest repr L p id)
  | Reconcile p e => done (reconcile digest repr notice_deadline L p e)
  | Drain p d t s => done (drain digest repr L p d t s)
  | ForceRetire p t => done (force_retire digest repr L p t)
  | DestroyHost p id del => done (destroy digest repr L p id del)
  | Orphaned => done orphaned
  end.

Record Thread := { call : Call; rest : M unit; seen : list (event hcmd) }.
Record World := { env : Env; shared : Store; threads : list Thread }.

(** The reply [r] of a command in a world, and the store after it. *)
Definition answers (e : Env) (s : Store) {R} (c : hcmd R) (r : R) (s' : Store) : Prop :=
  match c in hcmd R return R -> Prop with
  | Locked f => fun r => f e s = (r, s')
  | Now => fun r => r = clock e /\ s' = s
  | Terminal run => fun r => r = terminal e run /\ s' = s
  | _ => fun _ => s' = s
  end r.

(** A step of the thread that runs [call] and has seen [tr]. *)
Inductive thread_step (w : World) : Call -> list (event hcmd) -> World -> Prop :=
| thread_act i c R (d : hcmd R) k tr r s' :
    threads w !! i = Some {| call := c; rest := Do d k; seen := tr |} ->
    answers (env w) (shared w) d r s' ->
    thread_step w c tr {| env := env w; shared := s'; threads := <[i := {| call := c; rest := k r; seen := tr ++ [Ev d r] |}]> (threads w) |}.

(** Calls begin, time passes and runs end, threads act. *)
Inductive world_step (w : World) : World -> Prop :=
| world_call c : well_named c -> world_step w {| env := env w; shared := shared w; threads := threads w ++ [{| call := c; rest := body c; seen := [] |}] |}
| world_time e : clock (env w) <= clock e -> world_step w {| env := e; shared := shared w; threads := threads w |}
| world_act c tr w' : thread_step w c tr w' -> world_step w w'.

(** Worlds reached from one in which no call is under way. *)
Definition reachable (w : World) : Prop := exists w0, threads w0 = [] /\ rtc world_step w0 w.
End locks.

(** ** Methods that leave the leases and the admissions alone *)

(** The clock readings of a trace are in the past. *)
Definition past (e : Env) (tr : list (event hcmd)) : Prop := forall n, Ev Now n ∈ tr -> n <= clock e.
Definition obeys (L : Lifecycle) (c : Call) (tr : list (event hcmd)) {R} (d : hcmd R) : Prop :=
  match d with
  | Locked f => forall e s id, past e tr -> exists a, permits c id a /\ lock_step L tr id e a (leases s !! id) (leases (f e s).2 !! id)
  | _ => True
  end.
Definition obedient (L : Lifecycle) (c : Call) (tr : list (event hcmd)) (x : event hcmd) : Prop := match x with Ev d _ => obeys L c tr d end.

(** Commands that neither change a lease nor give an admission back. *)
Definition quiet_command {R} (d : hcmd R) : Prop :=
  match d with Locked f => forall e s, leases (f e s).2 = leases s | ReleaseAdmission _ _ => False | _ => True end.
Definition quiet {A} : M A -> Prop := only (@quiet_command).

Lemma quiet_bind {A B} (m : M A) (f : A -> M B) : quiet m -> (forall a, quiet (f a)) -> quiet (m ≫= f).
Proof. apply only_bind. Qed.
Lemma quiet_fold {S A} (f : S -> A -> M S) l s : (forall s x, quiet (f s x)) -> quiet (foldP f l s).
Proof. apply only_fold. Qed.
Lemma quiet_try {A} (m : M A) : quiet m -> quiet (try_ m).
Proof. apply only_try. Qed.

Create HintDb quiet.
(** Peel a method that leaves the leases alone. *)
Ltac quiet :=
  repeat match goal with
    | |- quiet (Ret _) => exact I
    | |- quiet (Throw _) => exact I
    | |- quiet (let _ := _ in _) => cbv zeta
    | |- quiet (value_error _) => exact I
    | |- quiet (do_ (Locked _)) => apply only_do; intros ? ?; reflexivity
    | |- quiet (do_ _) => apply only_do; exact I
    | |- quiet (invoke _) => apply only_invoke; exact I
    | |- quiet (locked_write _) => apply only_do; intros ? ?; reflexivity
    | |- quiet (guard_ ?b _) => destruct b; exact I
    | |- quiet (foldP _ _ _) => apply quiet_fold; intros ? ?
    | |- quiet (try_ _) => apply quiet_try
    | |- quiet (_ ≫= _) => apply quiet_bind; [|intros ?]
    | |- quiet (if ?b then _ else _) => destruct b
    | |- quiet (match ?x with _ => _ end) => destruct x
    | |- _ => solve [auto with quiet]
    end.

Section quiet_methods.
Context (digest repr : string -> string) (notice_deadline : HostFacts -> Z -> string) (L : Lifecycle).

Lemma quiet_read : quiet read_state.
Proof. unfold read_state. quiet. Qed.
#[local] Hint Resolve quiet_read : quiet.
Lemma quiet_validated p : quiet (validated p).
Proof. unfold validated. quiet. Qed.
Lemma quiet_operation p s : quiet (operation_id_of digest L p s).
Proof. unfold operation_id_of. quiet. Qed.
Lemma quiet_slot p h : quiet (host_slot repr p h).
Proof. unfold host_slot. quiet. Qed.
Lemma quiet_discover p : quiet (discover p).
Proof. unfold discover. quiet. Qed.
#[local] Hint Resolve quiet_validated quiet_operation quiet_slot quiet_discover : quiet.
Lemma quiet_declaration p s : quiet (declaration digest L p s).
Proof. unfold declaration. quiet. Qed.
Lemma quiet_advance p h : quiet (advance_replacement repr p h).
Proof. unfold advance_replacement. quiet. Qed.
Lemma quiet_current p h : quiet (is_current_generation digest repr L p h).
Proof. unfold is_current_generation. quiet. Qed.
#[local] Hint Resolve quiet_declaration quiet_advance quiet_current : quiet.
Lemma quiet_provider p : quiet (provider_of digest repr L p).
Proof. unfold provider_of. quiet. Qed.
Lemma quiet_sorted p : quiet (discover_sorted p).
Proof. unfold discover_sorted. quiet. Qed.
#[local] Hint Resolve quiet_provider quiet_sorted : quiet.
Lemma quiet_missing p l : quiet (advance_missing digest repr L p l).
Proof. unfold advance_missing. quiet. Qed.
Lemma quiet_current_hosts p l : quiet (current_hosts digest repr L p l).
Proof. induction l as [|h l IH]; cbn [current_hosts]; quiet. Qed.
Lemma quiet_available fuel p hosts need slot : quiet (available_from digest L fuel p hosts need slot).
Proof. revert need slot. induction fuel as [|fuel IH]; intros need slot; destruct need as [|need]; cbn [available_from]; quiet. Qed.
Lemma quiet_slots p hosts : quiet (available_slots digest L p hosts).
Proof. apply quiet_available. Qed.
Lemma quiet_plan p : quiet (plan digest repr L p).
Proof. unfold plan. quiet. Qed.
Lemma quiet_record p hosts evs pl : quiet (record p hosts evs pl).
Proof. unfold record. quiet. Qed.
Lemma quiet_clear op : quiet (clear_drain L op).
Proof. unfold clear_drain. quiet. Qed.
#[local] Hint Resolve quiet_missing quiet_current_hosts quiet_slots quiet_plan quiet_record quiet_clear : quiet.
Lemma quiet_attempts n k d : quiet (provision_attempts n k d).
Proof. revert k. induction n as [|n IH]; intros k; cbn [provision_attempts]; quiet. Qed.
#[local] Hint Resolve quiet_attempts : quiet.
Lemma quiet_provision p slot : quiet (provision digest repr L p slot).
Proof. unfold provision. quiet. Qed.
Lemma quiet_retire p slot h : quiet (retire_host digest L p slot h).
Proof. unfold retire_host. quiet. Qed.
#[local] Hint Resolve quiet_provision quiet_retire : quiet.
Lemma quiet_stale p x h : quiet (retire_stale digest repr L p x h).
Proof. unfold retire_stale. quiet. Qed.
Lemma quiet_interrupted p i x h : quiet (handle_interrupted digest repr notice_deadline L p i x h).
Proof. unfold handle_interrupted. quiet. Qed.
Lemma quiet_fill p x slot : quiet (fill_slot digest repr L p x slot).
Proof. unfold fill_slot. quiet. Qed.
Lemma quiet_excess p x h : quiet (retire_excess digest L p x h).
Proof. unfold retire_excess. quiet. Qed.
Lemma quiet_check p x h : quiet (check_host digest L p x h).
Proof. unfold check_host. quiet. Qed.
#[local] Hint Resolve quiet_stale quiet_interrupted quiet_fill quiet_excess quiet_check : quiet.
Lemma quiet_reconcile p e : quiet (reconcile digest repr notice_deadline L p e).
Proof. unfold reconcile. quiet. Qed.
Lemma quiet_inspect p : quiet (inspect digest repr L p).
Proof. unfold inspect. quiet. Qed.
#[local] Hint Resolve quiet_inspect : quiet.
Lemma quiet_drain p d t s : quiet (drain digest repr L p d t s).
Proof. unfold drain, drain_one. quiet. Qed.
Lemma quiet_force p t : quiet (force_retire digest repr L p t).
Proof. unfold force_retire, force_one. quiet. Qed.
Lemma quiet_owned p id : quiet (owned digest repr L p id).
Proof. unfold owned. quiet. Qed.
#[local] Hint Resolve quiet_owned : quiet.
Lemma quiet_stop p id : quiet (stop digest repr L p id).
Proof. unfold stop. quiet. Qed.
Lemma quiet_destroy p id del : quiet (destroy digest repr L p id del).
Proof. unfold destroy. quiet. Qed.
Lemma quiet_lookup id : quiet (lookup_lease id).
Proof. unfold lookup_lease. quiet. Qed.
Lemma quiet_environment_stop {A} p d : quiet (@environment_stop A p d).
Proof. unfold environment_stop, record_stop. quiet. Qed.
#[local] Hint Resolve quiet_reconcile quiet_stop quiet_destroy quiet_lookup quiet_environment_stop : quiet.
Lemma quiet_on_error {A} p t (m : M A) : quiet m -> quiet (on_provider_error p t m).
Proof. intros Hm. unfold on_provider_error. quiet. Qed.
Lemma quiet_orphaned : quiet orphaned.
Proof. unfold orphaned. quiet. Qed.
Lemma quiet_ready p i w h : quiet (make_ready p i w h).
Proof. unfold make_ready. apply quiet_on_error. quiet. Qed.
End quiet_methods.
#[export] Hint Resolve quiet_read quiet_provider quiet_stop quiet_destroy quiet_owned quiet_lookup quiet_environment_stop quiet_on_error
  quiet_reconcile quiet_drain quiet_force quiet_orphaned quiet_ready : quiet.

(** ** Every method obeys the lock *)

Section obedience.
Context (digest repr : string -> string) (notice_deadline : HostFacts -> Z -> string) (L : Lifecycle) (c : Call).
#[local] Abbreviation ok := (obedient L c).

Definition fine {A} (m : M A) (tr : list (event hcmd)) : Prop := safe ok m tr (fun _ _ => True).

Lemma fine_safe {A} (m : M A) tr Q : safe ok m tr Q -> fine m tr.
Proof. by apply safe_mono. Qed.
Lemma fine_bind {A B} (m : M A) (f : A -> M B) tr : fine m tr -> (forall a t, fine (f a) (tr ++ t)) -> fine (m ≫= f) tr.
Proof.
  intros Hm Hf. apply safe_bind. eapply safe_mono; [|apply safe_extends, Hm].
  intros [a|e] tr'; [|done]. intros [_ [t ->]]. apply Hf.
Qed.
Lemma fine_quiet {A} (m : M A) tr : quiet m -> fine m tr.
Proof.
  intros Hm. eapply fine_safe, only_safe, Hm. intros tr' R d r Hd. destruct d; cbn; try exact I.
  intros e s id _. exists Keep. rewrite Hd. split; [done|constructor].
Qed.
Lemma fine_try {A} (m : M A) tr : fine m tr -> fine (try_ m) tr.
Proof. intros Hm. apply safe_try. exact Hm. Qed.
Lemma fine_give_back id lease tr : fine (invoke (ReleaseAdmission id lease)) tr.
Proof. intros r. split; [done|]. by destruct r. Qed.
Lemma fine_done {A} (m : M A) tr : fine m tr -> fine (done m) tr.
Proof. intros Hm. by apply fine_bind. Qed.
Lemma fine_fold {S A} (f : S -> A -> M S) l s tr : (forall s x tr, fine (f s x) tr) -> fine (foldP f l s) tr.
Proof.
  intros Hf. revert s tr. induction l as [|x l IH]; intros s tr; cbn [foldP]; [done|]. apply fine_bind; [apply Hf|]. auto.
Qed.
Lemma fine_on_error {A} p t (m : M A) tr : fine m tr -> fine (on_provider_error p t m) tr.
Proof.
  intros Hm. apply fine_bind; [by apply fine_try|]. intros [a|e] t'; [done|]. destruct (provider_error e); [|done].
  apply fine_quiet, quiet_environment_stop.
Qed.
Lemma fine_locked {A} (f : Env -> Store -> A * Store) tr :
  (forall e s id, past e tr -> exists a, permits c id a /\ lock_step L tr id e a (leases s !! id) (leases (f e s).2 !! id)) ->
  fine (do_ (Locked f)) tr.
Proof. intros Hf r. by split. Qed.

(** A section that touches the lease of one host. *)
Lemma fine_locked_at {A} (f : Env -> Store -> A * Store) host tr :
  (forall e s id, id <> host -> leases (f e s).2 !! id = leases s !! id) ->
  (forall e s, past e tr -> exists a, permits c host a /\ lock_step L tr host e a (leases s !! host) (leases (f e s).2 !! host)) ->
  fine (do_ (Locked f)) tr.
Proof.
  intros Hne Heq. apply fine_locked. intros e s id Hp. destruct (decide (id = host)) as [->|Hid]; [by apply Heq|].
  exists Keep. rewrite Hne by done. split; [done|constructor].
Qed.

(** Peel a method: quiet parts first, then the structure. *)
Ltac fine :=
  repeat match goal with
    | |- fine (let _ := _ in _) _ => cbv zeta
    | |- fine (Ret _) _ => exact I
    | |- fine (Throw _) _ => exact I
    | |- fine (_ ≫= _) _ => apply fine_bind; [|intros ? ?]
    | |- fine (on_provider_error _ _ _) _ => apply fine_on_error
    | |- fine (try_ _) _ => apply fine_try
    | |- fine (invoke (ReleaseAdmission _ _)) _ => apply fine_give_back
    | |- fine _ _ => solve [apply fine_quiet; quiet]
    | |- fine (if ?b then _ else _) _ => destruct b
    | |- fine (match ?x with _ => _ end) _ => destruct x
    end.


Lemma kept_as_is l tr id e : exists a, permits c id a /\ lock_step L tr id e a l l.
Proof. exists Keep. split; [exact I|constructor]. Qed.
Lemma was_read_app tr t id o : was_read tr id o -> was_read (tr ++ t) id o.
Proof. intros (s & Hin & Hs). exists s. split; [|done]. apply elem_of_app. by left. Qed.
Lemma confirmed_app tr t id lease r a act : confirmed tr id lease r a act -> confirmed (tr ++ t) id lease r a act.
Proof. intros [Hl Hin]. split; [done|]. apply elem_of_app. by left. Qed.
#[local] Hint Resolve was_read_app confirmed_app : core.

(** What a call reads of a lease. *)
Lemma fine_lookup {A} id (f : option Lease -> M A) tr : (forall o t, was_read (tr ++ t) id o -> fine (f o) (tr ++ t)) -> fine (lookup_lease id ≫= f) tr.
Proof.
  intros Hf. unfold lookup_lease, read_state. intros s. split.
  - intros e s' id' _. exists Keep. split; [done|constructor].
  - apply Hf. exists s. split; [|done]. apply elem_of_app. right. by left.
Qed.
(** What the host answers. *)
Definition answered {A} (d : hcmd (result herr A)) (r : result herr A) (tr : list (event hcmd)) : Prop :=
  match r with Ok a => Ev d (Ok a) ∈ tr | Err _ => True end.
Lemma safe_asked {A} (d : hcmd (result herr A)) (m : M A) tr :
  m = invoke d -> quiet_command d -> safe ok m tr (answered d).
Proof.
  intros -> Hd. apply safe_invoke. intros r. split.
  - destruct d; try done. cbn. intros e s id _. cbn in Hd. rewrite Hd. apply kept_as_is.
  - destruct r as [a|x]; [|done]. apply elem_of_app. right. by left.
Qed.

Lemma fine_cancel_in host original tr : permits c host Cancel -> was_read tr host original -> unused original -> fine (do_ (Locked (cancel_in host original))) tr.
Proof.
  intros Hc Hread Hu. apply (fine_locked_at _ host); unfold cancel_in; intros e s.
  - intros id Hid. case_bool_decide; [|done]. cbn. by rewrite lookup_delete_ne.
  - intros _. case_bool_decide as E; [exists Cancel; split; [done|]|apply kept_as_is]. cbn. rewrite lookup_delete_eq, E. by constructor.
Qed.
Lemma fine_release_in host original tr : permits c host Release -> was_read tr host original -> fine (do_ (Locked (release_in host original))) tr.
Proof.
  intros Hc Hread. apply (fine_locked_at _ host); unfold release_in; intros e s.
  - intros id Hid. destruct (leases s !! host) as [l|], original as [o|]; try done. case_bool_decide; [|done]. cbn. by rewrite lookup_insert_ne.
  - intros _. destruct (leases s !! host) as [l|] eqn:Hl, original as [o|]; cbn [snd]; rewrite ?Hl; try apply kept_as_is.
    case_bool_decide as E; cbn [snd]; rewrite ?Hl; [|apply kept_as_is]. cbn [leases set_leases]. rewrite lookup_insert_eq. subst o.
    exists Release. split; [done|by constructor].
Qed.
Lemma fine_refresh_in host lease r a act tr :
  permits c host Refresh -> confirmed tr host lease r a act -> fine (do_ (Locked (refresh_in host lease r a act))) tr.
Proof.
  intros Hc Hok. apply (fine_locked_at _ host); unfold refresh_in; intros e s.
  - intros id Hid. destruct (leases s !! host) as [l|]; [|done]. destruct (_ && _); [|done]. cbn. by rewrite lookup_insert_ne.
  - intros _. destruct (leases s !! host) as [l|] eqn:Hl; [|cbn; rewrite Hl; apply kept_as_is].
    destruct (_ && _) eqn:E; cbn [snd]; [|rewrite Hl; apply kept_as_is]. cbn [leases set_leases]. rewrite lookup_insert_eq.
    apply andb_true_iff in E as [E1%bool_decide_eq_true E2%bool_decide_eq_true]. exists Refresh. split; [done|]. apply (step_refresh _ _ _ _ _ r); [done|]. by rewrite E1.
Qed.
Lemma fine_attach host run tr : run <> "" -> permits c host (Attach run) -> fine (attach_run repr host run) tr.
Proof.
  intros Hr Hc. apply fine_bind; [|by intros [] ?]. apply (fine_locked_at _ host); unfold attach_in; intros e s.
  - intros id Hid. destruct (leases s !! host) as [l|]; [|done]. cbn. by rewrite lookup_insert_ne.
  - intros _. destruct (leases s !! host) as [l|] eqn:Hl; cbn [snd]; [|rewrite Hl; apply kept_as_is].
    exists (Attach run). split; [done|]. cbn. rewrite lookup_insert_eq. by constructor.
Qed.

(** The claim: the reservation or the run found there has ended. *)
Lemma fine_claim_in p host w a acquired now tr :
  permits c host (Claim w) -> Ev Now now ∈ tr -> fine (do_ (Locked (claim_in L p host w a acquired now))) tr.
Proof.
  intros Hc Hnow. apply (fine_locked_at _ host); unfold claim_in; intros e s.
  - intros id Hid. destruct (match leases s !! host with Some l => _ | None => _ end); [done|]. cbn. by rewrite lookup_insert_ne.
  - intros Hp. destruct (match leases s !! host with Some l => _ | None => _ end) eqn:Htaken; cbn [snd].
    { apply kept_as_is. }
    exists (Claim w). split; [done|]. cbn [leases set_stops set_leases]. rewrite lookup_insert_eq.
    constructor; [|by apply Hp|by intros x ->]. destruct (leases s !! host) as [l|]; [|done]. apply orb_false_iff in Htaken as [Hres Hrun].
    unfold reserved, running in *. cbn. destruct (nonempty (run_id l)); [by apply negb_false_iff in Hrun|].
    destruct (released l); [done|]. cbn in *. specialize (Hp now Hnow). lia.
Qed.

Lemma release_fine p id tr : permits c id Release -> fine (release digest repr L p id) tr.
Proof.
  intros Hc. unfold release. apply fine_lookup. intros o t Ho. fine. apply fine_release_in; auto 10.
Qed.
Lemma cancel_fine id p tr : permits c id Cancel -> (p <> None -> permits c id Release) -> fine (cancel_acquisition digest repr L id p) tr.
Proof.
  intros Hc Hr. unfold cancel_acquisition. apply fine_lookup. intros o t Ho. cbv zeta. destruct (nonempty _ && _) eqn:E.
  - destruct p as [p|]; [|by apply fine_quiet; quiet]. apply fine_bind; [by apply release_fine, Hr|]. intros; exact I.
  - assert (Hu : unused o).
    { destruct o as [l|]; [|done]. intros Had. apply andb_false_iff in E as [E|[E1 E2]%orb_false_iff].
      - by destruct (admitted_id (Some l)).
      - split; [done|]. by destruct (run_id l). }
    fine. all: apply fine_cancel_in; auto 10.
Qed.
Lemma lease_accepted a r lease now : nonempty (lease_rejection repr a r lease now) = false -> lease_id a = lease.
Proof. unfold lease_rejection. by case_bool_decide. Qed.
Lemma safe_after {A B} (m : M A) (f : A -> M B) tr Q :
  quiet m -> (forall a t, safe ok (f a) (tr ++ t) Q) -> (forall e tr', Q (Err e) tr') -> safe ok (m ≫= f) tr Q.
Proof.
  intros Hm Hf He. apply safe_bind. eapply safe_mono; [|apply safe_extends, (fine_quiet m tr Hm)].
  intros [a|e] tr' [_ [t ->]]; [apply Hf|apply He].
Qed.
Lemma stop_fails {A} p d tr : safe ok (@environment_stop A p d) tr (fun r _ => exists e, r = Err e).
Proof. apply safe_after; [unfold record_stop; quiet| |eauto]. intros a t. by eexists. Qed.
Lemma fine_asked {A B} p g (d : hcmd (result herr A)) (f : A -> M B) tr :
  quiet_command d -> (forall a t, Ev d (Ok a) ∈ tr ++ t -> fine (f a) (tr ++ t)) -> fine (on_provider_error p g (invoke d) ≫= f) tr.
Proof.
  intros Hd Hf. apply safe_bind. unfold on_provider_error. apply safe_bind.
  eapply safe_mono; [|apply safe_extends, (safe_try _ _ _ (fun r tr' => match r with Ok r' => answered d r' tr' | Err _ => True end)), (safe_asked d (invoke d)); done].
  intros [[a|e]|e] tr' [Hin [t ->]]; cbn [then_]; [exact (Hf a t Hin)| |exact I].
  destruct (provider_error e) as [x|]; [|exact I]. eapply safe_mono; [|apply stop_fails]. intros y tr2 [e' ->]. exact I.
Qed.
(** The last step of both: the answer is recorded when it is good. *)
Lemma fine_record id r a lease (act : bool) p why kept tr :
  permits c id Refresh -> Ev (if act then Activate id lease r else Renew id lease) (Ok a) ∈ tr ->
  fine (now ← do_ Now;
        let rejection := lease_rejection repr a r lease now in
        if nonempty rejection then environment_stop p (why rejection)
        else (ok ← do_ (Locked (refresh_in id lease r a act)); if ok : bool then Ret a else environment_stop p kept)) tr.
Proof.
  intros Hc Hin. apply fine_bind; [by apply fine_quiet; quiet|]. intros now t. cbv zeta. destruct (nonempty _) eqn:E; [by apply fine_quiet; quiet|].
  apply fine_bind; [|intros [] ?; by apply fine_quiet; quiet]. apply fine_refresh_in; [done|]. apply confirmed_app. split; [by eapply lease_accepted|done].
Qed.
Lemma renew_fine p id tr : permits c id Refresh -> fine (renew_admission digest repr L p id) tr.
Proof.
  intros Hc. unfold renew_admission, not_recorded. apply fine_lookup. intros [l|] t _; [|exact I]. cbv zeta. destruct (requirements l) as [r|]; [|exact I].
  destruct (negb _); [exact I|]. apply fine_bind; [destruct (validate_requirements r); exact I|]. intros _ t1. apply fine_bind; [fine|]. intros _ t2.
  apply fine_asked; [done|]. intros a t3 Hin. by apply (fine_record id r a _ false).
Qed.
Lemma activate_fine p id tr : permits c id Refresh -> fine (activate_admission digest repr L p id) tr.
Proof.
  intros Hc. unfold activate_admission, not_recorded. apply fine_lookup. intros [l|] t _; [|exact I]. destruct (admission l) as [ad|]; [|exact I].
  destruct (requirements l) as [r|]; [|exact I]. cbv zeta. apply safe_bind. set (d := Activate id (admitted_id (Some l)) r).
  eapply safe_mono; [|apply safe_extends, (safe_try _ _ _ (fun r tr' => match r with Ok r' => answered d r' tr' | Err _ => True end)), (safe_after _ _ _ (answered d))].
  - intros [[a|e]|e] tr1 [Hin [t1 ->]]; cbn [then_]; [by apply (fine_record id r a _ true)| |exact I].
    apply fine_quiet. quiet.
  - destruct (validate_requirements r); quiet.
  - intros _ t1. apply safe_after; [quiet| |done]. intros _ t2. by apply safe_asked.
  - done.
Qed.
Lemma scan_fine p now x h tr : (forall id, permits c id Cancel) -> fine (scan_host digest repr L p now x h) tr.
Proof. intros Hc. unfold scan_host. destruct x as [ls cs]. fine. by apply cancel_fine. Qed.

(** The time of a claim is a clock reading. *)
Lemma admit_fine p i w h tr :
  safe ok (admit_host repr p i w h) tr (fun r tr' => (exists t, tr' = tr ++ t) /\ match r with Ok (inl (_, now)) => Ev Now now ∈ tr' | _ => True end).
Proof.
  eapply safe_mono; [|apply safe_extends; instantiate (1 := fun r tr' => match r with Ok (inl (_, now)) => Ev Now now ∈ tr' | _ => True end)].
  { intros r tr' [H1 H2]. by split. }
  unfold admit_host. destruct (wk_requirements w) as [r|].
  - destruct (negb _); [done|]. intros acq. split; [done|]. apply safe_bind.
    assert (Hq : fine (on_admission_reply p h (invoke (Admit (provider_id h) r acq))) (tr ++ [Ev Uuid acq])).
    { apply fine_quiet, quiet_on_error. quiet. }
    eapply safe_mono; [|exact Hq]. intros [a|e] tr1 _; [|done]. cbn [then_]. apply safe_bind. intros now. split; [done|]. cbn [safe then_]. cbv zeta. destruct (nonempty (admission_rejection repr a r now)).
    + apply safe_bind. eapply safe_mono; [|unshelve eapply (_ : fine _ _); fine]. intros [x|x] tr2 _; exact I.
    + cbn. apply elem_of_app. right. by left.
  - intros now. split; [done|]. cbn. apply elem_of_app. right. by left.
Qed.

Lemma candidates_fine p i w scan ls cs fs tr : (forall id, permits c id (Claim w)) -> fine (try_candidates repr L p i w scan ls cs fs) tr.
Proof.
  intros Hc. revert fs tr. induction cs as [|h cs IH]; intros fs tr; cbn [try_candidates]; [fine|].
  apply fine_bind; [by apply fine_quiet, quiet_ready|]. intros [h'|why] t1; [|apply IH].
  apply safe_bind. eapply safe_mono; [|apply admit_fine]. intros [[[a now]|why]|e] tr2 [[t ->] Hnow]; [|apply IH|done]. cbn [then_].
  apply fine_bind; [by apply fine_claim_in|]. intros [] t2; [done|]. apply fine_bind; [fine|]. intros _ t3. apply IH.
Qed.
Lemma acquire_fine p w tr :
  (forall id, permits c id (Claim w)) -> (forall id, permits c id Cancel) -> fine (acquire_ready digest repr notice_deadline L p w) tr.
Proof.
  intros Hc Hk. unfold acquire_ready. fine. all: try (apply fine_fold; intros; by apply scan_fine). all: by apply candidates_fine.
Qed.
End obedience.

Lemma body_obeys digest repr notice_deadline L c : well_named c -> fine L c (body digest repr notice_deadline L c) [].
Proof.
  intros Hc. destruct c as [p w|id run|p id|id p|p id|p id|p e|p d t s|p t|p id del| ]; cbn [body]; try apply fine_done.
  - by apply acquire_fine.
  - by apply fine_attach.
  - by apply release_fine.
  - by apply cancel_fine.
  - by apply renew_fine.
  - by apply activate_fine.
  - apply fine_quiet, quiet_reconcile.
  - apply fine_quiet, quiet_drain.
  - apply fine_quiet, quiet_force.
  - apply fine_quiet, quiet_destroy.
  - apply fine_quiet, quiet_orphaned.
Qed.

(** ** Interleavings *)

Section interleaving.
Context (digest repr : string -> string) (notice_deadline : HostFacts -> Z -> string) (L : Lifecycle).

(** Every thread still obeys the lock, and has read the clock in the past. *)
Definition thread_ok (e : Env) (t : Thread) : Prop := fine L (call t) (rest t) (seen t) /\ past e (seen t).
Definition world_ok (w : World) : Prop := Forall (thread_ok (env w)) (threads w).

(** The clock reading an event is. *)
Definition reading (x : event hcmd) : option Z :=
  match x with Ev c r => match c in hcmd R return R -> option Z with Now => fun r => Some r | _ => fun _ => None end r end.
Lemma past_snoc e s tr R (d : hcmd R) r s' : past e tr -> answers e s d r s' -> past e (tr ++ [Ev d r]).
Proof.
  intros Hp Ha n [Hn|Hn%list_elem_of_singleton]%elem_of_app; [by apply Hp|].
  apply (f_equal reading) in Hn. destruct d; cbn in Hn, Ha; try done. destruct Ha as [-> _]. injection Hn as ->. lia.
Qed.

Lemma thread_step_ok w c tr w' : world_ok w -> thread_step w c tr w' -> world_ok w'
  /\ forall id, exists a, permits c id a /\ lock_step L tr id (env w) a (leases (shared w) !! id) (leases (shared w') !! id).
Proof.
  intros Hw [i c' R d k tr' r s' Hi Ha]. pose proof (Forall_lookup_1 _ _ _ _ Hw Hi) as [Hf Hp]. cbn in Hf, Hp. destruct (Hf r) as [Hok Hk]. split.
  - apply Forall_insert; [done|]. split; [done|]. by eapply past_snoc.
  - intros id. cbn [shared]. destruct d; cbn in Ha; repeat match goal with H : _ /\ _ |- _ => destruct H end; subst;
      try (exists Keep; by repeat constructor).
    destruct (Hok (env w) (shared w) id Hp) as (a & H1 & H2). exists a. rewrite Ha in H2. by split.
Qed.

Lemma world_step_ok w w' : world_ok w -> world_step digest repr notice_deadline L w w' -> world_ok w'.
Proof.
  intros Hw [c Hc|e He|c tr w1 Hs].
  - apply Forall_app. split; [done|]. constructor; [|done]. split; [by apply body_obeys|]. intros n Hn. by apply elem_of_nil in Hn.
  - eapply Forall_impl; [exact Hw|]. intros t [H1 H2]. split; [done|]. intros n Hn. cbn. specialize (H2 n Hn). lia.
  - by apply (thread_step_ok w c tr w1).
Qed.

Lemma reachable_ok w : reachable digest repr notice_deadline L w -> world_ok w.
Proof.
  intros (w0 & H0 & Hr). assert (Hw0 : world_ok w0) by (unfold world_ok; rewrite H0; constructor). clear H0.
  induction Hr as [w|w w1 w2 Hs Hr IH]; [done|]. by apply IH, (world_step_ok w w1).
Qed.
End interleaving.

(** ** Properties *)

(** C8.  However the calls of any number of controllers interleave on the state file, and wherever
    they crash, each step of a call changes the recorded lease of each host only as a lock with expiring
    reservations and compare-and-set commands allows that call.  An acquisition claims only a host that is
    free, whose reservation had expired, or whose run had ended, and replaces the whole lease by a
    reservation of [reservation_seconds] from a time not later than now.  A cancellation removes, and a
    release closes, exactly the lease that the same call has read before (any change in between stops
    it), a cancellation only one whose admission is not in use.  A renewal or an activation replaces only
    the admission of a lease that still has the requirements and the admission which the host has just
    confirmed.  No other call changes a lease, except [attach_run], which names the run on whatever lease
    it finds: the code does not compare there, and two controllers may both attach (Lemma
    [late_attach_takes_the_lease]); so this is mutual exclusion of claims, not of runs. *)
Theorem leases_refine_lock digest repr notice_deadline L w c tr w' id :
  reachable digest repr notice_deadline L w -> thread_step w c tr w' ->
  exists a, permits c id a /\ lock_step L tr id (env w) a (leases (shared w) !! id) (leases (shared w') !! id).
Proof. intros Hr%reachable_ok Hs. by apply (thread_step_ok L w c tr w'). Qed.

Section witnesses.
#[local] Definition lifecycle : Lifecycle :=
  {| providers := fun _ => None; health_check := false; interruption_drain := false; drain_clear := false; retry_attempts := 3;
     reservation_seconds := 300; absolute_deadline := ""; operation_seed := "" |}.
#[local] Definition work : Work := {| wk_workspace := "w"; wk_revision := "r"; wk_harness := "h"; wk_requirements := None |}.
#[local] Definition one_lease : Store := set_leases {[ "i-1" := new_lease lifecycle work None 100 100 ]} empty_store.
#[local] Definition world (s : Store) (t : M unit) (tr : list (event hcmd)) : World :=
  {| env := {| clock := 200; terminal := fun _ => false |}; shared := s; threads := [{| call := AttachRun "i-1" "run-1"; rest := t; seen := tr |}] |}.
#[local] Definition attached : Store := set_leases {[ "i-1" := with_run "run-1" (new_lease lifecycle work None 100 100) ]} empty_store.
#[local] Definition before : World := world one_lease (attach_run id "i-1" "run-1") [].
#[local] Definition after : World := world attached (Ret tt) [Ev (Locked (attach_in id "i-1" "run-1")) (Ok tt)].

Lemma leases_refine_lock_witness : exists a, permits (AttachRun "i-1" "run-1") "i-1" a
  /\ lock_step lifecycle [] "i-1" (env before) a (leases (shared before) !! "i-1") (leases (shared after) !! "i-1").
Proof.
  apply (leases_refine_lock id id (fun _ _ => "") lifecycle before (AttachRun "i-1" "run-1") [] after "i-1").
  - exists {| env := env before; shared := one_lease; threads := [] |}. split; [reflexivity|].
    apply rtc_once. apply (world_call _ _ _ _ {| env := env before; shared := one_lease; threads := [] |} (AttachRun "i-1" "run-1")). discriminate.
  - apply (thread_act before 0 (AttachRun "i-1" "run-1") _ (Locked (attach_in id "i-1" "run-1")) lift [] (Ok tt) attached); reflexivity.
Defined.
End witnesses.

(** ** Admission *)

(** The GPUs of an admission are the ones reserved. *)
Record gpus_granted (a : HostAdmission) (r : HostRequirements) : Prop := {
  gg_devices : Z.of_nat (List.length (gpu_devices a)) = hr_gpu_count r;
  gg_named : Forall (fun d => strip d <> "") (gpu_devices a);
  gg_exclusive : NoDup (gpu_devices a);
  gg_memory : Z.of_nat (List.length (ad_gpu_device_memory_mib a)) = hr_gpu_count r;
  gg_memory_enough : Forall (fun m => hr_gpu_device_memory_mib r <= m) (ad_gpu_device_memory_mib a);
  gg_vendors : Z.of_nat (List.length (gpu_device_vendors a)) = hr_gpu_count r;
  gg_vendors_named : Forall (fun v => strip v <> "") (gpu_device_vendors a);
  gg_vendor : hr_gpu_vendor r <> "" -> Forall (fun v => lower v = lower (hr_gpu_vendor r)) (gpu_device_vendors a);
  gg_features : Z.of_nat (List.length (gpu_device_features a)) = hr_gpu_count r;
  gg_features_had : Forall (fun fs => hr_gpu_features r ⊆ fs) (gpu_device_features a);
}.

(** The host's answer grants what the work requires, measured recently, under a lease that is still good. *)
Record grants (a : HostAdmission) (r : HostRequirements) (now : Z) : Prop := {
  gr_eligible : eligible a = true;
  gr_measured : exists m, measured_at a = Some m /\ m <= now + 5 /\ now - m <= hr_probe_max_age_seconds r;
  gr_class : ad_host_class a = hr_host_class r;
  gr_environment : ad_environment a = hr_environment r;
  gr_capabilities : hr_capabilities r ⊆ ad_capabilities a;
  gr_memory : hr_memory_mib r <= memory_available_mib a;
  gr_disk : hr_disk_gib r <= disk_free_gib a;
  gr_bound : Forall (fun b : string * string * string => b.2 <> "" -> b.1.2 = b.2) (bindings a r);
  gr_generation : hr_lease_generation r <> 0 -> ad_lease_generation a = hr_lease_generation r;
  gr_enforced : constrained_host r = true -> resources_enforced a = true;
  gr_memory_limit : hr_memory_mib r <> 0 -> memory_limit_mib a = hr_memory_mib r;
  gr_vcpu_limit : hr_vcpu r <> 0 -> vcpu_limit a = hr_vcpu r;
  gr_gpus : hr_gpu_count r <> 0 -> gpus_granted a r;
  gr_lease : lease_id a <> "" /\ exists t, lease_expires_at a = Some t /\ now < t;
}.

Lemma reject_none (b : bool) m k : m <> "" -> ((if b then m else k) = "" <-> b = false /\ k = "").
Proof. intros Hm. destruct b; naive_solver. Qed.
Lemma nonempty_false s : nonempty s = false <-> s = "".
Proof. by destruct s. Qed.
Lemma nonempty_iff s : nonempty s = true <-> s <> "".
Proof. by destruct s. Qed.
Lemma existsb_none {A} (f : A -> bool) l : existsb f l = false <-> Forall (fun x => f x = false) l.
Proof.
  induction l as [|x l IH]; cbn; [by split|]. rewrite orb_false_iff, IH. split; [intros [? ?]; by constructor|by inversion 1].
Qed.
Lemma find_none {A} (f : A -> bool) l : List.find f l = None <-> Forall (fun x => f x = false) l.
Proof.
  induction l as [|x l IH]; cbn; [by split|]. split.
  - destruct (f x) eqn:Hx; [done|]. intros H. constructor; [done|]. by apply IH.
  - inversion 1 as [|? ? Hx Hl]; subst. rewrite Hx. by apply IH.
Qed.
Lemma Forall_iff' {A} (P Q : A -> Prop) l : (forall x, P x <-> Q x) -> Forall P l <-> Forall Q l.
Proof. intros H. split; intros Hl; (eapply Forall_impl; [exact Hl|]); intros x; apply H. Qed.
Lemma missing_none a b : missing_names a b = [] <-> a ⊆ b.
Proof.
  unfold missing_names. split.
  - intros H x Hx. destruct (mem x b) eqn:Hm; [by apply bool_decide_eq_true in Hm|]. exfalso.
    assert (Hin : x ∈ sorted_set (List.filter (fun x => negb (mem x b)) a)).
    { apply elem_of_sorted_set, list_elem_of_In, filter_In. rewrite Hm. split; [by apply list_elem_of_In|done]. }
    rewrite H in Hin. by apply elem_of_nil in Hin.
  - intros H. destruct (sorted_set _) as [|x l] eqn:E; [done|]. exfalso.
    assert (Hin : x ∈ sorted_set (List.filter (fun x => negb (mem x b)) a)) by (rewrite E; by left).
    apply elem_of_sorted_set, list_elem_of_In, filter_In in Hin as [Hx Hm]. apply list_elem_of_In, H in Hx.
    unfold mem in Hm. by rewrite bool_decide_eq_true_2 in Hm.
Qed.

Lemma gpu_rejection_none a r : gpu_rejection a r = "" <-> gpus_granted a r.
Proof.
  unfold gpu_rejection. rewrite !reject_none by done. rewrite !negb_false_iff, !existsb_none, !Z.eqb_eq, bool_decide_eq_true, andb_false_iff, nonempty_false, existsb_none.
  rewrite (Forall_iff' (fun d => negb (nonempty (strip d)) = false) (fun d => strip d <> "")) by (intros d; by rewrite negb_false_iff, nonempty_iff).
  rewrite (Forall_iff' (fun m => (m <? hr_gpu_device_memory_mib r) = false) (fun m => hr_gpu_device_memory_mib r <= m)) by (intros; lia).
  rewrite (Forall_iff' (fun v => negb (nonempty (strip v)) = false) (fun v => strip v <> "")) by (intros d; by rewrite negb_false_iff, nonempty_iff).
  rewrite (Forall_iff' (fun v => negb (bool_decide (lower v = lower (hr_gpu_vendor r))) = false) (fun v => lower v = lower (hr_gpu_vendor r)))
    by (intros v; by rewrite negb_false_iff, bool_decide_eq_true).
  rewrite (Forall_iff' (fun fs => negb (forallb (fun f => mem f fs) (hr_gpu_features r)) = false) (fun fs => hr_gpu_features r ⊆ fs)).
  2:{ intros fs. rewrite negb_false_iff, forallb_forall. split; intros H x Hx.
      - apply list_elem_of_In, H, bool_decide_eq_true in Hx. done.
      - apply list_elem_of_In, H in Hx. by apply bool_decide_eq_true. }
  split; [intros H|intros []]; repeat match goal with H : _ /\ _ |- _ => destruct H end; [constructor; try done; naive_solver|].
  split_and!; try done. destruct (decide (hr_gpu_vendor r = "")); [by left|right; auto].
Qed.

Lemma reject_missing (l : list string) k :
  (match l with x :: l' => ("missing capabilities: " ++ join ", " (x :: l'))%string | [] => k end) = "" <-> l = [] /\ k = "".
Proof. destruct l; naive_solver. Qed.
Lemma reject_found (x : option (string * string * string)) k :
  (match x with Some b => ("host admission " ++ b.1.1 ++ " does not match")%string | None => k end) = "" <-> x = None /\ k = "".
Proof. destruct x; naive_solver. Qed.

Lemma reject_why (b : bool) m k : (if b && nonempty m then m else k) = "" <-> (b = false \/ m = "") /\ k = "".
Proof. destruct b, m; naive_solver. Qed.
Lemma unbound_false b : unbound b = false <-> (b.2 <> "" -> b.1.2 = b.2).
Proof.
  unfold unbound. rewrite andb_false_iff, nonempty_false, negb_false_iff, bool_decide_eq_true. destruct (decide (b.2 = "")); naive_solver.
Qed.

Lemma grants_iff repr a r now : admission_rejection repr a r now = "" <-> grants a r now.
Proof.
  unfold admission_rejection. rewrite reject_none by (destruct (ad_detail a); done). destruct (measured_at a) as [m|] eqn:Hm.
  2:{ split; [by intros [_ ?]|]. intros [_ (m & Hm' & _)]. by rewrite Hm in Hm'. }
  rewrite !reject_none, reject_missing, !reject_none, reject_found, !reject_none, reject_why, reject_none, missing_none, find_none by done.
  rewrite (Forall_iff' _ _ _ unbound_false), !negb_false_iff, !bool_decide_eq_true, !andb_false_iff, !negb_false_iff, !Z.eqb_eq, !Z.ltb_ge, gpu_rejection_none, orb_false_iff, negb_false_iff, nonempty_iff.
  assert (Hexp : match lease_expires_at a with Some t => t <=? now | None => true end = false <-> exists t, lease_expires_at a = Some t /\ now < t).
  { destruct (lease_expires_at a) as [t|]; [|naive_solver]. rewrite Z.leb_gt. naive_solver. }
  rewrite Hexp. assert (Hor : forall (B : Prop) (n : Z), (n = 0 \/ B) <-> (n <> 0 -> B)) by (intros B n; destruct (decide (n = 0)); tauto).
  rewrite !Hor.
  assert (Hc : (constrained_host r = false \/ resources_enforced a = true) <-> (constrained_host r = true -> resources_enforced a = true))
    by (destruct (constrained_host r); naive_solver).
  rewrite Hc. split.
  - intros H. decompose [and] H. constructor; eauto.
  - intros [H1 (m' & Hm' & H2 & H3)]. assert (m' = m) as -> by congruence. split_and!; naive_solver.
Qed.

(** A host's answer to a request for admission is accepted exactly when it grants what the work
    requires: it is eligible, measured within the probe's age and not in the future, of the class and
    environment asked for, with every capability, the memory and the disk free, bound to every identity
    that was required and to the lease generation, with its resources enforced and the memory and vCPU
    ceilings exact when the work is constrained, the GPUs exactly those reserved (named, exclusive, of
    enough memory, the vendor and all the features), under a lease that has not expired. *)
Theorem admission_accepted_iff repr a r now : admission_rejection repr a r now = "" <-> grants a r now.
Proof. apply grants_iff. Qed.

(** ** Acquisition *)

Section acquisition.
Context (digest repr : string -> string) (notice_deadline : HostFacts -> Z -> string) (L : Lifecycle) (p : PoolDeclaration) (w : Work).

(** The host has proved itself ready for the work. *)
Definition proved_ready (tr : list (event hcmd)) (id : string) : Prop :=
  exists evidence, Ev (Readiness id (wk_workspace w) (wk_revision w) (wk_harness w)) (Ok evidence) ∈ tr /\ host_ready evidence = true.
(** The host has granted admission [a] to this acquisition. *)
Definition granted (tr : list (event hcmd)) (id : string) (a : HostAdmission) : Prop :=
  exists r acquisition, wk_requirements w = Some r /\ Ev (Admit id r acquisition) (Ok a) ∈ tr /\ eligible a = true.
(** Under the lock, the host was claimed for the work, with an admission that was good then. *)
Definition claimed (tr : list (event hcmd)) (id : string) : Prop :=
  exists a acquired now, Ev (Locked (claim_in L p id w a acquired now)) true ∈ tr /\ Ev Now now ∈ tr
    /\ match wk_requirements w with
       | None => a = None
       | Some r => exists x, a = Some x /\ granted tr id x /\ grants x r now
       end.

(** The acquisition gives back only admissions that were granted to it. *)
Definition gives_back_own (tr : list (event hcmd)) (x : event hcmd) : Prop :=
  match x with Ev (ReleaseAdmission id l) _ => exists a, granted tr id a /\ lease_id a = l | _ => True end.
Definition verified (tr : list (event hcmd)) (r : result herr HostFacts) : Prop :=
  match r with Ok h => proved_ready tr (provider_id h) /\ claimed tr (provider_id h) | Err _ => True end.

Lemma in_app_l {A} (x : A) l t : x ∈ l -> x ∈ l ++ t.
Proof. intros H. apply elem_of_app. by left. Qed.
Lemma in_last {A} (x : A) l : x ∈ l ++ [x].
Proof. apply elem_of_app. right. by left. Qed.
#[local] Hint Resolve in_app_l in_last : core.
Lemma proved_ready_app tr t id : proved_ready tr id -> proved_ready (tr ++ t) id.
Proof. intros (ev & H1 & H2). exists ev. auto. Qed.
Lemma granted_app tr t id a : granted tr id a -> granted (tr ++ t) id a.
Proof. intros (r & acq & H1 & H2 & H3). exists r, acq. auto. Qed.
#[local] Hint Resolve proved_ready_app granted_app : core.

#[local] Abbreviation own := gives_back_own.

Lemma own_quiet {A} (m : M A) tr : quiet m -> safe own m tr (fun _ tr' => exists t, tr' = tr ++ t).
Proof. intros Hm. eapply only_safe, Hm. intros tr' R d r Hd. by destruct d. Qed.
Lemma own_quiet_bind {A B} (m : M A) (f : A -> M B) tr Q :
  quiet m -> (forall e t, Q (Err e) (tr ++ t)) -> (forall a t, safe own (f a) (tr ++ t) Q) -> safe own (m ≫= f) tr Q.
Proof. intros Hm He Hf. apply safe_bind. eapply safe_mono; [|by apply own_quiet]. intros [a|e] tr' [t ->]; [apply Hf|apply He]. Qed.
Lemma own_stop {A} q d tr : safe own (@environment_stop A q d) tr (fun r tr' => (exists e, r = Err e) /\ exists t, tr' = tr ++ t).
Proof. intros []. split; [done|]. split; [by eexists|by eexists]. Qed.
(** Errors of a provider become stops; what holds of a result still holds. *)
Lemma own_on_error {A} q t (m : M A) tr (Q : result herr A -> list (event hcmd) -> Prop) :
  (forall e tr', Q (Err e) tr') -> safe own m tr Q -> safe own (on_provider_error q t m) tr Q.
Proof.
  intros He Hm. apply safe_bind, safe_try. eapply safe_mono; [|exact Hm]. intros [a|e] tr' HQ; [done|]. cbn [then_].
  destruct (provider_error e); [|apply He]. eapply safe_mono; [|apply own_stop]. intros r tr2 [[e' ->] _]. apply He.
Qed.

Lemma make_ready_own i h tr :
  safe own (make_ready p i w h) tr (fun r tr' => (exists t, tr' = tr ++ t) /\ match r with Ok (inl h') => proved_ready tr' (provider_id h') | _ => True end).
Proof.
  eapply safe_mono; [|apply safe_extends; instantiate (1 := fun r tr' => match r with Ok (inl h') => proved_ready tr' (provider_id h') | _ => True end)].
  { intros r tr' [H1 H2]. by split. }
  apply own_on_error; [done|]. destruct (_ && _); [exact I|].
  apply own_quiet_bind; [destruct (bool_decide _); quiet|done|]. intros h' t. destruct (_ && _); [exact I|].
  apply safe_bind, safe_invoke. intros [ev|e]; split; [done| |done|exact I]. cbn [then_].
  destruct (host_ready ev) eqn:Hr; [|exact I]. exists ev. auto.
Qed.

Definition admitted_for (id : string) (a : option HostAdmission) (now : Z) (tr : list (event hcmd)) : Prop :=
  Ev Now now ∈ tr
  /\ match wk_requirements w with None => a = None | Some r => exists x, a = Some x /\ granted tr id x /\ grants x r now end.
Lemma give_back_own {A} id x (m : unit -> M A) tr Q :
  granted tr id x -> (forall e t, Q (Err e) (tr ++ t)) -> (forall u t, safe own (m u) (tr ++ t) Q) ->
  safe own (invoke (ReleaseAdmission id (lease_id x)) ≫= m) tr Q.
Proof.
  intros Hg He Hm. apply safe_bind, safe_invoke. intros r. split; [by exists x|]. destruct r as [[]|e]; [apply Hm|apply He].
Qed.

Lemma admit_own i h tr :
  safe own (admit_host repr p i w h) tr (fun r tr' => (exists t, tr' = tr ++ t) /\ match r with Ok (inl (a, now)) => admitted_for (provider_id h) a now tr' | _ => True end).
Proof.
  eapply safe_mono; [|apply safe_extends; instantiate (1 := fun r tr' => match r with Ok (inl (a, now)) => admitted_for (provider_id h) a now tr' | _ => True end)].
  { intros r tr' [H1 H2]. by split. }
  unfold admit_host, admitted_for. destruct (wk_requirements w) as [r|] eqn:Hw.
  2:{ intros now. by split; [|split]. }
  destruct (negb _); [exact I|]. apply safe_bind. intros acq. split; [done|]. apply safe_bind. unfold on_admission_reply. apply own_on_error; [done|].
  apply safe_invoke. intros [a|e]; (split; [done|]); [|exact I]. cbn [then_]. apply safe_bind. intros now. split; [done|]. cbn [safe then_]. cbv zeta.
  set (tr1 := ((tr ++ [_]) ++ [_])).
  assert (Hin : Ev (Admit (provider_id h) r acq) (Ok a) ∈ tr1) by apply in_last.
  assert (Hg : eligible a = true -> granted tr1 (provider_id h) a) by (intros He; exists r, acq; auto).
  destruct (nonempty (admission_rejection repr a r now)) eqn:Hr.
  - apply safe_bind. destruct (eligible a) eqn:He; cbn [andb]; [|exact I]. destruct (nonempty (lease_id a)); [|exact I].
    apply safe_bind, safe_try, safe_invoke. intros x. split; [exists a; auto|]. cbn. destruct x as [[]|e]; [exact I|]. by destruct (provider_error e).
  - split; [auto|]. apply nonempty_false, grants_iff in Hr. exists a. split; [done|]. split; [|done]. apply granted_app, Hg, Hr.
Qed.

Lemma candidates_own i scan ls cs fs tr : safe own (try_candidates repr L p i w scan ls cs fs) tr (fun r tr' => verified tr' r).
Proof.
  revert fs tr. induction cs as [|h cs IH]; intros fs tr; cbn [try_candidates].
  { eapply safe_mono; [|apply own_stop]. by intros r tr' [[e ->] _]. }
  apply safe_bind. eapply safe_mono; [|apply make_ready_own]. intros [[h'|why]|e] tr1 [_ Hready]; [|apply IH|done]. cbn [then_].
  apply safe_bind. eapply safe_mono; [|apply admit_own]. intros [[[a now]|why]|e] tr2 [[t ->] Ha]; [|apply IH|done]. destruct Ha as [Hnow Ha]. cbn [then_].
  apply safe_bind. intros won. split; [done|]. cbn [safe then_]. destruct won.
  - split; [auto|]. exists a, (match ls !! provider_id h with Some l => acquired_at l | None => scan end), now. split; [auto|]. split; [auto|].
    destruct (wk_requirements w); [|done]. destruct Ha as (x & -> & Hg & Hx). exists x. auto.
  - apply safe_bind. destruct a as [x|]; [|apply IH]. destruct (nonempty (lease_id x)); [|apply IH].
    apply own_on_error; [done|]. apply safe_invoke. destruct (wk_requirements w) as [r|]; [|done]. destruct Ha as (x' & [= <-] & Hg & _).
    intros [[]|e]; (split; [exists x; auto|]); [apply IH|done].
Qed.

(** Commands other than [ReleaseAdmission]. *)
Definition keeps {R} (d : hcmd R) : Prop := match d with ReleaseAdmission _ _ => False | _ => True end.
Lemma cancel_keeps id : only (@keeps) (cancel_acquisition digest repr L id None).
Proof.
  unfold cancel_acquisition. apply only_bind; [by apply only_bind|]. intros original. destruct (_ && _); [done|].
  apply only_bind; [by destruct (nonempty _)|]. intros _. apply only_bind; [done|]. by intros [].
Qed.
Lemma scan_own now x h tr : safe own (scan_host digest repr L p now x h) tr (fun _ tr' => exists t, tr' = tr ++ t).
Proof.
  eapply only_safe with (P := @keeps); [intros ? R d r Hd; by destruct d|].
  assert (Hq : forall A (m : M A), quiet m -> only (@keeps) m).
  { intros A m. induction m as [a|e|R d k IH]; cbn; [done|done|]. intros [Hd Hk]. split; [by destruct d|]. intros r. by apply IH. }
  unfold scan_host. destruct x as [ls cs]. destruct (negb _); [done|]. destruct (negb _); [done|]. destruct (_ <=? _).
  - apply only_bind; [apply Hq; quiet|]. intros _. apply only_bind; [apply cancel_keeps|done].
  - destruct (_ && _); [done|]. apply only_bind; [by destruct (nonempty _)|done].
Qed.

Lemma acquire_own tr : safe own (acquire_ready digest repr notice_deadline L p w) tr (fun r tr' => verified tr' r).
Proof.
  unfold acquire_ready. apply own_quiet_bind; [quiet|done|]. intros _ t1. apply own_quiet_bind; [apply quiet_on_error, quiet_reconcile|done|].
  intros checked t2. do 4 (apply own_quiet_bind; [quiet|done|]; intros ? ?). apply safe_bind.
  eapply safe_mono; [|apply (safe_fold own (fun _ _ => True) (fun _ _ => True)); [done|]].
  - intros [x|e] tr' _; [apply candidates_own|done].
  - intros s x tr0 _ _. eapply safe_mono; [|apply scan_own]. by intros [].
Qed.
End acquisition.

(** C11.  However its execution goes, and wherever it stops, an acquisition gives back only admissions
    that a host granted to this acquisition, never the lease an ineligible reply describes.  And the
    host it returns has proved itself ready for this workspace, revision and harness, and was claimed
    under the lock; when the work has requirements, the host granted the admission recorded by that
    claim, and the admission was good at the clock reading the claim is dated by. *)
Theorem acquire_ready_verified digest repr notice_deadline L p w tr o :
  exec (acquire_ready digest repr notice_deadline L p w) tr o ->
  (forall tr1 id l x tr2, tr = tr1 ++ Ev (ReleaseAdmission id l) x :: tr2 -> exists a, granted w tr1 id a /\ lease_id a = l)
  /\ (forall h, o = Some (Ok h) -> proved_ready w tr (provider_id h) /\ claimed L p w tr (provider_id h)).
Proof.
  intros He. destruct (safe_exec _ _ [] _ _ _ He (acquire_own digest repr notice_deadline L p w []) (allowed_nil _)) as [Ha Hq]. split.
  - intros tr1 id l x tr2 ->. by apply allowed_split in Ha.
  - by intros h ->.
Qed.

(** ** Release *)

Section release.
Context (digest repr : string -> string) (L : Lifecycle) (p : PoolDeclaration) (id : string).

(** The provider has shown host [h] stopped or terminated. *)
Definition shown_at_rest (tr : list (event hcmd)) (h : HostFacts) : Prop :=
  at_rest h = true
  /\ ((exists hosts, Ev (Discover (pool_owner p) (pool_name p)) (Ok hosts) ∈ tr /\ h ∈ hosts /\ provider_id h = id)
      \/ Ev (StopHost id) (Ok h) ∈ tr).
Definition rest_first (tr : list (event hcmd)) (x : event hcmd) : Prop :=
  match x with Ev (ReleaseAdmission i _) _ => i = id /\ exists h, shown_at_rest tr h | _ => True end.
Definition let_go (tr : list (event hcmd)) (h : HostFacts) : Prop :=
  exists l, Ev (Locked (release_in id l)) true ∈ tr /\ (admitted_id l <> "" -> Ev (ReleaseAdmission id (admitted_id l)) (Ok tt) ∈ tr).

#[local] Hint Resolve in_app_l in_last : core.
Lemma shown_app tr t h : shown_at_rest tr h -> shown_at_rest (tr ++ t) h.
Proof. intros [Hr [(hosts & H & ?)|H]]; (split; [done|]); [left; exists hosts; auto|right; auto]. Qed.
#[local] Hint Resolve shown_app : core.

Lemma rest_quiet {A} (m : M A) tr : quiet m -> safe rest_first m tr (fun _ tr' => exists t, tr' = tr ++ t).
Proof. intros Hm. eapply only_safe, Hm. intros tr' R d r Hd. by destruct d. Qed.
Lemma rest_quiet_bind {A B} (m : M A) (f : A -> M B) tr Q :
  quiet m -> (forall e t, Q (Err e) (tr ++ t)) -> (forall a t, safe rest_first (f a) (tr ++ t) Q) -> safe rest_first (m ≫= f) tr Q.
Proof. intros Hm He Hf. apply safe_bind. eapply safe_mono; [|by apply rest_quiet]. intros [a|e] tr' [t ->]; [apply Hf|apply He]. Qed.
Lemma rest_on_error {A} t (m : M A) tr (Q : result herr A -> list (event hcmd) -> Prop) :
  (forall e tr', Q (Err e) tr') -> safe rest_first m tr Q -> safe rest_first (on_provider_error p t m) tr Q.
Proof.
  intros He Hm. apply safe_bind, safe_try. eapply safe_mono; [|exact Hm]. intros [a|e] tr' HQ; [done|]. cbn [then_].
  destruct (provider_error e); [|apply He]. intros []. split; [done|]. apply He.
Qed.

(** What [_owned] returns at rest, the provider reported at rest: the draining mark hides it otherwise. *)
Lemma owned_shown tr : safe rest_first (owned digest repr L p id) tr
  (fun r tr' => match r with Ok h => at_rest h = true -> shown_at_rest tr' h | Err _ => True end).
Proof.
  unfold owned. apply safe_bind. unfold inspect. apply rest_quiet_bind; [apply quiet_validated|done|]. intros _ t1.
  apply rest_quiet_bind; [apply quiet_provider|done|]. intros i t2. apply safe_bind, safe_invoke. intros [hs|e]; (split; [done|]); [|exact I].
  cbn [then_]. apply safe_bind. intros data. split; [done|]. cbn [safe then_]. cbv zeta. destruct (List.find _ _) as [h|] eqn:Hf; [|exact I].
  apply find_some in Hf as [Hin Hid]. apply bool_decide_eq_true in Hid. apply list_elem_of_In, list_elem_of_fmap in Hin as (h0 & -> & Hin).
  intros Hrest. split; [done|]. left. exists hs. destruct (_ && _) eqn:Hmark; [|auto]. by apply andb_true_iff in Hmark as [_ _].
Qed.

Lemma release_rest tr : safe rest_first (release digest repr L p id) tr
  (fun r tr' => match r with Ok h => shown_at_rest tr' h /\ let_go tr' h | Err _ => True end).
Proof.
  unfold release. apply rest_quiet_bind; [apply quiet_lookup|done|]. intros original t1.
  apply safe_bind. eapply safe_mono; [|apply owned_shown]. intros [h|e] tr1 Hshown; [|exact I]. cbn [then_].
  (* the stop *)
  apply safe_bind. eapply safe_mono with (Q := fun r tr' => match r with Ok h' => at_rest h' = true -> shown_at_rest tr' h' | Err _ => True end).
  2:{ destruct (at_rest h) eqn:Hh; [intros _; by apply Hshown|]. apply rest_on_error; [done|]. unfold stop. do 3 (apply rest_quiet_bind; [quiet|done|]; intros ? ?).
      apply safe_invoke. intros [h'|e]; (split; [done|]); [|done]. intros Hr. split; [done|]. by right. }
  intros [h'|e] tr2 Hshown2; [|exact I]. cbn [then_]. destruct (at_rest h') eqn:Hh'.
  2:{ apply safe_bind. intros []. split; [done|exact I]. }
  specialize (Hshown2 eq_refl). apply safe_bind. cbn [safe then_]. apply safe_bind. eapply safe_mono with (Q := fun r tr' =>
    match r with Ok _ => admitted_id original <> "" -> Ev (ReleaseAdmission id (admitted_id original)) (Ok tt) ∈ tr' | Err _ => True end
    /\ exists t, tr' = tr2 ++ t).
  { intros [u|e] tr3 [Hgone [t ->]]; [|exact I]. cbn [then_]. apply safe_bind. intros ok. split; [done|]. cbn [safe then_]. destruct ok; [|by intros []].
    split; [auto|]. exists original. auto. }
  apply (safe_extends _ _ _ (fun r tr' =>
    match r with Ok _ => admitted_id original <> "" -> Ev (ReleaseAdmission id (admitted_id original)) (Ok tt) ∈ tr' | Err _ => True end)).
  destruct (nonempty (admitted_id original)) eqn:Hn; [|by apply nonempty_false in Hn; intros []].
  apply rest_on_error; [done|]. apply rest_quiet_bind; [quiet|done|]. intros _ t. apply safe_invoke. intros r.
  split; [split; [done|exists h'; auto]|]. destruct r as [[]|e]; auto.
Qed.
End release.

(** A release tells the host to let go of an admission only for the host it was asked about, and
    only after the provider has shown that host stopped or terminated; a host that is being drained
    counts as neither.  When it returns, the host was at rest, the lease was found under the lock to be
    the one read at the start, and its admission, if it had one, has been given back. *)
Theorem release_after_rest digest repr L p id tr o :
  exec (release digest repr L p id) tr o ->
  (forall tr1 i l x tr2, tr = tr1 ++ Ev (ReleaseAdmission i l) x :: tr2 -> i = id /\ exists h, shown_at_rest p id tr1 h)
  /\ (forall h, o = Some (Ok h) -> shown_at_rest p id tr h /\ let_go id tr h).
Proof.
  intros He. destruct (safe_exec _ _ [] _ _ _ He (release_rest digest repr L p id []) (allowed_nil _)) as [Ha Hq]. split.
  - intros tr1 i l x tr2 ->. by apply allowed_split in Ha.
  - by intros h ->.
Qed.

(** ** A host that admits *)

Module Warm.
Definition need : HostRequirements :=
  {| hr_activity := "build"; hr_host_class := "c"; hr_environment := "e"; hr_capabilities := ["x"]; hr_memory_mib := 0; hr_vcpu := 0;
     hr_gpu_count := 0; hr_gpu_vendor := ""; hr_gpu_device_memory_mib := 0; hr_gpu_features := []; hr_disk_gib := 1; hr_heavy := false;
     hr_requirement_digest := ""; hr_profile_revision := ""; hr_worker_id := ""; hr_run_id := ""; hr_operating_user := "";
     hr_installation_id := ""; hr_lease_generation := 0; hr_probe_max_age_seconds := 60; hr_lease_seconds := 60 |}.
Definition work : Work := {| wk_workspace := "w"; wk_revision := "r"; wk_harness := "h"; wk_requirements := Some need |}.
(** What the host answers: it grants whatever is asked. *)
Definition grant (r : HostRequirements) (lease : string) : HostAdmission :=
  {| eligible := true; measured_at := Some 0; ad_host_class := hr_host_class r; ad_environment := hr_environment r; ad_capabilities := hr_capabilities r;
     memory_available_mib := hr_memory_mib r; disk_free_gib := hr_disk_gib r; ad_requirement_digest := hr_requirement_digest r;
     ad_profile_revision := hr_profile_revision r; ad_worker_id := hr_worker_id r; ad_run_id := hr_run_id r; ad_activity := hr_activity r;
     ad_operating_user := hr_operating_user r; ad_installation_id := hr_installation_id r; ad_lease_generation := hr_lease_generation r;
     memory_limit_mib := hr_memory_mib r; vcpu_limit := hr_vcpu r; gpu_devices := []; ad_gpu_device_memory_mib := []; gpu_device_vendors := [];
     gpu_device_features := []; resources_enforced := true; lease_id := lease; lease_expires_at := Some 60; ad_detail := "" |}.
(** [Hosts.cloud], whose hosts also stop and admit. *)
Definition willing (R : Type) (c : hcmd R) : Cloud -> R * Cloud :=
  match c in hcmd R return Cloud -> R * Cloud with
  | Admit _ r acquisition => fun w => (Ok (grant r acquisition), w)
  | StopHost id => fun w =>
      (match List.find (fun h => bool_decide (provider_id h = id)) (hosts w) with Some h => Ok (with_state STOPPED "" h) | None => missing end, w)
  | c => cloud Demo.info 1 _ c
  end.
Definition acquire : M HostFacts := acquire_ready Demo.plain Demo.plain Demo.no_deadline Demo.L (Demo.pool 1) work.
Definition letting_go : M HostFacts := release Demo.plain Demo.plain Demo.L (Demo.pool 1) "i-0".
Definition acquired : Cloud := (run willing acquire Demo.nothing).2.
(** A pool of one whose host, leased under an admission, has reached its maximum age. *)
Definition aged : Cloud :=
  set_store (set_leases {[ "i-0" := new_lease Demo.L work (Some (grant need "uuid")) (-3600) (-3600) ]} (store acquired)) acquired.
Definition overdue : Cloud := (run willing acquire aged).2.
End Warm.

Lemma acquire_ready_verified_witness :
  exists h, (run Warm.willing Warm.acquire Demo.nothing).1 = Ok h /\ provider_id h = "i-0"
  /\ proved_ready Warm.work (trace Warm.willing Warm.acquire Demo.nothing) (provider_id h)
  /\ claimed Demo.L (Demo.pool 1) Warm.work (trace Warm.willing Warm.acquire Demo.nothing) (provider_id h).
Proof.
  assert (H : exists h, (run Warm.willing Warm.acquire Demo.nothing).1 = Ok h /\ provider_id h = "i-0") by (eexists; split; vm_compute; reflexivity).
  destruct H as (h & H & Hid). exists h. split; [exact H|]. split; [exact Hid|].
  refine (proj2 (acquire_ready_verified Demo.plain Demo.plain Demo.no_deadline Demo.L (Demo.pool 1) Warm.work
    (trace Warm.willing Warm.acquire Demo.nothing) (Some (run Warm.willing Warm.acquire Demo.nothing).1)
    (run_exec Warm.willing Warm.acquire Demo.nothing)) h _).
  rewrite H. reflexivity.
Defined.

Lemma release_after_rest_witness :
  exists h, (run Warm.willing Warm.letting_go Warm.acquired).1 = Ok h /\ state h = STOPPED
  /\ shown_at_rest (Demo.pool 1) "i-0" (trace Warm.willing Warm.letting_go Warm.acquired) h
  /\ let_go "i-0" (trace Warm.willing Warm.letting_go Warm.acquired) h.
Proof.
  assert (H : exists h, (run Warm.willing Warm.letting_go Warm.acquired).1 = Ok h /\ state h = STOPPED) by (eexists; split; vm_compute; reflexivity).
  destruct H as (h & H & Hs). exists h. split; [exact H|]. split; [exact Hs|].
  refine (proj2 (release_after_rest Demo.plain Demo.plain Demo.L (Demo.pool 1) "i-0"
    (trace Warm.willing Warm.letting_go Warm.acquired) (Some (run Warm.willing Warm.letting_go Warm.acquired).1)
    (run_exec Warm.willing Warm.letting_go Warm.acquired)) h _).
  rewrite H. reflexivity.
Defined.

(** ** What the lock does not do *)

(** [attach_run] does not check whose reservation it attaches to: after controller A's reservation has
    expired and controller B has claimed the host, A's late [attach_run] succeeds and puts A's run on B's
    lease, and B's own replaces it, so that both dispatch to the host. *)
Lemma late_attach_takes_the_lease :
  let e t := {| clock := t; terminal := fun _ => false |} in
  let work n := {| wk_workspace := n; wk_revision := "r"; wk_harness := "h"; wk_requirements := None |} in
  let claim n t := claim_in Demo.L (Demo.pool 1) "i-0" (work n) None t t (e t) in
  let a := claim "a" 100 empty_store in
  let b := claim "b" 400 a.2 in
  let late := attach_in id "i-0" "run-a" (e 410) b.2 in
  let own := attach_in id "i-0" "run-b" (e 420) late.2 in
  a.1 = true /\ b.1 = true /\ late.1 = Ok tt /\ own.1 = Ok tt
  /\ option_map (fun l => (workspace l, run_id l)) (leases late.2 !! "i-0") = Some ("b", "run-a")
  /\ option_map (fun l => (workspace l, run_id l)) (leases own.2 !! "i-0") = Some ("b", "run-b").
Proof. vm_compute. by split_and!. Qed.

(** A host that reaches its maximum age is destroyed by the next acquisition whoever holds its lease; and
    when the lease records an admission, the acquisition then fails with [ValueError], the lease stays. *)
Lemma overdue_host_destroyed_under_its_lease :
  let r := run Warm.willing Warm.acquire Warm.aged in
  r.1 = Err (Raised (ValueError "pool is required to cancel a host-local admission lease"))
  /\ hosts Warm.aged <> [] /\ hosts r.2 = []
  /\ option_map lock_state (Some (leases (store r.2) !! "i-0")) = Some (Reserved (-3300)).
Proof. vm_compute. by split_and!. Qed.
