(* ===== verification/Scale.v ===== *)
(** * Scale operations ([garden/hosts/scale.py])

    One durable, admitted request for worker capacity: [request] admits it once against the pool's and
    the aggregate budget; [continue_], [converge], [cleanup] and [emergency_stop] drive the host
    lifecycle toward it and record the progress.

    A method of [ScaleOperation] is a program over [scmd]: the commands of the lifecycle ([Host]), the
    operation file ([Load], [Save]), the other operation files of the directory ([Siblings]), the clock,
    and the enrollment resolver.  The methods that change the file hold the directory's lock throughout.

    The operation file is the record of what the class writes; its JSON and its atomic replacement are
    not modelled.  The digests, the ISO rendering and parsing of times, and the reading of an identity's
    expiry are parameters; times are seconds. *)

From Stdlib Require Import Qminmax.
From S2P Require Import Prelude PyValue Requirements Workers Effects Hosts.

#[local] Open Scope list_scope.
#[local] Open Scope Z_scope.

(** ** Enrollment *)

Record Enrollment := {
  secret_ref : string; model_identity : string; repository_identity : string; tailnet_identity : string;
  controller_identity : string; model_expires_at : string;
}.
Definition no_enrollment : Enrollment :=
  {| secret_ref := ""; model_identity := ""; repository_identity := ""; tailnet_identity := ""; controller_identity := ""; model_expires_at := "" |}.

Definition labelled (field label : string) : list string := if nonempty field then [] else [label].
(** [Enrollment.missing]; [expiry] reads a time: [None] if it cannot be, [Some None] without a zone. *)
Definition enrollment_missing (expiry : string -> option (option Z)) (e : Enrollment) (now : Z) : list string :=
  labelled (secret_ref e) "scoped bootstrap secret" ++ labelled (model_identity e) "dedicated model identity"
  ++ labelled (repository_identity e) "repository installation/key identity" ++ labelled (tailnet_identity e) "tag-limited tailnet enrollment"
  ++ labelled (controller_identity e) "scoped controller enrollment"
  ++ (if nonempty (model_expires_at e) then
        match expiry (model_expires_at e) with
        | Some (Some t) => if t <=? now then ["renew expired model identity"] else []
        | _ => ["valid model identity expiry"]
        end
      else []).

(** ** The operation file *)

Inductive Phase := Accepted | Converging | AwaitingEnrollment | Running | Draining | Cleaning | Cleaned.
#[export] Instance phase_eq_dec : EqDecision Phase.
Proof. solve_decision. Defined.
Definition phase_value (p : Phase) : string :=
  match p with
  | Accepted => "admitted" | Converging => "converging" | AwaitingEnrollment => "awaiting_enrollment" | Running => "running"
  | Draining => "draining" | Cleaning => "cleaning" | Cleaned => "cleaned"
  end.

Record Operation := {
  op_id : string; pool_identity : option string; op_pool : string; admitted_declaration : option PoolDeclaration;
  op_desired : Z; op_maximum : Z; op_spend_limit : Q; aggregate_limit : Q; accrued : Q; op_deadline : string;
  exact_version : string; op_source_head : string; phase : Phase; requested_at : string; enrollment_config : string;
  execution_context : list (string * string); enrollment_dir : string; op_retained : list string; pending_revocations : list string;
}.
Definition update (d : Z) (ph : Phase) (ret pend : list string) (o : Operation) : Operation :=
  {| op_id := op_id o; pool_identity := pool_identity o; op_pool := op_pool o; admitted_declaration := admitted_declaration o; op_desired := d;
     op_maximum := op_maximum o; op_spend_limit := op_spend_limit o; aggregate_limit := aggregate_limit o; accrued := accrued o;
     op_deadline := op_deadline o; exact_version := exact_version o; op_source_head := op_source_head o; phase := ph;
     requested_at := requested_at o; enrollment_config := enrollment_config o; execution_context := execution_context o;
     enrollment_dir := enrollment_dir o; op_retained := ret; pending_revocations := pend |}.
Definition set_desired d o := update d (phase o) (op_retained o) (pending_revocations o) o.
Definition set_phase ph o := update (op_desired o) ph (op_retained o) (pending_revocations o) o.
Definition set_retained l o := update (op_desired o) (phase o) l (pending_revocations o) o.
Definition set_pending l o := update (op_desired o) (phase o) (op_retained o) l o.
(** The two keys [_converge_locked] fills in when they are empty. *)
Definition fill (config : string) (context : list (string * string)) (o : Operation) : Operation :=
  {| op_id := op_id o; pool_identity := pool_identity o; op_pool := op_pool o; admitted_declaration := admitted_declaration o; op_desired := op_desired o;
     op_maximum := op_maximum o; op_spend_limit := op_spend_limit o; aggregate_limit := aggregate_limit o; accrued := accrued o;
     op_deadline := op_deadline o; exact_version := exact_version o; op_source_head := op_source_head o; phase := phase o;
     requested_at := requested_at o;
     enrollment_config := if nonempty config && negb (nonempty (enrollment_config o)) then config else enrollment_config o;
     execution_context := match execution_context o with [] => context | c => c end;
     enrollment_dir := enrollment_dir o; op_retained := op_retained o; pending_revocations := pending_revocations o |}.

(** [replace(pool, desired=..., ...)] *)
Definition resized (n : Z) (on : bool) (p : PoolDeclaration) : PoolDeclaration :=
  {| pool_name := pool_name p; pool_owner := pool_owner p; purpose := purpose p; pool_provider := pool_provider p; profile := profile p;
     enabled := on; minimum := minimum p; maximum := maximum p; desired := n; idle_timeout_minutes := idle_timeout_minutes p;
     maximum_age_minutes := maximum_age_minutes p; estimated_runtime_hours := estimated_runtime_hours p; spend_limit_usd := spend_limit_usd p;
     purchase_policy := purchase_policy p; on_demand_fallback := on_demand_fallback p; recoverable_workspace := recoverable_workspace p;
     pool_provider_options := pool_provider_options p |}.
Definition with_desired (n : Z) (p : PoolDeclaration) : PoolDeclaration := resized n (enabled p) p.
Definition closing_pool (p : PoolDeclaration) : PoolDeclaration := resized 0 true p.

(** [asdict(p) == asdict(q)] *)
Definition same_profile (f g : EnvironmentProfile) : bool :=
  bool_decide (prof_name f = prof_name g) && bool_decide (prof_version f = prof_version g) && bool_decide (prof_image f = prof_image g)
  && bool_decide (prof_bootstrap_version f = prof_bootstrap_version g) && (prof_cpu f =? prof_cpu g) && (prof_memory_mib f =? prof_memory_mib g)
  && (prof_disk_gib f =? prof_disk_gib g) && bool_decide (endpoint f = endpoint g) && bool_decide (enrollment_secret_ref f = enrollment_secret_ref g)
  && Bool.eqb (persistent_workspace f) (persistent_workspace g) && bool_decide (health_path f = health_path g)
  && py_eq (PDict (prof_provider_options f)) (PDict (prof_provider_options g)) && bool_decide (source_head f = source_head g).
Definition same_pool (p q : PoolDeclaration) : bool :=
  bool_decide (pool_name p = pool_name q) && bool_decide (pool_owner p = pool_owner q) && bool_decide (purpose p = purpose q)
  && bool_decide (pool_provider p = pool_provider q) && same_profile (profile p) (profile q) && Bool.eqb (enabled p) (enabled q)
  && (minimum p =? minimum q) && (maximum p =? maximum q) && (desired p =? desired q) && (idle_timeout_minutes p =? idle_timeout_minutes q)
  && (maximum_age_minutes p =? maximum_age_minutes q) && Qeq_bool (estimated_runtime_hours p) (estimated_runtime_hours q)
  && Qeq_bool (spend_limit_usd p) (spend_limit_usd q) && bool_decide (purchase_policy p = purchase_policy q)
  && Bool.eqb (on_demand_fallback p) (on_demand_fallback q) && Bool.eqb (recoverable_workspace p) (recoverable_workspace q)
  && py_eq (PDict (pool_provider_options p)) (PDict (pool_provider_options q)).

(** ** Commands *)

Inductive scmd : Type -> Type :=
| Host {R} (c : hcmd R) : scmd R
| Load : scmd (option Operation)
| Save (o : Operation) : scmd unit
| Siblings : scmd (list Operation)
| Clock : scmd Z
| Ensure (host secret : string) : scmd (result herr Enrollment)
| Resolve (host : string) : scmd (result herr Enrollment)
| SetupMissing (host : string) : scmd (result herr (list string))
| Revoke (host : string) : scmd (result herr (list string)).
Abbreviation SM := (prog scmd herr).
Definition host {A} (m : M A) : SM A := hoist (@Host) m.
Definition fail {A} (m : string) : SM A := Throw (Raised (ValueError m)).
Definition check (b : bool) (m : string) : SM unit := if b then fail m else Ret tt.
Definition pure {A} (r : result exn A) : SM A := match r with Ok a => Ret a | Err e => Throw (Raised e) end.
Definition save (o : Operation) : SM Operation := _ ← do_ (Save o); Ret o.

Record ScaleStatus := {
  st_operation : string; st_desired : Z; st_healthy : Z; st_pending : Z; st_failed : Z; st_version : string; st_deadline : string;
  st_accrued : Q; st_spend_limit : Q; st_aggregate_limit : Q; st_maximum : Z; st_cpu : Z; st_memory_mib : Z; st_disk_gib : Z;
  st_hosts : list HostFacts; st_missing : list (string * list string); st_retained : list string; st_revocations : list string; st_phase : Phase;
}.

(** What a [ScaleOperation] is built with, and the parameters of the model. *)
Record Controller := {
  my_context : list (string * string); my_config : string; my_dir : string; has_setup_probe : bool;
  enforces_deadline : ProviderInfo -> bool;
  digest_pairs : list (string * string) -> string; digest_operation : PoolDeclaration -> string -> list (string * string) -> string;
  expiry : string -> option (option Z); iso : Z -> string; from_iso : string -> Z;
}.

(** [range(a, b)] *)
Definition range (a b : Z) : list Z := map (fun n => a + Z.of_nat n) (seq 0 (Z.to_nat (b - a))).
(** [s.rsplit("-", 1)[1]] of a string with a dash *)
Fixpoint last_segment (acc s : string) : string :=
  match s with
  | EmptyString => acc
  | String c s' => if bool_decide (c = "-"%char) then last_segment s' s' else last_segment acc s'
  end.

Section scale.
Context (digest repr : string -> string) (notice_deadline : HostFacts -> Z -> string) (L : Lifecycle) (C : Controller).

(** [_identity] *)
Definition identity (p : PoolDeclaration) : string :=
  digest_pairs C [("owner", pool_owner p); ("pool", pool_name p); ("provider", pool_provider p); ("image", prof_image (profile p));
                  ("profile_version", prof_version (profile p)); ("bootstrap_version", prof_bootstrap_version (profile p))].
(** The lifecycle, bound by [_require] to the operation's deadline and generation. *)
Definition bound (o : Operation) : Lifecycle :=
  {| providers := providers L; health_check := health_check L; interruption_drain := interruption_drain L; drain_clear := drain_clear L;
     retry_attempts := retry_attempts L; reservation_seconds := reservation_seconds L; absolute_deadline := op_deadline o;
     operation_seed := match pool_identity o with Some i => if nonempty i then op_id o else "" | None => "" end |}.
#[local] Abbreviation reconcile o := (reconcile digest repr notice_deadline (bound o)).
#[local] Abbreviation drain o := (drain digest repr (bound o)).
#[local] Abbreviation force_retire o := (force_retire digest repr (bound o)).
#[local] Abbreviation inspect o := (inspect digest repr (bound o)).

(** [_require], on what was read *)
Definition require (o : option Operation) (p : PoolDeclaration) : result exn Operation :=
  match o with
  | None => Err (ValueError "scale operation has not been requested")
  | Some o =>
      raise (ValueError "pool/version does not match the durable scale operation") when (negb (bool_decide (default (op_id o) (pool_identity o) = identity p))) ;;
      raise (ValueError "provider enrollment context changed; use the admitted account, region and repository")
        when (match execution_context o with [] => false | c => negb (bool_decide (c = my_context C)) end) ;;
      Ok o
  end.
(** [_admitted] *)
Definition admitted (o : Operation) : result exn PoolDeclaration :=
  match admitted_declaration o with
  | Some p => Ok p
  | None => Err (ValueError "legacy scale operation must be requested again for durable admission")
  end.
Definition required (p : PoolDeclaration) : SM (Operation * PoolDeclaration) := o ← do_ Load; o ← pure (require o p); a ← pure (admitted o); Ret (o, a).

(** One slot of [_missing]. *)
Definition missing_slot (o : Operation) (p : PoolDeclaration) (ensure needs_deadline : bool) (occupied : HostDeclaration -> bool)
    (acc : list (string * list string)) (slot : Z) : SM (list (string * list string)) :=
  d ← host (declaration digest (bound o) p slot);
  if occupied d then Ret acc
  else
    setup ← (if has_setup_probe C then invoke (SetupMissing (decl_host_id d)) else Ret []);
    let wanted := enrollment_secret_ref (profile (decl_pool d)) in
    e ← (if ensure && negb needs_deadline && match setup with [] => true | _ => false end
         then invoke (Ensure (decl_host_id d) wanted) else invoke (Resolve (decl_host_id d)));
    now ← do_ Clock;
    let m := enrollment_missing (expiry C) e now in
    let m := match setup with [] => m | _ => fromkeys (m ++ setup) end in
    let m := if needs_deadline then m ++ ["controller-independent termination scheduler"] else m in
    let m := if nonempty (secret_ref e) && negb (bool_decide (secret_ref e = wanted)) then m ++ ["matching per-host bootstrap secret reference"] else m in
    Ret (match m with [] => acc | _ => acc ++ [(decl_host_id d, m)] end).
(** [_missing] *)
Definition missing (o : Operation) (p : PoolDeclaration) (ensure : bool) : SM (list (string * list string)) :=
  hosts ← host (inspect o p);
  let active := List.filter live hosts in
  i ← host (provider_of digest repr (bound o) p);
  let needs := bool_decide (pool_provider p = "ec2") && nonempty (op_deadline o) && negb (enforces_deadline C i) in
  foldP (missing_slot o p ensure needs
           (fun d => mem (decl_operation_id d) (map operation_id active) || mem (decl_host_id d) (map host_id active))) (range 0 (desired p)) [].

Definition count (states : list HostState) (hosts : list HostFacts) : Z :=
  Z.of_nat (List.length (List.filter (fun h => bool_decide (state h ∈ states)) hosts)).
(** The readiness [status] reports of a host. *)
Definition recheck (a : PoolDeclaration) (acc : list HostFacts) (h : HostFacts) : SM (list HostFacts) :=
  if health_check L && mem (state_value (state h)) ["bootstrapping"; "ready"] then
    r ← host (do_ (HealthCheck h a));
    Ret (acc ++ [with_state (match r.1 with Some true => READY | Some false => FAILED | None => BOOTSTRAPPING end) r.2 h])
  else Ret (acc ++ [h]).
(** [status] *)
Definition status (p : PoolDeclaration) (hosts : option (list HostFacts)) : SM ScaleStatus :=
  x ← required p;
  let '(o, a) := x in
  let p := with_desired (op_desired o) a in
  hosts ← match hosts with Some l => Ret l | None => host (inspect o p) end;
  checked ← foldP (recheck a) hosts [];
  let active := List.filter live checked in
  m ← missing o p false;
  Ret {| st_operation := op_id o; st_desired := op_desired o; st_healthy := count [READY; BUSY] active;
         st_pending := count [PROVISIONING; BOOTSTRAPPING; DRAINING] active; st_failed := count [FAILED; INTERRUPTED] active;
         st_version := exact_version o; st_deadline := op_deadline o; st_accrued := accrued o; st_spend_limit := op_spend_limit o;
         st_aggregate_limit := aggregate_limit o; st_maximum := maximum p; st_cpu := prof_cpu (profile p);
         st_memory_mib := prof_memory_mib (profile p); st_disk_gib := prof_disk_gib (profile p); st_hosts := checked; st_missing := m;
         st_retained := op_retained o; st_revocations := pending_revocations o; st_phase := phase o |}.

(** ** Retirement *)

Definition live_ids (hosts : list HostFacts) : list string := map host_id (List.filter live hosts).
Definition waiting_text (id : string) : string := (id ++ ": waiting for host termination before revocation")%string.
(** Revoke a slot's enrollment unless its host is still there. *)
Definition revoke_slot (p : PoolDeclaration) (waiting : list string) (pending : list string) (slot : Z) : SM (list string) :=
  let id := stable_host_id p slot in
  if mem id waiting then Ret (pending ++ [waiting_text id]) else l ← invoke (Revoke id); Ret (pending ++ l).
(** [_revoke] *)
Definition revoke (o : Operation) (p : PoolDeclaration) (slots : list Z) (waiting : list string) : SM Operation :=
  let kept := List.filter (fun row => negb (existsb (fun slot => startswith (stable_host_id p slot ++ ":") row) slots)) (pending_revocations o) in
  pending ← foldP (revoke_slot p waiting) slots kept;
  save (set_pending (sorted_set pending) o).

(** [_cleanup] *)
Definition cleanup_ (o : Operation) (p : PoolDeclaration) (safe : bool) : SM ScaleStatus :=
  a ← pure (admitted o);
  o ← save (set_desired 0 (set_phase Cleaning o));
  hosts ← (if safe then host (drain o p (op_deadline o) "operator-requested pool drain" None)
           else host (force_retire o p "operator-requested emergency pool stop"));
  let active := live_ids hosts in
  pending ← foldP (revoke_slot p active) (range 0 (desired a)) [];
  let pending := sorted_set pending in
  let retained := sorted_set (concat (map retained_resources hosts)) in
  retained ← match active with
             | [] => l ← host (orphaned_resources digest repr (bound o) p); Ret (sorted_set (retained ++ l))
             | _ => Ret retained
             end;
  let gone := match active, retained, pending with [], [], [] => true | _, _, _ => false end in
  o ← save (set_phase (if (gone : bool) then Cleaned else Cleaning) (set_retained retained (set_pending pending o)));
  status p (Some hosts).

(** [_retire_failed] *)
Definition failed_slot (p : PoolDeclaration) (h : HostFacts) : option Z :=
  let s := last_segment "" (host_id h) in
  if bool_decide (state h = FAILED) && startswith (pool_name p ++ "-")%string (host_id h) && is_digits s then Some (digits_value 0 s) else None.
Definition retire_failed (o : Operation) (p : PoolDeclaration) : SM unit :=
  hosts ← host (inspect o p);
  match omap (failed_slot p) hosts with
  | [] => Ret tt
  | slots => _ ← host (drain o p (op_deadline o) "retiring a failed host before replacing its slot" (Some slots)); Ret tt
  end.

(** ** Convergence *)

Definition closing (o : Operation) : bool := bool_decide (phase o = Cleaning) || bool_decide (phase o = Cleaned).
(** [_converge_locked] *)
Definition converge_locked (o : Operation) (a : PoolDeclaration) : SM ScaleStatus :=
  let p := with_desired (op_desired o) a in
  let o := fill (my_config C) (my_context C) o in
  now ← do_ Clock;
  if (from_iso C (op_deadline o) <=? now) || closing o then cleanup_ o (closing_pool p) true
  else
    o ← save (set_phase Converging o);
    _ ← retire_failed o p;
    m ← missing o p true;
    match m with
    | _ :: _ =>
        let eligible := List.filter (fun slot => negb (mem (stable_host_id p slot) (map fst m))) (range 0 (desired p)) in
        hosts ← host (reconcile o p (Some eligible));
        o ← save (set_phase AwaitingEnrollment o);
        status p (Some hosts)
    | [] =>
        hosts ← host (reconcile o p None);
        o ← save (set_retained (sorted_set (concat (map retained_resources hosts))) (set_phase Running o));
        status p (Some hosts)
    end.

Definition changed_text : string := "pool declaration changed; submit a new admitted scale request".
(** [continue_] *)
Definition continue_ (p : PoolDeclaration) : SM ScaleStatus :=
  x ← required p; _ ← check (negb (same_pool p x.2)) changed_text; converge_locked x.1 x.2.

(** [converge] *)
Definition converge (p : PoolDeclaration) (wanted : option Z) : SM ScaleStatus :=
  x ← required p;
  let '(o, a) := x in
  _ ← check (negb (same_pool p a)) changed_text;
  o ← match wanted with
      | None => Ret o
      | Some d =>
          _ ← check (d <? 0) "desired host count cannot be negative";
          _ ← check (desired a <? d) ("desired " ++ show d ++ " exceeds the " ++ show (desired a)
                ++ " host(s) this operation admitted; admit a new scale operation for more capacity");
          if d =? op_desired o then Ret o else save (set_desired d o)
      end;
  let target := op_desired o in
  if target <=? 0 then cleanup_ o (closing_pool a) true
  else
    match range target (desired a) with
    | [] => converge_locked o a
    | excess =>
        let p := with_desired target a in
        hosts ← host (drain o p (op_deadline o) ("scaling down to " ++ show target ++ " host(s)") (Some excess));
        let waiting := List.filter (fun id => mem id (map (stable_host_id p) excess)) (live_ids hosts) in
        o ← revoke o p excess waiting;
        match waiting with
        | [] => converge_locked o a
        | _ => o ← save (set_phase Draining o); status p (Some hosts)
        end
    end.

(** [cleanup] and [emergency_stop] *)
Definition cleanup (p : PoolDeclaration) : SM ScaleStatus := x ← required p; cleanup_ x.1 (closing_pool x.2) true.
Definition emergency_stop (p : PoolDeclaration) : SM ScaleStatus := x ← required p; cleanup_ x.1 (closing_pool x.2) false.

(** ** Admission *)

(** What the admitted operations of the directory add up to. *)
Record Budget := { charged : Q; limit : Q }.
Definition same_active_pool (p : PoolDeclaration) (s : Operation) : bool :=
  match admitted_declaration s with
  | Some q => bool_decide (pool_owner q = pool_owner p) && bool_decide (pool_name q = pool_name p) && negb (bool_decide (phase s = Cleaned))
  | None => false
  end.
Fixpoint siblings_budget (p : PoolDeclaration) (b : Budget) (l : list Operation) : result exn Budget :=
  match l with
  | [] => Ok b
  | s :: l' =>
      raise (ValueError "this pool already has an active scale operation; continue that operation or finish its cleanup before a new admission")
        when (same_active_pool p s) ;;
      raise (ValueError "invalid saved aggregate admission charge") when (negb (Qle_bool 0 (accrued s))) ;;
      raise (ValueError "invalid saved aggregate admission limit") when (Qle_bool (aggregate_limit s) 0) ;;
      siblings_budget p {| charged := (charged b + accrued s)%Q; limit := Qmin (limit b) (aggregate_limit s) |} l'
  end.

Definition deadline_text : string := "termination deadline must be a future absolute timestamp".
(** The checks of a declaration that is to be admitted. *)
Definition check_source (p : PoolDeclaration) : result exn unit :=
  let source := source_head (profile p) in
  raise (ValueError "profile.source_head must be an exact full source commit")
    when (nonempty source && negb (is_hex_digest 40 source || is_hex_digest 64 source)) ;;
  raise (ValueError "production scale requests require profile.source_head")
    when (bool_decide (pool_provider p = "ec2") && nonempty (endpoint (profile p)) && negb (nonempty source)) ;;
  raise (ValueError "multi-host pools require a separate {host_id} enrollment reference")
    when ((1 <? desired p) && negb (contains "{host_id}" (enrollment_secret_ref (profile p)))) ;;
  Ok tt.

Definition new_operation (p : PoolDeclaration) (limit cost : Q) (deadline : string) (now : Z) : Operation :=
  {| op_id := digest_operation C p deadline (my_context C); pool_identity := Some (identity p); op_pool := pool_name p; admitted_declaration := Some p;
     op_desired := desired p; op_maximum := maximum p; op_spend_limit := spend_limit_usd p; aggregate_limit := limit; accrued := cost;
     op_deadline := deadline;
     exact_version := (prof_image (profile p) ++ "/" ++ prof_version (profile p) ++ "/" ++ prof_bootstrap_version (profile p))%string;
     op_source_head := source_head (profile p); phase := Accepted; requested_at := iso C now; enrollment_config := my_config C;
     execution_context := my_context C; enrollment_dir := my_dir C; op_retained := []; pending_revocations := [] |}.

(** [request]; a deadline without a time zone is [None] *)
Definition request (p : PoolDeclaration) (deadline : option Z) (aggregate : option Q) : SM ScaleStatus :=
  match deadline with
  | None => fail deadline_text
  | Some deadline =>
      let text := iso C deadline in
      let agg := default (spend_limit_usd p) aggregate in
      _ ← check (Qle_bool agg 0) "aggregate spend limit must be finite and positive";
      current ← do_ Load;
      match current with
      | Some o =>
          _ ← check (negb (match admitted_declaration o with Some a => same_pool a p | None => false end)
                     || negb (bool_decide (op_deadline o = text)) || negb (Qeq_bool (aggregate_limit o) agg))
                "scale request is already admitted with different limits; use a new operation, never rewrite an existing admission";
          status p None
      | None =>
          now ← do_ Clock;
          _ ← check (deadline <=? now) deadline_text;
          _ ← pure (check_source p);
          pl ← host (plan digest repr L p);
          now ← do_ Clock;
          let hours := (inject_Z (deadline - now) / 3600)%Q in
          let cost := (estimated_hourly_usd pl * Qmax (estimated_runtime_hours p) hours)%Q in
          _ ← check (negb (Qle_bool 0 cost)) "scale cost estimate must be finite";
          _ ← check (negb (Qle_bool cost (spend_limit_usd p))) "scale request exceeds its pool spend limit";
          siblings ← do_ Siblings;
          b ← pure (siblings_budget p {| charged := 0; limit := agg |} siblings);
          _ ← check (negb (Qle_bool (charged b + cost) (limit b))) "scale request exceeds aggregate admitted worker budget";
          now ← do_ Clock;
          _ ← save (new_operation p agg cost text now);
          status p None
      end
  end.
End scale.

(** The calls of a controller. *)
Inductive ScaleCall :=
| Request (p : PoolDeclaration) (deadline : option Z) (aggregate : option Q)
| Continue (p : PoolDeclaration)
| Converge (p : PoolDeclaration) (wanted : option Z)
| Cleanup (p : PoolDeclaration)
| EmergencyStop (p : PoolDeclaration)
| Status (p : PoolDeclaration).
Definition scale_body digest repr notice_deadline L C (c : ScaleCall) : SM ScaleStatus :=
  match c with
  | Request p d a => request digest repr L C p d a
  | Continue p => continue_ digest repr notice_deadline L C p
  | Converge p w => converge digest repr notice_deadline L C p w
  | Cleanup p => cleanup digest repr L C p
  | EmergencyStop p => emergency_stop digest repr L C p
  | Status p => status digest repr L C p None
  end.
