(* ===== verification/ScaleSafety.v ===== *)
(** * What a scale operation may do ([garden/hosts/scale.py])

    For every reply of the provider, the policy, the hooks and the enrollment resolver, and a crash
    anywhere: a session launches hosts only inside the admission ([capacity_within_admission]) and
    revokes an enrollment only once its host is gone ([revoked_after_retirement]); and across any number
    of sessions on the operation files of a directory, an admission never changes
    ([admission_durable]) and the admitted charges stay within every aggregate limit
    ([aggregate_budget_respected]). *)

From Stdlib Require Import Qminmax.
From S2P Require Import Prelude PyValue Requirements Workers Effects Hosts Scale.

#[local] Open Scope list_scope.
#[local] Open Scope Z_scope.

(** ** What a session has seen *)

(** The lifecycle's part of a trace. *)
Definition host_event (e : event scmd) : option (event hcmd) :=
  match e with Ev c r => match c in scmd R return R -> option (event hcmd) with Host hc => fun r => Some (Ev hc r) | _ => fun _ => None end r end.
Definition host_events (tr : list (event scmd)) : list (event hcmd) := omap host_event tr.

(** What an admission fixes. *)
Record same_admission (o o' : Operation) : Prop := {
  sa_id : op_id o' = op_id o; sa_identity : pool_identity o' = pool_identity o; sa_pool : op_pool o' = op_pool o;
  sa_declaration : admitted_declaration o' = admitted_declaration o; sa_maximum : op_maximum o' = op_maximum o;
  sa_spend : op_spend_limit o' = op_spend_limit o; sa_aggregate : aggregate_limit o' = aggregate_limit o; sa_accrued : accrued o' = accrued o;
  sa_deadline : op_deadline o' = op_deadline o; sa_version : exact_version o' = exact_version o; sa_source : op_source_head o' = op_source_head o;
  sa_requested : requested_at o' = requested_at o;
}.
(** [o'] is a later state of [o]: the same admission, with a desired count inside it. *)
Definition descends (o o' : Operation) : Prop :=
  same_admission o o'
  /\ (op_desired o' = op_desired o \/ op_desired o' = 0 \/ exists a, admitted_declaration o = Some a /\ 0 <= op_desired o' <= desired a).

Section discipline.
Context (C : Controller).

(** Capacity may be added: the operation was open when it was read, the intent has been saved with a
    count inside the admission, the deadline has not passed, and the pass itself is permitted. *)
Definition converging (tr : list (event scmd)) (o : Operation) (a : PoolDeclaration) : Prop :=
  (exists o0, Ev Load (Some o0) ∈ tr /\ closing o0 = false /\ descends o0 o) /\ Ev (Save o) tt ∈ tr /\ phase o = Converging
  /\ admitted_declaration o = Some a /\ exists now, Ev Clock now ∈ tr /\ now < from_iso C (op_deadline o).
Definition launchable (tr : list (event scmd)) (d : HostDeclaration) : Prop :=
  exists o a, converging tr o a
    /\ permitted (with_desired (op_desired o) a) (funded (with_desired (op_desired o) a)) (host_events tr) (Provision d).
(** A destruction is a pass's over the admitted pool. *)
Definition retirable {R} (tr : list (event scmd)) (c : hcmd R) : Prop :=
  exists o a n on, Ev Load (Some o) ∈ tr /\ admitted_declaration o = Some a /\ permitted (resized n on a) (fun _ => True) (host_events tr) c.

(** No host of the pool with this id is left: the provider has reported all of the pool's, and each live
    one with this id has been destroyed, with a reply that shows it terminated. *)
Definition gone (tr : list (event scmd)) (id : string) : Prop :=
  exists owner pool found, Ev (Host (Discover owner pool)) (Ok found) ∈ tr
    /\ forall h, h ∈ found -> host_id h = id -> live h = true ->
         exists r del, Ev (Host (Destroy (provider_id h) del)) (Ok r) ∈ tr /\ (live r = false \/ host_id r <> id).

(** An admission: the first record of an operation, within the budgets of the directory. *)
Definition admission (tr : list (event scmd)) (o : Operation) : Prop :=
  exists p siblings b, Ev Load None ∈ tr /\ Ev Siblings siblings ∈ tr
    /\ admitted_declaration o = Some p /\ op_desired o = desired p /\ validate p = Ok tt
    /\ siblings_budget p {| charged := 0; limit := aggregate_limit o |} siblings = Ok b
    /\ (0 <= accrued o)%Q /\ (accrued o <= op_spend_limit o)%Q /\ (charged b + accrued o <= limit b)%Q.

Definition scale_ok (tr : list (event scmd)) (x : event scmd) : Prop :=
  match x with Ev c _ =>
    match c with
    | Save o => (exists o0, Ev Load (Some o0) ∈ tr /\ descends o0 o) \/ admission tr o
    | Host hc => match hc with
                 | Provision d => launchable tr d
                 | Destroy _ _ | StopHost _ | StartHost _ | Admit _ _ _ | Renew _ _ | Activate _ _ _ | ReleaseAdmission _ _ => retirable tr hc
                 | _ => True
                 end
    | Ensure _ _ => exists o a, converging tr o a
    | Revoke id => gone tr id
    | _ => True
    end
  end.
End discipline.

(** ** Directories of operation files *)

(** What an event of a session on the file [path] does to the directory. *)
Definition file_step (path : string) (dir : gmap string Operation) (x : event scmd) (dir' : gmap string Operation) : Prop :=
  match x with Ev c r =>
    match c in scmd R return R -> Prop with
    | Load => fun r => r = dir !! path /\ dir' = dir
    | Siblings => fun r => r ≡ₚ map snd (map_to_list (delete path dir)) /\ dir' = dir
    | Save o => fun _ => dir' = <[path := o]> dir
    | _ => fun _ => dir' = dir
    end r
  end.
Inductive plays (path : string) : gmap string Operation -> list (event scmd) -> gmap string Operation -> Prop :=
| plays_nil dir : plays path dir [] dir
| plays_cons dir x dir1 tr dir2 : file_step path dir x dir1 -> plays path dir1 tr dir2 -> plays path dir (x :: tr) dir2.

(** A session: a call, run under the directory's lock up to any point, with any replies. *)
Definition session digest repr notice_deadline (dir dir' : gmap string Operation) : Prop :=
  exists L C call path tr o, exec (scale_body digest repr notice_deadline L C call) tr o /\ plays path dir tr dir'.

Definition total (dir : gmap string Operation) : Q := foldr Qplus 0%Q (map accrued (map snd (map_to_list dir))).
(** The state of an operation stays inside its admission. *)
Definition enveloped (o : Operation) : Prop :=
  (0 <= accrued o)%Q /\ (accrued o <= op_spend_limit o)%Q /\ exists a, admitted_declaration o = Some a /\ 0 <= op_desired o <= desired a.

(** ** Draining accounts for every host *)

Section accounting.
Context (digest repr : string -> string) (L : Lifecycle) (p : PoolDeclaration).
#[local] Abbreviation anything := (fun (_ : list (event hcmd)) (_ : event hcmd) => True).

Definition destroyed (tr : list (event hcmd)) (h : HostFacts) (l : list HostFacts) : Prop :=
  exists r del, Ev (Destroy (provider_id h) del) (Ok r) ∈ tr /\ r ∈ l.
(** Every live host the provider reported is still in the result, or was destroyed with a reply that is. *)
Definition accounted_for (found l : list HostFacts) (tr : list (event hcmd)) : Prop :=
  forall h, h ∈ found -> live h = true -> host_id h ∈ live_ids l \/ destroyed tr h l.
Definition accounted (l : list HostFacts) (tr : list (event hcmd)) : Prop :=
  exists found, Ev (Discover (pool_owner p) (pool_name p)) (Ok found) ∈ tr /\ accounted_for found l tr.

Lemma in_left {A} (x : A) l t : x ∈ l -> x ∈ l ++ t.
Proof. intros H. apply elem_of_app. by left. Qed.
Lemma in_end {A} (x : A) l : x ∈ l ++ [x].
Proof. apply elem_of_app. right. by left. Qed.
#[local] Hint Resolve in_left in_end : core.

Lemma any_safe {A} (m : M A) tr : safe anything m tr (fun _ tr' => exists t, tr' = tr ++ t).
Proof. eapply safe_mono; [|apply safe_extends, safe_true]. by intros r tr' [_ ?]. Qed.
Lemma any_bind {A B} (m : M A) (f : A -> M B) tr Q :
  (forall e t, Q (Err e) (tr ++ t)) -> (forall a t, safe anything (f a) (tr ++ t) Q) -> safe anything (m ≫= f) tr Q.
Proof. intros He Hf. apply safe_bind. eapply safe_mono; [|apply any_safe]. intros [a|e] tr' [t ->]; [apply Hf|apply He]. Qed.

Lemma retire_destroys slot h tr : safe anything (retire_host digest L p slot h) tr
  (fun r tr' => match r with Ok h' => exists del, Ev (Destroy (provider_id h) del) (Ok h') ∈ tr' | Err _ => True end).
Proof.
  unfold retire_host. do 2 (apply any_bind; [done|]; intros ? ?). apply safe_invoke. intros [h'|e]; (split; [done|]); eauto.
Qed.

Lemma live_ids_in h l : h ∈ l -> live h = true -> host_id h ∈ live_ids l.
Proof. intros Hin Hl. apply list_elem_of_fmap. exists h. split; [done|]. apply list_elem_of_In, filter_In. split; [by apply list_elem_of_In|done]. Qed.
Lemma live_ids_app id l1 l2 : id ∈ live_ids l1 -> id ∈ live_ids (l1 ++ l2).
Proof. unfold live_ids. rewrite List.filter_app, map_app. auto. Qed.

(** What one step of the loops leaves of host [h]. *)
Definition stepped (h : HostFacts) (x : list HostFacts) (r : result herr (list HostFacts * list HostEvent)) (tr : list (event hcmd)) : Prop :=
  match r with
  | Ok y => (exists h', y.1 = x ++ [h'] /\ (live h = true -> (live h' = true /\ host_id h' = host_id h) \/ exists del, Ev (Destroy (provider_id h) del) (Ok h') ∈ tr))
  | Err _ => True
  end.

Lemma drain_one_steps d t slots x h tr : safe anything (drain_one digest repr L p d t slots x h) tr (stepped h x.1).
Proof.
  unfold drain_one. destruct (live h) eqn:Hh; cbn [negb].
  2:{ exists h. split; [done|]. by rewrite Hh. }
  apply any_bind; [done|]. intros inside t1. destruct inside; cbn [negb].
  2:{ exists h. split; [done|]. by left. }
  apply any_bind; [done|]. intros ready t2. destruct ready; cbn [negb].
  2:{ eexists. split; [done|]. by left. }
  apply any_bind; [done|]. intros slot t3. apply safe_bind. eapply safe_mono; [|apply retire_destroys]. intros [h'|e] tr' Hd; [|done]. cbn [then_].
  destruct Hd as [del Hd]. apply any_bind; [done|]. intros _ t4. exists h'. split; [done|]. right. exists del. auto.
Qed.
Lemma force_one_steps t x h tr : safe anything (force_one digest repr L p t x h) tr (stepped h x.1).
Proof.
  unfold force_one. destruct (live h) eqn:Hh; cbn [negb].
  2:{ exists h. split; [done|]. by rewrite Hh. }
  apply any_bind; [done|]. intros slot t3. apply safe_bind. eapply safe_mono; [|apply retire_destroys]. intros [h'|e] tr' Hd; [|done]. cbn [then_].
  destruct Hd as [del Hd]. apply any_bind; [done|]. intros _ t4. exists h'. split; [done|]. right. exists del. auto.
Qed.

Lemma fold_accounts (f : list HostFacts * list HostEvent -> HostFacts -> M (list HostFacts * list HostEvent)) hosts tr :
  (forall x h tr, safe anything (f x h) tr (stepped h x.1)) ->
  safe anything (foldP f hosts ([], [])) tr (fun r tr' => match r with Ok x => accounted_for hosts x.1 tr' | Err _ => True end).
Proof.
  intros Hf. apply (safe_fold_split anything (fun done x tr' => accounted_for done x.1 tr') (fun _ _ => True)).
  { intros h Hh. by apply elem_of_nil in Hh. }
  intros done x rest s tr1 _ Hs. eapply safe_mono; [|apply safe_extends, Hf]. intros [y|e] tr2 [Hy [t ->]]; [|done].
  destruct Hy as (h' & Hy & Hh'). rewrite Hy. intros h [Hin|Hin%list_elem_of_singleton]%elem_of_app Hl.
  - destruct (Hs h Hin Hl) as [H|(r & del & H1 & H2)]; [left; by apply live_ids_app|right; exists r, del; auto].
  - subst h. destruct (Hh' Hl) as [[H1 H2]|[del H]].
    + left. rewrite <- H2. apply live_ids_in; auto.
    + right. exists h', del. auto.
Qed.

Lemma retire_all_accounts (f : list HostFacts * list HostEvent -> HostFacts -> M (list HostFacts * list HostEvent)) tr :
  (forall x h tr, safe anything (f x h) tr (stepped h x.1)) ->
  safe anything (
    _ ← validated p;
    _ ← provider_of digest repr L p;
    hosts ← discover_sorted p;
    x ← foldP f hosts ([], []);
    pl ← plan digest repr L p;
    _ ← record p x.1 x.2 pl;
    Ret x.1) tr (fun r tr' => match r with Ok l => accounted l tr' | Err _ => True end).
Proof.
  intros Hf. do 2 (apply any_bind; [done|]; intros ? ?). apply safe_bind. unfold discover_sorted. apply safe_bind, safe_invoke.
  intros [found|e]; (split; [done|]); [|done]. cbn [then_ safe]. apply safe_bind. eapply safe_mono; [|apply safe_extends, fold_accounts, Hf].
  intros [x|e] tr' [Hx [t' ->]]; [|done]. cbn [then_]. do 2 (apply any_bind; [done|]; intros ? ?).
  exists found. split; [auto 8|].
  intros h Hh Hl. destruct (Hx h ltac:(by apply by_host_id_in) Hl) as [H|(r & del & H1 & H2)]; [by left|right]. exists r, del. split; [|done]. auto.
Qed.
Lemma drain_accounts d t slots tr : safe anything (drain digest repr L p d t slots) tr (fun r tr' => match r with Ok l => accounted l tr' | Err _ => True end).
Proof. apply retire_all_accounts. intros. apply drain_one_steps. Qed.
Lemma force_accounts t tr : safe anything (force_retire digest repr L p t) tr (fun r tr' => match r with Ok l => accounted l tr' | Err _ => True end).
Proof. apply retire_all_accounts. intros. apply force_one_steps. Qed.
End accounting.

(** ** Admissions are kept *)

Lemma same_admission_refl o : same_admission o o.
Proof. by constructor. Qed.
Lemma same_admission_trans o1 o2 o3 : same_admission o1 o2 -> same_admission o2 o3 -> same_admission o1 o3.
Proof. intros [] []. constructor; congruence. Qed.
Lemma descends_refl o : descends o o.
Proof. split; [apply same_admission_refl|by left]. Qed.
(** A record update that keeps the admission and the desired count. *)
Lemma descends_keep o0 o o' : same_admission o o' -> op_desired o' = op_desired o -> descends o0 o -> descends o0 o'.
Proof. intros Hs Hd [H1 H2]. split; [by eapply same_admission_trans|]. by rewrite Hd. Qed.
Lemma descends_phase o0 ph o : descends o0 o -> descends o0 (set_phase ph o).
Proof. by apply descends_keep. Qed.
Lemma descends_retained o0 l o : descends o0 o -> descends o0 (set_retained l o).
Proof. by apply descends_keep. Qed.
Lemma descends_pending o0 l o : descends o0 o -> descends o0 (set_pending l o).
Proof. by apply descends_keep. Qed.
Lemma descends_fill o0 x y o : descends o0 o -> descends o0 (fill x y o).
Proof. by apply descends_keep. Qed.
Lemma descends_desired o0 d o : descends o0 o -> d = 0 \/ (exists a, admitted_declaration o0 = Some a /\ 0 <= d <= desired a) -> descends o0 (set_desired d o).
Proof. intros [Hs _] Hd. split; [by eapply same_admission_trans|]. by right. Qed.
Create HintDb scale.
#[local] Hint Resolve descends_refl descends_phase descends_retained descends_pending descends_fill in_left in_end : scale.

(** ** Sessions *)

Lemma host_events_app tr R (c : hcmd R) r : host_events (tr ++ [Ev (Host c) r]) = host_events tr ++ [Ev c r].
Proof. unfold host_events. by rewrite omap_app. Qed.
Definition as_host (x : event hcmd) : event scmd := match x with Ev c r => Ev (Host c) r end.
Lemma host_event_in x tr : x ∈ host_events tr -> as_host x ∈ tr.
Proof.
  intros (y & Hy & He)%list_elem_of_omap. enough (as_host x = y) as -> by done.
  destruct y as [R d r]. destruct d; try done. cbn in He. by injection He as <-.
Qed.

Create HintDb neutral.
Section sessions.
Context (digest repr : string -> string) (notice_deadline : HostFacts -> Z -> string) (L : Lifecycle) (C : Controller).
#[local] Abbreviation ok := (scale_ok C).

Definition licit {A} (m : SM A) (tr : list (event scmd)) : Prop := safe ok m tr (fun _ _ => True).
(** Commands that need no permission. *)
Definition neutral_command {R} (c : scmd R) : Prop :=
  match c with Save _ | Ensure _ _ | Revoke _ => False | Host hc => mutates hc = false | _ => True end.
Definition neutral {A} : SM A -> Prop := only (@neutral_command).

Lemma neutral_ok tr R (c : scmd R) r : neutral_command c -> ok tr (Ev c r).
Proof. intros Hc. destruct c as [R c| | | | | | | |]; try done. by destruct c. Qed.
Lemma fine_neutral {A} (m : SM A) tr : neutral m -> licit m tr.
Proof. intros Hm. eapply safe_mono; [|eapply only_safe, Hm; intros; by apply neutral_ok]. done. Qed.
Lemma licit_bind {A B} (m : SM A) (f : A -> SM B) tr : licit m tr -> (forall a t, licit (f a) (tr ++ t)) -> licit (m ≫= f) tr.
Proof.
  intros Hm Hf. apply safe_bind. eapply safe_mono; [|apply safe_extends, Hm]. intros [a|e] tr'; [|done]. intros [_ [t ->]]. apply Hf.
Qed.
Lemma licit_fold {S A} (f : S -> A -> SM S) l s tr : (forall s x t, x ∈ l -> licit (f s x) (tr ++ t)) -> licit (foldP f l s) tr.
Proof.
  revert s tr. induction l as [|x l IH]; intros s tr Hf; cbn [foldP]; [done|].
  apply licit_bind; [rewrite <- (app_nil_r tr); apply Hf; by left|]. intros s' t. apply IH. intros s1 y t' Hy. rewrite <- app_assoc. apply Hf. by right.
Qed.

Lemma neutral_bind {A B} (m : SM A) (f : A -> SM B) : neutral m -> (forall a, neutral (f a)) -> neutral (m ≫= f).
Proof. apply only_bind. Qed.
Lemma neutral_fold {S A} (f : S -> A -> SM S) l s : (forall s x, neutral (f s x)) -> neutral (foldP f l s).
Proof. apply only_fold. Qed.
Lemma neutral_host {A} (m : M A) : silent m -> neutral (host m).
Proof. unfold silent, neutral, host. induction m as [a|e|R c k IH]; cbn; [done|done|]. intros [Hc Hk]. split; [done|]. intros r. by apply IH. Qed.
Lemma neutral_pure {A} (r : result exn A) : neutral (pure r).
Proof. by destruct r. Qed.
Lemma neutral_check b m : neutral (check b m).
Proof. by destruct b. Qed.
Lemma silent_inspect o p : silent (inspect digest repr (bound L o) p).
Proof. unfold inspect. apply silent_bind_; [apply silent_validated|]. intros _. apply silent_bind_; [apply silent_provider|]. intros _.
  apply silent_bind_; [apply silent_discover|]. intros hs. apply silent_bind_; [apply silent_read|done]. Qed.
Lemma silent_orphans o p : silent (orphaned_resources digest repr (bound L o) p).
Proof. unfold orphaned_resources. apply silent_bind_; [apply silent_provider|]. intros i. destruct (has_orphans i); [|done]. by apply silent_bind_; [apply only_invoke|]. Qed.
#[local] Hint Resolve neutral_pure neutral_check : neutral.
Ltac neutral :=
  repeat match goal with
    | |- neutral (Ret _) => exact I
    | |- neutral (Throw _) => exact I
    | |- neutral (fail _) => exact I
    | |- neutral (let _ := _ in _) => cbv zeta
    | |- neutral (host _) => apply neutral_host
    | |- neutral (do_ _) => apply only_do; exact I
    | |- neutral (invoke _) => apply only_invoke; exact I
    | |- neutral (foldP _ _ _) => apply neutral_fold; intros ? ?
    | |- neutral (_ ≫= _) => apply neutral_bind; [|intros ?]
    | |- neutral (if ?b then _ else _) => destruct b
    | |- neutral (match ?x with _ => _ end) => destruct x
    | |- silent (declaration _ _ _ _) => apply silent_declaration
    | |- silent (provider_of _ _ _ _) => apply silent_provider
    | |- silent (inspect _ _ _ _) => apply silent_inspect
    | |- silent (orphaned_resources _ _ _ _) => apply silent_orphans
    | |- silent (do_ _) => apply only_do; reflexivity
    | |- _ => solve [auto with neutral]
    end.

Lemma neutral_required p : neutral (required C p).
Proof. unfold required. neutral. Qed.
#[local] Hint Resolve neutral_required : neutral.
Lemma neutral_missing o p : neutral (missing digest repr L C o p false).
Proof. unfold missing, missing_slot. cbn [andb]. neutral. Qed.
#[local] Hint Resolve neutral_missing : neutral.
Lemma neutral_status p hosts : neutral (status digest repr L C p hosts).
Proof. unfold status, recheck. neutral. Qed.

(** A program of the lifecycle, under its own discipline. *)
Lemma host_safe {A} (okH : list (event hcmd) -> event hcmd -> Prop) (m : M A) tr (Q : result herr A -> list (event hcmd) -> Prop) :
  (forall t R (c : hcmd R) r, okH (host_events (tr ++ t)) (Ev c r) -> ok (tr ++ t) (Ev (Host c) r)) ->
  safe okH m (host_events tr) Q ->
  safe ok (host m) tr (fun r tr' => (exists t, tr' = tr ++ t) /\ Q r (host_events tr')).
Proof.
  intros Hok Hm. apply (safe_hoist (@Host) host_events host_events_app (fun tr' => exists t, tr' = tr ++ t) ok okH m tr Q); [| | |exact Hm].
  - intros tr' R c r [t ->] H. by apply Hok.
  - intros tr' R c r [t ->]. exists (t ++ [Ev (Host c) r]). by rewrite app_assoc.
  - exists []. by rewrite app_nil_r.
Qed.

Lemma converging_app tr t o a : converging C tr o a -> converging C (tr ++ t) o a.
Proof. intros ((o0 & H1 & H2) & H3 & H4 & H5 & now & H6 & H7). split; [exists o0; auto with scale|]. split; [auto with scale|]. split; [done|]. split; [done|]. exists now. auto with scale. Qed.
Lemma gone_app tr t id : gone tr id -> gone (tr ++ t) id.
Proof.
  intros (owner & pool & found & H1 & H2). exists owner, pool, found. split; [auto with scale|]. intros h Hh Hid Hl.
  destruct (H2 h Hh Hid Hl) as (r & del & H3 & H4). exists r, del. auto with scale.
Qed.
#[local] Hint Resolve converging_app gone_app : scale.

(** Draining launches nothing. *)
Definition launches {R} (c : hcmd R) : bool := match c with Provision _ => true | _ => false end.
Definition launchless {A} : M A -> Prop := only (fun R c => launches c = false).
Lemma launchless_silent {A} (m : M A) : silent m -> launchless m.
Proof. unfold silent, launchless. induction m as [a|e|R c k IH]; cbn; [done|done|]. intros [Hc Hk]. split; [by destruct c|]. intros r. by apply IH. Qed.
Lemma launchless_bind {A B} (m : M A) (f : A -> M B) : launchless m -> (forall a, launchless (f a)) -> launchless (m ≫= f).
Proof. apply only_bind. Qed.
Lemma launchless_retire lc p slot h : launchless (retire_host digest lc p slot h).
Proof.
  unfold retire_host. apply launchless_bind; [apply launchless_silent, silent_declaration|]. intros d.
  apply launchless_bind; [by apply only_invoke|]. intros _. by apply only_invoke.
Qed.
Lemma launchless_retire_all lc p (f : list HostFacts * list HostEvent -> HostFacts -> M (list HostFacts * list HostEvent)) :
  (forall x h, launchless (f x h)) ->
  launchless (_ ← validated p; _ ← provider_of digest repr lc p; hosts ← discover_sorted p; x ← foldP f hosts ([], []);
              pl ← plan digest repr lc p; _ ← record p x.1 x.2 pl; Ret x.1).
Proof.
  intros Hf. apply launchless_bind; [apply launchless_silent, silent_validated|]. intros _.
  apply launchless_bind; [apply launchless_silent, silent_provider|]. intros _.
  apply launchless_bind; [apply launchless_silent, silent_sorted|]. intros hs.
  apply launchless_bind; [by apply only_fold|]. intros x. apply launchless_bind; [apply launchless_silent, silent_plan|]. intros pl.
  apply launchless_bind; [apply launchless_silent, silent_record|done].
Qed.
Lemma launchless_drain lc p d t slots : launchless (drain digest repr lc p d t slots).
Proof.
  apply launchless_retire_all. intros x h. unfold drain_one. destruct (negb _); [done|].
  apply launchless_bind; [destruct slots; [apply launchless_bind; [apply launchless_silent, silent_slot|done]|done]|]. intros inside. destruct (negb _); [done|].
  apply launchless_bind; [by destruct (interruption_drain lc)|]. intros ready. destruct (negb _); [done|].
  apply launchless_bind; [apply launchless_silent, silent_slot|]. intros slot. apply launchless_bind; [apply launchless_retire|]. intros r.
  apply launchless_bind; [apply launchless_silent, silent_clear|done].
Qed.
Lemma launchless_force lc p t : launchless (force_retire digest repr lc p t).
Proof.
  apply launchless_retire_all. intros x h. unfold force_one. destruct (negb _); [done|].
  apply launchless_bind; [apply launchless_silent, silent_slot|]. intros slot. apply launchless_bind; [apply launchless_retire|]. intros r.
  apply launchless_bind; [apply launchless_silent, silent_clear|done].
Qed.

(** A pass over the admitted pool, with its launches. *)
Lemma pass_ok tr p F o a n on R (c : hcmd R) r :
  Ev Load (Some o) ∈ tr -> admitted_declaration o = Some a -> p = resized n on a -> disciplined p F (host_events tr) (Ev c r) ->
  match c with Provision d => launchable C tr d | _ => True end -> ok tr (Ev (Host c) r).
Proof.
  intros Hl Ha -> Hd Hp. destruct c; cbn in *; try done; exists o, a, n, on; (split; [done|]); (split; [done|]); cbn; try done.
  destruct Hd as (_ & H1 & H2 & H3). by split.
Qed.

Lemma accounted_gone p l tr id : accounted p l (host_events tr) -> (id ∉ live_ids l) -> gone tr id.
Proof.
  intros (found & Hf & Ha) Hid. exists (pool_owner p), (pool_name p), found. split; [by apply (host_event_in (Ev _ _))|].
  intros h Hh Heq Hl. destruct (Ha h Hh Hl) as [H|(r & del & H1 & H2)]; [by rewrite Heq in H|].
  exists r, del. split; [by apply (host_event_in (Ev _ _))|]. destruct (live r) eqn:Hr; [right|by left]. intros <-. apply Hid. by apply live_ids_in.
Qed.

(** Draining or forcing, as the operation does it. *)
Lemma retiring_ok (m : M (list HostFacts)) tr p o a n on :
  Ev Load (Some o) ∈ tr -> admitted_declaration o = Some a -> p = resized n on a ->
  (forall tr, safe (disciplined p (fun _ => True)) m tr (fun _ _ => True)) -> launchless m ->
  (forall tr, safe (fun _ _ => True) m tr (fun r tr' => match r with Ok l => accounted p l tr' | Err _ => True end)) ->
  safe ok (host m) tr (fun r tr' => (exists t, tr' = tr ++ t) /\ match r with Ok l => forall id, (id ∉ live_ids l) -> gone tr' id | Err _ => True end).
Proof.
  intros Hl Ha Hp Hd Hn Hq.
  pose proof (only_safe _ (fun _ x => match x with Ev c _ => launches c = false end) m (host_events tr) (fun tr R c r H => H) Hn) as Hn'.
  pose proof (safe_both _ _ _ _ _ _ (Hd (host_events tr)) (safe_both _ _ _ _ _ _ Hn' (Hq (host_events tr)))) as Hm.
  eapply safe_mono; [|eapply host_safe; [|exact Hm]].
  - intros [l|e] tr' [Ht (_ & _ & Hacc)]; (split; [done|]); [|done]. intros id. by apply (accounted_gone p).
  - intros t R c r (H1 & H2 & _). apply (pass_ok _ p (fun _ => True) o a n on); auto with scale. by destruct c.
Qed.

(** ** The methods *)

Lemma fine_status p hosts tr : licit (status digest repr L C p hosts) tr.
Proof. apply fine_neutral, neutral_status. Qed.
Lemma save_bind {B} o (f : Operation -> SM B) tr :
  (exists o0, Ev Load (Some o0) ∈ tr /\ descends o0 o) \/ admission tr o -> licit (f o) (tr ++ [Ev (Save o) tt]) -> licit (save o ≫= f) tr.
Proof. intros Ho Hf. apply safe_bind. intros []. split; [exact Ho|exact Hf]. Qed.
Lemma fine_revoke_slot p waiting l slot tr :
  (mem (stable_host_id p slot) waiting = false -> gone tr (stable_host_id p slot)) -> licit (revoke_slot p waiting l slot) tr.
Proof.
  intros Hg. unfold revoke_slot. destruct (mem _ _); [done|]. apply safe_bind, safe_invoke. intros r. split; [by apply Hg|]. by destruct r.
Qed.
Lemma fine_revoke_fold p waiting slots l tr :
  (forall slot, slot ∈ slots -> mem (stable_host_id p slot) waiting = false -> gone tr (stable_host_id p slot)) -> licit (foldP (revoke_slot p waiting) slots l) tr.
Proof. intros Hg. apply licit_fold. intros s slot t Hs. apply fine_revoke_slot. intros Hm. auto with scale. Qed.

(** The operation as the session holds it. *)
Definition holds (tr : list (event scmd)) (o : Operation) (a : PoolDeclaration) : Prop :=
  admitted_declaration o = Some a /\ exists o0, Ev Load (Some o0) ∈ tr /\ descends o0 o.
Lemma holds_app tr t o a : holds tr o a -> holds (tr ++ t) o a.
Proof. intros (Ha & o0 & H1 & H2). split; [done|]. exists o0. auto with scale. Qed.
Lemma holds_loaded tr o a : holds tr o a -> exists o0, Ev Load (Some o0) ∈ tr /\ admitted_declaration o0 = Some a /\ descends o0 o.
Proof. intros (Ha & o0 & H1 & H2). exists o0. split; [done|]. split; [|done]. destruct H2 as [H2 _]. rewrite <- (sa_declaration _ _ H2). done. Qed.
#[local] Hint Resolve holds_app : scale.
Lemma holds_save {B} tr o a o' (f : Operation -> SM B) :
  holds tr o a -> (forall o0, descends o0 o -> descends o0 o') -> admitted_declaration o' = admitted_declaration o ->
  (holds (tr ++ [Ev (Save o') tt]) o' a -> licit (f o') (tr ++ [Ev (Save o') tt])) -> licit (save o' ≫= f) tr.
Proof.
  intros (Ha & o0 & H1 & H2) Hd He Hf. apply save_bind; [left; exists o0; auto|]. apply Hf. split; [congruence|]. exists o0. auto with scale.
Qed.

Lemma fine_revoke o a p slots waiting tr :
  holds tr o a -> (forall slot, slot ∈ slots -> mem (stable_host_id p slot) waiting = false -> gone tr (stable_host_id p slot)) ->
  licit (revoke o p slots waiting) tr.
Proof.
  intros Ho Hg. unfold revoke. apply licit_bind; [by apply fine_revoke_fold|]. intros pending t. destruct (holds_loaded _ _ _ Ho) as (o0 & H1 & _ & H2).
  intros []. split; [|done]. left. exists o0. auto with scale.
Qed.

Lemma cleanup_fine o a n on safely tr : holds tr o a -> licit (cleanup_ digest repr L C o (resized n on a) safely) tr.
Proof.
  intros Ho. unfold cleanup_. pose proof (proj1 Ho) as Ha. unfold admitted. rewrite Ha. cbn [pure]. apply safe_bind. cbn [safe then_].
  apply (holds_save tr o a); [done|intros; apply descends_desired; [by apply descends_phase|by left]|done|]. intros Ho1.
  set (o1 := set_desired 0 (set_phase Cleaning o)) in *. destruct (holds_loaded _ _ _ Ho1) as (o0 & Hl & Ha0 & _).
  apply safe_bind. eapply safe_mono with (Q := fun r tr' => (exists t, tr' = (tr ++ [Ev (Save o1) tt]) ++ t)
    /\ match r with Ok l => forall id, (id ∉ live_ids l) -> gone tr' id | Err _ => True end).
  2:{ destruct safely; apply (retiring_ok _ _ (resized n on a) o0 a n on); try done.
      - intros. apply drain_ok. - apply launchless_drain. - intros. apply drain_accounts.
      - intros. apply force_retire_ok. - apply launchless_force. - intros. apply force_accounts. }
  intros [hosts|e] tr2 [[t ->] Hg]; [|done]. cbn [then_]. cbv zeta. apply (holds_app _ t) in Ho1. revert Ho1 Hg. generalize ((tr ++ [Ev (Save o1) tt]) ++ t) as tr3. clear.
  intros tr3 Ho1 Hg. apply licit_bind.
  { apply fine_revoke_fold. intros slot _ Hm. apply Hg. by apply mem_false in Hm. }
  intros pending t. apply licit_bind; [apply fine_neutral; neutral|]. intros retained t'.
  eapply holds_save; [by do 2 apply holds_app|intros; auto with scale|done|]. intros _. apply fine_status.
Qed.

Lemma retire_failed_fine o a p n on tr : holds tr o a -> p = resized n on a -> licit (retire_failed digest repr L o p) tr.
Proof.
  intros Ho Hp. unfold retire_failed. apply licit_bind; [apply fine_neutral; neutral|]. intros hosts t. destruct (omap _ _) as [|x slots]; [done|].
  destruct (holds_loaded _ _ _ Ho) as (o0 & Hl & Ha0 & _). apply licit_bind; [|done].
  eapply safe_mono; [|apply (retiring_ok _ _ p o0 a n on);
    [auto with scale|done|done|intros; apply drain_ok|apply launchless_drain|intros; apply drain_accounts]]. done.
Qed.

Lemma missing_fine o p a tr : converging C tr o a -> licit (missing digest repr L C o p true) tr.
Proof.
  intros Hc. unfold missing. apply licit_bind; [apply fine_neutral; neutral|]. intros hosts t1. cbv zeta. apply licit_bind; [apply fine_neutral; neutral|].
  intros i t2. apply licit_fold. intros acc slot t3 _. unfold missing_slot. apply licit_bind; [apply fine_neutral; neutral|]. intros d t4.
  destruct (_ || _); [done|]. apply licit_bind; [apply fine_neutral; neutral|]. intros setup t5. cbv zeta. apply licit_bind.
  - destruct (_ && _); [|apply fine_neutral; neutral]. apply safe_invoke. intros r. split; [|by destruct r].
    exists o, a. auto 8 with scale.
  - intros e t6. apply licit_bind; [apply fine_neutral; neutral|]. intros now t7. done.
Qed.

Lemma reconcile_fine o a tr eligible :
  converging C tr o a -> licit (host (reconcile digest repr notice_deadline (bound L o) (with_desired (op_desired o) a) eligible)) tr.
Proof.
  intros Hc. pose proof Hc as ((o0 & H1 & _ & H2) & _ & _ & Ha & _).
  eapply safe_mono; [|eapply host_safe; [|apply reconcile_ok]]; [done|].
  intros t R c r Hd. eapply (pass_ok _ _ _ o0 a (op_desired o) (enabled a)); [auto with scale| |reflexivity|exact Hd|].
  - destruct H2 as [H2 _]. by rewrite <- (sa_declaration _ _ H2).
  - destruct c; try done. exists o, a. split; [auto with scale|exact Hd].
Qed.

Lemma converge_locked_fine o0 o a tr :
  Ev Load (Some o0) ∈ tr -> descends o0 o -> phase o = phase o0 -> admitted_declaration o = Some a ->
  licit (converge_locked digest repr notice_deadline L C o a) tr.
Proof.
  intros Hl Hd Hph Ha. unfold converge_locked. cbv zeta. apply safe_bind. intros now. split; [done|]. cbn [safe then_].
  set (p := with_desired (op_desired o) a). set (o1 := fill (my_config C) (my_context C) o).
  assert (Ho1 : holds (tr ++ [Ev Clock now]) o1 a) by (split; [done|]; exists o0; unfold o1; auto with scale).
  destruct (_ || _) eqn:Hclose; [exact (cleanup_fine o1 a 0 true true _ Ho1)|]. apply orb_false_iff in Hclose as [Htime Hopen]. apply Z.leb_gt in Htime.
  eapply holds_save; [exact Ho1|intros; auto with scale|done|]. intros Ho2. set (o2 := set_phase Converging o1) in *.
  assert (Hc : converging C ((tr ++ [Ev Clock now]) ++ [Ev (Save o2) tt]) o2 a).
  { split; [|split; [|split; [done|split; [done|]]]].
    - exists o0. split; [auto with scale|]. split; [|unfold o2, o1; auto with scale]. unfold closing in *. cbn in Hopen. by rewrite Hph in Hopen.
    - auto with scale.
    - exists now. split; [auto with scale|exact Htime]. }
  revert Ho2 Hc. generalize ((tr ++ [Ev Clock now]) ++ [Ev (Save o2) tt]) as tr2. intros tr2 Ho2 Hc.
  apply licit_bind; [by apply (retire_failed_fine o2 a _ (op_desired o) (enabled a))|]. intros _ t1.
  apply licit_bind; [apply (missing_fine _ _ a); auto with scale|]. intros m t2. destruct m as [|x m].
  - apply licit_bind; [apply (reconcile_fine o2 a); auto with scale|]. intros hosts t3.
    eapply holds_save; [do 3 apply holds_app; exact Ho2|intros; auto with scale|done|]. intros _. apply fine_status.
  - apply licit_bind; [apply (reconcile_fine o2 a); auto with scale|]. intros hosts t3.
    eapply holds_save; [do 3 apply holds_app; exact Ho2|intros; auto with scale|done|]. intros _. apply fine_status.
Qed.

Lemma required_post p tr : safe ok (required C p) tr
  (fun r tr' => match r with Ok x => Ev Load (Some x.1) ∈ tr' /\ admitted_declaration x.1 = Some x.2 | Err _ => True end).
Proof.
  intros r. split; [done|]. destruct r as [o|]; [|done]. cbn. destruct (negb _); [done|].
  destruct (match execution_context o with [] => _ | _ => _ end); [done|]. cbn. unfold admitted. destruct (admitted_declaration o) as [a|] eqn:Ha; [|done].
  cbn. auto with scale.
Qed.
Lemma required_bind p (f : Operation * PoolDeclaration -> SM ScaleStatus) tr :
  (forall o a tr', Ev Load (Some o) ∈ tr' -> admitted_declaration o = Some a -> licit (f (o, a)) tr') -> licit (required C p ≫= f) tr.
Proof. intros Hf. apply safe_bind. eapply safe_mono; [|apply required_post]. intros [[o a]|e] tr' H; [|done]. destruct H. by apply Hf. Qed.
Lemma loaded_holds tr o a : Ev Load (Some o) ∈ tr -> admitted_declaration o = Some a -> holds tr o a.
Proof. intros Hl Ha. split; [done|]. exists o. auto with scale. Qed.
Lemma fine_check b m (f : unit -> SM ScaleStatus) tr : (b = false -> licit (f tt) tr) -> licit (check b m ≫= f) tr.
Proof. intros Hf. unfold check. destruct b; [done|]. by apply Hf. Qed.

Lemma in_range n a b : n ∈ range a b <-> a <= n < b.
Proof.
  unfold range. rewrite list_elem_of_fmap. setoid_rewrite elem_of_seq. split.
  - intros (k & -> & Hk). lia.
  - intros H. exists (Z.to_nat (n - a)). lia.
Qed.

Lemma converge_fine p wanted tr : licit (converge digest repr notice_deadline L C p wanted) tr.
Proof.
  unfold converge. apply required_bind. intros o0 a tr1 Hl Ha. apply fine_check. intros _.
  (* the count of this pass *)
  apply safe_bind. eapply safe_mono with (Q := fun r tr' => (exists t, tr' = tr1 ++ t)
    /\ match r with Ok o => descends o0 o /\ phase o = phase o0 /\ admitted_declaration o = Some a | Err _ => True end).
  2:{ destruct wanted as [d|]; [|split; [exists []; by rewrite app_nil_r|auto with scale]].
      unfold check. destruct (d <? 0) eqn:H0; [split; [exists []; by rewrite app_nil_r|done]|]. apply safe_bind. cbn [safe then_].
      destruct (desired a <? d) eqn:H1; [split; [exists []; by rewrite app_nil_r|done]|]. apply safe_bind. cbn [safe then_].
      destruct (d =? op_desired o0); [split; [exists []; by rewrite app_nil_r|auto with scale]|]. apply Z.ltb_ge in H0, H1.
      assert (Hd : descends o0 (set_desired d o0)) by (apply descends_desired; [apply descends_refl|right; exists a; by split]).
      intros []. split; [left; by exists o0|]. split; [by eexists|by split_and!]. }
  intros [o|e] tr2 [[t ->] Ho]; [|done]. cbn [then_]. cbv zeta. destruct Ho as (Hd & Hph & Ha').
  assert (Ho : holds (tr1 ++ t) o a) by (split; [done|]; exists o0; auto with scale).
  destruct (op_desired o <=? 0); [exact (cleanup_fine o a 0 true true _ Ho)|].
  destruct (range (op_desired o) (desired a)) as [|slot slots] eqn:Hslots; [apply (converge_locked_fine o0 o); auto with scale|].
  set (p' := with_desired (op_desired o) a). apply safe_bind.
  eapply safe_mono; [|apply (retiring_ok _ _ p' o0 a (op_desired o) (enabled a));
    [auto with scale|by rewrite <- Ha', (sa_declaration _ _ (proj1 Hd))|done|intros; apply drain_ok|apply launchless_drain|intros; apply drain_accounts]].
  intros [hosts|e] tr3 [[t' ->] Hgone]; [|done]. cbn [then_]. cbv zeta. apply (holds_app _ t') in Ho.
  apply safe_bind. eapply safe_mono with (Q := fun r tr' => (exists t3, tr' = ((tr1 ++ t) ++ t') ++ t3)
    /\ match r with Ok o' => descends o0 o' /\ phase o' = phase o /\ admitted_declaration o' = Some a | Err _ => True end).
  2:{ unfold revoke. apply safe_bind. eapply safe_mono; [|apply safe_extends, fine_revoke_fold].
      - intros [pending|e] tr4 [_ [t4 ->]]; [|split; [by eexists|done]]. intros []. split; [left; exists o0; auto 8 with scale|].
        split; [exists (t4 ++ [Ev (Save (set_pending (sorted_set pending) o)) tt]); by rewrite app_assoc|]. by split; [auto with scale|].
      - intros s Hs Hm. apply Hgone. intros Hin. apply mem_false in Hm. apply Hm. apply list_elem_of_In, filter_In. split; [by apply list_elem_of_In|].
        apply mem_spec, list_elem_of_fmap. by exists s. }
  intros [o'|e] tr4 [[t4 ->] Ho']; [|done]. cbn [then_]. destruct Ho' as (Hd' & Hph' & Ha''). destruct (List.filter _ _) as [|x waiting].
  - apply (converge_locked_fine o0 o'); [auto with scale|done|congruence|done].
  - eapply (holds_save _ o' a); [split; [done|]; exists o0; auto with scale|intros; auto with scale|done|]. intros _. apply fine_status.
Qed.

(** What has been admitted was planned, so it is a valid pool. *)
Lemma plan_valid lc p tr : safe (fun _ _ => True) (plan digest repr lc p) tr (fun r _ => match r with Ok _ => validate p = Ok tt | Err _ => True end).
Proof.
  unfold plan, validated. destruct (validate p) as [[]|e]; [|done]. apply safe_bind. cbn [safe then_].
  eapply safe_mono; [|apply safe_true]. by intros [].
Qed.

Lemma request_fine p deadline aggregate tr : licit (request digest repr L C p deadline aggregate) tr.
Proof.
  unfold request. destruct deadline as [deadline|]; [|done]. cbv zeta. apply fine_check. intros _. apply safe_bind. intros [o|]; (split; [done|]); cbn [safe then_].
  { apply fine_check. intros _. apply fine_status. }
  assert (Hl : Ev Load None ∈ tr ++ [Ev Load None]) by auto with scale. revert Hl. generalize (tr ++ [Ev Load None]). intros tr1 Hl.
  apply licit_bind; [by apply fine_neutral, only_do|]. intros now t1. apply fine_check. intros _.
  apply licit_bind; [apply fine_neutral; neutral|]. intros _ t2.
  apply safe_bind. eapply safe_mono; [|eapply host_safe; [|apply safe_both; [apply (only_safe (fun R c => mutates c = false) (fun _ x => match x with Ev c _ => mutates c = false end));
    [done|apply silent_plan]|apply plan_valid]]].
  2:{ intros t R c r [Hc _]. by apply neutral_ok. }
  intros [pl|e] tr2 [[t3 ->] [_ Hv]]; [|done]. cbn [then_]. apply safe_bind. intros now2. split; [done|]. cbn [safe then_]. cbv zeta.
  set (cost := (_ * _)%Q). apply fine_check. intros Hc0. apply fine_check. intros Hc1. apply safe_bind. intros siblings. split; [done|]. cbn [safe then_].
  destruct (siblings_budget p _ siblings) as [b|e] eqn:Hb; [|done]. cbn [pure]. apply safe_bind. cbn [safe then_]. apply fine_check. intros Hc2.
  apply safe_bind. intros now3. split; [done|]. cbn [safe then_]. apply save_bind; [|apply fine_status]. right.
  apply negb_false_iff, Qle_bool_iff in Hc0, Hc1, Hc2.
  exists p, siblings, b. split_and!; [auto 8 with scale|auto with scale|done..].
Qed.

Lemma body_fine call : licit (scale_body digest repr notice_deadline L C call) [].
Proof.
  destruct call as [p d a|p|p w|p|p|p]; cbn [scale_body].
  - apply request_fine.
  - unfold continue_. apply required_bind. intros o a tr Hl Ha. apply fine_check. intros _. apply (converge_locked_fine o o); auto with scale.
  - apply converge_fine.
  - unfold cleanup. apply required_bind. intros o a tr Hl Ha. exact (cleanup_fine o a 0 true true _ (loaded_holds _ _ _ Hl Ha)).
  - unfold emergency_stop. apply required_bind. intros o a tr Hl Ha. exact (cleanup_fine o a 0 true false _ (loaded_holds _ _ _ Hl Ha)).
  - apply fine_status.
Qed.
End sessions.

(** ** Budgets over a directory *)

Definition charges (l : list Operation) : Q := foldr Qplus 0%Q (map accrued l).
#[export] Instance charges_proper : Proper ((≡ₚ) ==> Qeq) charges.
Proof.
  intros l1 l2 H. unfold charges. induction H as [|x l1 l2 _ IH|x y l|l1 l2 l3 _ IH1 _ IH2]; cbn; [done| | |].
  - by rewrite IH.
  - ring.
  - by rewrite IH1.
Qed.
Lemma total_at dir path o : dir !! path = Some o -> (total dir == accrued o + total (delete path dir))%Q.
Proof.
  intros Hd. unfold total. change (charges (map snd (map_to_list dir)) == accrued o + charges (map snd (map_to_list (delete path dir))))%Q.
  rewrite <- (map_to_list_delete dir path o Hd). done.
Qed.

Lemma siblings_budget_sound p b l b' : siblings_budget p b l = Ok b' ->
  (charged b' == charged b + charges l)%Q /\ (limit b' <= limit b)%Q /\ Forall (fun s => limit b' <= aggregate_limit s)%Q l.
Proof.
  revert b. induction l as [|s l IH]; intros b; cbn [siblings_budget].
  { intros [= ->]. split_and!; [cbn; ring|apply Qle_refl|constructor]. }
  destruct (same_active_pool p s); [done|]. destruct (negb _); [done|]. destruct (Qle_bool _ _); [done|]. intros (H1 & H2 & H3)%IH. cbn in *. split_and!.
  - rewrite H1. unfold charges. cbn. ring.
  - eapply Qle_trans; [exact H2|apply Q.le_min_l].
  - constructor; [|done]. eapply Qle_trans; [exact H2|apply Q.le_min_r].
Qed.

(** A directory whose operations are inside their admissions and their budgets. *)
Definition good (dir : gmap string Operation) : Prop :=
  forall q o, dir !! q = Some o -> enveloped o /\ (total dir <= aggregate_limit o)%Q.

Section replay.
Context (C : Controller) (path : string) (dir0 : gmap string Operation) (Hgood : good dir0).
#[local] Abbreviation others := (delete path dir0).

(** What the file may hold during a session. *)
Definition fits (o : Operation) : Prop :=
  enveloped o
  /\ match dir0 !! path with
     | Some o0 => same_admission o0 o
     | None => (total others + accrued o <= aggregate_limit o)%Q
               /\ forall q s, others !! q = Some s -> (total others + accrued o <= aggregate_limit s)%Q
     end.
(** What the session can have read. *)
Definition fits_event (x : event scmd) : Prop :=
  match x with Ev c r =>
    match c in scmd R return R -> Prop with
    | Load => fun r => match r with Some o => fits o | None => dir0 !! path = None end
    | Siblings => fun r => r ≡ₚ map snd (map_to_list others)
    | _ => fun _ => True
    end r
  end.
Record replayed (dir : gmap string Operation) (tr : list (event scmd)) : Prop := {
  rp_others : delete path dir = others;
  rp_file : match dir !! path with Some o => fits o | None => dir0 !! path = None end;
  rp_seen : Forall fits_event tr;
}.

Lemma replayed_start : replayed dir0 [].
Proof.
  split; [done| |constructor]. destruct (dir0 !! path) as [o|] eqn:Ho; [|done]. destruct (Hgood path o Ho) as [He _].
  split; [done|]. rewrite Ho. apply same_admission_refl.
Qed.

Lemma descends_enveloped o o' : descends o o' -> enveloped o -> enveloped o'.
Proof.
  intros [Hs Hd] (H1 & H2 & a & Ha & H3). split; [by rewrite (sa_accrued _ _ Hs)|]. split; [by rewrite (sa_accrued _ _ Hs), (sa_spend _ _ Hs)|].
  exists a. rewrite (sa_declaration _ _ Hs). split; [done|]. destruct Hd as [-> |[-> |(a' & Ha' & Hd)]]; [done|lia|]. rewrite Ha in Ha'. by injection Ha' as <-.
Qed.
Lemma descends_fits o o' : descends o o' -> fits o -> fits o'.
Proof.
  intros Hd [He Hf]. split; [by eapply descends_enveloped|]. destruct Hd as [Hs _]. destruct (dir0 !! path); [by eapply same_admission_trans|].
  by rewrite (sa_accrued _ _ Hs), (sa_aggregate _ _ Hs).
Qed.
Lemma admission_fits tr o : Forall fits_event tr -> admission tr o -> fits o.
Proof.
  rewrite Forall_forall. intros Hseen (p & siblings & b & Hl & Hs & Ha & Hdes & Hv & Hb & H0 & H1 & H2).
  pose proof (Hseen _ Hl) as Hnone. pose proof (Hseen _ Hs) as Hsib. cbn in Hnone, Hsib. split.
  - split; [done|]. split; [done|]. exists p. split; [done|]. rewrite Hdes. unfold validate in Hv.
    repeat match type of Hv with (if ?x then _ else _) = _ => destruct x eqn:?; [done|] end. lia.
  - rewrite Hnone. apply siblings_budget_sound in Hb as (Hc & Hlim & Hall). cbn in Hc, Hlim.
    assert (Htot : (total others + accrued o <= limit b)%Q).
    { eapply Qle_trans; [|exact H2]. rewrite Hc. unfold total. change (foldr Qplus 0%Q (map accrued ?l)) with (charges l).
      rewrite Hsib. apply Qle_lteq. right. ring. }
    split; [by eapply Qle_trans|]. intros q s Hq. eapply Qle_trans; [exact Htot|]. rewrite Forall_forall in Hall. apply Hall. rewrite Hsib.
    apply list_elem_of_fmap. exists (q, s). split; [done|]. by apply elem_of_map_to_list.
Qed.

Lemma replayed_step dir tr x dir' : replayed dir tr -> scale_ok C tr x -> file_step path dir x dir' -> replayed dir' (tr ++ [x]).
Proof.
  intros [H1 H2 H3] Hok Hstep. destruct x as [R c r].
  assert (Hsame : dir' = dir -> fits_event (Ev c r) -> replayed dir' (tr ++ [Ev c r])).
  { intros -> He. split; [done|done|]. apply Forall_app. split; [done|]. by constructor. }
  destruct c; cbn in Hstep; try (by apply Hsame).
  - destruct Hstep as [-> ->]. apply Hsame; [done|]. exact H2.
  - subst dir'. split; [by rewrite delete_insert_eq|rewrite lookup_insert_eq|apply Forall_app; split; [done|]; by constructor].
    destruct Hok as [(o0 & Hl & Hd)|Ha]; [|by eapply admission_fits].
    rewrite Forall_forall in H3. apply (descends_fits o0); [done|]. exact (H3 _ Hl).
  - destruct Hstep as [Hr ->]. apply Hsame; [done|]. cbn. by rewrite <- H1.
Qed.

Lemma replayed_plays dir tr1 tr dir' : replayed dir tr1 -> allowed (scale_ok C) (tr1 ++ tr) -> plays path dir tr dir' -> replayed dir' (tr1 ++ tr).
Proof.
  intros Hr Ha Hp. revert tr1 Hr Ha. induction Hp as [dir|dir x dir1 tr dir2 Hs Hp IH]; intros tr1 Hr Ha; [by rewrite app_nil_r|].
  pose proof (allowed_split _ _ _ _ Ha) as Hx. change (x :: tr) with ([x] ++ tr) in *. rewrite app_assoc in *.
  apply IH; [|done]. by eapply replayed_step.
Qed.

(** The directory after a session. *)
Lemma replayed_good dir tr : replayed dir tr -> good dir /\ forall q o, dir0 !! q = Some o -> exists o', dir !! q = Some o' /\ same_admission o o'.
Proof.
  intros [H1 H2 _].
  assert (Hne : forall q, q <> path -> dir !! q = dir0 !! q).
  { intros q Hq. rewrite <- (lookup_delete_ne dir path q), <- (lookup_delete_ne dir0 path q) by done. by rewrite H1. }
  split.
  2:{ intros q o Hq. destruct (decide (q = path)) as [->|Hqp].
      - destruct (dir !! path) as [o'|]; [|by rewrite Hq in H2]. exists o'. split; [done|]. destruct H2 as [_ H2]. by rewrite Hq in H2.
      - exists o. rewrite Hne by done. split; [done|apply same_admission_refl]. }
  destruct (dir !! path) as [o1|] eqn:Ho1.
  - intros q o Hq. pose proof (total_at dir path o1 Ho1) as Ht. rewrite H1 in Ht. destruct H2 as [He Hf]. destruct (decide (q = path)) as [->|Hqp].
    + assert (o = o1) as -> by congruence. split; [done|]. rewrite Ht. destruct (dir0 !! path) as [o0|] eqn:Ho0.
      * destruct (Hgood path o0 Ho0) as [_ Hg]. rewrite (total_at dir0 path o0 Ho0) in Hg. by rewrite (sa_accrued _ _ Hf), (sa_aggregate _ _ Hf).
      * rewrite Qplus_comm. apply Hf.
    + rewrite (Hne q Hqp) in Hq. destruct (Hgood q o Hq) as [Heo Hg]. split; [done|]. rewrite Ht. destruct (dir0 !! path) as [o0|] eqn:Ho0.
      * rewrite (total_at dir0 path o0 Ho0) in Hg. by rewrite (sa_accrued _ _ Hf).
      * rewrite Qplus_comm. apply (proj2 Hf q). by rewrite lookup_delete_ne.
  - assert (dir = dir0) as -> by (apply map_eq; intros q; destruct (decide (q = path)) as [->|Hq]; [congruence|by apply Hne]). done.
Qed.
End replay.

Lemma session_good digest repr notice_deadline dir dir' : session digest repr notice_deadline dir dir' -> good dir ->
  good dir' /\ forall q o, dir !! q = Some o -> exists o', dir' !! q = Some o' /\ same_admission o o'.
Proof.
  intros (L & C & call & path & tr & o & He & Hp) Hg.
  destruct (safe_exec _ _ [] _ _ _ He (body_fine digest repr notice_deadline L C call) (allowed_nil _)) as [Ha _].
  apply (replayed_good path dir Hg dir' tr). exact (replayed_plays C path dir dir [] tr dir' (replayed_start path dir Hg) Ha Hp).
Qed.
Lemma good_empty : good ∅.
Proof. intros q o Hq. by rewrite lookup_empty in Hq. Qed.
Lemma sessions_good digest repr notice_deadline dir dir' : rtc (session digest repr notice_deadline) dir dir' -> good dir ->
  good dir' /\ forall q o, dir !! q = Some o -> exists o', dir' !! q = Some o' /\ same_admission o o'.
Proof.
  induction 1 as [dir|dir dir1 dir2 Hs Hr IH]; intros Hg; [split; [done|]; intros q o Hq; exists o; split; [done|apply same_admission_refl]|].
  destruct (session_good _ _ _ _ _ Hs Hg) as [Hg1 H1]. destruct (IH Hg1) as [Hg2 H2]. split; [done|]. intros q o Hq.
  destruct (H1 q o Hq) as (o1 & Ho1 & Hs1). destruct (H2 q o1 Ho1) as (o2 & Ho2 & Hs2). exists o2. split; [done|]. by eapply same_admission_trans.
Qed.

(** ** Properties *)

(** C12.  Whatever the provider, the hooks and the resolver answer, and wherever a session crashes: a host
    is launched only when the operation was neither cleaning nor cleaned when it was read, the intent to
    converge has been saved with a desired count inside the admission, the deadline has not passed, the
    pool is exactly the admitted one at that count, the quote for it is within its spend limit, and the
    launch itself is permitted to a pass over that pool (authorized, and after a discovery that shows no
    host of its slot).  Credentials are minted only after the same intent has been saved. *)
Theorem capacity_within_admission digest repr notice_deadline L C call tr o :
  exec (scale_body digest repr notice_deadline L C call) tr o ->
  (forall tr1 d r tr2, tr = tr1 ++ Ev (Host (Provision d)) r :: tr2 -> launchable C tr1 d)
  /\ (forall tr1 h s r tr2, tr = tr1 ++ Ev (Ensure h s) r :: tr2 -> exists o a, converging C tr1 o a).
Proof.
  intros He. destruct (safe_exec _ _ [] _ _ _ He (body_fine digest repr notice_deadline L C call) (allowed_nil _)) as [Ha _].
  split; intros *; intros ->; by apply allowed_split in Ha.
Qed.

(** An enrollment is revoked only after the provider has reported the hosts of the pool and every
    live host with that id has been destroyed, with a reply that shows it terminated. *)
Theorem revoked_after_retirement digest repr notice_deadline L C call tr o tr1 id r tr2 :
  exec (scale_body digest repr notice_deadline L C call) tr o -> tr = tr1 ++ Ev (Revoke id) r :: tr2 -> gone tr1 id.
Proof.
  intros He ->. destruct (safe_exec _ _ [] _ _ _ He (body_fine digest repr notice_deadline L C call) (allowed_nil _)) as [Ha _].
  by apply allowed_split in Ha.
Qed.

(** Through any number of sessions on the operation files of a directory, started empty, each of any
    call, with any replies, and cut off anywhere: no operation file disappears, and an operation keeps its
    identity, its declaration, its deadline, its charge and its limits, with a desired count between zero
    and the number of hosts it admitted. *)
Theorem admission_durable digest repr notice_deadline dir dir' path o :
  rtc (session digest repr notice_deadline) ∅ dir -> rtc (session digest repr notice_deadline) dir dir' -> dir !! path = Some o ->
  exists o' a, dir' !! path = Some o' /\ same_admission o o' /\ admitted_declaration o' = Some a /\ 0 <= op_desired o' <= desired a.
Proof.
  intros H0 H1 Ho. destruct (sessions_good _ _ _ _ _ H0 good_empty) as [Hg _]. destruct (sessions_good _ _ _ _ _ H1 Hg) as [Hg' Hk].
  destruct (Hk path o Ho) as (o' & Ho' & Hs). destruct (Hg' path o' Ho') as [(_ & _ & a & Ha & Hd) _]. by exists o', a.
Qed.

(** C13.  Through any number of such sessions, what the operations of the directory have been charged, all
    together, is within the aggregate limit of every one of them, and each charge is within its pool's
    spend limit. *)
Theorem aggregate_budget_respected digest repr notice_deadline dir path o :
  rtc (session digest repr notice_deadline) ∅ dir -> dir !! path = Some o ->
  (total dir <= aggregate_limit o)%Q /\ (0 <= accrued o <= op_spend_limit o)%Q.
Proof.
  intros H0 Ho. destruct (sessions_good _ _ _ _ _ H0 good_empty) as [Hg _]. destruct (Hg path o Ho) as [(H1 & H2 & _) H]. done.
Qed.

(** ** A controller at work *)

Module Pool.
Record World := { machines : Cloud; files : gmap string Operation; path : string; time : Z; idle : bool }.
Definition set_machines m w := {| machines := m; files := files w; path := path w; time := time w; idle := idle w |}.
Definition set_file o w := {| machines := machines w; files := <[path w := o]> (files w); path := path w; time := time w; idle := idle w |}.
Definition opened p w := {| machines := machines w; files := files w; path := p; time := time w; idle := idle w |}.
Definition resting b w := {| machines := machines w; files := files w; path := path w; time := time w; idle := b |}.

Definition enrolled (h : string) : Enrollment :=
  {| secret_ref := ("ref/" ++ h)%string; model_identity := "m"; repository_identity := "r"; tailnet_identity := "t"; controller_identity := "c"; model_expires_at := "" |}.
(** A cloud that works, hosts that drain when they are idle, and a resolver that mints what is asked. *)
Definition handler (R : Type) (c : scmd R) : World -> R * World :=
  match c in scmd R return World -> R * World with
  | Host hc => fun w =>
      match hc in hcmd R return R * World with
      | DrainHook _ _ _ => (idle w, w)
      | hc => let x := cloud Demo.info 1 _ hc (machines w) in (x.1, set_machines x.2 w)
      end
  | Load => fun w => (files w !! path w, w)
  | Save o => fun w => (tt, set_file o w)
  | Siblings => fun w => (map snd (map_to_list (delete (path w) (files w))), w)
  | Clock => fun w => (time w, w)
  | Ensure h _ | Resolve h => fun w => (Ok (enrolled h), w)
  | SetupMissing _ => fun w => (Ok [], w)
  | Revoke _ => fun w => (Ok [], w)
  end.

Definition L : Lifecycle :=
  {| providers := providers Demo.L; health_check := true; interruption_drain := true; drain_clear := false; retry_attempts := 3;
     reservation_seconds := 300; absolute_deadline := ""; operation_seed := "" |}.
Definition C : Controller :=
  {| my_context := []; my_config := ""; my_dir := ""; has_setup_probe := false; enforces_deadline := fun _ => true;
     digest_pairs := fun _ => "identity"; digest_operation := fun _ deadline _ => ("op-" ++ deadline)%string;
     expiry := fun _ => None; iso := show; from_iso := digits_value 0 |}.
Definition pool (least : Z) : PoolDeclaration :=
  {| pool_name := "build"; pool_owner := "garden"; purpose := "workers"; pool_provider := "ec2";
     profile := {| prof_name := "p"; prof_version := "1"; prof_image := "ami-1"; prof_bootstrap_version := "1"; prof_cpu := 2; prof_memory_mib := 4096;
       prof_disk_gib := 20; endpoint := ""; enrollment_secret_ref := "ref/{host_id}"; persistent_workspace := false; health_path := "/health";
       prof_provider_options := []; source_head := "" |};
     enabled := true; minimum := least; maximum := 4; desired := 2; idle_timeout_minutes := 10; maximum_age_minutes := 60;
     estimated_runtime_hours := 1; spend_limit_usd := 10; purchase_policy := "on_demand"; on_demand_fallback := false;
     recoverable_workspace := false; pool_provider_options := [] |}.
Definition body : ScaleCall -> SM ScaleStatus := scale_body Demo.plain Demo.plain Demo.no_deadline L C.
Definition does (c : ScaleCall) (w : World) : World := (run handler (body c) w).2.
Definition start : World := {| machines := Demo.nothing; files := ∅; path := "a"; time := 100; idle := false |}.
Definition asked (least : Z) : ScaleCall := Request (pool least) (Some 3700) (Some 20%Q).
(** Two hosts at work. *)
Definition running (least : Z) : World := does (Continue (pool least)) (does (asked least) start).
Definition reading (w : World) : option (Phase * Z) := option_map (fun o => (phase o, op_desired o)) (files w !! path w).
Definition fleet (w : World) : list string := map host_id (hosts (machines w)).
End Pool.

(** The runs of the handler are executions, and play on the directory. *)
Lemma handler_plays {A} (m : SM A) w : plays (Pool.path w) (Pool.files w) (trace Pool.handler m w) (Pool.files (run Pool.handler m w).2).
Proof.
  revert w. induction m as [a|e|R c k IH]; intros w; cbn [trace run]; [constructor|constructor|].
  econstructor; [|].
  2:{ specialize (IH (Pool.handler R c w).1 (Pool.handler R c w).2).
      replace (Pool.path (Pool.handler R c w).2) with (Pool.path w) in IH; [exact IH|]. destruct c as [R c| | | | | | | |]; try done. by destruct c. }
  destruct c as [R c| | | | | | | |]; try done. by destruct c.
Qed.
Lemma does_session c w : session Demo.plain Demo.plain Demo.no_deadline (Pool.files w) (Pool.files (Pool.does c w)).
Proof.
  exists Pool.L, Pool.C, c, (Pool.path w), (trace Pool.handler (Pool.body c) w), (Some (run Pool.handler (Pool.body c) w).1).
  split; [apply run_exec|apply handler_plays].
Qed.

(** A cleanup under way is undone by the controller's next pass: cleaning two busy hosts, then converging
    to the one host configured while they still drain, records "draining", and once they are idle the
    next pass converges again, and keeps a host running. *)
Lemma cleanup_undone_by_converge :
  let cleaning := Pool.does (Cleanup (Pool.pool 0)) (Pool.running 0) in
  let draining := Pool.does (Converge (Pool.pool 0) (Some 1)) cleaning in
  let after := Pool.does (Converge (Pool.pool 0) (Some 1)) (Pool.resting true draining) in
  Pool.reading cleaning = Some (Cleaning, 0) /\ Pool.reading draining = Some (Draining, 1)
  /\ Pool.reading after = Some (Running, 1) /\ Pool.fleet after = ["build-0"].
Proof. vm_compute. by split_and!. Qed.

(** A pool declared with a minimum cannot be cleaned up nor stopped: the closing pool, with zero hosts
    desired, fails the validation of its own declaration. *)
Lemma minimum_prevents_retirement :
  let w := Pool.resting true (Pool.running 1) in
  (run Pool.handler (Pool.body (EmergencyStop (Pool.pool 1))) w).1 = Err (Raised (ValueError "capacity must satisfy 0 <= minimum <= desired <= maximum"))
  /\ (run Pool.handler (Pool.body (Cleanup (Pool.pool 1))) w).1 = Err (Raised (ValueError "capacity must satisfy 0 <= minimum <= desired <= maximum"))
  /\ Pool.fleet (Pool.does (EmergencyStop (Pool.pool 1)) w) = ["build-0"; "build-1"].
Proof. vm_compute. by split_and!. Qed.

(** Continuing a cleaned operation drains the pool by its name: it retires the hosts of the operation that
    was admitted after it. *)
Lemma cleaned_operation_drains_successor :
  let cleaned := Pool.does (Cleanup (Pool.pool 0)) (Pool.resting true (Pool.running 0)) in
  let successor := Pool.does (Continue (Pool.pool 0)) (Pool.does (Request (Pool.pool 0) (Some 7300) (Some 20%Q)) (Pool.opened "b" cleaned)) in
  let after := Pool.does (Continue (Pool.pool 0)) (Pool.opened "a" successor) in
  Pool.reading cleaned = Some (Cleaned, 0) /\ Pool.reading successor = Some (Running, 2) /\ Pool.fleet successor = ["build-0"; "build-1"]
  /\ Pool.fleet after = [] /\ Pool.reading (Pool.opened "b" after) = Some (Running, 2).
Proof. vm_compute. by split_and!. Qed.

(** ** Witnesses *)

Module Witness.
Definition asked : Pool.World := Pool.does (Pool.asked 0) Pool.start.
Definition growth : list (event scmd) := trace Pool.handler (Pool.body (Continue (Pool.pool 0))) asked.
Definition leaving : Pool.World := Pool.resting true (Pool.running 0).
Definition retreat : list (event scmd) := trace Pool.handler (Pool.body (Cleanup (Pool.pool 0))) leaving.
(** The first declaration launched in a trace. *)
Definition declared (x : event scmd) : option HostDeclaration :=
  match x with Ev c _ => match c with Host hc => match hc with Provision d => Some d | _ => None end | _ => None end end.
Definition first_declared : HostDeclaration :=
  match omap declared growth with d :: _ => d | [] => {| decl_host_id := ""; decl_operation_id := ""; decl_pool := Pool.pool 0; deadline_utc := "" |} end.
Definition operation (w : Pool.World) : Operation := match Pool.files w !! "a" with Some o => o | None => new_operation Pool.C (Pool.pool 0) 0 0 "" 0 end.
End Witness.

Lemma capacity_within_admission_witness :
  decl_host_id Witness.first_declared = "build-0" /\ launchable Pool.C (take 38 Witness.growth) Witness.first_declared.
Proof.
  split; [vm_compute; reflexivity|].
  assert (H : Witness.growth = take 38 Witness.growth ++ Ev (Host (Provision Witness.first_declared)) (Ok (new_host Witness.first_declared 0)) :: drop 39 Witness.growth)
    by (vm_compute; reflexivity).
  exact (proj1 (capacity_within_admission Demo.plain Demo.plain Demo.no_deadline Pool.L Pool.C (Continue (Pool.pool 0)) Witness.growth
    (Some (run Pool.handler (Pool.body (Continue (Pool.pool 0))) Witness.asked).1)
    (run_exec Pool.handler (Pool.body (Continue (Pool.pool 0))) Witness.asked)) _ _ _ _ H).
Defined.

Lemma revoked_after_retirement_witness :
  Pool.reading (Pool.does (Cleanup (Pool.pool 0)) Witness.leaving) = Some (Cleaned, 0) /\ gone (take 19 Witness.retreat) "build-0".
Proof.
  split; [vm_compute; reflexivity|].
  assert (H : Witness.retreat = take 19 Witness.retreat ++ Ev (Revoke "build-0") (Ok []) :: drop 20 Witness.retreat) by (vm_compute; reflexivity).
  exact (revoked_after_retirement Demo.plain Demo.plain Demo.no_deadline Pool.L Pool.C (Cleanup (Pool.pool 0)) Witness.retreat
    (Some (run Pool.handler (Pool.body (Cleanup (Pool.pool 0))) Witness.leaving).1) _ _ _ _
    (run_exec Pool.handler (Pool.body (Cleanup (Pool.pool 0))) Witness.leaving) H).
Defined.

Lemma admission_durable_witness :
  exists o' a, Pool.files (Pool.running 0) !! "a" = Some o' /\ same_admission (Witness.operation Witness.asked) o'
    /\ admitted_declaration o' = Some a /\ 0 <= op_desired o' <= desired a.
Proof.
  exact (admission_durable Demo.plain Demo.plain Demo.no_deadline (Pool.files Witness.asked) (Pool.files (Pool.running 0)) "a" (Witness.operation Witness.asked)
    (rtc_once _ _ (does_session (Pool.asked 0) Pool.start)) (rtc_once _ _ (does_session (Continue (Pool.pool 0)) Witness.asked))
    ltac:(vm_compute; reflexivity)).
Defined.

Lemma aggregate_budget_respected_witness :
  (total (Pool.files (Pool.running 0)) <= aggregate_limit (Witness.operation (Pool.running 0)))%Q
  /\ (0 <= accrued (Witness.operation (Pool.running 0)) <= op_spend_limit (Witness.operation (Pool.running 0)))%Q.
Proof.
  exact (aggregate_budget_respected Demo.plain Demo.plain Demo.no_deadline (Pool.files (Pool.running 0)) "a" (Witness.operation (Pool.running 0))
    (rtc_l _ _ _ _ (does_session (Pool.asked 0) Pool.start) (rtc_once _ _ (does_session (Continue (Pool.pool 0)) Witness.asked)))
    ltac:(vm_compute; reflexivity)).
Defined.
