(* ===== verification/Fleet.v ===== *)
(** * The fleet controller ([garden/fleet.py])

    The recurring driver of one admitted scale operation toward a configured count: cadence, exponential
    backoff, the breaker that stops after repeated failures, the clamp of the configured count to the
    admission, and the dispatch fence.

    A pass is a program over [fcmd]: the controller's record, the declaration and the operation file, the
    commands of the scale operation ([Scaled]), and the drain store.  The record is mutated in place, so
    a step that raises keeps what it had written into it.  Times are seconds; the ISO text of a time that
    cannot be parsed reads as none. *)

From S2P Require Import Prelude PyValue Requirements Workers Effects Hosts Scale ScaleSafety.

#[local] Open Scope list_scope.
#[local] Open Scope Z_scope.

Definition UNDISPATCHABLE : list HostState := [DRAINING; INTERRUPTED; FAILED; STOPPED; TERMINATED].
Definition CLOSING_PHASES : list Phase := [Cleaning; Cleaned].

Record FleetSettings := {
  declaration_name : string; fs_desired : Z; interval_seconds : Z; backoff_seconds : Z; backoff_ceiling_seconds : Z; failure_threshold : Z;
}.

(** What [projection_of] keeps of a status. *)
Record Projection := {
  pj_operation : string; pj_phase : Phase; pj_desired : Z; pj_healthy : Z; pj_dispatchable : Z; pj_pending : Z; pj_draining : Z; pj_failed : Z;
  pj_version : string; pj_deadline : string; pj_accrued : Q; pj_spend_limit : Q; pj_maximum : Z; pj_missing : list (string * list string);
  pj_revocations : list string; pj_hosts : list (string * string * string);
}.
Definition is_closing (p : Phase) : bool := bool_decide (p ∈ CLOSING_PHASES).
(** [projection_of] *)
Definition projection_of (s : ScaleStatus) : Projection :=
  let hosts := List.filter live (st_hosts s) in
  {| pj_operation := st_operation s; pj_phase := st_phase s; pj_desired := st_desired s; pj_healthy := st_healthy s;
     pj_dispatchable := if is_closing (st_phase s) then 0 else count [READY; BUSY] hosts;
     pj_pending := st_pending s; pj_draining := count [DRAINING] hosts; pj_failed := st_failed s; pj_version := st_version s;
     pj_deadline := st_deadline s; pj_accrued := st_accrued s; pj_spend_limit := st_spend_limit s; pj_maximum := st_maximum s;
     pj_missing := st_missing s; pj_revocations := st_revocations s;
     pj_hosts := map (fun h => (host_id h, state_value (state h), detail h)) hosts |}.

Record FleetRecord := {
  fr_pool : string; attempts : Z; breaker : bool; breaker_detail : string; action_required : string; next_attempt : option Z;
  last_attempt : option Z; last_outcome : string; generation : string; observed : option Projection;
}.
Definition set_action a r := {| fr_pool := fr_pool r; attempts := attempts r; breaker := breaker r; breaker_detail := breaker_detail r; action_required := a;
  next_attempt := next_attempt r; last_attempt := last_attempt r; last_outcome := last_outcome r; generation := generation r; observed := observed r |}.
Definition set_outcome t r := {| fr_pool := fr_pool r; attempts := attempts r; breaker := breaker r; breaker_detail := breaker_detail r;
  action_required := action_required r; next_attempt := next_attempt r; last_attempt := last_attempt r; last_outcome := t; generation := generation r; observed := observed r |}.
Definition set_pool n r := {| fr_pool := n; attempts := attempts r; breaker := breaker r; breaker_detail := breaker_detail r;
  action_required := action_required r; next_attempt := next_attempt r; last_attempt := last_attempt r; last_outcome := last_outcome r; generation := generation r; observed := observed r |}.
Definition set_attempted t r := {| fr_pool := fr_pool r; attempts := attempts r; breaker := breaker r; breaker_detail := breaker_detail r;
  action_required := action_required r; next_attempt := next_attempt r; last_attempt := Some t; last_outcome := last_outcome r; generation := generation r; observed := observed r |}.
Definition set_observed p r := {| fr_pool := fr_pool r; attempts := attempts r; breaker := breaker r; breaker_detail := breaker_detail r;
  action_required := action_required r; next_attempt := next_attempt r; last_attempt := last_attempt r; last_outcome := last_outcome r; generation := generation r; observed := Some p |}.
(** The counters that belong to one generation. *)
Definition set_counters n b t next r := {| fr_pool := fr_pool r; attempts := n; breaker := b; breaker_detail := t;
  action_required := action_required r; next_attempt := next; last_attempt := last_attempt r; last_outcome := last_outcome r; generation := generation r; observed := observed r |}.
Definition set_generation g r := {| fr_pool := fr_pool r; attempts := 0; breaker := false; breaker_detail := ""; action_required := action_required r;
  next_attempt := None; last_attempt := last_attempt r; last_outcome := last_outcome r; generation := g; observed := observed r |}.

Inductive fcmd : Type -> Type :=
| ReadRecord : fcmd FleetRecord
| WriteRecord (r : FleetRecord) : fcmd unit
| FNow : fcmd Z
| Declared : fcmd (result herr (option PoolDeclaration))
| OperationFile : fcmd (option Operation)
| Scaled {R} (c : scmd R) : fcmd R
| RequestDrain (h : HostFacts) (deadline text : string) : fcmd (result herr unit)
| ClearDrain (operation : string) : fcmd (result herr unit).
Abbreviation FM := (prog fcmd herr).
Definition scaled {A} (m : SM A) : FM A := hoist (@Scaled) m.

(** How [converge] reports an exception: an unexpected one by its type only. *)
Definition describe (e : herr) : string :=
  match e with
  | ProviderError m => "ProviderError: " ++ m
  | ProvisioningUncertain m => "ProvisioningUncertain: " ++ m
  | TransientProviderError m => "TransientProviderError: " ++ m
  | EnvironmentStop m => "EnvironmentStop: " ++ m
  | Raised (ValueError m) => "ValueError: " ++ m
  | Raised (KeyError k) => "KeyError: " ++ repr_str k
  | Raised (RuntimeError m) => "RuntimeError: " ++ m
  | Raised (PermissionError m) => "PermissionError: " ++ m
  | Raised TypeError => "provider call failed (TypeError)"
  | AssertionError m => "provider call failed (AssertionError)"
  | OutOfFuel => "provider call failed"
  end%string.

Section fleet.
Context (digest repr : string -> string) (notice_deadline : HostFacts -> Z -> string) (L : Lifecycle) (C : Controller) (has_drains : bool).

(** [_reset_on_new_generation] *)
Definition reset_on_new_generation (g : string) (r : FleetRecord) : FleetRecord :=
  if nonempty g && negb (bool_decide (generation r = g)) then set_generation g r else r.

Definition breaker_text (n : Z) (why : string) : string :=
  (show n ++ " consecutive convergence failures (" ++ why
   ++ "); fix the image, credentials, health probe or provider access, then run `garden hosts fleet --resume`")%string.
(** The delay before the attempt after [n] failures. *)
Definition delay (s : FleetSettings) (n : Z) : Z := Z.min (backoff_seconds s * 2 ^ (n - 1)) (backoff_ceiling_seconds s).
(** [_failed] *)
Definition failed (s : FleetSettings) (why : string) (now : Z) (r : FleetRecord) : FleetRecord :=
  let n := attempts r + 1 in
  let r := set_outcome why r in
  if failure_threshold s <=? n then set_action (breaker_text n why) (set_counters n true (breaker_text n why) None r)
  else set_counters n (breaker r) (breaker_detail r) (Some (now + delay s n)) r.

Definition shortfall (st : ScaleStatus) : Z := st_desired st - (st_healthy st + st_pending st).
(** A pass that ends short with nothing pending, or with failed hosts, is a setback. *)
Definition setback (st : ScaleStatus) : bool := negb (st_failed st =? 0) || ((0 <? shortfall st) && negb (is_closing (st_phase st))).
(** [_observed] *)
Definition observe (s : FleetSettings) (st : ScaleStatus) (now : Z) (r : FleetRecord) : FleetRecord :=
  let r := set_observed (projection_of st) r in
  if setback st then
    failed s (if negb (st_failed st =? 0) then (show (st_failed st) ++ " host(s) failed or interrupted")%string
              else (show (shortfall st) ++ " of " ++ show (st_desired st) ++ " host(s) did not become healthy")%string) now r
  else set_counters 0 (breaker r) (breaker_detail r) (Some (now + interval_seconds s)) r.

(** [_bounded_desired] *)
Definition bounded_desired (configured : Z) (a : PoolDeclaration) (name : string) : Z * string :=
  if configured <=? desired a then (configured, "")
  else (desired a, ("configured desired " ++ show configured ++ " exceeds the " ++ show (desired a) ++ " host(s) this pool admitted; maintaining "
                    ++ show (desired a) ++ ". Admit more capacity: garden hosts scale " ++ name ++ " --deadline <absolute ISO-8601 UTC>")%string).

(** [_fence] *)
Definition fence_host (st : ScaleStatus) (_ : unit) (h : HostFacts) : FM unit :=
  if is_closing (st_phase st) || bool_decide (state h ∈ UNDISPATCHABLE)
  then invoke (RequestDrain h (st_deadline st) ("host is " ++ state_value (state h) ++ "; not dispatchable"))
  else if bool_decide (state h = READY) || bool_decide (state h = BUSY) then invoke (ClearDrain (operation_id h)) else Ret tt.
Definition fence (st : ScaleStatus) : FM unit := if has_drains then foldP (fence_host st) (st_hosts st) tt else Ret tt.

Definition or_action (text : string) (r : FleetRecord) : FleetRecord := if nonempty (action_required r) then r else set_action text r.
Definition enrollment_text (m : list (string * list string)) : string :=
  ("complete the private enrollment for " ++ join "; " (map (fun x => x.1 ++ " (" ++ join ", " x.2 ++ ")")%string (sort_by (fun a b => str_leb a.1 b.1) m)))%string.
(** What [_step] writes of the status it got. *)
Definition note_status (s : FleetSettings) (asked : Z) (st : ScaleStatus) (r : FleetRecord) : FleetRecord :=
  let r := set_outcome (show (st_healthy st) ++ " healthy, " ++ show (st_pending st) ++ " pending, " ++ show (st_failed st) ++ " failed of "
                        ++ show (st_desired st) ++ " desired")%string r in
  let r := match st_missing st with [] => r | m => or_action (enrollment_text m) r end in
  if (0 <? asked) && is_closing (st_phase st)
  then or_action ("this pool's admission has ended; admit a new scale operation to run workers again: garden hosts scale "
                  ++ declaration_name s ++ " --deadline <absolute ISO-8601 UTC>")%string r
  else r.

(** [_step]: the record, and the exception or the status *)
Definition step (s : FleetSettings) (r : FleetRecord) : FM (FleetRecord * result herr (option ScaleStatus)) :=
  d ← do_ Declared;
  match d with
  | Err e => Ret (r, Err e)
  | Ok None => Ret (set_outcome "declaration missing" (set_action ("add the admitted pool declaration at " ++ declaration_name s)%string r), Ok None)
  | Ok (Some p) =>
      let r := set_pool (pool_name p) r in
      o ← do_ OperationFile;
      match o with
      | None =>
          Ret (set_outcome "not admitted" (set_action ("admit this pool first: garden hosts scale " ++ declaration_name s
                 ++ " --deadline <absolute ISO-8601 UTC>")%string r), Ok None)
      | Some o =>
          match admitted_declaration o with
          | None => Ret (r, Err (Raised (ValueError "durable scale operation is missing its admitted declaration")))
          | Some a =>
              let r := reset_on_new_generation (op_id o) r in
              let '(asked, action) := bounded_desired (fs_desired s) a (declaration_name s) in
              let action :=
                if same_pool (with_desired (desired a) p) a then action
                else (declaration_name s ++ " no longer matches the admitted declaration; maintaining the admitted one. Admit the change: garden hosts scale "
                      ++ declaration_name s ++ " --deadline <absolute ISO-8601 UTC>")%string in
              let r := set_action action r in
              x ← try_ (scaled (converge digest repr notice_deadline L C a (Some asked)));
              match x with
              | Err e => Ret (r, Err e)
              | Ok st =>
                  let r := note_status s asked st r in
                  y ← try_ (fence st);
                  Ret (r, match y with Ok _ => Ok (Some st) | Err e => Err e end)
              end
          end
      end
  end.

(** A pass waits for its time unless it is forced. *)
Definition waits (force : bool) (r : FleetRecord) (now : Z) : bool :=
  negb force && match next_attempt r with Some t => now <? t | None => false end.
(** [converge]; [None] when no pool is configured *)
Definition pass (settings : option FleetSettings) (force : bool) : FM (option FleetRecord) :=
  match settings with
  | None => Ret None
  | Some s =>
      r ← do_ ReadRecord;
      now ← do_ FNow;
      if breaker r then
        let r := or_action (if nonempty (breaker_detail r) then breaker_detail r else "clear the fleet breaker") r in
        _ ← do_ (WriteRecord r); Ret (Some r)
      else if waits force r now then Ret (Some r)
      else
        x ← step s (set_attempted now r);
        let r := match x.2 with
                 | Err e => failed s (describe e) now x.1
                 | Ok (Some st) => observe s st now x.1
                 | Ok None => x.1
                 end in
        _ ← do_ (WriteRecord r); Ret (Some r)
  end.

(** [resume] *)
Definition resume : FM FleetRecord :=
  r ← do_ ReadRecord;
  let r := set_action "" (set_counters 0 false "" None r) in
  _ ← do_ (WriteRecord r); Ret r.
End fleet.

(** ** What a pass may do

    The abstract controller: what one pass makes of the record it read at [now]. *)

Inductive turn (s : FleetSettings) (force : bool) (now : Z) (r : FleetRecord) : FleetRecord -> Prop :=
| turn_refused r' : breaker r = true -> breaker r' = true -> attempts r' = attempts r -> next_attempt r' = next_attempt r ->
    generation r' = generation r -> observed r' = observed r -> turn s force now r r'
| turn_early : breaker r = false -> waits force r now = true -> turn s force now r r
| turn_blocked r' : breaker r = false -> waits force r now = false -> breaker r' = false -> attempts r' = attempts r ->
    next_attempt r' = next_attempt r -> generation r' = generation r -> observed r' = observed r -> nonempty (action_required r') ->
    turn s force now r r'
| turn_reached r' st : breaker r = false -> waits force r now = false -> observed r' = Some (projection_of st) -> setback st = false ->
    breaker r' = false -> attempts r' = 0 -> next_attempt r' = Some (now + interval_seconds s) -> turn s force now r r'
| turn_setback r' n : breaker r = false -> waits force r now = false ->
    n = attempts r \/ n = 0 /\ generation r' <> generation r ->
    attempts r' = n + 1 ->
    (if failure_threshold s <=? n + 1 then breaker r' = true /\ next_attempt r' = None /\ nonempty (action_required r')
     else breaker r' = false /\ next_attempt r' = Some (now + delay s (n + 1))) ->
    turn s force now r r'.

(** ** A program logic of passes *)

Section passes.
Context (digest repr : string -> string) (notice_deadline : HostFacts -> Z -> string) (L : Lifecycle) (C : Controller) (has_drains : bool).
#[local] Abbreviation step := (step digest repr notice_deadline L C has_drains).
#[local] Abbreviation pass := (pass digest repr notice_deadline L C has_drains).

(** The record and the clock have been read, and they let the pass act. *)
Definition opened (force : bool) (tr : list (event fcmd)) : Prop :=
  exists r now t, tr = Ev ReadRecord r :: Ev FNow now :: t /\ breaker r = false /\ waits force r now = false.
(** Everything else is allowed only of an opened pass. *)
Definition gated (force : bool) (tr : list (event fcmd)) (e : event fcmd) : Prop :=
  match e with
  | Ev c _ => match c with ReadRecord | FNow | WriteRecord _ => True | _ => opened force tr end
  end.

Lemma opened_app force tr t : opened force tr -> opened force (tr ++ t).
Proof. intros (r & now & t' & -> & H). by exists r, now, (t' ++ t). Qed.

Lemma opened_safe {A} force (p : FM A) tr : opened force tr -> safe (gated force) p tr (fun _ tr' => exists t, tr' = tr ++ t).
Proof.
  intros Ho. eapply safe_mono; [|apply safe_extends with (Q := fun _ _ => True)]; [by intros r tr' [_ ?]|].
  revert tr Ho. induction p as [a|e|R c k IH]; intros tr Ho; cbn; [done|done|]. intros r.
  split; [by destruct c|]. apply IH. by apply opened_app.
Qed.

(** A caught program returns something. *)
Lemma safe_caught {A} (p : FM A) tr : safe (fun _ _ => True) (try_ p) tr (fun x _ => match x with Ok _ => True | Err _ => False end).
Proof. apply safe_try. eapply safe_mono; [|apply safe_true]. done. Qed.

(** What a step makes of the counters: it leaves them alone, or starts those of a new generation. *)
Inductive stepped (r : FleetRecord) : FleetRecord * result herr (option ScaleStatus) -> Prop :=
| stepped_blocked r' : breaker r' = breaker r -> attempts r' = attempts r -> next_attempt r' = next_attempt r -> generation r' = generation r ->
    observed r' = observed r -> nonempty (action_required r') -> stepped r (r', Ok None)
| stepped_tried r' x : breaker r = false -> breaker r' = false -> attempts r' = attempts r \/ attempts r' = 0 /\ generation r' <> generation r ->
    match x with Ok None => False | _ => True end -> stepped r (r', x).

Lemma note_status_counters s n st r (r' := note_status s n st r) :
  breaker r' = breaker r /\ attempts r' = attempts r /\ generation r' = generation r.
Proof.
  unfold r', note_status. destruct (st_missing st), ((0 <? n) && is_closing (st_phase st)); unfold or_action; repeat case_match; done.
Qed.
Lemma reset_counters g r (r' := reset_on_new_generation g r) :
  breaker r = false -> breaker r' = false /\ (attempts r' = attempts r \/ attempts r' = 0 /\ generation r' <> generation r).
Proof.
  intros Hb. unfold r', reset_on_new_generation. destruct (nonempty g); cbn [andb]; [|auto].
  destruct (decide (generation r = g)) as [Hg|Hg]; [rewrite bool_decide_eq_true_2 by done; auto|].
  rewrite bool_decide_eq_false_2 by done. cbn. auto.
Qed.

Lemma step_stepped s r tr : breaker r = false ->
  safe (fun _ _ => True) (step s r) tr (fun x _ => match x with Ok x => stepped r x | Err _ => False end).
Proof.
  intros Hb. unfold Fleet.step. intros [[p|]|e]; split; [exact I| |exact I| |exact I|]; cbn [safe].
  2: by constructor.
  2: by constructor; auto.
  cbv zeta. intros [o|]; split; [exact I| |exact I|].
  2: by constructor.
  cbn [safe mbind prog_bind pbind do_]. destruct (admitted_declaration o) as [a|]; [|cbn [safe]; eapply stepped_tried; auto].
  destruct (bounded_desired _ _ _) as [n action].
  apply safe_bind. eapply safe_mono; [|apply safe_caught]. intros [x|] tr1; [intros _; cbn [then_]|done].
  match goal with |- context[set_action ?act (reset_on_new_generation ?g ?r0)] =>
    destruct (reset_counters g r0 Hb) as [H1 H2]; set (r1 := set_action act (reset_on_new_generation g r0));
    change (breaker r1 = false) in H1; change (attempts r1 = attempts r \/ attempts r1 = 0 /\ generation r1 <> generation r) in H2 end.
  destruct x as [st|e]; [|by constructor].
  destruct (note_status_counters s n st r1) as (H3 & H4 & H5).
  apply safe_bind. eapply safe_mono; [|apply safe_caught]. intros [y|] tr2; [intros _; cbn [then_ safe]|done].
  constructor; [done|by rewrite H3|by rewrite H4, H5|by destruct y].
Qed.

(** How a pass ends. *)
Definition ended (s : FleetSettings) (force : bool) (x : result herr (option FleetRecord)) (tr : list (event fcmd)) : Prop :=
  match x with
  | Ok (Some r') => exists r now t, tr = Ev ReadRecord r :: Ev FNow now :: t /\ turn s force now r r' /\
                      (t = [] /\ r' = r \/ exists t', t = t' ++ [Ev (WriteRecord r') tt])
  | _ => False
  end.

Lemma breaker_text_nonempty n why : nonempty (breaker_text n why).
Proof. unfold breaker_text. by destruct (show n). Qed.
Lemma failed_turn s force now r r1 why : breaker r = false -> waits force r now = false -> breaker r1 = false ->
  attempts r1 = attempts r \/ attempts r1 = 0 /\ generation r1 <> generation r -> turn s force now r (failed s why now r1).
Proof.
  intros Hb Hw Hb1 Ha. unfold failed. cbv zeta. cbn [attempts set_outcome].
  apply turn_setback with (n := attempts r1); [done|done|..]; destruct (failure_threshold s <=? attempts r1 + 1); cbn; auto.
  repeat split; auto. apply breaker_text_nonempty.
Qed.

Lemma stepped_turn s force now r r1 x : breaker r = false -> waits force r now = false ->
  stepped (set_attempted now r) (r1, x) ->
  turn s force now r (match x with Err e => failed s (describe e) now r1 | Ok (Some st) => observe s st now r1 | Ok None => r1 end).
Proof.
  intros Hb Hw H. inversion H as [r' H1 H2 H3 H4 H5 H6|r' y _ H2 H3 H4]; subst.
  - apply turn_blocked; [done|done|by rewrite H1|done..].
  - destruct x as [[st|]|e]; [|done|by apply failed_turn]. unfold observe. cbv zeta.
    destruct (setback st) eqn:Hs; [by apply failed_turn|]. by apply turn_reached with (st := st).
Qed.

Lemma pass_safe s force : safe (gated force) (pass (Some s) force) [] (ended s force).
Proof.
  unfold Fleet.pass. intros r. split; [exact I|]. intros now. split; [exact I|]. cbn [app safe mbind prog_bind pbind do_].
  destruct (breaker r) eqn:Hb.
  { intros []. split; [exact I|]. exists r, now, [Ev (WriteRecord (or_action (if nonempty (breaker_detail r) then breaker_detail r else "clear the fleet breaker") r)) tt].
    split; [done|]. split; [|right; by exists []]. unfold or_action. by destruct (nonempty (action_required r)); constructor. }
  destruct (waits force r now) eqn:Hw.
  { exists r, now, []. split; [done|]. split; [by apply turn_early|by left]. }
  assert (Ho : opened force [Ev ReadRecord r; Ev FNow now]) by (by exists r, now, []).
  apply safe_bind. eapply safe_mono; [|apply safe_weaken with (ok1 := fun tr e => gated force tr e /\ True);
    [by intros tr e [? _]|apply safe_both; [apply opened_safe, Ho|apply (step_stepped s (set_attempted now r)), Hb]]].
  intros [[r1 x]|e] tr [[t ->] Hx]; [cbn [then_]|done].
  pose proof (stepped_turn s force now r r1 x Hb Hw Hx) as Ht. intros []. split; [exact I|].
  exists r, now. eexists. split; [done|]. split; [exact Ht|]. right. by eexists.
Qed.

(** C14.  Every pass of the fleet controller is one step of a breaker: under all replies of the record
    file, the declaration, the provider and the drain store, and wherever it is interrupted, the pass sends a
    command to the operation, its provider or the fence only when the record it read has no breaker and its
    next attempt is due (or the pass is forced).  A pass that ends never raises.  It has left the record
    alone because it was early, refused because of the breaker, named an action that only an operator can
    take, or tried: and then either reached the target, clearing the failures and waiting one interval,
    or added exactly one failure (to those of this generation), waiting the capped exponential delay below the
    threshold and tripping the breaker, with an action, at it. *)
Theorem fleet_pass_refines_breaker s force tr o :
  exec (pass (Some s) force) tr o ->
  (forall tr1 R (c : fcmd R) x tr2, tr = tr1 ++ Ev c x :: tr2 -> gated force tr1 (Ev c x)) /\
  match o with Some x => ended s force x tr | None => True end.
Proof.
  intros He. destruct (safe_exec _ _ [] _ _ _ He (pass_safe s force) (allowed_nil _)) as [Ha Hq].
  split; [|done]. cbn [app] in Ha. intros tr1 R c x tr2 ->. by eapply allowed_split.
Qed.

(** Counters stay in their ranges: failures below the threshold until the breaker trips, and a retry no
    further away than the longest delay. *)
Definition in_range (s : FleetSettings) (r : FleetRecord) : Prop := breaker r = true \/ 0 <= attempts r < failure_threshold s.
Lemma turn_in_range s force now r r' : 1 <= failure_threshold s -> turn s force now r r' -> in_range s r -> in_range s r'.
Proof.
  intros Ht Hturn Hr. unfold in_range in *. destruct Hturn as [r' Hb Hb'| |r' Hb ? Hb' Ha|r' st Hb ? ? ? Hb' Ha|r' n Hb ? Hn Ha Hi]; rewrite ?Ha; intuition (congruence || auto with lia).
  - destruct (Z.leb_spec (failure_threshold s) (n + 1)); [tauto|]. right. lia.
  - destruct (Z.leb_spec (failure_threshold s) (n + 1)); [tauto|]. right. lia.
Qed.
Lemma turn_retry_bounded s force now r r' t : turn s force now r r' -> next_attempt r' = Some t -> next_attempt r' <> next_attempt r ->
  t <= now + Z.max (interval_seconds s) (backoff_ceiling_seconds s).
Proof.
  intros Hturn Ht Hne. destruct Hturn as [r' Hb Hb' ? ?| |r' Hb ? Hb' Ha ?|r' st Hb ? ? ? Hb' Ha Hn|r' n Hb ? Hn Ha Hi]; try congruence.
  - rewrite Hn in Ht. injection Ht. lia.
  - destruct (failure_threshold s <=? n + 1); destruct Hi as [_ Hi]; [naive_solver|]. rewrite Hi in Ht. injection Ht. unfold delay. lia.
Qed.

(** A tripped breaker refuses whatever has been admitted since: the pass reads nothing but its record, so it
    cannot see that the generation has changed, and only [resume] clears it. *)
Lemma opened_head r r' now now' (t t' : list (event fcmd)) : Ev ReadRecord r :: Ev FNow now :: t = Ev ReadRecord r' :: Ev FNow now' :: t' -> r = r'.
Proof.
  intros H. set (f := fun l : list (event fcmd) => match l with Ev c x :: _ => match c in fcmd R return R -> FleetRecord with ReadRecord => fun x => x | _ => fun _ => r end x | [] => r end).
  exact (f_equal f H).
Qed.
Definition own (e : event fcmd) : bool := match e with Ev c _ => match c with ReadRecord | FNow | WriteRecord _ => true | _ => false end end.
Lemma breaker_outlives_generation s force r now t o e :
  exec (pass (Some s) force) (Ev ReadRecord r :: Ev FNow now :: t) o -> breaker r = true -> e ∈ t -> own e = true.
Proof.
  intros He Hb Hin. destruct (safe_exec _ _ [] _ _ _ He (pass_safe s force) (allowed_nil _)) as [Ha _].
  apply list_elem_of_split in Hin as (t1 & t2 & ->). apply (allowed_split _ (Ev ReadRecord r :: Ev FNow now :: t1)) in Ha.
  destruct e as [R c x]. destruct c; try done; destruct Ha as (r' & now' & t' & Heq & Hb' & _); apply opened_head in Heq; congruence.
Qed.
End passes.

(** ** A fleet driven by hand *)

Module Driver.
Record World := { record : FleetRecord; site : Pool.World }.
Definition fresh : FleetRecord :=
  {| fr_pool := ""; attempts := 0; breaker := false; breaker_detail := ""; action_required := ""; next_attempt := None; last_attempt := None;
     last_outcome := ""; generation := ""; observed := None |}.
Definition settings (n : Z) : FleetSettings :=
  {| declaration_name := "build.json"; fs_desired := n; interval_seconds := 60; backoff_seconds := 30; backoff_ceiling_seconds := 100; failure_threshold := 3 |}.
(** The declaration is [declared]; the operation and its provider are those of [Pool]. *)
Definition handler (declared : result herr (option PoolDeclaration)) (R : Type) (c : fcmd R) : World -> R * World :=
  match c in fcmd R return World -> R * World with
  | ReadRecord => fun w => (record w, w)
  | WriteRecord r => fun w => (tt, {| record := r; site := site w |})
  | FNow => fun w => (Pool.time (site w), w)
  | Declared => fun w => (declared, w)
  | OperationFile => fun w => (Pool.files (site w) !! Pool.path (site w), w)
  | Scaled c => fun w => let x := Pool.handler _ c (site w) in (x.1, {| record := record w; site := x.2 |})
  | RequestDrain _ _ _ => fun w => (Ok tt, w)
  | ClearDrain _ => fun w => (Ok tt, w)
  end.
Definition body (n : Z) (force : bool) : FM (option FleetRecord) :=
  pass Demo.plain Demo.plain Demo.no_deadline Pool.L Pool.C true (Some (settings n)) force.
Definition good : result herr (option PoolDeclaration) := Ok (Some (Pool.pool 0)).
Definition bad : result herr (option PoolDeclaration) := Err (Raised (ValueError "not JSON")).
Definition does (d : result herr (option PoolDeclaration)) (n : Z) (force : bool) (w : World) : World := (run (handler d) (body n force) w).2.
Definition start : World := {| record := fresh; site := Pool.does (Pool.asked 0) Pool.start |}.
Definition reading (w : World) : Z * bool * option Z * string := (attempts (record w), breaker (record w), next_attempt (record w), last_outcome (record w)).
End Driver.

Lemma fleet_pass_refines_breaker_witness :
  Driver.reading (Driver.does Driver.good 3 false Driver.start) = (0, false, Some 160, "2 healthy, 0 pending, 0 failed of 2 desired")
  /\ ended (Driver.settings 3) false (run (Driver.handler Driver.good) (Driver.body 3 false) Driver.start).1
       (trace (Driver.handler Driver.good) (Driver.body 3 false) Driver.start).
Proof.
  split; [vm_compute; reflexivity|].
  exact (proj2 (fleet_pass_refines_breaker Demo.plain Demo.plain Demo.no_deadline Pool.L Pool.C true (Driver.settings 3) false _ _
    (run_exec (Driver.handler Driver.good) (Driver.body 3 false) Driver.start))).
Defined.

(** Three failures trip the breaker; a forced pass is refused then. *)
Example driver_trips :
  let tripped := Driver.does Driver.bad 3 true (Driver.does Driver.bad 3 true (Driver.does Driver.bad 3 false Driver.start)) in
  Driver.reading tripped = (3, true, None, "ValueError: not JSON") /\ Driver.reading (Driver.does Driver.good 3 true tripped) = Driver.reading tripped.
Proof. vm_compute. by split. Qed.
