(* ===== verification/StateStore.v ===== *)
(** * The scheduler's side-store ([scheduler/state.py])

    [.garden/state.json] maps a task id to a row of values.  Several processes (the scheduler, the web UI, the
    command line) load it, change rows in memory and save; [State.save] merges the keys a process changed
    into whatever is in the file.  The module also archives the history of finished tasks.

    Rows hold nested dictionaries and lists, which are handed out by reference and then mutated in place,
    where no method of the row sees it.  So the model has a heap: a cell of a row is a value that nobody
    else holds ([Val]: immutable, or not handed out yet) or a reference ([Ref]) to an object that the program
    may have kept.  Reading a mutable cell hands it out.  Between two calls the objects that were handed out
    may become anything ([mutated]); the row only has its snapshots to find out.  [items()] and the other
    methods that [_TaskState] inherits from [dict] hand values out without a snapshot ([items]).

    JSON objects are finite maps: [json.dumps(sort_keys=True)] writes them in an order of its own.  The digest
    of a JSON text, the free space of the volume and the time stamps of new files are arguments.  Two
    floats are compared by their text. *)

From S2P Require Import Prelude PyValue Effects.

#[local] Open Scope list_scope.
#[local] Open Scope Z_scope.

(** ** A row that knows what has changed: [_TaskState] *)

Abbreviation values := (gmap string pyval).
Abbreviation heap := (gmap nat pyval).

(** [isinstance(v, (dict, list))] *)
Definition mutable (v : pyval) : bool := match v with PDict _ | PList _ => true | _ => false end.

Inductive cell : Type :=
| Val (v : pyval)
| Ref (l : nat).

Definition deref (h : heap) (c : cell) : pyval := match c with Val v => v | Ref l => default PNone (h !! l) end.

Record TaskState := { live : gmap string cell; written : gset string; snaps : values }.
Definition task_state (d : values) : TaskState := {| live := Val <$> d; written := ∅; snaps := ∅ |}.
Definition contents (h : heap) (t : TaskState) : values := deref h <$> live t.

Definition put_live k c t := {| live := <[k := c]> (live t); written := written t; snaps := snaps t |}.
Definition put_snap k v t := {| live := live t; written := written t; snaps := <[k := v]> (snaps t) |}.
Definition drop_snap k t := {| live := live t; written := written t; snaps := delete k (snaps t) |}.
Definition mark k t := {| live := live t; written := {[k]} ∪ written t; snaps := snaps t |}.
Definition drop_live k t := {| live := delete k (live t); written := written t; snaps := snaps t |}.

(** The exceptions of the module. *)
Inductive serr : Type :=
| StateCorruptionError (msg : string)
| OSError (msg : string)
| AttributeError
| PyError (e : exn).

(** A cell whose object the caller will hold from now on. *)
Definition lend (h : heap) (c : cell) : heap * cell :=
  match c with
  | Ref l => (h, Ref l)
  | Val v => if mutable v then let l := fresh (dom h) in (<[l := v]> h, Ref l) else (h, c)
  end.

(** A snapshot is in the way only of a value that has changed. *)
Definition changed (h : heap) (t : TaskState) (k : string) (snap : pyval) : bool :=
  match live t !! k with Some c => negb (py_eq (deref h c) snap) | None => false end.
(** [dirty] *)
Definition dirty (h : heap) (t : TaskState) : gset string :=
  written t ∪ dom (filter (fun '(k, snap) => changed h t k snap = true) (snaps t)).

(** [__getitem__] (and [__missing__]) *)
Definition getitem (k : string) (h : heap) (t : TaskState) : cell * heap * TaskState :=
  match live t !! k with
  | None => (Val PNone, h, t)
  | Some c =>
      let '(h', c') := lend h c in
      let t' := put_live k c' t in
      if mutable (deref h c)
      then (c', h', match snaps t !! k with Some _ => t' | None => put_snap k (deref h c) t' end)
      else (c', h', t')
  end.
(** [get] *)
Definition get_or (k : string) (dflt : cell) (h : heap) (t : TaskState) : cell * heap * TaskState :=
  match live t !! k with Some _ => getitem k h t | None => (dflt, h, t) end.
(** [items()], [values()], [copy()], [dict(row)] and [{**row}]: methods of [dict] itself, which hand out every
    nested value without a snapshot. *)
Definition peek (k : string) (h : heap) (t : TaskState) : heap * TaskState :=
  match live t !! k with None => (h, t) | Some c => let '(h', c') := lend h c in (h', put_live k c' t) end.
Definition items (h : heap) (t : TaskState) : heap * TaskState := foldl (fun x k => peek k x.1 x.2) (h, t) (elements (dom (live t))).
(** [__setitem__] *)
Definition setitem (k : string) (c : cell) (t : TaskState) : TaskState := drop_snap k (mark k (put_live k c t)).
(** [__delitem__] *)
Definition delitem (k : string) (t : TaskState) : result serr TaskState :=
  match live t !! k with
  | None => Err (PyError (KeyError k))
  | Some _ => Ok (drop_snap k (mark k (drop_live k t)))
  end.
(** [update], over the keys and values of its argument *)
Definition update (kvs : list (string * cell)) (t : TaskState) : TaskState := foldl (fun t kv => setitem kv.1 kv.2 t) t kvs.
(** [clear] *)
Definition clear (t : TaskState) : TaskState := {| live := ∅; written := written t ∪ dom (live t); snaps := ∅ |}.
(** [pop(k)] and [pop(k, default)] *)
Definition pop (k : string) (dflt : option cell) (h : heap) (t : TaskState) : result serr (cell * heap * TaskState) :=
  match live t !! k, dflt with
  | None, None => Err (PyError (KeyError k))
  | None, Some c => Ok (c, h, drop_snap k (mark k t))
  | Some c, _ => let '(h', c') := lend h c in Ok (c', h', drop_snap k (mark k (drop_live k t)))
  end.
(** [popitem]; [last] is the key that was inserted last. *)
Definition popitem (last : string) (h : heap) (t : TaskState) : result serr (string * cell * heap * TaskState) :=
  match live t !! last with
  | None => Err (PyError (KeyError "popitem(): dictionary is empty"))
  | Some c => let '(h', c') := lend h c in Ok (last, c', h', drop_snap last (mark last (drop_live last t)))
  end.
(** [setdefault] *)
Definition setdefault_ (k : string) (dflt : cell) (h : heap) (t : TaskState) : cell * heap * TaskState :=
  match live t !! k with Some _ => getitem k h t | None => getitem k h (setitem k dflt t) end.
(** [flushed], for one key and for a set of keys *)
Definition flush_key (h : heap) (k : string) (t : TaskState) : TaskState :=
  let t := {| live := live t; written := written t ∖ {[k]}; snaps := snaps t |} in
  match live t !! k with
  | Some c => if mutable (deref h c) then put_snap k (deref h c) t else drop_snap k t
  | None => drop_snap k t
  end.
Definition flushed (h : heap) (ks : gset string) (t : TaskState) : TaskState := foldr (flush_key h) t (elements ks).

(** ** The store: [State] *)

(** The file: absent, text that is not JSON, JSON that is not an object, or an object of rows. *)
Inductive entry_json : Type :=
| Row (r : values)
| Junk (v : pyval).
Abbreviation table := (gmap string entry_json).
Inductive file : Type :=
| Missing
| Unparsable
| NotObject
| Object (d : table).
Definition corrupt {A} : result serr A := Err (StateCorruptionError "scheduler state is corrupt").
(** [_read_state], of a file that exists *)
Definition read_state (f : file) : result serr table :=
  match f with Missing => Err (OSError "no such file") | Unparsable | NotObject => corrupt | Object d => Ok d end.
Definition read_or_empty (f : file) : result serr table := match f with Missing => Ok ∅ | _ => read_state f end.

(** The rows of a process.  An entry of the file that is not an object is kept as it is until it is asked for. *)
Inductive entry : Type :=
| Task (t : TaskState)
| Raw (v : pyval).
Record State := { data : gmap string entry; objects : heap }.
(** [State(path)] *)
Definition load_entry (e : entry_json) : entry := match e with Row r => Task (task_state r) | Junk v => Raw v end.
Definition open_state (f : file) : result serr State :=
  match f with
  | Missing => Ok {| data := ∅; objects := ∅ |}
  | _ => d ← read_state f; Ok {| data := load_entry <$> d; objects := ∅ |}
  end.
Definition put_task tid t s := {| data := <[tid := Task t]> (data s); objects := objects s |}.
Definition put_heap h s := {| data := data s; objects := h |}.

(** [dict(v)] of a value that is not an object: pairs of a list.  Keys that are not text are out of the
    model, and count as errors. *)
Definition pair_of (v : pyval) : result serr (string * pyval) :=
  match v with
  | PList [PStr k; x] => Ok (k, x)
  | PDict [(k, _); (k', _)] => Ok (k, PStr k')
  | PStr (String a (String b "")) => Ok (String a "", PStr (String b ""))
  | PList _ | PDict _ | PStr _ => Err (PyError (ValueError "dictionary update sequence element"))
  | _ => Err (PyError TypeError)
  end.
Definition dict_of_value (v : pyval) : result serr values :=
  match v with
  | PDict d => Ok (list_to_map d)
  | PList l => ps ← mapR pair_of l; Ok (list_to_map (rev ps))
  | PStr "" => Ok ∅
  | PStr _ => Err (PyError (ValueError "dictionary update sequence element"))
  | _ => Err (PyError TypeError)
  end.
(** [State.get]: the row of a task, which it adds when there is none *)
Definition get_task (tid : string) (s : State) : result serr (TaskState * State) :=
  match data s !! tid with
  | Some (Task t) => Ok (t, s)
  | None | Some (Raw PNone) => Ok (task_state ∅, put_task tid (task_state ∅) s)
  | Some (Raw v) => r ← dict_of_value v; Ok (task_state r, put_task tid (task_state r) s)
  end.

(** The rows with changes, and what each would write. *)
Definition dirty_rows (s : State) : gmap string (TaskState * gset string) :=
  omap (fun e => match e with
                 | Task t => let d := dirty (objects s) t in if decide (d = ∅) then None else Some (t, d)
                 | Raw _ => None
                 end) (data s).
(** [task_disk[key] = task_mem[key]], or [task_disk.pop(key, None)] *)
Definition put_key (mem : values) (k : string) (disk : values) : values :=
  match mem !! k with Some v => <[k := v]> disk | None => delete k disk end.
Definition merge_keys (mem : values) (ks : gset string) (disk : values) : values := foldr (put_key mem) disk (elements ks).
(** [disk.setdefault(tid, {})] and the writes to it; what is not an object refuses them. *)
Definition refusal (mem : values) (ks : gset string) (v : pyval) : serr :=
  match v with
  | PList _ => PyError TypeError
  | _ => if decide (map_Exists (fun k _ => k ∈ ks) mem) then PyError TypeError else AttributeError
  end.
Definition save_row (h : heap) (tid : string) (x : TaskState * gset string) (d : table) : result serr table :=
  let mem := contents h x.1 in
  match d !! tid with
  | Some (Junk v) => Err (refusal mem x.2 v)
  | Some (Row r) => Ok (<[tid := Row (merge_keys mem x.2 r)]> d)
  | None => Ok (<[tid := Row (merge_keys mem x.2 ∅)]> d)
  end.
Definition flush_rows (s : State) (rows : gmap string (TaskState * gset string)) : State :=
  {| data := map_imap (fun tid e => Some (match e, rows !! tid with Task t, Some x => Task (flushed (objects s) x.2 t) | _, _ => e end)) (data s);
     objects := objects s |}.
(** [save]: the store, and the file if it is written *)
Definition save (s : State) (f : file) : result serr (State * file) :=
  let rows := dirty_rows s in
  if decide (rows = ∅) then Ok (s, f)
  else
    d ← read_or_empty f;
    d' ← foldR (fun d '(tid, x) => save_row (objects s) tid x d) (map_to_list rows) d;
    Ok (flush_rows s rows, Object d').

(** [restore_other_task_keys], of one row: the value at dispatch, unless this process has another one in
    its memory. *)
Definition restored_key (now before : option pyval) : option pyval :=
  match now with
  | Some v => if py_eq v (default PNone before) then before else now
  | None => before
  end.
Definition restored_row (before now : values) : values := merge restored_key now before.
(** Comparing hands the values of the row out. *)
Definition read_keys (ks : list string) (h : heap) (t : TaskState) : heap * TaskState :=
  foldl (fun '(h, t) k => let '(_, h', t') := getitem k h t in (h', t')) (h, t) ks.
Definition as_row (o : option entry_json) : result serr values :=
  match o with None => Ok ∅ | Some (Row r) => Ok r | Some (Junk _) => Err (PyError TypeError) end.
Definition live_row (tid : string) (s : State) : result serr (values * State) :=
  match data s !! tid with
  | None => Ok (∅, s)
  | Some (Task t) =>
      let '(h, t') := read_keys (elements (dom (live t))) (objects s) t in Ok (contents (objects s) t, put_heap h (put_task tid t' s))
  | Some (Raw _) => Err (PyError TypeError)
  end.
Definition restore_row (snapshot : table) (x : State * table) (tid : string) : result serr (State * table) :=
  before ← as_row (snapshot !! tid);
  _ ← as_row (x.2 !! tid);
  y ← live_row tid x.1;
  let r := restored_row before y.1 in
  Ok (y.2, if decide (r = ∅) then delete tid x.2 else <[tid := Row r]> x.2).
(** [restore_other_task_keys].  Rows that are not objects are refused here; the code raises on nearly all of them. *)
Definition restore_other_task_keys (snapshot : table) (task_id : string) (task_ids : gset string) (s : State) (f : file) : result serr (State * file) :=
  d ← read_or_empty f;
  x ← foldR (restore_row snapshot) (elements (task_ids ∖ {[task_id]})) (s, d);
  Ok (x.1, Object x.2).

(** ** The history of finished tasks *)

Definition HISTORICAL_KEYS : list string :=
  ["feedback_ignored"; "persona_reviews"; "rebase_artifacts"; "review_feedback_history"; "review_heads"; "stashes"; "verification_advisories"].

(** A compressed file, and what [stat] says of it.  The text in it is carried by the value it denotes. *)
Record Blob := { packed : option pyval; identity : Z * Z }.
Inductive index_file : Type :=
| NoIndex
| BadIndex
| Index (tasks : values).
(** The directory of the store. *)
Record Dir := { state_file : file; index : index_file; blobs : gmap string Blob }.
(** [_history_index] *)
Definition history_index (d : Dir) : result serr values :=
  match index d with
  | NoIndex => Ok ∅
  | BadIndex => Err (StateCorruptionError "scheduler state history index is corrupt")
  | Index t => Ok t
  end.

(** [len(json.dumps(v, separators=(",", ":")))] *)
Definition json_char (c : ascii) : Z :=
  let n := N_of_ascii c in
  if bool_decide (c = dquote) || (n =? 92)%N || (8 <=? n)%N && (n <=? 13)%N && negb (n =? 11)%N then 2 else if (n <? 32)%N then 6 else 1.
Fixpoint json_str (s : string) : Z := match s with "" => 2 | String c s' => json_char c + json_str s' end.
Definition commas {A} (l : list A) : Z := Z.max 0 (Z.of_nat (length l) - 1).
Definition sumz (l : list Z) : Z := foldr Z.add 0 l.
Fixpoint json_length (v : pyval) : Z :=
  match v with
  | PNone => 4
  | PBool b => if b then 4 else 5
  | PInt n => Z.of_nat (String.length (show n))
  | PStr s => json_str s
  | PList l => 2 + commas l + sumz (map json_length l)
  | PDict d => 2 + commas d + sumz (map (fun kv => json_str kv.1 + 1 + json_length kv.2) d)
  | PScalar s _ _ _ => Z.of_nat (String.length s)
  end.

Record Plan := { p_sha : string; p_keys : list string; logical_bytes : Z; stored_bytes : Z; blob_identity : Z * Z }.
Definition reference (sha : string) (keys : list string) : pyval := PDict [("sha256", PStr sha); ("keys", PList (map PStr keys))].

(** The historical part of a row, and its text. *)
Definition history_of (r : values) : values := filter (fun '(k, _) => k ∈ HISTORICAL_KEYS) r.
Definition history_json (r : values) : pyval := canonical (PDict (map_to_list r)).
Definition without_history (r : values) : values := filter (fun '(k, _) => k ∉ HISTORICAL_KEYS) r.
Definition held_keys (t : TaskState) : list string := List.filter (fun k => bool_decide (is_Some (live t !! k))) HISTORICAL_KEYS.

Section history.
Context (digest : pyval -> string).

(** [historical]: the cells of the complete row.  It starts from [dict(row)]. *)
Definition payload_of (d : Dir) (reference : dict pyval) : result serr values :=
  let sha := py_str (por (pget "sha256" reference) (PStr "")) in
  match blobs d !! sha with
  | Some {| packed := Some raw |} =>
      if bool_decide (digest raw = sha)
      then match raw with
           | PDict p => Ok (list_to_map p)
           | _ => Err (StateCorruptionError ("scheduler state history payload is corrupt: " ++ sha))
           end
      else Err (StateCorruptionError ("scheduler state history checksum mismatch: " ++ sha))
  | _ => Err (StateCorruptionError ("scheduler state history blob is unavailable: " ++ sha))
  end.
Definition complete_row (d : Dir) (h : heap) (t : TaskState) : result serr (gmap string cell) :=
  match live t !! "_history_ref" with
  | Some c =>
      match deref h c with
      | PDict reference => p ← payload_of d reference; Ok (live t ∪ (Val <$> p))
      | _ => Ok (live t)
      end
  | None => Ok (live t)
  end.
Definition historical (d : Dir) (tid : string) (s : State) : result serr (gmap string cell * State) :=
  x ← get_task tid s;
  let y := items (objects x.2) x.1 in
  r ← complete_row d y.1 y.2;
  Ok (r, put_heap y.1 (put_task tid y.2 x.2)).

(** [restore_operational]: the number of rows rehydrated *)
Definition restore_one (d : Dir) (x : Z * State) (tid : string) : result serr (Z * State) :=
  y ← get_task tid x.2;
  match live y.1 !! "_history_ref" with
  | None => Ok (x.1, y.2)
  | Some _ =>
      z ← historical d tid y.2;
      row ← get_task tid z.2;
      w ← pop "_history_ref" (Some (Val PNone)) (objects z.2) row.1;
      let '(_, h, t) := w in
      let kvs := List.filter (fun kv => mem kv.1 HISTORICAL_KEYS) (map_to_list z.1) in
      Ok (x.1 + 1, put_heap h (put_task tid (update kvs t) z.2))
  end.
Definition restore_operational (d : Dir) (ids : gset string) (s : State) : result serr (Z * State) := foldR (restore_one d) (elements ids) (0, s).

(** [prepare_completed]: each payload is compressed into a file named by its digest, unless the file is
    there, and read back.  [free] is the space left on the volume, [stamp] what the file system says of a new file. *)
Context (free : string -> Z) (stamp : string -> Z * Z).
Definition set_blobs b d := {| state_file := state_file d; index := index d; blobs := b |}.
Definition write_blob (reserve : Z) (raw : pyval) (d : Dir) : result serr (bool * Dir) :=
  let sha := digest raw in
  match blobs d !! sha with
  | Some _ => Ok (false, d)
  | None =>
      let required := json_length raw + 1024 * 1024 + reserve in
      if free sha <? required
      then Err (OSError ("state archive volume has " ++ show (free sha) ++ " free bytes; " ++ show required ++ " required ("
                 ++ show reserve ++ " bytes reserved headroom)"))
      else Ok (true, set_blobs (<[sha := {| packed := Some raw; identity := stamp sha |}]> (blobs d)) d)
  end.
Definition verified (raw : pyval) (d : Dir) : result serr (Z * Z) :=
  let sha := digest raw in
  let failed := Err (StateCorruptionError ("scheduler state history verification failed: " ++ sha)) in
  match blobs d !! sha with
  | Some b => match packed b with Some raw' => if bool_decide (raw' = raw) then Ok (identity b) else failed | None => failed end
  | None => failed
  end.
Definition read_history (tid : string) (s : State) : result serr (values * State) :=
  x ← get_task tid s;
  let '(h, t) := read_keys (held_keys x.1) (objects x.2) x.1 in
  Ok (history_of (contents h t), put_heap h (put_task tid t x.2)).
Fixpoint prepare_loop (limit reserve : Z) (ids : list string) (prepared : list (string * Plan)) (s : State) (d : Dir) : result serr (list (string * Plan) * State * Dir) :=
  match ids with
  | [] => Ok (prepared, s, d)
  | tid :: ids' =>
      if limit <=? Z.of_nat (length prepared) then Ok (prepared, s, d)
      else
        x ← read_history tid s;
        if decide (x.1 = ∅) then prepare_loop limit reserve ids' prepared x.2 d
        else
          let raw := history_json x.1 in
          y ← write_blob reserve raw d;
          i ← verified raw y.2;
          let plan := {| p_sha := digest raw; p_keys := sorted_str (elements (dom x.1)); logical_bytes := json_length raw;
                         stored_bytes := if (y.1 : bool) then i.1 else 0; blob_identity := i |} in
          prepare_loop limit reserve ids' (prepared ++ [(tid, plan)]) x.2 y.2
  end.
Definition prepare_completed (ids : gset string) (limit reserve : Z) (s : State) (d : Dir) := prepare_loop limit reserve (sorted_str (elements ids)) [] s d.

(** [commit_completed], under the locks of the index and of the state file: a program whose only commands
    are the two files it replaces. *)
Inductive wcmd : Type -> Type :=
| WriteIndex (tasks : values) : wcmd unit
| WriteState (d : table) : wcmd unit.
Abbreviation WM := (prog wcmd serr).

Record Report := { r_tasks : Z; r_logical : Z; r_stored : Z }.
Record Progress := { c_store : State; c_disk : table; c_index : values; committed : list (string * (pyval * gset string)); report : Report }.

Definition archived_row (ref : pyval) (r : values) : values := <["_history_ref" := ref]> (without_history r).
Definition commit_one (d : Dir) (finished : gset string) (c : Progress) (x : string * Plan) : WM Progress :=
  let '(tid, plan) := x in
  if bool_decide (tid ∉ finished) then Ret c
  else
    y ← lift (read_history tid (c_store c));
    let c := {| c_store := y.2; c_disk := c_disk c; c_index := c_index c; committed := committed c; report := report c |} in
    let same_plan (r : values) := bool_decide (digest (history_json r) = p_sha plan) && bool_decide (sorted_str (elements (dom r)) = p_keys plan) in
    if negb (same_plan y.1) then Ret c
    else
      match c_disk c !! tid with
      | Some (Row durable) =>
          let payload := history_of durable in
          if bool_decide (payload = ∅) || negb (same_plan payload) then Ret c
          else
            match blobs d !! p_sha plan with
            | None => Throw (StateCorruptionError ("scheduler state history blob is unavailable: " ++ p_sha plan))
            | Some b =>
                if negb (bool_decide (identity b = blob_identity plan)) then Throw (StateCorruptionError ("scheduler state history blob changed: " ++ p_sha plan))
                else
                  let ref := reference (p_sha plan) (p_keys plan) in
                  let tasks := <[tid := ref]> (c_index c) in
                  _ ← do_ (WriteIndex tasks);
                  Ret {| c_store := c_store c; c_disk := <[tid := Row (archived_row ref durable)]> (c_disk c); c_index := tasks;
                         committed := committed c ++ [(tid, (ref, dom payload))];
                         report := {| r_tasks := r_tasks (report c) + 1; r_logical := r_logical (report c) + logical_bytes plan;
                                      r_stored := r_stored (report c) + stored_bytes plan |} |}
            end
      | _ => Ret c
      end.
(** The memory of the process follows the file. *)
Definition pop_key (k : string) (t : TaskState) : TaskState := drop_snap k (mark k (drop_live k t)).
Definition settle_one (s : State) (x : string * (pyval * gset string)) : result serr State :=
  y ← get_task x.1 s;
  let t := foldr pop_key (setitem "_history_ref" (Val x.2.1) y.1) (elements x.2.2) in
  Ok (put_task x.1 (flushed (objects y.2) (x.2.2 ∪ {["_history_ref"]}) t) y.2).
Definition no_report : Report := {| r_tasks := 0; r_logical := 0; r_stored := 0 |}.
Definition commit_completed (prepared : list (string * Plan)) (finished : gset string) (s : State) (d : Dir) : WM (Report * State) :=
  match prepared with
  | [] => Ret (no_report, s)
  | _ =>
      tasks ← lift (history_index d);
      disk ← lift (read_or_empty (state_file d));
      c ← foldP (commit_one d finished) prepared {| c_store := s; c_disk := disk; c_index := tasks; committed := []; report := no_report |};
      match committed c with
      | [] => Ret (report c, c_store c)
      | _ => _ ← do_ (WriteState (c_disk c)); s' ← lift (foldR settle_one (committed c) (c_store c)); Ret (report c, s')
      end
  end.
(** [archive_completed]: the directory with the payloads, and the commit on it *)
Definition archive_completed (ids : gset string) (limit : Z) (s : State) (d : Dir) : result serr (Dir * WM (Report * State)) :=
  x ← prepare_completed ids limit 0 s d; let '(prepared, s', d') := x in Ok (d', commit_completed prepared ids s' d').
End history.

(** ** Change tracking is exact

    [base] is what the file had when the row was loaded, or last saved.  A row stays [tracked] against it
    whatever its methods and the holders of its objects do; and the keys that a tracked row calls dirty are
    exactly those written explicitly and those whose value differs from the base. *)

Definition same (a b : option pyval) : Prop :=
  match a, b with Some v, Some w => py_eq v w = true | None, None => True | _, _ => False end.
#[export] Instance same_dec a b : Decision (same a b).
Proof. destruct a, b; cbn; apply _. Defined.
#[export] Instance same_equivalence : Equivalence same.
Proof.
  split.
  - intros [v|]; cbn; [apply py_eq_refl|done].
  - intros [v|] [w|]; cbn; try done. apply py_eq_sym.
  - intros [u|] [v|] [w|]; cbn; try done. apply py_eq_trans.
Qed.

(** Objects stay where they are, and stay dictionaries and lists. *)
Definition heap_ok (h : heap) : Prop := forall l v, h !! l = Some v -> mutable v = true.
Definition mutated (h h' : heap) : Prop := (forall l, is_Some (h !! l) -> is_Some (h' !! l)) /\ heap_ok h'.
Definition held (h : heap) (c : cell) : Prop := match c with Val _ => True | Ref l => is_Some (h !! l) end.

(** Objects are added, and none changes. *)
Definition grown (h h' : heap) : Prop := mutated h h' /\ forall c, held h c -> deref h' c = deref h c.
(** The keys of a row that has no snapshot of them, and was not told, when their object changes: nothing
    can notice that. *)
Definition unseen (h h' : heap) (t : TaskState) : gset string :=
  dom (filter (fun '(k, c) => snaps t !! k = None /\ (k ∉ written t) /\ py_eq (deref h' c) (deref h c) = false) (live t)).

Definition tracked_cell (h : heap) (t : TaskState) (k : string) (c : option cell) (w : option pyval) : Prop :=
  match c, w with
  | None, None => True
  | Some c, Some w => py_eq (default (deref h c) (snaps t !! k)) w = true
  | _, _ => False
  end.
(** All keys are tracked but [X]. *)
Definition tracked (X : gset string) (h : heap) (t : TaskState) (base : values) : Prop :=
  forall k, (forall c, live t !! k = Some c -> held h c) /\ (k ∈ written t \/ k ∈ X \/ tracked_cell h t k (live t !! k) (base !! k)).

Lemma heap_ok_refl h : heap_ok h -> mutated h h.
Proof. by split. Qed.
Lemma mutated_trans h1 h2 h3 : mutated h1 h2 -> mutated h2 h3 -> mutated h1 h3.
Proof. intros [H1 _] [H2 H3]. split; auto. Qed.
Lemma held_mutated h h' c : mutated h h' -> held h c -> held h' c.
Proof. intros [H _]. destruct c; cbn; auto. Qed.
Lemma grown_refl h : heap_ok h -> grown h h.
Proof. by repeat split. Qed.
Lemma grown_trans h1 h2 h3 : grown h1 h2 -> grown h2 h3 -> grown h1 h3.
Proof. intros [H1 D1] [H2 D2]. split; [by eapply mutated_trans|]. intros c Hc. rewrite D2 by (by apply (held_mutated h1)). by apply D1. Qed.

Lemma elem_of_unseen h h' t k : k ∈ unseen h h' t <-> exists c, live t !! k = Some c /\ snaps t !! k = None /\ (k ∉ written t) /\ py_eq (deref h' c) (deref h c) = false.
Proof.
  unfold unseen. rewrite elem_of_dom. split.
  - intros [c [Hc H]%map_lookup_filter_Some]. by exists c.
  - intros (c & Hc & H). exists c. by apply map_lookup_filter_Some.
Qed.
Lemma unseen_grown h h' t : grown h h' -> (forall k c, live t !! k = Some c -> held h c) -> unseen h h' t = ∅.
Proof.
  intros [_ Hd] Hh. apply set_eq. intros k. rewrite elem_of_unseen. split; [|by intros ?%elem_of_empty].
  intros (c & Hc & _ & _ & H). rewrite (Hd c) in H by (by eapply Hh). by rewrite py_eq_refl in H.
Qed.
Lemma tracked_weaken X Y h t base : X ⊆ Y -> tracked X h t base -> tracked Y h t base.
Proof. intros HX H k. destruct (H k) as [Hh [?|[?|?]]]; split; [done|by left|done|right; left; set_solver|done|by do 2 right]. Qed.
Lemma tracked_mutated X h h' t base : mutated h h' -> tracked X h t base -> tracked (X ∪ unseen h h' t) h' t base.
Proof.
  intros Hm H k. destruct (H k) as [Hh Ht]. split; [intros c Hc; eapply held_mutated; eauto|].
  destruct (decide (k ∈ written t)) as [|Hnw]; [by left|right]. destruct Ht as [?|[?|Ht]]; [done|left; set_solver|].
  unfold tracked_cell in *. destruct (live t !! k) as [c|] eqn:Hc, (base !! k) as [w|]; try done; [|by right].
  destruct (snaps t !! k) as [s|] eqn:Hs; [by right|]. cbn in *. destruct (py_eq (deref h' c) (deref h c)) eqn:He.
  - right. by apply (py_eq_trans _ (deref h c)).
  - left. apply elem_of_union_r, elem_of_unseen. by exists c.
Qed.
Lemma tracked_grown X h h' t base : grown h h' -> tracked X h t base -> tracked X h' t base.
Proof.
  intros Hg H. apply (tracked_weaken (X ∪ unseen h h' t)); [|by apply tracked_mutated; [apply Hg|]].
  rewrite unseen_grown; [set_solver|done|]. intros k c Hc. by apply (H k).
Qed.

Lemma loaded_tracked X h r : tracked X h (task_state r) r.
Proof.
  intros k. cbn. rewrite lookup_fmap. split.
  - intros c. destruct (r !! k); cbn; [by intros [= <-]|done].
  - right. right. unfold tracked_cell. cbn. rewrite lookup_empty. destruct (r !! k); cbn; [apply py_eq_refl|done].
Qed.

Lemma lookup_contents h t k : contents h t !! k = deref h <$> live t !! k.
Proof. apply lookup_fmap. Qed.

Lemma elem_of_dirty h t k : k ∈ dirty h t <-> k ∈ written t \/ exists s c, snaps t !! k = Some s /\ live t !! k = Some c /\ py_eq (deref h c) s = false.
Proof.
  unfold dirty. rewrite elem_of_union, elem_of_dom. apply or_iff_compat_l. split.
  - intros [s [Hs Hc]%map_lookup_filter_Some]. unfold changed in Hc. destruct (live t !! k) as [c|] eqn:Hk; [|done].
    exists s, c. by rewrite <- negb_true_iff.
  - intros (s & c & Hs & Hk & Hc). exists s. apply map_lookup_filter_Some. split; [done|]. unfold changed. by rewrite Hk, Hc.
Qed.

Lemma dirty_exact X h t base k : tracked X h t base -> k ∈ written t \/ k ∉ X -> k ∈ dirty h t <-> k ∈ written t \/ ~ same (contents h t !! k) (base !! k).
Proof.
  intros Ht HX. rewrite elem_of_dirty. destruct (decide (k ∈ written t)) as [Hw|Hw]; [tauto|].
  destruct (Ht k) as [_ [?|[?|Hc]]]; [done|tauto|]. rewrite lookup_contents.
  assert (Hiff : (exists s c, snaps t !! k = Some s /\ live t !! k = Some c /\ py_eq (deref h c) s = false) <-> ~ same (deref h <$> live t !! k) (base !! k)); [|tauto].
  unfold tracked_cell in Hc. destruct (live t !! k) as [c|], (base !! k) as [w|]; try done; cbn.
  - destruct (snaps t !! k) as [s|]; cbn in Hc.
    + split.
      * intros (s' & c' & [= <-] & [= <-] & H3) H4. apply py_eq_sym in Hc. by rewrite (py_eq_trans _ _ _ H4 Hc) in H3.
      * intros Hne. exists s, c. split; [done|]. split; [done|]. apply not_true_iff_false. intros H3. apply Hne. exact (py_eq_trans _ _ _ H3 Hc).
    + split; [by intros (s & c' & [=] & _)|done].
  - split; [|done]. by intros (s & c & _ & [=] & _).
Qed.

(** *** The methods of a row *)

Lemma lend_spec h c h' c' : lend h c = (h', c') -> heap_ok h -> held h c ->
  mutated h h' /\ held h' c' /\ deref h' c' = deref h c /\ (forall c2, held h c2 -> deref h' c2 = deref h c2) /\
  (c' = c \/ exists v l, c = Val v /\ mutable v = true /\ c' = Ref l).
Proof.
  unfold lend. intros Hl Hh Hc. destruct c as [v|l].
  - destruct (mutable v) eqn:Hv; injection Hl as <- <-.
    + assert (Hf : h !! fresh (dom h) = None) by (apply not_elem_of_dom, is_fresh).
      split; [split|].
      * intros l Hl. destruct (decide (l = fresh (dom h))) as [->|]; [by rewrite lookup_insert_eq|by rewrite lookup_insert_ne].
      * intros l w Hw. destruct (decide (l = fresh (dom h))) as [->|]; [rewrite lookup_insert_eq in Hw|rewrite lookup_insert_ne in Hw by done]; [congruence|eauto].
      * cbn. rewrite lookup_insert_eq. split; [done|]. split; [done|]. split; [|eauto 6].
        intros [w|l] H2; cbn in *; [done|]. destruct (decide (l = fresh (dom h))) as [->|]; [rewrite Hf in H2; by destruct H2|by rewrite lookup_insert_ne].
    + split; [by apply heap_ok_refl|]. auto.
  - injection Hl as <- <-. split; [by apply heap_ok_refl|]. auto.
Qed.

Lemma held_deref_mutable h l : heap_ok h -> held h (Ref l) -> mutable (deref h (Ref l)) = true.
Proof. intros Hh [v Hv]. cbn. rewrite Hv. cbn. eauto. Qed.

Lemma lend_grown h c h' c' : lend h c = (h', c') -> heap_ok h -> held h c -> grown h h' /\ held h' c' /\ deref h' c' = deref h c.
Proof. intros Hl Hh Hc. destruct (lend_spec _ _ _ _ Hl Hh Hc) as (H1 & H2 & H3 & H4 & _). by repeat split; try apply H1. Qed.

(** The tracking of one key only depends on what the row holds of it. *)
Lemma tracked_update X h t t' base k :
  tracked X h t base ->
  (forall k', k' <> k -> live t' !! k' = live t !! k' /\ snaps t' !! k' = snaps t !! k' /\ (k' ∈ written t -> k' ∈ written t')) ->
  (forall c, live t' !! k = Some c -> held h c) ->
  k ∈ written t' \/ k ∈ X \/ tracked_cell h t' k (live t' !! k) (base !! k) ->
  tracked X h t' base.
Proof.
  intros Ht Hne Hh Hk k'. destruct (decide (k' = k)) as [->|Hk']; [done|].
  destruct (Hne k' Hk') as (H1 & H2 & H3). rewrite H1. destruct (Ht k') as [Hh' Hc]. split; [done|].
  destruct Hc as [Hc|[Hc|Hc]]; [by left; auto|by right; left|right; right]. unfold tracked_cell in *. by rewrite H2.
Qed.

Ltac row_simpl := cbn [live written snaps put_live put_snap drop_snap mark drop_live]; rewrite ?lookup_insert_eq, ?lookup_delete_eq.
Ltac elsewhere := intros k' Hk'; row_simpl; rewrite ?lookup_insert_ne, ?lookup_delete_ne by congruence; set_solver.

(** A cell is lent, with or without a snapshot of its value. *)
Lemma lent_tracked X k h t base c h' c' (snap : bool) :
  live t !! k = Some c -> lend h c = (h', c') -> heap_ok h -> tracked X h t base ->
  grown h h' /\ held h' c' /\
  tracked X h' (if snap && match snaps t !! k with Some _ => false | None => true end then put_snap k (deref h c) (put_live k c' t) else put_live k c' t) base.
Proof.
  intros Hk Hl Hh Ht. destruct (Ht k) as [Hheld Hc]. specialize (Hheld _ Hk).
  destruct (lend_grown _ _ _ _ Hl Hh Hheld) as (Hg & Hc1 & Hd). split; [done|]. split; [done|].
  pose proof (tracked_grown _ _ _ _ _ Hg Ht) as Ht1. rewrite Hk in Hc.
  apply (tracked_update _ _ t _ _ k Ht1); [destruct (_ && _); elsewhere|destruct (_ && _); row_simpl; congruence|].
  destruct Hc as [Hc|[Hc|Hc]]; [left; by destruct (_ && _)|by right; left|right; right].
  unfold tracked_cell in *. destruct snap; cbn [andb]; [destruct (snaps t !! k) as [s|] eqn:Hs|]; row_simpl; destruct (base !! k); try done; [by rewrite Hs|].
  by rewrite Hd.
Qed.

Lemma getitem_tracked X k h t base c h' t' : getitem k h t = (c, h', t') -> heap_ok h -> tracked X h t base ->
  grown h h' /\ tracked X h' t' base /\ held h' c.
Proof.
  unfold getitem. destruct (live t !! k) as [c0|] eqn:Hk; [|intros [= <- <- <-] Hh Ht; split; [by apply grown_refl|done]].
  intros Hg Hh Ht. destruct (lend h c0) as [h1 c1] eqn:Hl.
  destruct (lent_tracked X k h t base c0 h1 c1 (mutable (deref h c0)) Hk Hl Hh Ht) as (H1 & H2 & H3).
  destruct (mutable (deref h c0)); injection Hg as <- <- <-; (split; [done|]); [|done]. split; [|done]. cbn [andb] in H3. by destruct (snaps t !! k).
Qed.
Lemma peek_tracked X k h t base h' t' : peek k h t = (h', t') -> heap_ok h -> tracked X h t base -> grown h h' /\ tracked X h' t' base.
Proof.
  unfold peek. destruct (live t !! k) as [c|] eqn:Hk; [|intros [= <- <-] Hh Ht; split; [by apply grown_refl|done]].
  destruct (lend h c) as [h1 c1] eqn:Hl. intros [= <- <-] Hh Ht. destruct (lent_tracked X k h t base c h1 c1 false Hk Hl Hh Ht) as (H1 & _ & H3). done.
Qed.
Lemma peek_same k h t h' t' : peek k h t = (h', t') -> heap_ok h -> (forall k c, live t !! k = Some c -> held h c) ->
  contents h' t' = contents h t /\ dom (live t') = dom (live t) /\ written t' = written t /\ snaps t' = snaps t.
Proof.
  unfold peek. destruct (live t !! k) as [c|] eqn:Hk; [|by intros [= <- <-]].
  destruct (lend h c) as [h1 c1] eqn:Hl. intros [= <- <-] Hh Ht. destruct (lend_grown _ _ _ _ Hl Hh (Ht _ _ Hk)) as ([_ Hg] & _ & Hd).
  split; [|split; [|done]].
  - apply map_eq. intros k'. rewrite !lookup_contents. cbn. destruct (decide (k' = k)) as [->|]; [rewrite lookup_insert_eq, Hk; cbn; by rewrite Hd|].
    rewrite lookup_insert_ne by done. destruct (live t !! k') as [c2|] eqn:Hk2; cbn; [|done]. f_equal. by eapply Hg, Ht.
  - cbn. rewrite dom_insert_L. assert (k ∈ dom (live t)) by (by apply elem_of_dom_2 in Hk). set_solver.
Qed.
Lemma row_items_spec X h t base h' t' : items h t = (h', t') -> heap_ok h -> tracked X h t base ->
  grown h h' /\ tracked X h' t' base /\ contents h' t' = contents h t /\ dom (live t') = dom (live t) /\ written t' = written t /\ snaps t' = snaps t.
Proof.
  unfold items. generalize (elements (dom (live t))). intros ks. revert h t. induction ks as [|k ks IH]; intros h t; cbn [foldl].
  - intros [= <- <-] Hh Ht. split; [by apply grown_refl|done].
  - cbn [fst snd]. destruct (peek k h t) as [h1 t1] eqn:Hp. intros Hi Hh Ht. destruct (peek_tracked X k h t base h1 t1 Hp Hh Ht) as [H1 H2].
    destruct (peek_same k h t h1 t1 Hp Hh) as (E1 & E2 & E3 & E4); [intros k' c Hc; by apply (Ht k')|].
    destruct (IH h1 t1 Hi) as (H3 & H4 & F1 & F2 & F3 & F4); [apply H1|done|]. split; [by eapply grown_trans|]. split; [done|].
    split_and!; congruence.
Qed.

Lemma setitem_tracked X k c h t base : held h c -> tracked X h t base -> tracked X h (setitem k c t) base.
Proof. intros Hc Ht. apply (tracked_update _ _ t _ _ k Ht); unfold setitem; [elsewhere|row_simpl; congruence|left; row_simpl; set_solver]. Qed.

Lemma dropped_tracked X k h t base : tracked X h t base -> tracked X h (drop_snap k (mark k (drop_live k t))) base.
Proof. intros Ht. apply (tracked_update _ _ t _ _ k Ht); [elsewhere|row_simpl; congruence|left; row_simpl; set_solver]. Qed.

Lemma missed_tracked X k h t base : live t !! k = None -> tracked X h t base -> tracked X h (drop_snap k (mark k t)) base.
Proof. intros Hk Ht. apply (tracked_update _ _ t _ _ k Ht); [elsewhere|row_simpl; congruence|left; row_simpl; set_solver]. Qed.

Lemma update_tracked X kvs h t base : Forall (fun kv => held h kv.2) kvs -> tracked X h t base -> tracked X h (update kvs t) base.
Proof. unfold update. revert t. induction kvs as [|kv kvs IH]; intros t; cbn [foldl]; [done|]. intros [Hc Hkvs]%Forall_cons Ht. by apply IH, setitem_tracked. Qed.

Lemma clear_tracked X h t base : tracked X h t base -> tracked X h (clear t) base.
Proof.
  intros Ht k. split; [cbn; by rewrite lookup_empty|]. destruct (Ht k) as [_ Hc]. unfold clear. cbn.
  destruct (live t !! k) as [c|] eqn:Hk; [left; apply elem_of_union_r, elem_of_dom; by eexists|].
  destruct Hc as [Hc|[Hc|Hc]]; [left; set_solver|by right; left|right; right]. by rewrite lookup_empty.
Qed.

(** A step of the program on a row, with the keys it assigns: a method, or a mutation of objects that
    have been handed out, in whatever way. *)
Inductive row_step (h : heap) (t : TaskState) : gset string -> heap -> TaskState -> Prop :=
| step_getitem k c h' t' : getitem k h t = (c, h', t') -> row_step h t ∅ h' t'
| step_get k dflt c h' t' : get_or k dflt h t = (c, h', t') -> row_step h t ∅ h' t'
| step_setitem k c : held h c -> row_step h t {[k]} h (setitem k c t)
| step_delitem k t' : delitem k t = Ok t' -> row_step h t {[k]} h t'
| step_update kvs : Forall (fun kv => held h kv.2) kvs -> row_step h t (list_to_set kvs.*1) h (update kvs t)
| step_clear : row_step h t (dom (live t)) h (clear t)
| step_pop k dflt c h' t' : pop k dflt h t = Ok (c, h', t') -> row_step h t {[k]} h' t'
| step_popitem k k' c h' t' : popitem k h t = Ok (k', c, h', t') -> row_step h t {[k']} h' t'
| step_setdefault k dflt c h' t' : held h dflt -> setdefault_ k dflt h t = (c, h', t') ->
    row_step h t (if decide (is_Some (live t !! k)) then ∅ else {[k]}) h' t'
| step_items h' t' : items h t = (h', t') -> row_step h t ∅ h' t'
| step_mutate h' : mutated h h' -> row_step h t ∅ h' t.

Lemma row_step_tracked X h t ks h' t' base : row_step h t ks h' t' -> heap_ok h -> tracked X h t base ->
  mutated h h' /\ tracked (X ∪ unseen h h' t) h' t' base.
Proof.
  intros Hs Hh Ht.
  assert (Hgrown : forall h1 t1, grown h h1 -> tracked X h1 t1 base -> mutated h h1 /\ tracked (X ∪ unseen h h1 t) h1 t1 base).
  { intros h1 t1 Hg H1. split; [apply Hg|]. by apply (tracked_weaken X); [set_solver|]. }
  pose proof (grown_refl h Hh) as Hr.
  destruct Hs as [k c h' t' Hg|k dflt c h' t' Hg|k c Hc|k t' Hd|kvs Hk| |k dflt c h' t' Hp|k k' c h' t' Hp|k dflt c h' t' Hc Hg|h' t' Hi|h' Hm].
  - apply (getitem_tracked X _ _ _ base) in Hg as (? & ? & _); auto.
  - unfold get_or in Hg. destruct (live t !! k); [apply (getitem_tracked X _ _ _ base) in Hg as (? & ? & _); auto|]. injection Hg as <- <- <-. auto.
  - by apply Hgrown, setitem_tracked.
  - unfold delitem in Hd. destruct (live t !! k); [|done]. injection Hd as <-. by apply Hgrown, dropped_tracked.
  - by apply Hgrown, update_tracked.
  - by apply Hgrown, clear_tracked.
  - unfold pop in Hp. destruct (live t !! k) as [c0|] eqn:Hk; [|destruct dflt; [|done]; injection Hp as <- <- <-; by apply Hgrown, missed_tracked].
    destruct (lend h c0) as [h1 c1] eqn:Hl. injection Hp as <- <- <-. destruct (Ht k) as [Hheld _].
    destruct (lend_grown _ _ _ _ Hl Hh (Hheld _ Hk)) as (Hm & _). by apply Hgrown, dropped_tracked, (tracked_grown X h).
  - unfold popitem in Hp. destruct (live t !! k) as [c0|] eqn:Hk; [|done].
    destruct (lend h c0) as [h1 c1] eqn:Hl. injection Hp as <- <- <- <-. destruct (Ht k) as [Hheld _].
    destruct (lend_grown _ _ _ _ Hl Hh (Hheld _ Hk)) as (Hm & _). by apply Hgrown, dropped_tracked, (tracked_grown X h).
  - unfold setdefault_ in Hg. destruct (live t !! k); [apply (getitem_tracked X _ _ _ base) in Hg as (? & ? & _); auto|].
    apply (getitem_tracked X _ _ _ base) in Hg as (? & ? & _); [auto|done|]. by apply setitem_tracked.
  - apply (row_items_spec X _ _ base) in Hi as (? & ? & _); auto.
  - split; [done|]. by apply tracked_mutated.
Qed.

Lemma getitem_written k h t c h' t' : getitem k h t = (c, h', t') -> written t' = written t.
Proof.
  unfold getitem. destruct (live t !! k) as [c0|]; [|by intros [= <- <- <-]]. destruct (lend h c0).
  destruct (mutable (deref h c0)); intros [= <- <- <-]; [by destruct (snaps t !! k)|done].
Qed.
Lemma update_written kvs t : written (update kvs t) = list_to_set kvs.*1 ∪ written t.
Proof.
  unfold update. revert t. induction kvs as [|[k c] kvs IH]; intros t; cbn; [set_solver|]. rewrite IH. cbn. set_solver.
Qed.
Lemma peek_written k h t : written (peek k h t).2 = written t.
Proof. unfold peek. destruct (live t !! k) as [c|]; [|done]. by destruct (lend h c). Qed.
Lemma items_written h t h' t' : items h t = (h', t') -> written t' = written t.
Proof.
  unfold items. generalize (elements (dom (live t))). intros ks. revert h t. induction ks as [|k ks IH]; intros h t; cbn [foldl]; [by intros [= <- <-]|].
  cbn [fst snd]. destruct (peek k h t) as [h1 t1] eqn:Hp. intros H. rewrite (IH _ _ H). pose proof (peek_written k h t) as Hw. by rewrite Hp in Hw.
Qed.
Lemma row_step_written h t ks h' t' : row_step h t ks h' t' -> written t' = ks ∪ written t.
Proof.
  destruct 1 as [k c h' t' Hg|k dflt c h' t' Hg|k c Hc|k t' Hd|kvs Hk| |k dflt c h' t' Hp|k k' c h' t' Hp|k dflt c h' t' Hc Hg|h' t' Hi|h' Hm].
  - apply getitem_written in Hg as ->. set_solver.
  - unfold get_or in Hg. destruct (live t !! k); [apply getitem_written in Hg as ->|injection Hg as <- <- <-]; set_solver.
  - done.
  - unfold delitem in Hd. destruct (live t !! k); [|done]. by injection Hd as <-.
  - apply update_written.
  - cbn. set_solver.
  - unfold pop in Hp. destruct (live t !! k) as [c0|]; [destruct (lend h c0)|destruct dflt; [|done]]; by injection Hp as <- <- <-.
  - unfold popitem in Hp. destruct (live t !! k) as [c0|]; [destruct (lend h c0)|done]. by injection Hp as <- <- <- <-.
  - unfold setdefault_ in Hg. destruct (live t !! k) eqn:Hk; apply getitem_written in Hg as ->.
    + rewrite decide_True by done. set_solver.
    + rewrite decide_False by (by intros []). done.
  - apply items_written in Hi as ->. set_solver.
  - set_solver.
Qed.

(** *** Flushing *)

Lemma flush_key_lookup h k t k' :
  live (flush_key h k t) = live t /\ (k' ∈ written (flush_key h k t) <-> k' ∈ written t /\ k' <> k) /\
  snaps (flush_key h k t) !! k' = if decide (k' = k)
    then match live t !! k with Some c => if mutable (deref h c) then Some (deref h c) else None | None => None end else snaps t !! k'.
Proof.
  unfold flush_key. cbv zeta. cbn [live]. destruct (live t !! k) as [c|]; [destruct (mutable (deref h c))|]; cbn; (split; [done|split; [set_solver|]]);
    destruct (decide (k' = k)) as [->|]; by simplify_map_eq.
Qed.

Lemma flushed_lookup h ks t k :
  live (flushed h ks t) = live t /\ (k ∈ written (flushed h ks t) <-> k ∈ written t /\ k ∉ ks) /\
  snaps (flushed h ks t) !! k = if decide (k ∈ ks)
    then match live t !! k with Some c => if mutable (deref h c) then Some (deref h c) else None | None => None end else snaps t !! k.
Proof.
  unfold flushed. assert (Hks : k ∈ ks <-> k ∈ elements ks) by set_solver.
  rewrite (decide_ext _ (k ∈ elements ks) _ _ Hks). rewrite Hks. clear Hks. induction (elements ks) as [|k' l IH]; cbn [foldr].
  - rewrite decide_False by set_solver. set_solver.
  - destruct IH as (H1 & H2 & H3). destruct (flush_key_lookup h k' (foldr (flush_key h) t l) k) as (H4 & H5 & H6).
    rewrite H4, H5, H6, H1, H2, H3. split; [done|]. split; [set_solver|].
    destruct (decide (k = k')) as [->|Hne]; [by rewrite decide_True by set_solver|].
    destruct (decide (k ∈ l)); [by rewrite decide_True by set_solver|by rewrite decide_False by set_solver].
Qed.
Lemma flushed_contents h ks t : contents h (flushed h ks t) = contents h t.
Proof. unfold contents. by destruct (flushed_lookup h ks t "") as (-> & _). Qed.

(** After a flush of its dirty keys a row is tracked against what it holds. *)
Lemma flushed_tracked X h t base : heap_ok h -> tracked X h t base -> tracked ∅ h (flushed h (dirty h t) t) (contents h t).
Proof.
  intros Hh Ht k. destruct (flushed_lookup h (dirty h t) t k) as (Hl & Hw & Hs). rewrite Hl. destruct (Ht k) as [Hheld _]. split; [done|right; right].
  rewrite lookup_contents. unfold tracked_cell. destruct (live t !! k) as [c|] eqn:Hk; [|done]. cbn [fmap option_fmap option_map]. rewrite Hs.
  destruct (decide (k ∈ dirty h t)) as [Hd|Hd].
  - destruct (mutable (deref h c)); apply py_eq_refl.
  - destruct (snaps t !! k) as [s|] eqn:Hk2; [|apply py_eq_refl]. cbn. destruct (py_eq (deref h c) s) eqn:He; [by apply py_eq_sym|].
    destruct Hd. apply elem_of_dirty. right. by exists s, c.
Qed.
Lemma flushed_written h t : written (flushed h (dirty h t) t) = ∅.
Proof.
  apply set_eq. intros k. destruct (flushed_lookup h (dirty h t) t k) as (_ & -> & _). split; [|set_solver].
  intros [Hw Hd]. destruct Hd. apply elem_of_dirty. by left.
Qed.

(** ** What a save writes *)

Definition row_of (s : State) (tid : string) : values :=
  match data s !! tid with
  | Some (Task t) => contents (objects s) t
  | Some (Raw v) => match dict_of_value v with Ok r => r | Err _ => ∅ end
  | None => ∅
  end.
Definition dirty_of (s : State) (tid : string) : gset string := match data s !! tid with Some (Task t) => dirty (objects s) t | _ => ∅ end.
(** The value of a key in the file. *)
Definition table_cell (d : table) (tid k : string) : option pyval := match d !! tid with Some (Row r) => r !! k | _ => None end.
Definition file_cell (f : file) (tid k : string) : option pyval := match f with Object d => table_cell d tid k | _ => None end.

Lemma merge_keys_lookup mem ks disk k : merge_keys mem ks disk !! k = if decide (k ∈ ks) then mem !! k else disk !! k.
Proof.
  unfold merge_keys. rewrite (decide_ext _ (k ∈ elements ks)) by set_solver. induction (elements ks) as [|k' l IH]; cbn [foldr].
  - by rewrite decide_False by set_solver.
  - unfold put_key at 1. destruct (decide (k = k')) as [->|Hne].
    + rewrite decide_True by set_solver. destruct (mem !! k') eqn:Hk; by simplify_map_eq.
    + assert (Hl : forall m, (match mem !! k' with Some v => <[k' := v]> m | None => delete k' m end : values) !! k = m !! k)
        by (intros m; destruct (mem !! k'); by simplify_map_eq).
      rewrite Hl, IH. apply decide_ext. set_solver.
Qed.

Lemma dirty_rows_lookup s tid x : dirty_rows s !! tid = Some x <-> exists t, data s !! tid = Some (Task t) /\ x = (t, dirty (objects s) t) /\ x.2 <> ∅.
Proof.
  unfold dirty_rows. rewrite lookup_omap. destruct (data s !! tid) as [[t|v]|]; cbn; [|naive_solver..].
  destruct (decide (dirty (objects s) t = ∅)) as [He|He]; split; [done|intros (t' & [= <-] & -> & H); by destruct H| |intros (t' & [= <-] & -> & H)]; [|done].
  intros [= <-]. by exists t.
Qed.
Lemma dirty_rows_None s tid : dirty_rows s !! tid = None <-> dirty_of s tid = ∅.
Proof.
  unfold dirty_rows, dirty_of. rewrite lookup_omap. destruct (data s !! tid) as [[t|v]|]; cbn; [|done..]. by destruct (decide _).
Qed.

(** The rows that are merged, the others being left alone. *)
Lemma save_rows_spec h l d d' : NoDup l.*1 -> foldR (fun d '(tid, x) => save_row h tid x d) l d = Ok d' ->
  (forall tid x, (tid, x) ∈ l -> forall k, table_cell d' tid k = if decide (k ∈ x.2) then contents h x.1 !! k else table_cell d tid k) /\
  (forall tid, tid ∉ l.*1 -> d' !! tid = d !! tid).
Proof.
  revert d. induction l as [|[tid x] l IH]; intros d; cbn [foldR].
  - intros _ [= <-]. split; [by intros ? ? ?%elem_of_nil|done].
  - intros [Hni Hnd]%NoDup_cons (d1 & Hr & Hl)%bind_Ok. destruct (IH d1 Hnd Hl) as [IH1 IH2].
    assert (Hrow : exists r, d1 = <[tid := Row (merge_keys (contents h x.1) x.2 r)]> d /\ forall k, table_cell d tid k = r !! k).
    { unfold save_row in Hr. unfold table_cell. destruct (d !! tid) as [[r|v]|]; [|done|]; injection Hr as <-; eexists; (split; [done|]); [done|]. intros k. by rewrite lookup_empty. }
    destruct Hrow as (r & -> & Hr'). split.
    + intros tid' x' [[= -> ->]|Hin]%elem_of_cons k.
      * rewrite Hr', <- merge_keys_lookup. unfold table_cell. by rewrite IH2, lookup_insert_eq.
      * rewrite (IH1 tid' x' Hin k). assert (tid' <> tid) by (intros ->; apply Hni, list_elem_of_fmap; by exists (tid, x')).
        unfold table_cell. by rewrite lookup_insert_ne.
    + intros tid' [Hne Hni']%not_elem_of_cons. rewrite IH2 by done. by rewrite lookup_insert_ne.
Qed.

Lemma file_cell_read f d : read_or_empty f = Ok d -> forall tid k, file_cell f tid k = table_cell d tid k.
Proof. destruct f; cbn; intros [= <-] tid k; [|done]. unfold table_cell. by rewrite lookup_empty. Qed.

(** [save] writes the dirty keys, each with the value in memory, and no other key; and it leaves the memory
    as it was, with nothing dirty. *)
Lemma save_cells s f s' f' : save s f = Ok (s', f') -> forall tid k, file_cell f' tid k = if decide (k ∈ dirty_of s tid) then row_of s tid !! k else file_cell f tid k.
Proof.
  unfold save. cbv zeta. destruct (decide (dirty_rows s = ∅)) as [He|He].
  - intros [= <- <-] tid k. rewrite decide_False; [done|]. assert (H : dirty_of s tid = ∅) by (apply dirty_rows_None; rewrite He; apply lookup_empty). set_solver.
  - intros (d & Hd & (d' & Hd' & [= <- <-])%bind_Ok)%bind_Ok tid k. rewrite (file_cell_read _ _ Hd).
    destruct (save_rows_spec _ _ _ _ (NoDup_fst_map_to_list _) Hd') as [H1 H2]. cbn [file_cell].
    destruct (dirty_rows s !! tid) as [x|] eqn:Hx.
    + rewrite (H1 tid x) by (by apply elem_of_map_to_list). apply dirty_rows_lookup in Hx as (t & Ht & -> & _).
      unfold dirty_of, row_of. by rewrite Ht.
    + rewrite decide_False by (apply dirty_rows_None in Hx; set_solver). unfold table_cell. rewrite H2; [done|].
      intros ([tid' x] & -> & Hin)%list_elem_of_fmap. apply elem_of_map_to_list in Hin. cbn in Hx. congruence.
Qed.

Lemma save_memory s f s' f' : save s f = Ok (s', f') -> objects s' = objects s /\
  forall tid, data s' !! tid = match data s !! tid with Some (Task t) => Some (Task (flushed (objects s) (dirty (objects s) t) t)) | o => o end.
Proof.
  unfold save. cbv zeta. destruct (decide (dirty_rows s = ∅)) as [He|He].
  - intros [= <- <-]. split; [done|]. intros tid. destruct (data s !! tid) as [[t|v]|] eqn:Hd; try done.
    assert (Hn : dirty_rows s !! tid = None) by (rewrite He; apply lookup_empty). apply dirty_rows_None in Hn. unfold dirty_of in Hn. rewrite Hd in Hn.
    by rewrite Hn.
  - intros (d & _ & (d' & _ & [= <- _])%bind_Ok)%bind_Ok. split; [done|]. intros tid. cbn. rewrite map_lookup_imap.
    destruct (data s !! tid) as [[t|v]|] eqn:Hd; cbn; [|done..]. destruct (dirty_rows s !! tid) as [x|] eqn:Hx.
    + apply dirty_rows_lookup in Hx as (t' & Ht' & -> & _). by simplify_eq.
    + apply dirty_rows_None in Hx. unfold dirty_of in Hx. rewrite Hd in Hx. by rewrite Hx.
Qed.

(** ** Processes that share the file

    What a process may do between opening the file and saving, in any order and with any other process in
    between.  Three ghosts: [base], what it had of each row when it last loaded or saved; [assigned], the keys it has
    assigned since; [behind], the keys whose values it has mutated since behind the back of the row, through a
    reference from [items()] and the like, while the row had no snapshot of them. *)
Record Process := { store : State; base : string -> values; assigned : string -> gset string; behind : string -> gset string }.
Definition opened (s : State) : Process := {| store := s; base := row_of s; assigned := fun _ => ∅; behind := fun _ => ∅ |}.
Definition put_row (s : State) (tid : string) (h : heap) (t : TaskState) : State := put_heap h (put_task tid t s).
Definition assign (p : Process) (tid : string) (ks : gset string) (s : State) : Process :=
  {| store := s; base := base p; assigned := fun tid' => if decide (tid' = tid) then ks ∪ assigned p tid' else assigned p tid';
     behind := fun tid' => behind p tid' ∪ match data (store p) !! tid' with Some (Task t) => unseen (objects (store p)) (objects s) t | _ => ∅ end |}.

Inductive step : Process * file -> Process * file -> Prop :=
| step_row p f tid t ks h' t' : data (store p) !! tid = Some (Task t) -> row_step (objects (store p)) t ks h' t' ->
    step (p, f) (assign p tid ks (put_row (store p) tid h' t'), f)
| step_task p f tid t s' : get_task tid (store p) = Ok (t, s') -> step (p, f) (assign p tid ∅ s', f)
| step_save p f s' f' : save (store p) f = Ok (s', f') -> step (p, f) (opened s', f')
| step_open p f s : open_state f = Ok s -> step (p, f) (opened s, f)
(* Another program changes the file. *)
| step_other p f f' : step (p, f) (p, f').

Definition process_ok (p : Process) : Prop :=
  heap_ok (objects (store p)) /\
  forall tid, match data (store p) !! tid with
  | Some (Task t) => tracked (behind p tid) (objects (store p)) t (base p tid) /\ written t = assigned p tid
  | _ => base p tid = row_of (store p) tid /\ assigned p tid = ∅
  end.

Lemma opened_ok f s : open_state f = Ok s -> process_ok (opened s).
Proof.
  assert (H : forall d : table, process_ok (opened {| data := load_entry <$> d; objects := ∅ |})).
  { intros d. split; [intros l v; cbn; by rewrite lookup_empty|]. intros tid. cbn. rewrite lookup_fmap.
    destruct (d !! tid) as [[r|v]|] eqn:Hd; cbn; [|done..]. split; [|done].
    replace (row_of _ tid) with r; [apply loaded_tracked|]. unfold row_of. cbn. rewrite lookup_fmap, Hd. cbn.
    apply map_eq. intros k. unfold contents, task_state. cbn [live]. rewrite !lookup_fmap. by destruct (r !! k). }
  destruct f as [| | |d]; cbn; intros [= <-]; [|apply H]. specialize (H ∅). by rewrite fmap_empty in H.
Qed.

Lemma saved_ok p f s' f' : process_ok p -> save (store p) f = Ok (s', f') -> process_ok (opened s').
Proof.
  intros [Hh Hp] Hs. destruct (save_memory _ _ _ _ Hs) as [Ho Hd]. split; [cbn; by rewrite Ho|].
  intros tid. cbn. unfold row_of. rewrite Ho, (Hd tid). specialize (Hp tid). destruct (data (store p) !! tid) as [[t|v]|]; [|done..].
  destruct Hp as [Ht Hw]. split; [|apply flushed_written]. rewrite flushed_contents. by eapply flushed_tracked.
Qed.

Lemma put_row_ok p tid t ks h' t' : process_ok p -> data (store p) !! tid = Some (Task t) -> row_step (objects (store p)) t ks h' t' ->
  process_ok (assign p tid ks (put_row (store p) tid h' t')).
Proof.
  intros [Hh Hp] Hd Hr. pose proof (Hp tid) as Htid. rewrite Hd in Htid. destruct Htid as [Ht Hw].
  destruct (row_step_tracked _ _ _ _ _ _ _ Hr Hh Ht) as [Hm Ht']. apply row_step_written in Hr.
  split; [apply Hm|]. intros tid'. specialize (Hp tid'). cbn. unfold row_of. cbn. destruct (decide (tid' = tid)) as [->|Hne].
  - rewrite lookup_insert_eq, Hd. split; [done|]. by rewrite Hr, Hw.
  - rewrite lookup_insert_ne by done. destruct (data (store p) !! tid') as [[t2|v]|] eqn:Hd2; [|unfold row_of in Hp; rewrite Hd2 in Hp; done..].
    destruct Hp as [? ?]. split; [by apply tracked_mutated|done].
Qed.

Lemma get_task_ok p tid t s' : process_ok p -> get_task tid (store p) = Ok (t, s') -> process_ok (assign p tid ∅ s').
Proof.
  intros [Hh Hp] Hg.
  assert (Hold : forall tid' s, objects s = objects (store p) -> data s !! tid' = data (store p) !! tid' ->
    match data s !! tid' with
    | Some (Task t) => tracked (behind (assign p tid ∅ s) tid') (objects s) t (base p tid') /\ written t = assigned (assign p tid ∅ s) tid'
    | _ => base p tid' = row_of s tid' /\ assigned (assign p tid ∅ s) tid' = ∅
    end).
  { intros tid' s Ho Hd. specialize (Hp tid'). assert (Ha : assigned (assign p tid ∅ s) tid' = assigned p tid') by (cbn; case_decide; [by rewrite union_empty_l_L|done]).
    rewrite Ha. unfold row_of in *. cbn [behind assign]. rewrite Ho, Hd. destruct (data (store p) !! tid') as [[t1|v]|]; [|done..].
    destruct Hp as [Ht Hw]. split; [by apply tracked_mutated; [apply heap_ok_refl|]|done]. }
  assert (Hfresh : forall r, data (store p) !! tid = None \/ (exists v, data (store p) !! tid = Some (Raw v)) -> row_of (store p) tid = r ->
    process_ok (assign p tid ∅ (put_task tid (task_state r) (store p)))).
  { intros r Hd Hr. split; [done|]. intros tid'. destruct (decide (tid' = tid)) as [->|Hne].
    - specialize (Hp tid). cbn. rewrite lookup_insert_eq. cbn.
      assert (Hb : base p tid = r /\ assigned p tid = ∅) by (destruct Hd as [Hd|[v Hd]]; rewrite Hd in Hp; subst r; done).
      destruct Hb as [-> ->]. rewrite decide_True by done. split; [apply loaded_tracked|set_solver].
    - apply Hold; [done|]. cbn. by rewrite lookup_insert_ne. }
  unfold get_task in Hg. unfold row_of in Hfresh. destruct (data (store p) !! tid) as [[t0|v]|] eqn:Hd.
  - injection Hg as <- <-. split; [done|]. intros tid'. by apply Hold.
  - destruct v; try (cbn in Hg; injection Hg as <- <-; apply Hfresh; eauto; done);
      apply bind_Ok in Hg as (r & Hr & [= <- <-]); (apply Hfresh; [eauto|by rewrite Hr]).
  - injection Hg as <- <-. apply Hfresh; [by left|done].
Qed.

Lemma process_step_ok x y : step x y -> process_ok x.1 -> process_ok y.1.
Proof.
  destruct 1; cbn; intros Hp; [by eapply put_row_ok|by eapply get_task_ok|by eapply saved_ok|by eapply opened_ok|done].
Qed.
Lemma process_steps_ok x y : rtc step x y -> process_ok x.1 -> process_ok y.1.
Proof. induction 1; eauto using process_step_ok. Qed.

(** C17.  Saving merges.  Take any process that opened the file, then read, assigned, deleted and mutated in place
    (through references that it got from its rows, at any time, in any alias), saved and reopened, while other
    programs changed the file in between.  When it saves, a key of a row gets the value in its memory exactly
    when the process has assigned the key since it last loaded or saved, or the value, nested
    changes included, is not equal to the one it had then; every other key, also one that was
    only read, keeps the value the file has now, whoever wrote it; and the memory is left as it was.  Excepted are
    the keys mutated behind the back of the row ([behind]): through a reference from [items()], [values()],
    [copy()], [dict(row)] or [historical], before the row has a snapshot of the value, which [__getitem__], [get],
    [setdefault] and a save take.  Such changes may not be saved (Lemma [item_mutation_lost]), and the code makes some. *)
Theorem save_merges f0 s0 p f s' f' :
  open_state f0 = Ok s0 -> rtc step (opened s0, f0) (p, f) -> save (store p) f = Ok (s', f') ->
  (forall tid k, k ∈ assigned p tid \/ k ∉ behind p tid -> file_cell f' tid k =
     if decide (k ∈ assigned p tid \/ ~ same (row_of (store p) tid !! k) (base p tid !! k)) then row_of (store p) tid !! k else file_cell f tid k) /\
  forall tid, row_of s' tid = row_of (store p) tid.
Proof.
  intros Ho Hsteps Hs. assert (Hp : process_ok p) by (eapply (process_steps_ok _ (p, f)); [done|by eapply opened_ok]).
  destruct Hp as [Hh Hp]. split.
  - intros tid k Hk. rewrite (save_cells _ _ _ _ Hs). specialize (Hp tid). apply decide_ext. unfold dirty_of, row_of in *.
    destruct (data (store p) !! tid) as [[t|v]|].
    + destruct Hp as [Ht Hw]. rewrite <- Hw in *. by apply (dirty_exact (behind p tid)).
    + destruct Hp as [-> ->]. split; [set_solver|]. intros [?|[]]; [set_solver|]. by apply same_equivalence.
    + destruct Hp as [-> ->]. split; [set_solver|]. intros [?|[]]; [set_solver|]. by apply same_equivalence.
  - destruct (save_memory _ _ _ _ Hs) as [Ho' Hd]. intros tid. unfold row_of. rewrite Ho', (Hd tid).
    destruct (data (store p) !! tid) as [[t|v]|]; [|done..]. apply flushed_contents.
Qed.

(** *** Saves that commute *)

(** A file that is absent or an object of objects. *)
Definition sound (f : file) : Prop := exists d, read_or_empty f = Ok d /\ forall tid v, d !! tid <> Some (Junk v).

Lemma save_rows_succeed h l d : (forall tid v, d !! tid <> Some (Junk v)) ->
  exists d', foldR (fun d '(tid, x) => save_row h tid x d) l d = Ok d' /\ forall tid v, d' !! tid <> Some (Junk v).
Proof.
  revert d. induction l as [|[tid x] l IH]; intros d Hd; cbn [foldR]; [by exists d|].
  assert (Hr : exists r, save_row h tid x d = Ok (<[tid := Row r]> d)).
  { unfold save_row. destruct (d !! tid) as [[r|v]|] eqn:Ht; [|by apply Hd in Ht|]; by eexists. }
  destruct Hr as [r ->]. apply IH. intros tid' v. destruct (decide (tid' = tid)) as [->|]; [by rewrite lookup_insert_eq|by rewrite lookup_insert_ne].
Qed.
Lemma save_succeeds s f : sound f -> exists s' f', save s f = Ok (s', f') /\ sound f'.
Proof.
  intros (d & Hf & Hd). unfold save. cbv zeta. destruct (decide (dirty_rows s = ∅)); [exists s, f; split; [done|by exists d]|].
  destruct (save_rows_succeed (objects s) (map_to_list (dirty_rows s)) d Hd) as (d' & Hr & Hd'). rewrite Hf. cbn. rewrite Hr. cbn.
  eexists _, _. split; [done|]. by exists d'.
Qed.

(** Two processes whose changes concern different keys may save in either order: on a file that is
    absent or made of rows, all four saves succeed, both orders give the same file, and it holds the changes of
    both over what was there. *)
Theorem disjoint_saves_commute s1 s2 f :
  sound f -> (forall tid, dirty_of s1 tid ## dirty_of s2 tid) ->
  exists s1' s2' f1 f2 s1'' s2'' f12 f21,
    save s1 f = Ok (s1', f1) /\ save s2 f1 = Ok (s2'', f12) /\ save s2 f = Ok (s2', f2) /\ save s1 f2 = Ok (s1'', f21) /\
    forall tid k, file_cell f12 tid k = file_cell f21 tid k /\
      file_cell f12 tid k = if decide (k ∈ dirty_of s1 tid) then row_of s1 tid !! k
                            else if decide (k ∈ dirty_of s2 tid) then row_of s2 tid !! k else file_cell f tid k.
Proof.
  intros Hf Hd. destruct (save_succeeds s1 f Hf) as (s1' & f1 & H1 & Hf1). destruct (save_succeeds s2 f Hf) as (s2' & f2 & H2 & Hf2).
  destruct (save_succeeds s2 f1 Hf1) as (s2'' & f12 & H12 & _). destruct (save_succeeds s1 f2 Hf2) as (s1'' & f21 & H21 & _).
  exists s1', s2', f1, f2, s1'', s2'', f12, f21. repeat (split; [done|]). intros tid k.
  rewrite (save_cells _ _ _ _ H12), (save_cells _ _ _ _ H21), (save_cells _ _ _ _ H1), (save_cells _ _ _ _ H2).
  specialize (Hd tid). repeat case_decide; set_solver.
Qed.

(** ** What the fence puts back *)

Lemma restored_row_lookup before now k : restored_row before now !! k = restored_key (now !! k) (before !! k).
Proof. unfold restored_row. rewrite lookup_merge. by destruct (now !! k), (before !! k). Qed.

(** A key that this process has deleted since the dispatch comes back: only values that it has changed are
    kept, and a deletion is not one. *)
Lemma deletion_restored before now k v : before !! k = Some v -> now !! k = None -> restored_row before now !! k = Some v.
Proof. intros Hb Hn. by rewrite restored_row_lookup, Hn. Qed.

(** ** A store to look at *)

Module Desk.
Definition heads : pyval := PList [PStr "a"].
Definition row : values := {["review_heads" := heads; "pr_number" := PInt 7]}.
Definition start : file := Object {["CG-1" := Row row]}.
Definition get {A} (d : A) (r : result serr A) : A := match r with Ok x => x | Err _ => d end.
Definition nothing : State := {| data := ∅; objects := ∅ |}.
Definition s0 : State := get nothing (open_state start).
Definition t0 : TaskState := task_state row.
(** The list of heads is read, and then appended to. *)
Definition read : cell * heap * TaskState := getitem "review_heads" ∅ t0.
Definition appended : heap := (fun _ => PList [PStr "a"; PStr "b"]) <$> read.1.2.
Definition p1 : Process := assign (opened s0) "CG-1" ∅ (put_row s0 "CG-1" read.1.2 read.2).
Definition p2 : Process := assign p1 "CG-1" ∅ (put_row (store p1) "CG-1" appended read.2).
(** Meanwhile another process has changed the number. *)
Definition meanwhile : file := Object {["CG-1" := Row {["review_heads" := heads; "pr_number" := PInt 8]}]}.
Definition saved : State * file := get (nothing, Missing) (save (store p2) meanwhile).
Definition other : State := put_row s0 "CG-1" ∅ (setitem "pr_number" (Val (PInt 8)) t0).

Lemma steps : rtc step (opened s0, start) (p2, meanwhile).
Proof.
  eapply rtc_l; [apply (step_row (opened s0) start "CG-1" t0 ∅ read.1.2 read.2); [vm_compute; reflexivity|apply (step_getitem _ _ "review_heads" read.1.1); reflexivity]|].
  eapply rtc_l; [apply (step_row p1 start "CG-1" read.2 ∅ appended read.2); [vm_compute; reflexivity|apply step_mutate]|].
  - split; [intros l [v Hv]; unfold appended; rewrite lookup_fmap; change (objects (store p1)) with read.1.2 in Hv; rewrite Hv; by eexists|].
    intros l v. unfold appended. rewrite lookup_fmap. destruct (read.1.2 !! l); [|done]. by intros [= <-].
  - apply rtc_once. apply step_other.
Qed.
End Desk.

Lemma save_merges_witness :
  Desk.saved = (Desk.saved.1, Desk.saved.2) /\ file_cell Desk.saved.2 "CG-1" "review_heads" = Some (PList [PStr "a"; PStr "b"]) /\ file_cell Desk.saved.2 "CG-1" "pr_number" = Some (PInt 8).
Proof.
  assert (H : save (store Desk.p2) Desk.meanwhile = Ok (Desk.saved.1, Desk.saved.2)) by (vm_compute; reflexivity).
  split; [reflexivity|].
  assert (H0 : open_state Desk.start = Ok Desk.s0) by (vm_compute; reflexivity).
  rewrite !(proj1 (save_merges Desk.start Desk.s0 Desk.p2 Desk.meanwhile _ _ H0 Desk.steps H)) by (right; apply (bool_decide_unpack _); vm_compute; exact I).
  vm_compute. by split.
Defined.

(** *** A change that is not saved

    [Scheduler.close_accepted_reopens] ([scheduler/retro.py]) walks over [self.state.get("_retro_verdicts").items()]
    and stamps [closed_at] on each record it has dealt with.  Nothing takes a snapshot: the row is not
    dirty, the save writes nothing, and the stamp is gone with the process. *)
Module Retro.
Definition record (l : dict pyval) : pyval := PDict (("verdict", PStr "reopen") :: ("status", PStr "accepted") :: l)%list.
Definition start : file := Object {["_retro_verdicts" := Row {["p/ph" := record []]}]}.
Definition s0 : State := Desk.get Desk.nothing (open_state start).
Definition t0 : TaskState := task_state {["p/ph" := record []]}.
Definition listed : heap * TaskState := items ∅ t0.
Definition stamped : heap := (fun _ => record [("closed_at", PStr "now")]) <$> listed.1.
Definition p1 : Process := assign (opened s0) "_retro_verdicts" ∅ (put_row s0 "_retro_verdicts" listed.1 listed.2).
Definition p2 : Process := assign p1 "_retro_verdicts" ∅ (put_row (store p1) "_retro_verdicts" stamped listed.2).
End Retro.
Lemma item_mutation_lost :
  rtc step (opened Retro.s0, Retro.start) (Retro.p2, Retro.start) /\ behind Retro.p2 "_retro_verdicts" = {["p/ph"]} /\
  row_of (store Retro.p2) "_retro_verdicts" !! "p/ph" = Some (Retro.record [("closed_at", PStr "now")]) /\
  save (store Retro.p2) Retro.start = Ok (store Retro.p2, Retro.start).
Proof.
  split; [|vm_compute; by split_and!].
  eapply rtc_l; [apply (step_row (opened Retro.s0) Retro.start "_retro_verdicts" Retro.t0 ∅ Retro.listed.1 Retro.listed.2); [vm_compute; reflexivity|apply step_items; vm_compute; reflexivity]|].
  apply rtc_once. apply (step_row Retro.p1 Retro.start "_retro_verdicts" Retro.listed.2 ∅ Retro.stamped Retro.listed.2); [vm_compute; reflexivity|apply step_mutate]. split.
  - intros l [v Hv]. unfold Retro.stamped. rewrite lookup_fmap. change (objects (store Retro.p1)) with Retro.listed.1 in Hv. rewrite Hv. by eexists.
  - intros l v. unfold Retro.stamped. rewrite lookup_fmap. destruct (Retro.listed.1 !! l); [|done]. by intros [= <-].
Qed.

Lemma disjoint_saves_commute_witness :
  exists f12 f21, file_cell f12 "CG-1" "review_heads" = Some (PList [PStr "a"; PStr "b"]) /\ file_cell f12 "CG-1" "pr_number" = Some (PInt 8)
    /\ forall tid k, file_cell f12 tid k = file_cell f21 tid k.
Proof.
  assert (Hf : sound Desk.start).
  { eexists. split; [reflexivity|]. intros tid v. destruct (decide (tid = "CG-1")) as [->|Hne]; [vm_compute; discriminate|by rewrite lookup_singleton_ne]. }
  assert (Hd : forall tid, dirty_of (store Desk.p2) tid ## dirty_of Desk.other tid).
  { intros tid. destruct (decide (tid = "CG-1")) as [->|Hne]; [apply (bool_decide_unpack _); vm_compute; exact I|]. unfold dirty_of, Desk.other, Desk.p2. cbn [data put_row put_heap put_task store assign Desk.p1].
    rewrite !lookup_insert_ne by done. assert (Hs : data Desk.s0 = {["CG-1" := Task Desk.t0]}) by (vm_compute; reflexivity).
    rewrite Hs, lookup_singleton_ne by done. set_solver. }
  destruct (disjoint_saves_commute (store Desk.p2) Desk.other Desk.start Hf Hd) as (s1' & s2' & f1 & f2 & s1'' & s2'' & f12 & f21 & _ & _ & _ & _ & H).
  exists f12, f21. split; [|split].
  - rewrite (proj2 (H "CG-1" "review_heads")). vm_compute. reflexivity.
  - rewrite (proj2 (H "CG-1" "pr_number")). vm_compute. reflexivity.
  - intros tid k. apply H.
Defined.
