(* ===== verification/StateHistory.v ===== *)
(** * The history archive of the side-store: what it keeps

    [State.prepare_completed] compresses the historical values of finished tasks into files named by their
    digest; [commit_completed] replaces them, in the state file, by a reference; [historical] and
    [restore_operational] bring them back.  Here: the record of a task read through the archive is the one
    it had before, at every version of the directory that a commit passes through, so also after a crash
    ([archive_lossless]; what an earlier archive of the same task held is lost, [rearchived_history_lost]); and a task that becomes operational again gets its history back
    ([restored_history]). *)

From S2P Require Import Prelude PyValue Effects StateStore.

#[local] Open Scope list_scope.
#[local] Open Scope Z_scope.

Section history.
Context (digest : pyval -> string).

(** The directory after some writes of a commit. *)
Definition apply_write (d : Dir) (e : event wcmd) : Dir :=
  match e with Ev c _ => match c with
    | WriteIndex t => {| state_file := state_file d; index := Index t; blobs := blobs d |}
    | WriteState t => {| state_file := Object t; index := index d; blobs := blobs d |}
    end end.
Definition replay (d : Dir) (tr : list (event wcmd)) : Dir := foldl apply_write d tr.

(** The complete record of a task, as a new process reads it. *)
Definition record_of (d : Dir) (tid : string) : result serr values :=
  s ← open_state (state_file d);
  x ← historical digest d tid s;
  Ok (deref (objects x.2) <$> (x.1 : gmap string cell)).
(** Equal up to the reference itself. *)
Definition same_record (a b : result serr values) : Prop :=
  match a, b with
  | Ok r, Ok r' => forall k, k <> "_history_ref" -> same (r !! k) (r' !! k)
  | Err e, Err e' => e = e'
  | _, _ => False
  end.
#[export] Instance same_record_refl : Reflexive same_record.
Proof. intros [r|e]; cbn; [|done]. intros k _. reflexivity. Qed.

(** What [record_of] computes from a row of the file. *)
Definition complete (d : Dir) (r : values) : result serr values :=
  match r !! "_history_ref" with
  | Some (PDict ref) => p ← payload_of digest d ref; Ok (r ∪ p)
  | _ => Ok r
  end.

Lemma contents_task_state h r : contents h (task_state r) = r.
Proof. unfold contents, task_state. cbn. rewrite <- map_fmap_compose. by rewrite <- (map_fmap_id r) at 2. Qed.
Lemma complete_row_complete d h t :
  (r ← complete_row digest d h t; Ok (deref h <$> (r : gmap string cell))) = complete d (contents h t).
Proof.
  unfold complete_row, complete. rewrite lookup_contents. destruct (live t !! "_history_ref") as [c|]; cbn; [|done].
  destruct (deref h c); try done. destruct (payload_of digest d d0); cbn; [|done]. f_equal. rewrite map_fmap_union. f_equal.
  rewrite <- map_fmap_compose. by rewrite <- (map_fmap_id a) at 2.
Qed.

Definition row_in (f : file) (tid : string) : values := match f with Object d => match d !! tid with Some (Row r) => r | _ => ∅ end | _ => ∅ end.
Definition readable (f : file) (tid : string) : Prop := match f with Missing => True | Object d => forall v, d !! tid <> Some (Junk v) | _ => False end.

(** Handing out the values of a row changes none. *)
Lemma items_complete d h t h' t' : items h t = (h', t') -> heap_ok h -> (forall k c, live t !! k = Some c -> held h c) ->
  (r ← complete_row digest d h' t'; Ok (deref h' <$> (r : gmap string cell))) = complete d (contents h t).
Proof.
  intros Hi Hh Ht. assert (H : tracked (dom (live t)) h t (contents h t)).
  { intros k. split; [intros c; apply Ht|right]. rewrite lookup_contents. destruct (live t !! k) eqn:Hk; [left; by eapply elem_of_dom_2|by right]. }
  destruct (row_items_spec _ _ _ _ _ _ Hi Hh H) as (_ & _ & <- & _). apply complete_row_complete.
Qed.
Lemma fresh_complete d r :
  (x ← complete_row digest d (items ∅ (task_state r)).1 (items ∅ (task_state r)).2; Ok (deref (items ∅ (task_state r)).1 <$> (x : gmap string cell))) = complete d r.
Proof.
  rewrite (items_complete d ∅ (task_state r)), contents_task_state; [done|by destruct (items _ _)|by intros l v; rewrite lookup_empty|].
  intros k c. cbn. rewrite lookup_fmap. destruct (r !! k); [|done]. by intros [= <-].
Qed.

Lemma record_of_row d tid : readable (state_file d) tid -> record_of d tid = complete d (row_in (state_file d) tid).
Proof.
  unfold record_of, readable, row_in. destruct (state_file d) as [| | |dd]; [|done|done|]; cbn.
  - intros _. unfold historical, get_task. cbn. rewrite lookup_empty. cbn. rewrite <- fresh_complete. by destruct (complete_row _ _ _ _).
  - intros Hj. unfold historical, get_task. cbn. rewrite lookup_fmap. destruct (dd !! tid) as [[r|v]|] eqn:Hd; cbn.
    + rewrite <- fresh_complete. by destruct (complete_row _ _ _ _).
    + by destruct (Hj v).
    + rewrite <- fresh_complete. by destruct (complete_row _ _ _ _).
Qed.

(** *** Payloads *)

Lemma history_of_lookup r k : history_of r !! k = if decide (k ∈ HISTORICAL_KEYS) then r !! k else None.
Proof.
  unfold history_of. destruct (decide (k ∈ HISTORICAL_KEYS)) as [HP|HP].
  - destruct (r !! k) as [v|] eqn:Hk; [by apply map_lookup_filter_Some_2|]. apply map_lookup_filter_None. by left.
  - apply map_lookup_filter_None. right. by intros v _.
Qed.
Lemma without_history_lookup r k : without_history r !! k = if decide (k ∈ HISTORICAL_KEYS) then None else r !! k.
Proof.
  unfold without_history. destruct (decide (k ∈ HISTORICAL_KEYS)) as [HP|HP].
  - apply map_lookup_filter_None. right. intros v _. tauto.
  - destruct (r !! k) as [v|] eqn:Hk; [by apply map_lookup_filter_Some_2|]. apply map_lookup_filter_None. by left.
Qed.
Lemma ref_not_historical : "_history_ref" ∉ HISTORICAL_KEYS.
Proof. by apply (bool_decide_eq_false ("_history_ref" ∈ HISTORICAL_KEYS)). Qed.

(** The text of a row, read back. *)
Lemma unpacked_lookup (r : values) p k : history_json r = PDict p -> (list_to_map p : values) !! k = canonical <$> r !! k.
Proof.
  unfold history_json. cbn [canonical]. intros [= <-].
  set (l := map (fun '(k, x) => (k, canonical x)) (map_to_list r)).
  assert (Hl : l = prod_map id canonical <$> map_to_list r) by (apply map_ext; by intros []).
  assert (Hp : list_to_map (sort_by (fun a b => str_leb a.1 b.1) l) = (list_to_map l : values)).
  { apply list_to_map_proper; [|apply sort_by_Permutation]. rewrite sort_by_Permutation, Hl, <- list_fmap_compose.
    erewrite list_fmap_ext; [apply NoDup_fst_map_to_list|]. by intros i [? ?] _. }
  rewrite Hp, Hl, list_to_map_fmap, list_to_map_to_list. apply lookup_fmap.
Qed.

Definition sha_of (ref : dict pyval) : string := py_str (por (pget "sha256" ref) (PStr "")).
Lemma reference_sha sha keys ref : reference sha keys = PDict ref -> sha_of ref = sha.
Proof. unfold reference. intros [= <-]. by destruct sha. Qed.

(** An archived row, completed from a file that holds the text of its history, is the row it was. *)
Lemma archived_complete d r sha keys b :
  blobs d !! sha = Some b -> packed b = Some (history_json (history_of r)) -> digest (history_json (history_of r)) = sha ->
  same_record (complete d (archived_row (reference sha keys) r)) (Ok r).
Proof.
  intros Hb Hp Hs. unfold complete, archived_row. rewrite lookup_insert_eq.
  destruct (reference sha keys) as [| | | | |ref|] eqn:Href; try discriminate Href. pose proof (reference_sha _ _ _ Href) as Hsha.
  unfold payload_of. fold (sha_of ref). rewrite Hsha, Hb. destruct b as [pk i]. cbn [packed] in Hp. subst pk. rewrite bool_decide_eq_true_2 by done.
  assert (Hj : exists p, history_json (history_of r) = PDict p) by (by eexists). destruct Hj as [p Hj]. rewrite Hj.
  cbn [mbind result_bind same_record]. intros k Hk.
  rewrite lookup_union, lookup_insert_ne, without_history_lookup, (unpacked_lookup _ _ _ Hj), history_of_lookup by done.
  destruct (decide (k ∈ HISTORICAL_KEYS)); destruct (r !! k) as [v|]; cbn; try done; [apply py_eq_canonical|apply py_eq_refl].
Qed.

(** *** Preparation *)

(** A prepared payload is in the archive, under its digest, as the plan says. *)
Definition stored (d : Dir) (p : Plan) : Prop :=
  exists r raw, r <> ∅ /\ raw = history_json r /\ p_sha p = digest raw /\ blobs d !! p_sha p = Some {| packed := Some raw; identity := blob_identity p |}.
Lemma stored_grows d d' p : blobs d ⊆ blobs d' -> stored d p -> stored d' p.
Proof. intros Hs (r & raw & H1 & H2 & H3 & H4). exists r, raw. repeat (split; [done|]). by eapply lookup_weaken. Qed.

Lemma write_blob_grows free stamp n raw d x : write_blob digest free stamp n raw d = Ok x -> blobs d ⊆ blobs x.2 /\ state_file x.2 = state_file d.
Proof.
  unfold write_blob. cbv zeta. destruct (blobs d !! digest raw) eqn:Hb; [by intros [= <-]|]. destruct (_ <? _); intros [= <-].
  split; [by apply insert_subseteq|done].
Qed.
Lemma verified_stored raw d i : verified digest raw d = Ok i -> blobs d !! digest raw = Some {| packed := Some raw; identity := i |}.
Proof. unfold verified. cbv zeta. destruct (blobs d !! digest raw) as [[[raw'|] i']|]; cbn; try done. case_bool_decide; [|done]. intros [= <-]. by subst. Qed.

Lemma prepare_loop_stored free stamp limit reserve ids ps s d ps' s' d' :
  prepare_loop digest free stamp limit reserve ids ps s d = Ok (ps', s', d') -> (forall x, x ∈ ps -> stored d x.2) ->
  (forall x, x ∈ ps' -> stored d' x.2) /\ blobs d ⊆ blobs d' /\ state_file d' = state_file d.
Proof.
  revert ps s d. induction ids as [|tid ids IH]; intros ps s d; cbn [prepare_loop]; [by intros [= <- <- <-]|].
  destruct (limit <=? _); [by intros [= <- <- <-]|]. intros (x & _ & H)%bind_Ok Hps. destruct (decide (x.1 = ∅)) as [He|He]; [by eapply IH|].
  apply bind_Ok in H as (y & Hy & (i & Hi & H)%bind_Ok). destruct (write_blob_grows _ _ _ _ _ _ Hy) as [Hg Hf].
  destruct (IH _ _ _ H) as (H1 & H2 & H3).
  - intros z [Hz|[= ->]%list_elem_of_singleton]%elem_of_app; [by eapply stored_grows, Hps|]. exists x.1, (history_json x.1). repeat (split; [done|]).
    by apply verified_stored.
  - split; [done|]. split; [by etrans|congruence].
Qed.

(** *** Commit *)

Lemma archived_history ref r : history_of (archived_row ref r) = ∅.
Proof.
  apply map_empty. intros k. rewrite history_of_lookup. destruct (decide _) as [Hk|]; [|done]. unfold archived_row.
  rewrite lookup_insert_ne by (intros <-; by apply ref_not_historical). rewrite without_history_lookup. by rewrite decide_True.
Qed.

Section commit.
Context (d : Dir) (disk : table) (finished : gset string) (prepared : list (string * Plan)).

(** Each row of the new table is the old one, or the old one archived under a prepared plan for its text. *)
Definition archives (t : table) : Prop :=
  forall tid, t !! tid = disk !! tid \/ exists plan r, (tid, plan) ∈ prepared /\ disk !! tid = Some (Row r) /\
    t !! tid = Some (Row (archived_row (reference (p_sha plan) (p_keys plan)) r)) /\ digest (history_json (history_of r)) = p_sha plan.
Definition permitted (tr : list (event wcmd)) (e : event wcmd) : Prop :=
  match e with Ev c _ => match c with WriteIndex _ => True | WriteState t => archives t end end.

Lemma commit_one_safe c x tr : x ∈ prepared -> archives (c_disk c) ->
  safe permitted (commit_one digest d finished c x) tr (fun r _ => match r with Ok c' => archives (c_disk c') | Err _ => True end).
Proof.
  intros Hx Hc. destruct x as [tid plan]. unfold commit_one. destruct (bool_decide (tid ∉ finished)); [exact Hc|].
  destruct (read_history tid (c_store c)) as [y|e]; [|exact I]. cbn [lift mbind prog_bind pbind]. cbv zeta. cbn [c_disk].
  destruct (negb _); [exact Hc|]. destruct (c_disk c !! tid) as [[r|v]|] eqn:Hd; [|exact Hc..].
  destruct (bool_decide (history_of r = ∅)) eqn:He; [exact Hc|]. cbn [orb]. apply bool_decide_eq_false in He.
  destruct (bool_decide (digest (history_json (history_of r)) = p_sha plan)) eqn:Hs; cbn [andb negb]; [|exact Hc]. apply bool_decide_eq_true in Hs.
  destruct (bool_decide _); cbn [negb]; [|exact Hc].
  destruct (blobs d !! p_sha plan) as [b|]; [|exact I]. destruct (negb _); [exact I|].
  intros []. split; [exact I|]. cbn. intros tid'. destruct (decide (tid' = tid)) as [->|Hne]; [|rewrite lookup_insert_ne by done; apply Hc].
  right. rewrite lookup_insert_eq. destruct (Hc tid) as [Hd'|(plan' & r' & _ & _ & Ha & _)].
  - exists plan, r. split; [done|]. split; [by rewrite <- Hd', Hd|]. done.
  - rewrite Hd in Ha. injection Ha as ->. by rewrite archived_history in He.
Qed.

Lemma commit_safe s : read_or_empty (state_file d) = Ok disk ->
  safe permitted (commit_completed digest prepared finished s d) [] (fun _ _ => True).
Proof.
  intros Hd. unfold commit_completed. destruct prepared as [|x ps] eqn:Hp; [exact I|]. rewrite <- Hp.
  destruct (history_index d) as [tasks|e]; [|exact I]. cbn [lift mbind prog_bind pbind]. rewrite Hd. cbn [lift mbind prog_bind pbind].
  apply safe_bind. eapply safe_mono; [|apply (safe_fold permitted (fun c _ => archives (c_disk c)) (fun _ _ => True))].
  - intros [c|e] tr Hc; cbn [then_]; [|exact I]. destruct (committed c); [exact I|]. intros []. split; [exact Hc|]. cbn [app].
    destruct (foldR settle_one _ _); exact I.
  - intros tid. by left.
  - intros c y tr Hy Hc. apply commit_one_safe; [by rewrite Hp in *|done].
Qed.
End commit.

(** The directory after an allowed sequence of writes. *)
Lemma replay_inv d disk prepared tr : allowed (permitted disk prepared) tr ->
  blobs (replay d tr) = blobs d /\ (state_file (replay d tr) = state_file d \/ exists t, state_file (replay d tr) = Object t /\ archives disk prepared t).
Proof.
  induction 1 as [|tr e Htr IH Hok]; [auto|]. unfold replay in *. rewrite foldl_app. cbn [foldl].
  destruct e as [R c x]. destruct c as [t|t]; cbn; [exact IH|]. destruct IH as [Hb _]. split; [done|right]. by exists t.
Qed.

(** *** Nothing is lost *)

(** A record depends on the entry of its task and on the archive. *)
Lemma get_task_alone tid s s' : objects s = objects s' -> data s !! tid = data s' !! tid ->
  match get_task tid s, get_task tid s' with
  | Ok (t, x), Ok (t', x') => t = t' /\ objects x = objects x'
  | Err e, Err e' => e = e'
  | _, _ => False
  end.
Proof.
  intros Ho Hd. unfold get_task. rewrite Hd. destruct (data s' !! tid) as [[t|v]|]; [done| |done].
  destruct v; try done; destruct (dict_of_value _); cbn; done.
Qed.
Lemma record_of_entry d d' disk t tid : read_or_empty (state_file d) = Ok disk -> state_file d' = Object t -> t !! tid = disk !! tid -> blobs d' = blobs d ->
  record_of d' tid = record_of d tid.
Proof.
  intros Hr Hf Ht Hb. unfold record_of. rewrite Hf. cbn [open_state read_state mbind result_bind].
  assert (Hopen : open_state (state_file d) = Ok {| data := load_entry <$> disk; objects := ∅ |}).
  { destruct (state_file d); cbn in *; try done; injection Hr as <-; by rewrite ?fmap_empty. }
  rewrite Hopen. cbn [mbind result_bind]. unfold historical.
  set (s := {| data := load_entry <$> t; objects := ∅ |}). set (s' := {| data := load_entry <$> disk; objects := ∅ |}).
  pose proof (get_task_alone tid s s' eq_refl) as H. cbn in H. rewrite !lookup_fmap, Ht in H. specialize (H eq_refl).
  destruct (get_task tid s) as [[t1 x1]|e1], (get_task tid s') as [[t2 x2]|e2]; try done; [|by subst].
  destruct H as [-> Ho]. cbn. rewrite Ho. set (y := items (objects x2) t2).
  assert (Hc : complete_row digest d' y.1 y.2 = complete_row digest d y.1 y.2) by (unfold complete_row, payload_of; by rewrite Hb).
  rewrite Hc. by destruct (complete_row digest d y.1 y.2).
Qed.

Lemma exec_silent {A} (p : prog wcmd serr A) tr o : safe (fun _ _ => False) p [] (fun _ _ => True) -> exec p tr o -> tr = [].
Proof. intros Hs He. destruct (safe_exec _ _ [] _ _ _ He Hs (allowed_nil _)) as [Ha _]. cbn in Ha. by inversion Ha. Qed.
End history.

(** C18.  Archiving keeps the record of a task at every moment.  Let the historical values of finished tasks be
    prepared, then let any other program change the state file, the index and the archive, except that
    files of the archive stay; and let a commit of the plans, by a process with any memory, run for
    a while, to its end or to a crash.  Then the complete record of a task, as a new process reads it from
    what the commit has written so far, is the one before the commit (up to the reference, and to the
    equality of JSON values); or the task carried the reference of an earlier archive and is archived
    again, and its record is then exactly the live row of the state file, nothing of which is lost,
    but without the values that only the earlier reference led to (Lemma [rearchived_history_lost]:
    the code loses those).  This supposes that no two texts share the digest of one that was prepared
    for the task. *)
Theorem archive_lossless digest free stamp ids limit reserve s0 d0 prepared s1 d1 d s finished tr o tid :
  prepare_completed digest free stamp ids limit reserve s0 d0 = Ok (prepared, s1, d1) -> blobs d1 ⊆ blobs d ->
  exec (commit_completed digest prepared finished s d) tr o ->
  (forall plan v w, (tid, plan) ∈ prepared -> digest v = p_sha plan -> digest w = p_sha plan -> v = w) ->
  same_record (record_of digest (replay d tr) tid) (record_of digest d tid)
  \/ tid ∈ prepared.*1 /\ file_cell (state_file d) tid "_history_ref" <> None
     /\ exists r, record_of digest (replay d tr) tid = Ok r /\ forall k, k <> "_history_ref" -> same (r !! k) (file_cell (state_file d) tid k).
Proof.
  intros Hprep Hgrow He Hinj. destruct (read_or_empty (state_file d)) as [disk|e] eqn:Hr.
  - destruct (safe_exec _ _ [] _ _ _ He (commit_safe digest d disk finished prepared s Hr) (allowed_nil _)) as [Ha _].
    destruct (replay_inv digest d disk prepared tr Ha) as [Hb [Hf|(t & Hf & Harch)]].
    + left. replace (record_of digest (replay d tr) tid) with (record_of digest d tid); [reflexivity|].
      destruct (replay d tr) as [f i b], d as [f' i' b']. cbn in *. by subst.
    + destruct (Harch tid) as [Hsame|(plan & r & Hin & Hrow & Harow & Hdig)]; [left; by rewrite (record_of_entry digest d _ disk t)|].
      assert (Hfd : state_file d = Object disk) by (destruct (state_file d); cbn in Hr; simplify_eq; try done; by rewrite lookup_empty in Hrow).
      unfold prepare_completed in Hprep. apply prepare_loop_stored in Hprep as (Hst & _); [|by intros ? ?%elem_of_nil].
      destruct (Hst _ Hin) as (r0 & raw & _ & _ & Hsha & Hblob). cbn in Hsha, Hblob.
      assert (Hraw : raw = history_json (history_of r)) by (apply (Hinj plan); [done|by rewrite <- Hsha|done]).
      assert (Hafter : same_record (record_of digest (replay d tr) tid) (Ok r)).
      { rewrite record_of_row by (rewrite Hf; cbn; congruence). rewrite Hf. cbn. rewrite Harow.
        eapply archived_complete; [rewrite Hb; by eapply lookup_weaken|cbn; by rewrite Hraw|done]. }
      assert (Hcell : forall k, file_cell (state_file d) tid k = r !! k) by (intros k; rewrite Hfd; cbn; unfold table_cell; by rewrite Hrow).
      destruct (file_cell (state_file d) tid "_history_ref") eqn:Href.
      * right. split; [apply list_elem_of_fmap; by exists (tid, plan)|]. split; [done|].
        destruct (record_of digest (replay d tr) tid) as [r'|e]; [|done]. exists r'. split; [done|]. intros k Hk. rewrite Hcell. by apply Hafter.
      * left. replace (record_of digest d tid) with (Ok r : result serr values); [exact Hafter|].
        rewrite record_of_row by (rewrite Hfd; cbn; congruence). rewrite Hfd. cbn. rewrite Hrow. unfold complete. by rewrite <- Hcell, Href.
  - left. replace tr with (@nil (event wcmd)); [reflexivity|]. symmetry. eapply exec_silent, He. unfold commit_completed. destruct prepared; [exact I|].
    destruct (history_index d); [|exact I]. cbn [lift mbind prog_bind pbind]. by rewrite Hr.
Qed.

(** ** Rehydration *)

Lemma update_live kvs t k : NoDup kvs.*1 -> live (update kvs t) !! k = match (list_to_map kvs : gmap string cell) !! k with Some c => Some c | None => live t !! k end.
Proof.
  unfold update. revert t. induction kvs as [|[k' c] kvs IH]; intros t; cbn [foldl]; [by rewrite list_to_map_nil, lookup_empty|].
  intros [Hni Hnd]%NoDup_cons. rewrite IH by done. rewrite list_to_map_cons. cbn [fst snd]. destruct (decide (k = k')) as [->|Hne].
  - rewrite not_elem_of_list_to_map_1 by done. rewrite lookup_insert_eq. cbn. by rewrite lookup_insert_eq.
  - rewrite lookup_insert_ne by done. destruct (list_to_map kvs !! k); [done|]. cbn. by rewrite lookup_insert_ne.
Qed.

Definition historical_cells (r : gmap string cell) : list (string * cell) := List.filter (fun kv => mem kv.1 HISTORICAL_KEYS) (map_to_list r).
Lemma historical_cells_spec r : NoDup (historical_cells r).*1 /\
  forall k, (list_to_map (historical_cells r) : gmap string cell) !! k = if decide (k ∈ HISTORICAL_KEYS) then r !! k else None.
Proof.
  assert (Hnd : NoDup (historical_cells r).*1).
  { unfold historical_cells. pose proof (NoDup_fst_map_to_list r) as H. induction (map_to_list r) as [|[k c] l IH]; cbn; [constructor|].
    cbn in H. apply NoDup_cons in H as [Hni H]. destruct (mem k HISTORICAL_KEYS); [|by apply IH]. cbn. constructor; [|by apply IH].
    intros ([k' c'] & -> & [Hin _]%list_elem_of_In%filter_In)%list_elem_of_fmap. apply Hni. apply list_elem_of_fmap. exists (k', c'). split; [done|by apply list_elem_of_In]. }
  split; [done|]. intros k. apply option_eq. intros c.
  rewrite <- elem_of_list_to_map by done. unfold historical_cells. rewrite list_elem_of_In, filter_In, <- list_elem_of_In, elem_of_map_to_list, mem_spec. cbn.
  destruct (decide (k ∈ HISTORICAL_KEYS)); naive_solver.
Qed.

(** [get] gives the row that the store will hold, and changes no row. *)
Lemma get_task_spec tid s t s' : get_task tid s = Ok (t, s') -> data s' !! tid = Some (Task t) /\ objects s' = objects s /\
  (forall tid', tid' <> tid -> data s' !! tid' = data s !! tid') /\ row_of s tid = contents (objects s) t /\ get_task tid s' = Ok (t, s').
Proof.
  unfold get_task, row_of. intros Hg.
  assert (Hput : forall r, t = task_state r -> s' = put_task tid (task_state r) s -> (match data s !! tid with Some (Raw v) => match dict_of_value v with Ok r => r | Err _ => ∅ end | _ => ∅ end) = r ->
    data s' !! tid = Some (Task t) /\ objects s' = objects s /\ (forall tid', tid' <> tid -> data s' !! tid' = data s !! tid')
    /\ (match data s !! tid with Some (Raw v) => match dict_of_value v with Ok r => r | Err _ => ∅ end | _ => ∅ end) = contents (objects s) t
    /\ match data s' !! tid with Some (Task t) => Ok (t, s') | _ => Err AttributeError end = Ok (t, s')).
  { intros r -> -> Hr. cbn [data objects put_task]. rewrite lookup_insert_eq. split; [done|]. split; [done|].
    split; [intros ? ?; by rewrite lookup_insert_ne|]. by rewrite contents_task_state. }
  destruct (data s !! tid) as [[t0|v]|] eqn:Hd.
  - injection Hg as -> ->. by rewrite Hd.
  - destruct v; try (cbn in Hg; injection Hg as Ht Hs; destruct (Hput ∅) as (H1 & H2 & H3 & H4 & _); [done..|]; rewrite H1; done);
      apply bind_Ok in Hg as (r & Hr & [= Ht Hs]); (destruct (Hput r) as (H1 & H2 & H3 & H4 & _); [done|done|by rewrite Hr|]; rewrite H1; done).
  - injection Hg as Ht Hs. destruct (Hput ∅) as (H1 & H2 & H3 & H4 & _); [done..|]. by rewrite H1.
Qed.

(** A row with its history back and without the reference. *)
Definition rehydrated (full row : values) : values := delete "_history_ref" (history_of full ∪ row).

Lemma contents_rehydrated h h' t c r c' :
  live t !! "_history_ref" = Some c -> lend h c = (h', c') -> heap_ok h -> (forall k c, live t !! k = Some c -> held h c) ->
  (forall k c, r !! k = Some c -> held h c) ->
  contents h' (update (historical_cells r) (drop_snap "_history_ref" (mark "_history_ref" (drop_live "_history_ref" t))))
  = rehydrated (deref h <$> r) (contents h t).
Proof.
  intros Hc Hl Hh Ht Hr. destruct (lend_spec _ _ _ _ Hl Hh (Ht _ _ Hc)) as (_ & _ & _ & Hd & _).
  destruct (historical_cells_spec r) as [Hnd Hcells]. apply map_eq. intros k.
  rewrite lookup_contents, (update_live _ _ _ Hnd), Hcells. unfold rehydrated. cbn [live drop_snap mark drop_live].
  destruct (decide (k = "_history_ref")) as [->|Hne].
  - rewrite lookup_delete_eq. rewrite decide_False by apply ref_not_historical. by rewrite lookup_delete_eq.
  - rewrite !lookup_delete_ne, lookup_union, history_of_lookup, lookup_fmap, lookup_contents by done.
    assert (Hlive : deref h' <$> live t !! k = deref h <$> live t !! k).
    { destruct (live t !! k) as [c2|] eqn:Hk; cbn; [|done]. f_equal. apply Hd. by eapply Ht. }
    destruct (decide (k ∈ HISTORICAL_KEYS)); [|rewrite Hlive; by destruct (deref h <$> live t !! k)].
    destruct (r !! k) as [c2|] eqn:Hk; cbn; [|rewrite Hlive; by destruct (deref h <$> live t !! k)].
    rewrite (Hd c2) by (by eapply Hr). by destruct (deref h <$> live t !! k).
Qed.

Lemma process_held p tid t : process_ok p -> data (store p) !! tid = Some (Task t) -> forall k c, live t !! k = Some c -> held (objects (store p)) c.
Proof. intros [_ Hp] Hd k c. specialize (Hp tid). rewrite Hd in Hp. destruct Hp as [Ht _]. apply Ht. Qed.

Definition restored_as (digest : pyval -> string) (d : Dir) (p p' : Process) (tid : string) : Prop :=
  let row := row_of (store p) tid in
  match row !! "_history_ref" with
  | None => row_of (store p') tid = row
  | Some _ => exists full, complete digest d row = Ok full /\ row_of (store p') tid = rehydrated full row /\
                ({["_history_ref"]} ∪ dom (history_of full)) ⊆ assigned p' tid
  end.

(** Handing out the values of a row changes no row. *)
Lemma items_rows p tid t h t' : process_ok p -> data (store p) !! tid = Some (Task t) -> items (objects (store p)) t = (h, t') ->
  row_step (objects (store p)) t ∅ h t' /\ process_ok (assign p tid ∅ (put_row (store p) tid h t')) /\ dom (live t') = dom (live t) /\
  forall tid', row_of (put_row (store p) tid h t') tid' = row_of (store p) tid'.
Proof.
  intros Hp Hd Hi. assert (Hs : row_step (objects (store p)) t ∅ h t') by (by apply step_items).
  split; [done|]. split; [by eapply put_row_ok|]. pose proof (proj2 Hp tid) as Ht. rewrite Hd in Ht.
  destruct (row_items_spec _ _ _ _ _ _ Hi (proj1 Hp) (proj1 Ht)) as ([Hm Hg] & _ & Hc & Hdom & _). split; [done|]. intros tid'. unfold row_of. cbn.
  destruct (decide (tid' = tid)) as [->|Hne]; [rewrite lookup_insert_eq, Hd; exact Hc|]. rewrite lookup_insert_ne by done.
  destruct (data (store p) !! tid') as [[t2|v]|] eqn:Hd2; [|done..]. unfold contents. apply map_fmap_ext. intros k c Hk. apply Hg. by apply (process_held p tid' t2 Hp Hd2 k).
Qed.

Lemma restore_one_spec digest d p f n tid x : process_ok p -> restore_one digest d (n, store p) tid = Ok x ->
  exists p', rtc step (p, f) (p', f) /\ store p' = x.2 /\ restored_as digest d p p' tid /\
    (forall tid', tid' <> tid -> row_of (store p') tid' = row_of (store p) tid') /\ (forall tid', assigned p tid' ⊆ assigned p' tid').
Proof.
  intros Hp H. unfold restore_one in H. cbn [fst snd] in H. apply bind_Ok in H as ([t s1] & Hg & H). cbn [fst snd] in H.
  destruct (get_task_spec _ _ _ _ Hg) as (Hd & Ho & Hne & Hrow & Hagain).
  pose proof (step_task p f tid t s1 Hg) as Hstep. pose proof (get_task_ok _ _ _ _ Hp Hg) as Hp1.
  assert (Hothers : forall tid', tid' <> tid -> row_of s1 tid' = row_of (store p) tid') by (intros tid' H'; unfold row_of; by rewrite Ho, (Hne _ H')).
  assert (Href : row_of (store p) tid !! "_history_ref" = deref (objects s1) <$> live t !! "_history_ref") by (by rewrite Hrow, lookup_contents, Ho).
  unfold restored_as. rewrite Href. destruct (live t !! "_history_ref") as [c|] eqn:Hc.
  2: { injection H as <-. exists (assign p tid ∅ s1). split; [by apply rtc_once|]. cbn. split; [done|]. split; [|split; [done|intros tid'; case_decide; set_solver]].
       unfold row_of at 1. by rewrite Hd, Ho. }
  apply bind_Ok in H as (z & Hz & H). unfold historical in Hz. rewrite Hagain in Hz. cbn [mbind result_bind fst snd] in Hz.
  set (p0 := assign p tid ∅ s1). destruct (items (objects s1) t) as [h1 t1] eqn:Hi. cbn [fst snd] in Hz.
  destruct (items_rows p0 tid t h1 t1 Hp1 Hd Hi) as (Hpeek & Hp2 & Hdom & Hrows). set (s2 := put_row s1 tid h1 t1).
  change (put_row (store p0) tid h1 t1) with s2 in *. change (put_heap h1 (put_task tid t1 s1)) with s2 in Hz.
  apply bind_Ok in Hz as (r & Hr & [= <-]). cbn [fst snd] in H.
  assert (Hget : get_task tid s2 = Ok (t1, s2)) by (unfold get_task, s2; cbn; by rewrite lookup_insert_eq).
  rewrite Hget in H. cbn [mbind result_bind fst snd] in H.
  assert (Hd2 : data s2 !! tid = Some (Task t1)) by (cbn; by rewrite lookup_insert_eq).
  destruct (live t1 !! "_history_ref") as [c1|] eqn:Hc1; [|apply not_elem_of_dom in Hc1; rewrite Hdom in Hc1; apply elem_of_dom_2 in Hc; done].
  unfold pop in H. rewrite Hc1 in H. destruct (lend (objects s2) c1) as [h' c'] eqn:Hl. cbn [mbind result_bind] in H. injection H as <-. cbn [fst snd].
  fold (historical_cells r). set (t2 := drop_snap "_history_ref" (mark "_history_ref" (drop_live "_history_ref" t1))).
  set (p1 := assign p0 tid ∅ s2). set (p2 := assign p1 tid {["_history_ref"]} (put_row s2 tid h' t2)).
  assert (Hpop : row_step (objects s2) t1 {["_history_ref"]} h' t2) by (apply (step_pop _ _ _ (Some (Val PNone)) c'); unfold pop; by rewrite Hc1, Hl).
  assert (Hheld : forall k c, live t1 !! k = Some c -> held (objects s2) c) by (apply (process_held p1 tid); done).
  assert (Hcell : forall k c, r !! k = Some c -> held (objects s2) c).
  { unfold complete_row in Hr. rewrite Hc1 in Hr. change h1 with (objects s2) in Hr. destruct (deref (objects s2) c1); try (injection Hr as <-; exact Hheld).
    apply bind_Ok in Hr as (pl & _ & [= <-]). intros k c2 [Hk|[_ Hk]]%lookup_union_Some_raw; [by eapply Hheld|].
    rewrite lookup_fmap in Hk. destruct (pl !! k); [|done]. by injection Hk as <-. }
  destruct (lend_spec _ _ _ _ Hl (proj1 Hp2) (Hheld _ _ Hc1)) as (Hm & _).
  assert (Hupd : row_step h' t2 (list_to_set (historical_cells r).*1) h' (update (historical_cells r) t2)).
  { constructor. apply Forall_forall. intros [k c2] Hin. apply (held_mutated (objects s2)); [done|].
    apply list_elem_of_In, filter_In in Hin as [Hin%list_elem_of_In _]. apply elem_of_map_to_list in Hin. by eapply Hcell. }
  assert (Hrow2 : row_of (store p) tid = contents (objects s2) t1) by (rewrite Hrow, <- Ho; transitivity (row_of s1 tid); [unfold row_of; by rewrite Hd|]; rewrite <- Hrows; unfold row_of; by rewrite Hd2).
  exists (assign p2 tid (list_to_set (historical_cells r).*1) (put_row (put_row s2 tid h' t2) tid h' (update (historical_cells r) t2))).
  split; [|split; [|split; [|split]]].
  - eapply rtc_l; [exact Hstep|]. eapply rtc_l; [by apply (step_row p0 f tid t)|]. eapply rtc_l; [by apply (step_row p1 f tid t1)|]. apply rtc_once.
    apply (step_row p2 f tid t2); [cbn; by rewrite lookup_insert_eq|exact Hupd].
  - cbn. unfold put_row, put_heap, put_task. cbn. by rewrite !insert_insert_eq.
  - cbn [fmap option_fmap option_map]. exists (deref (objects s2) <$> r). rewrite Hrow2. split; [|split].
    + rewrite <- complete_row_complete. change (objects s2) with h1. by rewrite Hr.
    + unfold row_of. cbn. rewrite lookup_insert_eq. by eapply contents_rehydrated; [| |apply Hp2| |].
    + cbn. rewrite !decide_True by done. intros k Hk. destruct (historical_cells_spec r) as [Hnd Hcells].
      apply elem_of_union in Hk as [->%elem_of_singleton|[v Hv]%elem_of_dom]; [set_solver|].
      rewrite history_of_lookup, lookup_fmap in Hv. destruct (decide (k ∈ HISTORICAL_KEYS)) as [Hin|]; [|done].
      apply elem_of_union_l, elem_of_list_to_set, list_elem_of_fmap. destruct (r !! k) as [c2|] eqn:Hk; [|done]. exists (k, c2). split; [done|].
      apply elem_of_list_to_map; [done|]. by rewrite Hcells, decide_True.
  - intros tid' Hn. rewrite <- Hothers by done. transitivity (row_of s2 tid'); [|apply Hrows]. unfold row_of. cbn. rewrite !lookup_insert_ne by done.
    destruct (data s1 !! tid') as [[t3|v]|] eqn:Hd3; [|done..]. unfold contents. apply map_fmap_ext. intros k c2 Hk.
    destruct (lend_spec _ _ _ _ Hl (proj1 Hp2) (Hheld _ _ Hc1)) as (_ & _ & _ & Hderef & _). apply Hderef. apply (process_held p1 tid' t3 Hp2) with (k := k); [|done].
    cbn. by rewrite lookup_insert_ne.
  - intros tid'. cbn. case_decide; set_solver.
Qed.

Lemma restored_as_same digest d p p1 p2 tid : row_of (store p1) tid = row_of (store p) tid -> assigned p tid ⊆ assigned p1 tid ->
  restored_as digest d p1 p2 tid -> restored_as digest d p p2 tid.
Proof. unfold restored_as. by intros ->. Qed.
Lemma restored_as_kept digest d p p1 p2 tid : row_of (store p2) tid = row_of (store p1) tid -> assigned p1 tid ⊆ assigned p2 tid ->
  restored_as digest d p p1 tid -> restored_as digest d p p2 tid.
Proof.
  unfold restored_as. intros Hr Ha H. destruct (row_of (store p) tid !! "_history_ref"); [|congruence].
  destruct H as (full & H1 & H2 & H3). exists full. rewrite Hr. split; [done|]. split; [done|set_solver].
Qed.

Lemma restore_all_spec digest d f ids n p x : NoDup ids -> process_ok p -> foldR (restore_one digest d) ids (n, store p) = Ok x ->
  exists p', rtc step (p, f) (p', f) /\ store p' = x.2 /\ (forall tid, tid ∈ ids -> restored_as digest d p p' tid) /\
    (forall tid, tid ∉ ids -> row_of (store p') tid = row_of (store p) tid) /\ (forall tid, assigned p tid ⊆ assigned p' tid).
Proof.
  revert n p. induction ids as [|tid ids IH]; intros n p Hnd Hp; cbn [foldR].
  - intros [= <-]. exists p. split; [done|]. split; [done|]. split; [by intros ? ?%elem_of_nil|done].
  - apply NoDup_cons in Hnd as [Hni Hnd]. intros ([n1 s1] & H1 & H)%bind_Ok.
    destruct (restore_one_spec digest d p f n tid _ Hp H1) as (p1 & Hs1 & Hst & Hr1 & Ho1 & Ha1). cbn in Hst. subst s1.
    assert (Hp1 : process_ok p1) by (by apply (process_steps_ok _ _ Hs1)).
    destruct (IH n1 p1 Hnd Hp1 H) as (p' & Hs & Hst' & Hr & Ho & Ha). exists p'. split; [by etrans|]. split; [done|]. split; [|split].
    + intros tid' [->|Hin]%elem_of_cons; [by apply (restored_as_kept digest d p p1); [apply Ho| |]|].
      apply (restored_as_same digest d p p1); [|done|by apply Hr]. apply Ho1. by intros ->.
    + intros tid' [Hne Hni']%not_elem_of_cons. rewrite Ho by done. by apply Ho1.
    + intros tid'. set_solver.
Qed.

Lemma assigned_saved p s' f f' tid k : process_ok p -> k ∈ assigned p tid -> save (store p) f = Ok (s', f') -> file_cell f' tid k = row_of (store p) tid !! k.
Proof.
  intros [_ Hp] Hk Hs. rewrite (save_cells _ _ _ _ Hs). rewrite decide_True; [done|]. specialize (Hp tid). unfold dirty_of.
  destruct (data (store p) !! tid) as [[t|v]|]; [|set_solver..]. destruct Hp as [_ Hw]. apply elem_of_dirty. left. by rewrite Hw.
Qed.

(** A task that becomes operational again has its history back.  When a process restores some tasks, each
    of their rows that refers to the archive becomes the complete record (its own values before those of the
    archive) without the reference, and every other row is left alone; and the next save
    writes all of it: the file has no reference to the archive any more, and every historical value of the record. *)
Theorem restored_history digest d ids f0 s0 p f n s' s'' f' :
  open_state f0 = Ok s0 -> rtc step (opened s0, f0) (p, f) -> restore_operational digest d ids (store p) = Ok (n, s') -> save s' f = Ok (s'', f') ->
  (forall tid, tid ∉ ids -> row_of s' tid = row_of (store p) tid) /\
  forall tid, tid ∈ ids -> match row_of (store p) tid !! "_history_ref" with
    | None => row_of s' tid = row_of (store p) tid
    | Some _ => exists full, complete digest d (row_of (store p) tid) = Ok full /\ row_of s' tid = rehydrated full (row_of (store p) tid) /\
        file_cell f' tid "_history_ref" = None /\ forall k v, history_of full !! k = Some v -> file_cell f' tid k = Some v
    end.
Proof.
  intros Ho Hsteps H Hsave. assert (Hp : process_ok p) by (eapply (process_steps_ok _ (p, f)); [done|by eapply opened_ok]).
  destruct (restore_all_spec digest d f _ _ _ _ (NoDup_elements ids) Hp H) as (p' & Hs & Hst & Hr & Hother & _). cbn in Hst. subst s'.
  assert (Hp' : process_ok p') by (by apply (process_steps_ok _ _ Hs)).
  split; [intros tid Hni; apply Hother; set_solver|]. intros tid Hin. specialize (Hr tid). unfold restored_as in Hr.
  destruct (row_of (store p) tid !! "_history_ref"); [|apply Hr; set_solver]. destruct Hr as (full & H1 & H2 & H3); [set_solver|].
  exists full. split; [done|]. split; [done|]. split.
  - rewrite (assigned_saved p' s'' f f') by (done || set_solver). rewrite H2. apply lookup_delete_eq.
  - intros k v Hk. rewrite (assigned_saved p' s'' f f'); [|done| |done].
    + rewrite H2. unfold rehydrated. rewrite lookup_delete_ne, lookup_union, Hk; [by destruct (row_of (store p) tid !! k)|].
      intros <-. rewrite history_of_lookup, decide_False in Hk by apply ref_not_historical. done.
    + apply H3, elem_of_union_r, elem_of_dom. by eexists.
Qed.

(** ** An archive to look at *)

Module Archive.
Import Desk.
Definition finished : gset string := {["CG-1"]}.
Definition text : pyval := history_json (history_of row).
Definition digest (v : pyval) : string := if decide (v = text) then "aa" else "bb".
Definition empty : Dir := {| state_file := start; index := NoIndex; blobs := ∅ |}.
Definition prepared : list (string * Plan) * State * Dir :=
  get ([], nothing, empty) (prepare_completed digest (fun _ => 10000000) (fun _ => (20, 1)) finished 10 0 s0 empty).
Definition plan : Plan := {| p_sha := "aa"; p_keys := ["review_heads"]; logical_bytes := json_length text; stored_bytes := 20; blob_identity := (20, 1) |}.
Definition handler (R : Type) (c : wcmd R) (d : Dir) : R * Dir :=
  match c in wcmd R return R * Dir with
  | WriteIndex t => (tt, apply_write d (Ev (WriteIndex t) tt))
  | WriteState t => (tt, apply_write d (Ev (WriteState t) tt))
  end.
Definition commit (ps : list (string * Plan)) (s : State) (d : Dir) : Dir := (run handler (commit_completed digest ps finished s d) d).2.
Definition archived : Dir := commit prepared.1.1 prepared.1.2 prepared.2.
Definition reopened : State := get nothing (open_state (state_file archived)).
Definition restored : Z * State := get (0, nothing) (restore_operational digest archived finished reopened).
Definition resaved : State * file := get (nothing, Missing) (save restored.2 (state_file archived)).
End Archive.

Lemma archive_lossless_witness :
  let after := record_of Archive.digest (replay Archive.prepared.2 (trace Archive.handler (commit_completed Archive.digest Archive.prepared.1.1 Archive.finished Archive.prepared.1.2 Archive.prepared.2) Archive.prepared.2)) "CG-1" in
  file_cell (state_file Archive.prepared.2) "CG-1" "_history_ref" = None /\
  (same_record after (record_of Archive.digest Archive.prepared.2 "CG-1")
   \/ "CG-1" ∈ Archive.prepared.1.1.*1 /\ file_cell (state_file Archive.prepared.2) "CG-1" "_history_ref" <> None
      /\ exists r, after = Ok r /\ forall k, k <> "_history_ref" -> same (r !! k) (file_cell (state_file Archive.prepared.2) "CG-1" k)).
Proof.
  intros after. split; [vm_compute; reflexivity|].
  assert (Hp : prepare_completed Archive.digest (fun _ => 10000000) (fun _ => (20, 1)) Archive.finished 10 0 Desk.s0 Archive.empty
               = Ok (Archive.prepared.1.1, Archive.prepared.1.2, Archive.prepared.2)) by (vm_compute; reflexivity).
  assert (Hplan : Archive.prepared.1.1 = [("CG-1", Archive.plan)]) by (vm_compute; reflexivity).
  refine (archive_lossless Archive.digest _ _ Archive.finished 10 0 Desk.s0 Archive.empty Archive.prepared.1.1 Archive.prepared.1.2 Archive.prepared.2 Archive.prepared.2 Archive.prepared.1.2
    Archive.finished _ _ "CG-1" Hp (reflexivity _) (run_exec Archive.handler _ _) _).
  intros plan v w Hin Hv Hw. rewrite Hplan in Hin. apply list_elem_of_singleton in Hin. injection Hin as ->.
  unfold Archive.digest in Hv, Hw. destruct (decide (v = Archive.text)); [|discriminate Hv]. destruct (decide (w = Archive.text)); [|discriminate Hw]. congruence.
Defined.

Lemma restored_history_witness :
  file_cell Archive.resaved.2 "CG-1" "_history_ref" = None /\ file_cell Archive.resaved.2 "CG-1" "review_heads" = Some Desk.heads.
Proof.
  assert (H0 : open_state (state_file Archive.archived) = Ok Archive.reopened) by (vm_compute; reflexivity).
  assert (H1 : restore_operational Archive.digest Archive.archived Archive.finished (store (opened Archive.reopened)) = Ok (Archive.restored.1, Archive.restored.2)) by (vm_compute; reflexivity).
  assert (H2 : save Archive.restored.2 (state_file Archive.archived) = Ok (Archive.resaved.1, Archive.resaved.2)) by (vm_compute; reflexivity).
  assert (Hin : "CG-1" ∈ Archive.finished) by (apply (bool_decide_unpack _); vm_compute; exact I).
  pose proof (proj2 (restored_history Archive.digest Archive.archived Archive.finished _ _ _ _ _ _ _ _ H0 (rtc_refl _ _) H1 H2) "CG-1" Hin) as H.
  destruct (row_of (store (opened Archive.reopened)) "CG-1" !! "_history_ref") as [ref|] eqn:Hr; [|vm_compute in Hr; discriminate Hr].
  destruct H as (full & Hfull & _ & Hnone & Hhist). split; [exact Hnone|]. apply Hhist. vm_compute in Hfull. injection Hfull as <-. vm_compute. reflexivity.
Defined.

(** *** What the archive and the fence lose *)

(** A finished task that gains another historical value, and is archived again, loses the first ones: the
    new reference replaces the old one. *)
Definition gained : State := put_row Archive.reopened "CG-1" ∅
  (setitem "stashes" (Val (PList [PStr "s"])) (match data Archive.reopened !! "CG-1" with Some (Task t) => t | _ => task_state ∅ end)).
Definition gained_dir : Dir := {| state_file := (Desk.get (Desk.nothing, Missing) (save gained (state_file Archive.archived))).2; index := index Archive.archived; blobs := blobs Archive.archived |}.
Definition twice : list (string * Plan) * State * Dir :=
  Desk.get ([], Desk.nothing, Archive.empty) (prepare_completed Archive.digest (fun _ => 10000000) (fun _ => (20, 2)) Archive.finished 10 0 (Desk.get Desk.nothing (open_state (state_file gained_dir))) gained_dir).
Definition read_record (d : Dir) (k : string) : option pyval := match record_of Archive.digest d "CG-1" with Ok r => r !! k | Err _ => None end.
Lemma rearchived_history_lost :
  read_record gained_dir "review_heads" = Some Desk.heads /\ read_record gained_dir "stashes" = Some (PList [PStr "s"]) /\
  let d := Archive.commit twice.1.1 twice.1.2 twice.2 in
  read_record d "stashes" = Some (PList [PStr "s"]) /\ read_record d "review_heads" = None.
Proof. vm_compute. by split_and!. Qed.

(** The scheduler deletes a key of another task while a worker runs; restoring the other tasks after a
    violation brings the key back. *)
Lemma fence_restores_deleted_key :
  let deleted := put_row Desk.s0 "CG-1" ∅ (Desk.get Desk.t0 (delitem "pr_number" Desk.t0)) in
  let x := Desk.get (Desk.nothing, Missing) (save deleted Desk.start) in
  file_cell x.2 "CG-1" "pr_number" = None /\
  let y := Desk.get (Desk.nothing, Missing) (restore_other_task_keys {["CG-1" := Row Desk.row]} "CG-2" {["CG-1"; "CG-2"]} x.1 x.2) in
  file_cell y.2 "CG-1" "pr_number" = Some (PInt 7).
Proof. vm_compute. by split. Qed.
