(* ===== verification/RunRecords.v ===== *)
(** * Run records ([runs.py]): whole-record writes with a three-way merge

    A run is a JSON record that the standalone scheduler and the worker requests of the web application both
    load, change and replace.  [Run.save] runs under one lock of the garden, re-reads the record, and
    merges: it takes over what others changed since it loaded, refuses what both changed, and never lets a decision
    taken from an old worker generation replace a newer one.

    A record is the finite map of its fields; [loaded] is the copy taken when it was read or last written.
    Fields are changed by assignment and in place, at any time, so between two calls the fields of a run in
    memory are arbitrary. *)

From S2P Require Import Prelude PyValue StateStore.

#[local] Open Scope list_scope.
#[local] Open Scope Z_scope.

(** The fields and their defaults; the first three and [dir] have none. *)
Definition required_fields : list string := ["task_id"; "run_id"; "dir"; "runner"].
Definition optional_fields : list (string * pyval) :=
  [("execution_remote", PNone); ("mode", PStr "work"); ("harness", PStr ""); ("model", PStr ""); ("pool_member", PStr ""); ("difficulty", PStr "");
   ("host", PStr ""); ("execution_member_id", PStr ""); ("execution_installation_id", PStr ""); ("claimed_at", PStr ""); ("queued_at", PStr "");
   ("execution_started_at", PStr ""); ("lease_updated_at", PStr ""); ("final_received_at", PStr ""); ("claim_history", PList []);
   ("claim_request_id", PStr ""); ("claim_response", PDict []); ("lease_expires_at", PStr ""); ("recovery_expires_at", PStr "");
   ("lease_token", PStr ""); ("pushed_ref", PStr ""); ("pushed_head", PStr ""); ("session_id", PStr ""); ("status", PStr "running"); ("pid", PNone);
   ("started_at", PStr ""); ("finished_at", PStr ""); ("worktree", PStr ""); ("completion_mode", PStr "managed"); ("external_pr", PStr "");
   ("completion_attempts", PList []); ("branch", PStr ""); ("base", PStr ""); ("start_head", PStr ""); ("source_head", PStr ""); ("exit_code", PNone);
   ("diff_stat", PStr ""); ("patch_id_before", PStr ""); ("patch_id_after", PStr ""); ("result", PDict []); ("usage", PDict []); ("cost_usd", PNone);
   ("brief_tokens", PInt 0); ("error", PStr ""); ("idempotency_key", PStr ""); ("preparer_pid", PNone); ("fence_paths", PList []);
   ("fence_manifest_sha256", PStr ""); ("env_snapshot", PDict []); ("recovery_artifacts", PList []); ("plugin_identity", PDict []);
   ("context_resources", PList []); ("record_version", PInt 0)].
(** The names in the order of the class, which is the order of [asdict]. *)
Definition field_names : list string := required_fields ++ optional_fields.*1.

Record Run := { fields : values; loaded : option values }.
(** The exceptions of the module. *)
Inductive rerr : Type :=
| RunMutationConflict (msg : string)
| RecoveryLaunchConflict (current_run_id : string)
| NoRecord
| RunError (e : exn).
Inductive RunSaveOutcome : Type :=
| COMMITTED
| SUPERSEDED.

(** [run.name], [run.name = value], and the text of a field that holds text *)
Definition field (n : string) (r : values) : pyval := default PNone (r !! n).
Definition text (n : string) (r : values) : string := match field n r with PStr s => s | _ => "" end.
Definition set_field (n : string) (v : pyval) (r : Run) : Run := {| fields := <[n := v]> (fields r); loaded := loaded r |}.

(** [Run(...)]: the keyword arguments over the defaults; a missing or an unknown one is a [TypeError]. *)
Definition construct (data : values) : result rerr values :=
  if forallb (fun n => bool_decide (is_Some (data !! n))) required_fields && bool_decide (map_Forall (fun n _ => n ∈ field_names) data)
  then Ok (data ∪ list_to_map optional_fields) else Err (RunError TypeError).
(** [Run.load], from the object in [run.json] *)
Definition load (dir : string) (record : option values) : result rerr Run :=
  match record with
  | None => Err NoRecord
  | Some data => f ← construct (<["dir" := PStr dir]> data); Ok {| fields := f; loaded := Some f |}
  end.

Definition generation_fields : list string := ["lease_token"; "lease_updated_at"; "claim_history"; "final_received_at"].
(** [a.name != b.name] *)
Definition differs (a b : values) (n : string) : bool := negb (py_eq (field n a) (field n b)).

(** The field-by-field part of the merge. *)
Definition merge_field (baseline current : values) (mine : values) (n : string) : result rerr values :=
  if mem n ["dir"; "record_version"] then Ok mine
  else if negb (differs mine baseline n) then Ok (<[n := field n current]> mine)
  else if differs current baseline n && differs mine current n then Err (RunMutationConflict ("run field " ++ n ++ " changed concurrently"))
  else Ok mine.
(** [_merge_concurrent_record] *)
Definition merge_concurrent_record (self : Run) (current : values) : result rerr (values * RunSaveOutcome) :=
  let mine := fields self in
  match loaded self with
  | None => Ok (mine, COMMITTED)
  | Some baseline =>
      if py_eq (field "record_version" current) (field "record_version" mine) then Ok (mine, COMMITTED)
      else if differs mine baseline "lease_token" then Err (RunMutationConflict "run changed before claim generation committed")
      else if existsb (differs current baseline) generation_fields then
        if existsb (differs mine baseline) ["final_received_at"; "pushed_head"]
        then Err (RunMutationConflict "run claim generation changed before mutation committed")
        else Ok (<["dir" := field "dir" mine]> current, SUPERSEDED)
      else m ← foldR (merge_field baseline current) field_names mine; Ok (m, COMMITTED)
  end.
(** [current.record_version + 1] *)
Definition next_version (v : pyval) : result rerr pyval :=
  match v with PInt n => Ok (PInt (n + 1)) | PBool b => Ok (PInt (if b then 2 else 1)) | _ => Err (RunError TypeError) end.
(** [save_locked]: the run, what is now in [run.json], and the outcome *)
Definition save_locked (dir : string) (self : Run) (record : option values) : result rerr (Run * values * RunSaveOutcome) :=
  x ← match record with
      | None => Ok (<["record_version" := PInt 1]> (fields self), COMMITTED)
      | Some _ =>
          current ← load dir record;
          y ← merge_concurrent_record self (fields current);
          v ← next_version (field "record_version" (fields current));
          Ok (<["record_version" := v]> y.1, y.2)
      end;
  Ok ({| fields := x.1; loaded := Some x.1 |}, x.1, x.2).

(** ** Runs shared by processes

    Any number of processes hold copies of one record.  A copy may be loaded at any time, its fields may be
    changed in any way (except the version, which no code assigns), and it may be saved at any time. *)

Record System := { record : option values; copies : gmap nat Run }.
Definition whole (f : values) : Prop := forall n, is_Some (f !! n) <-> n ∈ field_names.

Inductive sys_step (s : System) : System -> Prop :=
| sys_load i dir r : load dir (record s) = Ok r -> sys_step s {| record := record s; copies := <[i := r]> (copies s) |}
| sys_new i data f : construct data = Ok f -> sys_step s {| record := record s; copies := <[i := {| fields := f; loaded := None |}]> (copies s) |}
| sys_change i r f : copies s !! i = Some r -> whole f -> f !! "record_version" = fields r !! "record_version" ->
    sys_step s {| record := record s; copies := <[i := {| fields := f; loaded := loaded r |}]> (copies s) |}
| sys_save i r dir r' d o : copies s !! i = Some r -> save_locked dir r (record s) = Ok (r', d, o) ->
    sys_step s {| record := Some d; copies := <[i := r']> (copies s) |}.

(** A garden in which the record is absent, or was written by this module. *)
Definition well_formed (d : values) : Prop := whole d /\ exists v, d !! "record_version" = Some (PInt v) /\ 0 < v.
Definition initial (s : System) : Prop := copies s = ∅ /\ match record s with Some d => well_formed d | None => True end.

(** *** Fields *)

Lemma field_names_NoDup : NoDup field_names.
Proof. apply (bool_decide_unpack _). vm_compute. exact I. Qed.
Lemma whole_insert f n v : whole f -> n ∈ field_names -> whole (<[n := v]> f).
Proof. intros H Hn k. destruct (decide (k = n)) as [->|]; [rewrite lookup_insert_eq|by rewrite lookup_insert_ne]. split; [done|by eexists]. Qed.
Lemma field_insert n v f : field n (<[n := v]> f) = v.
Proof. unfold field. by rewrite lookup_insert_eq. Qed.
Lemma field_insert_ne n m v f : n <> m -> field n (<[m := v]> f) = field n f.
Proof. intros. unfold field. by rewrite lookup_insert_ne. Qed.

(** A lookup in keyword arguments that are laid over a list of defaults *)
Lemma over_defaults (l : list (string * pyval)) (data : values) n :
  is_Some ((data ∪ list_to_map l) !! n) <-> is_Some (data !! n) \/ n ∈ l.*1.
Proof.
  rewrite lookup_union. assert (Hopt : is_Some ((list_to_map l : values) !! n) <-> n ∈ l.*1).
  { split; [intros [v Hv]; by apply elem_of_list_to_map_2, (list_elem_of_fmap_2 fst) in Hv|].
    intros Hn. destruct ((list_to_map l : values) !! n) eqn:H; [by eexists|]. by apply not_elem_of_list_to_map in H. }
  rewrite <- Hopt. destruct (data !! n), ((list_to_map l : values) !! n); cbn; unfold is_Some; naive_solver.
Qed.
Lemma over_defaults_given (l : list (string * pyval)) (data : values) n v : data !! n = Some v -> (data ∪ list_to_map l) !! n = Some v.
Proof. apply lookup_union_Some_l. Qed.

Lemma construct_whole data f : construct data = Ok f -> whole f /\ forall n v, data !! n = Some v -> f !! n = Some v.
Proof.
  unfold construct. generalize (over_defaults optional_fields data), (over_defaults_given optional_fields data).
  generalize (data ∪ list_to_map optional_fields). intros f' Hdef Hgiven. destruct (_ && _) eqn:Hc; [|done].
  apply andb_true_iff in Hc as [Hreq Hall%bool_decide_eq_true]. intros [= <-]. split; [|exact Hgiven]. intros n. rewrite Hdef. split.
  - intros [[v Hv]|Hn]; [exact (Hall n v Hv)|]. apply elem_of_app. by right.
  - intros [Hn|Hn]%elem_of_app; [|by right]. left.
    apply list_elem_of_In, (proj1 (forallb_forall _ _) Hreq), bool_decide_eq_true in Hn. exact Hn.
Qed.

(** Reading back what has been written only changes [dir]. *)
Lemma load_written dir d r : well_formed d -> load dir (Some d) = Ok r -> fields r = <["dir" := PStr dir]> d /\ loaded r = Some (fields r).
Proof.
  intros [Hw _]. unfold load. intros (f & Hf & [= <-])%bind_Ok. cbn. split; [|done]. destruct (construct_whole _ _ Hf) as [Hf1 Hf2].
  apply map_eq. intros n. destruct (<["dir" := PStr dir]> d !! n) as [v|] eqn:Hn; [by apply Hf2|].
  apply eq_None_not_Some. intros Hs%Hf1. apply (whole_insert d "dir" (PStr dir) Hw) in Hs; [|by apply (bool_decide_unpack _); vm_compute].
  rewrite Hn in Hs. by destruct Hs.
Qed.

(** *** The merge *)

Definition unmerged : list string := ["dir"; "record_version"].
(** Equal but for the directory, which says where the record was read *)
Definition agree (a b : values) : Prop := delete "dir" a = delete "dir" b.
#[export] Instance agree_equivalence : Equivalence agree.
Proof. unfold agree. split; repeat intro; congruence. Qed.
Lemma agree_field a b n : agree a b -> n <> "dir" -> field n a = field n b.
Proof. intros H Hn. unfold field. rewrite <- (lookup_delete_ne a "dir" n), <- (lookup_delete_ne b "dir" n) by done. by rewrite H. Qed.
Lemma agree_dir v a : agree (<["dir" := v]> a) a.
Proof. unfold agree. by rewrite delete_insert_eq. Qed.
Lemma agree_differs a b n : agree a b -> n <> "dir" -> differs a b n = false.
Proof. intros H Hn. unfold differs. by rewrite (agree_field a b n H Hn), py_eq_refl. Qed.

(** What the merge makes of one field *)
Definition merged_field (baseline current mine m : values) (n : string) : Prop :=
  if differs mine baseline n then field n m = field n mine /\ (differs current baseline n = false \/ differs mine current n = false)
  else field n m = field n current.

Lemma merge_field_spec baseline current mine m n :
  merge_field baseline current mine n = Ok m ->
  (forall k, k <> n -> field k m = field k mine) /\
  (if mem n unmerged then field n m = field n mine else merged_field baseline current mine m n).
Proof.
  unfold merge_field, merged_field, unmerged. destruct (mem n ["dir"; "record_version"]); [by intros [= <-]|].
  destruct (differs mine baseline n); cbn [negb].
  - destruct (differs current baseline n), (differs mine current n); cbn [andb]; intros [= <-]; naive_solver.
  - intros [= <-]. split; [intros k Hk; by apply field_insert_ne|apply field_insert].
Qed.
Lemma merge_fields_spec baseline current l mine m :
  NoDup l -> foldR (merge_field baseline current) l mine = Ok m ->
  (forall k, k ∉ l -> field k m = field k mine) /\
  (forall n, n ∈ l -> if mem n unmerged then field n m = field n mine else merged_field baseline current mine m n).
Proof.
  revert mine. induction l as [|x l IH]; intros mine; cbn [foldR].
  { intros _ [= <-]. split; [done|]. intros n Hn. by apply elem_of_nil in Hn. }
  intros [Hx Hl]%NoDup_cons (m1 & H1 & H2)%bind_Ok. apply merge_field_spec in H1 as [Hother Hone]. apply (IH m1 Hl) in H2 as [Hrest Hall].
  split; [intros k [Hk1 Hk2]%not_elem_of_cons; rewrite Hrest by done; by apply Hother|].
  intros n [->|Hn]%elem_of_cons.
  - revert Hone. unfold merged_field. by rewrite (Hrest x Hx).
  - assert (Hne : n <> x) by (intros ->; done). generalize (Hall n Hn). unfold merged_field, differs. by rewrite (Hother n Hne).
Qed.

(** *** What a save does, from one record *)

Definition at_version (d : values) (v : Z) : Prop := d !! "record_version" = Some (PInt v).
Lemma at_version_inj d v w : at_version d v -> at_version d w -> v = w.
Proof. unfold at_version. congruence. Qed.
Lemma at_version_agree a b v : agree a b -> at_version a v -> at_version b v.
Proof. unfold agree, at_version. intros H. rewrite <- (lookup_delete_ne a "dir") by done. rewrite H. by rewrite lookup_delete_ne. Qed.
Lemma field_version d v : at_version d v -> field "record_version" d = PInt v.
Proof. unfold at_version, field. by intros ->. Qed.
Lemma in_field_names n : bool_decide (n ∈ field_names) = true -> n ∈ field_names.
Proof. apply bool_decide_eq_true. Qed.
Lemma version_is_field : "record_version" ∈ field_names.
Proof. apply in_field_names. vm_compute. reflexivity. Qed.
Lemma dir_is_field : "dir" ∈ field_names.
Proof. apply in_field_names. vm_compute. reflexivity. Qed.

Lemma merge_fields_whole baseline current mine m :
  whole mine -> foldR (merge_field baseline current) field_names mine = Ok m -> whole m.
Proof.
  intros Hw H. refine (foldR_invariant whole _ _ _ _ _ Hw H). clear. intros n a b Hn Ha. unfold merge_field.
  destruct (mem n _); [by intros [= <-]|]. destruct (negb _); [intros [= <-]; by apply whole_insert|]. destruct (_ && _); [done|]. by intros [= <-].
Qed.

(** The outcomes of the merge *)
Inductive merge_result (mine baseline current m : values) : RunSaveOutcome -> Prop :=
| merged_unseen : field "record_version" current = field "record_version" mine -> m = mine -> merge_result mine baseline current m COMMITTED
| merged_over :
    field "record_version" current <> field "record_version" mine ->
    differs mine baseline "lease_token" = false -> existsb (differs current baseline) generation_fields = false ->
    foldR (merge_field baseline current) field_names mine = Ok m -> merge_result mine baseline current m COMMITTED
| merged_away :
    field "record_version" current <> field "record_version" mine -> differs mine baseline "lease_token" = false ->
    existsb (differs current baseline) generation_fields = true -> differs mine baseline "final_received_at" = false ->
    differs mine baseline "pushed_head" = false -> m = <["dir" := field "dir" mine]> current -> merge_result mine baseline current m SUPERSEDED.

Lemma py_eq_int m n : py_eq (PInt m) (PInt n) = true <-> m = n.
Proof. unfold py_eq. rewrite bool_decide_eq_true. cbn. naive_solver. Qed.

Lemma merge_outcomes mine baseline current m o v w :
  at_version current w -> at_version mine v ->
  merge_concurrent_record {| fields := mine; loaded := Some baseline |} current = Ok (m, o) -> merge_result mine baseline current m o.
Proof.
  intros Hc%field_version Hm%field_version. unfold merge_concurrent_record. cbn [fields loaded].
  destruct (py_eq (field "record_version" current) _) eqn:Hv.
  { rewrite Hc, Hm in Hv. apply py_eq_int in Hv as ->. intros [= <- <-]. apply merged_unseen; [congruence|done]. }
  assert (Hne : field "record_version" current <> field "record_version" mine) by (intros E; rewrite E, py_eq_refl in Hv; done).
  destruct (differs mine baseline "lease_token") eqn:Hl; [done|]. destruct (existsb (differs current _) _) eqn:Hg.
  - cbn [existsb]. destruct (differs mine baseline "final_received_at") eqn:Hf; [done|]. destruct (differs mine baseline "pushed_head") eqn:Hp; [done|].
    intros [= <- <-]. by apply merged_away.
  - intros (m' & Hf & [= <- <-])%bind_Ok. by apply merged_over.
Qed.

(** What is in [run.json] after a save, and in the run *)
Lemma save_locked_record dir r cur w r' d o :
  well_formed cur -> at_version cur w -> whole (fields r) -> save_locked dir r (Some cur) = Ok (r', d, o) ->
  exists m, merge_concurrent_record r (<["dir" := PStr dir]> cur) = Ok (m, o) /\ d = <["record_version" := PInt (w + 1)]> m /\
    r' = {| fields := d; loaded := Some d |} /\ at_version d (w + 1).
Proof.
  intros Hwf Hw Hr. unfold save_locked. intros (x & (c & Hc & (y & Hy & (v & Hv & [= <-])%bind_Ok)%bind_Ok)%bind_Ok & [= <- <- <-])%bind_Ok.
  destruct (load_written dir cur c Hwf Hc) as [Hf _]. rewrite Hf in Hy, Hv. rewrite field_insert_ne in Hv by done. rewrite (field_version cur w Hw) in Hv. injection Hv as <-.
  exists y.1. split; [by destruct y|]. split; [done|]. split; [done|]. apply lookup_insert_eq.
Qed.

(** *** Snapshots

    The record and the baselines of the copies are snapshots of it.  Versions never go back, and a version names one content. *)

Definition snapshot (s : System) (d : values) : Prop := record s = Some d \/ exists i r, copies s !! i = Some r /\ loaded r = Some d.
Record consistent (s : System) : Prop := {
  snapshots_well_formed d : snapshot s d -> well_formed d;
  copies_whole i r : copies s !! i = Some r -> whole (fields r) /\ forall d, loaded r = Some d -> fields r !! "record_version" = d !! "record_version";
  versions_bounded d v : snapshot s d -> at_version d v -> exists cur w, record s = Some cur /\ at_version cur w /\ v <= w;
  versions_unique a b v : snapshot s a -> snapshot s b -> at_version a v -> at_version b v -> agree a b }.

Lemma initial_consistent s : initial s -> consistent s.
Proof.
  intros [Hc Hr]. assert (Hs : forall d, snapshot s d -> record s = Some d).
  { intros d [|(i & r & H & _)]; [done|]. by rewrite Hc, lookup_empty in H. }
  split; [intros d Hd%Hs; by rewrite Hd in Hr|intros i r H; by rewrite Hc, lookup_empty in H| |].
  - intros d v Hd%Hs Hv. exists d, v. split; [done|]. split; [done|lia].
  - intros a b v Ha%Hs Hb%Hs _ _. by assert (a = b) as -> by congruence.
Qed.

(** A step that keeps the record, and whose only new snapshot agrees with an old one *)
Lemma consistent_same_record s i r :
  consistent s -> whole (fields r) ->
  (forall d, loaded r = Some d -> well_formed d /\ fields r !! "record_version" = d !! "record_version" /\ exists d0, snapshot s d0 /\ agree d d0) ->
  consistent {| record := record s; copies := <[i := r]> (copies s) |}.
Proof.
  intros [H1 H2 H3 H4] Hw Hd. set (s' := {| record := record s; copies := <[i := r]> (copies s) |}).
  assert (Hs : forall d, snapshot s' d -> well_formed d /\ exists d0, snapshot s d0 /\ agree d d0).
  { intros d [Hr|(j & r1 & Hj & Hl)]; [split; [apply H1; by left|exists d; split; [by left|done]]|]. cbn in Hj.
    apply lookup_insert_Some in Hj as [[_ <-]|[_ Hj]]; [by destruct (Hd d Hl) as (? & _ & ?)|].
    assert (snapshot s d) by (right; eauto). split; [by apply H1|by exists d]. }
  split.
  - intros d Hd'. apply (Hs d Hd').
  - intros j r1 Hj. cbn in Hj. apply lookup_insert_Some in Hj as [[_ <-]|[_ Hj]]; [|by apply (H2 j)]. split; [done|]. intros d Hl. apply (Hd d Hl).
  - intros d v (_ & d0 & Hd0 & Hag)%Hs Hv. apply (H3 d0); [done|]. by apply (at_version_agree d).
  - intros a b v (_ & a0 & Ha & Hag)%Hs (_ & b0 & Hb & Hbg)%Hs Hva Hvb.
    rewrite Hag, Hbg. apply (H4 a0 b0 v Ha Hb); by eapply at_version_agree.
Qed.

(** A step that writes a record of a new version *)
Lemma consistent_new_record s i d v :
  consistent s -> well_formed d -> at_version d v -> (forall cur w, record s = Some cur -> at_version cur w -> w < v) ->
  consistent {| record := Some d; copies := <[i := {| fields := d; loaded := Some d |}]> (copies s) |}.
Proof.
  intros [H1 H2 H3 H4] Hd Hv Hlt. set (s' := {| record := Some d; copies := <[i := {| fields := d; loaded := Some d |}]> (copies s) |}).
  assert (Hs : forall e, snapshot s' e -> e = d \/ snapshot s e).
  { intros e [Hr|(j & r1 & Hj & Hl)]; [left; cbn in Hr; congruence|]. cbn in Hj.
    apply lookup_insert_Some in Hj as [[_ <-]|[_ Hj]]; [left; cbn in Hl; congruence|right; right; eauto]. }
  assert (Hold : forall e w, snapshot s e -> at_version e w -> w < v).
  { intros e w He Hw. destruct (H3 e w He Hw) as (cur & u & Hc & Hu & Hle). specialize (Hlt cur u Hc Hu). lia. }
  split.
  - intros e [->|He]%Hs; [done|by apply H1].
  - intros j r1 Hj. cbn in Hj. apply lookup_insert_Some in Hj as [[_ <-]|[_ Hj]]; [|by apply (H2 j)]. split; [apply Hd|]. by intros e [= <-].
  - intros e w [->|He]%Hs Hw; exists d, v; (split; [done|split; [done|]]).
    + by rewrite (at_version_inj d w v Hw Hv).
    + specialize (Hold e w He Hw). lia.
  - intros a b w [->|Ha]%Hs [->|Hb]%Hs Hwa Hwb; [done| | |by apply (H4 a b w)].
    + specialize (Hold b w Hb Hwb). rewrite (at_version_inj d w v Hwa Hv) in Hold. lia.
    + specialize (Hold a w Ha Hwa). rewrite (at_version_inj d w v Hwb Hv) in Hold. lia.
Qed.

Lemma well_formed_dir dir d : well_formed d -> well_formed (<["dir" := PStr dir]> d).
Proof.
  intros [Hw (v & Hv & Hpos)]. split; [apply whole_insert; [done|apply dir_is_field]|]. exists v. split; [|done]. by rewrite lookup_insert_ne.
Qed.
Lemma well_formed_version m v : whole m -> 0 < v -> well_formed (<["record_version" := PInt v]> m).
Proof. intros Hw Hv. split; [apply whole_insert; [done|apply version_is_field]|]. exists v. split; [apply lookup_insert_eq|done]. Qed.

(** What a consistent garden knows of a copy with a baseline *)
Lemma loaded_copy s i r base :
  consistent s -> copies s !! i = Some r -> loaded r = Some base ->
  exists cur v w, record s = Some cur /\ well_formed cur /\ well_formed base /\ whole (fields r) /\ at_version cur w /\
    at_version (fields r) v /\ at_version base v /\ (v = w -> agree base cur).
Proof.
  intros [H1 H2 H3 H4] Hi Hl. assert (Hs : snapshot s base) by (right; eauto).
  destruct (H1 base Hs) as [Hwb (v & Hv & Hpos)]. destruct (H3 base v Hs Hv) as (cur & w & Hc & Hw & Hle). destruct (H2 i r Hi) as [Hwr Hver].
  exists cur, v, w. split; [done|]. split; [apply H1; by left|]. split; [split; eauto|]. split; [done|]. split; [done|].
  split; [unfold at_version; by rewrite (Hver base Hl)|]. split; [done|]. intros ->. apply (H4 base cur w); [done|by left|done|done].
Qed.

Lemma merged_whole mine base current m o : whole mine -> whole current -> merge_result mine base current m o -> whole m.
Proof.
  intros Hm Hc [? ->|_ _ _ H|_ _ _ _ _ ->]; [done|exact (merge_fields_whole _ _ _ _ Hm H)|]. apply whole_insert; [done|apply dir_is_field].
Qed.

Lemma consistent_step s s' : consistent s -> sys_step s s' -> consistent s'.
Proof.
  intros Hc [i dir r Hl|i data f Hf|i r f Hi Hw Hv|i r dir r' d o Hi Hsave].
  - destruct (record s) as [cur|] eqn:Hr; [|done]. assert (Hs : snapshot s cur) by (by left). destruct (snapshots_well_formed s Hc cur Hs) as [Hw Hver].
    destruct (load_written dir cur r (conj Hw Hver) Hl) as [Hf Hb]. rewrite <- Hr. apply consistent_same_record; [done|rewrite Hf; by apply whole_insert, dir_is_field|].
    intros d Hd. rewrite Hb in Hd. injection Hd as <-. split; [rewrite Hf; by apply well_formed_dir|]. split; [done|]. exists cur. split; [done|]. rewrite Hf. apply agree_dir.
  - apply consistent_same_record; [done|exact (proj1 (construct_whole data f Hf))|done].
  - apply consistent_same_record; [done|done|]. intros d Hl. cbn in *. destruct (copies_whole s Hc i r Hi) as [_ Hver].
    assert (snapshot s d) by (right; eauto). split; [by apply (snapshots_well_formed s Hc)|]. split; [by rewrite Hv, (Hver d Hl)|by exists d].
  - destruct (copies_whole s Hc i r Hi) as [Hwr Hver]. destruct (record s) as [cur|] eqn:Hr.
    + assert (Hs : snapshot s cur) by (by left). assert (Hwf := snapshots_well_formed s Hc cur Hs). destruct Hwf as [Hwc (w & Hw & Hpos)].
      destruct (save_locked_record dir r cur w r' d o (conj Hwc (ex_intro _ w (conj Hw Hpos))) Hw Hwr Hsave) as (m & Hm & -> & -> & Hat).
      assert (Hwm : whole m).
      { destruct r as [mine [base|]]; [|cbn in Hm; by injection Hm as <- <-].
        destruct (loaded_copy s i _ base Hc Hi eq_refl) as (cur' & v & w' & _ & _ & _ & _ & _ & Hmv & _ & _).
        eapply merged_whole; [exact Hwr|apply (whole_insert cur "dir" (PStr dir)); [done|apply dir_is_field]|]. refine (merge_outcomes mine base _ m o v w _ Hmv Hm).
        unfold at_version. by rewrite lookup_insert_ne. }
      apply (consistent_new_record s i _ (w + 1)); [done|apply well_formed_version; [done|lia]|done|].
      intros c' w' Hc' Hw'. rewrite Hr in Hc'. injection Hc' as <-. rewrite (at_version_inj cur w' w Hw' Hw). lia.
    + cbn in Hsave. injection Hsave as <- <- <-. apply (consistent_new_record s i _ 1); [done|by apply well_formed_version|apply lookup_insert_eq|].
      intros c' w' Hc'. congruence.
Qed.

Lemma reachable_consistent s0 s : initial s0 -> rtc sys_step s0 s -> consistent s.
Proof. intros H0%initial_consistent. intros Hr. revert H0. induction Hr as [|x y z Hxy _ IH]; [done|]. intros Hx. apply IH. by eapply consistent_step. Qed.

(** ** What a save writes *)

Definition written_field (mine base cur d : values) (n : string) : Prop :=
  if differs mine base n then field n d = field n mine /\ (differs cur base n = false \/ differs mine cur n = false)
  else py_eq (field n d) (field n cur) = true.
Definition written (mine base cur d : values) (o : RunSaveOutcome) : Prop :=
  match o with
  | COMMITTED => forall n, n ∈ field_names -> n ∉ unmerged -> written_field mine base cur d n
  | SUPERSEDED => forall n, n ∉ unmerged -> field n d = field n cur
  end.

Lemma mem_unmerged n : n ∉ unmerged -> mem n unmerged = false.
Proof. intros H. apply not_true_is_false. by rewrite mem_spec. Qed.
Lemma field_stamped n v m : n ∉ unmerged -> field n (<["record_version" := v]> m) = field n m.
Proof. intros H. apply field_insert_ne. intros ->. by apply H, elem_of_cons; right; apply elem_of_cons; left. Qed.

Lemma merge_result_written mine base cur m o v :
  (field "record_version" cur = field "record_version" mine -> agree base cur) ->
  merge_result mine base cur m o -> written mine base cur (<["record_version" := v]> m) o.
Proof.
  intros Hag [Hv ->|_ _ _ H|_ _ _ _ _ ->]; intros n.
  - intros _ Hu. assert (n <> "dir") by (intros ->; by apply Hu, elem_of_cons; left). unfold written_field. rewrite field_stamped by done.
    specialize (Hag Hv). destruct (differs mine base n) eqn:Hd.
    + split; [done|]. left. apply agree_differs; [by symmetry|done].
    + unfold differs in Hd. rewrite <- (agree_field base cur n Hag) by done. by apply negb_false_iff in Hd.
  - intros Hn Hu. destruct (merge_fields_spec base cur field_names mine m field_names_NoDup H) as [_ Hall].
    specialize (Hall n Hn). rewrite mem_unmerged in Hall by done. revert Hall. unfold merged_field, written_field. rewrite field_stamped by done.
    destruct (differs mine base n); [done|]. intros ->. apply py_eq_refl.
  - intros Hu. rewrite field_stamped by done. apply field_insert_ne. intros ->. by apply Hu, elem_of_cons; left.
Qed.

(** The statements do not depend on the directory of the record. *)
Lemma differs_agree cur1 cur a n : agree cur1 cur -> n <> "dir" -> differs cur1 a n = differs cur a n.
Proof. intros H Hn. unfold differs. by rewrite (agree_field cur1 cur n H Hn). Qed.
Lemma unmerged_dir n : n ∉ unmerged -> n <> "dir".
Proof. intros Hu ->. by apply Hu, elem_of_cons; left. Qed.
Lemma written_agree mine base cur1 cur d o : agree cur1 cur -> written mine base cur1 d o -> written mine base cur d o.
Proof.
  intros H. unfold written. destruct o; [|intros Hw n Hu; rewrite (Hw n Hu); by apply agree_field, unmerged_dir].
  intros Hw n Hn Hu. specialize (Hw n Hn Hu). assert (Hnd := unmerged_dir n Hu). revert Hw. unfold written_field, differs.
  by rewrite (agree_field cur1 cur n H Hnd).
Qed.
Lemma generation_agree cur1 cur a : agree cur1 cur -> existsb (differs cur1 a) generation_fields = existsb (differs cur a) generation_fields.
Proof. intros H. unfold generation_fields. cbn [existsb]. by rewrite !(differs_agree cur1 cur) by done. Qed.

Lemma merge_result_generation mine base cur m o :
  (field "record_version" cur = field "record_version" mine -> agree base cur) -> merge_result mine base cur m o ->
  (o = SUPERSEDED <-> existsb (differs cur base) generation_fields = true) /\
  (o = SUPERSEDED -> differs mine base "final_received_at" = false /\ differs mine base "pushed_head" = false) /\
  (differs mine base "lease_token" = true -> o = COMMITTED /\ agree base cur).
Proof.
  intros Hag [Hv ->|Hv Hl Hge _|Hv Hl Hge Hf Hp _]; [|rewrite Hl, Hge; by split..].
  specialize (Hag Hv). split; [|by split]. split; [done|]. rewrite (generation_agree cur base) by (by symmetry).
  unfold generation_fields. cbn [existsb]. by rewrite !(agree_differs base base) by done.
Qed.

(** Every field of what is saved comes from the copy or from the record. *)
Lemma merge_result_from mine base cur m o n : merge_result mine base cur m o -> n <> "dir" -> field n m = field n mine \/ field n m = field n cur.
Proof.
  intros [Hv ->|_ _ _ H|_ _ _ _ _ ->] Hn; [by left| |right; by apply field_insert_ne].
  destruct (merge_fields_spec base cur field_names mine m field_names_NoDup H) as [Hout Hall]. destruct (decide (n ∈ field_names)) as [Hi|Hi]; [|left; by apply Hout].
  specialize (Hall n Hi). destruct (mem n unmerged); [by left|]. unfold merged_field in Hall. destruct (differs mine base n); [left; apply Hall|by right].
Qed.

(** What a save does, in a garden where versions name contents *)
Record saved (mine base cur d : values) (w : Z) (o : RunSaveOutcome) : Prop := {
  sv_version : at_version d (w + 1);
  sv_written : written mine base cur d o;
  sv_from n : n ∉ unmerged -> field n d = field n mine \/ field n d = field n cur;
  sv_superseded : o = SUPERSEDED <-> existsb (differs cur base) generation_fields = true;
  sv_completion : o = SUPERSEDED -> differs mine base "final_received_at" = false /\ differs mine base "pushed_head" = false;
  sv_claim : differs mine base "lease_token" = true -> o = COMMITTED /\ agree base cur }.
Lemma save_effect s i dir mine base cur w r' d o :
  consistent s -> copies s !! i = Some {| fields := mine; loaded := Some base |} -> record s = Some cur -> at_version cur w ->
  save_locked dir {| fields := mine; loaded := Some base |} (record s) = Ok (r', d, o) ->
  r' = {| fields := d; loaded := Some d |} /\ saved mine base cur d w o.
Proof.
  intros Hc Hi Hcur Hw Hsave.
  destruct (loaded_copy s i _ base Hc Hi eq_refl) as (cur' & v & w' & Hcur' & Hwf & _ & Hwm & Hw' & Hmv & Hbv & Hag).
  rewrite Hcur in Hcur'. injection Hcur' as <-. rewrite (at_version_inj cur w' w Hw' Hw) in Hag. rewrite Hcur in Hsave.
  destruct (save_locked_record dir {| fields := mine; loaded := Some base |} cur w r' d o Hwf Hw Hwm Hsave) as (m & Hm & -> & -> & Hat). split; [done|].
  cbn [fields] in *. set (cur1 := <["dir" := PStr dir]> cur) in *. assert (H1 : agree cur1 cur) by apply agree_dir.
  assert (Hv1 : at_version cur1 w) by (by apply (at_version_agree cur cur1); [symmetry|]).
  assert (Hm' := merge_outcomes mine base cur1 m o v w Hv1 Hmv Hm).
  assert (Hag1 : field "record_version" cur1 = field "record_version" mine -> agree base cur1).
  { rewrite (field_version cur1 w Hv1), (field_version mine v Hmv). intros [= ->]. rewrite H1. by apply Hag. }
  destruct (merge_result_generation mine base cur1 m o Hag1 Hm') as (Hs & Hp & Hl). rewrite (generation_agree cur1 cur base H1) in Hs.
  split; [exact Hat|by apply (written_agree mine base cur1), merge_result_written| |exact Hs|exact Hp|].
  - intros n Hn. rewrite field_stamped by done. rewrite <- (agree_field cur1 cur n H1) by (by apply unmerged_dir).
    apply (merge_result_from mine base cur1 m o n Hm'). by apply unmerged_dir.
  - intros [-> Hb]%Hl. split; [done|by rewrite Hb, H1].
Qed.

(** C19.  (Safety.)  Processes load one run record at any time, change any fields of their copies in place, and save them in any order.
    A save that succeeds moves the record to the next version, and: (1) if it commits, every field that the copy changed
    since it was read gets the copy's value, and nobody else had given that field a different one; every other field keeps what is in the record;
    (2) if it is superseded, the record keeps every field, and it is exactly then that the worker generation had advanced, and the copy does not publish a
    completion; (3) a change of the lease token commits only on the very record that was read: a claim, a reclaim or a revocation is never merged. *)
Theorem run_saves_merge s0 s i dir mine base cur w r' d o :
  initial s0 -> rtc sys_step s0 s ->
  copies s !! i = Some {| fields := mine; loaded := Some base |} -> record s = Some cur -> at_version cur w ->
  save_locked dir {| fields := mine; loaded := Some base |} (record s) = Ok (r', d, o) ->
  at_version d (w + 1) /\ written mine base cur d o /\
  (o = SUPERSEDED <-> existsb (differs cur base) generation_fields = true) /\
  (o = SUPERSEDED -> differs mine base "final_received_at" = false /\ differs mine base "pushed_head" = false) /\
  (differs mine base "lease_token" = true -> o = COMMITTED /\ agree base cur).
Proof.
  intros H0 Hr Hi Hcur Hw Hsave. destruct (save_effect s i dir mine base cur w r' d o (reachable_consistent s0 s H0 Hr) Hi Hcur Hw Hsave) as [_ [H1 H2 _ H3 H4 H5]].
  split; [done|]. split; [done|]. split; [done|]. by split.
Qed.

(** ** A witness

    The scheduler marks a run as done while a web request, which loaded the same record, notes its cost. *)

Module Merge.
Definition get {A} (d : A) (r : result rerr A) : A := match r with Ok a => a | Err _ => d end.
Definition is_ok {A} (r : result rerr A) : bool := match r with Ok _ => true | Err _ => false end.
Lemma get_ok {A} (d : A) (r : result rerr A) : is_ok r = true -> r = Ok (get d r).
Proof. by destruct r. Qed.

Definition data : values := list_to_map [("task_id", PStr "CG-1"); ("run_id", PStr "r1"); ("dir", PStr "d"); ("runner", PStr "remote"); ("record_version", PInt 3)].
Definition on_disk : values := get ∅ (construct data).
Definition read : values := get ∅ (construct (<["dir" := PStr "d"]> on_disk)).
Definition run_with (mine : values) : Run := {| fields := mine; loaded := Some read |}.
Definition web : values := <["brief_tokens" := PInt 7]> read.
Definition scheduler : values := <["status" := PStr "done"]> read.
Definition none_saved : Run * values * RunSaveOutcome := (run_with ∅, ∅, SUPERSEDED).
Definition web_saved : Run * values * RunSaveOutcome := get none_saved (save_locked "d" (run_with web) (Some on_disk)).
Definition start : System := {| record := Some on_disk; copies := ∅ |}.
Definition all_copies : gmap nat Run := <[0%nat := run_with web]> (<[1%nat := run_with scheduler]> (<[1%nat := run_with read]> (<[0%nat := run_with read]> ∅))).
Definition saved_once : System := {| record := Some web_saved.1.2; copies := <[0%nat := web_saved.1.1]> all_copies |}.
Definition both_saved : Run * values * RunSaveOutcome := get none_saved (save_locked "d" (run_with scheduler) (record saved_once)).

Lemma constructed : construct data = Ok on_disk.
Proof. apply (get_ok ∅). vm_compute. reflexivity. Qed.
Lemma construct_read : construct (<["dir" := PStr "d"]> on_disk) = Ok read.
Proof. apply (get_ok ∅). vm_compute. reflexivity. Qed.
Lemma loads : load "d" (Some on_disk) = Ok (run_with read).
Proof. unfold load. by rewrite construct_read. Qed.
Lemma web_saves : save_locked "d" (run_with web) (Some on_disk) = Ok (web_saved.1.1, web_saved.1.2, web_saved.2).
Proof. rewrite <- !surjective_pairing. apply (get_ok none_saved). vm_compute. reflexivity. Qed.
Lemma scheduler_saves : save_locked "d" (run_with scheduler) (record saved_once) = Ok (both_saved.1.1, both_saved.1.2, both_saved.2).
Proof. rewrite <- !surjective_pairing. apply (get_ok none_saved). vm_compute. reflexivity. Qed.
Lemma changed n v : n ∈ field_names -> whole (<[n := v]> read).
Proof. apply whole_insert. apply (construct_whole _ _ construct_read). Qed.
Lemma start_initial : initial start.
Proof. split; [done|]. split; [apply (construct_whole _ _ constructed)|]. exists 3. split; [vm_compute; reflexivity|lia]. Qed.
Lemma reached : rtc sys_step start saved_once.
Proof.
  eapply rtc_l; [exact (sys_load start 0 "d" (run_with read) loads)|]. eapply rtc_l; [exact (sys_load {| record := Some on_disk; copies := _ |} 1 "d" (run_with read) loads)|].
  eapply rtc_l; [apply (sys_change _ 1 (run_with read) scheduler); [apply lookup_insert_eq|apply changed, in_field_names; vm_compute; reflexivity|by apply lookup_insert_ne]|].
  eapply rtc_l; [apply (sys_change _ 0 (run_with read) web); [|apply changed, in_field_names; vm_compute; reflexivity|by apply lookup_insert_ne]|].
  { cbn [copies]. rewrite !lookup_insert_ne by done. apply lookup_insert_eq. }
  eapply rtc_l; [|reflexivity]. exact (sys_save {| record := Some on_disk; copies := all_copies |} 0 (run_with web) "d" _ _ _ (lookup_insert_eq _ _ _) web_saves).
  Qed.
End Merge.

Lemma run_saves_merge_witness :
  Merge.both_saved.2 = COMMITTED /\ field "status" Merge.both_saved.1.2 = PStr "done" /\ field "brief_tokens" Merge.both_saved.1.2 = PInt 7 /\
  written Merge.scheduler Merge.read Merge.web_saved.1.2 Merge.both_saved.1.2 Merge.both_saved.2.
Proof.
  split; [vm_compute; reflexivity|]. split; [vm_compute; reflexivity|]. split; [vm_compute; reflexivity|].
  assert (Hc : copies Merge.saved_once !! 1%nat = Some (Merge.run_with Merge.scheduler)).
  { unfold Merge.saved_once, Merge.all_copies. cbn [copies]. rewrite !lookup_insert_ne by done. apply lookup_insert_eq. }
  assert (Hw : at_version Merge.web_saved.1.2 4) by (vm_compute; reflexivity).
  exact (proj1 (proj2 (run_saves_merge Merge.start Merge.saved_once 1 "d" _ _ _ 4 _ _ _ Merge.start_initial Merge.reached Hc eq_refl Hw Merge.scheduler_saves))).
Defined.
