(* ===== verification/RunIndex.v ===== *)
(** * The index over all runs ([runs.py], [RunStore])

    Every web request and every pass asks for the runs of a task, the active runs, the totals, or the run of a claim request.
    [_refresh_index] keeps one view per process and brings it up to date from cheap fingerprints: only the task directories whose
    fingerprint changed, or that this process has marked as dirty, are read again.

    A run is the map of its fields ([RunRecords.values]).  [Disk] is what a refresh can see: the run records under [runs/<task>],
    the modification stamps of the task directories, and the ledger of the archive with its per-task buckets.
    [float] and [fromisoformat] are parameters; amounts are exact rationals and the rounded ones integers, in units of the last digit. *)

From Stdlib Require Import QArith Qround Qminmax.
From S2P Require Import Prelude PyValue StateStore RunRecords.

#[local] Open Scope list_scope.
#[local] Open Scope Z_scope.

Inductive ierr : Type :=
| HistoryUnavailable (msg : string)
| AttributeError
| KeyMissing (key : string)
| Other (e : exn).
Definition other {A} (r : result exn A) : result ierr A := match r with Ok a => Ok a | Err e => Err (Other e) end.

(** [round(q, n)]: to the nearest, ties to even, in units of [10 ** -n] *)
Definition round_half_even (q : Q) : Z :=
  let f := Qfloor q in
  let r := Qcompare (q - inject_Z f) (1 # 2) in
  match r with Lt => f | Gt => f + 1 | Eq => if Z.even f then f else f + 1 end.
Definition round4 (q : Q) : Z := round_half_even (q * inject_Z 10000).
Definition round1 (q : Q) : Z := round_half_even (q * inject_Z 10).
Definition of_units4 (n : Z) : Q := (n # 10000)%Q.

Record Totals := { t_runs : Z; t_cost : Z; t_input : Z; t_output : Z; t_cache_read : Z }.
Definition empty_totals : Totals := {| t_runs := 0; t_cost := 0; t_input := 0; t_output := 0; t_cache_read := 0 |}.
(** One entry of [by_mode], and the sums of [_rollup] before they are rounded *)
Record ModeTotals := { m_runs : Z; m_input : Z; m_output : Z; m_cache_read : Z; m_cost : Q }.
Record Rollup := { r_runs : Z; r_input : Z; r_output : Z; r_cache_read : Z; r_cache_creation : Z; r_cost : Q; r_minutes : Q; r_modes : gmap string ModeTotals }.

(** The numbers [_rollup] rounds at its end, and the sum of all tokens *)
Record Rounded := { s_cost : Z; s_minutes : Z; s_tokens : Z; s_modes : gmap string Z }.
Definition rounded (r : Rollup) : Rounded :=
  {| s_cost := round4 (r_cost r); s_minutes := round1 (r_minutes r);
     s_tokens := r_input r + r_output r + r_cache_read r + r_cache_creation r; s_modes := (fun m => round4 (m_cost m)) <$> r_modes r |}.

Definition started_at := text "started_at".
Definition task_id := text "task_id".
Definition run_id := text "run_id".
(** [_run_sort_key], and its order *)
Definition run_sort_key (r : values) : string * string * string := (started_at r, task_id r, run_id r).
Definition key_leb (a b : string * string * string) : bool :=
  let '(a1, a2, a3) := a in let '(b1, b2, b3) := b in
  if bool_decide (a1 = b1) then (if bool_decide (a2 = b2) then str_leb a3 b3 else str_leb a2 b2) else str_leb a1 b1.
Definition run_leb (a b : values) : bool := key_leb (run_sort_key a) (run_sort_key b).

Definition is_active (r : values) : bool := mem (text "status" r) ["requested"; "preparing"; "running"].
Definition is_remote (r : values) : bool := bool_decide (text "runner" r = "remote").

(** [_run_claim_request_ids], [_claim_request_ids] *)
Definition history_id (item : pyval) : result ierr string :=
  match item with PDict d => Ok (py_str (por (pget "claim_request_id" d) (PStr ""))) | _ => Err AttributeError end.
Definition run_claim_request_ids (r : values) : result ierr (gset string) :=
  ids ← match field "claim_history" r with PList l => mapR history_id l | _ => Err (Other TypeError) end;
  Ok (list_to_set (base.filter (fun s => nonempty s = true) (text "claim_request_id" r :: ids))).
Fixpoint claim_request_ids (rs : list values) : result ierr (gset string) :=
  match rs with
  | [] => Ok ∅
  | r :: rs' => if is_remote r then a ← run_claim_request_ids r; b ← claim_request_ids rs'; Ok (a ∪ b) else claim_request_ids rs'
  end.

Section rollup.
Context (float : pyval -> result exn Q) (fromisoformat : string -> result exn Q) (now : Q).

(** [Run.elapsed_minutes]; instants are in seconds. *)
Definition elapsed_minutes (r : values) : result ierr Q :=
  if negb (nonempty (started_at r)) then Ok 0%Q
  else start ← other (fromisoformat (started_at r));
    finish ← (if nonempty (text "finished_at" r) then other (fromisoformat (text "finished_at" r)) else Ok now);
    Ok (Qmax 0 ((finish - start) / 60))%Q.
(** [int(u.get(k, 0) or 0)], where [u = r.usage or {}] *)
Definition usage_count (k : string) (r : values) : result ierr Z :=
  match por (field "usage" r) (PDict []) with
  | PDict u => other (py_int (por (pget_or k (PInt 0) u) (PInt 0)))
  | _ => Err AttributeError
  end.
Definition cost_of (r : values) : result ierr Q := other (float (por (field "cost_usd" r) (PInt 0))).

Definition mode_add (inp outp cr : Z) (cost : Q) (m : option ModeTotals) : ModeTotals :=
  let m := default {| m_runs := 0; m_input := 0; m_output := 0; m_cache_read := 0; m_cost := 0%Q |} m in
  {| m_runs := m_runs m + 1; m_input := m_input m + inp; m_output := m_output m + outp; m_cache_read := m_cache_read m + cr; m_cost := (m_cost m + cost)%Q |}.
Definition rollup_add (tot : Rollup) (r : values) : result ierr Rollup :=
  inp ← usage_count "input_tokens" r; outp ← usage_count "output_tokens" r;
  cr ← usage_count "cache_read_input_tokens" r; cc ← usage_count "cache_creation_input_tokens" r; cost ← cost_of r;
  minutes ← (if nonempty (text "finished_at" r) then elapsed_minutes r else Ok 0%Q);
  Ok {| r_runs := r_runs tot; r_input := r_input tot + inp; r_output := r_output tot + outp; r_cache_read := r_cache_read tot + cr;
        r_cache_creation := r_cache_creation tot + cc; r_cost := (r_cost tot + cost)%Q; r_minutes := (r_minutes tot + minutes)%Q;
        r_modes := partial_alter (fun m => Some (mode_add inp outp cr cost m)) (text "mode" r) (r_modes tot) |}.
Definition rollup (runs : list values) : result ierr Rollup :=
  foldR rollup_add runs {| r_runs := Z.of_nat (List.length runs); r_input := 0; r_output := 0; r_cache_read := 0; r_cache_creation := 0; r_cost := 0%Q; r_minutes := 0%Q; r_modes := ∅ |}.
(** [_totals] *)
Definition totals (runs : list values) : result ierr Totals :=
  r ← rollup runs;
  let s := rounded r in
  Ok {| t_runs := r_runs r; t_cost := s_cost s; t_input := r_input r; t_output := r_output r; t_cache_read := r_cache_read r |}.
End rollup.
(** [_adjust_totals] *)
Definition adjust_totals (current old new : Totals) : Totals :=
  {| t_runs := t_runs current + (t_runs new - t_runs old);
     t_cost := round4 (of_units4 (t_cost current) + (of_units4 (t_cost new) - of_units4 (t_cost old)));
     t_input := t_input current + (t_input new - t_input old); t_output := t_output current + (t_output new - t_output old);
     t_cache_read := t_cache_read current + (t_cache_read new - t_cache_read old) |}.

(** ** The disk *)

(** What a [stat] of a directory or file tells: modification time first *)
Abbreviation stamp := (Z * Z)%type.
Abbreviation stamp3 := (Z * Z * Z)%type.
(** [run-archive/index.json]: absent, unreadable, a list of rows (also an object of another shape, with no rows), or a bucket per task *)
Inductive Ledger : Type :=
| NoLedger
| BadLedger
| OldLedger (rows : list values)
| Ledger2 (tasks : list (string * stamp3)).
Record Disk := {
  stamps : gmap string stamp;
  live : gmap string (list values);
  ledger : Ledger;
  ledger_stamp : option stamp3;
  buckets : gmap string (list values);
  pending : bool;
  archive_entries : bool }.

(** [_task_fingerprints], [_read_task_runs], [_archive_fingerprint] *)
Definition task_fingerprints_of (d : Disk) : gmap string stamp := stamps d.
Definition read_task_runs (d : Disk) (t : string) : list values := default [] (live d !! t).
(** [_archive_task_fingerprints]; [None] for a ledger of the old form *)
Definition archive_task_fingerprints_of (d : Disk) : result ierr (option (gmap string stamp3)) :=
  match ledger d with
  | NoLedger => Ok (Some ∅)
  | BadLedger => Err (HistoryUnavailable "archive index is unreadable; historical totals are unavailable")
  | OldLedger _ => Ok None
  | Ledger2 tasks => Ok (Some (list_to_map tasks))
  end.
(** [_archived_task_runs]; a bucket that is missing, or does not load, is unreadable. *)
Definition archived_task_runs (d : Disk) (t : string) : result ierr (list values) :=
  match buckets d !! t with
  | Some rows => Ok rows
  | None => Err (HistoryUnavailable "archive index is unreadable; historical totals are unavailable")
  end.
(** [_archived_runs] *)
Definition archived_runs (d : Disk) : result ierr (list values) :=
  if pending d then Err (HistoryUnavailable "archive migration is incomplete; rerun garden archive-runs --apply")
  else match ledger d with
  | NoLedger => if archive_entries d then Err (HistoryUnavailable "archive index is missing; historical totals are unavailable") else Ok []
  | BadLedger => Err (HistoryUnavailable "archive index is unreadable; historical totals are unavailable")
  | OldLedger rows => Ok rows
  | Ledger2 tasks => rs ← mapR (archived_task_runs d) tasks.*1; Ok (concat rs)
  end.

(** ** The index *)

Abbreviation candidates := (gmap (string * string) values).
(** The maps that are kept up to date task by task *)
Record Views := {
  by_task : gmap string (list values);
  by_claim_request : gmap string values;
  claim_candidates : gmap string candidates;
  active_by_task : gmap string (list values);
  totals_by_task : gmap string Totals;
  all_totals : Totals }.
Record Index := {
  views : Views;
  generation : Z;
  built_generation : Z;
  built_at : Q;
  archived : list values;
  archived_by_task : gmap string (list values);
  active : list values;
  task_fingerprints : gmap string stamp;
  archive_fingerprint : option stamp3;
  archive_task_fingerprints : option (gmap string stamp3);
  archive_dirty : bool;
  dirty_tasks : gset string }.
(** A process that has just started *)
Definition empty_views : Views :=
  {| by_task := ∅; by_claim_request := ∅; claim_candidates := ∅; active_by_task := ∅; totals_by_task := ∅; all_totals := empty_totals |}.
Definition new_index : Index :=
  {| views := empty_views; generation := 0; built_generation := -1; built_at := 0%Q; archived := []; archived_by_task := ∅; active := [];
     task_fingerprints := ∅; archive_fingerprint := None; archive_task_fingerprints := None; archive_dirty := false; dirty_tasks := ∅ |}.

(** A statement changes the views and may raise; what it changed before stays. *)
Definition W (A : Type) : Type := Views -> result ierr A * Views.
#[export] Instance W_ret : MRet W := fun A a x => (Ok a, x).
#[export] Instance W_bind : MBind W := fun A B f m x => match m x with (Ok a, x') => f a x' | (Err e, x') => (Err e, x') end.
Definition getW {A} (f : Views -> A) : W A := fun x => (Ok (f x), x).
Definition modifyW (f : Views -> Views) : W unit := fun x => (Ok tt, f x).
Definition liftW {A} (r : result ierr A) : W A := fun x => (r, x).
Fixpoint forW {A} (f : A -> W unit) (l : list A) : W unit :=
  match l with [] => mret tt | a :: l' => f a ≫= fun _ => forW f l' end.

Definition set_claims (f : gmap string candidates -> gmap string candidates) (x : Views) : Views :=
  {| by_task := by_task x; by_claim_request := by_claim_request x; claim_candidates := f (claim_candidates x);
     active_by_task := active_by_task x; totals_by_task := totals_by_task x; all_totals := all_totals x |}.
Definition set_requests (f : gmap string values -> gmap string values) (x : Views) : Views :=
  {| by_task := by_task x; by_claim_request := f (by_claim_request x); claim_candidates := claim_candidates x;
     active_by_task := active_by_task x; totals_by_task := totals_by_task x; all_totals := all_totals x |}.
Definition set_task (f g : gmap string (list values) -> gmap string (list values)) (x : Views) : Views :=
  {| by_task := f (by_task x); by_claim_request := by_claim_request x; claim_candidates := claim_candidates x;
     active_by_task := g (active_by_task x); totals_by_task := totals_by_task x; all_totals := all_totals x |}.
Definition set_task_totals (f : gmap string Totals -> gmap string Totals) (x : Views) : Views :=
  {| by_task := by_task x; by_claim_request := by_claim_request x; claim_candidates := claim_candidates x;
     active_by_task := active_by_task x; totals_by_task := f (totals_by_task x); all_totals := all_totals x |}.
Definition set_all_totals (t : Totals) (x : Views) : Views :=
  {| by_task := by_task x; by_claim_request := by_claim_request x; claim_candidates := claim_candidates x;
     active_by_task := active_by_task x; totals_by_task := totals_by_task x; all_totals := t |}.

(** [min(candidates.values(), key=_run_sort_key)] *)
Fixpoint first_run (l : list values) : option values :=
  match l with
  | [] => None
  | r :: l' => match first_run l' with Some m => Some (if run_leb r m then r else m) | None => Some r end
  end.
Definition first_candidate (c : candidates) : option values := first_run (map_to_list c).*2.

(** The loop body of [_refresh_index], by its statements *)
Definition forget_candidate (t request_id : string) : W unit :=
  claims ← getW claim_candidates;
  match claims !! request_id with
  | None => liftW (Err (KeyMissing request_id))
  | Some c =>
      let c' := filter (fun kr => kr.1.1 <> t) c in
      modifyW (set_claims (fun m => if bool_decide (c' = ∅) then delete request_id m else <[request_id := c']> m))
  end.
Definition add_candidate (t : string) (r : values) (request_id : string) : W unit :=
  modifyW (set_claims (fun m => <[request_id := <[(t, run_id r) := r]> (default ∅ (m !! request_id))]> m)).
Definition add_candidates (t : string) (r : values) : W unit :=
  if is_remote r then ids ← liftW (run_claim_request_ids r); forW (add_candidate t r) (elements ids) else mret tt.
Definition choose_candidate (request_id : string) : W unit :=
  claims ← getW claim_candidates;
  match first_candidate (default ∅ (claims !! request_id)) with
  | Some r => modifyW (set_requests (insert request_id r))
  | None => modifyW (set_requests (delete request_id))
  end.

Section refresh.
Context (float : pyval -> result exn Q) (fromisoformat : string -> result exn Q) (now_utc : Q).

Definition put_runs (t : string) (task_runs : list values) : W unit :=
  match task_runs with
  | [] => _ ← modifyW (set_task (delete t) (delete t)); modifyW (set_task_totals (delete t))
  | _ =>
      _ ← modifyW (set_task (insert t task_runs) (insert t (filter (fun r => is_active r = true) task_runs)));
      tot ← liftW (totals float fromisoformat now_utc task_runs);
      modifyW (set_task_totals (insert t tot))
  end.
Definition update_task (t : string) (live_runs archived_runs : list values) : W unit :=
  old_runs ← getW (fun x => default [] (by_task x !! t));
  old_totals ← getW (fun x => default empty_totals (totals_by_task x !! t));
  affected ← liftW (claim_request_ids old_runs);
  _ ← forW (forget_candidate t) (elements affected);
  let task_runs := sort_by run_leb (live_runs ++ archived_runs) in
  _ ← put_runs t task_runs;
  current ← getW all_totals;
  new_totals ← getW (fun x => default empty_totals (totals_by_task x !! t));
  _ ← modifyW (set_all_totals (adjust_totals current old_totals new_totals));
  ids ← liftW (claim_request_ids task_runs);
  _ ← forW (add_candidates t) task_runs;
  forW choose_candidate (elements (affected ∪ ids)).

(** [setdefault(run.task_id, []).append(run)] over the runs *)
Definition group_by_task (runs : list values) : gmap string (list values) :=
  foldl (fun m r => partial_alter (fun o => Some (default [] o ++ [r])) (task_id r) m) ∅ runs.
Definition all_runs_of (m : gmap string (list values)) : list values := concat (map_to_list m).*2.
(** The names whose entries differ; [get] of an absent name is [None]. *)
Definition changed_names {V} `{EqDecision V} (a b : gmap string V) : gset string := filter (fun t => a !! t <> b !! t) (dom a ∪ dom b).

(** The archived runs after a change of the archive, and the tasks it concerns *)
Definition replace_bucket (d : Disk) (prints : gmap string stamp3) (m : gmap string (list values)) (t : string) : result ierr (gmap string (list values)) :=
  runs ← match prints !! t with Some _ => archived_task_runs d t | None => Ok [] end;
  Ok (match runs with [] => delete t m | _ => <[t := runs]> m end).
Definition refresh_archive (d : Disk) (prints : option (gmap string stamp3)) (x : Index) : result ierr (list values * gmap string (list values) * gset string) :=
  match prints, archive_task_fingerprints x with
  | Some new, Some old =>
      let tasks := changed_names new old in
      m ← foldR (replace_bucket d new) (elements tasks) (archived_by_task x);
      Ok (all_runs_of m, m, tasks)
  | _, _ =>
      runs ← archived_runs d;
      Ok (runs, group_by_task runs, list_to_set (map task_id (archived x) ++ map task_id runs))
  end.

(** The sorted view of the active runs *)
Definition active_view (v : Views) : list values := sort_by run_leb (all_runs_of (active_by_task v)).

(** [_refresh_index].  The fingerprints and the archive are those of [d]; the run records are read afterwards, when the disk may be [d']:
    other processes do not wait for the reader.  The result has the index as it is left, also when the refresh raises. *)
Definition refresh_index (d d' : Disk) (now : Q) (x : Index) : result ierr unit * Index :=
  match archive_task_fingerprints_of d with
  | Err e => (Err e, x)
  | Ok prints =>
      let initial := built_generation x <? 0 in
      let changed := (if initial then dom (stamps d) else changed_names (stamps d) (task_fingerprints x)) ∪ dirty_tasks x in
      let archive_changed := initial || archive_dirty x || negb (bool_decide (ledger_stamp d = archive_fingerprint x)) in
      if bool_decide (changed = ∅) && negb archive_changed then
        (Ok tt, {| views := views x; generation := generation x; built_generation := generation x; built_at := now; archived := archived x;
                   archived_by_task := archived_by_task x; active := active x; task_fingerprints := task_fingerprints x;
                   archive_fingerprint := archive_fingerprint x; archive_task_fingerprints := archive_task_fingerprints x;
                   archive_dirty := archive_dirty x; dirty_tasks := dirty_tasks x |})
      else match (if archive_changed then refresh_archive d prints x else Ok (archived x, archived_by_task x, ∅)) with
      | Err e => (Err e, x)
      | Ok (archived', by_task', touched) =>
          let one t := update_task t (match stamps d !! t with Some _ => read_task_runs d' t | None => [] end) (default [] (by_task' !! t)) in
          match forW one (elements (changed ∪ touched)) (views x) with
          | (Err e, v) =>
              (Err e, {| views := v; generation := generation x; built_generation := built_generation x; built_at := built_at x; archived := archived x;
                         archived_by_task := archived_by_task x; active := active x; task_fingerprints := task_fingerprints x;
                         archive_fingerprint := archive_fingerprint x; archive_task_fingerprints := archive_task_fingerprints x;
                         archive_dirty := archive_dirty x; dirty_tasks := dirty_tasks x |})
          | (Ok _, v) =>
              (Ok tt, {| views := v; generation := generation x; built_generation := generation x; built_at := now; archived := archived';
                         archived_by_task := by_task'; active := active_view v; task_fingerprints := stamps d;
                         archive_fingerprint := ledger_stamp d; archive_task_fingerprints := prints; archive_dirty := false; dirty_tasks := ∅ |})
          end
      end
  end.
(** [_ensure_index]; [MAX_INDEX_AGE_SECONDS] is 1. *)
Definition ensure_index (d d' : Disk) (now : Q) (x : Index) : result ierr unit * Index :=
  if negb (built_generation x =? generation x) || negb (Qle_bool (now - built_at x) 1) then refresh_index d d' now x else (Ok tt, x).
End refresh.

(** [_invalidate_index], and the end of [_archive_mutation] (the tasks are those the mutation has marked) *)
Definition invalidate_index (t : option string) (x : Index) : Index :=
  {| views := views x; generation := generation x + 1; built_generation := built_generation x; built_at := built_at x; archived := archived x;
     archived_by_task := archived_by_task x; active := active x; task_fingerprints := task_fingerprints x; archive_fingerprint := archive_fingerprint x;
     archive_task_fingerprints := archive_task_fingerprints x; archive_dirty := archive_dirty x;
     dirty_tasks := match t with Some t => {[t]} ∪ dirty_tasks x | None => dirty_tasks x end |}.
Definition archive_mutated (ts : gset string) (x : Index) : Index :=
  {| views := views x; generation := generation x + 1; built_generation := built_generation x; built_at := built_at x; archived := archived x;
     archived_by_task := archived_by_task x; active := active x; task_fingerprints := task_fingerprints x; archive_fingerprint := archive_fingerprint x;
     archive_task_fingerprints := archive_task_fingerprints x; archive_dirty := true; dirty_tasks := ts ∪ dirty_tasks x |}.

(** *** The questions the index answers *)

Definition runs_for (x : Index) (t : string) : list values := default [] (by_task (views x) !! t).
Definition claim_request (x : Index) (request_id : string) : option values := by_claim_request (views x) !! request_id.
Definition latest (x : Index) (t : string) : option values :=
  let runs := runs_for x t in
  match last (filter (fun r => text "status" r = "running") runs) with Some r => Some r | None => last runs end.
Definition usage_for (float : pyval -> result exn Q) (fromisoformat : string -> result exn Q) (now_utc : Q) (x : Index) (t : string) : result ierr (Rollup * Rounded) :=
  r ← rollup float fromisoformat now_utc (runs_for x t); Ok (r, rounded r).
Definition all_runs (x : Index) : list values := sort_by run_leb (all_runs_of (by_task (views x))).

(** ** What the views describe

    [c] gives the runs of every task, in order.  The views are functions of [c]; one pass of the loop replaces [c] at one task. *)

Definition entry (l : list values) : option (list values) := match l with [] => None | _ => Some l end.
Definition ids_of (r : values) : gset string := match run_claim_request_ids r with Ok s => s | Err _ => ∅ end.
(** The runs of a task that once recorded a claim request, under one run id; the last of them is the candidate. *)
Definition claims_of (id k : string) (rs : list values) : list values := filter (fun r => is_remote r = true /\ id ∈ ids_of r /\ run_id r = k) rs.
Definition add_totals (a b : Totals) : Totals :=
  {| t_runs := t_runs a + t_runs b; t_cost := t_cost a + t_cost b; t_input := t_input a + t_input b; t_output := t_output a + t_output b;
     t_cache_read := t_cache_read a + t_cache_read b |}.
Definition sum_totals (m : gmap string Totals) : Totals := map_fold (fun _ x acc => add_totals x acc) empty_totals m.
Definition put {A} (t : string) (a : A) (c : string -> A) : string -> A := fun t' => if decide (t' = t) then a else c t'.

Lemma round_half_even_int q z : (q == inject_Z z)%Q -> round_half_even q = z.
Proof.
  intros H. unfold round_half_even. assert (Hf : Qfloor q = z) by (rewrite (Qfloor_comp _ _ H); apply Qfloor_Z). rewrite Hf.
  assert (Hc : (q - inject_Z z ?= 1 # 2)%Q = Lt) by (rewrite <- Qlt_alt; rewrite H; ring_simplify; reflexivity). by rewrite Hc.
Qed.
Lemma adjust_totals_eq s old new : adjust_totals (add_totals old s) old new = add_totals new s.
Proof.
  unfold adjust_totals, add_totals. cbn. f_equal; try lia. unfold round4. apply round_half_even_int.
  unfold of_units4, Qeq, Qmult, Qplus, Qminus, Qopp, inject_Z. cbn. lia.
Qed.

Lemma sum_totals_delete t (m : gmap string Totals) : sum_totals m = add_totals (default empty_totals (m !! t)) (sum_totals (delete t m)).
Proof.
  assert (Hz : forall a, add_totals empty_totals a = a) by (intros []; unfold add_totals; cbn; done).
  destruct (m !! t) as [x|] eqn:Hm; cbn [default]; [|by rewrite Hz, delete_id].
  unfold sum_totals. rewrite (map_fold_delete_L _ _ t x m); [done| |done].
  intros j1 j2 z1 z2 y _ _ _. unfold add_totals. cbn. f_equal; lia.
Qed.
Lemma sum_totals_insert t x (m : gmap string Totals) : sum_totals (<[t := x]> m) = add_totals x (sum_totals (delete t m)).
Proof. rewrite (sum_totals_delete t), lookup_insert_eq. cbn [default]. by rewrite delete_insert_eq. Qed.

Section views.
Context (float : pyval -> result exn Q) (fromisoformat : string -> result exn Q) (now_utc : Q).

(** A record the index can hold: it is filed under its own task, and its request ids and its usage can be read. *)
Definition countable (r : values) : Prop := forall tot, is_Ok (rollup_add float fromisoformat now_utc tot r) = true.
Definition usable (t : string) (r : values) : Prop := task_id r = t /\ is_Ok (run_claim_request_ids r) = true /\ countable r.
Definition totals_of (rs : list values) : Totals := match totals float fromisoformat now_utc rs with Ok x => x | Err _ => empty_totals end.

Record describes (c : string -> list values) (v : Views) : Prop := {
  d_usable t : Forall (usable t) (c t);
  d_by_task t : by_task v !! t = entry (c t);
  d_active t : active_by_task v !! t = filter (fun r => is_active r = true) <$> entry (c t);
  d_totals t : totals_by_task v !! t = totals_of <$> entry (c t);
  d_all_totals : all_totals v = sum_totals (totals_by_task v);
  d_claims_nonempty id m : claim_candidates v !! id = Some m -> m <> ∅;
  d_claims id t k : default ∅ (claim_candidates v !! id) !! (t, k) = last (claims_of id k (c t));
  d_requests id : by_claim_request v !! id = first_candidate (default ∅ (claim_candidates v !! id)) }.

Lemma default_nonempty (o o' : option candidates) :
  (forall m, o = Some m -> m <> ∅) -> (forall m, o' = Some m -> m <> ∅) -> default ∅ o = default ∅ o' -> o = o'.
Proof. destruct o as [m|], o' as [m'|]; cbn; intros H H'; [by intros ->|intros E; by destruct (H m eq_refl)|intros E; by destruct (H' m' eq_refl)|done]. Qed.

(** The views are determined by the runs. *)
Lemma describes_unique c c' v v' : (forall t, c t = c' t) -> describes c v -> describes c' v' -> v = v'.
Proof.
  intros Hc H H'. assert (H1 : by_task v = by_task v') by (apply map_eq; intros t; by rewrite (d_by_task _ _ H), (d_by_task _ _ H'), Hc).
  assert (H2 : active_by_task v = active_by_task v') by (apply map_eq; intros t; by rewrite (d_active _ _ H), (d_active _ _ H'), Hc).
  assert (H3 : totals_by_task v = totals_by_task v') by (apply map_eq; intros t; by rewrite (d_totals _ _ H), (d_totals _ _ H'), Hc).
  assert (H4 : claim_candidates v = claim_candidates v').
  { apply map_eq; intros id. apply default_nonempty; [intros m; apply (d_claims_nonempty _ _ H)|intros m; apply (d_claims_nonempty _ _ H')|].
    apply map_eq. intros [t k]. by rewrite (d_claims _ _ H), (d_claims _ _ H'), Hc. }
  assert (H5 : by_claim_request v = by_claim_request v') by (apply map_eq; intros id; by rewrite (d_requests _ _ H), (d_requests _ _ H'), H4).
  assert (H6 : all_totals v = all_totals v') by (by rewrite (d_all_totals _ _ H), (d_all_totals _ _ H'), H3).
  destruct v, v'. cbn in *. congruence.
Qed.

Lemma describes_empty : describes (fun _ => []) empty_views.
Proof.
  split; cbn; intros; try done; try by rewrite lookup_empty.
Qed.

(** *** Reading the records does not fail *)

Lemma foldR_countable rs tot : Forall countable rs -> is_Ok (foldR (rollup_add float fromisoformat now_utc) rs tot) = true.
Proof.
  intros H. revert tot. induction H as [|r rs Hr _ IH]; intros tot; cbn; [done|]. specialize (Hr tot).
  destruct (rollup_add _ _ _ tot r) as [tot'|e]; [apply IH|done].
Qed.
Lemma totals_Ok t rs : Forall (usable t) rs -> totals float fromisoformat now_utc rs = Ok (totals_of rs).
Proof.
  intros H. unfold totals_of, totals, rollup. assert (Hc : Forall countable rs) by (eapply Forall_impl; [exact H|]; by intros r (_ & _ & ?)).
  apply (foldR_countable rs {| r_runs := Z.of_nat (List.length rs); r_input := 0; r_output := 0; r_cache_read := 0; r_cache_creation := 0; r_cost := 0%Q; r_minutes := 0%Q; r_modes := ∅ |}) in Hc.
  by destruct (foldR _ rs _).
Qed.
Lemma run_ids_Ok t r : usable t r -> run_claim_request_ids r = Ok (ids_of r).
Proof. intros (_ & H & _). unfold ids_of. by destruct (run_claim_request_ids r). Qed.
Lemma claim_request_ids_Ok t rs : Forall (usable t) rs ->
  exists s, claim_request_ids rs = Ok s /\ forall id, id ∈ s <-> exists r, r ∈ rs /\ is_remote r = true /\ id ∈ ids_of r.
Proof.
  induction 1 as [|r rs Hr _ (s & Hs & IH)]; cbn [claim_request_ids].
  { exists ∅. split; [done|]. intros id. split; [set_solver|]. intros (r & Hr & _). by apply elem_of_nil in Hr. }
  rewrite (run_ids_Ok t r Hr). destruct (is_remote r) eqn:Hrem.
  - rewrite Hs. exists (ids_of r ∪ s). split; [done|]. intros id. rewrite elem_of_union, IH. split.
    + intros [Hid|(r' & H1 & H2)]; [exists r; split; [by left|done]|exists r'; split; [by right|done]].
    + intros (r' & [->|Hr']%elem_of_cons & H2 & H3); [by left|right; eauto].
  - exists s. split; [done|]. intros id. rewrite IH. split; [intros (r' & ? & ?); exists r'; split; [by right|done]|].
    intros (r' & [->|Hr']%elem_of_cons & H2 & H3); [congruence|eauto].
Qed.

(** *** The statements of the loop *)

Lemma forW_app {A} (f : A -> W unit) l1 l2 v :
  forW f (l1 ++ l2) v = match forW f l1 v with (Ok _, v') => forW f l2 v' | (Err e, v') => (Err e, v') end.
Proof.
  revert v. induction l1 as [|a l1 IH]; intros v; [done|]. cbn [forW app]. unfold mbind, W_bind.
  destruct (f a v) as [[[]|e] v']; [apply IH|done].
Qed.

Definition pruned (t : string) (c : candidates) : candidates := filter (fun kr => kr.1.1 <> t) c.
Definition prune (t : string) (o : option candidates) : option candidates :=
  match o with Some c => if decide (pruned t c = ∅) then None else Some (pruned t c) | None => None end.
Lemma pruned_prune (t : string) o : default ∅ (prune t o) = pruned t (default ∅ o).
Proof. destruct o as [c|]; cbn; [by destruct (decide _) as [->|]|]. symmetry. apply map_filter_empty. Qed.
Lemma prune_nonempty t o m : prune t o = Some m -> m <> ∅.
Proof. destruct o as [c|]; cbn; [|done]. destruct (decide _) as [|H]; [done|]. by intros [= <-]. Qed.
Lemma pruned_lookup (t : string) (c : candidates) (t' k : string) : pruned t c !! (t', k) = if decide (t' = t) then None else c !! (t', k).
Proof.
  unfold pruned. destruct (decide _) as [->|Hne].
  - apply map_lookup_filter_None. right. intros x _ H. by apply H.
  - destruct (c !! (t', k)) as [r|] eqn:E; [by apply map_lookup_filter_Some_2|]. apply map_lookup_filter_None. by left.
Qed.

Lemma forget_all t l v :
  NoDup l -> (forall id, id ∈ l -> is_Some (claim_candidates v !! id)) ->
  exists m, forW (forget_candidate t) l v = (Ok tt, set_claims (fun _ => m) v) /\
    forall id, m !! id = if decide (id ∈ l) then prune t (claim_candidates v !! id) else claim_candidates v !! id.
Proof.
  revert v. induction l as [|id l IH]; intros v Hnd Hs.
  { exists (claim_candidates v). split; [by destruct v|]. intros id. destruct (decide _) as [H|]; [by apply elem_of_nil in H|done]. }
  apply NoDup_cons in Hnd as [Hid Hnd]. destruct (Hs id) as [c Hc]; [by left|]. cbn [forW]. unfold mbind, W_bind.
  unfold forget_candidate at 1. unfold mbind, W_bind, getW. rewrite Hc. unfold modifyW. fold (pruned t c).
  set (v1 := set_claims (fun m => if bool_decide (pruned t c = ∅) then delete id m else <[id := pruned t c]> m) v).
  assert (H1 : forall id', claim_candidates v1 !! id' = if decide (id' = id) then prune t (Some c) else claim_candidates v !! id').
  { intros id'. unfold v1, prune. cbn. destruct (decide (pruned t c = ∅)) as [He|He]; [rewrite bool_decide_true by done|rewrite bool_decide_false by done].
    - destruct (decide (id' = id)) as [->|]; [apply lookup_delete_eq|by rewrite lookup_delete_ne].
    - destruct (decide (id' = id)) as [->|]; [apply lookup_insert_eq|by rewrite lookup_insert_ne]. }
  destruct (IH v1 Hnd) as (m & Hm & Hl).
  { intros id' Hid'. rewrite H1. destruct (decide (id' = id)) as [->|]; [done|]. apply Hs. by right. }
  exists m. split; [rewrite Hm; by destruct v|]. intros id'. rewrite Hl, H1. destruct (decide (id' = id)) as [->|Hne].
  - rewrite (decide_False (P := id ∈ l)) by done. rewrite (decide_True (P := id ∈ id :: l)) by left. by rewrite Hc.
  - destruct (decide (id' ∈ l)); [rewrite decide_True by (by right)|rewrite decide_False by (by intros [|]%elem_of_cons)]; done.
Qed.

Lemma add_ids t r l v :
  NoDup l -> exists m, forW (add_candidate t r) l v = (Ok tt, set_claims (fun _ => m) v) /\
    forall id, m !! id = if decide (id ∈ l) then Some (<[(t, run_id r) := r]> (default ∅ (claim_candidates v !! id))) else claim_candidates v !! id.
Proof.
  revert v. induction l as [|id l IH]; intros v Hnd.
  { exists (claim_candidates v). split; [by destruct v|]. intros id. destruct (decide _) as [H|]; [by apply elem_of_nil in H|done]. }
  apply NoDup_cons in Hnd as [Hid Hnd]. cbn [forW]. unfold mbind, W_bind. unfold add_candidate at 1, modifyW.
  match goal with |- context [forW _ l ?v'] => set (v1 := v') end. destruct (IH v1 Hnd) as (m & Hm & Hl). exists m.
  split; [rewrite Hm; by destruct v|]. intros id'. rewrite Hl. unfold v1. cbn. destruct (decide (id' = id)) as [->|Hne].
  - rewrite (decide_False (P := id ∈ l)) by done. rewrite (decide_True (P := id ∈ id :: l)) by left. apply lookup_insert_eq.
  - rewrite lookup_insert_ne by done. destruct (decide (id' ∈ l)); [rewrite decide_True by (by right)|rewrite decide_False by (by intros [|]%elem_of_cons)]; done.
Qed.

Definition all_nonempty (m : gmap string candidates) : Prop := forall id c, m !! id = Some c -> c <> ∅.
(** What one run, or a list of runs, leaves under a key *)
Definition overlay (t : string) (rs : list values) (before : candidates) (id t' k : string) : option values :=
  if decide (t' = t) then match last (claims_of id k rs) with Some r => Some r | None => before !! (t', k) end else before !! (t', k).

Lemma claims_of_cons id k r rs :
  claims_of id k (r :: rs) = if decide (is_remote r = true /\ id ∈ ids_of r /\ run_id r = k) then r :: claims_of id k rs else claims_of id k rs.
Proof. unfold claims_of. rewrite filter_cons. by repeat case_decide. Qed.
Lemma last_cons_default {A} (x : A) l : last (x :: l) = match last l with Some y => Some y | None => Some x end.
Proof. by rewrite last_cons. Qed.

Lemma add_run t r v :
  usable t r -> all_nonempty (claim_candidates v) ->
  exists m, add_candidates t r v = (Ok tt, set_claims (fun _ => m) v) /\ all_nonempty m /\
    forall id t' k, default ∅ (m !! id) !! (t', k) = overlay t [r] (default ∅ (claim_candidates v !! id)) id t' k.
Proof.
  intros Hu Hne. unfold add_candidates. destruct (is_remote r) eqn:Hrem.
  - rewrite (run_ids_Ok t r Hu). unfold mbind, W_bind. unfold liftW. destruct (add_ids t r (elements (ids_of r)) v (NoDup_elements _)) as (m & Hm & Hl).
    exists m. split; [exact Hm|]. split.
    + intros id c. rewrite Hl. destruct (decide _); [intros [= <-]; apply insert_non_empty|apply Hne].
    + intros id t' k. rewrite Hl. unfold overlay. rewrite claims_of_cons. cbn [claims_of]. destruct (decide (id ∈ elements (ids_of r))) as [Hi|Hi]; rewrite elem_of_elements in Hi.
      * match goal with |- default _ (Some ?x) !! _ = _ => change (default ∅ (Some x)) with x end. destruct (decide (t' = t)) as [->|Ht]; [|by rewrite lookup_insert_ne by congruence].
        destruct (decide (run_id r = k)) as [<-|Hk]; [rewrite lookup_insert_eq, decide_True by done; done|].
        rewrite lookup_insert_ne by congruence. by rewrite (decide_False (P := is_remote r = true /\ _)) by naive_solver.
      * rewrite (decide_False (P := is_remote r = true /\ _)) by naive_solver. cbn. by destruct (decide (t' = t)).
  - exists (claim_candidates v). split; [by destruct v|]. split; [done|]. intros id t' k. unfold overlay. rewrite claims_of_cons.
    rewrite (decide_False (P := is_remote r = true /\ _)) by (rewrite Hrem; naive_solver). cbn. by destruct (decide (t' = t)).
Qed.

Lemma add_runs t rs v :
  Forall (usable t) rs -> all_nonempty (claim_candidates v) ->
  exists m, forW (add_candidates t) rs v = (Ok tt, set_claims (fun _ => m) v) /\ all_nonempty m /\
    forall id t' k, default ∅ (m !! id) !! (t', k) = overlay t rs (default ∅ (claim_candidates v !! id)) id t' k.
Proof.
  intros Hu. revert v. induction Hu as [|r rs Hr _ IH]; intros v Hne.
  { exists (claim_candidates v). split; [by destruct v|]. split; [done|]. intros. unfold overlay. cbn. by destruct (decide _). }
  cbn [forW]. unfold mbind, W_bind. destruct (add_run t r v Hr Hne) as (m1 & -> & Hne1 & Hl1).
  destruct (IH (set_claims (fun _ => m1) v) Hne1) as (m & Hm & Hnem & Hl). exists m. split; [rewrite Hm; by destruct v|]. split; [done|].
  intros id t' k. rewrite Hl. cbn [claim_candidates set_claims]. unfold overlay. rewrite !Hl1. unfold overlay. rewrite !claims_of_cons.
  destruct (decide (t' = t)); [|done]. destruct (decide (is_remote r = true /\ id ∈ ids_of r /\ run_id r = k)).
  - rewrite !last_cons_default. by destruct (last (claims_of id k rs)).
  - by destruct (last (claims_of id k rs)).
Qed.

Lemma choose_all l v :
  NoDup l -> exists m, forW choose_candidate l v = (Ok tt, set_requests (fun _ => m) v) /\
    forall id, m !! id = if decide (id ∈ l) then first_candidate (default ∅ (claim_candidates v !! id)) else by_claim_request v !! id.
Proof.
  revert v. induction l as [|id l IH]; intros v Hnd.
  { exists (by_claim_request v). split; [by destruct v|]. intros id. destruct (decide _) as [H|]; [by apply elem_of_nil in H|done]. }
  apply NoDup_cons in Hnd as [Hid Hnd]. cbn [forW]. unfold mbind, W_bind. unfold choose_candidate at 1, mbind, W_bind, getW.
  set (o := first_candidate (default ∅ (claim_candidates v !! id))).
  set (v1 := set_requests (fun m => match o with Some r => <[id := r]> m | None => delete id m end) v).
  assert (Hv1 : match o with Some r => modifyW (set_requests (insert id r)) | None => modifyW (set_requests (delete id)) end v = (Ok tt, v1)).
  { unfold v1. by destruct o. }
  rewrite Hv1. destruct (IH v1 Hnd) as (m & Hm & Hl). exists m. split; [rewrite Hm; by destruct v|]. intros id'. rewrite Hl. unfold v1. cbn.
  destruct (decide (id' = id)) as [->|Hne].
  - rewrite (decide_False (P := id ∈ l)) by done. rewrite (decide_True (P := id ∈ id :: l)) by left. fold o. destruct o; [apply lookup_insert_eq|apply lookup_delete_eq].
  - destruct (decide (id' ∈ l)); [rewrite decide_True by (by right)|rewrite decide_False by (by intros [|]%elem_of_cons)]; [done|].
    destruct o; [by rewrite lookup_insert_ne|by rewrite lookup_delete_ne].
Qed.

Lemma put_runs_spec t rs v :
  Forall (usable t) rs -> exists bt ab tt_, put_runs float fromisoformat now_utc t rs v
    = (Ok tt, {| by_task := bt; by_claim_request := by_claim_request v; claim_candidates := claim_candidates v; active_by_task := ab; totals_by_task := tt_; all_totals := all_totals v |}) /\
    (forall t', bt !! t' = if decide (t' = t) then entry rs else by_task v !! t') /\
    (forall t', ab !! t' = if decide (t' = t) then filter (fun r => is_active r = true) <$> entry rs else active_by_task v !! t') /\
    (forall t', tt_ !! t' = if decide (t' = t) then totals_of <$> entry rs else totals_by_task v !! t') /\ delete t tt_ = delete t (totals_by_task v).
Proof.
  intros Hu. destruct rs as [|r rs].
  - exists (delete t (by_task v)), (delete t (active_by_task v)), (delete t (totals_by_task v)). split; [done|].
    repeat split; try (intros t'; destruct (decide (t' = t)) as [->|]; [apply lookup_delete_eq|by apply lookup_delete_ne]). by rewrite delete_delete_eq.
  - unfold put_runs. rewrite (totals_Ok t (r :: rs) Hu).
    exists (<[t := r :: rs]> (by_task v)), (<[t := filter (fun r => is_active r = true) (r :: rs)]> (active_by_task v)), (<[t := totals_of (r :: rs)]> (totals_by_task v)).
    split; [done|]. repeat split; try (intros t'; destruct (decide (t' = t)) as [->|]; [apply lookup_insert_eq|by apply lookup_insert_ne]). apply delete_insert_eq.
Qed.

Lemma claims_of_elem id k rs r : r ∈ claims_of id k rs -> r ∈ rs /\ is_remote r = true /\ id ∈ ids_of r.
Proof. intros H. apply list_elem_of_filter in H as [(? & ? & _) ?]. done. Qed.
Lemma last_claims_None id k rs : (forall r, r ∈ rs -> is_remote r = true -> id ∉ ids_of r) -> last (claims_of id k rs) = None.
Proof.
  intros H. apply last_None. destruct (claims_of id k rs) as [|r l] eqn:E; [done|]. exfalso.
  assert (Hr : r ∈ claims_of id k rs) by (rewrite E; by left). apply claims_of_elem in Hr as (H1 & H2 & H3). by apply (H r).
Qed.

(** What is left of the claims of one task after they are forgotten *)
Lemma forgotten c v t (s : gset string) m :
  describes c v -> (forall id, id ∈ s <-> exists r, r ∈ c t /\ is_remote r = true /\ id ∈ ids_of r) ->
  (forall id, m !! id = if decide (id ∈ s) then prune t (claim_candidates v !! id) else claim_candidates v !! id) ->
  all_nonempty m /\ forall id t' k, default ∅ (m !! id) !! (t', k) = if decide (t' = t) then None else last (claims_of id k (c t')).
Proof.
  intros Hd Hs Hm. split.
  - intros id x. rewrite Hm. destruct (decide _); [apply prune_nonempty|apply (d_claims_nonempty _ _ Hd)].
  - intros id t' k. rewrite Hm. destruct (decide (id ∈ s)) as [Hi|Hi].
    + rewrite pruned_prune, pruned_lookup. destruct (decide _); [done|]. apply (d_claims _ _ Hd).
    + rewrite (d_claims _ _ Hd). destruct (decide (t' = t)) as [->|]; [|done]. apply last_claims_None.
      intros r Hr Hrem Hid. apply Hi, Hs. eauto.
Qed.
Lemma affected_present c v t (s : gset string) id :
  describes c v -> (forall id, id ∈ s <-> exists r, r ∈ c t /\ is_remote r = true /\ id ∈ ids_of r) -> id ∈ s -> is_Some (claim_candidates v !! id).
Proof.
  intros Hd Hs (r & Hr & Hrem & Hid)%Hs. destruct (claim_candidates v !! id) eqn:E; [by eexists|]. exfalso.
  assert (Hl := d_claims _ _ Hd id t (run_id r)). rewrite E in Hl. cbn in Hl. rewrite lookup_empty in Hl. symmetry in Hl. apply last_None in Hl.
  assert (Hin : r ∈ claims_of id (run_id r) (c t)) by (by apply list_elem_of_filter). rewrite Hl in Hin. by apply elem_of_nil in Hin.
Qed.

Lemma claims_overlay c t rs id t' k before :
  before = (if decide (t' = t) then None else last (claims_of id k (c t'))) ->
  (if decide (t' = t) then match last (claims_of id k rs) with Some r => Some r | None => before end else before) = last (claims_of id k (put t rs c t')).
Proof. intros ->. unfold put. destruct (decide (t' = t)); [by destruct (last _)|done]. Qed.

Lemma update_task_describes c v t live_runs archived_runs :
  describes c v -> Forall (usable t) (live_runs ++ archived_runs) ->
  exists v', update_task float fromisoformat now_utc t live_runs archived_runs v = (Ok tt, v') /\
    describes (put t (sort_by run_leb (live_runs ++ archived_runs)) c) v'.
Proof.
  intros Hd Hu0. set (rs := sort_by run_leb (live_runs ++ archived_runs)).
  assert (Hu : Forall (usable t) rs) by (unfold rs; by rewrite sort_by_Permutation).
  assert (Hold : default [] (by_task v !! t) = c t) by (rewrite (d_by_task _ _ Hd); by destruct (c t)).
  destruct (claim_request_ids_Ok t (c t) (d_usable _ _ Hd t)) as (s & Hs & Hse). destruct (claim_request_ids_Ok t rs Hu) as (s' & Hs' & Hse').
  destruct (forget_all t (elements s) v (NoDup_elements _)) as (m1 & Hf & Hm1).
  { intros id Hid%elem_of_elements. by apply (affected_present c v t s). }
  destruct (forgotten c v t s m1 Hd Hse) as [Hne1 Hl1].
  { intros id. rewrite Hm1. destruct (decide (id ∈ elements s)) as [H|H]; rewrite elem_of_elements in H; [by rewrite decide_True|by rewrite decide_False]. }
  destruct (put_runs_spec t rs (set_claims (fun _ => m1) v) Hu) as (bt & ab & tt_ & Hp & Hbt & Hab & Htt & Hdel).
  set (v3 := {| by_task := bt; by_claim_request := by_claim_request v; claim_candidates := m1; active_by_task := ab; totals_by_task := tt_;
                all_totals := adjust_totals (all_totals v) (default empty_totals (totals_by_task v !! t)) (default empty_totals (tt_ !! t)) |}).
  destruct (add_runs t rs v3 Hu Hne1) as (m4 & Ha & Hne4 & Hl4).
  destruct (choose_all (elements (s ∪ s')) (set_claims (fun _ => m4) v3) (NoDup_elements _)) as (m5 & Hc & Hm5).
  exists (set_requests (fun _ => m5) (set_claims (fun _ => m4) v3)). split.
  { unfold update_task, mbind, W_bind, getW, liftW. fold rs. rewrite Hold, Hs, Hf, Hp. unfold modifyW. rewrite Hs'.
    match goal with |- context [forW (add_candidates t) rs ?x] => change x with v3 end. rewrite Ha. exact Hc. }
  assert (Hl : forall id t' k, default ∅ (m4 !! id) !! (t', k) = last (claims_of id k (put t rs c t'))).
  { intros id t' k. rewrite Hl4. unfold overlay. apply claims_overlay, Hl1. }
  cbn [by_task active_by_task totals_by_task all_totals set_claims] in *.
  split; cbn [set_requests set_claims v3 by_task by_claim_request claim_candidates active_by_task totals_by_task all_totals].
  - intros t'. unfold put. destruct (decide (t' = t)) as [->|]; [done|apply (d_usable _ _ Hd)].
  - intros t'. rewrite Hbt. unfold put. destruct (decide _); [done|apply (d_by_task _ _ Hd)].
  - intros t'. rewrite Hab. unfold put. destruct (decide _); [done|apply (d_active _ _ Hd)].
  - intros t'. rewrite Htt. unfold put. destruct (decide _); [done|apply (d_totals _ _ Hd)].
  - rewrite (d_all_totals _ _ Hd), (sum_totals_delete t (totals_by_task v)), (sum_totals_delete t tt_), Hdel. apply adjust_totals_eq.
  - exact Hne4.
  - exact Hl.
  - intros id. rewrite Hm5. cbn [set_claims claim_candidates by_claim_request v3]. destruct (decide _) as [|Hn]; [done|].
    rewrite elem_of_elements, not_elem_of_union in Hn. destruct Hn as [Hn1 Hn2]. rewrite (d_requests _ _ Hd). f_equal.
    apply map_eq. intros [t' k]. rewrite Hl, (d_claims _ _ Hd). unfold put. destruct (decide (t' = t)) as [->|]; [|done].
    rewrite !last_claims_None; [done|intros r Hr Hrem Hid; apply Hn2, Hse'; eauto|intros r Hr Hrem Hid; apply Hn1, Hse; eauto].
Qed.

Lemma describes_ext c c' v : (forall t, c t = c' t) -> describes c v -> describes c' v.
Proof.
  intros He [H1 H2 H3 H4 H5 H6 H7 H8].
  split; [intros t; rewrite <- He; apply H1|intros t; rewrite <- He; apply H2|intros t; rewrite <- He; apply H3|intros t; rewrite <- He; apply H4|exact H5|exact H6|intros id t k; rewrite <- He; apply H7|exact H8].
Qed.

Lemma update_tasks_describe (f g : string -> list values) l c v :
  describes c v -> (forall t, t ∈ l -> Forall (usable t) (f t ++ g t)) ->
  exists v', forW (fun t => update_task float fromisoformat now_utc t (f t) (g t)) l v = (Ok tt, v') /\
    describes (fun t => if decide (t ∈ l) then sort_by run_leb (f t ++ g t) else c t) v'.
Proof.
  revert c v. induction l as [|t l IH]; intros c v Hd Hu.
  { exists v. split; [done|]. apply (describes_ext c); [|done]. intros t. destruct (decide _) as [H|]; [by apply elem_of_nil in H|done]. }
  destruct (update_task_describes c v t (f t) (g t) Hd) as (v1 & Hv1 & Hd1); [apply Hu; by left|].
  destruct (IH _ v1 Hd1) as (v' & Hv' & Hd'); [intros t' Ht'; apply Hu; by right|].
  exists v'. split; [cbn [forW]; unfold mbind, W_bind; by rewrite Hv1|]. apply (describes_ext _ _ _) with (2 := Hd'). intros t'. unfold put.
  destruct (decide (t' ∈ l)); [rewrite decide_True by (by right); done|]. destruct (decide (t' = t)) as [->|]; [rewrite decide_True by left; done|].
  rewrite decide_False by (by intros [|]%elem_of_cons). done.
Qed.
End views.
