(* ===== verification/RunIndexFresh.v ===== *)
(** * The incremental index is the index rebuilt from scratch ([runs.py], [_refresh_index])

    Other processes replace run records and touch the task directories while this one holds its index; archive transactions run
    to their end under a lock that a refresh waits for ([archive_change]).  However these interleave, a refresh that finds no write half done
    leaves exactly the views that a new process would build.  What is relied on: the file system gives a touched directory, or a replaced file, a
    later modification time than any seen before ([clock]); a write of this process marks its task, whatever the stamp; every record and ledger can be read, and the
    usage of every record added up.  Without these it can fail: an archive transaction that is interrupted hides a run from an index that is refreshed later
    ([interrupted_archive_hides_run]), and a record whose usage cannot be read breaks the index for good ([unreadable_usage_poisons_index]). *)

From Stdlib Require Import QArith.
From S2P Require Import Prelude PyValue StateStore RunRecords RunIndex.

#[local] Open Scope list_scope.
#[local] Open Scope Z_scope.

(** ** The clock does not enter the totals *)

Section now.
Context (float : pyval -> result exn Q) (fromisoformat : string -> result exn Q).

Lemma rollup_add_now n1 n2 tot r : rollup_add float fromisoformat n1 tot r = rollup_add float fromisoformat n2 tot r.
Proof. unfold rollup_add, elapsed_minutes. destruct (nonempty (text "finished_at" r)) eqn:E; [|done]. by rewrite ?E. Qed.
Lemma rollup_now n1 n2 rs : rollup float fromisoformat n1 rs = rollup float fromisoformat n2 rs.
Proof.
  unfold rollup. generalize {| r_runs := Z.of_nat (List.length rs); r_input := 0; r_output := 0; r_cache_read := 0; r_cache_creation := 0; r_cost := 0%Q; r_minutes := 0%Q; r_modes := ∅ |}.
  induction rs as [|r rs IH]; intros tot; cbn; [done|]. rewrite (rollup_add_now n1 n2). destruct (rollup_add _ _ n2 tot r); cbn; auto.
Qed.
Lemma usable_now n1 n2 t r : usable float fromisoformat n1 t r -> usable float fromisoformat n2 t r.
Proof. intros (H1 & H2 & H3). split; [done|]. split; [done|]. intros tot. rewrite (rollup_add_now n2 n1). apply H3. Qed.
Lemma describes_now n1 n2 c v : describes float fromisoformat n1 c v -> describes float fromisoformat n2 c v.
Proof.
  intros [H1 H2 H3 H4 H5 H6 H7 H8]. split; try done.
  - intros t. eapply Forall_impl; [apply H1|]. intros r. apply usable_now.
  - intros t. rewrite H4. destruct (entry (c t)) as [rs|]; [|done]. cbn. f_equal. unfold totals_of, totals. by rewrite (rollup_now n1 n2).
Qed.
End now.

(** ** What a disk holds *)

Definition live_runs (d : Disk) (t : string) : list values := match stamps d !! t with Some _ => read_task_runs d t | None => [] end.
Definition archived_runs_of (d : Disk) (t : string) : list values :=
  match ledger d with
  | OldLedger rows => filter (fun r => task_id r = t) rows
  | Ledger2 tasks => if decide (t ∈ tasks.*1) then default [] (buckets d !! t) else []
  | _ => []
  end.
(** The runs of a task, in order: what every refresh is to show *)
Definition content (d : Disk) (t : string) : list values := sort_by run_leb (live_runs d t ++ archived_runs_of d t).

Section sync.
Context (float : pyval -> result exn Q) (fromisoformat : string -> result exn Q).
#[local] Abbreviation usable_run := (usable float fromisoformat 0%Q).

(** No archive transaction is half done, and every record can be read. *)
Record settled (d : Disk) : Prop := {
  s_pending : pending d = false;
  s_ledger : match ledger d with NoLedger => archive_entries d = false | BadLedger => False | OldLedger _ => True
             | Ledger2 tasks => NoDup tasks.*1 /\ forall t, t ∈ tasks.*1 -> is_Some (buckets d !! t) end;
  s_live t : Forall (usable_run t) (read_task_runs d t);
  s_archived t : Forall (usable_run t) (archived_runs_of d t) }.

Lemma live_usable d t : settled d -> Forall (usable_run t) (live_runs d t).
Proof. intros H. unfold live_runs. destruct (stamps d !! t); [apply (s_live d H)|constructor]. Qed.

Lemma group_by_task_app l1 l2 :
  group_by_task (l1 ++ l2) = foldl (fun m r => partial_alter (fun o => Some (default [] o ++ [r])) (task_id r) m) (group_by_task l1) l2.
Proof. unfold group_by_task. by rewrite foldl_app. Qed.
Lemma group_by_task_lookup rs t : default [] (group_by_task rs !! t) = filter (fun r => task_id r = t) rs.
Proof.
  induction rs as [|r rs IH] using rev_ind; [cbn; by rewrite lookup_empty|]. rewrite group_by_task_app, filter_app. cbn [foldl].
  rewrite filter_cons, filter_nil. destruct (decide (task_id r = t)) as [<-|Hne].
  - rewrite lookup_partial_alter_eq. cbn. by rewrite IH.
  - rewrite lookup_partial_alter_ne by done. by rewrite IH, app_nil_r.
Qed.

Lemma prints_settled d : settled d -> exists p, archive_task_fingerprints_of d = Ok p.
Proof. intros H. unfold archive_task_fingerprints_of. pose proof (s_ledger d H) as Hl. destruct (ledger d); [eauto|done|eauto|eauto]. Qed.

Lemma filter_task t (rs : list values) : Forall (usable_run t) rs -> filter (fun r => task_id r = t) rs = rs.
Proof. induction 1 as [|r rs (Hr & _) _ IH]; [done|]. by rewrite filter_cons, decide_True, IH. Qed.
Lemma filter_other t t' (rs : list values) : t <> t' -> Forall (usable_run t') rs -> filter (fun r => task_id r = t) rs = [].
Proof.
  intros Hne. induction 1 as [|r rs (Hr & _) _ IH]; [done|]. rewrite filter_cons, IH. by rewrite decide_False by (rewrite Hr; done).
Qed.

(** ** The archive of a settled disk is read completely *)

Lemma buckets_concat d names :
  NoDup names -> (forall t, t ∈ names -> exists rows, buckets d !! t = Some rows /\ Forall (usable_run t) rows) ->
  exists ls, mapR (archived_task_runs d) names = Ok ls /\
    forall t, filter (fun r => task_id r = t) (concat ls) = if decide (t ∈ names) then default [] (buckets d !! t) else [].
Proof.
  induction names as [|n names IH]; intros Hnd Hb.
  { exists []. split; [done|]. intros t. destruct (decide _) as [H|]; [by apply elem_of_nil in H|done]. }
  apply NoDup_cons in Hnd as [Hn Hnd]. destruct (IH Hnd) as (ls & Hls & Hl); [intros t Ht; apply Hb; by right|].
  destruct (Hb n) as (rows & Hrows & Hu); [by left|]. exists (rows :: ls). split.
  { assert (Hn' : archived_task_runs d n = Ok rows) by (unfold archived_task_runs; by rewrite Hrows). cbn [mapR]. by rewrite Hn', Hls. }
  intros t. cbn [concat]. rewrite filter_app, Hl. destruct (decide (t = n)) as [->|Hne].
  - rewrite (decide_False (P := n ∈ names)), (decide_True (P := n ∈ n :: names)), Hrows, filter_task by (done || by left). cbn. by rewrite app_nil_r.
  - rewrite (filter_other t n) by done. cbn [app]. destruct (decide (t ∈ names)); [rewrite decide_True by (by right)|rewrite decide_False by (by intros [|]%elem_of_cons)]; done.
Qed.

Lemma archived_runs_settled d : settled d -> exists rs, archived_runs d = Ok rs /\ forall t, filter (fun r => task_id r = t) rs = archived_runs_of d t.
Proof.
  intros H. unfold archived_runs. rewrite (s_pending d H). pose proof (s_ledger d H) as Hl. pose proof (s_archived d H) as Hu. unfold archived_runs_of in *.
  destruct (ledger d) as [| |rows|tasks]; [rewrite Hl; by exists []|done|by exists rows|]. destruct Hl as [Hnd Hb].
  destruct (buckets_concat d tasks.*1 Hnd) as (ls & -> & Hls); [|exists (concat ls); split; [done|exact Hls]].
  intros t Ht. destruct (Hb t Ht) as [rows Hrows]. exists rows. split; [done|]. specialize (Hu t). rewrite decide_True, Hrows in Hu by done. exact Hu.
Qed.

Lemma prints_lookup d p t : settled d -> archive_task_fingerprints_of d = Ok (Some p) ->
  match p !! t with
  | Some _ => archived_task_runs d t = Ok (archived_runs_of d t)
  | None => archived_runs_of d t = []
  end.
Proof.
  intros H. unfold archive_task_fingerprints_of, archived_task_runs, archived_runs_of. pose proof (s_ledger d H) as Hl.
  destruct (ledger d) as [| |rows|tasks]; [intros [= <-]; by rewrite lookup_empty|done|done|]. intros [= <-]. destruct Hl as [Hnd Hb].
  destruct (list_to_map tasks !! t) as [x|] eqn:E.
  - assert (Ht : t ∈ tasks.*1) by (apply elem_of_list_to_map_2 in E; apply list_elem_of_fmap; by exists (t, x)).
    rewrite decide_True by done. by destruct (Hb t Ht) as [rows ->].
  - rewrite decide_False; [done|]. by apply not_elem_of_list_to_map_2 in E.
Qed.

Lemma replace_buckets d p l m :
  settled d -> archive_task_fingerprints_of d = Ok (Some p) ->
  exists m', foldR (replace_bucket d p) l m = Ok m' /\ forall t, default [] (m' !! t) = if decide (t ∈ l) then archived_runs_of d t else default [] (m !! t).
Proof.
  intros H Hp. revert m. induction l as [|n l IH]; intros m.
  { exists m. split; [done|]. intros t. destruct (decide _) as [Ht|]; [by apply elem_of_nil in Ht|done]. }
  set (m1 := match archived_runs_of d n with [] => delete n m | runs => <[n := runs]> m end).
  assert (Hm1 : replace_bucket d p m n = Ok m1).
  { unfold replace_bucket, m1. pose proof (prints_lookup d p n H Hp) as Hn. destruct (p !! n); rewrite Hn; cbn; by destruct (archived_runs_of d n). }
  assert (Hl1 : forall t, default [] (m1 !! t) = if decide (t = n) then archived_runs_of d n else default [] (m !! t)).
  { intros t. unfold m1. destruct (archived_runs_of d n); destruct (decide (t = n)) as [->|]; rewrite ?lookup_delete_eq, ?lookup_insert_eq, ?lookup_delete_ne, ?lookup_insert_ne by done; done. }
  destruct (IH m1) as (m' & Hm' & Hl'). exists m'. split; [cbn [foldR]; rewrite Hm1; exact Hm'|]. intros t. rewrite Hl', Hl1.
  destruct (decide (t ∈ l)); [rewrite decide_True by (by right); done|]. destruct (decide (t = n)) as [->|]; [by rewrite decide_True by left|].
  by rewrite decide_False by (by intros [|]%elem_of_cons).
Qed.

(** ** What the index knows of the disk *)

Definition within (clock : Z) (d : Disk) (x : Index) : Prop :=
  (forall t st, stamps d !! t = Some st -> st.1 <= clock) /\ (forall t st, task_fingerprints x !! t = Some st -> st.1 <= clock) /\
  (forall st, ledger_stamp d = Some st -> st.1.1 <= clock) /\ (forall st, archive_fingerprint x = Some st -> st.1.1 <= clock) /\
  (forall n t st, archive_task_fingerprints_of d = Ok (Some n) -> n !! t = Some st -> st.1.1 <= clock) /\
  (forall o t st, archive_task_fingerprints x = Some o -> o !! t = Some st -> st.1.1 <= clock).
(** [recorded]: the run records that the views were built from.  Where no fingerprint tells otherwise they are still those on the disk;
    [untouched] are the tasks with a record replaced and the directory not yet touched. *)
Record synced (d : Disk) (untouched : gset string) (clock : Z) (x : Index) (recorded : string -> list values) : Prop := {
  y_views : describes float fromisoformat 0%Q (fun t => sort_by run_leb (recorded t ++ default [] (archived_by_task x !! t))) (views x);
  y_active : active x = active_view (views x);
  y_live t : stamps d !! t = task_fingerprints x !! t -> t ∉ untouched -> t ∉ dirty_tasks x -> recorded t = live_runs d t;
  y_cover t : default [] (archived_by_task x !! t) <> [] -> t ∈ map task_id (archived x);
  y_absent o t : archive_task_fingerprints x = Some o -> o !! t = None -> default [] (archived_by_task x !! t) = [];
  y_buckets o n t : archive_task_fingerprints x = Some o -> archive_task_fingerprints_of d = Ok (Some n) -> n !! t = o !! t ->
    default [] (archived_by_task x !! t) = archived_runs_of d t;
  y_ledger t : 0 <= built_generation x -> ledger_stamp d = archive_fingerprint x -> archive_dirty x = false ->
    default [] (archived_by_task x !! t) = archived_runs_of d t;
  y_initial : built_generation x < 0 -> task_fingerprints x = ∅;
  y_generation : 0 <= generation x;
  y_clock : within clock d x }.

Lemma changed_names_spec {V} `{EqDecision V} (a b : gmap string V) t : t ∈ changed_names a b <-> a !! t <> b !! t.
Proof.
  unfold changed_names. rewrite elem_of_filter, elem_of_union, !elem_of_dom. split; [by intros [? _]|]. intros H. split; [done|].
  destruct (a !! t) eqn:Ea; [left; by eexists|]. destruct (b !! t) eqn:Eb; [right; by eexists|done].
Qed.

Lemma all_runs_of_elem m t l r : m !! t = Some l -> r ∈ l -> r ∈ all_runs_of m.
Proof. intros Hm Hr. apply list_elem_of_In, in_concat. exists l. split; [|by apply list_elem_of_In]. apply list_elem_of_In, list_elem_of_fmap. exists (t, l). split; [done|]. by apply elem_of_map_to_list. Qed.

Lemma refresh_archive_spec d U clock x recorded p :
  settled d -> synced d U clock x recorded -> archive_task_fingerprints_of d = Ok p ->
  exists rs m touched, refresh_archive d p x = Ok (rs, m, touched) /\ (forall t, default [] (m !! t) = archived_runs_of d t) /\
    (forall t, t ∉ touched -> default [] (archived_by_task x !! t) = archived_runs_of d t) /\
    (forall t, archived_runs_of d t <> [] -> t ∈ map task_id rs).
Proof.
  intros Hs Hy Hp. unfold refresh_archive.
  assert (Hfull : exists rs, archived_runs d = Ok rs /\ (forall t, default [] (group_by_task rs !! t) = archived_runs_of d t) /\
    (forall t, archived_runs_of d t <> [] -> t ∈ map task_id rs)).
  { destruct (archived_runs_settled d Hs) as (rs & Hrs & Hl). exists rs. split; [done|]. split; [intros t; by rewrite group_by_task_lookup|].
    intros t Ht. rewrite <- Hl in Ht. destruct (filter _ rs) as [|r l] eqn:E; [done|]. assert (Hr : r ∈ r :: l) by left. rewrite <- E in Hr.
    apply list_elem_of_filter in Hr as [<- Hr]. by apply list_elem_of_fmap_2. }
  destruct p as [n|]; [destruct (archive_task_fingerprints x) as [o|] eqn:Ho|];
    [|destruct Hfull as (rs & -> & H1 & H2); exists rs, (group_by_task rs); eexists; split; [reflexivity|]; split; [done|]; split; [|done];
      intros t Ht; rewrite not_elem_of_list_to_set, not_elem_of_app in Ht; destruct Ht as [Hb Ha];
      destruct (archived_runs_of d t) as [|r l] eqn:E; [|exfalso; apply Ha, H2; by rewrite E];
      destruct (default [] (archived_by_task x !! t)) as [|r l] eqn:E'; [done|]; exfalso; apply Hb, (y_cover _ _ _ _ _ Hy); by rewrite E'..].
  destruct (replace_buckets d n (elements (changed_names n o)) (archived_by_task x) Hs Hp) as (m & Hm & Hl). rewrite Hm.
  assert (Hall : forall t, default [] (m !! t) = archived_runs_of d t).
  { intros t. rewrite Hl. destruct (decide _) as [|Ht]; [done|]. rewrite elem_of_elements, changed_names_spec in Ht. apply (y_buckets _ _ _ _ _ Hy o n); [done|done|].
    destruct (decide (n !! t = o !! t)); [done|by destruct Ht]. }
  exists (all_runs_of m), m, (changed_names n o). split; [done|]. split; [done|]. split.
  - intros t Ht. rewrite changed_names_spec in Ht. apply (y_buckets _ _ _ _ _ Hy o n); [done|done|]. destruct (decide (n !! t = o !! t)); [done|by destruct Ht].
  - intros t Ht. destruct (m !! t) as [l|] eqn:E; [|rewrite <- Hall, E in Ht; by destruct Ht].
    rewrite <- Hall, E in Ht. cbn in Ht. pose proof (s_archived d Hs t) as Hu. rewrite <- Hall, E in Hu. cbn in Hu. destruct l as [|r l]; [done|].
    apply Forall_cons in Hu as [(<- & _) _]. apply list_elem_of_fmap_2. apply (all_runs_of_elem m (task_id r) (r :: l)); [done|left].
Qed.

(** ** A refresh *)

Definition same_archive (d d' : Disk) : Prop :=
  ledger d = ledger d' /\ ledger_stamp d = ledger_stamp d' /\ buckets d = buckets d' /\ pending d = pending d' /\ archive_entries d = archive_entries d'.
Lemma same_archive_reads d d' : same_archive d d' ->
  archive_task_fingerprints_of d = archive_task_fingerprints_of d' /\ (forall t, archived_runs_of d t = archived_runs_of d' t) /\
  (forall p x, refresh_archive d p x = refresh_archive d' p x).
Proof.
  intros (H1 & H2 & H3 & H4 & H5). split; [unfold archive_task_fingerprints_of; by rewrite H1|].
  split; [intros t; unfold archived_runs_of; by rewrite H1, H3|]. destruct d as [sd ld le ls bu pe ar], d' as [sd' ld' le' ls' bu' pe' ar']. cbn in *. by subst.
Qed.

(** The index after a refresh that does not raise, with the record of what was read *)
Definition refreshed_record (d d' : Disk) (ts : gset string) (recorded : string -> list values) (t : string) : list values :=
  if decide (t ∈ elements ts) then match stamps d !! t with Some _ => read_task_runs d' t | None => [] end else recorded t.

Lemma refreshed_live d d' U clock x recorded ts t :
  synced d' U clock x recorded -> (forall t, stamps d !! t <> task_fingerprints x !! t \/ t ∈ dirty_tasks x -> t ∈ ts) ->
  stamps d' !! t = stamps d !! t -> t ∉ U -> refreshed_record d d' ts recorded t = live_runs d' t.
Proof.
  intros Hy Hts He HU. unfold refreshed_record. destruct (decide _) as [_|Ht]; [unfold live_runs; by rewrite He|].
  rewrite elem_of_elements in Ht. apply (y_live _ _ _ _ _ Hy); [|done|].
  - rewrite He. destruct (decide (stamps d !! t = task_fingerprints x !! t)); [done|]. destruct Ht. apply Hts. by left.
  - intros Hd. apply Ht, Hts. by right.
Qed.

Lemma refreshed_views d d' U clock x recorded ts n (m : gmap string (list values)) :
  settled d' -> synced d' U clock x recorded -> (forall t, default [] (m !! t) = archived_runs_of d' t) ->
  (forall t, t ∉ ts -> default [] (archived_by_task x !! t) = archived_runs_of d' t) ->
  exists v, forW (fun t => update_task float fromisoformat n t (match stamps d !! t with Some _ => read_task_runs d' t | None => [] end) (default [] (m !! t))) (elements ts) (views x) = (Ok tt, v) /\
    describes float fromisoformat 0%Q (fun t => sort_by run_leb (refreshed_record d d' ts recorded t ++ default [] (m !! t))) v.
Proof.
  intros Hs Hy Hm Hout.
  destruct (update_tasks_describe float fromisoformat n (fun t => match stamps d !! t with Some _ => read_task_runs d' t | None => [] end)
    (fun t => default [] (m !! t)) (elements ts) _ (views x) (describes_now _ _ 0%Q n _ _ (y_views _ _ _ _ _ Hy))) as (v & Hv & Hd).
  - intros t _. apply Forall_app. rewrite Hm. split.
    + eapply Forall_impl; [|intros r; apply usable_now]. destruct (stamps d !! t); [apply (s_live d' Hs)|constructor].
    + eapply Forall_impl; [apply (s_archived d' Hs)|intros r; apply usable_now].
  - exists v. split; [exact Hv|]. apply (describes_now _ _ n). apply (describes_ext _ _ _ _ _ _) with (2 := Hd). intros t. cbn. unfold refreshed_record.
    destruct (decide _) as [|Ht]; [done|]. rewrite elem_of_elements in Ht. by rewrite Hout, Hm.
Qed.

(** What is known of the archive's part once it has been brought up to date *)
Lemma archive_part d U clock x recorded p :
  settled d -> synced d U clock x recorded -> archive_task_fingerprints_of d = Ok p ->
  exists rs m touched,
    (if (built_generation x <? 0) || archive_dirty x || negb (bool_decide (ledger_stamp d = archive_fingerprint x)) then refresh_archive d p x
     else Ok (archived x, archived_by_task x, ∅)) = Ok (rs, m, touched) /\ (forall t, default [] (m !! t) = archived_runs_of d t) /\
    (forall t, t ∉ touched -> default [] (archived_by_task x !! t) = archived_runs_of d t) /\
    (forall t, archived_runs_of d t <> [] -> t ∈ map task_id rs).
Proof.
  intros Hs Hy Hp. destruct (_ || _) eqn:E; [by apply (refresh_archive_spec d U clock x recorded p)|].
  apply orb_false_iff in E as [[Hb%Z.ltb_ge Hd]%orb_false_iff Hl%negb_false_iff%bool_decide_eq_true].
  assert (Hall : forall t, default [] (archived_by_task x !! t) = archived_runs_of d t) by (intros t; by apply (y_ledger _ _ _ _ _ Hy)).
  exists (archived x), (archived_by_task x), ∅. split; [done|]. split; [done|]. split; [done|]. intros t Ht. apply (y_cover _ _ _ _ _ Hy). by rewrite Hall.
Qed.

Lemma changed_complete d U clock x recorded t :
  synced d U clock x recorded -> forall d0 : Disk, stamps d0 !! t <> task_fingerprints x !! t \/ t ∈ dirty_tasks x ->
  t ∈ (if built_generation x <? 0 then dom (stamps d0) else changed_names (stamps d0) (task_fingerprints x)) ∪ dirty_tasks x.
Proof.
  intros Hy d0 [H|H]; apply elem_of_union; [left|by right]. destruct (built_generation x <? 0) eqn:E.
  - apply Z.ltb_lt, (y_initial _ _ _ _ _ Hy) in E. rewrite E, lookup_empty in H. apply elem_of_dom. destruct (stamps d0 !! t); [by eexists|done].
  - by apply changed_names_spec.
Qed.

(** The index after the views are rebuilt, and after nothing had to be *)
Lemma rebuilt_synced d d' U clock x recorded now p rs m ts v :
  settled d' -> same_archive d d' -> synced d' U clock x recorded -> (forall t st, stamps d !! t = Some st -> st.1 <= clock) ->
  archive_task_fingerprints_of d = Ok p -> (forall t, stamps d !! t <> task_fingerprints x !! t \/ t ∈ dirty_tasks x -> t ∈ ts) ->
  (forall t, default [] (m !! t) = archived_runs_of d' t) -> (forall t, archived_runs_of d' t <> [] -> t ∈ map task_id rs) ->
  describes float fromisoformat 0%Q (fun t => sort_by run_leb (refreshed_record d d' ts recorded t ++ default [] (m !! t))) v ->
  synced d' U clock
    {| views := v; generation := generation x; built_generation := generation x; built_at := now; archived := rs; archived_by_task := m; active := active_view v;
       task_fingerprints := stamps d; archive_fingerprint := ledger_stamp d; archive_task_fingerprints := p; archive_dirty := false; dirty_tasks := ∅ |}
    (refreshed_record d d' ts recorded).
Proof.
  intros Hs Hsame Hy Hst Hp Hts Hm Hrs Hv. destruct (same_archive_reads d d' Hsame) as (Hpr & Har & _). rewrite Hpr in Hp.
  split; cbn [views generation built_generation archived archived_by_task active task_fingerprints archive_fingerprint archive_task_fingerprints archive_dirty dirty_tasks].
  - exact Hv.
  - done.
  - intros t He HU _. by apply (refreshed_live d d' U clock x recorded).
  - intros t Ht. rewrite Hm in Ht. by apply Hrs.
  - intros o t -> Ho. pose proof (prints_lookup d' o t Hs Hp) as Hl. rewrite Ho in Hl. by rewrite Hm.
  - done.
  - done.
  - intros Hg. pose proof (y_generation _ _ _ _ _ Hy). lia.
  - apply (y_generation _ _ _ _ _ Hy).
  - destruct (y_clock _ _ _ _ _ Hy) as (K1 & K2 & K3 & K4 & K5 & K6). destruct Hsame as (_ & Hls & _). rewrite Hls.
    split; [exact K1|]. split; [exact Hst|]. split; [exact K3|]. split; [exact K3|]. split; [exact K5|].
    cbn. intros o t st -> Ho. by apply (K5 o t).
Qed.
Lemma unchanged_synced d U clock x recorded now :
  0 <= built_generation x -> synced d U clock x recorded ->
  synced d U clock
    {| views := views x; generation := generation x; built_generation := generation x; built_at := now; archived := archived x; archived_by_task := archived_by_task x;
       active := active x; task_fingerprints := task_fingerprints x; archive_fingerprint := archive_fingerprint x; archive_task_fingerprints := archive_task_fingerprints x;
       archive_dirty := archive_dirty x; dirty_tasks := dirty_tasks x |} recorded.
Proof.
  intros Hb [H1 H2 H3 H4 H5 H6 H7 H8 H9 H10]. split; try done; cbn.
  - intros t _. by apply H7.
  - intros Hg. lia.
Qed.

(** A refresh of a settled disk succeeds, whatever other processes write while it reads. *)
Lemma refresh_synced d d' U clock x recorded now_utc now :
  settled d -> settled d' -> same_archive d d' -> synced d' U clock x recorded -> (forall t st, stamps d !! t = Some st -> st.1 <= clock) ->
  exists x' recorded', refresh_index float fromisoformat now_utc d d' now x = (Ok tt, x') /\ synced d' U clock x' recorded' /\
    (forall t, stamps d' !! t = stamps d !! t -> t ∉ U -> recorded' t = live_runs d' t) /\ (forall t, default [] (archived_by_task x' !! t) = archived_runs_of d' t).
Proof.
  intros Hs Hs' Hsame Hy Hst. destruct (prints_settled d Hs) as [p Hp]. destruct (same_archive_reads d d' Hsame) as (Hpr & Har & Hra).
  unfold refresh_index. rewrite Hp.
  set (changed := (if built_generation x <? 0 then _ else _) ∪ _).
  set (archive_changed := (built_generation x <? 0) || _ || _).
  assert (Hts : forall t, stamps d !! t <> task_fingerprints x !! t \/ t ∈ dirty_tasks x -> t ∈ changed) by (intros t; by apply (changed_complete d' U clock x recorded)).
  destruct (archive_part d' U clock x recorded p Hs' Hy) as (rs & m & touched & Hpart & Hm & Hout & Hrs); [by rewrite <- Hpr|].
  destruct (bool_decide (changed = ∅) && negb archive_changed) eqn:Efast.
  - apply andb_true_iff in Efast as [Hc%bool_decide_eq_true Ha%negb_true_iff]. apply orb_false_iff in Ha as Ha'. destruct Ha' as [[Hb%Z.ltb_ge Hd]%orb_false_iff Hl%negb_false_iff%bool_decide_eq_true].
    eexists _, recorded. split; [reflexivity|]. split; [by apply unchanged_synced|]. cbn [archived_by_task]. split.
    + intros t He HU. apply (y_live _ _ _ _ _ Hy); [|done|].
      * rewrite He. destruct (decide (stamps d !! t = task_fingerprints x !! t)); [done|]. exfalso. assert (t ∈ changed) by (apply Hts; by left). rewrite Hc in *. set_solver.
      * intros Hdt. assert (t ∈ changed) by (apply Hts; by right). rewrite Hc in *. set_solver.
    + intros t. apply (y_ledger _ _ _ _ _ Hy); [done| |done]. destruct Hsame as (_ & <- & _). done.
  - assert (Hpart' : (if archive_changed then refresh_archive d p x else Ok (archived x, archived_by_task x, ∅)) = Ok (rs, m, touched)).
    { rewrite Hra. unfold archive_changed. destruct Hsame as (_ & -> & _). exact Hpart. }
    rewrite Hpart'. destruct (refreshed_views d d' U clock x recorded (changed ∪ touched) now_utc m Hs' Hy Hm) as (v & Hv & Hd).
    { intros t Ht. apply Hout. set_solver. }
    rewrite Hv. assert (Hts' : forall t, stamps d !! t <> task_fingerprints x !! t \/ t ∈ dirty_tasks x -> t ∈ changed ∪ touched) by (intros t Ht; apply elem_of_union_l, Hts, Ht).
    eexists _, (refreshed_record d d' (changed ∪ touched) recorded). split; [reflexivity|]. split.
    { by apply (rebuilt_synced d d' U clock x recorded). }
    split; [|exact Hm]. intros t He HU. by apply (refreshed_live d d' U clock x recorded).
Qed.

(** ** Processes *)

Definition set_live (t : string) (rs : list values) (d : Disk) : Disk :=
  {| stamps := stamps d; live := <[t := rs]> (live d); ledger := ledger d; ledger_stamp := ledger_stamp d; buckets := buckets d; pending := pending d; archive_entries := archive_entries d |}.
Definition set_stamp (t : string) (st : stamp) (d : Disk) : Disk :=
  {| stamps := <[t := st]> (stamps d); live := live d; ledger := ledger d; ledger_stamp := ledger_stamp d; buckets := buckets d; pending := pending d; archive_entries := archive_entries d |}.

(** An archive transaction that ran to its end: what it changed got a newer stamp. *)
Definition archive_change (d : Disk) (clock : Z) (d' : Disk) (clock' : Z) : Prop :=
  settled d' /\ clock <= clock' /\
  (forall t, stamps d' !! t = stamps d !! t /\ live d' !! t = live d !! t \/ exists st, stamps d' !! t = Some st /\ clock < st.1 <= clock') /\
  (exists st, ledger_stamp d' = Some st /\ clock < st.1.1 <= clock') /\
  exists ts', ledger d' = Ledger2 ts' /\ forall t,
    (list_to_map ts' : gmap string stamp3) !! t = None \/
    (exists st, (list_to_map ts' : gmap string stamp3) !! t = Some st /\ clock < st.1.1 <= clock') \/
    exists ts, ledger d = Ledger2 ts /\ (list_to_map ts' : gmap string stamp3) !! t = (list_to_map ts : gmap string stamp3) !! t /\ buckets d' !! t = buckets d !! t.

Record World := { disk : Disk; untouched : gset string; clock : Z; index : Index }.

(** What another process may do at any moment *)
Inductive foreign : World -> World -> Prop :=
| f_replace w t rs : Forall (usable_run t) rs ->
    foreign w {| disk := set_live t rs (disk w); untouched := {[t]} ∪ untouched w; clock := clock w; index := index w |}
| f_touch w t st : clock w < st.1 ->
    foreign w {| disk := set_stamp t st (disk w); untouched := untouched w ∖ {[t]}; clock := st.1; index := index w |}.
Inductive world_step : World -> World -> Prop :=
| w_foreign w w' : foreign w w' -> world_step w w'
| w_own_touch w t st : st.1 <= clock w ->
    world_step w {| disk := set_stamp t st (disk w); untouched := untouched w ∖ {[t]}; clock := clock w; index := invalidate_index (Some t) (index w) |}
| w_invalidate w : world_step w {| disk := disk w; untouched := untouched w; clock := clock w; index := invalidate_index None (index w) |}
| w_archive w d' c' : archive_change (disk w) (clock w) d' c' -> world_step w {| disk := d'; untouched := untouched w; clock := c'; index := index w |}
| w_own_archive w d' c' ts : archive_change (disk w) (clock w) d' c' ->
    world_step w {| disk := d'; untouched := untouched w; clock := c'; index := archive_mutated ts (index w) |}
| w_refresh w w' now_utc now r x : rtc foreign w w' -> refresh_index float fromisoformat now_utc (disk w) (disk w') now (index w) = (r, x) ->
    world_step w {| disk := disk w'; untouched := untouched w'; clock := clock w'; index := x |}.
Definition start (w : World) : Prop :=
  settled (disk w) /\ untouched w = ∅ /\ index w = new_index /\ within (clock w) (disk w) new_index.

Definition world_ok (w : World) : Prop := settled (disk w) /\ exists recorded, synced (disk w) (untouched w) (clock w) (index w) recorded.

Lemma start_ok w : start w -> world_ok w.
Proof.
  intros (Hs & _ & Hx & Hc). split; [done|]. exists (fun _ => []). rewrite Hx. split; try done; cbn.
  - intros t Ht _ _. unfold live_runs. by rewrite Ht, lookup_empty.
Qed.

Lemma set_live_settled t rs d : settled d -> Forall (usable_run t) rs -> settled (set_live t rs d).
Proof.
  intros [H1 H2 H3 H4] Hrs. split; try done. intros t'. unfold read_task_runs. cbn.
  destruct (decide (t' = t)) as [->|]; [by rewrite lookup_insert_eq|rewrite lookup_insert_ne by done; apply H3].
Qed.
Lemma set_stamp_settled t st d : settled d -> settled (set_stamp t st d).
Proof. by intros [H1 H2 H3 H4]. Qed.

Lemma live_runs_set_live t rs d t' : t' <> t -> live_runs (set_live t rs d) t' = live_runs d t'.
Proof. intros. unfold live_runs, read_task_runs. cbn. by rewrite lookup_insert_ne. Qed.
Lemma live_runs_set_stamp t st d t' : t' <> t -> live_runs (set_stamp t st d) t' = live_runs d t'.
Proof. intros. unfold live_runs, read_task_runs. cbn. by rewrite lookup_insert_ne. Qed.

Lemma synced_replace d U c x recorded t rs : synced d U c x recorded -> synced (set_live t rs d) ({[t]} ∪ U) c x recorded.
Proof.
  intros [H1 H2 H3 H4 H5 H6 H7 H8 H9 H10]. split; try done. cbn. intros t' He HU. assert (t' <> t) by set_solver.
  rewrite live_runs_set_live by done. apply H3; [done|set_solver].
Qed.
(** A new stamp, newer than all or not, of a task that the index will read again *)
Lemma synced_stamp d U c c' x x' recorded t st :
  synced d U c x recorded -> c <= c' -> st.1 <= c' -> (c < st.1 \/ t ∈ dirty_tasks x') ->
  views x' = views x -> generation x <= generation x' -> built_generation x' = built_generation x -> archived x' = archived x -> archived_by_task x' = archived_by_task x -> active x' = active x ->
  task_fingerprints x' = task_fingerprints x -> archive_fingerprint x' = archive_fingerprint x -> archive_task_fingerprints x' = archive_task_fingerprints x ->
  archive_dirty x' = archive_dirty x -> dirty_tasks x ⊆ dirty_tasks x' ->
  synced (set_stamp t st d) (U ∖ {[t]}) c' x' recorded.
Proof.
  intros [H1 H2 H3 H4 H5 H6 H7 H8 H9 (K1 & K2 & K3 & K4 & K5 & K6)] Hc Hst Hnew E1 E2 E3 E4 E5 E6 E7 E8 E9 E10 E11.
  split; rewrite ?E1, ?E3, ?E4, ?E5, ?E6, ?E7, ?E8, ?E9, ?E10; try done.
  - cbn. intros t' He HU Hd. destruct (decide (t' = t)) as [->|Hne].
    + rewrite lookup_insert_eq in He. destruct Hnew as [Hlt|]; [|done]. symmetry in He. apply K2 in He. lia.
    + rewrite lookup_insert_ne in He by done. rewrite live_runs_set_stamp by done. apply H3; [done|set_solver|set_solver].
  - lia.
  - unfold within. rewrite ?E7, ?E8, ?E9. cbn. split; [|split; [|split; [|split; [|split]]]].
    + intros t' st' Ht. apply lookup_insert_Some in Ht as [[_ <-]|[_ Ht]]; [done|]. specialize (K1 _ _ Ht). lia.
    + intros t' st' Ht. specialize (K2 _ _ Ht). lia.
    + intros st' Ht. specialize (K3 _ Ht). lia.
    + intros st' Ht. specialize (K4 _ Ht). lia.
    + intros n t' st' Hn Ht. specialize (K5 n t' st' Hn Ht). lia.
    + intros o t' st' Ho Ht. specialize (K6 o t' st' Ho Ht). lia.
Qed.

Lemma archive_buckets d c d' c' U x recorded o n t :
  synced d U c x recorded -> archive_change d c d' c' -> archive_task_fingerprints x = Some o -> archive_task_fingerprints_of d' = Ok (Some n) -> n !! t = o !! t ->
  default [] (archived_by_task x !! t) = archived_runs_of d' t.
Proof.
  intros Hy (Hs' & _ & _ & _ & ts' & Hl' & Hb) Ho Hn He. pose proof (prints_lookup d' n t Hs' Hn) as Hp.
  unfold archive_task_fingerprints_of in Hn. rewrite Hl' in Hn. injection Hn as <-.
  destruct (y_clock _ _ _ _ _ Hy) as (_ & _ & _ & _ & _ & K6). destruct (Hb t) as [Hnone|[(st & Hst & Hlt & _)|(ts & Hl & Hsame & Hbk)]].
  - rewrite Hnone in Hp, He. rewrite Hp. by apply (y_absent _ _ _ _ _ Hy o).
  - rewrite Hst in He. symmetry in He. specialize (K6 o t st Ho He). lia.
  - transitivity (archived_runs_of d t).
    + apply (y_buckets _ _ _ _ _ Hy o (list_to_map ts)); [done|unfold archive_task_fingerprints_of; by rewrite Hl|by rewrite <- Hsame].
    + unfold archived_runs_of. rewrite Hl, Hl', Hbk.
      assert (Hin : forall l : list (string * stamp3), t ∈ l.*1 <-> (list_to_map l : gmap string stamp3) !! t <> None).
      { intros l. split; [intros Hi Hx; by apply not_elem_of_list_to_map_2 in Hx|]. intros Hx. destruct (decide (t ∈ l.*1)) as [|Hni]; [done|]. by apply not_elem_of_list_to_map_1 in Hni. }
      destruct (decide (t ∈ ts.*1)) as [H1|H1], (decide (t ∈ ts'.*1)) as [H2|H2]; try done; rewrite Hin in H1, H2; rewrite Hsame in H2; done.
Qed.

Lemma synced_archive d c d' c' U x recorded :
  synced d U c x recorded -> archive_change d c d' c' -> synced d' U c' x recorded.
Proof.
  intros Hy Hch. pose proof Hch as (Hs' & Hc & Hlive & (st & Hst & Hlt & Hle) & ts' & Hl' & Hb). destruct (y_clock _ _ _ _ _ Hy) as (K1 & K2 & K3 & K4 & K5 & K6).
  split; [apply (y_views _ _ _ _ _ Hy)|apply (y_active _ _ _ _ _ Hy)| |apply (y_cover _ _ _ _ _ Hy)|apply (y_absent _ _ _ _ _ Hy)| | |apply (y_initial _ _ _ _ _ Hy)|apply (y_generation _ _ _ _ _ Hy)|].
  - intros t He HU Hd. destruct (Hlive t) as [[E1 E2]|(s & Hs & Hslt & _)].
    + rewrite (y_live _ _ _ _ _ Hy t) by congruence. unfold live_runs, read_task_runs. by rewrite E1, E2.
    + rewrite Hs in He. symmetry in He. apply K2 in He. lia.
  - intros o n t Ho Hn He. by apply (archive_buckets d c d' c' U x recorded o n).
  - intros t _ He. rewrite Hst in He. symmetry in He. apply K4 in He. lia.
  - unfold within. split; [|split; [|split; [|split; [|split]]]].
    + intros t s Hs. destruct (Hlive t) as [[E1 _]|(s' & Hs1 & _ & Hs2)]; [rewrite E1 in Hs; apply K1 in Hs; lia|]. rewrite Hs1 in Hs. by injection Hs as <-.
    + intros t s Hs. apply K2 in Hs. lia.
    + intros s Hs. rewrite Hst in Hs. by injection Hs as <-.
    + intros s Hs. apply K4 in Hs. lia.
    + unfold archive_task_fingerprints_of. rewrite Hl'. intros n t s [= <-] Hs. destruct (Hb t) as [Hn|[(s' & Hs1 & _ & Hs2)|(ts & Hl & Hsame & _)]].
      * by rewrite Hn in Hs.
      * rewrite Hs1 in Hs. by injection Hs as <-.
      * rewrite Hsame in Hs. specialize (K5 (list_to_map ts) t s). unfold archive_task_fingerprints_of in K5. rewrite Hl in K5. specialize (K5 eq_refl Hs). lia.
    + intros o t s Ho Hs. specialize (K6 o t s Ho Hs). lia.
Qed.

Lemma synced_dirty d U c x recorded b ts :
  synced d U c x recorded ->
  synced d U c {| views := views x; generation := generation x + 1; built_generation := built_generation x; built_at := built_at x; archived := archived x;
     archived_by_task := archived_by_task x; active := active x; task_fingerprints := task_fingerprints x; archive_fingerprint := archive_fingerprint x;
     archive_task_fingerprints := archive_task_fingerprints x; archive_dirty := b || archive_dirty x; dirty_tasks := ts ∪ dirty_tasks x |} recorded.
Proof.
  intros [H1 H2 H3 H4 H5 H6 H7 H8 H9 H10]. split; try done; cbn.
  - intros t He HU Hd. apply H3; [done|done|set_solver].
  - intros t Hb He [_ Hd]%orb_false_iff. by apply H7.
  - lia.
Qed.

Lemma foreign_ok w w' : foreign w w' -> world_ok w -> world_ok w' /\ same_archive (disk w) (disk w') /\ index w' = index w /\ clock w <= clock w'.
Proof.
  intros [w0 t rs Hrs|w0 t st Hst] [Hs (recorded & Hy)]; cbn.
  - split; [split; [by apply set_live_settled|exists recorded; by apply synced_replace]|]. split; [done|]. split; [done|]. lia.
  - split; [split; [by apply set_stamp_settled|exists recorded]|split; [done|split; [done|lia]]].
    apply (synced_stamp _ _ (clock w0) _ (index w0)); try done; cbn; lia.
Qed.
Lemma foreigns_ok w w' : rtc foreign w w' -> world_ok w -> world_ok w' /\ same_archive (disk w) (disk w') /\ index w' = index w /\ clock w <= clock w'.
Proof.
  induction 1 as [w|x y z Hxy _ IH]; intros Hw; [done|]. destruct (foreign_ok x y Hxy Hw) as (Hy & (A1 & A2 & A3 & A4 & A5) & Hi & Hc).
  destruct (IH Hy) as (Hz & (B1 & B2 & B3 & B4 & B5) & Hi' & Hc'). split; [done|]. split; [split; [congruence|split; [congruence|split; [congruence|split; congruence]]]|]. split; [congruence|lia].
Qed.

Lemma step_synced w w' : world_step w w' -> world_ok w -> world_ok w'.
Proof.
  intros [w0 w1 Hf|w0 t st Hst|w0|w0 d' c' Hch|w0 d' c' ts Hch|w0 w1 now_utc now r x Hf Hr] Hw.
  - by apply (foreign_ok w0 w1).
  - destruct Hw as [Hs (recorded & Hy)]. split; [by apply set_stamp_settled|]. exists recorded. cbn.
    apply (synced_stamp _ _ (clock w0) _ (index w0)); try done; cbn; try lia; try (right; set_solver); set_solver.
  - destruct Hw as [Hs (recorded & Hy)]. split; [done|]. exists recorded. cbn. apply (synced_dirty _ _ _ _ _ false ∅) in Hy. unfold invalidate_index. by rewrite union_empty_l_L in Hy.
  - destruct Hw as [Hs (recorded & Hy)]. split; [apply Hch|]. exists recorded. by apply (synced_archive (disk w0) (clock w0)).
  - destruct Hw as [Hs (recorded & Hy)]. split; [apply Hch|]. exists recorded. apply (synced_dirty _ _ _ _ _ true ts). by apply (synced_archive (disk w0) (clock w0)).
  - destruct (foreigns_ok w0 w1 Hf Hw) as ([Hs1 (recorded & Hy1)] & Hsame & Hi & Hc). destruct Hw as [Hs (rec0 & Hy)]. split; [done|]. rewrite <- Hi in Hr.
    destruct (refresh_synced (disk w0) (disk w1) (untouched w1) (clock w1) (index w1) recorded now_utc now Hs Hs1 Hsame Hy1) as (x' & recorded' & Hx & Hy' & _).
    { intros t st Hst. destruct (y_clock _ _ _ _ _ Hy) as (K1 & _). apply K1 in Hst. lia. }
    rewrite Hx in Hr. injection Hr as _ <-. by exists recorded'.
Qed.
Lemma worlds_synced w0 w : start w0 -> rtc world_step w0 w -> world_ok w.
Proof. intros H%start_ok Hr. revert H. induction Hr as [|x y z Hxy _ IH]; [done|]. intros Hx. apply IH. by apply (step_synced x). Qed.

(** A refresh with no write half done shows the content of the disk. *)
Lemma refresh_shows d clock x recorded now_utc now :
  settled d -> synced d ∅ clock x recorded ->
  exists x', refresh_index float fromisoformat now_utc d d now x = (Ok tt, x') /\ describes float fromisoformat 0%Q (content d) (views x') /\ active x' = active_view (views x').
Proof.
  intros Hs Hy. destruct (refresh_synced d d ∅ clock x recorded now_utc now Hs Hs) as (x' & recorded' & Hx & Hy' & Hlive & Harch); [done|done|apply (y_clock _ _ _ _ _ Hy)|].
  exists x'. split; [done|]. split; [|apply (y_active _ _ _ _ _ Hy')]. refine (describes_ext _ _ _ _ _ _ _ (y_views _ _ _ _ _ Hy')).
  intros t. unfold content. by rewrite Hlive, Harch.
Qed.
Lemma new_index_synced d clock : within clock d new_index -> synced d ∅ clock new_index (fun _ => []).
Proof.
  intros Hc. split; try done; cbn.
  - intros t Ht _ _. unfold live_runs. by rewrite Ht, lookup_empty.
Qed.

(** C20.  (Equivalence.)  However other processes and this one write readable run records, archive or restore runs in transactions that run to their end, and refresh or mark their indexes,
    a refresh at a moment when no write is half done succeeds and leaves the very views that a new process builds from the whole disk; they show, for every task, its live and archived
    runs in order.  Each write gives what it changes a later modification time than any before.  Archive transactions that are interrupted, and records whose usage cannot be added up, are
    left out: see [interrupted_archive_hides_run] and [unreadable_usage_poisons_index]. *)
Theorem incremental_index_is_rebuilt w0 w now_utc now :
  start w0 -> rtc world_step w0 w -> untouched w = ∅ ->
  exists x y, refresh_index float fromisoformat now_utc (disk w) (disk w) now (index w) = (Ok tt, x) /\
    refresh_index float fromisoformat now_utc (disk w) (disk w) now new_index = (Ok tt, y) /\
    views x = views y /\ active x = active y /\ forall t, runs_for x t = content (disk w) t.
Proof.
  intros H0 Hr HU. destruct (worlds_synced w0 w H0 Hr) as [Hs (recorded & Hy)]. rewrite HU in Hy.
  destruct (refresh_shows (disk w) (clock w) (index w) recorded now_utc now Hs Hy) as (x & Hx & Hdx & Hax).
  destruct (refresh_shows (disk w) (clock w) new_index (fun _ => []) now_utc now Hs) as (y & Hy' & Hdy & Hay).
  { apply new_index_synced. destruct (y_clock _ _ _ _ _ Hy) as (K1 & _ & K3 & _ & K5 & _). unfold within. split; [done|]. cbn. split; [intros t st; by rewrite lookup_empty|]. done. }
  assert (Hv : views x = views y) by exact (describes_unique _ _ _ _ _ _ _ (fun _ => eq_refl) Hdx Hdy).
  exists x, y. split; [done|]. split; [done|]. split; [done|]. split; [by rewrite Hax, Hay, Hv|].
  intros t. unfold runs_for. rewrite (d_by_task _ _ _ _ _ Hdx). by destruct (content (disk w) t).
Qed.

(** The run that answers a claim request is a remote run that recorded it, and there is an answer when there is such a run. *)
Lemma first_run_elem l r : first_run l = Some r -> r ∈ l.
Proof.
  revert r. induction l as [|x l IH]; intros r; cbn [first_run]; [done|]. destruct (first_run l) as [m|]; [|intros [= <-]; by left].
  intros H. destruct (run_leb x m); [injection H as <-; by left|right; by apply IH].
Qed.
Lemma claim_request_spec d x id :
  describes float fromisoformat 0%Q (content d) (views x) ->
  match claim_request x id with
  | Some r => exists t, r ∈ content d t /\ is_remote r = true /\ id ∈ ids_of r
  | None => forall t r, r ∈ content d t -> is_remote r = true -> id ∉ ids_of r
  end.
Proof.
  intros Hd. unfold claim_request. rewrite (d_requests _ _ _ _ _ Hd). unfold first_candidate. set (c := default ∅ _).
  assert (Hc : forall t k, c !! (t, k) = last (claims_of id k (content d t))) by (intros; apply (d_claims _ _ _ _ _ Hd)).
  destruct (first_run _) as [r|] eqn:E.
  - apply first_run_elem, list_elem_of_fmap in E as ([[t k] r'] & -> & Hin). apply elem_of_map_to_list in Hin. rewrite Hc in Hin.
    apply last_Some_elem_of, claims_of_elem in Hin. cbn. by exists t.
  - intros t r Hr Hrem Hid. destruct (map_to_list c) as [|[k v] l] eqn:El; [|cbn in E; by destruct (first_run _)].
    apply map_to_list_empty_iff in El. specialize (Hc t (run_id r)). rewrite El, lookup_empty in Hc. symmetry in Hc. apply last_None in Hc.
    assert (Hin : r ∈ claims_of id (run_id r) (content d t)) by (by apply list_elem_of_filter). rewrite Hc in Hin. by apply elem_of_nil in Hin.
Qed.
End sync.

(** ** A witness: another process starts a run, this one looks, and the run ends *)

Module Watch.
Definition float (v : pyval) : result exn Q := match v with PInt n => Ok (inject_Z n) | PBool b => Ok (if b then 1 else 0)%Q | _ => Err TypeError end.
Definition iso (s : string) : result exn Q := Ok 0%Q.
Definition run (status : string) : values :=
  list_to_map [("task_id", PStr "CG-1"); ("run_id", PStr "r1"); ("runner", PStr "remote"); ("status", PStr status); ("started_at", PStr "2026-01-01");
    ("claim_request_id", PStr "req-1"); ("claim_history", PList [PDict [("claim_request_id", PStr "req-0")]]); ("usage", PDict [("input_tokens", PInt 12)]); ("cost_usd", PInt 2)].
Definition empty_disk : Disk := {| stamps := ∅; live := ∅; ledger := NoLedger; ledger_stamp := None; buckets := ∅; pending := false; archive_entries := false |}.
Definition world0 : World := {| disk := empty_disk; untouched := ∅; clock := 0; index := new_index |}.
Definition write (st : string) (m : Z) (w : World) : World :=
  {| disk := set_stamp "CG-1" (m, 1) (set_live "CG-1" [run st] (disk w)); untouched := ({["CG-1"]} ∪ untouched w) ∖ {["CG-1"]}; clock := m; index := index w |}.
Definition look (now : Q) (w : World) : World :=
  {| disk := disk w; untouched := untouched w; clock := clock w; index := (refresh_index float iso 0%Q (disk w) (disk w) now (index w)).2 |}.
Definition world3 : World := write "done" 9 (look 2%Q (write "running" 5 world0)).

Lemma run_usable st : usable float iso 0%Q "CG-1" (run st).
Proof. split; [done|]. split; [vm_compute; reflexivity|]. intros tot. vm_compute. reflexivity. Qed.
Lemma write_steps st m w : clock w < m -> rtc (world_step float iso) w (write st m w).
Proof.
  intros Hm. eapply rtc_l; [apply w_foreign, (f_replace float iso w "CG-1" [run st]); constructor; [apply run_usable|constructor]|].
  eapply rtc_l; [|reflexivity]. apply w_foreign. exact (f_touch float iso {| disk := set_live "CG-1" [run st] (disk w); untouched := {["CG-1"]} ∪ untouched w; clock := clock w; index := index w |} "CG-1" (m, 1) Hm).
Qed.
Lemma look_steps now w : rtc (world_step float iso) w (look now w).
Proof.
  eapply rtc_l; [|reflexivity]. exact (w_refresh float iso w w 0%Q now _ _ (rtc_refl _ _) (surjective_pairing _)).
Qed.
Lemma started : start float iso world0.
Proof.
  split; [|split; [done|split; [done|]]].
  - split; [done|done|intros t; constructor|intros t; constructor].
  - unfold within. cbn. split; [intros t st; by rewrite lookup_empty|]. split; [intros t st; by rewrite lookup_empty|]. split; [done|]. split; [done|].
    split; [intros n t st [= <-]; by rewrite lookup_empty|done].
Qed.
Lemma watch_reached : rtc (world_step float iso) world0 world3.
Proof.
  etransitivity; [by apply (write_steps "running" 5)|]. etransitivity; [apply (look_steps 2%Q)|]. by apply write_steps.
Qed.
End Watch.

Lemma incremental_index_is_rebuilt_witness :
  exists x y, refresh_index Watch.float Watch.iso 1%Q (disk Watch.world3) (disk Watch.world3) 4%Q (index Watch.world3) = (Ok tt, x) /\
    refresh_index Watch.float Watch.iso 1%Q (disk Watch.world3) (disk Watch.world3) 4%Q new_index = (Ok tt, y) /\
    views x = views y /\ active x = active y /\ forall t, runs_for x t = content (disk Watch.world3) t.
Proof.
  apply (incremental_index_is_rebuilt Watch.float Watch.iso Watch.world0); [apply Watch.started|apply Watch.watch_reached|].
  apply (bool_decide_unpack _). vm_compute. exact I.
Defined.
Example watched : map (text "status") (runs_for (index (Watch.look 4%Q Watch.world3)) "CG-1") = ["done"] /\ active (index (Watch.look 4%Q Watch.world3)) = [] /\
  text "status" <$> claim_request (index (Watch.look 4%Q Watch.world3)) "req-0" = Some "done".
Proof. split; [vm_compute; reflexivity|]. split; vm_compute; reflexivity. Qed.

(** ** An interrupted archive transaction

    The process that moves a run into the archive dies before it has rewritten the ledger.  The marker [pending.json] is there so that readers
    refuse to answer; but a process whose index has seen a ledger with buckets only looks at the buckets that changed, and never at the marker:
    it drops the run from its totals without a word, where a new process raises [HistoryUnavailable]. *)
Module Interrupted.
Definition before : Disk :=
  {| stamps := {["CG-1" := (5, 1)]}; live := {["CG-1" := [Watch.run "done"]]}; ledger := Ledger2 []; ledger_stamp := Some (3, 1, 1); buckets := ∅; pending := false; archive_entries := true |}.
Definition moved : Disk :=
  {| stamps := {["CG-1" := (7, 1)]}; live := ∅; ledger := Ledger2 []; ledger_stamp := Some (3, 1, 1); buckets := ∅; pending := true; archive_entries := true |}.
Definition seen : Index := (refresh_index Watch.float Watch.iso 0%Q before before 1%Q new_index).2.
Definition after : result ierr unit * Index := refresh_index Watch.float Watch.iso 0%Q moved moved 3%Q seen.
End Interrupted.
Lemma interrupted_archive_hides_run :
  List.length (runs_for Interrupted.seen "CG-1") = 1%nat /\ Interrupted.after.1 = Ok tt /\ runs_for Interrupted.after.2 "CG-1" = [] /\
  t_cost (all_totals (views Interrupted.after.2)) = 0 /\
  (refresh_index Watch.float Watch.iso 0%Q Interrupted.moved Interrupted.moved 3%Q new_index).1 = Err (HistoryUnavailable "archive migration is incomplete; rerun garden archive-runs --apply").
Proof. split; [vm_compute; reflexivity|]. split; [vm_compute; reflexivity|]. split; [vm_compute; reflexivity|]. split; vm_compute; reflexivity. Qed.

(** ** A record whose usage cannot be read

    [_totals] raises after the task's candidates were removed and its runs replaced.  The next refresh looks for the candidates of those runs:
    it raises [KeyError], also when the record has been repaired, until the process is started again. *)
Module Poisoned.
Definition bad : values := <["usage" := PDict [("input_tokens", PStr "many")]]> (Watch.run "running").
Definition disk_of (m : Z) (r : values) : Disk :=
  {| stamps := {["CG-1" := (m, 1)]}; live := {["CG-1" := [r]]}; ledger := NoLedger; ledger_stamp := None; buckets := ∅; pending := false; archive_entries := false |}.
Definition refresh (d : Disk) (now : Q) (x : Index) : result ierr unit * Index := refresh_index Watch.float Watch.iso 0%Q d d now x.
Definition good_seen : Index := (refresh (disk_of 1 (Watch.run "running")) 1%Q new_index).2.
Definition bad_seen : result ierr unit * Index := refresh (disk_of 2 bad) 2%Q good_seen.
Definition repaired : result ierr unit * Index := refresh (disk_of 3 (Watch.run "running")) 3%Q bad_seen.2.
End Poisoned.
Lemma unreadable_usage_poisons_index :
  Poisoned.bad_seen.1 = Err (Other (ValueError "invalid literal for int()")) /\ (exists k, Poisoned.repaired.1 = Err (KeyMissing k)) /\
  (Poisoned.refresh (Poisoned.disk_of 3 (Watch.run "running")) 3%Q new_index).1 = Ok tt.
Proof. split; [vm_compute; reflexivity|]. split; [eexists; vm_compute; reflexivity|vm_compute; reflexivity]. Qed.
