(* ===== verification/WorkerLease.v ===== *)
(** * The lease of a remote run ([web/pages/api.py])

    A remote run waits in the queue until a worker claims it over HTTP.  The claim gives the worker a lease: an unguessable token, renewed by
    heartbeats and ended by the acceptance of the worker's result.  An expired lease may be claimed again, by any worker.  The
    scheduler, another process, changes the same record all the while ([RunRecords]).

    This file has the handlers' decisions and what they write.  Instants are in microseconds; [isoformat] and [fromisoformat] are parameters,
    as is the digest.  The checks of the request that look at neither the run nor the lease (host facts, membership) are arguments: the refusal
    they end in, if any. *)

From Stdlib Require Import QArith.
From S2P Require Import Prelude PyValue StateStore RunRecords RunIndex.

#[local] Open Scope list_scope.
#[local] Open Scope Z_scope.

Inductive herr : Type :=
| HTTPException (code : Z) (detail : string)
| Failed (e : exn)
| SaveFailed (e : rerr).
Definition failing {A} (r : result exn A) : result herr A := match r with Ok a => Ok a | Err e => Err (Failed e) end.
Definition refuse {A} (code : Z) (detail : string) : result herr A := Err (HTTPException code detail).

(** What else is in the directory of the run *)
Record Files := {
  exit_file : option string;
  remote_result : option pyval;
  transcript : string;
  ssh_rejected : bool;
  ssh_completion : bool }.
(** The process table, as far as the run's pid is concerned *)
Record Processes := { own_pid : Z; group_alive : Z -> bool; pid_alive : Z -> bool }.

Definition env_snapshot (r : values) : dict pyval := match field "env_snapshot" r with PDict d => d | _ => [] end.

(** [Run.is_local_execution], [Run.process_finished], [Run.lifecycle_state] *)
Definition is_local_execution (r : values) : bool :=
  match field "execution_remote" r with
  | PNone => negb (mem (text "runner" r) ["manual"; "remote"; "ssh"])
  | v => negb (truthy v)
  end.
Definition process_finished (ps : Processes) (fs : Files) (r : values) : bool :=
  let exited := match exit_file fs with Some _ => true | None => false end in
  if truthy (pget "ssh_tmux_session" (env_snapshot r)) then ssh_rejected fs || (exited && ssh_completion fs)
  else match field "pid" r with
  | PInt p => if p =? own_pid ps then exited else if is_local_execution r then negb (group_alive ps p) else if exited then true else negb (pid_alive ps p)
  | _ => exited
  end.
(** [Run.read_exit_code] *)
Definition read_exit_code (fs : Files) : option Z :=
  match exit_file fs with
  | Some s => Some (match int_of_str (if nonempty (strip s) then s else "-1") with Ok n => n | Err _ => -1 end)
  | None => None
  end.

(** An authenticated host: [member_id] is empty for the hosts of a single-user garden. *)
Record Host := { h_name : string; h_member : string; h_max_parallel : Z; h_in_place : bool }.

Section lease.
Context (isoformat : Z -> string) (fromisoformat : string -> result exn Z) (float : pyval -> result exn Q) (digest : string -> string).
Context (lease_seconds recovery_seconds : Z) (default_timeout : Q) (product_timeout_minutes : string -> Q).

Definition second : Z := 1000000.
(** [leased]: the instants are compared as texts. *)
Definition leased (now : Z) (r : values) : bool :=
  let e := text "lease_expires_at" r in nonempty e && negb (str_leb e (isoformat now)).
(** [recovering]; records of the previous version have no recovery deadline. *)
Definition recovering (now : Z) (r : values) : result herr bool :=
  let d := text "recovery_expires_at" r in
  let e := text "lease_expires_at" r in
  deadline ← (if negb (nonempty d) && nonempty e then t ← failing (fromisoformat e); Ok (isoformat (t + recovery_seconds * second)) else Ok d);
  Ok (nonempty deadline && negb (str_leb deadline (isoformat now))).
(** [leased(run) or recovering(run)] *)
Definition leased_or_recovering (now : Z) (r : values) : result herr bool := if leased now r then Ok true else recovering now r.
(** [renew] *)
Definition renew (now : Z) (r : values) : values :=
  <["recovery_expires_at" := PStr (isoformat (now + (lease_seconds + recovery_seconds) * second))]>
    (<["lease_expires_at" := PStr (isoformat (now + lease_seconds * second))]> r).
(** [execution_timeout_minutes], [execution_deadline] *)
Definition execution_timeout_minutes (r : values) : result herr Q :=
  let snapshot := env_snapshot r in
  if dmem "execution_timeout_minutes" snapshot then failing (float (por (pget "execution_timeout_minutes" snapshot) (PInt 0)))
  else if bool_decide (text "mode" r = "check") then Ok 0%Q
  else let product := py_str (por (pget "product" snapshot) (PStr "")) in
    Ok (if nonempty product then product_timeout_minutes product else default_timeout).
Definition execution_deadline (r : values) : result herr (option Z) :=
  let started := if nonempty (text "execution_started_at" r) then text "execution_started_at" r else text "claimed_at" r in
  timeout ← execution_timeout_minutes r;
  if negb (nonempty started) || Qeq_bool timeout 0 then Ok None
  else t ← failing (fromisoformat started); Ok (Some (t + round_half_even ((timeout + 5) * inject_Z (60 * second)))).

(** [ensure_claimed]; [compare_digest] is equality. *)
Definition ensure_claimed (ps : Processes) (fs : Files) (now : Z) (r : values) (h : Host) (token : string) : result herr unit :=
  if negb (bool_decide (text "status" r = "running")) || process_finished ps fs r then refuse 409 "run generation is no longer active"
  else deadline ← execution_deadline r;
    if match deadline with Some d => d <=? now | None => false end then refuse 409 "run execution deadline has passed"
    else if negb (bool_decide (text "host" r = h_name h)) then refuse 409 "run is leased to another host"
    else if negb (nonempty token) || negb (bool_decide (text "lease_token" r = token)) then refuse 409 "run lease has been replaced"
    else alive ← leased_or_recovering now r;
      if (alive : bool) then Ok tt else refuse 409 "run lease recovery deadline has expired".
(** The part of [authorize_member_run] that looks at the lease; [scope] is the outcome of the rest. *)
Definition authorize_member_run (r : values) (h : Host) (scope : result herr unit) : result herr unit :=
  if negb (nonempty (h_member h)) then Ok tt
  else if (nonempty (text "execution_member_id" r) && negb (bool_decide (text "execution_member_id" r = h_member h)))
       || (nonempty (text "execution_installation_id" r) && negb (bool_decide (text "execution_installation_id" r = h_name h)))
  then refuse 403 "run lease belongs to another member installation"
  else scope.

(** ** A claim *)

(** The conditions of the claim loop on the run itself; [now] is read once for the loop, [now'] for each lease check. *)
Definition claimable (ps : Processes) (fs : Files) (now now' : Z) (r : values) : result herr bool :=
  if negb (bool_decide (text "runner" r = "remote")) || negb (bool_decide (text "status" r = "running"))
     || process_finished ps fs r || nonempty (text "final_received_at" r) then Ok false
  else held ← (if nonempty (text "host" r) then leased_or_recovering now' r else Ok false);
    if (held : bool) then Ok false
    else deadline ← execution_deadline r;
      Ok (match deadline with Some d => negb (d <=? now) | None => true end).
(** The head that the scheduler prepared for the run *)
Definition prepared_head (r : values) : string :=
  let p := py_str (por (pget "prepared_source_head" (env_snapshot r)) (PStr "")) in
  if nonempty (text "source_head" r) then text "source_head" r else if nonempty p then p else text "start_head" r.
Definition history (r : values) : list pyval := match field "claim_history" r with PList l => l | _ => [] end.
(** What a claim writes into the run.  [readiness] are the times of the matched instance's readiness, if one was matched;
    [token] and [ref] are the two random texts. *)
Definition granted (now : Z) (h : Host) (request_id token ref : string) (readiness : option (pyval * pyval)) (r : values) : values :=
  let claim_time := isoformat now in
  let member := h_member h in
  let r1 := <["execution_installation_id" := PStr (if nonempty member then h_name h else "")]> (<["execution_member_id" := PStr member]> (<["host" := PStr (h_name h)]> r)) in
  let first := negb (nonempty (text "execution_started_at" r1)) in
  let r2 := if nonempty (text "claimed_at" r1) then r1 else <["claimed_at" := PStr claim_time]> r1 in
  let r3 := if nonempty (text "execution_started_at" r2) then r2 else <["execution_started_at" := field "claimed_at" r2]> r2 in
  let r4 := match readiness with
    | Some (checked, expires) =>
        if first then <["env_snapshot" := PDict (dset "worker_readiness" (PDict [("status", PStr "verified"); ("checked_at", checked); ("expires_at", expires)]) (env_snapshot r3))]> r3
        else r3
    | None => r3
    end in
  let r5 := <["claim_request_id" := PStr request_id]> (<["lease_token" := PStr token]> (<["lease_updated_at" := PStr claim_time]> (renew now r4))) in
  let pushed := ("refs/heads/garden-worker/" ++ text "run_id" r5 ++ "/" ++ ref)%string in
  let entry := PDict [("claimed_at", PStr claim_time); ("host", field "host" r5); ("member_id", field "execution_member_id" r5);
    ("installation_id", field "execution_installation_id" r5); ("claim_request_id", PStr request_id); ("lease_token_sha256", PStr (digest token)); ("pushed_ref", PStr pushed)] in
  let r6 := <["claim_history" := PList (history r5 ++ [entry])]> (<["pushed_ref" := PStr pushed]> r5) in
  if bool_decide (text "mode" r6 = "check") then <["start_head" := PStr (prepared_head r)]> r6 else r6.
(** The grant: the response, without the references, is kept in the run and then saved.  A record that changed since it was read is refused. *)
Definition grant (dir : string) (now : Z) (h : Host) (request_id token ref : string) (readiness : option (pyval * pyval)) (payload : values -> pyval)
    (self : Run) (record : option values) : result herr (Run * values * RunSaveOutcome) :=
  let r := granted now h request_id token ref readiness (fields self) in
  match save_locked dir {| fields := <["claim_response" := payload r]> r; loaded := loaded self |} record with
  | Ok x => Ok x
  | Err (RunMutationConflict _) => refuse 409 "run claim changed during allocation"
  | Err e => Err (SaveFailed e)
  end.

(** ** A heartbeat *)

(** [f.seek(offset); f.read(n)] *)
Definition read_at (offset n : nat) (s : string) : string := take_str n (drop_str offset s).
(** The upload of new output; texts are their bytes. *)
Definition append_transcript (chunk : string) (offset : option Z) (fs : Files) : result herr Files :=
  let current := Z.of_nat (String.length (transcript fs)) in
  let o := default current offset in
  if negb (nonempty chunk) then Ok fs
  else if o <? current then
    if bool_decide (read_at (Z.to_nat o) (String.length chunk) (transcript fs) = chunk) then Ok fs
    else refuse 409 "transcript upload conflicts with durable output"
  else if current <? o then refuse 409 ("transcript offset " ++ show o ++ " is ahead of durable offset " ++ show current)
  else Ok {| exit_file := exit_file fs; remote_result := remote_result fs; transcript := (transcript fs ++ chunk)%string; ssh_rejected := ssh_rejected fs; ssh_completion := ssh_completion fs |}.
(** The lease is renewed, but never beyond the execution deadline. *)
Definition renewed (now now' : Z) (r : values) : result herr values :=
  let r1 := renew now r in
  deadline ← execution_deadline r1;
  r2 ← match deadline with
    | Some d => t ← failing (fromisoformat (text "lease_expires_at" r1)); Ok (<["lease_expires_at" := PStr (isoformat (Z.min t d))]> r1)
    | None => Ok r1
    end;
  Ok (<["lease_updated_at" := PStr (isoformat now')]> r2).
(** [heartbeat], under the mutation lock; [facts] and [scope] are the outcomes of the checks of the request. The files are as they are left. *)
Definition heartbeat (ps : Processes) (dir : string) (now now1 now2 : Z) (h : Host) (facts scope : result herr unit) (token chunk : string) (offset : option Z)
    (fs : Files) (record : option values) : Files * result herr (Run * values * RunSaveOutcome) :=
  match (_ ← facts; r ← match load dir record with Ok r => Ok r | Err e => Err (SaveFailed e) end;
         _ ← authorize_member_run (fields r) h scope; _ ← ensure_claimed ps fs now (fields r) h token;
         fs' ← append_transcript chunk offset fs; Ok (r, fs')) with
  | Err e => (fs, Err e)
  | Ok (r, fs') =>
      (fs', f ← renewed now1 now2 (fields r);
            match save_locked dir {| fields := f; loaded := loaded r |} record with Ok x => Ok x | Err e => Err (SaveFailed e) end)
  end.

(** ** A result *)

Definition is_dict (v : pyval) : bool := match v with PDict _ => true | _ => false end.
Definition str_or (k : string) (body : row) : pyval := PStr (py_str (por (pget k body) (PStr ""))).
(** The shape that the body must have, and the exit code *)
Definition result_shape (body : row) : result herr Z :=
  match pget_or "result" (PDict []) body with
  | PDict res =>
      if negb (is_dict (pget_or "usage" (PDict []) body)) then refuse 422 "usage must be an object"
      else match pget_or "checks" (PList []) res with
      | PList items => if negb (forallb is_dict items) then refuse 422 "result.checks must be a list of objects"
          else match pget_or "exit_code" (PInt 0) body with PInt n => Ok n | _ => refuse 422 "exit_code must be an integer" end
      | _ => refuse 422 "result.checks must be a list of objects"
      end
  | _ => refuse 422 "result must be an object"
  end.
(** What is kept of the body *)
Definition posted (body : row) : pyval :=
  PDict [("result", pget_or "result" (PDict []) body); ("usage", pget_or "usage" (PDict []) body); ("cost_usd", pget "cost_usd" body); ("final_text", str_or "final_text" body);
    ("error", str_or "error" body); ("session_id", str_or "session_id" body); ("env_error", PBool (truthy (pget_or "env_error" (PBool false) body))); ("env_kind", str_or "env_kind" body)].
Definition body_text (k : string) (body : row) : string := py_str (por (pget k body) (PStr "")).

Inductive decision : Type :=
| AlreadyFinished
| Accepted (run : Run) (result : pyval) (code : Z).
(** [finish], up to its writes *)
Definition finish (ps : Processes) (dir : string) (now now1 : Z) (h : Host) (facts scope : result herr unit) (body : row) (fs : Files) (record : option values) : result herr decision :=
  code ← result_shape body;
  _ ← facts;
  r ← match load dir record with Ok r => Ok r | Err e => Err (SaveFailed e) end;
  _ ← authorize_member_run (fields r) h scope;
  let token := body_text "lease_token" body in
  if negb (bool_decide (text "host" (fields r) = h_name h)) || negb (nonempty token) || negb (bool_decide (text "lease_token" (fields r) = token))
  then refuse 409 "run lease has been replaced"
  else if process_finished ps fs (fields r) then
    if bool_decide (text "pushed_head" (fields r) = body_text "pushed_head" body) && bool_decide (read_exit_code fs = Some code)
       && py_eq (default (PDict []) (remote_result fs)) (posted body)
    then Ok AlreadyFinished else refuse 409 "completed run result is immutable"
  else _ ← ensure_claimed ps fs now (fields r) h token;
    let r' := set_field "final_received_at" (PStr (isoformat now1)) (set_field "pushed_head" (PStr (body_text "pushed_head" body)) r) in
    Ok (Accepted r' (posted body) code).
(** The writes of an accepted result, in order: the result, the record, and last the marker of completion *)
Definition write_result (result : pyval) (fs : Files) : Files :=
  {| exit_file := exit_file fs; remote_result := Some result; transcript := transcript fs; ssh_rejected := ssh_rejected fs; ssh_completion := ssh_completion fs |}.
Definition write_exit (code : Z) (fs : Files) : Files :=
  {| exit_file := Some (show code); remote_result := remote_result fs; transcript := transcript fs; ssh_rejected := ssh_rejected fs; ssh_completion := ssh_completion fs |}.
End lease.
