(* ===== verification/LeaseSafety.v ===== *)
(** * A lease fences every earlier worker of the run ([web/pages/api.py])

    The handlers of [WorkerLease] and the scheduler's whole-record writes ([RunRecords]) interleave on one remote run: claims decided on
    copies that may be stale, heartbeats, results interrupted between their writes, and changes by the scheduler, which may revoke the lease.

    The scheduler leaves alone the fields of a remote run that the worker protocol owns ([controller_change]); the random tokens are new. *)

From Stdlib Require Import QArith.
From S2P Require Import Prelude PyValue Hosts StateStore RunRecords RunIndex WorkerLease.

#[local] Open Scope list_scope.
#[local] Open Scope Z_scope.

(** ** Printed integers are read back *)

Lemma digits_value_all acc b s : str_all is_digit s = true -> nonempty s || b = true -> PyValue.digits_value acc b s = Some (Hosts.digits_value acc s).
Proof.
  revert acc b. induction s as [|c s IH]; intros acc b; [cbn; by intros _ ->|]. intros H _.
  assert (Hc : is_digit c = true /\ str_all is_digit s = true) by (revert H; cbn; destruct (is_digit c); [done|done]). destruct Hc as [Hc Hs].
  cbn [PyValue.digits_value Hosts.digits_value]. rewrite Hc, IH; [|done|by rewrite orb_true_r]. f_equal. f_equal.
  unfold is_digit in Hc. apply andb_true_iff in Hc as [H1%N.leb_le H2%N.leb_le]. lia.
Qed.
Lemma digit_not_space c : is_digit c = true -> is_space c = false.
Proof. unfold is_digit, is_space. intros [H1%N.leb_le H2%N.leb_le]%andb_true_iff. repeat (apply orb_false_iff; split); try (apply N.eqb_neq; lia); try (apply andb_false_iff; right; apply N.leb_gt; lia). Qed.
Lemma last_ok_digits s : str_all is_digit s = true -> last_ok is_space s = true.
Proof.
  induction s as [|c s IH]; [done|]. cbn. destruct (is_digit c) eqn:Hc; [|done]. intros H. destruct s; [by rewrite (digit_not_space c Hc)|by apply IH].
Qed.
Lemma int_of_digits s : str_all is_digit s = true -> nonempty s = true -> int_of_str s = Ok (Hosts.digits_value 0 s).
Proof.
  intros H1 H2. destruct s as [|c s]; [done|]. pose proof (digits_value_all 0 false (String c s) H1 eq_refl) as Hv.
  assert (Hd : is_digit c = true) by (cbn in H1; by destruct (is_digit c)).
  unfold int_of_str, strip, lstrip, rstrip. rewrite lstrip_by_id by (cbn; by rewrite (digit_not_space c Hd)). rewrite rstrip_by_id by (by apply last_ok_digits).
  assert (Ho : (match String c s with String "-" s' => Z.opp <$> PyValue.digits_value 0 false s' | String "+" s' => PyValue.digits_value 0 false s' | s' => PyValue.digits_value 0 false s' end)
    = PyValue.digits_value 0 false (String c s)).
  { clear Hv H1 H2. destruct c as [[] [] [] [] [] [] [] []]; try discriminate Hd; reflexivity. }
  by rewrite Ho, Hv.
Qed.
Lemma int_of_show n : int_of_str (show n) = Ok n.
Proof.
  assert (Hp : forall p : positive, str_all is_digit (pretty (N.pos p)) = true /\ Hosts.digits_value 0 (pretty (N.pos p)) = Z.pos p /\ nonempty (pretty (N.pos p)) = true).
  { intros p. destruct (pretty_N_digits (N.pos p)) as (H1 & H2 & _). split; [done|]. split; [done|apply pretty_N_nonempty]. }
  destruct n as [|p|p]; [reflexivity| |]; destruct (Hp p) as (H1 & H2 & H3); unfold show.
  - change (pretty (Z.pos p)) with (pretty (N.pos p)). by rewrite int_of_digits, H2.
  - change (pretty (Z.neg p)) with (String "-" (pretty (N.pos p))). revert H1 H2 H3. generalize (pretty (N.pos p)) as s. intros s H1 H2 H3.
    unfold int_of_str, strip, lstrip, rstrip. rewrite lstrip_by_id by done. rewrite rstrip_by_id; [|destruct s as [|c s]; [discriminate H3|exact (last_ok_digits _ H1)]].
    rewrite (digits_value_all 0 false s H1) by (by rewrite H3). by rewrite H2.
Qed.

Lemma show_nonempty n : nonempty (strip (show n)) = true.
Proof.
  destruct (nonempty (strip (show n))) eqn:E; [done|]. pose proof (int_of_show n) as H. unfold int_of_str in H. by destruct (strip (show n)).
Qed.

(** ** Fields *)

Lemma text_py_eq n a b : py_eq (field n a) (field n b) = true -> text n a = text n b.
Proof. unfold py_eq, text. rewrite bool_decide_eq_true. destruct (field n a), (field n b); cbn; try done; by intros [= ->]. Qed.
Lemma text_insert n s f : text n (<[n := PStr s]> f) = s.
Proof. unfold text. by rewrite field_insert. Qed.
Lemma text_insert_ne n m v f : n <> m -> text n (<[m := v]> f) = text n f.
Proof. intros. unfold text. by rewrite field_insert_ne. Qed.
Lemma text_field n a b : field n a = field n b -> text n a = text n b.
Proof. unfold text. by intros ->. Qed.
Lemma agree_text a b n : agree a b -> n <> "dir" -> text n a = text n b.
Proof. intros. by apply text_field, agree_field. Qed.

(** A field the copy has not changed keeps the text of the record; one it has changed gets the copy's. *)
Lemma saved_kept mine base cur d w o n :
  saved mine base cur d w o -> n ∈ field_names -> n ∉ unmerged -> field n mine = field n base -> text n d = text n cur.
Proof.
  intros Hs Hn Hu He. pose proof (sv_written _ _ _ _ _ _ Hs) as Hw. destruct o; [|by apply text_field, Hw]. specialize (Hw n Hn Hu). unfold written_field in Hw.
  assert (Hd : differs mine base n = false) by (unfold differs; by rewrite He, py_eq_refl). rewrite Hd in Hw. by apply text_py_eq.
Qed.
(** On the very record that was read, every field of the copy is written. *)
Lemma saved_fresh mine base cur d w o n :
  saved mine base cur d w o -> o = COMMITTED -> agree base cur -> n ∈ field_names -> n ∉ unmerged -> text n d = text n mine.
Proof.
  intros Hs -> Hag Hn Hu. pose proof (sv_written _ _ _ _ _ _ Hs n Hn Hu) as Hw. unfold written_field in Hw.
  destruct (differs mine base n) eqn:Hd; [by apply text_field, Hw|]. unfold differs in Hd. apply negb_false_iff, text_py_eq in Hd.
  rewrite Hd, (agree_text base cur n Hag) by (by apply unmerged_dir). by apply text_py_eq.
Qed.
Lemma saved_no_supersede mine base cur d w o : saved mine base cur d w o -> agree base cur -> o = COMMITTED.
Proof.
  intros Hs Hag. destruct o; [done|]. pose proof (proj1 (sv_superseded _ _ _ _ _ _ Hs) eq_refl) as H. revert H.
  unfold generation_fields. cbn [existsb]. by rewrite !(agree_differs cur base) by (by symmetry || done).
Qed.

Lemma not_unmerged n : mem n unmerged = false -> n ∉ unmerged.
Proof. apply mem_false. Qed.
Ltac field_name := first [apply in_field_names; vm_compute; reflexivity|apply not_unmerged; vm_compute; reflexivity].

(** ** The run of a garden, its worker requests and its scheduler *)

Section protocol.
Context (isoformat : Z -> string) (fromisoformat : string -> result exn Z) (float : pyval -> result exn Q) (digest : string -> string).
Context (lease_seconds recovery_seconds : Z) (default_timeout : Q) (product_timeout_minutes : string -> Q).
#[local] Abbreviation claimable_ := (claimable isoformat fromisoformat float recovery_seconds default_timeout product_timeout_minutes).
#[local] Abbreviation grant_ := (grant isoformat digest lease_seconds recovery_seconds).
#[local] Abbreviation heartbeat_ := (heartbeat isoformat fromisoformat float lease_seconds recovery_seconds default_timeout product_timeout_minutes).
#[local] Abbreviation finish_ := (finish isoformat fromisoformat float recovery_seconds default_timeout product_timeout_minutes).

(** No process of the controller runs a remote run. *)
Definition unattended (f : values) : Prop := field "pid" f = PNone /\ truthy (pget "ssh_tmux_session" (env_snapshot f)) = false.
(** What the scheduler may do to its copy of a remote run: anything but to the fields that the worker protocol owns; it may revoke the lease. *)
Definition controller_change (f f' : values) : Prop :=
  whole f' /\ f' !! "record_version" = f !! "record_version" /\ unattended f' /\ field "host" f' = field "host" f /\
  field "pushed_head" f' = field "pushed_head" f /\ (field "lease_token" f' = field "lease_token" f \/ field "lease_token" f' = PStr "").

(** [issued]: the tokens of the claims that were saved, with their hosts, the last first; [finished]: the result that was accepted. *)
Record Web := { sys : System; files : Files; issued : list (string * string); finished : option (string * pyval * Z) }.
Definition with_record (d : values) (i : nat) (r : Run) (s : System) : System := {| record := Some d; copies := <[i := r]> (copies s) |}.

Inductive web_step (w : Web) : Web -> Prop :=
| b_load i dir r : load dir (record (sys w)) = Ok r ->
    web_step w {| sys := {| record := record (sys w); copies := <[i := r]> (copies (sys w)) |}; files := files w; issued := issued w; finished := finished w |}
| b_change i r f : copies (sys w) !! i = Some r -> controller_change (fields r) f ->
    web_step w {| sys := {| record := record (sys w); copies := <[i := {| fields := f; loaded := loaded r |}]> (copies (sys w)) |}; files := files w; issued := issued w; finished := finished w |}
| b_save i r dir r' d o : copies (sys w) !! i = Some r -> save_locked dir r (record (sys w)) = Ok (r', d, o) ->
    web_step w {| sys := with_record d i r' (sys w); files := files w; issued := issued w; finished := finished w |}
| b_claim i r ps dir now now' h request_id token ref readiness payload r' d o :
    copies (sys w) !! i = Some r -> claimable_ ps (files w) now now' (fields r) = Ok true -> token <> "" -> token ∉ (issued w).*1 ->
    grant_ dir now h request_id token ref readiness payload r (record (sys w)) = Ok (r', d, o) ->
    web_step w {| sys := with_record d i r' (sys w); files := files w; issued := (token, h_name h) :: issued w; finished := finished w |}
| b_heartbeat i ps dir now now1 now2 h facts scope token chunk offset fs r' d o :
    heartbeat_ ps dir now now1 now2 h facts scope token chunk offset (files w) (record (sys w)) = (fs, Ok (r', d, o)) ->
    web_step w {| sys := with_record d i r' (sys w); files := fs; issued := issued w; finished := finished w |}
| b_heartbeat_fails ps dir now now1 now2 h facts scope token chunk offset fs e :
    heartbeat_ ps dir now now1 now2 h facts scope token chunk offset (files w) (record (sys w)) = (fs, Err e) ->
    web_step w {| sys := sys w; files := fs; issued := issued w; finished := finished w |}
| b_finish_result ps dir now now1 h facts scope body r result code :
    finish_ ps dir now now1 h facts scope body (files w) (record (sys w)) = Ok (Accepted r result code) ->
    web_step w {| sys := sys w; files := write_result result (files w); issued := issued w; finished := finished w |}
| b_finish_record i ps dir now now1 h facts scope body r result code r' d o :
    finish_ ps dir now now1 h facts scope body (files w) (record (sys w)) = Ok (Accepted r result code) -> save_locked dir r (record (sys w)) = Ok (r', d, o) ->
    web_step w {| sys := with_record d i r' (sys w); files := write_result result (files w); issued := issued w; finished := finished w |}
| b_finish i ps dir now now1 h facts scope body r result code r' d o :
    finish_ ps dir now now1 h facts scope body (files w) (record (sys w)) = Ok (Accepted r result code) -> save_locked dir r (record (sys w)) = Ok (r', d, o) ->
    web_step w {| sys := with_record d i r' (sys w); files := write_exit code (write_result result (files w)); issued := issued w;
                  finished := Some (text "pushed_head" (fields r), result, code) |}.
(** A remote run in the queue *)
Definition queued (w : Web) : Prop :=
  (exists d, record (sys w) = Some d /\ well_formed d /\ text "lease_token" d = "" /\ unattended d) /\ copies (sys w) = ∅ /\ exit_file (files w) = None /\ issued w = [] /\ finished w = None.

(** ** The invariant *)

Definition untouched_copy (r : Run) : Prop :=
  exists base, loaded r = Some base /\ unattended (fields r) /\ field "host" (fields r) = field "host" base /\ field "pushed_head" (fields r) = field "pushed_head" base /\
    (field "lease_token" (fields r) = field "lease_token" base \/ field "lease_token" (fields r) = PStr "").
Definition leased_to (issued : list (string * string)) (d : values) : Prop :=
  text "lease_token" d = "" \/ exists rest, issued = (text "lease_token" d, text "host" d) :: rest.
Definition known (issued : list (string * string)) (d : values) : Prop := text "lease_token" d = "" \/ text "lease_token" d ∈ issued.*1.
Definition sealed (w : Web) (d : values) : Prop :=
  match finished w with
  | Some (head, result, code) => exit_file (files w) = Some (show code) /\ remote_result (files w) = Some result /\ text "pushed_head" d = head
  | None => exit_file (files w) = None
  end.
Record web_ok (w : Web) : Prop := {
  o_consistent : consistent (sys w);
  o_record : exists d, record (sys w) = Some d /\ unattended d /\ leased_to (issued w) d /\ sealed w d;
  o_snapshots d : snapshot (sys w) d -> known (issued w) d;
  o_copies i r : copies (sys w) !! i = Some r -> untouched_copy r;
  o_issued : NoDup (issued w).*1 }.

Lemma snapshot_with_record d i f s e :
  snapshot (with_record d i {| fields := f; loaded := Some d |} s) e -> e = d \/ snapshot s e.
Proof.
  intros [H|(j & r & Hj & Hl)]; [left; by injection H|]. cbn in Hj. apply lookup_insert_Some in Hj as [[_ <-]|[_ Hj]]; [left; by injection Hl|right; right; eauto].
Qed.
Lemma with_record_twice d i r r1 s : with_record d i r {| record := record s; copies := <[i := r1]> (copies s) |} = with_record d i r s.
Proof. unfold with_record. cbn. by rewrite insert_insert_eq. Qed.

(** A save by a copy, with what it leaves *)
Lemma save_step s i r dir r' d o cur base :
  consistent s -> record s = Some cur -> copies s !! i = Some r -> loaded r = Some base -> save_locked dir r (record s) = Ok (r', d, o) ->
  r' = {| fields := d; loaded := Some d |} /\ consistent (with_record d i r' s) /\ exists v, saved (fields r) base cur d v o.
Proof.
  intros Hc Hcur Hi Hl Hsave. assert (Hw : well_formed cur) by (apply (snapshots_well_formed s Hc); by left). destruct Hw as [_ (v & Hv & _)].
  destruct r as [mine b]. cbn in Hl. subst b. destruct (save_effect s i dir mine base cur v r' d o Hc Hi Hcur Hv Hsave) as [Hr' Hsaved].
  split; [done|]. split; [|by exists v]. apply (consistent_step s); [done|]. exact (sys_save s i _ dir r' d o Hi Hsave).
Qed.

Lemma loaded_record s dir r cur :
  consistent s -> record s = Some cur -> load dir (record s) = Ok r -> fields r = <["dir" := PStr dir]> cur /\ loaded r = Some (fields r) /\ whole (fields r).
Proof.
  intros Hc Hcur Hl. rewrite Hcur in Hl. assert (Hw : well_formed cur) by (apply (snapshots_well_formed s Hc); by left).
  destruct (load_written dir cur r Hw Hl) as [Hf Hb]. split; [done|]. split; [done|]. rewrite Hf. apply whole_insert; [apply Hw|apply dir_is_field].
Qed.

(** A save by a copy that is loaded under the lock, whose fields are then changed: the record is the one that was read. *)
Lemma fresh_save s i dir r f r' d o cur :
  consistent s -> record s = Some cur -> load dir (record s) = Ok r -> whole f -> f !! "record_version" = fields r !! "record_version" ->
  save_locked dir {| fields := f; loaded := loaded r |} (record s) = Ok (r', d, o) ->
  r' = {| fields := d; loaded := Some d |} /\ consistent (with_record d i r' s) /\ (forall n, n ∈ field_names -> n ∉ unmerged -> text n d = text n f) /\
  (forall n, n ∉ unmerged -> field n d = field n f \/ field n d = field n cur).
Proof.
  intros Hc Hcur Hl Hw Hv Hsave. destruct (loaded_record s dir r cur Hc Hcur Hl) as (Hf & Hb & _).
  set (s1 := {| record := record s; copies := <[i := r]> (copies s) |}). assert (Hc1 : consistent s1) by (apply (consistent_step s); [done|by apply (sys_load s i dir)]).
  set (s2 := {| record := record s; copies := <[i := {| fields := f; loaded := loaded r |}]> (copies s) |}).
  assert (Hc2 : consistent s2).
  { apply (consistent_step s1); [done|]. assert (Hi : copies s1 !! i = Some r) by apply lookup_insert_eq.
    pose proof (sys_change s1 i r f Hi Hw Hv) as Hst. cbn in Hst. by rewrite insert_insert_eq in Hst. }
  destruct (save_step s2 i {| fields := f; loaded := loaded r |} dir r' d o cur (fields r) Hc2 Hcur) as (Hr' & Hc3 & v & Hs); [apply lookup_insert_eq|done|done|].
  assert (Hag : agree (fields r) cur) by (rewrite Hf; apply agree_dir).
  split; [done|]. split; [by rewrite <- (with_record_twice d i r' {| fields := f; loaded := loaded r |})|]. split; [|apply (sv_from _ _ _ _ _ _ Hs)].
  intros n Hn Hu. apply (saved_fresh _ _ _ _ _ _ n Hs); [by apply (saved_no_supersede _ _ _ _ _ _ Hs)|done|done|done].
Qed.

Lemma unattended_from f mine cur : unattended mine -> unattended cur -> (forall n, n ∉ unmerged -> field n f = field n mine \/ field n f = field n cur) -> unattended f.
Proof.
  intros [H1 H2] [H3 H4] Hf. unfold unattended, env_snapshot in *. split.
  - destruct (Hf "pid") as [-> | ->]; [field_name|done|done].
  - destruct (Hf "env_snapshot") as [-> | ->]; [field_name|done|done].
Qed.
Lemma unattended_dir v f : unattended f -> unattended (<["dir" := v]> f).
Proof. intros [H1 H2]. unfold unattended, env_snapshot in *. by rewrite !field_insert_ne. Qed.
Lemma loaded_untouched s dir r cur : consistent s -> record s = Some cur -> load dir (record s) = Ok r -> unattended cur -> untouched_copy r.
Proof.
  intros Hc Hcur Hl Hu. destruct (loaded_record s dir r cur Hc Hcur Hl) as (Hf & Hb & _). exists (fields r). split; [done|]. split; [rewrite Hf; by apply unattended_dir|].
  split; [done|]. split; [done|by left].
Qed.
Lemma saved_untouched d : unattended d -> untouched_copy {| fields := d; loaded := Some d |}.
Proof. intros Hu. exists d. repeat split; try done; try apply Hu. by left. Qed.

(** The invariant after a save that left the record [d] *)
Lemma ok_after_save w i d fs iss fin :
  web_ok w -> consistent (with_record d i {| fields := d; loaded := Some d |} (sys w)) -> unattended d -> leased_to iss d ->
  sealed {| sys := sys w; files := fs; issued := iss; finished := fin |} d -> (forall e, known (issued w) e -> known iss e) -> NoDup iss.*1 ->
  web_ok {| sys := with_record d i {| fields := d; loaded := Some d |} (sys w); files := fs; issued := iss; finished := fin |}.
Proof.
  intros Hw Hc Hu Hl Hs Hk Hnd. split; cbn; [done|by exists d| |intros j r Hj|done].
  - intros e [->|He]%snapshot_with_record; [|by apply Hk, (o_snapshots w Hw)]. destruct Hl as [Hl|(rest & Hl)]; [by left|right; rewrite Hl; by left].
  - apply lookup_insert_Some in Hj as [[_ <-]|[_ Hj]]; [by apply saved_untouched|by apply (o_copies w Hw j)].
Qed.

(** *** What a claim writes *)

Section granted.
Context (now : Z) (h : Host) (request_id token ref : string) (readiness : option (pyval * pyval)).
#[local] Abbreviation granted_ := (granted isoformat digest lease_seconds recovery_seconds now h request_id token ref readiness).

Definition claim_fields : list string :=
  ["host"; "execution_member_id"; "execution_installation_id"; "claimed_at"; "execution_started_at"; "recovery_expires_at"; "lease_expires_at"; "lease_updated_at"; "lease_token";
   "claim_request_id"; "pushed_ref"; "claim_history"; "start_head"].
(** A property that the assignments of these fields keep, and the note of the readiness in the snapshot *)
Lemma granted_keeps (P : values -> Prop) r :
  (forall n v f, n ∈ claim_fields -> P f -> P (<[n := v]> f)) ->
  (forall v f, P f -> P (<["env_snapshot" := PDict (dset "worker_readiness" v (env_snapshot f))]> f)) -> P r -> P (granted_ r).
Proof.
  intros H1 H2 Hr. assert (HI : forall n v f, bool_decide (n ∈ claim_fields) = true -> P f -> P (<[n := v]> f)) by (intros n v f Hn; apply H1; by apply bool_decide_eq_true in Hn).
  unfold granted, renew. cbv zeta. set (r1 := <["execution_installation_id" := _]> _).
  assert (P1 : P r1) by (unfold r1; repeat apply HI; done). clearbody r1.
  set (r2 := if nonempty (text "claimed_at" r1) then r1 else _). assert (P2 : P r2) by (unfold r2; destruct (nonempty _); [done|by apply HI]). clearbody r2.
  set (r3 := if nonempty (text "execution_started_at" r2) then r2 else _). assert (P3 : P r3) by (unfold r3; destruct (nonempty _); [done|by apply HI]). clearbody r3.
  set (r4 := match readiness with Some _ => _ | None => _ end).
  assert (P4 : P r4) by (unfold r4; destruct readiness as [[c e]|]; [destruct (negb _); [by apply H2|done]|done]). clearbody r4.
  destruct (bool_decide _); repeat apply HI; done.
Qed.
Lemma granted_lookup n r : n ∉ claim_fields -> n <> "env_snapshot" -> granted_ r !! n = r !! n.
Proof.
  intros Hn He. apply (granted_keeps (fun f => f !! n = r !! n)); [intros m v f Hm <-|intros v f <-|done]; apply lookup_insert_ne; [|done]. intros ->. done.
Qed.
Lemma granted_whole r : whole r -> whole (granted_ r).
Proof.
  intros Hw. apply (granted_keeps whole); [intros n v f Hn Hf|intros v f Hf|done]; apply whole_insert; try done; [|field_name].
  assert (Hsub : forallb (fun n => bool_decide (n ∈ field_names)) claim_fields = true) by (vm_compute; reflexivity).
  rewrite forallb_forall in Hsub. apply list_elem_of_In, Hsub, bool_decide_eq_true in Hn. done.
Qed.
Lemma granted_unattended r : unattended r -> unattended (granted_ r).
Proof.
  intros Hu. apply (granted_keeps unattended); [intros n v f Hn Hf|intros v f [H1 H2]|done].
  - destruct Hf as [H1 H2]. unfold unattended, env_snapshot in *. rewrite !field_insert_ne; [done|intros <-|intros <-]; by apply (bool_decide_eq_true_2 _) in Hn.
  - unfold unattended. rewrite field_insert_ne by done. split; [done|]. unfold env_snapshot at 1. rewrite field_insert. unfold pget in *. by rewrite dget_dset_ne.
Qed.
Lemma granted_token r : text "lease_token" (granted_ r) = token.
Proof. unfold granted. cbv zeta. destruct (bool_decide _); rewrite !text_insert_ne by done; apply text_insert. Qed.
Lemma granted_host r : text "host" (granted_ r) = h_name h.
Proof.
  unfold granted, renew. cbv zeta. set (r1 := <["execution_installation_id" := _]> _).
  assert (P1 : text "host" r1 = h_name h) by (unfold r1; rewrite !text_insert_ne by done; apply text_insert). clearbody r1.
  set (r2 := if nonempty (text "claimed_at" r1) then r1 else _). assert (P2 : text "host" r2 = h_name h) by (unfold r2; destruct (nonempty _); [done|by rewrite text_insert_ne]). clearbody r2.
  set (r3 := if nonempty (text "execution_started_at" r2) then r2 else _). assert (P3 : text "host" r3 = h_name h) by (unfold r3; destruct (nonempty _); [done|by rewrite text_insert_ne]). clearbody r3.
  set (r4 := match readiness with Some _ => _ | None => _ end).
  assert (P4 : text "host" r4 = h_name h) by (unfold r4; destruct readiness as [[c e]|]; [destruct (negb _); [by rewrite text_insert_ne|done]|done]). clearbody r4.
  destruct (bool_decide _); by rewrite !text_insert_ne.
Qed.
End granted.

(** *** The steps *)

Lemma unattended_finished ps fs r : unattended r -> process_finished ps fs r = match exit_file fs with Some _ => true | None => false end.
Proof. intros [H1 H2]. unfold process_finished. by rewrite H2, H1. Qed.
Lemma sealed_open w d : sealed w d -> exit_file (files w) = None -> finished w = None.
Proof. unfold sealed. destruct (finished w) as [[[? ?] ?]|]; [intros (-> & _) ?; done|done]. Qed.

Lemma step_load w i dir r : web_ok w -> load dir (record (sys w)) = Ok r ->
  web_ok {| sys := {| record := record (sys w); copies := <[i := r]> (copies (sys w)) |}; files := files w; issued := issued w; finished := finished w |}.
Proof.
  intros [Hc (cur & Hcur & Hu & Hl & Hs) Hk Hcp Hn] Hload. pose proof (loaded_record (sys w) dir r cur Hc Hcur Hload) as (Hf & Hb & _).
  split; cbn; [apply (consistent_step (sys w)); [done|by apply (sys_load _ i dir)]|by exists cur| |intros j r1 Hj|done].
  - intros d [Hd|(j & r1 & Hj & Hl1)]; [by apply Hk; left|]. cbn in Hj. apply lookup_insert_Some in Hj as [[_ <-]|[_ Hj]]; [|apply Hk; right; eauto].
    rewrite Hb in Hl1. injection Hl1 as <-. assert (Hkc : known (issued w) cur) by (apply Hk; by left). unfold known in *. by rewrite Hf, text_insert_ne.
  - apply lookup_insert_Some in Hj as [[_ <-]|[_ Hj]]; [by apply (loaded_untouched (sys w) dir r cur)|by apply (Hcp j)].
Qed.
Lemma step_change w i r f : web_ok w -> copies (sys w) !! i = Some r -> controller_change (fields r) f ->
  web_ok {| sys := {| record := record (sys w); copies := <[i := {| fields := f; loaded := loaded r |}]> (copies (sys w)) |}; files := files w; issued := issued w; finished := finished w |}.
Proof.
  intros [Hc (cur & Hcur & Hu & Hl & Hs) Hk Hcp Hn] Hi (Hw & Hv & Huf & Hh & Hp & Ht).
  split; cbn; [apply (consistent_step (sys w)); [done|by apply (sys_change _ i r f)]|by exists cur| |intros j r1 Hj|done].
  - intros d [Hd|(j & r1 & Hj & Hl1)]; [by apply Hk; left|]. cbn in Hj. apply lookup_insert_Some in Hj as [[_ <-]|[_ Hj]]; apply Hk; right; eauto.
  - apply lookup_insert_Some in Hj as [[_ <-]|[_ Hj]]; [|by apply (Hcp j)]. destruct (Hcp i r Hi) as (base & Hb & _ & Hh0 & Hp0 & Ht0).
    exists base. cbn. split; [done|]. split; [done|]. split; [congruence|]. split; [congruence|]. destruct Ht as [-> | ->]; [done|by right].
Qed.

Lemma step_save w i r dir r' d o : web_ok w -> copies (sys w) !! i = Some r -> save_locked dir r (record (sys w)) = Ok (r', d, o) ->
  web_ok {| sys := with_record d i r' (sys w); files := files w; issued := issued w; finished := finished w |}.
Proof.
  intros Hw Hi Hsave. pose proof Hw as [Hc (cur & Hcur & Hu & Hl & Hs) Hk Hcp Hn]. destruct (Hcp i r Hi) as (base & Hb & Hur & Hh & Hp & Ht).
  destruct (save_step (sys w) i r dir r' d o cur base Hc Hcur Hi Hb Hsave) as (-> & Hc' & v & Hsv).
  assert (Hhost : text "host" d = text "host" cur) by (apply (saved_kept _ _ _ _ _ _ _ Hsv); [field_name|field_name|done]).
  assert (Hhead : text "pushed_head" d = text "pushed_head" cur) by (apply (saved_kept _ _ _ _ _ _ _ Hsv); [field_name|field_name|done]).
  apply ok_after_save; try done.
  - apply (unattended_from d (fields r) cur); [done|done|apply (sv_from _ _ _ _ _ _ Hsv)].
  - unfold leased_to. rewrite Hhost. destruct Ht as [Ht|Ht].
    + assert (Htok : text "lease_token" d = text "lease_token" cur) by (apply (saved_kept _ _ _ _ _ _ _ Hsv); [field_name|field_name|done]). by rewrite Htok.
    + destruct (differs (fields r) base "lease_token") eqn:Hd.
      * destruct (sv_claim _ _ _ _ _ _ Hsv Hd) as [-> Hag]. left. rewrite (saved_fresh _ _ _ _ _ _ "lease_token" Hsv eq_refl Hag) by field_name.
        unfold text. by rewrite Ht.
      * pose proof (sv_written _ _ _ _ _ _ Hsv) as Hwr. assert (Htok : text "lease_token" d = text "lease_token" cur).
        { destruct o; [|apply text_field, Hwr; field_name]. specialize (Hwr "lease_token" ltac:(field_name) ltac:(field_name)). unfold written_field in Hwr. rewrite Hd in Hwr. by apply text_py_eq. }
        by rewrite Htok.
  - unfold sealed in *. cbn. destruct (finished w) as [[[hd res] code]|]; [by rewrite Hhead|done].
Qed.

Lemma step_claim w i r ps dir now now' h request_id token ref readiness payload r' d o :
  web_ok w -> copies (sys w) !! i = Some r -> claimable_ ps (files w) now now' (fields r) = Ok true -> token <> "" -> token ∉ (issued w).*1 ->
  grant_ dir now h request_id token ref readiness payload r (record (sys w)) = Ok (r', d, o) ->
  web_ok {| sys := with_record d i r' (sys w); files := files w; issued := (token, h_name h) :: issued w; finished := finished w |}.
Proof.
  intros Hw Hi Hcl Hne Hfresh Hgrant. pose proof Hw as [Hc (cur & Hcur & Hu & Hl & Hs) Hk Hcp Hn]. destruct (Hcp i r Hi) as (base & Hb & Hur & Hh & Hp & Ht).
  set (f := <["claim_response" := payload (granted isoformat digest lease_seconds recovery_seconds now h request_id token ref readiness (fields r))]> (granted isoformat digest lease_seconds recovery_seconds now h request_id token ref readiness (fields r))).
  assert (Hsave : save_locked dir {| fields := f; loaded := loaded r |} (record (sys w)) = Ok (r', d, o)).
  { unfold grant in Hgrant. cbv zeta in Hgrant. fold f in Hgrant. revert Hgrant. destruct (save_locked _ _ _) as [x|[]]; [by intros [= ->]|done..]. }
  destruct (copies_whole (sys w) Hc i r Hi) as [Hwr Hver].
  assert (Hwf : whole f) by (unfold f; apply whole_insert; [by apply granted_whole|field_name]).
  assert (Hfv : f !! "record_version" = fields r !! "record_version") by (unfold f; rewrite lookup_insert_ne by done; apply granted_lookup; [by apply (bool_decide_eq_false _); vm_compute|done]).
  set (s1 := {| record := record (sys w); copies := <[i := {| fields := f; loaded := loaded r |}]> (copies (sys w)) |}).
  assert (Hc1 : consistent s1) by (apply (consistent_step (sys w)); [done|by apply (sys_change _ i r f)]).
  destruct (save_step s1 i {| fields := f; loaded := loaded r |} dir r' d o cur base Hc1 Hcur) as (-> & Hc2 & v & Hsv); [apply lookup_insert_eq|done|done|].
  unfold s1 in Hc2. rewrite with_record_twice in Hc2. cbn [fields] in Hsv.
  assert (Htf : text "lease_token" f = token) by (unfold f; rewrite text_insert_ne by done; apply granted_token).
  assert (Hhf : text "host" f = h_name h) by (unfold f; rewrite text_insert_ne by done; apply granted_host).
  assert (Hkb : known (issued w) base) by (apply Hk; right; eauto).
  assert (Hd : differs f base "lease_token" = true).
  { unfold differs. apply negb_true_iff, not_true_is_false. intros He%text_py_eq. rewrite Htf in He. destruct Hkb as [Hkb|Hkb]; [by rewrite He in Hne|by rewrite <- He in Hkb]. }
  destruct (sv_claim _ _ _ _ _ _ Hsv Hd) as [-> Hag].
  assert (Hopen : finished w = None).
  { apply (sealed_open w cur Hs). revert Hcl. unfold claimable. rewrite (unattended_finished ps (files w) (fields r) Hur). destruct (exit_file (files w)); [|done].
    by rewrite orb_true_r. }
  apply ok_after_save; [done|done| | | |intros e [He|He]; [by left|right; by right]|by constructor].
  - apply (unattended_from d f cur); [|done|apply (sv_from _ _ _ _ _ _ Hsv)]. unfold f. destruct (granted_unattended now h request_id token ref readiness (fields r) Hur) as [G1 G2].
    unfold unattended, env_snapshot in *. by rewrite !field_insert_ne.
  - right. exists (issued w). rewrite !(saved_fresh _ _ _ _ _ _ _ Hsv eq_refl Hag) by field_name. by rewrite Htf, Hhf.
  - unfold sealed in *. cbn. rewrite Hopen in Hs. by rewrite Hopen.
Qed.

#[local] Abbreviation ensure_claimed_ := (ensure_claimed isoformat fromisoformat float recovery_seconds default_timeout product_timeout_minutes).
#[local] Abbreviation renewed_ := (renewed isoformat fromisoformat float lease_seconds recovery_seconds default_timeout product_timeout_minutes).

Lemma ensured ps fs now r h token :
  ensure_claimed_ ps fs now r h token = Ok tt -> process_finished ps fs r = false /\ text "host" r = h_name h /\ text "lease_token" r = token /\ token <> "".
Proof.
  unfold ensure_claimed. destruct (negb _ || process_finished ps fs r) eqn:E1; [done|]. apply orb_false_iff in E1 as [_ E1].
  intros (dl & _ & H)%bind_Ok. destruct (match dl with Some _ => _ | None => _ end); [done|].
  destruct (negb (bool_decide (text "host" r = h_name h))) eqn:E2; [done|]. apply negb_false_iff, bool_decide_eq_true in E2.
  destruct (negb (nonempty token) || _) eqn:E3; [done|]. apply orb_false_iff in E3 as [E3 E4]. apply negb_false_iff, bool_decide_eq_true in E4.
  split; [done|]. split; [done|]. split; [done|]. intros ->. done.
Qed.

Definition lease_fields : list string := ["recovery_expires_at"; "lease_expires_at"; "lease_updated_at"].
Lemma renewed_keeps (P : values -> Prop) now now' r f :
  (forall n v g, n ∈ lease_fields -> P g -> P (<[n := v]> g)) -> P r -> renewed_ now now' r = Ok f -> P f.
Proof.
  intros HP Hr. assert (HI : forall n v g, bool_decide (n ∈ lease_fields) = true -> P g -> P (<[n := v]> g)) by (intros n v g Hn; apply HP; by apply bool_decide_eq_true in Hn).
  unfold renewed. intros (dl & _ & (r2 & H2 & [= <-])%bind_Ok)%bind_Ok. apply HI; [done|].
  assert (P1 : P (renew isoformat lease_seconds recovery_seconds now r)) by (unfold renew; by repeat apply HI).
  destruct dl as [t|]; [|by injection H2 as <-]. apply bind_Ok in H2 as (t' & _ & [= <-]). by apply HI.
Qed.
Lemma renewed_field now now' r f n : renewed_ now now' r = Ok f -> mem n lease_fields = false -> field n f = field n r.
Proof. intros H Hn%mem_false. apply (renewed_keeps (fun g => field n g = field n r) now now' r f); [|done|done]. intros m v g Hm <-. apply field_insert_ne. by intros ->. Qed.
Lemma renewed_version now now' r f : renewed_ now now' r = Ok f -> f !! "record_version" = r !! "record_version".
Proof.
  intros H. apply (renewed_keeps (fun g => g !! "record_version" = r !! "record_version") now now' r f); [|done|done]. intros m v g Hm <-. apply lookup_insert_ne. intros ->.
  by apply (bool_decide_eq_true_2 _) in Hm.
Qed.
Lemma renewed_whole now now' r f : renewed_ now now' r = Ok f -> whole r -> whole f.
Proof.
  intros H Hr. apply (renewed_keeps whole now now' r f); [|done|done]. intros n v g Hn Hg. apply whole_insert; [done|].
  assert (Hsub : forallb (fun n => bool_decide (n ∈ field_names)) lease_fields = true) by (vm_compute; reflexivity).
  rewrite forallb_forall in Hsub. by apply list_elem_of_In, Hsub, bool_decide_eq_true in Hn.
Qed.

Lemma append_transcript_files chunk offset fs fs' : append_transcript chunk offset fs = Ok fs' -> exit_file fs' = exit_file fs /\ remote_result fs' = remote_result fs.
Proof. unfold append_transcript. destruct (negb _); [by intros [= <-]|]. destruct (_ <? _); [destruct (bool_decide _); [by intros [= <-]|done]|]. destruct (_ <? _); [done|]. by intros [= <-]. Qed.

(** A heartbeat, accepted or not, leaves the result alone; one that is accepted was ensured on the record that it read and saved. *)
Lemma heartbeat_inv ps dir now now1 now2 h facts scope token chunk offset fs rec fs' res :
  heartbeat_ ps dir now now1 now2 h facts scope token chunk offset fs rec = (fs', res) ->
  exit_file fs' = exit_file fs /\ remote_result fs' = remote_result fs /\
  forall x, res = Ok x -> exists r f, load dir rec = Ok r /\ ensure_claimed_ ps fs now (fields r) h token = Ok tt /\ renewed_ now1 now2 (fields r) = Ok f /\
    save_locked dir {| fields := f; loaded := loaded r |} rec = Ok x.
Proof.
  unfold heartbeat. destruct (_ ≫= _) as [[r fs1]|e] eqn:E; [|by intros [= <- <-]]. intros [= <- <-].
  apply bind_Ok in E as (? & _ & (r0 & Hl & (? & _ & ([] & He & (fs2 & Ha & [= <- <-])%bind_Ok)%bind_Ok)%bind_Ok)%bind_Ok).
  destruct (append_transcript_files _ _ _ _ Ha) as [H1 H2]. split; [done|]. split; [done|]. intros y (f & Hf & Hs)%bind_Ok.
  exists r0, f. split; [by destruct (load dir rec); [injection Hl as ->|]|]. split; [done|]. split; [done|].
  destruct (save_locked _ _ _); [by injection Hs as ->|done].
Qed.

Lemma finish_inv ps dir now now1 h facts scope body fs rec r result code :
  finish_ ps dir now now1 h facts scope body fs rec = Ok (Accepted r result code) ->
  exists r0, load dir rec = Ok r0 /\ ensure_claimed_ ps fs now (fields r0) h (body_text "lease_token" body) = Ok tt /\ result = posted body /\ result_shape body = Ok code /\
    r = set_field "final_received_at" (PStr (isoformat now1)) (set_field "pushed_head" (PStr (body_text "pushed_head" body)) r0).
Proof.
  unfold finish. intros (c & Hc & (? & _ & (r0 & Hl & (? & _ & H)%bind_Ok)%bind_Ok)%bind_Ok)%bind_Ok.
  destruct (_ || _); [done|]. destruct (process_finished ps fs (fields r0)); [by destruct (_ && _)|]. apply bind_Ok in H as ([] & He & [= <- <- <-]).
  exists r0. split; [by destruct (load dir rec); [injection Hl as ->|]|]. done.
Qed.

Lemma kept_names n : n ∈ ["lease_token"; "host"; "pid"; "env_snapshot"] -> mem n lease_fields = false /\ n <> "pushed_head" /\ n <> "final_received_at" /\ n <> "dir".
Proof. intros H. repeat (apply elem_of_cons in H as [->|H]; [done|]). by apply elem_of_nil in H. Qed.
(** A save under the lock that keeps the token and the host *)
Lemma ok_after_locked_save w i dir r f r' d o fs fin cur :
  web_ok w -> record (sys w) = Some cur -> load dir (record (sys w)) = Ok r -> whole f -> f !! "record_version" = fields r !! "record_version" ->
  (forall n, n ∈ ["lease_token"; "host"; "pid"; "env_snapshot"] -> field n f = field n (fields r)) ->
  save_locked dir {| fields := f; loaded := loaded r |} (record (sys w)) = Ok (r', d, o) ->
  (text "pushed_head" d = text "pushed_head" f -> sealed {| sys := sys w; files := fs; issued := issued w; finished := fin |} d) ->
  web_ok {| sys := with_record d i r' (sys w); files := fs; issued := issued w; finished := fin |}.
Proof.
  intros Hw Hcur Hl Hwf Hv Hkeep Hsave Hseal. pose proof Hw as [Hc (cur' & Hcur' & Hu & Hlt & Hs) Hk Hcp Hn]. rewrite Hcur in Hcur'. injection Hcur' as <-.
  destruct (loaded_record (sys w) dir r cur Hc Hcur Hl) as (Hf & _).
  destruct (fresh_save (sys w) i dir r f r' d o cur Hc Hcur Hl Hwf Hv Hsave) as (-> & Hc' & Htext & Hfrom).
  assert (Hsame : forall n, n ∈ ["lease_token"; "host"; "pid"; "env_snapshot"] -> field n f = field n cur).
  { intros n Hi. rewrite (Hkeep n Hi), Hf. apply field_insert_ne. by apply kept_names. }
  assert (Huf : unattended f).
  { destruct Hu as [U1 U2]. unfold unattended, env_snapshot in *. rewrite !Hsame; [done|..]; apply (bool_decide_unpack _); vm_compute; exact I. }
  apply ok_after_save; try done.
  - by apply (unattended_from d f cur).
  - unfold leased_to. rewrite !Htext by field_name. rewrite (text_field "lease_token" f cur), (text_field "host" f cur); [done|..]; apply Hsame, (bool_decide_unpack _); vm_compute; exact I.
  - apply Hseal, Htext; field_name.
Qed.

Lemma step_heartbeat w i ps dir now now1 now2 h facts scope token chunk offset fs r' d o :
  web_ok w -> heartbeat_ ps dir now now1 now2 h facts scope token chunk offset (files w) (record (sys w)) = (fs, Ok (r', d, o)) ->
  web_ok {| sys := with_record d i r' (sys w); files := fs; issued := issued w; finished := finished w |}.
Proof.
  intros Hw Hh. destruct (heartbeat_inv _ _ _ _ _ _ _ _ _ _ _ _ _ _ _ Hh) as (Hx & Hr & Hok). destruct (Hok _ eq_refl) as (r & f & Hl & He & Hf & Hs).
  destruct (o_record w Hw) as (cur & Hcur & Hu & _ & Hseal). destruct (loaded_record (sys w) dir r cur (o_consistent w Hw) Hcur Hl) as (Hfr & _ & Hwr).
  assert (Hopen : exit_file (files w) = None).
  { destruct (ensured _ _ _ _ _ _ He) as [Hp _]. rewrite (unattended_finished ps) in Hp by (rewrite Hfr; by apply unattended_dir). by destruct (exit_file (files w)). }
  pose proof (sealed_open w cur Hseal Hopen) as Hfin.
  apply (ok_after_locked_save w i dir r f r' d o fs (finished w) cur); [done|done|done|by apply (renewed_whole now1 now2 (fields r))|by apply (renewed_version now1 now2)| |done|].
  - intros n Hn. apply (renewed_field now1 now2); [done|]. by apply kept_names.
  - intros _. unfold sealed in *. cbn. rewrite Hfin in *. by rewrite Hx.
Qed.

Lemma finish_record w i dir r0 now1 head r' d o fs fin cur :
  web_ok w -> record (sys w) = Some cur -> load dir (record (sys w)) = Ok r0 ->
  save_locked dir (set_field "final_received_at" (PStr (isoformat now1)) (set_field "pushed_head" (PStr head) r0)) (record (sys w)) = Ok (r', d, o) ->
  (text "pushed_head" d = head -> sealed {| sys := sys w; files := fs; issued := issued w; finished := fin |} d) ->
  web_ok {| sys := with_record d i r' (sys w); files := fs; issued := issued w; finished := fin |}.
Proof.
  intros Hw Hcur Hl Hs Hseal. destruct (loaded_record (sys w) dir r0 cur (o_consistent w Hw) Hcur Hl) as (Hfr & _ & Hwr).
  refine (ok_after_locked_save w i dir r0 (<["final_received_at" := PStr (isoformat now1)]> (<["pushed_head" := PStr head]> (fields r0))) r' d o fs fin cur Hw Hcur Hl _ _ _ Hs _).
  - apply whole_insert; [apply whole_insert; [done|]|]; field_name.
  - rewrite lookup_insert_ne by discriminate. by apply lookup_insert_ne.
  - intros n Hn. by rewrite !field_insert_ne by (by apply kept_names).
  - intros Hh. apply Hseal. rewrite Hh, text_insert_ne by done. apply text_insert.
Qed.

Lemma finish_open w ps dir now now1 h facts scope body r result code cur :
  web_ok w -> record (sys w) = Some cur -> finish_ ps dir now now1 h facts scope body (files w) (record (sys w)) = Ok (Accepted r result code) -> finished w = None.
Proof.
  intros Hw Hcur Hf. destruct (finish_inv _ _ _ _ _ _ _ _ _ _ _ _ _ Hf) as (r0 & Hl & He & _). destruct (o_record w Hw) as (cur' & Hcur' & Hu & _ & Hseal).
  destruct (loaded_record (sys w) dir r0 cur' (o_consistent w Hw) Hcur' Hl) as (Hfr & _). destruct (ensured _ _ _ _ _ _ He) as [Hp _].
  rewrite (unattended_finished ps) in Hp by (rewrite Hfr; by apply unattended_dir). apply (sealed_open w cur' Hseal). by destruct (exit_file (files w)).
Qed.

Lemma web_step_ok w w' : web_step w w' -> web_ok w -> web_ok w'.
Proof.
  intros Hst Hw. destruct (o_record w Hw) as (cur & Hcur & Hu & Hl & Hseal).
  destruct Hst as [i dir r H|i r f Hi H|i r dir r' d o Hi H|i r ps dir now now' h request_id token ref readiness payload r' d o Hi H1 H2 H3 H4
    |i ps dir now now1 now2 h facts scope token chunk offset fs r' d o H|ps dir now now1 now2 h facts scope token chunk offset fs e H
    |ps dir now now1 h facts scope body r result code H|i ps dir now now1 h facts scope body r result code r' d o H Hs|i ps dir now now1 h facts scope body r result code r' d o H Hs].
  - by apply (step_load w i dir).
  - by apply step_change.
  - by apply (step_save w i r dir r' d o).
  - by apply (step_claim w i r ps dir now now' h request_id token ref readiness payload r' d o).
  - by apply (step_heartbeat w i ps dir now now1 now2 h facts scope token chunk offset fs r' d o).
  - destruct (heartbeat_inv _ _ _ _ _ _ _ _ _ _ _ _ _ _ _ H) as (Hx & Hr & _). destruct Hw as [Hc _ Hk Hcp Hn]. split; try done.
    exists cur. split; [done|]. split; [done|]. split; [done|]. unfold sealed in *. cbn. by rewrite Hx, Hr.
  - pose proof (finish_open w _ _ _ _ _ _ _ _ _ _ _ cur Hw Hcur H) as Hfin. destruct Hw as [Hc _ Hk Hcp Hn]. split; try done.
    exists cur. split; [done|]. split; [done|]. split; [done|]. unfold sealed in *. cbn. by rewrite Hfin in *.
  - pose proof (finish_open w _ _ _ _ _ _ _ _ _ _ _ cur Hw Hcur H) as Hfin. destruct (finish_inv _ _ _ _ _ _ _ _ _ _ _ _ _ H) as (r0 & Hl0 & _ & _ & _ & ->).
    apply (finish_record w i dir r0 now1 (body_text "pushed_head" body) r' d o _ _ cur Hw Hcur Hl0 Hs). intros _. unfold sealed in *. cbn. by rewrite Hfin in *.
  - destruct (finish_inv _ _ _ _ _ _ _ _ _ _ _ _ _ H) as (r0 & Hl0 & _ & -> & _ & ->).
    apply (finish_record w i dir r0 now1 (body_text "pushed_head" body) r' d o _ _ cur Hw Hcur Hl0 Hs). intros Hd. unfold sealed. cbn [finished files exit_file remote_result write_exit write_result].
    split; [done|]. split; [done|]. rewrite Hd. cbn [fields set_field]. rewrite text_insert_ne by done. symmetry. apply text_insert.
Qed.

Lemma queued_ok w : queued w -> web_ok w.
Proof.
  intros ((d & Hd & Hwf & Ht & Hu) & Hc & Hx & Hi & Hf). assert (Hinit : initial (sys w)) by (split; [done|by rewrite Hd]).
  split; [by apply initial_consistent| |intros e He|intros i r H; by rewrite Hc, lookup_empty in H|rewrite Hi; constructor].
  - exists d. split; [done|]. split; [done|]. split; [by left|]. unfold sealed. by rewrite Hf.
  - destruct He as [He|(i & r & H & _)]; [|by rewrite Hc, lookup_empty in H]. rewrite Hd in He. injection He as <-. by left.
Qed.
Lemma web_reachable w0 w : queued w0 -> rtc web_step w0 w -> web_ok w.
Proof. intros H%queued_ok Hr. revert H. induction Hr as [|x y z Hxy _ IH]; [done|]. intros Hx. apply IH. by apply (web_step_ok x). Qed.

Lemma ensured_holder w dir r ps now h token :
  web_ok w -> load dir (record (sys w)) = Ok r -> ensure_claimed_ ps (files w) now (fields r) h token = Ok tt -> exists rest, issued w = (token, h_name h) :: rest.
Proof.
  intros Hw Hl He. destruct (o_record w Hw) as (cur & Hcur & _ & Hlt & _). destruct (loaded_record (sys w) dir r cur (o_consistent w Hw) Hcur Hl) as (Hf & _).
  destruct (ensured _ _ _ _ _ _ He) as (_ & Hh & Ht & Hne). rewrite Hf, text_insert_ne in Hh, Ht by done.
  destruct Hlt as [Hz|(rest & Hr)]; [congruence|]. exists rest. by rewrite Hr, Ht, Hh.
Qed.

(** C21.  (Safety.)  Claims decided on stale copies, heartbeats, results interrupted between their writes and the scheduler's changes and revocations
    interleave on one remote run.  A heartbeat or a result that is accepted carries the token of the very last claim that was granted, and comes
    from the host it was granted to; no token is granted twice.  So from the moment a run is claimed again, every earlier worker is refused. *)
Theorem lease_fences_earlier_workers w0 w :
  queued w0 -> rtc web_step w0 w ->
  NoDup (issued w).*1 /\
  (forall ps dir now now1 now2 h facts scope token chunk offset fs x,
    heartbeat_ ps dir now now1 now2 h facts scope token chunk offset (files w) (record (sys w)) = (fs, Ok x) -> exists rest, issued w = (token, h_name h) :: rest) /\
  (forall ps dir now now1 h facts scope body r result code,
    finish_ ps dir now now1 h facts scope body (files w) (record (sys w)) = Ok (Accepted r result code) -> exists rest, issued w = (body_text "lease_token" body, h_name h) :: rest).
Proof.
  intros H0 Hr. pose proof (web_reachable w0 w H0 Hr) as Hw. split; [apply (o_issued w Hw)|]. split.
  - intros ps dir now now1 now2 h facts scope token chunk offset fs x H. destruct (heartbeat_inv _ _ _ _ _ _ _ _ _ _ _ _ _ _ _ H) as (_ & _ & Hok).
    destruct (Hok x eq_refl) as (r & f & Hl & He & _). by apply (ensured_holder w dir r ps now).
  - intros ps dir now now1 h facts scope body r result code H. destruct (finish_inv _ _ _ _ _ _ _ _ _ _ _ _ _ H) as (r0 & Hl & He & _).
    by apply (ensured_holder w dir r0 ps now).
Qed.

(** *** An accepted result stays *)

Lemma finished_step w w' x : web_ok w -> web_step w w' -> finished w = Some x -> finished w' = Some x.
Proof.
  intros Hw Hst Hx. destruct (o_record w Hw) as (cur & Hcur & _). destruct Hst; try done.
  match goal with H : finish _ _ _ _ _ _ _ _ _ _ _ _ _ _ _ _ = _ |- _ => pose proof (finish_open w _ _ _ _ _ _ _ _ _ _ _ cur Hw Hcur H) end. congruence.
Qed.
Lemma finished_stays w w' x : web_ok w -> rtc web_step w w' -> finished w = Some x -> finished w' = Some x /\ web_ok w'.
Proof. intros Hw Hr. induction Hr as [|a b c Hab _ IH]; [done|]. intros Hx. apply IH; [by apply (web_step_ok a)|by apply (finished_step a)]. Qed.
Lemma finish_already ps dir now now1 h facts scope body fs rec :
  finish_ ps dir now now1 h facts scope body fs rec = Ok AlreadyFinished ->
  exists r code, load dir rec = Ok r /\ result_shape body = Ok code /\ text "pushed_head" (fields r) = body_text "pushed_head" body /\ read_exit_code fs = Some code /\
    py_eq (default (PDict []) (remote_result fs)) (posted body) = true.
Proof.
  unfold finish. intros (c & Hc & (? & _ & (r0 & Hl & (? & _ & H)%bind_Ok)%bind_Ok)%bind_Ok)%bind_Ok. destruct (_ || _); [done|].
  destruct (process_finished ps fs (fields r0)); [|by apply bind_Ok in H as ([] & _ & H)].
  destruct (bool_decide _ && _ && _) eqn:E; [|done]. apply andb_true_iff in E as [[E1%bool_decide_eq_true E2%bool_decide_eq_true]%andb_true_iff E3].
  exists r0, c. split; [by destruct (load dir rec); [injection Hl as ->|]|]. done.
Qed.

(** C22.  (Safety.)  Once a result is accepted it is the result of the run for ever: whatever workers, retries and the scheduler do afterwards,
    the published head, the posted result and the exit code stay; no claim is granted, no heartbeat and no other result is accepted; and a repeated
    result is acknowledged only if it is the accepted one. *)
Theorem accepted_result_is_final w0 w w' head result code :
  queued w0 -> rtc web_step w0 w -> finished w = Some (head, result, code) -> rtc web_step w w' ->
  (exists d, record (sys w') = Some d /\ text "pushed_head" d = head /\ remote_result (files w') = Some result /\ read_exit_code (files w') = Some code) /\
  (forall i r ps now now', copies (sys w') !! i = Some r -> claimable_ ps (files w') now now' (fields r) <> Ok true) /\
  (forall ps dir now now1 now2 h facts scope token chunk offset fs x,
    heartbeat_ ps dir now now1 now2 h facts scope token chunk offset (files w') (record (sys w')) <> (fs, Ok x)) /\
  (forall ps dir now now1 h facts scope body answer,
    finish_ ps dir now now1 h facts scope body (files w') (record (sys w')) = Ok answer ->
    answer = AlreadyFinished /\ body_text "pushed_head" body = head /\ py_eq result (posted body) = true /\ result_shape body = Ok code).
Proof.
  intros H0 Hr Hfin Hr'. destruct (finished_stays w w' _ (web_reachable w0 w H0 Hr) Hr' Hfin) as [Hfin' Hw].
  destruct (o_record w' Hw) as (d & Hd & Hu & _ & Hseal). unfold sealed in Hseal. rewrite Hfin' in Hseal. destruct Hseal as (Hx & Hres & Hhead).
  assert (Hcode : read_exit_code (files w') = Some code).
  { unfold read_exit_code. rewrite Hx. f_equal. rewrite (show_nonempty code). by rewrite int_of_show. }
  assert (Hproc : forall ps dir r, load dir (record (sys w')) = Ok r -> process_finished ps (files w') (fields r) = true).
  { intros ps dir r Hl. destruct (loaded_record (sys w') dir r d (o_consistent w' Hw) Hd Hl) as (Hf & _). rewrite (unattended_finished ps) by (rewrite Hf; by apply unattended_dir). by rewrite Hx. }
  split; [by exists d|]. split; [|split].
  - intros i r ps now now' Hi. destruct (o_copies w' Hw i r Hi) as (base & _ & Hur & _). unfold claimable. rewrite (unattended_finished ps) by done. rewrite Hx. by rewrite orb_true_r.
  - intros ps dir now now1 now2 h facts scope token chunk offset fs x H. destruct (heartbeat_inv _ _ _ _ _ _ _ _ _ _ _ _ _ _ _ H) as (_ & _ & Hok).
    destruct (Hok x eq_refl) as (r & f & Hl & He & _). destruct (ensured _ _ _ _ _ _ He) as [Hp _]. by rewrite (Hproc ps dir r Hl) in Hp.
  - intros ps dir now now1 h facts scope body [|r res c] H.
    + destruct (finish_already _ _ _ _ _ _ _ _ _ _ H) as (r & c & Hl & Hc & Hph & Hrc & Heq). rewrite Hcode in Hrc. injection Hrc as <-.
      destruct (loaded_record (sys w') dir r d (o_consistent w' Hw) Hd Hl) as (Hf & _). rewrite Hf, text_insert_ne in Hph by done.
      rewrite Hres in Heq. by repeat split; [rewrite <- Hph|..].
    + pose proof (finish_open w' _ _ _ _ _ _ _ _ _ _ _ d Hw Hd H). congruence.
Qed.
End protocol.

(** ** Witnesses: a claim whose lease runs out, a second claim by another host, and its result *)

Module Remote.
Definition iso (t : Z) : string := show t.
Definition from_iso (s : string) : result exn Z := int_of_str s.
Definition float (v : pyval) : result exn Q := match v with PInt n => Ok (inject_Z n) | _ => Err TypeError end.
Definition hash (s : string) : string := ("sha256:" ++ s)%string.
Definition minutes (product : string) : Q := 60%Q.
Definition processes : Processes := {| own_pid := 1; group_alive := fun _ => false; pid_alive := fun _ => false |}.
Definition host_a : WorkerLease.Host := {| h_name := "host-a"; h_member := ""; h_max_parallel := 1; h_in_place := false |}.
Definition host_b : WorkerLease.Host := {| h_name := "host-b"; h_member := ""; h_max_parallel := 1; h_in_place := false |}.
Definition is_ok {E A} (r : result E A) : bool := match r with Ok _ => true | Err _ => false end.
Definition get {E A} (d : A) (r : result E A) : A := match r with Ok a => a | Err _ => d end.
Lemma get_is_ok {E A} (d : A) (r : result E A) : is_ok r = true -> r = Ok (get d r).
Proof. by destruct r. Qed.

Definition no_run : Run := {| fields := ∅; loaded := None |}.
Definition nothing : Run * values * RunSaveOutcome := (no_run, ∅, SUPERSEDED).
Definition queued_record : values :=
  get ∅ (construct (list_to_map [("task_id", PStr "CG-1"); ("run_id", PStr "r1"); ("dir", PStr "d"); ("runner", PStr "remote"); ("record_version", PInt 1); ("start_head", PStr "abc")])).
Definition empty_files : Files := {| exit_file := None; remote_result := None; WorkerLease.transcript := ""; ssh_rejected := false; ssh_completion := false |}.
Definition web0 : Web := {| sys := {| record := Some queued_record; copies := ∅ |}; files := empty_files; issued := []; finished := None |}.

(** One claim, on a copy that is loaded at index 0 *)
Definition read_run (w : Web) : Run := get no_run (load "d" (record (sys w))).
Definition claim_saved (now : Z) (h : WorkerLease.Host) (token : string) (w : Web) : Run * values * RunSaveOutcome :=
  get nothing (grant iso hash 120 300 "d" now h "request" token "ref" None (fun _ => PDict []) (read_run w) (record (sys w))).
Definition claimed (now : Z) (h : WorkerLease.Host) (token : string) (w : Web) : Web :=
  let x := claim_saved now h token w in
  {| sys := with_record x.1.2 0 x.1.1 {| record := record (sys w); copies := <[0%nat := read_run w]> (copies (sys w)) |}; files := files w; issued := (token, h_name h) :: issued w; finished := finished w |}.
Definition web1 : Web := claimed 1000000000 host_a "token-a" web0.
Definition web2 : Web := claimed 2000000000 host_b "token-b" web1.
Definition body : row := [("lease_token", PStr "token-b"); ("pushed_head", PStr "def"); ("result", PDict []); ("final_text", PStr "done")].
Definition answer : result herr decision := finish iso from_iso float 300 90%Q minutes processes "d" 2000000005 2000000006 host_b (Ok tt) (Ok tt) body empty_files (record (sys web2)).
Definition accepted : Run := match answer with Ok (Accepted r _ _) => r | _ => no_run end.
Definition finish_saved : Run * values * RunSaveOutcome := get nothing (save_locked "d" accepted (record (sys web2))).
Definition web3 : Web :=
  {| sys := with_record finish_saved.1.2 1 finish_saved.1.1 (sys web2); files := write_exit 0 (write_result (posted body) (files web2)); issued := issued web2;
     finished := Some (text "pushed_head" (fields accepted), posted body, 0) |}.

#[local] Abbreviation step := (web_step iso from_iso float hash 120 300 90%Q minutes).
Lemma start_queued : queued web0.
Proof.
  split; [|done]. exists queued_record. split; [done|].
  assert (Hc : construct (list_to_map [("task_id", PStr "CG-1"); ("run_id", PStr "r1"); ("dir", PStr "d"); ("runner", PStr "remote"); ("record_version", PInt 1); ("start_head", PStr "abc")]) = Ok queued_record)
    by (apply (get_is_ok ∅); vm_compute; reflexivity).
  split; [split; [apply (construct_whole _ _ Hc)|exists 1; split; [vm_compute; reflexivity|lia]]|]. split; [vm_compute; reflexivity|]. split; vm_compute; reflexivity.
Qed.
Lemma claim_steps now h token w r x :
  load "d" (record (sys w)) = Ok r -> claimable iso from_iso float 300 90%Q minutes processes (files w) now now (fields r) = Ok true ->
  token <> "" -> token ∉ (issued w).*1 -> grant iso hash 120 300 "d" now h "request" token "ref" None (fun _ => PDict []) r (record (sys w)) = Ok x ->
  rtc step w {| sys := with_record x.1.2 0 x.1.1 {| record := record (sys w); copies := <[0%nat := r]> (copies (sys w)) |}; files := files w; issued := (token, h_name h) :: issued w; finished := finished w |}.
Proof.
  intros Hl Hc Hne Hnew Hg. destruct x as [[r' d] o]. eapply rtc_l; [exact (b_load iso from_iso float hash 120 300 90%Q minutes w 0 "d" r Hl)|]. eapply rtc_l; [|reflexivity].
  set (w' := {| sys := {| record := record (sys w); copies := <[0%nat := r]> (copies (sys w)) |}; files := files w; issued := issued w; finished := finished w |}).
  assert (Hi : copies (sys w') !! 0%nat = Some r) by apply lookup_insert_eq.
  exact (b_claim iso from_iso float hash 120 300 90%Q minutes w' 0 r processes "d" now now h "request" token "ref" None (fun _ => PDict []) r' d o Hi Hc Hne Hnew Hg).
Qed.
Lemma loads_run w : is_ok (load "d" (record (sys w))) = true -> load "d" (record (sys w)) = Ok (read_run w).
Proof. apply get_is_ok. Qed.
Lemma claim_ok now h token w :
  is_ok (grant iso hash 120 300 "d" now h "request" token "ref" None (fun _ => PDict []) (read_run w) (record (sys w))) = true ->
  grant iso hash 120 300 "d" now h "request" token "ref" None (fun _ => PDict []) (read_run w) (record (sys w)) = Ok (claim_saved now h token w).
Proof. apply get_is_ok. Qed.
Lemma claimed_steps now h token w :
  is_ok (load "d" (record (sys w))) = true -> claimable iso from_iso float 300 90%Q minutes processes (files w) now now (fields (read_run w)) = Ok true ->
  token <> "" -> token ∉ (issued w).*1 ->
  is_ok (grant iso hash 120 300 "d" now h "request" token "ref" None (fun _ => PDict []) (read_run w) (record (sys w))) = true -> rtc step w (claimed now h token w).
Proof. intros Hl%loads_run Hc Hne Hnew Hg%claim_ok. exact (claim_steps now h token w _ _ Hl Hc Hne Hnew Hg). Qed.
Lemma claim_a : rtc step web0 web1.
Proof.
  apply (claimed_steps 1000000000 host_a "token-a" web0); [vm_compute; reflexivity|vm_compute; reflexivity|discriminate| |vm_compute; reflexivity].
  apply not_elem_of_nil.
Qed.
Lemma claim_b : rtc step web1 web2.
Proof.
  apply (claimed_steps 2000000000 host_b "token-b" web1); [vm_compute; reflexivity|vm_compute; reflexivity|discriminate| |vm_compute; reflexivity].
  apply (bool_decide_unpack _). vm_compute. exact I.
Qed.
Lemma accepts : answer = Ok (Accepted accepted (posted body) 0).
Proof.
  assert (H : match answer with Ok (Accepted _ r c) => bool_decide (r = posted body /\ c = 0) | _ => false end = true) by (vm_compute; reflexivity).
  unfold accepted. destruct answer as [[|r res c]|]; try done. by apply bool_decide_eq_true in H as [-> ->].
Qed.
Lemma finish_steps now now1 h b w r result code x :
  finish iso from_iso float 300 90%Q minutes processes "d" now now1 h (Ok tt) (Ok tt) b (files w) (record (sys w)) = Ok (Accepted r result code) ->
  save_locked "d" r (record (sys w)) = Ok x ->
  rtc step w {| sys := with_record x.1.2 1 x.1.1 (sys w); files := write_exit code (write_result result (files w)); issued := issued w; finished := Some (text "pushed_head" (fields r), result, code) |}.
Proof.
  intros Hf Hs. destruct x as [[r' d] o]. eapply rtc_l; [|reflexivity].
  exact (b_finish iso from_iso float hash 120 300 90%Q minutes w 1 processes "d" now now1 h (Ok tt) (Ok tt) b r result code r' d o Hf Hs).
Qed.
Lemma finish_ok : is_ok (save_locked "d" accepted (record (sys web2))) = true -> save_locked "d" accepted (record (sys web2)) = Ok finish_saved.
Proof. apply get_is_ok. Qed.
Lemma result_steps : rtc step web2 web3.
Proof.
  assert (H : is_ok (save_locked "d" accepted (record (sys web2))) = true) by (vm_compute; reflexivity).
  exact (finish_steps 2000000005 2000000006 host_b body web2 accepted (posted body) 0 finish_saved accepts (finish_ok H)).
Qed.
End Remote.

(** The first worker is refused after the second claim; its token was good until then. *)
Example first_worker_refused :
  (heartbeat Remote.iso Remote.from_iso Remote.float 120 300 90%Q Remote.minutes Remote.processes "d" 2000000002 2000000003 2000000004 Remote.host_a (Ok tt) (Ok tt) "token-a" "" None
    (files Remote.web2) (record (sys Remote.web2))).2 = refuse 409 "run is leased to another host" /\
  is_Ok (heartbeat Remote.iso Remote.from_iso Remote.float 120 300 90%Q Remote.minutes Remote.processes "d" 1000000002 1000000003 1000000004 Remote.host_a (Ok tt) (Ok tt) "token-a" "" None
    (files Remote.web1) (record (sys Remote.web1))).2 = true.
Proof. split; vm_compute; reflexivity. Qed.

Lemma lease_fences_earlier_workers_witness : NoDup (issued Remote.web2).*1 /\ exists rest, issued Remote.web2 = ("token-b", "host-b") :: rest.
Proof.
  destruct (lease_fences_earlier_workers Remote.iso Remote.from_iso Remote.float Remote.hash 120 300 90%Q Remote.minutes Remote.web0 Remote.web2 Remote.start_queued
    (transitivity Remote.claim_a Remote.claim_b)) as (H1 & _ & H3). split; [exact H1|].
  exact (H3 Remote.processes "d" 2000000005 2000000006 Remote.host_b (Ok tt) (Ok tt) Remote.body Remote.accepted (posted Remote.body) 0 Remote.accepts).
Defined.
Lemma accepted_result_is_final_witness : exists d, record (sys Remote.web3) = Some d /\ text "pushed_head" d = "def" /\ remote_result (files Remote.web3) = Some (posted Remote.body) /\ read_exit_code (files Remote.web3) = Some 0.
Proof.
  assert (Hf : finished Remote.web3 = Some ("def", posted Remote.body, 0)) by (vm_compute; reflexivity).
  exact (proj1 (accepted_result_is_final Remote.iso Remote.from_iso Remote.float Remote.hash 120 300 90%Q Remote.minutes Remote.web0 Remote.web3 Remote.web3 "def" (posted Remote.body) 0 Remote.start_queued
    (transitivity Remote.claim_a (transitivity Remote.claim_b Remote.result_steps)) Hf (rtc_refl _ _))).
Defined.
