(* ===== verification/WorkerClaim.v ===== *)
(** * Which run a polling worker gets ([web/pages/api.py], [claim])

    A worker asks for work with what it offers and how much it can take.  The controller looks at the active runs in queue order,
    composing the admission of the run records ([WorkerLease]), the execution requirements ([Requirements]) and the matching of worker
    instances ([Workers]), notes on the runs it passes over why, and grants the first that fits.

    The request is a program over the saves of runs, which may be refused ([RunRecords]), and the random texts. The answers of the parts that are
    not modelled are arguments: which tasks wait for an owner handoff, the member's scope, safe clone URLs, and the payload. One instant stands for
    all lease checks of a request. *)

From Stdlib Require Import QArith.
From S2P Require Import Prelude PyValue Requirements Workers Effects StateStore RunRecords RunIndex WorkerLease LeaseSafety.

#[local] Open Scope list_scope.
#[local] Open Scope Z_scope.

Inductive ccmd : Type -> Type :=
| SaveRun (r : Run) : ccmd (result rerr RunSaveOutcome)
| TokenUrlsafe (bytes : Z) : ccmd string.
Abbreviation cprog := (prog ccmd herr).

Inductive Response : Type :=
| NoContent
| Json (payload : pyval).

(** The body of the request, once its shape is known *)
Record Poll := { p_host : string; p_harnesses : list string; p_tiers : list string; p_capacity : Z }.
Definition strings_of (name : string) (body : row) : result herr (list string) :=
  match por (pget name body) (PList []) with
  | PList l => match all_strs l with Some ss => Ok ss | None => refuse 422 (name ++ " must be a list of strings") end
  | _ => refuse 422 (name ++ " must be a list of strings")
  end.
Definition url_safe (c : ascii) : bool := is_alnum c || bool_decide (c = "_"%char) || bool_decide (c = "-"%char).
Definition poll_shape (host : string) (body : row) : result herr Poll :=
  if negb (bool_decide (body_text "host" body = host)) then refuse 403 "token does not belong to this host"
  else harnesses ← strings_of "harnesses" body; tiers ← strings_of "tiers" body;
    capacity ← match pget_or "capacity" (PInt 1) body with
      | PInt n => if (1 <=? n) && (n <=? 1024) then Ok n else refuse 422 "capacity must be an integer between 1 and 1024"
      | _ => refuse 422 "capacity must be an integer between 1 and 1024"
      end;
    Ok {| p_host := host; p_harnesses := harnesses; p_tiers := tiers; p_capacity := capacity |}.
Definition request_id_shape (v : pyval) : result herr (option string) :=
  match v with
  | PNone => Ok None
  | PStr s => if str_all url_safe s && (16 <=? Z.of_nat (String.length s)) && (Z.of_nat (String.length s) <=? 128) then Ok (Some s)
              else refuse 422 "claim_request_id must be 16-128 URL-safe characters"
  | _ => refuse 422 "claim_request_id must be 16-128 URL-safe characters"
  end.

Definition reason_value (r : MatchReason) : string :=
  match r with
  | MATCHED => "matched" | BUSY => "busy" | NO_COMPATIBLE_PROFILE => "no_compatible_profile" | OFFLINE_OR_STALE => "offline_or_stale"
  | DENIED_ACCESS => "denied_access" | INVALID_REQUIREMENTS => "invalid_requirements" | BUDGET_OR_DEADLINE_HOLD => "budget_or_deadline_hold"
  end.
(** [run.env_snapshot[k] = v] *)
Definition note (k : string) (v : pyval) (r : values) : values := <["env_snapshot" := PDict (dset k v (env_snapshot r))]> r.
Definition worker_match (reason : MatchReason) (detail : string) : pyval := PDict [("reason", PStr (reason_value reason)); ("detail", PStr detail)].
Definition snapshot_text (k : string) (r : values) : string := py_str (por (pget k (env_snapshot r)) (PStr "")).
(** [int((run.env_snapshot or {}).get(k) or d)] *)
Definition snapshot_int (k : string) (d : Z) (r : values) : result herr Z := failing (py_int (por (pget k (env_snapshot r)) (PInt d))).
Definition activity_of (r : values) : string :=
  let mode := text "mode" r in if mem mode ["work"; "revise"; "resume"; "rebase"] then "work" else mode.

Section claim.
Context (isoformat : Z -> string) (fromisoformat : string -> result exn Z) (float : pyval -> result exn Q) (digest : string -> string).
Context (lease_seconds recovery_seconds : Z) (default_timeout : Q) (product_timeout_minutes : string -> Q).
Context (configurations : dict WorkerConfiguration) (instances : list WorkerInstance) (max_bypasses : Z).
Context (ps : Processes) (files_of : values -> Files).
Context (handoff_pending member_excluded : values -> bool) (credential_free_repo_url : string -> result herr string) (payload : values -> pyval).
Context (h : Host) (poll : Poll) (request_id : string) (now : Z).

(** A lease that is held: [running], held by some host, alive or recoverable, and not finished *)
Definition executing (r : values) : result herr bool :=
  if negb (bool_decide (text "status" r = "running")) then Ok false
  else alive ← leased_or_recovering isoformat fromisoformat recovery_seconds now r;
    Ok (alive && negb (process_finished ps (files_of r) r) && negb (nonempty (text "final_received_at" r))).
Fixpoint filterR {A} (p : A -> result herr bool) (l : list A) : result herr (list A) :=
  match l with [] => Ok [] | x :: l' => b ← p x; l'' ← filterR p l'; Ok (if (b : bool) then x :: l'' else l'') end.
Definition owned_runs (runs : list Run) : result herr (list Run) :=
  filterR (fun r => if bool_decide (text "runner" (fields r) = "remote") && bool_decide (text "host" (fields r) = p_host poll) then executing (fields r) else Ok false) runs.
Definition held_runs (runs : list Run) : result herr (list Run) :=
  filterR (fun r => if nonempty (text "host" (fields r)) then executing (fields r) else Ok false) runs.
Definition weight_of (r : values) : result herr Z := snapshot_int "resource_weight" 1 r.
Definition weights (runs : list Run) : result herr Z := foldR (fun n r => w ← weight_of (fields r); Ok (n + w)) runs 0.
(** What the held runs have reserved on their hosts *)
Definition requirements_of (r : values) : result exn ExecutionRequirements :=
  Requirements.parse_execution_requirements (pget "execution_requirements" (env_snapshot r)) ("run:" ++ text "run_id" r).
Definition reserve (m : dict (list ResourceReservation)) (r : Run) : result herr (dict (list ResourceReservation)) :=
  if negb (truthy (pget "execution_requirements" (env_snapshot (fields r)))) then Ok m
  else match requirements_of (fields r) with
  | Ok q => let host := text "host" (fields r) in Ok (dset host (default [] (dget host m) ++ [er_resources q]) m)
  | Err (ValueError _) => Ok m
  | Err e => Err (Failed e)
  end.

Definition set_fields (f : values) (r : Run) : Run := {| fields := f; loaded := loaded r |}.
(** [run.save()] in the loop: a conflict is not caught. *)
Definition save_noted (r : Run) : cprog unit :=
  res ← do_ (SaveRun r);
  match res with Ok _ => Ret tt | Err e => Throw (SaveFailed e) end.

Inductive verdict : Type :=
| Skip
| Stop
| Grant (r : Run) (readiness : option (pyval * pyval)).

(** The matching of one run: skip it with a note, or go on with the matched instance, if requirements call for one *)
Definition match_run (busy : list string) (allocations : dict (list ResourceReservation)) (r : Run) : cprog (option (Run * option WorkerInstance)) :=
  let snapshot := env_snapshot (fields r) in
  if negb (truthy (pget "execution_requirements" snapshot) || truthy (pget "execution_owner" snapshot) || truthy (pget "worker_instance" snapshot))
  then Ret (Some (r, None))
  else match requirements_of (fields r) with
  | Err (ValueError msg) => _ ← save_noted (set_fields (note "worker_match" (worker_match INVALID_REQUIREMENTS msg) (fields r)) r); Ret None
  | Err e => Throw (Failed e)
  | Ok q =>
      let m := match_worker q (activity_of (fields r)) (snapshot_text "product" (fields r)) (snapshot_text "execution_owner" (fields r)) configurations
        (List.filter (fun x => negb (bool_decide (x = p_host poll))) busy) allocations now instances [] (snapshot_text "worker_instance" (fields r)) false in
      let r' := set_fields (note "worker_match" (worker_match (wm_reason m) (wm_detail m)) (fields r)) r in
      match wm_instance m with
      | Some i => if bool_decide (wm_reason m = MATCHED) && bool_decide (instance_id i = p_host poll) then Ret (Some (r', Some i)) else _ ← save_noted r'; Ret None
      | None => _ ← save_noted r'; Ret None
      end
  end.
(** The capacity of the host: [true] if the run fits; otherwise it has been passed over once more, unless that is no longer allowed *)
Definition admit_weight (used capacity : Z) (r : Run) : cprog verdict :=
  weight ← lift (weight_of (fields r));
  if negb (h_in_place h) && (capacity <? used + weight) then
    if weight <=? capacity then
      bypasses ← lift (snapshot_int "admission_bypasses" 0 (fields r));
      if Z.max 0 max_bypasses <=? bypasses then Ret Stop
      else _ ← save_noted (set_fields (note "admission_bypasses" (PInt (bypasses + 1)) (fields r)) r); Ret Skip
    else Ret Skip
  else Ret (Grant r None).
(** The loop body up to the grant *)
Definition consider (busy : list string) (allocations : dict (list ResourceReservation)) (used capacity : Z) (r : Run) : cprog verdict :=
  ok ← lift (claimable isoformat fromisoformat float recovery_seconds default_timeout product_timeout_minutes ps (files_of (fields r)) now now (fields r));
  if negb ok then Ret Skip
  else matched ← match_run busy allocations r;
    match matched with
    | None => Ret Skip
    | Some (r', instance) =>
        let f := fields r' in
        if negb (bool_decide (text "mode" f = "check")) && (negb (nonempty (text "harness" f)) || negb (mem (text "harness" f) (p_harnesses poll))) then Ret Skip
        else if nonempty (text "difficulty" f) && nonempty_list (p_tiers poll) && negb (mem (text "difficulty" f) (p_tiers poll)) then Ret Skip
        else if handoff_pending f then Ret Skip
        else if nonempty (h_member h) && member_excluded f then Ret Skip
        else v ← admit_weight used capacity r';
          match v with
          | Grant r'' _ =>
              if negb (nonempty (snapshot_text "product" (fields r''))) then Throw (HTTPException 409 "remote run has no product identity")
              else repo ← lift (credential_free_repo_url (snapshot_text "remote_repo" (fields r'')));
                if negb (nonempty repo) || negb (nonempty (prepared_head (fields r''))) then Ret Stop
                else Ret (Grant r'' ((fun i => (PInt (readiness_checked_at i), PInt (readiness_expires_at i))) <$> instance))
          | v => Ret v
          end
    end.
(** The grant *)
Definition grant_run (r : Run) (readiness : option (pyval * pyval)) : cprog Response :=
  token ← do_ (TokenUrlsafe 32);
  ref ← do_ (TokenUrlsafe 12);
  let g := granted isoformat digest lease_seconds recovery_seconds now h request_id token ref readiness (fields r) in
  res ← do_ (SaveRun (set_fields (<["claim_response" := payload g]> g) r));
  match res with
  | Ok _ => Ret (Json (payload g))
  | Err (RunMutationConflict _) => Throw (HTTPException 409 "run claim changed during allocation")
  | Err e => Throw (SaveFailed e)
  end.
Fixpoint claim_loop (busy : list string) (allocations : dict (list ResourceReservation)) (used capacity : Z) (runs : list Run) : cprog Response :=
  match runs with
  | [] => Ret NoContent
  | r :: runs' =>
      v ← consider busy allocations used capacity r;
      match v with
      | Skip => claim_loop busy allocations used capacity runs'
      | Stop => Ret NoContent
      | Grant r' readiness => grant_run r' readiness
      end
  end.

(** An earlier answer to the same poll is given again while its lease is good. *)
Definition replay_claim (scope : result herr unit) (r : values) : result herr Response :=
  let response := match field "claim_response" r with PDict d => d | _ => [] end in
  let token := py_str (por (pget "lease_token" response) (PStr "")) in
  if negb (bool_decide (text "claim_request_id" r = request_id)) || negb (bool_decide (text "host" r = p_host poll)) || negb (nonempty token)
  then refuse 409 "claim request identity cannot be replayed"
  else _ ← authorize_member_run r h scope;
    if negb (bool_decide (text "runner" r = "remote")) then refuse 404 "remote run not found"
    else _ ← ensure_claimed isoformat fromisoformat float recovery_seconds default_timeout product_timeout_minutes ps (files_of r) now r h token;
      Ok (Json (field "claim_response" r)).

(** [claim], after the shape of the request was checked; [earlier] is the run that has recorded the request, [runs] the active runs *)
Definition claim (draining : bool) (scope : result herr unit) (earlier : option values) (runs : list Run) : cprog Response :=
  match earlier with
  | Some r => lift (replay_claim scope r)
  | None =>
      if draining then Ret NoContent
      else owned ← lift (owned_runs runs);
        if h_in_place h && nonempty_list owned then Ret NoContent
        else used ← lift (weights owned);
          let capacity := Z.min (p_capacity poll) (h_max_parallel h) in
          if negb (h_in_place h) && (capacity <=? used) then Ret NoContent
          else held ← lift (held_runs runs);
            allocations ← lift (foldR reserve held []);
            claim_loop (map (fun r => text "host" (fields r)) held) allocations used capacity runs
  end.

(** ** What a grant means *)

Section spec.
Context (busy : list string) (allocations : dict (list ResourceReservation)) (used capacity : Z).

(** The run calls for a particular kind of worker. *)
Definition constrained_run (f : values) : bool :=
  truthy (pget "execution_requirements" (env_snapshot f)) || truthy (pget "execution_owner" (env_snapshot f)) || truthy (pget "worker_instance" (env_snapshot f)).
Definition others : list string := List.filter (fun x => negb (bool_decide (x = p_host poll))) busy.
(** The instances that may take the run *)
Definition candidate (q : ExecutionRequirements) (f : values) (i : WorkerInstance) : Prop :=
  i ∈ instances /\ (snapshot_text "worker_instance" f <> "" -> instance_id i = snapshot_text "worker_instance" f) /\
  selectable q (activity_of f) (snapshot_text "product" f) (snapshot_text "execution_owner" f) configurations others allocations now i.
Definition worker_key (q : ExecutionRequirements) : WorkerInstance -> Z * Z * string := match_key (preference (er_preferred_worker_configurations q)) [].
(** The polling host is the best worker for the run. *)
Record best_worker (f : values) (q : ExecutionRequirements) (i : WorkerInstance) : Prop := {
  bw_requirements : requirements_of f = Ok q;
  bw_named : activity_of f <> "" /\ snapshot_text "product" f <> "" /\ snapshot_text "execution_owner" f <> "";
  bw_candidate : candidate q f i;
  bw_best : forall j, candidate q f j -> key3_leb (worker_key q i) (worker_key q j) = true;
  bw_host : instance_id i = p_host poll }.
(** The run [r] with its match noted, [f], is meant for the polling host. *)
Definition matched (r : Run) (instance : option WorkerInstance) (f : values) : Prop :=
  match instance with
  | None => constrained_run (fields r) = false /\ f = fields r
  | Some i => constrained_run (fields r) = true /\ (exists q, best_worker (fields r) q i) /\ f = note "worker_match" (worker_match MATCHED "") (fields r)
  end.
(** The host could work on the run, if it had room. *)
Record suitable (r : Run) (instance : option WorkerInstance) (f : values) : Prop := {
  su_claimable : claimable isoformat fromisoformat float recovery_seconds default_timeout product_timeout_minutes ps (files_of (fields r)) now now (fields r) = Ok true;
  su_matched : matched r instance f;
  su_harness : text "mode" f = "check" \/ (text "harness" f <> "" /\ text "harness" f ∈ p_harnesses poll);
  su_tier : text "difficulty" f = "" \/ p_tiers poll = [] \/ text "difficulty" f ∈ p_tiers poll;
  su_handoff : handoff_pending f = false;
  su_member : h_member h = "" \/ member_excluded f = false }.
Definition fits (f : values) : Prop := exists w, weight_of f = Ok w /\ (h_in_place h = true \/ used + w <= capacity).
(** There would be room if the host were less busy; the run has been passed over [n] times. *)
Definition lacks_room (f : values) (n : Z) : Prop :=
  exists w, weight_of f = Ok w /\ h_in_place h = false /\ w <= capacity < used + w /\ snapshot_int "admission_bypasses" 0 f = Ok n.
(** The scheduler has prepared the checkout of the run. *)
Definition prepared (f : values) : Prop :=
  snapshot_text "product" f <> "" /\ (exists url, credential_free_repo_url (snapshot_text "remote_repo" f) = Ok url /\ url <> "") /\ prepared_head f <> "".
Definition grantable (r : Run) (instance : option WorkerInstance) (f : values) : Prop := suitable r instance f /\ fits f /\ prepared f.
(** A run that holds up those behind it: passed over too often, or not prepared *)
Definition blocks (r : Run) : Prop :=
  exists instance f, suitable r instance f /\ ((exists n, lacks_room f n /\ Z.max 0 max_bypasses <= n) \/ (fits f /\ ~ prepared f)).
Definition bypassed (n : Z) (f : values) (r : Run) : Run := set_fields (note "admission_bypasses" (PInt (n + 1)) f) r.
(** What is done to a run that is passed over *)
Inductive passed (r : Run) : list (event ccmd) -> Prop :=
| passed_silently : (forall i f, ~ grantable r i f) -> (forall i f n, suitable r i f -> ~ lacks_room f n) -> passed r []
| passed_mismatch reason detail o : (forall i f, ~ suitable r i f) ->
    passed r [Ev (SaveRun (set_fields (note "worker_match" (worker_match reason detail) (fields r)) r)) (Ok o)]
| passed_waiting i f n o : suitable r i f -> lacks_room f n -> n < Z.max 0 max_bypasses -> passed r [Ev (SaveRun (bypassed n f r)) (Ok o)].

(** The runs of the queue that were passed over, with what was done to each: none of them could be granted. *)
Definition passed_over (skipped : list Run) (done : list (list (event ccmd))) : Prop :=
  Forall2 passed skipped done /\ forall r i f, r ∈ skipped -> ~ grantable r i f.
(** What the request writes to grant a run that was read as [r] and noted as [f] *)
Definition grant_events (r : Run) (instance : option WorkerInstance) (f : values) (token ref : string) (o : RunSaveOutcome) : list (event ccmd) :=
  let readiness := (fun i => (PInt (readiness_checked_at i), PInt (readiness_expires_at i))) <$> instance in
  let g := granted isoformat digest lease_seconds recovery_seconds now h request_id token ref readiness f in
  [Ev (TokenUrlsafe 32) token; Ev (TokenUrlsafe 12) ref; Ev (SaveRun (set_fields (<["claim_response" := payload g]> g) r)) (Ok o)].
Definition granted_payload (instance : option WorkerInstance) (f : values) (token ref : string) : pyval :=
  let readiness := (fun i => (PInt (readiness_checked_at i), PInt (readiness_expires_at i))) <$> instance in
  payload (granted isoformat digest lease_seconds recovery_seconds now h request_id token ref readiness f).
(** The answer that the queue [runs] calls for, with everything that is written *)
Inductive first_fit (runs : list Run) : list (event ccmd) -> Response -> Prop :=
| fit_granted skipped done r rest instance f token ref o :
    runs = skipped ++ r :: rest -> passed_over skipped done -> grantable r instance f ->
    first_fit runs (concat done ++ grant_events r instance f token ref o) (Json (granted_payload instance f token ref))
| fit_none done : passed_over runs done -> first_fit runs (concat done) NoContent
| fit_blocked skipped done r rest : runs = skipped ++ r :: rest -> passed_over skipped done -> blocks r -> first_fit runs (concat done) NoContent.

(** *** One run *)

#[local] Abbreviation safely p tr Q := (safe (fun _ _ => True) p tr Q).

Lemma do_safely {R A} (c : ccmd R) (k : R -> cprog A) tr (Q : result herr A -> list (event ccmd) -> Prop) :
  (forall x, safely (k x) (tr ++ [Ev c x]) Q) -> safely (x ← do_ c; k x) tr Q.
Proof. intros H x. split; [done|]. apply H. Qed.
Lemma save_noted_safely {A} r (k : unit -> cprog A) tr (Q : result herr A -> list (event ccmd) -> Prop) :
  (forall o, safely (k tt) (tr ++ [Ev (SaveRun r) (Ok o)]) Q) -> (forall e tr', Q (Err e) tr') -> safely (u ← save_noted r; k u) tr Q.
Proof. intros H He. apply safe_bind, do_safely. intros [o|e]; cbn; [apply H|apply He]. Qed.
Lemma lift_safely {A B} (x : result herr A) (k : A -> cprog B) tr (Q : result herr B -> list (event ccmd) -> Prop) :
  (forall a, x = Ok a -> safely (k a) tr Q) -> (forall e tr', Q (Err e) tr') -> safely (a ← lift x; k a) tr Q.
Proof. intros H He. apply safe_bind, safe_lift. destruct x; cbn; [by apply H|apply He]. Qed.

Lemma safely_answered {A} (p : cprog A) tr a (Q : A -> list (event ccmd) -> Prop) :
  exec p tr (Some (Ok a)) -> safely p [] (fun r tr => match r with Ok a => Q a tr | Err _ => True end) -> Q a tr.
Proof. intros He Hs. destruct (safe_exec _ _ _ _ _ _ He Hs) as [_ H]; [constructor|]. exact H. Qed.

Lemma key3_leb_antisym a b : key3_leb a b = true -> key3_leb b a = true -> a.2 = b.2.
Proof.
  destruct a as [[a1 a2] a3], b as [[b1 b2] b3]. unfold key3_leb. cbn.
  destruct (Z.eqb_spec a1 b1), (Z.eqb_spec b1 a1); try lia. destruct (Z.eqb_spec a2 b2), (Z.eqb_spec b2 a2); try lia. apply str_leb_antisym.
Qed.

#[local] Abbreviation match_of q f := (match_worker q (activity_of f) (snapshot_text "product" f) (snapshot_text "execution_owner" f) configurations
  others allocations now instances [] (snapshot_text "worker_instance" f) false).

(** The best worker is unique, up to its identity. *)
Lemma best_worker_chosen f q q' i : requirements_of f = Ok q -> best_worker f q' i ->
  exists k, wm_instance (match_of q f) = Some k /\ instance_id k = p_host poll /\ wm_reason (match_of q f) = MATCHED.
Proof.
  intros Hq [Hq' (Ha & Hp & Ho) Hcand Hbest Hid]. assert (q' = q) as -> by congruence.
  pose proof (match_worker_best q _ _ _ configurations others allocations now instances [] (snapshot_text "worker_instance" f) Ha Hp Ho) as H. cbv zeta in H.
  destruct (wm_instance _) as [k|]; [|by destruct H as [H _]; destruct (H i)].
  destruct H as (Hk & Hkb & Hr). exists k. split; [done|]. split; [|done]. rewrite <- Hid. symmetry.
  exact (key3_leb_antisym (worker_key q i) (worker_key q k) (Hbest k Hk) (Hkb i Hcand)).
Qed.
Lemma chosen_best_worker f q i : requirements_of f = Ok q ->
  wm_instance (match_of q f) = Some i -> wm_reason (match_of q f) = MATCHED -> instance_id i = p_host poll -> best_worker f q i.
Proof.
  intros Hq Hi Hr Hid. assert (Hn : activity_of f <> "" /\ snapshot_text "product" f <> "" /\ snapshot_text "execution_owner" f <> "").
  { unfold match_worker in Hr. cbv zeta in Hr. destruct (_ || _ || _) eqn:E in Hr; [done|]. rewrite !orb_false_iff, !negb_false_iff in E.
    destruct E as ((E1 & E2) & E3). repeat split; intros E; by rewrite E in *. }
  split; [done|done| | |done]; destruct Hn as (Ha & Hp & Ho);
  pose proof (match_worker_best q _ _ _ configurations others allocations now instances [] (snapshot_text "worker_instance" f) Ha Hp Ho) as H; cbv zeta in H; rewrite Hi in H; apply H.
Qed.

Lemma match_run_spec r tr :
  safely (match_run busy allocations r) tr (fun v tr' => match v with
    | Ok (Some (r', i)) => tr' = tr /\ (exists f, r' = set_fields f r /\ matched r i f)
    | Ok None => exists reason detail o, tr' = tr ++ [Ev (SaveRun (set_fields (note "worker_match" (worker_match reason detail) (fields r)) r)) (Ok o)] /\ forall i f, ~ matched r i f
    | Err _ => True
    end).
Proof.
  unfold match_run. cbv zeta. fold (constrained_run (fields r)). destruct (constrained_run (fields r)) eqn:Hc; cbn [negb].
  2:{ split; [done|]. exists (fields r). by destruct r. }
  assert (Hnot : (forall q i, ~ best_worker (fields r) q i) -> forall i f, ~ matched r i f).
  { intros H [i|] f Hm; [destruct Hm as (_ & (q & Hb) & _); by destruct (H q i)|]. destruct Hm as [Hm _]. congruence. }
  destruct (requirements_of (fields r)) as [q|[]] eqn:Hq; try done.
  2:{ apply save_noted_safely; [|done]. intros o. eexists _, _, _. split; [done|]. apply Hnot. intros q i [Hq' _ _ _ _]. congruence. }
  change (List.filter _ busy) with others.
  assert (Hmis : (forall i, wm_instance (match_of q (fields r)) = Some i -> wm_reason (match_of q (fields r)) = MATCHED -> instance_id i <> p_host poll) -> forall i f, ~ matched r i f).
  { intros H. apply Hnot. intros q' i Hb. destruct (best_worker_chosen _ q _ _ Hq Hb) as (k & Hk & Hid & Hr). by destruct (H k). }
  destruct (wm_instance (match_of q (fields r))) as [i|] eqn:Hi.
  2:{ apply save_noted_safely; [|done]. intros o. eexists _, _, _. split; [done|]. by apply Hmis. }
  destruct (bool_decide _ && bool_decide _) eqn:Hb.
  - apply andb_true_iff in Hb as [Hr%bool_decide_eq_true Hid%bool_decide_eq_true]. split; [done|]. eexists. split; [done|]. split; [done|].
    split; [exists q; by apply chosen_best_worker|]. unfold match_worker in *. cbv zeta in *.
    destruct (_ || _ || _) in *; [done|]. destruct (_ && _) in *; [done|].
    match goal with |- context [scan _ _ _ _ _ _ _ _ _ _ _ ?l] => destruct (scan_spec q (activity_of (fields r)) (snapshot_text "product" (fields r)) (snapshot_text "execution_owner" (fields r))
      configurations others allocations now false false false l) as [(l1 & k & l2 & _ & _ & _ & ->)|(_ & Hn & _)] end; [done|congruence].
  - apply save_noted_safely; [|done]. intros o. eexists _, _, _. split; [done|]. apply Hmis. intros k [= <-] Hr Hid.
    by rewrite Hr, Hid, !bool_decide_eq_true_2 in Hb.
Qed.

Lemma admit_weight_spec r tr :
  safely (admit_weight used capacity r) tr (fun v tr' => match v with
    | Ok (Grant r' readiness) => tr' = tr /\ r' = r /\ fits (fields r)
    | Ok Stop => tr' = tr /\ exists n, lacks_room (fields r) n /\ Z.max 0 max_bypasses <= n
    | Ok Skip => ~ fits (fields r) /\
        ((tr' = tr /\ forall n, ~ lacks_room (fields r) n) \/
         (exists n o, lacks_room (fields r) n /\ n < Z.max 0 max_bypasses /\ tr' = tr ++ [Ev (SaveRun (bypassed n (fields r) r)) (Ok o)]))
    | Err _ => True
    end).
Proof.
  unfold admit_weight. apply lift_safely; [|done]. intros w Hw. destruct (h_in_place h) eqn:Hin; cbn [negb andb].
  { split; [done|]. split; [done|]. exists w. auto. }
  destruct (Z.ltb_spec capacity (used + w)) as [Hlt|Hle].
  2:{ split; [done|]. split; [done|]. exists w. auto. }
  assert (Hno : ~ fits (fields r)) by (intros (w' & Hw' & [H|H]); [congruence|]; assert (w' = w) by congruence; lia).
  destruct (Z.leb_spec w capacity) as [Hwc|Hwc].
  2:{ split; [done|]. left. split; [done|]. intros n (w' & Hw' & _ & H & _). assert (w' = w) by congruence. lia. }
  apply lift_safely; [|done]. intros n Hn. assert (Hl : lacks_room (fields r) n) by (exists w; auto).
  destruct (Z.leb_spec (Z.max 0 max_bypasses) n) as [Hm|Hm]; [split; [done|]; by exists n|].
  apply save_noted_safely; [|done]. intros o. split; [done|]. right. by exists n, o.
Qed.

Lemma matched_unique r i i' f f' : matched r i f -> matched r i' f' -> f = f'.
Proof. destruct i, i'; cbn; intros (H1 & H2) (H3 & H4); [destruct H2, H4|..]; congruence. Qed.
(** A run is not suitable for a reason that its match does not change. *)
Ltac unsuitable Hm := intros ?i ?f' [? Hmatch ? ? ? ?]; rewrite <- (matched_unique _ _ _ _ _ Hm Hmatch) in *.

Lemma consider_spec r tr :
  safely (consider busy allocations used capacity r) tr (fun v tr' => match v with
    | Ok Skip => exists evs, tr' = tr ++ evs /\ passed r evs /\ forall i f, ~ grantable r i f
    | Ok Stop => tr' = tr /\ blocks r
    | Ok (Grant r' readiness) => tr' = tr /\ exists i f, grantable r i f /\ r' = set_fields f r /\
        readiness = (fun i => (PInt (readiness_checked_at i), PInt (readiness_expires_at i))) <$> i
    | Err _ => True
    end).
Proof.
  assert (Hskip : (forall i f, ~ suitable r i f) -> exists evs, tr = tr ++ evs /\ passed r evs /\ forall i f, ~ grantable r i f).
  { intros H. exists []. rewrite app_nil_r. split; [done|]. assert (forall i f, ~ grantable r i f) by (intros i f [Hs _]; by destruct (H i f)).
    split; [|done]. constructor; [done|]. intros i f n Hs. by destruct (H i f). }
  unfold consider. apply lift_safely; [|done]. intros ok Hok. destruct ok; cbn [negb].
  2:{ apply Hskip. intros i f [Hc _ _ _ _ _]. congruence. }
  apply safe_bind. eapply safe_mono; [|apply match_run_spec]. intros [[[r' i]|]|] tr' H; cbn [then_]; [| |done].
  2:{ destruct H as (reason & detail & o & -> & Hno). eexists. split; [done|].
      assert (Hns : forall i f, ~ suitable r i f) by (intros i f [_ Hm _ _ _ _]; by destruct (Hno i f)).
      split; [by constructor|]. intros i f [Hs _]. by destruct (Hns i f). }
  destruct H as (-> & f & -> & Hm). cbn [fields set_fields].
  destruct (negb (bool_decide (text "mode" f = "check")) && _) eqn:E1.
  { apply Hskip. unsuitable Hm. apply andb_true_iff in E1 as [E1%negb_true_iff%bool_decide_eq_false E2].
    destruct su_harness0 as [?|[H1 H2]]; [done|]. apply mem_spec in H2. rewrite H2 in E2. destruct (text "harness" f); done. }
  destruct (nonempty (text "difficulty" f) && _ && _) eqn:E2.
  { apply Hskip. unsuitable Hm. apply andb_true_iff in E2 as [[E2 E3]%andb_true_iff E4]. apply negb_true_iff, mem_false in E4.
    destruct su_tier0 as [H|[H|H]]; [by rewrite H in E2|by rewrite H in E3|done]. }
  destruct (handoff_pending f) eqn:E3; [apply Hskip; unsuitable Hm; congruence|].
  destruct (nonempty (h_member h) && member_excluded f) eqn:E4.
  { apply Hskip. unsuitable Hm. apply andb_true_iff in E4 as [E4 E5]. destruct su_member0 as [H|H]; [by rewrite H in E4|congruence]. }
  assert (Hs : suitable r i f).
  { split; try done.
    - apply andb_false_iff in E1 as [E1%negb_false_iff%bool_decide_eq_true|E1]; [by left|right].
      apply orb_false_iff in E1 as [H1%negb_false_iff H2%negb_false_iff%mem_spec]. split; [|done]. intros H. by rewrite H in H1.
    - destruct (text "difficulty" f) eqn:Ed; [by left|right]. destruct (p_tiers poll) eqn:Et; [by left|right].
      cbn [nonempty nonempty_list andb] in E2. by apply negb_false_iff, mem_spec in E2.
    - destruct (h_member h); [by left|by right]. }
  assert (Hgr : ~ fits f -> forall i f, ~ grantable r i f).
  { intros Hf i' f' [[_ Hm' _ _ _ _] [Hf' _]]. by rewrite <- (matched_unique _ _ _ _ _ Hm Hm') in Hf'. }
  apply safe_bind. eapply safe_mono; [|apply admit_weight_spec]. intros [[| |r'' ro]|] tr' H; cbn [then_]; [| | |done].
  - destruct H as (Hf & [(-> & Hl)|(n & o & Hl & Hn & ->)]).
    + exists []. rewrite app_nil_r. split; [done|]. split; [|by apply Hgr]. constructor; [by apply Hgr|].
      intros i' f' n [_ Hm' _ _ _ _]. rewrite <- (matched_unique _ _ _ _ _ Hm Hm'). apply Hl.
    + eexists. split; [done|]. split; [|by apply Hgr]. by apply (passed_waiting r i f n o).
  - destruct H as (-> & n & Hl & Hn). split; [done|]. exists i, f. split; [done|]. left. by exists n.
  - destruct H as (-> & -> & Hf). cbn [fields set_fields]. destruct (nonempty (snapshot_text "product" f)) eqn:Ep; cbn [negb]; [|done].
    apply lift_safely; [|done]. intros url Hu. destruct (negb (nonempty url) || _) eqn:Eu.
    + split; [done|]. exists i, f. split; [done|]. right. split; [done|]. intros (_ & (url' & Hu' & Hne) & Hh).
      assert (url' = url) as -> by congruence. apply orb_true_iff in Eu as [Eu|Eu]; [by destruct url|by destruct (prepared_head f)].
    + split; [done|]. exists i, f. split; [|done]. split; [done|]. split; [done|]. apply orb_false_iff in Eu as [Eu1 Eu2].
      split; [intros H; by rewrite H in Ep|]. split; [exists url; split; [done|]; intros ->; done|]. intros H. by rewrite H in Eu2.
Qed.

(** *** The queue *)

Lemma passed_over_nil : passed_over [] [].
Proof. split; [constructor|]. intros r i f H. by apply elem_of_nil in H. Qed.
Lemma passed_over_cons r evs skipped done : passed r evs -> (forall i f, ~ grantable r i f) -> passed_over skipped done -> passed_over (r :: skipped) (evs :: done).
Proof. intros H Hr [Hf Hn]. split; [by constructor|]. intros x i f [->|Hx]%elem_of_cons; [apply Hr|by apply Hn]. Qed.
Lemma first_fit_cons r runs evs evs' resp : passed r evs -> (forall i f, ~ grantable r i f) -> first_fit runs evs' resp -> first_fit (r :: runs) (evs ++ evs') resp.
Proof.
  intros Hp Hr. pose proof (passed_over_cons r evs) as Hc. destruct 1 as [skipped done x rest i f token ref o -> H Hg|done H|skipped done x rest -> H Hb].
  - rewrite app_assoc. apply (fit_granted (r :: skipped ++ x :: rest) (r :: skipped) (evs :: done) x rest); auto.
  - apply (fit_none (r :: runs) (evs :: done)). auto.
  - apply (fit_blocked (r :: skipped ++ x :: rest) (r :: skipped) (evs :: done) x rest); auto.
Qed.

Lemma claim_loop_spec runs tr :
  safely (claim_loop busy allocations used capacity runs) tr (fun v tr' => match v with Ok resp => exists evs, tr' = tr ++ evs /\ first_fit runs evs resp | Err _ => True end).
Proof.
  revert tr. induction runs as [|r runs IH]; intros tr; cbn [claim_loop].
  { exists []. rewrite app_nil_r. split; [done|]. apply (fit_none [] []), passed_over_nil. }
  apply safe_bind. eapply safe_mono; [|apply consider_spec]. intros [[| |r' readiness]|] tr' H; cbn [then_]; [| | |done].
  - destruct H as (evs & -> & Hp & Hg). eapply safe_mono; [|apply IH]. intros [resp|] tr'; [|done]. intros (evs' & -> & Hf).
    exists (evs ++ evs'). split; [by rewrite app_assoc|]. by apply first_fit_cons.
  - destruct H as (-> & Hb). exists []. rewrite app_nil_r. split; [done|]. by apply (fit_blocked (r :: runs) [] [] r runs), Hb; [|apply passed_over_nil].
  - destruct H as (-> & i & f & Hg & -> & ->). unfold grant_run. cbv zeta. apply do_safely. intros token. apply do_safely. intros ref. apply do_safely. intros [o|e].
    + exists (grant_events r i f token ref o). split; [by rewrite <- !app_assoc|].
      apply (fit_granted (r :: runs) [] [] r runs); [done|apply passed_over_nil|done].
    + by destruct e.
Qed.
End spec.

(** C23.  (Functional.)  Every poll that is answered gets what the queue calls for.  A repeated poll gets its earlier answer again, as long as that lease
    is good.  A draining worker, a busy in-place worker and a full worker get nothing.  Any other worker gets the first run it may be granted: a waiting run
    within its deadline, for which it is the best free, eligible and authorized worker with room, with a harness and tier it offers, that fits in what is left of
    its capacity and is prepared.  Every run before it could not be granted, is noted with the reason if it was mismatched, and, if only room was
    lacking, has been passed over fewer times than allowed, and this time is counted.  Nothing is granted only if no run could be, or behind a run that
    was passed over too often or is not prepared. *)
Theorem claim_first_fit (draining : bool) (scope : result herr unit) (earlier : option values) (runs : list Run) (tr : list (event ccmd)) (resp : Response)
    (Hexec : exec (claim draining scope earlier runs) tr (Some (Ok resp))) :
  match earlier with
  | Some r => tr = [] /\ resp = Json (field "claim_response" r) /\ text "claim_request_id" r = request_id /\ text "host" r = p_host poll /\
      exists token, ensure_claimed isoformat fromisoformat float recovery_seconds default_timeout product_timeout_minutes ps (files_of r) now r h token = Ok tt
  | None =>
      (tr = [] /\ resp = NoContent /\
        (draining = true \/
         exists owned, owned_runs runs = Ok owned /\
           ((h_in_place h = true /\ owned <> []) \/ exists used, weights owned = Ok used /\ h_in_place h = false /\ Z.min (p_capacity poll) (h_max_parallel h) <= used))) \/
      (draining = false /\ exists owned used held allocations, owned_runs runs = Ok owned /\ (h_in_place h = true -> owned = []) /\ weights owned = Ok used /\
        held_runs runs = Ok held /\ foldR reserve held [] = Ok allocations /\
        first_fit (map (fun r => text "host" (fields r)) held) allocations used (Z.min (p_capacity poll) (h_max_parallel h)) runs tr resp)
  end.
Proof.
  pattern resp, tr. apply (safely_answered _ _ _ _ Hexec). clear.
  unfold claim. destruct earlier as [r|].
  - apply safe_lift. destruct (replay_claim scope r) as [resp'|] eqn:E; [|done]. unfold replay_claim in E. cbv zeta in E.
    destruct (_ || _ || _) eqn:Eid; [done|]. rewrite !orb_false_iff, !negb_false_iff, !bool_decide_eq_true in Eid. destruct Eid as ((Hid & Hh) & _).
    apply bind_Ok in E as (? & _ & E). destruct (negb _); [done|]. apply bind_Ok in E as ([] & He & [= <-]).
    split_and!; try done. eauto.
  - destruct draining; [left; auto|]. apply lift_safely; [|done]. intros owned Ho.
    destruct (h_in_place h && nonempty_list owned) eqn:Ein.
    { apply andb_true_iff in Ein as [Hin Hne]. left. split_and!; [done|done|]. right. exists owned. split; [done|]. left. split; [done|]. by intros ->. }
    apply lift_safely; [|done]. intros used Hu. cbv zeta. destruct (negb (h_in_place h) && _) eqn:Eful.
    { apply andb_true_iff in Eful as [Hin%negb_true_iff Hle%Z.leb_le]. left. split_and!; [done|done|]. right. exists owned. split; [done|]. right. by exists used. }
    apply lift_safely; [|done]. intros held Hh. apply lift_safely; [|done]. intros allocations Hal.
    eapply safe_mono; [|apply claim_loop_spec]. intros [resp'|] tr'; [|done]. intros (evs & -> & Hf). right. split; [done|].
    exists owned, used, held, allocations. split_and!; try done. intros Hin. rewrite Hin in Ein. by destruct owned.
Qed.
End claim.

(** ** A sample queue *)

Module Queue.
Definition queued_run (id mode host : string) (snapshot : dict pyval) : Run :=
  {| fields := list_to_map [("task_id", PStr "CG-1"); ("run_id", PStr id); ("dir", PStr "d"); ("runner", PStr "remote"); ("status", PStr "running"); ("mode", PStr mode);
       ("harness", PStr "codex"); ("host", PStr host); ("start_head", PStr "abc"); ("env_snapshot", PDict snapshot)]; loaded := None |}.
Definition needs_two : pyval := PDict [("capabilities", PDict [("all_of", PList [PStr "net.read"])]); ("resources", PDict [("memory_mib", PInt 1024)])].
(** A check held by [w1]; a run of another user; a heavy run; a run that needs a worker with [net.read]; and one that anybody may do *)
Definition runs : list Run :=
  [set_fields (<["lease_expires_at" := PStr "20"]> (fields (queued_run "r0" "work" "w1" []))) (queued_run "r0" "work" "w1" []);
   queued_run "r1" "build" "" [("execution_requirements", needs_two); ("execution_owner", PStr "ann"); ("product", PStr "w"); ("remote_repo", PStr "git:w")];
   queued_run "r2" "work" "" [("product", PStr "w"); ("remote_repo", PStr "git:w"); ("resource_weight", PInt 4); ("admission_bypasses", PInt 1)];
   queued_run "r3" "build" "" [("execution_requirements", needs_two); ("execution_owner", PStr "bob"); ("product", PStr "w"); ("remote_repo", PStr "git:w")];
   queued_run "r4" "work" "" [("product", PStr "w"); ("remote_repo", PStr "git:w")]].
Definition no_files (r : values) : Files := Remote.empty_files.
Definition worker : WorkerLease.Host := {| h_name := "w1"; h_member := ""; h_max_parallel := 4; h_in_place := false |}.
Definition poll : Poll := {| p_host := "w1"; p_harnesses := ["codex"]; p_tiers := []; p_capacity := 8 |}.
Definition request (max_bypasses : Z) : cprog Response :=
  claim Remote.iso Remote.from_iso Remote.float Remote.hash 120 300 90%Q Remote.minutes [("std", Fleet.config)] [Fleet.instance "w1"] max_bypasses Remote.processes no_files
    (fun _ => false) (fun _ => false) Ok (field "run_id") worker poll "request-0123456789" 10 false (Ok tt) None runs.
(** A poll of the same worker when only the heavy run waits *)
Definition lonely : cprog Response :=
  claim Remote.iso Remote.from_iso Remote.float Remote.hash 120 300 90%Q Remote.minutes [("std", Fleet.config)] [Fleet.instance "w1"] 3 Remote.processes no_files
    (fun _ => false) (fun _ => false) Ok (field "run_id") worker poll "request-0123456789" 10 false (Ok tt) None (take 1 runs ++ take 1 (drop 2 runs)).
(** Every save is accepted. *)
Definition answers (R : Type) (c : ccmd R) (n : nat) : R * nat :=
  match c with SaveRun _ => (Ok COMMITTED, n) | TokenUrlsafe _ => (show (Z.of_nat n), S n) end.
Definition events (max_bypasses : Z) : list (event ccmd) := trace answers (request max_bypasses) 0%nat.
Definition noted (e : event ccmd) : option (string * dict pyval) :=
  match e with @Ev _ _ (SaveRun r) _ => Some (text "run_id" (fields r), env_snapshot (fields r)) | _ => None end.
End Queue.

(** The worker has one unit of its four taken.  The first waiting run is for another user, the second too heavy and passed over a second time, and the third
    is granted; where only one bypass is allowed, nothing is. *)
Example queue_answers :
  (run Queue.answers (Queue.request 3) 0%nat).1 = Ok (Json (PStr "r3")) /\ (run Queue.answers (Queue.request 1) 0%nat).1 = Ok NoContent.
Proof. split; vm_compute; reflexivity. Qed.

(** A bypass is counted also when no run overtakes: the heavy run is the only one that waits, and is noted as passed over again. *)
Lemma bypass_counted_without_overtaking :
  (run Queue.answers Queue.lonely 0%nat).1 = Ok NoContent /\
  map (fun n => (n.1, pget "admission_bypasses" n.2)) (omap Queue.noted (trace Queue.answers Queue.lonely 0%nat)) = [("r2"%string, PInt 2)].
Proof. split; vm_compute; reflexivity. Qed.

Lemma claim_first_fit_witness : exists busy allocations used capacity,
  first_fit Remote.iso Remote.from_iso Remote.float Remote.hash 120 300 90%Q Remote.minutes [("std", Fleet.config)] [Fleet.instance "w1"] 3 Remote.processes Queue.no_files
    (fun _ => false) (fun _ => false) Ok (field "run_id") Queue.worker Queue.poll "request-0123456789" 10 busy allocations used capacity Queue.runs (Queue.events 3) (Json (PStr "r3")).
Proof.
  pose proof (claim_first_fit Remote.iso Remote.from_iso Remote.float Remote.hash 120 300 90%Q Remote.minutes [("std", Fleet.config)] [Fleet.instance "w1"] 3 Remote.processes Queue.no_files
    (fun _ => false) (fun _ => false) Ok (field "run_id") Queue.worker Queue.poll "request-0123456789" 10 false (Ok tt) None Queue.runs (Queue.events 3) (Json (PStr "r3"))) as H.
  destruct H as [(_ & H & _)|(_ & owned & used & held & allocations & _ & _ & _ & _ & _ & H)]; [|discriminate H|by eexists _, _, _, _].
  rewrite <- (proj1 queue_answers). apply run_exec.
Defined.
