(* ===== verification/DispatchQueue.v ===== *)
(** * What the scheduler may dispatch next ([scheduler/selection.py], [dispatch.py], [budget.py], [quota.py], [__init__.py])

    The decisions that a dispatch pass is made of: the order of the queue, the admission of a phase, the budget of a phase, free worker slots,
    the weight of local runs, and the choice of a pool member.  They read the task documents ([TaskModel], [Graph]), the active run records ([RunRecords]) and the
    entries of the scheduler's side-store, which here are explicit: [self.state.get(id)] is [entry st id].  That reading creates an empty entry, and
    [setdefault] an empty map, is not shown: both read as if they were absent.

    Values of the configuration are fields of [Config]; amounts are exact rationals. *)

From Stdlib Require Import QArith.
From S2P Require Import Prelude PyValue Requirements StateStore RunRecords RunIndex WorkerLease TaskModel Graph.

#[local] Open Scope list_scope.
#[local] Open Scope Z_scope.

(** The entries of the side-store; a missing one reads as empty. *)
Abbreviation entries := (dict row).
Definition entry (st : entries) (k : string) : row := default [] (dget k st).
Definition put (st : entries) (k f : string) (v : pyval) : entries := dset k (dset f v (entry st k)) st.
Definition without (f : string) (r : row) : row := List.filter (fun kv => negb (bool_decide (kv.1 = f))) r.
Definition drop (st : entries) (k f : string) : entries := dset k (without f (entry st k)) st.
Definition flag_set (st : entries) (k f : string) : bool := truthy (pget f (entry st k)).
(** [int(self.state.get(k).get(f, 0))] *)
Definition count_of (st : entries) (k f : string) : result exn Z := py_int (pget_or f (PInt 0) (entry st k)).
Definition dict_of_value (v : pyval) : row := match v with PDict d => d | _ => [] end.
Definition control (st : entries) : row := entry st "_control".

(** What [runner_for] returns *)
Record Runner := { rn_name : string; rn_detached : bool; rn_remote : bool; rn_harness : option string }.

(** The values of the configuration that a pass reads; those of a product include its overrides. *)
Record Config := {
  max_parallel : Z;
  project_max_parallel : string -> Z;
  resources_max_parallel : option Z;
  review_parallel_limit : Z;
  max_bypasses : Z;
  resource_weight_of : string -> Z;
  escalating : bool;
  max_revisions : Z;
  stacking : string -> bool;
  stack_owner : string -> string;
  sequential : string -> bool;
  auto_dispatch : string -> bool;
  budget_usd : string -> option Q;
  product_budget_usd : string -> option Q;
  models : pyval;
  review_pool : pyval;
  profile : row;
  product_harness : string -> string;
  spread : string;
  quota_window_hours : Q;
  edit_max_attempts : Z }.

Section queue.
Context (has_pending : string -> bool) (float : pyval -> result exn Q) (minutes_since : string -> Q).
Context (cfg : Config) (products : list (string * list Phase)) (phase_tasks : Phase -> list Task).
Context (authorized : Task -> bool).
Context (tasks : tasks_t).

(** ** The order of work *)

Definition filterR {A} (p : A -> result exn bool) (l : list A) : result exn (list A) :=
  foldR (fun acc x => b ← p x; Ok (if (b : bool) then acc ++ [x] else acc)) l [].

(** [_edit_pending] *)
Definition edit_pending (st : entries) (t : Task) : result exn bool :=
  if flag_set st (id t) "edit_run" then Ok true
  else if has_pending (body t) then n ← count_of st (id t) "edit_attempts"; Ok (n <? edit_max_attempts cfg) else Ok false.

Definition may_rebase (st : entries) (t : Task) : bool :=
  bool_decide (status t = CHANGES_REQUESTED) && flag_set st (id t) "rebase_pending" && negb (flag_set st (id t) "needs_human") && negb (flag_set st (id t) "check_run").
Definition may_revise (st : entries) (limit : Z) (t : Task) : result exn bool :=
  let f := flag_set st (id t) in
  if bool_decide (status t = CHANGES_REQUESTED) && f "pending_feedback" && negb (f "rebase_pending") && negb (f "needs_human") && negb (f "check_run") && negb (f "review_run")
  then if f "pending_feedback_rebase" then Ok true else n ← count_of st (id t) "revisions"; Ok (n <? limit)
  else Ok false.
(** [worker_candidates] *)
Definition worker_candidates (st : entries) (limit : Z) (stack : bool) : result exn (list (Task * string)) :=
  let rebases := List.filter (may_rebase st) (dvals tasks) in
  revises ← filterR (may_revise st limit) (dvals tasks);
  works ← filterR (fun t => p ← edit_pending st t; Ok (negb p)) (ready tasks stack);
  Ok (map (fun t => (t, "rebase"%string)) rebases ++ map (fun t => (t, "revise"%string)) revises ++ map (fun t => (t, "work"%string)) works).

(** ** Phases *)

Definition phases_of (p : string) : option (list Phase) := dget p products.
(** [self.store.phase] *)
Definition find_phase (p ph : string) : option Phase := list_find (fun x => ph_name x = ph) (default [] (phases_of p)) ≫= fun x => Some x.2.
(** [sequential_phase] *)
Definition sequential_phase (p : string) : option Phase :=
  if sequential cfg p then l ← phases_of p; x ← list_find (fun x => closed x = "") l; Some x.2 else None.
(** [sequential_phase_wait_reason] *)
Definition sequential_phase_wait_reason (st : entries) (ph : Phase) : string :=
  let mine := phase_tasks ph in
  if nonempty (frozen ph) then phase_key ph ++ " is frozen (" ++ frozen ph ++ "); unfreeze it or close it explicitly"
  else let waiting := map id (List.filter (fun t => bool_decide (status t = WAITING_HUMAN) || flag_set st (id t) "needs_human") mine) in
    if nonempty_list waiting then "owner input is required for " ++ join ", " waiting
    else let later := sorted_set (mjoin (map (fun t => List.filter (fun d =>
        match dget d tasks with Some dep => negb (bool_decide (phase dep = ph_name ph)) && negb (terminal (status dep)) | None => false end) (depends_on t)) mine)) in
      if nonempty_list later then "cross-phase dependencies are still open: " ++ join ", " later ++ "; resolve the dependency or phase order instead of skipping the phase"
      else let open := map id (List.filter (fun t => negb (terminal (status t))) mine) in
        if nonempty_list open then "open work remains: " ++ join ", " open
        else "its required closing review or explicit phase closure is still outstanding".
(** [sequential_phase_refusal], [phase_admission_refusal] *)
Definition sequential_phase_refusal (st : entries) (t : Task) : string :=
  match sequential_phase (product t) with
  | None => ""
  | Some current =>
      if bool_decide (ph_name current = phase t) then ""
      else key t ++ " waits for sequential phase " ++ phase_key current ++ " to close; " ++ sequential_phase_wait_reason st current
  end.
Definition phase_admission_refusal (st : entries) (t : Task) : string :=
  match find_phase (product t) (phase t) with
  | None => ""
  | Some ph => let refusal := phase_refusal ph t in if nonempty refusal then refusal else sequential_phase_refusal st t
  end.

(** ** The queue *)

Definition stack_enabled_for (t : Task) : bool := stacking cfg (product t) && negb (bool_decide (stack_owner cfg (product t) = "external")).
Definition revision_limit : Z := if escalating cfg then 1000000000 else max_revisions cfg.
Definition queued (st : entries) (x : Task * string) : bool :=
  let t := x.1 in let work := bool_decide (x.2 = "work") in
  authorized t && (negb work || negb (flag_set st (id t) "needs_human")) && negb (flag_set st (id t) "runner_hold")
  && (negb work || stack_enabled_for t || negb (nonempty_list (blockers t tasks false))).
(** Why a line is where it is *)
Definition why (st : entries) (x : Task * string) : result exn string :=
  let t := x.1 in
  if bool_decide (x.2 = "rebase") then Ok "rebase round, goes first"%string
  else if bool_decide (x.2 = "revise") && escalating cfg then
    n ← py_int (pget_or "substantive_revisions" (pget_or "revisions" (PInt 0) (entry st (id t))) (entry st (id t))); Ok ("substantive revise round " ++ show (n + 1))%string
  else if bool_decide (x.2 = "revise") then n ← count_of st (id t) "revisions"; Ok ("revise round " ++ show (n + 1) ++ " of " ++ show revision_limit)%string
  else let refusal := phase_admission_refusal st t in
    Ok ("priority " ++ show (priority t) ++ match order t with Some o => " · order " ++ show o | None => "" end
        ++ if nonempty refusal then " · waiting: " ++ refusal else "")%string.
Definition dispatch_queue (st : entries) : result exn (list (Task * string * string)) :=
  candidates ← worker_candidates st revision_limit true;
  mapR (fun x => w ← why st x; Ok (x.1, x.2, w)) (List.filter (queued st) candidates).

(** ** Budgets *)

(** [budget_for]: an override, also a [null] one, wins over the configured caps. *)
Definition budget_for (st : entries) (k : string) : result exn Q :=
  match dget k (entry st "_budgets") with
  | Some v => if truthy v then float v else Ok 0%Q
  | None => Ok (match budget_usd cfg k with Some b => b | None => default 0%Q (product_budget_usd cfg (partition "/"%char k).1) end)
  end.
(** [spent_for]: the costs of the tasks of the phase, in units of the last of four decimals; [costs] is the rollup of the run index. *)
Definition spent_for (costs : list (string * Q)) (k : string) : Z :=
  round4 (foldr (fun c q => match dget c.1 tasks with Some t => if bool_decide (TaskModel.key t = k) then (c.2 + q)%Q else q | None => q end) 0%Q costs).
(** [budget_exceeded], with the marker it leaves *)
Definition budget_exceeded (costs : list (string * Q)) (now : string) (st : entries) (t : Task) : result exn (bool * entries) :=
  budget ← budget_for st (TaskModel.key t);
  if Qeq_bool budget 0 then Ok (false, st)
  else if negb (Qle_bool budget (of_units4 (spent_for costs (TaskModel.key t)))) then Ok (false, st)
  else let marker := ("_phase:" ++ TaskModel.key t)%string in
    Ok (true, if flag_set st marker "budget_hit" then st else put st marker "budget_hit" (PStr now)).
(** [set_budget] *)
Definition set_budget (k : string) (usd : option Q) (shown : Q -> pyval) (st : entries) : entries :=
  let v := match usd with None => PNone | Some q => shown q end in
  drop (put st "_budgets" k v) ("_phase:" ++ k)%string "budget_hit".

(** ** Slots *)

Definition WORKER_MODES : list string := ["work"; "revise"; "resume"; "trial"; "rebase"; "investigation"].
(** [active_runs], of the runs that the index shows as active *)
Definition active_runs (index : list values) : list values := List.filter (fun r => negb (bool_decide (RunRecords.text "runner" r = "manual"))) index.
Definition worker_runs_active (index : list values) : list values := List.filter (fun r => mem (RunRecords.text "mode" r) WORKER_MODES) (active_runs index).
Definition worker_run_in_flight (index : list values) (task_id : string) : bool :=
  existsb (fun r => bool_decide (RunRecords.text "task_id" r = task_id)) (worker_runs_active index).
Definition count {A} (l : list A) : Z := Z.of_nat (List.length l).
Definition slots_free (index : list values) : Z := Z.max 0 (max_parallel cfg - count (worker_runs_active index)).
Definition of_project (p : string) (r : values) : bool :=
  match dget (RunRecords.text "task_id" r) tasks with Some t => bool_decide (product t = p) | None => false end.
Definition slots_free_for (index : list values) (t : Task) : Z :=
  let project_active := count (List.filter (of_project (product t)) (worker_runs_active index)) in
  Z.max 0 (Z.min (slots_free index) (project_max_parallel cfg (product t) - project_active)).

(** ** The capacity of the host *)

Definition resource_parallel_limit : Z :=
  match resources_max_parallel cfg with Some n => Z.max 1 n | None => max_parallel cfg + review_parallel_limit cfg end.
Definition local_runs_active (index : list values) : list values := List.filter is_local_execution (active_runs index).
Definition resource_weight (task_id : string) : Z := match dget task_id tasks with Some t => resource_weight_of cfg (product t) | None => 1 end.
Definition run_resource_weight (r : values) : Z :=
  match pget_or "resource_weight" (PInt 1) (env_snapshot r) with PInt n => if 0 <? n then n else 1 | _ => 1 end.
Definition active_weight (index : list values) : Z := foldr (fun r n => run_resource_weight r + n) 0 (local_runs_active index).
(** The part of [ResourceStatus] that admission looks at *)
Record ResourceStatus := { rs_active : Z; rs_limit : Z; rs_pressured : bool }.
Definition capacity_full (s : ResourceStatus) : bool := rs_limit s <=? rs_active s.
Definition admission_blocked (s : ResourceStatus) : bool := capacity_full s || rs_pressured s.
Definition local_slots_free (s : ResourceStatus) : Z := if admission_blocked s then 0 else Z.max 0 (rs_limit s - rs_active s).

(** ** Pools *)

Definition paused_harnesses (st : entries) : row := dict_of_value (pget "paused_harnesses" (control st)).
Definition is_harness_paused (st : entries) (name : string) : bool := nonempty name && dmem name (paused_harnesses st).
Definition overrides (st : entries) : row := dict_of_value (pget "overrides" (control st)).

Record Member := { m_harness : string; m_model : string; m_weight : Z; m_label : string }.
#[export] Instance member_eq_dec : EqDecision Member.
Proof. solve_decision. Defined.
Definition member_label (harness model : string) : string := (harness ++ ":" ++ model)%string.
(** One entry of a pool; a malformed one is left out. *)
Definition pool_member (review : bool) (v : pyval) : result exn (option Member) :=
  let v := match v with
    | PStr s => if review then let '(h, m) := partition ":"%char s in PDict [("harness"%string, PStr h); ("model"%string, PStr m)] else v
    | _ => v
    end in
  match v with
  | PDict d =>
      if negb (truthy (pget "harness" d)) then Ok None
      else let harness := py_str (pget "harness" d) in let model := py_str (por (pget "model" d) (PStr "")) in
        w ← py_int (por (pget "weight" d) (PInt 1));
        Ok (Some {| m_harness := harness; m_model := model; m_weight := Z.max 1 w; m_label := member_label harness model |})
  | _ => Ok None
  end.
(** [pool_members] *)
Definition pool_members (st : entries) (tier : string) (review : bool) : result exn (list Member) :=
  let raw := if review then review_pool cfg else if dmem "models" (overrides st) then pget "models" (overrides st) else pget_or "models" (models cfg) (profile cfg) in
  let listed := if review then raw else match raw with PDict d => pget tier d | _ => PNone end in
  match listed with
  | PList l => foldR (fun acc v => m ← pool_member review v; Ok (match m with Some m => acc ++ [m] | None => acc end)) l []
  | _ => Ok []
  end.
(** [pool_member_near_quota] *)
Definition pool_member_near_quota (st : entries) (m : Member) : bool :=
  match pget (m_label m) (dict_of_value (pget "pool_quota_members" (control st))) with
  | PDict e => let window := quota_window_hours cfg in
      negb (Qle_bool window 0) && negb (Qle_bool (window * 60) (minutes_since (py_str (por (pget "at" e) (PStr "")))))
  | _ => false
  end.
(** The members, each as often as its weight calls for; members near their quota keep half of their share. *)
Definition pool_slots (st : entries) (available : list Member) : list Member :=
  if bool_decide (spread cfg = "round_robin") then available
  else if bool_decide (spread cfg = "quota_aware") then
    let limited := List.filter (pool_member_near_quota st) available in
    mjoin (map (fun m => repeat m (Z.to_nat (m_weight m * (if nonempty_list limited && bool_decide (m ∈ limited) then 1 else if nonempty_list limited then 2 else 1)))) available)
  else mjoin (map (fun m => repeat m (Z.to_nat (m_weight m))) available).
(** [select_pool_member] *)
Definition select_pool_member (st : entries) (t : Task) (tier : string) (review advance : bool) : result exn (option Member * entries) :=
  members ← pool_members st tier review;
  if negb (nonempty_list members) then Ok (None, st)
  else
    let pinned := List.filter (fun m => (review || negb (nonempty (harness t)) || bool_decide (m_harness m = harness t))
      && (review || negb (nonempty (model t)) || bool_decide (m_model m = model t))) members in
    if negb (nonempty_list pinned) then
      if negb review && (nonempty (harness t) || nonempty (model t)) then
        let h := if nonempty (harness t) then harness t else product_harness cfg (product t) in
        Ok (Some {| m_harness := h; m_model := model t; m_weight := 1; m_label := member_label h (model t) |}, st)
      else Ok (None, st)
    else
      let available := List.filter (fun m => negb (is_harness_paused st (m_harness m))) pinned in
      if negb (nonempty_list available) then Ok (None, st)
      else
        let slots := pool_slots st available in
        let k := ((if review then "review" else "work") ++ ":" ++ tier ++ ":" ++ join "," (map m_label pinned))%string in
        n ← count_of st "_pool_rotation" k;
        let i := n mod count slots in
        Ok (nth_error slots (Z.to_nat i), if advance then put st "_pool_rotation" k (PInt (i + 1)) else st).

(** ** Lemmas: the lines of the queue *)

Lemma filterR_spec {A} (p : A -> result exn bool) l l' : filterR p l = Ok l' -> l' `sublist_of` l /\ forall x, x ∈ l' -> p x = Ok true.
Proof.
  unfold filterR. enough (H : forall acc, foldR (fun acc x => b ← p x; Ok (if (b : bool) then acc ++ [x] else acc)) l acc = Ok l' ->
    exists k, l' = acc ++ k /\ k `sublist_of` l /\ forall x, x ∈ k -> p x = Ok true).
  { intros (k & -> & Hs & Hp)%H. done. }
  induction l as [|x l IH]; intros acc; cbn [foldR].
  - intros [= ->]. exists []. rewrite app_nil_r. split; [done|]. split; [done|]. intros x Hx. by apply elem_of_nil in Hx.
  - intros (acc' & (b & Hb & [= <-])%bind_Ok & (k & -> & Hs & Hp)%IH)%bind_Ok. destruct b.
    + exists (x :: k). rewrite <- app_assoc. split; [done|]. split; [by apply sublist_skip|]. intros y [->|Hy]%elem_of_cons; [done|by apply Hp].
    + exists k. split; [done|]. split; [by apply sublist_cons|done].
Qed.
Lemma mapR_fst {A B C} (f : A * B -> result exn C) (l : list (A * B)) l' :
  mapR (fun x => w ← f x; Ok (x.1, x.2, w)) l = Ok l' -> map fst l' = l.
Proof.
  revert l'. induction l as [|x l IH]; intros l'; cbn [mapR]; [by intros [= <-]|].
  intros (y & (w & _ & [= <-])%bind_Ok & (l1 & Hl & [= <-])%bind_Ok)%bind_Ok. cbn. rewrite (IH l1 Hl). by destruct x.
Qed.
Lemma filter_sublist {A} (f : A -> bool) l : List.filter f l `sublist_of` l.
Proof. induction l as [|x l IH]; cbn; [done|]. destruct (f x); [by apply sublist_skip|by apply sublist_cons]. Qed.

Lemma submseteq_nodup {A} (l k : list A) : NoDup k -> l ⊆+ k -> NoDup l.
Proof. intros Hk [x Hp]%submseteq_Permutation. rewrite Hp in Hk. by apply NoDup_app in Hk as [? _]. Qed.
Lemma sublist_ids l l' : tasks_wf tasks -> l `sublist_of` l' -> l' ≡ₚ dvals tasks \/ l' `sublist_of` dvals tasks -> NoDup (map id l) /\ forall t, t ∈ l -> dget (id t) tasks = Some t.
Proof.
  intros Hwf Hs Hl. assert (Hin : l ⊆+ dvals tasks).
  { etransitivity; [by apply sublist_submseteq|]. destruct Hl as [->| ?]; [done|by apply sublist_submseteq]. }
  split.
  - assert (Hids : NoDup (map id (dvals tasks))).
    { destruct Hwf as [Hnd Hid]. replace (map id (dvals tasks)) with (dkeys tasks); [done|]. unfold dkeys, dvals. rewrite map_map. apply map_ext_in.
      intros [k t] Hk%list_elem_of_In. by apply Hid. }
    assert (Hsub : map id l ⊆+ map id (dvals tasks)) by by apply fmap_submseteq. by eapply submseteq_nodup.
  - intros t Ht. apply dget_id; [done|]. by eapply elem_of_submseteq.
Qed.

(** The candidates are tasks of the store, each on one line. *)
Lemma candidates_spec st limit stack q : tasks_wf tasks -> worker_candidates st limit stack = Ok q ->
  NoDup (map (fun x => id x.1) q) /\ forall t mode, (t, mode) ∈ q -> dget (id t) tasks = Some t.
Proof.
  intros Hwf (revises & [Hsr Hr]%filterR_spec & (works & [Hsw Hw]%filterR_spec & [= <-])%bind_Ok)%bind_Ok.
  set (rebases := List.filter (may_rebase st) (dvals tasks)).
  assert (Hb : forall t, t ∈ rebases -> status t = CHANGES_REQUESTED /\ flag_set st (id t) "rebase_pending" = true).
  { intros t Ht. apply list_elem_of_In, filter_In in Ht as [_ Ht]. unfold may_rebase in Ht. rewrite !andb_true_iff, bool_decide_eq_true in Ht. tauto. }
  assert (Hv : forall t, t ∈ revises -> status t = CHANGES_REQUESTED /\ flag_set st (id t) "rebase_pending" = false).
  { intros t Ht%Hr. unfold may_revise in Ht. cbv zeta in Ht. destruct (_ && _) eqn:E in Ht; [|done]. rewrite !andb_true_iff, !negb_true_iff, bool_decide_eq_true in E. tauto. }
  destruct (sublist_ids rebases (dvals tasks)) as [Nb Ib]; [done|apply filter_sublist|by right|].
  destruct (sublist_ids revises (dvals tasks)) as [Nr Ir]; [done|done|by right|].
  set (fl := List.filter (fun t => bool_decide (status t = READY) && negb (is_blocked t tasks stack)) (dvals tasks)).
  assert (Hk : works ⊆+ fl) by (etransitivity; [by apply sublist_submseteq|]; unfold ready; by rewrite sort_by_Permutation).
  assert (Hws : forall t, t ∈ works -> status t = READY).
  { intros t Ht. eapply elem_of_submseteq in Ht; [|exact Hk]. apply list_elem_of_In, filter_In in Ht as [_ Ht]. by apply andb_true_iff in Ht as [Ht%bool_decide_eq_true _]. }
  destruct (sublist_ids fl (dvals tasks)) as [Nf If]; [done|apply filter_sublist|by right|].
  assert (Iw : forall t, t ∈ works -> dget (id t) tasks = Some t) by (intros t Ht; apply If; by eapply elem_of_submseteq).
  assert (Nw : NoDup (map id works)) by (eapply submseteq_nodup; [exact Nf|by apply fmap_submseteq]).
  assert (Hdis : forall l l' (P : Task -> Prop), (forall t, t ∈ l -> dget (id t) tasks = Some t /\ P t) -> (forall t, t ∈ l' -> dget (id t) tasks = Some t /\ ~ P t) -> forall i, i ∈ map id l -> i ∉ map id l').
  { intros l l' P Hl Hl' i Hi Hi'. apply list_elem_of_fmap in Hi as (t & -> & Ht), Hi' as (t' & Heq & Ht'). destruct (Hl t Ht) as [H1 H2], (Hl' t' Ht') as [H3 H4]. rewrite <- Heq in H3. congruence. }
  split.
  - rewrite !map_app, !map_map. cbn [fst]. apply NoDup_app. split; [exact Nb|]. split.
    + intros i Hi Hin. apply elem_of_app in Hin as [Hin|Hin]; revert Hin.
      * apply (Hdis rebases revises (fun t => flag_set st (id t) "rebase_pending" = true)); [naive_solver| |done]. intros t Ht. split; [by apply Ir|]. destruct (Hv t Ht). congruence.
      * apply (Hdis rebases works (fun t => status t = CHANGES_REQUESTED)); [naive_solver| |done]. intros t Ht. split; [by apply Iw|]. rewrite (Hws t Ht). done.
    + apply NoDup_app. split; [exact Nr|]. split; [|exact Nw]. apply (Hdis revises works (fun t => status t = CHANGES_REQUESTED)); [naive_solver|].
      intros t Ht. split; [by apply Iw|]. rewrite (Hws t Ht). done.
  - intros t mode. rewrite !elem_of_app. intros [H|[H|H]]; apply list_elem_of_fmap in H as (t' & [= -> ->] & H); auto.
Qed.

(** So are the lines of the queue. *)
Lemma queue_spec st q : tasks_wf tasks -> dispatch_queue st = Ok q ->
  NoDup (map (fun x => id x.1.1) q) /\ forall t mode w, (t, mode, w) ∈ q -> dget (id t) tasks = Some t.
Proof.
  intros Hwf (c & Hc & Hq%mapR_fst)%bind_Ok. destruct (candidates_spec _ _ _ _ Hwf Hc) as [Hnd Hin]. split.
  - assert (Hm : map (fun x => id x.1.1) q = map (fun x => id x.1) (map fst q)) by by rewrite map_map.
    rewrite Hm, Hq. eapply submseteq_nodup; [exact Hnd|]. apply fmap_submseteq, sublist_submseteq, filter_sublist.
  - intros t mode w H. assert (Hm : (t, mode) ∈ map fst q) by (apply list_elem_of_fmap; by exists (t, mode, w)). rewrite Hq in Hm.
    apply (Hin t mode). revert Hm. apply sublist_subseteq, filter_sublist.
Qed.
End queue.
