(* ===== verification/Dispatch.v ===== *)
(** * The dispatch pass ([scheduler/dispatch.py], [dispatch_ready])

    Once per tick the scheduler walks its queue and starts what may start.  The pass is a program: what it reads of the machine and of the run index,
    and what it starts, are commands; the side-store is threaded through, and calls that may change entries of it return it.

    [Dispatch] stands for the launch ([DispatchMixin.dispatch]: checkout, brief, run record, worker process), which may also be refused or fail. *)

From Stdlib Require Import QArith.
From S2P Require Import Prelude PyValue Requirements Effects StateStore RunRecords RunIndex WorkerLease TaskModel Graph DispatchQueue.

#[local] Open Scope list_scope.
#[local] Open Scope Z_scope.

Inductive launch : Type :=
| Started
| Deferred (message : string)       (* ResourcePressureError, DispatchAdmissionError *)
| Raised (message : string).

Inductive dcmd : Type -> Type :=
| ActiveRuns : dcmd (list values)
| Pressured (weighed : option string) : dcmd bool       (* [weighed]: the task whose weight is compared with the room next, for the trace only *)
| RunsFor (task_id : string) : dcmd (list values)
| TryReclaim (st : entries) : dcmd entries
| DrainPendingReviews (st : entries) : dcmd entries
| CaptureHeld (t : Task) (st : entries) : dcmd (bool * entries)
| ScopeReady (t : Task) (st : entries) : dcmd (bool * entries)
| Dispatch (t : Task) (mode : string) (r : Runner) (m : option Member) (st : entries) : dcmd (launch * entries)
| Investigate (t : Task) (st : entries) : dcmd (launch * entries)
| FailTask (t : Task) (note : string) (st : entries) : dcmd entries.
Abbreviation dprog := (prog dcmd exn).

Section pass.
Context (has_pending : string -> bool) (float : pyval -> result exn Q) (minutes_since : string -> Q).
Context (cfg : Config) (products : list (string * list Phase)) (phase_tasks : Phase -> list Task).
Context (authorized : Task -> bool) (permitted : Task -> bool) (runner_for : Task -> string -> string -> Runner).
Context (costs : list (string * Q)) (now : string) (tasks : tasks_t).

#[local] Abbreviation refusal := (phase_admission_refusal cfg products phase_tasks tasks).

(** [resource_status] *)
Definition resource_status (weighed : option string) : dprog ResourceStatus :=
  index ← do_ ActiveRuns; p ← do_ (Pressured weighed);
  Ret {| rs_active := active_weight index; rs_limit := resource_parallel_limit cfg; rs_pressured := p |}.

(** What the walk keeps: the side-store, the local tasks that lacked room, and the report *)
Record Walk := { w_st : entries; w_blocked : list Task; w_dispatched : list string; w_errors : list string }.
Definition with_st (st : entries) (w : Walk) : Walk := {| w_st := st; w_blocked := w_blocked w; w_dispatched := w_dispatched w; w_errors := w_errors w |}.
Definition blocked (t : Task) (w : Walk) : Walk := {| w_st := w_st w; w_blocked := w_blocked w ++ [t]; w_dispatched := w_dispatched w; w_errors := w_errors w |}.
Definition report (line : string) (w : Walk) : Walk := {| w_st := w_st w; w_blocked := w_blocked w; w_dispatched := w_dispatched w ++ [line]; w_errors := w_errors w |}.
Definition complain (line : string) (w : Walk) : Walk := {| w_st := w_st w; w_blocked := w_blocked w; w_dispatched := w_dispatched w; w_errors := w_errors w ++ [line] |}.

(** [_manual_reserved] *)
Definition manual_reserved (st : entries) (t : Task) : bool :=
  match pget "manual_reservation" (entry st (id t)) with PDict d => truthy (pget "id" d) | _ => false end.
Definition bypasses (st : entries) (t : Task) : result exn Z := count_of st (id t) "resource_bypasses".
(** [any(...)], which stops at the first *)
Fixpoint starving (st : entries) (l : list Task) : result exn bool :=
  match l with [] => Ok false | t :: l' => n ← bypasses st t; if max_bypasses cfg <=? n then Ok true else starving st l' end.
(** After a local start: the task's own counter goes, those of the tasks it overtook grow. *)
Definition count_bypasses (st : entries) (t : Task) (overtaken : list Task) : result exn entries :=
  foldR (fun st old => n ← bypasses st old; Ok (put st (id old) "resource_bypasses" (PInt (n + 1)))) overtaken (drop st (id t) "resource_bypasses").

(** An exception raised by the launch, or after it *)
Definition fail (t : Task) (message : string) (w : Walk) : dprog Walk :=
  let w := complain (id t ++ ": dispatch failed: " ++ message)%string w in
  if flag_set (w_st w) (id t) "needs_human" then Ret w else st ← do_ (FailTask t ("dispatch failed: " ++ message)%string (w_st w)); Ret (with_st st w).
Definition message_of (e : exn) : string := match e with ValueError m => m | _ => "" end.
(** The rotation of the pool is committed once the worker has started. *)
Definition rotate (t : Task) (member : option Member) (st : entries) : result exn entries :=
  match member with Some _ => s ← select_pool_member minutes_since cfg st t (difficulty t) false true; Ok s.2 | None => Ok st end.
(** The launch itself *)
Definition start (t : Task) (mode : string) (r : Runner) (member : option Member) (w : Walk) : dprog Walk :=
  '(x, st) ← do_ (Dispatch t mode r member (w_st w));
  let w := with_st st w in
  match (x : launch) with
  | Deferred m => Ret (complain (id t ++ ": " ++ m)%string w)
  | Raised m => fail t m w
  | Started =>
      match rotate t member (w_st w) with
      | Err e => fail t (message_of e) w
      | Ok st =>
          let w := report (id t ++ "(" ++ mode ++ ")")%string (with_st st w) in
          if bool_decide (rn_name r = "local") then
            match count_bypasses st t (w_blocked w) with Ok st => Ret (with_st st w) | Err e => fail t (message_of e) w end
          else Ret w
      end
  end.

(** The last checks before the launch *)
Definition last_checks (t : Task) (mode : string) (r : Runner) (member : option Member) (w : Walk) : dprog Walk :=
  pool ← lift (pool_members cfg (w_st w) (difficulty t) false);
  if negb (match member with Some _ => true | None => false end) && nonempty_list pool then Ret w
  else if match rn_harness r with Some h => is_harness_paused (w_st w) h | None => false end then Ret w
  else '(held, st) ← do_ (CaptureHeld t (w_st w));
    let w := with_st st w in
    if (held : bool) then Ret w
    else '(ready, st) ← do_ (ScopeReady t (w_st w));
      let w := with_st st w in
      if negb ready then Ret w else start t mode r member w.
(** The room on this host: [None] when the task is passed over *)
Definition local_room (t : Task) (r : Runner) (w : Walk) : dprog (bool * Walk) :=
  free ← (if rn_remote r then Ret 1 else s ← resource_status None; Ret (local_slots_free s));
  if free <=? 0 then Ret (false, w)
  else if negb (bool_decide (rn_name r = "local")) then Ret (true, w)
  else s ← resource_status (Some (id t));
    let weight := resource_weight cfg tasks (id t) in
    if rs_pressured s then Ret (false, w)
    else if rs_limit s <? rs_active s + weight then Ret (false, if weight <=? rs_limit s then blocked t w else w)
    else starved ← lift (starving (w_st w) (w_blocked w)); Ret (negb starved, w).

(** One line of the queue; the flag says to stop. *)
Definition visit (t : Task) (mode : string) (w : Walk) : dprog (bool * Walk) :=
  if manual_reserved (w_st w) t then Ret (false, w)
  else index ← do_ ActiveRuns;
    if worker_run_in_flight index (id t) then Ret (false, w)
    else if nonempty (refusal (w_st w) t) then Ret (false, w)
    else '(exceeded, st) ← lift (budget_exceeded float cfg tasks costs now (w_st w) t);
      let w := with_st st w in
      if (exceeded : bool) then Ret (false, w)
      else if negb (auto_dispatch cfg (product t)) then Ret (false, w)
      else '(member, _) ← lift (select_pool_member minutes_since cfg (w_st w) t (difficulty t) false false);
        let r := runner_for t "" (match member with Some m => m_harness m | None => "" end) in
        if negb (rn_detached r) then Ret (false, w)
        else index ← do_ ActiveRuns;
          if slots_free cfg index <=? 0 then Ret (true, w)
          else index ← do_ ActiveRuns;
            if slots_free_for cfg tasks index t <=? 0 then Ret (false, w)
            else '(room, w) ← local_room t r w;
              if negb room then Ret (false, w) else w ← last_checks t mode r member w; Ret (false, w).
Fixpoint walk (queue : list (Task * string)) (w : Walk) : dprog Walk :=
  match queue with
  | [] => Ret w
  | x :: queue' => '(stop, w) ← visit x.1 x.2 w; if (stop : bool) then Ret w else walk queue' w
  end.

(** [_dispatch_pending_investigations] *)
Definition RUN_ACTIVE : list string := ["requested"; "preparing"; "running"].
Definition investigation (st : entries) (t : Task) : row := dict_of_value (pget "investigation" (entry st (id t))).
Definition set_investigation (st : entries) (t : Task) (k : string) (v : pyval) : entries := put st (id t) "investigation" (PDict (dset k v (investigation st t))).
(** [_set_needs_human] *)
Definition set_needs_human (t : Task) (kind reason : string) (st : entries) : entries :=
  put st (id t) "needs_human" (PDict [("kind", PStr kind); ("reason", PStr reason); ("prior_status", PStr (status_value (status t))); ("at", PStr now)]).
Definition investigate (w : Walk) (t : Task) : dprog Walk :=
  let inv := investigation (w_st w) t in
  if negb (is_str (pget "owner" inv) "agent") || negb (in_strs (pget "status" inv) ["requested"; "draining"]) then Ret w
  else runs ← do_ (RunsFor (id t));
    if existsb (fun r => mem (RunRecords.text "status" r) RUN_ACTIVE) runs then Ret (with_st (set_investigation (w_st w) t "status" (PStr "draining")) w)
    else if nonempty (sequential_phase_refusal cfg products phase_tasks tasks (w_st w) t) then Ret w
    else index ← do_ ActiveRuns;
      if slots_free cfg index <=? 0 then Ret w
      else s ← resource_status None;
        if local_slots_free s <=? 0 then Ret w
        else '(x, st) ← do_ (Investigate t (w_st w));
          let w := with_st st w in
          match (x : launch) with
          | Started => Ret (report (id t ++ "(investigation)")%string w)
          | Deferred m | Raised m =>
              let st := set_investigation (set_investigation (set_investigation (w_st w) t "status" (PStr "failed")) t "error" (PStr m)) t "failed_at" (PStr now) in
              Ret (with_st (set_needs_human t "investigation" ("investigation agent failed to start: " ++ m)%string st) w)
          end.

(** [dispatch_ready] *)
Definition dispatch_ready (st : entries) : dprog Walk :=
  queue ← lift (dispatch_queue has_pending cfg products phase_tasks authorized tasks st);
  let queue := List.filter (fun x => permitted x.1.1) queue in
  let local_queue := existsb (fun x => let r := runner_for x.1.1 "" "" in rn_detached r && bool_decide (rn_name r = "local")) queue in
  let pending := existsb (fun t => flag_set st (id t) "pending_reviews") (dvals tasks) in
  st ← (if local_queue || pending then do_ (TryReclaim st) else Ret st);
  st ← do_ (DrainPendingReviews st);
  w ← foldP investigate (dvals tasks) {| w_st := st; w_blocked := []; w_dispatched := []; w_errors := [] |};
  walk (map fst queue) w.
End pass.

(** ** A small garden *)

Module Garden.
Definition cfg : Config :=
  {| max_parallel := 3; project_max_parallel := fun _ => 2; resources_max_parallel := Some 4; review_parallel_limit := 1; max_bypasses := 1;
     resource_weight_of := fun p => if bool_decide (p = "heavy"%string) then 4 else 1; escalating := false; max_revisions := 3; stacking := fun _ => true; stack_owner := fun _ => "garden"%string;
     sequential := fun _ => false; auto_dispatch := fun _ => true; budget_usd := fun _ => Some 5%Q; product_budget_usd := fun _ => None; models := PDict []; review_pool := PNone; profile := [];
     product_harness := fun _ => "codex"%string; spread := "weighted"; quota_window_hours := 0%Q; edit_max_attempts := 3 |}.
Definition task_in (s : Status) (p i : string) : Task :=
  let t := plain_task i s [] in
  {| path := path t; id := id t; title := title t; status := status t; product := p; phase := phase t; depends_on := depends_on t; dependency_after := dependency_after t; kind := kind t;
     priority := priority t; order := order t; estimate := estimate t; reading := reading t; repo := repo t; branch := branch t; pr := pr t; runner := runner t; harness := harness t;
     difficulty := difficulty t; model := model t; execution_requirements := TaskModel.execution_requirements t; owner := owner t; owner_unassigned := owner_unassigned t; discovered_from := discovered_from t;
     freeze_exception := freeze_exception t; freeze_exception_reason := freeze_exception_reason t; retro_blocking := retro_blocking t; attempts := attempts t;
     last_dispatched_at := last_dispatched_at t; created := created t; updated := updated t; extra := extra t; body := body t; loaded := loaded t |}.
Definition task : string -> string -> Task := task_in READY.
(** A heavy task, two light ones behind it, and one on which an agent is to look into a failure *)
Definition tasks : tasks_t := filed [task "heavy" "A-1"; task "light" "B-1"; task "light" "B-2"; task_in FAILED "light" "C-1"].
Definition products : list (string * list Phase) :=
  map (fun p => (p, [{| ph_product := p; ph_name := "p1"; ph_path := ""; ph_meta := [] |}])) ["heavy"%string; "light"%string].
Definition local : Runner := {| rn_name := "local"; rn_detached := true; rn_remote := false; rn_harness := Some "codex"%string |}.
Definition pass (st : entries) : dprog Walk :=
  dispatch_ready (fun _ => false) (fun _ => Ok 0%Q) (fun _ => 0%Q) cfg products (fun _ => []) (fun _ => true) (fun _ => true) (fun _ _ _ => local) [] "now" tasks st.
Definition run_of (t : Task) (mode : string) : values :=
  list_to_map [("task_id"%string, PStr (id t)); ("runner"%string, PStr "local"); ("mode"%string, PStr mode); ("status"%string, PStr "running");
    ("env_snapshot"%string, PDict [("resource_weight"%string, PInt (resource_weight_of cfg (product t)))])].
(** Every launch works; the state is what runs now. *)
Definition answers (R : Type) (c : dcmd R) (index : list values) : R * list values :=
  match c in dcmd R return R * list values with
  | ActiveRuns => (index, index)
  | Pressured _ => (false, index)
  | RunsFor _ => ([], index)
  | TryReclaim st | DrainPendingReviews st | FailTask _ _ st => (st, index)
  | CaptureHeld _ st => ((false, st), index)
  | ScopeReady _ st => ((true, st), index)
  | Dispatch t mode _ _ st => ((Started, st), run_of t mode :: index)
  | Investigate t st => ((Started, set_investigation st t "status" (PStr "active")), run_of t "investigation" :: index)
  end.
(** A run of somebody else's task *)
Definition busy : list values := [run_of (task "other" "Z-9") "work"].
Definition wanted : entries := [("C-1"%string, [("investigation"%string, PDict [("owner"%string, PStr "agent"); ("status"%string, PStr "requested")])])].
End Garden.
