(* ===== verification/DispatchSafety.v ===== *)
(** * The dispatch pass keeps its promises

    What may be started, and after which readings, the pressure on the host and the hold for overtaken tasks among them ([dispatch_guarded]); and that the pass respects the worker
    slots of the garden and of each project, whatever runs finish, or are begun by others, meanwhile ([worker_slots_respected]).  The tasks that lacked room are read off
    the trace ([lacked]), and the walk keeps exactly those ([pass_tracks]). *)

From Stdlib Require Import QArith.
From S2P Require Import Prelude PyValue Requirements Effects StateStore RunRecords RunIndex WorkerLease TaskModel Graph DispatchQueue Dispatch.

#[local] Open Scope list_scope.
#[local] Open Scope Z_scope.

Section safety.
Context (has_pending : string -> bool) (float : pyval -> result exn Q) (minutes_since : string -> Q).
Context (cfg : Config) (products : list (string * list Phase)) (phase_tasks : Phase -> list Task).
Context (authorized : Task -> bool) (permitted : Task -> bool) (runner_for : Task -> string -> string -> Runner).
Context (costs : list (string * Q)) (now : string) (tasks : tasks_t).

#[local] Abbreviation pass := (dispatch_ready has_pending float minutes_since cfg products phase_tasks authorized permitted runner_for costs now tasks).
#[local] Abbreviation visit_ := (visit float minutes_since cfg products phase_tasks runner_for costs now tasks).
#[local] Abbreviation walk_ := (walk float minutes_since cfg products phase_tasks runner_for costs now tasks).
#[local] Abbreviation investigate_ := (investigate cfg products phase_tasks now tasks).
#[local] Abbreviation event_ := (event dcmd).

(** ** What was read since the last launch *)

Definition look (seen : list (list values)) (e : event_) : list (list values) :=
  match e with
  | @Ev _ R c x => match c in dcmd R return R -> list (list values) with
    | ActiveRuns => fun index => seen ++ [index]
    | Dispatch _ _ _ _ _ | Investigate _ _ => fun _ => []
    | _ => fun _ => seen
    end x
  end.
Definition readings (tr : list event_) : list (list values) := foldl look [] tr.

(** The answers since the last launch that the host was not under pressure, each with the task whose weight was compared next *)
Definition calm_look (seen : list (option string)) (e : event_) : list (option string) :=
  match e with
  | @Ev _ R c x => match c in dcmd R return R -> list (option string) with
    | Pressured weighed => fun p => if p then seen else weighed :: seen
    | Dispatch _ _ _ _ _ | Investigate _ _ => fun _ => []
    | _ => fun _ => seen
    end x
  end.
Definition unpressured (tr : list event_) : list (option string) := foldl calm_look [] tr.

(** The tasks whose weight was compared in this pass and fits this host, but did not fit beside what ran then.  This looks at what was read only, not at what the walk keeps. *)
Definition lacks_room (index : list values) (task_id : string) : bool :=
  (resource_parallel_limit cfg <? active_weight index + resource_weight cfg tasks task_id) && (resource_weight cfg tasks task_id <=? resource_parallel_limit cfg).
Definition weigh (x : list values * list string) (e : event_) : list values * list string :=
  match e with
  | @Ev _ R c r => match c in dcmd R return R -> list values * list string with
    | ActiveRuns => fun index => (index, x.2)
    | Pressured (Some i) => fun p => if negb p && lacks_room x.1 i then (x.1, x.2 ++ [i]) else x
    | _ => fun _ => x
    end r
  end.
Definition weighed (tr : list event_) : list values * list string := foldl weigh ([], []) tr.
Definition lacked (tr : list event_) : list string := (weighed tr).2.

Definition dispatched (e : event_) : option (Task * string) :=
  match e with
  | @Ev _ R c x => match c in dcmd R return R -> option (Task * string) with Dispatch t mode _ _ _ => fun _ => Some (t, mode) | _ => fun _ => None end x
  end.

(** The host itself has room: it was not under pressure, and not full. *)
Definition host_free (tr : list event_) : Prop := None ∈ unpressured tr /\ exists index, index ∈ readings tr /\ active_weight index < resource_parallel_limit cfg.

(** What was established when a task is started: [st] is the side-store at the last checks. *)
Record may_start (queue : list (Task * string)) (tr : list event_) (t : Task) (mode : string) (r : Runner) (m : option Member) (st : entries) : Prop := {
  ms_queued : exists before after, queue = before ++ (t, mode) :: after /\ omap dispatched tr `sublist_of` before;
  ms_free : manual_reserved st t = false;
  ms_phase : phase_admission_refusal cfg products phase_tasks tasks st t = "";
  ms_budget : exists b st', budget_for float cfg st (TaskModel.key t) = Ok b /\ (Qeq_bool b 0 = true \/ Qle_bool b (of_units4 (spent_for tasks costs (TaskModel.key t))) = false) /\
    budget_exceeded float cfg tasks costs now st t = Ok (false, st');
  ms_auto : auto_dispatch cfg (product t) = true;
  ms_route : r = runner_for t "" (match m with Some m => m_harness m | None => "" end) /\ rn_detached r = true;
  ms_member : (exists st', select_pool_member minutes_since cfg st t (difficulty t) false false = Ok (m, st')) /\ (m = None -> pool_members cfg st (difficulty t) false = Ok []);
  ms_harness : forall h, rn_harness r = Some h -> is_harness_paused st h = false;
  ms_idle : exists index, index ∈ readings tr /\ worker_run_in_flight index (id t) = false;
  ms_slots : exists index, index ∈ readings tr /\ count (worker_runs_active index) < max_parallel cfg;
  ms_project : exists index, index ∈ readings tr /\ count (worker_runs_active index) < max_parallel cfg /\
    count (List.filter (of_project tasks (product t)) (worker_runs_active index)) < project_max_parallel cfg (product t);
  ms_room : rn_name r = "local" -> exists index, index ∈ readings tr /\ active_weight index + resource_weight cfg tasks (id t) <= resource_parallel_limit cfg;
  ms_host : rn_remote r = false -> host_free tr;
  ms_calm : rn_name r = "local" -> Some (id t) ∈ unpressured tr;
  ms_hold : rn_name r = "local" -> forall h, h ∈ lacked tr -> exists n, count_of st h "resource_bypasses" = Ok n /\ n < max_bypasses cfg }.
Definition guard (queue : list (Task * string)) (tr : list event_) (e : event_) : Prop :=
  match e with
  | @Ev _ R c x => match c in dcmd R return R -> Prop with
    | Dispatch t mode r m st2 => fun _ => exists tr0 st st1, tr = tr0 ++ [Ev (CaptureHeld t st) (false, st1); Ev (ScopeReady t st1) (true, st2)] /\ may_start queue tr t mode r m st
    | Investigate t st => fun _ => host_free tr /\ exists index, index ∈ readings tr /\ count (worker_runs_active index) < max_parallel cfg
    | _ => fun _ => True
    end x
  end.

Lemma readings_snoc tr e : readings (tr ++ [e]) = look (readings tr) e.
Proof. unfold readings. by rewrite foldl_app. Qed.
(** A command that starts nothing keeps what was read. *)
Definition quiet (e : event_) : Prop := forall seen, seen ⊆ look seen e.
Lemma quiet_readings tr e : quiet e -> readings tr ⊆ readings (tr ++ [e]).
Proof. rewrite readings_snoc. intros H. apply H. Qed.
Lemma unpressured_snoc tr e : unpressured (tr ++ [e]) = calm_look (unpressured tr) e.
Proof. unfold unpressured. by rewrite foldl_app. Qed.
Lemma weighed_snoc tr e : weighed (tr ++ [e]) = weigh (weighed tr) e.
Proof. unfold weighed. by rewrite foldl_app. Qed.
(** Commands that neither launch nor ask about pressure, nor read the runs *)
Definition aside (e : event_) : Prop :=
  match e with @Ev _ R c _ => match c with ActiveRuns | Pressured _ | Dispatch _ _ _ _ _ | Investigate _ _ => False | _ => True end end.
Lemma aside_weighed tr e : aside e -> weighed (tr ++ [e]) = weighed tr.
Proof. rewrite weighed_snoc. destruct e as [R c x]. by destruct c. Qed.
Definition launch_free (e : event_) : Prop := match e with @Ev _ R c _ => match c with Dispatch _ _ _ _ _ | Investigate _ _ => False | _ => True end end.
Lemma read_now tr index : index ∈ readings (tr ++ [Ev ActiveRuns index]).
Proof. rewrite readings_snoc. cbn. set_solver. Qed.


(** ** One line *)

#[local] Abbreviation safely queue p tr Q := (safe (guard queue) p tr Q).
(** The new events start at most the tasks of [lines], in their order. *)
Definition starts {A} (lines : list (Task * string)) (tr : list event_) (r : A) (tr' : list event_) : Prop :=
  exists evs, tr' = tr ++ evs /\ omap dispatched evs `sublist_of` lines.

Lemma starts_none {A} lines tr (r : A) : starts lines tr r tr.
Proof. exists []. rewrite app_nil_r. split; [done|apply sublist_nil_l]. Qed.
Lemma starts_after {A} lines tr e (r : A) tr' : dispatched e = None -> starts lines (tr ++ [e]) r tr' -> starts lines tr r tr'.
Proof. intros He (evs & -> & H). exists (e :: evs). rewrite <- app_assoc. split; [done|]. cbn. by rewrite He. Qed.

Lemma do_step {R A} ok (c : dcmd R) (k : R -> dprog A) tr (Q : result exn A -> list event_ -> Prop) :
  (forall x, ok tr (Ev c x) /\ safe ok (k x) (tr ++ [Ev c x]) Q) -> safe ok (x ← do_ c; k x) tr Q.
Proof. done. Qed.
Lemma do_pass_safely {R A} queue lines (c : dcmd R) (k : R -> dprog A) tr :
  (forall x, guard queue tr (Ev c x)) -> (forall x, dispatched (Ev c x) = None) ->
  (forall x, safely queue (k x) (tr ++ [Ev c x]) (starts lines (tr ++ [Ev c x]))) -> safely queue (x ← do_ c; k x) tr (starts lines tr).
Proof.
  intros Hg Hd H x. split; [apply Hg|]. eapply safe_mono; [|apply H]. intros r tr'. apply starts_after, Hd.
Qed.
Lemma lift_pass_safely {A B} queue lines (x : result exn A) (k : A -> dprog B) tr :
  (forall a, x = Ok a -> safely queue (k a) tr (starts lines tr)) -> safely queue (a ← lift x; k a) tr (starts lines tr).
Proof. intros H. apply safe_bind, safe_lift. destruct x; cbn; [by apply H|apply starts_none]. Qed.

(** Facts of the last readings hold after more reading. *)
Record read_ok (tr : list event_) (t : Task) : Prop := {
  ro_idle : exists index, index ∈ readings tr /\ worker_run_in_flight index (id t) = false;
  ro_slots : exists index, index ∈ readings tr /\ count (worker_runs_active index) < max_parallel cfg;
  ro_project : exists index, index ∈ readings tr /\ count (worker_runs_active index) < max_parallel cfg /\
    count (List.filter (of_project tasks (product t)) (worker_runs_active index)) < project_max_parallel cfg (product t) }.
Lemma kept {P : list values -> Prop} tr tr' : readings tr ⊆ readings tr' -> (exists index, index ∈ readings tr /\ P index) -> exists index, index ∈ readings tr' /\ P index.
Proof. intros H (index & Hin & HP). exists index. split; [by apply H|done]. Qed.
Lemma read_ok_kept tr tr' t : readings tr ⊆ readings tr' -> read_ok tr t -> read_ok tr' t.
Proof. intros H [H1 H2 H3]. split; by eapply kept. Qed.

Lemma start_safely queue t mode r m w tr tr0 st st1 :
  tr = tr0 ++ [Ev (CaptureHeld t st) (false, st1); Ev (ScopeReady t st1) (true, w_st w)] -> may_start queue tr t mode r m st ->
  safely queue (start minutes_since cfg t mode r m w) tr (starts [(t, mode)] tr).
Proof.
  intros Htr Hm. unfold start. apply do_step. intros [x st2]. split; [by exists tr0, st, st1; rewrite <- Htr|].
  set (tr2 := tr ++ _). assert (Hone : forall A (v : A), starts [(t, mode)] tr v tr2) by (intros A v; eexists; split; [done|reflexivity]).
  assert (Hfail : forall msg w', safely queue (fail t msg w') tr2 (starts [(t, mode)] tr)).
  { intros msg w'. unfold fail. cbv zeta. destruct (flag_set _ _ _); [apply Hone|]. apply do_step. intros st3. split; [done|].
    eexists. subst tr2. rewrite <- app_assoc. split; [done|reflexivity]. }
  destruct x; [|apply Hone|apply Hfail]. cbv zeta.
  destruct (rotate minutes_since cfg t m (w_st (with_st st2 w))) as [st3|e]; [|apply Hfail].
  destruct (bool_decide (rn_name r = "local")); [|apply Hone]. destruct (count_bypasses _ _ _) as [st4|e]; [apply Hone|apply Hfail].
Qed.

(** What was seen is still there later. *)
Definition remembers (tr tr' : list event_) : Prop := readings tr ⊆ readings tr' /\ unpressured tr ⊆ unpressured tr'.
Lemma remembers_trans tr1 tr2 tr3 : remembers tr1 tr2 -> remembers tr2 tr3 -> remembers tr1 tr3.
Proof. intros [H1 H2] [H3 H4]. split; etransitivity; eassumption. Qed.
Lemma remembers_snoc tr e : launch_free e -> remembers tr (tr ++ [e]).
Proof. unfold remembers. rewrite readings_snoc, unpressured_snoc. destruct e as [R c x]. destruct c; try done; intros _; cbn in *; [|destruct x]; set_solver. Qed.

Lemma last_checks_safely queue t mode r m w tr :
  (forall tr', remembers tr tr' -> weighed tr' = weighed tr -> omap dispatched tr' = omap dispatched tr -> (m = None -> pool_members cfg (w_st w) (difficulty t) false = Ok []) ->
    (forall h, rn_harness r = Some h -> is_harness_paused (w_st w) h = false) -> may_start queue tr' t mode r m (w_st w)) ->
  safely queue (last_checks minutes_since cfg t mode r m w) tr (starts [(t, mode)] tr).
Proof.
  intros H. unfold last_checks. apply lift_pass_safely. intros pool Hpool.
  destruct (negb _ && nonempty_list pool) eqn:Hm; [apply starts_none|].
  destruct (match rn_harness r with Some h => _ | None => _ end) eqn:Hh; [apply starts_none|].
  apply do_pass_safely; [done|done|]. intros [held st1]. cbv zeta. destruct held; [apply starts_none|].
  apply do_pass_safely; [done|done|]. intros [ready st2]. cbv zeta. destruct ready; cbn [negb]; [|apply starts_none].
  eapply (start_safely _ _ _ _ _ _ _ tr (w_st w) st1); [by rewrite <- app_assoc|]. apply H.
  - eapply remembers_trans; by apply remembers_snoc.
  - by rewrite !aside_weighed.
  - rewrite !omap_app. cbn. by rewrite !app_nil_r.
  - intros ->. destruct pool; [done|]. done.
  - intros h E. by rewrite E in Hh.
Qed.

(** A part of the pass that starts nothing *)
Definition looks {A} (tr : list event_) (P : A -> list event_ -> Prop) (r : result exn A) (tr' : list event_) : Prop :=
  (exists evs, tr' = tr ++ evs /\ omap dispatched evs = []) /\ remembers tr tr' /\ match r with Ok a => P a tr' | Err _ => True end.
Lemma looks_none {A} tr (P : A -> list event_ -> Prop) r : match r with Ok a => P a tr | Err _ => True end -> looks tr P r tr.
Proof. intros H. split; [exists []; by rewrite app_nil_r|done]. Qed.
Lemma free_dispatched e : launch_free e -> dispatched e = None.
Proof. by destruct e as [R c x]; destruct c. Qed.
Lemma looks_after {A} tr e (P : A -> list event_ -> Prop) r tr' : launch_free e -> looks (tr ++ [e]) P r tr' -> looks tr P r tr'.
Proof.
  intros He ((evs & -> & Hd) & Hr & H). split; [exists (e :: evs); rewrite <- app_assoc; cbn; by rewrite free_dispatched|].
  split; [by eapply remembers_trans; [apply remembers_snoc|]|done].
Qed.
Lemma do_looks {R A} queue (c : dcmd R) (k : R -> dprog A) tr (P : A -> list event_ -> Prop) :
  (forall x, launch_free (Ev c x)) -> (forall x, safely queue (k x) (tr ++ [Ev c x]) (looks (tr ++ [Ev c x]) P)) -> safely queue (x ← do_ c; k x) tr (looks tr P).
Proof. intros Hc H. apply do_step. intros x. split; [specialize (Hc x); by destruct c|]. eapply safe_mono; [|apply H]. intros r tr'. by apply looks_after. Qed.
Lemma then_looks {A B} queue lines (p : dprog A) (k : A -> dprog B) tr (P : A -> list event_ -> Prop) :
  safely queue p tr (looks tr P) -> (forall a tr', remembers tr tr' -> omap dispatched tr' = omap dispatched tr -> P a tr' -> safely queue (k a) tr' (starts lines tr')) -> safely queue (a ← p; k a) tr (starts lines tr).
Proof.
  intros Hp Hk. apply safe_bind. eapply safe_mono; [|exact Hp]. intros [a|e] tr' ((evs & -> & Hd) & Hr & HP); cbn [then_].
  - eapply safe_mono; [|apply Hk; [done|by rewrite omap_app, Hd, app_nil_r|done]]. intros r tr1 (evs' & -> & Hs). exists (evs ++ evs'). rewrite app_assoc. split; [done|].
    by rewrite omap_app, Hd.
  - exists evs. split; [done|]. rewrite Hd. apply sublist_nil_l.
Qed.
Lemma looks_bind {A B} queue (p : dprog A) (k : A -> dprog B) tr (P : A -> list event_ -> Prop) (Q : B -> list event_ -> Prop) :
  safely queue p tr (looks tr P) -> (forall a tr', remembers tr tr' -> P a tr' -> safely queue (k a) tr' (looks tr' Q)) -> safely queue (a ← p; k a) tr (looks tr Q).
Proof.
  intros Hp Hk. apply safe_bind. eapply safe_mono; [|exact Hp]. intros [a|e] tr' ((evs & -> & Hd) & Hr & HP); cbn [then_].
  - eapply safe_mono; [|by apply Hk]. intros r tr1 ((evs' & -> & Hd') & Hr' & HQ). split; [|split; [by eapply remembers_trans|done]].
    exists (evs ++ evs'). rewrite app_assoc. split; [done|]. by rewrite omap_app, Hd, Hd'.
  - split; [by exists evs|done].
Qed.

(** The room on this host: what [resource_status] says was read, and the tasks compared with it *)
Record status_read (weighed_ : option string) (tr : list event_) (s : ResourceStatus) (tr' : list event_) : Prop := {
  sr_limit : rs_limit s = resource_parallel_limit cfg;
  sr_read : exists index, index ∈ readings tr' /\ rs_active s = active_weight index;
  sr_calm : rs_pressured s = false -> weighed_ ∈ unpressured tr';
  sr_lacked : lacked tr' = match weighed_ with
    | Some i => if negb (rs_pressured s) && ((rs_limit s <? rs_active s + resource_weight cfg tasks i) && (resource_weight cfg tasks i <=? rs_limit s)) then lacked tr ++ [i] else lacked tr
    | None => lacked tr
    end }.
Lemma resource_status_looks queue weighed_ tr : safely queue (resource_status cfg weighed_) tr (looks tr (status_read weighed_ tr)).
Proof.
  unfold resource_status. apply do_looks; [done|]. intros index. apply do_looks; [done|]. intros p. apply looks_none. split; cbn [rs_limit rs_active rs_pressured].
  - done.
  - exists index. split; [|done]. rewrite (readings_snoc (tr ++ _)). apply read_now.
  - intros ->. rewrite unpressured_snoc. cbn. by left.
  - unfold lacked. rewrite !weighed_snoc. destruct weighed_ as [i|]; [|done]. cbn. unfold lacks_room. by destruct (negb p && _).
Qed.
Lemma slots_free_room s : 0 < local_slots_free s -> rs_pressured s = false /\ rs_active s < rs_limit s.
Proof. unfold local_slots_free, admission_blocked, capacity_full. destruct (Z.leb_spec (rs_limit s) (rs_active s)); cbn; [lia|]. destruct (rs_pressured s); [lia|done]. Qed.
Lemma status_host_free tr s tr' : status_read None tr s tr' -> 0 < local_slots_free s -> host_free tr'.
Proof. intros [Hlim (index & Hin & Hact) Hcalm _] [Hp Hlt]%slots_free_room. split; [by apply Hcalm|]. exists index. split; [done|]. by rewrite <- Hact, <- Hlim. Qed.
Lemma host_free_kept tr tr' : remembers tr tr' -> host_free tr -> host_free tr'.
Proof. intros [Hr Hu] [H1 H2]. split; [by apply Hu|by eapply kept]. Qed.

(** What [local_room] has established when it lets [t] pass *)
Record roomy (t : Task) (r : Runner) (w : Walk) (tr : list event_) : Prop := {
  ry_host : rn_remote r = false -> host_free tr;
  ry_room : rn_name r = "local" -> exists index, index ∈ readings tr /\ active_weight index + resource_weight cfg tasks (id t) <= resource_parallel_limit cfg;
  ry_calm : rn_name r = "local" -> Some (id t) ∈ unpressured tr;
  ry_hold : rn_name r = "local" -> forall x, x ∈ w_blocked w -> exists n, count_of (w_st w) (id x) "resource_bypasses" = Ok n /\ n < max_bypasses cfg }.
Lemma starving_spec st l : starving cfg st l = Ok false -> forall x, x ∈ l -> exists n, count_of st (id x) "resource_bypasses" = Ok n /\ n < max_bypasses cfg.
Proof.
  induction l as [|y l IH]; cbn [starving]; intros H x Hx; [by apply elem_of_nil in Hx|]. apply bind_Ok in H as (n & Hn & H).
  destruct (Z.leb_spec (max_bypasses cfg) n); [done|]. apply elem_of_cons in Hx as [->|Hx]; [by exists n|by apply IH].
Qed.
(** The walk keeps the tasks that lacked room. *)
Definition tracks (w : Walk) (tr : list event_) : Prop := lacked tr = map id (w_blocked w).
Lemma local_room_looks queue t r w tr : tracks w tr ->
  safely queue (local_room cfg tasks t r w) tr (looks tr (fun v tr' => w_st v.2 = w_st w /\ tracks v.2 tr' /\ (v.1 = true -> v.2 = w /\ roomy t r w tr'))).
Proof.
  intros Ht. unfold local_room. apply (looks_bind _ _ _ _ (fun free tr' => lacked tr' = lacked tr /\ (0 < free -> rn_remote r = false -> host_free tr'))).
  { destruct (rn_remote r); [by apply looks_none|]. eapply looks_bind; [apply resource_status_looks|]. intros s tr' _ Hs. apply looks_none. split; [apply Hs|]. intros H _. by eapply status_host_free. }
  intros free tr1 _ [Hl1 Hhost]. unfold tracks in *. destruct (Z.leb_spec free 0) as [|Hfree]; [apply looks_none; by rewrite Hl1|]. specialize (Hhost Hfree).
  destruct (bool_decide_reflect (rn_name r = "local")) as [Hl|Hl]; cbn [negb].
  2:{ apply looks_none. split; [done|]. split; [by rewrite Hl1|]. intros _. split; [done|]. by split. }
  eapply looks_bind; [apply resource_status_looks|]. intros s tr2 Hrem [Hlim (index & Hin & Hact) Hcalm Hlacked]. cbv zeta. rewrite Hl1, Ht in Hlacked.
  destruct (rs_pressured s); [by apply looks_none|]. specialize (Hcalm eq_refl). cbn [negb andb] in Hlacked.
  destruct (Z.ltb_spec (rs_limit s) (rs_active s + resource_weight cfg tasks (id t))) as [Hlt|Hle]; cbn [andb] in Hlacked.
  { apply looks_none. destruct (_ <=? _); (split; [done|]); (split; [|done]); cbn [snd blocked w_blocked]; [by rewrite map_app|done]. }
  apply safe_bind, safe_lift. destruct (starving cfg (w_st w) (w_blocked w)) as [starved|] eqn:Hst; [|by apply looks_none]. apply looks_none. split; [done|]. split; [done|].
  intros Hs. split; [done|]. destruct starved; [done|]. split.
  - intros Hr. by eapply host_free_kept; [|apply Hhost].
  - intros _. exists index. split; [done|]. by rewrite <- Hact, <- Hlim.
  - done.
  - intros _. by apply starving_spec.
Qed.

Lemma within_budget st t st' : budget_exceeded float cfg tasks costs now st t = Ok (false, st') ->
  st' = st /\ exists b st', budget_for float cfg st (TaskModel.key t) = Ok b /\ (Qeq_bool b 0 = true \/ Qle_bool b (of_units4 (spent_for tasks costs (TaskModel.key t))) = false) /\
    budget_exceeded float cfg tasks costs now st t = Ok (false, st').
Proof.
  intros H. pose proof H as H0. unfold budget_exceeded in H. apply bind_Ok in H as (b & Hb & H). destruct (Qeq_bool b 0) eqn:E; [|destruct (Qle_bool b _) eqn:E2; cbn [negb] in H].
  - injection H as <-. split; [done|]. exists b, st. auto.
  - destruct (flag_set _ _ _); discriminate.
  - injection H as <-. split; [done|]. exists b, st. auto.
Qed.

(** One line of the queue starts only its task, and only after all checks. *)
Lemma visit_safely before after t mode w tr (queue := before ++ (t, mode) :: after) :
  omap dispatched tr `sublist_of` before -> tracks w tr -> safely queue (visit_ t mode w) tr (starts [(t, mode)] tr).
Proof.
  intros Hq Ht. unfold visit. destruct (manual_reserved (w_st w) t) eqn:Hman; [apply starts_none|].
  apply do_pass_safely; [done|done|]. intros idle. destruct (worker_run_in_flight idle (id t)) eqn:Hidle; [apply starts_none|].
  destruct (nonempty _) eqn:Href; [apply starts_none|]. apply lift_pass_safely. intros [exceeded st'] Hb. cbv zeta. destruct exceeded; [apply starts_none|].
  destruct (within_budget _ _ _ Hb) as [-> Hbudget]. destruct (auto_dispatch cfg (product t)) eqn:Hauto; cbn [negb]; [|apply starts_none].
  apply lift_pass_safely. intros [member st'] Hmem. cbv zeta. set (r := runner_for t "" _). destruct (rn_detached r) eqn:Hdet; cbn [negb]; [|apply starts_none].
  apply do_pass_safely; [done|done|]. intros i1. destruct (Z.leb_spec (slots_free cfg i1) 0) as [|Hslots]; [apply starts_none|].
  apply do_pass_safely; [done|done|]. intros i2. destruct (Z.leb_spec (slots_free_for cfg tasks i2 t) 0) as [|Hproj]; [apply starts_none|].
  set (tr3 := ((tr ++ _) ++ _) ++ _). assert (Hread : idle ∈ readings tr3 /\ i1 ∈ readings tr3 /\ i2 ∈ readings tr3).
  { subst tr3. rewrite !readings_snoc. cbn. set_solver. }
  assert (Ht3 : tracks w tr3) by (unfold tracks, lacked, tr3; rewrite !weighed_snoc; exact Ht).
  eapply then_looks; [by apply (local_room_looks _ t r (with_st (w_st w) w))|]. intros [room w'] tr4 Hrem Hsame (Hst & Ht4 & Hroom). cbn [fst snd] in *. destruct room; cbn [negb]; [|apply starts_none].
  destruct (Hroom eq_refl) as [-> [Hhost Hweight Hcalm Hhold]]. apply safe_bind. eapply safe_mono; [|apply last_checks_safely].
  { intros [w2|e] tr5 H5; cbn [then_]; exact H5. }
  intros tr5 Hrem2 Hlacked Hsame2 Hpool Hharness. destruct Hread as (R1 & R2 & R3). unfold slots_free, slots_free_for in *.
  destruct Hrem as [Hsub Hcalm1], (Hrem2) as [Hsub2 Hcalm2]. assert (Hkept : forall index, index ∈ readings tr3 -> index ∈ readings tr5) by set_solver. split; try done.
  - exists before, after. split; [done|]. rewrite Hsame2, Hsame. subst tr3. rewrite !omap_app. cbn. by rewrite !app_nil_r.
  - destruct (phase_admission_refusal _ _ _ _ _ _); done.
  - split; [by exists st'|done].
  - exists idle. auto.
  - exists i1. split; [auto|lia].
  - exists i2. unfold slots_free in *. split; [auto|lia].
  - intros Hl. by apply (kept _ _ Hsub2), Hweight.
  - intros Hl. by eapply host_free_kept; [|apply Hhost].
  - intros Hl. by apply Hcalm2, Hcalm.
  - intros Hl h. unfold lacked. rewrite Hlacked. fold (lacked tr4). rewrite Ht4. intros (x & -> & Hx)%list_elem_of_fmap. by apply Hhold.
Qed.

(** Only [local_room] changes which tasks lacked room, in the walk and in the trace. *)
#[local] Abbreviation anyhow p tr Q := (safe (fun _ _ => True) p tr Q).
Definition tracked (tr : list event_) (blocked_ : list Task) (x : result exn Walk) (tr' : list event_) : Prop :=
  weighed tr' = weighed tr /\ match x with Ok w => w_blocked w = blocked_ | Err _ => True end.
Lemma do_tracked {R} (c : dcmd R) (k : R -> dprog Walk) tr l :
  (forall x, weighed (tr ++ [Ev c x]) = weighed tr) -> (forall x, anyhow (k x) (tr ++ [Ev c x]) (tracked (tr ++ [Ev c x]) l)) -> anyhow (x ← do_ c; k x) tr (tracked tr l).
Proof. intros Hw H x. split; [done|]. eapply safe_mono; [|apply H]. unfold tracked. intros y tr'. by rewrite Hw. Qed.
Lemma fail_tracked t msg w tr l : w_blocked w = l -> anyhow (fail t msg w) tr (tracked tr l).
Proof. intros Hl. unfold fail. cbv zeta. destruct (flag_set _ _ _); [done|]. apply do_tracked; [intros; by rewrite weighed_snoc|done]. Qed.
Lemma start_tracked t mode r m w tr l : w_blocked w = l -> anyhow (start minutes_since cfg t mode r m w) tr (tracked tr l).
Proof.
  intros Hl. unfold start. apply do_tracked; [intros; by rewrite weighed_snoc|]. intros [x st]. cbv zeta. destruct x; [|done|by apply fail_tracked].
  destruct (rotate _ _ _ _ _); [|by apply fail_tracked]. destruct (bool_decide _); [|done]. destruct (count_bypasses _ _ _); [done|by apply fail_tracked].
Qed.
Lemma last_checks_tracked t mode r m w tr : anyhow (last_checks minutes_since cfg t mode r m w) tr (tracked tr (w_blocked w)).
Proof.
  unfold last_checks. apply safe_bind, safe_lift. destruct (pool_members _ _ _ _); [|done]. cbn [then_]. destruct (negb _ && _); [done|]. destruct (match rn_harness r with Some h => _ | None => _ end); [done|].
  apply do_tracked; [intros; by rewrite weighed_snoc|]. intros [held st1]. cbv zeta. destruct held; [done|].
  apply do_tracked; [intros; by rewrite weighed_snoc|]. intros [ready st2]. cbv zeta. destruct ready; [by apply start_tracked|done].
Qed.
Definition keeps_track {A} (state : A -> Walk) (x : result exn A) (tr' : list event_) : Prop := match x with Ok a => tracks (state a) tr' | Err _ => True end.
Lemma tracks_read w tr index : tracks w tr -> tracks w (tr ++ [Ev ActiveRuns index]).
Proof. unfold tracks, lacked. by rewrite weighed_snoc. Qed.
Lemma do_keeps {R A} (c : dcmd R) (k : R -> dprog A) tr (Q : result exn A -> list event_ -> Prop) : (forall x, anyhow (k x) (tr ++ [Ev c x]) Q) -> anyhow (x ← do_ c; k x) tr Q.
Proof. intros H x. split; [done|apply H]. Qed.
Lemma visit_tracks t mode w tr : tracks w tr -> anyhow (visit_ t mode w) tr (keeps_track snd).
Proof.
  intros Ht. unfold visit. destruct (manual_reserved _ _); [done|]. apply do_keeps. intros idle. pose proof (tracks_read w _ idle Ht) as Ht1.
  destruct (worker_run_in_flight _ _); [done|]. destruct (nonempty _); [done|]. apply safe_bind, safe_lift. destruct (budget_exceeded _ _ _ _ _ _ _) as [[exceeded st]|]; [|done]. cbn [then_]. cbv zeta.
  destruct exceeded; [done|]. destruct (negb _); [done|]. apply safe_bind, safe_lift. destruct (select_pool_member _ _ _ _ _ _ _) as [[member st']|]; [|done]. cbn [then_]. cbv zeta. set (r := runner_for _ _ _).
  destruct (negb _); [done|]. apply do_keeps. intros i1. apply (tracks_read _ _ i1) in Ht1. destruct (_ <=? 0); [done|]. apply do_keeps. intros i2. apply (tracks_read _ _ i2) in Ht1. destruct (_ <=? 0); [done|].
  apply safe_bind. eapply safe_mono; [|eapply (safe_weaken (guard [])); [done|]; by apply (local_room_looks _ t r (with_st st w))].
  intros [[room w']|] tr' (_ & _ & Hp); [|done]. destruct Hp as (_ & Ht' & _). cbn [then_]. destruct room; cbn [negb]; [|done].
  apply safe_bind. eapply safe_mono; [|apply last_checks_tracked]. intros [w2|] tr2 [Hw Hb]; [|done]. cbn [then_ safe keeps_track snd]. unfold tracks, lacked in *. rewrite Hw, Hb. exact Ht'.
Qed.
Lemma walk_tracks lines w tr : tracks w tr -> anyhow (walk_ lines w) tr (keeps_track (fun w => w)).
Proof.
  revert w tr. induction lines as [|x lines IH]; intros w tr Ht; cbn [walk]; [done|]. apply safe_bind. eapply safe_mono; [|by apply visit_tracks].
  intros [[stop w']|] tr' H; [|done]. cbn [then_]. destruct stop; [done|]. by apply IH.
Qed.
Lemma investigate_tracks w t tr : tracks w tr -> anyhow (investigate_ w t) tr (keeps_track (fun w => w)).
Proof.
  intros Ht. unfold investigate. cbv zeta. destruct (_ || _); [done|]. apply do_keeps. intros runs. assert (Ht1 : tracks w (tr ++ [Ev (RunsFor (id t)) runs])) by (unfold tracks, lacked; by rewrite weighed_snoc).
  destruct (existsb _ _); [done|]. destruct (nonempty _); [done|]. apply do_keeps. intros index. apply (tracks_read _ _ index) in Ht1. destruct (_ <=? 0); [done|].
  apply safe_bind. eapply safe_mono; [|eapply (safe_weaken (guard [])); [done|]; apply resource_status_looks]. intros [s|] tr' (_ & _ & Hs); [|done]. cbn [then_].
  assert (Ht2 : tracks w tr') by (unfold tracks; by rewrite (sr_lacked _ _ _ _ Hs)). destruct (_ <=? 0); [done|]. apply do_keeps. intros [x st].
  assert (Ht3 : tracks w (tr' ++ [Ev (Investigate t (w_st w)) (x, st)])) by (unfold tracks, lacked; by rewrite weighed_snoc). by destruct x.
Qed.
Lemma investigations_track l w tr : tracks w tr -> anyhow (foldP investigate_ l w) tr (keeps_track (fun w => w)).
Proof. intros Ht. apply (safe_fold _ tracks (fun _ _ => True)); [done|]. intros w' t tr' _ Ht'. by apply investigate_tracks. Qed.
(** Both at once *)
Lemma safe_also {A} queue (p : dprog A) tr (Q1 Q2 : result exn A -> list event_ -> Prop) : safely queue p tr Q1 -> anyhow p tr Q2 -> safely queue p tr (fun x tr' => Q1 x tr' /\ Q2 x tr').
Proof. intros H1 H2. eapply safe_weaken; [|exact (safe_both _ _ _ _ _ _ H1 H2)]. by intros tr' e [H _]. Qed.

Lemma walk_safely before lines w tr : omap dispatched tr `sublist_of` before -> tracks w tr -> safely (before ++ lines) (walk_ lines w) tr (starts lines tr).
Proof.
  revert before w tr. induction lines as [|[t mode] lines IH]; intros before w tr Hl Ht; cbn [walk]; [apply starts_none|].
  apply safe_bind. eapply safe_mono; [|by apply safe_also; [apply visit_safely|apply visit_tracks]]. intros [[stop w']|e] tr' [(evs & -> & Hs) Ht']; cbn [then_].
  - destruct stop; [exists evs; split; [done|]; by apply (sublist_inserts_r lines _ [(t, mode)])|].
    replace (before ++ (t, mode) :: lines) with ((before ++ [(t, mode)]) ++ lines) by by rewrite <- app_assoc.
    eapply safe_mono; [|apply IH; [rewrite omap_app; by apply sublist_app|exact Ht']]. intros r tr1 (evs' & -> & Hs').
    exists (evs ++ evs'). rewrite app_assoc. split; [done|]. rewrite omap_app. by apply (sublist_app _ [(t, mode)]).
  - exists evs. split; [done|]. by apply (sublist_inserts_r lines _ [(t, mode)]).
Qed.
Lemma then_starts {A B} queue l1 l2 (p : dprog A) (k : A -> dprog B) tr (P : A -> list event_ -> Prop) :
  safely queue p tr (starts l1 tr) -> anyhow p tr (fun x tr' => match x with Ok a => P a tr' | Err _ => True end) ->
  (forall a tr', omap dispatched tr' `sublist_of` omap dispatched tr ++ l1 -> P a tr' -> safely queue (k a) tr' (starts l2 tr')) -> safely queue (a ← p; k a) tr (starts (l1 ++ l2) tr).
Proof.
  intros Hp HP Hk. apply safe_bind. eapply safe_mono; [|exact (safe_also _ _ _ _ _ Hp HP)]. intros [a|e] tr' [(evs & -> & Hs) Ha]; cbn [then_].
  - eapply safe_mono; [|apply Hk; [rewrite omap_app; by apply sublist_app|exact Ha]]. intros r tr1 (evs' & -> & Hs'). exists (evs ++ evs'). rewrite app_assoc. split; [done|].
    rewrite omap_app. by apply sublist_app.
  - exists evs. split; [done|]. by apply sublist_inserts_r.
Qed.
Lemma investigate_safely queue t w tr : safely queue (investigate_ w t) tr (starts [] tr).
Proof.
  unfold investigate. cbv zeta. destruct (negb _ || negb _); [apply starts_none|]. apply do_pass_safely; [done|done|]. intros runs.
  destruct (existsb _ runs); [apply starts_none|]. destruct (nonempty _); [apply starts_none|].
  apply do_pass_safely; [done|done|]. intros index. destruct (Z.leb_spec (slots_free cfg index) 0) as [|Hslots]; [apply starts_none|].
  eapply then_looks; [apply resource_status_looks|]. intros s tr' Hrem _ Hs. destruct (Z.leb_spec (local_slots_free s) 0); [apply starts_none|].
  apply do_pass_safely; [|done|].
  - intros x. split; [by eapply status_host_free|]. exists index. split; [apply Hrem, read_now|]. unfold slots_free in Hslots. lia.
  - intros [[]  st]; apply starts_none.
Qed.
Lemma investigations_safely queue l w tr : safely queue (foldP investigate_ l w) tr (starts [] tr).
Proof.
  revert w tr. induction l as [|t l IH]; intros w tr; cbn [foldP]; [apply starts_none|].
  apply (then_starts queue [] [] _ _ _ (fun _ _ => True)); [apply investigate_safely| |intros; apply IH].
  eapply safe_mono; [|apply safe_true]. by intros [].
Qed.

(** The lines of the queue that the pass may start *)
Definition lines_of (queue : list (Task * string * string)) : list (Task * string) := map fst (List.filter (fun x => permitted x.1.1) queue).

Lemma pass_safely st queue : dispatch_queue has_pending cfg products phase_tasks authorized tasks st = Ok queue ->
  safely (lines_of queue) (pass st) [] (starts (lines_of queue) []).
Proof.
  intros Hq. unfold dispatch_ready. rewrite Hq. cbn [lift]. change (mbind ?f (Ret ?a)) with (f a). cbv zeta. fold (lines_of queue).
  apply (then_starts _ [] (lines_of queue) _ _ _ (fun _ tr' => lacked tr' = [])).
  { destruct (_ || _); [|apply starts_none]. intros st'. split; [done|]. exists [Ev (TryReclaim st) st']. split; [done|apply sublist_nil_l]. }
  { destruct (_ || _); [|done]. by intros st'. }
  intros st1 tr1 H1 Hl1. apply do_pass_safely; [done|done|]. intros st2. assert (Hl2 : lacked (tr1 ++ [Ev (DrainPendingReviews st1) st2]) = []) by (unfold lacked; by rewrite weighed_snoc).
  apply (then_starts _ [] (lines_of queue) _ _ _ tracks); [apply investigations_safely|by apply investigations_track|].
  intros w tr2 H2 Ht. apply (walk_safely []); [|done]. rewrite omap_app, !app_nil_r in H2. by rewrite H2.
Qed.

(** At the end of a pass as well *)
Lemma pass_tracks st tr w : exec (pass st) tr (Some (Ok w)) -> lacked tr = map id (w_blocked w).
Proof.
  intros Hexec. enough (H : anyhow (pass st) [] (keeps_track (fun w => w))) by exact (proj2 (safe_exec _ _ _ _ _ _ Hexec H (allowed_nil _))).
  unfold dispatch_ready. apply safe_bind, safe_lift. destruct (dispatch_queue _ _ _ _ _ _ _) as [queue|]; [|done]. cbn [then_]. cbv zeta. apply safe_bind.
  apply (safe_mono _ _ _ (fun _ tr' => lacked tr' = [])); [|destruct (_ || _); [by intros st'|done]]. intros [st1|] tr1 Hl1; [|done]. cbn [then_]. apply do_keeps. intros st2.
  assert (Hl2 : lacked (tr1 ++ [Ev (DrainPendingReviews st1) st2]) = []) by (unfold lacked; by rewrite weighed_snoc).
  apply safe_bind. eapply safe_mono; [|by apply investigations_track]. intros [w1|] tr2 Ht; [|done]. by apply walk_tracks.
Qed.

Lemma allowed_sublist queue tr : allowed (guard queue) tr -> omap dispatched tr `sublist_of` queue.
Proof.
  induction 1 as [|tr e Ha IH Hg]; [apply sublist_nil_l|]. rewrite omap_app. cbn. destruct (dispatched e) as [[t mode]|] eqn:Hd; [|by rewrite app_nil_r].
  destruct e as [R c x]. destruct c; try discriminate Hd. injection Hd as <- <-. destruct Hg as (tr0 & st0 & st1 & -> & Hm). destruct (ms_queued _ _ _ _ _ _ _ Hm) as (before & after & -> & Hs).
  apply sublist_app; [done|]. apply sublist_skip, sublist_nil_l.
Qed.

(** C24.  (Safety.)  However a dispatch pass goes, and wherever it stops, it starts lines of its queue only, in their order and each at most once.  A
    task is started directly after its last two checks, and only when it was not reserved for manual work, its phase admits it, its budget is not spent,
    automatic dispatch is on for its product, its route is detached and was chosen by the pool, the harness of the route is not paused; and when, since the last start,
    the runs were read and showed no worker at the task and a free slot of the garden and of the project.  For a route on this machine, moreover, the machine was
    found not full and not under memory pressure since then.  For a local run the memory was looked at again just before its own weight was compared, the weight
    fitted, and the starvation hold let it pass: each task that, by what was read in this pass, fits this host but lacked room has been overtaken fewer than
    [max_bypasses] times ([lacked] is computed from the replies, not from the list that the code keeps).
    An investigation is started only after readings that showed a free slot of the garden and a machine neither full nor under pressure. *)
Theorem dispatch_guarded st tr o (Hexec : exec (pass st) tr o) :
  match dispatch_queue has_pending cfg products phase_tasks authorized tasks st with
  | Err _ => tr = []
  | Ok queue => omap dispatched tr `sublist_of` lines_of queue /\ forall tr1 e tr2, tr = tr1 ++ e :: tr2 -> guard (lines_of queue) tr1 e
  end.
Proof.
  destruct (dispatch_queue _ _ _ _ _ _ _) as [queue|err] eqn:Hq.
  - pose proof (safe_exec _ _ _ _ _ _ Hexec (pass_safely st queue Hq) (allowed_nil _)) as [Hal _]. split; [by apply allowed_sublist|].
    intros tr1 e tr2 ->. by apply (allowed_split _ _ _ tr2).
  - unfold dispatch_ready in Hexec. rewrite Hq in Hexec. by inversion Hexec.
Qed.

(** ** Worker slots *)

Definition launched (e : event_) : option Task :=
  match e with
  | @Ev _ R c x => match c in dcmd R return R -> option Task with Dispatch t _ _ _ _ | Investigate t _ => fun _ => Some t | _ => fun _ => None end x
  end.
Definition read (e : event_) : option (list values) :=
  match e with @Ev _ R c x => match c in dcmd R return R -> option (list values) with ActiveRuns => fun index => Some index | _ => fun _ => None end x end.
(** The active runs while the pass goes on: others finish their worker runs and may begin new ones ([more] collects them: a person can launch a recovery attempt
    meanwhile), a reading shows the runs, and a launch, also a failed one, adds at most one worker run, of its task. *)
Inductive history (index0 : list values) : list event_ -> list values -> list values -> Prop :=
| h_start : history index0 [] index0 []
| h_others tr index more index' begun : history index0 tr index more -> worker_runs_active index' ⊆+ begun ++ worker_runs_active index -> history index0 tr index' (begun ++ more)
| h_read tr index more : history index0 tr index more -> history index0 (tr ++ [Ev ActiveRuns index]) index more
| h_command tr index more e : history index0 tr index more -> read e = None -> launched e = None -> history index0 (tr ++ [e]) index more
| h_launch tr index more e t r index' : history index0 tr index more -> launched e = Some t -> RunRecords.text "task_id" r = id t ->
    worker_runs_active index' ⊆+ r :: worker_runs_active index -> history index0 (tr ++ [e]) index' more.
(** The investigations of a project that were started *)
Definition investigated (p : string) (e : event_) : bool :=
  match e with
  | @Ev _ R c x => match c in dcmd R return R -> bool with
    | Investigate t _ => fun _ => match dget (id t) tasks with Some t => bool_decide (product t = p) | None => false end
    | _ => fun _ => false
    end x
  end.
Definition project_runs (p : string) (index : list values) : Z := count (List.filter (of_project tasks p) (worker_runs_active index)).

Lemma count_submseteq {A} (l1 l2 : list A) : l1 ⊆+ l2 -> count l1 <= count l2.
Proof. intros H%submseteq_length. unfold count. lia. Qed.
Lemma count_filter_submseteq {A} (f : A -> bool) (l1 l2 : list A) : l1 ⊆+ l2 -> count (List.filter f l1) <= count (List.filter f l2).
Proof. unfold count. induction 1 as [|x l1 l2 _ IH|x y l|x l1 l2 _ IH|l1 l2 l3 _ IH1 _ IH2]; cbn; repeat (destruct (f _)); cbn; lia. Qed.
Lemma count_filter_cons {A} (f : A -> bool) x l : count (List.filter f (x :: l)) = (if f x then 1 else 0) + count (List.filter f l).
Proof. unfold count. cbn. destruct (f x); cbn; lia. Qed.
Lemma count_snoc {A} (f : A -> bool) l x : count (List.filter f (l ++ [x])) = count (List.filter f l) + (if f x then 1 else 0).
Proof. unfold count. rewrite List.filter_app, length_app. cbn. destruct (f x); cbn; lia. Qed.
Lemma count_nonneg {A} (l : list A) : 0 <= count l.
Proof. unfold count. lia. Qed.

Lemma read_look e index seen : read e = Some index -> look seen e = seen ++ [index].
Proof. destruct e as [R c x]. destruct c; try done. by intros [= ->]. Qed.
Lemma launched_look e t seen : launched e = Some t -> look seen e = [].
Proof. by destruct e as [R c x]; destruct c. Qed.
Lemma command_look e seen : read e = None -> launched e = None -> look seen e = seen.
Proof. by destruct e as [R c x]; destruct c. Qed.
Lemma launched_investigated e p : launched e = None -> investigated p e = false.
Proof. by destruct e as [R c x]; destruct c. Qed.

Record slots_inv (index0 : list values) (tr : list event_) (index more : list values) : Prop := {
  si_all : count (worker_runs_active index) <= Z.max (max_parallel cfg) (count (worker_runs_active index0)) + count more;
  si_project : forall p, project_runs p index <= Z.max (project_max_parallel cfg p) (project_runs p index0) + count (List.filter (investigated p) tr) + count (List.filter (of_project tasks p) more);
  si_read : forall seen, seen ∈ readings tr -> worker_runs_active index ⊆+ more ++ worker_runs_active seen }.

Lemma launch_allowed queue tr e t : guard queue tr e -> launched e = Some t -> (forall x mode, (x, mode) ∈ queue -> dget (id x) tasks = Some x) ->
  (exists seen, seen ∈ readings tr /\ count (worker_runs_active seen) < max_parallel cfg) /\
  forall p r, RunRecords.text "task_id" r = id t -> of_project tasks p r = true -> investigated p e = true \/ exists seen, seen ∈ readings tr /\ project_runs p seen < project_max_parallel cfg p.
Proof.
  intros Hg Hl Hwf. destruct e as [R c x]. destruct c; try discriminate Hl; injection Hl as ->; unfold guard in Hg.
  - destruct Hg as (tr0 & st0 & st1 & -> & [(b & a & Hq & _) _ _ _ _ _ _ _ _ Hs Hp _ _ _ _]). split; [done|]. intros p run Hrun Hof. right.
    destruct Hp as (seen & Hin & _ & Hlt). exists seen. split; [done|]. unfold of_project in Hof. rewrite Hrun, (Hwf t mode) in Hof by (rewrite Hq; set_solver).
    apply bool_decide_eq_true in Hof as <-. exact Hlt.
  - split; [apply Hg|]. intros p run Hrun Hof. left. unfold of_project in Hof. rewrite Hrun in Hof. exact Hof.
Qed.
Lemma count_app {A} (l1 l2 : list A) : count (l1 ++ l2) = count l1 + count l2.
Proof. unfold count. rewrite length_app. lia. Qed.
Lemma count_filter_app {A} (f : A -> bool) (l1 l2 : list A) : count (List.filter f (l1 ++ l2)) = count (List.filter f l1) + count (List.filter f l2).
Proof. by rewrite List.filter_app, count_app. Qed.
Lemma slots_invariant queue index0 tr index more : (forall t mode, (t, mode) ∈ queue -> dget (id t) tasks = Some t) ->
  history index0 tr index more -> allowed (guard queue) tr -> slots_inv index0 tr index more.
Proof.
  intros Hwf. induction 1 as [|tr index more index' begun _ IH Hs|tr index more _ IH|tr index more e _ IH Hr Hl|tr index more e t r index' _ IH Hl Hid Hs]; intros Ha.
  - split; [unfold count; cbn; lia|intros p; cbn; unfold count; cbn; lia|]. intros seen Hin. by apply elem_of_nil in Hin.
  - destruct (IH Ha) as [H1 H2 H3]. split.
    + apply count_submseteq in Hs. rewrite !count_app in *. lia.
    + intros p. pose proof (count_filter_submseteq (of_project tasks p) _ _ Hs) as Hc. specialize (H2 p). rewrite !count_filter_app in *. unfold project_runs in *. lia.
    + intros seen Hin. etransitivity; [exact Hs|]. rewrite <- app_assoc. by apply submseteq_skips_l, H3.
  - apply allowed_snoc_inv in Ha as [Ha _]. destruct (IH Ha) as [H1 H2 H3]. split; [done| |].
    + intros p. rewrite count_snoc. cbn. specialize (H2 p). lia.
    + intros seen. rewrite readings_snoc. cbn. intros [Hin|Hin%list_elem_of_singleton]%elem_of_app; [by apply H3|subst; by apply submseteq_inserts_l].
  - apply allowed_snoc_inv in Ha as [Ha _]. destruct (IH Ha) as [H1 H2 H3]. split; [done| |].
    + intros p. rewrite count_snoc, launched_investigated by done. specialize (H2 p). lia.
    + intros seen. rewrite readings_snoc, command_look by done. apply H3.
  - apply allowed_snoc_inv in Ha as [Ha Hg]. destruct (IH Ha) as [H1 H2 H3]. destruct (launch_allowed _ _ _ _ Hg Hl Hwf) as [(seen & Hin & Hlt) Hproj]. split.
    + pose proof (count_submseteq _ _ (H3 seen Hin)) as Hc. apply count_submseteq in Hs. rewrite count_app in Hc. unfold count in *. cbn in Hs. lia.
    + intros p. pose proof (count_filter_submseteq (of_project tasks p) _ _ Hs) as Hc. rewrite count_filter_cons in Hc. rewrite count_snoc. specialize (H2 p). unfold project_runs in *.
      destruct (of_project tasks p r) eqn:Hof; [|destruct (investigated p e); lia]. destruct (Hproj p r Hid Hof) as [->|(seen' & Hin' & Hlt')]; [lia|].
      pose proof (count_filter_submseteq (of_project tasks p) _ _ (H3 seen' Hin')) as Hc'. rewrite count_filter_app in Hc'.
      pose proof (count_nonneg (List.filter (investigated p) tr)). destruct (investigated p e); unfold project_runs in *; lia.
    + intros seen'. rewrite readings_snoc, (launched_look _ t) by done. intros H. by apply elem_of_nil in H.
Qed.

Lemma lines_spec st queue : tasks_wf tasks -> dispatch_queue has_pending cfg products phase_tasks authorized tasks st = Ok queue ->
  NoDup (map (fun x => id x.1) (lines_of queue)) /\ forall t mode, (t, mode) ∈ lines_of queue -> dget (id t) tasks = Some t.
Proof.
  intros Hwf Hq. destruct (queue_spec has_pending minutes_since cfg products phase_tasks authorized tasks st queue Hwf Hq) as [Hnd Hin]. unfold lines_of. split.
  - rewrite map_map. eapply submseteq_nodup; [exact Hnd|]. apply fmap_submseteq, sublist_submseteq, filter_sublist.
  - intros t mode Hl. apply list_elem_of_fmap in Hl as ([[t' mode'] w] & [= -> ->] & H). apply (Hin t' mode' w). revert H. apply sublist_subseteq, filter_sublist.
Qed.

(** C25.  (Bounds.)  While a dispatch pass goes on, other runs may finish at any moment, and others may begin worker runs ([more]: a recovery that a person
    launches takes no admission).  At every moment, also of a pass that is cut short, the pass itself has not pushed the garden over its limit: the worker runs are at
    most the limit, or what they were at the start if that was more, and those that others began meanwhile.  The same holds of each project and its own limit, with the
    runs that others began for it, apart from the investigations that the pass started. *)
Theorem worker_slots_respected st tr o index0 index more (Hwf : tasks_wf tasks) (Hexec : exec (pass st) tr o) (Hhist : history index0 tr index more) :
  count (worker_runs_active index) <= Z.max (max_parallel cfg) (count (worker_runs_active index0)) + count more /\
  forall p, project_runs p index <=
    Z.max (project_max_parallel cfg p) (project_runs p index0) + count (List.filter (investigated p) tr) + count (List.filter (of_project tasks p) more).
Proof.
  destruct (dispatch_queue has_pending cfg products phase_tasks authorized tasks st) as [queue|err] eqn:Hq.
  - pose proof (safe_exec _ _ _ _ _ _ Hexec (pass_safely st queue Hq) (allowed_nil _)) as [Hal _].
    destruct (slots_invariant (lines_of queue) index0 tr index more) as [H1 H2 _]; [apply (lines_spec st queue Hwf Hq)|done|done|done].
  - assert (tr = []) as -> by (unfold dispatch_ready in Hexec; rewrite Hq in Hexec; by inversion Hexec).
    destruct (slots_invariant [] index0 [] index more) as [H1 H2 _]; [|done|constructor|done]. intros t mode H. by apply elem_of_nil in H.
Qed.
End safety.

(** ** In the small garden *)

#[local] Abbreviation garden_trace st index := (trace Garden.answers (Garden.pass st) index).

Lemma worker_runs_cons r index : worker_runs_active (r :: index) ⊆+ r :: worker_runs_active index.
Proof.
  unfold worker_runs_active, active_runs. cbn. destruct (negb _); cbn; [destruct (mem _ _); [done|]|]; by apply submseteq_cons.
Qed.
(** Its events are a history of its runs. *)
Lemma garden_history {A} (p : dprog A) index0 index tr : history index0 tr index [] -> history index0 (tr ++ trace Garden.answers p index) (run Garden.answers p index).2 [].
Proof.
  revert index tr. induction p as [a|e|R c k IH]; intros index tr H; cbn [trace run]; [by rewrite app_nil_r..|].
  change (Ev c ?x :: ?l) with ([Ev c x] ++ l). rewrite app_assoc. apply IH.
  destruct c as [| | | | | | |t mode r m st|t st|]; try (by apply h_command); [by apply h_read| |].
  - eapply (h_launch _ _ index _ _ t (Garden.run_of t mode)); [exact H|reflexivity|reflexivity|apply worker_runs_cons].
  - eapply (h_launch _ _ index _ _ t (Garden.run_of t "investigation")); [exact H|reflexivity|reflexivity|apply worker_runs_cons].
Qed.

Lemma dispatch_guarded_witness : exists queue,
  dispatch_queue (fun _ => false) Garden.cfg Garden.products (fun _ => []) (fun _ => true) Garden.tasks [] = Ok queue /\
  omap dispatched (garden_trace [] Garden.busy) = [(Garden.task "light" "B-1", "work"%string)] /\
  forall tr1 e tr2, garden_trace [] Garden.busy = tr1 ++ e :: tr2 ->
    guard (fun _ => Ok 0%Q) (fun _ => 0%Q) Garden.cfg Garden.products (fun _ => []) (fun _ _ _ => Garden.local) [] "now" Garden.tasks (lines_of (fun _ => true) queue) tr1 e.
Proof.
  pose proof (dispatch_guarded (fun _ => false) (fun _ => Ok 0%Q) (fun _ => 0%Q) Garden.cfg Garden.products (fun _ => []) (fun _ => true) (fun _ => true) (fun _ _ _ => Garden.local) [] "now"
    Garden.tasks [] _ _ (run_exec Garden.answers (Garden.pass []) Garden.busy)) as H.
  destruct (dispatch_queue _ _ _ _ _ _ _) as [queue|err] eqn:Hq; [|vm_compute in Hq; discriminate Hq].
  exists queue. split; [reflexivity|]. split; [vm_compute; reflexivity|]. exact (proj2 H).
Defined.

(** Two of the garden's three slots are taken, by both runs that the project may have: an investigation is started all the same. *)
Definition garden_full : list values := [Garden.run_of (Garden.task "light" "B-1") "work"; Garden.run_of (Garden.task "light" "B-2") "work"].
Lemma investigation_exceeds_project_limit :
  project_max_parallel Garden.cfg "light" = 2 /\ project_runs Garden.tasks "light" garden_full = 2 /\
  project_runs Garden.tasks "light" (run Garden.answers (Garden.pass Garden.wanted) garden_full).2 = 3.
Proof. split; [|split]; vm_compute; reflexivity. Qed.

(** There the garden's limit holds, and the project's is exceeded by the investigation only. *)
Lemma worker_slots_respected_witness :
  let index := (run Garden.answers (Garden.pass Garden.wanted) garden_full).2 in
  count (worker_runs_active index) <= 3 /\ project_runs Garden.tasks "light" index <= 2 + count (List.filter (investigated Garden.tasks "light") (garden_trace Garden.wanted garden_full)).
Proof.
  intros index.
  pose proof (worker_slots_respected (fun _ => false) (fun _ => Ok 0%Q) (fun _ => 0%Q) Garden.cfg Garden.products (fun _ => []) (fun _ => true) (fun _ => true) (fun _ _ _ => Garden.local) [] "now"
    Garden.tasks Garden.wanted (garden_trace Garden.wanted garden_full) (Some (run Garden.answers (Garden.pass Garden.wanted) garden_full).1) garden_full index []) as H.
  destruct H as [H1 H2]; [by apply filed_wf| | |].
  - apply run_exec.
  - exact (garden_history (Garden.pass Garden.wanted) garden_full garden_full [] (h_start garden_full)).
  - split; [exact H1|]. specialize (H2 "light"%string). exact H2.
Defined.
