(* ===== verification/DispatchFairness.v ===== *)
(** * Heavy tasks are not starved ([scheduler/dispatch.py], [resource_bypasses])

    A local task whose weight does not fit in what is left of the host is passed over, and lighter tasks behind it may start.  Each such start is counted
    in the side-store, across passes, and the count holds further local starts back.  [overtaking_bounded]: between two of its own starts, a task that was found to lack
    room is overtaken at most [max_bypasses] times; while the host is full or under pressure nothing is compared, and nothing counted ([full_host_not_counted]). *)

From Stdlib Require Import QArith.
From S2P Require Import Prelude PyValue Requirements Effects StateStore RunRecords RunIndex WorkerLease TaskModel Graph DispatchQueue Dispatch DispatchSafety.

#[local] Open Scope list_scope.
#[local] Open Scope Z_scope.

(** How often a task has been overtaken *)
Definition bypassed (st : entries) (h : string) : result exn Z := count_of st h "resource_bypasses".
Definition same_counters (st st' : entries) : Prop := forall h, bypassed st' h = bypassed st h.

#[local] Abbreviation event_ := (event dcmd).
(** The tasks that were started on this host *)
Definition local_start (e : event_) : option Task :=
  match e with
  | @Ev _ R c x => match c in dcmd R return R -> option Task with
    | Dispatch t _ r _ _ => fun x => match x.1 with Started => if bool_decide (rn_name r = "local") then Some t else None | _ => None end
    | _ => fun _ => None
    end x
  end.
Definition local_starts (tr : list event_) : list Task := omap local_start tr.
(** The tasks behind [h] in the queue, and those of them that were started *)
Fixpoint behind (h : string) (lines : list (Task * string)) : list string :=
  match lines with [] => [] | x :: l => if bool_decide (id x.1 = h) then map (fun x => id x.1) l else behind h l end.
Definition overtakers (h : string) (lines : list (Task * string)) (tr : list event_) : list Task := List.filter (fun t => mem (id t) (behind h lines)) (local_starts tr).

(** ** Counters *)

Lemma entry_put st k f v h : entry (put st k f v) h = if bool_decide (h = k) then dset f v (entry st k) else entry st h.
Proof. unfold entry at 1, put. case_bool_decide as E; [subst; by rewrite dget_dset_eq|by rewrite dget_dset_ne]. Qed.
Lemma entry_drop st k f h : entry (drop st k f) h = if bool_decide (h = k) then without f (entry st k) else entry st h.
Proof. unfold entry at 1, drop. case_bool_decide as E; [subst; by rewrite dget_dset_eq|by rewrite dget_dset_ne]. Qed.
Lemma dget_without f g r : dget g (without f r) = if bool_decide (g = f) then None else dget g r.
Proof.
  unfold without. induction r as [|[k v] r IH]; cbn; [by case_bool_decide|]. destruct (decide (k = f)) as [->|Hk].
  - rewrite (bool_decide_eq_true_2 (f = f)) by done. cbn. rewrite IH. destruct (decide (g = f)) as [->|Hg]; [by rewrite !bool_decide_eq_true_2|].
    rewrite !bool_decide_eq_false_2 by done. by destruct (decide (g = f)).
  - rewrite (bool_decide_eq_false_2 (k = f)) by done. cbn. rewrite IH. destruct (decide (g = k)) as [->|Hg]; [|done]. by rewrite bool_decide_eq_false_2.
Qed.
Lemma count_put st k f v h g : count_of (put st k f v) h g = if bool_decide (h = k /\ g = f) then py_int v else count_of st h g.
Proof.
  unfold count_of, pget_or. rewrite entry_put. destruct (decide (h = k)) as [->|Hne].
  - rewrite (bool_decide_eq_true_2 (k = k)) by done. destruct (decide (g = f)) as [->|Hg].
    + by rewrite dget_dset_eq, bool_decide_eq_true_2.
    + rewrite dget_dset_ne, (bool_decide_eq_false_2 (_ /\ _)) by naive_solver. done.
  - rewrite (bool_decide_eq_false_2 (h = k)), (bool_decide_eq_false_2 (_ /\ _)) by naive_solver. done.
Qed.
Lemma count_drop st k f h g : count_of (drop st k f) h g = if bool_decide (h = k /\ g = f) then Ok 0 else count_of st h g.
Proof.
  unfold count_of, pget_or. rewrite entry_drop. destruct (decide (h = k)) as [->|Hne].
  - rewrite (bool_decide_eq_true_2 (k = k)), dget_without by done. destruct (decide (g = f)) as [->|Hg].
    + by rewrite !bool_decide_eq_true_2.
    + rewrite (bool_decide_eq_false_2 (g = f)), (bool_decide_eq_false_2 (_ /\ _)) by naive_solver. done.
  - rewrite (bool_decide_eq_false_2 (h = k)), (bool_decide_eq_false_2 (_ /\ _)) by naive_solver. done.
Qed.
Lemma put_counters st k f v : f <> "resource_bypasses"%string -> same_counters st (put st k f v).
Proof. intros H h. unfold bypassed. rewrite count_put, bool_decide_eq_false_2; naive_solver. Qed.
Lemma same_trans st1 st2 st3 : same_counters st1 st2 -> same_counters st2 st3 -> same_counters st1 st3.
Proof. intros H1 H2 h. by rewrite H2, H1. Qed.
Lemma same_refl st : same_counters st st.
Proof. done. Qed.
#[local] Hint Resolve same_refl : core.

(** A local start counts: the started task from nothing again, those it overtook one more. *)
Lemma count_bypasses_spec st t l :
  NoDup (map id l) -> id t ∉ map id l -> (forall x, x ∈ l -> exists n, bypassed st (id x) = Ok n) ->
  exists st', count_bypasses st t l = Ok st' /\ bypassed st' (id t) = Ok 0 /\ (forall x n, x ∈ l -> bypassed st (id x) = Ok n -> bypassed st' (id x) = Ok (n + 1)) /\
    (forall h, h <> id t -> h ∉ map id l -> bypassed st' h = bypassed st h).
Proof.
  intros Hnd Ht Hok. unfold count_bypasses. set (st0 := drop st (id t) "resource_bypasses").
  assert (H0 : forall h, bypassed st0 h = if bool_decide (h = id t) then Ok 0 else bypassed st h).
  { intros h. unfold bypassed, st0. rewrite count_drop. case_bool_decide as E1; case_bool_decide as E2; naive_solver. }
  enough (H : exists st', foldR (fun st old => n ← bypasses st old; Ok (put st (id old) "resource_bypasses" (PInt (n + 1)))) l st0 = Ok st' /\
    (forall x n, x ∈ l -> bypassed st0 (id x) = Ok n -> bypassed st' (id x) = Ok (n + 1)) /\ (forall h, h ∉ map id l -> bypassed st' h = bypassed st0 h)).
  { destruct H as (st' & Hst & Hin & Hout). exists st'. split; [done|]. split; [rewrite Hout, H0 by done; by rewrite bool_decide_eq_true_2|]. split.
    - intros x n Hx Hn. apply Hin; [done|]. rewrite H0, bool_decide_eq_false_2; [done|]. intros E. destruct Ht. rewrite <- E. by apply list_elem_of_fmap_2.
    - intros h Hne Hh. rewrite Hout, H0 by done. by rewrite bool_decide_eq_false_2. }
  assert (Hok0 : forall x, x ∈ l -> exists n, bypassed st0 (id x) = Ok n) by (intros x Hx; rewrite H0; case_bool_decide; [by exists 0|by apply Hok]).
  clear H0 Hok Ht. generalize dependent st0. induction l as [|y l IH]; intros st0 Hok; cbn [foldR].
  { exists st0. split; [done|]. split; [|done]. intros x n Hx. by apply elem_of_nil in Hx. }
  apply NoDup_cons in Hnd as [Hy Hnd]. destruct (Hok y) as [n Hn]; [by left|]. unfold bypasses. unfold bypassed in Hn at 1. rewrite Hn. cbn [mbind result_bind].
  set (st1 := put st0 (id y) "resource_bypasses" (PInt (n + 1))).
  assert (H1 : forall h, bypassed st1 h = if bool_decide (h = id y) then Ok (n + 1) else bypassed st0 h).
  { intros h. unfold bypassed, st1. rewrite count_put. case_bool_decide as E1; case_bool_decide as E2; naive_solver. }
  assert (Hneq : forall x, x ∈ l -> id x <> id y) by (intros x Hx E; destruct Hy; rewrite <- E; by apply list_elem_of_fmap_2).
  destruct (IH Hnd st1) as (st' & Hst & Hin & Hout).
  { intros x Hx. rewrite H1, bool_decide_eq_false_2 by auto. apply Hok. by right. }
  exists st'. split; [exact Hst|]. split.
  - intros x m [->|Hx]%elem_of_cons Hm; [rewrite Hout, H1, bool_decide_eq_true_2 by done; unfold bypassed in Hm; congruence|].
    apply Hin; [done|]. by rewrite H1, bool_decide_eq_false_2 by auto.
  - intros h Hh. apply not_elem_of_cons in Hh as [Hne Hh]. rewrite Hout, H1 by done. by rewrite bool_decide_eq_false_2.
Qed.

(** ** One pass *)

Section fairness.
Context (has_pending : string -> bool) (float : pyval -> result exn Q) (minutes_since : string -> Q).
Context (cfg : Config) (products : list (string * list Phase)) (phase_tasks : Phase -> list Task).
Context (authorized : Task -> bool) (permitted : Task -> bool) (runner_for : Task -> string -> string -> Runner).
Context (costs : list (string * Q)) (now : string) (tasks : tasks_t).

#[local] Abbreviation pass := (dispatch_ready has_pending float minutes_since cfg products phase_tasks authorized permitted runner_for costs now tasks).
#[local] Abbreviation visit_ := (visit float minutes_since cfg products phase_tasks runner_for costs now tasks).
#[local] Abbreviation walk_ := (walk float minutes_since cfg products phase_tasks runner_for costs now tasks).
#[local] Abbreviation investigate_ := (investigate cfg products phase_tasks now tasks).
#[local] Abbreviation lines := (lines_of permitted).

(** The calls of the pass leave the counters to it, and the pool can be rotated after a start. *)
Definition calm (e : event_) : Prop :=
  match e with
  | @Ev _ R c x => match c in dcmd R return R -> Prop with
    | TryReclaim st | DrainPendingReviews st | FailTask _ _ st => fun st' => same_counters st st'
    | CaptureHeld _ st | ScopeReady _ st => fun x => same_counters st x.2
    | Investigate _ st => fun x => same_counters st x.2
    | Dispatch t _ _ m st => fun x => same_counters st x.2 /\ (x.1 = Started -> is_Ok (rotate minutes_since cfg t m x.2) = true)
    | _ => fun _ => True
    end x
  end.

Lemma rotate_counters t m st st' : rotate minutes_since cfg t m st = Ok st' -> same_counters st st'.
Proof.
  unfold rotate. destruct m as [m|]; [|by intros [= <-]]. intros ([m' st1] & Hs & [= <-])%bind_Ok. cbn [snd]. unfold select_pool_member in Hs.
  apply bind_Ok in Hs as (members & _ & Hs). destruct (negb _); [by simplify_eq|]. cbv zeta in Hs. destruct (negb _) in Hs; [destruct (_ && _) in Hs; by simplify_eq|].
  destruct (negb _) in Hs; [by simplify_eq|]. apply bind_Ok in Hs as (n & _ & [= _ <-]). by apply put_counters.
Qed.
Lemma budget_counters st t b st' : budget_exceeded float cfg tasks costs now st t = Ok (b, st') -> same_counters st st'.
Proof.
  unfold budget_exceeded. intros (q & _ & H)%bind_Ok. destruct (Qeq_bool q 0); [by simplify_eq|]. destruct (negb _); [by simplify_eq|]. cbv zeta in H.
  destruct (flag_set _ _ _); simplify_eq; [done|]. by apply put_counters.
Qed.
(** What one line does to the counters *)
Inductive effect (t : Task) (w w' : Walk) (evs : list event_) : Prop :=
| nothing_local : local_starts evs = [] -> same_counters (w_st w) (w_st w') -> w_blocked w' = w_blocked w \/ w_blocked w' = w_blocked w ++ [t] -> effect t w w' evs
| started_local : local_starts evs = [t] -> w_blocked w' = w_blocked w -> bypassed (w_st w') (id t) = Ok 0 ->
    (forall x, x ∈ w_blocked w -> exists n, bypassed (w_st w) (id x) = Ok n /\ n < max_bypasses cfg /\ bypassed (w_st w') (id x) = Ok (n + 1)) ->
    (forall h, h <> id t -> h ∉ map id (w_blocked w) -> bypassed (w_st w') h = bypassed (w_st w) h) -> effect t w w' evs.
Definition effect_of (t : Task) (w : Walk) (x : result exn Walk) (evs : list event_) : Prop := match x with Ok w' => effect t w w' evs | Err _ => True end.

Lemma effect_same t w w1 w' evs evs' : same_counters (w_st w) (w_st w1) -> w_blocked w1 = w_blocked w -> local_starts evs' = local_starts evs -> effect t w1 w' evs -> effect t w w' evs'.
Proof.
  intros Hs Hb Hl [H1 H2 H3|H1 H2 H3 H4 H5].
  - left; [congruence|by eapply same_trans|by rewrite <- Hb].
  - right; [congruence|congruence|done| |].
    + intros x. rewrite <- Hb. intros Hx. destruct (H4 x Hx) as (n & Hn & Hrest). exists n. by rewrite <- Hs.
    + intros h Hne. rewrite <- Hb. intros Hh. by rewrite <- Hs, H5.
Qed.
Lemma effect_none t w w' : same_counters (w_st w) (w_st w') -> w_blocked w' = w_blocked w -> effect t w w' [].
Proof. intros Hs Hb. left; auto. Qed.

Lemma fail_given t msg w (Q : result exn Walk -> list event_ -> Prop) :
  (forall w' evs, local_starts evs = [] -> same_counters (w_st w) (w_st w') -> w_blocked w' = w_blocked w -> Q (Ok w') evs) -> given calm (fail t msg w) Q.
Proof.
  intros H. unfold fail. cbv zeta. destruct (flag_set _ _ _); [by apply H|]. apply given_do. intros st Hst. by apply H.
Qed.
Lemma start_given t mode r m w :
  NoDup (map id (w_blocked w)) -> id t ∉ map id (w_blocked w) -> (rn_name r = "local"%string -> starving cfg (w_st w) (w_blocked w) = Ok false) ->
  given calm (start minutes_since cfg t mode r m w) (effect_of t w).
Proof.
  intros Hnd Ht Hstarve. unfold start. apply given_do. intros [x st] [Hsame Hrot]. cbn [snd] in *. cbv zeta.
  set (ev := Ev (Dispatch t mode r m (w_st w)) (x, st)).
  assert (Hquiet : local_start ev = None -> forall w' evs, local_starts evs = [] -> same_counters st (w_st w') -> w_blocked w' = w_blocked w -> effect t w w' (ev :: evs)).
  { intros Hev w' evs He Hs Hb. left; [|by eapply same_trans|by left]. unfold local_starts. cbn [omap list_omap]. by rewrite Hev. }
  destruct x as [|msg|msg]; [|by apply Hquiet|apply fail_given; by apply Hquiet].
  specialize (Hrot eq_refl). destruct (rotate minutes_since cfg t m (w_st (with_st st w))) as [st1|] eqn:Hr; cbn [w_st with_st fst] in Hr; rewrite Hr in *; [|done].
  pose proof (same_trans _ _ _ Hsame (rotate_counters _ _ _ _ Hr)) as Hs1.
  destruct (bool_decide (rn_name r = "local")) eqn:Hl; [|apply Hquiet; [cbn; by rewrite Hl|done|by eapply rotate_counters|done]].
  cbn [w_st w_blocked with_st report]. apply bool_decide_eq_true in Hl. specialize (Hstarve Hl). pose proof (starving_spec cfg _ _ Hstarve : forall x, x ∈ w_blocked w -> exists n, bypassed (w_st w) (id x) = Ok n /\ n < max_bypasses cfg) as Hlow.
  destruct (count_bypasses_spec st1 t (w_blocked w) Hnd Ht) as (st2 & Hc & H0 & Hin & Hout).
  { intros y Hy. destruct (Hlow y Hy) as (n & Hn & _). exists n. by rewrite Hs1. }
  rewrite Hc. right; cbn [w_st with_st w_blocked]; [cbn; by rewrite bool_decide_eq_true_2|done|done| |].
  - intros y Hy. destruct (Hlow y Hy) as (n & Hn & Hlt). exists n. split; [done|]. split; [done|]. apply Hin; [done|]. by rewrite Hs1.
  - intros h Hne Hh. by rewrite Hout, Hs1.
Qed.

(** [starving] looks at the counters only. *)
Lemma starving_same st st' l : same_counters st st' -> starving cfg st' l = starving cfg st l.
Proof. intros H. induction l as [|x l IH]; [done|]. cbn. unfold bypasses. specialize (H (id x)). unfold bypassed in H. by rewrite H, IH. Qed.

Lemma last_checks_given t mode r m w :
  NoDup (map id (w_blocked w)) -> id t ∉ map id (w_blocked w) -> (rn_name r = "local"%string -> starving cfg (w_st w) (w_blocked w) = Ok false) ->
  given calm (last_checks minutes_since cfg t mode r m w) (effect_of t w).
Proof.
  intros Hnd Ht Hs. unfold last_checks. apply given_bind, given_lift. destruct (pool_members _ _ _ _) as [pool|]; [|done].
  destruct (negb _ && _); [by apply effect_none|]. destruct (match rn_harness r with Some h => _ | None => _ end); [by apply effect_none|].
  apply given_do. intros [held st1] H1. cbv zeta. cbn [snd] in H1. destruct held; [by left; auto|].
  apply given_do. intros [ready st2] H2. cbv zeta. assert (H12 : same_counters (w_st w) st2) by exact (same_trans _ _ _ H1 H2). destruct ready; cbn [negb]; [|left; [done|exact H12|by left]].
  eapply given_mono; [|apply start_given; [done|done|]].
  - intros [w'|] evs; [|done]. cbn [effect_of]. by apply effect_same.
  - intros Hl. cbn [w_blocked w_st with_st]. rewrite (starving_same (w_st w)) by done. by apply Hs.
Qed.

Lemma status_given weighed_ (Q : result exn ResourceStatus -> list event_ -> Prop) : (forall s evs, local_starts evs = [] -> Q (Ok s) evs) -> given calm (resource_status cfg weighed_) Q.
Proof. intros H. unfold resource_status. apply given_do. intros index _. apply given_do. intros p _. by apply H. Qed.
Lemma room_given t r w (Q : result exn (bool * Walk) -> list event_ -> Prop) :
  (forall e evs, Q (Err e) evs) ->
  (forall b w' evs, local_starts evs = [] -> w_st w' = w_st w -> (b = false /\ (w_blocked w' = w_blocked w \/ w_blocked w' = w_blocked w ++ [t])) \/
    (b = true /\ w' = w /\ (rn_name r = "local"%string -> starving cfg (w_st w) (w_blocked w) = Ok false)) -> Q (Ok (b, w')) evs) ->
  given calm (local_room cfg tasks t r w) Q.
Proof.
  intros He H. unfold local_room. apply given_bind.
  assert (Hrest : forall free evs, local_starts evs = [] -> given calm (if free <=? 0 then Ret (false, w) else if negb (bool_decide (rn_name r = "local"%string)) then Ret (true, w)
      else s ← resource_status cfg (Some (id t)); let weight := resource_weight cfg tasks (id t) in if rs_pressured s then Ret (false, w)
        else if rs_limit s <? rs_active s + weight then Ret (false, if weight <=? rs_limit s then blocked t w else w)
        else starved ← lift (starving cfg (w_st w) (w_blocked w)); Ret (negb starved, w)) (fun y tr' => Q y (evs ++ tr'))).
  { intros free evs Hev. assert (Hstep : forall b w' evs', local_starts evs' = [] -> w_st w' = w_st w -> (b = false /\ (w_blocked w' = w_blocked w \/ w_blocked w' = w_blocked w ++ [t])) \/
      (b = true /\ w' = w /\ (rn_name r = "local"%string -> starving cfg (w_st w) (w_blocked w) = Ok false)) -> Q (Ok (b, w')) (evs ++ evs')).
    { intros b w' evs' Hev'. apply H. unfold local_starts in *. by rewrite omap_app, Hev, Hev'. }
    destruct (free <=? 0); [apply Hstep; auto|]. destruct (bool_decide_reflect (rn_name r = "local"%string)) as [Hl|Hl]; cbn [negb]; [|apply Hstep; naive_solver].
    apply given_bind, status_given. intros s evs' Hev'. cbv zeta. destruct (rs_pressured s); [cbn [given]; rewrite app_nil_r; apply Hstep; auto|].
    destruct (_ <? _); [cbn [given]; rewrite app_nil_r; apply Hstep; [done|by destruct (_ <=? _)|left; split; [done|destruct (_ <=? _); auto]]|].
    apply given_bind, given_lift. destruct (starving _ _ _) as [starved|] eqn:Hst; [|apply He]. cbn [given]. rewrite !app_nil_r. apply Hstep; [done|done|]. destruct starved; cbn; auto. }
  destruct (rn_remote r); [by apply (Hrest 1 [])|]. apply given_bind, status_given. intros s evs Hev. cbn [given]. rewrite app_nil_r. by apply Hrest.
Qed.

Lemma visit_given t mode w :
  NoDup (map id (w_blocked w)) -> id t ∉ map id (w_blocked w) ->
  given calm (visit_ t mode w) (fun x evs => match x with Ok (_, w') => effect t w w' evs | Err _ => True end).
Proof.
  intros Hnd Ht. unfold visit. destruct (manual_reserved _ _); [by apply effect_none|]. apply given_do. intros i1 _.
  destruct (worker_run_in_flight _ _); [by left; auto|]. destruct (nonempty _); [by left; auto|].
  apply given_bind, given_lift. destruct (budget_exceeded _ _ _ _ _ _ _) as [[exceeded st1]|] eqn:Hb; [|done]. apply budget_counters in Hb. cbv zeta.
  destruct exceeded; [by left; auto|]. destruct (negb (auto_dispatch _ _)); [by left; auto|].
  apply given_bind, given_lift. destruct (select_pool_member _ _ _ _ _ _ _) as [[member st2]|]; [|done]. cbv zeta. set (r := runner_for _ _ _).
  destruct (negb (rn_detached r)); [by left; auto|]. apply given_do. intros i2 _. destruct (slots_free _ _ <=? 0); [by left; auto|].
  apply given_do. intros i3 _. destruct (slots_free_for _ _ _ _ <=? 0); [by left; auto|].
  apply given_bind, room_given; [done|]. intros b w' evs Hev Hst [(-> & Hbl)|(-> & -> & Hs)]; cbn [negb].
  - cbn [given]; rewrite app_nil_r. left; [done|by rewrite Hst|done].
  - apply given_bind. eapply given_mono; [|by apply last_checks_given].
    intros [w2|] evs2; [|done]. cbn [effect_of given]. rewrite app_nil_r. apply effect_same; [done|done|]. unfold local_starts in *. cbn. by rewrite omap_app, Hev.
Qed.

(** *** The whole walk *)

#[local] Abbreviation ids := (map id).
Definition line_ids (lines : list (Task * string)) : list string := map (fun x => id x.1) lines.

Lemma local_starts_app evs evs' : local_starts (evs ++ evs') = local_starts evs ++ local_starts evs'.
Proof. apply omap_app. Qed.
Lemma behind_app h before after : h ∈ line_ids before -> behind h (before ++ after) = behind h before ++ line_ids after.
Proof.
  induction before as [|x before IH]; [intros H; by apply elem_of_nil in H|]. cbn. intros H. case_bool_decide as E; [by rewrite map_app|].
  apply IH. apply elem_of_cons in H as [H|H]; [by destruct E|done].
Qed.
Lemma behind_new h before t mode : h ∉ line_ids before -> behind h (before ++ [(t, mode)]) = [].
Proof.
  induction before as [|x before IH]; cbn; [by case_bool_decide|]. intros [Hx Hb]%not_elem_of_cons. rewrite bool_decide_eq_false_2 by congruence. by apply IH.
Qed.
Lemma filter_ext {A} (f g : A -> bool) l : (forall x, x ∈ l -> f x = g x) -> List.filter f l = List.filter g l.
Proof. induction l as [|x l IH]; intros H; [done|]. cbn. rewrite (H x) by (by left). rewrite IH; [done|]. intros y Hy. apply H. by right. Qed.
(** Lines that nothing was started from do not matter. *)
Lemma overtakers_app h before after evs : h ∈ line_ids before -> (forall x, x ∈ local_starts evs -> id x ∉ line_ids after) -> overtakers h (before ++ after) evs = overtakers h before evs.
Proof.
  intros Hh Hx. unfold overtakers. rewrite behind_app by done. apply filter_ext. intros x Hin. specialize (Hx x Hin). unfold mem. apply bool_decide_ext. rewrite elem_of_app. tauto.
Qed.
Lemma overtakers_started h before t mode evs evs' : h ∈ line_ids before -> (forall x, x ∈ local_starts evs -> id x <> id t) -> local_starts evs' = [t] ->
  overtakers h (before ++ [(t, mode)]) (evs ++ evs') = overtakers h before evs ++ [t].
Proof.
  intros Hh Hx Ht. unfold overtakers. rewrite local_starts_app, Ht, List.filter_app, behind_app by done. f_equal.
  - apply filter_ext. intros x Hin. specialize (Hx x Hin). unfold mem. apply bool_decide_ext. cbn. rewrite elem_of_app, list_elem_of_singleton. tauto.
  - cbn. unfold mem. by rewrite bool_decide_eq_true_2 by set_solver.
Qed.

(** The counters after some lines, against those at the start *)
Record fair (st0 : entries) (before : list (Task * string)) (evs : list event_) (w : Walk) : Prop := {
  fa_nodup : NoDup (ids (w_blocked w ++ local_starts evs));
  fa_seen : ids (w_blocked w ++ local_starts evs) ⊆ line_ids before;
  fa_started : forall t, t ∈ local_starts evs -> bypassed (w_st w) (id t) = Ok 0;
  fa_blocked : forall t n, t ∈ w_blocked w -> bypassed st0 (id t) = Ok n -> bypassed (w_st w) (id t) = Ok (n + count (overtakers (id t) before evs)) /\
    (overtakers (id t) before evs = [] \/ n + count (overtakers (id t) before evs) <= max_bypasses cfg);
  fa_other : forall h, h ∉ ids (w_blocked w ++ local_starts evs) -> bypassed (w_st w) h = bypassed st0 h }.

Lemma in_ids t l : t ∈ l -> id t ∈ ids l.
Proof. intros H. by apply list_elem_of_fmap_2. Qed.

Lemma fair_more st0 before after evs w : fair st0 before evs w -> NoDup (line_ids (before ++ after)) -> fair st0 (before ++ after) evs w.
Proof.
  intros [H1 H2 H3 H4 H5] Hnd. unfold line_ids in Hnd. rewrite map_app in Hnd. apply NoDup_app in Hnd as (_ & Hdis & _). split; [done| |done| |done].
  - unfold line_ids. rewrite map_app. set_solver.
  - intros t n Ht. rewrite overtakers_app; [by apply H4| |].
    + apply H2. rewrite map_app. apply elem_of_app. left. by apply in_ids.
    + intros x Hx. apply Hdis, H2. rewrite map_app. apply elem_of_app. right. by apply in_ids.
Qed.
Lemma fair_step st0 before evs w t mode w' evs' : id t ∉ line_ids before -> fair st0 before evs w -> effect t w w' evs' -> fair st0 (before ++ [(t, mode)]) (evs ++ evs') w'.
Proof.
  intros Ht [H1 H2 H3 H4 H5] He. rewrite map_app in *.
  assert (Hnew : id t ∉ ids (w_blocked w) ++ ids (local_starts evs)) by (intros H; by apply Ht, H2).
  assert (Hseen : line_ids before ⊆ line_ids (before ++ [(t, mode)])) by (unfold line_ids; rewrite map_app; set_solver).
  assert (Hthere : id t ∈ line_ids (before ++ [(t, mode)])) by (unfold line_ids; rewrite map_app; set_solver).
  assert (Hold : forall x, x ∈ w_blocked w -> id x ∈ line_ids before) by (intros x Hx; apply H2, elem_of_app; left; by apply in_ids).
  assert (Hne : forall x, x ∈ local_starts evs -> id x <> id t) by (intros x Hx E; apply Hnew, elem_of_app; right; rewrite <- E; by apply in_ids).
  destruct He as [Hl Hs Hb|Hl Hb H0 Hin Hout].
  - assert (Hevs : local_starts (evs ++ evs') = local_starts evs) by (by rewrite local_starts_app, Hl, app_nil_r).
    assert (Hkeep : forall x, x ∈ w_blocked w -> overtakers (id x) (before ++ [(t, mode)]) (evs ++ evs') = overtakers (id x) before evs).
    { intros x Hx. transitivity (overtakers (id x) (before ++ [(t, mode)]) evs); [unfold overtakers; by rewrite Hevs|]. apply overtakers_app; [by apply Hold|].
      intros y Hy. cbn. rewrite list_elem_of_singleton. by apply Hne. }
    destruct Hb as [Hb|Hb]; split; rewrite ?Hevs, ?Hb, ?map_app; cbn [map].
    + done.
    + set_solver.
    + intros x Hx. rewrite Hs. by apply H3.
    + intros x n Hx Hn. rewrite Hs, Hkeep by done. by apply H4.
    + intros h Hh. rewrite Hs. by apply H5.
    + rewrite (Permutation_app_comm _ [id t]). cbn. by apply NoDup_cons.
    + set_solver.
    + intros x Hx. rewrite Hs. by apply H3.
    + intros x n [Hx| ->%list_elem_of_singleton]%elem_of_app Hn; [rewrite Hs, Hkeep by done; by apply H4|].
      unfold overtakers. rewrite behind_new by done. rewrite (filter_ext _ (fun _ => false)) by done.
      replace (List.filter _ _) with (@nil Task) by (generalize (local_starts (evs ++ evs')); intros l; induction l; done).
      cbn. rewrite Z.add_0_r, Hs, H5 by done. auto.
    + intros h Hh. rewrite Hs. apply H5. set_solver.
  - assert (Hevs : local_starts (evs ++ evs') = local_starts evs ++ [t]) by (by rewrite local_starts_app, Hl).
    split; rewrite ?Hevs, ?Hb, ?map_app; cbn [map].
    + rewrite app_assoc, (Permutation_app_comm _ [id t]). cbn. by apply NoDup_cons.
    + set_solver.
    + intros x [Hx| ->%list_elem_of_singleton]%elem_of_app; [|done]. rewrite Hout; [by apply H3|by apply Hne|].
      apply NoDup_app in H1 as (_ & Hdis & _). intros Hx'. apply (Hdis (id x) Hx'). by apply in_ids.
    + intros x n Hx Hn. rewrite overtakers_started by auto. destruct (H4 x n Hx Hn) as [Hc _]. destruct (Hin x Hx) as (m & Hm & Hlt & Hm').
      assert (m = n + count (overtakers (id x) before evs)) as -> by congruence. unfold count in *. rewrite length_app. cbn. split; [rewrite Hm'; f_equal; lia|right; lia].
    + intros h Hh. rewrite Hout; [apply H5; set_solver|set_solver|set_solver].
Qed.

Lemma walk_given st0 lines' before evs0 w : NoDup (line_ids (before ++ lines')) -> fair st0 before evs0 w ->
  given calm (walk_ lines' w) (fun x evs => match x with Ok w' => fair st0 (before ++ lines') (evs0 ++ evs) w' | Err _ => True end).
Proof.
  revert before evs0 w. induction lines' as [|[t mode] lines' IH]; intros before evs0 w Hnd Hf; cbn [walk given]; [by rewrite !app_nil_r|].
  assert (Ht : id t ∉ line_ids before).
  { unfold line_ids in Hnd. rewrite map_app in Hnd. apply NoDup_app in Hnd as (_ & Hdis & _). intros H. apply (Hdis _ H). by left. }
  replace (before ++ (t, mode) :: lines') with ((before ++ [(t, mode)]) ++ lines') in * by by rewrite <- app_assoc.
  apply given_bind. eapply given_mono; [|apply visit_given].
  - intros [[stop w']|] evs; [|done]. intros He. pose proof (fair_step _ _ _ _ _ mode _ _ Ht Hf He) as Hf'. destruct stop; cbn [given].
    + rewrite app_nil_r. by apply fair_more.
    + eapply given_mono; [|by apply (IH (before ++ [(t, mode)]) (evs0 ++ evs))]. intros [w2|] evs2; [|done]. by rewrite <- !app_assoc.
  - destruct Hf as [H1 _ _ _ _]. rewrite map_app in H1. by apply NoDup_app in H1 as [? _].
  - destruct Hf as [_ H2 _ _ _]. intros H. apply Ht, H2. rewrite map_app. set_solver.
Qed.

(** Investigations are no local starts of the walk. *)
Definition untouched (w : Walk) (x : result exn Walk) (evs : list event_) : Prop :=
  match x with Ok w' => local_starts evs = [] /\ same_counters (w_st w) (w_st w') /\ w_blocked w' = w_blocked w | Err _ => True end.
Lemma investigate_given t w : given calm (investigate_ w t) (untouched w).
Proof.
  unfold investigate. cbv zeta. destruct (_ || _); [done|]. apply given_do. intros runs _. destruct (existsb _ _); [split; [done|]; split; [by apply put_counters|done]|].
  destruct (nonempty _); [done|]. apply given_do. intros index _. destruct (_ <=? 0); [done|]. apply given_bind, status_given. intros s evs Hev.
  destruct (local_slots_free s <=? 0); [cbn [given]; by rewrite app_nil_r|]. apply given_do. intros [x st] Hst.
  assert (Hevs : local_starts (evs ++ [Ev (Investigate t (w_st w)) (x, st)]) = []) by (by rewrite local_starts_app, Hev).
  assert (Hput : forall k f v st1, f <> "resource_bypasses"%string -> same_counters (w_st w) st1 -> same_counters (w_st w) (put st1 k f v)) by (intros; eapply same_trans; [done|by apply put_counters]).
  destruct x; (split; [exact Hevs|]; split; [|done]); [exact Hst|..]; cbn; repeat (apply Hput; [done|]); exact Hst.
Qed.
Lemma investigations_given l w : given calm (foldP investigate_ l w) (untouched w).
Proof.
  revert w. induction l as [|t l IH]; intros w; cbn [foldP]; [done|]. apply given_bind. eapply given_mono; [|apply investigate_given].
  intros [w1|] evs; [|done]. intros (H1 & H2 & H3). eapply given_mono; [|apply IH]. intros [w2|] evs2; [|done]. intros (H1' & H2' & H3').
  split; [by rewrite local_starts_app, H1, H1'|]. split; [by eapply same_trans|congruence].
Qed.

Lemma pass_fair st queue tr w : tasks_wf tasks -> dispatch_queue has_pending cfg products phase_tasks authorized tasks st = Ok queue ->
  exec (pass st) tr (Some (Ok w)) -> Forall calm tr -> fair st (lines queue) tr w.
Proof.
  intros Hwf Hq Hexec Hcalm. destruct (lines_spec has_pending minutes_since cfg products phase_tasks authorized permitted tasks st queue Hwf Hq) as [Hnd _].
  enough (H : given calm (pass st) (fun x evs => match x with Ok w => fair st (lines queue) evs w | Err _ => True end)) by exact (given_exec _ _ _ _ _ Hexec Hcalm H).
  unfold dispatch_ready. rewrite Hq. cbn [lift]. change (mbind ?f (Ret ?a)) with (f a). cbv zeta. fold (lines queue).
  apply given_bind. assert (Hrest : forall st1 evs0, local_starts evs0 = [] -> same_counters st st1 ->
    given calm (st ← do_ (DrainPendingReviews st1); w ← foldP investigate_ (dvals tasks) {| w_st := st; w_blocked := []; w_dispatched := []; w_errors := [] |}; walk_ (lines queue) w)
      (fun y tr' => match y with Ok w => fair st (lines queue) (evs0 ++ tr') w | Err _ => True end)).
  { intros st1 evs0 He Hs. apply given_do. intros st2 Hs2. apply given_bind. eapply given_mono; [|apply investigations_given]. intros [w1|] evs1; [|done].
    intros (H1 & H2 & H3). cbn [w_st w_blocked] in *. assert (Hs3 : same_counters st (w_st w1)) by (eapply same_trans; [exact Hs|]; by eapply same_trans).
    set (ev := Ev (DrainPendingReviews st1) st2). assert (Hf : fair st [] (evs0 ++ ev :: evs1) w1).
    { assert (Hl : local_starts (evs0 ++ ev :: evs1) = []) by (by rewrite local_starts_app, He).
      split; rewrite ?Hl, ?H3; [constructor|done| | |by intros; apply Hs3]; intros t; [|intros n]; intros H; by apply elem_of_nil in H. }
    eapply given_mono; [|by apply (walk_given st (lines queue) [] (evs0 ++ ev :: evs1))]. intros [w2|] evs2; [|done]. by rewrite <- app_assoc. }
  destruct (_ || _); [|apply (Hrest st []); done]. apply given_do. intros st1 Hs1. cbn [given]. by apply (Hrest st1 [Ev (TryReclaim st) st1]).
Qed.
End fairness.

(** ** Many passes *)

(** [waiting limit h st k st']: from [st] to [st'], passes go by in which [h] is not started on this host; everything but the limit may change from pass to pass.  In each
    pass in which, by what the pass read, [h] fits this host but lacked room when its weight was compared ([lacked]), the tasks behind it that start overtake it; [k] counts
    them all. *)
Inductive waiting (limit : Z) (h : string) (st : entries) : Z -> entries -> Prop :=
| waiting_start : waiting limit h st 0 st
| waiting_pass k st1 has_pending float minutes_since cfg products phase_tasks authorized permitted runner_for costs now tasks queue tr w st2 :
    waiting limit h st k st1 -> max_bypasses cfg = limit -> tasks_wf tasks ->
    dispatch_queue has_pending cfg products phase_tasks authorized tasks st1 = Ok queue ->
    exec (dispatch_ready has_pending float minutes_since cfg products phase_tasks authorized permitted runner_for costs now tasks st1) tr (Some (Ok w)) ->
    Forall (calm minutes_since cfg) tr -> h ∉ map id (local_starts tr) -> bypassed st2 h = bypassed (w_st w) h ->
    waiting limit h st (k + if mem h (lacked cfg tasks tr) then count (overtakers h (lines_of permitted queue) tr) else 0) st2.

(** C26.  (Safety: bounded overtaking.)  A local task whose weight fits this host, but not beside what runs when the pass compares them, is passed over.  However many
    passes follow, and whatever else happens in and between them, as long as the task itself is not started, the tasks behind it in the queue are started on this host
    at most [max_bypasses] times in all in the passes in which it lacked room so, and what is left of that allowance is exactly what its counter says.  Which tasks lacked
    room is read off the replies of the pass, not off the list that the code keeps.  Passes end, nobody but they themselves writes the counters, and a pool that chose
    a member can be rotated after the start.  A task that is skipped before its weight is compared, because the host is full or under pressure at that moment, is neither counted
    nor held for ([full_host_not_counted]). *)
Theorem overtaking_bounded (limit : Z) (h : string) (st st' : entries) (k n : Z) (Hwait : waiting limit h st k st') (Hn : bypassed st h = Ok n) :
  0 <= k /\ bypassed st' h = Ok (n + k) /\ (k = 0 \/ n + k <= limit).
Proof.
  induction Hwait as [|k st1 has_pending float minutes_since cfg products phase_tasks authorized permitted runner_for costs now tasks queue tr w st2 _ IH Hlim Hwf Hq Hexec Hcalm Hh Hst].
  { rewrite Z.add_0_r. auto with lia. }
  destruct IH as (Hk & Hc & Hb). pose proof (pass_fair _ _ _ _ _ _ _ _ _ _ _ _ _ _ _ _ Hwf Hq Hexec Hcalm) as [_ _ _ Hblocked Hother].
  rewrite (pass_tracks _ _ _ _ _ _ _ _ _ _ _ _ _ _ _ Hexec). destruct (mem h (map id (w_blocked w))) eqn:Hm.
  - apply mem_spec in Hm. apply list_elem_of_fmap in Hm as (t & -> & Ht). destruct (Hblocked t _ Ht Hc) as [H1 H2].
    unfold count in *. split; [lia|]. split; [rewrite Hst, H1; f_equal; lia|]. destruct H2 as [H2|H2]; [rewrite H2; cbn; rewrite Z.add_0_r; done|right; lia].
  - apply mem_false in Hm. rewrite Z.add_0_r. split; [done|]. split; [|done]. rewrite Hst, Hother, Hc; [done|]. rewrite map_app. intros [H|H]%elem_of_app; done.
Qed.

(** In the small garden the first light task overtakes the heavy one; with one bypass allowed the second does not, also not in the next pass. *)
Module Passes.
Definition side_store (p : dprog Walk) : entries := match (run Garden.answers p Garden.busy).1 with Ok w => w_st w | Err _ => [] end.
Definition st1 : entries := side_store (Garden.pass []).
Definition st2 : entries := side_store (Garden.pass st1).
Definition no_pool (e : event_) : bool :=
  match e with @Ev _ R c _ => match c with Dispatch _ _ _ (Some _) _ => false | _ => true end end.
End Passes.

Lemma garden_calm {A} (p : dprog A) index : forallb Passes.no_pool (trace Garden.answers p index) = true -> Forall (calm (fun _ => 0%Q) Garden.cfg) (trace Garden.answers p index).
Proof.
  revert index. induction p as [a|e|R c k IH]; intros index; cbn [trace forallb]; [constructor..|].
  intros [Hm Hp]%andb_true_iff. constructor; [|by apply IH]. clear Hp IH. destruct c as [| | | | | | |t mode r [m|] st|t st|]; try done. by apply put_counters.
Qed.
(** One pass of the garden is a pass of [waiting]. *)
Lemma garden_waiting st k st1 : waiting 1 "A-1" st k st1 ->
  let tr := trace Garden.answers (Garden.pass st1) Garden.busy in
  forallb Passes.no_pool tr = true -> mem "A-1"%string (map id (local_starts tr)) = false -> forall w, (run Garden.answers (Garden.pass st1) Garden.busy).1 = Ok w ->
  exists k', waiting 1 "A-1" st k' (w_st w).
Proof.
  intros Hw tr Htr Hh w Hrun. destruct (dispatch_queue (fun _ => false) Garden.cfg Garden.products (fun _ => []) (fun _ => true) Garden.tasks st1) as [queue|err] eqn:Hq.
  - eexists. eapply (waiting_pass 1 "A-1" st k st1 _ (fun _ => Ok 0%Q) _ Garden.cfg _ _ _ (fun _ => true) (fun _ _ _ => Garden.local) [] "now" Garden.tasks queue tr w); [exact Hw|done|by apply filed_wf|exact Hq| | |by apply mem_false|done].
    + rewrite <- Hrun. apply run_exec.
    + by apply garden_calm.
  - unfold Garden.pass, dispatch_ready in Hrun. rewrite Hq in Hrun. discriminate Hrun.
Qed.

Lemma overtaking_bounded_witness : exists k, waiting 1 "A-1" [] k Passes.st2 /\ k = 1.
Proof.
  assert (H2 : exists k, waiting 1 "A-1" [] k Passes.st2).
  { destruct (garden_waiting [] 0 [] (waiting_start _ _ _)) with (w := default {| w_st := []; w_blocked := []; w_dispatched := []; w_errors := [] |}
      (match (run Garden.answers (Garden.pass []) Garden.busy).1 with Ok w => Some w | Err _ => None end)) as [k1 H1]; [by vm_compute..|].
    destruct (garden_waiting [] k1 _ H1) with (w := default {| w_st := []; w_blocked := []; w_dispatched := []; w_errors := [] |}
      (match (run Garden.answers (Garden.pass Passes.st1) Garden.busy).1 with Ok w => Some w | Err _ => None end)) as [k2 H2]; [by vm_compute..|].
    exists k2. exact H2. }
  destruct H2 as [k H]. exists k. split; [exact H|].
  destruct (overtaking_bounded 1 "A-1" [] Passes.st2 k 0 H eq_refl) as (_ & Hn & _).
  assert (E : bypassed Passes.st2 "A-1" = Ok 1) by (vm_compute; reflexivity). rewrite E in Hn. injection Hn as ->. reflexivity.
Defined.

(** Beside a run of weight one the heavy task does not fit: the first light one overtakes it, which is counted; and then the second has to wait.  On an idle host
    the heavy task starts, and then nothing else fits. *)
Example garden_passes :
  (fun x => match x.1 with Ok w => Some (w_dispatched w, map id (w_blocked w), bypasses (w_st w) (Garden.task "heavy" "A-1"), w_errors w) | Err _ => None end) (run Garden.answers (Garden.pass []) Garden.busy)
    = Some (["B-1(work)"%string], ["A-1"%string], Ok 1, []) /\
  (fun x => match x.1 with Ok w => Some (w_dispatched w, map id (w_blocked w)) | Err _ => None end) (run Garden.answers (Garden.pass []) []) = Some (["A-1(work)"%string], []).
Proof. split; vm_compute; reflexivity. Qed.

(** A run as heavy as the host ends while the queue is walked, after four readings: when the heavy task's turn comes the host is full, so that its weight is not compared; the
    light tasks behind it then start, more of them than [max_bypasses], and nothing is counted. *)
Module FullHost.
Definition leaving : values := Garden.run_of (Garden.task "heavy" "Z-8") "work".
Definition answers (R : Type) (c : dcmd R) (s : nat * list values) : R * (nat * list values) :=
  match c in dcmd R return (R * list values) -> R * (nat * list values) with
  | ActiveRuns => fun x => match s.1 with S n => (leaving :: x.1, (n, x.2)) | O => (x.1, (O, x.2)) end
  | _ => fun x => (x.1, (s.1, x.2))
  end (Garden.answers R c s.2).
End FullHost.
Lemma full_host_not_counted : max_bypasses Garden.cfg = 1 /\
  (fun x => match x.1 with Ok w => Some (w_dispatched w, map id (w_blocked w), bypasses (w_st w) (Garden.task "heavy" "A-1"), w_errors w) | Err _ => None end)
    (run FullHost.answers (Garden.pass []) (4%nat, [])) = Some (["B-1(work)"%string; "B-2(work)"%string], [], Ok 0, []).
Proof. split; vm_compute; reflexivity. Qed.
