(* ===== verification/Resources.v ===== *)
(** * Admission of local runs ([scheduler/resources.py], [storage.py])

    Workers, reviews and checks of one garden run on the operator's machine beside each other.  Whatever launches one takes the admission lock, measures the machine, counts the
    weights of the runs that are recorded as active, and publishes the record of the new run before it lets go of the lock.  When only the memory of a control group is
    short, it may start a helper that asks the kernel to drop cached files.

    Each section under the lock is a program ([rprog]).  Its commands read what the machine shows ([ReadGauges], [MeasureStorage], [Time], ...), run records, the
    entry of the side-store that shows the pressure, and the two files of the reclaim helper.  [Garden] and [handle] say what the commands do to the shared state, [others] what processes may do
    that do not hold the lock; [Shared] puts them beside each other.

    Settings are fields of [Limits], after the defaults and [max] that the code applies to them.  Of [ResourceStatus] the fields for display (isolation, heavy tests, the
    text on the last reclaim) are left out. *)

From Stdlib Require Import QArith.
From S2P Require Import Prelude PyValue Requirements StateStore RunRecords RunIndex WorkerLease TaskModel Graph Effects Shared DispatchQueue.

#[local] Open Scope list_scope.
#[local] Open Scope Z_scope.

(** ** Storage *)

Record StorageVolume := { v_key : string; v_label : string; free_bytes : option Z; v_error : string }.
(** What inspecting a path gives: its device and the free bytes, or an [OSError] *)
Abbreviation probe := (option (Z * Z)).
Definition native_volume (volumes : dict StorageVolume) (p : probe) : dict StorageVolume :=
  match p with
  | Some (dev, free) =>
      let k := ("device:" ++ show dev)%string in
      if dmem k volumes then volumes else dset k {| v_key := k; v_label := "local filesystem"; free_bytes := Some free; v_error := "" |} volumes
  | None =>
      let k := ("path:" ++ show (Z.of_nat (List.length volumes)))%string in
      dset k {| v_key := k; v_label := "local filesystem"; free_bytes := None; v_error := "measurement unavailable: filesystem path could not be inspected" |} volumes
  end.
(** [_native_volumes] *)
Definition native_volumes (probes : list probe) : list StorageVolume := dvals (foldl native_volume [] probes).
(** [measure_storage]; [windows] is the backing volume under WSL. *)
Definition measure_storage (probes : list probe) (windows : option StorageVolume) : list StorageVolume :=
  native_volumes probes ++ match windows with Some v => [v] | None => [] end.

(** What keeps one volume from admitting [required] more bytes *)
Definition volume_reason (reserve required : Z) (v : StorageVolume) : option string :=
  match free_bytes v with
  | None => Some (v_label v ++ " " ++ v_error v)%string
  | Some free => if free - required <? reserve
      then Some (v_label v ++ " has " ++ show free ++ " free bytes; reserve " ++ show reserve ++ " bytes plus " ++ show required ++ " reserved bytes is required")%string
      else None
  end.

(** ** The machine and the settings *)

Abbreviation events := (dict Z).
Record Gauges := {
  host_memory : option Z;
  controller_events : events;
  controller_memory : option Z;
  execution_memory : option Z;
  execution_events : events;
  temp_free : option Z }.
Record Limits := {
  min_memory_available_mb : Z;
  min_temp_free_mb : Z;
  disk_reserve_bytes : Z;
  operation_required_bytes : Z;
  execution_cgroup : string;
  reclaim_max_mb : Z;
  reclaim_timeout_seconds : Q;
  reclaim_cooldown_seconds : Q }.

Record ResourceStatus := {
  active : Z;
  limit : Z;
  memory_available_mb : option Z;
  memory_min_mb : Z;
  cgroup_available_mb : option Z;
  cgroup_boundary : string;
  pressure_reasons : list string;
  host_memory_available_mb : option Z;
  disk_required_bytes : Z }.
Definition capacity_full (s : ResourceStatus) : bool := limit s <=? active s.
Definition reasons (s : ResourceStatus) : list string :=
  (if capacity_full s then ["local execution capacity is full (" ++ show (active s) ++ "/" ++ show (limit s) ++ " busy)"]%string else []) ++ pressure_reasons s.
Definition pressured (s : ResourceStatus) : bool := nonempty_list (pressure_reasons s).

(** [product_resource_weight] of [config.py]: [product] is the section of the product, [default] the weight of [resources.weight]. *)
Definition product_resource_weight (name : string) (product : row) (dflt : pyval) : result exn Z :=
  match por (pget "resources" product) (PDict []) with
  | PDict r =>
      match pget_or "weight" dflt r with
      | PInt n => if 0 <? n then Ok n else Err (ValueError ("products." ++ name ++ ".resources.weight must be a positive integer (capacity units)"))
      | _ => Err (ValueError ("products." ++ name ++ ".resources.weight must be a positive integer (capacity units)"))
      end
  | _ => Err (ValueError ("products." ++ name ++ ".resources must be a mapping"))
  end.

(** [min(..., key=lambda item: item[1])]: the first of the least *)
Definition least (l : list (string * Z)) : option (string * Z) :=
  match l with [] => None | x :: l' => Some (foldl (fun best y => if y.2 <? best.2 then y else best) x l') end.
Definition known (g : Gauges) : list (string * Z) :=
  omap (fun '(name, o) => (fun v => (name, v)) <$> (o : option Z)) [("controller cgroup"%string, controller_memory g); ("execution cgroup"%string, execution_memory g)].
Definition cgroup_memory (g : Gauges) : option Z := snd <$> least (known g).
Definition boundary (g : Gauges) : string := match least (known g) with Some x => x.1 | None => "none" end.
Definition limiting_events (g : Gauges) : events := if bool_decide (boundary g = "execution cgroup") then execution_events g else controller_events g.
Definition memory (g : Gauges) : option Z :=
  match host_memory g, cgroup_memory g with Some a, Some b => Some (Z.min a b) | Some a, None => Some a | None, o => o end.

Definition below (what : string) (v least : Z) : string := (what ++ "available memory " ++ show v ++ " MiB is below " ++ show least ++ " MiB")%string.
Definition memory_reasons (l : Limits) (g : Gauges) : list string :=
  match memory g with
  | Some m =>
      if negb (min_memory_available_mb l =? 0) && (m <? min_memory_available_mb l) then
        match cgroup_memory g with
        | Some c => if c <=? match host_memory g with Some h => if h =? 0 then m else h | None => m end
            then [below (if bool_decide (boundary g = "controller cgroup") then "" else boundary g ++ " ") m (min_memory_available_mb l)]
            else [below "" m (min_memory_available_mb l)]
        | None => [below "" m (min_memory_available_mb l)]
        end
      else []
  | None => []
  end.
Definition oom_reasons (g : Gauges) : list string :=
  if existsb (fun n => negb (default 0 (dget n (limiting_events g)) =? 0)) ["oom"; "oom_kill"]%string then ["execution cgroup memory events report oom pressure"%string] else [].
Definition temp_reasons (l : Limits) (g : Gauges) : list string :=
  match temp_free g with
  | Some t => if negb (min_temp_free_mb l =? 0) && (t <? min_temp_free_mb l)
      then ["temporary storage " ++ show t ++ " MiB free is below " ++ show (min_temp_free_mb l) ++ " MiB"]%string else []
  | None => []
  end.
Definition storage_reasons (l : Limits) (required : Z) (volumes : list StorageVolume) : list string :=
  if disk_reserve_bytes l =? 0 then [] else omap (volume_reason (disk_reserve_bytes l) required) volumes.
Definition all_reasons (l : Limits) (g : Gauges) (required : Z) (volumes : list StorageVolume) : list string :=
  memory_reasons l g ++ oom_reasons g ++ temp_reasons l g ++ storage_reasons l required volumes.

(** ** Programs *)

Inductive reserr : Type :=
| ResourcePressureError (msg : string)
| OSError (msg : string)
| SaveError (e : rerr)
| Raised (e : exn).

Inductive rcmd : Type -> Type :=
| Invalidate : rcmd ()
| ActiveRuns : rcmd (list values)
| ReadGauges (execution_cgroup : string) : rcmd Gauges
| Monotonic : rcmd Q
| StorageCache : rcmd (option (Q * list StorageVolume))
| SetStorageCache (at_ : Q) (v : list StorageVolume) : rcmd ()
| Probes (required_paths : list string) : rcmd (list probe * option StorageVolume)
| GetControl : rcmd row
| SetControl (r : row) : rcmd ()
| SaveState : rcmd ()
| ControllerGroup : rcmd (option string)
| MemoryStat (group : string) : rcmd (option events)
| ReadReclaim : rcmd (option row)
| ReadReport : rcmd (option row)
| WriteReclaim (r : row) : rcmd (result reserr ())
| PidAlive (pid : Z) (token : string) : rcmd bool
| KillGroup (pid : Z) : rcmd ()
| Time : rcmd Q
| StatGroup (group : string) : rcmd (result reserr (Z * Z))
| UnlinkReport : rcmd (result reserr ())
| Uuid : rcmd string
| Popen (group : string) (bytes : Z) (timeout : Q) (token : string) (device inode : Z) : rcmd (result reserr Z)
| NextRunId (task_id mode : string) : rcmd string
| Now : rcmd string
| Getpid : rcmd Z
| Save (r : Run) : rcmd (result reserr Run).
Abbreviation rprog := (prog rcmd reserr).

Section programs.
Context (float : pyval -> result exn Q) (number : Q -> pyval).
Context (cfg : Config) (limits : Limits) (product_section : string -> row) (default_weight : pyval) (tasks : tasks_t).

Definition lift_exn {A} (r : result exn A) : rprog A := lift (match r with Ok a => Ok a | Err e => Err (Raised e) end).
Definition local_runs : rprog (list values) := index ← do_ ActiveRuns; Ret (local_runs_active index).
(** [resource_weight] *)
Definition resource_weight (task_id : string) : result exn Z :=
  match dget task_id tasks with Some t => product_resource_weight (product t) (product_section (product t)) default_weight | None => Ok 1 end.
(** [max(0, int(run.env_snapshot.get("disk_required_bytes", 0) or 0))], and its sum *)
Definition run_disk (r : values) : result exn Z := n ← py_int (por (pget_or "disk_required_bytes" (PInt 0) (env_snapshot r)) (PInt 0)); Ok (Z.max 0 n).
Definition disk_sum (rs : list values) : result exn Z := foldR (fun n r => m ← run_disk r; Ok (n + m)) rs 0.
Definition weight_sum (rs : list values) : Z := foldr (fun r n => run_resource_weight r + n) 0 rs.

(** [_storage_status] *)
Definition storage_status (fresh : bool) (required_paths : list string) : rprog (list StorageVolume) :=
  let measure := x ← do_ (Probes required_paths); let volumes := measure_storage x.1 x.2 in
    _ ← (if nonempty_list required_paths then Ret () else at_ ← do_ Monotonic; do_ (SetStorageCache at_ volumes)); Ret volumes in
  cached ← do_ StorageCache;
  match cached with
  | Some (at_, volumes) => if negb fresh && negb (nonempty_list required_paths) then t ← do_ Monotonic; if negb (Qle_bool 5 (t - at_)) then Ret volumes else measure else measure
  | None => measure
  end.

(** [resource_status] *)
Definition resource_status (include_next_disk fresh : bool) (required_paths : list string) : rprog ResourceStatus :=
  rs ← local_runs;
  g ← do_ (ReadGauges (execution_cgroup limits));
  rs2 ← local_runs;
  required ← lift_exn (disk_sum rs2);
  volumes ← storage_status fresh required_paths;
  let next := if include_next_disk then operation_required_bytes limits else 0 in
  Ret {| active := weight_sum rs; limit := resource_parallel_limit cfg; memory_available_mb := memory g; memory_min_mb := min_memory_available_mb limits;
         cgroup_available_mb := cgroup_memory g; cgroup_boundary := boundary g; pressure_reasons := all_reasons limits g (required + next) volumes;
         host_memory_available_mb := host_memory g; disk_required_bytes := required |}.

(** [_record_resource_status] *)
Definition record_resource_status (s : ResourceStatus) : rprog () :=
  ctrl ← do_ GetControl;
  let old := pget "resource_pressure" ctrl in
  if pressured s then
    let reason := join "; " (pressure_reasons s) in
    if negb (truthy old) || negb (py_eq (pget "reason" (dict_of_value old)) (PStr reason)) then
      at_ ← do_ Now;
      _ ← do_ (SetControl (dset "resource_pressure" (PDict [("reason"%string, PStr reason); ("at"%string, PStr at_)]) ctrl));
      do_ SaveState
    else Ret ()
  else if truthy old then _ ← do_ (SetControl (ddel "resource_pressure" ctrl)); do_ SaveState
  else Ret ().
(** [refresh_resource_pressure] *)
Definition refresh_resource_pressure : rprog ResourceStatus := s ← resource_status true true []; _ ← record_resource_status s; Ret s.

(** ** The reclaim helper *)

Definition running (state : row) : bool := truthy (pget "running" state).
(** [report and report.get("token") == state.get("token")] *)
Definition reported (state : row) (report : option row) : bool :=
  match report with Some r => nonempty_list r && py_eq (pget "token" r) (pget "token" state) | None => false end.
Definition finished (state report : row) : row :=
  dset "finished_at" (pget "finished_at" report) (dset "result" (PDict report) (dset "running" (PBool false) state)).
(** [_read_reclaim_state] *)
Definition read_reclaim_state : rprog row :=
  state ← do_ ReadReclaim;
  report ← do_ ReadReport;
  let state := default [] state in
  Ret (match report with Some r => if running state && reported state report then finished state r else state | None => state end).
Definition error_result (e : string) : pyval := PDict [("status"%string, PStr "error"); ("error"%string, PStr e)].
(** The end of a helper that did not report *)
Definition gave_up (now : Q) (e : string) (state : row) : row :=
  dset "result" (error_result e) (dset "finished_at" (number now) (dset "running" (PBool false) state)).
(** [_reconcile_reclaim_state] *)
Definition reconcile_reclaim_state : rprog row :=
  state ← read_reclaim_state;
  report ← do_ ReadReport;
  if bool_decide (pget "running" state = PBool false) && reported state report then
    let state := match report with Some r => finished state r | None => state end in
    _ ← invoke (WriteReclaim state); Ret state
  else if running state then
    pid ← lift_exn (py_int (por (pget "pid" state) (PInt 0)));
    let token := py_str (por (pget "token" state) (PStr "")) in
    t ← do_ Time;
    started ← lift_exn (float (por (pget "started_at" state) (PInt 0)));
    if negb (Qle_bool (t - started) (reclaim_timeout_seconds limits + 1)) then
      alive ← do_ (PidAlive pid token);
      _ ← (if (alive : bool) then do_ (KillGroup pid) else Ret ());
      t2 ← do_ Time;
      let state := gave_up t2 "reclaim helper timed out" state in
      _ ← invoke (WriteReclaim state); Ret state
    else
      alive ← do_ (PidAlive pid token);
      if (alive : bool) then Ret state
      else
        t2 ← do_ Time;
        let state := gave_up t2 "reclaim helper exited without a report" state in
        _ ← invoke (WriteReclaim state); Ret state
  else Ret state.

(** The readings under which reclaiming may help: memory of a control group is the only gate. *)
Definition reclaim_would_help (s : ResourceStatus) : bool :=
  match reasons s with [r] => contains "available memory" r | _ => false end
  && mem (cgroup_boundary s) ["controller cgroup"; "execution cgroup"]
  && match memory_available_mb s, host_memory_available_mb s with
     | Some m, Some h => bool_decide (cgroup_available_mb s = Some m) && (memory_min_mb s <=? h) && (m <? memory_min_mb s)
     | _, _ => false
     end.
Definition helper_timeout : Q := if Qle_bool (reclaim_timeout_seconds limits) (1 # 10) then (1 # 10)%Q else reclaim_timeout_seconds limits.
(** What is written of a helper that runs *)
Definition helper_state (pid : Z) (started : Q) (token bound : string) (request : Z) (stats : events) : row :=
  [("running", PBool true); ("pid", PInt pid); ("started_at", number started); ("token", PStr token); ("boundary", PStr bound); ("requested_bytes", PInt request);
   ("memory_stat", PDict (map (fun kv => (kv.1, PInt kv.2)) stats))]%string.
(** The handler of [OSError] *)
Definition start_failed (proc : option Z) (e : reserr) : rprog bool :=
  match e with
  | OSError msg =>
      _ ← (match proc with Some pid => do_ (KillGroup pid) | None => Ret () end);
      t ← do_ Time;
      _ ← invoke (WriteReclaim [("running"%string, PBool false); ("finished_at"%string, number t); ("result"%string, error_result msg)]);
      Ret false
  | _ => Throw e
  end.
Definition start_helper (s : ResourceStatus) (group : string) (request : Z) (stats : events) : rprog bool :=
  identity ← do_ (StatGroup group);
  match identity with
  | Err e => start_failed None e
  | Ok (device, inode) =>
      u ← do_ UnlinkReport;
      match u with
      | Err e => start_failed None e
      | Ok _ =>
          started ← do_ Time;
          token ← do_ Uuid;
          p ← do_ (Popen group request helper_timeout token device inode);
          match p with
          | Err e => start_failed None e
          | Ok pid =>
              w ← do_ (WriteReclaim (helper_state pid started token (cgroup_boundary s) request stats));
              match w with Err e => start_failed (Some pid) e | Ok _ => Ret true end
          end
      end
  end.
(** [_start_reclaim_if_eligible] *)
Definition start_reclaim_if_eligible (s : ResourceStatus) : rprog bool :=
  if negb (reclaim_would_help s) then Ret false
  else
    group ← (if bool_decide (cgroup_boundary s = "controller cgroup") then do_ ControllerGroup else Ret (Some (execution_cgroup limits)));
    stats ← (match group with Some g => do_ (MemoryStat g) | None => Ret None end);
    match group, stats with
    | Some g, Some stats =>
        let inactive := default 0 (dget "inactive_file" stats) in
        if (reclaim_max_mb limits =? 0) || (inactive <=? 0) then Ret false
        else
          state ← reconcile_reclaim_state;
          if running state then Ret false
          else
            t ← do_ Time;
            last ← lift_exn (float (por (pget "finished_at" state) (PInt 0)));
            if negb (Qle_bool (reclaim_cooldown_seconds limits) (t - last)) then Ret false
            else start_helper s g (Z.min (reclaim_max_mb limits * 1024 * 1024) inactive) stats
    | _, _ => Ret false
    end.

(** ** Admission *)

Definition note_operation (kind : string) : rprog () :=
  ctrl ← do_ GetControl;
  at_ ← do_ Now;
  let pressure := dict_of_value (pget "resource_pressure" (setdefault "resource_pressure" (PDict [("at"%string, PStr at_)]) ctrl)) in
  _ ← do_ (SetControl (dset "resource_pressure" (PDict (dset "operation" (PStr kind) pressure)) ctrl));
  do_ SaveState.
Definition full_message (kind : string) (weight : Z) (s : ResourceStatus) : string :=
  (kind ++ " needs " ++ show weight ++ " capacity unit(s) and waits for a local execution slot (" ++ show (active s) ++ "/" ++ show (limit s)
   ++ " in use); eligible work dispatches automatically when one finishes")%string.
(** [_admit_local_launch] *)
Definition admit_local_launch (kind : string) (weight : Z) : rprog () :=
  s ← refresh_resource_pressure;
  if pressured s || (limit s <? active s + weight) then
    if negb (pressured s) then Throw (ResourcePressureError (full_message kind weight s))
    else
      _ ← start_reclaim_if_eligible s;
      _ ← note_operation kind;
      Throw (ResourcePressureError (kind ++ " deferred by resource pressure: " ++ join "; " (reasons s) ++ "; pause dispatch or wait for active runs to drain, then retry"))
  else Ret ().

(** [RunStore.new_run] *)
Definition new_run (task_id runner mode run_id initial_status : string) (dir : string -> string) : rprog Run :=
  rid ← (if nonempty run_id then Ret run_id else do_ (NextRunId task_id mode));
  started ← do_ Now;
  f ← lift (match construct (list_to_map [("task_id", PStr task_id); ("run_id", PStr rid); ("dir", PStr (dir rid)); ("runner", PStr runner); ("mode", PStr mode);
      ("status", PStr initial_status); ("started_at", PStr started)])%string with Ok f => Ok f | Err e => Err (SaveError e) end);
  let f := if bool_decide (runner = "remote") then <["queued_at" := field "started_at" f]> f else f in
  invoke (Save {| fields := f; RunRecords.loaded := None |}).
Definition set_env (k : string) (v : pyval) (r : Run) : Run := set_field "env_snapshot" (PDict (dset k v (env_snapshot (fields r)))) r.
(** [_new_local_run], inside the lock *)
Definition new_local_run (task_id mode kind run_id runner_name : string) (weight : option Z) (dir : string -> string) : rprog Run :=
  _ ← do_ Invalidate;
  w ← match weight with Some w => Ret w | None => lift_exn (resource_weight task_id) end;
  _ ← admit_local_launch kind w;
  run ← new_run task_id runner_name mode run_id "running" dir;
  pid ← do_ Getpid;
  run ← invoke (Save (set_env "disk_required_bytes" (PInt (operation_required_bytes limits)) (set_env "resource_weight" (PInt w)
         (set_field "preparer_pid" (PInt pid) (set_field "execution_remote" (PBool false) run)))));
  rs ← local_runs;
  total ← lift_exn (disk_sum rs);
  invoke (Save (set_env "disk_recheck_required_bytes" (PInt total) run)).

(** The refusal of the two checks that do not admit a run *)
Definition deferred (operation : string) (s : ResourceStatus) : rprog () :=
  if pressured s then _ ← note_operation operation; Throw (ResourcePressureError (operation ++ " deferred by resource pressure: " ++ join "; " (pressure_reasons s))) else Ret ().
(** [_recheck_local_materialization] *)
Definition recheck_local_materialization (operation : string) (required_paths : list string) : rprog () :=
  _ ← do_ Invalidate;
  s ← resource_status false true required_paths;
  _ ← record_resource_status s;
  deferred operation s.
(** [_local_staging_admission] around [body] *)
Definition local_staging_admission {A} (operation : string) (body : rprog A) : rprog A :=
  _ ← do_ Invalidate;
  s ← resource_status true true [];
  _ ← record_resource_status s;
  _ ← deferred operation s;
  body.
(** [_try_reclaim_for_pending_local_launch] *)
Definition try_reclaim_for_pending_local_launch : rprog bool :=
  _ ← do_ Invalidate;
  s ← refresh_resource_pressure;
  if pressured s then start_reclaim_if_eligible s else Ret false.

(** [reserve_recovery_launch] of [runs.py], under a lock of its own; [task_runs] are the records of the task. *)
Definition reserve_recovery_launch (task_runs : list values) (task_id runner key expected : string) (preparer_pid : Z) (dir : string -> string) : rprog (Run * bool) :=
  let sorted := sort_by (fun a b => str_leb (text "started_at" a) (text "started_at" b)) task_runs in
  match list_find (fun r => text "idempotency_key" r = key) sorted with
  | Some (_, r) => Ret ({| fields := r; RunRecords.loaded := Some r |}, false)
  | None =>
      let current := match last (List.filter is_active sorted) with Some r => text "run_id" r | None => "" end in
      if negb (bool_decide (current = expected)) || nonempty current then Throw (SaveError (RecoveryLaunchConflict current))
      else
        run ← new_run task_id runner "work" "" "requested" dir;
        run ← invoke (Save (set_field "preparer_pid" (PInt preparer_pid) (set_field "idempotency_key" (PStr key) run)));
        Ret (run, true)
  end.
End programs.
