(* ===== verification/ResourceSafety.v ===== *)
(** * The capacity of the machine is never exceeded ([scheduler/resources.py])

    Sections under the admission lock of any number of processes, killed at any moment, beside processes that finish, fail and change runs without
    the lock.  What is relied on is stated in [handle] and [others1]: an index may be out of date, but shows every run that holds capacity.  Some parts of the program begin
    local runs without the admission: the launch of a recovery ([web/actions/tasks.py], 485) and rebases ([scheduler/rebase.py], 234 and 313).  These are counted apart:
    [outside] collects what began to hold capacity, or grew, without the lock.  Nobody else makes a run that was saved under the lock begin to hold capacity again, or grow. *)

From Stdlib Require Import QArith.
From S2P Require Import Prelude PyValue Requirements StateStore RunRecords RunIndex WorkerLease TaskModel Graph Effects Shared DispatchQueue Dispatch Resources.

#[local] Open Scope list_scope.
#[local] Open Scope Z_scope.

(** ** The shared state *)

(** Run records by their directories; the files of the reclaim helper; the helpers that have not reported yet, with their tokens; all tokens so far.  And, for the theorems
    only: the directories of the runs that were saved under the lock; the runs that began to hold capacity, or grew, without it, as they were then. *)
Record Garden := {
  runs : gmap string values;
  reclaim_file : option row;
  report_file : option row;
  helpers : gmap Z string;
  tokens : gset string;
  admitted : gset string;
  outside : list (string * values) }.
Definition run_key (r : values) : string := text "dir" r.
(** What occupies the machine: the runs that [local_runs_active] shows *)
Definition holding (r : values) : bool := is_active r && negb (bool_decide (text "runner" r = "manual")) && is_local_execution r.
Definition set_runs (m : gmap string values) (g : Garden) : Garden :=
  {| runs := m; reclaim_file := reclaim_file g; report_file := report_file g; helpers := helpers g; tokens := tokens g; admitted := admitted g; outside := outside g |}.
Definition set_reclaim (r : row) (g : Garden) : Garden :=
  {| runs := runs g; reclaim_file := Some r; report_file := report_file g; helpers := helpers g; tokens := tokens g; admitted := admitted g; outside := outside g |}.
Definition set_report (r : option row) (g : Garden) : Garden :=
  {| runs := runs g; reclaim_file := reclaim_file g; report_file := r; helpers := helpers g; tokens := tokens g; admitted := admitted g; outside := outside g |}.
Definition set_helpers (h : gmap Z string) (g : Garden) : Garden :=
  {| runs := runs g; reclaim_file := reclaim_file g; report_file := report_file g; helpers := h; tokens := tokens g; admitted := admitted g; outside := outside g |}.
Definition add_token (t : string) (g : Garden) : Garden :=
  {| runs := runs g; reclaim_file := reclaim_file g; report_file := report_file g; helpers := helpers g; tokens := {[t]} ∪ tokens g; admitted := admitted g; outside := outside g |}.
(** A record saved under the lock; runs that began to hold capacity without it *)
Definition save_run (k : string) (d : values) (g : Garden) : Garden :=
  {| runs := <[k := d]> (runs g); reclaim_file := reclaim_file g; report_file := report_file g; helpers := helpers g; tokens := tokens g; admitted := {[k]} ∪ admitted g; outside := outside g |}.
Definition add_outside (l : list (string * values)) (g : Garden) : Garden :=
  {| runs := runs g; reclaim_file := reclaim_file g; report_file := report_file g; helpers := helpers g; tokens := tokens g; admitted := admitted g; outside := l ++ outside g |}.

(** An index shows each run that holds capacity, now or when it was read. *)
Definition shows (l : list values) (g : Garden) : Prop :=
  forall k v, runs g !! k = Some v -> holding v = true -> exists v', v' ∈ l /\ run_key v' = k /\ holding v' = true /\ run_resource_weight v <= run_resource_weight v'.

(** What the commands do; a helper that has not reported is found alive, and what cannot be written stays as it is. *)
Definition handle (R : Type) (c : rcmd R) (g : Garden) : R -> Garden -> Prop :=
  match c in rcmd R return R -> Garden -> Prop with
  | ActiveRuns => fun l g' => shows l g /\ g' = g
  | Save r => fun x g' => match x with
      | Ok r' => exists dir d o, save_locked dir r (runs g !! run_key (fields r)) = Ok (r', d, o) /\ g' = save_run (run_key (fields r)) d g
      | Err _ => g' = g
      end
  | ReadReclaim => fun x g' => x = reclaim_file g /\ g' = g
  | ReadReport => fun x g' => x = report_file g /\ g' = g
  | WriteReclaim r => fun x g' => match x with Ok _ => g' = set_reclaim r g | Err (OSError _) => g' = g | Err _ => False end
  | UnlinkReport => fun x g' => match x with Ok _ => g' = set_report None g | Err _ => g' = g end
  | Uuid => fun t g' => (t ∉ tokens g) /\ g' = add_token t g
  | Popen _ _ _ token _ _ => fun x g' => match x with Ok pid => helpers g !! pid = None /\ g' = set_helpers (<[pid := token]> (helpers g)) g | Err _ => g' = g end
  | PidAlive pid token => fun b g' => (helpers g !! pid = Some token -> b = true) /\ g' = g
  | KillGroup pid => fun _ g' => g' = set_helpers (delete pid (helpers g)) g
  | _ => fun _ g' => g' = g
  end.

(** What others do, who do not hold the lock: runs change and end, and runs of their own begin to hold capacity, or grow ([begun], of none that was saved under the lock); a helper
    reports, or ends without a report. *)
Definition held_before (g : Garden) (k : string) (v' : values) : Prop :=
  exists v, runs g !! k = Some v /\ holding v = true /\ run_resource_weight v' <= run_resource_weight v.
Inductive others1 (g : Garden) : Garden -> Prop :=
| o_runs m begun :
    (forall k v, m !! k = Some v -> well_formed v) ->
    (forall k v', m !! k = Some v' -> holding v' = true -> held_before g k v' \/ (k, v') ∈ begun) ->
    (forall kv, kv ∈ begun -> kv.1 ∉ admitted g) ->
    others1 g (add_outside begun (set_runs m g))
| o_report pid t r : helpers g !! pid = Some t -> pget "token" r = PStr t -> others1 g (set_report (Some r) (set_helpers (delete pid (helpers g)) g))
| o_exit pid : others1 g (set_helpers (delete pid (helpers g)) g).
Abbreviation others := (rtc others1).

(** ** Loads *)

(** The weights of what holds capacity *)
Definition loads (m : gmap string values) : list (string * Z) :=
  map (fun kv => (kv.1, run_resource_weight kv.2)) (List.filter (fun kv => holding kv.2) (map_to_list m)).
Fixpoint load_sum (l : list (string * Z)) : Z := match l with [] => 0 | kn :: l' => kn.2 + load_sum l' end.
Definition load (g : Garden) : Z := load_sum (loads (runs g)).
(** The weights of what began without the lock *)
Definition weights (l : list (string * values)) : list (string * Z) := map (fun kv => (kv.1, run_resource_weight kv.2)) l.
Definition extra (g : Garden) : Z := load_sum (weights (outside g)).
Definition except (k : string) (m : gmap string values) : list (string * Z) := List.filter (fun kn => negb (bool_decide (kn.1 = k))) (loads m).

Lemma run_resource_weight_pos r : 0 < run_resource_weight r.
Proof. unfold run_resource_weight. destruct (pget_or _ _ _) as [| |n| | | |]; try lia. destruct (0 <? n) eqn:H; lia. Qed.

Lemma elem_loads k n m : (k, n) ∈ loads m <-> exists v, m !! k = Some v /\ holding v = true /\ n = run_resource_weight v.
Proof.
  unfold loads. rewrite list_elem_of_In, in_map_iff. split.
  - intros ([k' v] & [= -> <-] & [Hi Hh]%filter_In). exists v. apply list_elem_of_In, elem_of_map_to_list in Hi. done.
  - intros (v & Hv & Hh & ->). exists (k, v). split; [done|]. apply filter_In. split; [|done]. by apply list_elem_of_In, elem_of_map_to_list.
Qed.
Lemma NoDup_filter_keys {A} (p : string * A -> bool) (l : list (string * A)) : NoDup l.*1 -> NoDup (List.filter p l).*1.
Proof.
  induction l as [|x l IH]; cbn; [done|]. intros [Hx Hl]%NoDup_cons. destruct (p x); cbn; [|auto]. apply NoDup_cons. split; [|auto].
  intros (y & Hy & Hi)%list_elem_of_fmap. apply Hx, list_elem_of_fmap. exists y. split; [done|]. by apply list_elem_of_In, filter_In, proj1, list_elem_of_In in Hi.
Qed.
Lemma loads_NoDup m : NoDup (loads m).*1.
Proof.
  unfold loads. rewrite <- list_fmap_compose. apply (NoDup_filter_keys (fun kv => holding kv.2)), NoDup_fst_map_to_list.
Qed.

(** A load is at most another that covers it. *)
Definition covered (l1 l2 : list (string * Z)) : Prop := forall k n, (k, n) ∈ l1 -> exists m, (k, m) ∈ l2 /\ n <= m.
Lemma load_sum_perm l1 l2 : l1 ≡ₚ l2 -> load_sum l1 = load_sum l2.
Proof. induction 1; cbn; lia. Qed.
Lemma load_sum_nonneg l : Forall (fun kn => 0 < kn.2) l -> 0 <= load_sum l.
Proof. induction 1; cbn in *; lia. Qed.
Lemma load_sum_covered l1 l2 : NoDup l1.*1 -> Forall (fun kn : string * Z => 0 < kn.2) l2 -> covered l1 l2 -> load_sum l1 <= load_sum l2.
Proof.
  revert l2. induction l1 as [|[k n] l1 IH]; intros l2 Hd Hp Hc; cbn; [by apply load_sum_nonneg|].
  apply NoDup_cons in Hd as [Hk Hd]. destruct (Hc k n) as (m & Hm & Hle); [by left|].
  apply elem_of_Permutation in Hm as [l2' Hl2]. rewrite (load_sum_perm _ _ Hl2). cbn.
  enough (load_sum l1 <= load_sum l2') by lia. rewrite Hl2 in Hp. apply Forall_cons in Hp as [_ Hp]. apply IH; [done|done|].
  intros k' n' Hi. destruct (Hc k' n') as (m' & Hm' & Hle'); [by right|]. exists m'. split; [|done].
  rewrite Hl2 in Hm'. apply elem_of_cons in Hm' as [[= -> _]|]; [|done]. destruct Hk. apply list_elem_of_fmap. by exists (k, n').
Qed.
Lemma loads_pos m : Forall (fun kn => 0 < kn.2) (loads m).
Proof. apply Forall_forall. intros [k n] (v & _ & _ & ->)%elem_loads. apply run_resource_weight_pos. Qed.
Lemma load_sum_app l1 l2 : load_sum (l1 ++ l2) = load_sum l1 + load_sum l2.
Proof. induction l1; cbn; lia. Qed.
Lemma weights_pos l : Forall (fun kn => 0 < kn.2) (weights l).
Proof. apply Forall_forall. intros kn (v & -> & _)%list_elem_of_fmap. apply run_resource_weight_pos. Qed.
Lemma extra_nonneg g : 0 <= extra g.
Proof. apply load_sum_nonneg, weights_pos. Qed.
Lemma extra_begun begun m g : extra (add_outside begun (set_runs m g)) = load_sum (weights begun) + extra g.
Proof. unfold extra, weights. cbn. by rewrite map_app, load_sum_app. Qed.
Lemma elem_except k n k0 m : (k, n) ∈ except k0 m <-> (k, n) ∈ loads m /\ k <> k0.
Proof. unfold except. rewrite !list_elem_of_In, filter_In. cbn. by rewrite negb_true_iff, bool_decide_eq_false. Qed.
Lemma except_pos k m : Forall (fun kn => 0 < kn.2) (except k m).
Proof. apply Forall_forall. intros [k' n] [H _]%elem_except. by apply (proj1 (Forall_forall _ _) (loads_pos m)) in H. Qed.
Lemma except_NoDup k m : NoDup (except k m).*1.
Proof. apply NoDup_filter_keys, loads_NoDup. Qed.

(** With one run of weight at most [w] *)
Lemma load_with k w m : 0 < w -> (forall v, m !! k = Some v -> holding v = true -> run_resource_weight v <= w) -> load_sum (loads m) <= w + load_sum (except k m).
Proof.
  intros Hw Hk. change (load_sum (loads m) <= load_sum ((k, w) :: except k m)). apply load_sum_covered; [apply loads_NoDup|constructor; [done|apply except_pos]|].
  intros k' n Hi. destruct (decide (k' = k)) as [->|Hne].
  - apply elem_loads in Hi as (v & Hv & Hh & ->). exists w. split; [by left|by eapply Hk].
  - exists n. split; [|lia]. right. by apply elem_except.
Qed.
Lemma except_le k m : load_sum (except k m) <= load_sum (loads m).
Proof. apply load_sum_covered; [apply except_NoDup|apply loads_pos|]. intros k' n [H _]%elem_except. by exists n. Qed.
Lemma except_insert k v m : load_sum (except k (<[k := v]> m)) <= load_sum (except k m).
Proof.
  apply load_sum_covered; [apply except_NoDup|apply except_pos|]. intros k' n [(v' & Hv & Hh & ->)%elem_loads Hne]%elem_except.
  exists (run_resource_weight v'). split; [|done]. apply elem_except. split; [|done]. apply elem_loads. exists v'. by rewrite lookup_insert_ne in Hv.
Qed.

(** The weights that an index shows are at least the load. *)
Lemma shows_load l g : shows l g -> load g <= weight_sum (local_runs_active l).
Proof.
  intros Hs. transitivity (load_sum (map (fun v => (run_key v, run_resource_weight v)) (local_runs_active l))).
  - apply load_sum_covered; [apply loads_NoDup| |].
    + apply Forall_forall. intros kn (v & -> & _)%list_elem_of_fmap. apply run_resource_weight_pos.
    + intros k n (v & Hv & Hh & ->)%elem_loads. destruct (Hs k v Hv Hh) as (v' & Hi & <- & Hh' & Hle).
      exists (run_resource_weight v'). split; [|done]. apply list_elem_of_fmap. exists v'. split; [done|].
      revert Hh'. unfold holding. intros [[Ha Hm]%andb_true_iff Hl]%andb_true_iff. unfold local_runs_active, active_runs.
      rewrite list_elem_of_In. rewrite !filter_In. by rewrite <- list_elem_of_In.
  - unfold weight_sum. induction (local_runs_active _) as [|v l' IH]; cbn; lia.
Qed.

(** ** What a save makes of a record *)

Lemma field_stamp n v m : n ∉ unmerged -> field n (<["record_version" := v]> m) = field n m.
Proof. apply field_stamped. Qed.
Lemma is_merged n : bool_decide (n ∈ field_names /\ n ∉ unmerged) = true -> n ∈ field_names /\ n ∉ unmerged.
Proof. apply bool_decide_eq_true. Qed.

(** Each field comes from the copy, or from the record when the copy did not change it. *)
Inductive saved_from (mine : values) (base cur : option values) (d : values) : Prop :=
| from_mine : (forall n, n ∉ unmerged -> field n d = field n mine) -> saved_from mine base cur d
| from_record b c : base = Some b -> cur = Some c -> (forall n, n ∉ unmerged -> field n d = field n c) -> saved_from mine base cur d
| from_both b c : base = Some b -> cur = Some c ->
    (forall n, n ∈ field_names -> n ∉ unmerged -> field n d = if differs mine b n then field n mine else field n c) -> saved_from mine base cur d.
(** A run in memory whose fields are those of the class *)
Definition kept_run (r : Run) : Prop := whole (fields r) /\ exists v, at_version (fields r) v.

Lemma save_shape dir r cur r' d o :
  kept_run r -> (forall c, cur = Some c -> well_formed c) -> save_locked dir r cur = Ok (r', d, o) ->
  r' = {| fields := d; RunRecords.loaded := Some d |} /\ well_formed d /\ field "dir" d = field "dir" (fields r) /\ saved_from (fields r) (RunRecords.loaded r) cur d.
Proof.
  intros [Hw (v & Hv)] Hc Hs. destruct cur as [c|].
  - destruct (Hc c eq_refl) as [Hwc (w & Hcw & Hpos)]. destruct (save_locked_record dir r c w r' d o (conj Hwc (ex_intro _ w (conj Hcw Hpos))) Hcw Hw Hs) as (m & Hm & -> & -> & _).
    assert (Hd : forall x, field "dir" (<["record_version" := x]> m) = field "dir" m) by (intros x; by apply field_insert_ne). rewrite Hd. split; [done|].
    destruct r as [mine [base|]]; cbn [fields RunRecords.loaded] in *.
    + assert (Hr := merge_outcomes mine base (<["dir" := PStr dir]> c) m o v w (eq_trans (lookup_insert_ne c "dir" "record_version" _ ltac:(done)) Hcw) Hv Hm).
      split; [apply well_formed_version; [|lia]; refine (merged_whole mine base _ m o Hw _ Hr); by apply whole_insert, dir_is_field|].
      destruct Hr as [_ Heq|_ _ _ Hf|_ _ _ _ _ Heq].
      * rewrite Heq. split; [done|]. apply from_mine. intros n. apply field_stamp.
      * destruct (merge_fields_spec _ _ _ _ _ field_names_NoDup Hf) as [_ Hall]. split; [apply (Hall "dir"), dir_is_field|].
        apply (from_both _ _ _ _ base c); [done|done|]. intros n Hn Hu. rewrite field_stamp by done. specialize (Hall n Hn). rewrite mem_unmerged in Hall by done.
        revert Hall. unfold merged_field. destruct (differs mine base n); [by intros [-> _]|]. intros ->. by apply field_insert_ne, unmerged_dir.
      * rewrite Heq. split; [apply field_insert|]. apply (from_record _ _ _ _ base c); [done|done|]. intros n Hu. rewrite field_stamp by done.
        assert (Hn := unmerged_dir n Hu). by rewrite !field_insert_ne.
    + cbn in Hm. injection Hm as <- <-. split; [apply well_formed_version; [done|lia]|]. split; [done|]. apply from_mine. intros n. apply field_stamp.
  - cbn in Hs. injection Hs as <- <- <-. split; [done|]. split; [by apply well_formed_version|]. split; [by apply field_insert_ne|]. apply from_mine. intros n. apply field_stamp.
Qed.

(** What the fields that are merged say about capacity *)
Lemma same_fields a b : (forall n, n ∉ unmerged -> field n a = field n b) -> holding a = holding b /\ run_resource_weight a = run_resource_weight b.
Proof.
  intros H. unfold holding, is_active, is_local_execution, run_resource_weight, env_snapshot, text.
  rewrite !(H "status"), !(H "runner"), !(H "execution_remote"), !(H "env_snapshot") by (apply is_merged; by vm_compute). done.
Qed.
Lemma same_weight a b : field "env_snapshot" a = field "env_snapshot" b -> run_resource_weight a = run_resource_weight b.
Proof. unfold run_resource_weight, env_snapshot. by intros ->. Qed.
Lemma same_holding a b :
  field "status" a = field "status" b -> field "runner" a = field "runner" b -> field "execution_remote" a = field "execution_remote" b -> holding a = holding b.
Proof. unfold holding, is_active, is_local_execution, text. by intros -> -> ->. Qed.

(** ** Sections *)

Section sections.
Context (float : pyval -> result exn Q) (number : Q -> pyval).
Context (cfg : Config) (limits : Limits) (product_section : string -> row) (default_weight : pyval) (tasks : tasks_t).
#[local] Abbreviation new_local_run := (new_local_run float number cfg limits product_section default_weight tasks).

(** What processes run under the admission lock *)
Inductive sections : rprog () -> Prop :=
| launches task_id mode kind run_id runner_name weight dir : (forall w, weight = Some w -> 0 < w) ->
    sections (_ ← new_local_run task_id mode kind run_id runner_name weight dir; Ret ())
| rechecks operation required_paths : sections (recheck_local_materialization cfg limits operation required_paths)
| stages operation : sections (local_staging_admission cfg limits operation (Ret ()))
| reclaims : sections (_ ← try_reclaim_for_pending_local_launch float number cfg limits; Ret ()).

Lemma resource_weight_pos task_id w : resource_weight product_section default_weight tasks task_id = Ok w -> 0 < w.
Proof.
  unfold resource_weight, product_resource_weight. destruct (dget _ _) as [t|]; [|by intros [= <-]]. destruct (por _ _); try done.
  destruct (pget_or _ _ _) as [| |n| | | |]; try done. destruct (0 <? n) eqn:H; [|done]. intros [= <-]. lia.
Qed.

(** *** Assertions that others keep *)

Definition records_ok (g : Garden) : Prop := forall k v, runs g !! k = Some v -> well_formed v.
(** Apart from what began without the lock *)
Definition at_most (n : Z) (g : Garden) : Prop := records_ok g /\ load g <= n + extra g.
(** A run has been published under [k] for a launch of weight [w], within [n]. *)
Definition published (n : Z) (k : string) (w : Z) (g : Garden) : Prop :=
  records_ok g /\ load_sum (except k (runs g)) + w <= n + extra g /\ (0 < w /\ k ∈ admitted g) /\ (forall v, runs g !! k = Some v -> holding v = true -> run_resource_weight v <= w).
(** The copy of the run that the launcher holds *)
Definition copy_of (k : string) (w : Z) (r : Run) (g : Garden) : Prop :=
  kept_run r /\ run_key (fields r) = k /\ RunRecords.loaded r = Some (fields r) /\ (holding (fields r) = true -> run_resource_weight (fields r) <= w) /\
  (forall v, runs g !! k = Some v -> holding v = true -> run_resource_weight (fields r) <= w).

(** Others leave the runs alone, or change them; what is not covered by the old load is counted as outside. *)
Definition changed (g g' : Garden) : Prop := exists begun, records_ok g' /\ extra g' = load_sum (weights begun) + extra g /\ admitted g' = admitted g /\
  (forall k v', runs g' !! k = Some v' -> holding v' = true -> held_before g k v' \/ (k, v') ∈ begun) /\ forall kv, kv ∈ begun -> kv.1 ∉ admitted g.
Lemma others_runs g g' : others1 g g' -> runs g' = runs g /\ extra g' = extra g /\ admitted g' = admitted g \/ changed g g'.
Proof. intros [m begun Hw Hm Ha|pid t r _ _|pid]; [right|by left|by left]. exists begun. split; [done|]. split; [apply extra_begun|done]. Qed.
Lemma changed_covered g g' begun :
  (forall k v', runs g' !! k = Some v' -> holding v' = true -> held_before g k v' \/ (k, v') ∈ begun) -> covered (loads (runs g')) (weights begun ++ loads (runs g)).
Proof.
  intros H k n (v' & Hv & Hh & ->)%elem_loads. destruct (H k v' Hv Hh) as [(v & Hv0 & Hh0 & Hle)|Hb]; exists (run_resource_weight (if decide ((k, v') ∈ begun) then v' else default v' (runs g !! k))).
  - destruct (decide _) as [Hb|_]; [split; [|done]; apply elem_of_app; left; apply list_elem_of_fmap; by exists (k, v')|].
    rewrite Hv0. cbn. split; [|done]. apply elem_of_app. right. apply elem_loads. by exists v.
  - destruct (decide _) as [_|Hn]; [|done]. split; [|done]. apply elem_of_app. left. apply list_elem_of_fmap. by exists (k, v').
Qed.
Lemma both_pos begun l : Forall (fun kn : string * Z => 0 < kn.2) l -> Forall (fun kn => 0 < kn.2) (weights begun ++ l).
Proof. intros H. apply Forall_app. split; [apply weights_pos|done]. Qed.
Lemma at_most_stable n : stable others (at_most n).
Proof.
  apply stable_rtc. intros g g' [Hr Hl] [(He & Hx & _)|(begun & Hr' & Hx & _ & Hc & _)]%others_runs; [by unfold at_most, records_ok, load; rewrite He, Hx|]. split; [done|].
  enough (load g' <= load_sum (weights begun) + load g) by lia. unfold load at 2. rewrite <- load_sum_app.
  apply load_sum_covered; [apply loads_NoDup|apply both_pos, loads_pos|by apply changed_covered].
Qed.
(** Nobody else changes what an admitted run holds, but to less. *)
Lemma changed_admitted g g' k v : changed g g' -> k ∈ admitted g -> runs g' !! k = Some v -> holding v = true -> held_before g k v.
Proof. intros (begun & _ & _ & _ & Hc & Ha) Hk Hv Hh. destruct (Hc k v Hv Hh) as [|Hb]; [done|]. by destruct (Ha _ Hb). Qed.
Lemma published_copy_stable n k w r : stable others (fun g => published n k w g /\ copy_of k w r g).
Proof.
  apply stable_rtc. intros g g' [(Hr & Hl & [Hw Ha] & Hk) (Hc1 & Hc2 & Hc3 & Hc4 & Hc5)] [(He & Hx & Ha')|Hch]%others_runs; [unfold published, records_ok, copy_of; by rewrite He, Hx, Ha'|].
  pose proof (changed_admitted g g' k) as Hadm. specialize (Hadm) with (1 := Hch) (2 := Ha). destruct Hch as (begun & Hr' & Hx & Ha' & Hc & _). split; [|split_and!; [done|done|done|done|]].
  - split_and!; [done| |done|by rewrite Ha'|].
    + enough (load_sum (except k (runs g')) <= load_sum (weights begun) + load_sum (except k (runs g))) by lia. rewrite <- load_sum_app.
      apply load_sum_covered; [apply except_NoDup|apply both_pos, except_pos|]. intros k' x [Hi Hne]%elem_except. destruct (changed_covered g g' begun Hc k' x Hi) as (m & Hm & Hle).
      exists m. split; [|done]. apply elem_of_app in Hm as [Hm|Hm]; apply elem_of_app; [by left|right; by apply elem_except].
    + intros v Hv Hh. destruct (Hadm v Hv Hh) as (v0 & Hv0 & Hh0 & Hle). specialize (Hk v0 Hv0 Hh0). lia.
  - intros v Hv Hh. destruct (Hadm v Hv Hh) as (v0 & Hv0 & Hh0 & Hle). by apply (Hc5 v0).
Qed.
Lemma published_at_most n k w g : published n k w g -> at_most n g.
Proof. intros (Hr & Hl & [Hw _] & Hk). split; [done|]. unfold load. assert (H := load_with k w (runs g) Hw Hk). lia. Qed.

(** *** Saving the run *)

Lemma records_ok_insert k d g : records_ok g -> well_formed d -> records_ok (save_run k d g).
Proof. intros H Hd k' v. cbn. intros [[<- <-]|[_ ?]]%lookup_insert_Some; [done|by eapply H]. Qed.
Lemma well_formed_kept d : well_formed d -> kept_run {| fields := d; RunRecords.loaded := Some d |}.
Proof. intros [Hw (v & Hv & _)]. split; [done|]. by exists v. Qed.

(** The first save, by [new_run] *)
Lemma first_save n w dir r r' d o g :
  at_most (n - w) g -> 0 < w -> kept_run r -> RunRecords.loaded r = None -> run_resource_weight (fields r) = 1 ->
  save_locked dir r (runs g !! run_key (fields r)) = Ok (r', d, o) ->
  published n (run_key (fields r)) w (save_run (run_key (fields r)) d g) /\
  copy_of (run_key (fields r)) w r' (save_run (run_key (fields r)) d g) /\ field "env_snapshot" (fields r') = field "env_snapshot" (fields r).
Proof.
  intros [Hr Hl] Hw Hk Hb H1 Hs. destruct (save_shape dir r _ r' d o Hk (fun c Hc => Hr _ c Hc) Hs) as (-> & Hd & Hdir & Hfrom). rewrite Hb in Hfrom.
  set (k := run_key (fields r)) in *. assert (Hkd : run_key d = k) by (unfold k, run_key, text; by rewrite Hdir).
  destruct Hfrom as [H|b c Hb' _ _|b c Hb' _ _]; [|done|done].
  assert (Henv : field "env_snapshot" d = field "env_snapshot" (fields r)) by (apply H, (is_merged "env_snapshot"); by vm_compute).
  assert (Hwd : run_resource_weight d = 1) by (by rewrite (same_weight d (fields r))).
  split; [|split; [|exact Henv]].
  - split_and!; [by apply records_ok_insert| |done|cbn; set_solver|cbn; intros v; rewrite lookup_insert_eq; intros [= <-]; lia].
    change (extra (save_run k d g)) with (extra g). cbn. assert (H2 := except_insert k d (runs g)). assert (H3 := except_le k (runs g)). unfold load in Hl. lia.
  - split_and!; [by apply well_formed_kept|done|done|cbn; lia|]. cbn. intros v. rewrite lookup_insert_eq. intros [= <-]. lia.
Qed.

(** Later saves: either the snapshot with the weight [w] is new, or nothing but the snapshot is, and the copy weighs at most [w] while it holds capacity. *)
Definition own_weight (w : Z) (r : Run) (base : values) : Prop := differs (fields r) base "env_snapshot" = true /\ run_resource_weight (fields r) <= w.
Definition only_snapshot (w : Z) (r : Run) (base : values) (g : Garden) : Prop :=
  (forall f, f ∈ ["status"; "runner"; "execution_remote"]%string -> differs (fields r) base f = false) /\
  (holding (fields r) = true -> run_resource_weight (fields r) <= w) /\
  (forall v, runs g !! run_key (fields r) = Some v -> holding v = true -> run_resource_weight (fields r) <= w).
Lemma next_save n w dir r base r' d o g :
  let k := run_key (fields r) in
  published n k w g -> kept_run r -> RunRecords.loaded r = Some base -> own_weight w r base \/ only_snapshot w r base g ->
  save_locked dir r (runs g !! k) = Ok (r', d, o) ->
  published n k w (save_run k d g) /\ copy_of k w r' (save_run k d g).
Proof.
  intros k (Hr & Hl & [Hw _] & Hk) Hkr Hb Hcase Hs. destruct (save_shape dir r _ r' d o Hkr (fun c Hc => Hr _ c Hc) Hs) as (-> & Hd & Hdir & Hfrom). rewrite Hb in Hfrom.
  assert (Hkd : run_key d = k) by (unfold k, run_key, text; by rewrite Hdir).
  enough (Hwd : holding d = true -> run_resource_weight d <= w).
  { split.
    - split_and!; [by apply records_ok_insert| |done|cbn; set_solver|cbn; intros v; rewrite lookup_insert_eq; by intros [= <-]].
      change (extra (save_run k d g)) with (extra g). cbn. assert (H2 := except_insert k d (runs g)). lia.
    - split_and!; [by apply well_formed_kept|done|done|done|]. cbn. intros v. rewrite lookup_insert_eq. by intros [= <-]. }
  destruct Hfrom as [H|b c _ Hc H|b c [= <-] Hc H].
  - apply same_fields in H as [-> ->]. destruct Hcase as [[_ Hle]|(_ & Hle & _)]; [done|exact Hle].
  - apply same_fields in H as [-> ->]. by apply Hk.
  - assert (Hf : forall f, bool_decide (f ∈ field_names /\ f ∉ unmerged) = true -> field f d = if differs (fields r) base f then field f (fields r) else field f c).
    { intros f [H1 H2]%is_merged. by apply H. }
    assert (He := Hf "env_snapshot"%string ltac:(by vm_compute)). destruct Hcase as [[Hde Hle]|(Hun & _ & Hle)].
    + rewrite Hde in He. by rewrite (same_weight d (fields r) He).
    + rewrite (same_holding d c); [|by (rewrite Hf by (by vm_compute)); (rewrite Hun; [done|]); set_solver..].
      intros Hh. destruct (differs (fields r) base "env_snapshot"); [rewrite (same_weight d (fields r) He); by apply (Hle c)|].
      rewrite (same_weight d c He). by apply Hk.
Qed.

(** *** Programs that save no run *)

Definition saves_no_run (R : Type) (c : rcmd R) : Prop := match c with Save _ => False | _ => True end.
Lemma no_save_runs R (c : rcmd R) g r g' : saves_no_run R c -> handle R c g r g' -> runs g' = runs g /\ outside g' = outside g /\ admitted g' = admitted g.
Proof.
  destruct c; cbn; try naive_solver; destruct r as [|[]]; naive_solver.
Qed.
Lemma at_most_runs n g g' : runs g' = runs g /\ outside g' = outside g /\ admitted g' = admitted g -> at_most n g -> at_most n g'.
Proof. unfold at_most, records_ok, load, extra. by intros (-> & -> & _). Qed.

Lemma saves_status b fresh paths : only saves_no_run (resource_status cfg limits b fresh paths).
Proof. unfold resource_status, storage_status, local_runs, lift_exn. only_auto. Qed.
Lemma saves_record s : only saves_no_run (record_resource_status s).
Proof. unfold record_resource_status. only_auto. Qed.
Lemma saves_refresh : only saves_no_run (refresh_resource_pressure cfg limits).
Proof. unfold refresh_resource_pressure. only_auto. Qed.
Lemma saves_note kind : only saves_no_run (note_operation kind).
Proof. unfold note_operation. only_auto. Qed.
Lemma saves_reclaim s : only saves_no_run (start_reclaim_if_eligible float number limits s).
Proof. unfold start_reclaim_if_eligible, reconcile_reclaim_state, read_reclaim_state, start_helper, start_failed, lift_exn. only_auto. Qed.

#[local] Abbreviation capacity := (resource_parallel_limit cfg).
#[local] Abbreviation guarded := (guards handle others (at_most capacity)).

Lemma saving_keeps n R (c : rcmd R) : saves_no_run R c -> forall g r g', at_most n g -> handle R c g r g' -> at_most n g'.
Proof. intros Hc g r g' Hg Hh. apply (at_most_runs n g); [|done]. by apply (no_save_runs R c g r). Qed.
(** Programs that save no run, between the rest *)
Lemma guarded_frame {A} n (V : A -> Prop) (p : rprog A) g : n <= capacity ->
  only saves_no_run p -> yields V p -> at_most n g -> guarded p (fun r g => at_most n g /\ match r with Ok a => V a | Err _ => True end) g.
Proof.
  intros Hn Hp Hv Hg. apply guards_frame_yields; [apply at_most_stable|intros s [H1 H2]; split; [done|lia]| |done|done].
  eapply only_impl; [|exact Hp]. intros R c. apply saving_keeps.
Qed.
Lemma guarded_quiet {A} n (p : rprog A) g : n <= capacity -> only saves_no_run p -> at_most n g -> guarded p (fun _ g => at_most n g) g.
Proof. intros Hn Hp Hg. eapply guards_mono; [|by apply (guarded_frame n (fun _ => True)); [| |apply yields_true|]]. by intros r s [H _]. Qed.

Lemma guarded_bind {A B} (f : A -> rprog B) (p : rprog A) Q g :
  guarded p (fun r g => match r with Ok a => guarded (f a) Q g | Err e => Q (Err e) g end) g -> guarded (p ≫= f) Q g.
Proof. apply (guards_bind handle others). Qed.

Lemma guarded_throw {A} e (Q : result reserr A -> Garden -> Prop) g :
  (forall g, at_most capacity g -> Q (Err e) g) -> at_most capacity g -> guarded (Throw e) Q g.
Proof. intros HQ Hg g1 Hr. assert (H1 := at_most_stable _ _ _ Hg Hr). auto. Qed.
Lemma guarded_skip {A B} (p : rprog A) (f : A -> rprog B) Q g :
  only saves_no_run p -> (forall a g, at_most capacity g -> guarded (f a) Q g) -> (forall e g, at_most capacity g -> Q (Err e) g) ->
  at_most capacity g -> guarded (p ≫= f) Q g.
Proof.
  intros Hp Hf He Hg. apply guarded_bind. eapply guards_mono; [|by apply (guarded_quiet capacity p)]. intros [a|e] g1 H1; auto.
Qed.

(** A status shows at least what is in use, for as long as the lock is held. *)
Lemma guarded_status b fresh paths g : at_most capacity g ->
  guarded (resource_status cfg limits b fresh paths)
    (fun r g => at_most capacity g /\ match r with Ok s => at_most (active s) g /\ limit s = capacity | Err _ => True end) g.
Proof.
  intros Hg. unfold resource_status, local_runs at 1. apply guarded_bind. apply (guards_do _ _ _ (at_most capacity)); [apply at_most_stable|done|done|].
  intros l g1 g2 Hg1 [Hs ->]. assert (Hl := shows_load l g1 Hs). assert (Hmin : at_most (Z.min capacity (weight_sum (local_runs_active l))) g1).
  { destruct Hg1. split; [done|]. assert (Hx := extra_nonneg g1). lia. }
  apply guards_ret. intros g3 Hr3. assert (H3 := at_most_stable _ _ _ Hmin Hr3). split; [destruct H3; split; [done|lia]|].
  eapply guards_mono; [|apply (guarded_frame (Z.min capacity (weight_sum (local_runs_active l))) (fun s => active s = weight_sum (local_runs_active l) /\ limit s = capacity)); [lia| | |exact H3]].
  - intros [s|e] g4 [[H4 H5] Hs4]; (split; [split; [done|lia]|]); [|done]. destruct Hs4 as [-> ->]. split; [|done]. split; [done|lia].
  - unfold storage_status, local_runs, lift_exn. only_auto.
  - apply yields_bind. intros gauges. apply yields_bind. intros rs2. apply yields_bind. intros required. apply yields_bind. intros volumes. done.
Qed.
Lemma guarded_refresh g : at_most capacity g ->
  guarded (refresh_resource_pressure cfg limits)
    (fun r g => at_most capacity g /\ match r with Ok s => at_most (active s) g /\ limit s = capacity | Err _ => True end) g.
Proof.
  intros Hg. unfold refresh_resource_pressure. apply guarded_bind. eapply guards_mono; [|by apply guarded_status].
  intros [s|e] g1; [|done]. intros [H1 [H2 Hlim]]. apply guarded_bind.
  assert (Hmin : at_most (Z.min capacity (active s)) g1) by (destruct H1, H2; split; [done|lia]).
  assert (Hback : forall g, at_most (Z.min capacity (active s)) g -> at_most capacity g /\ at_most (active s) g) by (intros g2 [? ?]; split; split; try done; lia).
  eapply guards_mono; [|apply (guarded_quiet (Z.min capacity (active s)) _ _ ltac:(lia) (saves_record s) Hmin)].
  intros [[]|e] g2 H; [|by destruct (Hback g2 H)]. apply guards_ret. intros g3 Hr. assert (H3 := at_most_stable _ _ _ H Hr). by destruct (Hback g3 H3).
Qed.
(** What is admitted fits. *)
Lemma guarded_admit kind w g : 0 < w -> at_most capacity g ->
  guarded (admit_local_launch float number cfg limits kind w) (fun r g => match r with Ok _ => at_most (capacity - w) g | Err _ => at_most capacity g end) g.
Proof.
  intros Hw Hg. unfold admit_local_launch. apply guarded_bind. eapply guards_mono; [|by apply guarded_refresh].
  intros [s|e] g1; [|by intros [? _]]. intros [H1 [H2 Hlim]]. destruct (pressured s || _) eqn:Hb.
  - destruct (negb (pressured s)); [by apply guarded_throw|]. apply guarded_skip; [apply saves_reclaim| |done|done]. intros _ g2 Hg2.
    apply guarded_skip; [apply saves_note|by intros _ g3 Hg3; apply guarded_throw|done|done].
  - apply orb_false_iff in Hb as [_ Hle%Z.ltb_ge]. apply guards_ret. intros g2 Hr. assert (H3 := at_most_stable _ _ _ H2 Hr).
    assert (H4 := at_most_stable _ _ _ H1 Hr). split; [done|]. destruct H3. split; [done|lia].
Qed.

(** *** The launch *)

Lemma construct_default data f n v : construct data = Ok f -> data !! n = None -> (list_to_map optional_fields : values) !! n = Some v -> f !! n = Some v.
Proof.
  intros Hc Hn Hv. assert (H : (data ∪ list_to_map optional_fields) !! n = Some v) by (by rewrite lookup_union, Hn, Hv).
  revert Hc H. unfold construct. generalize (data ∪ list_to_map optional_fields). intros f'. destruct (_ && _); [|done]. by intros [= ->].
Qed.

Lemma set_env_fields k v r : fields (set_env k v r) = <["env_snapshot" := PDict (dset k v (env_snapshot (fields r)))]> (fields r).
Proof. done. Qed.
Lemma set_env_other k v r n : n <> "env_snapshot"%string -> field n (fields (set_env k v r)) = field n (fields r).
Proof. intros H. rewrite set_env_fields. by apply field_insert_ne. Qed.
Lemma set_env_snapshot k v r : env_snapshot (fields (set_env k v r)) = dset k v (env_snapshot (fields r)).
Proof. unfold env_snapshot at 1. by rewrite set_env_fields, field_insert. Qed.
Lemma set_env_kept k v r : kept_run r -> kept_run (set_env k v r).
Proof.
  intros [Hw (x & Hx)]. split; [apply whole_insert; [done|by apply in_field_names; vm_compute]|].
  exists x. unfold at_version. rewrite set_env_fields. by rewrite lookup_insert_ne.
Qed.
Lemma set_field_kept n v r : n ∈ field_names -> n <> "record_version"%string -> kept_run r -> kept_run (set_field n v r).
Proof. intros Hn Hv [Hw (x & Hx)]. split; [by apply whole_insert|]. exists x. unfold at_version. cbn. by rewrite lookup_insert_ne. Qed.
Lemma set_env_weight k v r : k <> "resource_weight"%string -> run_resource_weight (fields (set_env k v r)) = run_resource_weight (fields r).
Proof. intros H. unfold run_resource_weight, pget_or. rewrite set_env_snapshot. by rewrite dget_dset_ne. Qed.
Lemma set_env_holding k v r : holding (fields (set_env k v r)) = holding (fields r).
Proof. apply same_holding; by apply set_env_other. Qed.

(** The run as the launcher completes it *)
Definition reserved (pid w disk : Z) (run : Run) : Run :=
  set_env "disk_required_bytes" (PInt disk) (set_env "resource_weight" (PInt w) (set_field "preparer_pid" (PInt pid) (set_field "execution_remote" (PBool false) run))).
Lemma reserved_weight pid w disk run : 0 < w -> run_resource_weight (fields (reserved pid w disk run)) = w.
Proof.
  intros Hw. unfold reserved. rewrite set_env_weight by done. unfold run_resource_weight, pget_or. rewrite set_env_snapshot, dget_dset_eq. cbn. by destruct (0 <? w) eqn:H; [|lia].
Qed.
Lemma reserved_kept pid w disk run : kept_run run -> kept_run (reserved pid w disk run).
Proof.
  intros H. unfold reserved. apply set_env_kept, set_env_kept. apply set_field_kept; [by apply in_field_names; vm_compute|done|].
  apply set_field_kept; [by apply in_field_names; vm_compute|done|done].
Qed.
Lemma reserved_key pid w disk run : run_key (fields (reserved pid w disk run)) = run_key (fields run).
Proof. unfold run_key, text, reserved. rewrite !set_env_other by done. cbn. by rewrite !field_insert_ne. Qed.
Lemma reserved_snapshot pid w disk run : field "env_snapshot" (fields run) = PDict [] -> differs (fields (reserved pid w disk run)) (fields run) "env_snapshot" = true.
Proof.
  intros He. unfold differs. rewrite He. destruct (py_eq _ _) eqn:Hd; [|done]. apply truthy_py_eq in Hd. revert Hd. unfold reserved.
  rewrite set_env_fields, field_insert, set_env_snapshot. destruct (env_snapshot _) as [|[k v] d]; cbn; [|repeat (case_decide; cbn)]; done.
Qed.

(** A save under the lock *)
Lemma guarded_save (P : Garden -> Prop) (P' : Run -> Garden -> Prop) r g :
  stable others P -> (forall g, P g -> at_most capacity g) -> (forall r', stable others (P' r')) -> (forall r' g, P' r' g -> at_most capacity g) -> P g ->
  (forall g r' dir d o, P g -> save_locked dir r (runs g !! run_key (fields r)) = Ok (r', d, o) -> P' r' (save_run (run_key (fields r)) d g)) ->
  guarded (invoke (Save r)) (fun x g => match x with Ok r' => P' r' g | Err _ => at_most capacity g end) g.
Proof.
  intros HP HI HP' HI' Hg Hs. unfold invoke. apply (guards_do _ _ _ P); [done|done|done|]. intros x g1 g2 H1 Hh. apply guards_lift. intros g3 Hr. cbn in Hh.
  destruct x as [r'|e].
  - destruct Hh as (dir & d & o & Hsave & ->). assert (H3 := HP' r' _ _ (Hs g1 r' dir d o H1 Hsave) Hr). split; [by eapply HI'|done].
  - subst g2. assert (H3 := HP _ _ H1 Hr). by split; [apply HI|apply HI].
Qed.

Definition fresh_copy (k : string) (w : Z) (r : Run) (g : Garden) : Prop := published capacity k w g /\ copy_of k w r g /\ field "env_snapshot" (fields r) = PDict [].
Lemma fresh_copy_stable k w r : stable others (fresh_copy k w r).
Proof. intros g g' (H1 & H2 & H3) Hr. destruct (published_copy_stable capacity k w r g g' (conj H1 H2) Hr). done. Qed.

Lemma guarded_new_run task_id runner mode run_id status dir w g : 0 < w -> at_most (capacity - w) g ->
  guarded (new_run task_id runner mode run_id status dir) (fun x g => match x with Ok r => exists k, fresh_copy k w r g | Err _ => at_most capacity g end) g.
Proof.
  intros Hw Hg. assert (Hweak : forall g, at_most (capacity - w) g -> at_most capacity g) by (intros g0 [? ?]; split; [done|lia]).
  assert (Hskip : forall A B (p : rprog A) (f : A -> rprog B) (Q : result reserr B -> Garden -> Prop) g, only saves_no_run p -> at_most (capacity - w) g ->
      (forall a g, at_most (capacity - w) g -> guarded (f a) Q g) -> (forall e g, at_most capacity g -> Q (Err e) g) -> guarded (p ≫= f) Q g).
  { intros A B p f Q g1 Hp H1 Hf He. apply guarded_bind. eapply guards_mono; [|apply (guarded_quiet (capacity - w) p); [lia|done|done]].
    intros [a|e] g2 H2; [by apply Hf|by apply He, Hweak]. }
  unfold new_run. apply Hskip; [destruct (nonempty run_id); only_auto|done| |done]. intros rid g1 H1.
  apply Hskip; [only_auto|done| |done]. intros started g2 H2.
  apply guarded_bind. apply guards_lift. intros g3 Hr. assert (H3 := at_most_stable _ _ _ H2 Hr). split; [by apply Hweak|]. clear g1 H1 g2 H2 Hr.
  destruct (construct _) as [f|e] eqn:Hf; [|by apply Hweak].
  set (f' := if bool_decide (runner = "remote") then _ else f).
  destruct (construct_whole _ _ Hf) as [Hwf _].
  assert (Hf' : whole f' /\ f' !! "record_version" = f !! "record_version" /\ field "env_snapshot" f' = field "env_snapshot" f).
  { unfold f'. destruct (bool_decide _); [|split; [exact Hwf|split; reflexivity]]. split; [apply whole_insert; [exact Hwf|apply in_field_names; vm_compute; reflexivity]|]. split; [apply lookup_insert_ne; discriminate|apply field_insert_ne; discriminate]. }
  destruct Hf' as (Hw' & Hv' & He'). 
  assert (Hdef : forall n v, bool_decide ((n ∉ ["task_id"; "run_id"; "dir"; "runner"; "mode"; "status"; "started_at"]%string) /\ (list_to_map optional_fields : values) !! n = Some v) = true -> f !! n = Some v).
  { intros n v [Hn Hv]%bool_decide_eq_true. by apply (construct_default _ f n v Hf), Hv; apply not_elem_of_list_to_map_1. }
  assert (Hv := Hdef "record_version"%string (PInt 0) ltac:(vm_compute; reflexivity)). assert (He := Hdef "env_snapshot"%string (PDict []) ltac:(vm_compute; reflexivity)). clear Hdef.
  assert (Hempty : field "env_snapshot" f' = PDict []) by (rewrite He'; unfold field; by rewrite He).
  eapply guards_mono; [|apply (guarded_save (at_most (capacity - w)) (fresh_copy (run_key f') w)); [apply at_most_stable|done|apply fresh_copy_stable|..]].
  - intros [r|e] g4 H4; [by exists (run_key f')|done].
  - intros r g4 (H4 & _). by apply (published_at_most _ _ _ _ H4).
  - done.
  - intros g4 r' d0 d o H4 Hs.
    assert (Hk : kept_run {| fields := f'; RunRecords.loaded := None |}) by (split; [exact Hw'|exists 0; unfold at_version; cbn [fields]; by rewrite Hv']).
    assert (H1 : run_resource_weight (fields {| fields := f'; RunRecords.loaded := None |}) = 1) by (cbn [fields]; unfold run_resource_weight, env_snapshot; by rewrite Hempty).
    destruct (first_save capacity w d0 _ r' d o g4 H4 Hw Hk eq_refl H1 Hs) as (Ha & Hb & Hc). split; [exact Ha|]. split; [exact Hb|]. rewrite Hc. exact Hempty.
Qed.

Lemma guarded_complete k w r g pid disk : fresh_copy k w r g ->
  guarded (invoke (Save (reserved pid w disk r)))
    (fun x g => match x with Ok r' => published capacity k w g /\ copy_of k w r' g | Err _ => at_most capacity g end) g.
Proof.
  intros Hg. eapply guards_mono; [|apply (guarded_save (fresh_copy k w r) (fun r' g => published capacity k w g /\ copy_of k w r' g));
    [apply fresh_copy_stable| |intros r'; apply published_copy_stable| |exact Hg|]]; [done|by intros g1 (H & _); eapply published_at_most|by intros r' g1 [H _]; eapply published_at_most|].
  intros g1 r' dir d o (H1 & (Hk & Hkey & Hb & _) & He) Hs. assert (Hw : 0 < w) by apply H1. rewrite reserved_key, Hkey in *. subst k.
  rewrite <- (reserved_key pid w disk r) in *. apply (next_save capacity w dir _ (fields r) r' d o g1); [done|by apply reserved_kept|done| |exact Hs].
  left. split; [by apply reserved_snapshot|by rewrite reserved_weight].
Qed.
(** The note on the space that its siblings need *)
Lemma guarded_note k w r g total : published capacity k w g /\ copy_of k w r g ->
  guarded (invoke (Save (set_env "disk_recheck_required_bytes" (PInt total) r))) (fun _ g => at_most capacity g) g.
Proof.
  intros Hg. eapply guards_mono; [|apply (guarded_save (fun g => published capacity k w g /\ copy_of k w r g) (fun r' g => published capacity k w g /\ copy_of k w r' g));
    [apply published_copy_stable| |intros r'; apply published_copy_stable| |exact Hg|]].
  - intros [r'|e] g1 H; [|done]. destruct H as [H _]. by eapply published_at_most.
  - intros g1 [H _]. by eapply published_at_most.
  - intros r' g1 [H _]. by eapply published_at_most.
  - intros g1 r' dir d o (H1 & Hk & Hkey & Hb & Hh & Hc) Hs.
    assert (Hkey' : run_key (fields (set_env "disk_recheck_required_bytes" (PInt total) r)) = k) by (unfold run_key, text; rewrite set_env_other by done; exact Hkey).
    rewrite Hkey' in Hs |- *. rewrite <- Hkey' in Hs, H1, Hc |- *. apply (next_save capacity w dir _ (fields r) r' d o g1); [done|by apply set_env_kept|done| |exact Hs].
    right. split_and!.
    + intros f Hf. unfold differs. rewrite set_env_other by (intros ->; rewrite !elem_of_cons, elem_of_nil in Hf; naive_solver). by rewrite py_eq_refl.
    + by rewrite set_env_holding, set_env_weight.
    + intros v Hv. rewrite set_env_weight by done. by apply Hc.
Qed.

Lemma guarded_launch task_id mode kind run_id runner weight dir g : (forall w, weight = Some w -> 0 < w) -> at_most capacity g ->
  guarded (new_local_run task_id mode kind run_id runner weight dir) (fun _ g => at_most capacity g) g.
Proof.
  intros Hweight Hg. unfold Resources.new_local_run. apply guarded_skip; [only_auto| |done|done]. intros _ g1 H1.
  assert (Hpos : yields (fun w => 0 < w) (match weight with Some w => Ret w | None => lift_exn (resource_weight product_section default_weight tasks task_id) end : rprog Z)).
  { destruct weight as [w|]; [by apply Hweight|]. unfold lift_exn. destruct (resource_weight _ _ _ _) as [w|e] eqn:Hw; cbn; [|done]. revert Hw. apply resource_weight_pos. }
  apply guarded_bind. eapply guards_mono; [|apply (guarded_frame capacity (fun w => 0 < w)); [lia|destruct weight; unfold lift_exn; only_auto|exact Hpos|exact H1]].
  clear g1 H1 Hpos. intros [w|e] g1 [H1 Hw]; [|done]. apply guarded_bind. eapply guards_mono; [|by apply guarded_admit].
  clear g1 H1. intros [[]|e] g1 H1; [|done]. apply guarded_bind. eapply guards_mono; [|by apply (guarded_new_run _ _ _ _ _ _ w)].
  clear g1 H1. intros [r|e] g1 H1; [|done]. destruct H1 as (k & H1).
  apply (guards_do _ _ _ (fresh_copy k w r)); [apply fresh_copy_stable|by intros g2 (H & _); eapply published_at_most|done|].
  intros pid g2 g3 H2 ->. apply guarded_bind. eapply guards_mono; [|by apply (guarded_complete k w r)].
  intros [r'|e] g4 H4; [|done]. apply guarded_bind. unfold local_runs.
  assert (Hfr : forall A (p : rprog A) g, only saves_no_run p -> published capacity k w g /\ copy_of k w r' g ->
    guarded p (fun _ g => published capacity k w g /\ copy_of k w r' g) g).
  { intros A p g5 Hp H5. apply guards_frame; [apply published_copy_stable|by intros g6 [H _]; eapply published_at_most| |done].
    eapply only_impl; [|exact Hp]. intros R c Hc g6 x g7. unfold published, copy_of, records_ok, extra. intros H6 Hh. by destruct (no_save_runs R c g6 x g7 Hc Hh) as (-> & -> & ->). }
  eapply guards_mono; [|apply Hfr; [only_auto|exact H4]]. intros [rs|e] g5 H5; [|by eapply published_at_most, (proj1 H5)].
  apply guarded_bind. eapply guards_mono; [|apply Hfr; [unfold lift_exn; only_auto|exact H5]]. intros [total|e] g6 H6; [|by eapply published_at_most, (proj1 H6)].
  by apply (guarded_note k w).
Qed.
Lemma guarded_section p g : sections p -> at_most capacity g -> guarded p (fun _ g => at_most capacity g) g.
Proof.
  assert (Hret : forall x g, at_most capacity g -> guarded (Ret x : rprog ()) (fun _ g => at_most capacity g) g).
  { intros x g1 H1 g2 Hr. assert (H2 := at_most_stable _ _ _ H1 Hr). done. }
  intros [task_id mode kind run_id runner weight dir Hw|op paths|op|] Hg.
  - apply guarded_bind. eapply guards_mono; [|by apply guarded_launch]. intros [r|e] g1 H1; [by apply Hret|done].
  - apply (guarded_quiet capacity); [done| |done]. unfold recheck_local_materialization, deferred. only_auto.
  - apply (guarded_quiet capacity); [done| |done]. unfold local_staging_admission, deferred. only_auto.
  - apply (guarded_quiet capacity); [done| |done]. unfold try_reclaim_for_pending_local_launch. only_auto. apply saves_reclaim.
Qed.

(** C27.  (Invariant.)  The admission never gives out more than the capacity of the machine.  Any number of processes launch local runs, check storage again before they
    write, stage files and try to reclaim memory, each under the admission lock and each killed at any moment; meanwhile others change runs, finish them, fail them, and begin runs
    of their own without the lock, as the launch of a recovery and rebases do.  At every moment the weights of the runs that hold capacity, of the half published ones too, are at
    most [resources.max_parallel] and the weights of the runs that began without the lock ([extra]: each counted in full when it begins or grows, whatever becomes of it later). *)
Theorem capacity_respected x y :
  rtc (shared_step handle others sections (fun _ => True)) x y -> under_way x = None -> at_most capacity (contents x) -> load (contents y) <= capacity + extra (contents y).
Proof.
  intros Hxy Hx Hm. assert (H := sections_keep handle others sections (fun _ => True) (at_most capacity) (at_most capacity) x y (at_most_stable _) (fun s H _ => H) guarded_section Hxy Hx Hm).
  by destruct (under_way y), H.
Qed.
End sections.

(** ** A machine that answers exactly *)

Module Machine.
Section answers.
Context (gauges : Gauges) (probes : list probe).

Definition answer (R : Type) (c : rcmd R) (g : Garden) : R * Garden :=
  match c in rcmd R return R * Garden with
  | Invalidate | SetStorageCache _ _ | SetControl _ | SaveState => (tt, g)
  | ActiveRuns => (map (fun kv => <["dir" := PStr kv.1]> kv.2) (List.filter (fun kv => is_active kv.2) (map_to_list (runs g))), g)
  | ReadGauges _ => (gauges, g)
  | Monotonic | Time => (1000%Q, g)
  | StorageCache => (None, g)
  | Probes _ => ((probes, None), g)
  | GetControl => ([], g)
  | ControllerGroup => (Some "/sys/fs/cgroup/garden"%string, g)
  | MemoryStat _ => (Some [("inactive_file"%string, 10000000)], g)
  | ReadReclaim => (reclaim_file g, g)
  | ReadReport => (report_file g, g)
  | WriteReclaim r => (Ok tt, set_reclaim r g)
  | PidAlive pid t => (bool_decide (helpers g !! pid = Some t), g)
  | KillGroup pid => (tt, set_helpers (delete pid (helpers g)) g)
  | StatGroup _ => (Ok (1, 2), g)
  | UnlinkReport => (Ok tt, set_report None g)
  | Uuid => let t := fresh (tokens g) in (t, add_token t g)
  | Popen _ _ _ t _ _ => let pid := fresh (dom (helpers g)) in (Ok pid, set_helpers (<[pid := t]> (helpers g)) g)
  | NextRunId _ _ => (("run-" ++ show (Z.of_nat (size (runs g))))%string, g)
  | Now => ("2026-01-01T00:00:00+00:00"%string, g)
  | Getpid => (42, g)
  | Save r => match save_locked (run_key (fields r)) r (runs g !! run_key (fields r)) with
      | Ok (r', d, _) => (Ok r', save_run (run_key (fields r)) d g)
      | Err e => (Err (SaveError e), g)
      end
  end.
Lemma answer_handle R (c : rcmd R) g : handle R c g (answer R c g).1 (answer R c g).2.
Proof.
  destruct c; cbn; try done.
  - split; [|done]. intros k v Hv Hh. destruct (same_fields (<["dir" := PStr k]> v) v) as [H1 H2].
    { intros n Hn. by apply field_insert_ne, unmerged_dir. }
    exists (<["dir" := PStr k]> v). split_and!; [|unfold run_key, text; by rewrite field_insert|by rewrite H1|lia].
    apply list_elem_of_fmap. exists (k, v). split; [done|]. apply list_elem_of_In, filter_In. split; [by apply list_elem_of_In, elem_of_map_to_list|].
    revert Hh. unfold holding. by intros [[? _]%andb_true_iff _]%andb_true_iff.
  - split; [|done]. intros H. by apply bool_decide_eq_true.
  - split; [apply is_fresh|done].
  - split; [|done]. apply not_elem_of_dom, is_fresh.
  - destruct (save_locked _ _ _) as [[[r' d] o]|e] eqn:Hs; [|done]. by exists (run_key (fields r)), d, o.
Qed.
End answers.

Definition plenty : Gauges :=
  {| host_memory := Some 8000; controller_events := []; controller_memory := None; execution_memory := None; execution_events := []; temp_free := Some 9000 |}.
(** The group of the controller is short of memory, the host is not. *)
Definition short : Gauges :=
  {| host_memory := Some 8000; controller_events := []; controller_memory := Some 100; execution_memory := None; execution_events := []; temp_free := Some 9000 |}.
Definition limits : Limits :=
  {| min_memory_available_mb := 500; min_temp_free_mb := 100; disk_reserve_bytes := 1000; operation_required_bytes := 50; execution_cgroup := ""; reclaim_max_mb := 512;
     reclaim_timeout_seconds := 5; reclaim_cooldown_seconds := 300 |}.
Definition number (q : Q) : pyval := PScalar "" "" true None.
Definition float (v : pyval) : result exn Q := Ok 0%Q.
Definition empty_garden : Garden := {| runs := ∅; reclaim_file := None; report_file := None; helpers := ∅; tokens := ∅; admitted := ∅; outside := [] |}.
Definition probes : list probe := [Some (7, 5000); Some (7, 5000); Some (8, 2000)].
Definition launch (weight : Z) : rprog Run :=
  new_local_run float number Dispatch.Garden.cfg limits (fun _ => []) (PInt 1) [] "A-1" "work" "work" "" "local" (Some weight) (fun i => ("runs/" ++ i)%string).
Definition section (weight : Z) : rprog () := _ ← launch weight; Ret ().
Definition after (weight : Z) (g : Garden) : Garden := (run (answer plenty probes) (section weight) g).2.
Definition at_rest (g : Garden) : @Shared rcmd reserr Garden := {| contents := g; under_way := None |}.
(** The garden with capacity 4 takes a run of weight 3, refuses one of weight 2, and takes one of weight 1. *)
Example capacity_is_used : map (fun g => load g) [after 3 empty_garden; after 2 (after 3 empty_garden); after 1 (after 3 empty_garden)] = [3; 3; 4].
Proof. vm_compute. reflexivity. Qed.
Example refusal_names_capacity :
  match (run (answer plenty probes) (launch 2) (after 3 empty_garden)).1 with
  | Err (ResourcePressureError m) => bool_decide (m = "work needs 2 capacity unit(s) and waits for a local execution slot (3/4 in use); eligible work dispatches automatically when one finishes"%string)
  | _ => false
  end = true.
Proof. vm_compute. reflexivity. Qed.
(** A path that cannot be inspected keeps everything from starting. *)
Example unknown_volume_refused :
  match (run (answer plenty [Some (7, 5000); None]) (launch 1) empty_garden).1 with Err (ResourcePressureError m) => contains "measurement unavailable" m | _ => false end = true.
Proof. vm_compute. reflexivity. Qed.

(** The launch of a recovery reserves its run without the admission lock, and holds capacity that nobody has admitted. *)
Definition recovery : rprog () := _ ← reserve_recovery_launch [] "B-1" "" "key" "" 42 (fun i => ("runs/" ++ i)%string); Ret ().
Lemma recovery_launch_exceeds_capacity :
  let full := after 1 (after 3 empty_garden) in
  load full = resource_parallel_limit Dispatch.Garden.cfg /\ load (run (answer plenty probes) recovery full).2 = 5.
Proof. split; vm_compute; reflexivity. Qed.

(** So does the run of a rebase, which the controller makes for itself. *)
Definition full : Garden := after 1 (after 3 empty_garden).
Definition rebase_run : rprog () := _ ← new_run "C-1" "local" "rebase" "" "running" (fun i => ("runs/" ++ i)%string); Ret ().
Lemma rebase_exceeds_capacity : load full = resource_parallel_limit Dispatch.Garden.cfg /\ load (run (answer plenty probes) rebase_run full).2 = 5.
Proof. split; vm_compute; reflexivity. Qed.

(** Others begin that run, as a step of theirs. *)
Definition sound (d : values) : bool :=
  forallb (fun n => bool_decide (is_Some (d !! n))) field_names && bool_decide (map_Forall (fun n _ => n ∈ field_names) d)
  && match d !! "record_version" with Some (PInt v) => 0 <? v | _ => false end.
Lemma sound_well_formed d : sound d = true -> well_formed d.
Proof.
  unfold sound. intros [[Hall Hin%bool_decide_eq_true]%andb_true_iff Hv]%andb_true_iff. split.
  - intros n. split; [intros [v Hn]; by apply (Hin n v)|]. intros Hn. apply list_elem_of_In in Hn. rewrite forallb_forall in Hall. by apply Hall, bool_decide_eq_true in Hn.
  - destruct (d !! "record_version") as [[| |v| | | |]|]; try done. exists v. split; [done|lia].
Qed.
Lemma sound_records g : forallb (fun kv => sound kv.2) (map_to_list (runs g)) = true -> records_ok g.
Proof. rewrite forallb_forall. intros H k v Hv. apply sound_well_formed, (H (k, v)), list_elem_of_In. by apply elem_of_map_to_list. Qed.
Lemma begin_outside k v g : records_ok g -> well_formed v -> k ∉ admitted g -> others1 g (add_outside [(k, v)] (set_runs (<[k := v]> (runs g)) g)).
Proof.
  intros Hr Hv Hk. apply o_runs.
  - intros k' v' [[_ <-]|[_ H]]%lookup_insert_Some; [done|by apply (Hr k')].
  - intros k' v' [[<- <-]|[_ H]]%lookup_insert_Some Hh; [right; by left|left; by exists v'].
  - intros kv ->%list_elem_of_singleton. exact Hk.
Qed.
Definition rebase_record : values := default ∅ (runs (run (answer plenty probes) rebase_run full).2 !! "runs/run-2"%string).
Definition crowded : Garden := add_outside [("runs/run-2"%string, rebase_record)] (set_runs (<["runs/run-2"%string := rebase_record]> (runs full)) full).
Lemma full_crowded : others1 full crowded.
Proof.
  apply begin_outside; [apply sound_records|apply sound_well_formed|apply (bool_decide_unpack ("runs/run-2"%string ∉ admitted full))]; vm_compute; done.
Qed.

Definition reclaiming : rprog () := _ ← try_reclaim_for_pending_local_launch float number Dispatch.Garden.cfg limits; Ret ().
Definition reclaimed : Garden := (run (answer short probes) reclaiming empty_garden).2.
Example one_helper_started : size (helpers reclaimed) = 1%nat /\ size (helpers (run (answer short probes) reclaiming reclaimed).2) = 1%nat.
Proof. split; vm_compute; reflexivity. Qed.
(** A process that is killed between the start of a helper and its record leaves a helper of which the next section does not know. *)
Example untracked_helper_is_doubled :
  let lost := {| runs := runs reclaimed; reclaim_file := None; report_file := None; helpers := helpers reclaimed; tokens := tokens reclaimed; admitted := admitted reclaimed; outside := [] |} in
  size (helpers (run (answer short probes) reclaiming lost).2) = 2%nat.
Proof. vm_compute. reflexivity. Qed.
End Machine.

(** Two launches fill the garden; then others begin a rebase without the lock. *)
Lemma capacity_respected_witness :
  load Machine.full = 4 /\ load Machine.crowded = 5 /\ load Machine.crowded <= resource_parallel_limit Dispatch.Garden.cfg + extra Machine.crowded.
Proof.
  split; [vm_compute; reflexivity|]. split; [vm_compute; reflexivity|].
  assert (Hs : forall w g, 0 < w -> rtc (shared_step handle others (sections Machine.float Machine.number Dispatch.Garden.cfg Machine.limits (fun _ => []) (PInt 1) []) (fun _ => True))
      (Machine.at_rest g) (Machine.at_rest (Machine.after w g))).
  { intros w g Hw. unfold Machine.at_rest, Machine.after. apply (run_section handle others); [apply Machine.answer_handle|]. unfold Machine.section, Machine.launch. apply launches. by intros w' [= <-]. }
  apply (capacity_respected Machine.float Machine.number Dispatch.Garden.cfg Machine.limits (fun _ => []) (PInt 1) [] (Machine.at_rest Machine.empty_garden) (Machine.at_rest Machine.crowded)); [|done|].
  - etransitivity; [exact (Hs 3 Machine.empty_garden eq_refl)|]. etransitivity; [exact (Hs 1 (Machine.after 3 Machine.empty_garden) eq_refl)|].
    apply rtc_once. apply (step_others handle others _ _ (Machine.at_rest Machine.full)). apply rtc_once, Machine.full_crowded.
  - split; [intros k v; cbn; by rewrite lookup_empty|]. by vm_compute.
Defined.
