(* ===== verification/ReclaimSafety.v ===== *)
(** * One reclaim helper at a time ([scheduler/resources.py])

    The helper is a detached process.  Who starts it writes its pid and its token into [resource-reclaim.json], under the admission lock; it ends by writing a report with
    its token.  The sections of [ResourceSafety] keep that every helper is the one that is recorded as running. *)

From Stdlib Require Import QArith.
From S2P Require Import Prelude PyValue Requirements StateStore RunRecords RunIndex WorkerLease TaskModel Graph Effects Shared DispatchQueue Resources ResourceSafety.

#[local] Open Scope list_scope.
#[local] Open Scope Z_scope.

(** ** What is known of helpers and reports *)

(** Tokens are issued once; who has reported is gone. *)
Record known_tokens (g : Garden) : Prop := {
  helper_token pid t : helpers g !! pid = Some t -> t ∈ tokens g;
  report_token r t : report_file g = Some r -> pget "token" r = PStr t -> t ∈ tokens g /\ forall pid, helpers g !! pid <> Some t }.
Definition unique_helper (g : Garden) : Prop := forall p q s t, helpers g !! p = Some s -> helpers g !! q = Some t -> p = q.
(** The helper that a state of the file describes *)
Definition describes (st : row) (pid : Z) (t : string) : Prop := running st = true /\ pget "pid" st = PInt pid /\ pget "token" st = PStr t.
Definition recorded (g : Garden) : Prop := forall pid t, helpers g !! pid = Some t -> exists st, reclaim_file g = Some st /\ describes st pid t.

Definition at_most_one (g : Garden) : Prop := known_tokens g /\ unique_helper g.
Definition tracked (g : Garden) : Prop := known_tokens g /\ recorded g.
Definition idle (g : Garden) : Prop := known_tokens g /\ helpers g = ∅.
Definition only_helper (pid : Z) (t : string) (g : Garden) : Prop := known_tokens g /\ forall p s, helpers g !! p = Some s -> p = pid /\ s = t.
(** What [st] says of the file and the helpers *)
Definition read_as (st : row) (g : Garden) : Prop := tracked g /\ (running st = true -> reclaim_file g = Some st) /\ (running st = false -> helpers g = ∅).

Lemma tracked_unique g : tracked g -> at_most_one g.
Proof.
  intros [Hk Hr]. split; [done|]. intros p q s t Hp Hq. destruct (Hr p s Hp) as (st & Hst & _ & Hpid & _). destruct (Hr q t Hq) as (st' & Hst' & _ & Hqid & _). congruence.
Qed.
Lemma idle_tracked g : idle g -> tracked g.
Proof. intros [Hk He]. split; [done|]. intros pid t. by rewrite He, lookup_empty. Qed.
Lemma only_helper_unique pid t g : only_helper pid t g -> at_most_one g.
Proof. intros [Hk Ho]. split; [done|]. intros p q s u Hp Hq. destruct (Ho _ _ Hp), (Ho _ _ Hq). congruence. Qed.
Lemma read_as_idle st g : read_as st g -> running st = false -> idle g.
Proof. intros ([Hk _] & _ & He) Hr. split; [done|auto]. Qed.

(** Fewer helpers, and no report but that of a helper that is gone *)
Record fewer (g g' : Garden) : Prop := {
  f_tokens : tokens g ⊆ tokens g';
  f_helpers : helpers g' ⊆ helpers g;
  f_file : reclaim_file g' = reclaim_file g;
  f_report r t : report_file g' = Some r -> pget "token" r = PStr t -> (exists r0, report_file g = Some r0 /\ pget "token" r0 = PStr t) \/
    ((exists pid, helpers g !! pid = Some t) /\ forall pid, helpers g' !! pid <> Some t) }.
Lemma f_lookup g g' p s : fewer g g' -> helpers g' !! p = Some s -> helpers g !! p = Some s.
Proof. intros Hf Hp. eapply lookup_weaken; [exact Hp|apply (f_helpers _ _ Hf)]. Qed.
Lemma fewer_known g g' : fewer g g' -> known_tokens g -> known_tokens g'.
Proof.
  intros Hfew [H1 H2]. destruct (Hfew) as [Ht _ _ Hr]. split.
  - intros pid t Hp. apply Ht, (H1 pid). by apply (f_lookup g g').
  - intros r t Hf Hp. destruct (Hr r t Hf Hp) as [(r0 & Hf0 & Hp0)|[(pid & Hpid) Hgone]].
    + destruct (H2 r0 t Hf0 Hp0) as [Hi Hn]. split; [by apply Ht|]. intros pid Hpid. apply (Hn pid). by apply (f_lookup g g').
    + split; [|done]. by apply Ht, (H1 pid).
Qed.
Lemma fewer_at_most_one g g' : fewer g g' -> at_most_one g -> at_most_one g'.
Proof. intros Hf [Hk Hu]. split; [by eapply fewer_known|]. intros p q s t Hp Hq. apply (Hu p q s t); by apply (f_lookup g g'). Qed.
Lemma fewer_recorded g g' : fewer g g' -> recorded g -> recorded g'.
Proof. intros Hf Hr pid t Hp. rewrite (f_file _ _ Hf). apply Hr. by apply (f_lookup g g'). Qed.
Lemma fewer_tracked g g' : fewer g g' -> tracked g -> tracked g'.
Proof. intros Hf [Hk Hr]. split; [by eapply fewer_known|by eapply fewer_recorded]. Qed.
Lemma fewer_none g g' : fewer g g' -> helpers g = ∅ -> helpers g' = ∅.
Proof. intros Hf He. apply map_eq. intros p. rewrite lookup_empty. destruct (helpers g' !! p) eqn:Hp; [|done]. apply (f_lookup g) in Hp; [|done]. by rewrite He, lookup_empty in Hp. Qed.
Lemma fewer_idle g g' : fewer g g' -> idle g -> idle g'.
Proof. intros Hf [Hk He]. split; [by eapply fewer_known|by eapply fewer_none]. Qed.
Lemma fewer_only pid t g g' : fewer g g' -> only_helper pid t g -> only_helper pid t g'.
Proof. intros Hf [Hk Ho]. split; [by eapply fewer_known|]. intros p s Hp. apply Ho. by apply (f_lookup g g'). Qed.
Lemma fewer_read_as st g g' : fewer g g' -> read_as st g -> read_as st g'.
Proof. intros Hf (Ht & H1 & H2). split; [by eapply fewer_tracked|]. rewrite (f_file _ _ Hf). split; [done|]. intros Hr. apply (fewer_none g); [done|auto]. Qed.

(** Others only do that. *)
Lemma others_fewer g g' : unique_helper g -> others1 g g' -> fewer g g'.
Proof.
  intros Hu [m begun _ _ _|pid t r Hp Hr|pid]; split; cbn; try done.
  - intros r t Hf Ht. left. by exists r.
  - apply delete_subseteq.
  - intros r0 t0 [= <-] Ht. right. assert (t0 = t) as -> by congruence. split; [by exists pid|]. intros q [Hq Hq']%lookup_delete_Some. apply Hq. by apply (Hu pid q t t).
  - apply delete_subseteq.
  - intros r t Hf Ht. left. by exists r.
Qed.
Lemma stable_of (P : Garden -> Prop) : (forall g, P g -> at_most_one g) -> (forall g g', fewer g g' -> P g -> P g') -> stable others P.
Proof. intros Hu Hf. apply stable_rtc. intros g g' Hg Ho. apply (Hf g); [|done]. apply others_fewer; [|done]. by apply Hu. Qed.

(** And so do commands that neither write the file of the helper nor start one. *)
Definition starts_none (R : Type) (c : rcmd R) : Prop := match c with WriteReclaim _ | Popen _ _ _ _ _ _ => False | _ => True end.
Lemma handle_fewer R (c : rcmd R) g r g' : starts_none R c -> handle R c g r g' -> fewer g g'.
Proof.
  intros Hc Hh. assert (Hrefl : fewer g g) by (split; [done|done|done|intros r0 t Hf Ht; left; by exists r0]).
  destruct c; cbn in Hc, Hh; try done; try (subst; exact Hrefl); try (destruct Hh; subst; exact Hrefl).
  - subst. split; cbn; [done|apply delete_subseteq|done|]. intros rr t Hf Ht. left. by exists rr.
  - destruct r as [[]|e]; subst; [|done]. by split.
  - destruct Hh as [_ ->]. split; cbn; [set_solver|done|done|]. intros rr t Hf Ht. left. by exists rr.
  - destruct r as [r'|e]; [|by subst]. destruct Hh as (dir & d & o & _ & ->). split; cbn; [done|done|done|]. intros rr t Hf Ht. left. by exists rr.
Qed.

(** ** Sections *)

Section sections.
Context (float : pyval -> result exn Q) (number : Q -> pyval).
Context (cfg : Config) (limits : Limits) (product_section : string -> row) (default_weight : pyval) (tasks : tasks_t).
#[local] Abbreviation start_reclaim := (start_reclaim_if_eligible float number limits).
#[local] Abbreviation reconcile := (reconcile_reclaim_state float number limits).
#[local] Abbreviation guarded := (guards handle others at_most_one).

(** An assertion that lasts while nobody starts a helper or writes the file *)
Record lasting (P : Garden -> Prop) : Prop := { l_one g : P g -> at_most_one g; l_fewer g g' : fewer g g' -> P g -> P g' }.
Lemma lasting_stable P : lasting P -> stable others P.
Proof. intros [H1 H2]. by apply stable_of. Qed.
Lemma tracked_lasting : lasting tracked.
Proof. split; [apply tracked_unique|apply fewer_tracked]. Qed.
Lemma idle_lasting : lasting idle.
Proof. split; [intros g Hg; by apply tracked_unique, idle_tracked|apply fewer_idle]. Qed.
Lemma read_as_lasting st : lasting (read_as st).
Proof. split; [intros g [Hg _]; by apply tracked_unique|apply fewer_read_as]. Qed.
Lemma only_lasting pid t : lasting (only_helper pid t).
Proof. split; [apply only_helper_unique|apply fewer_only]. Qed.

Lemma helper_bind {A B} (f : A -> rprog B) (p : rprog A) Q g :
  guarded p (fun r g => match r with Ok a => guarded (f a) Q g | Err e => Q (Err e) g end) g -> guarded (p ≫= f) Q g.
Proof. apply (guards_bind handle others). Qed.
Lemma guarded_end {A} (P : Garden -> Prop) (r : result reserr A) (Q : result reserr A -> Garden -> Prop) g :
  lasting P -> (forall g, P g -> Q r g) -> P g -> guarded (match r with Ok a => Ret a | Err e => Throw e end) Q g.
Proof. intros Hl HQ Hg. destruct r; intros g1 Hr; assert (H1 := lasting_stable P Hl _ _ Hg Hr); (split; [by apply (l_one P Hl)|auto]). Qed.
Lemma guarded_ret {A} (P : Garden -> Prop) (a : A) (Q : result reserr A -> Garden -> Prop) g : lasting P -> (forall g, P g -> Q (Ok a) g) -> P g -> guarded (Ret a) Q g.
Proof. exact (guarded_end P (Ok a) Q g). Qed.
Lemma helper_throw {A} (P : Garden -> Prop) e (Q : result reserr A -> Garden -> Prop) g : lasting P -> (forall g, P g -> Q (Err e) g) -> P g -> guarded (Throw e) Q g.
Proof. exact (guarded_end P (Err e) Q g). Qed.
Lemma helper_frame {A} (P : Garden -> Prop) (p : rprog A) g : lasting P -> only starts_none p -> P g -> guarded p (fun _ g => P g) g.
Proof.
  intros Hl Hp Hg. apply guards_frame; [by apply lasting_stable|apply (l_one P Hl)| |done]. eapply only_impl; [|exact Hp].
  intros R c Hc g1 r g2 H1 Hh. apply (l_fewer P Hl g1); [|done]. by apply (handle_fewer R c g1 r).
Qed.
(** Before the rest *)
Lemma helper_skip {A B} (P : Garden -> Prop) (p : rprog A) (f : A -> rprog B) (Q : result reserr B -> Garden -> Prop) g :
  lasting P -> only starts_none p -> (forall a g, P g -> guarded (f a) Q g) -> (forall e g, P g -> Q (Err e) g) -> P g -> guarded (p ≫= f) Q g.
Proof.
  intros Hl Hp Hf He Hg. apply helper_bind. eapply guards_mono; [|by apply (helper_frame P p)]. intros [a|e] g1 H1; auto.
Qed.
Lemma guarded_value {A B} (a : A) (f : A -> rprog B) (Q : result reserr B -> Garden -> Prop) g : guarded (f a) Q g -> guarded (lift_exn (Ok a) ≫= f) Q g.
Proof. done. Qed.
(** A command with an assertion before it and one after it *)
Lemma guarded_step {A R} (P : Garden -> Prop) (c : rcmd R) (k : R -> rprog A) Q g :
  lasting P -> P g -> (forall r g1 g2, P g1 -> handle R c g1 r g2 -> guarded (k r) Q g2) -> guarded (r ← do_ c; k r) Q g.
Proof. intros Hl Hg Hk. apply (guards_do _ _ _ P); [by apply lasting_stable|apply (l_one P Hl)|done|done]. Qed.

(** *** What the files say *)

Lemma idle_write r g : idle g -> idle (set_reclaim r g).
Proof. intros [[H1 H2] He]. split; [split; cbn; [exact H1|exact H2]|done]. Qed.
Lemma guarded_write r g : idle g -> guarded (invoke (WriteReclaim r)) (fun _ g => idle g) g.
Proof.
  intros Hg. unfold invoke. apply (guarded_step idle); [apply idle_lasting|done|]. intros x g1 g2 H1 Hh. cbn in Hh.
  assert (H2 : idle g2) by (destruct x as [[]|[]]; try done; subst; [by apply idle_write|done]).
  unfold lift. apply (guarded_end idle); [apply idle_lasting|done|done].
Qed.

(** The helper that is recorded is the only one. *)
Lemma read_as_helper st g pid t : read_as st g -> helpers g !! pid = Some t -> describes st pid t.
Proof.
  intros ([Hk Hr] & Hf & He) Hp. destruct (Hr pid t Hp) as (st' & Hst & Hd). destruct (running st) eqn:Hrun; [by assert (st' = st) as -> by (rewrite Hf in Hst; congruence)|].
  by rewrite He, lookup_empty in Hp.
Qed.
Lemma read_file g : tracked g -> read_as (default [] (reclaim_file g)) g.
Proof.
  intros Hg. split; [done|]. destruct (reclaim_file g) as [st|] eqn:Hf; cbn; (split; [done|]); intros Hrun; apply map_empty; intros pid; destruct (helpers g !! pid) as [t|] eqn:Hp; try done;
    destruct (proj2 Hg pid t Hp) as (st' & Hst & Hd & _); congruence.
Qed.
Lemma reported_idle st r g : read_as st g -> report_file g = Some r -> reported st (Some r) = true -> helpers g = ∅.
Proof.
  intros Hg Hf [_ Ht]%andb_true_iff. apply map_empty. intros pid. destruct (helpers g !! pid) as [t|] eqn:Hp; [|done].
  destruct (read_as_helper st g pid t Hg Hp) as (_ & _ & Htok). rewrite Htok in Ht. assert (pget "token" r = PStr t) as Hr.
  { revert Ht. unfold py_eq. rewrite bool_decide_eq_true. destruct (pget "token" r); cbn; try done; congruence. }
  destruct Hg as [[Hk _] _]. by destruct (report_token g Hk r t Hf Hr) as [_ Hn]; destruct (Hn pid).
Qed.
Lemma finished_not_running st r : running (finished st r) = false.
Proof. unfold running, finished, pget. rewrite !dget_dset_ne by done. by rewrite dget_dset_eq. Qed.
Lemma read_as_stopped st g : idle g -> running st = false -> read_as st g.
Proof. intros Hi Hr. split; [by apply idle_tracked|]. split; [congruence|]. intros _. apply Hi. Qed.

Lemma guarded_read g : tracked g -> guarded read_reclaim_state (fun r g => match r with Ok st => read_as st g | Err _ => tracked g end) g.
Proof.
  intros Hg. unfold read_reclaim_state. apply (guarded_step tracked); [apply tracked_lasting|done|]. intros file g1 g2 H1 [-> ->]. apply read_file in H1.
  set (st := default [] (reclaim_file g1)) in *. apply (guarded_step (read_as st)); [apply read_as_lasting|done|]. clear H1. intros report g3 g4 H3 [-> ->].
  assert (Hfin : forall r, report_file g3 = Some r -> reported st (Some r) = true -> read_as (finished st r) g3).
  { intros r Hf Hr. apply read_as_stopped; [|apply finished_not_running]. split; [apply H3|by eapply reported_idle]. }
  eapply guarded_ret; [apply read_as_lasting|intros g5 H5; exact H5|]. destruct (report_file g3) as [r|]; [|done].
  destruct (running st && reported st (Some r)) eqn:Hb; [|done]. apply andb_true_iff in Hb as [_ Hb]. by apply Hfin.
Qed.

(** *** Reconciliation and the start *)

Definition settled (r : result reserr row) (g : Garden) : Prop := match r with Ok st => tracked g /\ (running st = false -> idle g) | Err _ => tracked g end.
Lemma read_as_settled st g : read_as st g -> settled (Ok st) g.
Proof. intros H. split; [apply H|]. by apply read_as_idle. Qed.
Lemma gave_up_not_running now e st : running (gave_up number now e st) = false.
Proof. unfold running, gave_up, pget. rewrite !dget_dset_ne by done. by rewrite dget_dset_eq. Qed.
(** Writing how the helper ended *)
Lemma guarded_ended st g : idle g -> guarded (_ ← invoke (WriteReclaim st); Ret st) settled g.
Proof.
  intros Hg. apply helper_bind. eapply guards_mono; [|by apply guarded_write].
  intros [[]|e] g1 H1; [|by apply idle_tracked]. eapply guarded_ret; [apply idle_lasting| |exact H1]. intros g2 H2. split; [by apply idle_tracked|done].
Qed.
Lemma guarded_gave_up st e g : idle g -> guarded (t2 ← do_ Time; _ ← invoke (WriteReclaim (gave_up number t2 e st)); Ret (gave_up number t2 e st)) settled g.
Proof. intros Hg. apply (guarded_step idle); [apply idle_lasting|done|]. intros t2 g1 g2 H1 ->. by apply guarded_ended. Qed.

(** The pid and the token that are read from the state are those of the helper. *)
Lemma described_pid st pid t n : describes st pid t -> py_int (por (pget "pid" st) (PInt 0)) = Ok n -> n = pid.
Proof. intros (_ & -> & _). unfold por. cbn. destruct (negb (pid =? 0)) eqn:H; cbn; [by intros [= <-]|]. intros [= <-]. apply negb_false_iff, Z.eqb_eq in H. done. Qed.
Lemma described_token st pid t : describes st pid t -> py_str (por (pget "token" st) (PStr "")) = t.
Proof. intros (_ & _ & ->). unfold por. cbn. by destruct t. Qed.

Lemma alive_idle st g n b : read_as st g -> py_int (por (pget "pid" st) (PInt 0)) = Ok n ->
  (helpers g !! n = Some (py_str (por (pget "token" st) (PStr ""))) -> b = true) -> b = false -> idle g.
Proof.
  intros Hg Hn Hb ->. split; [apply Hg|]. apply map_empty. intros pid. destruct (helpers g !! pid) as [t|] eqn:Hp; [|done].
  assert (Hd := read_as_helper st g pid t Hg Hp). rewrite (described_token st pid t Hd), (described_pid st pid t n Hd Hn) in Hb. by specialize (Hb Hp).
Qed.
Lemma killed_idle st g n : read_as st g -> py_int (por (pget "pid" st) (PInt 0)) = Ok n -> idle (set_helpers (delete n (helpers g)) g).
Proof.
  intros Hg Hn. assert (Hf : fewer g (set_helpers (delete n (helpers g)) g)) by (by apply (handle_fewer _ (KillGroup n) g ())).
  split; [by eapply fewer_known, (proj1 (proj1 Hg))|]. apply map_empty. intros pid. cbn. destruct (delete n (helpers g) !! pid) as [t|] eqn:Hp; [|done].
  apply lookup_delete_Some in Hp as [Hne Hp]. destruct Hne. by apply (described_pid st pid t), Hn; apply (read_as_helper st g).
Qed.

Lemma guarded_reconcile g : tracked g -> guarded reconcile settled g.
Proof.
  intros Hg. unfold reconcile_reclaim_state. apply helper_bind. eapply guards_mono; [|by apply guarded_read]. clear g Hg. intros [st|e] g Hg; [|done].
  apply (guarded_step (read_as st)); [apply read_as_lasting|done|]. intros report g1 g2 H1 [-> ->]. clear g Hg.
  destruct (bool_decide (pget "running" st = PBool false) && _) eqn:Hb.
  { apply andb_true_iff in Hb as [Hrun%bool_decide_eq_true _]. apply guarded_ended. apply (read_as_idle st); [done|]. unfold running. by rewrite Hrun. }
  destruct (running st) eqn:Hrun; [|eapply guarded_ret; [apply (read_as_lasting st)|apply read_as_settled|done]]. clear Hb.
  assert (Hskip : forall A (p : rprog A) (f : A -> rprog row) g, only starts_none p -> (forall a g, read_as st g -> guarded (f a) settled g) -> read_as st g -> guarded (p ≫= f) settled g).
  { intros A p f g Hp Hf. apply (helper_skip (read_as st)); [apply read_as_lasting|done|done|]. intros e g3 H3. apply H3. }
  destruct (py_int _) as [n|e] eqn:Hn; [|apply (helper_throw (read_as st)); [apply read_as_lasting|intros g3 H3; apply H3|done]].
  apply (guarded_value n). apply Hskip; [only_auto| |done]. clear g1 H1. intros t g1 H1.
  apply Hskip; [unfold lift_exn; only_auto| |done]. clear g1 H1. intros started g1 H1.
  destruct (negb (Qle_bool _ _)).
  - apply (guarded_step (read_as st)); [apply read_as_lasting|done|]. clear g1 H1. intros b g1 g2 H1 [Hb ->]. apply helper_bind.
    assert (Hi : b = false -> idle g1) by (intros Hf; by apply (alive_idle st g1 n b)). destruct b.
    + apply (guards_do _ _ _ (read_as st)); [apply lasting_stable, read_as_lasting|apply (l_one _ (read_as_lasting st))|done|]. intros [] g3 g4 H3 ->.
      apply (guarded_ret idle); [apply idle_lasting| |by apply (killed_idle st)]. intros g5 H5. by apply guarded_gave_up.
    + apply (guarded_ret idle); [apply idle_lasting| |by apply Hi]. intros g5 H5. by apply guarded_gave_up.
  - apply (guarded_step (read_as st)); [apply read_as_lasting|done|]. clear g1 H1. intros b g1 g2 H1 [Hb ->].
    assert (Hi : b = false -> idle g1) by (intros Hf; by apply (alive_idle st g1 n b)). destruct b.
    + apply (guarded_ret (read_as st)); [apply read_as_lasting|apply read_as_settled|done].
    + by apply guarded_gave_up, Hi.
Qed.

(** Starting the helper *)
Lemma guarded_failed e g : idle g -> guarded (start_failed number None (OSError e)) (fun _ g => tracked g) g.
Proof.
  intros Hg. unfold start_failed. apply (guarded_value tt). apply (guarded_step idle); [apply idle_lasting|done|]. intros t g1 g2 H1 ->. apply helper_bind.
  eapply guards_mono; [|by apply guarded_write]. intros [[]|x] g3 H3; [|by apply idle_tracked]. eapply guarded_ret; [apply idle_lasting| |exact H3]. intros g4. apply idle_tracked.
Qed.
(** A token that nobody has used *)
Definition fresh_token (t : string) (g : Garden) : Prop := idle g /\ t ∈ tokens g /\ forall r, report_file g = Some r -> pget "token" r <> PStr t.
Lemma fresh_token_lasting t : lasting (fresh_token t).
Proof.
  split; [intros g [Hg _]; by apply tracked_unique, idle_tracked|]. intros g g' Hf (Hi & Ht & Hr). split; [by eapply fewer_idle|]. split; [by apply (f_tokens g g' Hf)|].
  intros r Hr' Hp. destruct (f_report g g' Hf r t Hr' Hp) as [(r0 & Hr0 & Hp0)|[(pid & Hpid) _]]; [by apply (Hr r0)|]. destruct Hi as [_ He]. by rewrite He, lookup_empty in Hpid.
Qed.
Lemma issued t g : idle g -> t ∉ tokens g -> fresh_token t (add_token t g).
Proof.
  intros [[H1 H2] He] Ht. split; [split; [|done]|split; [cbn; set_solver|]].
  - split; cbn; [intros pid s Hp; rewrite He, lookup_empty in Hp; done|]. intros r s Hr Hs. destruct (H2 r s Hr Hs). split; [set_solver|done].
  - intros r Hr Hp. destruct (H2 r t Hr Hp). done.
Qed.
Lemma popen_only_helper pid t g : fresh_token t g -> only_helper pid t (set_helpers (<[pid := t]> (helpers g)) g).
Proof.
  intros ([[H1 H2] He] & Ht & Hr). rewrite He. split; [split; cbn|cbn].
  - intros p s. by intros [[_ <-]|[_ H]]%lookup_insert_Some.
  - intros r s Hf Hs. destruct (H2 r s Hf Hs) as [Hi _]. split; [done|]. intros p [[_ ->]|[_ H]]%lookup_insert_Some; [by apply (Hr r)|done].
  - intros p s [[<- <-]|[_ H]]%lookup_insert_Some; done.
Qed.
Lemma helper_recorded pid t now b n stats g : only_helper pid t g -> tracked (set_reclaim (helper_state number pid now t b n stats) g).
Proof.
  intros [[H1 H2] Ho]. split; [split; cbn; [exact H1|exact H2]|]. intros p s Hp. cbn in Hp. destruct (Ho p s Hp) as [-> ->].
  exists (helper_state number pid now t b n stats). by split.
Qed.

Lemma guarded_start s group n stats g : idle g -> guarded (start_helper number limits s group n stats) (fun _ g => tracked g) g.
Proof.
  intros Hg. unfold start_helper. assert (Htr : forall g, idle g -> tracked g) by apply idle_tracked.
  assert (Hthrow : forall e g, idle g -> guarded (start_failed number None e) (fun _ g => tracked g) g).
  { intros e g1 H1. destruct e; [|by apply guarded_failed|..]; by apply (helper_throw idle); [apply idle_lasting|apply idle_tracked|]. }
  apply (guarded_step idle); [apply idle_lasting|done|]. clear g Hg. intros identity g g1 Hg ->. destruct identity as [[dev ino]|e]; [|by apply Hthrow].
  apply (guarded_step idle); [apply idle_lasting|done|]. clear g Hg. intros u g g1 Hg Hh. apply (handle_fewer _ UnlinkReport) in Hh; [|done]. apply (fewer_idle _ _ Hh) in Hg.
  destruct u as [[]|e]; [|by apply Hthrow].
  apply (guarded_step idle); [apply idle_lasting|done|]. clear g g1 Hg Hh. intros now g g1 Hg ->.
  apply (guarded_step idle); [apply idle_lasting|done|]. clear g Hg. intros t g g1 Hg [Ht ->]. apply (issued t g Hg) in Ht.
  apply (guarded_step (fresh_token t)); [apply fresh_token_lasting|done|]. clear g Hg Ht. intros p g g1 Hg Hh. destruct p as [pid|e]; [|cbn in Hh; subst; by apply Hthrow, (proj1 Hg)].
  destruct Hh as [_ ->]. apply (popen_only_helper pid) in Hg.
  apply (guarded_step (only_helper pid t)); [apply only_lasting|done|]. clear Hg g. intros w g g1 Hg Hh. cbn in Hh. destruct w as [[]|e].
  - subst. apply (guarded_ret tracked); [apply tracked_lasting|done|by apply helper_recorded].
  - destruct e as [|e| |]; try done. subst. unfold start_failed.
    apply (guarded_step (only_helper pid t)); [apply only_lasting|done|]. clear g Hg. intros [] g g1 Hg ->.
    assert (Hi : idle (set_helpers (delete pid (helpers g)) g)).
    { assert (Hf : fewer g (set_helpers (delete pid (helpers g)) g)) by (by apply (handle_fewer _ (KillGroup pid) g ())).
      destruct Hg as [Hk Ho]. split; [by eapply fewer_known|]. apply map_empty. intros q. cbn. destruct (delete pid (helpers g) !! q) eqn:Hq; [|done].
      apply lookup_delete_Some in Hq as [Hne Hq]. destruct (Ho _ _ Hq). congruence. }
    apply (guarded_step idle); [apply idle_lasting|done|]. intros t2 g1 g2 H1 ->. apply helper_bind. eapply guards_mono; [|by apply guarded_write].
    intros [[]|x] g3 H3; [|by apply Htr]. by apply (guarded_ret idle); [apply idle_lasting| |].
Qed.

Lemma guarded_reclaim s g : tracked g -> guarded (start_reclaim s) (fun _ g => tracked g) g.
Proof.
  intros Hg. unfold start_reclaim_if_eligible.
  assert (Hskip : forall P A (p : rprog A) (f : A -> rprog bool) g, lasting P -> (forall g, P g -> tracked g) -> only starts_none p ->
      (forall a g, P g -> guarded (f a) (fun _ g => tracked g) g) -> P g -> guarded (p ≫= f) (fun _ g => tracked g) g).
  { intros P A p f g1 Hl Ht Hp Hf. by apply (helper_skip P); [| | |intros e g2; apply Ht]. }
  assert (Hret : forall P (b : bool) g, lasting P -> (forall g, P g -> tracked g) -> P g -> guarded (Ret b : rprog bool) (fun _ g => tracked g) g) by (intros P b g1 Hl Ht H1; apply (guarded_ret P); [done|intros g2 H2; by apply Ht|done]).
  destruct (negb (reclaim_would_help s)); [by apply (Hret tracked); [apply tracked_lasting| |]|].
  apply (Hskip tracked); [apply tracked_lasting|done|destruct (bool_decide _); only_auto| |done]. clear g Hg. intros group g Hg.
  apply (Hskip tracked); [apply tracked_lasting|done|destruct group; only_auto| |done]. clear g Hg. intros stats g Hg.
  destruct group as [group|], stats as [stats|]; [|by apply (Hret tracked); [apply tracked_lasting| |]..].
  destruct (_ || _); [by apply (Hret tracked); [apply tracked_lasting| |]|].
  apply helper_bind. eapply guards_mono; [|by apply guarded_reconcile]. clear g Hg. intros [st|e] g Hg; [|done]. destruct Hg as [Hg Hi].
  destruct (running st); [by apply (Hret tracked); [apply tracked_lasting| |]|]. specialize (Hi eq_refl). clear Hg.
  apply (Hskip idle); [apply idle_lasting|apply idle_tracked|only_auto| |done]. clear g Hi. intros t g Hg.
  apply (Hskip idle); [apply idle_lasting|apply idle_tracked|unfold lift_exn; only_auto| |done]. clear g Hg. intros last g Hg.
  destruct (negb _); [by apply (Hret idle); [apply idle_lasting|apply idle_tracked|]|]. by apply guarded_start.
Qed.

(** *** Every section *)

Lemma guarded_admission kind w g : tracked g -> guarded (admit_local_launch float number cfg limits kind w) (fun _ g => tracked g) g.
Proof.
  intros Hg. unfold admit_local_launch.
  assert (Hskip : forall A (p : rprog A) (f : A -> rprog ()) g, only starts_none p -> (forall a g, tracked g -> guarded (f a) (fun _ g => tracked g) g) -> tracked g -> guarded (p ≫= f) (fun _ g => tracked g) g).
  { intros A p f g1 Hp Hf. by apply (helper_skip tracked); [apply tracked_lasting| | |]. }
  apply Hskip; [unfold refresh_resource_pressure, resource_status, storage_status, record_resource_status, local_runs, lift_exn; only_auto| |done]. clear g Hg. intros s g Hg.
  destruct (_ || _); [|by apply (guarded_ret tracked); [apply tracked_lasting| |]].
  destruct (negb _); [by apply (helper_throw tracked); [apply tracked_lasting| |]|].
  apply helper_bind. eapply guards_mono; [|by apply guarded_reclaim]. intros [b|e] g1 H1; [|done].
  apply Hskip; [unfold note_operation; only_auto| |done]. intros _ g2 H2. by apply (helper_throw tracked); [apply tracked_lasting| |].
Qed.
#[local] Abbreviation sections := (sections float number cfg limits product_section default_weight tasks).
Lemma tracked_section p g : sections p -> tracked g -> guarded p (fun _ g => tracked g) g.
Proof.
  assert (Hskip : forall A B (p : rprog A) (f : A -> rprog B) g, only starts_none p -> (forall a g, tracked g -> guarded (f a) (fun _ g => tracked g) g) -> tracked g -> guarded (p ≫= f) (fun _ g => tracked g) g).
  { intros A B q f g1 Hp Hf. by apply (helper_skip tracked); [apply tracked_lasting| | |]. }
  intros [task_id mode kind run_id runner weight dir Hw|op paths|op|] Hg.
  - apply helper_bind. eapply guards_mono with (Q := fun _ g => tracked g); [intros [r|e] g1 H1; [by apply (guarded_ret tracked); [apply tracked_lasting| |]|done]|].
    unfold new_local_run. apply Hskip; [only_auto| |done]. clear g Hg. intros _ g Hg. apply Hskip; [unfold lift_exn; only_auto| |done]. clear g Hg. intros w g Hg.
    apply helper_bind. eapply guards_mono; [|by apply guarded_admission]. clear g Hg. intros [[]|e] g Hg; [|done].
    apply (helper_frame tracked); [apply tracked_lasting| |done]. unfold new_run, local_runs, lift_exn. only_auto.
  - apply (helper_frame tracked); [apply tracked_lasting| |done]. unfold recheck_local_materialization, deferred. only_auto.
  - apply (helper_frame tracked); [apply tracked_lasting| |done]. unfold local_staging_admission, deferred. only_auto.
  - apply helper_bind. eapply guards_mono with (Q := fun _ g => tracked g); [intros [r|e] g1 H1; [by apply (guarded_ret tracked); [apply tracked_lasting| |]|done]|].
    unfold try_reclaim_for_pending_local_launch. apply Hskip; [only_auto| |done]. clear g Hg. intros _ g Hg. apply Hskip; [only_auto| |done]. clear g Hg. intros s g Hg.
    destruct (pressured s); [by apply guarded_reclaim|by apply (guarded_ret tracked); [apply tracked_lasting| |]].
Qed.

(** There is at most one reclaim helper.  Whatever sections run and whatever else happens, and although a section may be killed at any moment but the one between starting
    a helper and recording it, no helper is started while another one has neither reported nor ended. *)
Theorem single_reclaim_helper x y :
  rtc (shared_step handle others sections recorded) x y -> under_way x = None -> tracked (contents x) -> unique_helper (contents y).
Proof.
  intros Hxy Hx Hm.
  assert (H := sections_keep handle others sections recorded at_most_one tracked x y (lasting_stable _ tracked_lasting) (fun s H Hr => conj (proj1 H) Hr) tracked_section Hxy Hx Hm).
  destruct (under_way y); [apply H|by apply tracked_unique].
Qed.
End sections.

Lemma single_reclaim_helper_witness : size (helpers Machine.reclaimed) = 1%nat /\ unique_helper Machine.reclaimed.
Proof.
  split; [vm_compute; reflexivity|].
  apply (single_reclaim_helper Machine.float Machine.number Dispatch.Garden.cfg Machine.limits (fun _ => []) (PInt 1) []
    (Machine.at_rest Machine.empty_garden) (Machine.at_rest Machine.reclaimed)); [|done|].
  - unfold Machine.at_rest, Machine.reclaimed. apply (run_section handle others); [apply Machine.answer_handle|apply reclaims].
  - split; [split; [intros pid t; cbn; by rewrite lookup_empty|done]|]. intros pid t. cbn. by rewrite lookup_empty.
Defined.
