(* ===== verification/LaunchSafety.v ===== *)
(** * What a local launch has measured ([scheduler/resources.py], [storage.py])

    The readings that end in no reason to wait, what they say of the machine, and that a run is published only after them. *)

From Stdlib Require Import QArith.
From S2P Require Import Prelude PyValue Requirements StateStore RunRecords RunIndex WorkerLease TaskModel Graph Effects Shared DispatchQueue Dispatch Resources ResourceSafety ReclaimSafety.

#[local] Open Scope list_scope.
#[local] Open Scope Z_scope.

(** ** Storage *)

(** Every path that was inspected is on a measured volume, and a path that could not be inspected is a volume without space. *)
Definition volume_of (volumes : list StorageVolume) (probes : list probe) (p : probe) : Prop :=
  match p with
  | Some (dev, _) => exists free v, Some (dev, free) ∈ probes /\ v ∈ volumes /\ free_bytes v = Some free
  | None => exists v, v ∈ volumes /\ free_bytes v = None
  end.
Definition device_key (dev : Z) : string := ("device:" ++ show dev)%string.
(** The volumes that have been found for some probes *)
Record found (probes : list probe) (volumes : dict StorageVolume) : Prop := {
  found_device dev free : Some (dev, free) ∈ probes -> exists free' v, Some (dev, free') ∈ probes /\ dget (device_key dev) volumes = Some v /\ free_bytes v = Some free';
  found_none : None ∈ probes -> exists k v, dget k volumes = Some v /\ free_bytes v = None;
  found_paths k v : dget k volumes = Some v -> (exists dev free, k = device_key dev /\ Some (dev, free) ∈ probes /\ free_bytes v = Some free) \/
    (exists n : nat, k = ("path:" ++ show (Z.of_nat n))%string /\ (n < List.length volumes)%nat /\ free_bytes v = None) }.

Lemma device_key_inj a b : device_key a = device_key b -> a = b.
Proof. unfold device_key. intros E%(inj (String.append _)). by apply (inj pretty) in E. Qed.
Lemma path_key_inj (a b : nat) : ("path:" ++ show (Z.of_nat a))%string = ("path:" ++ show (Z.of_nat b))%string -> a = b.
Proof. intros E%(inj (String.append _)). apply (inj pretty) in E. lia. Qed.
Lemma device_not_path dev s : device_key dev <> ("path:" ++ s)%string.
Proof. discriminate. Qed.
Lemma length_dset_absent {V} k (v : V) d : dget k d = None -> List.length (dset k v d) = S (List.length d).
Proof. induction d as [|[k' v'] d IH]; cbn; [done|]. case_decide; [done|]. cbn. intros Hk. by rewrite IH. Qed.

Lemma found_next probes volumes p : found probes volumes -> found (probes ++ [p]) (native_volume volumes p).
Proof.
  intros [Hd Hn Hp]. destruct p as [[dev free]|]; cbn [native_volume].
  - fold (device_key dev). unfold dmem. destruct (dget (device_key dev) volumes) as [v0|] eqn:Hk.
    + destruct (Hp _ _ Hk) as [(dev' & free' & ->%device_key_inj & Hin & Hf)|(n & Hbad & _)]; [|by apply device_not_path in Hbad].
      split.
      * intros dev0 free0 [H|H%list_elem_of_singleton]%elem_of_app.
        -- destruct (Hd _ _ H) as (f & v & ? & ? & ?). exists f, v. split; [apply elem_of_app; by left|done].
        -- injection H as <- <-. exists free', v0. split; [apply elem_of_app; by left|done].
      * intros [H|H%list_elem_of_singleton]%elem_of_app; [auto|done].
      * intros k v H. destruct (Hp k v H) as [(d & f & ? & ? & ?)|?]; [left; exists d, f; split; [done|split; [apply elem_of_app; by left|done]]|by right].
    + set (v1 := {| v_key := _; v_label := _; free_bytes := Some free; v_error := _ |}). split.
      * intros dev0 free0 [H|H%list_elem_of_singleton]%elem_of_app.
        -- destruct (Hd _ _ H) as (f & v & Hin & Hv & Hf). exists f, v. split; [apply elem_of_app; by left|]. split; [|done]. rewrite dget_dset_ne; [done|]. intros E. congruence.
        -- injection H as -> ->. exists free, v1. split; [apply elem_of_app; right; by apply list_elem_of_singleton|]. by rewrite dget_dset_eq.
      * intros [H|H%list_elem_of_singleton]%elem_of_app; [|done]. destruct (Hn H) as (k & v & Hv & Hf). exists k, v. split; [|done]. rewrite dget_dset_ne; [done|]. intros ->. congruence.
      * intros k v H. rewrite (length_dset_absent _ _ _ Hk). destruct (decide (k = device_key dev)) as [->|Hne].
        -- rewrite dget_dset_eq in H. injection H as <-. left. exists dev, free. split; [done|]. split; [apply elem_of_app; right; by apply list_elem_of_singleton|done].
        -- rewrite dget_dset_ne in H by done. destruct (Hp k v H) as [(d & f & ? & ? & ?)|(n & ? & ? & ?)]; [left; exists d, f; split; [done|split; [apply elem_of_app; by left|done]]|right; exists n; split; [done|split; [lia|done]]].
  - set (k0 := ("path:" ++ show (Z.of_nat (List.length volumes)))%string). set (v1 := {| v_key := _; v_label := _; free_bytes := None; v_error := _ |}).
    assert (Hk : dget k0 volumes = None).
    { destruct (dget k0 volumes) as [v|] eqn:H; [|done]. destruct (Hp _ _ H) as [(d & f & Hbad & _)|(n & Heq%path_key_inj & Hlt & _)]; [by symmetry in Hbad; apply device_not_path in Hbad|lia]. }
    split.
    + intros dev0 free0 [H|H%list_elem_of_singleton]%elem_of_app; [|done].
      destruct (Hd _ _ H) as (f & v & Hin & Hv & Hf). exists f, v. split; [apply elem_of_app; by left|]. split; [|done]. rewrite dget_dset_ne; [done|apply device_not_path].
    + intros _. exists k0, v1. by rewrite dget_dset_eq.
    + intros k v H. rewrite (length_dset_absent _ _ _ Hk). destruct (decide (k = k0)) as [->|Hne].
      * rewrite dget_dset_eq in H. injection H as <-. right. exists (List.length volumes). split; [done|]. split; [lia|done].
      * rewrite dget_dset_ne in H by done. destruct (Hp k v H) as [(d & f & ? & ? & ?)|(n & ? & ? & ?)]; [left; exists d, f; split; [done|split; [apply elem_of_app; by left|done]]|right; exists n; split; [done|split; [lia|done]]].
Qed.
Lemma found_all probes : found probes (foldl native_volume [] probes).
Proof.
  induction probes as [|p probes IH] using rev_ind.
  - split; [by intros ? ? ?%elem_of_nil|by intros ?%elem_of_nil|done].
  - rewrite foldl_app. by apply found_next.
Qed.

(** A volume with room for [required] bytes beside the reserve *)
Definition has_room (reserve required : Z) (v : StorageVolume) : Prop := exists free, free_bytes v = Some free /\ reserve <= free - required.
Lemma volume_reason_none reserve required v : volume_reason reserve required v = None <-> has_room reserve required v.
Proof.
  unfold volume_reason, has_room. destruct (free_bytes v) as [free|]; [|naive_solver]. destruct (free - required <? reserve) eqn:H.
  - apply Z.ltb_lt in H. split; [done|]. intros (f & [= <-] & ?). lia.
  - apply Z.ltb_ge in H. split; [intros _; by exists free|done].
Qed.
(** Where the probes found space: at every path, on the volume it is on *)
Definition paths_have_room (reserve required : Z) (probes : list probe) : Prop :=
  forall p, p ∈ probes -> exists dev free0 free, p = Some (dev, free0) /\ Some (dev, free) ∈ probes /\ reserve <= free - required.
Lemma omap_nil {A B} (f : A -> option B) l : omap f l = [] <-> forall x, x ∈ l -> f x = None.
Proof.
  induction l as [|x l IH]; cbn; [split; [by intros _ x ?%elem_of_nil|done]|]. destruct (f x) eqn:Hx; cbn.
  - split; [done|]. intros H. rewrite H in Hx; [done|by left].
  - rewrite IH. split; [intros H y [->|]%elem_of_cons; auto|]. intros H y Hy. apply H. by right.
Qed.
Lemma measured_room reserve required probes windows :
  omap (volume_reason reserve required) (measure_storage probes windows) = [] ->
  paths_have_room reserve required probes /\ forall v, windows = Some v -> has_room reserve required v.
Proof.
  rewrite omap_nil. unfold measure_storage, native_volumes. intros H. destruct (found_all probes) as [Hd Hn _].
  assert (Hv : forall k v, dget k (foldl native_volume [] probes) = Some v -> has_room reserve required v).
  { intros k v Hv. apply volume_reason_none, H, elem_of_app. left. apply list_elem_of_fmap. exists (k, v). split; [done|]. by apply dget_Some_elem. }
  split.
  - intros [[dev free0]|] Hp.
    + destruct (Hd dev free0 Hp) as (free & v & Hin & Hk & Hf). destruct (Hv _ _ Hk) as (free' & Hf' & Hle). exists dev, free0, free. split; [done|]. split; [done|]. congruence.
    + destruct (Hn Hp) as (k & v & Hk & Hf). destruct (Hv _ _ Hk) as (free' & Hf' & _). congruence.
  - intros v ->. apply volume_reason_none, H, elem_of_app. right. by apply list_elem_of_singleton.
Qed.

(** ** What no reason to wait means *)

(** Memory of the machine and of both groups, no process that was killed for memory in the group that limits, temporary space *)
Record roomy (l : Limits) (g : Gauges) : Prop := {
  memory_room m : min_memory_available_mb l <> 0 -> In (Some m) [host_memory g; controller_memory g; execution_memory g] -> min_memory_available_mb l <= m;
  no_oom n : In n ["oom"; "oom_kill"]%string -> default 0 (dget n (limiting_events g)) = 0;
  temp_room t : min_temp_free_mb l <> 0 -> temp_free g = Some t -> min_temp_free_mb l <= t }.

Lemma least_le l x y : least l = Some x -> y ∈ l -> x.2 <= y.2.
Proof.
  destruct l as [|z l]; [done|]. cbn. intros [= <-].
  assert (H : forall b, (foldl (fun best y : string * Z => if y.2 <? best.2 then y else best) b l).2 <= b.2 /\
    forall y, y ∈ l -> (foldl (fun best y : string * Z => if y.2 <? best.2 then y else best) b l).2 <= y.2).
  { induction l as [|w l IH]; intros b; cbn; [split; [lia|by intros ? ?%elem_of_nil]|]. destruct (w.2 <? b.2) eqn:Hw; destruct (IH (if w.2 <? b.2 then w else b)) as [H1 H2]; rewrite Hw in *.
    - apply Z.ltb_lt in Hw. split; [lia|]. intros y0 [->|Hy]%elem_of_cons; [lia|auto].
    - apply Z.ltb_ge in Hw. split; [lia|]. intros y0 [->|Hy]%elem_of_cons; [lia|auto]. }
  destruct (H z) as [H1 H2]. intros [->|Hy]%elem_of_cons; [done|auto].
Qed.
Lemma cgroup_memory_le g m : In (Some m) [controller_memory g; execution_memory g] -> exists c, cgroup_memory g = Some c /\ c <= m.
Proof.
  unfold cgroup_memory. intros Hin. assert (Hk : exists name, (name, m) ∈ known g).
  { unfold known. destruct Hin as [H|[H|[]]]; [exists "controller cgroup"%string|exists "execution cgroup"%string]; cbn; rewrite H; cbn; [by left|].
    destruct (controller_memory g); cbn; [right|]; by left. }
  destruct Hk as (name & Hk). destruct (least (known g)) as [x|] eqn:Hl.
  - exists x.2. split; [done|]. by apply (least_le (known g) x (name, m)).
  - destruct (known g); [by apply elem_of_nil in Hk|done].
Qed.
Lemma memory_le g m : In (Some m) [host_memory g; controller_memory g; execution_memory g] -> exists v, memory g = Some v /\ v <= m.
Proof.
  unfold memory. intros [H|H].
  - rewrite H. destruct (cgroup_memory g) as [c|]; [exists (Z.min m c); split; [done|lia]|by exists m].
  - destruct (cgroup_memory_le g m H) as (c & -> & Hc). destruct (host_memory g) as [h|]; [exists (Z.min h c); split; [done|lia]|by exists c].
Qed.
Lemma no_reasons_roomy l g required volumes : all_reasons l g required volumes = [] -> roomy l g /\ storage_reasons l required volumes = [].
Proof.
  unfold all_reasons. intros [Hm [Ho [Ht Hs]%app_nil]%app_nil]%app_nil. split; [|done]. split.
  - intros m Hmin Hin. destruct (memory_le g m Hin) as (v & Hv & Hle). revert Hm. unfold memory_reasons. rewrite Hv.
    destruct (negb (min_memory_available_mb l =? 0) && (v <? min_memory_available_mb l)) eqn:Hb.
    + destruct (cgroup_memory g); [destruct (_ <=? _)|]; done.
    + intros _. apply andb_false_iff in Hb as [Hb%negb_false_iff%Z.eqb_eq|Hb%Z.ltb_ge]; lia.
  - intros n Hn. revert Ho. unfold oom_reasons. destruct (existsb _ _) eqn:He; [done|]. intros _.
    destruct (default 0 (dget n (limiting_events g)) =? 0) eqn:Hz; [by apply Z.eqb_eq in Hz|].
    assert (existsb (fun n => negb (default 0 (dget n (limiting_events g)) =? 0)) ["oom"; "oom_kill"]%string = true) by (apply existsb_exists; exists n; by rewrite Hz). congruence.
  - intros t Hmin Htemp. revert Ht. unfold temp_reasons. rewrite Htemp. destruct (negb (min_temp_free_mb l =? 0) && (t <? min_temp_free_mb l)) eqn:Hb; [done|]. intros _.
    apply andb_false_iff in Hb as [Hb%negb_false_iff%Z.eqb_eq|Hb%Z.ltb_ge]; lia.
Qed.

(** ** A launch publishes after it has measured *)

Section launch.
Context (float : pyval -> result exn Q) (number : Q -> pyval).
Context (cfg : Config) (limits : Limits) (product_section : string -> row) (default_weight : pyval) (tasks : tasks_t).
#[local] Abbreviation ev := (event rcmd).

(** Under the lock, before the record of a run of weight [w] is written *)
Definition measured (w : Z) (tr : list ev) : Prop :=
  exists index index2 g probes windows required,
    Ev ActiveRuns index ∈ tr /\ Ev (ReadGauges (execution_cgroup limits)) g ∈ tr /\ Ev ActiveRuns index2 ∈ tr /\ Ev (Probes []) (probes, windows) ∈ tr /\
    weight_sum (local_runs_active index) + w <= resource_parallel_limit cfg /\ roomy limits g /\
    disk_sum (local_runs_active index2) = Ok required /\
    (disk_reserve_bytes limits <> 0 ->
       paths_have_room (disk_reserve_bytes limits) (required + operation_required_bytes limits) probes /\
       forall v, windows = Some v -> has_room (disk_reserve_bytes limits) (required + operation_required_bytes limits) v).
(** What a status says of the readings *)
Definition status_of (s : ResourceStatus) (tr : list ev) : Prop :=
  limit s = resource_parallel_limit cfg /\ forall w, pressured s = false -> active s + w <= limit s -> measured w tr.
Definition publishes_measured (w : Z) (tr : list ev) (e : ev) : Prop := match e with Ev c _ => match c with Save _ => measured w tr | _ => True end end.

Lemma measured_more w tr t : measured w tr -> measured w (tr ++ t).
Proof.
  intros (i & i2 & g & p & win & r & H1 & H2 & H3 & H4 & H). exists i, i2, g, p, win, r. by rewrite !elem_of_app; auto 10.
Qed.
Lemma safe_quiet {A} w (p : rprog A) tr : only saves_no_run p -> safe (publishes_measured w) p tr (fun _ tr' => exists t, tr' = tr ++ t).
Proof. apply only_safe. intros tr' R c r. by destruct c. Qed.
(** Once measured, everything may be saved. *)
Lemma safe_measured {A} w (p : rprog A) tr : measured w tr -> safe (publishes_measured w) p tr (fun _ _ => True).
Proof.
  revert tr. induction p as [a|e|R c k IH]; intros tr Hm; cbn; [done|done|]. intros r. split; [destruct c; done|]. by apply IH, measured_more.
Qed.

Lemma safe_status w tr : safe (publishes_measured w) (resource_status cfg limits true true []) tr (fun r tr' => match r with Ok s => status_of s tr' | Err _ => True end).
Proof.
  unfold resource_status, local_runs. cbn. intros index. split; [done|]. intros g. split; [done|]. intros index2. split; [done|].
  destruct (disk_sum (local_runs_active index2)) as [required|e] eqn:Hd; cbn; [|done]. intros cached. split; [done|].
  assert (Hrest : forall R (c : rcmd R) x, safe (publishes_measured w)
      (volumes ← (x ← (do_ (Probes []) : rprog (list probe * option StorageVolume)); _ ← (at_ ← do_ Monotonic; do_ (SetStorageCache at_ (measure_storage x.1 x.2))); Ret (measure_storage x.1 x.2));
       Ret {| active := weight_sum (local_runs_active index); limit := resource_parallel_limit cfg; memory_available_mb := memory g; memory_min_mb := min_memory_available_mb limits;
              cgroup_available_mb := cgroup_memory g; cgroup_boundary := boundary g;
              pressure_reasons := all_reasons limits g (required + operation_required_bytes limits) volumes; host_memory_available_mb := host_memory g; disk_required_bytes := required |} : rprog ResourceStatus)
      ((((tr ++ [Ev ActiveRuns index]) ++ [Ev (ReadGauges (execution_cgroup limits)) g]) ++ [Ev ActiveRuns index2]) ++ [Ev c x])
      (fun r tr' => match r with Ok s => status_of s tr' | Err _ => True end)).
  { intros R c x. cbn. intros [probes windows]. split; [done|]. intros at_. split; [done|]. intros []. split; [done|]. split; [done|]. cbn. intros w' Hp Hw.
    unfold pressured in Hp. cbn in Hp. destruct (all_reasons _ _ _ _) eqn:Hr; [|done]. apply no_reasons_roomy in Hr as [Hroom Hs].
    exists index, index2, g, probes, windows, required. rewrite !elem_of_app, !list_elem_of_singleton. split_and!; auto 10.
    intros Hres. revert Hs. unfold storage_reasons. destruct (disk_reserve_bytes limits =? 0) eqn:Hz; [by apply Z.eqb_eq in Hz|]. by apply measured_room. }
  destruct cached as [[at_ volumes]|]; apply Hrest.
Qed.
Lemma status_more s tr t : status_of s tr -> status_of s (tr ++ t).
Proof. intros [Hl H]. split; [done|]. intros w H1 H2. apply measured_more. by apply H. Qed.
Lemma safe_admit kind w tr : safe (publishes_measured w) (admit_local_launch float number cfg limits kind w) tr (fun r tr' => match r with Ok _ => measured w tr' | Err _ => True end).
Proof.
  unfold admit_local_launch. apply safe_bind. unfold refresh_resource_pressure. apply safe_bind. eapply safe_mono; [|apply safe_status].
  intros [s|e] tr1 H1; [|done]. apply safe_bind. eapply safe_mono; [|apply safe_quiet, saves_record]. intros [[]|e] tr2 [t ->]; [|done]. apply (status_more s _ t) in H1. cbn [safe then_].
  destruct (pressured s) eqn:Hp; cbn [orb negb].
  - apply safe_bind. eapply safe_mono; [|apply safe_quiet, saves_reclaim]. intros [b|e] tr3 [t3 ->]; [|done]. apply safe_bind.
    eapply safe_mono; [|apply safe_quiet, saves_note]. intros [[]|e] tr4 _; done.
  - destruct (limit s <? active s + w) eqn:Hw; [done|]. apply Z.ltb_ge in Hw. by apply H1.
Qed.

(** C28.  A local run is published only on a machine with room for it.  Whatever the machine shows and wherever the launch ends, when it writes the record of the run it has counted
    the weights that are in use and found room for its own; it has found the required memory on the host and in both control groups, no process killed for memory, the required temporary
    space, and on the volume of every path of the garden, and of Windows, the reserve beside all that active runs and this one may still write. *)
Theorem launch_measured task_id mode kind run_id runner weight dir tr o tr1 run reply tr2 :
  exec (new_local_run float number cfg limits product_section default_weight tasks task_id mode kind run_id runner weight dir) tr o ->
  tr = tr1 ++ Ev (Save run) reply :: tr2 ->
  exists w, match weight with Some n => n = w | None => resource_weight product_section default_weight tasks task_id = Ok w end /\ measured w tr1.
Proof.
  intros He ->. destruct (match weight with Some n => Ok n | None => resource_weight product_section default_weight tasks task_id end) as [w|e] eqn:Hw.
  - exists w. split; [destruct weight; congruence|].
    assert (Hs : safe (publishes_measured w) (new_local_run float number cfg limits product_section default_weight tasks task_id mode kind run_id runner weight dir) [] (fun _ _ => True)).
    { unfold new_local_run. apply safe_bind, safe_do. intros []. split; [done|]. cbn [then_]. apply safe_bind.
      destruct weight as [n|]; [injection Hw as ->|unfold lift_exn; rewrite Hw]; cbn [safe then_ lift];
        (apply safe_bind; eapply safe_mono; [|apply safe_admit]; intros [[]|e] tr' H; [|done]; by apply safe_measured). }
    destruct (safe_exec _ _ [] _ _ _ He Hs (allowed_nil _)) as [Ha _]. exact (allowed_split _ tr1 (Ev (Save run) reply) tr2 Ha).
  - destruct weight as [n|]; [done|]. exfalso.
    assert (Hs : safe (fun _ (e : ev) => match e with Ev c _ => match c with Save _ => False | _ => True end end)
       (new_local_run float number cfg limits product_section default_weight tasks task_id mode kind run_id runner None dir) [] (fun _ _ => True)).
    { unfold new_local_run. cbn. intros []. split; [done|]. unfold lift_exn. by rewrite Hw. }
    destruct (safe_exec _ _ [] _ _ _ He Hs (allowed_nil _)) as [Ha _]. exact (allowed_split _ tr1 (Ev (Save run) reply) tr2 Ha).
Qed.
End launch.

(** The launch of weight 3 in the empty garden *)
Definition is_save (e : event rcmd) : bool := match e with Ev c _ => match c with Save _ => true | _ => false end end.
Lemma find_save tr : existsb is_save tr = true -> exists tr1 run reply tr2, tr = tr1 ++ Ev (Save run) reply :: tr2.
Proof.
  induction tr as [|e tr IH]; cbn; [done|]. destruct (is_save e) eqn:He; cbn.
  - intros _. destruct e as [R c r]. destruct c; try done. by exists [], r0, r, tr.
  - intros (tr1 & run & reply & tr2 & ->)%IH. by exists (e :: tr1), run, reply, tr2.
Qed.
Lemma launch_measured_witness :
  exists tr1 run reply tr2, trace (Machine.answer Machine.plenty Machine.probes) (Machine.launch 3) Machine.empty_garden = tr1 ++ Ev (Save run) reply :: tr2 /\
  exists w, 3 = w /\ measured Dispatch.Garden.cfg Machine.limits w tr1.
Proof.
  destruct (find_save (trace (Machine.answer Machine.plenty Machine.probes) (Machine.launch 3) Machine.empty_garden)) as (tr1 & r & reply & tr2 & Heq); [vm_compute; reflexivity|].
  exists tr1, r, reply, tr2. split; [exact Heq|].
  exact (launch_measured Machine.float Machine.number Dispatch.Garden.cfg Machine.limits (fun _ => []) (PInt 1) [] "A-1" "work" "work" "" "local" (Some 3) (fun i => ("runs/" ++ i)%string)
    _ _ tr1 r reply tr2 (run_exec _ _ _) Heq).
Defined.

(** ** Out-of-memory counters

    The kernel's counters of a group only grow.  One kill in the group that limits keeps everything from starting, whatever memory there is; a kill in the other group is not seen. *)
Lemma oom_counter_blocks l g required volumes n :
  In n ["oom"; "oom_kill"]%string -> default 0 (dget n (limiting_events g)) <> 0 -> all_reasons l g required volumes <> [].
Proof. intros Hn Hc Hr. apply no_reasons_roomy in Hr as [[_ Ho _] _]. by apply Hc, Ho. Qed.
Lemma execution_oom_unseen :
  let g := {| host_memory := Some 8000; controller_events := []; controller_memory := Some 4000; execution_memory := None; execution_events := [("oom_kill"%string, 3)]; temp_free := Some 9000 |} in
  all_reasons Machine.limits g 0 [] = [].
Proof. reflexivity. Qed.
