(* ===== verification/CiStatus.v ===== *)
(** * What CI says about one commit ([ci_status.py], [validation.py])

    A status provider answers whether one exact commit passed.  There are three: the check rollup of the forge, the validation receipts that the garden's own
    supervisor wrote, and a command of the operator.  Answers that are malformed, late or about another commit must never count as a pass.

    Parameters: the JSON parser, [shlex], instants, [number] (the finite value of an [int] or [float] that is no [bool]) and [float] of loaded values, path resolution,
    [redact_secrets], and [ask], which runs a command now.  Where [dict(v)] would take a list of pairs, the model refuses the policy. *)

From Stdlib Require Import QArith Qabs.
From S2P Require Import Prelude PyValue Requirements TaskModel.

#[local] Open Scope list_scope.
#[local] Open Scope Z_scope.

(** [PRInfo], as far as the scheduler looks at it *)
Record PRInfo := {
  pr_number : Z; pr_url : string; pr_state : string; pr_base : string; review_decision : string; mergeable : string; checks : string; failed_checks : list string; head_sha : string }.

Record CIStatus := {
  ci_state : string; queried_sha : string; stale : bool; exists_for_sha : bool; evidence_url : string; failures : list string; provider : string }.
Definition green (s : CIStatus) : bool := bool_decide (ci_state s = "success") && exists_for_sha s && negb (stale s).
(** [CIStatus(state, sha, provider=p)] and [..., exists_for_sha=True] *)
Definition says (state sha p : string) : CIStatus :=
  {| ci_state := state; queried_sha := sha; stale := false; exists_for_sha := false; evidence_url := ""; failures := []; provider := p |}.
Definition says_here (state sha p : string) : CIStatus :=
  {| ci_state := state; queried_sha := sha; stale := false; exists_for_sha := true; evidence_url := ""; failures := []; provider := p |}.

(** ** The rollup of the forge *)

Definition upper_ascii (c : ascii) : ascii := if is_lower c then ascii_of_N (N_of_ascii c - 32)%N else c.
Definition upper : string -> string := str_map upper_ascii.
(** [github_status] *)
Definition github_status (pr : PRInfo) (required : bool) : CIStatus :=
  let rollup := upper (checks pr) in
  let answer state here fs := {| ci_state := state; queried_sha := head_sha pr; stale := false; exists_for_sha := here; evidence_url := pr_url pr; failures := fs; provider := "github" |} in
  if negb required && negb (nonempty rollup) then answer "not_required" false []
  else answer (if bool_decide (rollup = "SUCCESS") then "success" else if bool_decide (rollup = "FAILURE") then "failure" else if bool_decide (rollup = "PENDING") then "pending"
               else if nonempty rollup then "unknown" else "missing")%string (nonempty rollup) (failed_checks pr).

(** ** Receipts of the supervisor *)

(** What reading a text file gives *)
Inductive text_file : Type := Gone | Undecodable | Text (s : string).
(** One completed validation: its [result.json] and the files beside it *)
Record Receipt := { rc_path : string; rc_mtime : Z; rc_result : text_file; rc_execution : text_file; rc_exit_code : text_file; rc_stderr : text_file; rc_directory : string; rc_run : string }.

(** [re.findall] of the source identities in a truncated receipt *)
Definition char_string (c : ascii) : string := String c EmptyString.
Definition SOURCE_KEY : string := char_string dquote ++ "source_sha" ++ char_string dquote.
Fixpoint quoted_rest (s : string) : option (string * string) :=
  match s with
  | EmptyString => None
  | String c s' =>
      if bool_decide (c = dquote) then Some ("", s')
      else if bool_decide (c = "\"%char) then None
      else match quoted_rest s' with Some (g, rest) => Some (String c g, rest) | None => None end
  end.
Definition expect (c : ascii) (s : string) : option string := match s with String c' s' => if bool_decide (c' = c) then Some s' else None | EmptyString => None end.
Definition source_at (s : string) : option (string * string) :=
  if startswith SOURCE_KEY s then s1 ← expect ":" (lstrip (drop_str (String.length SOURCE_KEY) s)); s2 ← expect dquote (lstrip s1); quoted_rest s2 else None.
Fixpoint find_sources (fuel : nat) (s : string) : list string :=
  match fuel, s with
  | S n, String _ s' => match source_at s with Some (g, rest) => g :: find_sources n rest | None => find_sources n s' end
  | _, _ => []
  end.
Definition malformed_receipt_sources (raw : string) : list string := find_sources (String.length raw) raw.

(** The answers of this tick, where a tick keeps them *)
Abbreviation cache := (option (list (list string * CIStatus))).

Section providers.
Context (loads : string -> option pyval) (number float : pyval -> option Q) (instant : pyval -> option (option Q)) (shlex_join : list string -> string).
Context (shlex_split : string -> option (list string)) (resolve redact : string -> string).

(** [_completed_supervisor_execution]; a value that does not parse as an instant, or has no zone, is refused. *)
Definition positive_int (v : pyval) : bool := match v with PInt n => 0 <? n | _ => false end.
Definition completed_supervisor_execution (e : pyval) : bool :=
  match e with
  | PDict d =>
      is_str (pget "state" d) "finished" && match pget "owner" d with PStr s => nonempty s | _ => false end && positive_int (pget "pid" d)
      && match number (pget "timeout_seconds" d), instant (pget "execution_started_at" d), instant (pget "deadline_at" d) with
         | Some timeout, Some (Some started), Some (Some deadline) =>
             negb (Qle_bool timeout 0) && Qle_bool (Qabs (deadline - started - timeout)) (1 # 1000000)
             && (bool_decide (pget "inherited_lease" d = PBool true)
                 || (bool_decide (pget "owner_scoped" d = PBool true) && match pget "slot" d, pget "limit" d with PInt slot, PInt limit => (0 <=? slot) && (slot <? limit) | _, _ => false end
                     && positive_int (pget "requested_limit" d)))
         | _, _, _ => false
         end
  | _ => false
  end.

Definition POLICY_SOURCE_SHA : string := "887dbf76430e7ea8688a73eaa5392a210d4a36e6".
Definition STRESS_NODES : list string :=
  ["tests/test_web.py::test_initial_pages_stay_bounded_with_large_run_history";
   "tests/test_web.py::test_retained_history_journey_stays_responsive_with_running_and_waiting_pytest";
   "tests/test_web.py::test_served_incident_controls_retry_and_restart_during_overload"].
Definition POLICY_ADDOPTS : list string := map (fun node => "--deselect=" ++ node)%string STRESS_NODES.
(** [Path(p).name]: the last component; empty ones and [.] do not count. *)
Fixpoint last_component (best current p : string) : string :=
  let closed := if nonempty current && negb (bool_decide (current = "."%string)) then current else best in
  match p with
  | EmptyString => closed
  | String c p' => if bool_decide (c = "/"%char) then last_component closed "" p' else last_component best (current ++ char_string c)%string p'
  end.
Definition base_name : string -> string := last_component "" "".
(** [_pytest_command] *)
Definition pytest_command (argv : list string) : bool :=
  match argv with
  | [] => false
  | launcher :: rest =>
      let executable := base_name launcher in
      mem executable ["pytest"; "py.test"] || (startswith "python" executable && match rest with a :: b :: _ => bool_decide (a = "-m" /\ b = "pytest") | _ => false end)
  end.
Definition strs (v : pyval) : option (list string) := match v with PList l => all_strs l | _ => None end.
(** [receipt_has_current_policy]; a [policy] that is no object is refused. *)
Definition receipt_has_current_policy (r : row) : bool :=
  match dget "command" r, dget "policy" r with
  | Some command, Some (PDict policy) =>
      match strs (pget "selection" r), strs (pget "requested_selection" policy), strs (pget "effective_selection" policy), strs (pget "excluded_nodes" policy), dget "stress_opt_in" policy with
      | Some selection, Some requested, Some effective, Some excluded, Some (PBool stress_opt_in) =>
          py_eq (pget "version" r) (PInt 1) && bool_decide (dget "source_dirty" r = Some (PStr "")) && bool_decide (dget "source_changed" r = Some (PBool false))
          && py_eq (pget "version" policy) (PInt 1) && is_str (pget "source_sha" policy) POLICY_SOURCE_SHA && is_str (pget "kind" policy) "pytest"
          && match requested with [] => false | _ => true end && pytest_command requested && bool_decide (py_str command = shlex_join requested) && bool_decide (selection = effective)
          && if stress_opt_in
             then bool_decide (excluded = []) && mem "--run-stress" requested && (bool_decide (effective = requested) || bool_decide (effective = List.filter (fun i => negb (bool_decide (i = "--run-stress"%string))) requested))
             else negb (mem "--run-stress" requested) && bool_decide (excluded = STRESS_NODES) && bool_decide (effective = requested ++ POLICY_ADDOPTS)
      | _, _, _, _, _ => false
      end
  | _, _ => false
  end.

(** What an answer of a provider can be instead: the exceptions that [resolve_status] tells apart *)
Inductive provider_error : Type := TimedOut | Refused.

(** The checks of the newest receipt for the commit *)
Definition trusted (r : row) (rc : Receipt) (exit_code : Z) (log : string) : bool :=
  match rc_execution rc, rc_exit_code rc, rc_stderr rc with
  | Text execution, Text exit, Text _ =>
      match loads execution, int_of_str exit with
      | Some e, Ok durable =>
          receipt_has_current_policy r && negb (truthy (pget "source_dirty" r)) && negb (truthy (pget "source_changed" r))
          && match strs (pget "selection" r) with Some l => nonempty_list l && forallb nonempty l | None => false end
          && bool_decide (resolve log = rc_directory rc) && completed_supervisor_execution e
          && match e with PDict d => match dget "exit_code" d with Some v => py_eq v (PInt exit_code) | None => true end | _ => true end
          && (durable =? exit_code)
      | _, _ => false
      end
  | _, _, _ => false
  end.
Definition receipt_status (task_id sha : string) (rc : Receipt) (exit_code : Z) (log : string) : CIStatus :=
  {| ci_state := if exit_code =? 0 then "success" else "failure"; queried_sha := sha; stale := false; exists_for_sha := true;
     evidence_url := if nonempty (rc_run rc) then "/runs/" ++ task_id ++ "/" ++ rc_run rc else log;
     failures := if exit_code =? 0 then [] else ["validation exited " ++ show exit_code]%string; provider := "worker_check" |}.
(** What one receipt decides: an answer, or that the next one is looked at *)
Inductive verdict : Type := Answer (s : CIStatus) | Next (mismatched malformed : bool).
Definition judge (task_id sha required_command : string) (rc : Receipt) (mismatched malformed : bool) : result provider_error verdict :=
  let bad := Answer (says "malformed" sha "worker_check") in
  let bad_here := Answer (says_here "malformed" sha "worker_check") in
  match rc_result rc with
  | Gone => Ok (Next mismatched true)
  | Undecodable => Err Refused
  | Text raw =>
      match loads raw with
      | None => let shas := malformed_receipt_sources raw in
          Ok (if mem sha shas then bad_here else if nonempty_list shas then Next true malformed else bad)
      | Some (PDict r) =>
          match dget "source_sha" r with
          | None =>
              if negb (bool_decide (dget "malformed_validation_receipt" r = Some (PBool true))) then Ok bad
              else match strs (pget "recoverable_source_shas" r), pget_or "recoverable_source_shas_overflow" (PBool false) r with
                   | Some sources, PBool overflow => Ok (if mem sha sources then bad_here else if overflow || negb (nonempty_list sources) then bad else Next true malformed)
                   | _, _ => Ok bad
                   end
          | Some source =>
              if negb (bool_decide (py_str source = sha)) then Ok (Next true malformed)
              else match dget "command" r, dget "exit_code" r ≫= (fun v => match py_int v with Ok n => Some n | Err _ => None end), dget "log_location" r with
                   | Some command, Some exit_code, Some log =>
                       if nonempty required_command && negb (bool_decide (py_str command = required_command)) then Ok (Next mismatched malformed)
                       else Ok (if trusted r rc exit_code (py_str log) then Answer (receipt_status task_id sha rc exit_code (py_str log)) else bad_here)
                   | _, _, _ => Ok bad_here
                   end
          end
      | Some _ => Ok bad
      end
  end.
Fixpoint scan_receipts (task_id sha required_command : string) (l : list Receipt) (mismatched malformed : bool) : result provider_error CIStatus :=
  match l with
  | [] =>
      let s := says (if mismatched then "mismatched" else if malformed then "malformed" else "missing")%string sha "worker_check" in
      Ok {| ci_state := ci_state s; queried_sha := sha; stale := mismatched; exists_for_sha := false; evidence_url := ""; failures := []; provider := "worker_check" |}
  | rc :: l' =>
      v ← judge task_id sha required_command rc mismatched malformed;
      match v with Answer s => Ok s | Next mismatched malformed => scan_receipts task_id sha required_command l' mismatched malformed end
  end.
(** Newest first *)
Definition newer (a b : Receipt) : bool := if rc_mtime a =? rc_mtime b then str_leb (rc_path b) (rc_path a) else rc_mtime b <? rc_mtime a.
Definition worker_check_status (task_id sha : string) (policy : row) (receipts : list Receipt) : result provider_error CIStatus :=
  scan_receipts task_id sha (strip (py_str (por (pget "command" policy) (PStr "")))) (sort_by newer receipts) false false.

(** ** A command of the operator *)

Definition COMMAND_STATES : list string := ["success"; "failure"; "pending"; "missing"; "unavailable"].
Definition DEFAULT_COMMAND_TIMEOUT_SECONDS : Q := 120%Q.
Definition MAX_COMMAND_OUTPUT_BYTES : Z := 64000.
(** [command_timeout]; what no query accepts becomes 0. *)
Definition command_timeout (v : pyval) : Q :=
  match v with PNone => DEFAULT_COMMAND_TIMEOUT_SECONDS | PBool _ => 0%Q | _ => default 0%Q (float v) end.
Definition commit_id (sha : string) : bool := let n := Z.of_nat (String.length sha) in (7 <=? n) && (n <=? 64) && str_all is_hex sha.

(** What running the command gives: [OSError] and undecodable output are [Unrunnable]. *)
Inductive reply : Type := Expired | Unrunnable | Exited (code : Z) (stdout : string).
(** [s[:n]], in characters *)
Fixpoint take_chars (n : nat) (s : string) : string :=
  match s with
  | EmptyString => EmptyString
  | String c s' => if is_continuation c then String c (take_chars n s') else match n with O => EmptyString | S n' => String c (take_chars n' s') end
  end.
Definition flag (k : string) (r : row) : option bool := match pget_or k (PBool false) r with PBool b => Some b | _ => None end.
(** [_command_result] *)
Definition command_result (stdout sha : string) : CIStatus :=
  let malformed := says "malformed" sha "command" in
  if MAX_COMMAND_OUTPUT_BYTES <? Z.of_nat (String.length stdout) then malformed
  else match loads stdout with
  | Some (PDict r) =>
      if negb (bool_decide (py_str (por (pget "sha" r) (PStr "")) = sha)) || negb (in_strs (pget "state" r) COMMAND_STATES) then malformed
      else match flag "stale" r, flag "exists_for_sha" r with
      | Some st, Some here =>
          let state := py_str (pget "state" r) in
          if bool_decide (state = "success") && negb (dmem "stale" r && dmem "exists_for_sha" r) then malformed
          else match strs (pget_or "failures" (PList []) r), pget_or "evidence_url" (PStr "") r with
          | Some fs, PStr url =>
              {| ci_state := state; queried_sha := sha; stale := st; exists_for_sha := here; evidence_url := redact (take_chars 500 url);
                 failures := map (fun f => redact (take_chars 200 f)) (firstn 5 fs); provider := "command" |}
          | _, _ => malformed
          end
      | _, _ => malformed
      end
  | _ => malformed
  end.
Definition unavailable (sha reason : string) : CIStatus :=
  {| ci_state := "unavailable"; queried_sha := sha; stale := false; exists_for_sha := false; evidence_url := ""; failures := [reason]; provider := "command" |}.
(** [_command_answer] *)
Definition command_answer (r : reply) (sha : string) : CIStatus :=
  match r with
  | Expired => says "timeout" sha "command"
  | Unrunnable => unavailable sha "validation command could not be run"
  | Exited code stdout => if code =? 0 then command_result stdout sha else unavailable sha ("validation command exited " ++ show code)
  end.

Fixpoint recall (key : list string) (l : list (list string * CIStatus)) : option CIStatus :=
  match l with [] => None | (k, s) :: l' => if bool_decide (k = key) then Some s else recall key l' end.
(** [command_status]; the head of the key is the commit. *)
Definition command_status (ask : list string -> Q -> reply) (sha : string) (policy : row) (kept : cache) : result provider_error (CIStatus * cache) :=
  match shlex_split (py_str (por (pget "command" policy) (PStr ""))) with
  | None => Err Refused
  | Some argv =>
      let timeout := command_timeout (pget "timeout_seconds" policy) in
      if negb (nonempty_list argv) || Qle_bool timeout 0 || negb (Qle_bool timeout 3600) || negb (commit_id sha) then Ok (says "malformed" sha "command", kept)
      else let key := sha :: argv in
        match kept ≫= recall key with
        | Some s => Ok (s, kept)
        | None => let s := command_answer (ask (argv ++ [sha]) timeout) sha in Ok (s, match kept with Some l => Some ((key, s) :: l) | None => None end)
        end
  end.

(** ** The providers *)

Definition dict_or_refuse (v : pyval) : result provider_error row := match v with PDict d => Ok d | PList [] => Ok [] | PStr s => if nonempty s then Err Refused else Ok [] | _ => if truthy v then Err Refused else Ok [] end.
(** [STATUS_PROVIDERS]: the three of the garden *)
Inductive provider_kind : Type := GithubProvider | WorkerProvider | CommandProvider.
Definition STATUS_PROVIDERS : list (string * provider_kind) := [("github"%string, GithubProvider); ("worker_check"%string, WorkerProvider); ("command"%string, CommandProvider)].
Definition provide (ask : list string -> Q -> reply) (receipts : list Receipt) (k : provider_kind) (task_id : string) (pr : PRInfo) (policy : row) (kept : cache) : result provider_error (CIStatus * cache) :=
  match k with
  | GithubProvider => Ok (github_status pr (truthy (pget "required" policy)), kept)
  | WorkerProvider => d ← dict_or_refuse (por (pget "worker_check" policy) (PDict [])); s ← worker_check_status task_id (head_sha pr) d receipts; Ok (s, kept)
  | CommandProvider => d ← dict_or_refuse (por (pget "command" policy) (PDict [])); command_status ask (head_sha pr) d kept
  end.
(** [resolve_status] *)
Definition resolve_status (ask : list string -> Q -> reply) (receipts : list Receipt) (name task_id : string) (pr : PRInfo) (policy : row) (kept : cache) : CIStatus * cache :=
  match dget name STATUS_PROVIDERS with
  | None => (says "unknown" (head_sha pr) name, kept)
  | Some k =>
      match provide ask receipts k task_id pr policy kept with
      | Err TimedOut => (says "timeout" (head_sha pr) name, kept)
      | Err Refused => (says "malformed" (head_sha pr) name, kept)
      | Ok (s, kept) => (if bool_decide (queried_sha s = head_sha pr) then s else says "malformed" (head_sha pr) name, kept)
      end
  end.
End providers.

(** ** What an answer calls for *)

Definition UNAVAILABLE_STATES : list string := ["unavailable"; "malformed"; "timeout"; "unknown"].
(** [status_disposition] *)
Definition status_disposition (s : CIStatus) : string :=
  if green s || bool_decide (ci_state s = "not_required") then "green"
  else if mem (ci_state s) UNAVAILABLE_STATES then "unavailable"
  else if stale s || negb (exists_for_sha s) then "absent"
  else if bool_decide (ci_state s = "failure") then "failure"
  else if bool_decide (ci_state s = "pending") then "waiting" else "absent".
Definition PROVIDER_LABELS : list (string * string) := [("github", "github checks"); ("worker_check", "worker validation"); ("command", "the configured validation command")]%string.
Definition some_head (s : CIStatus) (otherwise : string) : string := let h := take_str 12 (queried_sha s) in if nonempty h then h else otherwise.
(** [status_diagnostic] *)
Definition status_diagnostic (s : CIStatus) : string :=
  let label := default (provider s ++ " CI")%string (dget (provider s) PROVIDER_LABELS) in
  let head := some_head s "this PR head" in
  if bool_decide (status_disposition s = "unavailable")
  then (label ++ " could not report a status for " ++ head ++ " (" ++ ci_state s ++ "); check the command, its access to CI and its timeout")%string
  else (label ++ " reports no current result for " ++ head ++ " (" ++ ci_state s ++ "); validation is bound to the exact commit, so an earlier or superseded result is not evidence")%string.
(** [status_reason] *)
Definition status_reason (s : CIStatus) : string :=
  if green s then ""
  else let detail := if nonempty_list (failures s) then (" (" ++ join ", " (failures s) ++ ")")%string else ""%string in
    let label := if bool_decide (provider s = "github") then "github checks"%string else (provider s ++ " CI")%string in
    (label ++ " for " ++ some_head s "unknown head" ++ " is " ++ ci_state s ++ detail)%string.

(** ** A pass is about the commit that was asked for *)

Section bound.
Context (loads : string -> option pyval) (number float : pyval -> option Q) (instant : pyval -> option (option Q)) (shlex_join : list string -> string).
Context (shlex_split : string -> option (list string)) (resolve redact : string -> string).

#[local] Abbreviation judge_ := (judge loads number instant shlex_join resolve).
#[local] Abbreviation scan_ := (scan_receipts loads number instant shlex_join resolve).
#[local] Abbreviation trusted_ := (trusted loads number instant shlex_join resolve).
#[local] Abbreviation answer_ := (command_answer loads redact).

(** A newer receipt that the search goes past: it cannot be read at all ([Gone], an [OSError]), what can be read of it
    is about other commits only, or it is about another command than the one required. *)
Definition passed_over (sha required : string) (rc : Receipt) : Prop :=
  match rc_result rc with
  | Gone => True
  | Undecodable => False
  | Text raw =>
      match loads raw with
      | None => malformed_receipt_sources raw <> [] /\ sha ∉ malformed_receipt_sources raw
      | Some (PDict r) =>
          match dget "source_sha" r with
          | Some source => py_str source <> sha \/ required <> "" /\ (exists command, dget "command" r = Some command /\ py_str command <> required)
          | None => exists sources, strs (pget "recoverable_source_shas" r) = Some sources /\ sources <> [] /\ (sha ∉ sources) /\
              pget_or "recoverable_source_shas_overflow" (PBool false) r = PBool false
          end
      | Some _ => False
      end
  end.
(** The receipt of a validation of the commit that passed *)
Definition passed_here (sha required : string) (rc : Receipt) : Prop :=
  exists raw r source command v log, rc_result rc = Text raw /\ loads raw = Some (PDict r) /\ dget "source_sha" r = Some source /\ py_str source = sha /\
    dget "command" r = Some command /\ (required = "" \/ py_str command = required) /\ dget "exit_code" r = Some v /\ py_int v = Ok 0 /\ trusted_ r rc 0 log = true.

Lemma judge_spec task_id sha required rc mm bad v : judge_ task_id sha required rc mm bad = Ok v ->
  match v with
  | Next _ _ => passed_over sha required rc
  | Answer s => queried_sha s = sha /\ (green s = true -> passed_here sha required rc)
  end.
Proof.
  unfold judge, passed_over. cbv zeta. intros H. destruct (rc_result rc) as [| |raw] eqn:Hr; [by injection H as <-|done|].
  destruct (loads raw) as [[]|] eqn:Hl; try (by injection H as <-).
  - destruct (dget "source_sha" d) as [source|] eqn:Hs.
    + destruct (bool_decide_reflect (py_str source = sha)) as [He|Hne]; cbn [negb] in H; [|injection H as <-; by left].
      destruct (dget "command" d) as [command|] eqn:Hc; [|by injection H as <-]. destruct (dget "exit_code" d) as [v0|] eqn:Hv; [|by injection H as <-].
      destruct (py_int v0) as [exit|] eqn:Hi; cbn in H; rewrite ?Hi in H; [|by injection H as <-]. destruct (dget "log_location" d) as [log|]; [|by injection H as <-].
      destruct (nonempty required && _) eqn:Hreq.
      { injection H as <-. right. apply andb_true_iff in Hreq as [Hne Hreq%negb_true_iff%bool_decide_eq_false]. split; [by intros ->|by exists command]. }
      injection H as <-. destruct (trusted_ d rc exit (py_str log)) eqn:Ht; [|done]. split; [done|]. unfold green, receipt_status. cbn.
      destruct (Z.eqb_spec exit 0) as [->|]; [|done]. intros _. exists raw, d, source, command, v0, (py_str log). repeat (split; [done|]). split; [|done].
      destruct required; [by left|right]. cbn in Hreq. by apply negb_false_iff, bool_decide_eq_true in Hreq.
    + destruct (negb _); [by injection H as <-|]. destruct (strs _) as [sources|] eqn:Hsrc; [|by injection H as <-].
      destruct (pget_or _ _ _) eqn:Ho; try (by injection H as <-). injection H as <-. destruct (mem sha sources) eqn:Hm; [done|].
      destruct b; cbn; [done|]. destruct sources as [|x sources]; cbn; [done|]. exists (x :: sources). split; [done|]. split; [done|]. split; [|done]. by apply mem_false.
  - injection H as <-. destruct (mem sha _) eqn:Hm; [done|]. destruct (malformed_receipt_sources raw) as [|x l]; cbn; [done|]. split; [done|]. by apply mem_false.
Qed.
Lemma receipts_spec task_id sha required l mm bad s : scan_ task_id sha required l mm bad = Ok s ->
  queried_sha s = sha /\ (green s = true -> exists newer older rc, l = newer ++ rc :: older /\ Forall (passed_over sha required) newer /\ passed_here sha required rc).
Proof.
  revert mm bad. induction l as [|rc l IH]; intros mm bad; cbn [scan_receipts].
  - intros [= <-]. split; [done|]. unfold green. cbn. by destruct mm, bad.
  - intros (v & Hv & H)%bind_Ok. pose proof (judge_spec _ _ _ _ _ _ _ Hv) as Hj. destruct v as [s'|mm' bad'].
    + injection H as ->. destruct Hj as [Hq Hg]. split; [done|]. intros Hgr. exists [], l, rc. split; [done|]. split; [constructor|by apply Hg].
    + destruct (IH _ _ H) as [Hq Hg]. split; [done|]. intros (newer & older & rc' & -> & Hn & Hp)%Hg. exists (rc :: newer), older, rc'. split; [done|]. split; [by constructor|done].
Qed.

(** What a command printed when it says that the commit passed *)
Definition printed_pass (sha : string) (r : reply) : Prop :=
  exists stdout row, r = Exited 0 stdout /\ Z.of_nat (String.length stdout) <= MAX_COMMAND_OUTPUT_BYTES /\ loads stdout = Some (PDict row) /\ py_str (por (pget "sha" row) (PStr "")) = sha /\
    is_str (pget "state" row) "success" = true /\ dget "exists_for_sha" row = Some (PBool true) /\ dget "stale" row = Some (PBool false).

Lemma says_green state sha p : green (says state sha p) = false.
Proof. unfold green. cbn. by rewrite andb_false_r. Qed.
Lemma flag_said k r b : flag k r = Some b -> dmem k r = true -> dget k r = Some (PBool b).
Proof. unfold flag, pget_or, dmem. destruct (dget k r) as [[]|]; cbn; intros H; try done. by injection H as ->. Qed.
Lemma answer_spec r sha : queried_sha (answer_ r sha) = sha /\ (green (answer_ r sha) = true -> printed_pass sha r).
Proof.
  unfold command_answer. destruct r as [| |code stdout]; [done|done|]. destruct (Z.eqb_spec code 0) as [->|]; [|done].
  unfold command_result. cbv zeta. destruct (Z.ltb_spec MAX_COMMAND_OUTPUT_BYTES (Z.of_nat (String.length stdout))) as [|Hlen]; [done|].
  destruct (loads stdout) as [[]|] eqn:Hl; try done. destruct (_ || _) eqn:Hb; [done|]. apply orb_false_iff in Hb as [Hsha%negb_false_iff%bool_decide_eq_true Hst%negb_false_iff].
  destruct (flag "stale" d) as [st|] eqn:Hf; [|done]. destruct (flag "exists_for_sha" d) as [here|] eqn:Hh; [|done].
  destruct (bool_decide_reflect (py_str (pget "state" d) = "success"%string)) as [Hs|Hs]; cbn [andb].
  - destruct (dmem "stale" d) eqn:Hm1; [|done]. destruct (dmem "exists_for_sha" d) eqn:Hm2; [|done]. cbn [andb negb].
    destruct (strs _); [|done]. destruct (pget_or "evidence_url" _ _); try done. split; [done|]. unfold green. cbn. intros [[_ ->]%andb_true_iff ->%negb_true_iff]%andb_true_iff.
    exists stdout, d. repeat (split; [done|]). split; [|split; by apply flag_said]. unfold in_strs in Hst. destruct (pget "state" d); try done. cbn in Hs. subst. by apply bool_decide_eq_true.
  - destruct (strs _); [|done]. destruct (pget_or "evidence_url" _ _); try done. split; [done|]. unfold green. cbn. by rewrite bool_decide_eq_false_2.
Qed.

(** Kept answers are answers to the commit of their key. *)
Definition kept_ok (kept : cache) : Prop := forall l key s, kept = Some l -> recall key l = Some s -> exists sha argv r, key = sha :: argv /\ s = answer_ r sha.
Lemma command_spec ask sha policy kept s kept' : kept_ok kept -> command_status loads float shlex_split redact ask sha policy kept = Ok (s, kept') ->
  kept_ok kept' /\ queried_sha s = sha /\ (green s = true -> commit_id sha = true /\ exists r, printed_pass sha r /\ s = answer_ r sha).
Proof.
  intros Hk. unfold command_status. destruct (shlex_split _) as [argv|]; [|done]. cbv zeta. destruct (_ || _) eqn:Hb.
  { intros [= <- <-]. split; [done|]. split; [done|]. by rewrite says_green. }
  apply orb_false_iff in Hb as [_ Hid%negb_false_iff]. destruct (kept ≫= recall (sha :: argv)) as [s0|] eqn:Hr.
  - intros [= <- <-]. split; [done|]. destruct kept as [l|]; [|done]. destruct (Hk l _ _ eq_refl Hr) as (sha' & argv' & r & [= <- <-] & ->).
    destruct (answer_spec r sha) as [Hq Hg]. split; [done|]. intros Hgr. split; [done|]. exists r. auto.
  - intros [= <- <-]. destruct (answer_spec (ask (argv ++ [sha]) (command_timeout float (pget "timeout_seconds" policy))) sha) as [Hq Hg]. split; [|split; [done|]].
    + destruct kept as [l|]; [|done]. intros l' key s [= <-]. cbn. case_bool_decide as E; [|by apply Hk]. intros [= <-]. subst. eauto.
    + intros Hgr. split; [done|]. eauto.
Qed.

(** C35.  (Safety.)  Whatever files, commands and earlier answers of the tick there are, an answer is about the commit that was asked for; and when it is green,
    the forge's rollup of that commit succeeded; or a supervised validation of that commit, trusted and by the command the policy requires (any, when it requires none), passed, and
    every newer receipt was passed over because it could not be read, is about other commits only, or is for another command; or a
    command printed for that commit, and said out loud, that a current result exists and is a success.  Everything else, also an unknown provider, is not green.
    So the receipt is the newest among those that can be read and concern this commit and command: a newest receipt that cannot be read does not prevent green
    (Lemma [unreadable_receipt_passed_over]; the comment at [ci_status.py:131] says otherwise). *)
Theorem green_bound_to_head ask receipts name task_id pr policy kept s kept' (Hkept : kept_ok kept)
    (Hs : resolve_status loads number float instant shlex_join shlex_split resolve redact ask receipts name task_id pr policy kept = (s, kept')) :
  kept_ok kept' /\ queried_sha s = head_sha pr /\
  (green s = true -> match dget name STATUS_PROVIDERS with
    | Some GithubProvider => upper (checks pr) = "SUCCESS"%string
    | Some WorkerProvider => exists settings newer_ones older rc, dict_or_refuse (por (pget "worker_check" policy) (PDict [])) = Ok settings
        /\ let required := strip (py_str (por (pget "command" settings) (PStr ""))) in
           sort_by newer receipts = newer_ones ++ rc :: older /\ Forall (passed_over (head_sha pr) required) newer_ones /\ passed_here (head_sha pr) required rc
    | Some CommandProvider => commit_id (head_sha pr) = true /\ exists r, printed_pass (head_sha pr) r
    | None => False
    end).
Proof.
  unfold resolve_status in Hs. destruct (dget name STATUS_PROVIDERS) as [k|]; [|simplify_eq; by rewrite says_green].
  destruct (provide _ _ _ _ _ _ _ _ _ _ _ _ _ _ _) as [[s0 kept0]|[]] eqn:Hp; simplify_eq; [|by rewrite says_green..].
  assert (H : kept_ok kept' /\ queried_sha s0 = head_sha pr /\ (green s0 = true -> match k with
    | GithubProvider => upper (checks pr) = "SUCCESS"%string
    | WorkerProvider => exists settings newer_ones older rc, dict_or_refuse (por (pget "worker_check" policy) (PDict [])) = Ok settings
        /\ let required := strip (py_str (por (pget "command" settings) (PStr ""))) in
           sort_by newer receipts = newer_ones ++ rc :: older /\ Forall (passed_over (head_sha pr) required) newer_ones /\ passed_here (head_sha pr) required rc
    | CommandProvider => commit_id (head_sha pr) = true /\ exists r, printed_pass (head_sha pr) r end)).
  { destruct k; cbn [provide] in Hp.
    - simplify_eq. split; [done|]. unfold github_status. cbv zeta. destruct (_ && _); [done|]. split; [done|]. unfold green. cbn.
      repeat case_bool_decide; try done. by destruct (nonempty _).
    - apply bind_Ok in Hp as (d & Hd & (s1 & Hs1 & [= -> ->])%bind_Ok). split; [done|]. apply receipts_spec in Hs1 as [Hq Hg]. split; [done|]. intros (n & o & rc & H)%Hg. by exists d, n, o, rc.
    - apply bind_Ok in Hp as (d & _ & H). apply command_spec in H as (H1 & H2 & H3); [|done]. split; [done|]. split; [done|]. intros [Hid (r & Hr & _)]%H3. split; [done|by exists r]. }
  destruct H as (H1 & H2 & H3). rewrite bool_decide_eq_true_2 by done. auto.
Qed.
End bound.

(** ** Receipts of one commit *)

Module Ci.
Definition strings (l : list string) : pyval := PList (map PStr l).
Definition effective : list string := ["pytest"] ++ POLICY_ADDOPTS.
Definition receipt (sha : string) (exit : Z) : row :=
  [("source_sha", PStr sha); ("command", PStr "pytest"); ("exit_code", PInt exit); ("log_location", PStr "/v/1"); ("version", PInt 1); ("source_dirty", PStr ""); ("source_changed", PBool false);
   ("selection", strings effective);
   ("policy", PDict [("version", PInt 1); ("source_sha", PStr POLICY_SOURCE_SHA); ("kind", PStr "pytest"); ("requested_selection", strings ["pytest"]); ("effective_selection", strings effective);
                     ("excluded_nodes", strings STRESS_NODES); ("stress_opt_in", PBool false)])]%string.
Definition execution : row :=
  [("state", PStr "finished"); ("owner", PStr "garden"); ("pid", PInt 7); ("timeout_seconds", PInt 60); ("execution_started_at", PInt 100); ("deadline_at", PInt 160); ("inherited_lease", PBool true)]%string.
(** A parser of three texts *)
Definition loads (s : string) : option pyval :=
  if bool_decide (s = "passed") then Some (PDict (receipt "abc1234" 0)) else if bool_decide (s = "failed") then Some (PDict (receipt "abc1234" 1))
  else if bool_decide (s = "another") then Some (PDict (receipt "fff0000" 1)) else if bool_decide (s = "execution") then Some (PDict execution) else None.
Definition number (v : pyval) : option Q := match v with PInt n => Some (inject_Z n) | _ => None end.
Definition instant (v : pyval) : option (option Q) := Some <$> number v.
Definition same (s : string) : string := s.
Definition file (mtime : Z) (result : text_file) (exit : string) : Receipt :=
  {| rc_path := "/v/1/result.json"; rc_mtime := mtime; rc_result := result; rc_execution := Text "execution"; rc_exit_code := Text exit; rc_stderr := Text ""; rc_directory := "/v/1"; rc_run := "r1" |}.
Definition pr : PRInfo := {| pr_number := 7; pr_url := "u"; pr_state := "OPEN"; pr_base := "main"; review_decision := ""; mergeable := "MERGEABLE"; checks := "SUCCESS"; failed_checks := []; head_sha := "abc1234" |}.
Definition ask (argv : list string) (timeout : Q) : reply := Expired.
Definition resolved (name : string) (receipts : list Receipt) : CIStatus * cache :=
  resolve_status loads number number instant (join " ") (fun s => Some [s]) same same ask receipts name "CG-1" pr [] None.
End Ci.

(** The newest receipt of the commit counts, whatever the others say about other commits; a truncated receipt that does not say what it is about holds everything. *)
Example receipts_judged :
  map (fun l => ci_state (Ci.resolved "worker_check" l).1)
    [[Ci.file 1 (Text "passed") "0"; Ci.file 2 (Text "another") "1"]; [Ci.file 1 (Text "passed") "0"; Ci.file 2 (Text "failed") "1"]; [Ci.file 1 (Text "passed") "0"; Ci.file 2 (Text "{") "0"];
     [Ci.file 1 (Text "passed") "1"]; []]
  = ["success"; "failure"; "malformed"; "malformed"; "missing"]%string.
Proof. vm_compute. reflexivity. Qed.

(** A newest receipt that cannot be read at all is passed over: an older success stands in for it. *)
Lemma unreadable_receipt_passed_over : green (Ci.resolved "worker_check" [Ci.file 1 (Text "passed") "0"; Ci.file 2 Gone "1"]).1 = true.
Proof. vm_compute. reflexivity. Qed.

Lemma green_bound_to_head_witness : exists settings newer_ones older rc, dict_or_refuse (por (pget "worker_check" []) (PDict [])) = Ok settings /\
  let required := strip (py_str (por (pget "command" settings) (PStr ""))) in
  sort_by newer [Ci.file 1 (Text "passed") "0"; Ci.file 2 (Text "another") "1"] = newer_ones ++ rc :: older /\ Forall (passed_over Ci.loads "abc1234" required) newer_ones /\
  passed_here Ci.loads Ci.number Ci.instant (join " ") Ci.same "abc1234" required rc.
Proof.
  destruct (green_bound_to_head Ci.loads Ci.number Ci.number Ci.instant (join " ") (fun s => Some [s]) Ci.same Ci.same Ci.ask [Ci.file 1 (Text "passed") "0"; Ci.file 2 (Text "another") "1"]
    "worker_check" "CG-1" Ci.pr [] None (Ci.resolved "worker_check" [Ci.file 1 (Text "passed") "0"; Ci.file 2 (Text "another") "1"]).1 None) as (_ & _ & H); [done|vm_compute; reflexivity|].
  apply H. vm_compute. reflexivity.
Defined.
