(* ===== verification/Approval.v ===== *)
(** * Which head an approval covers ([scheduler/rebase.py], rules 1 and 2)

    A review approves one head.  A rebase changes the head; it keeps the approval only when its run records that it started at the approved head, locally and on
    the forge, and that the patch of the branch is the same before and after.  Such hops form chains, which this component follows: by searching the runs of the task, and
    by the lineage that the side-store keeps.

    [runs] are the runs of the task, oldest first; [r] is the task's entry in the side-store. *)

From S2P Require Import Prelude PyValue Requirements StateStore RunRecords WorkerLease DispatchQueue.

#[local] Open Scope list_scope.
#[local] Open Scope Z_scope.

(** [str(d.get(k) or "")] *)
Definition txt (k : string) (d : row) : string := py_str (por (pget k d) (PStr "")).

(** The heads that a completed rebase of an unchanged patch connects *)
Definition hop_of (run : values) : option (string * string) :=
  let snapshot := env_snapshot run in
  let before := txt "rebase_head_before" snapshot in let after := txt "rebase_head_after" snapshot in
  if bool_decide (RunRecords.text "mode" run = "rebase") && bool_decide (RunRecords.text "status" run = "done") && bool_decide (txt "rebase_local_head_before" snapshot = before)
     && nonempty after && nonempty (RunRecords.text "patch_id_before" run) && bool_decide (RunRecords.text "patch_id_before" run = RunRecords.text "patch_id_after" run)
  then Some (before, after) else None.

Section approval.
Context (runs : list values).

(** ** The search *)

(** One pass over the runs; [None] when it reaches the target. *)
Fixpoint sweep (target : string) (l : list values) (reachable : list string) (advanced : bool) : option (list string * bool) :=
  match l with
  | [] => Some (reachable, advanced)
  | run :: l' =>
      match hop_of run with
      | Some (before, after) =>
          if negb (mem before reachable) || mem after reachable then sweep target l' reachable advanced
          else if bool_decide (after = target) then None else sweep target l' (after :: reachable) true
      | None => sweep target l' reachable advanced
      end
  end.
(** The loop; [None] when the fuel does not suffice. *)
Fixpoint derive (fuel : nat) (target : string) (reachable : list string) : option bool :=
  match fuel with
  | O => None
  | S n => match sweep target runs reachable false with
           | None => Some true
           | Some (reachable', true) => derive n target reachable'
           | Some (_, false) => Some false
           end
  end.
(** [_head_is_mechanically_derived] *)
Definition search (source target : string) : option bool :=
  if negb (nonempty source) || negb (nonempty target) then Some false
  else if bool_decide (source = target) then Some true else derive (S (List.length runs)) target [source].
Definition head_is_mechanically_derived (source target : string) : bool := default false (search source target).

(** ** The approval and its lineage *)

Definition last_review (r : row) : row := dict_of_value (por (pget "last_review" r) (PDict [])).
(** [_review_approval_is_proven] *)
Definition review_approval_is_proven (r : row) : bool :=
  let review_head := txt "last_review_head" r in let review_run_id := txt "last_review_run" r in
  nonempty review_head && nonempty review_run_id && bool_decide (txt "verdict" (last_review r) = "approve")
  && match List.find (fun c => bool_decide (RunRecords.text "run_id" c = review_run_id) && bool_decide (RunRecords.text "mode" c = "review")) (rev runs) with
     | None => false
     | Some c => bool_decide (RunRecords.text "status" c = "done") && bool_decide (txt "review_head" (env_snapshot c) = review_head)
         && bool_decide (txt "verdict" (dict_of_value (por (field "result" c) (PDict []))) = "approve")
     end.
(** [{candidate.run_id: candidate ...}.get(id)]: the last one counts. *)
Definition run_with_id (i : string) : option values := List.find (fun c => bool_decide (RunRecords.text "run_id" c = i)) (rev runs).
(** The hops of a lineage, one after the other *)
Fixpoint follow (current : string) (hops : list pyval) : option string :=
  match hops with
  | [] => Some current
  | PDict hop :: hops' =>
      let before := txt "from_head" hop in let after := txt "head" hop in
      if negb (nonempty before) || negb (nonempty after) || negb (bool_decide (before = current)) then None
      else match run_with_id (txt "run" hop) with
           | Some c => if bool_decide (hop_of c = Some (before, after)) then follow after hops' else None
           | None => None
           end
  | _ :: _ => None
  end.
(** [_derived_approved_head]; [""] when there is none *)
Definition derived_approved_head (r : row) : string :=
  match pget "derived_review_approval" r with
  | PDict lineage =>
      if negb (review_approval_is_proven r) then ""
      else let review_head := txt "last_review_head" r in
        if negb (bool_decide (txt "review_head" lineage = review_head)) || negb (bool_decide (txt "review_run" lineage = txt "last_review_run" r)) then ""
        else match pget "rebases" lineage with
             | PList hops => if nonempty_list hops then match follow review_head hops with Some current => if bool_decide (current = txt "head" lineage) then current else "" | None => "" end else ""
             | _ => ""
             end
  | _ => ""
  end.
(** [_effective_approved_head] *)
Definition effective_approved_head (r : row) : string :=
  let reviewed := txt "last_review_head" r in let current := txt "head_sha" r in
  if review_approval_is_proven r && head_is_mechanically_derived reviewed current then current
  else let derived := derived_approved_head r in if nonempty derived then derived else reviewed.
(** [_extend_approved_head_lineage]: the new entry, when the run extends the lineage *)
Definition extend_approved_head_lineage (run : values) (r : row) : option row :=
  let snapshot := env_snapshot run in
  let before := txt "rebase_head_before" snapshot in let after := txt "rebase_head_after" snapshot in
  let patch := RunRecords.text "patch_id_after" run in
  if negb (nonempty before) || negb (bool_decide (txt "rebase_local_head_before" snapshot = before)) || negb (nonempty after) || negb (nonempty (RunRecords.text "patch_id_before" run))
     || negb (bool_decide (RunRecords.text "patch_id_before" run = patch)) || negb (review_approval_is_proven r) then None
  else
    let extended hops := Some (dset "derived_review_approval" (PDict
      [("review_run", PStr (txt "last_review_run" r)); ("review_head", PStr (txt "last_review_head" r)); ("head", PStr after);
       ("rebases", PList (hops ++ [PDict [("run", PStr (RunRecords.text "run_id" run)); ("from_head", PStr before); ("head", PStr after); ("patch_id", PStr patch)]]))]%string) r) in
    match pget "derived_review_approval" r with
    | PNone => if bool_decide (before = txt "last_review_head" r) then extended [] else None
    | PDict existing => if bool_decide (derived_approved_head r = before) then extended match pget "rebases" existing with PList l => l | _ => [] end else None
    | _ => None
    end.

(** ** After a rebase *)

Inductive after_rebase : Type :=
| VerdictKept                        (* no review *)
| ExactReview (dispatch : bool)      (* the new head needs a review of its own; it may be queued already *)
| ReviewChanges.                     (* the patch changed *)
(** [_rebase_review_or_keep]; [diff_hash] is the hash of the branch's diff now, or empty when there is no checkout. *)
Definition rebase_review_or_keep (run : values) (require_current_base : bool) (diff_hash : string) (r : row) : after_rebase * row :=
  let patch := RunRecords.text "patch_id_before" run in
  if nonempty patch && bool_decide (patch = RunRecords.text "patch_id_after" run) then
    let kept r := (VerdictKept, without "pending_triage_notify" r) in
    if require_current_base then kept r
    else match extend_approved_head_lineage run r with
         | Some r => kept r
         | None =>
             let pending := match pget "pending_reviews" r with PList l => l | _ => [] end in
             let waiting := existsb (fun v => match v with PDict d => is_str (pget "kind" d) "review" | _ => false end) pending in
             (ExactReview (negb (truthy (pget "review_run" r)) && negb waiting), without "derived_review_approval" r)
         end
  else
    let r := without "derived_review_approval" r in
    (ReviewChanges, if nonempty diff_hash then dset "last_diff_hash" (PStr diff_hash) r else r).
End approval.

(** ** The search finds exactly the chains *)

Definition hop (runs : list values) (a b : string) : Prop := exists run, run ∈ runs /\ hop_of run = Some (a, b).

Lemma hop_after run a b : hop_of run = Some (a, b) -> nonempty b = true.
Proof. unfold hop_of. cbv zeta. destruct (_ && _) eqn:H; [|done]. intros [= <- <-]. rewrite !andb_true_iff in H. tauto. Qed.

Section search.
Context (runs : list values) (source target : string).

(** What is known to be reachable while the loop goes on *)
Record reaching (reachable : list string) : Prop := {
  re_source : source ∈ reachable;
  re_chains : forall h, h ∈ reachable -> rtc (hop runs) source h;
  re_target : target ∉ reachable;
  re_nodup : NoDup reachable;
  re_known : forall h, h ∈ reachable -> h = source \/ h ∈ omap (fun run => snd <$> hop_of run) runs }.

Lemma sweep_spec l reachable advanced : l ⊆ runs -> reaching reachable ->
  match sweep target l reachable advanced with
  | None => rtc (hop runs) source target
  | Some (reachable', advanced') => reaching reachable' /\ (List.length reachable <= List.length reachable')%nat /\
      if advanced' then advanced = true \/ (List.length reachable < List.length reachable')%nat
      else advanced = false /\ reachable' = reachable /\ (forall run a b, run ∈ l -> hop_of run = Some (a, b) -> a ∈ reachable -> b ∈ reachable)
  end.
Proof.
  revert reachable advanced. induction l as [|run l IH]; intros reachable advanced Hl Hr; cbn [sweep].
  - split; [done|]. split; [done|]. destruct advanced; [by left|]. split; [done|]. split; [done|]. intros run a b H. by apply elem_of_nil in H.
  - assert (Hin : run ∈ runs) by (apply Hl; by left). assert (Hl' : l ⊆ runs) by (intros x Hx; apply Hl; by right).
    assert (Hskip : (forall a b, hop_of run = Some (a, b) -> a ∈ reachable -> b ∈ reachable) -> match sweep target l reachable advanced with
      | None => rtc (hop runs) source target
      | Some (reachable', advanced') => reaching reachable' /\ (List.length reachable <= List.length reachable')%nat /\
          if advanced' then advanced = true \/ (List.length reachable < List.length reachable')%nat
          else advanced = false /\ reachable' = reachable /\ (forall run' a b, run' ∈ run :: l -> hop_of run' = Some (a, b) -> a ∈ reachable -> b ∈ reachable) end).
    { intros Hrun. pose proof (IH reachable advanced Hl' Hr) as H. destruct (sweep target l reachable advanced) as [[reachable' []]|]; [done| |done].
      destruct H as (H1 & H2 & H3 & H4 & H5). split; [done|]. split; [done|]. split; [done|]. split; [done|]. intros run' a b [->|Hx]%elem_of_cons; [apply Hrun|by apply H5]. }
    destruct (hop_of run) as [[before after]|] eqn:Hh; [|by apply Hskip].
    destruct (mem before reachable) eqn:Hb; cbn [negb orb]; [|apply Hskip; intros a b [= <- <-] Ha; by apply mem_false in Hb].
    destruct (mem after reachable) eqn:Ha; [apply Hskip; intros a b [= <- <-] _; by apply mem_spec in Ha|].
    apply mem_spec in Hb. apply mem_false in Ha. assert (Hc : rtc (hop runs) source after).
    { eapply rtc_r; [by apply (re_chains _ Hr)|]. by exists run. }
    case_bool_decide as Ht; [by subst|]. assert (Hr' : reaching (after :: reachable)).
    { destruct Hr as [R1 R2 R3 R4 R5]. split; [by right|intros h [->|H]%elem_of_cons; auto|by apply not_elem_of_cons; auto|by apply NoDup_cons|].
      intros h [->|H]%elem_of_cons; [right|auto]. apply list_elem_of_omap. exists run. by rewrite Hh. }
    pose proof (IH (after :: reachable) true Hl' Hr') as H. destruct (sweep target l (after :: reachable) true) as [[reachable' adv]|]; [|done].
    destruct H as (H1 & H2 & H3). cbn in H2. split; [done|]. split; [lia|]. destruct adv; [right; lia|by destruct H3].
Qed.

Lemma reaching_bound reachable : reaching reachable -> (List.length reachable <= S (List.length runs))%nat.
Proof.
  intros [_ _ _ Hnd Hknown]. assert (Hs : reachable ⊆ source :: omap (fun run => snd <$> hop_of run) runs) by (intros h [->|H]%Hknown; [by left|by right]).
  pose proof (submseteq_length _ _ (NoDup_submseteq _ _ Hnd Hs)) as Hlen. cbn in Hlen.
  assert (Ho : forall l : list values, (List.length (omap (fun run => snd <$> hop_of run) l) <= List.length l)%nat).
  { induction l as [|x l IH]; cbn; [done|]. destruct (hop_of x); cbn; lia. }
  specialize (Ho runs). lia.
Qed.
Lemma derive_spec fuel reachable : reaching reachable -> (List.length runs + 2 <= fuel + List.length reachable)%nat ->
  exists b, derive runs fuel target reachable = Some b /\ (b = true <-> rtc (hop runs) source target).
Proof.
  revert reachable. induction fuel as [|n IH]; intros reachable Hr Hfuel; [apply reaching_bound in Hr; lia|]. cbn [derive].
  pose proof (sweep_spec runs reachable false ltac:(done) Hr) as H. destruct (sweep target runs reachable false) as [[reachable' []]|].
  - destruct H as (H1 & H2 & [?|H3]); [done|]. apply IH; [done|lia].
  - destruct H as (_ & _ & _ & _ & H). exists false. split; [done|]. split; [done|]. intros Hc. exfalso. apply (re_target _ Hr).
    assert (Hall : forall h, rtc (hop runs) source h -> h ∈ reachable); [|by apply Hall]. intros h. apply (rtc_ind_r (fun x => x ∈ reachable)); [by apply Hr|].
    intros a b _ (run & Hin & Hh) Ha. by apply (H run a b).
  - by exists true.
Qed.
End search.

(** (Equivalence.)  The search for a mechanically derived head stops, within one round more than there are runs, and finds a head exactly when a chain of
    completed rebases leads to it, each of which started where the one before ended, locally and on the forge, and left the patch as it was. *)
Theorem mechanically_derived_iff runs source target :
  exists b, search runs source target = Some b /\ (b = true <-> source <> "" /\ target <> "" /\ rtc (hop runs) source target).
Proof.
  unfold search. destruct source as [|c source]; [exists false; naive_solver|]. destruct target as [|c' target]; [exists false; naive_solver|]. cbn [nonempty negb orb].
  case_bool_decide as E; [rewrite E; exists true; naive_solver|]. destruct (derive_spec runs (String c source) (String c' target) (S (List.length runs)) [String c source]) as (b & Hb & Hiff).
  - split; [by left| |by apply not_elem_of_cons; split; [|apply not_elem_of_nil]|by apply NoDup_singleton|]; intros h ->%list_elem_of_singleton; [done|by left].
  - cbn. lia.
  - exists b. split; [done|]. naive_solver.
Qed.

(** ** Approval moves along chains only *)

(** The review run that an approval rests on *)
Definition approving_review (runs : list values) (r : row) : Prop :=
  exists c, c ∈ runs /\ RunRecords.text "run_id" c = txt "last_review_run" r /\ RunRecords.text "mode" c = "review" /\ RunRecords.text "status" c = "done" /\
    txt "review_head" (env_snapshot c) = txt "last_review_head" r /\ txt "verdict" (dict_of_value (por (field "result" c) (PDict []))) = "approve".

Lemma find_rev {A} (p : A -> bool) l x : List.find p (rev l) = Some x -> x ∈ l /\ p x = true.
Proof. intros [H1 H2]%List.find_some. split; [|done]. apply list_elem_of_In. by apply in_rev. Qed.
Lemma proven_review runs r : review_approval_is_proven runs r = true -> approving_review runs r.
Proof.
  unfold review_approval_is_proven. cbv zeta. intros [_ H]%andb_true_iff. destruct (List.find _ _) as [c|] eqn:Hf; [|done].
  apply find_rev in Hf as [Hin Hid]. rewrite !andb_true_iff, !bool_decide_eq_true in *. exists c. tauto.
Qed.
Lemma follow_chain runs current hops h : follow runs current hops = Some h -> rtc (hop runs) current h.
Proof.
  revert current. induction hops as [|v hops IH]; intros current; cbn [follow]; [by intros [= ->]|]. destruct v; try done. cbv zeta.
  destruct (_ || _) eqn:Hb; [done|]. apply orb_false_iff in Hb as [_ Hb%negb_false_iff%bool_decide_eq_true]. destruct (run_with_id _ _) as [c|] eqn:Hc; [|done].
  case_bool_decide as Hh; [|done]. intros H%IH. subst. apply rtc_l with (txt "head" d); [|done]. exists c. split; [|done]. by apply find_rev in Hc as [? _].
Qed.
Lemma derived_spec runs r : nonempty (derived_approved_head runs r) = true ->
  review_approval_is_proven runs r = true /\ exists lineage hops, pget "derived_review_approval" r = PDict lineage /\ pget "rebases" lineage = PList hops /\
    txt "review_head" lineage = txt "last_review_head" r /\ txt "review_run" lineage = txt "last_review_run" r /\ follow runs (txt "last_review_head" r) hops = Some (derived_approved_head runs r).
Proof.
  unfold derived_approved_head. destruct (pget "derived_review_approval" r) as [| | | | |lineage|] eqn:Hd; try done. destruct (review_approval_is_proven runs r) eqn:Hp; [|done]. cbn [negb]. cbv zeta.
  destruct (_ || _) eqn:Hb; [done|]. apply orb_false_iff in Hb as [H1%negb_false_iff%bool_decide_eq_true H2%negb_false_iff%bool_decide_eq_true].
  destruct (pget "rebases" lineage) as [| | | |hops| |] eqn:Hr; try done. destruct (nonempty_list hops); [|done]. destruct (follow runs _ hops) as [current|] eqn:Hf; [|done].
  case_bool_decide; [|done]. intros _. split; [done|]. exists lineage, hops. auto 10.
Qed.

(** (Safety.)  The head that an approval covers is the head that was reviewed; or a completed review run of the task, the one the entry names, approved its
    recorded head, which is the reviewed one, and a chain of completed rebases that left the patch as it was leads from there to the head. *)
Theorem effective_head_justified runs r (h := effective_approved_head runs r) :
  h = txt "last_review_head" r \/ (approving_review runs r /\ rtc (hop runs) (txt "last_review_head" r) h).
Proof.
  subst h. unfold effective_approved_head. cbv zeta. destruct (_ && _) eqn:H.
  - apply andb_true_iff in H as [Hp Hs]. right. split; [by apply proven_review|]. unfold head_is_mechanically_derived in Hs.
    destruct (mechanically_derived_iff runs (txt "last_review_head" r) (txt "head_sha" r)) as (b & Hb & Hiff). rewrite Hb in Hs. cbn in Hs. subst. by apply Hiff.
  - destruct (nonempty (derived_approved_head runs r)) eqn:Hd; [|by left]. apply derived_spec in Hd as (Hp & lineage & hops & _ & _ & _ & _ & Hf). right.
    split; [by apply proven_review|by eapply follow_chain].
Qed.

(** *** A lineage grows *)

Lemma pget_dset_ne k k' v r : k <> k' -> pget k (dset k' v r) = pget k r.
Proof. intros H. unfold pget. by rewrite dget_dset_ne. Qed.
Lemma pget_dset_eq k v r : pget k (dset k v r) = v.
Proof. unfold pget. by rewrite dget_dset_eq. Qed.
Lemma txt_dset_ne k k' v r : k <> k' -> txt k (dset k' v r) = txt k r.
Proof. intros H. unfold txt. by rewrite pget_dset_ne. Qed.
Lemma txt_at k d s : pget k d = PStr s -> txt k d = s.
Proof. unfold txt. intros ->. by destruct s. Qed.
(** Proof and lineage read these keys only. *)
Definition approval_keys : list string := ["last_review_head"; "last_review_run"; "last_review"; "derived_review_approval"].
Lemma proven_same runs r r' : (forall k, k ∈ ["last_review_head"; "last_review_run"; "last_review"] -> pget k r' = pget k r) -> review_approval_is_proven runs r' = review_approval_is_proven runs r.
Proof. intros H. unfold review_approval_is_proven, last_review, txt. by rewrite !H by set_solver. Qed.
Lemma derived_same runs r r' : (forall k, k ∈ approval_keys -> pget k r' = pget k r) -> derived_approved_head runs r' = derived_approved_head runs r.
Proof.
  intros H. unfold derived_approved_head. rewrite (proven_same runs r) by (intros k Hk; apply H; set_solver). unfold txt. by rewrite !H by (unfold approval_keys; set_solver).
Qed.
Lemma follow_snoc runs current hops b v : follow runs current hops = Some b -> follow runs current (hops ++ [v]) = follow runs b [v].
Proof.
  revert current. induction hops as [|x hops IH]; intros current; [by intros [= ->]|]. cbn [app]. destruct x; try done. cbn [follow]. cbv zeta.
  destruct (_ || _); [done|]. destruct (run_with_id _ _); [|done]. case_bool_decide; [|done]. apply IH.
Qed.

Definition before_of (run : values) : string := txt "rebase_head_before" (env_snapshot run).
Definition after_of (run : values) : string := txt "rebase_head_after" (env_snapshot run).
Lemma extend_hop runs run r r' : extend_approved_head_lineage runs run r = Some r' -> RunRecords.text "mode" run = "rebase" -> RunRecords.text "status" run = "done" ->
  nonempty (before_of run) = true /\ hop_of run = Some (before_of run, after_of run).
Proof.
  intros He Hmode Hdone. unfold extend_approved_head_lineage in He. cbv zeta in He. destruct (_ || _ || _ || _ || _ || _) eqn:Hb; [done|].
  rewrite !orb_false_iff, !negb_false_iff, !bool_decide_eq_true in Hb. destruct Hb as (((((Hbef & Hloc) & Haft) & Hpb) & Hpatch) & Hp).
  split; [done|]. unfold hop_of, before_of, after_of. cbv zeta. rewrite Haft, Hpb. by rewrite !bool_decide_eq_true_2.
Qed.
Lemma extend_spec runs run r r' :
  extend_approved_head_lineage runs run r = Some r' -> run_with_id runs (RunRecords.text "run_id" run) = Some run -> RunRecords.text "mode" run = "rebase" -> RunRecords.text "status" run = "done" ->
  derived_approved_head runs r' = after_of run /\ review_approval_is_proven runs r' = true /\ txt "last_review_head" r' = txt "last_review_head" r.
Proof.
  intros He Hid Hmode Hdone. destruct (extend_hop _ _ _ _ He Hmode Hdone) as [Hbef Hhop]. pose proof (hop_after _ _ _ Hhop) as Haft.
  unfold extend_approved_head_lineage in He. cbv zeta in He. destruct (_ || _ || _ || _ || _ || _) eqn:Hb; [done|]. apply orb_false_iff in Hb as [_ Hp%negb_false_iff].
  assert (Hmain : forall hops, follow runs (txt "last_review_head" r) hops = Some (before_of run) -> Some (dset "derived_review_approval" (PDict
      [("review_run", PStr (txt "last_review_run" r)); ("review_head", PStr (txt "last_review_head" r)); ("head", PStr (after_of run));
       ("rebases", PList (hops ++ [PDict [("run", PStr (RunRecords.text "run_id" run)); ("from_head", PStr (before_of run)); ("head", PStr (after_of run)); ("patch_id", PStr (RunRecords.text "patch_id_after" run))]]))]%string) r) = Some r' ->
    derived_approved_head runs r' = after_of run /\ review_approval_is_proven runs r' = true /\ txt "last_review_head" r' = txt "last_review_head" r).
  { intros hops Hf [= <-]. set (r' := dset _ _ r). assert (Hp' : review_approval_is_proven runs r' = true) by (rewrite <- Hp; apply proven_same; intros k Hk; apply pget_dset_ne; set_solver).
    split; [|split; [done|by apply txt_dset_ne]]. unfold derived_approved_head. rewrite Hp'. unfold r'. rewrite pget_dset_eq. cbn [negb]. cbv zeta. rewrite !txt_dset_ne by done.
    match goal with |- context [PList (hops ++ [PDict ?h])] => set (last := h) end. match goal with |- context [txt "head" ?l] => set (lineage := l) end.
    rewrite (txt_at "review_head" lineage (txt "last_review_head" r)), (txt_at "review_run" lineage (txt "last_review_run" r)), (txt_at "head" lineage (after_of run)) by reflexivity.
    rewrite !bool_decide_eq_true_2 by done. cbn [negb orb]. change (pget "rebases" lineage) with (PList (hops ++ [PDict last])). cbv iota beta.
    replace (nonempty_list (hops ++ _)) with true by (by destruct hops). rewrite (follow_snoc _ _ _ _ _ Hf). cbn [follow]. cbv zeta.
    rewrite (txt_at "from_head" last (before_of run)), (txt_at "head" last (after_of run)), (txt_at "run" last (RunRecords.text "run_id" run)) by reflexivity.
    unfold before_of, after_of in *. rewrite Hbef, Haft, Hid, !bool_decide_eq_true_2 by done. cbn [negb orb]. by rewrite bool_decide_eq_true_2. }
  destruct (pget "derived_review_approval" r) as [| | | | |existing|] eqn:Hd; try done.
  - case_bool_decide as E; [|done]. apply (Hmain []); [|done]. cbn. unfold before_of. by rewrite E.
  - case_bool_decide as E; [|done]. assert (Hne : nonempty (derived_approved_head runs r) = true) by (by rewrite E).
    destruct (derived_spec runs r Hne) as (_ & lineage & hops & Hl & Hr & _ & _ & Hf). rewrite Hl in Hd. injection Hd as <-. rewrite Hr in He. apply (Hmain hops); [|done]. by rewrite Hf, E.
Qed.

(** C34.  (Safety.)  Where exact heads are approved, a rebase keeps the verdict only when its run, once recorded as done, extends the approval: the head that the approval
    covers through its lineage is then the head after the rebase, by a chain from the reviewed head. *)
Theorem rebase_keeps_proven_approval runs run diff_hash r r' (Hkept : rebase_review_or_keep runs run false diff_hash r = (VerdictKept, r'))
    (Hrun : run_with_id runs (RunRecords.text "run_id" run) = Some run) (Hmode : RunRecords.text "mode" run = "rebase") (Hdone : RunRecords.text "status" run = "done") :
  derived_approved_head runs r' = after_of run /\ approving_review runs r' /\ rtc (hop runs) (txt "last_review_head" r') (after_of run).
Proof.
  unfold rebase_review_or_keep in Hkept. cbv zeta in Hkept. destruct (_ && _) in Hkept; [|by destruct (nonempty diff_hash)]. destruct (extend_approved_head_lineage runs run r) as [r1|] eqn:He; [|done].
  injection Hkept as <-. destruct (extend_spec _ _ _ _ He Hrun Hmode Hdone) as (Hd & Hp & _).
  assert (Hsame : forall k, k <> "pending_triage_notify" -> pget k (without "pending_triage_notify" r1) = pget k r1).
  { intros k Hk. unfold pget, without. clear -Hk. induction r1 as [|[k' v] r1 IH]; [done|]. cbn. case_bool_decide as E; cbn; [subst; rewrite IH; by case_decide|]. case_decide; [done|apply IH]. }
  rewrite (derived_same runs r1) by (intros k Hk; apply Hsame; unfold approval_keys in Hk; set_solver). split; [done|].
  assert (Hp' : review_approval_is_proven runs (without "pending_triage_notify" r1) = true) by (etransitivity; [apply proven_same; intros k Hk; apply Hsame; set_solver|exact Hp]).
  split; [by apply proven_review|]. destruct (extend_hop _ _ _ _ He Hmode Hdone) as [_ Hh%hop_after].
  assert (Hne : nonempty (derived_approved_head runs r1) = true) by by rewrite Hd. destruct (derived_spec runs r1 Hne) as (_ & lineage & hops & _ & _ & _ & _ & Hf).
  apply follow_chain in Hf. rewrite Hd in Hf. unfold txt in *. by rewrite Hsame.
Qed.

(** ** An approved task *)

Module Approved.
Definition review : values :=
  list_to_map [("run_id", PStr "v1"); ("mode", PStr "review"); ("status", PStr "done"); ("env_snapshot", PDict [("review_head", PStr "a1")]); ("result", PDict [("verdict", PStr "approve")])]%string.
Definition rebase (i before after : string) : values :=
  list_to_map [("run_id", PStr i); ("mode", PStr "rebase"); ("status", PStr "done"); ("patch_id_before", PStr "p"); ("patch_id_after", PStr "p");
    ("env_snapshot", PDict [("rebase_head_before", PStr before); ("rebase_local_head_before", PStr before); ("rebase_head_after", PStr after)])]%string.
Definition runs : list values := [review; rebase "b2" "b1" "c1"; rebase "b1" "a1" "b1"; rebase "x1" "x9" "d1"].
Definition task : row := [("last_review", PDict [("verdict", PStr "approve")]); ("last_review_head", PStr "a1"); ("last_review_run", PStr "v1")]%string.
Definition kept : row := (rebase_review_or_keep runs (rebase "b1" "a1" "b1") false "" task).2.
End Approved.

(** The search takes a second round when the runs are out of order; the lineage gives the same head. *)
Example approval_follows_rebases :
  map (head_is_mechanically_derived Approved.runs "a1") ["c1"; "d1"; ""]%string = [true; false; false] /\
  effective_approved_head Approved.runs (dset "head_sha" (PStr "c1") Approved.task) = "c1"%string /\
  effective_approved_head Approved.runs (dset "head_sha" (PStr "d1") Approved.kept) = "b1"%string.
Proof. split; [|split]; vm_compute; reflexivity. Qed.

(** With the default policy the verdict is kept whatever head the rebase started at: here one that nobody has reviewed. *)
Lemma default_policy_keeps_any_verdict :
  (rebase_review_or_keep Approved.runs (Approved.rebase "x1" "x9" "d1") true "" Approved.task).1 = VerdictKept /\
  (rebase_review_or_keep Approved.runs (Approved.rebase "x1" "x9" "d1") false "" Approved.task).1 = ExactReview true.
Proof. split; vm_compute; reflexivity. Qed.

Lemma rebase_keeps_proven_approval_witness :
  derived_approved_head Approved.runs Approved.kept = "b1"%string /\ approving_review Approved.runs Approved.kept /\ rtc (hop Approved.runs) (txt "last_review_head" Approved.kept) "b1"%string.
Proof.
  apply (rebase_keeps_proven_approval Approved.runs (Approved.rebase "b1" "a1" "b1") "" Approved.task Approved.kept); vm_compute; reflexivity.
Defined.
