(* ===== verification/MergeQueue.v ===== *)
(** * The merge queue ([scheduler/queue.py], [rebase.py], [poll.py])

    An approved pull request becomes a candidate when every gate is green.  The queue takes the oldest candidate to its head, brings it onto its base if the product wants
    that, and merges it; while a head waits for its checks no other is taken.  The gate, the polling side that fills the queue, and the queue itself are programs over what the
    forge, the run index, git and CI answer; the side-store is threaded through.

    [mechanical_rebase] is the command [Rebase]: what it does to the branch is git's matter, what it answers and leaves in the side-store decides how the queue goes on. *)

From Stdlib Require Import QArith.
From S2P Require Import Prelude PyValue Requirements Effects StateStore RunRecords RunIndex WorkerLease TaskModel Graph DispatchQueue Dispatch CiStatus Approval.

#[local] Open Scope list_scope.
#[local] Open Scope Z_scope.

(** ** The markers of the queue ([QueueMixin]) *)

Definition update (st : entries) (k : string) (f : row -> row) : entries := dset k (f (entry st k)) st.
(** [st.pop(f, None) is not None] *)
Definition popped (f : string) (r : row) : bool * row := (negb (is_none (pget f r)), without f r).
Definition QUEUE_KEYS : list string := ["automerge_candidate"; "automerge_ready_at"; "merge_head"; "automerge_blocked"].
Definition queue_join (now : string) (r : row) : row := setdefault "automerge_ready_at" (PStr now) (dset "automerge_candidate" (PBool true) (without "automerge_blocked" r)).
Definition queue_head (r : row) : row := dset "merge_head" (PBool true) r.
Definition queue_drop_head (r : row) : bool * row := popped "merge_head" r.
Definition queue_clear_block (r : row) : bool * row := popped "automerge_blocked" r.
Definition queue_leave (r : row) : bool * row := foldl (fun x k => let y := popped k x.2 in (y.1 || x.1, y.2)) (false, r) QUEUE_KEYS.
Definition queue_hold (reason : string) (keep : bool) (r : row) : row :=
  let r := if keep then r else without "merge_head" (without "automerge_ready_at" (without "automerge_candidate" r)) in
  if is_str (pget "automerge_blocked" r) reason then r else dset "automerge_blocked" (PStr reason) r.

(** ** Settings of a product *)

Record MergeConfig := {
  automerge : string -> bool;
  automerge_hard_tier : string -> bool;
  automerge_tiers : string -> list string;
  require_current_base : string -> bool;
  automerge_method : string -> string;
  validation_provider : string -> string;
  worker_push : string -> bool;
  protected_paths : string -> list string;
  base_branch : string -> string }.

Inductive mcmd : Type -> Type :=
| GetPr (slug : string) (number : Z) : mcmd (option PRInfo)
| RunsOf (task_id : string) : mcmd (list values)
| Active : mcmd (list values)
| AskCi (t : Task) (pr : PRInfo) : mcmd CIStatus
| DiffNames (t : Task) (base : string) : mcmd (option (list string))       (* None: no checkout *)
| TaskEffect (t : Task) (key : string) : mcmd (result exn unit)
| Rebase (t : Task) (st : entries) : mcmd (result exn string * entries)
| RetargetPr (slug : string) (number : Z) (base : string) : mcmd bool
| MergePr (slug : string) (number : Z) (method : string) (delete_branch : bool) (expected_head : string) : mcmd (option string)     (* the error *)
| Comment (slug : string) (number : Z) (body : string) : mcmd bool
| DispatchScratchMerge (t : Task) (st : entries) : mcmd entries.
Abbreviation mprog := (prog mcmd exn).

(** ** Paths that a person merges *)

Definition endswith (suffix s : string) : bool := bool_decide (drop_str (String.length s - String.length suffix) s = suffix) && (String.length suffix <=? String.length s)%nat.
Fixpoint split_slash (current s : string) : list string :=
  match s with EmptyString => [current] | String c s' => if bool_decide (c = "/"%char) then current :: split_slash "" s' else split_slash (current ++ char_string c)%string s' end.
(** [_touches_guarded_path] *)
Definition touches_guarded_path (rel : string) : bool :=
  let parts := split_slash "" rel in let name := List.last parts "" in
  (startswith "garden" name && endswith ".yaml" name && (11 <=? String.length name)%nat) || mem "tasks" (removelast parts) || startswith ".github/" rel || startswith "principles/" rel.

Section queue.
Context (float : pyval -> result exn Q) (fnmatch : string -> string -> bool) (available : bool).
Context (cfg : Config) (mc : MergeConfig) (products : list (string * list Phase)) (authorized : Task -> bool).
Context (slug_for : Task -> option string) (url_number : Task -> option Z).
Context (costs : list (string * Q)) (now : string) (tasks : tasks_t).

Definition external_stack_owner (t : Task) : bool := bool_decide (stack_owner cfg (product t) = "external").
Definition branch_of (t : Task) : string := if nonempty (branch t) then branch t else default_branch t.
Definition final_base_for (t : Task) : string := base_branch mc (product t).
(** [_automerge_enabled]; the task can opt out. *)
Definition automerge_enabled (t : Task) : bool :=
  negb (external_stack_owner t) && negb (bool_decide (pget "automerge" (extra t) = PBool false)) && automerge mc (product t).
Definition hard_tier (t : Task) : bool := bool_decide (difficulty t = "hard") && automerge_hard_tier mc (product t).
Definition scratch_merge (r : row) : row := dict_of_value (por (pget "scratch_merge" r) (PDict [])).
Definition same_diff (r : row) : bool := bool_decide (txt "diff" (scratch_merge r) = txt "last_diff_hash" r).
Definition scratch_merge_verified (r : row) : bool := truthy (pget "ok" (scratch_merge r)) && same_diff r.
Definition min_review_rounds : Z := 1.
Definition phase_hold (t : Task) : string := match find_phase products (product t) (phase t) with Some ph => phase_refusal ph t | None => "" end.
(** [_guarded_diff_paths] *)
Definition guarded_diff_paths (t : Task) : mprog (list string) :=
  names ← do_ (DiffNames t (final_base_for t));
  Ret (match names with
       | None => []
       | Some l => List.filter (fun p => touches_guarded_path p || existsb (fnmatch p) (protected_paths mc (product t))) l
       end).
(** [_ci_status]: a forge that does not report the head is asked about the one that was seen last. *)
Definition with_head (r : row) (pr : PRInfo) : PRInfo :=
  if nonempty (head_sha pr) then pr
  else {| pr_number := pr_number pr; pr_url := pr_url pr; pr_state := pr_state pr; pr_base := pr_base pr; review_decision := review_decision pr; mergeable := mergeable pr; checks := checks pr;
          failed_checks := failed_checks pr; head_sha := txt "head_sha" r |}.
(** The rollup that the validation of the product asks for; [None] when it holds nothing. *)
Definition validation_hold (t : Task) (pr : PRInfo) : option string :=
  let p := validation_provider mc (product t) in
  if bool_decide (p = "actions") || bool_decide (p = "status") then
    if negb (nonempty (checks pr)) then
      Some (if bool_decide (p = "actions") then "GitHub Actions has no result (disabled, unavailable, or not triggered)"
            else "the configured status provider has no result (unavailable or insufficient permission)")%string
    else if bool_decide (checks pr = "SUCCESS") then None else Some ("the required " ++ p ++ " validation is " ++ lower (checks pr))%string
  else if bool_decide (p = "legacy") then
    if worker_push mc (product t) && negb (nonempty (checks pr)) then Some "worker CI is enabled but the PR has no CI result yet"%string
    else if negb (mem (checks pr) ["SUCCESS"; ""]) then Some ("the PR checks rollup is " ++ lower (checks pr))%string
    else if negb (require_current_base mc (product t)) && negb (bool_decide (checks pr = "SUCCESS")) then Some "the exact-head PR checks have not reported success"%string
    else None
  else None.
Definition ci_hold (t : Task) (s : CIStatus) : option string :=
  if bool_decide (ci_state s = "not_required") || green s then None
  else if bool_decide (provider s = "github") && bool_decide (ci_state s = "missing") && worker_push mc (product t) then Some "worker CI is enabled but the PR has no CI result yet"%string
  else Some (status_reason s).
(** Whether the tasks's runs let it merge: the recorded review must be over, or no run of the task active. *)
Definition review_over (runs : list values) (review_run : pyval) : bool :=
  match List.find (fun r => is_str review_run (RunRecords.text "run_id" r)) runs with Some r => negb (bool_decide (RunRecords.text "status" r = "running")) | None => false end.
Definition idle (t : Task) (r : row) : mprog bool :=
  if truthy (pget "review_run" r) then runs ← do_ (RunsOf (id t)); Ret (review_over runs (pget "review_run" r))
  else index ← do_ Active; Ret (negb (existsb (fun x => bool_decide (RunRecords.text "task_id" x = id t)) (active_runs index))).
Definition verdict_of (r : row) : string := txt "verdict" (last_review r).
Definition tier_hold (t : Task) : option string :=
  if mem (difficulty t) (automerge_tiers mc (product t)) || hard_tier t then None
  else Some ("tier `" ++ difficulty t ++ "` is not in automerge_tiers (" ++ (let l := join ", " (automerge_tiers mc (product t)) in if nonempty l then l else "none") ++ ")")%string.
Definition scratch_hold (r : row) : string :=
  if same_diff r && negb (truthy (pget "ok" (scratch_merge r)))
  then ("the hard-tier scratch-merge check failed (" ++ py_str (por (pget "checks" (scratch_merge r)) (PStr "checks")) ++ ")")%string
  else "the hard-tier scratch-merge check has not passed for this revision"%string.
Definition shown_paths (l : list string) : string := (join ", " (firstn 3 l) ++ if (3 <? List.length l)%nat then " …" else "")%string.

(** ** The gate *)

(** [_automerge_gate]: the first reason that holds the merge, or [None] when every gate is green *)
Definition green_gate (t : Task) (pr : PRInfo) (scratch : bool) (st : entries) : mprog (option string) :=
  let r := entry st (id t) in
  if nonempty (phase_hold t) then Ret (Some (phase_hold t))
  else if truthy (pget "needs_human" r) then Ret (Some "a needs-human stop is set"%string)
  else if nonempty (pr_base pr) && negb (bool_decide (pr_base pr = final_base_for t)) then
    Ret (Some ("stacked on " ++ py_str (por (pget "stack_parent" r) (PStr (pr_base pr))) ++ "; waits for the restack")%string)
  else match tier_hold t with Some reason => Ret (Some reason) | None =>
    if negb (bool_decide (verdict_of r = "approve")) then
      Ret (Some ("the automated review verdict is " ++ py_str (por (pget "verdict" (last_review r)) (PStr "not in yet")) ++ ", not approve")%string)
    else runs ← do_ (RunsOf (id t));
      let exact := negb (require_current_base mc (product t)) in
      if exact && negb (nonempty (head_sha pr)) then Ret (Some "GitHub did not report the current PR head"%string)
      else if exact && negb (bool_decide (effective_approved_head runs r = head_sha pr)) then Ret (Some "the approved review is not for the current PR head"%string)
      else rounds ← lift (count_of st (id t) "review_rounds");
        if rounds <? min_review_rounds then Ret (Some ("only " ++ show rounds ++ " review round(s) so far, need " ++ show min_review_rounds)%string)
        else if nonempty (strip (txt "pending_feedback" r)) then Ret (Some "feedback is pending a revise run"%string)
        else quiet ← idle t r;
          if negb quiet then Ret (Some "a run is in flight"%string)
          else match validation_hold t pr with Some reason => Ret (Some reason) | None =>
            ci ← do_ (AskCi t (with_head r pr));
            match ci_hold t ci with Some reason => Ret (Some reason) | None =>
              if negb (bool_decide (mergeable pr = "MERGEABLE")) then
                Ret (Some ("GitHub reports the PR " ++ (if nonempty (mergeable pr) then lower (mergeable pr) else "mergeability unknown"))%string)
              else if bool_decide (review_decision pr = "CHANGES_REQUESTED") then Ret (Some "a human review requests changes"%string)
              else budget ← lift (budget_for float cfg st (TaskModel.key t));
                if negb (Qeq_bool budget 0) && Qle_bool budget (of_units4 (spent_for tasks costs (TaskModel.key t))) then Ret (Some ("phase " ++ TaskModel.key t ++ " is over budget")%string)
                else guarded ← guarded_diff_paths t;
                  if nonempty_list guarded then Ret (Some ("the diff touches guarded paths (" ++ shown_paths guarded ++ "); merge by hand")%string)
                  else if scratch && hard_tier t && negb (scratch_merge_verified r) then Ret (Some (scratch_hold r))
                  else Ret None
            end
          end
  end.

(** ** Polling fills the queue *)

(** [_maybe_dispatch_scratch_merge] *)
Definition maybe_dispatch_scratch_merge (t : Task) (pr : PRInfo) (st : entries) : mprog entries :=
  let r := entry st (id t) in
  if negb (hard_tier t) || scratch_merge_verified r || (nonempty_list (scratch_merge r) && same_diff r) || truthy (pget "check_run" r) then Ret st
  else held ← green_gate t pr false st; match held with Some _ => Ret st | None => do_ (DispatchScratchMerge t st) end.
(** [_maybe_automerge] *)
Definition maybe_automerge (t : Task) (pr : PRInfo) (st : entries) : mprog entries :=
  if negb (bool_decide (status t = IN_REVIEW)) then Ret st
  else if negb (automerge_enabled t) then Ret (update st (id t) (fun r => (queue_leave r).2))
  else held ← green_gate t pr true st;
    match held with
    | None => Ret (update st (id t) (queue_join now))
    | Some reason =>
        if flag_set st (id t) "merge_head" then Ret st
        else st ← maybe_dispatch_scratch_merge t pr st; Ret (update st (id t) (queue_hold reason false))
    end.

(** ** The head of the queue *)

(** [_pr_number]: the link of the task wins over the cached number. *)
Definition find_pr_number (t : Task) (st : entries) : result exn (option Z * entries) :=
  let from_url := if nonempty (TaskModel.pr t) then url_number t else None in
  cached ← (if flag_set st (id t) "pr_number" then n ← py_int (pget "pr_number" (entry st (id t))); Ok (Some n) else Ok None);
  match from_url with
  | Some n => if negb (n =? 0) && negb (bool_decide (cached = Some n)) then Ok (Some n, put st (id t) "pr_number" (PInt n)) else Ok (match cached with Some 0 => None | c => c end, st)
  | None => Ok (match cached with Some 0 => None | c => c end, st)
  end.
(** The pull request of a task, as the forge has it now; [None] when it cannot be read. *)
Definition fresh_pr (t : Task) (st : entries) : mprog (option (string * Z * PRInfo) * entries) :=
  '(number, st) ← lift (find_pr_number t st);
  match slug_for t, number with
  | Some slug, Some n =>
      if negb (nonempty slug) || (n =? 0) || negb available then Ret (None, st)
      else pr ← do_ (GetPr slug n); Ret (match pr with Some pr => Some (slug, n, pr) | None => None end, st)
  | _, _ => Ret (None, st)
  end.

(** [_retarget_children_before_delete]: whether the branch may go, because no open pull request is based on it any more *)
Definition stacked_children (t : Task) (st : entries) : list Task :=
  List.filter (fun c => is_str (pget "stack_parent" (entry st (id c))) (id t) && negb (terminal (status c))) (dvals tasks).
Definition retarget_reason (t : Task) : string := ("external stack owner must retarget its PR from " ++ branch_of t ++ " after stack parent " ++ id t ++ " merges")%string.
Fixpoint retarget (t : Task) (slug : string) (children : list Task) (all_ok : bool) (st : entries) : mprog (bool * entries) :=
  match children with
  | [] => Ret (all_ok, st)
  | child :: rest =>
      '(number, st) ← lift (find_pr_number child st);
      match number with
      | None => retarget t slug rest all_ok st
      | Some n =>
          if n =? 0 then retarget t slug rest all_ok st
          else answer ← do_ (GetPr slug n);
            match answer with
            | None => retarget t slug rest all_ok st
            | Some pr =>
                if negb (bool_decide (pr_state pr = "OPEN")) then retarget t slug rest all_ok st
                else if nonempty (phase_hold child) then Ret (false, st)
                else if external_stack_owner child then
                  if bool_decide (pr_base pr = branch_of t) then Ret (false, set_needs_human now child "external_stack_retarget" (retarget_reason t) st)
                  else retarget t slug rest all_ok st
                else if bool_decide (pr_base pr = final_base_for child) then retarget t slug rest all_ok st
                else ok ← do_ (RetargetPr slug n (final_base_for child)); retarget t slug rest (all_ok && ok) st
            end
      end
  end.
Definition retarget_children_before_delete (t : Task) (st : entries) : mprog (bool * entries) :=
  if external_stack_owner t then Ret (true, st)
  else match slug_for t with
       | Some slug => if nonempty slug && available then retarget t slug (stacked_children t st) true st else Ret (true, st)
       | None => Ret (true, st)
       end.

Definition merged_body (review_run : string) (rounds : Z) : string :=
  ("Merged by the garden: every gate is green — automated review approved" ++ (if nonempty review_run then " (run `" ++ review_run ++ "`)" else "")
   ++ ", checks passing, mergeable, " ++ show rounds ++ " review round(s), under budget.")%string.
(** [_do_merge]; the forge refuses when the head is no longer [expected_head]. *)
Definition do_merge (t : Task) (slug : string) (n : Z) (pr : PRInfo) (st : entries) : mprog entries :=
  let method := automerge_method mc (product t) in
  let review_run := txt "last_review_run" (entry st (id t)) in
  '(delete_branch, st) ← retarget_children_before_delete t st;
  error ← do_ (MergePr slug n method delete_branch (head_sha pr));
  match error with
  | Some e => Ret (update st (id t) (queue_hold ("merge call failed: " ++ e)%string true))
  | None =>
      rounds ← lift (count_of st (id t) "review_rounds");
      let st := update st (id t) (fun r => (queue_leave r).2) in
      let st := put st (id t) "automerged" (PDict [("at", PStr now); ("method", PStr method); ("review_run", PStr review_run); ("verdict", PStr "approve"); ("review_rounds", PInt rounds)]%string) in
      _ ← do_ (Comment slug n (merged_body review_run rounds)); Ret st
  end.
(** [_head_in_flight] *)
Definition head_in_flight (pr : PRInfo) (r : row) : bool :=
  bool_decide (pr_state pr = "OPEN") && negb (bool_decide (mergeable pr = "CONFLICTING")) && negb (bool_decide (checks pr = "FAILURE")) && negb (bool_decide (review_decision pr = "CHANGES_REQUESTED"))
  && negb (nonempty (strip (txt "pending_feedback" r))) && negb (truthy (pget "review_run" r)) && bool_decide (verdict_of r = "approve")
  && (bool_decide (checks pr = "PENDING") || negb (bool_decide (mergeable pr = "MERGEABLE"))).
(** [_advance_merge_head] *)
Definition advance_merge_head (t : Task) (st : entries) : mprog entries :=
  if manual_reserved st t then Ret st
  else '(found, st) ← fresh_pr t st;
    match found with
    | None => Ret st
    | Some (slug, n, pr) =>
        held ← green_gate t pr true st;
        match held with
        | None => do_merge t slug n pr st
        | Some reason => if head_in_flight pr (entry st (id t)) then Ret st else Ret (update st (id t) (queue_hold reason false))
        end
    end.
(** [_merge_candidate] *)
Definition merge_candidate (t : Task) (st : entries) : mprog entries :=
  if manual_reserved st t then Ret st
  else '(found, st) ← fresh_pr t st;
    match found with
    | None => Ret st
    | Some (_, _, pr) =>
        held ← green_gate t pr true st;
        match held with
        | Some reason => Ret (update st (id t) (queue_hold reason false))
        | None =>
            if negb (require_current_base mc (product t)) then advance_merge_head t (update st (id t) queue_head)
            else '(answer, st) ← do_ (Rebase t st);
              outcome ← lift (answer : result exn string);
              if bool_decide (outcome = "current"%string) then advance_merge_head t (update st (id t) queue_head)
              else if negb (bool_decide (outcome = "clean"%string)) then Ret st
              else if flag_set st (id t) "review_run" || flag_set st (id t) "needs_human" then Ret st
              else Ret (update st (id t) queue_head)
        end
    end.

(** [_merge_head_pending]: the head was rebased, and its checks run. *)
Definition check_pending (st : entries) (k : string) : bool :=
  let info := dict_of_value (por (pget "check_run" (entry st k)) (PDict [])) in
  is_str (pget "stage" info) "merge_rebase" && truthy (pget "merge_head" (dict_of_value (por (pget "cont" info) (PDict [])))).
Definition merge_head_pending (st : entries) : bool := existsb (fun t => authorized t && check_pending st (id t)) (dvals tasks).
(** [_current_merge_head]: the first marked task that may be the head; the markers of others go. *)
Definition current_merge_head (st : entries) : option Task * entries :=
  foldl (fun x t =>
    if authorized t && flag_set x.2 (id t) "merge_head" then
      if match x.1 with None => true | Some _ => false end && bool_decide (status t = IN_REVIEW) && automerge_enabled t then (Some t, x.2)
      else (x.1, update x.2 (id t) (fun r => (queue_drop_head r).2))
    else x) (None, st) (dvals tasks).
(** The candidates, and which goes first *)
Definition is_candidate (st : entries) (t : Task) : bool :=
  authorized t && bool_decide (status t = IN_REVIEW) && negb (manual_reserved st t) && flag_set st (id t) "automerge_candidate" && negb (flag_set st (id t) "check_run").
Definition ready_at (st : entries) (t : Task) : string := txt "automerge_ready_at" (entry st (id t)).
Definition before_in_queue (st : entries) (a b : Task) : bool :=
  if bool_decide (ready_at st a = ready_at st b) then str_leb (id a) (id b) else str_leb (ready_at st a) (ready_at st b).
Definition candidates (st : entries) : list Task := sort_by (before_in_queue st) (List.filter (is_candidate st) (dvals tasks)).
Definition effect_key (t : Task) : string := ("merge-queue:" ++ id t)%string.
(** [_run_merge_queue] *)
Definition run_merge_queue (st : entries) : mprog entries :=
  let '(head, st) := current_merge_head st in
  match head with
  | Some t => if authorized t then _ ← invoke (TaskEffect t (effect_key t)); advance_merge_head t st else Ret st
  | None =>
      if merge_head_pending st then Ret st
      else match candidates st with
           | [] => Ret st
           | t :: _ => _ ← invoke (TaskEffect t (effect_key t)); merge_candidate t st
           end
  end.
(** What the checks after the rebase lead to ([_after_merge_rebase_check]): [kept] is the side-store after the verdict was kept or a review was started. *)
Definition after_merge_rebase_check (t : Task) (merge_head : bool) (kept : entries) : entries :=
  if merge_head && negb (flag_set kept (id t) "review_run") && negb (flag_set kept (id t) "needs_human") then update kept (id t) queue_head else kept.
(** The check half of [delegate_recovery]: the stored continuation of a check that stopped runs again as [run_id].  [idle]: no active run of the task; [kept] is the side-store
    after [_dispatch_check_run] did its other work; the settings it stores with the continuation are left out.  For a check of the stage
    "ci" the code also compares the head of the pull request.  [None]: refused. *)
Definition UNIT_SEPARATOR : string := String "031" "".
Definition recovery_fingerprint (kind feedback : string) (check : row) : string :=
  join UNIT_SEPARATOR [kind; feedback; py_str (por (pget "stage" check) (PStr "")); py_str (por (pget "cause" check) (PStr "")); py_str (por (pget "source_head" check) (PStr ""))].
Definition delegate_check (t : Task) (run_id : string) (idle : bool) (st kept : entries) : option entries :=
  let r := entry st (id t) in
  let stop := dict_of_value (pget "needs_human" r) in
  let check := dict_of_value (por (pget "recovery_check" r) (PDict [])) in
  let print := recovery_fingerprint "check_did_not_run" (py_str (por (pget "pending_feedback" r) (PStr ""))) check in
  let used := map py_str (match pget "delegated_recovery_fingerprints" r with PList l => l | _ => [] end) in
  if is_str (pget "kind" stop) "check_did_not_run" && negb (mem print used) && idle && truthy (pget "specs" check) && negb (manual_reserved st t)
  then
    let info := [("run_id", PStr run_id); ("stage", PStr (py_str (pget "stage" check))); ("cont", PDict (setdefault "task_status" (PStr (status_value (status t))) (dict_of_value (pget "cont" check))));
                 ("specs", pget "specs" check); ("retries", PInt (match py_int (por (pget "retries" check) (PInt 0)) with Ok n => n | Err _ => 0 end + 1));
                 ("backend", por (pget "backend" check) (PStr "")); ("provenance", por (pget "provenance" check) (PStr ""))]%string in
    Some (update kept (id t) (fun r => without "recovery_check" (without "needs_human"
      (dset "delegated_recovery_fingerprints" (PList (map PStr (sorted_set (print :: used)))) (dset "check_run" (PDict info) r)))))
  else None.
End queue.
