(* ===== verification/MergeSafety.v ===== *)
(** * What the merge queue merges ([scheduler/rebase.py], [poll.py])

    Nothing is merged but the head of the queue, at the head that the forge reported just before, and after every gate was green on what was read since then
    ([merge_guarded]).  The queue itself never takes a second head ([one_head]); restarting a stopped check by hand can make one ([recovery_makes_two_heads]). *)

From Stdlib Require Import QArith.
From S2P Require Import Prelude PyValue Requirements Effects StateStore RunRecords RunIndex WorkerLease TaskModel Graph DispatchQueue Dispatch CiStatus Approval MergeQueue.

#[local] Open Scope list_scope.
#[local] Open Scope Z_scope.

Section safety.
Context (float : pyval -> result exn Q) (fnmatch : string -> string -> bool) (available : bool).
Context (cfg : Config) (mc : MergeConfig) (products : list (string * list Phase)) (authorized : Task -> bool).
Context (slug_for : Task -> option string) (url_number : Task -> option Z).
Context (costs : list (string * Q)) (now : string) (tasks : tasks_t).

#[local] Abbreviation event_ := (event mcmd).
#[local] Abbreviation gate := (green_gate float fnmatch cfg mc products costs tasks).
#[local] Abbreviation retarget_ := (retarget cfg mc products url_number now).
#[local] Abbreviation merge_ := (do_merge available cfg mc products slug_for url_number now tasks).
#[local] Abbreviation advance := (advance_merge_head float fnmatch available cfg mc products slug_for url_number costs now tasks).
#[local] Abbreviation candidate_ := (merge_candidate float fnmatch available cfg mc products slug_for url_number costs now tasks).
#[local] Abbreviation pass := (run_merge_queue float fnmatch available cfg mc products authorized slug_for url_number costs now tasks).

(** ** What is looked at before a merge *)

(** A reading of the gate; work on the pull requests that are stacked on the branch; and a merge *)
Definition reading (e : event_) : Prop := match e with @Ev _ R c _ => match c with RunsOf _ | Active | AskCi _ _ | DiffNames _ _ => True | _ => False end end.
Definition on_children (R : Type) (c : mcmd R) : Prop := match c with GetPr _ _ | RetargetPr _ _ _ => True | _ => False end.
Definition child_event (e : event_) : Prop := match e with @Ev _ R c _ => on_children R c end.
Definition is_merge (e : event_) : bool := match e with @Ev _ R c _ => match c with MergePr _ _ _ _ _ => true | _ => false end end.

(** The gates, on what was read ([seen]) *)
Record green_gates (t : Task) (pr : PRInfo) (scratch : bool) (st : entries) (seen : list event_) : Prop := {
  gg_phase : phase_hold products t = "";
  gg_human : flag_set st (id t) "needs_human" = false;
  gg_base : pr_base pr = "" \/ pr_base pr = final_base_for mc t;
  gg_tier : difficulty t ∈ automerge_tiers mc (product t) \/ hard_tier mc t = true;
  gg_verdict : verdict_of (entry st (id t)) = "approve";
  gg_head : require_current_base mc (product t) = true \/
    exists runs, Ev (RunsOf (id t)) runs ∈ seen /\ head_sha pr <> "" /\ head_sha pr = effective_approved_head runs (entry st (id t));
  gg_rounds : exists n, count_of st (id t) "review_rounds" = Ok n /\ min_review_rounds <= n;
  gg_feedback : strip (txt "pending_feedback" (entry st (id t))) = "";
  gg_idle : (exists index, Ev Active index ∈ seen /\ forall r, r ∈ active_runs index -> RunRecords.text "task_id" r <> id t) \/
    (exists runs r, Ev (RunsOf (id t)) runs ∈ seen /\ r ∈ runs /\ is_str (pget "review_run" (entry st (id t))) (RunRecords.text "run_id" r) = true /\ RunRecords.text "status" r <> "running");
  gg_validation : validation_hold mc t pr = None;
  gg_ci : exists ci, Ev (AskCi t (with_head (entry st (id t)) pr)) ci ∈ seen /\ (ci_state ci = "not_required" \/ green ci = true);
  gg_mergeable : mergeable pr = "MERGEABLE";
  gg_decision : review_decision pr <> "CHANGES_REQUESTED";
  gg_budget : exists b, budget_for float cfg st (TaskModel.key t) = Ok b /\ (Qeq_bool b 0 = true \/ Qle_bool b (of_units4 (spent_for tasks costs (TaskModel.key t))) = false);
  gg_paths : exists names, Ev (DiffNames t (final_base_for mc t)) names ∈ seen /\
    match names with Some l => forall p, p ∈ l -> touches_guarded_path p = false /\ forall pattern, pattern ∈ protected_paths mc (product t) -> fnmatch p pattern = false | None => True end;
  gg_scratch : scratch = true -> hard_tier mc t = true -> scratch_merge_verified (entry st (id t)) = true }.

Definition merge_ok (tr : list event_) (e : event_) : Prop :=
  match e with
  | @Ev _ R c _ => match c with
    | MergePr slug n _ _ head => exists tr0 t pr st seen work,
        tr = tr0 ++ Ev (GetPr slug n) (Some pr) :: seen ++ work /\ Forall reading seen /\ Forall child_event work /\ forallb (fun e => negb (is_merge e)) tr = true /\
        slug_for t = Some slug /\ head = head_sha pr /\ t ∈ dvals tasks /\ authorized t = true /\ status t = IN_REVIEW /\ manual_reserved st t = false /\ green_gates t pr true st seen
    | _ => True
    end
  end.

#[local] Abbreviation safely p tr Q := (safe merge_ok p tr Q).
Definition sees {A} (tr : list event_) (P : A -> list event_ -> Prop) (r : result exn A) (tr' : list event_) : Prop :=
  exists seen, tr' = tr ++ seen /\ Forall reading seen /\ match r with Ok a => P a seen | Err _ => True end.

Lemma sees_ret {A} (a : A) tr (P : A -> list event_ -> Prop) : P a [] -> safely (Ret a) tr (sees tr P).
Proof. intros H. exists []. by rewrite app_nil_r. Qed.
Lemma sees_do {R A} (c : mcmd R) (k : R -> mprog A) tr (P : A -> list event_ -> Prop) :
  (forall x, reading (Ev c x)) -> (forall x, safely (k x) (tr ++ [Ev c x]) (sees (tr ++ [Ev c x]) (fun a seen => P a (Ev c x :: seen)))) -> safely (x ← do_ c; k x) tr (sees tr P).
Proof.
  intros Hr H x. split; [specialize (Hr x); by destruct c|]. eapply safe_mono; [|apply H]. intros r tr' (seen & -> & Hs & HP). exists (Ev c x :: seen).
  rewrite <- app_assoc. split; [done|]. split; [by constructor|]. by destruct r.
Qed.
Lemma sees_lift {A B} (x : result exn A) (k : A -> mprog B) tr (P : B -> list event_ -> Prop) :
  (forall a, x = Ok a -> safely (k a) tr (sees tr P)) -> safely (a ← lift x; k a) tr (sees tr P).
Proof. intros H. apply safe_bind, safe_lift. destruct x; cbn [then_]; [by apply H|]. exists []. by rewrite app_nil_r. Qed.
Lemma sees_bind {A B} (p : mprog A) (k : A -> mprog B) tr (P : A -> list event_ -> Prop) (Q : B -> list event_ -> Prop) :
  safely p tr (sees tr P) -> (forall a seen tr', P a seen -> safely (k a) tr' (sees tr' (fun b seen' => Q b (seen ++ seen')))) -> safely (a ← p; k a) tr (sees tr Q).
Proof.
  intros Hp Hk. apply safe_bind. eapply safe_mono; [|exact Hp]. intros [a|e] tr' (seen & -> & Hs & HP); cbn [then_]; [|by exists seen].
  eapply safe_mono; [|by apply (Hk a seen)]. intros r tr1 (seen' & -> & Hs' & HQ). exists (seen ++ seen'). rewrite app_assoc. split; [done|]. split; [by apply Forall_app|]. by destruct r.
Qed.

Lemma idle_sees t r tr : safely (idle t r) tr (sees tr (fun b seen => b = true ->
  (exists index, Ev Active index ∈ seen /\ forall x, x ∈ active_runs index -> RunRecords.text "task_id" x <> id t) \/
  (exists runs x, Ev (RunsOf (id t)) runs ∈ seen /\ x ∈ runs /\ is_str (pget "review_run" r) (RunRecords.text "run_id" x) = true /\ RunRecords.text "status" x <> "running"))).
Proof.
  unfold idle. destruct (truthy _); apply sees_do; [done| |done|]; intros x; apply sees_ret; intros H.
  - right. unfold review_over in H. destruct (List.find _ x) as [y|] eqn:Hf; [|done]. apply List.find_some in Hf as [Hin Hid]. exists x, y.
    apply negb_true_iff, bool_decide_eq_false in H. split; [by left|]. split; [by apply list_elem_of_In|done].
  - left. exists x. split; [by left|]. intros y Hy E. apply negb_true_iff in H. rewrite <- not_true_iff_false in H. apply H, existsb_exists.
    exists y. split; [by apply list_elem_of_In|]. by apply bool_decide_eq_true.
Qed.
Lemma guarded_sees t tr : safely (guarded_diff_paths fnmatch mc t) tr (sees tr (fun l seen => l = [] -> exists names, Ev (DiffNames t (final_base_for mc t)) names ∈ seen /\
  match names with Some l => forall p, p ∈ l -> touches_guarded_path p = false /\ forall pattern, pattern ∈ protected_paths mc (product t) -> fnmatch p pattern = false | None => True end)).
Proof.
  unfold guarded_diff_paths. apply sees_do; [done|]. intros names. apply sees_ret. intros H. exists names. split; [by left|]. destruct names as [l|]; [|done]. intros p Hp.
  destruct (touches_guarded_path p || existsb (fnmatch p) (protected_paths mc (product t))) eqn:E.
  - assert (Hin : p ∈ List.filter (fun p => touches_guarded_path p || existsb (fnmatch p) (protected_paths mc (product t))) l) by (apply list_elem_of_In, filter_In; split; [by apply list_elem_of_In|done]).
    rewrite H in Hin. by apply elem_of_nil in Hin.
  - apply orb_false_iff in E as [E1 E2]. split; [done|]. intros pattern Hpat. rewrite <- not_true_iff_false in *. intros E. apply E2, existsb_exists. exists pattern. split; [by apply list_elem_of_In|done].
Qed.

Lemma gate_sees t pr scratch st tr : safely (gate t pr scratch st) tr (sees tr (fun held seen => held = None -> green_gates t pr scratch st seen)).
Proof.
  unfold green_gate. cbv zeta. destruct (nonempty (phase_hold products t)) eqn:Hph; [by apply sees_ret|]. destruct (truthy (pget "needs_human" _)) eqn:Hhum; [by apply sees_ret|].
  destruct (nonempty (pr_base pr) && _) eqn:Hbase; [by apply sees_ret|]. destruct (tier_hold mc t) eqn:Htier; [by apply sees_ret|].
  destruct (bool_decide_reflect (verdict_of (entry st (id t)) = "approve"%string)) as [Hv|]; cbn [negb]; [|by apply sees_ret].
  apply sees_do; [done|]. intros runs.
  destruct (negb (require_current_base mc (product t)) && negb (nonempty (head_sha pr))) eqn:Hh1; [by apply sees_ret|].
  destruct (negb (require_current_base mc (product t)) && negb (bool_decide (effective_approved_head runs (entry st (id t)) = head_sha pr))) eqn:Hh2; [by apply sees_ret|].
  apply sees_lift. intros n Hn. destruct (Z.ltb_spec n min_review_rounds) as [|Hrounds]; [by apply sees_ret|]. destruct (nonempty (strip _)) eqn:Hfb; [by apply sees_ret|].
  eapply sees_bind; [apply idle_sees|]. intros quiet seen1 tr1 Hidle. destruct quiet; cbn [negb]; [|by apply sees_ret]. specialize (Hidle eq_refl).
  destruct (validation_hold mc t pr) eqn:Hval; [by apply sees_ret|]. apply sees_do; [done|]. intros ci. destruct (ci_hold mc t ci) eqn:Hci; [by apply sees_ret|].
  destruct (bool_decide_reflect (mergeable pr = "MERGEABLE"%string)) as [Hm|]; cbn [negb]; [|by apply sees_ret].
  destruct (bool_decide_reflect (review_decision pr = "CHANGES_REQUESTED"%string)) as [|Hdec]; [by apply sees_ret|].
  apply sees_lift. intros b Hb. destruct (negb (Qeq_bool b 0) && _) eqn:Hbud; [by apply sees_ret|].
  eapply sees_bind; [apply guarded_sees|]. intros guarded seen2 tr2 Hg. destruct guarded; cbn [nonempty_list]; [|by apply sees_ret]. specialize (Hg eq_refl).
  destruct (scratch && hard_tier mc t && _) eqn:Hs; [by apply sees_ret|]. apply sees_ret. intros _.
  assert (Hin : forall e, e ∈ seen1 \/ e ∈ seen2 \/ e = Ev (RunsOf (id t)) runs \/ e = Ev (AskCi t (with_head (entry st (id t)) pr)) ci ->
    e ∈ Ev (RunsOf (id t)) runs :: seen1 ++ Ev (AskCi t (with_head (entry st (id t)) pr)) ci :: seen2 ++ []) by set_solver.
  split.
  - by destruct (phase_hold products t).
  - exact Hhum.
  - destruct (pr_base pr) eqn:E; [by left|right]. rewrite <- E in *. apply andb_false_iff in Hbase as [H|H]; [by rewrite E in H|]. by apply negb_false_iff, bool_decide_eq_true in H.
  - unfold tier_hold in Htier. destruct (mem _ _) eqn:E; [left; by apply mem_spec|]. destruct (hard_tier mc t); [by right|done].
  - exact Hv.
  - destruct (require_current_base mc (product t)) eqn:Er; [by left|right]. cbn in Hh1, Hh2. apply negb_false_iff in Hh1, Hh2. apply bool_decide_eq_true in Hh2. exists runs.
    split; [apply Hin; auto|]. split; [by destruct (head_sha pr)|done].
  - exists n. split; [exact Hn|done].
  - by destruct (strip _).
  - destruct Hidle as [(index & H1 & H2)|(rs & r & H1 & H2)]; [left; exists index|right; exists rs, r]; (split; [apply Hin; auto|done]).
  - exact Hval.
  - exists ci. split; [apply Hin; auto|]. unfold ci_hold in Hci. destruct (bool_decide_reflect (ci_state ci = "not_required"%string)); [by left|]. destruct (green ci); [by right|].
    by repeat case_match.
  - exact Hm.
  - exact Hdec.
  - exists b. split; [done|]. apply andb_false_iff in Hbud as [H|H]; [left; by apply negb_false_iff|by right].
  - destruct Hg as (names & H1 & H2). exists names. split; [apply Hin; auto|done].
  - intros -> Ht. rewrite Ht in Hs. by apply negb_false_iff in Hs.
Qed.

(** ** The pass *)

Definition unmerged (tr : list event_) : Prop := forallb (fun e => negb (is_merge e)) tr = true.
Lemma unmerged_app tr tr' : unmerged (tr ++ tr') <-> unmerged tr /\ unmerged tr'.
Proof. unfold unmerged. rewrite forallb_app. apply andb_true_iff. Qed.
Lemma readings_unmerged seen : Forall reading seen -> unmerged seen.
Proof. intros H. apply forallb_forall. intros e He%list_elem_of_In. rewrite Forall_forall in H. specialize (H e He). destruct e as [R c x]. by destruct c. Qed.
Lemma children_unmerged work : Forall child_event work -> unmerged work.
Proof. intros H. apply forallb_forall. intros e He%list_elem_of_In. rewrite Forall_forall in H. specialize (H e He). destruct e as [R c x]. by destruct c. Qed.

#[local] Abbreviation done_ := (fun _ _ => True).
Lemma quiet_do {R A} (c : mcmd R) (k : R -> mprog A) tr (Q : result exn A -> list event_ -> Prop) :
  (forall x, is_merge (Ev c x) = false) -> (forall x, safely (k x) (tr ++ [Ev c x]) Q) -> safely (x ← do_ c; k x) tr Q.
Proof. intros Hc H x. split; [|apply H]. specialize (Hc x). by destruct c. Qed.
Lemma quiet_lift {A B} (x : result exn A) (k : A -> mprog B) tr : (forall a, x = Ok a -> safely (k a) tr done_) -> safely (a ← lift x; k a) tr done_.
Proof. intros H. apply safe_bind, safe_lift. destruct x; cbn [then_]; [by apply H|done]. Qed.

Lemma only_on_children {A} (p : mprog A) tr : only on_children p -> safely p tr (fun _ tr' => exists work, tr' = tr ++ work /\ Forall child_event work).
Proof.
  revert tr. induction p as [a|e|R c k IH]; intros tr; cbn; [intros _; exists []; by rewrite app_nil_r..|]. intros [Hc Hk] x. split; [by destruct c|].
  eapply safe_mono; [|by apply IH]. intros r tr' (work & -> & Hw). exists (Ev c x :: work). rewrite <- app_assoc. split; [done|]. by constructor.
Qed.
Lemma retarget_only t slug children ok st : only on_children (retarget_ t slug children ok st).
Proof.
  revert ok st. induction children as [|child rest IH]; intros ok st; cbn [retarget]; [done|]. apply only_bind; [apply only_lift|]. intros [number st1].
  destruct number as [n|]; [|apply IH]. destruct (n =? 0); [apply IH|]. apply only_bind; [done|]. intros [pr|]; [|apply IH].
  destruct (negb _); [apply IH|]. destruct (nonempty _); [done|]. destruct (external_stack_owner cfg child); [destruct (bool_decide _); [done|apply IH]|].
  destruct (bool_decide _); [apply IH|]. apply only_bind; [done|]. intros b. apply IH.
Qed.

Lemma pget_put k f st k' f' v : f <> f' -> pget f (entry (put st k' f' v) k) = pget f (entry st k).
Proof.
  intros H. unfold put, entry at 1. destruct (decide (k = k')) as [->|Hne]; [rewrite dget_dset_eq|by rewrite dget_dset_ne]. unfold pget. cbn. by rewrite dget_dset_ne.
Qed.
Lemma find_pr_manual t st x t' : find_pr_number url_number t st = Ok x -> manual_reserved x.2 t' = manual_reserved st t'.
Proof.
  unfold find_pr_number. cbv zeta. intros (cached & _ & H)%bind_Ok. assert (Hput : forall v, manual_reserved (put st (id t) "pr_number" v) t' = manual_reserved st t').
  { intros v. unfold manual_reserved. by rewrite pget_put by done. }
  destruct (if nonempty (TaskModel.pr t) then url_number t else None) as [n|]; [|by simplify_eq]. destruct (_ && _); simplify_eq; [apply Hput|done].
Qed.

(** The head that may be merged *)
Record at_head (t : Task) : Prop := { ah_task : t ∈ dvals tasks; ah_authorized : authorized t = true; ah_status : status t = IN_REVIEW }.

Lemma merge_safely t slug n pr st tr0 seen : at_head t -> slug_for t = Some slug -> manual_reserved st t = false -> green_gates t pr true st seen -> Forall reading seen ->
  unmerged (tr0 ++ Ev (GetPr slug n) (Some pr) :: seen) -> safely (merge_ t slug n pr st) (tr0 ++ Ev (GetPr slug n) (Some pr) :: seen) done_.
Proof.
  intros [H1 H2 H3] Hslug Hman Hg Hseen Hun. unfold do_merge. cbv zeta. apply safe_bind. eapply safe_mono; [|apply only_on_children].
  - intros [[delete_branch st1]|e] tr' (work & -> & Hw); cbn [then_]; [|done]. intros error. split.
    + exists tr0, t, pr, st, seen, work. rewrite <- app_assoc. split; [done|]. split; [done|]. split; [done|]. split; [|done].
      pose proof (children_unmerged _ Hw) as Hw'. rewrite app_assoc. by apply unmerged_app.
    + destruct error; [done|]. apply quiet_lift. intros rounds _. by apply quiet_do.
  - unfold retarget_children_before_delete. destruct (external_stack_owner cfg t); [done|]. destruct (slug_for t) as [s'|]; [|done]. destruct (_ && _); [apply retarget_only|done].
Qed.
Lemma fresh_safely {A} t st (k : option (string * Z * PRInfo) * entries -> mprog A) tr (Hun : unmerged tr) :
  (forall st1, safely (k (None, st1)) tr done_) ->
  (forall slug n answer st1, slug_for t = Some slug -> (forall t', manual_reserved st1 t' = manual_reserved st t') ->
    safely (k (match answer with Some pr => Some (slug, n, pr) | None => None end, st1)) (tr ++ [Ev (GetPr slug n) answer]) done_) ->
  safely (x ← fresh_pr available slug_for url_number t st; k x) tr done_.
Proof.
  intros Hnone Hsome. unfold fresh_pr. apply safe_bind, safe_bind, safe_lift. destruct (find_pr_number url_number t st) as [[number st1]|e] eqn:Hf; cbn [then_]; [|done].
  assert (Hm : forall t', manual_reserved st1 t' = manual_reserved st t') by (intros t'; exact (find_pr_manual _ _ _ t' Hf)).
  destruct (slug_for t) as [slug|] eqn:Hs; [|apply Hnone]. destruct number as [n|]; [|apply Hnone]. destruct (_ || _); [apply Hnone|].
  intros answer. split; [done|]. cbn [safe then_]. by apply Hsome.
Qed.
Lemma advance_safely t st tr : at_head t -> unmerged tr -> safely (advance t st) tr done_.
Proof.
  intros Ht Hun. unfold advance_merge_head. destruct (manual_reserved st t) eqn:Hman; [done|]. apply (fresh_safely t st (fun x => let '(found, st) := x in _)); [done|done|].
  intros slug n answer st1 Hslug Hm. destruct answer as [pr|]; [|done]. apply safe_bind. eapply safe_mono; [|apply gate_sees].
  intros [held|e] tr' (seen & -> & Hseen & Hg); cbn [then_]; [|done]. destruct held as [reason|].
  - by destruct (head_in_flight _ _).
  - rewrite <- app_assoc. apply merge_safely; [done|done|by rewrite Hm|by apply Hg|done|].
    apply unmerged_app. split; [done|]. by apply (readings_unmerged seen).
Qed.
Lemma candidate_safely t st tr : at_head t -> unmerged tr -> safely (candidate_ t st) tr done_.
Proof.
  intros Ht Hun. unfold merge_candidate. destruct (manual_reserved st t) eqn:Hman; [done|]. apply (fresh_safely t st (fun x => let '(found, st) := x in _)); [done|done|].
  intros slug n answer st1 Hslug Hm. destruct answer as [pr|]; [|done]. apply safe_bind. eapply safe_mono; [|apply gate_sees].
  intros [held|e] tr' (seen & -> & Hseen & _); cbn [then_]; [|done]. destruct held as [reason|]; [done|].
  assert (Hun' : unmerged ((tr ++ [Ev (GetPr slug n) (Some pr)]) ++ seen)) by (apply unmerged_app; split; [by apply unmerged_app|by apply readings_unmerged]).
  destruct (negb _); [by apply advance_safely|]. apply quiet_do; [done|]. intros [answer st2]. apply quiet_lift. intros outcome _.
  destruct (bool_decide (outcome = _)); [|destruct (negb _); [done|by destruct (_ || _)]]. apply advance_safely; [done|]. by apply unmerged_app.
Qed.

(** The task that the queue takes *)
Lemma current_head_spec st t st' : current_merge_head cfg mc authorized tasks st = (Some t, st') -> at_head t /\ automerge_enabled cfg mc t = true.
Proof.
  unfold current_merge_head. enough (H : forall l x, l ⊆ dvals tasks -> (forall t, x.1 = Some t -> at_head t /\ automerge_enabled cfg mc t = true) ->
    forall t, (foldl (fun x t => if authorized t && flag_set x.2 (id t) "merge_head" then
      if match x.1 with None => true | Some _ => false end && bool_decide (status t = IN_REVIEW) && automerge_enabled cfg mc t then (Some t, x.2)
      else (x.1, update x.2 (id t) (fun r => (queue_drop_head r).2)) else x) x l).1 = Some t -> at_head t /\ automerge_enabled cfg mc t = true).
  { intros E. apply (H (dvals tasks) (None, st)); [done|done|]. by rewrite E. }
  induction l as [|y l IH]; intros x Hl Hx; cbn [foldl]; [done|]. apply IH; [intros z Hz; apply Hl; by right|]. intros u.
  destruct (authorized y && _) eqn:Ha; [|apply Hx]. destruct (_ && _ && _) eqn:Hb; [|apply Hx]. intros [= <-]. apply andb_true_iff in Ha as [Ha _].
  rewrite !andb_true_iff, bool_decide_eq_true in Hb. split; [split; [apply Hl; by left|done|tauto]|tauto].
Qed.
Lemma candidates_head st t l : candidates authorized tasks st = t :: l -> at_head t.
Proof.
  intros H. assert (Hin : t ∈ List.filter (is_candidate authorized st) (dvals tasks)).
  { unfold candidates in H. rewrite <- (sort_by_Permutation (before_in_queue st)), H. by left. }
  apply list_elem_of_In, filter_In in Hin as [Hin Hc]. unfold is_candidate in Hc. rewrite !andb_true_iff, bool_decide_eq_true in Hc. split; [by apply list_elem_of_In|tauto|tauto].
Qed.
Lemma queue_pass_safely st : safely (pass st) [] done_.
Proof.
  unfold run_merge_queue. destruct (current_merge_head _ _ _ _ st) as [[t|] st1] eqn:Hh.
  - destruct (current_head_spec _ _ _ Hh) as [Ht _]. destruct (authorized t); [|done]. apply safe_bind, safe_invoke. intros r. split; [done|]. destruct r; cbn [then_]; [|done]. by apply advance_safely.
  - destruct (merge_head_pending _ _ _); [done|]. destruct (candidates authorized tasks st1) as [|t l] eqn:Hc; [done|]. apply candidates_head in Hc.
    apply safe_bind, safe_invoke. intros r. split; [done|]. destruct r; cbn [then_]; [|done]. by apply candidate_safely.
Qed.

(** C29.  (Safety.)  Wherever a pass of the queue stops, it has merged at most one pull request.  It was that of an authorized task in review, not reserved for manual work; it was
    read afresh from the forge, and since then only gates were read and stacked pull requests retargeted; it is merged at the head that this reading reported; and every gate was green:
    phase, stops, base, tier, the verdict of the review, for exact heads the head that the approval covers, review rounds, feedback, runs, the validation and CI of that head,
    mergeability, the human review, the budget, guarded paths, and the scratch merge of the hard tier. *)
Theorem merge_guarded st tr o tr1 e tr2 (Hexec : exec (pass st) tr o) (Htr : tr = tr1 ++ e :: tr2) : merge_ok tr1 e.
Proof.
  subst tr. destruct (safe_exec _ _ _ _ _ _ Hexec (queue_pass_safely st) (allowed_nil _)) as [Hal _]. by apply (allowed_split _ _ _ tr2).
Qed.
End safety.

(** ** One head *)

(** The task is the head of the queue, or its checks run before it becomes the head. *)
Definition held (st : entries) (k : string) : bool := flag_set st k "merge_head" || check_pending st k.
(** Nothing new is held. *)
Definition shrinks (st st' : entries) : Prop := forall k, held st' k = true -> held st k = true.
(** Only [k] can be. *)
Definition holds_only (k : string) (st st' : entries) : Prop := forall k', held st' k' = true -> held st k' = true \/ k' = k.
#[local] Abbreviation event_ := (event mcmd).
(** What the rebase and the dispatch of checks may do to the markers *)
Definition calm (e : event_) : Prop :=
  match e with
  | @Ev _ R c x => match c in mcmd R return R -> Prop with
    | Rebase t st => fun x => holds_only (id t) st x.2
    | DispatchScratchMerge t st => fun st' => shrinks st st'
    | _ => fun _ => True
    end x
  end.

Lemma shrinks_refl st : shrinks st st.
Proof. by intros k H. Qed.
Lemma shrinks_trans st1 st2 st3 : shrinks st1 st2 -> shrinks st2 st3 -> shrinks st1 st3.
Proof. intros H1 H2 k H. by apply H1, H2. Qed.
#[local] Hint Resolve shrinks_refl : core.

(** Changes of an entry that hold nothing new *)
Definition row_shrinks (f : row -> row) : Prop := forall r, (truthy (pget "merge_head" (f r)) = true -> truthy (pget "merge_head" r) = true) /\ pget "check_run" (f r) = pget "check_run" r.
Lemma entry_update st k f k' : entry (update st k f) k' = if bool_decide (k' = k) then f (entry st k) else entry st k'.
Proof. unfold update, entry at 1. case_bool_decide as E; [subst; by rewrite dget_dset_eq|by rewrite dget_dset_ne]. Qed.
Lemma update_shrinks st k f : row_shrinks f -> shrinks st (update st k f).
Proof.
  intros Hf k'. unfold held, flag_set, check_pending. rewrite !entry_update. case_bool_decide as E; [|done]. subst. destruct (Hf (entry st k)) as [H1 H2]. rewrite H2.
  rewrite !orb_true_iff. intros [H|H]; [left; by apply H1|by right].
Qed.
Lemma update_holds st k f : (forall r, pget "check_run" (f r) = pget "check_run" r) -> holds_only k st (update st k f).
Proof. intros Hf k'. unfold held, flag_set, check_pending. rewrite !entry_update. case_bool_decide as E; [by right|by left]. Qed.
Lemma pget_without f g r : pget g (without f r) = if bool_decide (g = f) then PNone else pget g r.
Proof.
  unfold without, pget. induction r as [|[k v] r IH]; cbn; [by case_bool_decide|]. destruct (decide (k = f)) as [->|Hk].
  - rewrite (bool_decide_eq_true_2 (f = f)) by done. cbn. rewrite IH. case_bool_decide as E; [done|]. by rewrite decide_False.
  - rewrite (bool_decide_eq_false_2 (k = f)) by done. cbn. destruct (decide (g = k)) as [->|E]; [by rewrite bool_decide_eq_false_2|exact IH].
Qed.
Lemma without_shrinks k : k <> "check_run" -> row_shrinks (without k).
Proof. intros Hk r. rewrite !pget_without, (bool_decide_eq_false_2 ("check_run"%string = k)) by congruence. split; [|done]. by case_bool_decide. Qed.
Lemma dset_shrinks k v : k <> "merge_head" -> k <> "check_run" -> row_shrinks (dset k v).
Proof. intros H1 H2 r. by rewrite !pget_dset_ne. Qed.
Lemma compose_shrinks f g : row_shrinks f -> row_shrinks g -> row_shrinks (fun r => f (g r)).
Proof. intros Hf Hg r. destruct (Hf (g r)) as [H1 H2], (Hg r) as [H3 H4]. split; [auto|congruence]. Qed.
Definition stripped (r : row) : row := without "merge_head" (without "automerge_ready_at" (without "automerge_candidate" r)).
Lemma stripped_shrinks : row_shrinks stripped.
Proof.
  apply (compose_shrinks (without "merge_head") (fun r => without "automerge_ready_at" (without "automerge_candidate" r))); [by apply without_shrinks|].
  apply (compose_shrinks (without "automerge_ready_at") (without "automerge_candidate")); by apply without_shrinks.
Qed.
Lemma leave_shrinks : row_shrinks (fun r => (queue_leave r).2).
Proof. intros r. apply (compose_shrinks (without "automerge_blocked") stripped); [by apply without_shrinks|apply stripped_shrinks]. Qed.
Lemma hold_shrinks reason keep : row_shrinks (queue_hold reason keep).
Proof.
  assert (Hset : row_shrinks (fun r => if is_str (pget "automerge_blocked" r) reason then r else dset "automerge_blocked" (PStr reason) r)).
  { intros r. destruct (is_str _ _); [done|]. by apply dset_shrinks. }
  destruct keep; [exact Hset|]. intros r. apply (compose_shrinks _ stripped Hset stripped_shrinks r).
Qed.
Lemma join_shrinks now : row_shrinks (queue_join now).
Proof.
  unfold queue_join. apply (compose_shrinks (setdefault "automerge_ready_at" (PStr now))); [|apply (compose_shrinks (dset _ _)); [by apply dset_shrinks|by apply without_shrinks]].
  intros r. unfold setdefault. destruct (dmem _ r); [done|]. by apply dset_shrinks.
Qed.
Lemma put_shrinks st k f v : f <> "merge_head" -> f <> "check_run" -> shrinks st (put st k f v).
Proof. intros H1 H2. apply (update_shrinks st k (dset f v)). by apply dset_shrinks. Qed.
Lemma find_pr_shrinks url_number t st x : find_pr_number url_number t st = Ok x -> shrinks st x.2.
Proof.
  unfold find_pr_number. cbv zeta. intros (cached & _ & H)%bind_Ok. destruct (if nonempty (TaskModel.pr t) then url_number t else None) as [n|]; [|by simplify_eq].
  destruct (_ && _); simplify_eq; [by apply put_shrinks|done].
Qed.

Section heads.
Context (float : pyval -> result exn Q) (fnmatch : string -> string -> bool) (available : bool).
Context (cfg : Config) (mc : MergeConfig) (products : list (string * list Phase)) (authorized : Task -> bool).
Context (slug_for : Task -> option string) (url_number : Task -> option Z).
Context (costs : list (string * Q)) (now : string) (tasks : tasks_t).
#[local] Abbreviation gate := (green_gate float fnmatch cfg mc products costs tasks).
#[local] Abbreviation advance := (advance_merge_head float fnmatch available cfg mc products slug_for url_number costs now tasks).
#[local] Abbreviation candidate_ := (merge_candidate float fnmatch available cfg mc products slug_for url_number costs now tasks).
#[local] Abbreviation pass := (run_merge_queue float fnmatch available cfg mc products authorized slug_for url_number costs now tasks).
#[local] Abbreviation poll := (maybe_automerge float fnmatch cfg mc products costs now tasks).

(** The outcome of a program, when it has one *)
Definition ends {A} (P : A -> Prop) (x : result exn A) (tr : list event_) : Prop := match x with Ok a => P a | Err _ => True end.
Lemma ends_bind {A B} (p : mprog A) (k : A -> mprog B) (P : A -> Prop) (Q : B -> Prop) : given calm p (ends P) -> (forall a, P a -> given calm (k a) (ends Q)) -> given calm (a ← p; k a) (ends Q).
Proof.
  intros Hp Hk. apply given_bind. eapply given_mono; [|exact Hp]. intros [a|e] tr; cbn [ends]; [|done]. intros Ha. eapply given_mono; [|by apply Hk]. by intros [b|e] tr'.
Qed.
Lemma ends_do {R A} (c : mcmd R) (k : R -> mprog A) (Q : A -> Prop) : (forall x, calm (Ev c x) -> given calm (k x) (ends Q)) -> given calm (x ← do_ c; k x) (ends Q).
Proof. intros H. apply given_do. intros x Hx. eapply given_mono; [|by apply H]. by intros [a|e] tr. Qed.
Lemma ends_lift {A B} (x : result exn A) (k : A -> mprog B) (Q : B -> Prop) : (forall a, x = Ok a -> given calm (k a) (ends Q)) -> given calm (a ← lift x; k a) (ends Q).
Proof. intros H. apply given_bind, given_lift. destruct x; [|done]. eapply given_mono; [|by apply H]. by intros [b|e] tr. Qed.
Lemma ends_any {A} (p : mprog A) : given calm p (ends (fun _ => True)).
Proof. induction p as [a|e|R c k IH]; [done|done|]. intros x _. eapply given_mono; [|apply IH]. by intros [a|e] tr. Qed.

Lemma retarget_shrinks t slug children ok st : given calm (retarget cfg mc products url_number now t slug children ok st) (ends (fun x => shrinks st x.2)).
Proof.
  revert ok st. induction children as [|child rest IH]; intros ok st; cbn [retarget]; [apply shrinks_refl|]. apply ends_lift. intros [number st1] Hn. apply find_pr_shrinks in Hn. cbn [snd] in Hn.
  assert (IH' : forall ok, given calm (retarget cfg mc products url_number now t slug rest ok st1) (ends (fun x => shrinks st x.2))).
  { intros ok'. eapply given_mono; [|apply IH]. intros [x|e] tr; [|done]. by apply shrinks_trans. }
  destruct number as [n|]; [|apply IH']. destruct (n =? 0); [apply IH'|]. apply ends_do. intros [pr|] _; [|apply IH'].
  destruct (negb _); [apply IH'|]. destruct (nonempty _); [exact Hn|]. destruct (external_stack_owner cfg child).
  { destruct (bool_decide _); [|apply IH']. cbn. eapply shrinks_trans; [exact Hn|]. by apply put_shrinks. }
  destruct (bool_decide _); [apply IH'|]. apply ends_do. intros b _. apply IH'.
Qed.
Lemma merge_shrinks t slug n pr st : given calm (do_merge available cfg mc products slug_for url_number now tasks t slug n pr st) (ends (shrinks st)).
Proof.
  unfold do_merge. cbv zeta. apply (ends_bind _ _ (fun x => shrinks st x.2)).
  { unfold retarget_children_before_delete. destruct (external_stack_owner cfg t); [apply shrinks_refl|]. destruct (slug_for t); [|apply shrinks_refl]. destruct (_ && _); [apply retarget_shrinks|apply shrinks_refl]. }
  intros [delete_branch st1] Hs. cbn [snd] in Hs. apply ends_do. intros error _. destruct error as [e|].
  - cbn. eapply shrinks_trans; [exact Hs|]. apply update_shrinks, hold_shrinks.
  - apply ends_lift. intros rounds _. apply ends_do. intros _ _. cbn. eapply shrinks_trans; [exact Hs|]. eapply shrinks_trans; [apply update_shrinks, leave_shrinks|]. by apply put_shrinks.
Qed.
Lemma fresh_shrinks {A} t st (k : option (string * Z * PRInfo) * entries -> mprog A) (Q : A -> Prop) :
  (forall found st1, shrinks st st1 -> given calm (k (found, st1)) (ends Q)) -> given calm (x ← fresh_pr available slug_for url_number t st; k x) (ends Q).
Proof.
  intros H. apply (ends_bind _ _ (fun x => shrinks st x.2)); [|intros [found st1]; apply H]. unfold fresh_pr. apply ends_lift. intros [number st1] Hn. apply find_pr_shrinks in Hn. cbn [snd] in Hn.
  destruct (slug_for t); [|done]. destruct number; [|done]. destruct (_ || _); [done|]. apply ends_do. intros answer _. done.
Qed.
Lemma advance_shrinks t st : given calm (advance t st) (ends (shrinks st)).
Proof.
  unfold advance_merge_head. destruct (manual_reserved st t); [apply shrinks_refl|]. apply (fresh_shrinks t st (fun x => let '(found, st) := x in _)). intros found st1 Hs.
  destruct found as [[[slug n] pr]|]; [|done]. apply (ends_bind _ _ (fun _ => True)); [apply ends_any|]. intros held _. destruct held as [reason|].
  - destruct (head_in_flight _ _); [done|]. cbn. eapply shrinks_trans; [exact Hs|]. apply update_shrinks, hold_shrinks.
  - eapply given_mono; [|apply merge_shrinks]. intros [x|e] tr; [|done]. by apply shrinks_trans.
Qed.
Lemma candidate_holds t st : given calm (candidate_ t st) (ends (holds_only (id t) st)).
Proof.
  unfold merge_candidate. assert (Hstay : forall st1, shrinks st st1 -> holds_only (id t) st st1) by (intros st1 H k Hk; left; by apply H).
  destruct (manual_reserved st t); [by apply Hstay|]. apply (fresh_shrinks t st (fun x => let '(found, st) := x in _)). intros found st1 Hs.
  destruct found as [[[slug n] pr]|]; [|by apply Hstay]. apply (ends_bind _ _ (fun _ => True)); [apply ends_any|]. intros held _. destruct held as [reason|].
  { apply Hstay. eapply shrinks_trans; [exact Hs|]. apply update_shrinks, hold_shrinks. }
  assert (Hthen : forall st2 st3, holds_only (id t) st1 st2 -> holds_only (id t) st2 st3 -> holds_only (id t) st st3).
  { intros st2 st3 H2 H3 k Hk. destruct (H3 k Hk) as [H|H]; [|by right]. destruct (H2 k H) as [H'|H']; [|by right]. left. by apply Hs. }
  assert (Hadv : forall st2, holds_only (id t) st1 st2 -> given calm (advance t (update st2 (id t) queue_head)) (ends (holds_only (id t) st))).
  { intros st2 H2. eapply given_mono; [|apply advance_shrinks]. intros [st3|e] tr; [|done]. cbn. intros H3. apply (Hthen st2); [done|]. intros k Hk. apply H3 in Hk. revert k Hk. apply update_holds.
    intros r. unfold queue_head. by rewrite pget_dset_ne. }
  assert (Hrefl : holds_only (id t) st1 st1) by (intros k Hk; by left). destruct (negb _); [by apply Hadv|]. apply ends_do. intros [answer st2] H2. cbn [calm snd] in H2. apply ends_lift. intros outcome _.
  destruct (bool_decide _); [by apply Hadv|]. destruct (negb _); [apply (Hthen st2); [done|intros k Hk; by left]|]. destruct (_ || _); [apply (Hthen st2); [done|intros k Hk; by left]|].
  apply (Hthen st2); [done|]. apply update_holds. intros r. unfold queue_head. by rewrite pget_dset_ne.
Qed.
Lemma poll_shrinks t pr st : given calm (poll t pr st) (ends (shrinks st)).
Proof.
  unfold maybe_automerge. destruct (negb _); [apply shrinks_refl|]. destruct (negb _); [apply update_shrinks, leave_shrinks|].
  apply (ends_bind _ _ (fun _ => True)); [apply ends_any|]. intros held _. destruct held as [reason|]; [|apply update_shrinks, join_shrinks]. destruct (flag_set _ _ _); [apply shrinks_refl|].
  apply (ends_bind _ _ (shrinks st)).
  - unfold maybe_dispatch_scratch_merge. destruct (_ || _); [apply shrinks_refl|]. apply (ends_bind _ _ (fun _ => True)); [apply ends_any|]. intros [reason'|] _; [apply shrinks_refl|]. by intros st' Hst.
  - intros st1 Hs. cbn. eapply shrinks_trans; [exact Hs|]. apply update_shrinks, hold_shrinks.
Qed.

Lemma flag_drop_head st k k' : flag_set (update st k (fun r => (queue_drop_head r).2)) k' "merge_head" = if bool_decide (k' = k) then false else flag_set st k' "merge_head".
Proof.
  unfold flag_set. rewrite entry_update. case_bool_decide; [|done]. change ((queue_drop_head (entry st k)).2) with (without "merge_head" (entry st k)). by rewrite pget_without.
Qed.
Lemma current_head_spec' st : let x := current_merge_head cfg mc authorized tasks st in
  shrinks st x.2 /\ (x.1 = None -> forall t, t ∈ dvals tasks -> authorized t = true -> flag_set x.2 (id t) "merge_head" = false).
Proof.
  cbv zeta. unfold current_merge_head. match goal with |- context [foldl ?g _ _] => set (f := g) end.
  enough (H : forall l x, shrinks st x.2 -> let y := foldl f x l in shrinks st y.2 /\ (forall k, flag_set x.2 k "merge_head" = false -> flag_set y.2 k "merge_head" = false) /\
    (y.1 = None -> x.1 = None /\ forall t, t ∈ l -> authorized t = true -> flag_set y.2 (id t) "merge_head" = false)).
  { destruct (H (dvals tasks) (None, st) (shrinks_refl st)) as (H1 & _ & H3). split; [done|]. intros Hn. by apply H3. }
  induction l as [|t l IH]; intros x Hx; cbn [foldl]; [split; [done|]; split; [done|]; intros Hn; split; [done|]; intros t Ht; by apply elem_of_nil in Ht|].
  assert (Hf : shrinks st (f x t).2 /\ (forall k, flag_set x.2 k "merge_head" = false -> flag_set (f x t).2 k "merge_head" = false) /\
    ((f x t).1 = None -> x.1 = None /\ (authorized t = true -> flag_set (f x t).2 (id t) "merge_head" = false))).
  { unfold f. destruct (authorized t && flag_set x.2 (id t) "merge_head") eqn:Ha.
    - destruct (_ && _ && _) eqn:Hc; cbn [fst snd]; [done|]. split.
      + eapply shrinks_trans; [exact Hx|]. apply (update_shrinks _ _ (without "merge_head")). by apply without_shrinks.
      + split; [intros k Hk; rewrite flag_drop_head; by destruct (bool_decide (k = _))|]. intros Hn. split; [done|]. intros _. by rewrite flag_drop_head, bool_decide_eq_true_2.
    - split; [done|]. split; [done|]. intros Hn. split; [done|]. intros E. by rewrite E in Ha. }
  destruct Hf as (F1 & F2 & F3). destruct (IH (f x t) F1) as (H1 & H2 & H3). split; [done|]. split; [auto|]. intros Hn. destruct (H3 Hn) as [Hn' Hl]. destruct (F3 Hn') as [Hx' Ht].
  split; [done|]. intros u [->|Hu]%elem_of_cons Hau; [apply H2; by apply Ht|by apply Hl].
Qed.
(** A pass holds nothing new; or nothing was held, and then only one task is. *)
Lemma pass_holds st tr st' : exec (pass st) tr (Some (Ok st')) -> Forall calm tr ->
  shrinks st st' \/ exists st1 t, holds_only (id t) st1 st' /\ forall t, t ∈ dvals tasks -> authorized t = true -> held st1 (id t) = false.
Proof.
  intros He Hc. enough (H : given calm (pass st) (ends (fun st' => shrinks st st' \/ exists st1 t, holds_only (id t) st1 st' /\ forall t, t ∈ dvals tasks -> authorized t = true -> held st1 (id t) = false))).
  { exact (given_exec _ _ _ _ _ He Hc H). }
  unfold run_merge_queue. destruct (current_head_spec' st) as [Hs Hn]. destruct (current_merge_head cfg mc authorized tasks st) as [[t|] st1]; cbn [fst snd] in *.
  - destruct (authorized t); [|by left]. apply ends_do. intros r _. destruct r; [|done]. cbn [given]. eapply given_mono; [|apply advance_shrinks]. intros [x|e] tr'; [|done]. cbn. intros H. left. by eapply shrinks_trans.
  - destruct (merge_head_pending authorized tasks st1) eqn:Hp; [by left|]. destruct (candidates authorized tasks st1) as [|t l]; [by left|]. apply ends_do. intros r _. destruct r; [|done].
    eapply given_mono; [|apply candidate_holds]. intros [x|e] tr'; [|done]. cbn. intros H. right. exists st1, t. split; [done|]. intros u Hu Hau. unfold held. rewrite (Hn eq_refl u Hu Hau). cbn.
    destruct (check_pending st1 (id u)) eqn:E; [|done]. rewrite <- not_true_iff_false in Hp. destruct Hp. apply existsb_exists. exists u. split; [by apply list_elem_of_In|]. by rewrite Hau, E.
Qed.
End heads.

(** ** What happens to the markers

    The tasks are [ids]; [auth] are those of this scheduler.  Settings, task documents and clocks may differ from step to step.  A step comes with a number: 1 when a
    stopped check that will make its task the head is started again ([delegate_recovery]) while another task is held, 0 otherwise. *)
Definition held_ids (auth : string -> bool) (ids : list string) (st : entries) : list string := List.filter (fun k => auth k && held st k) ids.
Definition other_held (auth : string -> bool) (ids : list string) (st : entries) (k : string) : bool := existsb (fun k' => negb (bool_decide (k' = k))) (held_ids auth ids st).
Inductive queue_step (auth : string -> bool) (ids : list string) (st : entries) : nat -> entries -> Prop :=
| pass_step float fnmatch available cfg mc products authorized slug_for url_number costs now tasks tr st' :
    (forall k, k ∈ ids -> exists t, t ∈ dvals tasks /\ id t = k /\ authorized t = auth k) ->
    exec (run_merge_queue float fnmatch available cfg mc products authorized slug_for url_number costs now tasks st) tr (Some (Ok st')) -> Forall calm tr -> queue_step auth ids st 0 st'
| poll_step float fnmatch cfg mc products costs now tasks t pr tr st' :
    exec (maybe_automerge float fnmatch cfg mc products costs now tasks t pr st) tr (Some (Ok st')) -> Forall calm tr -> queue_step auth ids st 0 st'
| check_step t merge_head kept :                  (* the checks of a rebase are over *)
    (merge_head = true -> check_pending st (id t) = true) -> shrinks st kept -> queue_step auth ids st 0 (after_merge_rebase_check t merge_head kept)
| recovery_step t run_id idle kept st' :          (* a stopped check is started again *)
    shrinks st kept -> delegate_check t run_id idle st kept = Some st' -> queue_step auth ids st (if held st' (id t) && other_held auth ids st (id t) then 1 else 0) st'
| other_step st' : shrinks st st' -> queue_step auth ids st 0 st'.
Inductive queue_steps (auth : string -> bool) (ids : list string) (st : entries) : nat -> entries -> Prop :=
| no_steps : queue_steps auth ids st 0 st
| more_steps n st1 m st' : queue_step auth ids st n st1 -> queue_steps auth ids st1 m st' -> queue_steps auth ids st (n + m) st'.

Lemma elem_of_held_ids auth ids st k : k ∈ held_ids auth ids st <-> k ∈ ids /\ auth k = true /\ held st k = true.
Proof. unfold held_ids. by rewrite list_elem_of_In, filter_In, <- list_elem_of_In, andb_true_iff. Qed.
Lemma no_other_held auth ids st k k' : other_held auth ids st k = false -> k' ∈ held_ids auth ids st -> k' = k.
Proof.
  intros H Hk. destruct (decide (k' = k)) as [|Hne]; [done|]. apply not_true_iff_false in H. destruct H. apply existsb_exists. exists k'.
  split; [by apply list_elem_of_In|]. by rewrite bool_decide_eq_false_2.
Qed.
Lemma held_ids_nodup auth ids st : NoDup ids -> NoDup (held_ids auth ids st).
Proof. intros H. unfold held_ids. apply NoDup_ListNoDup, List.NoDup_filter. by apply NoDup_ListNoDup. Qed.
Lemma held_ids_least auth ids st st' l : NoDup ids -> (forall k, k ∈ held_ids auth ids st' -> k ∈ held_ids auth ids st \/ k ∈ l) ->
  (List.length (held_ids auth ids st') <= List.length (held_ids auth ids st) + List.length l)%nat.
Proof.
  intros Hnd H. rewrite <- length_app. apply submseteq_length, NoDup_submseteq; [by apply held_ids_nodup|]. intros k Hk. apply elem_of_app. by apply H.
Qed.
Lemma shrinks_held auth ids st st' : NoDup ids -> shrinks st st' -> (List.length (held_ids auth ids st') <= List.length (held_ids auth ids st))%nat.
Proof.
  intros Hnd Hs. pose proof (held_ids_least auth ids st st' [] Hnd) as H. cbn in H. rewrite Nat.add_0_r in H. apply H. intros k. rewrite !elem_of_held_ids. intros (H1 & H2 & H3). left. auto.
Qed.
Lemma only_held auth ids st k : NoDup ids -> (forall k', k' ∈ held_ids auth ids st -> k' = k) -> (List.length (held_ids auth ids st) <= 1)%nat.
Proof.
  intros Hnd H. change 1%nat with (List.length [k]). apply submseteq_length, NoDup_submseteq; [by apply held_ids_nodup|]. intros k' Hk. apply list_elem_of_singleton. by apply H.
Qed.

Lemma recovery_holds t run_id idle st kept st' : shrinks st kept -> delegate_check t run_id idle st kept = Some st' -> holds_only (id t) st st'.
Proof.
  intros Hs. unfold delegate_check. cbv zeta. destruct (_ && _); [|done]. intros [= <-] k. unfold held, flag_set, check_pending. rewrite entry_update.
  case_bool_decide as E; [by right|]. intros H. left. by apply Hs.
Qed.
Lemma step_held auth ids st n st' : NoDup ids -> queue_step auth ids st n st' ->
  (List.length (held_ids auth ids st') <= Nat.max 1 (List.length (held_ids auth ids st)) + n)%nat.
Proof.
  intros Hnd Hstep.
  assert (Hshrinks : forall st1, shrinks st st1 -> (List.length (held_ids auth ids st1) <= Nat.max 1 (List.length (held_ids auth ids st)) + 0)%nat).
  { intros st1 Hs. pose proof (shrinks_held auth ids st st1 Hnd Hs). lia. }
  destruct Hstep as [? ? ? ? ? ? ? ? ? ? ? ? tr st1 Hids He Hc|? ? ? ? ? ? ? ? t pr tr st1 He Hc|t merge_head kept Hp Hs|t run_id idle kept st1 Hs Hd|st1 Hs].
  - destruct (pass_holds _ _ _ _ _ _ _ _ _ _ _ _ _ _ _ He Hc) as [Hs|(st0 & t & Ho & Hnone)]; [by apply Hshrinks|].
    assert (H : (List.length (held_ids auth ids st1) <= 1)%nat); [|lia]. apply (only_held auth ids st1 (id t) Hnd). intros k (Hin & Ha & Hk)%elem_of_held_ids.
    destruct (Ho k Hk) as [H|H]; [|done]. destruct (Hids k Hin) as (u & Hu & <- & E). rewrite (Hnone u Hu) in H; [done|congruence].
  - apply Hshrinks. exact (given_exec _ _ _ _ _ He Hc (poll_shrinks _ _ _ _ _ _ _ _ t pr st)).
  - apply Hshrinks. unfold after_merge_rebase_check. destruct merge_head; [|done]. destruct (_ && _); [|done]. intros k Hk.
    apply (update_holds kept (id t) queue_head) in Hk as [H| ->]; [by apply Hs|unfold held; rewrite (Hp eq_refl); by rewrite orb_true_r|]. intros r. unfold queue_head. by rewrite pget_dset_ne.
  - pose proof (recovery_holds _ _ _ _ _ _ Hs Hd) as Ho. destruct (held st1 (id t)) eqn:Hh; cbn [andb].
    + destruct (other_held auth ids st (id t)) eqn:Hother.
      * pose proof (held_ids_least auth ids st st1 [id t] Hnd) as H. cbn [List.length] in H. assert (List.length (held_ids auth ids st1) <= List.length (held_ids auth ids st) + 1)%nat; [|lia].
        apply H. intros k (Hin & Ha & Hk)%elem_of_held_ids. rewrite elem_of_held_ids, list_elem_of_singleton. destruct (Ho k Hk); auto.
      * assert (H : (List.length (held_ids auth ids st1) <= 1)%nat); [|lia]. apply (only_held auth ids st1 (id t) Hnd). intros k (Hin & Ha & Hk)%elem_of_held_ids.
        destruct (Ho k Hk); [|done]. by apply (no_other_held auth ids st); [|apply elem_of_held_ids].
    + apply Hshrinks. intros k Hk. destruct (Ho k Hk) as [H| ->]; [done|congruence].
  - by apply Hshrinks.
Qed.

(** C30.  (Invariant.)  Through any sequence of passes of the queue that return, polls, finished checks, stopped checks that a person starts again, and other changes that hold nothing
    new, for a fixed set of tasks and of those this scheduler is authorized for, the number of tasks that are the head of the queue, or have checks running that make them the head, is at
    most one (or what it was at the start, if more), plus one for each restart of the stopped check of a rebase while another task was held.  So the queue itself never takes a second
    task; but [delegate_recovery] does not look at the queue, and can make two (Lemma [recovery_makes_two_heads]). *)
Theorem one_head auth ids st n st' (Hids : NoDup ids) (Hsteps : queue_steps auth ids st n st') :
  (List.length (held_ids auth ids st') <= Nat.max 1 (List.length (held_ids auth ids st)) + n)%nat.
Proof.
  induction Hsteps as [st|st n st1 m st' Hstep _ IH]; [lia|]. pose proof (step_held _ _ _ _ _ Hids Hstep). lia.
Qed.

(** ** A queue of two *)

Module Merging.
Definition settings (exact : bool) : MergeConfig :=
  {| automerge := fun _ => true; automerge_hard_tier := fun _ => true; automerge_tiers := fun _ => ["easy"; "medium"]%string; require_current_base := fun _ => negb exact; automerge_method := fun _ => "squash"%string;
     validation_provider := fun _ => "actions"%string; worker_push := fun _ => false; protected_paths := fun _ => []; base_branch := fun _ => "main"%string |}.
Definition cfg : Config :=
  let c := Garden.cfg in
  {| max_parallel := max_parallel c; project_max_parallel := project_max_parallel c; resources_max_parallel := resources_max_parallel c; review_parallel_limit := review_parallel_limit c;
     max_bypasses := max_bypasses c; resource_weight_of := resource_weight_of c; escalating := escalating c; max_revisions := max_revisions c; stacking := stacking c; stack_owner := stack_owner c;
     sequential := sequential c; auto_dispatch := auto_dispatch c; budget_usd := fun _ => None; product_budget_usd := fun _ => None; models := models c; review_pool := review_pool c; profile := profile c;
     product_harness := product_harness c; spread := spread c; quota_window_hours := quota_window_hours c; edit_max_attempts := edit_max_attempts c |}.
(** A task in review, of a tier and with extra front matter *)
Definition task (i tier : string) (more : dict pyval) : Task :=
  let t := plain_task i IN_REVIEW [] in
  {| path := path t; id := id t; title := title t; status := status t; product := product t; phase := phase t; depends_on := depends_on t; dependency_after := dependency_after t; kind := kind t;
     priority := priority t; order := order t; estimate := estimate t; TaskModel.reading := TaskModel.reading t; repo := repo t; branch := branch t; pr := pr t; runner := runner t; harness := harness t;
     difficulty := tier; model := model t; execution_requirements := TaskModel.execution_requirements t; owner := owner t; owner_unassigned := owner_unassigned t; discovered_from := discovered_from t;
     freeze_exception := freeze_exception t; freeze_exception_reason := freeze_exception_reason t; retro_blocking := retro_blocking t; attempts := attempts t;
     last_dispatched_at := last_dispatched_at t; created := created t; updated := updated t; extra := more; body := body t; loaded := loaded t |}.
Definition entry_of (ready number : string) : row :=
  Approved.task ++ [("review_rounds", PInt 1); ("automerge_candidate", PBool true); ("automerge_ready_at", PStr ready); ("pr_number", PStr number); ("scratch_merge", PDict [("ok", PBool true)])]%string.
Definition start : entries := [("T-1"%string, entry_of "2" "7"); ("T-2"%string, entry_of "1" "8")].
Definition pr (head : string) : PRInfo :=
  {| pr_number := 8; pr_url := "u"; pr_state := "OPEN"; pr_base := "main"; review_decision := "APPROVED"; mergeable := "MERGEABLE"; checks := "SUCCESS"; failed_checks := []; head_sha := head |}.
(** The forge reports [head]; a rebase finds the branch on its base, everything else works. *)
Definition answers (head : string) (R : Type) (c : mcmd R) (w : unit) : R * unit :=
  (match c in mcmd R return R with
   | GetPr _ _ => Some (pr head)
   | RunsOf _ => Approved.runs
   | Active => []
   | AskCi _ p => github_status p true
   | DiffNames _ _ => Some ["src/a.py"%string]
   | TaskEffect _ _ => Ok tt
   | Rebase _ st => (Ok "current"%string, st)
   | RetargetPr _ _ _ => true
   | MergePr _ _ _ _ _ => None
   | Comment _ _ _ => true
   | DispatchScratchMerge _ st => st
   end, w).
Definition pass (exact : bool) (tier : string) (more : dict pyval) (st : entries) : mprog entries :=
  run_merge_queue (fun _ => Ok 0%Q) (fun _ _ => false) true cfg (settings exact) [] (fun _ => true) (fun _ => Some "o/r"%string) (fun _ => None) [] "now"
    (filed [task "T-1" tier more; task "T-2" tier more]) st.
Definition events (exact : bool) (tier : string) (more : dict pyval) (head : string) : list (event mcmd) := trace (answers head) (pass exact tier more start) tt.
Definition merged (e : event mcmd) : option (Z * string) := match e with @Ev _ R c _ => match c with MergePr _ n _ _ head => Some (n, head) | _ => None end end.
Definition side_store (st : entries) : entries := match (run (answers "a1") (pass true "easy" [] st) tt).1 with Ok st => st | Err _ => [] end.
End Merging.

(** The older candidate is merged at its approved head; exact heads do not let another one through. *)
Example oldest_candidate_merged :
  omap Merging.merged (Merging.events true "easy" [] "a1") = [(8, "a1"%string)] /\ omap Merging.merged (Merging.events true "easy" [] "zz") = [] /\
  flag_set (Merging.side_store Merging.start) "T-2" "automerged" = true.
Proof. split; [|split]; vm_compute; reflexivity. Qed.

(** The default policy does not compare the head with the approved one: what was pushed after the review is merged. *)
Lemma default_policy_merges_unreviewed_head :
  effective_approved_head Approved.runs (entry Merging.start "T-2") = "a1"%string /\ omap Merging.merged (Merging.events false "easy" [] "zz") = [(8, "zz"%string)].
Proof. split; vm_compute; reflexivity. Qed.
(** A candidate whose task has opted out meanwhile is merged all the same. *)
Lemma opted_out_candidate_merged :
  automerge_enabled Merging.cfg (Merging.settings true) (Merging.task "T-2" "easy" [("automerge"%string, PBool false)]) = false /\
  omap Merging.merged (Merging.events true "easy" [("automerge"%string, PBool false)] "a1") = [(8, "a1"%string)].
Proof. split; vm_compute; reflexivity. Qed.
(** The hard tier is merged after one review round. *)
Lemma hard_tier_needs_one_round : omap Merging.merged (Merging.events true "hard" [] "a1") = [(8, "a1"%string)] /\ pget "review_rounds" (entry Merging.start "T-2") = PInt 1.
Proof. split; vm_compute; reflexivity. Qed.

Lemma merged_split tr n head l : omap Merging.merged tr = (n, head) :: l -> exists tr1 slug method delete_branch error tr2, tr = tr1 ++ Ev (MergePr slug n method delete_branch head) error :: tr2.
Proof.
  induction tr as [|e tr IH]; [done|]. cbn [omap list_omap]. destruct (Merging.merged e) as [x|] eqn:He.
  - intros [= -> _]. destruct e as [R c r]. destruct c; try done. injection He as -> ->. by exists [], slug, method, delete_branch, r, tr.
  - intros (tr1 & slug & method & d & r & tr2 & ->)%IH. by exists (e :: tr1), slug, method, d, r, tr2.
Qed.
Lemma merging_calm {A} (p : mprog A) head w : Forall calm (trace (Merging.answers head) p w).
Proof.
  revert w. induction p as [a|e|R c k IH]; intros w; cbn [trace]; constructor; [|apply IH]. destruct c; try done; cbn; [intros k' Hk; by left|apply shrinks_refl].
Qed.
Lemma merge_guarded_witness : exists tr1 slug method delete_branch error tr2, Merging.events true "easy" [] "a1" = tr1 ++ Ev (MergePr slug 8 method delete_branch "a1") error :: tr2 /\
  merge_ok (fun _ => Ok 0%Q) (fun _ _ => false) Merging.cfg (Merging.settings true) [] (fun _ => true) (fun _ => Some "o/r"%string) [] (filed [Merging.task "T-1" "easy" []; Merging.task "T-2" "easy" []])
    tr1 (Ev (MergePr slug 8 method delete_branch "a1") error).
Proof.
  destruct (merged_split _ _ _ _ (proj1 oldest_candidate_merged)) as (tr1 & slug & method & d & error & tr2 & Htr). exists tr1, slug, method, d, error, tr2. split; [exact Htr|].
  exact (merge_guarded (fun _ => Ok 0%Q) (fun _ _ => false) true Merging.cfg (Merging.settings true) [] (fun _ => true) (fun _ => Some "o/r"%string) (fun _ => None) [] "now"
    (filed [Merging.task "T-1" "easy" []; Merging.task "T-2" "easy" []]) Merging.start (Merging.events true "easy" [] "a1") _ tr1 _ tr2 (run_exec (Merging.answers "a1") (Merging.pass true "easy" [] Merging.start) tt) Htr).
Defined.
Lemma one_head_witness : (List.length (held_ids (fun _ => true) ["T-1"; "T-2"]%string (Merging.side_store Merging.start)) <= 1 + 0)%nat.
Proof.
  refine (one_head (fun _ => true) ["T-1"; "T-2"]%string Merging.start 0 (Merging.side_store Merging.start) _ _).
  - apply (bool_decide_unpack _). vm_compute. exact I.
  - eapply (more_steps _ _ _ 0 _ 0); [|apply no_steps].
    eapply (pass_step _ _ _ (fun _ => Ok 0%Q) (fun _ _ => false) true Merging.cfg (Merging.settings true) [] (fun _ => true) (fun _ => Some "o/r"%string) (fun _ => None) [] "now"
      (filed [Merging.task "T-1" "easy" []; Merging.task "T-2" "easy" []]) (Merging.events true "easy" [] "a1")).
    + intros k [->|[->|H%elem_of_nil]%elem_of_cons]%elem_of_cons; [exists (Merging.task "T-1" "easy" [])|exists (Merging.task "T-2" "easy" [])|done]; (split; [|split; reflexivity]); [by left|by right; left].
    + assert (E : (run (Merging.answers "a1") (Merging.pass true "easy" [] Merging.start) tt).1 = Ok (Merging.side_store Merging.start)) by (vm_compute; reflexivity).
      rewrite <- E. apply run_exec.
    + apply merging_calm.
Defined.

(** *** Two heads

    The checks of T-1, rebased to become the head, stopped twice without a result; the stop has freed the queue, which made T-2 its head.  A person starts the stopped check again: both
    are held, and when the check passes both carry the marker. *)
Module Recovery.
Definition stopped : row :=
  [("needs_human", PDict [("kind", PStr "check_did_not_run")]);
   ("recovery_check", PDict [("stage", PStr "merge_rebase"); ("cont", PDict [("merge_head", PBool true)]); ("specs", PList [PDict [("command", PStr "pytest")]]); ("retries", PInt 1)])]%string.
Definition start : entries := [("T-1"%string, stopped); ("T-2"%string, [("merge_head", PBool true)]%string)].
Definition task : Task := Merging.task "T-1" "easy" [].
Definition restarted : entries := default [] (delegate_check task "r-9" true start start).
Definition passed : entries := after_merge_rebase_check task true restarted.
End Recovery.
Lemma recovery_makes_two_heads :
  held_ids (fun _ => true) ["T-1"; "T-2"]%string Recovery.start = ["T-2"%string] /\
  queue_steps (fun _ => true) ["T-1"; "T-2"]%string Recovery.start 1 Recovery.passed /\
  held_ids (fun _ => true) ["T-1"; "T-2"]%string Recovery.restarted = ["T-1"; "T-2"]%string /\
  flag_set Recovery.passed "T-1" "merge_head" = true /\ flag_set Recovery.passed "T-2" "merge_head" = true.
Proof.
  split; [vm_compute; reflexivity|]. split; [|split; [vm_compute; reflexivity|split; vm_compute; reflexivity]].
  apply (more_steps _ _ _ 1 Recovery.restarted 0).
  - refine (recovery_step (fun _ => true) ["T-1"; "T-2"]%string Recovery.start Recovery.task "r-9" true Recovery.start Recovery.restarted (shrinks_refl _) _). vm_compute. reflexivity.
  - apply (more_steps _ _ _ 0 Recovery.passed 0); [|apply no_steps]. apply check_step; [intros _; vm_compute; reflexivity|apply shrinks_refl].
Qed.
