(* ===== verification/Reap.v ===== *)
(** * Reaping a worker run ([scheduler/reap.py], [reap] and [finalize])

    Once a worker's process is over, a tick collects what it left, records it, checks the fences around the clone, and routes the task: to its pull request,
    to another attempt, to a person, or to its end.  A tick may be killed anywhere; the next one finds the run recorded as finished and the task still
    running, and resumes.

    [reap] is a program.  A run and the task's entry of the side-store are JSON rows; [Work] holds them with the task.  What reads or changes more than these
    three is a command: the run records and processes, git and the forge, the event log, and the parts of the scheduler that are not modelled here ([Act]):
    they get the work and return it changed, or raise. *)

From Stdlib Require Import QArith Qround.
From S2P Require Import Prelude PyValue Requirements Effects RunRecords TaskModel DispatchQueue Dispatch Approval Criteria.

#[local] Open Scope list_scope.
#[local] Open Scope Z_scope.

(** The task, its run, its entry of the side-store, and the result that decides, which a save does not change *)
Record Work := { task : Task; run : row; entry_ : row; res : row }.

Definition with_task (t : Task) (w : Work) : Work := {| task := t; run := run w; entry_ := entry_ w; res := res w |}.
Definition with_run (r : row) (w : Work) : Work := {| task := task w; run := r; entry_ := entry_ w; res := res w |}.
Definition with_entry (s : row) (w : Work) : Work := {| task := task w; run := run w; entry_ := s; res := res w |}.
Definition with_res (d : row) (w : Work) : Work := {| task := task w; run := run w; entry_ := entry_ w; res := d |}.
Definition set_run (k : string) (v : pyval) (w : Work) : Work := with_run (dset k v (run w)) w.
Definition set_entry (k : string) (v : pyval) (w : Work) : Work := with_entry (dset k v (entry_ w)) w.
Definition pop_entry (k : string) (w : Work) : Work := with_entry (without k (entry_ w)) w.

(** The parts of the scheduler that are not modelled here *)
Inductive act : Type :=
| GitGuardFail                 (* _git_guard_fail: the clone is blocked and the task fails *)
| FenceFail (violations : list string)
| FinalizeInvestigation (collected : row)
| FailInvestigation (reason : string)
| PreserveTimeout
| PauseForEnvError (collected : row)
| FileDiscovered               (* may add to the result what it filed *)
| RecordFailure (signal reason : string)
| PreserveDirty                (* the exception is a GitError *)
| PrepareCanonical (branch base : string)     (* claims a configured local checkout, and fetches; the exception is its refusal *)
| MaybeReview
| AfterPush (branch base : string) (check_stall : bool)
| Transition (s : Status) (note : string) (needs_human : bool).

(** The outcome of [gitops.push], and of putting a pushed branch into the local worktree *)
Inductive pushed : Type := Pushed | LeaseRejected (message branch expected actual : string) | PushFailed (message : string).
Inductive staged : Type := Staged | Pressure (message : string) | StageFailed (message : string).

Inductive pcmd : Type -> Type :=
| RunsFor (task_id : string) : pcmd (list row)
| Reload (r : row) : pcmd row
| ProcessFinished (r : row) : pcmd bool
| SshHold (w : Work) : pcmd (bool * Work)     (* the recovery of SSH runs: whether it holds the run, and the work it left *)
| Elapsed (r : row) : pcmd Q
| SupervisorWaiting (r : row) : pcmd (option (string * Q))
| Idle (r : row) : pcmd Q
| Kill (r : row) : pcmd unit
| ReadExitCode (r : row) : pcmd (option Z)
| Collect (r : row) : pcmd row
| SaveRun (r : row) : pcmd (result exn (RunSaveOutcome * row))
| WriteFinal (text : string) : pcmd unit
| RunFinished (run_id status : string) : pcmd unit      (* the event that carries the cost of the run *)
| Emit (kind : string) : pcmd unit
| SaveTask (t : Task) : pcmd unit
| SaveState (s : row) : pcmd unit
| PriorProgress (t : Task) : pcmd string
| GitGuard (w : Work) : pcmd (list string)
| Fence (w : Work) : pcmd (list string * Work)
| WorktreeExists (r : row) : pcmd bool
| CommitsSince (r : row) (start base : string) : pcmd (option Z)  (* [None]: a GitError *)
| Ahead (r : row) (base : string) : pcmd (result exn Z)
| Push (r : row) (branch base : string) (force : bool) : pcmd pushed
| RetryLeasePush (base : string) (w : Work) : pcmd (bool * Work)    (* _retry_lease_push: a mechanical rebase onto the new head, and one more push *)
| RevParse (ref : string) : pcmd (result exn string)
| RefAhead (base ref : string) : pcmd (result exn Z)    (* commits of [ref] that are not on the base branch *)
| Promote (branch expected head : string) : pcmd (result exn unit)  (* push --force-with-lease, then a fetch *)
| RemoteHead (branch : string) : pcmd (result exn string)
| BaseRef (base : string) : pcmd (result exn string)
| IsAncestor (fence branch : string) : pcmd (result exn bool)
| ForeignPr (t : Task) (branch : string) : pcmd (result exn bool)   (* another open pull request claims the branch *)
| Stage (branch base : string) (w : Work) : pcmd (staged * string)   (* and the path of the worktree *)
| Do_ (a : act) (w : Work) : pcmd (result exn Work).
Abbreviation pprog := (prog pcmd exn).

Definition act_ (a : act) (w : Work) : pprog Work := invoke (Do_ a w).
Definition save (w : Work) : pprog (RunSaveOutcome * Work) := x ← invoke (SaveRun (run w)); Ret (x.1, with_run x.2 w).
Definition save_ (w : Work) : pprog Work := x ← save w; Ret x.2.
Definition transition (s : Status) (note : string) (human : bool) (w : Work) : pprog Work := act_ (Transition s note human) w.

Definition run_mode (w : Work) : string := txt "mode" (run w).
Definition snapshot (r : row) : row := match pget "env_snapshot" r with PDict d => d | _ => [] end.
Definition set_snapshot (k : string) (v : pyval) (w : Work) : Work := set_run "env_snapshot" (PDict (dset k v (snapshot (run w)))) w.
Definition set_status (s : string) (w : Work) : Work := set_run "status" (PStr s) w.
(** The fields of a task that reaping assigns *)
Definition retask (branch_ pr_ : string) (attempts_ : Z) (t : Task) : Task :=
  {| path := path t; id := id t; title := title t; status := status t; product := product t;
     phase := phase t; depends_on := depends_on t; dependency_after := dependency_after t;
     kind := kind t; priority := priority t; order := order t; estimate := estimate t;
     reading := reading t; repo := repo t; branch := branch_; pr := pr_; runner := runner t;
     harness := harness t; difficulty := difficulty t; model := model t;
     execution_requirements := execution_requirements t; owner := owner t;
     owner_unassigned := owner_unassigned t; discovered_from := discovered_from t;
     freeze_exception := freeze_exception t; freeze_exception_reason := freeze_exception_reason t;
     retro_blocking := retro_blocking t; attempts := attempts_;
     last_dispatched_at := last_dispatched_at t; created := created t; updated := updated t;
     extra := extra t; body := body t; loaded := loaded t |}.
Definition set_branch (b : string) (w : Work) : Work := with_task (retask b (pr (task w)) (attempts (task w)) (task w)) w.
Definition set_pr (p : string) (w : Work) : Work := with_task (retask (branch (task w)) p (attempts (task w)) (task w)) w.
Definition set_attempts (n : Z) (w : Work) : Work := with_task (retask (branch (task w)) (pr (task w)) n (task w)) w.

(** [_manual_reserved] *)
Definition reserved (w : Work) : bool := match pget "manual_reservation" (entry_ w) with PDict d => truthy (pget "id" d) | _ => false end.
(** [_set_needs_human] *)
Definition set_needs_human (kind reason now : string) (more : row) (w : Work) : Work :=
  set_entry "needs_human" (PDict ([("kind", PStr kind); ("reason", PStr reason); ("prior_status", PStr (status_value (status (task w)))); ("at", PStr now)] ++ more)) w.

Section reap.
Context (float : pyval -> result exn Q) (runner_for : Task -> string -> string -> Runner).
Context (base_for : Task -> string) (external_stack_owner : Task -> bool) (missing_preflight : pyval -> list string).
Context (product_timeout : string -> Q) (admission_wait idle_kill : Q).
Context (max_attempts max_env_errors : Z) (now : string) (stamp : nat -> string) (money : pyval -> string).

(** ** Which run, and whether it is over *)

(** [latest_worker_run] *)
Definition latest_worker_run (runs : list row) : option row :=
  let worker := List.filter (fun r => mem (txt "mode" r) WORKER_MODES) runs in
  match last (List.filter (fun r => bool_decide (txt "status" r = "running")) worker) with
  | Some r => Some r
  | None => last worker
  end.

Definition pushed_mode (r : row) : bool := bool_decide (txt "completion_mode" r = "pushed").
Definition submitted (r : row) : bool := truthy (pget "pushed_completion_submitted" (snapshot r)).
Definition is_manual (r : row) : bool := bool_decide (txt "runner" r = "manual").

(** [_is_unreaped] *)
Definition is_unreaped (t : Task) (r : row) : bool :=
  (negb (is_manual r) || (pushed_mode r && submitted r))
  && negb (bool_decide (txt "mode" r = "review")) && nonempty (txt "finished_at" r)
  && bool_decide (status t = RUNNING).

Definition timeout_minutes (r : row) : result exn Q :=
  match dget "execution_timeout_minutes" (snapshot r) with
  | Some v => float (por v (PInt 0))
  | None => if bool_decide (txt "mode" r = "check") then Ok 0%Q else Ok (product_timeout (txt "product" (snapshot r)))
  end.

(** The process is killed and the run recorded as timed out, unless the record changed meanwhile
    (the exception of the save is a RunMutationConflict). *)
Definition expire (error : string) (revoke : bool) (w : Work) : pprog (bool * Work) :=
  _ ← do_ (Kill (run w));
  let w := set_run "error" (PStr error) (set_run "finished_at" (PStr now) (set_status "timeout" w)) in
  let w := if revoke && bool_decide (txt "runner" (run w) = "remote")
           then set_run "lease_expires_at" (PStr "") (set_run "lease_token" (PStr "") w) else w in
  x ← try_ (save_ w);
  Ret match x with Ok w' => (true, w') | Err _ => (false, w) end.

Definition positive (q : Q) : bool := negb (Qeq_bool q 0).
(** [round(q)], to the even neighbour from the middle *)
Definition round (q : Q) : Z :=
  let f := Qfloor q in
  match (q - inject_Z f ?= 1 # 2)%Q with Lt => f | Gt => f + 1 | Eq => if Z.even f then f else f + 1 end.
Definition minutes (q : Q) : string := show (round q).

(** The local limits: the timeout, the wait for admission, and the idle time *)
Definition timed_out (w : Work) (rn : Runner) : pprog (bool * Work) :=
  over ← do_ (ProcessFinished (run w));
  if (over : bool) then Ret (true, w)
  else if negb (rn_detached rn) then Ret (false, w)
  else limit ← lift (timeout_minutes (run w));
    elapsed ← do_ (Elapsed (run w));
    if positive limit && negb (Qle_bool elapsed (limit + 5)) then expire "timed out" true w
    else waiting ← do_ (SupervisorWaiting (run w));
      match waiting with
      | Some (reason, since) =>
          if positive admission_wait && Qle_bool admission_wait since
          then expire ("admission wait " ++ minutes since ++ " min (" ++ reason ++ ")")%string false w
          else Ret (false, w)
      | None =>
          if positive idle_kill then
            idle ← do_ (Idle (run w));
            if Qle_bool idle_kill idle
            then expire ("idle " ++ minutes idle ++ " min (no output or file change)")%string true w
            else Ret (false, w)
          else Ret (false, w)
      end.

(** [_finished_or_timed_out] *)
Definition finished_or_timed_out (w : Work) (rn : Runner) : pprog (bool * Work) :=
  if bool_decide (txt "runner" (run w) = "ssh") then
    x ← do_ (SshHold w);
    if (x.1 : bool) then Ret (false, x.2)
    else if truthy (pget "ssh_tmux_session" (snapshot (run x.2)))
    then over ← do_ (ProcessFinished (run x.2)); Ret (over : bool, x.2)
    else timed_out x.2 rn
  else timed_out w rn.

(** ** Where a failed round goes *)

(** [_retry_or_park_rebase] *)
Definition list_entry (k : string) (w : Work) : list pyval := match pget k (entry_ w) with PList l => l | _ => [] end.
Definition retry_or_park_rebase (reason : string) (w : Work) : pprog Work :=
  retries ← lift (py_int (pget_or "rebase_run_retries" (PInt 0) (entry_ w)));
  if retries <? 1 then
    let w := set_entry "rebase_retry_files" (PList (list_entry "rebase_files" w))
               (set_entry "rebase_pending" (PBool true) (set_entry "rebase_run_retries" (PInt (retries + 1)) w)) in
    let note := ("rebase conflict run " ++ txt "run_id" (run w) ++ " did not finish: " ++ reason ++ "; will retry")%string in
    let w := with_task (log (stamp 0) note (task w)) w in
    _ ← do_ (SaveTask (task w)); _ ← do_ (Emit "rebase_retry"); _ ← do_ (SaveState (entry_ w));
    transition CHANGES_REQUESTED note false w
  else
    let files := match list_entry "rebase_files" w with [] => list_entry "rebase_retry_files" w | l => l end in
    let conflict := match List.filter truthy files with [] => "the rebase conflict"%string | l => join ", " (map py_str l) end in
    let note := ("rebase conflict run " ++ txt "run_id" (run w) ++ " did not finish: " ++ reason
                 ++ "; retry also failed; needs human to resolve " ++ conflict)%string in
    let w := pop_entry "rebase_pending" (set_needs_human "rebase_failed" note now [("run", pget "run_id" (run w)); ("cause", PStr reason); ("files", PList files)] w) in
    _ ← do_ (Emit "needs_human"); _ ← do_ (SaveState (entry_ w));
    transition (if nonempty (pr (task w)) then IN_REVIEW else CHANGES_REQUESTED) note true w.

(** [_retry_or_fail] *)
Definition retry_or_fail (reason : string) (w : Work) : pprog Work :=
  let n := show (attempts (task w)) in
  if bool_decide (run_mode w = "rebase") then retry_or_park_rebase reason w
  else if bool_decide (run_mode w = "revise") then transition FAILED ("revision failed: " ++ reason)%string false w
  else if bool_decide (run_mode w = "work") then
    if attempts (task w) <? max_attempts
    then transition READY ("attempt " ++ n ++ " failed: " ++ reason ++ "; will retry")%string false w
    else transition FAILED ("attempt " ++ n ++ " failed: " ++ reason ++ "; giving up")%string false w
  else transition FAILED (run_mode w ++ " run failed: " ++ reason)%string false w.

(** The run failed: it is recorded so, and the task goes where a failed round goes. *)
Definition fail_run (reason : string) (w : Work) : pprog Work :=
  w ← save_ (set_run "error" (PStr reason) (set_status "failed" w)); retry_or_fail reason w.

(** [_handle_quota_env_error] *)
Definition minus_one (k : string) (w : Work) : result exn Work :=
  n ← py_int (pget_or k (PInt 0) (entry_ w)); Ok (set_entry k (PInt (Z.max 0 (n - 1))) w).
Definition restore (k : string) (w : Work) : Work := set_entry k (pget_or k (PStr "") (snapshot (run w))) w.
Definition restore_flag (k : string) (w : Work) : Work :=
  if truthy (pget k (snapshot (run w))) then set_entry k (PBool true) w else pop_entry k w.

Definition env_error_note (kind harness_ : string) : string :=
  (if bool_decide (kind = "resource") then
     "environment stop (resource): the host exhausted memory or temporary storage; branch not blamed and attempt not counted"
   else if bool_decide (kind = "materialization") then
     "environment stop (materialization): the worker could not prepare an isolated checkout; branch not blamed and attempt not counted"
   else "environment stop (" ++ kind ++ "): " ++ kind ++ " limit hit on " ++ (if nonempty harness_ then harness_ else "the harness")
        ++ "; not counted as an attempt")
  ++ (if nonempty harness_ && negb (mem kind ["resource"; "materialization"])
      then "; dispatch paused for " ++ harness_ ++ " until a probe succeeds" else "").

Definition restore_revise (w : Work) : result exn Work :=
  let snap := snapshot (run w) in
  let w := restore "pending_feedback" w in
  let w := match dget "implementation_failure_eligible" snap with
           | Some v => set_entry "pending_feedback_implementation_failure" (PBool (truthy v)) w | None => w end in
  let w := restore_flag "pending_feedback_easy" w in
  if truthy (pget "pending_feedback_rebase" snap)
  then minus_one "rebases" (set_entry "pending_feedback_rebase" (PBool true) w)
  else minus_one "revisions" w.

Definition handle_quota_env_error (collected : row) (w : Work) : pprog Work :=
  let kind := py_str (por (pget "env_kind" collected) (PStr "quota")) in
  w ← save_ (set_status "env_error" w);
  let w := if bool_decide (run_mode w = "work") then set_attempts (Z.max 0 (attempts (task w) - 1)) w else w in
  let harness_ := txt "harness" (run w) in
  w ← (if mem kind ["resource"; "materialization"] then Ret w else act_ (PauseForEnvError collected) w);
  let note := env_error_note kind harness_ in
  n ← lift (py_int (pget_or "consecutive_env_errors" (PInt 0) (entry_ w)));
  let w := set_entry "consecutive_env_errors" (PInt (n + 1)) w in
  if Z.max 1 max_env_errors <=? n + 1 then
    let reason := (show (n + 1) ++ " consecutive environment errors; retry cap reached")%string in
    let w := set_needs_human "env_error" reason now [] w in
    _ ← do_ (SaveState (entry_ w)); _ ← do_ (Emit "needs_human");
    transition WAITING_HUMAN reason false w
  else if bool_decide (run_mode w = "revise") && nonempty (pr (task w)) then
    w ← lift (restore_revise w);
    _ ← do_ (SaveState (entry_ w));
    transition CHANGES_REQUESTED (note ++ "; feedback restored, will retry the revise round")%string false w
  else if bool_decide (run_mode w = "rebase") && nonempty (pr (task w)) then
    w ← lift (minus_one "rebases" (set_entry "rebase_pending" (PBool true) w));
    _ ← do_ (SaveState (entry_ w));
    transition CHANGES_REQUESTED (note ++ "; will retry the rebase round")%string false w
  else if bool_decide (run_mode w = "resume") then
    let w := restore "session_id" (restore "question_recipient" (restore "question" w)) in
    _ ← do_ (SaveState (entry_ w));
    transition WAITING_HUMAN (note ++ "; the pending question and session are restored, answer again once it resumes")%string false w
  else
    w ← (if nonempty harness_ && negb (bool_decide (kind = "resource"))
         then let w := set_entry "harness_hold" (PStr harness_) w in _ ← do_ (SaveState (entry_ w)); Ret w
         else Ret w);
    transition READY note false w.

(** ** The result of a finished run *)

Definition log_task (n : nat) (message : string) (w : Work) : Work := with_task (log (stamp n) message (task w)) w.
Definition set_result (d : row) (w : Work) : Work := with_res d (set_run "result" (PDict d) w).
Definition dict_or_empty (v : pyval) : row := match v with PDict d => d | _ => [] end.

(** [str(result.get("reason") or result.get("summary") or "(no reason given)")] *)
Definition reason_of (result : row) : string :=
  py_str (por (por (pget "reason" result) (pget "summary" result)) (PStr "(no reason given)")).

(** What the collector found, on the run *)
Definition take_publication (rn : Runner) (collected : row) (w : Work) : Work :=
  if bool_decide (rn_name rn = "ssh") then
    let p := match pget "ssh_publication" collected with PDict d => d | _ => [] end in
    let w := set_snapshot "ssh_reported_head" (PStr (txt "head" p)) w in
    if forallb (fun k => truthy (pget k p)) ["identity_matches"; "branch_matches"; "run_matches"; "head_is_exact"]
    then set_run "pushed_head" (PStr (lower (py_str (pget "head" p)))) w else w
  else w.

Definition collect (rn : Runner) (exit_code : option Z) (collected : row) (w : Work) : Work :=
  let w := set_run "finished_at" (PStr now) (set_run "exit_code" (match exit_code with Some n => PInt n | None => PNone end) w) in
  let w := take_publication rn collected w in
  let r := run w in
  let w := set_result (dict_or_empty (pget "result" collected)) w in
  let w := set_run "usage" (por (pget "usage" collected) (PDict [])) w in
  let w := set_run "cost_usd" (pget "cost_usd" collected) w in
  let w := set_run "model" (PStr (py_str (por (pget "model" collected) (pget "model" r)))) w in
  let w := set_run "error" (por (pget "error" collected) (PStr "")) w in
  set_run "session_id" (PStr (py_str (por (por (pget "session_id" collected) (pget "session_id" r)) (PStr "")))) w.

(** The status in the event *)
Definition finished_status (w : Work) : string :=
  let s := txt "status" (res w) in
  if nonempty s then s else if truthy (pget "error" (run w)) then "error" else "no_result".

Definition exited_well (w : Work) : bool := match pget "exit_code" (run w) with PNone | PInt 0 => true | _ => false end.

(** The criteria the worker was given, or those of the task *)
Definition frozen_criteria (w : Work) : result exn (list string) :=
  match dget "criteria" (snapshot (run w)) with
  | Some v => l ← py_iter v; Ok (map py_str l)
  | None => Ok (parse_criteria (body (task w)))
  end.

(** An attestation is expanded before anything reads the result. *)
Definition expand_attestation (w : Work) : pprog Work :=
  criteria ← lift (frozen_criteria w);
  match normalize_verified criteria (res w) with
  | Some v => if py_eq v (pget "verified" (res w)) then Ret w
              else save_ (set_result (dset "verified" v (res w)) w)
  | None => Ret w
  end.

(** [run.base or self.base_for(task)], and the branch *)
Definition base_of (w : Work) : string := let b := txt "base" (run w) in if nonempty b then b else base_for (task w).
Definition branch_of (w : Work) : string :=
  let b := txt "branch" (run w) in
  if nonempty b then b else if nonempty (branch (task w)) then branch (task w) else default_branch (task w).

(** [" ".join(text.split())] *)
Fixpoint squeeze (gap : bool) (s : string) : string :=
  match s with
  | "" => ""
  | String c s' => if is_space c then squeeze true s' else if gap then String " " (String c (squeeze false s')) else String c (squeeze false s')
  end%string.
Definition last_message (final_text : string) : string :=
  let s := strip (squeeze false final_text) in if nonempty s then s else "(no final message captured)".

(** Commits without a result are salvaged from the worktree. *)
Definition salvage (rn : Runner) (status_ final_text : string) (w : Work) : pprog Work :=
  if nonempty status_ || negb (mem (run_mode w) ["work"; "revise"]) || rn_remote rn then Ret w
  else there ← do_ (WorktreeExists (run w));
    if negb there then Ret w
    else ahead ← do_ (CommitsSince (run w) (txt "start_head" (run w)) (base_of w));
      match ahead with
      | Some n =>
          if n =? 0 then Ret w
          else let summary := ("result missing; " ++ show n ++ " commit" ++ (if (n =? 1)%Z then "" else "s") ++ " reaped from the worktree")%string in
            let w := log_task 1 (summary ++ "; worker's last message: " ++ repr_str (last_message final_text))%string w in
            _ ← do_ (SaveTask (task w)); _ ← do_ (Emit "result_missing_reaped");
            save_ (set_result [("summary", PStr summary)] w)
      | None => Ret w
      end.

(** ** The outcomes a worker can report *)

Definition blocked_route (cost : string) (w : Work) : pprog Work :=
  w ← save_ (set_status "blocked" w);
  transition FAILED ("worker blocked: " ++ py_str (por (por (pget "summary" (res w)) (pget "notes" (res w))) (PStr "?")) ++ cost)%string false w.

Definition question_route (recipient cost : string) (w : Work) : pprog Work :=
  let question := py_str (por (por (pget "question" (res w)) (pget "summary" (res w))) (PStr "(no question given)")) in
  w ← save_ (set_status "waiting" w);
  let r := run w in
  let w := set_entry "question_recipient" (PStr recipient) (set_entry "question_run" (pget "run_id" r)
             (set_entry "session_harness" (pget "harness" r) (set_entry "session_host" (pget "host" r)
                (set_entry "session_id" (pget "session_id" r) (set_entry "question" (PStr question) w))))) in
  _ ← do_ (SaveState (entry_ w)); _ ← do_ (Emit "waiting_human");
  transition WAITING_HUMAN ("worker asks: " ++ question ++ cost)%string false w.

Definition reconciliation (head : string) (w : Work) : pyval := PDict [("head", PStr head); ("run", pget "run_id" (run w))].

(** No change, as a claim that checks and a review can decide *)
Definition unchanged_route (w : Work) : pprog Work :=
  w ← save_ (set_status "no_change" w);
  w ← act_ FileDiscovered w;
  let w := pop_entry "needs_human" (pop_entry "decision" w) in
  let w := set_entry "no_change_reconciliation" (reconciliation (txt "head_sha" (entry_ w)) w) w in
  let w := log_task 1 ("worker found no change to make: " ++ reason_of (res w) ++ "; reconciling with checks and a fresh review") w in
  _ ← do_ (SaveTask (task w)); _ ← do_ (Emit "no_change_reconciled");
  let b := branch_of w in let base := base_of w in
  act_ (AfterPush b base false) (set_branch b w).

(** A dispute about the outcome, for a person *)
Definition decision_route (status_ final_text cost : string) (w : Work) : pprog Work :=
  w ← save_ (set_status status_ w);
  w ← act_ FileDiscovered w;
  let result := res w in
  let reason := reason_of result in
  let kept := omap (fun k => if truthy (pget k result) then Some (k, pget k result) else None)
                   ["summary"; "pr_title"; "pr_body"; "pr_comment"; "notes"] in
  let decision := PDict [("kind", PStr status_); ("reason", PStr reason); ("run", pget "run_id" (run w)); ("final", PStr final_text);
                         ("result", PDict (setdefault "summary" (PStr reason) kept))] in
  let w := pop_entry "question_recipient" (pop_entry "question" (set_entry "decision" decision w)) in
  _ ← do_ (SaveState (entry_ w)); _ ← do_ (Emit "decision");
  transition WAITING_HUMAN
    ("worker says " ++ (if bool_decide (status_ = "wont_do") then "won't do" else "nothing to change") ++ ": " ++ reason ++ cost)%string true w.

(** What is noted of a result before it is published *)
Definition note_unchanged (status_ : string) (w : Work) : pprog Work :=
  if bool_decide (status_ = "no_change") then
    let head := py_str (por (por (pget "pushed_sha" (res w)) (pget "head_sha" (entry_ w))) (PStr "")) in
    let w := set_entry "no_change_reconciliation" (reconciliation head w) w in
    let w := log_task 1 ("worker found no change to make: " ++ reason_of (res w) ++ "; reconciling the declared pushed head") w in
    _ ← do_ (SaveTask (task w)); _ ← do_ (Emit "no_change_reconciled"); Ret w
  else Ret w.

Definition note_preflight (w : Work) : pprog Work :=
  match missing_preflight (pget "pre_flight" (res w)) with
  | [] => Ret w
  | missing =>
      if truthy (pget "requires_preflight" (snapshot (run w))) then
        let advisories := list_entry "verification_advisories" w in
        let known := existsb (fun v => match v with
          | PDict d => py_eq (pget "run" d) (pget "run_id" (run w)) && is_str (pget "kind" d) "pre_flight" | _ => false end) advisories in
        let new := PDict [("kind", PStr "pre_flight"); ("run", pget "run_id" (run w)); ("missing", PList (map PStr missing))] in
        let w := set_entry "verification_advisories" (PList (if known then advisories else advisories ++ [new])) w in
        let w := log_task 2 ("review pre-flight advisory: omitted optional items: " ++ join ", " missing) w in
        _ ← do_ (SaveTask (task w)); _ ← do_ (Emit "verification_advisory"); _ ← do_ (SaveState (entry_ w)); Ret w
      else Ret w
  end.

(** ** Publication *)

Definition git_error (message : string) : exn := RuntimeError message.
Definition check_ (ok : bool) (message : string) : pprog unit := if ok then Ret tt else Throw (git_error message).

(** The commits of the branch that a worker pushed itself, once it is proven to be what this worker reported *)
Definition promoted (w : Work) : bool := truthy (pget "remote_branch_promoted" (snapshot (run w))).
Definition ssh_fence (base : string) (w : Work) : pprog string :=
  let start := txt "start_head" (run w) in
  let prepared := txt "prepared_source_head" (snapshot (run w)) in
  if nonempty start then Ret start else if nonempty prepared then Ret prepared else invoke (BaseRef base).
Definition remote_ahead (rn : Runner) (branch_ base : string) (w : Work) : pprog Z :=
  let r := run w in
  let head := txt "pushed_head" r in
  let ssh := bool_decide (rn_name rn = "ssh") in
  if promoted w then Ret 1
  else if nonempty (txt "pushed_ref" r) then
    let staged := ("refs/remotes/origin/" ++ removeprefix "refs/heads/" (txt "pushed_ref" r))%string in
    found ← invoke (RevParse staged);
    _ ← check_ (nonempty head && bool_decide (strip found = head)) "the staged commit does not match the head reported by the worker";
    ahead ← invoke (RefAhead base staged);
    if ahead =? 0 then Ret 0 else _ ← invoke (Promote branch_ (txt "start_head" r) head); Ret ahead
  else
    _ ← check_ (negb (ssh && negb (nonempty head)))
          ("unsafe remote state: worker-reported commit is " ++ (if nonempty (txt "ssh_reported_head" (snapshot r)) then "unparseable or from a stale run identity" else "absent"));
    found ← invoke (RemoteHead branch_);
    _ ← check_ (nonempty found) "remote worker finished without pushing the expected branch";
    _ ← check_ (negb (nonempty head) || bool_decide (found = head)) "the pushed branch head does not match the head reported by the worker";
    fence ← ssh_fence base w;
    descends ← (if ssh then if nonempty fence then invoke (IsAncestor fence branch_) else Ret false else Ret true);
    _ ← check_ descends "unsafe remote state: reported head violates the dispatch history fence";
    foreign ← (if ssh then invoke (ForeignPr (task w) branch_) else Ret false);
    _ ← check_ (negb foreign) "unsafe remote state: expected branch is claimed by a conflicting pull request";
    invoke (RefAhead base ("origin/" ++ branch_)%string).

Definition message_of_error (e : exn) : string := match e with RuntimeError m | ValueError m | PermissionError m => m | _ => "" end.

(** A result whose branch the worker pushed *)
Definition record_recovery (rn : Runner) (branch_ : string) (w : Work) : pprog Work :=
  if bool_decide (rn_name rn = "ssh") && negb (truthy (pget "remote_branch_recovered" (snapshot (run w)))) then
    w ← save_ (set_snapshot "recovered_head" (pget "pushed_head" (run w))
                (set_snapshot "recovered_ref" (PStr ("refs/heads/" ++ branch_)%string)
                  (set_snapshot "remote_branch_recovered" (PBool true) w)));
    _ ← do_ (Emit "remote_branch_recovered"); Ret w
  else Ret w.

Definition publish_pushed (rn : Runner) (status_ : string) (w : Work) : pprog Work :=
  let branch_ := branch_of w in let base := base_of w in
  prepared ← try_ (act_ (PrepareCanonical branch_ base) w);
  match prepared with
  | Err e => fail_run ("could not prepare local canonical checkout: " ++ message_of_error e)%string w
  | Ok w =>
      found ← try_ (remote_ahead rn branch_ base w);
      let ahead := match found with Ok n => n | Err _ => 0 end in
      let failure := match found with Ok _ => "" | Err e => message_of_error e end in
      if (ahead =? 0) && negb (pushed_mode (run w) && bool_decide (status_ = "no_change")) then
        let error := if nonempty failure then failure else "no commits pushed" in
        w ← save_ (set_run "error" (PStr error) (set_status "failed" w));
        w ← act_ (RecordFailure "missing_expected_changes" error) w;
        retry_or_fail (if nonempty failure then failure else "remote worker finished without pushing commits") w
      else
        w ← record_recovery rn branch_ w;
        w ← save_ (set_status "done" (set_snapshot "remote_branch_promoted" (PBool true) w));
        '(stage, wt) ← do_ (Stage branch_ base w);
        match (stage : staged) with
        | Pressure _ => Ret w
        | StageFailed m => fail_run ("could not materialise local worktree: " ++ m)%string w
        | Staged =>
            w ← save_ (set_run "worktree" (PStr wt) w);
            act_ (AfterPush branch_ base (negb (bool_decide (status_ = "no_change")))) (set_branch branch_ w)
        end
  end.

(** A result in a local worktree *)
Definition short (head : string) : string := if nonempty head then take_chars 12 head else "?".
Definition push_rejected (base branch_ cost message moved expected actual : string) (w : Work) : pprog Work :=
  if external_stack_owner (task w) then
    let reason := ("external stack owner changed `" ++ moved ++ "` while this run was active (expected " ++ short expected ++ ", now " ++ short actual
                   ++ "); garden did not rebase or force-push it")%string in
    _ ← do_ (Emit "lease_rejected");
    transition WAITING_HUMAN reason false (set_needs_human "external_head_changed" reason now [] w)
  else
    '(again, w) ← do_ (RetryLeasePush base w);
    if (again : bool) then act_ (AfterPush branch_ base true) (set_branch branch_ w)
    else transition FAILED ("push failed: " ++ message ++ cost)%string false w.

Definition publish_local (cost : string) (w : Work) : pprog Work :=
  there ← do_ (WorktreeExists (run w));
  if negb there then
    w ← save_ (set_status "done" w);
    let w := let p := txt "pr" (res w) in if nonempty p then set_pr p w else w in
    w ← transition IN_REVIEW ("finished (" ++ run_mode w ++ "): " ++ py_str (pget_or "summary" (PStr "") (res w)) ++ cost)%string false w;
    act_ MaybeReview w
  else
    let branch_ := branch_of w in let base := base_of w in
    ahead ← do_ (Ahead (run w) base);
    match ahead with
    | Err e =>
        w ← save_ (set_run "error" (PStr (message_of_error e)) (set_status "failed" w));
        retry_or_fail ("git error: " ++ message_of_error e)%string w
    | Ok n =>
        if n =? 0 then
          w ← save_ (set_run "error" (PStr "no commits") (set_status "failed" w));
          w ← act_ (RecordFailure "missing_expected_changes" "worker finished with no commits") w;
          retry_or_fail "worker finished with no commits" w
        else
          w ← save_ (set_status "done" w);
          let force := truthy (pget "force_push" (entry_ w)) in
          let w := pop_entry "force_push" w in
          x ← do_ (Push (run w) branch_ base force);
          match x with
          | Pushed => act_ (AfterPush branch_ base true) (set_branch branch_ w)
          | LeaseRejected m moved expected actual => push_rejected base branch_ cost m moved expected actual w
          | PushFailed m => transition FAILED ("push failed: " ++ m ++ cost)%string false w
          end
    end.

(** ** [finalize] *)

Definition emit_all (kind : string) (rows : list row) : pprog unit := foldP (fun _ _ => do_ (Emit kind)) rows tt.
Definition amend_task (w : Work) : pprog Work :=
  '(t, rows, changed) ← lift (apply_criteria_amendments (fun n => stamp (10 + n)) (txt "run_id" (run w)) (res w) (task w));
  if (changed : bool) then _ ← emit_all "criteria_amended" rows; _ ← do_ (SaveTask t); Ret (with_task t w) else Ret w.

(** What the worker reported decides. *)
Definition decide_route (rn : Runner) (status_ final_text recipient cost : string) (w : Work) : pprog Work :=
  let outcome := no_change_changes_outcome (res w) in
  let error := take_chars 200 (txt "error" (run w)) in
  match res w with
  | [] => w ← save_ (set_status "failed" w);
          retry_or_fail ("no GARDEN_RESULT in worker output (" ++ (if nonempty error then error else "see final.md") ++ ")")%string w
  | _ =>
      if bool_decide (status_ = "blocked") then blocked_route cost w
      else if bool_decide (status_ = "needs_input") then question_route recipient cost w
      else
        disputed ← (if bool_decide (status_ = "no_change") then lift outcome else Ret false);
        if bool_decide (status_ = "no_change") && negb (pushed_mode (run w)) && negb disputed then unchanged_route w
        else if bool_decide (status_ = "wont_do") || (bool_decide (status_ = "no_change") && (negb (pushed_mode (run w)) || disputed))
        then decision_route status_ final_text cost w
        else
          w ← act_ FileDiscovered w;
          w ← note_unchanged status_ w;
          w ← note_preflight w;
          if rn_remote rn || pushed_mode (run w) then publish_pushed rn status_ w else publish_local cost w
  end.

Definition route (rn : Runner) (final_text recipient cost : string) (w : Work) : pprog Work :=
  let status_ := lower (py_str (pget_or "status" (PStr "") (res w))) in
  w ← (if bool_decide (status_ = "done") then expand_attestation w else Ret w);
  w ← salvage rn status_ final_text w;
  decide_route rn status_ final_text recipient cost w.

(** Uncommitted changes are set aside, environment errors go their own way. *)
Definition after_fences (rn : Runner) (collected : row) (final_text recipient cost : string) (w : Work) : pprog Work :=
  if bool_decide (run_mode w = "investigation") then act_ (FinalizeInvestigation collected) w
  else
    there ← (if rn_remote rn then Ret false else do_ (WorktreeExists (run w)));
    preserved ← (if (there : bool) then try_ (act_ PreserveDirty w) else Ret (Ok w));
    match preserved with
    | Err e => fail_run ("could not preserve dirty worktree: " ++ message_of_error e)%string w
    | Ok w =>
        if truthy (pget "env_error" collected) then handle_quota_env_error collected w
        else
          let w := pop_entry "consecutive_env_errors" w in
          _ ← do_ (SaveState (entry_ w));
          if negb (exited_well w) && negb (nonempty_list (res w)) then
            w ← save_ (set_status "failed" w);
            retry_or_fail ("worker exited " ++ py_str (pget "exit_code" (run w)) ++ ": " ++ take_chars 200 (txt "error" (run w)))%string w
          else route rn final_text recipient cost w
    end.

(** The two fences, before anything else reads the clone *)
Definition fenced (rn : Runner) (collected : row) (final_text recipient cost : string) (w : Work) : pprog Work :=
  touched ← do_ (GitGuard w);
  if nonempty_list touched then act_ GitGuardFail (pop_entry "fence" w)
  else
    x ← do_ (Fence w);
    let w := pop_entry "fence" x.2 in
    if nonempty_list x.1 then act_ (FenceFail x.1) w else after_fences rn collected final_text recipient cost w.

Definition finalize (rn : Runner) (recipient : string) (resumed : bool) (w : Work) : pprog Work :=
  exit_code ← do_ (ReadExitCode (run w));
  collected ← do_ (Collect (run w));
  let w := collect rn exit_code collected w in
  let final_text := txt "final_text" collected in
  let cost := match pget "cost_usd" (run w) with PNone => "" | v => (" cost=$" ++ money v)%string end in
  '(outcome, w) ← save w;
  match (outcome : RunSaveOutcome) with
  | SUPERSEDED => Ret w
  | COMMITTED =>
      _ ← (if nonempty final_text then do_ (WriteFinal final_text) else Ret tt);
      _ ← (if resumed then Ret tt else do_ (RunFinished (txt "run_id" (run w)) (finished_status w)));
      if reserved w then
        save_ (set_status (if nonempty_list (res w) && exited_well w then "done" else "failed") w)
      else w ← amend_task w; fenced rn collected final_text recipient cost w
  end.

(** ** [reap] *)

Definition no_run (w : Work) (r : option row) : pprog (bool * Work) :=
  let detail := match r with
    | None => "no run record found for this task"%string
    | Some r => let closer := strip (txt "error" r) in
        ("expected run " ++ txt "run_id" r ++ " but it is " ++ txt "status" r ++ " (mode " ++ txt "mode" r ++ "): "
         ++ (if nonempty closer then closer else "(no closer recorded)"))%string
    end in
  progress ← do_ (PriorProgress (task w)); _ ← do_ (Emit "no_active_run");
  w ← transition READY ("no active run found; back to ready — " ++ detail ++ progress)%string false w;
  Ret (true, w).

(** An earlier tick was killed after it had recorded the run as finished. *)
Definition resume (recipient : string) (w : Work) : pprog (bool * Work) :=
  if reserved w then Ret (false, w)
  else
    let dead := txt "parked_dead_run_reason" (snapshot (run w)) in
    w ← (if nonempty dead then retry_or_fail dead w
         else if bool_decide (txt "status" (run w) = "timeout")
         then w ← act_ PreserveTimeout w; retry_or_fail "worker timed out" w
         else finalize (runner_for (task w) (txt "runner" (run w)) (txt "harness" (run w))) recipient true w);
    Ret (true, w).

Definition reap_timeout (w : Work) : pprog (bool * Work) :=
  if bool_decide (run_mode w = "investigation")
  then w ← act_ (FailInvestigation "investigation agent timed out") w; Ret (true, w)
  else
    w ← act_ PreserveTimeout w;
    _ ← do_ (RunFinished (txt "run_id" (run w)) "timeout");
    let error := txt "error" (run w) in
    w ← retry_or_fail (if nonempty error then "worker " ++ error else "worker timed out")%string w;
    Ret (true, w).

Definition reap_running (recipient : string) (w : Work) : pprog (bool * Work) :=
  let rn := runner_for (task w) (txt "runner" (run w)) (txt "harness" (run w)) in
  '(over, w) ← (if reserved w then over ← do_ (ProcessFinished (run w)); Ret (over, w) else finished_or_timed_out w rn);
  if negb over then Ret (false, w)
  else
    r ← (if bool_decide (txt "runner" (run w) = "remote") then do_ (Reload (run w)) else Ret (run w));
    let w := with_run r w in
    if bool_decide (txt "status" (run w) = "timeout") then reap_timeout w
    else w ← finalize rn recipient false w; Ret (true, w).

Definition reap (recipient : string) (t : Task) (st : row) : pprog (bool * Work) :=
  runs ← do_ (RunsFor (id t));
  match latest_worker_run runs with
  | None => no_run {| task := t; run := []; entry_ := st; res := [] |} None
  | Some r =>
      r ← do_ (Reload r);
      let w := {| task := t; run := r; entry_ := st; res := [] |} in
      wait ← (if is_manual r then
                if pushed_mode r && submitted r then over ← do_ (ProcessFinished r); Ret (negb over) else Ret true
              else Ret false);
      if (wait : bool) then Ret (false, w)
      else if is_unreaped t r then resume recipient w
      else if negb (bool_decide (txt "status" r = "running")) then no_run w (Some r)
      else reap_running recipient w
  end.
End reap.

(** ** A worker on this machine that finished with a commit *)

Module Local.
Definition task : Task := Garden.task_in RUNNING "widget" "T-1".
Definition running : row :=
  [("run_id", PStr "r1"); ("task_id", PStr "T-1"); ("mode", PStr "work"); ("runner", PStr "local"); ("status", PStr "running"); ("branch", PStr "garden/t-1"); ("model", PStr "")]%string.
Definition collected : row := [("result", PDict [("status", PStr "done"); ("summary", PStr "did it")]); ("final_text", PStr "bye")]%string.

(** The state is the run's record. *)
Definition answers (R : Type) (c : pcmd R) (r : row) : R * row :=
  match c in pcmd R return R * row with
  | RunsFor _ => ([r], r)
  | Reload _ => (r, r)
  | ProcessFinished _ => (true, r)
  | SshHold w => ((false, w), r)
  | Elapsed _ | Idle _ => (0%Q, r)
  | SupervisorWaiting _ => (None, r)
  | Kill _ | WriteFinal _ | RunFinished _ _ | Emit _ | SaveTask _ | SaveState _ => (tt, r)
  | ReadExitCode _ => (Some 0, r)
  | Collect _ => (collected, r)
  | SaveRun r' => (Ok (COMMITTED, r'), r')
  | PriorProgress _ => ("", r)
  | GitGuard _ => ([], r)
  | Fence w => (([], w), r)
  | WorktreeExists _ => (true, r)
  | CommitsSince _ _ _ => (Some 1, r)
  | Ahead _ _ | RefAhead _ _ => (Ok 1, r)
  | Push _ _ _ _ => (Pushed, r)
  | RetryLeasePush _ w => ((true, w), r)
  | RevParse _ | RemoteHead _ | BaseRef _ => (Ok "c1"%string, r)
  | Promote _ _ _ => (Ok tt, r)
  | IsAncestor _ _ => (Ok true, r)
  | ForeignPr _ _ => (Ok false, r)
  | Stage _ _ _ => ((Staged, "/w"%string), r)
  | Do_ _ w => (Ok w, r)
  end.
Definition pass : pprog (bool * Work) :=
  reap (fun _ => Ok 0%Q) (fun _ _ _ => Garden.local) (fun _ => "main"%string) (fun _ => false) (fun _ => []) (fun _ => 0%Q) 0%Q 0%Q 3 3
    "2026-01-01T00:00:00Z" (fun _ => "2026-01-01T00:00:00Z"%string) (fun _ => "0.10"%string) "ana" task [].
Definition work : Work := {| Reap.task := task; run := running; entry_ := []; res := [] |}.
Definition finalizing : pprog Work :=
  finalize (fun _ => "main"%string) (fun _ => false) (fun _ => []) 3 3
    "2026-01-01T00:00:00Z" (fun _ => "2026-01-01T00:00:00Z"%string) (fun _ => "0.10"%string) Garden.local "ana" false work.
End Local.
