(* ===== verification/ReapSafety.v ===== *)
(** * What a finished run may lead to ([scheduler/reap.py])

    The work of a run reaches its pull request only behind the fences and on proof of its commits ([publication_guarded]); and a finished pass routes the task
    exactly once ([finalize_routes_once]). *)

From Stdlib Require Import QArith.
From S2P Require Import Prelude PyValue Requirements Effects Shared RunRecords TaskModel DispatchQueue Dispatch Approval Criteria Reap.

#[local] Open Scope list_scope.
#[local] Open Scope Z_scope.

#[local] Abbreviation event_ := (event pcmd).

(** ** Behind the fences *)

(** [s] is what happened since both fences were found intact, after the outcome of the run was recorded and while no reservation held the task. *)
Definition guarded (s tr : list event_) : Prop := exists a b r r' w1 w2,
  tr = a ++ Ev (SaveRun r) (Ok (COMMITTED, r')) :: b ++ Ev (GitGuard w1) [] :: Ev (Fence w1) ([], w2) :: s /\ reserved w1 = false.

Lemma guarded_more s tr s' : guarded s tr -> guarded (s ++ s') (tr ++ s').
Proof.
  intros (a & b & r & r' & w1 & w2 & -> & Hr). exists a, b, r, r', w1, w2. split; [|done].
  by rewrite <- app_assoc, <- app_comm_cons, <- app_assoc.
Qed.

(** The status in the result *)
Definition reported (w : Work) : string := lower (py_str (pget_or "status" (PStr "") (res w))).

(** Commits in the local worktree, which were pushed *)
Definition local_commits (branch_ base : string) (s : list event_) : Prop :=
  (exists r n, Ev (Ahead r base) (Ok n) ∈ s /\ n <> 0) /\
  ((exists r force, Ev (Push r branch_ base force) Pushed ∈ s) \/ exists w w', Ev (RetryLeasePush base w) (true, w') ∈ s).

(** Commits that the worker of the run [w] pushed: promoted by an earlier pass, staged at the head it reported and promoted from the head it started at, or
    found on the branch at the head it reported *)
Definition pushed_commits (branch_ base : string) (w : Work) (s : list event_) : Prop :=
  promoted w = true \/
  (exists ref found n, Ev (RevParse ref) (Ok found) ∈ s /\ strip found = txt "pushed_head" (run w) /\ Ev (RefAhead base ref) (Ok n) ∈ s /\ n <> 0
     /\ Ev (Promote branch_ (txt "start_head" (run w)) (txt "pushed_head" (run w))) (Ok tt) ∈ s) \/
  (exists found n, Ev (RemoteHead branch_) (Ok found) ∈ s /\ found <> "" /\ (txt "pushed_head" (run w) = "" \/ found = txt "pushed_head" (run w))
     /\ Ev (RefAhead base ("origin/" ++ branch_)%string) (Ok n) ∈ s /\ n <> 0).

Definition published (branch_ base : string) (check_stall : bool) (s : list event_) : Prop :=
  exists w0 x0, Ev (Do_ FileDiscovered w0) (Ok x0) ∈ s /\ res w0 <> [] /\
    (if check_stall then
       local_commits branch_ base s \/
       exists w1 w2, Ev (Do_ (PrepareCanonical branch_ base) w1) (Ok w2) ∈ s /\ pushed_commits branch_ base w2 s
     else reported w0 = "no_change").

Definition publication_ok (tr : list event_) (e : event_) : Prop :=
  match e with
  | @Ev _ R c _ => match c with
    | Do_ (AfterPush branch_ base check_stall) w => exists s, guarded s tr /\ published branch_ base check_stall s
    | _ => True
    end
  end.

(** A command that is not a publication *)
Definition quiet (R : Type) (c : pcmd R) : Prop := match c with Do_ (AfterPush _ _ _) _ => False | _ => True end.
Lemma quiet_ok tr R (c : pcmd R) r : quiet R c -> publication_ok tr (Ev c r).
Proof. destruct c; try done. by destruct a. Qed.

#[local] Ltac quietly := unfold act_, save_, save, transition, act_, check_; only_auto; try exact I; try done.

(** ** Programs after [s] *)

Definition safely {A} (s : list event_) (p : pprog A) : Prop := forall tr, guarded s tr -> safe publication_ok p tr (fun _ _ => True).

Lemma safely_ret {A} s (a : A) : safely s (Ret a : pprog A).
Proof. done. Qed.
Lemma safely_do {R A} s (c : pcmd R) (k : R -> pprog A) : quiet R c -> (forall x, safely (s ++ [Ev c x]) (k x)) -> safely s (x ← do_ c; k x).
Proof. intros Hc Hk tr Htr x. split; [by apply quiet_ok|]. by apply Hk, guarded_more. Qed.
Lemma safely_quiet {A} s (p : pprog A) : only quiet p -> safely s p.
Proof. intros Hp tr _. eapply safe_mono; [|apply (only_safe quiet); [apply quiet_ok|exact Hp]]. done. Qed.

(** A part without publications, and what follows it *)
Lemma safely_part {A B} s (p : pprog A) (f : result exn A -> pprog B) (P : result exn A -> list event_ -> Prop) :
  only quiet p -> given (fun _ => True) p P -> (forall x s', P x s' -> safely (s ++ s') (f x)) -> safely s (x ← try_ p; f x).
Proof.
  intros Hq Hp Hf tr Htr. apply safe_bind, safe_try. revert s tr P Htr Hp Hf. induction p as [a|e|R c k IH]; intros s tr P Htr Hp Hf; cbn in *.
  - rewrite <- (app_nil_r s) in Htr. by eapply Hf.
  - rewrite <- (app_nil_r s) in Htr. by eapply Hf.
  - destruct Hq as [Hc Hk]. intros r. split; [by apply quiet_ok|].
    apply (IH r (Hk r) (s ++ [Ev c r]) (tr ++ [Ev c r]) (fun x s' => P x (Ev c r :: s'))).
    + by apply guarded_more.
    + by apply Hp.
    + intros x s' Hx. rewrite <- app_assoc. by apply Hf.
Qed.
Lemma given_true {A} (p : pprog A) : given (fun _ => True) p (fun _ _ => True).
Proof. induction p as [a|e|R c k IH]; cbn; auto. Qed.
Lemma safely_bind {A B} s (p : pprog A) (f : A -> pprog B) :
  only quiet p -> (forall a s', safely (s ++ s') (f a)) -> safely s (a ← p; f a).
Proof.
  intros Hq Hf tr Htr. apply safe_bind. revert s tr Htr Hf. induction p as [a|e|R c k IH]; intros s tr Htr Hf; cbn in *; [|done|].
  - rewrite <- (app_nil_r s) in Htr. by eapply Hf.
  - destruct Hq as [Hc Hk]. intros r. split; [by apply quiet_ok|]. eapply (IH r (Hk r)); [by apply guarded_more|].
    intros a s'. rewrite <- app_assoc. apply Hf.
Qed.
Lemma safely_invoke {A B} s (c : pcmd (result exn A)) (k : A -> pprog B) :
  quiet _ c -> (forall a, safely (s ++ [Ev c (Ok a)]) (k a)) -> safely s (a ← invoke c; k a).
Proof. intros Hc Hk tr Htr. apply safe_bind, safe_invoke. intros [a|e]; (split; [by apply quiet_ok|]); [|done]. by apply Hk, guarded_more. Qed.
Lemma safely_publish s branch_ base stall w : published branch_ base stall s -> safely s (act_ (AfterPush branch_ base stall) w).
Proof. intros Hp tr Htr. apply safe_invoke. intros r. split; [by exists s|done]. Qed.

(** Evidence lasts. *)
Lemma local_commits_more branch_ base s s' : s ⊆ s' -> local_commits branch_ base s -> local_commits branch_ base s'.
Proof.
  intros Hs [(r & n & H & Hn) Hp]. split; [exists r, n; auto|].
  destruct Hp as [(r' & f & Hp)|(w & w' & Hp)]; [left; exists r', f|right; exists w, w']; auto.
Qed.
Lemma pushed_commits_more branch_ base w s s' : s ⊆ s' -> pushed_commits branch_ base w s -> pushed_commits branch_ base w s'.
Proof.
  intros Hs [H|[(ref & f & n & H1 & H2 & H3 & H4 & H5)|(f & n & H1 & H2 & H3 & H4 & H5)]].
  - by left.
  - right; left. exists ref, f, n. auto 6.
  - right; right. exists f, n. auto 6.
Qed.
Lemma published_more branch_ base stall s s' : published branch_ base stall s -> published branch_ base stall (s ++ s').
Proof.
  assert (Hs : s ⊆ s ++ s') by (intros e He; apply elem_of_app; by left).
  intros (w0 & x0 & H0 & H1 & H2). exists w0, x0. split; [auto|]. split; [done|]. destruct stall; [|done].
  destruct H2 as [H2|(w1 & w2 & H2 & H3)]; [left; by eapply local_commits_more|right].
  exists w1, w2. split; [auto|by eapply pushed_commits_more].
Qed.

Lemma safely_save {B} s w (k : Work -> pprog B) :
  (forall o r, safely (s ++ [Ev (SaveRun (run w)) (Ok (o, r))]) (k (with_run r w))) -> safely s (w' ← save_ w; k w').
Proof. intros H tr Htr [[o r]|e]; (split; [exact I|]); [|exact I]. by apply (H o r), guarded_more. Qed.

(** The outcome of the run was recorded. *)
Definition recorded (tr : list event_) : Prop := exists a r r' b, tr = a ++ Ev (SaveRun r) (Ok (COMMITTED, r')) :: b.
Lemma recorded_grows tr s : recorded tr -> recorded (tr ++ s).
Proof. intros (a & r & r' & b & ->). exists a, r, r', (b ++ s). by rewrite <- app_assoc. Qed.
Lemma safe_under {A B} (P : list event_ -> Prop) (p : pprog A) (f : A -> pprog B) tr :
  (forall tr s, P tr -> P (tr ++ s)) -> P tr -> only quiet p ->
  (forall a tr', P tr' -> safe publication_ok (f a) tr' (fun _ _ => True)) -> safe publication_ok (a ← p; f a) tr (fun _ _ => True).
Proof.
  intros HP Htr Hp Hf. apply safe_bind. eapply safe_mono; [|apply (only_safe quiet); [apply quiet_ok|exact Hp]].
  intros [a|e] tr' [s ->]; cbn; [|done]. by apply Hf, HP.
Qed.

(** The same with what the quiet part returns *)
Lemma safe_under_given {A B} (P : list event_ -> Prop) (V : A -> Prop) (p : pprog A) (f : A -> pprog B) tr :
  (forall tr s, P tr -> P (tr ++ s)) -> P tr -> only quiet p ->
  given (fun _ => True) p (fun x _ => forall a, x = Ok a -> V a) ->
  (forall a tr', P tr' -> V a -> safe publication_ok (f a) tr' (fun _ _ => True)) -> safe publication_ok (a ← p; f a) tr (fun _ _ => True).
Proof.
  intros HP Htr Hq Hp Hf. apply safe_bind. revert tr Htr. induction p as [a|e|R c k IH]; intros tr Htr; cbn in *; [by apply Hf; auto|done|].
  destruct Hq as [Hc Hk]. intros r. split; [by apply quiet_ok|]. apply IH; [done|by apply Hp|by apply HP].
Qed.

Lemma safe_save {B} w (k : RunSaveOutcome * Work -> pprog B) tr :
  (forall o r, safe publication_ok (k (o, with_run r w)) (tr ++ [Ev (SaveRun (run w)) (Ok (o, r))]) (fun _ _ => True)) ->
  safe publication_ok (x ← save w; k x) tr (fun _ _ => True).
Proof. intros H [[o r]|e]; (split; [exact I|]); [apply H|exact I]. Qed.

Section finalizing.
Context (float : pyval -> result exn Q) (runner_for : Task -> string -> string -> Runner).
Context (base_for : Task -> string) (external_stack_owner : Task -> bool) (missing_preflight : pyval -> list string).
Context (product_timeout : string -> Q) (admission_wait idle_kill : Q).
Context (max_attempts max_env_errors : Z) (now : string) (stamp : nat -> string) (money : pyval -> string).

#[local] Abbreviation retry_or_fail_ := (retry_or_fail max_attempts now stamp).
#[local] Abbreviation fail_run_ := (fail_run max_attempts now stamp).
#[local] Abbreviation quota_ := (handle_quota_env_error max_env_errors now).
#[local] Abbreviation publish_pushed_ := (publish_pushed base_for max_attempts now stamp).
#[local] Abbreviation publish_local_ := (publish_local base_for external_stack_owner max_attempts now stamp).
#[local] Abbreviation route_ := (route base_for external_stack_owner missing_preflight max_attempts now stamp).
#[local] Abbreviation decide_route_ := (decide_route base_for external_stack_owner missing_preflight max_attempts now stamp).
#[local] Abbreviation after_fences_ := (after_fences base_for external_stack_owner missing_preflight max_attempts max_env_errors now stamp).
#[local] Abbreviation fenced_ := (fenced base_for external_stack_owner missing_preflight max_attempts max_env_errors now stamp).
#[local] Abbreviation finalize_ := (finalize base_for external_stack_owner missing_preflight max_attempts max_env_errors now stamp money).

Lemma retry_quiet reason w : only quiet (retry_or_fail_ reason w).
Proof. unfold retry_or_fail, retry_or_park_rebase. quietly. Qed.
Lemma fail_quiet reason w : only quiet (fail_run_ reason w).
Proof. unfold fail_run. apply only_bind; [quietly|]. intros. apply retry_quiet. Qed.
Lemma quota_quiet collected w : only quiet (quota_ collected w).
Proof. unfold handle_quota_env_error. quietly. Qed.
Lemma blocked_quiet cost w : only quiet (blocked_route cost w).
Proof. unfold blocked_route. quietly. Qed.
Lemma question_quiet recipient cost w : only quiet (question_route recipient cost w).
Proof. unfold question_route. quietly. Qed.
Lemma decision_quiet status_ final_text cost w : only quiet (decision_route status_ final_text cost w).
Proof. unfold decision_route. quietly. Qed.
Lemma expand_quiet w : only quiet (expand_attestation w).
Proof. unfold expand_attestation. quietly. Qed.
Lemma salvage_quiet rn status_ final_text w : only quiet (salvage base_for stamp rn status_ final_text w).
Proof. unfold salvage. quietly. Qed.
Lemma note_unchanged_quiet status_ w : only quiet (note_unchanged stamp status_ w).
Proof. unfold note_unchanged. quietly. Qed.
Lemma note_preflight_quiet w : only quiet (note_preflight missing_preflight stamp w).
Proof. unfold note_preflight. quietly. Qed.
Lemma amend_quiet w : only quiet (amend_task stamp w).
Proof. unfold amend_task, emit_all. quietly. apply only_fold. quietly. Qed.
Lemma record_recovery_quiet rn branch_ w : only quiet (record_recovery rn branch_ w).
Proof. unfold record_recovery. quietly. Qed.
Lemma remote_ahead_quiet rn branch_ base w : only quiet (remote_ahead rn branch_ base w).
Proof. unfold remote_ahead, ssh_fence. quietly. Qed.

(** *** No change *)
Lemma unchanged_safely s w : reported w = "no_change" -> res w <> [] -> safely s (unchanged_route base_for stamp w).
Proof.
  intros Hs Hr. unfold unchanged_route. apply safely_save. intros o r. apply safely_invoke; [done|]. intros w1.
  apply safely_do; [exact I|]. intros ?. apply safely_do; [exact I|]. intros ?. apply safely_publish.
  do 2 apply published_more. eexists _, w1. split; [apply elem_of_app; right; by apply list_elem_of_singleton|]. done.
Qed.

(** *** A branch that the worker pushed *)
Lemma given_skip {A B} (p : pprog A) (k : A -> pprog B) (Q : result exn B -> list event_ -> Prop) :
  (forall e s, Q (Err e) s) -> (forall a, given (fun _ => True) (k a) (fun x s => forall s0, Q x (s0 ++ s))) ->
  given (fun _ => True) (a ← p; k a) Q.
Proof.
  intros HE Hk. apply given_bind. eapply given_mono; [|apply given_true]. intros [a|e] s _; [|apply HE].
  eapply given_mono; [|apply Hk]. intros x s' H. apply H.
Qed.

Lemma remote_ahead_spec rn branch_ base w :
  given (fun _ => True) (remote_ahead rn branch_ base w)
    (fun x s => forall n, x = Ok n -> n <> 0 -> pushed_commits branch_ base w s).
Proof.
  unfold remote_ahead. destruct (promoted w) eqn:Hp; [cbn; intros; by left|].
  destruct (nonempty (txt "pushed_ref" (run w))).
  - intros [found|e] _; [|done]. cbn. apply given_bind. unfold check_.
    destruct (_ && _) eqn:Hh; cbn; [|done].
    apply andb_true_iff in Hh as [_ Hh%bool_decide_eq_true]. intros [ahead|e] _; cbn; [|done].
    destruct (Z.eqb_spec ahead 0) as [->|Hn]; cbn; [intros n [=]; by subst|]. intros [[]|e] _; cbn; [|done].
    intros n _ _. right; left. eexists _, found, ahead. rewrite !elem_of_cons. auto 10.
  - apply given_skip; [done|]. intros _. intros [found|e] _; [|done]. cbn. apply given_bind. unfold check_ at 1.
    destruct (nonempty found) eqn:Hf; cbn; [|done]. apply given_bind. unfold check_ at 1.
    destruct (_ || _) eqn:Hh; cbn; [|done].
    do 5 (apply given_skip; [done|]; intros ?). intros [ahead|e] _; cbn; [|done].
    intros s4 s3 s2 s1 s5 s0 n [= <-] Hn. right; right. exists found, ahead.
    rewrite !elem_of_app, !elem_of_cons, !elem_of_app, !elem_of_cons. split; [auto 10|]. split; [by destruct found|].
    split; [|split; [auto 10|done]]. apply orb_true_iff in Hh as [Hh|Hh%bool_decide_eq_true]; [left; by destruct (txt _ _)|by right].
Qed.

(** The discovered work was filed: from here on the result is to be published. *)
Definition filed (status_ : string) (s : list event_) : Prop := exists w0 x0,
  Ev (Do_ FileDiscovered w0) (Ok x0) ∈ s /\ res w0 <> [] /\ (status_ = "no_change" -> reported w0 = "no_change").
Lemma filed_more status_ s s' : filed status_ s -> filed status_ (s ++ s').
Proof. intros (w0 & x0 & H & H'). exists w0, x0. rewrite elem_of_app. auto. Qed.

(** The quiet steps before a publication *)
Definition grows (P : list event_ -> Prop) : Prop := forall s s', P s -> P (s ++ s').
Lemma safely_under {A B} (P : list event_ -> Prop) s (p : pprog A) (k : A -> pprog B) :
  grows P -> P s -> only quiet p -> (forall a s', P s' -> safely s' (k a)) -> safely s (a ← p; k a).
Proof. intros HP Hs Hq Hk. apply safely_bind; [done|]. intros a s'. apply Hk. by apply HP. Qed.

Lemma publish_pushed_safely rn status_ s w : filed status_ s -> safely s (publish_pushed_ rn status_ w).
Proof.
  intros Hf. unfold publish_pushed. set (b := branch_of w). set (base := base_of base_for w).
  eapply (safely_part s _ _ (fun x s' => forall w2, x = Ok w2 -> exists w1, s' = [Ev (Do_ (PrepareCanonical b base) w1) (Ok w2)])).
  { quietly. }
  { cbn. intros [w2|e] _; cbn; [|done]. intros w3 [= <-]. by exists w. }
  intros [w2|e] s1 H1; [|apply safely_quiet, fail_quiet]. destruct (H1 _ eq_refl) as [w1 ->].
  set (s1 := s ++ _).
  assert (Hprep : Ev (Do_ (PrepareCanonical b base) w1) (Ok w2) ∈ s1) by (apply elem_of_app; right; by apply list_elem_of_singleton).
  eapply (safely_part s1 _ _); [apply remote_ahead_quiet|apply remote_ahead_spec|]. intros found s2 Hfound.
  destruct ((_ =? 0) && _) eqn:Hahead.
  { apply safely_bind; [quietly|]. intros w3 s3. apply safely_bind; [quietly|]. intros w4 s4. apply safely_quiet, retry_quiet. }
  set (stall := negb (bool_decide (status_ = "no_change"%string))).
  assert (Hpub : published b base stall (s1 ++ s2)).
  { destruct (filed_more _ _ [Ev (Do_ (PrepareCanonical b base) w1) (Ok w2)] Hf) as (w0 & x0 & H0 & H0' & Hst). exists w0, x0.
    rewrite elem_of_app. split; [by left|]. split; [done|]. subst stall. case_bool_decide as Hs; cbn; [by apply Hst|]. right.
    exists w1, w2. rewrite elem_of_app. split; [by left|].
    assert (exists n, found = Ok n /\ n <> 0) as (n & -> & Hn).
    { rewrite andb_comm in Hahead. cbn in Hahead. rewrite andb_false_r in Hahead. cbn in Hahead.
      destruct found as [n|e]; [|done]. exists n. split; [done|]. by apply Z.eqb_neq in Hahead. }
    eapply pushed_commits_more; [|by apply (Hfound n)]. intros e He. apply elem_of_app. by right. }
  clearbody s1 stall. 
  eapply (safely_under (published b base stall)); [intros ? ?; apply published_more|done|apply record_recovery_quiet|].
  intros w3 s3 H3. apply safely_save. intros o r. apply safely_do; [done|]. intros [[|m|m] wt].
  - apply safely_save. intros o' r'. apply safely_publish. by do 3 apply published_more.
  - done.
  - apply safely_quiet, fail_quiet.
Qed.

(** *** A local worktree *)
Lemma filed_local status_ branch_ base s : filed status_ s -> local_commits branch_ base s -> published branch_ base true s.
Proof. intros (w0 & x0 & H & H' & _) Hl. exists w0, x0. split; [done|]. split; [done|]. by left. Qed.

Lemma push_rejected_safely branch_ base cost status_ s w r n message moved expected actual :
  filed status_ s -> Ev (Ahead r base) (Ok n) ∈ s -> n <> 0 -> 
  safely s (push_rejected external_stack_owner now base branch_ cost message moved expected actual w).
Proof.
  intros Hf Ha Hn. unfold push_rejected. destruct (external_stack_owner (task w)); [apply safely_quiet; quietly|].
  apply safely_do; [done|]. intros [[] w']; [|apply safely_quiet; quietly]. apply safely_publish.
  eapply filed_local; [by apply filed_more|]. split.
  - exists r, n. rewrite elem_of_app. auto.
  - right. exists w, w'. rewrite elem_of_app, list_elem_of_singleton. auto.
Qed.

Lemma publish_local_safely cost status_ s w : filed status_ s -> safely s (publish_local_ cost w).
Proof.
  intros Hf. unfold publish_local. apply safely_do; [done|]. intros there.
  set (s1 := s ++ _). assert (Hf1 : filed status_ s1) by (by apply filed_more). clearbody s1.
  destruct there; cbn [negb]; [|apply safely_quiet; quietly].
  apply safely_do; [done|]. intros [n|e]; [|apply safely_quiet; quietly; apply retry_quiet].
  destruct (Z.eqb_spec n 0) as [_|Hn]; [apply safely_quiet; quietly; apply retry_quiet|].
  set (b := branch_of w). set (base := base_of base_for w).
  assert (Ha : Ev (Ahead (run w) base) (Ok n) ∈ s1 ++ [Ev (Ahead (run w) base) (Ok n)]) by (apply elem_of_app; right; by apply list_elem_of_singleton).
  apply (filed_more _ _ [Ev (Ahead (run w) base) (Ok n)]) in Hf1. fold base. set (s2 := s1 ++ _) in *. clearbody s2.
  apply safely_save. intros o r. apply safely_do; [done|]. intros [|message moved expected actual|m].
  - apply safely_publish. eapply filed_local; [by do 2 apply filed_more|]. split.
    + exists (run w), n. rewrite !elem_of_app. auto.
    + left. eexists _, _. apply elem_of_app. right. by apply list_elem_of_singleton.
  - eapply push_rejected_safely; [by do 2 apply filed_more|rewrite !elem_of_app; left; left; exact Ha|done].
  - apply safely_quiet. quietly.
Qed.

(** *** The route *)
Lemma decide_safely rn status_ final_text recipient cost s w :
  (status_ = "no_change" -> reported w = "no_change") -> safely s (decide_route_ rn status_ final_text recipient cost w).
Proof.
  intros Hst. unfold decide_route. destruct (res w) as [|x l] eqn:Hres; [apply safely_quiet; quietly; apply retry_quiet|]. rewrite <- Hres.
  case_bool_decide; [apply safely_quiet, blocked_quiet|]. case_bool_decide; [apply safely_quiet, question_quiet|].
  apply safely_bind; [quietly|]. intros disputed s1.
  destruct (_ && negb disputed) eqn:H1.
  { apply unchanged_safely; [|by rewrite Hres]. apply Hst. rewrite !andb_true_iff in H1.
    destruct H1 as [[H1 _] _]. by apply bool_decide_eq_true in H1. }
  destruct (_ || _); [apply safely_quiet, decision_quiet|].
  apply safely_invoke; [done|]. intros w1. set (s2 := _ ++ [_]).
  assert (Hf : filed status_ s2).
  { exists w, w1. split; [apply elem_of_app; right; by apply list_elem_of_singleton|]. by rewrite Hres. }
  clearbody s2. eapply (safely_under (filed status_)); [intros ? ?; apply filed_more|done|apply note_unchanged_quiet|]. intros w2 s3 H3.
  eapply (safely_under (filed status_)); [intros ? ?; apply filed_more|done|apply note_preflight_quiet|]. intros w3 s4 H4.
  destruct (_ || _); [by apply publish_pushed_safely|by eapply publish_local_safely].
Qed.

Lemma route_safely rn final_text recipient cost s w : safely s (route_ rn final_text recipient cost w).
Proof.
  unfold route. destruct (decide (reported w = "no_change")) as [E|Hne].
  - unfold reported in E. rewrite E. unfold salvage. cbn. by apply decide_safely.
  - apply safely_bind; [case_bool_decide; [apply expand_quiet|quietly]|]. intros w1 s1.
    apply safely_bind; [apply salvage_quiet|]. intros w2 s2. by apply decide_safely.
Qed.

Lemma after_fences_safely rn collected final_text recipient cost s w :
  safely s (after_fences_ rn collected final_text recipient cost w).
Proof.
  unfold after_fences. case_bool_decide; [apply safely_quiet; quietly|]. apply safely_bind; [quietly|]. intros there s1.
  apply safely_bind; [quietly; by apply only_try; quietly|]. intros [w1|e] s2; [|apply safely_quiet, fail_quiet].
  destruct (truthy _); [apply safely_quiet, quota_quiet|]. apply safely_do; [done|]. intros ?.
  destruct (negb _ && negb _); [apply safely_quiet; quietly; apply retry_quiet|]. apply route_safely.
Qed.

(** *** The fences *)
Lemma amend_keeps w : given (fun _ => True) (amend_task stamp w) (fun x _ => forall w', x = Ok w' -> reserved w' = reserved w).
Proof.
  unfold amend_task. apply given_bind, given_lift. destruct (apply_criteria_amendments _ _ _ _) as [[[t rows] changed]|e]; [|done].
  destruct changed; cbn; [|by intros w' [= <-]]. apply given_bind. eapply given_mono; [|apply given_true].
  intros [u|e] s _; [|done]. intros ? _. cbn. by intros w' [= <-].
Qed.

Lemma fenced_safe rn collected final_text recipient cost w tr :
  recorded tr -> reserved w = false ->
  safe publication_ok (fenced_ rn collected final_text recipient cost w) tr (fun _ _ => True).
Proof.
  intros (a & r & r' & b & ->) Hr. unfold fenced. intros touched. split; [exact I|]. destruct touched as [|v l]; cbn [nonempty_list].
  - intros [violations w2]. split; [exact I|]. destruct violations as [|v l]; cbn [nonempty_list fst snd].
    + apply (after_fences_safely rn collected final_text recipient cost []). exists a, b, r, r', w, w2. split; [|done].
      by rewrite <- !app_assoc.
    + apply safe_invoke. intros x. by split.
  - apply safe_invoke. intros x. by split.
Qed.

Lemma finalize_safe rn recipient resumed w tr :
  safe publication_ok (finalize_ rn recipient resumed w) tr (fun _ _ => True).
Proof.
  unfold finalize. intros code. split; [exact I|]. intros collected. split; [exact I|].
  apply safe_save. intros o r. destruct o; [|exact I].
  set (w2 := with_run r _). set (tr1 := _ ++ [_]). assert (Htr : recorded tr1) by (eexists _, _, r, []; reflexivity).
  clearbody tr1 w2.
  eapply (safe_under recorded); [apply recorded_grows|done|quietly|]. intros ? tr2 H2.
  eapply (safe_under recorded); [apply recorded_grows|done|quietly|]. intros ? tr3 H3.
  destruct (reserved w2) eqn:Hr.
  - eapply safe_mono; [|apply (only_safe quiet); [apply quiet_ok|quietly]]. done.
  - eapply (safe_under_given recorded (fun w => reserved w = false)); [apply recorded_grows|done|apply amend_quiet| |].
    + eapply given_mono; [|apply amend_keeps]. cbn. intros x _ H w3 Hw3. by rewrite (H w3 Hw3).
    + intros w3 tr4 H4 Hr3. by apply fenced_safe.
Qed.

(** *** Reaping *)
#[local] Abbreviation reap_ := (reap float runner_for base_for external_stack_owner missing_preflight product_timeout admission_wait idle_kill
  max_attempts max_env_errors now stamp money).

Lemma finished_quiet w rn : only quiet (finished_or_timed_out float product_timeout admission_wait idle_kill now w rn).
Proof. unfold finished_or_timed_out, timed_out, expire. quietly; apply only_try; quietly. Qed.

Lemma then_ret {A B} (p : pprog A) (g : A -> B) tr :
  safe publication_ok p tr (fun _ _ => True) -> safe publication_ok (a ← p; Ret (g a)) tr (fun _ _ => True).
Proof. intros H. apply safe_bind. eapply safe_mono; [|exact H]. by intros [a|e]. Qed.
Lemma quiet_safe {A} (p : pprog A) tr : only quiet p -> safe publication_ok p tr (fun _ _ => True).
Proof. intros Hp. eapply safe_mono; [|apply (only_safe quiet); [apply quiet_ok|exact Hp]]. done. Qed.
Lemma quiet_then {A B} (p : pprog A) (f : A -> pprog B) tr :
  only quiet p -> (forall a tr', safe publication_ok (f a) tr' (fun _ _ => True)) -> safe publication_ok (a ← p; f a) tr (fun _ _ => True).
Proof. intros Hp Hf. by apply (safe_under (fun _ => True)). Qed.

Lemma reap_safe recipient t st tr : safe publication_ok (reap_ recipient t st) tr (fun _ _ => True).
Proof.
  unfold reap. apply quiet_then; [done|]. intros runs tr1. destruct (latest_worker_run runs) as [r0|]; [|apply quiet_safe; unfold no_run; quietly].
  apply quiet_then; [done|]. intros r tr2. apply quiet_then; [quietly|]. intros wait tr3. destruct wait; [done|].
  destruct (is_unreaped t r).
  - unfold resume. destruct (reserved _); [done|]. apply then_ret. destruct (nonempty _); [apply quiet_safe, retry_quiet|].
    case_bool_decide; [apply quiet_safe; quietly; apply retry_quiet|]. apply finalize_safe.
  - destruct (negb _); [apply quiet_safe; unfold no_run; quietly|]. unfold reap_running.
    apply quiet_then; [destruct (reserved _); [quietly|apply finished_quiet]|]. intros [over w1] tr4. destruct over; cbn [negb]; [|done].
    apply quiet_then; [quietly|]. intros r1 tr5. case_bool_decide.
    + apply quiet_safe. unfold reap_timeout. quietly; apply retry_quiet.
    + apply then_ret. apply finalize_safe.
Qed.

(** C31.  The work of a run reaches its pull request only when, in the same pass and in this order, the outcome of the run was recorded without a newer one
    superseding it, no reservation held the task, the internals of the clone and the protected trees were found as they were at dispatch, a result was
    there, and its commits were proven: counted in the worktree and pushed; or staged by the worker at the head that it reported and promoted from the head it
    started at; or found on its branch at that head; or promoted by an earlier pass.  Only a worker that reported no change needs no commits.  This holds
    wherever the pass stops and whatever git, the forge and the files answer. *)
Theorem publication_guarded recipient t st tr o tr1 branch_ base stall w x tr2 :
  exec (reap_ recipient t st) tr o ->
  tr = tr1 ++ Ev (Do_ (AfterPush branch_ base stall) w) x :: tr2 ->
  exists s, guarded s tr1 /\ published branch_ base stall s.
Proof.
  intros He ->. destruct (safe_exec publication_ok _ [] _ _ _ He (reap_safe recipient t st []) (allowed_nil _)) as [Ha _].
  exact (allowed_split _ _ _ _ Ha).
Qed.

(** ** One route *)

(** What sends the task somewhere *)
Definition is_route (e : event_) : bool :=
  match e with
  | @Ev _ R c _ => match c with
    | Do_ (GitGuardFail | FenceFail _ | FinalizeInvestigation _ | FailInvestigation _ | AfterPush _ _ _ | Transition _ _ _) _ => true
    | _ => false
    end
  end.
Definition routes (tr : list event_) : nat := length (List.filter is_route tr).
Lemma routes_cons e tr : routes (e :: tr) = ((if is_route e then 1 else 0) + routes tr)%nat.
Proof. unfold routes. cbn. by destruct (is_route e). Qed.
Lemma routes_app tr tr' : routes (tr ++ tr') = (routes tr + routes tr')%nat.
Proof. unfold routes. by rewrite List.filter_app, length_app. Qed.

Definition plain (R : Type) (c : pcmd R) : Prop :=
  match c with Do_ (GitGuardFail | FenceFail _ | FinalizeInvestigation _ | FailInvestigation _ | AfterPush _ _ _ | Transition _ _ _) _ => False | _ => True end.
Lemma plain_routes {A} (p : pprog A) : only plain p -> given (fun _ => True) p (fun _ tr => routes tr = 0%nat).
Proof.
  induction p as [a|e|R c k IH]; cbn; [done|done|]. intros [Hc Hk] r _. eapply given_mono; [|apply IH, Hk]. intros x tr H.
  assert (E : is_route (Ev c r) = false) by (destruct c; try done; by destruct a).
  change (routes (Ev c r :: tr) = 0%nat). by rewrite routes_cons, E, H.
Qed.

(** The task stays where it is, for a later pass: a newer outcome superseded this one, a reservation holds the task, or the disk has no room. *)
Definition postponed (w : Work) (tr : list event_) : Prop :=
  (exists r r', Ev (SaveRun r) (Ok (SUPERSEDED, r')) ∈ tr) \/ reserved w = true \/ exists b base w' m wt, Ev (Stage b base w') (Pressure m, wt) ∈ tr.
Lemma postponed_app w tr tr' : postponed w tr' -> postponed w (tr ++ tr').
Proof.
  intros [(r & r' & H)|[H|(b & base & w' & m & wt & H)]].
  - left. exists r, r'. apply elem_of_app. by right.
  - right; by left.
  - right; right. exists b, base, w', m, wt. apply elem_of_app. by right.
Qed.

Definition once_post (x : result exn Work) (tr : list event_) : Prop :=
  (routes tr <= 1)%nat /\ forall w, x = Ok w -> routes tr = 1%nat \/ (routes tr = 0%nat /\ postponed w tr).
Definition once (p : pprog Work) : Prop := given (fun _ => True) p once_post.

Lemma once_bind {A} (p : pprog A) (k : A -> pprog Work) : only plain p -> (forall a, once (k a)) -> once (a ← p; k a).
Proof.
  intros Hp Hk. apply given_bind. eapply given_mono; [|by apply plain_routes]. intros [a|e] tr Htr; [|split; [lia|done]].
  eapply given_mono; [|apply Hk]. intros x tr' [H1 H2]. unfold once_post. rewrite routes_app, Htr. split; [done|].
  intros w Hw. destruct (H2 w Hw) as [?|[? ?]]; [by left|right]. split; [done|by apply postponed_app].
Qed.
Lemma once_route a w : is_route (Ev (Do_ a w) (Ok w)) = true -> once (act_ a w).
Proof.
  intros Ha r _. apply given_lift. assert (E : is_route (Ev (Do_ a w) r) = true) by (by destruct a).
  unfold once_post. rewrite routes_cons, E. cbn. split; [lia|]. intros. by left.
Qed.
Lemma given_and {A} (p : pprog A) (Q1 Q2 : result exn A -> list event_ -> Prop) :
  given (fun _ => True) p Q1 -> given (fun _ => True) p Q2 -> given (fun _ => True) p (fun x tr => Q1 x tr /\ Q2 x tr).
Proof. revert Q1 Q2. induction p as [a|e|R c k IH]; intros Q1 Q2; cbn; [done|done|]. intros H1 H2 r Hr. by apply IH; auto. Qed.
Lemma once_then p (k : Work -> pprog Work) : once p -> (forall w, only plain (k w)) ->
  given (fun _ => True) p (fun x tr => forall w, x = Ok w -> routes tr = 1%nat) -> once (w ← p; k w).
Proof.
  intros Hp Hk H1. apply given_bind. eapply given_mono; [|exact (given_and _ _ _ Hp H1)]. intros [w|e] tr [[Ha Hb] Hc]; [|split; [done|done]].
  eapply given_mono; [|by apply plain_routes]. intros x tr' Htr'. unfold once_post. rewrite routes_app, Htr', Nat.add_0_r, (Hc w) by done.
  split; [lia|by left].
Qed.

#[local] Ltac plainly := unfold act_, save_, save, check_; only_auto; try exact I; try done.
#[local] Ltac once_auto :=
  repeat first [apply once_route; done | apply once_bind; [solve [plainly]|intros] | progress cbn zeta beta iota | case_match].

Lemma transition_once s note human w : once (transition s note human w).
Proof. by apply once_route. Qed.
Lemma retry_once reason w : once (retry_or_fail_ reason w).
Proof. unfold retry_or_fail, retry_or_park_rebase, transition. once_auto. Qed.
Lemma fail_once reason w : once (fail_run_ reason w).
Proof. unfold fail_run. apply once_bind; [plainly|]. intros. apply retry_once. Qed.
Lemma quota_once collected w : once (quota_ collected w).
Proof. unfold handle_quota_env_error, transition. once_auto. Qed.
Lemma blocked_once cost w : once (blocked_route cost w).
Proof. unfold blocked_route, transition. once_auto. Qed.
Lemma question_once recipient cost w : once (question_route recipient cost w).
Proof. unfold question_route, transition. once_auto. Qed.
Lemma decision_once status_ final_text cost w : once (decision_route status_ final_text cost w).
Proof. unfold decision_route, transition. once_auto. Qed.
Lemma unchanged_once w : once (unchanged_route base_for stamp w).
Proof. unfold unchanged_route. once_auto. Qed.

(** After a plain command with its reply *)
Lemma once_after e (p : pprog Work) :
  is_route e = false -> once p \/ (exists w, p = Ret w /\ postponed w [e]) -> given (fun _ => True) p (fun y tr => once_post y (e :: tr)).
Proof.
  intros E [H|(w & -> & Hp)].
  - eapply given_mono; [|exact H]. intros y tr [H1 H2]. unfold once_post. rewrite routes_cons, E. split; [done|].
    intros w Hw. destruct (H2 w Hw) as [?|[? ?]]; [by left|right]. split; [done|]. by apply (postponed_app w [_]).
  - change (once_post (Ok w) [e]). unfold once_post. rewrite routes_cons, E. cbn. split; [lia|]. intros w' [= <-]. by right.
Qed.
Lemma once_do {R} (c : pcmd R) (k : R -> pprog Work) :
  plain R c -> (forall x, once (k x) \/ exists w, k x = Ret w /\ postponed w [Ev c x]) -> once (x ← do_ c; k x).
Proof. intros Hc Hk x _. apply once_after; [|apply Hk]. destruct c; try done. by destruct a. Qed.
Lemma once_save w (k : RunSaveOutcome * Work -> pprog Work) :
  (forall o r, once (k (o, with_run r w)) \/ exists w', k (o, with_run r w) = Ret w' /\ postponed w' [Ev (SaveRun (run w)) (Ok (o, r))]) ->
  once (x ← save w; k x).
Proof. intros Hk [[o r]|e] _; [apply once_after; [done|apply Hk]|]. split; [cbn; lia|done]. Qed.

Lemma publish_pushed_once rn status_ w : once (publish_pushed_ rn status_ w).
Proof.
  unfold publish_pushed. apply once_bind; [plainly; apply only_try; plainly|]. intros [w1|e]; [|apply fail_once].
  apply once_bind; [apply only_try; unfold remote_ahead, ssh_fence; plainly|]. intros found.
  destruct (_ && _); [apply once_bind; [plainly|]; intros; apply once_bind; [plainly|]; intros; apply retry_once|].
  apply once_bind; [unfold record_recovery; plainly|]. intros w2. apply once_bind; [plainly|]. intros w3.
  apply once_do; [done|]. intros [[|m|m] wt].
  - left. once_auto.
  - right. eexists. split; [reflexivity|]. right; right. eexists _, _, _, m, wt. by left.
  - left. apply fail_once.
Qed.

Lemma publish_local_once cost w : once (publish_local_ cost w).
Proof.
  unfold publish_local. apply once_bind; [plainly|]. intros there. destruct (negb there).
  - apply once_bind; [plainly|]. intros w1. unfold transition.
    apply once_then; [by apply once_route|intros; plainly|]. intros [w2|e] _; [|done]. by intros w3 [= <-].
  - apply once_bind; [plainly|]. intros [n|e]; [|apply once_bind; [plainly|]; intros; apply retry_once].
    destruct (n =? 0); [repeat (apply once_bind; [plainly|]; intros); apply retry_once|].
    apply once_bind; [plainly|]. intros w1. apply once_bind; [plainly|]. intros [|message moved expected actual|m]; [by apply once_route| |by apply once_route].
    unfold push_rejected, transition. once_auto.
Qed.

Lemma decide_once rn status_ final_text recipient cost w : once (decide_route_ rn status_ final_text recipient cost w).
Proof.
  unfold decide_route. destruct (res w); [apply once_bind; [plainly|]; intros; apply retry_once|].
  case_bool_decide; [apply blocked_once|]. case_bool_decide; [apply question_once|].
  apply once_bind; [plainly|]. intros disputed. destruct (_ && negb disputed); [apply unchanged_once|].
  destruct (_ || _); [apply decision_once|]. apply once_bind; [plainly|]. intros w1.
  apply once_bind; [unfold note_unchanged; plainly|]. intros w2. apply once_bind; [unfold note_preflight; plainly|]. intros w3.
  destruct (_ || _); [apply publish_pushed_once|apply publish_local_once].
Qed.

Lemma fenced_once rn collected final_text recipient cost w : once (fenced_ rn collected final_text recipient cost w).
Proof.
  unfold fenced. apply once_bind; [plainly|]. intros touched. destruct (nonempty_list touched); [by apply once_route|].
  apply once_bind; [plainly|]. intros x. destruct (nonempty_list x.1); [by apply once_route|].
  unfold after_fences. case_bool_decide; [by apply once_route|]. apply once_bind; [plainly|]. intros there.
  apply once_bind; [plainly; apply only_try; plainly|]. intros [w1|e]; [|apply fail_once].
  destruct (truthy _); [apply quota_once|]. apply once_bind; [plainly|]. intros ?.
  destruct (negb _ && negb _); [apply once_bind; [plainly|]; intros; apply retry_once|].
  unfold route. apply once_bind; [unfold expand_attestation; plainly|]. intros w2.
  apply once_bind; [unfold salvage; plainly|]. intros w3. apply decide_once.
Qed.

(** A pass that a reservation ends *)
Lemma once_reserved {A} (p : pprog A) (k : A -> pprog Work) :
  only plain p -> (forall a, given (fun _ => True) (k a) (fun x tr => routes tr = 0%nat /\ forall w, x = Ok w -> reserved w = true)) ->
  once (a ← p; k a).
Proof.
  intros Hp Hk. apply given_bind. eapply given_mono; [|by apply plain_routes]. intros [a|e] tr Htr; [|split; [lia|done]].
  eapply given_mono; [|apply Hk]. intros x tr' [H1 H2]. unfold once_post. rewrite routes_app, Htr, H1. split; [cbn; lia|].
  intros w Hw. right. split; [done|]. right; left. by apply H2.
Qed.

Lemma finalize_once rn recipient resumed w : once (finalize_ rn recipient resumed w).
Proof.
  unfold finalize. apply once_bind; [plainly|]. intros code. apply once_bind; [plainly|]. intros collected.
  apply once_save. intros o r. destruct o.
  - left. apply once_bind; [plainly|]. intros ?.
    destruct (reserved _) eqn:Hr.
    + apply once_reserved; [plainly|]. intros ? [[o' r']|e] _; (split; [done|]); [|done]. by intros w' [= <-].
    + apply once_bind; [plainly|]. intros ?. apply once_bind; [unfold amend_task, emit_all; plainly; apply only_fold; plainly|].
      intros w3. apply fenced_once.
  - right. eexists. split; [reflexivity|]. left. eexists _, r. by left.
Qed.

(** C32.  A pass over a finished run that returns sends the task somewhere exactly once: it is handed to its pull request, fails, goes to a person, waits for an
    answer, is retried, or returns to a queue; never two of these, however git, the forge and the files answer, and not more than one even when the pass raises.
    The only passes that leave the task where it is are those that a newer outcome of the run supersedes, that a reservation holds, or that wait for room on
    the disk; the next tick resumes them. *)
Theorem finalize_routes_once rn recipient resumed w tr x :
  exec (finalize_ rn recipient resumed w) tr (Some x) ->
  (routes tr <= 1)%nat /\ forall w', x = Ok w' -> routes tr = 1%nat \/ (routes tr = 0%nat /\ postponed w' tr).
Proof.
  intros He. assert (Ht : Forall (fun _ : event_ => True) tr) by (by apply Forall_forall).
  exact (given_exec (fun _ => True) _ _ _ _ He Ht (finalize_once rn recipient resumed w)).
Qed.
End finalizing.

(** ** On a worker of this machine *)

#[local] Abbreviation local_trace := (trace Local.answers Local.pass Local.running).
Lemma local_published : exists w x, local_trace = take 18 local_trace ++ Ev (Do_ (AfterPush "garden/t-1" "main" true) w) x :: [].
Proof. eexists _, _. lazy. reflexivity. Qed.
Lemma publication_guarded_witness : exists s, guarded s (take 18 local_trace) /\ published "garden/t-1" "main" true s.
Proof.
  destruct local_published as (w & x & E).
  eapply publication_guarded; [exact (run_exec Local.answers Local.pass Local.running)|exact E].
Defined.
Lemma finalize_routes_once_witness : exists w, (Effects.run Local.answers Local.finalizing Local.running).1 = Ok w /\
  (routes (trace Local.answers Local.finalizing Local.running) = 1%nat \/
   routes (trace Local.answers Local.finalizing Local.running) = 0%nat /\ postponed w (trace Local.answers Local.finalizing Local.running)).
Proof.
  assert (H : exists w, (Effects.run Local.answers Local.finalizing Local.running).1 = Ok w) by (eexists; lazy; reflexivity).
  destruct H as [w Hw]. exists w. split; [exact Hw|].
  exact (proj2 (finalize_routes_once (fun _ => "main"%string) (fun _ => false) (fun _ => []) 3 3 "2026-01-01T00:00:00Z" (fun _ => "2026-01-01T00:00:00Z"%string)
    (fun _ => "0.10"%string) Garden.local "ana" false Local.work _ _ (run_exec Local.answers Local.finalizing Local.running)) w Hw).
Defined.
