(* ===== verification/ReapCost.v ===== *)
(** * The cost of a run is counted once ([scheduler/reap.py])

    A tick may be killed anywhere between collecting a run and routing its task, and the next ticks resume.  However often that happens, the event that
    carries the cost of the run is written at most once ([cost_counted_once]). *)

From Stdlib Require Import QArith.
From S2P Require Import Prelude PyValue Requirements Effects Shared RunRecords TaskModel DispatchQueue Dispatch Approval Criteria Reap.

#[local] Open Scope list_scope.
#[local] Open Scope Z_scope.

#[local] Abbreviation event_ := (event pcmd).

(** ** What the records promise *)

#[local] Abbreviation rid r := (txt "run_id" r).
Definition finished (r : row) : bool := nonempty (txt "finished_at" r).

(** A reply that shows the durable record of the run [id] as finished *)
Definition shows (id : string) (e : event_) : Prop :=
  match e with
  | @Ev _ R c x => match c in pcmd R return R -> Prop with
    | Reload _ => fun r => rid r = id /\ finished r = true
    | SaveRun _ => fun x => match x with Ok (_, r) => rid r = id /\ finished r = true | Err _ => False end
    | _ => fun _ => False
    end x
  end.
Definition seen (id : string) (tr : list event_) : Prop := exists e, e ∈ tr /\ shows id e.

Definition announces (id : string) (e : event_) : bool :=
  match e with @Ev _ R c _ => match c with RunFinished i _ => bool_decide (i = id) | _ => false end end.
Definition announced (id : string) (tr : list event_) : nat := length (List.filter (announces id) tr).

(** What the records promise: a run keeps its name and mode; a committed save keeps the time of the end; nobody takes that time away again; a run that is
    recorded as timed out has one; and the recovery of an SSH run leaves the status of a run that it does not hold. *)
Definition same_run (r r' : row) : Prop := rid r' = rid r /\ txt "mode" r' = txt "mode" r.
Definition durable (tr : list event_) (r : row) : Prop :=
  (seen (rid r) tr -> finished r = true) /\ (txt "status" r = "timeout" -> finished r = true).
Definition promise (tr : list event_) (e : event_) : Prop :=
  match e with
  | @Ev _ R c x => match c in pcmd R return R -> Prop with
    | Reload r => fun r' => same_run r r' /\ durable tr r'
    | SaveRun r => fun x => match x with
        | Ok (o, r') => same_run r r' /\ durable tr r' /\ (o = COMMITTED -> finished r = true -> finished r' = true)
        | Err _ => True
        end
    | SshHold w => fun x => x.1 = false -> same_run (run w) (run x.2) /\ txt "status" (run x.2) = txt "status" (run w)
    | Do_ PreserveTimeout w => fun x => match x with Ok w' => same_run (run w) (run w') | Err _ => True end
    | _ => fun _ => True
    end x
  end.
Definition honest (tr : list event_) : Prop := forall a e b, tr = a ++ e :: b -> promise a e.

Lemma honest_snoc tr e : honest (tr ++ [e]) -> honest tr /\ promise tr e.
Proof.
  intros H. split; [|by apply (H tr e [])]. intros a x b ->. apply (H a x (b ++ [e])). by rewrite <- app_assoc.
Qed.
Lemma honest_app tr s : honest (tr ++ s) -> honest tr.
Proof. intros H a x b ->. apply (H a x (b ++ s)). by rewrite <- app_assoc. Qed.
Lemma seen_more id tr s : seen id tr -> seen id (tr ++ s).
Proof. intros (e & He & Hs). exists e. rewrite elem_of_app. auto. Qed.
Lemma announced_app id tr s : announced id (tr ++ s) = (announced id tr + announced id s)%nat.
Proof. unfold announced. by rewrite List.filter_app, length_app. Qed.

(** The event is written for a run that is recorded as finished, and for the first time. *)
Definition announce_ok (tr : list event_) (e : event_) : Prop :=
  forall id, announces id e = true -> honest tr -> announced id tr = 0%nat /\ seen id tr.

Lemma allowed_once tr : allowed announce_ok tr -> honest tr -> forall id, (announced id tr <= 1)%nat /\ (announced id tr = 1%nat -> seen id tr).
Proof.
  induction 1 as [|tr e Ha IH He]; intros Hh id; [split; [cbn; lia|done]|].
  apply honest_snoc in Hh as [Hh _]. destruct (IH Hh id) as [H1 H2]. rewrite announced_app.
  unfold announced at 2 4. cbn [List.filter]. destruct (announces id e) eqn:E; cbn [length].
  - destruct (He id E Hh) as [-> Hs]. split; [lia|]. intros _. by apply seen_more.
  - rewrite Nat.add_0_r. split; [done|]. intros H. by apply seen_more, H2.
Qed.

Definition calm (R : Type) (c : pcmd R) : Prop := match c with RunFinished _ _ => False | _ => True end.
Lemma calm_announces R (c : pcmd R) x id : calm R c -> announces id (Ev c x) = false.
Proof. by destruct c. Qed.
Lemma calm_ok tr R (c : pcmd R) x : calm R c -> announce_ok tr (Ev c x).
Proof. intros Hc id H. by rewrite calm_announces in H. Qed.

(** The run at hand, which no pass has announced *)
Definition fresh (id : string) (tr : list event_) (r : row) : Prop :=
  honest tr -> rid r = id /\ announced id tr = 0%nat /\ (txt "status" r = "timeout" -> seen id tr).
Lemma fresh_more id tr r R (c : pcmd R) x : calm R c -> fresh id tr r -> fresh id (tr ++ [Ev c x]) r.
Proof.
  intros Hc Hf [Hh _]%honest_snoc. destruct (Hf Hh) as (H1 & H2 & H3). split; [done|]. split; [|intros H; by apply seen_more, H3].
  rewrite announced_app, H2. unfold announced. cbn [List.filter]. by rewrite calm_announces.
Qed.

#[local] Abbreviation anyhow := (fun _ _ => True).
Lemma calm_safe {A} (p : pprog A) tr : only calm p -> safe announce_ok p tr anyhow.
Proof. intros Hp. eapply safe_mono; [|apply (only_safe calm); [apply calm_ok|exact Hp]]. done. Qed.
Lemma calm_under {A B} (P : list event_ -> Prop) (p : pprog A) (f : A -> pprog B) tr :
  (forall tr R (c : pcmd R) x, calm R c -> P tr -> P (tr ++ [Ev c x])) -> P tr -> only calm p ->
  (forall a tr', P tr' -> safe announce_ok (f a) tr' anyhow) -> safe announce_ok (a ← p; f a) tr anyhow.
Proof.
  intros HP Htr Hp Hf. apply safe_bind. revert tr Htr. induction p as [a|e|R c k IH]; intros tr Htr; cbn in *; [by apply Hf|done|].
  destruct Hp as [Hc Hk]. intros x. split; [by apply calm_ok|]. apply IH; [done|]. by apply HP.
Qed.
Lemma then_anyhow {A B} (p : pprog A) (f : A -> pprog B) tr :
  safe announce_ok p tr anyhow -> (forall a tr', safe announce_ok (f a) tr' anyhow) -> safe announce_ok (a ← p; f a) tr anyhow.
Proof. intros Hp Hf. apply safe_bind. eapply safe_mono; [|exact Hp]. intros [a|e] tr' _; [apply Hf|done]. Qed.

#[local] Ltac calmly := unfold act_, save_, save, transition, act_, check_; only_auto; try exact I; try done.

Section announcing.
Context (float : pyval -> result exn Q) (runner_for : Task -> string -> string -> Runner).
Context (base_for : Task -> string) (external_stack_owner : Task -> bool) (missing_preflight : pyval -> list string).
Context (product_timeout : string -> Q) (admission_wait idle_kill : Q).
Context (max_attempts max_env_errors : Z) (now : string) (stamp : nat -> string) (money : pyval -> string).
Hypothesis now_text : nonempty now = true.

#[local] Abbreviation finalize_ := (finalize base_for external_stack_owner missing_preflight max_attempts max_env_errors now stamp money).
#[local] Abbreviation fenced_ := (fenced base_for external_stack_owner missing_preflight max_attempts max_env_errors now stamp).
#[local] Abbreviation retry_ := (retry_or_fail max_attempts now stamp).
#[local] Abbreviation reap_ := (reap float runner_for base_for external_stack_owner missing_preflight product_timeout admission_wait idle_kill
  max_attempts max_env_errors now stamp money).

Lemma retry_calm reason w : only calm (retry_ reason w).
Proof. unfold retry_or_fail, retry_or_park_rebase. calmly. Qed.
Lemma fail_calm reason w : only calm (fail_run max_attempts now stamp reason w).
Proof. unfold fail_run. apply only_bind; [calmly|]. intros. apply retry_calm. Qed.
Lemma publish_calm rn status_ w : only calm (publish_pushed base_for max_attempts now stamp rn status_ w).
Proof.
  unfold publish_pushed. apply only_bind; [apply only_try; calmly|]. intros [w1|e]; [|apply fail_calm].
  apply only_bind; [apply only_try; unfold remote_ahead, ssh_fence; calmly|]. intros found. destruct (_ && _).
  - calmly; apply retry_calm.
  - apply only_bind; [unfold record_recovery; calmly|]. intros w2.
    repeat (apply only_bind; [calmly|]; intros). case_match. case_match; [calmly|calmly|apply fail_calm].
Qed.
Lemma local_calm cost w : only calm (publish_local base_for external_stack_owner max_attempts now stamp cost w).
Proof. unfold publish_local, push_rejected. calmly; apply retry_calm. Qed.
Lemma route_calm rn final_text recipient cost w :
  only calm (route base_for external_stack_owner missing_preflight max_attempts now stamp rn final_text recipient cost w).
Proof.
  unfold route. apply only_bind; [unfold expand_attestation; calmly|]. intros w1. apply only_bind; [unfold salvage; calmly|]. intros w2.
  unfold decide_route. destruct (res w2); [calmly; apply retry_calm|].
  case_bool_decide; [unfold blocked_route; calmly|]. case_bool_decide; [unfold question_route; calmly|].
  apply only_bind; [calmly|]. intros disputed. destruct (_ && negb disputed); [unfold unchanged_route; calmly|].
  destruct (_ || _); [unfold decision_route; calmly|]. apply only_bind; [calmly|]. intros w3.
  apply only_bind; [unfold note_unchanged; calmly|]. intros w4. apply only_bind; [unfold note_preflight; calmly|]. intros w5.
  destruct (_ || _); [apply publish_calm|apply local_calm].
Qed.
Lemma fenced_calm rn collected final_text recipient cost w : only calm (fenced_ rn collected final_text recipient cost w).
Proof.
  unfold fenced, after_fences. apply only_bind; [calmly|]. intros touched. destruct (nonempty_list touched); [calmly|].
  apply only_bind; [calmly|]. intros x. destruct (nonempty_list x.1); [calmly|]. case_bool_decide; [calmly|].
  apply only_bind; [calmly|]. intros there. apply only_bind; [calmly; apply only_try; calmly|]. intros [w1|e]; [|apply fail_calm].
  destruct (truthy _); [unfold handle_quota_env_error; calmly|]. apply only_bind; [calmly|]. intros ?.
  destruct (negb _ && negb _); [calmly; apply retry_calm|apply route_calm].
Qed.
Lemma rest_calm rn collected final_text recipient cost w :
  only calm (w ← amend_task stamp w; fenced_ rn collected final_text recipient cost w).
Proof. apply only_bind; [unfold amend_task, emit_all; calmly; apply only_fold; calmly|]. intros. apply fenced_calm. Qed.

(** What the collection leaves of the record *)
Lemma run_set k v w : run (set_run k v w) = dset k v (run w).
Proof. done. Qed.
Lemma run_set_result d w : run (set_result d w) = dset "result" (PDict d) (run w).
Proof. done. Qed.
Lemma collect_keeps rn code collected w k :
  k ∉ ["exit_code"; "finished_at"; "env_snapshot"; "pushed_head"; "result"; "usage"; "cost_usd"; "model"; "error"; "session_id"] ->
  pget k (run (collect now rn code collected w)) = pget k (run w).
Proof.
  intros Hk. rewrite !not_elem_of_cons in Hk. destruct_and! Hk. unfold collect. cbv zeta. rewrite !run_set, run_set_result.
  rewrite !pget_dset_ne by done. unfold take_publication. case_bool_decide; [|by rewrite !run_set, !pget_dset_ne].
  destruct (forallb _ _); unfold set_snapshot; by rewrite ?run_set, !pget_dset_ne.
Qed.
Lemma collect_finishes rn code collected w : finished (run (collect now rn code collected w)) = true.
Proof.
  unfold finished. erewrite txt_at; [exact now_text|]. unfold collect. cbv zeta. rewrite !run_set, run_set_result.
  rewrite !pget_dset_ne by done. unfold take_publication. case_bool_decide; [|by rewrite run_set, pget_dset_eq].
  destruct (forallb _ _); unfold set_snapshot; rewrite ?run_set, ?pget_dset_ne by done; by rewrite pget_dset_eq.
Qed.
Lemma txt_collect rn code collected w : rid (run (collect now rn code collected w)) = rid (run w).
Proof. unfold txt. rewrite collect_keeps; [done|]. compute_done. Qed.

(** *** Reaping *)
Lemma save_tail_safe {B} w (k : RunSaveOutcome * Work -> pprog B) tr :
  (forall o r, safe announce_ok (k (o, with_run r w)) (tr ++ [Ev (SaveRun (run w)) (Ok (o, r))]) anyhow) ->
  safe announce_ok (x ← save w; k x) tr anyhow.
Proof. intros H [[o r]|e]; (split; [by apply calm_ok|]); [apply H|exact I]. Qed.

Lemma finalize_announces rn recipient resumed w tr id :
  (resumed = false -> fresh id tr (run w)) -> safe announce_ok (finalize_ rn recipient resumed w) tr anyhow.
Proof.
  intros Hf. unfold finalize. intros code. split; [by apply calm_ok|]. intros collected. split; [by apply calm_ok|].
  apply (save_tail_safe (collect now rn code collected w)). intros o r. destruct o; [|exact I]. set (w1 := collect now rn code collected w). eapply (calm_under (fun tr' => resumed = false -> honest tr' -> rid r = id /\ announced id tr' = 0%nat /\ seen id tr')).
  { intros tr' R c x Hc H Hr [Hh _]%honest_snoc. destruct (H Hr Hh) as (H1 & H2 & H3). split; [done|]. split; [|by apply seen_more].
    rewrite announced_app, H2. unfold announced. cbn [List.filter]. by rewrite calm_announces. }
  { intros Hr Hh. specialize (Hf Hr).
    apply (fresh_more _ _ _ _ (ReadExitCode (run w)) code I), (fresh_more _ _ _ _ (Collect (run w)) collected I) in Hf.
    apply honest_snoc in Hh as [Hh (Hs & Hd & Hc)]. destruct (Hf Hh) as (H1 & H2 & _). destruct Hs as [Hs _].
    assert (E : rid r = id) by (rewrite Hs; subst w1; by rewrite txt_collect).
    split; [done|]. split; [rewrite announced_app, H2; done|]. eexists. split; [apply elem_of_app; right; by apply list_elem_of_singleton|].
    split; [done|]. apply Hc; [done|]. apply collect_finishes. }
  { calmly. }
  intros ? tr2 H2. apply then_anyhow; [|intros; apply calm_safe].
  - destruct resumed; [done|]. intros ?. split; [|done]. intros id' E Hh. cbn in E. apply bool_decide_eq_true in E as <-.
    destruct (H2 eq_refl Hh) as (E1 & E2 & E3). change (rid (run (with_run r w1))) with (rid r). by rewrite E1.
  - destruct (reserved _); [calmly|apply rest_calm].
Qed.

Lemma expire_fresh {B} error revoke w tr id (k : bool * Work -> pprog B) :
  fresh id tr (run w) ->
  (forall b w' tr', (b = true -> fresh id tr' (run w')) -> safe announce_ok (k (b, w')) tr' anyhow) ->
  safe announce_ok (x ← expire now error revoke w; k x) tr anyhow.
Proof.
  intros Hf Hk. unfold expire. intros u. split; [by apply calm_ok|]. apply (fresh_more _ _ _ _ (Kill (run w)) u I) in Hf.
  set (w1 := set_run "error" (PStr error) (set_run "finished_at" (PStr now) (set_status "timeout" w))).
  assert (E1 : rid (run w1) = rid (run w)) by (subst w1; unfold set_status, txt; by rewrite !run_set, !pget_dset_ne).
  set (w2 := if revoke && bool_decide (txt "runner" (run w1) = "remote")
             then set_run "lease_expires_at" (PStr "") (set_run "lease_token" (PStr "") w1) else w1).
  assert (E2 : rid (run w2) = rid (run w)).
  { rewrite <- E1. subst w2. destruct (_ && _); [|done]. unfold txt. by rewrite !run_set, !pget_dset_ne. }
  change (safe announce_ok (x ← (x ← try_ (save_ w2); Ret match x with Ok w' => (true, w') | Err _ => (false, w2) end); k x) (tr ++ [Ev (Kill (run w)) u]) anyhow).
  clearbody w2. clear E1 w1. intros [[o r']|e]; (split; [by apply calm_ok|]); [|by apply Hk].
  apply Hk. intros _ Hh. cbn [run with_run]. apply honest_snoc in Hh as [Hh ([Hs _] & [_ Hd] & _)]. destruct (Hf Hh) as (H1 & H2 & _).
  assert (E : rid r' = id) by (by rewrite Hs, E2). split; [done|]. split; [rewrite announced_app, H2; done|].
  intros Ht. eexists. split; [apply elem_of_app; right; by apply list_elem_of_singleton|]. split; [done|by apply Hd].
Qed.
Lemma over_fresh {B} w rn tr id (k : bool * Work -> pprog B) :
  fresh id tr (run w) -> txt "status" (run w) <> "timeout" ->
  (forall b w' tr', (b = true -> fresh id tr' (run w')) -> safe announce_ok (k (b, w')) tr' anyhow) ->
  safe announce_ok (x ← finished_or_timed_out float product_timeout admission_wait idle_kill now w rn; k x) tr anyhow.
Proof.
  intros Hf Hs Hk. assert (Ht : forall w tr, fresh id tr (run w) -> safe announce_ok (x ← timed_out float product_timeout admission_wait idle_kill now w rn; k x) tr anyhow).
  { clear w tr Hf Hs. intros w tr Hf. unfold timed_out.
    assert (Hstep : forall R (c : pcmd R) (f : R -> pprog (bool * Work)) tr, calm R c -> fresh id tr (run w) ->
              (forall x, fresh id (tr ++ [Ev c x]) (run w) -> safe announce_ok (y ← f x; k y) (tr ++ [Ev c x]) anyhow) ->
              safe announce_ok (y ← (x ← do_ c; f x); k y) tr anyhow).
    { intros R c f tr0 Hc H0 H x. split; [by apply calm_ok|]. apply H. by apply fresh_more. }
    apply Hstep; [done|done|]. intros [] H1; [by apply Hk|]. destruct (negb (rn_detached rn)); [by apply Hk|].
    destruct (timeout_minutes _ _ _) as [limit|e]; [|done]. apply Hstep; [done|done|]. intros elapsed H2.
    destruct (_ && _); [by eapply expire_fresh|]. apply Hstep; [done|done|]. intros [[reason since]|] H3.
    - destruct (_ && _); [by eapply expire_fresh|by apply Hk].
    - destruct (positive idle_kill); [|by apply Hk]. apply Hstep; [done|done|]. intros idle H4.
      destruct (Qle_bool _ _); [by eapply expire_fresh|by apply Hk]. }
  unfold finished_or_timed_out. case_bool_decide; [|by apply Ht]. intros [hold w1]. split; [by apply calm_ok|]. cbn [fst snd].
  destruct hold; [by apply Hk|].
  assert (H1 : fresh id (tr ++ [Ev (SshHold w) (false, w1)]) (run w1)).
  { intros Hh. apply honest_snoc in Hh as [Hh Hp]. destruct (Hp eq_refl) as [[E1 _] E2]. cbn [snd] in *. destruct (Hf Hh) as (H1 & H2 & _).
    split; [congruence|]. split; [rewrite announced_app, H2; done|]. congruence. }
  change (safe announce_ok (x ← (if truthy (pget "ssh_tmux_session" (snapshot (run w1)))
    then over ← do_ (ProcessFinished (run w1)); Ret (over : bool, w1) else timed_out float product_timeout admission_wait idle_kill now w1 rn); k x)
    (tr ++ [Ev (SshHold w) (false, w1)]) anyhow).
  destruct (truthy _); [|by apply Ht]. intros over. split; [by apply calm_ok|]. apply Hk. intros _. by apply fresh_more.
Qed.

Lemma timeout_announces w tr id : fresh id tr (run w) -> txt "status" (run w) = "timeout" -> safe announce_ok (reap_timeout max_attempts now stamp w) tr anyhow.
Proof.
  intros Hf Hs. unfold reap_timeout. case_bool_decide; [apply calm_safe; calmly|]. intros [w1|e]; (split; [by apply calm_ok|]); [|exact I].
  intros ?. split; [|apply calm_safe; calmly; apply retry_calm]. intros id' E Hh. apply honest_snoc in Hh as [Hh Hp].
  destruct (Hf Hh) as (H1 & H2 & H3). destruct Hp as [Hr _]. cbn in E. apply bool_decide_eq_true in E as <-.
  rewrite Hr, H1, announced_app, H2. split; [done|]. apply seen_more. by apply H3.
Qed.

Lemma latest_mode runs r : latest_worker_run runs = Some r -> mem (txt "mode" r) WORKER_MODES = true.
Proof.
  unfold latest_worker_run. set (worker := List.filter _ runs).
  assert (Hw : forall r, r ∈ worker -> mem (txt "mode" r) WORKER_MODES = true) by (intros x Hx; apply list_elem_of_In, filter_In in Hx; tauto).
  destruct (last (List.filter _ worker)) as [r'|] eqn:E; intros Hr.
  - injection Hr as <-. apply Hw, list_elem_of_In. apply last_Some_elem_of, list_elem_of_In, filter_In in E. tauto.
  - by apply Hw, last_Some_elem_of.
Qed.

Lemma safe_step {R B} (c : pcmd R) (k : R -> pprog B) tr :
  calm R c -> (forall x, safe announce_ok (k x) (tr ++ [Ev c x]) anyhow) -> safe announce_ok (x ← do_ c; k x) tr anyhow.
Proof. intros Hc Hk x. split; [by apply calm_ok|apply Hk]. Qed.

Lemma resume_announces recipient w tr :
  safe announce_ok (resume runner_for base_for external_stack_owner missing_preflight max_attempts max_env_errors now stamp money recipient w) tr anyhow.
Proof.
  unfold resume. destruct (reserved w); [done|]. apply then_anyhow; [|done]. destruct (nonempty (txt _ _)); [apply calm_safe, retry_calm|].
  case_bool_decide; [apply calm_safe; calmly; apply retry_calm|]. by apply (finalize_announces _ _ _ _ _ "").
Qed.

Lemma running_announces recipient w tr id : fresh id tr (run w) -> txt "status" (run w) <> "timeout" ->
  safe announce_ok (reap_running float runner_for base_for external_stack_owner missing_preflight product_timeout admission_wait idle_kill
    max_attempts max_env_errors now stamp money recipient w) tr anyhow.
Proof.
  intros Hf Hs. unfold reap_running.
  set (rest := fun x : bool * Work => let '(over, w) := x in if negb over then Ret (false, w) else _).
  assert (Hrest : forall b w' tr', (b = true -> fresh id tr' (run w')) -> safe announce_ok (rest (b, w')) tr' anyhow).
  { intros [] w1 tr1 H1; [|done]. specialize (H1 eq_refl). unfold rest. cbn [negb].
    assert (Hend : forall r tr, fresh id tr r -> safe announce_ok (if bool_decide (txt "status" (run (with_run r w1)) = "timeout")
        then reap_timeout max_attempts now stamp (with_run r w1)
        else w ← finalize_ (runner_for (task w) (txt "runner" (run w)) (txt "harness" (run w))) recipient false (with_run r w1); Ret (true, w)) tr anyhow).
    { intros r tr2 H2. case_bool_decide; [by eapply timeout_announces|]. apply then_anyhow; [|done]. by apply (finalize_announces _ _ _ _ _ id). }
    case_bool_decide; [|by apply Hend]. apply safe_step; [done|]. intros r. apply Hend. intros Hh. apply honest_snoc in Hh as [Hh [[Hs1 _] [_ Hd]]].
    destruct (H1 Hh) as (E1 & E2 & E3). split; [congruence|]. split; [rewrite announced_app, E2; done|]. intros Ht.
    eexists. split; [apply elem_of_app; right; by apply list_elem_of_singleton|]. split; [congruence|by apply Hd]. }
  clearbody rest. destruct (reserved w); [|by eapply over_fresh].
  apply safe_step; [done|]. intros over. apply Hrest. intros _. by apply fresh_more.
Qed.

Lemma reap_announces recipient t st tr :
  status t = RUNNING -> allowed announce_ok tr -> safe announce_ok (reap_ recipient t st) tr anyhow.
Proof.
  intros Ht Ha. unfold reap. apply safe_step; [done|]. intros runs.
  assert (Ha1 : allowed announce_ok (tr ++ [Ev (RunsFor (id t)) runs])) by (constructor; [done|by apply calm_ok]).
  set (tr1 := tr ++ _) in *. clearbody tr1. clear tr Ha. destruct (latest_worker_run runs) as [r0|] eqn:El; [|apply calm_safe; unfold no_run; calmly].
  apply latest_mode in El. apply safe_step; [done|]. intros r.
  set (w := {| task := t; run := r; entry_ := st; res := [] |}).
  assert (Hm : honest (tr1 ++ [Ev (Reload r0) r]) -> txt "mode" r <> "review").
  { intros Hh. apply honest_snoc in Hh as [_ [[_ Hm] _]]. rewrite Hm. intros E. by rewrite E in El. }
  assert (Hf : finished r = false -> fresh (rid r) (tr1 ++ [Ev (Reload r0) r]) r).
  { intros Hn Hh. split; [done|]. apply honest_snoc in Hh as [Hh [Hsame [Hd1 Hd2]]]. destruct (allowed_once _ Ha1 Hh (rid r)) as [H1 H2].
    rewrite announced_app. split; [|intros Hs; rewrite (Hd2 Hs) in Hn; done]. destruct (announced (rid r) tr1) as [|n] eqn:En; [done|].
    assert (n = 0%nat) as -> by lia. rewrite (Hd1 (H2 eq_refl)) in Hn. done. }
  set (tr2 := tr1 ++ [Ev (Reload r0) r]) in *. clearbody tr2. clear r0 El Ha1 tr1.
  set (mine := negb (is_manual r) || (pushed_mode r && submitted r)).
  assert (Hrest : mine = true -> forall tr, (is_unreaped t r = false -> fresh (rid r) tr r) ->
    safe announce_ok (if is_unreaped t r
      then resume runner_for base_for external_stack_owner missing_preflight max_attempts max_env_errors now stamp money recipient w
      else if negb (bool_decide (txt "status" r = "running")) then no_run w (Some r)
      else reap_running float runner_for base_for external_stack_owner missing_preflight product_timeout admission_wait idle_kill
        max_attempts max_env_errors now stamp money recipient w) tr anyhow).
  { intros Hmine tr Hu. destruct (is_unreaped t r); [by apply resume_announces|]. case_bool_decide as Hs; cbn [negb]; [|apply calm_safe; unfold no_run; calmly].
    eapply (running_announces recipient w tr (rid r)); [by apply Hu|]. change (txt "status" r <> "timeout"). by rewrite Hs. }
  assert (Hu : mine = true -> is_unreaped t r = false -> fresh (rid r) tr2 r).
  { intros Hmine Hu Hh. apply Hf; [|done]. destruct (finished r) eqn:E; [|done]. unfold is_unreaped in Hu. fold mine in Hu.
    fold (finished r) in Hu. rewrite Hmine, E, (bool_decide_eq_true_2 _ Ht), (bool_decide_eq_false_2 _ (Hm Hh)) in Hu. done. }
  destruct (is_manual r) eqn:Em; [destruct (pushed_mode r && submitted r) eqn:Ep|]; subst mine; cbn [negb orb] in *; rewrite ?Em, ?Ep in *.
  - apply (calm_under (fun tr => is_unreaped t r = false -> fresh (rid r) tr r)); [intros; apply fresh_more; auto|by apply Hu|calmly|].
    intros [] tr3 H3; [done|]. by apply Hrest.
  - done.
  - apply Hrest; [done|]. by apply Hu.
Qed.

(** C33.  However often a tick is killed while it reaps a run, and the next ones resume, the event that carries the cost of the run is written at most once:
    the time of the end is recorded before it, and a pass that finds the run ended does not write it again.  The passes are whole or cut off anywhere, and git,
    the forge, the processes and the files answer as they like; but records last. *)
Theorem cost_counted_once recipient passes traces run_id :
  Forall2 (fun pass tr => status pass.1 = RUNNING /\ exists o, exec (reap_ recipient pass.1 pass.2) tr o) passes traces ->
  honest (concat traces) -> (announced run_id (concat traces) <= 1)%nat.
Proof.
  intros Hp Hh. enough (Ha : forall tr, allowed announce_ok tr -> allowed announce_ok (tr ++ concat traces)) by (apply allowed_once; [apply (Ha []), allowed_nil|done]).
  clear Hh. induction Hp as [|[t st] tr passes traces [Ht [o He]] _ IH]; intros tr0 Ha; [by rewrite app_nil_r|]. cbn [concat]. rewrite app_assoc.
  apply IH. by destruct (safe_exec announce_ok _ tr0 _ _ _ He (reap_announces _ _ _ _ Ht Ha) Ha).
Qed.
End announcing.

(** ** A tick that is killed once the cost is written *)

Lemma exec_take {A} n (p : pprog A) tr o : exec p tr o -> exists o', exec p (take n tr) o'.
Proof.
  intros He. revert n. induction He as [a|e|p|R c k r tr o He IH]; intros n; rewrite ?take_nil; [by eexists; constructor..|].
  destruct n as [|n]; [by eexists; constructor|]. destruct (IH n) as [o' H]. exists o'. by constructor.
Qed.
Lemma honest_nil : honest [].
Proof. by intros [|??] ???. Qed.
Lemma honest_next tr e : honest tr -> promise tr e -> honest (tr ++ [e]).
Proof.
  intros Ht He a x b H. destruct b as [|y b _] using rev_ind; [by apply app_inj_tail in H as [-> ->]|].
  rewrite app_comm_cons, app_assoc in H. apply app_inj_tail in H as [-> _]. by eapply Ht.
Qed.
Fixpoint honest_after (tr s : list event_) : Prop :=
  match s with [] => True | e :: s' => promise tr e /\ honest_after (tr ++ [e]) s' end.
Lemma honest_from tr s : honest tr -> honest_after tr s -> honest (tr ++ s).
Proof.
  revert tr. induction s as [|e s IH]; intros tr Ht; [by rewrite app_nil_r|]. intros [He Hs]. change (e :: s) with ([e] ++ s). rewrite app_assoc.
  apply IH; [by apply honest_next|done].
Qed.
Lemma honest_after_cons tr e s : promise tr e -> honest_after (tr ++ [e]) s -> honest_after tr (e :: s).
Proof. by split. Qed.
Lemma reload_promise tr r r' : same_run r r' -> finished r' = true -> promise tr (Ev (Reload r) r').
Proof. by split. Qed.
Lemma save_promise tr r r' : same_run r r' -> finished r' = true -> promise tr (Ev (SaveRun r) (Ok (COMMITTED, r'))).
Proof. by split. Qed.

#[local] Abbreviation first := (trace Local.answers Local.pass Local.running).
Definition ended : row := run (collect "2026-01-01T00:00:00Z" Garden.local (Some 0) Local.collected Local.work).
#[local] Abbreviation second := (trace Local.answers Local.pass ended).

Lemma sample_honest : honest (take 8 first ++ take 6 second ++ []).
Proof.
  apply (honest_from []); [apply honest_nil|].
  let l := eval lazy in (take 8 first ++ take 6 second ++ []) in change (honest_after [] l).
  apply honest_after_cons; [exact I|]. apply honest_after_cons; [split; [done|]|].
  - split; [|done]. intros (e & He & Hs). apply list_elem_of_singleton in He as ->. done.
  - repeat (apply honest_after_cons; [first [exact I | apply save_promise; done | apply reload_promise; done]|]). exact I.
Qed.
Lemma cost_counted_once_witness : announced "r1" (take 8 first) = 1%nat /\ (announced "r1" (concat [take 8 first; take 6 second]) <= 1)%nat.
Proof.
  split; [lazy; reflexivity|].
  eapply (cost_counted_once (fun _ => Ok 0%Q) (fun _ _ _ => Garden.local) (fun _ => "main"%string) (fun _ => false) (fun _ => []) (fun _ => 0%Q) 0%Q 0%Q 3 3
    "2026-01-01T00:00:00Z" (fun _ => "2026-01-01T00:00:00Z"%string) (fun _ => "0.10"%string) eq_refl "ana" [(Local.task, []); (Local.task, [])]).
  - repeat constructor; (eapply exec_take; [..]).
    + exact (run_exec Local.answers Local.pass Local.running).
    + exact (run_exec Local.answers Local.pass ended).
  - exact sample_honest.
Defined.

(** A tick that is killed between the two leaves a run whose cost is never written: the pass that resumes publishes the work and takes the event for written. *)
Lemma cost_can_be_lost : exists w,
  (Effects.run Local.answers Local.pass ended).1 = Ok (true, w) /\ announced "r1" (take 6 first ++ second) = 0%nat /\
  exists e, last (take 6 first) = Some e /\ match e with @Ev _ R c _ => match c with SaveRun r => r = ended | _ => False end end.
Proof.
  eexists. split; [lazy; reflexivity|]. split; [lazy; reflexivity|]. eexists. split; [lazy; reflexivity|]. lazy. reflexivity.
Qed.

(** ** What a kill repeats

    The entry of the side-store is saved before the transition that it belongs to.  A tick killed between the two leaves a task that the next tick resumes with
    the entry already changed. *)

Definition saved (tr : list event_) : list row :=
  omap (fun e => match e with @Ev _ R c _ => match c with SaveState s => Some s | _ => None end end) tr.
Definition with_mode (mode : string) (entry : row) : Work :=
  {| task := retask "garden/t-1" "https://github.com/o/r/pull/1" 1 Local.task; run := dset "mode" (PStr mode) Local.running; entry_ := entry; res := [] |}.
Definition quota_pass (entry : row) : list row :=
  saved (trace Local.answers (handle_quota_env_error 3 "now" [("env_error", PBool true); ("env_kind", PStr "quota")] (with_mode "revise" entry)) Local.running).
Definition rebase_pass (entry : row) : pprog Work := retry_or_park_rebase "now" (fun _ => "now"%string) "timed out" (with_mode "rebase" entry).

(** One run that stopped on a quota gives back two rounds of revision, and counts two environment errors. *)
Lemma round_refunded_twice : exists once twice,
  quota_pass [("revisions", PInt 2)] = [once] /\ pget "revisions" once = PInt 1 /\ pget "consecutive_env_errors" once = PInt 1 /\
  quota_pass once = [twice] /\ pget "revisions" twice = PInt 0 /\ pget "consecutive_env_errors" twice = PInt 2.
Proof. eexists _, _. split; [lazy; reflexivity|]. do 2 (split; [lazy; reflexivity|]). split; [lazy; reflexivity|]. by split; lazy. Qed.

(** A rebase that failed once goes to a person, without its second attempt. *)
Definition sent (tr : list event_) : list (Status * bool) :=
  omap (fun e => match e with @Ev _ R c _ => match c with Do_ (Transition s _ human) _ => Some (s, human) | _ => None end end) tr.
Lemma rebase_parked_without_retry : exists once,
  saved (trace Local.answers (rebase_pass []) Local.running) = [once] /\
  sent (trace Local.answers (rebase_pass []) Local.running) = [(CHANGES_REQUESTED, false)] /\
  sent (trace Local.answers (rebase_pass once) Local.running) = [(IN_REVIEW, true)].
Proof. eexists. split; [lazy; reflexivity|]. split; lazy; reflexivity. Qed.
